(* ===== verification/_CoqProject ===== *)
-Q . S2P
Prelude.v
Outcome.v
Signature.v
RuleReader.v
Handler.v
Detector.v
Decoder.v
AppParser.v
Idps.v
Consumer.v
BitData.v
PerSupport.v
PerNatural.v
PerCodec.v
OpenType.v
BerTlv.v
AsnInteger.v
UperInteger.v
SequenceOf.v
SetOf.v
Oer.v
OerStream.v
OerSetOf.v
OctetString.v
BerPrim.v
BerType.v
Wrapper.v
Constraints.v
Enumerated.v
IntegerXer.v
Xer.v
XerPrim.v
Members.v
ConstrSequence.v
ConstrChoice.v
OerChoice.v
OerSequence.v
ObjectIdentifier.v
BitString.v
StringBer.v
XerString.v
XerFrame.v
XerSetOf.v
XerChoice.v
BerFrame.v
BerSetOf.v
BerChoice.v
ConstrConstraint.v
BerSequence.v
Copying.v
XerSequence.v
XerTypes.v
Natural.v
Application.v
