(* ===== verification/Prelude.v ===== *)
(** * Verification of Mitvane

    Mitvane is an intrusion detection system for vehicular networks: it takes
    the GeoNetworking packets a link receives, decodes them, matches them
    against the rules of a YAML file, logs and possibly drops what matches and
    forwards the rest.  The messages inside are ASN.1 values; the repository
    carries the run-time library that encodes and decodes them
    (src/vanetza-extension/asn1/support/).  This development models both: the
    pipeline in C++ and the codecs in C.

    ** How the parts interact

    [Idps.run] is IdpsContext::run.  For a packet of another station with the
    GeoNetworking ether type it calls the decoders ([Decoder]), picks an
    application parser by port ([AppParser]), hands the decoded fields
    ([Detector.detection_context]) to the detector ([Detector]) with the rules
    the reader produced ([RuleReader], data in [Signature]), hands the report
    to the message handler ([Handler]) and forwards the packet unless the
    handler says Drop.  The application parsers call the ASN.1 wrapper, which
    is where the second half of the development begins: the wrapper
    ([PerCodec]) runs a type's own encoder and decoder, and the files below
    are those of the basic and constructed types.

    ** Files, and the sources they model

    The pipeline, src/mitvane/:
    - [Outcome]: what a C++ call ends in: it returns, throws or is undefined;
    - [Signature]: rule_reader/signature.hpp, the rules;
    - [RuleReader]: rule_reader/rule_reader.cpp and pattern_reader.cpp;
    - [Decoder]: decoder/geonet_decoder.cpp, btp_decoder.cpp and
      detector/detection_context.hpp, with who owns the packet;
    - [Detector]: detector/geonet_detector.cpp and its data;
    - [Handler]: message_handler/message_handler.cpp;
    - [AppParser]: app_layer_parser/, classifier/ and the parts of main.cpp
      that choose the parsers;
    - [Idps]: idps_context.cpp, the run function and the steps of a context.

    The ASN.1 library, src/vanetza-extension/asn1/:
    - [Consumer]: the output callback of every encoder, and the two callbacks
      of asn1c_wrapper.cpp;
    - [BitData]: asn_bit_data.c, reading and writing bits;
    - [PerSupport]: per_support.c, lengths and numbers; [PerNatural] shows
      that bit writers do not depend on what is behind the callback, and keeps
      the log of chunks through which output is replayed;
    - [PerCodec]: per_encoder.c, per_decoder.c, the BOOLEAN type and
      asn1c_wrapper.cpp; [OpenType]: per_opentype.c;
    - [BerTlv]: ber_tlv_tag.c and ber_tlv_length.c;
    - [AsnInteger], [UperInteger], [IntegerXer], [Enumerated]: INTEGER.c,
      NativeInteger.c and NativeEnumerated.c;
    - [OctetString]: OCTET_STRING.c in packed encoding;
    - [Members]: the member table of constr_TYPE.h; [ConstrSequence],
      [ConstrChoice], [SequenceOf], [SetOf]: constr_SEQUENCE.c,
      constr_CHOICE.c, constr_SEQUENCE_OF.c and constr_SET_OF.c in packed
      encoding;
    - [Oer]: oer_support.c, oer_encoder.c, oer_decoder.c and the octet
      encodings of BOOLEAN, INTEGER, ENUMERATED and the string types;
      [OerStream], [OerSetOf], [OerChoice], [OerSequence]: the resumable
      decoders of constr_SET_OF_oer.c, constr_CHOICE_oer.c and
      constr_SEQUENCE_oer.c;
    - [ObjectIdentifier]: OBJECT_IDENTIFIER.c and RELATIVE-OID.c, arcs, their
      octets and their text;
    - [BitString]: BIT_STRING.c in packed and octet encoding;
    - [Constraints], [ConstrConstraint]: constraints.c and the constraint
      checks of the string types and of the constructed types, UTF8String.c;
    - [BerPrim]: ber_decoder.c, der_encoder.c and the primitive types over
      them in BER and DER (asn_codecs_prim.c, BOOLEAN.c, NativeInteger.c);
      [BerType]: what a type contributes to BER, and copy of
      asn1c_wrapper.cpp; [StringBer]: the resumable decoder of OCTET_STRING.c
      with its stack of pieces, and the encoder; [BerFrame], [BerSetOf],
      [BerChoice], [BerSequence]: the constructed types in BER and DER;
      [Copying]: what a copy has in common with its original;
    - [Wrapper]: asn1c_wrapper.hpp, the message objects over a store of
      blocks, descriptors and objects;
    - [Xer]: xer_support.c, xer_decoder.c, xer_encoder.c; [XerPrim],
      [XerString]: the primitive types and the strings as XML; [XerFrame],
      [XerSetOf], [XerChoice], [XerSequence]: the constructed types as XML;
      [XerTypes]: all of them nested, on any octets;
    - [Natural]: that no DER or XER encoder depends on what is behind its
      callback; [Application]: asn_application.c and asn_random_between of
      asn_random_fill.c, the library's front door.

    ** How state and failure are modelled

    A C function that writes through a pointer takes the old state and returns
    the new one beside its return value; the outer [option] is [None] exactly
    where C would leave its buffer, fail an assertion or be undefined, so a
    theorem with [Some] on the right also says that this does not happen.
    Bytes are numbers from 0 to 255, machine words are numbers with their
    wrap-around written out ([u8] ... [s64] below, 64-bit long and size_t).
    Memory allocation succeeds.  A C++ call is an [outcome].

    The callbacks, type descriptors and foreign libraries are classes, with
    what is relied on as laws: [Consumer]/[AppendConsumer] (output),
    [PerType]/[PerTypeLaws], [OerType]/[OerTypeLaws], [BerType]/[BerTypeLaws]
    and [XerType]/[XerTypeLaws] (a type's codec and its contract in each
    encoding), [OerStream]/[OerStreamLaws] (a resumable decoder and its
    contract), [XerTotal] (an XML decoder on any octets), [DerNormal] (what
    decoding DER does not keep apart is encoded alike), [DerNatural] and
    [XerNatural] (encoders that only append), [Constrained] (constraint
    checks), [QsortLaws] (qsort of the C library), [Yaml], [Vanetza],
    [GeonetCodes], [SecurityRegion] (libraries).
    Theorems on constructed types are proved against the contracts of their
    members and conclude the same contract again, so nested types are covered.

    ** What the theorems show

    - Pipeline: which packets are inspected, forwarded, in which order, and
      what is undefined ([Idps]); the detector fires exactly on the rules
      whose every pattern matches ([Detector]); the reader yields well-formed
      rules and stops at the first error ([RuleReader]); the decoders fill in
      the context they should and keep the packet alive ([Decoder]).
    - Bits and numbers: reading and writing refine lists of bits, and every
      number and length comes back ([BitData], [PerSupport], [BerTlv]).
    - Types: encoding emits the stated bits or octets, decoding them with
      anything behind yields the value and stops there; refusals are stated.
    - Order: the canonical encoding of SET OF does not depend on the order of
      its elements ([SetOf]).
    - Resumption: however an encoding is cut into chunks, the decoder reaches
      the same value ([OerSetOf], [OerChoice], [OerSequence]); however a string
      is cut into BER pieces, they are joined ([StringBer]).
    - Copies: DER encodings of nested types are read back as the values they
      stand for ([BerSequence], [BerChoice], [BerSetOf]); a message object is
      copied to that value, whose encoding is the same where no default value
      is made or unmade ([Copying]), and no program over the objects frees a
      block twice, leaks or shares one ([Wrapper]).
    - Constraints: the checks answer as the constraints say, on every branch,
      and stop at the first violation ([Constraints], [ConstrConstraint]).
    - XML: nested values are read back from the texts written for them
      ([XerPrim] ... [XerSequence]); on any octets the decoders come to an
      answer, but for a reference to the character zero in a character string
      ([XerTypes]).
    - The front door: what asn_encode writes in each syntax, asn_decode reads
      back; a buffer is filled as far as it goes, and a new one is whole
      ([Application]).
    The examples named in the findings of PROJECT.json show, on concrete octets,
    where the code does not do what it means to.

    ** Bounds and fuel

    Recursion that is not structural has fuel, and the theorems are about the
    fuel the code's own callers give, shown to be enough: asn_get_few_bits and
    asn_put_few_bits call themselves once more at most (2), or also for a
    refill (3); loops over a number's groups of seven or eight bits run at
    most as often as its width has groups (5, 8, 10); loops over the input run
    at most once per octet, bit or character left, and get one more.

    ** What is not modelled

    The link layer, the command line, logging set-up and the Cohda proxy are
    input and output around the pipeline; the GPS provider and the facilities
    compute with floating-point positions of boost::units.  The modules
    generated by asn1c (asn1/its, asn1/pki, asn1/security) are tables over the
    types above.  Of the library: printing, freeing, comparison and random
    filling of the types, SET, REAL and NativeReal, the time types, OPEN TYPE
    and ANY (members whose type is chosen at run time), BMPString and
    UniversalString as text, the stack check, which compares addresses, and
    errno.  PROJECT.json lists each with its reason.

    This file holds the notations, the machine integers, and the lemmas on
    lists, bits and numbers that the others share. *)
From stdpp Require Export base list numbers option strings gmap.
From Stdlib Require Export ZArith Lia.
#[global] Open Scope Z_scope.

(** ** Machine integers *)

Definition u8 (z : Z) : Z := z mod 2 ^ 8.
Definition u16 (z : Z) : Z := z mod 2 ^ 16.
Definition u32 (z : Z) : Z := z mod 2 ^ 32.
Definition u64 (z : Z) : Z := z mod 2 ^ 64.

(** Two's complement reading of the low [w] bits. *)
Definition sext (w : Z) (z : Z) : Z :=
  let m := z mod 2 ^ w in if m <? 2 ^ (w - 1) then m else m - 2 ^ w.
Definition s32 (z : Z) : Z := sext 32 z.
Definition s64 (z : Z) : Z := sext 64 z.

Definition LONG_MAX : Z := 2 ^ 63 - 1.
Definition LONG_MIN : Z := - 2 ^ 63.
Definition ULONG_MAX : Z := 2 ^ 64 - 1.
Definition is_long (z : Z) : Prop := LONG_MIN <= z <= LONG_MAX.
Definition is_ulong (z : Z) : Prop := 0 <= z <= ULONG_MAX.

Definition byte_ok (b : Z) : Prop := 0 <= b < 256.
Definition bytes_ok (l : list Z) : Prop := Forall byte_ok l.

(** Bounds-checked memory access: [None] is an access outside the object. *)
Definition read (l : list Z) (i : Z) : option Z :=
  if i <? 0 then None else l !! Z.to_nat i.
Definition store (l : list Z) (i v : Z) : option (list Z) :=
  if (0 <=? i) && (i <? Z.of_nat (length l))
  then Some (<[Z.to_nat i := u8 v]> l) else None.

(** ** Bits and big-endian bytes *)

(** The value of a most-significant-bit-first list of bits. *)
Fixpoint bits_val (bs : list bool) : Z :=
  match bs with
  | [] => 0
  | b :: r => Z.b2z b * 2 ^ Z.of_nat (length r) + bits_val r
  end.

(** The low [n] bits of [v], most significant first. *)
Fixpoint val_bits (n : nat) (v : Z) : list bool :=
  match n with
  | O => []
  | S m => Z.testbit v (Z.of_nat m) :: val_bits m v
  end.

Definition byte_bits (b : Z) : list bool := val_bits 8 b.
Definition bytes_bits (l : list Z) : list bool := l ≫= byte_bits.

(** The low [k] bytes of [v], most significant first. *)
Fixpoint be_bytes (k : nat) (v : Z) : list Z :=
  match k with
  | O => []
  | S m => u8 (v ≫ (8 * Z.of_nat m)) :: be_bytes m v
  end.

(** Big-endian value of a byte list. *)
Fixpoint be_val (l : list Z) : Z :=
  match l with
  | [] => 0
  | b :: r => b * 2 ^ (8 * Z.of_nat (length r)) + be_val r
  end.

(** ** Lemmas on powers, shifts and masks *)

Lemma pow2_pos n : 0 <= n -> 0 < 2 ^ n.
Proof. intros. apply Z.pow_pos_nonneg; lia. Qed.

Lemma pow2_split a b : 0 <= a -> 0 <= b -> 2 ^ (a + b) = 2 ^ a * 2 ^ b.
Proof. intros. by apply Z.pow_add_r. Qed.

Lemma lor_shiftl_add a b n :
  0 <= n -> 0 <= b < 2 ^ n -> Z.lor (a ≪ n) b = a * 2 ^ n + b.
Proof.
  intros Hn Hb. rewrite <- Z.shiftl_mul_pow2 by lia.
  assert (Hz : Z.land (a ≪ n) b = 0).
  { apply Z.bits_inj'; intros i Hi. rewrite Z.land_spec, Z.bits_0.
    destruct (decide (i < n)).
    - by rewrite Z.shiftl_spec_low by lia.
    - rewrite <- (Z.mod_small b (2 ^ n)) by lia.
      rewrite Z.mod_pow2_bits_high by lia. apply andb_false_r. }
  by rewrite Z.add_nocarry_lxor, Z.lxor_lor.
Qed.

Lemma land_ones_mod a n : 0 <= n -> Z.land a (2 ^ n - 1) = a mod 2 ^ n.
Proof.
  intros. rewrite <- Z.land_ones by lia. f_equal.
  rewrite Z.ones_equiv. lia.
Qed.

Lemma land_127 x : Z.land x 127 = x mod 128.
Proof. change 127 with (2 ^ 7 - 1). by rewrite land_ones_mod by lia. Qed.

Lemma shiftr_div a n : 0 <= n -> a ≫ n = a / 2 ^ n.
Proof. apply Z.shiftr_div_pow2. Qed.

Lemma shiftl_mul a n : 0 <= n -> a ≪ n = a * 2 ^ n.
Proof. apply Z.shiftl_mul_pow2. Qed.

Lemma mod_pow2_bounds a n : 0 <= n -> 0 <= a mod 2 ^ n < 2 ^ n.
Proof. intros. apply Z.mod_pos_bound. by apply pow2_pos. Qed.

(** Clearing the low [n] bits. *)
Lemma land_clear_low a n : 0 <= n -> Z.land a (Z.lnot (2 ^ n - 1)) = (a ≫ n) ≪ n.
Proof.
  intros. rewrite <- Z.ldiff_land.
  replace (2 ^ n - 1) with (Z.ones n) by (rewrite Z.ones_equiv; lia).
  by apply Z.ldiff_ones_r.
Qed.

Lemma mod_div_pow2 a n m : 0 <= n -> 0 <= m -> (a mod 2 ^ (n + m)) / 2 ^ n = (a / 2 ^ n) mod 2 ^ m.
Proof.
  intros. rewrite pow2_split by done.
  pose proof (pow2_pos n); pose proof (pow2_pos m).
  rewrite Z.rem_mul_r by lia.
  rewrite (Z.mul_comm (2 ^ n)), Z.div_add by lia.
  rewrite Z.div_small; [lia|apply Z.mod_pos_bound; lia].
Qed.

Lemma mod_mod_pow2 a n m : 0 <= n <= m -> (a mod 2 ^ m) mod 2 ^ n = a mod 2 ^ n.
Proof.
  intros. replace m with (n + (m - n)) by lia.
  rewrite pow2_split by lia.
  pose proof (pow2_pos n); pose proof (pow2_pos (m - n)).
  rewrite Z.rem_mul_r by lia.
  rewrite (Z.mul_comm (2 ^ n)), Z.mod_add by lia.
  by apply Z.mod_mod; lia.
Qed.

Lemma testbit_mod_pow2 a n m : 0 <= m < n -> Z.testbit (a mod 2 ^ n) m = Z.testbit a m.
Proof. intros. by rewrite Z.mod_pow2_bits_low by lia. Qed.

(** ** Bits *)

Lemma length_val_bits n v : length (val_bits n v) = n.
Proof. induction n; simpl; congruence. Qed.

Lemma bits_val_bound bs : 0 <= bits_val bs < 2 ^ Z.of_nat (length bs).
Proof.
  induction bs as [|b r IH]; [simpl; lia|].
  cbn [bits_val length]. rewrite Nat2Z.inj_succ, Z.pow_succ_r by lia.
  pose proof (pow2_pos (Z.of_nat (length r))). destruct b; simpl Z.b2z; lia.
Qed.

Lemma bits_val_app xs ys :
  bits_val (xs ++ ys) = bits_val xs * 2 ^ Z.of_nat (length ys) + bits_val ys.
Proof.
  induction xs as [|b r IH]; [simpl; lia|].
  cbn [bits_val app]. rewrite IH, length_app, Nat2Z.inj_add, pow2_split by lia. ring.
Qed.

Lemma bits_val_val_bits n v : bits_val (val_bits n v) = v mod 2 ^ Z.of_nat n.
Proof.
  induction n as [|n IH]; [simpl; by rewrite Z.mod_1_r|].
  cbn [val_bits bits_val]. rewrite IH, length_val_bits.
  replace (Z.of_nat (S n)) with (Z.of_nat n + 1) by lia.
  rewrite pow2_split, Z.rem_mul_r by (pose proof (pow2_pos (Z.of_nat n)); lia).
  rewrite Z.testbit_spec' by lia. change (2 ^ 1) with 2. lia.
Qed.

Lemma val_bits_mod n k v : Z.of_nat n <= k -> val_bits n (v mod 2 ^ k) = val_bits n v.
Proof.
  induction n as [|n IH]; intros; [done|].
  cbn [val_bits]. rewrite IH, testbit_mod_pow2 by lia. done.
Qed.

Lemma val_bits_app n m v :
  val_bits (n + m) v = val_bits n (v ≫ Z.of_nat m) ++ val_bits m v.
Proof.
  induction n as [|n IH]; [done|].
  cbn [val_bits Nat.add app]. rewrite IH, Z.shiftr_spec by lia.
  do 3 f_equal. lia.
Qed.

Lemma val_bits_bits_val bs : val_bits (length bs) (bits_val bs) = bs.
Proof.
  induction bs as [|b r IH]; [done|].
  cbn [val_bits length]. f_equal.
  - cbn [bits_val]. pose proof (bits_val_bound r).
    rewrite <- lor_shiftl_add by lia. rewrite Z.lor_spec, Z.shiftl_spec by lia.
    rewrite Z.sub_diag, Z.b2z_bit0.
    rewrite <- (Z.mod_small (bits_val r) (2 ^ Z.of_nat (length r))) by lia.
    rewrite Z.mod_pow2_bits_high by lia. apply orb_false_r.
  - transitivity (val_bits (length r) (bits_val r)); [|exact IH]. cbn [bits_val].
    rewrite <- (val_bits_mod (length r) (Z.of_nat (length r)) (Z.b2z b * _ + _)) by lia.
    rewrite Z.add_comm, Z.mod_add by (pose proof (pow2_pos (Z.of_nat (length r))); lia).
    by rewrite val_bits_mod by lia.
Qed.

Lemma bits_val_inj xs ys : length xs = length ys -> bits_val xs = bits_val ys -> xs = ys.
Proof.
  intros Hl Hv. rewrite <- (val_bits_bits_val xs), <- (val_bits_bits_val ys).
  by rewrite Hl, Hv.
Qed.

Lemma bits_val_take n bs : (n <= length bs)%nat ->
  bits_val (take n bs) = bits_val bs / 2 ^ Z.of_nat (length bs - n).
Proof.
  intros. rewrite <- (take_drop n bs) at 2.
  rewrite bits_val_app, length_drop.
  pose proof (bits_val_bound (drop n bs)) as Hb. rewrite length_drop in Hb.
  rewrite Z.div_add_l by lia. rewrite Z.div_small by lia. lia.
Qed.

Lemma bits_val_drop n bs : (n <= length bs)%nat ->
  bits_val (drop n bs) = bits_val bs mod 2 ^ Z.of_nat (length bs - n).
Proof.
  intros. rewrite <- (take_drop n bs) at 2.
  rewrite bits_val_app, length_drop.
  pose proof (bits_val_bound (drop n bs)) as Hb. rewrite length_drop in Hb.
  rewrite Z.add_comm, Z.mod_add by lia. by rewrite Z.mod_small by lia.
Qed.

Lemma take_val_bits k n v : (k <= n)%nat ->
  take k (val_bits n v) = val_bits k (v ≫ Z.of_nat (n - k)).
Proof.
  intros. replace n with (k + (n - k))%nat at 1 by lia.
  rewrite val_bits_app, take_app_le by (rewrite length_val_bits; lia).
  by rewrite take_ge by (rewrite length_val_bits; lia).
Qed.

Lemma drop_val_bits k n v : (k <= n)%nat -> drop k (val_bits n v) = val_bits (n - k) v.
Proof.
  intros. replace n with (k + (n - k))%nat at 1 by lia.
  rewrite val_bits_app, drop_app_ge by (rewrite length_val_bits; lia).
  by rewrite length_val_bits, Nat.sub_diag.
Qed.

(** ** Bytes *)

Lemma length_byte_bits b : length (byte_bits b) = 8%nat.
Proof. apply length_val_bits. Qed.

Lemma bytes_bits_app l1 l2 : bytes_bits (l1 ++ l2) = bytes_bits l1 ++ bytes_bits l2.
Proof. apply bind_app. Qed.

Lemma bytes_bits_cons b l : bytes_bits (b :: l) = byte_bits b ++ bytes_bits l.
Proof. done. Qed.

Lemma length_bytes_bits l : length (bytes_bits l) = (8 * length l)%nat.
Proof.
  induction l as [|b l IH]; [done|].
  rewrite bytes_bits_cons, length_app, length_byte_bits, IH. simpl. lia.
Qed.

Lemma take_bytes_bits n l : take (8 * n) (bytes_bits l) = bytes_bits (take n l).
Proof.
  revert n; induction l as [|b l IH]; intros [|n]; try done.
  replace (8 * S n)%nat with (8 + 8 * n)%nat by lia.
  rewrite bytes_bits_cons, firstn_cons, bytes_bits_cons, <- IH.
  rewrite take_app_ge by (rewrite length_byte_bits; lia).
  rewrite length_byte_bits. do 2 f_equal. lia.
Qed.

Lemma drop_bytes_bits n l : drop (8 * n) (bytes_bits l) = bytes_bits (drop n l).
Proof.
  revert n; induction l as [|b l IH]; intros [|n]; try done.
  replace (8 * S n)%nat with (8 + 8 * n)%nat by lia.
  rewrite bytes_bits_cons, skipn_cons, <- IH.
  rewrite drop_app_ge by (rewrite length_byte_bits; lia).
  rewrite length_byte_bits. f_equal. lia.
Qed.

Lemma u8_ok z : byte_ok (u8 z).
Proof. unfold byte_ok, u8. apply (mod_pow2_bounds z 8). lia. Qed.

Lemma u8_small b : byte_ok b -> u8 b = b.
Proof. intros. by apply Z.mod_small. Qed.

Lemma byte_bits_u8 z : byte_bits (u8 z) = byte_bits z.
Proof. unfold byte_bits, u8. by apply (val_bits_mod 8 8). Qed.

Lemma length_be_bytes k v : length (be_bytes k v) = k.
Proof. induction k; simpl; congruence. Qed.

Lemma be_bytes_ok k v : bytes_ok (be_bytes k v).
Proof. induction k; constructor; [apply u8_ok|done]. Qed.

Lemma bytes_bits_be_bytes k v : bytes_bits (be_bytes k v) = val_bits (8 * k) v.
Proof.
  induction k as [|k IH]; [done|].
  cbn [be_bytes]. rewrite bytes_bits_cons, IH, byte_bits_u8.
  replace (8 * S k)%nat with (8 + 8 * k)%nat by lia.
  rewrite val_bits_app. unfold byte_bits. do 3 f_equal. lia.
Qed.

Lemma be_val_bits l : bytes_ok l -> be_val l = bits_val (bytes_bits l).
Proof.
  induction 1 as [|b l Hb Hl IH]; [done|].
  cbn [be_val]. rewrite bytes_bits_cons, bits_val_app, IH, length_bytes_bits.
  unfold byte_bits. rewrite bits_val_val_bits, Z.mod_small by (apply Hb).
  do 3 f_equal. lia.
Qed.

Lemma be_val_bound l : bytes_ok l -> 0 <= be_val l < 2 ^ (8 * Z.of_nat (length l)).
Proof.
  intros H. rewrite be_val_bits by done.
  pose proof (bits_val_bound (bytes_bits l)) as Hb.
  rewrite length_bytes_bits, Nat2Z.inj_mul in Hb. done.
Qed.

Lemma be_val_be_bytes k v : be_val (be_bytes k v) = v mod 2 ^ (8 * Z.of_nat k).
Proof.
  rewrite be_val_bits by apply be_bytes_ok.
  rewrite bytes_bits_be_bytes, bits_val_val_bits. do 2 f_equal. lia.
Qed.

Lemma byte_bits_inj a b : byte_ok a -> byte_ok b -> byte_bits a = byte_bits b -> a = b.
Proof.
  intros Ha Hb H. apply (f_equal bits_val) in H. unfold byte_bits in H.
  rewrite !bits_val_val_bits, !Z.mod_small in H by done. done.
Qed.

Lemma bytes_bits_inj l1 l2 :
  bytes_ok l1 -> bytes_ok l2 -> bytes_bits l1 = bytes_bits l2 -> l1 = l2.
Proof.
  intros H1. revert l2. induction H1 as [|a l1 Ha Hl1 IH]; intros l2 H2 Heq;
    destruct H2 as [|b l2 Hb Hl2]; try done.
  rewrite !bytes_bits_cons in Heq. apply app_inj_1 in Heq as [Hh Ht].
  - f_equal; [by apply byte_bits_inj|by apply IH].
  - by rewrite !length_byte_bits.
Qed.

Lemma be_bytes_be_val l : bytes_ok l -> be_bytes (length l) (be_val l) = l.
Proof.
  intros H. apply bytes_bits_inj; [apply be_bytes_ok|done|].
  rewrite bytes_bits_be_bytes, be_val_bits, <- length_bytes_bits by done.
  apply val_bits_bits_val.
Qed.

Lemma bits_val_slice o n bs : (o + n <= length bs)%nat ->
  bits_val (take n (drop o bs)) =
  (bits_val bs / 2 ^ Z.of_nat (length bs - (o + n))) mod 2 ^ Z.of_nat n.
Proof.
  intros. rewrite take_drop_commute, bits_val_drop, bits_val_take.
  all: rewrite ?length_take; try lia.
  do 3 f_equal. lia.
Qed.

Lemma take_drop_bytes_bits o n k l : (o + n <= 8 * k)%nat ->
  take n (drop o (bytes_bits l)) = take n (drop o (bytes_bits (take k l))).
Proof.
  intros. rewrite <- take_bytes_bits, !take_drop_commute. f_equal.
  rewrite take_take. f_equal. lia.
Qed.

(** ** Memory access *)

Lemma read_Some l i : 0 <= i < Z.of_nat (length l) ->
  exists b, read l i = Some b /\ l !! Z.to_nat i = Some b.
Proof.
  intros. unfold read. destruct (lookup_lt_is_Some_2 l (Z.to_nat i)) as [b Hb]; [lia|].
  exists b. destruct (Z.ltb_spec i 0); [lia|done].
Qed.

Lemma read_0 a l : read (a :: l) 0 = Some a.
Proof. done. Qed.
Lemma read_1 a b l : read (a :: b :: l) 1 = Some b.
Proof. done. Qed.
Lemma read_2 a b c l : read (a :: b :: c :: l) 2 = Some c.
Proof. done. Qed.
Lemma read_3 a b c d l : read (a :: b :: c :: d :: l) 3 = Some d.
Proof. done. Qed.

Lemma read_None_length l i b : read l i = Some b -> 0 <= i < Z.of_nat (length l).
Proof.
  unfold read. destruct (Z.ltb_spec i 0); [done|].
  intros Hl%lookup_lt_Some. lia.
Qed.

Lemma store_Some l i v : 0 <= i < Z.of_nat (length l) ->
  store l i v = Some (<[Z.to_nat i := u8 v]> l).
Proof.
  intros. unfold store.
  destruct (Z.leb_spec 0 i), (Z.ltb_spec i (Z.of_nat (length l))); try lia. done.
Qed.

Lemma bytes_ok_lookup l i b : bytes_ok l -> l !! i = Some b -> byte_ok b.
Proof. intros H. by apply Forall_lookup_1. Qed.

Lemma bytes_ok_take l n : bytes_ok l -> bytes_ok (take n l).
Proof. apply Forall_take. Qed.
Lemma bytes_ok_drop l n : bytes_ok l -> bytes_ok (drop n l).
Proof. apply Forall_drop. Qed.
Lemma bytes_ok_app l1 l2 : bytes_ok l1 -> bytes_ok l2 -> bytes_ok (l1 ++ l2).
Proof. apply Forall_app_2. Qed.
Lemma bytes_ok_insert l i v : bytes_ok l -> bytes_ok (<[i := u8 v]> l).
Proof. intros. apply Forall_insert; [done|apply u8_ok]. Qed.

Lemma bytes_ok_nil : bytes_ok [].
Proof. constructor. Qed.
Lemma bytes_ok_cons b l : byte_ok b -> bytes_ok l -> bytes_ok (b :: l).
Proof. by constructor. Qed.

Create HintDb bytes.
#[export] Hint Resolve u8_ok be_bytes_ok bytes_ok_take bytes_ok_drop bytes_ok_app
  bytes_ok_insert bytes_ok_nil bytes_ok_cons : bytes.
#[export] Hint Extern 1 (byte_ok _) => (unfold byte_ok in *; lia) : bytes.

Lemma s32_small z : - 2 ^ 31 <= z < 2 ^ 31 -> s32 z = z.
Proof.
  intros. unfold s32, sext. change (2 ^ 32) with 4294967296 in *.
  change (2 ^ (32 - 1)) with 2147483648. change (2 ^ 31) with 2147483648 in *.
  destruct (Z.ltb_spec (z mod 4294967296) 2147483648).
  all: destruct (Z.leb_spec 0 z); Z.div_mod_to_equations; lia.
Qed.

(** Case analysis on the boolean integer comparisons of the goal, keeping
    only the feasible branches. *)
Ltac zcase :=
  match goal with
  | |- context [Z.ltb ?a ?b] => destruct (Z.ltb_spec a b); try lia
  | |- context [Z.leb ?a ?b] => destruct (Z.leb_spec a b); try lia
  | |- context [Z.eqb ?a ?b] => destruct (Z.eqb_spec a b); try lia
  end.
Ltac zcases := repeat (zcase; cbn [negb andb orb]).

(** Reading and writing in the middle of a buffer. *)
Lemma read_app pre x l i : i = Z.of_nat (length pre) -> read (pre ++ x :: l) i = Some x.
Proof.
  intros ->. unfold read. zcase. rewrite Nat2Z.id, lookup_app_r, Nat.sub_diag by lia. done.
Qed.

Lemma store_app pre mid x l i v : i = Z.of_nat (length pre) + Z.of_nat (length mid) ->
  store (pre ++ mid ++ x :: l) i v = Some (pre ++ mid ++ u8 v :: l).
Proof.
  intros ->. rewrite store_Some by (rewrite !length_app; cbn; lia). f_equal.
  replace (Z.to_nat _) with (length pre + length mid)%nat by lia.
  rewrite (insert_app_r_alt pre) by lia. f_equal.
  replace (length pre + length mid - length pre)%nat with (length mid) by lia.
  rewrite insert_app_r_alt, Nat.sub_diag by lia. done.
Qed.

Lemma store_app_0 pre x l i v : i = Z.of_nat (length pre) ->
  store (pre ++ x :: l) i v = Some (pre ++ u8 v :: l).
Proof. intros. apply (store_app pre []). cbn. lia. Qed.
Lemma store_app_1 pre a x l i v : i = Z.of_nat (length pre) + 1 ->
  store (pre ++ a :: x :: l) i v = Some (pre ++ a :: u8 v :: l).
Proof. apply (store_app pre [a]). Qed.
Lemma store_app_2 pre a b x l i v : i = Z.of_nat (length pre) + 2 ->
  store (pre ++ a :: b :: x :: l) i v = Some (pre ++ a :: b :: u8 v :: l).
Proof. apply (store_app pre [a; b]). Qed.
Lemma store_app_3 pre a b c x l i v : i = Z.of_nat (length pre) + 3 ->
  store (pre ++ a :: b :: c :: x :: l) i v = Some (pre ++ a :: b :: c :: u8 v :: l).
Proof. apply (store_app pre [a; b; c]). Qed.

Lemma val_bits_high_add n m x h : (n <= m)%nat ->
  val_bits n (h * 2 ^ Z.of_nat m + x) = val_bits n x.
Proof.
  intros. rewrite <- (val_bits_mod n (Z.of_nat m)) by lia.
  rewrite Z.add_comm, Z.mod_add by (pose proof (pow2_pos (Z.of_nat m)); lia).
  by apply val_bits_mod; lia.
Qed.

Lemma shiftr_add_high h x m i : 0 <= i <= m ->
  (h * 2 ^ m + x) ≫ i = h * 2 ^ (m - i) + x ≫ i.
Proof.
  intros. rewrite !shiftr_div by lia.
  replace m with ((m - i) + i) at 1 by lia. rewrite pow2_split, Z.mul_assoc by lia.
  rewrite Z.div_add_l by (pose proof (pow2_pos i); lia). done.
Qed.

Lemma u8_add_high h x m : 8 <= m -> u8 (h * 2 ^ m + x) = u8 x.
Proof.
  intros. unfold u8. replace m with ((m - 8) + 8) by lia.
  rewrite pow2_split, Z.mul_assoc, Z.add_comm, Z.mod_add by lia. done.
Qed.

(** Signed [long] arithmetic: [None] is the overflow C leaves undefined. *)
Definition chk_long (z : Z) : option Z :=
  if (LONG_MIN <=? z) && (z <=? LONG_MAX) then Some z else None.

Lemma chk_long_Some z : is_long z -> chk_long z = Some z.
Proof.
  intros [H1 H2]. unfold chk_long.
  apply Z.leb_le in H1, H2. by rewrite H1, H2.
Qed.

Lemma s64_small z : - 2 ^ 63 <= z < 2 ^ 63 -> s64 z = z.
Proof.
  intros. unfold s64, sext. change (2 ^ 64) with 18446744073709551616 in *.
  change (2 ^ (64 - 1)) with 9223372036854775808. change (2 ^ 63) with 9223372036854775808 in *.
  destruct (Z.ltb_spec (z mod 18446744073709551616) 9223372036854775808).
  all: destruct (Z.leb_spec 0 z); Z.div_mod_to_equations; lia.
Qed.

Lemma u64_small z : 0 <= z < 2 ^ 64 -> u64 z = z.
Proof. intros. by apply Z.mod_small. Qed.

Lemma u64_long z : is_ulong z -> u64 z = z.
Proof. unfold is_ulong, ULONG_MAX. intros. apply u64_small. lia. Qed.

Ltac long_bounds := unfold is_long, is_ulong, LONG_MIN, LONG_MAX, ULONG_MAX in *;
  change (2 ^ 63) with 9223372036854775808 in *; change (2 ^ 64) with 18446744073709551616 in *.

Lemma u64_add_mod a b : u64 (u64 a + u64 b) = u64 (a + b).
Proof. unfold u64. by rewrite <- Zplus_mod. Qed.

Lemma u64_add_r a b : u64 (a + u64 b) = u64 (a + b).
Proof. unfold u64. by rewrite Zplus_mod_idemp_r. Qed.

Lemma u64_add_l a b : u64 (u64 a + b) = u64 (a + b).
Proof. unfold u64. by rewrite Zplus_mod_idemp_l. Qed.
