(* ===== verification/Outcome.v ===== *)
(** * Outcomes of the C++ code

    The C++ sources return, throw, or run into behaviour the language leaves
    undefined.  [outcome] keeps the three apart, so that a theorem can say
    which of them a call ends in. *)
From S2P Require Import Prelude.

(** Exceptions that reach a caller in src/mitvane. *)
Inductive exception :=
  | bad_get                          (** boost::bad_get *)
  | yaml_exception (what : string)   (** YAML::Exception *)
  | archive_exception                (** thrown while a header is deserialized *)
  | runtime_error.                   (** std::runtime_error of the ASN.1 wrapper *)

(** Undefined behaviour the model can reach. *)
Inductive undefined :=
  | null_dereference
  | indeterminate_value
  | back_of_empty_list
  | out_of_bounds
  | invalid_pointer.      (** used or freed after it was freed *)

Inductive outcome (A : Type) :=
  | Ret (a : A)
  | Throw (e : exception)
  | Undef (u : undefined).
Arguments Ret {A}.
Arguments Throw {A}.
Arguments Undef {A}.

#[export] Instance outcome_ret : MRet outcome := fun A a => Ret a.
#[export] Instance outcome_bind : MBind outcome := fun A B k m =>
  match m with Ret a => k a | Throw e => Throw e | Undef u => Undef u end.

(** Reading a variable or member that may not have been initialised. *)
Definition initialised {A} (x : option A) : outcome A :=
  match x with Some a => Ret a | None => Undef indeterminate_value end.

(** C code whose memory accesses are checked. *)
Definition checked {A} (x : option A) : outcome A :=
  match x with Some a => Ret a | None => Undef out_of_bounds end.

(** A call that ends without undefined behaviour. *)
Definition defined {A} (m : outcome A) : Prop := forall u, m <> Undef u.

Lemma outcome_bind_Ret {A B} (m : outcome A) (k : A -> outcome B) b :
  m ≫= k = Ret b <-> exists a, m = Ret a /\ k a = Ret b.
Proof.
  split.
  - destruct m; cbn; try done. eauto.
  - by intros (a & -> & H).
Qed.

Lemma defined_bind {A B} (m : outcome A) (k : A -> outcome B) :
  defined m -> (forall a, m = Ret a -> defined (k a)) -> defined (m ≫= k).
Proof. destruct m; cbn; intros Hm Hk; [by apply Hk|done|by destruct (Hm u)]. Qed.

Lemma defined_Ret {A} (a : A) : defined (Ret a).
Proof. done. Qed.
Lemma defined_Throw {A} e : defined (@Throw A e).
Proof. done. Qed.
#[export] Hint Resolve defined_Ret defined_Throw defined_bind : core.
