(* ===== verification/Signature.v ===== *)
(** * Rules (src/mitvane/rule_reader/signature.hpp)

    The data the rule reader produces and the detector consumes. *)
From S2P Require Import Prelude.

Inductive Action := Action_Drop | Action_Alert | NotSupported_Action.

Inductive Protocol :=
  | GeoNetworking | BTP | Facility | CA | DEN | MAP | SPAT | NotSupported_Protocol.

Inductive Allowed_So_Range_Shape := Circle.

#[export] Instance Action_eq_dec : EqDecision Action.
Proof. solve_decision. Defined.
#[export] Instance Protocol_eq_dec : EqDecision Protocol.
Proof. solve_decision. Defined.
#[export] Instance Shape_eq_dec : EqDecision Allowed_So_Range_Shape.
Proof. solve_decision. Defined.

(** The enumerators' positions, by which std::map orders its keys. *)
Definition Protocol_index (p : Protocol) : nat :=
  match p with
  | GeoNetworking => 0 | BTP => 1 | Facility => 2 | CA => 3 | DEN => 4
  | MAP => 5 | SPAT => 6 | NotSupported_Protocol => 7
  end.

Definition Protocol_of_index (n : nat) : Protocol :=
  match n with
  | 0 => GeoNetworking | 1 => BTP | 2 => Facility | 3 => CA | 4 => DEN
  | 5 => MAP | 6 => SPAT | _ => NotSupported_Protocol
  end%nat.

#[export] Instance Protocol_countable : Countable Protocol.
Proof. apply (inj_countable' Protocol_index Protocol_of_index). by intros []. Defined.

Record MetaData := { msg : string; sid : Z; rev : Z }.

Definition geonet_keywords : list string :=
  ["nh"; "ht"; "mhl"; "destination_area"; "allowed_so_range"]%string.
Definition facility_keywords : list string := ["allowed_ids"%string].

Record geonet_destination_area := { da_distance_a : Z; da_distance_b : Z }.

Record geonet_allowed_so_range := {
  so_shape : Allowed_So_Range_Shape;
  so_distance_a : Z;
  so_distance_b : Z
}.

(** boost::variant<int, std::string, ...>. *)
Inductive pattern_type :=
  | PInt (z : Z)
  | PString (s : string)
  | PDestinationArea (a : geonet_destination_area)
  | PAllowedSoRange (r : geonet_allowed_so_range)
  | PFacilityIds (ids : list Z).

Record Signature := {
  action : Action;
  protocol : Protocol;
  meta : MetaData;
  patterns : gmap string pattern_type
}.

(** IdpsContext's signatures_type. *)
Abbreviation signatures_type := (gmap Protocol (list Signature)).

Definition set_pattern (k : string) (v : pattern_type) (sig : Signature) : Signature :=
  {| action := action sig; protocol := protocol sig; meta := meta sig;
     patterns := <[k := v]> (patterns sig) |}.

(** What the readers promise about the pattern stored under a keyword. *)
Definition pattern_wf (k : string) (v : pattern_type) : Prop :=
  match v with
  | PString s =>
    (k = "nh" /\ (s = "common" \/ s = "secure")) \/
    (k = "ht" /\ (s = "TSB" \/ s = "GBC" \/ s = "SHB"))
  | PInt _ => k = "mhl"
  | PDestinationArea _ => k = "destination_area"
  | PAllowedSoRange _ => k = "allowed_so_range"
  | PFacilityIds _ => k = "allowed_ids"
  end%string.

Definition patterns_wf (m : gmap string pattern_type) : Prop := map_Forall pattern_wf m.

(** A signature as the rule reader stores it under protocol [p]. *)
Definition signature_wf (p : Protocol) (sig : Signature) : Prop :=
  protocol sig = p /\ action sig <> NotSupported_Action /\
  match p with
  | GeoNetworking => patterns_wf (patterns sig) /\
      forall k, is_Some (patterns sig !! k) -> k ∈ geonet_keywords
  | Facility => patterns sig = ∅
  | _ => False
  end.

Definition signatures_wf (m : signatures_type) : Prop :=
  map_Forall (fun p l => Forall (signature_wf p) l) m.

Lemma signatures_wf_lookup m p : signatures_wf m ->
  Forall (signature_wf p) (default [] (m !! p)).
Proof.
  intros H. destruct (m !! p) as [l|] eqn:E; [by apply (H p l E)|constructor].
Qed.

Lemma pattern_wf_empty : patterns_wf ∅.
Proof. apply map_Forall_empty. Qed.

Lemma patterns_wf_insert k v m : pattern_wf k v -> patterns_wf m -> patterns_wf (<[k := v]> m).
Proof. intros. by apply map_Forall_insert_2. Qed.
