(* ===== verification/RuleReader.v ===== *)
(** * Rule reader (src/mitvane/rule_reader/)

    [RuleReader::read] turns the YAML rule file into the signatures the
    detector uses.  yaml-cpp is the class [Yaml]; a wrong access or
    conversion throws. *)
From S2P Require Import Prelude Outcome Signature.

Class Yaml := {
  Node : Type;
  LoadFile : string -> outcome Node;
  IsDefined : Node -> bool;
  IsScalar : Node -> bool;
  IsMap : Node -> bool;
  IsSequence : Node -> bool;
  node_size : Node -> Z;
  at_key : Node -> string -> outcome Node;
  at_index : Node -> Z -> outcome Node;
  as_string : Node -> outcome string;
  as_int : Node -> outcome Z;
  as_uint32 : Node -> outcome Z;
  as_uint16 : Node -> outcome Z
}.

(** Documented behaviour of yaml-cpp the theorems rely on. *)
Class YamlLaws `{Yaml} : Prop := {
  yaml_no_undefined : (forall f, defined (LoadFile f)) /\
    (forall n k, defined (at_key n k)) /\ (forall n i, defined (at_index n i)) /\
    (forall n, defined (as_string n)) /\ (forall n, defined (as_int n)) /\
    (forall n, defined (as_uint32 n)) /\ (forall n, defined (as_uint16 n));
  as_uint32_range : forall n z, as_uint32 n = Ret z -> 0 <= z < 2 ^ 32;
  as_uint16_range : forall n z, as_uint16 n = Ret z -> 0 <= z < 2 ^ 16
}.

Inductive MetaReaderStatusCode :=
  | Meta_Success | Undefined_Msg | Bad_Msg | Undefined_Sid | Bad_Sid | Undefined_Rev | Bad_Rev.

Inductive RuleReaderStatusCode :=
  | Success | Broken_Rule_Structure | Undefined_Action | Bad_Action | Undefined_Protocol
  | Bad_Protocol | Undefined_MetaData | Bad_MetaData | Bad_Pattern.

Inductive PatternReaderStatusCode := Pattern_Success | Pattern_Error.

#[export] Instance Meta_eq_dec : EqDecision MetaReaderStatusCode.
Proof. solve_decision. Defined.
#[export] Instance RuleReaderStatusCode_eq_dec : EqDecision RuleReaderStatusCode.
Proof. solve_decision. Defined.
#[export] Instance PatternReaderStatusCode_eq_dec : EqDecision PatternReaderStatusCode.
Proof. solve_decision. Defined.

(** transform(begin, end, begin, ::tolower) in the C locale. *)
Definition tolower (c : Ascii.ascii) : Ascii.ascii :=
  let n := Ascii.nat_of_ascii c in
  if bool_decide (65 <= n <= 90)%nat then Ascii.ascii_of_nat (n + 32) else c.
Fixpoint lowercase (s : string) : string :=
  match s with
  | EmptyString => EmptyString
  | String c s => String (tolower c) (lowercase s)
  end.

Definition is_one_of (s : string) (l : list string) : bool := existsb (String.eqb s) l.

Definition action_of_string (s : string) : Action :=
  let action := lowercase s in
  if String.eqb action "alert" then Action_Alert
  else if String.eqb action "drop" then Action_Drop
  else NotSupported_Action.

Definition protocol_of_string (s : string) : Protocol :=
  let protocol := lowercase s in
  if is_one_of protocol ["geonetworking"; "geonet"]%string then GeoNetworking
  else if String.eqb protocol "btp" then BTP
  else if String.eqb protocol "facility" then Facility
  else if is_one_of protocol ["ca"; "cam"]%string then CA
  else if is_one_of protocol ["den"; "denm"]%string then DEN
  else if is_one_of protocol ["spat"; "spatem"; "tlm"]%string then SPAT
  else if is_one_of protocol ["map"; "mapem"; "rlt"]%string then MAP
  else NotSupported_Protocol.

Section Reader.
Context `{Y : Yaml}.

Definition read_action (action_node : Node) : outcome Action :=
  s ← as_string action_node; Ret (action_of_string s).

Definition read_protocol (protocol_node : Node) : outcome Protocol :=
  s ← as_string protocol_node; Ret (protocol_of_string s).

(** A required scalar member: the node, or the status to return. *)
Definition scalar_member {St} (n : Node) (key : string) (undefined_ bad : St) :
    outcome (St + Node) :=
  m ← at_key n key;
  Ret (if negb (IsDefined m) then inl undefined_
       else if negb (IsScalar m) then inl bad else inr m).

(** The MetaData is meaningful when the status is Meta_Success.  The status
    returned for rev is the one the source returns for sid. *)
Definition read_metadata (meta_node : Node) : outcome (MetaReaderStatusCode + MetaData) :=
  msg_node ← scalar_member meta_node "msg" Undefined_Msg Bad_Msg;
  match msg_node with
  | inl st => Ret (inl st)
  | inr msg_node =>
    m ← as_string msg_node;
    sid_node ← scalar_member meta_node "sid" Undefined_Sid Bad_Sid;
    match sid_node with
    | inl st => Ret (inl st)
    | inr sid_node =>
      s ← as_uint32 sid_node;
      rev_node ← scalar_member meta_node "rev" Undefined_Sid Bad_Sid;
      match rev_node with
      | inl st => Ret (inl st)
      | inr rev_node => r ← as_uint16 rev_node; Ret (inr {| msg := m; sid := s; rev := r |})
      end
    end
  end.

(** The branches of read_geonet_pattern: [None] is PatternReaderStatusCode::Error. *)
Definition read_nh (n : Node) : outcome (option pattern_type) :=
  nh ← as_string n;
  Ret (if is_one_of nh ["common"; "secure"]%string then Some (PString nh) else None).

Definition read_ht (n : Node) : outcome (option pattern_type) :=
  ht ← as_string n;
  Ret (if is_one_of ht ["TSB"; "GBC"; "SHB"]%string then Some (PString ht) else None).

Definition read_mhl (n : Node) : outcome (option pattern_type) :=
  mhl ← as_int n; Ret (Some (PInt mhl)).

(** Two required scalar members read as int. *)
Definition read_two_ints (n : Node) (ka kb : string) : outcome (option (Z * Z)) :=
  a ← scalar_member n ka tt tt;
  match a with
  | inl _ => Ret None
  | inr a =>
    b ← scalar_member n kb tt tt;
    match b with
    | inl _ => Ret None
    | inr b => x ← as_int a; y ← as_int b; Ret (Some (x, y))
    end
  end.

Definition read_destination_area (n : Node) : outcome (option pattern_type) :=
  if negb (IsMap n) then Ret None else
  r ← read_two_ints n "destination_a" "destination_b";
  Ret match r with
      | Some (a, b) => Some (PDestinationArea {| da_distance_a := a; da_distance_b := b |})
      | None => None
      end.

Definition read_allowed_so_range (n : Node) : outcome (option pattern_type) :=
  if negb (IsMap n) then Ret None else
  shape_node ← scalar_member n "shape" tt tt;
  match shape_node with
  | inl _ => Ret None
  | inr shape_node =>
    shape ← as_string shape_node;
    if negb (String.eqb (lowercase shape) "circle") then Ret None else
    r ← read_two_ints n "distance_a" "distance_b";
    Ret match r with
        | Some (a, b) => Some (PAllowedSoRange
            {| so_shape := Circle; so_distance_a := a; so_distance_b := b |})
        | None => None
        end
  end.

(** One iteration of the loop over geonet_keywords. *)
Definition read_geonet_keyword (rules : Node) (key : string) (sig : Signature) :
    outcome (PatternReaderStatusCode * Signature) :=
  n ← at_key rules key;
  if negb (IsDefined n) then Ret (Pattern_Success, sig) else
  let store (r : option pattern_type) :=
    match r with
    | Some v => (Pattern_Success, set_pattern key v sig)
    | None => (Pattern_Error, sig)
    end in
  if String.eqb key "nh" then r ← read_nh n; Ret (store r)
  else if String.eqb key "ht" then r ← read_ht n; Ret (store r)
  else if String.eqb key "mhl" then r ← read_mhl n; Ret (store r)
  else if String.eqb key "destination_area" then r ← read_destination_area n; Ret (store r)
  else if String.eqb key "allowed_so_range" then r ← read_allowed_so_range n; Ret (store r)
  else Ret (Pattern_Success, sig).

Fixpoint read_keywords (f : string -> Signature -> outcome (PatternReaderStatusCode * Signature))
    (keys : list string) (sig : Signature) : outcome (PatternReaderStatusCode * Signature) :=
  match keys with
  | [] => Ret (Pattern_Success, sig)
  | key :: keys =>
    '(st, sig) ← f key sig;
    if decide (st = Pattern_Success) then read_keywords f keys sig else Ret (st, sig)
  end.

Definition read_geonet_pattern (rules : Node) (sig : Signature) :
    outcome (PatternReaderStatusCode * Signature) :=
  read_keywords (read_geonet_keyword rules) geonet_keywords sig.

(** The ids of allowed_ids, from position [i] on. *)
Fixpoint read_ids (fuel : nat) (n : Node) (i : Z) (ids : list Z) : outcome (list Z) :=
  match fuel with
  | O => Ret ids
  | S fuel =>
    m ← at_index n i; id ← as_int m;
    read_ids fuel n (i + 1) (ids ++ [u32 id])
  end.

Definition read_facility_keyword (rules : Node) (key : string) (sig : Signature) :
    outcome (PatternReaderStatusCode * Signature) :=
  n ← at_key rules key;
  if negb (IsDefined n) then Ret (Pattern_Success, sig) else
  if String.eqb key "allowed_ids" then
    if negb (IsSequence n) then Ret (Pattern_Error, sig) else
    ids ← read_ids (Z.to_nat (node_size n)) n 0 [];
    Ret (Pattern_Success, set_pattern key (PFacilityIds ids) sig)
  else Ret (Pattern_Success, sig).

(** The loop runs over geonet_keywords. *)
Definition read_facility_pattern (rules : Node) (sig : Signature) :
    outcome (PatternReaderStatusCode * Signature) :=
  read_keywords (read_facility_keyword rules) geonet_keywords sig.

Definition push_signature (p : Protocol) (sig : Signature) (m : signatures_type) : signatures_type :=
  match m !! p with
  | None => <[p := [sig]]> m
  | Some l => <[p := l ++ [sig]]> m
  end.

(** The iteration of the rule loop up to the switch: everything but the
    patterns. *)
Definition read_rule_head (rule : Node) : outcome (RuleReaderStatusCode + Signature) :=
  action_node ← scalar_member rule "action" Undefined_Action Bad_Action;
  match action_node with
  | inl st => Ret (inl st)
  | inr action_node =>
    a ← read_action action_node;
    if decide (a = NotSupported_Action) then Ret (inl Bad_Action) else
    protocol_node ← scalar_member rule "protocol" Undefined_Protocol Bad_Protocol;
    match protocol_node with
    | inl st => Ret (inl st)
    | inr protocol_node =>
      p ← read_protocol protocol_node;
      if decide (p = NotSupported_Protocol) then Ret (inl Bad_Protocol) else
      meta_node ← at_key rule "meta";
      if negb (IsDefined meta_node) then Ret (inl Undefined_MetaData) else
      if negb (IsMap meta_node) then Ret (inl Bad_MetaData) else
      ret ← read_metadata meta_node;
      match ret with
      | inl _ => Ret (inl Bad_MetaData)
      | inr m => Ret (inr {| action := a; protocol := p; meta := m; patterns := ∅ |})
      end
    end
  end.

(** The switch: the signature to store, if any. *)
Definition read_rule (rule : Node) : outcome (RuleReaderStatusCode + option Signature) :=
  head ← read_rule_head rule;
  match head with
  | inl st => Ret (inl st)
  | inr sig =>
    match protocol sig with
    | GeoNetworking =>
      '(pattern_st, sig) ← read_geonet_pattern rule sig;
      Ret (if decide (pattern_st = Pattern_Success) then inr (Some sig) else inl Bad_Pattern)
    | Facility =>
      '(pattern_st, sig) ← read_facility_pattern rule sig;
      Ret (if decide (pattern_st = Pattern_Success) then inr (Some sig) else inl Bad_Pattern)
    | _ => Ret (inr None)
    end
  end.

Definition store_rule (r : option Signature) (m : signatures_type) : signatures_type :=
  match r with Some sig => push_signature (protocol sig) sig m | None => m end.

(** for(int i = 0; i < (int)rules.size(); ++i); [n] rules are left. *)
Fixpoint read_rules (n : nat) (rules : Node) (i : Z) (signatures : signatures_type) :
    outcome (RuleReaderStatusCode * signatures_type) :=
  match n with
  | O => Ret (Success, signatures)
  | S n =>
    rule ← at_index rules i;
    r ← read_rule rule;
    match r with
    | inl st => Ret (st, signatures)
    | inr r => read_rules n rules (i + 1) (store_rule r signatures)
    end
  end.

Definition read (rule_filepath : string) (signatures : signatures_type) :
    outcome (RuleReaderStatusCode * signatures_type) :=
  ruleset ← LoadFile rule_filepath;
  if negb (IsMap ruleset) then Ret (Broken_Rule_Structure, signatures) else
  rules ← at_key ruleset "rules";
  if negb (IsSequence rules) then Ret (Broken_Rule_Structure, signatures) else
  read_rules (Z.to_nat (s32 (node_size rules))) rules 0 signatures.

(** ** Lemmas *)

Lemma push_signature_lookup p sig m q :
  push_signature p sig m !! q =
    if decide (p = q) then Some (default [] (m !! p) ++ [sig]) else m !! q.
Proof.
  unfold push_signature. destruct (m !! p) eqn:E; case_decide; subst; cbn;
    try apply lookup_insert_eq; by apply lookup_insert_ne.
Qed.

Lemma is_one_of_In s l : is_one_of s l = true -> s ∈ l.
Proof.
  unfold is_one_of. rewrite existsb_exists. intros (x & Hx & ->%String.eqb_eq).
  by apply list_elem_of_In.
Qed.

Lemma read_keywords_inv (R : Signature -> Prop) f keys sig st sig' :
  (forall key sig st sig', key ∈ keys -> R sig -> f key sig = Ret (st, sig') -> R sig') ->
  R sig -> read_keywords f keys sig = Ret (st, sig') -> R sig'.
Proof.
  revert sig. induction keys as [|k keys IH]; intros sig Hf HR; cbn [read_keywords].
  { by intros [= _ <-]. }
  intros ([st1 sig1] & H1 & H2)%outcome_bind_Ret.
  assert (HR1 : R sig1) by (eapply Hf; [apply elem_of_cons; by left|exact HR|exact H1]).
  case_decide; [|by injection H2 as _ <-].
  eapply IH; [|exact HR1|exact H2]. intros. eapply Hf; [apply elem_of_cons; by right|..]; done.
Qed.

(** What a branch stores is well formed under its keyword. *)
Lemma read_branch_wf n v :
  (read_nh n = Ret (Some v) -> pattern_wf "nh" v) /\
  (read_ht n = Ret (Some v) -> pattern_wf "ht" v) /\
  (read_mhl n = Ret (Some v) -> pattern_wf "mhl" v) /\
  (read_destination_area n = Ret (Some v) -> pattern_wf "destination_area" v) /\
  (read_allowed_so_range n = Ret (Some v) -> pattern_wf "allowed_so_range" v).
Proof.
  split_and!.
  - intros (s & _ & H)%outcome_bind_Ret. case_match eqn:E; [|done]. injection H as <-.
    apply is_one_of_In in E. rewrite !elem_of_cons in E.
    left. destruct E as [?|[?|[]%not_elem_of_nil]]; auto.
  - intros (s & _ & H)%outcome_bind_Ret. case_match eqn:E; [|done]. injection H as <-.
    apply is_one_of_In in E. rewrite !elem_of_cons in E.
    right. destruct E as [?|[?|[?|[]%not_elem_of_nil]]]; auto.
  - by intros (z & _ & [= <-])%outcome_bind_Ret.
  - unfold read_destination_area. case_match; [done|].
    by intros ([[a b]|] & _ & [= <-])%outcome_bind_Ret.
  - unfold read_allowed_so_range. case_match; [done|].
    intros ([?|sn] & _ & H1)%outcome_bind_Ret; [done|].
    apply outcome_bind_Ret in H1 as (s & _ & H1). case_match; [done|].
    by apply outcome_bind_Ret in H1 as ([[a b]|] & _ & [= <-]).
Qed.

(** Reading patterns keeps everything else of the signature. *)
Definition same_head (s1 s2 : Signature) : Prop :=
  action s1 = action s2 /\ protocol s1 = protocol s2 /\ meta s1 = meta s2.

Definition geonet_partial (s0 sig : Signature) : Prop :=
  same_head sig s0 /\ patterns_wf (patterns sig) /\
  forall k, is_Some (patterns sig !! k) -> k ∈ geonet_keywords.

Lemma set_pattern_partial s0 sig k v : k ∈ geonet_keywords -> pattern_wf k v ->
  geonet_partial s0 sig -> geonet_partial s0 (set_pattern k v sig).
Proof.
  intros Hk Hv (Hh & Hw & Hd). split_and!; [done|by apply patterns_wf_insert|].
  cbn. intros k'. destruct (decide (k = k')) as [<-|Hne]; [done|].
  rewrite lookup_insert_ne by done. apply Hd.
Qed.

Lemma read_geonet_keyword_partial rules key s0 sig st sig' :
  key ∈ geonet_keywords -> geonet_partial s0 sig ->
  read_geonet_keyword rules key sig = Ret (st, sig') -> geonet_partial s0 sig'.
Proof.
  intros Hk Hp (n & _ & H)%outcome_bind_Ret.
  destruct (negb (IsDefined n)); [by injection H as _ <-|].
  assert (Hstore : forall r : option pattern_type, (forall v, r = Some v -> pattern_wf key v) ->
    (match r with Some v => (Pattern_Success, set_pattern key v sig)
     | None => (Pattern_Error, sig) end) = (st, sig') -> geonet_partial s0 sig').
  { intros [v|] Hr [= _ <-]; [|done]. apply set_pattern_partial; auto. }
  repeat match type of H with context [String.eqb key ?s] =>
    destruct (String.eqb_spec key s) as [->|] end.
  1-5: apply outcome_bind_Ret in H as (r & Hr & [= H]);
    apply (Hstore r); [intros v ->; by apply (read_branch_wf n v)|done].
  by injection H as _ <-.
Qed.

Lemma read_facility_pattern_head rules sig st sig' :
  read_facility_pattern rules sig = Ret (st, sig') -> st = Pattern_Success /\ sig' = sig.
Proof.
  intros H. unfold read_facility_pattern in H.
  assert (Hk : forall key st sig', key ∈ geonet_keywords ->
    read_facility_keyword rules key sig = Ret (st, sig') -> st = Pattern_Success /\ sig' = sig).
  { clear. intros key st sig' Hk (n & _ & H)%outcome_bind_Ret.
    destruct (negb (IsDefined n)); [by injection H as <- <-|].
    destruct (String.eqb_spec key "allowed_ids") as [->|]; [|by injection H as <- <-].
    assert (Hn : "allowed_ids"%string ∉ geonet_keywords) by (by apply (bool_decide_unpack _)).
    done. }
  revert H Hk. generalize geonet_keywords. intros keys. induction keys as [|k keys IH].
  { by intros [= <- <-] _. }
  cbn [read_keywords]. intros ([st1 s1] & H1 & H2)%outcome_bind_Ret Hk.
  destruct (Hk k st1 s1) as [-> ->]; [apply elem_of_cons; by left|done|].
  rewrite decide_True in H2 by done. apply IH; [done|]. intros. eapply Hk; [|done].
  apply elem_of_cons. by right.
Qed.

(** Case analysis on a completed sequence of reads. *)
Ltac read_steps H :=
  repeat match type of H with
  | mbind _ _ = Ret _ => apply outcome_bind_Ret in H as (? & ? & H)
  | (match ?x with _ => _ end) = Ret _ => destruct x eqn:?
  end; simplify_eq.

Lemma read_rule_head_inr rule sig : read_rule_head rule = Ret (inr sig) ->
  action sig <> NotSupported_Action /\ protocol sig <> NotSupported_Protocol /\ patterns sig = ∅.
Proof. intros H. unfold read_rule_head in H. read_steps H. done. Qed.

(** A stored rule is well formed for its protocol. *)
Lemma read_rule_wf rule sig : read_rule rule = Ret (inr (Some sig)) ->
  signature_wf (protocol sig) sig /\ (protocol sig = GeoNetworking \/ protocol sig = Facility).
Proof.
  intros (head & Hh & H)%outcome_bind_Ret. destruct head as [st|s0]; [done|].
  apply read_rule_head_inr in Hh as (Ha & _ & Hp).
  destruct (protocol s0) eqn:Ep; try done;
    apply outcome_bind_Ret in H as ([st sig'] & Hr & H); case_decide; try done; injection H as <-.
  - assert (Hpart : geonet_partial s0 sig').
    { eapply read_keywords_inv; [| |exact Hr].
      - intros. eapply read_geonet_keyword_partial; eauto.
      - split_and!; [done|rewrite Hp; apply pattern_wf_empty|].
        rewrite Hp. intros k. rewrite lookup_empty. by intros []. }
    destruct Hpart as ((Hact & Hpro & _) & Hw & Hd). rewrite Hpro, Ep. split; [|by left].
    split_and!; congruence || done.
  - apply read_facility_pattern_head in Hr as [_ ->]. rewrite Ep. split; [|by right].
    by split_and!.
Qed.

Lemma store_rule_wf r m : signatures_wf m ->
  (forall sig, r = Some sig -> signature_wf (protocol sig) sig) ->
  signatures_wf (store_rule r m).
Proof.
  intros Hm Hr. destruct r as [sig|]; [|done]. cbn. intros p l.
  rewrite push_signature_lookup. case_decide as Hp; [|apply Hm].
  intros [= <-]. apply Forall_app. split; [subst; by apply signatures_wf_lookup|].
  constructor; [|constructor]. subst. by apply Hr.
Qed.

Lemma read_rules_wf n rules i m st m' : signatures_wf m ->
  read_rules n rules i m = Ret (st, m') -> signatures_wf m'.
Proof.
  revert i m. induction n as [|n IH]; intros i m Hm; cbn [read_rules]; [by intros [= _ <-]|].
  intros (rule & _ & (r & Hr & H)%outcome_bind_Ret)%outcome_bind_Ret.
  destruct r as [st'|r]; [by injection H as _ <-|].
  eapply IH; [|exact H]. apply store_rule_wf; [done|]. intros sig ->.
  by apply read_rule_wf in Hr as [? _].
Qed.
End Reader.

(** ** Functional lemmas *)

Section ReaderSpec.
Context `{Y : Yaml}.

(** The branch of read_geonet_pattern for a keyword. *)
Definition read_branch (key : string) (n : Node) : outcome (option pattern_type) :=
  if String.eqb key "nh" then read_nh n
  else if String.eqb key "ht" then read_ht n
  else if String.eqb key "mhl" then read_mhl n
  else if String.eqb key "destination_area" then read_destination_area n
  else read_allowed_so_range n.

(** What the rule file must hold under a keyword for a pattern to be stored. *)
Definition int_member (n : Node) (key : string) (z : Z) : Prop :=
  exists m, at_key n key = Ret m /\ IsDefined m = true /\ IsScalar m = true /\ as_int m = Ret z.

Definition pattern_of (key : string) (n : Node) (v : pattern_type) : Prop :=
  match v with
  | PString s => as_string n = Ret s /\
      (key = "nh" /\ s ∈ ["common"; "secure"] \/ key = "ht" /\ s ∈ ["TSB"; "GBC"; "SHB"])%string
  | PInt m => as_int n = Ret m /\ key = "mhl"%string
  | PDestinationArea r => IsMap n = true /\ key = "destination_area"%string /\
      int_member n "destination_a" (da_distance_a r) /\ int_member n "destination_b" (da_distance_b r)
  | PAllowedSoRange r => IsMap n = true /\ key = "allowed_so_range"%string /\
      (exists m s, at_key n "shape" = Ret m /\ as_string m = Ret s /\ lowercase s = "circle"%string) /\
      so_shape r = Circle /\
      int_member n "distance_a" (so_distance_a r) /\ int_member n "distance_b" (so_distance_b r)
  | PFacilityIds _ => False
  end.

Lemma scalar_member_inr {St} n key (u b : St) m : scalar_member n key u b = Ret (inr m) ->
  at_key n key = Ret m /\ IsDefined m = true /\ IsScalar m = true.
Proof.
  intros (m' & Hm & H)%outcome_bind_Ret. destruct (IsDefined m') eqn:Ed; cbn [negb] in H; [|done].
  destruct (IsScalar m') eqn:Es; cbn [negb] in H; [|done]. by injection H as <-.
Qed.

Lemma read_two_ints_ok n ka kb x y : read_two_ints n ka kb = Ret (Some (x, y)) ->
  int_member n ka x /\ int_member n kb y.
Proof.
  intros ([?|a] & Ha & H)%outcome_bind_Ret; [done|]. apply outcome_bind_Ret in H as ([?|b] & Hb & H); [done|].
  apply outcome_bind_Ret in H as (x' & Hx & (y' & Hy & [= -> ->])%outcome_bind_Ret).
  apply scalar_member_inr in Ha as (? & ? & ?), Hb as (? & ? & ?). split; eexists; by split_and!.
Qed.

Lemma read_branch_ok key n v : key ∈ geonet_keywords ->
  read_branch key n = Ret (Some v) -> pattern_of key n v.
Proof.
  intros Hk. unfold read_branch. repeat (match goal with |- context [String.eqb key ?s] =>
    destruct (String.eqb_spec key s) as [->|?] end).
  - intros (s & Hs & H)%outcome_bind_Ret. destruct (is_one_of s _) eqn:E; [|done].
    injection H as <-. split; [done|]. left. split; [done|]. by apply is_one_of_In.
  - intros (s & Hs & H)%outcome_bind_Ret. destruct (is_one_of s _) eqn:E; [|done].
    injection H as <-. split; [done|]. right. split; [done|]. by apply is_one_of_In.
  - intros (m & Hm & [= <-])%outcome_bind_Ret. done.
  - unfold read_destination_area. destruct (IsMap n) eqn:Em; [|done]. cbn [negb].
    intros ([[a b]|] & Hr & [= <-])%outcome_bind_Ret. apply read_two_ints_ok in Hr as []. done.
  - assert (key = "allowed_so_range"%string) as ->.
    { unfold geonet_keywords in Hk. rewrite !elem_of_cons in Hk.
      by destruct Hk as [?|[?|[?|[?|[?|[]%not_elem_of_nil]]]]]. }
    unfold read_allowed_so_range. destruct (IsMap n) eqn:Em; [|done]. cbn [negb].
    intros ([?|sh] & Hsh & H)%outcome_bind_Ret; [done|]. apply outcome_bind_Ret in H as (s & Hs & H).
    destruct (String.eqb_spec (lowercase s) "circle") as [Hc|]; [|done].
    apply outcome_bind_Ret in H as ([[a b]|] & Hr & [= <-]). apply read_two_ints_ok in Hr as [].
    apply scalar_member_inr in Hsh as []. split_and!; try done. eauto.
Qed.

Lemma read_geonet_keyword_spec rules key sig :
  key ∈ geonet_keywords ->
  read_geonet_keyword rules key sig =
    (n ← at_key rules key;
     if negb (IsDefined n) then Ret (Pattern_Success, sig) else
     r ← read_branch key n;
     Ret match r with
         | Some v => (Pattern_Success, set_pattern key v sig)
         | None => (Pattern_Error, sig)
         end).
Proof.
  intros Hk. unfold read_geonet_keyword, read_branch.
  destruct (at_key rules key) as [n| |]; cbn [mbind outcome_bind]; try done.
  destruct (negb (IsDefined n)); [done|]. repeat case_match; try done.
  repeat match goal with H : String.eqb _ _ = false |- _ => apply String.eqb_neq in H end.
  unfold geonet_keywords in Hk. rewrite !elem_of_cons in Hk.
  destruct Hk as [?|[?|[?|[?|[?|[]%not_elem_of_nil]]]]]; done.
Qed.

(** The keywords not in [keys] keep what they had. *)
Lemma read_geonet_keywords_spec rules keys sig sig' :
  NoDup keys -> (forall k, k ∈ keys -> k ∈ geonet_keywords) ->
  read_keywords (read_geonet_keyword rules) keys sig = Ret (Pattern_Success, sig') ->
  (forall k, k ∉ keys -> patterns sig' !! k = patterns sig !! k) /\
  (forall k, k ∈ keys -> exists n, at_key rules k = Ret n /\
     if IsDefined n
     then exists v, pattern_of k n v /\ patterns sig' !! k = Some v
     else patterns sig' !! k = patterns sig !! k).
Proof.
  intros Hnd Hin. revert sig. induction Hnd as [|k keys Hk Hnd IH]; intros sig.
  { intros [= <-]. split; [done|]. by intros k []%not_elem_of_nil. }
  cbn [read_keywords]. intros ([st1 sig1] & H1 & H2)%outcome_bind_Ret. case_decide; [|congruence].
  destruct (IH (fun k' Hk' => Hin k' (proj2 (elem_of_cons _ _ _) (or_intror Hk'))) sig1 H2)
    as [Hout Hkeys]. clear IH H2.
  rewrite read_geonet_keyword_spec in H1 by (apply Hin, elem_of_cons; by left).
  apply outcome_bind_Ret in H1 as (n & Hn & H1).
  assert (Hsig1 : (forall k', k' <> k -> patterns sig1 !! k' = patterns sig !! k') /\
    if IsDefined n then exists v, pattern_of k n v /\ patterns sig1 !! k = Some v
    else patterns sig1 !! k = patterns sig !! k).
  { destruct (IsDefined n); cbn [negb] in H1; [|by injection H1 as <- <-].
    apply outcome_bind_Ret in H1 as ([v|] & Hv & [= <- <-]); [|done].
    split; [intros k' Hne; by apply lookup_insert_ne|]. exists v. split; [|apply lookup_insert_eq].
    apply read_branch_ok; [apply Hin, elem_of_cons; by left|done]. }
  destruct Hsig1 as [Hother Hthis]. split.
  - intros k' [Hne Hk']%not_elem_of_cons. by rewrite Hout, Hother.
  - intros k' [->|Hk']%elem_of_cons.
    + exists n. split; [done|]. rewrite (Hout k) by done. exact Hthis.
    + destruct (Hkeys k' Hk') as (n' & Hn' & H'). exists n'. split; [done|].
      rewrite <- (Hother k') by (intros ->; done). exact H'.
Qed.

(** Storing rules one after the other appends each to its protocol's list. *)
Lemma store_rules_lookup rs m p :
  foldl (fun m r => store_rule r m) m rs !! p =
    match filter (fun s => protocol s = p) (omap id rs) with
    | [] => m !! p
    | l => Some (default [] (m !! p) ++ l)
    end.
Proof.
  revert m. induction rs as [|[sig|] rs IH]; intros m; [done| |apply IH].
  cbn [foldl]. rewrite IH. cbn [store_rule omap list_omap id]. rewrite push_signature_lookup.
  change (omap id rs) with (list_omap _ _ id rs).
  rewrite filter_cons. repeat case_decide; try congruence.
  subst p. cbn. destruct (filter _ _); [done|]. by rewrite <- app_assoc.
Qed.

(** The nodes of a sequence from position [i] on. *)
Definition nodes_at (rules : Node) (i : Z) (nodes : list Node) : Prop :=
  forall j n, nodes !! j = Some n -> at_index rules (i + Z.of_nat j) = Ret n.

Lemma nodes_at_cons rules i n nodes : nodes_at rules i (n :: nodes) ->
  at_index rules i = Ret n /\ nodes_at rules (i + 1) nodes.
Proof.
  intros H. split.
  - specialize (H 0%nat n eq_refl). by rewrite Z.add_0_r in H.
  - intros j n' Hj. rewrite <- (H (S j) n' Hj). f_equal. lia.
Qed.

Lemma read_rules_spec good rs rest rules i m st :
  nodes_at rules i (good ++ rest) ->
  Forall2 (fun n r => read_rule n = Ret (inr r)) good rs ->
  match rest with [] => st = Success | n :: _ => read_rule n = Ret (inl st) end ->
  read_rules (length (good ++ rest)) rules i m =
    Ret (st, foldl (fun m r => store_rule r m) m rs).
Proof.
  intros Hn Hg Hr. revert i m Hn. induction Hg as [|n r good rs Hnr Hg IH]; intros i m Hn.
  - destruct rest as [|n rest]; [by subst st|].
    apply nodes_at_cons in Hn as [Hn _]. cbn [app length read_rules].
    rewrite Hn. cbn [mbind outcome_bind]. rewrite Hr. done.
  - apply nodes_at_cons in Hn as [Hn1 Hn2]. cbn [app length read_rules].
    rewrite Hn1. cbn [mbind outcome_bind]. rewrite Hnr. cbn [mbind outcome_bind foldl].
    by apply IH.
Qed.
End ReaderSpec.

(** ** A small YAML *)

#[warnings="-register-all"]
Inductive ynode :=
  | YUndefined
  | YScalar (s : string)
  | YSeq (l : list ynode)
  | YMap (l : list (string * ynode)).

Definition digit (c : Ascii.ascii) : option Z :=
  let n := Z.of_nat (Ascii.nat_of_ascii c) - 48 in
  if (0 <=? n) && (n <=? 9) then Some n else None.
Fixpoint decimal (s : string) (acc : Z) : option Z :=
  match s with
  | EmptyString => Some acc
  | String c s => d ← digit c; decimal s (10 * acc + d)
  end.
Definition y_number (bound : Z) (n : ynode) : outcome Z :=
  match n with
  | YScalar s =>
    match decimal s 0 with
    | Some z => if (0 <=? z) && (z <? bound) then Ret z else Throw (yaml_exception "bad conversion")
    | None => Throw (yaml_exception "bad conversion")
    end
  | _ => Throw (yaml_exception "bad conversion")
  end.
Fixpoint y_find (k : string) (l : list (string * ynode)) : ynode :=
  match l with
  | [] => YUndefined
  | (k', n) :: l => if String.eqb k k' then n else y_find k l
  end.

Definition sample_yaml (file : ynode) : Yaml := {|
  Node := ynode;
  LoadFile := fun _ => Ret file;
  IsDefined := fun n => match n with YUndefined => false | _ => true end;
  IsScalar := fun n => match n with YScalar _ => true | _ => false end;
  IsMap := fun n => match n with YMap _ => true | _ => false end;
  IsSequence := fun n => match n with YSeq _ => true | _ => false end;
  node_size := fun n => match n with YSeq l => Z.of_nat (length l) | _ => 0 end;
  at_key := fun n k => match n with
    | YMap l => Ret (y_find k l)
    | YScalar _ => Throw (yaml_exception "bad subscript")
    | _ => Ret YUndefined end;
  at_index := fun n i => match n with
    | YSeq l => Ret (default YUndefined (l !! Z.to_nat i))
    | _ => Throw (yaml_exception "bad subscript") end;
  as_string := fun n => match n with YScalar s => Ret s | _ => Throw (yaml_exception "bad conversion") end;
  as_int := y_number (2 ^ 31); as_uint32 := y_number (2 ^ 32); as_uint16 := y_number (2 ^ 16)
|}.

Lemma y_number_range bound n z : y_number bound n = Ret z -> 0 <= z < bound.
Proof.
  destruct n; cbn; try done. destruct (decimal s 0) as [x|]; [|done].
  destruct (Z.leb_spec 0 x), (Z.ltb_spec x bound); cbn; try done. intros [= <-]. lia.
Qed.

Lemma y_number_defined bound n : defined (y_number bound n).
Proof. unfold y_number. destruct n; try done. destruct (decimal _ _); [|done]. by case_match. Qed.

Lemma sample_yaml_ok file : @YamlLaws (sample_yaml file).
Proof.
  split.
  - split_and!; cbn; try done; try (by intros []); apply y_number_defined.
  - intros n z. apply y_number_range.
  - intros n z. apply y_number_range.
Qed.

Definition y_rule (action protocol : string) (rest : list (string * ynode)) : ynode :=
  YMap ([("action", YScalar action); ("protocol", YScalar protocol);
         ("meta", YMap [("msg", YScalar "m"); ("sid", YScalar "7"); ("rev", YScalar "1")])]%string ++ rest).

Definition y_good : ynode := y_rule "Alert" "GeoNet" [("mhl", YScalar "3"); ("nh", YScalar "secure")]%string.
Definition y_facility : ynode := y_rule "drop" "facility" [("allowed_ids", YSeq [YScalar "4"])]%string.
Definition y_cam : ynode := y_rule "drop" "CAM" [].
Definition y_bad : ynode := y_rule "log" "geonet" [].
Definition y_file : ynode := YMap [("rules", YSeq [y_good; y_cam; y_facility; y_bad; y_good])]%string.

(** ** Properties *)

(** C4: Whatever the file holds and whatever [read] returns, every signature it
    has stored is well formed for the protocol it is stored under: an action
    the handler knows, and under GeoNetworking only known keywords, each with
    a pattern of the type and values the detector expects. *)
Theorem read_well_formed `{Y : Yaml} (file : string) (m m' : signatures_type) st :
  signatures_wf m -> read file m = Ret (st, m') -> signatures_wf m'.
Proof.
  intros Hm (root & _ & H)%outcome_bind_Ret. destruct (negb (IsMap root)); [by injection H as _ <-|].
  apply outcome_bind_Ret in H as (rules & _ & H).
  destruct (negb (IsSequence rules)); [by injection H as _ <-|]. by eapply read_rules_wf.
Qed.

Lemma read_well_formed_witness :
  exists st m', read (Y := sample_yaml y_file) "rules.yaml" ∅ = Ret (st, m') /\ signatures_wf m'.
Proof.
  do 2 eexists. split; [reflexivity|].
  apply (@read_well_formed (sample_yaml y_file) "rules.yaml" ∅ _ Bad_Action).
  - intros p l. rewrite lookup_empty. discriminate.
  - reflexivity.
Defined.

(** C5: [read] stores the rules of the file in order, each at the end of its
    protocol's list, up to the first rule it rejects, whose status it
    returns; rules after that one are not looked at, rules of the other
    protocols are accepted and dropped. *)
Theorem read_stops_at_first_error `{Y : Yaml} (file : string) (m : signatures_type)
    root rules (good rest : list Node) rs st :
  LoadFile file = Ret root -> IsMap root = true -> at_key root "rules" = Ret rules ->
  IsSequence rules = true -> node_size rules = Z.of_nat (length (good ++ rest)) ->
  Z.of_nat (length (good ++ rest)) < 2 ^ 31 -> nodes_at rules 0 (good ++ rest) ->
  Forall2 (fun n r => read_rule n = Ret (inr r)) good rs ->
  match rest with [] => st = Success | n :: _ => read_rule n = Ret (inl st) end ->
  exists m', read file m = Ret (st, m') /\
    forall p, m' !! p = match filter (fun s => protocol s = p) (omap id rs) with
                        | [] => m !! p
                        | l => Some (default [] (m !! p) ++ l)
                        end.
Proof.
  intros Hl Hm Hk Hs Hsz Hlt Hn Hg Hr. unfold read.
  rewrite Hl. cbn [mbind outcome_bind]. rewrite Hm. cbn [negb]. rewrite Hk. cbn [mbind outcome_bind].
  rewrite Hs. cbn [negb]. rewrite Hsz, s32_small, Nat2Z.id by lia.
  rewrite (read_rules_spec good rs rest rules 0 m st) by done.
  eexists. split; [done|]. intros p. apply store_rules_lookup.
Qed.

Lemma read_stops_at_first_error_witness :
  exists m', read (Y := sample_yaml y_file) "rules.yaml" ∅ = Ret (Bad_Action, m') /\
    forall p, m' !! p = match filter (fun s => protocol s = p) (omap id
      [Some {| action := Action_Alert; protocol := GeoNetworking;
          meta := {| msg := "m"; sid := 7; rev := 1 |};
          patterns := <["mhl" := PInt 3]> (<["nh" := PString "secure"]> ∅) |};
       None;
       Some {| action := Action_Drop; protocol := Facility;
          meta := {| msg := "m"; sid := 7; rev := 1 |}; patterns := ∅ |}]) with
      | [] => (∅ : signatures_type) !! p
      | l => Some (default [] ((∅ : signatures_type) !! p) ++ l)
      end.
Proof.
  refine (@read_stops_at_first_error (sample_yaml y_file) "rules.yaml" ∅ y_file
    (YSeq [y_good; y_cam; y_facility; y_bad; y_good]) [y_good; y_cam; y_facility] [y_bad; y_good]
    _ Bad_Action _ _ _ _ _ _ _ _ _); try reflexivity.
  - intros [|[|[|[|[|j]]]]] n Hj; cbn in Hj; try discriminate; injection Hj as <-; reflexivity.
  - repeat (apply List.Forall2_cons; [reflexivity|]). apply List.Forall2_nil.
Defined.

(** C9: Reading the patterns of a GeoNetworking rule: when it succeeds, each
    keyword whose node is defined has exactly the pattern the node spells out
    (one of the allowed names, a number, an area or a circular range with its
    two distances), a keyword without a node has none, and there is nothing
    else. *)
Theorem read_geonet_pattern_exact `{Y : Yaml} (rule : Node) (sig sig' : Signature) :
  patterns sig = ∅ -> read_geonet_pattern rule sig = Ret (Pattern_Success, sig') ->
  forall k,
    if decide (k ∈ geonet_keywords)
    then exists n, at_key rule k = Ret n /\
      if IsDefined n
      then exists v, pattern_of k n v /\ patterns sig' !! k = Some v
      else patterns sig' !! k = None
    else patterns sig' !! k = None.
Proof.
  intros He Hr k. pose proof (read_geonet_keywords_spec rule geonet_keywords sig sig'
    ltac:(by apply (bool_decide_unpack _)) (fun _ H => H) Hr) as [Hout Hin].
  rewrite He in *. setoid_rewrite lookup_empty in Hin. case_decide as Hk; [by apply Hin|].
  rewrite Hout by done. apply lookup_empty.
Qed.

Lemma read_geonet_pattern_exact_witness :
  exists n, at_key (Yaml := sample_yaml y_file) y_good "mhl" = Ret n /\
    if IsDefined (Yaml := sample_yaml y_file) n
    then exists v, pattern_of (Y := sample_yaml y_file) "mhl" n v /\
      patterns {| action := Action_Alert; protocol := GeoNetworking;
          meta := {| msg := "m"; sid := 7; rev := 1 |};
          patterns := <["mhl" := PInt 3]> (<["nh" := PString "secure"]> ∅) |} !! "mhl"%string = Some v
    else patterns {| action := Action_Alert; protocol := GeoNetworking;
          meta := {| msg := "m"; sid := 7; rev := 1 |};
          patterns := <["mhl" := PInt 3]> (<["nh" := PString "secure"]> ∅) |} !! "mhl"%string = None.
Proof.
  exact (@read_geonet_pattern_exact (sample_yaml y_file) y_good
    {| action := Action_Alert; protocol := GeoNetworking;
       meta := {| msg := "m"; sid := 7; rev := 1 |}; patterns := ∅ |} _ eq_refl eq_refl "mhl"%string).
Defined.

(** The facility reader loops over the GeoNetworking keywords, so a rule's
    allowed_ids are never read: whenever it returns, it reports success and
    the signature has no pattern, whatever the rule says. *)
Theorem facility_allowed_ids_ignored `{Y : Yaml} (rule : Node) (sig sig' : Signature) st :
  read_facility_pattern rule sig = Ret (st, sig') -> st = Pattern_Success /\ sig' = sig.
Proof. apply read_facility_pattern_head. Qed.

Lemma facility_allowed_ids_ignored_witness :
  Pattern_Success = Pattern_Success /\
  {| action := Action_Drop; protocol := Facility;
     meta := {| msg := "m"; sid := 7; rev := 1 |}; patterns := ∅ |} =
  {| action := Action_Drop; protocol := Facility;
     meta := {| msg := "m"; sid := 7; rev := 1 |}; patterns := ∅ |}.
Proof.
  apply (@facility_allowed_ids_ignored (sample_yaml y_file) y_facility).
  reflexivity.
Defined.
