(* ===== verification/Handler.v ===== *)
(** * Message handler (src/mitvane/message_handler/message_handler.cpp)

    What is logged for the matched rules and whether the packet is dropped.
    The boost logger is a list of lines. *)
From stdpp Require Import pretty.
From S2P Require Import Prelude Signature.

Inductive HandleReport := Allow | Drop.

#[export] Instance HandleReport_eq_dec : EqDecision HandleReport.
Proof. solve_decision. Defined.

(** std::to_string of an unsigned integer. *)
Definition to_string (z : Z) : string := pretty (Z.to_N z).

Definition action_to_string (a : Action) : string :=
  (if decide (a = Action_Alert) then "alert"
   else if decide (a = Action_Drop) then "drop"
   else "unknown action")%string.

Definition protocol_to_string (p : Protocol) : string :=
  (if decide (p = GeoNetworking) then "GeoNetworking"
   else if decide (p = BTP) then "BTP"
   else if decide (p = Facility) then "Facility"
   else if decide (p = CA) then "CA"
   else if decide (p = DEN) then "DEN"
   else if decide (p = SPAT) then "SPAT"
   else if decide (p = MAP) then "MAP"
   else "unknown protocol")%string.

Definition sid_rev_to_string (m : MetaData) : string :=
  ("[" +:+ to_string (sid m) +:+ ":" +:+ to_string (rev m) +:+ "] ")%string.

Definition format_log (s : Signature) : string :=
  (sid_rev_to_string (meta s) +:+ msg (meta s) +:+ " " +:+ action_to_string (action s) +:+
   " " +:+ "{" +:+ protocol_to_string (protocol s) +:+ "}")%string.

Definition unknown_action_line : string := "Unknown action. No log output.".

(** The loop over [sigs]: the lines logged so far and the report so far. *)
Fixpoint handle_loop (sigs : list Signature) (lg : list string) (rep : HandleReport) :
    list string * HandleReport :=
  match sigs with
  | [] => (lg, rep)
  | sig :: sigs =>
    if decide (action sig = Action_Alert) then handle_loop sigs (lg ++ [format_log sig]) rep
    else if decide (action sig = Action_Drop) then handle_loop sigs (lg ++ [format_log sig]) Drop
    else handle_loop sigs (lg ++ [unknown_action_line]) Drop
  end.

Definition handle (sigs : list Signature) (lg : list string) : list string * HandleReport :=
  handle_loop sigs lg Allow.

(** ** Specification *)

(** The line one signature contributes to the log. *)
Definition log_line (s : Signature) : string :=
  if decide (action s = NotSupported_Action) then unknown_action_line else format_log s.

(** A packet is let through exactly when no matched rule asks for more than
    an alert. *)
Definition verdict (sigs : list Signature) : HandleReport :=
  if decide (Forall (fun s => action s = Action_Alert) sigs) then Allow else Drop.

Lemma verdict_cons s sigs :
  verdict (s :: sigs) = if decide (action s = Action_Alert) then verdict sigs else Drop.
Proof.
  unfold verdict. destruct (decide (action s = Action_Alert)) as [Ha|Ha].
  - apply decide_ext. rewrite Forall_cons. tauto.
  - rewrite decide_False; [done|]. rewrite Forall_cons. tauto.
Qed.

Lemma handle_loop_ok sigs lg rep :
  handle_loop sigs lg rep =
    (lg ++ (log_line <$> sigs), if decide (rep = Drop) then Drop else verdict sigs).
Proof.
  revert lg rep. induction sigs as [|s sigs IH]; intros lg rep.
  { cbn. rewrite app_nil_r. by destruct rep. }
  cbn [handle_loop]. rewrite fmap_cons, verdict_cons.
  assert (Hl : forall l, (lg ++ [l]) ++ (log_line <$> sigs) = lg ++ l :: (log_line <$> sigs))
    by (intros; by rewrite <- app_assoc).
  unfold log_line at 1.
  repeat (case_decide; try congruence); rewrite IH, Hl;
    repeat (case_decide; try congruence); destruct (action s), rep; naive_solver.
Qed.

Lemma handle_ok sigs lg : handle sigs lg = (lg ++ (log_line <$> sigs), verdict sigs).
Proof. unfold handle. rewrite handle_loop_ok. done. Qed.

(** C7: [handle] reports Drop exactly when some matched rule's action is not
    Alert, wherever it stands in the list and whatever follows it, and it
    appends one line per matched rule, in order. *)
Theorem handle_verdict (sigs : list Signature) (lg : list string) :
  exists lines, handle sigs lg = (lg ++ lines, verdict sigs) /\
    length lines = length sigs /\
    (verdict sigs = Drop <-> exists s, s ∈ sigs /\ action s <> Action_Alert) /\
    (forall i s, sigs !! i = Some s -> action s <> NotSupported_Action ->
       lines !! i = Some (format_log s)).
Proof.
  exists (log_line <$> sigs). rewrite handle_ok, length_fmap. split_and!; [done|done| |].
  - unfold verdict. case_decide as H.
    + split; [done|]. intros (s & Hs & Ha).
      rewrite Forall_forall in H. by destruct (Ha (H s Hs)).
    + split; [|done]. intros _. apply not_Forall_Exists in H; [|intros ?; apply _].
      by apply Exists_exists in H.
  - intros i s Hi Ha. rewrite list_lookup_fmap, Hi. cbn. unfold log_line. by case_decide.
Qed.
