(* ===== verification/Detector.v ===== *)
(** * GeoNetworking detector (src/mitvane/detector/)

    [detect] compares the decoded header fields of one packet with every
    GeoNetworking rule.  Header codes and geometry come from vanetza: the
    classes [GeonetCodes] and [SecurityRegion] are what the detector uses of
    it, and [EtsiCodes] states the code points ETSI EN 302 636-4-1 assigns. *)
From S2P Require Import Prelude Outcome Signature.

(** ** What vanetza provides *)

(** NextHeaderBasic and HeaderType enumerators as their underlying values. *)
Class GeonetCodes := {
  NextHeaderBasic_Common : Z;
  NextHeaderBasic_Secured : Z;
  HeaderType_TSB_Multi_Hop : Z;
  HeaderType_TSB_Single_Hop : Z;
  HeaderType_GeoBroadcast_Circle : Z;
  HeaderType_GeoBroadcast_Rect : Z;
  HeaderType_GeoBroadcast_Elip : Z
}.

Class EtsiCodes `{GeonetCodes} : Prop := {
  nh_distinct : NextHeaderBasic_Common <> NextHeaderBasic_Secured;
  tsb_nibble : HeaderType_TSB_Multi_Hop ≫ 4 = 5 /\ HeaderType_TSB_Single_Hop ≫ 4 = 5;
  gbc_nibble : HeaderType_GeoBroadcast_Circle ≫ 4 = 4 /\
    HeaderType_GeoBroadcast_Rect ≫ 4 = 4 /\ HeaderType_GeoBroadcast_Elip ≫ 4 = 4
}.

(** The geometry of vanetza/security/region.hpp on the types the detector
    passes to it. *)
Class SecurityRegion (ShortPositionVector PositionFix : Type) := {
  Angle : Type;
  TwoDLocation : Type;
  CircularRegion : Type;
  fix_latitude : PositionFix -> Angle;
  fix_longitude : PositionFix -> Angle;
  spv_latitude : ShortPositionVector -> Angle;
  spv_longitude : ShortPositionVector -> Angle;
  mk_location : Angle -> Angle -> TwoDLocation;
  mk_circle : TwoDLocation -> Z -> CircularRegion;
  is_within : TwoDLocation -> CircularRegion -> bool
}.

Inductive SecurityInfo := NoSecurity | Signed.

Inductive TransformStatusCode := Transform_Success | Transform_Error.

Inductive DetectionResult := Detected | Not_Detected.

#[export] Instance DetectionResult_eq_dec : EqDecision DetectionResult.
Proof. solve_decision. Defined.

(** [result] is [None] in the default-constructed report: the member has no
    initialiser. *)
Record DetectionReport := { dr_sigs : list Signature; dr_result : option DetectionResult }.
Definition DetectionReport_default : DetectionReport := {| dr_sigs := []; dr_result := None |}.

(** GeonetData.  Members of arithmetic or enumeration type without an
    initialiser are [option]s, [None] while indeterminate; boost::optional
    members are [option]s too.  [D], [H] and [L] stand for
    DestinationVariant, HashedId8 and Lifetime. *)
Record GeonetData (P D H L : Type) := {
  protocol_version : option Z;
  next_header : option Z;
  header_type : option Z;
  destination : option D;
  source_position : P;
  security_info : option SecurityInfo;
  certificate_id : option H;
  payload_type : option Z;
  secure_protocol_version : option Z;
  signer_info_type : option Z;
  chain_size : option Z;
  remaining_packet_lifetime : option L;
  maximum_hop_limit : option Z;
  remaining_hop_limit : option Z
}.
Arguments Build_GeonetData {P D H L}.
Arguments protocol_version {P D H L}.
Arguments next_header {P D H L}.
Arguments header_type {P D H L}.
Arguments destination {P D H L}.
Arguments source_position {P D H L}.
Arguments security_info {P D H L}.
Arguments certificate_id {P D H L}.
Arguments payload_type {P D H L}.
Arguments secure_protocol_version {P D H L}.
Arguments signer_info_type {P D H L}.
Arguments chain_size {P D H L}.
Arguments remaining_packet_lifetime {P D H L}.
Arguments maximum_hop_limit {P D H L}.
Arguments remaining_hop_limit {P D H L}.

(** boost::get on the pattern variant. *)
Definition get_string (p : pattern_type) : outcome string :=
  match p with PString s => Ret s | _ => Throw bad_get end.
Definition get_int (p : pattern_type) : outcome Z :=
  match p with PInt z => Ret z | _ => Throw bad_get end.
Definition get_allowed_so_range (p : pattern_type) : outcome geonet_allowed_so_range :=
  match p with PAllowedSoRange r => Ret r | _ => Throw bad_get end.

Section Detector.
Context {P D H L F : Type} `{GC : GeonetCodes} `{SR : !SecurityRegion P F}.
Implicit Types data : GeonetData P D H L.

(** Status and the value stored through the reference. *)
Definition transform_nh (nh_str : string) : TransformStatusCode * Z :=
  if String.eqb nh_str "common" then (Transform_Success, NextHeaderBasic_Common)
  else if String.eqb nh_str "secure" then (Transform_Success, NextHeaderBasic_Secured)
  else (Transform_Error, 0).

Definition transform_ht (ht_str : string) : TransformStatusCode * Z :=
  if String.eqb ht_str "TSB" then (Transform_Success, u8 HeaderType_TSB_Multi_Hop)
  else if String.eqb ht_str "SHB" then (Transform_Success, u8 HeaderType_TSB_Single_Hop)
  else if String.eqb ht_str "GBC" then
    (Transform_Success,
     u8 (Z.lor (Z.lor (u8 HeaderType_GeoBroadcast_Circle) (u8 HeaderType_GeoBroadcast_Rect))
           (u8 HeaderType_GeoBroadcast_Elip)))
  else (Transform_Error, 0).

(** The blocks of the loop body.  Each takes detection_count and returns the
    new one; [None] is [continue]. *)
Definition detect_nh data (sig : Signature) (count : Z) : outcome (option Z) :=
  match patterns sig !! "nh"%string with
  | None => Ret (Some count)
  | Some p =>
    s ← get_string p;
    match transform_nh s with
    | (Transform_Error, _) => Ret None
    | (Transform_Success, nh) =>
      v ← initialised (next_header data);
      Ret (Some (if nh =? v then count + 1 else count))
    end
  end.

Definition detect_ht data (sig : Signature) (count : Z) : outcome (option Z) :=
  match patterns sig !! "ht"%string with
  | None => Ret (Some count)
  | Some p =>
    s ← get_string p;
    match transform_ht s with
    | (Transform_Error, _) => Ret None
    | (Transform_Success, ht) =>
      v ← initialised (header_type data);
      Ret (Some (if ht ≫ 4 =? u8 v ≫ 4 then count + 1 else count))
    end
  end.

Definition detect_mhl data (sig : Signature) (count : Z) : outcome (option Z) :=
  match patterns sig !! "mhl"%string with
  | None => Ret (Some count)
  | Some p =>
    m ← get_int p;
    v ← initialised (maximum_hop_limit data);
    Ret (Some (if m <=? v then count + 1 else count))
  end.

Definition detect_so_range data (fix_ : F) (sig : Signature) (count : Z) : outcome (option Z) :=
  match patterns sig !! "allowed_so_range"%string with
  | None => Ret (Some count)
  | Some p =>
    r ← get_allowed_so_range p;
    match so_shape r with
    | Circle =>
      let range_center := mk_location (fix_latitude fix_) (fix_longitude fix_) in
      let allowed_range_circle := mk_circle range_center (so_distance_a r) in
      let source := mk_location (spv_latitude (source_position data))
                      (spv_longitude (source_position data)) in
      Ret (Some (if negb (is_within source allowed_range_circle) then count + 1 else count))
    end
  end.

Definition or_continue (m : outcome (option Z)) (k : Z -> outcome (option Z)) :
    outcome (option Z) :=
  c ← m; match c with Some c => k c | None => Ret None end.

(** One iteration: whether the signature is added to matched_sigs. *)
Definition detect_signature data (fix_ : F) (sig : Signature) : outcome bool :=
  c ← or_continue (detect_nh data sig 0) (fun c =>
      or_continue (detect_ht data sig c) (fun c =>
      or_continue (detect_mhl data sig c) (fun c =>
      detect_so_range data fix_ sig c)));
  match c with
  | Some count => Ret (count =? Z.of_nat (size (patterns sig)))
  | None => Ret false
  end.

Fixpoint detect_loop data (fix_ : F) (sigs matched : list Signature) : outcome (list Signature) :=
  match sigs with
  | [] => Ret matched
  | sig :: sigs =>
    b ← detect_signature data fix_ sig;
    detect_loop data fix_ sigs (if b : bool then matched ++ [sig] else matched)
  end.

(** [signatures[Protocol::GeoNetworking]] inserts an empty list when there
    is none, so the signatures are returned too. *)
Definition detect data (fix_ : F) (signatures : signatures_type) :
    outcome (DetectionReport * signatures_type) :=
  let signatures := match signatures !! GeoNetworking with
                    | Some _ => signatures
                    | None => <[GeoNetworking := []]> signatures
                    end in
  let geonet_signatures := default [] (signatures !! GeoNetworking) in
  matched ← detect_loop data fix_ geonet_signatures [];
  Ret ({| dr_sigs := matched; dr_result := Some Detected |}, signatures).

(** ** Specification *)

(** Every header field the rules look at has been decoded. *)
Record decoded data (nh ht mhl : Z) : Prop := {
  decoded_nh : next_header data = Some nh;
  decoded_ht : header_type data = Some ht;
  decoded_mhl : maximum_hop_limit data = Some mhl
}.

(** The header type class a rule's [ht] selects. *)
Definition ht_class (s : string) : Z := if String.eqb s "GBC" then 4 else 5.

Definition outside_range data (fix_ : F) (r : geonet_allowed_so_range) : bool :=
  negb (is_within (mk_location (spv_latitude (source_position data))
                     (spv_longitude (source_position data)))
          (mk_circle (mk_location (fix_latitude fix_) (fix_longitude fix_)) (so_distance_a r))).

(** Whether the packet satisfies one pattern of a rule. *)
Definition pattern_matches data (fix_ : F) (nh ht mhl : Z) (k : string) (v : pattern_type) : bool :=
  match v with
  | PString s =>
    if String.eqb k "nh"
    then nh =? (if String.eqb s "common" then NextHeaderBasic_Common else NextHeaderBasic_Secured)
    else ht_class s =? u8 ht ≫ 4
  | PInt m => m <=? mhl
  | PAllowedSoRange r => outside_range data fix_ r
  | PDestinationArea _ | PFacilityIds _ => false
  end.

(** A rule fires when all its patterns are satisfied. *)
Definition rule_matches data (fix_ : F) (nh ht mhl : Z) (sig : Signature) : Prop :=
  map_Forall (fun k v => pattern_matches data fix_ nh ht mhl k v = true) (patterns sig).

#[export] Instance rule_matches_dec data fix_ nh ht mhl sig :
  Decision (rule_matches data fix_ nh ht mhl sig).
Proof. unfold rule_matches. apply _. Defined.

(** ** Counting *)

Definition count_if (b : bool) : Z := if b then 1 else 0.

(** Contribution of keyword [k] to detection_count, and to patterns.size(). *)
Definition hit (f : string -> pattern_type -> bool) (m : gmap string pattern_type) k : Z :=
  count_if (match m !! k with Some v => f k v | None => false end).
Definition present (m : gmap string pattern_type) k : Z :=
  count_if (bool_decide (is_Some (m !! k))).

Lemma size_present (m : gmap string pattern_type) ks : NoDup ks ->
  (forall k, is_Some (m !! k) -> k ∈ ks) ->
  Z.of_nat (size m) = foldr (fun k a => present m k + a) 0 ks.
Proof.
  intros Hnd. revert m. induction Hnd as [|k ks Hk Hnd IH]; intros m Hm.
  - replace m with (∅ : gmap string pattern_type); [done|].
    symmetry. apply map_empty. intros k. destruct (m !! k) eqn:E; [|done].
    by destruct (not_elem_of_nil k); apply Hm; rewrite E.
  - cbn [foldr]. unfold present at 1. destruct (m !! k) as [v|] eqn:E.
    + rewrite bool_decide_true by eauto. rewrite <- (insert_delete_id m k v E) at 1.
      rewrite map_size_insert_None by apply lookup_delete_eq.
      rewrite Nat2Z.inj_succ, (IH (delete k m)).
      * cbn [count_if].
        enough (Hf : foldr (fun k0 a => present (delete k m) k0 + a) 0 ks =
                     foldr (fun k0 a => present m k0 + a) 0 ks) by lia.
        clear - Hk. induction ks as [|k' ks IH]; [done|]. cbn.
        apply not_elem_of_cons in Hk as [Hne Hk]. rewrite IH by done.
        unfold present. by rewrite lookup_delete_ne by done.
      * intros k' Hk'. destruct (decide (k = k')) as [->|Hne].
        { rewrite lookup_delete_eq in Hk'. by destruct Hk'. }
        rewrite lookup_delete_ne in Hk' by done. apply Hm in Hk'.
        by apply elem_of_cons in Hk' as [->|].
    + rewrite bool_decide_false by (by intros []). cbn [count_if].
      rewrite (IH m); [lia|]. intros k' Hk'. pose proof (Hm k' Hk') as Hin.
      apply elem_of_cons in Hin as [->|]; [|done]. rewrite E in Hk'. by destruct Hk'.
Qed.

(** A count of hits reaches the number of entries exactly when every entry
    is a hit. *)
Lemma hits_eq_size f (m : gmap string pattern_type) ks : NoDup ks ->
  (forall k, is_Some (m !! k) -> k ∈ ks) ->
  foldr (fun k a => hit f m k + a) 0 ks = Z.of_nat (size m) <->
  map_Forall (fun k v => f k v = true) m.
Proof.
  intros Hnd Hm. rewrite (size_present m ks) by done.
  transitivity (Forall (fun k => hit f m k = present m k) ks).
  - clear Hm. assert (Hle : forall k, 0 <= hit f m k <= present m k).
    { intros k. unfold hit, present. destruct (m !! k) as [v|] eqn:E; cbn; [|done].
      destruct (f k v); cbn; lia. }
    assert (Hsum : forall l, foldr (fun k a => hit f m k + a) 0 l <=
                             foldr (fun k a => present m k + a) 0 l).
    { induction l as [|k l IH]; cbn; [lia|]. specialize (Hle k). lia. }
    clear Hnd. induction ks as [|k ks IH]; [done|]. cbn. rewrite Forall_cons.
    pose proof (Hle k); pose proof (Hsum ks). rewrite <- IH. lia.
  - rewrite Forall_forall. split.
    + intros Hall k v E. specialize (Hall k (Hm k ltac:(by rewrite E))).
      unfold hit, present in Hall. rewrite E in Hall. cbn in Hall. by destruct (f k v).
    + intros Hall k _. unfold hit, present. destruct (m !! k) as [v|] eqn:E; [|done].
      by rewrite (Hall k v E).
Qed.

(** ** Every block counts its hit *)

Lemma patterns_wf_lookup m k v : patterns_wf m -> m !! k = Some v -> pattern_wf k v.
Proof. intros Hm. apply Hm. Qed.

Lemma transform_nh_ok s : s = "common"%string \/ s = "secure"%string ->
  transform_nh s = (Transform_Success,
    if String.eqb s "common" then NextHeaderBasic_Common else NextHeaderBasic_Secured).
Proof. by intros [-> | ->]. Qed.

Lemma u8_nibble x n : x ≫ 4 = n -> 0 <= n < 16 -> u8 x ≫ 4 = n.
Proof.
  rewrite !shiftr_div by lia. unfold u8. intros. change (2 ^ 8) with 256.
  change (2 ^ 4) with 16 in *. Z.div_mod_to_equations; lia.
Qed.

Lemma transform_ht_ok `{!EtsiCodes} s :
  s = "TSB"%string \/ s = "GBC"%string \/ s = "SHB"%string ->
  exists ht, transform_ht s = (Transform_Success, ht) /\ ht ≫ 4 = ht_class s.
Proof.
  destruct tsb_nibble as [H1 H2], gbc_nibble as (H3 & H4 & H5).
  intros [-> | [-> | ->]]; eexists; (split; [reflexivity|]); cbn [ht_class String.eqb].
  - by apply u8_nibble.
  - apply u8_nibble; [|done]. rewrite !Z.shiftr_lor.
    rewrite (u8_nibble _ 4 H3), (u8_nibble _ 4 H4), (u8_nibble _ 4 H5) by done. done.
  - by apply u8_nibble.
Qed.

Lemma add_count_if c (b : bool) : (if b then c + 1 else c) = c + count_if b.
Proof. destruct b; cbn; lia. Qed.

Lemma detect_blocks `{!EtsiCodes} data fix_ nh ht mhl sig c :
  decoded data nh ht mhl -> patterns_wf (patterns sig) ->
  let h := hit (pattern_matches data fix_ nh ht mhl) (patterns sig) in
  detect_nh data sig c = Ret (Some (c + h "nh"%string)) /\
  detect_ht data sig c = Ret (Some (c + h "ht"%string)) /\
  detect_mhl data sig c = Ret (Some (c + h "mhl"%string)) /\
  detect_so_range data fix_ sig c = Ret (Some (c + h "allowed_so_range"%string)) /\
  h "destination_area"%string = 0.
Proof.
  intros [Hnh Hht Hmhl] Hwf h. unfold h, hit, detect_nh, detect_ht, detect_mhl, detect_so_range.
  assert (Hk : forall k v, patterns sig !! k = Some v -> pattern_wf k v)
    by (intros; by eapply patterns_wf_lookup).
  split_and!.
  all: match goal with |- context [@lookup _ _ _ ?i ?k ?m] =>
         destruct (@lookup _ _ _ i k m) as [v|] eqn:E; [|cbn; by rewrite ?Z.add_0_r] end.
  all: apply Hk in E; destruct v; cbn in E; try done; try (destruct E as [[? ?]|[? ?]]; try done).
  all: cbn [get_string get_int get_allowed_so_range mbind outcome_bind pattern_matches].
  - rewrite transform_nh_ok by done. rewrite Hnh. cbn [initialised mbind outcome_bind String.eqb].
    by rewrite add_count_if, Z.eqb_sym.
  - destruct (transform_ht_ok s) as (t & -> & Ht); [done|].
    rewrite Hht. cbn [initialised mbind outcome_bind]. by rewrite add_count_if, Ht.
  - rewrite Hmhl. cbn [initialised mbind outcome_bind]. by rewrite add_count_if.
  - destruct (so_shape r). by rewrite add_count_if.
Qed.

Lemma geonet_keywords_NoDup : NoDup geonet_keywords.
Proof. by apply (bool_decide_unpack _). Qed.

(** On a decoded packet and a well-formed rule the loop body never throws or
    reads an indeterminate member, and decides [rule_matches]. *)
Lemma detect_signature_ok `{!EtsiCodes} data fix_ nh ht mhl sig :
  decoded data nh ht mhl -> signature_wf GeoNetworking sig ->
  detect_signature data fix_ sig = Ret (bool_decide (rule_matches data fix_ nh ht mhl sig)).
Proof.
  intros Hd (_ & _ & Hwf & Hkeys). unfold detect_signature.
  set (h := hit (pattern_matches data fix_ nh ht mhl) (patterns sig)).
  assert (Hb := fun c => detect_blocks data fix_ nh ht mhl sig c Hd Hwf). cbn zeta in Hb. fold h in Hb.
  destruct (Hb 0) as (-> & _ & _ & _ & Hda). cbn [or_continue mbind outcome_bind].
  destruct (Hb (0 + h "nh"%string)) as (_ & -> & _). cbn [or_continue mbind outcome_bind].
  destruct (Hb (0 + h "nh"%string + h "ht"%string)) as (_ & _ & -> & _).
  cbn [or_continue mbind outcome_bind].
  destruct (Hb (0 + h "nh"%string + h "ht"%string + h "mhl"%string)) as (_ & _ & _ & -> & _).
  cbn [or_continue mbind outcome_bind]. f_equal.
  pose proof (hits_eq_size (pattern_matches data fix_ nh ht mhl) (patterns sig) geonet_keywords
    geonet_keywords_NoDup Hkeys) as Hiff.
  fold h in Hiff. cbn [foldr geonet_keywords] in Hiff. rewrite Hda in Hiff.
  apply Bool.eq_iff_eq_true. rewrite Z.eqb_eq, bool_decide_eq_true. unfold rule_matches.
  rewrite <- Hiff. lia.
Qed.

Lemma detect_loop_ok `{!EtsiCodes} data fix_ nh ht mhl sigs matched :
  decoded data nh ht mhl -> Forall (signature_wf GeoNetworking) sigs ->
  detect_loop data fix_ sigs matched =
    Ret (matched ++ filter (rule_matches data fix_ nh ht mhl) sigs).
Proof.
  intros Hd Hs; revert matched. induction Hs as [|sig sigs Hsig Hs IH]; intros matched.
  { cbn. by rewrite app_nil_r. }
  cbn [detect_loop]. rewrite (detect_signature_ok _ _ nh ht mhl) by done.
  cbn [mbind outcome_bind]. rewrite IH. f_equal. rewrite filter_cons.
  case_bool_decide; case_decide; try done. by rewrite <- app_assoc.
Qed.

End Detector.

(** ** A concrete instance *)

(** The code points of ETSI EN 302 636-4-1. *)
Definition etsi_codes : GeonetCodes := {|
  NextHeaderBasic_Common := 1; NextHeaderBasic_Secured := 2;
  HeaderType_TSB_Multi_Hop := 81; HeaderType_TSB_Single_Hop := 80;
  HeaderType_GeoBroadcast_Circle := 64; HeaderType_GeoBroadcast_Rect := 65;
  HeaderType_GeoBroadcast_Elip := 66
|}.

Lemma etsi_codes_ok : @EtsiCodes etsi_codes.
Proof. by split. Qed.

(** Positions on a line, the circle being an interval around the receiver. *)
Definition line_region : SecurityRegion Z Z := {|
  Angle := Z; TwoDLocation := Z; CircularRegion := Z * Z;
  fix_latitude := fun p => p; fix_longitude := fun _ => 0;
  spv_latitude := fun p => p; spv_longitude := fun _ => 0;
  mk_location := fun a _ => a; mk_circle := fun c r => (c, r);
  is_within := fun p c => Z.abs (p - c.1) <=? c.2
|}.

Definition sample_data (nh ht mhl : option Z) (pos : Z) : GeonetData Z unit unit unit := {|
  protocol_version := Some 1; next_header := nh; header_type := ht; destination := None;
  source_position := pos; security_info := None; certificate_id := None; payload_type := None;
  secure_protocol_version := None; signer_info_type := None; chain_size := None;
  remaining_packet_lifetime := None; maximum_hop_limit := mhl; remaining_hop_limit := None
|}.

Definition sample_rule (a : Action) (ps : list (string * pattern_type)) : Signature := {|
  action := a; protocol := GeoNetworking;
  meta := {| msg := "test"%string; sid := 1; rev := 2 |};
  patterns := list_to_map ps
|}.

Definition sample_sigs : signatures_type :=
  {[ GeoNetworking := [
    sample_rule Action_Alert [("nh", PString "common"); ("mhl", PInt 5)]%string;
    sample_rule Action_Drop [("ht", PString "GBC")]%string;
    sample_rule Action_Drop
      [("allowed_so_range", PAllowedSoRange {| so_shape := Circle; so_distance_a := 100;
         so_distance_b := 0 |})]%string ] ]}.

Lemma sample_rule_wf a ps : a <> NotSupported_Action ->
  Forall (fun kv => pattern_wf kv.1 kv.2 /\ kv.1 ∈ geonet_keywords) ps ->
  signature_wf GeoNetworking (sample_rule a ps).
Proof.
  intros Ha Hps. split_and!; [done|done| |]; cbn.
  - intros k v Hl%elem_of_list_to_map_2. rewrite Forall_forall in Hps.
    by apply Hps in Hl as [? _].
  - intros k [v Hl%elem_of_list_to_map_2]. rewrite Forall_forall in Hps.
    by apply Hps in Hl as [_ ?].
Qed.

Lemma sample_sigs_wf : signatures_wf sample_sigs.
Proof.
  apply map_Forall_singleton.
  repeat (apply List.Forall_cons; [apply sample_rule_wf; [done|];
    repeat (apply List.Forall_cons; [split; [cbn; tauto|by apply (bool_decide_unpack _)]|]);
    apply List.Forall_nil|]).
  apply List.Forall_nil.
Qed.

(** ** Properties *)

(** C3: On a packet whose headers were decoded, and rules as the reader stores
    them, [detect] always returns, leaves the rules as they are, and reports
    exactly the GeoNetworking rules all of whose patterns the packet
    satisfies, in the order of the rule file. *)
Theorem detect_exact {P D H L F} `{GC : GeonetCodes, SR : !SecurityRegion P F, !EtsiCodes}
    (data : GeonetData P D H L) (fix_ : F) (nh ht mhl : Z) (signatures : signatures_type) :
  decoded data nh ht mhl -> signatures_wf signatures -> is_Some (signatures !! GeoNetworking) ->
  detect data fix_ signatures =
    Ret ({| dr_sigs := filter (rule_matches data fix_ nh ht mhl)
                         (default [] (signatures !! GeoNetworking));
            dr_result := Some Detected |}, signatures).
Proof.
  intros Hd Hwf [l Hl]. unfold detect. rewrite Hl, Hl. cbn [default from_option id].
  rewrite (detect_loop_ok data fix_ nh ht mhl); [|done|by apply (Hwf _ _ Hl)].
  by rewrite app_nil_l.
Qed.

Lemma detect_exact_witness :
  detect (GC := etsi_codes) (SR := line_region)
      (sample_data (Some 1) (Some 65) (Some 10) 500) 0 sample_sigs =
    Ret ({| dr_sigs := filter (rule_matches (GC := etsi_codes) (SR := line_region)
              (sample_data (Some 1) (Some 65) (Some 10) 500) 0 1 65 10)
              (default [] (sample_sigs !! GeoNetworking));
            dr_result := Some Detected |}, sample_sigs).
Proof.
  apply (@detect_exact Z unit unit unit Z etsi_codes line_region etsi_codes_ok).
  - split; reflexivity.
  - exact sample_sigs_wf.
  - eexists. reflexivity.
Defined.

(** C23: A GeoNetworking rule with a destination_area pattern is accepted by the
    reader but never fires: the block that would match it is commented out,
    so the number of hits stays below the number of patterns. *)
Theorem destination_area_never_fires {P D H L F}
    `{GC : GeonetCodes, SR : !SecurityRegion P F, !EtsiCodes}
    (data : GeonetData P D H L) (fix_ : F) (nh ht mhl : Z) (sig : Signature) a :
  decoded data nh ht mhl -> signature_wf GeoNetworking sig ->
  patterns sig !! "destination_area"%string = Some (PDestinationArea a) ->
  detect_signature data fix_ sig = Ret false.
Proof.
  intros Hd Hwf Ha. rewrite (detect_signature_ok _ _ nh ht mhl) by done. f_equal.
  apply bool_decide_false. intros Hm. by specialize (Hm _ _ Ha).
Qed.

Lemma destination_area_never_fires_witness :
  detect_signature (GC := etsi_codes) (SR := line_region)
    (sample_data (Some 1) (Some 65) (Some 10) 500) 0
    (sample_rule Action_Drop [("destination_area",
       PDestinationArea {| da_distance_a := 1; da_distance_b := 1 |})]%string) = Ret false.
Proof.
  apply (@destination_area_never_fires Z unit unit unit Z etsi_codes line_region etsi_codes_ok
    _ _ 1 65 10 _ {| da_distance_a := 1; da_distance_b := 1 |}).
  - split; reflexivity.
  - apply sample_rule_wf; [done|].
    apply List.Forall_cons; [|apply List.Forall_nil].
    split; [reflexivity|by apply (bool_decide_unpack _)].
  - reflexivity.
Defined.
