(* ===== verification/Decoder.v ===== *)
(** * Decoders (src/mitvane/decoder/, src/mitvane/detector/detection_context.hpp)

    [GeonetDecoder::decode] and [BtpDecoder::decode] fill the detection
    context from one received packet.  Header parsing itself is vanetza's:
    the class [Vanetza] lists what the decoders call.  The unique_ptr that
    owns the packet is tracked, because the context keeps a raw pointer to
    what it owns. *)
From S2P Require Import Prelude Outcome Signature Detector.

(** boost::variant<ChunkPacket, CohesivePacket>. *)
Inductive PacketVariant (Cohesive Chunk : Type) :=
  | CohesivePacket (p : Cohesive)
  | ChunkPacket (p : Chunk).
Arguments CohesivePacket {Cohesive Chunk}.
Arguments ChunkPacket {Cohesive Chunk}.

(** The alternatives the extended-header visitor distinguishes. *)
Inductive ExtendedHeader (Shb Gbc Beacon : Type) :=
  | ShbHeader (h : Shb)
  | GeoBroadcastHeader (h : Gbc)
  | BeaconHeader (h : Beacon).
Arguments ShbHeader {Shb Gbc Beacon}.
Arguments GeoBroadcastHeader {Shb Gbc Beacon}.
Arguments BeaconHeader {Shb Gbc Beacon}.

Inductive UpperProtocol := UP_BTP_A | UP_BTP_B | UP_IPv6 | UP_Unknown.
Inductive TransportType := TT_SHB | TT_GBC.

#[export] Instance UpperProtocol_eq_dec : EqDecision UpperProtocol.
Proof. solve_decision. Defined.

Class Vanetza := {
  MacAddress : Type; Cohesive : Type; Chunk : Type;
  IndicationContext : Type;
  BasicHeader : Type; CommonHeader : Type; Shb : Type; Gbc : Type; Beacon : Type;
  SecuredMessage : Type; SignerInfo : Type; Certificate : Type; HashedId8 : Type;
  Lifetime : Type; ShortPositionVector : Type; DestinationVariant : Type;
  codes :: GeonetCodes;
  (** geonet/indication_context.hpp *)
  IndicationContextDeserialize : Cohesive -> MacAddress -> MacAddress -> IndicationContext;
  IndicationContextCast : Chunk -> MacAddress -> MacAddress -> IndicationContext;
  IndicationContextSecuredCast : IndicationContext -> Chunk -> IndicationContext;
  IndicationContextSecuredDeserialize : IndicationContext -> Cohesive -> IndicationContext;
  parse_basic : IndicationContext -> option BasicHeader * IndicationContext;
  parse_common : IndicationContext -> option CommonHeader * IndicationContext;
  parse_secured : IndicationContext -> option SecuredMessage * IndicationContext;
  parse_extended : IndicationContext -> Z ->
    option (ExtendedHeader Shb Gbc Beacon) * IndicationContext;
  finish : IndicationContext -> PacketVariant Cohesive Chunk;
  (** members of the headers *)
  basic_version_raw : BasicHeader -> Z;
  basic_lifetime : BasicHeader -> Lifetime;
  basic_hop_limit : BasicHeader -> Z;
  basic_next_header : BasicHeader -> Z;
  common_header_type : CommonHeader -> Z;
  common_maximum_hop_limit : CommonHeader -> Z;
  common_next_header : CommonHeader -> Z;
  NextHeaderCommon_BTP_A : Z; NextHeaderCommon_BTP_B : Z; NextHeaderCommon_IPv6 : Z;
  shb_source_position : Shb -> ShortPositionVector;
  gbc_source_position : Gbc -> ShortPositionVector;
  gbc_destination : Gbc -> Z -> DestinationVariant;
  default_position : ShortPositionVector;
  (** security *)
  secured_payload_type : SecuredMessage -> Z;
  secured_protocol_version : SecuredMessage -> Z;
  secured_signer_info : SecuredMessage -> option SignerInfo;
  secured_payload_data : SecuredMessage -> PacketVariant Cohesive Chunk;
  get_type : SignerInfo -> Z;
  SignerInfoType_Certificate : Z;
  SignerInfoType_Digest : Z;
  SignerInfoType_Chain : Z;
  get_Certificate : SignerInfo -> outcome Certificate;
  get_HashedId8 : SignerInfo -> outcome HashedId8;
  get_chain : SignerInfo -> outcome (list Certificate);
  calculate_hash : Certificate -> HashedId8;
  (** btp/header.hpp: source (A only), destination port, port info (B only) *)
  parse_btp_a : PacketVariant Cohesive Chunk -> outcome (Z * Z);
  parse_btp_b : PacketVariant Cohesive Chunk -> outcome (Z * Z)
}.

(** Who answers for a heap packet: a live unique_ptr, nobody (released), or
    it was destroyed with its unique_ptr. *)
Inductive ownership := Owned | Released | Destroyed.

#[export] Instance ownership_eq_dec : EqDecision ownership.
Proof. solve_decision. Defined.

Record BtpData := {
  btp_type : UpperProtocol;
  source_port : option Z;
  destination_port : Z;
  destination_port_info : option Z
}.

Section Decoder.
Context `{V : Vanetza}.

Abbreviation Packet := (PacketVariant Cohesive Chunk).
Abbreviation geonet_data_t := (GeonetData ShortPositionVector DestinationVariant HashedId8 Lifetime).

(** [payload] is [None] while the raw pointer is indeterminate. *)
Record DetectionContext := {
  geonet_data : geonet_data_t;
  btp_data : option BtpData;
  app_layer_parser_port : option Z;
  payload : option (Packet * ownership)
}.

(** DetectionContext detection_context; *)
Definition DetectionContext_default : DetectionContext := {|
  geonet_data := {| protocol_version := None; next_header := None; header_type := None;
    destination := None; source_position := default_position; security_info := None;
    certificate_id := None; payload_type := None; secure_protocol_version := None;
    signer_info_type := None; chain_size := None; remaining_packet_lifetime := None;
    maximum_hop_limit := None; remaining_hop_limit := None |};
  btp_data := None; app_layer_parser_port := None; payload := None |}.

Definition with_geonet (dc : DetectionContext) (f : geonet_data_t -> geonet_data_t) :
    DetectionContext :=
  {| geonet_data := f (geonet_data dc); btp_data := btp_data dc;
     app_layer_parser_port := app_layer_parser_port dc; payload := payload dc |}.
Definition with_payload (dc : DetectionContext) (p : option (Packet * ownership)) :
    DetectionContext :=
  {| geonet_data := geonet_data dc; btp_data := btp_data dc;
     app_layer_parser_port := app_layer_parser_port dc; payload := p |}.
Definition with_btp (dc : DetectionContext) (b : BtpData) : DetectionContext :=
  {| geonet_data := geonet_data dc; btp_data := Some b;
     app_layer_parser_port := app_layer_parser_port dc; payload := payload dc |}.

(** The members [decode_basic] stores, [s] being security_info. *)
Definition store_basic (basic : BasicHeader) (s : option SecurityInfo) (g : geonet_data_t) :
    geonet_data_t :=
  {| protocol_version := Some (basic_version_raw basic);
     next_header := Some (basic_next_header basic); header_type := header_type g;
     destination := destination g; source_position := source_position g;
     security_info := match s with Some _ => s | None => security_info g end;
     certificate_id := certificate_id g; payload_type := payload_type g;
     secure_protocol_version := secure_protocol_version g;
     signer_info_type := signer_info_type g; chain_size := chain_size g;
     remaining_packet_lifetime := Some (basic_lifetime basic);
     maximum_hop_limit := maximum_hop_limit g;
     remaining_hop_limit := Some (basic_hop_limit basic) |}.

Definition store_common (common : CommonHeader) (g : geonet_data_t) : geonet_data_t :=
  {| protocol_version := protocol_version g; next_header := next_header g;
     header_type := Some (common_header_type common); destination := destination g;
     source_position := source_position g; security_info := security_info g;
     certificate_id := certificate_id g; payload_type := payload_type g;
     secure_protocol_version := secure_protocol_version g;
     signer_info_type := signer_info_type g; chain_size := chain_size g;
     remaining_packet_lifetime := remaining_packet_lifetime g;
     maximum_hop_limit := Some (common_maximum_hop_limit common);
     remaining_hop_limit := remaining_hop_limit g |}.

Definition store_position (p : ShortPositionVector) (d : option DestinationVariant)
    (g : geonet_data_t) : geonet_data_t :=
  {| protocol_version := protocol_version g; next_header := next_header g;
     header_type := header_type g;
     destination := match d with Some _ => d | None => destination g end;
     source_position := p; security_info := security_info g;
     certificate_id := certificate_id g; payload_type := payload_type g;
     secure_protocol_version := secure_protocol_version g;
     signer_info_type := signer_info_type g; chain_size := chain_size g;
     remaining_packet_lifetime := remaining_packet_lifetime g;
     maximum_hop_limit := maximum_hop_limit g; remaining_hop_limit := remaining_hop_limit g |}.

(** [None] leaves a member as it is. *)
Definition store_security (pt pv st : option Z) (cs : option Z) (cid : option HashedId8)
    (g : geonet_data_t) : geonet_data_t :=
  let keep {A} (new old : option A) := match new with Some _ => new | None => old end in
  {| protocol_version := protocol_version g; next_header := next_header g;
     header_type := header_type g; destination := destination g;
     source_position := source_position g; security_info := security_info g;
     certificate_id := keep cid (certificate_id g); payload_type := keep pt (payload_type g);
     secure_protocol_version := keep pv (secure_protocol_version g);
     signer_info_type := keep st (signer_info_type g); chain_size := keep cs (chain_size g);
     remaining_packet_lifetime := remaining_packet_lifetime g;
     maximum_hop_limit := maximum_hop_limit g; remaining_hop_limit := remaining_hop_limit g |}.

(** std::list::back. *)
Definition list_back {A} (l : list A) : outcome A :=
  match last l with Some a => Ret a | None => Undef back_of_empty_list end.

Definition inspect_signer_info (m : SecuredMessage) (dc : DetectionContext) :
    outcome DetectionContext :=
  let pt := Some (secured_payload_type m) in
  let pv := Some (secured_protocol_version m) in
  match secured_signer_info m with
  | None => Ret (with_geonet dc (store_security pt pv None None None))
  | Some signer_info =>
    let t := get_type signer_info in
    if t =? SignerInfoType_Certificate then
      cert ← get_Certificate signer_info;
      Ret (with_geonet dc (store_security pt pv (Some t) None (Some (calculate_hash cert))))
    else if t =? SignerInfoType_Digest then
      digest ← get_HashedId8 signer_info;
      Ret (with_geonet dc (store_security pt pv (Some t) None (Some digest)))
    else if t =? SignerInfoType_Chain then
      chain ← get_chain signer_info;
      cert ← list_back chain;
      Ret (with_geonet dc (store_security pt pv (Some t) (Some (Z.of_nat (length chain)))
                             (Some (calculate_hash cert))))
    else Ret (with_geonet dc (store_security pt pv (Some t) None None))
  end.

(** The DataIndication members the decoder writes and reads. *)
Record DataIndication := {
  upper_protocol : UpperProtocol;
  transport_type : option TransportType
}.

Definition parse_btp_header (ind : DataIndication) (p : Packet) (dc : DetectionContext) :
    outcome DetectionContext :=
  match upper_protocol ind with
  | UP_BTP_A =>
    '(src, dst) ← parse_btp_a p;
    Ret (with_btp dc {| btp_type := UP_BTP_A; source_port := Some src;
                        destination_port := dst; destination_port_info := None |})
  | UP_BTP_B =>
    '(dst, info) ← parse_btp_b p;
    Ret (with_btp dc {| btp_type := UP_BTP_B; source_port := None;
                        destination_port := dst; destination_port_info := Some info |})
  | _ => Ret dc
  end.

(** BtpDecoder::decode ends in packet.release(): from there on only the raw
    pointer in the context knows the packet. *)
Definition BtpDecoder_decode (ind : DataIndication) (p : Packet) (dc : DetectionContext) :
    outcome DetectionContext :=
  dc ← parse_btp_header ind p dc;
  Ret (with_payload dc (Some (p, Released))).

Definition pass_up := BtpDecoder_decode.

Definition decode_extended (ctx : IndicationContext) (common : CommonHeader)
    (up : UpperProtocol) (dc : DetectionContext) : outcome DetectionContext :=
  let '(extended, ctx) := parse_extended ctx (common_header_type common) in
  let packet := finish ctx in
  let dc := with_payload dc (Some (packet, Owned)) in
  match extended with
  | None => Ret (with_payload dc (Some (packet, Destroyed)))
  | Some (ShbHeader shb) =>
    pass_up {| upper_protocol := up; transport_type := Some TT_SHB |} packet
      (with_geonet dc (store_position (shb_source_position shb) None))
  | Some (GeoBroadcastHeader gbc) =>
    pass_up {| upper_protocol := up; transport_type := Some TT_GBC |} packet
      (with_geonet dc (store_position (gbc_source_position gbc)
         (Some (gbc_destination gbc (common_header_type common)))))
  | Some (BeaconHeader _) =>
    pass_up {| upper_protocol := up; transport_type := None |} packet dc
  end.

Definition upper_protocol_of (nh : Z) : UpperProtocol :=
  if nh =? NextHeaderCommon_BTP_A then UP_BTP_A
  else if nh =? NextHeaderCommon_BTP_B then UP_BTP_B
  else if nh =? NextHeaderCommon_IPv6 then UP_IPv6
  else UP_Unknown.

Definition decode_common (ctx : IndicationContext) (dc : DetectionContext) :
    outcome DetectionContext :=
  let '(common, ctx) := parse_common ctx in
  match common with
  | None => Ret dc
  | Some common =>
    let dc := with_geonet dc (store_common common) in
    decode_extended ctx common (upper_protocol_of (common_next_header common)) dc
  end.

Definition decode_secured (ctx : IndicationContext) (dc : DetectionContext) :
    outcome DetectionContext :=
  let '(secured_message, ctx) := parse_secured ctx in
  match secured_message with
  | None => Ret dc
  | Some m =>
    dc ← inspect_signer_info m dc;
    match secured_payload_data m with
    | ChunkPacket p => decode_common (IndicationContextSecuredCast ctx p) dc
    | CohesivePacket p => decode_common (IndicationContextSecuredDeserialize ctx p) dc
    end
  end.

Definition decode_basic (ctx : IndicationContext) (dc : DetectionContext) :
    outcome DetectionContext :=
  let '(basic, ctx) := parse_basic ctx in
  match basic with
  | None => Ret dc
  | Some basic =>
    if basic_next_header basic =? NextHeaderBasic_Secured then
      decode_secured ctx (with_geonet dc (store_basic basic (Some Signed)))
    else if basic_next_header basic =? NextHeaderBasic_Common then
      decode_common ctx (with_geonet dc (store_basic basic (Some NoSecurity)))
    else Ret (with_geonet dc (store_basic basic None))
  end.

Definition indication_context (p : Packet) (sender destination : MacAddress) : IndicationContext :=
  match p with
  | CohesivePacket p => IndicationContextDeserialize p sender destination
  | ChunkPacket p => IndicationContextCast p sender destination
  end.

Definition decode (p : Packet) (sender destination : MacAddress) (dc : DetectionContext) :
    outcome DetectionContext :=
  decode_basic (indication_context p sender destination) dc.

(** ** Specification *)

(** What a context may look like after decoding.  The pointer in [payload]
    may be dereferenced only when [btp_data] is set, and then nobody else
    owns the packet. *)
Definition payload_ok (dc : DetectionContext) : Prop :=
  match payload dc with
  | None | Some (_, Destroyed) => btp_data dc = None
  | Some (_, Owned) => False
  | Some (_, Released) => True
  end.

(** Initialisation: the header type and hop limit come together, after the
    basic header. *)
Definition fields_ok (g : geonet_data_t) : Prop :=
  (is_Some (header_type g) <-> is_Some (maximum_hop_limit g)) /\
  (is_Some (header_type g) -> is_Some (next_header g)).

Definition common_parsed (dc : DetectionContext) : Prop := is_Some (header_type (geonet_data dc)).

(** [payload] is set only after the common header was parsed. *)
Definition context_ok (dc : DetectionContext) : Prop :=
  payload_ok dc /\ fields_ok (geonet_data dc) /\
  (is_Some (payload dc) <-> common_parsed dc).

(** A rule can be checked on a context when its headers were decoded. *)
Lemma context_decoded dc : context_ok dc -> common_parsed dc ->
  exists nh ht mhl, decoded (geonet_data dc) nh ht mhl.
Proof.
  intros (_ & [Hiff Hnh] & _) Hc. pose proof (Hnh Hc) as [nh ?].
  pose proof (proj1 Hiff Hc) as [mhl ?]. destruct Hc as [ht ?]. by exists nh, ht, mhl.
Qed.

(** Nothing but an empty certificate chain is undefined: parsers and
    boost::get may throw, they are defined. *)
Definition library_defined : Prop :=
  (forall p, defined (parse_btp_a p)) /\ (forall p, defined (parse_btp_b p)) /\
  (forall s, defined (get_Certificate s)) /\ (forall s, defined (get_HashedId8 s)) /\
  (forall s, defined (get_chain s)).

Lemma context_default_ok : context_ok DetectionContext_default.
Proof. split_and!; cbn; try done; split; try done; by intros []. Qed.

Lemma pass_up_ok ind p dc dc' : pass_up ind p dc = Ret dc' ->
  geonet_data dc' = geonet_data dc /\ payload dc' = Some (p, Released) /\
  (is_Some (btp_data dc') <-> is_Some (btp_data dc) \/
     upper_protocol ind = UP_BTP_A \/ upper_protocol ind = UP_BTP_B).
Proof.
  unfold pass_up, BtpDecoder_decode. intros (dc1 & H1 & [= <-])%outcome_bind_Ret. cbn.
  unfold parse_btp_header in H1.
  destruct (upper_protocol ind); [apply outcome_bind_Ret in H1 as ([a b] & _ & [= <-])..| |].
  all: try (injection H1 as <-). all: cbn; split_and!; try done.
  all: split; [tauto|]; try (intros _; by eexists); by intros [?|[?|?]].
Qed.

Lemma decode_extended_ok ctx common up dc dc' :
  btp_data dc = None -> decode_extended ctx common up dc = Ret dc' ->
  header_type (geonet_data dc') = header_type (geonet_data dc) /\
  maximum_hop_limit (geonet_data dc') = maximum_hop_limit (geonet_data dc) /\
  next_header (geonet_data dc') = next_header (geonet_data dc) /\
  payload_ok dc' /\ is_Some (payload dc').
Proof.
  intros Hb. unfold decode_extended.
  destruct (parse_extended _ _) as [[[shb|gbc|bc]|] ctx'].
  1-3: intros (Hg & Hp & Hbtp)%pass_up_ok; rewrite Hg; unfold payload_ok; rewrite Hp; cbn;
       by split_and!.
  intros [= <-]. by cbn.
Qed.

Lemma decode_common_ok ctx dc dc' :
  btp_data dc = None -> payload dc = None -> fields_ok (geonet_data dc) ->
  header_type (geonet_data dc) = None -> is_Some (next_header (geonet_data dc)) ->
  decode_common ctx dc = Ret dc' -> context_ok dc'.
Proof.
  intros Hb Hp Hf Hht Hnh. unfold decode_common.
  destruct (parse_common ctx) as [[common|] ctx'].
  - intros (H1 & H2 & H3 & H4 & H5)%decode_extended_ok; [|done]. split_and!; [done| |].
    + unfold fields_ok. rewrite H1, H2, H3. cbn. split; [split|]; intros _; try done; by eexists.
    + unfold common_parsed. rewrite H1. cbn. split; intros _; [by eexists|done].
  - intros [= <-]. split_and!; [unfold payload_ok; by rewrite Hp|done|].
    unfold common_parsed. rewrite Hp, Hht. done.
Qed.

Lemma inspect_signer_info_ok m dc dc' : inspect_signer_info m dc = Ret dc' ->
  btp_data dc' = btp_data dc /\ payload dc' = payload dc /\
  header_type (geonet_data dc') = header_type (geonet_data dc) /\
  maximum_hop_limit (geonet_data dc') = maximum_hop_limit (geonet_data dc) /\
  next_header (geonet_data dc') = next_header (geonet_data dc).
Proof.
  unfold inspect_signer_info. destruct (secured_signer_info m); [|by intros [= <-]].
  repeat case_match.
  - by intros (? & _ & [= <-])%outcome_bind_Ret.
  - by intros (? & _ & [= <-])%outcome_bind_Ret.
  - by intros (? & _ & (? & _ & [= <-])%outcome_bind_Ret)%outcome_bind_Ret.
  - by intros [= <-].
Qed.

Lemma decode_basic_ok ctx dc' :
  decode_basic ctx DetectionContext_default = Ret dc' -> context_ok dc'.
Proof.
  unfold decode_basic. destruct (parse_basic ctx) as [[basic|] ctx'].
  2: { intros [= <-]. apply context_default_ok. }
  assert (Hf : forall s, fields_ok (geonet_data (with_geonet DetectionContext_default
    (store_basic basic s)))) by (intros s; split; [split|]; cbn; try done; by intros []).
  destruct (basic_next_header basic =? NextHeaderBasic_Secured).
  - unfold decode_secured. destruct (parse_secured ctx') as [[m|] ctx''].
    + intros (dc1 & (Hb & Hp & Hh & Hm & Hn)%inspect_signer_info_ok & Hd)%outcome_bind_Ret.
      cbn in Hb, Hp, Hh, Hm, Hn.
      assert (Hf1 : fields_ok (geonet_data dc1)).
      { unfold fields_ok. rewrite Hh, Hm, Hn. split; [split|]; by intros []. }
      destruct (secured_payload_data m); apply decode_common_ok in Hd; rewrite ?Hn; by eauto.
    + intros [= <-]. split_and!; [done|apply Hf|]. split; cbn; by intros [].
  - destruct (basic_next_header basic =? NextHeaderBasic_Common).
    + intros Hd. by apply decode_common_ok in Hd.
    + intros [= <-]. split_and!; [done|apply Hf|]. split; cbn; by intros [].
Qed.
End Decoder.

(** ** When decoding is undefined, and when it leaks *)

Section Paths.
Context `{V : Vanetza}.
Implicit Types (p : PacketVariant Cohesive Chunk) (s d : MacAddress).

(** The packet is secured and its signer is a certificate chain without a
    certificate. *)
Definition empty_chain p s d : Prop :=
  exists basic ctx1 m ctx2 si,
    parse_basic (indication_context p s d) = (Some basic, ctx1) /\
    basic_next_header basic = NextHeaderBasic_Secured /\
    parse_secured ctx1 = (Some m, ctx2) /\ secured_signer_info m = Some si /\
    get_type si = SignerInfoType_Chain /\
    SignerInfoType_Chain <> SignerInfoType_Certificate /\
    SignerInfoType_Chain <> SignerInfoType_Digest /\ get_chain si = Ret [].

(** The unsecured packet's headers, down to the extended header. *)
Definition plain_headers p s d basic common extended ctx3 : Prop :=
  exists ctx1 ctx2,
    parse_basic (indication_context p s d) = (Some basic, ctx1) /\
    basic_next_header basic = NextHeaderBasic_Common /\
    NextHeaderBasic_Common <> NextHeaderBasic_Secured /\
    parse_common ctx1 = (Some common, ctx2) /\
    parse_extended ctx2 (common_header_type common) = (extended, ctx3).

Lemma decode_extended_defined ctx common up dc : library_defined ->
  defined (decode_extended ctx common up dc).
Proof.
  intros (Ha & Hb & _). assert (Hp : forall ind p dc, defined (pass_up ind p dc)).
  { intros [up' t] p dc1; unfold pass_up, BtpDecoder_decode, parse_btp_header.
    apply defined_bind; [|done]. destruct up'; cbn [upper_protocol]; try done.
    all: apply defined_bind; [done|by intros []]. }
  unfold decode_extended. by destruct (parse_extended _ _) as [[[]|] ?].
Qed.

Lemma decode_common_defined ctx dc : library_defined -> defined (decode_common ctx dc).
Proof.
  intros Hl. unfold decode_common. destruct (parse_common ctx) as [[common|] ctx']; [|done].
  by apply decode_extended_defined.
Qed.

Lemma inspect_signer_info_defined m dc : library_defined ->
  (forall si, secured_signer_info m = Some si -> get_type si <> SignerInfoType_Certificate ->
     get_type si <> SignerInfoType_Digest -> get_type si = SignerInfoType_Chain ->
     get_chain si <> Ret []) ->
  defined (inspect_signer_info m dc).
Proof.
  intros (_ & _ & Hc & Hh & Hch) Hne. unfold inspect_signer_info.
  destruct (secured_signer_info m) as [si|] eqn:E; [|done].
  destruct (Z.eqb_spec (get_type si) SignerInfoType_Certificate); [by apply defined_bind|].
  destruct (Z.eqb_spec (get_type si) SignerInfoType_Digest); [by apply defined_bind|].
  destruct (Z.eqb_spec (get_type si) SignerInfoType_Chain); [|done].
  apply defined_bind; [done|]. intros chain Hchain. apply defined_bind; [|done].
  unfold list_back. destruct (last chain) eqn:El; [done|].
  apply last_None in El. subst. by destruct (Hne si).
Qed.

Lemma inspect_empty_chain m si dc : secured_signer_info m = Some si ->
  get_type si = SignerInfoType_Chain ->
  SignerInfoType_Chain <> SignerInfoType_Certificate ->
  SignerInfoType_Chain <> SignerInfoType_Digest -> get_chain si = Ret [] ->
  inspect_signer_info m dc = Undef back_of_empty_list.
Proof.
  intros Hs Ht H1 H2 Hc. unfold inspect_signer_info. rewrite Hs, Ht.
  rewrite (proj2 (Z.eqb_neq _ _) H1), (proj2 (Z.eqb_neq _ _) H2), Z.eqb_refl, Hc. done.
Qed.

Lemma decode_secured_defined ctx dc : library_defined ->
  (forall m ctx', parse_secured ctx = (Some m, ctx') -> defined (inspect_signer_info m dc)) ->
  defined (decode_secured ctx dc).
Proof.
  intros Hl Hs. unfold decode_secured.
  destruct (parse_secured ctx) as [[m|] ctx']; [|done].
  apply defined_bind; [by eapply Hs|]. intros dc' _.
  destruct (secured_payload_data m); by apply decode_common_defined.
Qed.

Lemma decode_plain_headers p s d dc basic common extended ctx3 :
  plain_headers p s d basic common extended ctx3 ->
  decode p s d dc =
    let dc := with_geonet (with_geonet dc (store_basic basic (Some NoSecurity)))
                (store_common common) in
    let up := upper_protocol_of (common_next_header common) in
    match extended with
    | None => Ret (with_payload dc (Some (finish ctx3, Destroyed)))
    | Some (ShbHeader shb) =>
      pass_up {| upper_protocol := up; transport_type := Some TT_SHB |} (finish ctx3)
        (with_geonet (with_payload dc (Some (finish ctx3, Owned)))
           (store_position (shb_source_position shb) None))
    | Some (GeoBroadcastHeader gbc) =>
      pass_up {| upper_protocol := up; transport_type := Some TT_GBC |} (finish ctx3)
        (with_geonet (with_payload dc (Some (finish ctx3, Owned)))
           (store_position (gbc_source_position gbc)
             (Some (gbc_destination gbc (common_header_type common)))))
    | Some (BeaconHeader _) =>
      pass_up {| upper_protocol := up; transport_type := None |} (finish ctx3)
        (with_payload dc (Some (finish ctx3, Owned)))
    end.
Proof.
  intros (ctx1 & ctx2 & Hb & Hn & Hne & Hc & He). unfold decode, decode_basic.
  rewrite Hb, Hn, (proj2 (Z.eqb_neq _ _) Hne), Z.eqb_refl.
  unfold decode_common, decode_extended. rewrite Hc, He. by destruct extended as [[]|].
Qed.
End Paths.

(** ** A concrete instance: headers as lists of numbers *)

Definition sample_vanetza : Vanetza := {|
  MacAddress := Z; Cohesive := list Z; Chunk := list Z; IndicationContext := list Z;
  BasicHeader := Z * Z * Z; CommonHeader := Z * Z * Z; Shb := Z; Gbc := Z; Beacon := unit;
  SecuredMessage := (Z * list Z) * list Z; SignerInfo := Z * list Z; Certificate := Z;
  HashedId8 := Z; Lifetime := unit; ShortPositionVector := Z; DestinationVariant := Z;
  codes := etsi_codes;
  IndicationContextDeserialize := fun p _ _ => p;
  IndicationContextCast := fun p _ _ => p;
  IndicationContextSecuredCast := fun _ p => p;
  IndicationContextSecuredDeserialize := fun _ p => p;
  parse_basic := fun l => match l with v :: nh :: hl :: l => (Some (v, nh, hl), l) | _ => (None, l) end;
  parse_common := fun l => match l with nh :: ht :: m :: l => (Some (nh, ht, m), l) | _ => (None, l) end;
  parse_secured := fun l => match l with
    | t :: n :: l => (Some ((t, take (Z.to_nat n) l), drop (Z.to_nat n) l), [])
    | _ => (None, l) end;
  parse_extended := fun l ht =>
    if ht ≫ 4 =? 5 then match l with p :: l => (Some (ShbHeader p), l) | _ => (None, l) end
    else if ht ≫ 4 =? 4 then match l with p :: l => (Some (GeoBroadcastHeader p), l) | _ => (None, l) end
    else if ht ≫ 4 =? 1 then (Some (BeaconHeader tt), l) else (None, l);
  finish := fun l => CohesivePacket l;
  basic_version_raw := fun b => b.1.1; basic_lifetime := fun _ => tt;
  basic_hop_limit := fun b => b.2; basic_next_header := fun b => b.1.2;
  common_header_type := fun c => c.1.2; common_maximum_hop_limit := fun c => c.2;
  common_next_header := fun c => c.1.1;
  NextHeaderCommon_BTP_A := 1; NextHeaderCommon_BTP_B := 2; NextHeaderCommon_IPv6 := 3;
  shb_source_position := fun p => p; gbc_source_position := fun p => p;
  gbc_destination := fun p ht => ht; default_position := 0;
  secured_payload_type := fun _ => 0; secured_protocol_version := fun _ => 2;
  secured_signer_info := fun m => Some m.1; secured_payload_data := fun m => CohesivePacket m.2;
  get_type := fun s => s.1; SignerInfoType_Certificate := 2; SignerInfoType_Digest := 1;
  SignerInfoType_Chain := 3;
  get_Certificate := fun s => match s.2 with c :: _ => Ret c | [] => Throw bad_get end;
  get_HashedId8 := fun s => match s.2 with c :: _ => Ret c | [] => Throw bad_get end;
  get_chain := fun s => Ret s.2;
  calculate_hash := fun c => c;
  parse_btp_a := fun p => match p with CohesivePacket (a :: b :: _) | ChunkPacket (a :: b :: _) => Ret (a, b)
                          | _ => Throw archive_exception end;
  parse_btp_b := fun p => match p with CohesivePacket (a :: b :: _) | ChunkPacket (a :: b :: _) => Ret (a, b)
                          | _ => Throw archive_exception end
|}.

Lemma sample_library_defined : library_defined (V := sample_vanetza).
Proof.
  split_and!; cbn; intros x; try done; repeat case_match; done.
Qed.

(** ** Properties *)

(** C6: Whatever packet is decoded, when decoding returns: the raw payload
    pointer is set exactly when the common header was parsed, it is safe to
    take over whenever btp_data is set (the packet was released and nobody
    else owns it) and it never points to a packet a unique_ptr still owns;
    header type and maximum hop limit are initialised together and only
    after the basic header's fields. *)
Theorem decode_context_ok `{V : Vanetza} (p : PacketVariant Cohesive Chunk) (s d : MacAddress) dc :
  decode p s d DetectionContext_default = Ret dc ->
  context_ok dc /\
  (is_Some (btp_data dc) -> exists pkt, payload dc = Some (pkt, Released)).
Proof.
  intros Hd. pose proof (decode_basic_ok _ _ Hd) as Hok. split; [done|].
  destruct Hok as [Hp _]. unfold payload_ok in Hp.
  intros [b Hb]. destruct (payload dc) as [[pkt []]|]; try congruence; try done. by exists pkt.
Qed.

Lemma decode_context_ok_witness :
  exists dc, decode (V := sample_vanetza) (CohesivePacket [1; 1; 5; 2; 80; 1; 700; 2001; 0; 9])
      1 2 DetectionContext_default = Ret dc /\
    context_ok dc /\
    (is_Some (btp_data dc) -> exists pkt, payload dc = Some (pkt, Released)).
Proof.
  eexists. split; [reflexivity|].
  apply (@decode_context_ok sample_vanetza (CohesivePacket [1; 1; 5; 2; 80; 1; 700; 2001; 0; 9]) 1 2).
  reflexivity.
Defined.

(** C10: Decoding runs into undefined behaviour exactly for a secured packet whose
    signer info is a certificate chain of length zero: chain.back() is taken
    without a check.  Every other packet is decoded or rejected by an
    exception of the parsers. *)
Theorem decode_undefined_iff `{V : Vanetza} (p : PacketVariant Cohesive Chunk) (s d : MacAddress) dc :
  library_defined ->
  (exists u, decode p s d dc = Undef u) <-> empty_chain p s d.
Proof.
  intros Hl. split.
  - intros [u Hu]. unfold decode, decode_basic in Hu. unfold empty_chain.
    destruct (parse_basic (indication_context p s d)) as [[basic|] ctx1] eqn:Eb; [|done].
    destruct (Z.eqb_spec (basic_next_header basic) NextHeaderBasic_Secured) as [Hs|].
    2: { destruct (basic_next_header basic =? NextHeaderBasic_Common); [|done].
         by destruct (decode_common_defined ctx1
           (with_geonet dc (store_basic basic (Some NoSecurity))) Hl u). }
    destruct (parse_secured ctx1) as [[m|] ctx2] eqn:Es; [|unfold decode_secured in Hu; by rewrite Es in Hu].
    destruct (secured_signer_info m) as [si|] eqn:Esi.
    + destruct (decide (get_type si <> SignerInfoType_Certificate /\
        get_type si <> SignerInfoType_Digest /\ get_type si = SignerInfoType_Chain)) as [(H1 & H2 & H3)|Hn].
      * destruct (get_chain si) as [[|c l]| |] eqn:Ec; [by eexists basic, ctx1, m, ctx2, si; rewrite H3 in *|..].
        all: exfalso; eapply (decode_secured_defined ctx1 _ Hl); [|exact Hu].
        all: intros m' ctx' Hm'; rewrite Es in Hm'; injection Hm' as <- <-.
        all: apply inspect_signer_info_defined; [done|]; intros si' Hsi' _ _ _; simplify_eq; by rewrite Ec.
      * exfalso; eapply (decode_secured_defined ctx1 _ Hl); [|exact Hu].
        intros m' ctx' Hm'; rewrite Es in Hm'; injection Hm' as <- <-.
        apply inspect_signer_info_defined; [done|]; intros si' Hsi'. simplify_eq. tauto.
    + exfalso; eapply (decode_secured_defined ctx1 _ Hl); [|exact Hu].
      intros m' ctx' Hm'; rewrite Es in Hm'; injection Hm' as <- <-.
      apply inspect_signer_info_defined; [done|]; intros si' Hsi'. congruence.
  - intros (basic & ctx1 & m & ctx2 & si & Hb & Hn & Hs & Hsi & Ht & Hne1 & Hne2 & Hc).
    exists back_of_empty_list. unfold decode, decode_basic. rewrite Hb, Hn, Z.eqb_refl.
    unfold decode_secured. rewrite Hs. by rewrite (inspect_empty_chain m si).
Qed.

Lemma decode_undefined_iff_witness :
  (exists u, decode (V := sample_vanetza) (CohesivePacket [1; 2; 5; 3; 0; 2; 80; 1; 700]) 1 2
     DetectionContext_default = Undef u) <->
  empty_chain (V := sample_vanetza) (CohesivePacket [1; 2; 5; 3; 0; 2; 80; 1; 700]) 1 2.
Proof. exact (@decode_undefined_iff sample_vanetza _ _ _ _ sample_library_defined). Defined.

(** C8: An unsecured BTP-B packet over single-hop or geo-broadcast transport:
    decoding gives exactly this context.  Every field of the network layer is
    the one in the headers (protocol version, next header, lifetime and
    remaining hop limit of the basic header, header type and maximum hop limit
    of the common header, source position and, of a geo-broadcast, destination
    of the extended header); the security is that of an unsecured packet and
    the other fields of a security envelope stay unset, the ports are the BTP
    header's, and the packet behind the headers is released. *)
Theorem decode_plain_btp_b `{V : Vanetza} (p : PacketVariant Cohesive Chunk) (s d : MacAddress)
    basic common shb_or_gbc ctx3 port info :
  plain_headers p s d basic common
    (Some match shb_or_gbc with inl shb => ShbHeader shb | inr gbc => GeoBroadcastHeader gbc end) ctx3 ->
  upper_protocol_of (common_next_header common) = UP_BTP_B ->
  parse_btp_b (finish ctx3) = Ret (port, info) ->
  decode p s d DetectionContext_default = Ret {|
    geonet_data := {|
      protocol_version := Some (basic_version_raw basic);
      next_header := Some NextHeaderBasic_Common;
      header_type := Some (common_header_type common);
      destination := match shb_or_gbc with inl _ => None | inr gbc => Some (gbc_destination gbc (common_header_type common)) end;
      source_position := match shb_or_gbc with inl shb => shb_source_position shb | inr gbc => gbc_source_position gbc end;
      security_info := Some NoSecurity;
      certificate_id := None; payload_type := None; secure_protocol_version := None; signer_info_type := None; chain_size := None;
      remaining_packet_lifetime := Some (basic_lifetime basic);
      maximum_hop_limit := Some (common_maximum_hop_limit common);
      remaining_hop_limit := Some (basic_hop_limit basic)
    |};
    btp_data := Some {| btp_type := UP_BTP_B; source_port := None; destination_port := port; destination_port_info := Some info |};
    app_layer_parser_port := None;
    payload := Some (finish ctx3, Released)
  |}.
Proof.
  intros Hph Hup Hbtp. rewrite (decode_plain_headers _ _ _ _ _ _ _ _ Hph).
  destruct Hph as (_ & _ & _ & Hn & _). rewrite <- Hn.
  destruct shb_or_gbc; cbn zeta; unfold pass_up, BtpDecoder_decode, parse_btp_header; rewrite Hup; cbn; rewrite Hbtp; reflexivity.
Qed.

Lemma decode_plain_btp_b_witness :
  decode (V := sample_vanetza) (CohesivePacket [1; 1; 5; 2; 80; 1; 700; 2001; 0; 9]) 1 2 DetectionContext_default = Ret (Build_DetectionContext (V := sample_vanetza)
    {|
      protocol_version := Some 1; next_header := Some 1; header_type := Some 80;
      destination := @None Z; source_position := 700; security_info := Some NoSecurity;
      certificate_id := @None Z; payload_type := None; secure_protocol_version := None; signer_info_type := None; chain_size := None;
      remaining_packet_lifetime := Some tt; maximum_hop_limit := Some 1;
      remaining_hop_limit := Some 5
    |}
    (Some {| btp_type := UP_BTP_B; source_port := None; destination_port := 2001; destination_port_info := Some 0 |})
    None (Some (CohesivePacket [2001; 0; 9], Released))).
Proof.
  apply (@decode_plain_btp_b sample_vanetza _ 1 2 (1, 1, 5) (2, 80, 1) (inl 700) [2001; 0; 9] 2001 0).
  - do 2 eexists. split_and!; reflexivity || done.
  - reflexivity.
  - reflexivity.
Defined.

(** A packet whose extended header parses but whose upper protocol is not BTP
    (every beacon, every IPv6 packet) is released by the BTP decoder while
    the context offers nobody to take it over: it is never freed. *)
Theorem non_btp_packet_leaks `{V : Vanetza} (p : PacketVariant Cohesive Chunk) (s d : MacAddress)
    basic common extended ctx3 :
  plain_headers p s d basic common (Some extended) ctx3 ->
  upper_protocol_of (common_next_header common) <> UP_BTP_A ->
  upper_protocol_of (common_next_header common) <> UP_BTP_B ->
  exists dc, decode p s d DetectionContext_default = Ret dc /\ btp_data dc = None /\
    payload dc = Some (finish ctx3, Released).
Proof.
  intros Hph Ha Hb. rewrite (decode_plain_headers _ _ _ _ _ _ _ _ Hph).
  destruct extended; cbn zeta; unfold pass_up, BtpDecoder_decode, parse_btp_header; cbn;
    destruct (upper_protocol_of _); try done; eexists; by split_and!.
Qed.

Lemma non_btp_packet_leaks_witness :
  exists dc, decode (V := sample_vanetza) (CohesivePacket [1; 1; 5; 0; 16; 1; 7]) 1 2
      DetectionContext_default = Ret dc /\ btp_data dc = None /\
    payload dc = Some (CohesivePacket [7], Released).
Proof.
  apply (@non_btp_packet_leaks sample_vanetza _ 1 2 (1, 1, 5) (0, 16, 1) (BeaconHeader tt) [7]).
  - do 2 eexists. split_and!; reflexivity || done.
  - done.
  - done.
Defined.
