(* ===== verification/AppParser.v ===== *)
(** * Application layer parsers (src/mitvane/app_layer_parser/, main.cpp)

    The four parsers, the ports they answer, what they print, and the way
    main.cpp turns the command line into a set of parsers. *)
From S2P Require Import Prelude Outcome.

Inductive AppKind := Cam | Denm | Spatem | Mapem.

#[export] Instance AppKind_eq_dec : EqDecision AppKind.
Proof. solve_decision. Defined.

(** vanetza/btp/ports.hpp and the ASN.1 decoding behind PacketVisitor. *)
Class AppLibrary (Packet : Type) := {
  ports_CAM : Z; ports_DENM : Z; ports_SPAT : Z; ports_TOPO : Z;
  decodable : AppKind -> Packet -> bool;
  print_indented : AppKind -> Packet -> list string
}.

(** The well-known ports differ and none is the "no port" value 0. *)
Class AppLibraryLaws (Packet : Type) `{AppLibrary Packet} : Prop := {
  ports_distinct : NoDup [ports_CAM; ports_DENM; ports_SPAT; ports_TOPO];
  ports_nonzero : Forall (fun p => p <> 0) [ports_CAM; ports_DENM; ports_SPAT; ports_TOPO]
}.

Record ApplicationLayerParser := { ap_kind : AppKind; print_rx_msg_ : bool }.

#[export] Instance ApplicationLayerParser_eq_dec : EqDecision ApplicationLayerParser.
Proof. solve_decision. Defined.

Section Parsers.
Context {Packet : Type} `{AL : !AppLibrary Packet}.

Definition port (a : ApplicationLayerParser) : Z :=
  match ap_kind a with
  | Cam => ports_CAM | Denm => ports_DENM | Spatem => ports_SPAT | Mapem => ports_TOPO
  end.

Definition app_name (k : AppKind) : string :=
  match k with Cam => "CAM" | Denm => "DENM" | Spatem => "SPATEM" | Mapem => "MAPEM" end%string.

Definition print_received_message (flag : bool) (a : ApplicationLayerParser) :
    ApplicationLayerParser :=
  {| ap_kind := ap_kind a; print_rx_msg_ := flag |}.

(** The lines a parser writes to std::cout. *)
Definition parse (a : ApplicationLayerParser) (p : Packet) : list string :=
  let ok := decodable (ap_kind a) p in
  (app_name (ap_kind a) +:+ " application received a packet with " +:+
     (if ok then "decodable" else "broken") +:+ " content")%string ::
  (if ok && print_rx_msg_ a
   then ("Received " +:+ app_name (ap_kind a) +:+ " contains")%string :: print_indented (ap_kind a) p
   else []).

(** ** main.cpp: --app-parsers and the --print-rx-* flags *)

Record Options := {
  print_rx_all : bool; print_rx_cam : bool; print_rx_denm : bool;
  print_rx_spat : bool; print_rx_map : bool
}.

(** The parser main.cpp creates for one name; [None] for an unknown name. *)
Definition create_parser (vm : Options) (name : string) : option ApplicationLayerParser :=
  let mk k flag := print_received_message (flag || print_rx_all vm)
                     {| ap_kind := k; print_rx_msg_ := false |} in
  if String.eqb name "ca" then Some (mk Cam (print_rx_denm vm))
  else if String.eqb name "den" then Some (mk Denm (print_rx_denm vm))
  else if String.eqb name "spat" then Some (mk Spatem (print_rx_spat vm))
  else if String.eqb name "map" then Some (mk Mapem (print_rx_map vm))
  else None.

(** The loop over the names: a name already configured is skipped. *)
Fixpoint configure_parsers (vm : Options) (names : list string)
    (app_parsers : gmap string ApplicationLayerParser) : gmap string ApplicationLayerParser :=
  match names with
  | [] => app_parsers
  | name :: names =>
    match app_parsers !! name with
    | Some _ => configure_parsers vm names app_parsers
    | None =>
      match create_parser vm name with
      | Some a => configure_parsers vm names (<[name := a]> app_parsers)
      | None => configure_parsers vm names app_parsers
      end
    end
  end.

(** std::unordered_map<port_type, ApplicationLayerParser*>; [None] is a null
    pointer. *)
Abbreviation port_map := (gmap Z (option ApplicationLayerParser)).

Definition set_application_layer_parser (p : Z) (h : option ApplicationLayerParser)
    (m : port_map) : port_map := <[p := h]> m.

Definition enable (a : ApplicationLayerParser) (m : port_map) : port_map :=
  if port a =? 0 then m else set_application_layer_parser (port a) (Some a) m.
Definition disable (a : ApplicationLayerParser) (m : port_map) : port_map :=
  if port a =? 0 then m else set_application_layer_parser (port a) None m.

(** main.cpp enables the configured parsers in the order of their names. *)
Definition enable_all (app_parsers : gmap string ApplicationLayerParser) (m : port_map) : port_map :=
  foldl (fun m a => enable a m) m
    (omap (fun name => app_parsers !! name) ["ca"; "den"; "map"; "spat"]%string).

(** [operator[]]: the pointer found, and the map with a null entry inserted
    when the port was absent. *)
Definition classify (destination_port : Z) (app_layer_parsers : port_map) :
    option ApplicationLayerParser * port_map :=
  match app_layer_parsers !! destination_port with
  | Some h => (h, app_layer_parsers)
  | None => (None, <[destination_port := None]> app_layer_parsers)
  end.

(** ** Lemmas *)

Lemma configure_lookup vm names m name :
  configure_parsers vm names m !! name =
    match m !! name with
    | Some a => Some a
    | None => if bool_decide (name ∈ names) then create_parser vm name else None
    end.
Proof.
  revert m. induction names as [|n names IH]; intros m; cbn [configure_parsers].
  { rewrite bool_decide_false by apply not_elem_of_nil. by destruct (m !! name). }
  destruct (decide (n = name)) as [->|Hne].
  - rewrite (bool_decide_true (name ∈ name :: names)) by (apply elem_of_cons; by left).
    destruct (m !! name) as [a|] eqn:Em; [by rewrite IH, Em|].
    destruct (create_parser vm name) as [a|] eqn:Ec; rewrite IH; [by rewrite lookup_insert_eq|].
    rewrite Em. case_bool_decide; [done|done].
  - assert (Hin : bool_decide (name ∈ n :: names) = bool_decide (name ∈ names)).
    { apply bool_decide_ext. rewrite elem_of_cons. naive_solver. }
    rewrite Hin. destruct (m !! n); [apply IH|].
    destruct (create_parser vm n); rewrite IH; [|done]. by rewrite lookup_insert_ne.
Qed.

Lemma enable_lookup a m p : port a <> 0 ->
  enable a m !! p = if decide (p = port a) then Some (Some a) else m !! p.
Proof.
  intros Hp. unfold enable, set_application_layer_parser.
  destruct (Z.eqb_spec (port a) 0); [done|]. case_decide as Hd.
  - rewrite Hd. apply lookup_insert_eq.
  - by apply lookup_insert_ne.
Qed.

(** The name under which main.cpp creates a kind. *)
Definition kind_name (k : AppKind) : string :=
  match k with Cam => "ca" | Denm => "den" | Spatem => "spat" | Mapem => "map" end%string.

Lemma create_parser_kind vm name a : create_parser vm name = Some a -> name = kind_name (ap_kind a).
Proof.
  unfold create_parser. repeat case_match; intros [= <-]; cbn; by apply String.eqb_eq.
Qed.

Lemma port_inj `{!AppLibraryLaws Packet} a b : port a = port b -> ap_kind a = ap_kind b.
Proof.
  pose proof ports_distinct as Hnd. rewrite !NoDup_cons, !elem_of_cons in Hnd.
  unfold port. destruct (ap_kind a), (ap_kind b); naive_solver.
Qed.

Lemma port_nonzero `{!AppLibraryLaws Packet} a : port a <> 0.
Proof.
  pose proof ports_nonzero as Hnz. rewrite !Forall_cons in Hnz.
  unfold port. destruct (ap_kind a); naive_solver.
Qed.

(** Enabling parsers of different kinds. *)
Lemma enable_fold_lookup `{!AppLibraryLaws Packet} l m p :
  NoDup (ap_kind <$> l) ->
  foldl (fun m a => enable a m) m l !! p =
    match list_find (fun a => port a = p) l with
    | Some (_, a) => Some (Some a)
    | None => m !! p
    end.
Proof.
  revert m. induction l as [|a l IH]; intros m Hnd; [done|].
  rewrite fmap_cons, NoDup_cons in Hnd. destruct Hnd as [Hni Hnd].
  cbn [foldl list_find]. rewrite IH by done. case_decide as Hp.
  - destruct (list_find _ l) as [[i b]|] eqn:E.
    + apply list_find_Some in E as (Hb & Hpb & _). destruct Hni.
      rewrite (port_inj a b) by congruence. apply list_elem_of_fmap_2.
      by eapply list_elem_of_lookup_2.
    + rewrite enable_lookup by apply port_nonzero. by rewrite decide_True by done.
  - destruct (list_find _ l) as [[i b]|] eqn:E; [done|].
    rewrite enable_lookup by apply port_nonzero. by rewrite decide_False by congruence.
Qed.
End Parsers.

(** ** Properties *)

(** The --print-rx-* option main.cpp passes to each parser: the CAM parser
    gets print-rx-denm. *)
Definition rx_flag (vm : Options) (k : AppKind) : bool :=
  match k with
  | Cam | Denm => print_rx_denm vm
  | Spatem => print_rx_spat vm
  | Mapem => print_rx_map vm
  end || print_rx_all vm.

(** C24: After main.cpp has configured and enabled the parsers, the port map holds,
    for each kind whose name was given (any number of times, in any order,
    among any other words), exactly that parser with its printing flag, and
    nothing at any other port.  The CAM parser follows print-rx-denm: the
    print-rx-cam option has no effect. *)
Theorem configured_ports {Packet} `{AL : !AppLibrary Packet, !AppLibraryLaws Packet}
    (vm : Options) (names : list string) (p : Z) :
  enable_all (configure_parsers vm names ∅) ∅ !! p =
    match list_find (fun k => port {| ap_kind := k; print_rx_msg_ := false |} = p /\
                              kind_name k ∈ names) [Cam; Denm; Mapem; Spatem] with
    | Some (_, k) => Some (Some {| ap_kind := k; print_rx_msg_ := rx_flag vm k |})
    | None => None
    end.
Proof.
  unfold enable_all.
  set (f := fun k => if bool_decide (kind_name k ∈ names)
    then Some {| ap_kind := k; print_rx_msg_ := rx_flag vm k |} else None).
  replace (omap _ _) with (omap f [Cam; Denm; Mapem; Spatem]).
  2: { unfold f. cbn. rewrite !configure_lookup, !lookup_empty. cbn.
       by repeat case_bool_decide. }
  assert (Hf : forall k a, f k = Some a -> ap_kind a = k).
  { unfold f. intros k a. case_bool_decide; by intros [= <-]. }
  assert (Hk : forall l : list AppKind, (forall k, k ∈ (ap_kind <$> omap f l) -> k ∈ l)).
  { intros l k (a & -> & (k' & Hk' & Ha)%list_elem_of_omap)%list_elem_of_fmap.
    by rewrite (Hf k' a). }
  assert (Hnd : forall l : list AppKind, NoDup l -> NoDup (ap_kind <$> omap f l)).
  { induction 1 as [|k l Hni Hnd IH]; [constructor|]. cbn.
    destruct (f k) as [a|] eqn:E; [|done]. cbn. constructor; [|done].
    rewrite (Hf k a) by done. auto. }
  rewrite enable_fold_lookup, lookup_empty by (apply Hnd; by apply (bool_decide_unpack _)).
  generalize [Cam; Denm; Mapem; Spatem]. induction l as [|k l IH]; [done|].
  cbn. unfold f at 1. case_bool_decide as Hin; cbn.
  - case_decide as Hp.
    + rewrite decide_True; [done|by split].
    + rewrite decide_False; [|by intros [? _]].
      destruct (list_find _ (omap f l)) as [[]|], (list_find _ l) as [[]|]; naive_solver.
  - rewrite decide_False; [|by intros [_ ?]].
    destruct (list_find _ (omap f l)) as [[]|], (list_find _ l) as [[]|]; naive_solver.
Qed.

(** A library with ETSI's well-known ports that decodes nothing. *)
Definition sample_app_library (Packet : Type) : AppLibrary Packet := {|
  ports_CAM := 2001; ports_DENM := 2002; ports_SPAT := 2004; ports_TOPO := 2003;
  decodable := fun _ _ => false; print_indented := fun _ _ => []
|}.

Lemma sample_app_library_ok Packet : @AppLibraryLaws Packet (sample_app_library Packet).
Proof. split; apply (bool_decide_unpack _); reflexivity. Qed.

Lemma configured_ports_witness :
  enable_all (AL := sample_app_library unit) (configure_parsers
    {| print_rx_all := false; print_rx_cam := true; print_rx_denm := false;
       print_rx_spat := false; print_rx_map := true |} ["map"; "ca"; "x"; "ca"]%string ∅) ∅ !! 2001 =
  match list_find (fun k => port (AL := sample_app_library unit)
            {| ap_kind := k; print_rx_msg_ := false |} = 2001 /\
            kind_name k ∈ ["map"; "ca"; "x"; "ca"]%string) [Cam; Denm; Mapem; Spatem] with
  | Some (_, k) => Some (Some {| ap_kind := k; print_rx_msg_ := rx_flag
      {| print_rx_all := false; print_rx_cam := true; print_rx_denm := false;
         print_rx_spat := false; print_rx_map := true |} k |})
  | None => None
  end.
Proof. apply (@configured_ports unit (sample_app_library unit) (sample_app_library_ok unit)). Defined.
