(* ===== verification/Idps.v ===== *)
(** * The pipeline (src/mitvane/idps_context.cpp)

    [run] takes one received packet through decoding, classification,
    application parsing, detection, handling and forwarding.  The steps of a
    running context are packets and parsers being enabled or disabled. *)
From S2P Require Import Prelude Outcome Signature Detector Decoder Handler AppParser.

(** What the context uses besides the decoders' library: addresses compare,
    and the ethertype of GeoNetworking. *)
Class Link (MacAddress : Type) := {
  mac_eq_dec :: EqDecision MacAddress;
  ethertype_GeoNetworking : Z
}.

Section Idps.
Context `{V : Vanetza} {F : Type} `{SR : !SecurityRegion ShortPositionVector F}
  `{LK : !Link MacAddress} `{AL : !AppLibrary (PacketVariant Cohesive Chunk)}.

Abbreviation Packet := (PacketVariant Cohesive Chunk).

(** IdpsContext, with what its destination link has sent, what was logged,
    what the application parsers printed, and the packets nobody owns. *)
Record IdpsContext := {
  m_app_layer_parsers : gmap Z (option ApplicationLayerParser);
  mib_mid : MacAddress;
  signatures_ : signatures_type;
  transmitted : list Cohesive;
  detection_log : list string;
  app_output : list string;
  leaked : list Packet
}.

Record EthernetHeader := { hdr_destination : MacAddress; hdr_source : MacAddress; hdr_type : Z }.

Definition with_parsers (c : IdpsContext) (m : gmap Z (option ApplicationLayerParser)) :
    IdpsContext :=
  {| m_app_layer_parsers := m; mib_mid := mib_mid c; signatures_ := signatures_ c;
     transmitted := transmitted c; detection_log := detection_log c;
     app_output := app_output c; leaked := leaked c |}.

(** Steps 2 and 3: the pointer in the context becomes the parser's
    unique_ptr, which is destroyed when parse returns. *)
Definition apply_parser (c : IdpsContext) (dc : DetectionContext) :
    outcome (IdpsContext * DetectionContext) :=
  match btp_data dc with
  | None => Ret (c, dc)
  | Some btp =>
    let '(parser, parsers) := classify (destination_port btp) (m_app_layer_parsers c) in
    match parser with
    | None => Undef null_dereference
    | Some a =>
      match payload dc with
      | Some (pkt, _) =>
        Ret ({| m_app_layer_parsers := parsers; mib_mid := mib_mid c;
                signatures_ := signatures_ c; transmitted := transmitted c;
                detection_log := detection_log c;
                app_output := app_output c ++ parse a pkt; leaked := leaked c |},
             with_payload dc (Some (pkt, Destroyed)))
      | None => Undef indeterminate_value
      end
    end
  end.

(** Step 4. *)
Definition run_detector (fix_ : F) (c : IdpsContext) (dc : DetectionContext) :
    outcome (DetectionReport * signatures_type) :=
  match signatures_ c !! GeoNetworking with
  | Some _ => detect (geonet_data dc) fix_ (signatures_ c)
  | None => Ret (DetectionReport_default, signatures_ c)
  end.

(** Step 5: the log and handle_report, which has no initialiser. *)
Definition run_handler (report : DetectionReport) (lg : list string) :
    outcome (list string * option HandleReport) :=
  result ← initialised (dr_result report);
  if decide (result = Detected) then
    let '(lg, rep) := handle (dr_sigs report) lg in Ret (lg, Some rep)
  else Ret (lg, None).

Definition run (fix_ : F) (packet : Cohesive) (hdr : EthernetHeader) (c : IdpsContext) :
    outcome IdpsContext :=
  if negb (bool_decide (hdr_source hdr = mib_mid c)) && (hdr_type hdr =? ethertype_GeoNetworking)
  then
    dc ← decode (CohesivePacket packet) (hdr_source hdr) (hdr_destination hdr)
           DetectionContext_default;
    '(c, dc) ← apply_parser c dc;
    '(report, sigs) ← run_detector fix_ c dc;
    '(lg, handle_report) ← run_handler report (detection_log c);
    rep ← initialised handle_report;
    Ret {| m_app_layer_parsers := m_app_layer_parsers c; mib_mid := mib_mid c;
           signatures_ := sigs;
           transmitted := if decide (rep = Drop) then transmitted c
                          else transmitted c ++ [packet];
           detection_log := lg; app_output := app_output c;
           leaked := match payload dc with
                     | Some (pkt, Released) => leaked c ++ [pkt]
                     | _ => leaked c
                     end |}
  else Ret c.

(** ** The context as a state machine *)

Inductive event :=
  | Receive (packet : Cohesive) (hdr : EthernetHeader) (fix_ : F)
  | Enable (a : ApplicationLayerParser)
  | Disable (a : ApplicationLayerParser).

Inductive step : IdpsContext -> event -> IdpsContext -> Prop :=
  | step_receive c packet hdr fix_ c' :
      run fix_ packet hdr c = Ret c' -> step c (Receive packet hdr fix_) c'
  | step_enable c a :
      step c (Enable a) (with_parsers c (enable a (m_app_layer_parsers c)))
  | step_disable c a :
      step c (Disable a) (with_parsers c (disable a (m_app_layer_parsers c))).

Inductive steps : IdpsContext -> list event -> IdpsContext -> Prop :=
  | steps_nil c : steps c [] c
  | steps_cons c e c' es c'' : step c e c' -> steps c' es c'' -> steps c (e :: es) c''.

Definition received (e : event) : option Cohesive :=
  match e with Receive p _ _ => Some p | _ => None end.

(** ** Lemmas *)

Lemma run_handler_ok sigs lg :
  run_handler {| dr_sigs := sigs; dr_result := Some Detected |} lg =
    Ret (lg ++ (log_line <$> sigs), Some (verdict sigs)).
Proof. unfold run_handler. cbn [dr_result initialised mbind outcome_bind dr_sigs].
  by rewrite decide_True, handle_ok. Qed.

Lemma run_handler_Ret report lg lg' rep :
  run_handler report lg = Ret (lg', Some rep) ->
  lg' = lg ++ (log_line <$> dr_sigs report) /\ rep = verdict (dr_sigs report).
Proof.
  intros (r & Hr & H)%outcome_bind_Ret.
  case_decide; [|done]. rewrite handle_ok in H. by injection H as <- <-.
Qed.

Lemma initialised_Ret {A} (x : option A) a : initialised x = Ret a -> x = Some a.
Proof. destruct x; cbn; congruence. Qed.

Lemma apply_parser_Ret c dc c' dc' : apply_parser c dc = Ret (c', dc') ->
  mib_mid c' = mib_mid c /\ signatures_ c' = signatures_ c /\ transmitted c' = transmitted c /\
  detection_log c' = detection_log c /\ leaked c' = leaked c /\ geonet_data dc' = geonet_data dc.
Proof.
  unfold apply_parser. destruct (btp_data dc) as [b|]; [|by intros [= <- <-]].
  destruct (classify _ _) as [[a|] m]; [|done].
  destruct (payload dc) as [[pkt ?]|]; [|done]. by intros [= <- <-].
Qed.

Lemma detect_sigs (g : GeonetData ShortPositionVector DestinationVariant HashedId8 Lifetime) fix_ s report s' :
  detect g fix_ s = Ret (report, s') -> is_Some (s !! GeoNetworking) -> s' = s.
Proof.
  intros H [l Hl]. unfold detect in H. rewrite Hl in H.
  apply outcome_bind_Ret in H as (m & _ & [= _ <-]). done.
Qed.

Lemma run_detector_Ret fix_ c dc report sigs :
  run_detector fix_ c dc = Ret (report, sigs) -> sigs = signatures_ c.
Proof.
  unfold run_detector. destruct (signatures_ c !! GeoNetworking) eqn:E.
  - intros H. apply detect_sigs in H; [done|]. by rewrite E.
  - by intros [= _ <-].
Qed.

(** What one completed run may change. *)
Lemma run_effects fix_ packet hdr c c' : run fix_ packet hdr c = Ret c' ->
  mib_mid c' = mib_mid c /\ signatures_ c' = signatures_ c /\
  exists sigs, detection_log c' = detection_log c ++ (log_line <$> sigs) /\
    ((transmitted c' = transmitted c ++ [packet]) \/
     (transmitted c' = transmitted c /\ (c' = c \/ verdict sigs = Drop))).
Proof.
  unfold run. case_match; [|intros [= <-]; split_and!; [done..|]; exists []; cbn;
    rewrite app_nil_r; auto].
  intros (dc & _ & ([c1 dc1] & Hp & ([report sigs] & Hd & ([lg rep] & Hh &
    (r & Hr & [= <-])%outcome_bind_Ret)%outcome_bind_Ret)%outcome_bind_Ret)%outcome_bind_Ret)%outcome_bind_Ret.
  apply apply_parser_Ret in Hp as (Hm & Hs & Ht & Hl & _). apply initialised_Ret in Hr as ->.
  apply run_handler_Ret in Hh as [-> ->]. apply run_detector_Ret in Hd as ->.
  cbn [mib_mid signatures_ transmitted detection_log].
  rewrite Hm, Hs, Ht, Hl. split_and!; [done..|]. exists (dr_sigs report).
  split; [done|]. destruct (decide (verdict (dr_sigs report) = Drop)); [right|left]; auto.
Qed.

Lemma apply_parser_ok c dc : context_ok dc ->
  (forall b, btp_data dc = Some b ->
     exists a, m_app_layer_parsers c !! destination_port b = Some (Some a)) ->
  exists c' dc', apply_parser c dc = Ret (c', dc') /\
    (forall pkt, payload dc' = Some (pkt, Released) <->
       payload dc = Some (pkt, Released) /\ btp_data dc = None).
Proof.
  intros [Hp _] Hreg. unfold apply_parser, payload_ok in *.
  destruct (btp_data dc) as [b|] eqn:Eb.
  - destruct (Hreg b eq_refl) as [a Ha]. unfold classify. rewrite Ha.
    destruct (payload dc) as [[pkt []]|]; try done. do 2 eexists. split; [done|].
    cbn. intros pkt'. split; [done|]. by intros [_ ?].
  - do 2 eexists. split; [done|]. intros pkt'. tauto.
Qed.
End Idps.

(** ** Properties *)

Section Properties.
Context `{V : Vanetza} {F : Type} `{SR : !SecurityRegion ShortPositionVector F}
  `{LK : !Link MacAddress} `{AL : !AppLibrary (PacketVariant Cohesive Chunk)}.

(** The packet is one the context looks at, and was decoded to [dc]. *)
Definition inspected (packet : Cohesive) (hdr : EthernetHeader) (c : IdpsContext) dc : Prop :=
  hdr_source hdr <> mib_mid c /\ hdr_type hdr = ethertype_GeoNetworking /\
  decode (CohesivePacket packet) (hdr_source hdr) (hdr_destination hdr)
    DetectionContext_default = Ret dc.

(** Every port a decoded packet may name has a parser. *)
Definition parser_registered (c : IdpsContext) (dc : DetectionContext) : Prop :=
  forall b, btp_data dc = Some b ->
    exists a, m_app_layer_parsers c !! destination_port b = Some (Some a).

Lemma inspected_guard packet hdr c dc : inspected packet hdr c dc ->
  negb (bool_decide (hdr_source hdr = mib_mid c)) && (hdr_type hdr =? ethertype_GeoNetworking) = true.
Proof. intros (Hs & Ht & _). by rewrite bool_decide_false, Ht, Z.eqb_refl. Qed.

(** Detection on an undecoded header: the loop body returns or reads an
    indeterminate member, and a rule on the hop limit does the latter. *)
Definition ret_or_indet {A} (m : outcome A) : Prop :=
  (exists a, m = Ret a) \/ m = Undef indeterminate_value.

Lemma ret_or_indet_bind {A B} (m : outcome A) (k : A -> outcome B) :
  ret_or_indet m -> (forall a, m = Ret a -> ret_or_indet (k a)) -> ret_or_indet (m ≫= k).
Proof. intros [[a ->]| ->] Hk; [by apply Hk|by right]. Qed.

Lemma ret_or_indet_Ret {A} (a : A) : ret_or_indet (Ret a).
Proof. left. by exists a. Qed.

Lemma ret_or_indet_initialised {A} (x : option A) : ret_or_indet (initialised x).
Proof. destruct x; [left; by eexists|by right]. Qed.

Hint Resolve ret_or_indet_Ret ret_or_indet_initialised : core.

Section Undecoded.
Context {P D H L : Type} `{GC : GeonetCodes, SR' : !SecurityRegion P F}.
Implicit Types data : GeonetData P D H L.

Lemma detect_nh_indet data sig c : patterns_wf (patterns sig) -> ret_or_indet (detect_nh data sig c).
Proof.
  intros Hwf. unfold detect_nh. destruct (patterns sig !! _) as [v|] eqn:E; [|auto].
  apply Hwf in E. destruct v; cbn in E; try done. apply ret_or_indet_bind; [apply ret_or_indet_Ret|].
  intros s' _. destruct (transform_nh s') as [[] ?]; [|auto]. by apply ret_or_indet_bind.
Qed.

Lemma detect_ht_indet data sig c : patterns_wf (patterns sig) -> ret_or_indet (detect_ht data sig c).
Proof.
  intros Hwf. unfold detect_ht. destruct (patterns sig !! _) as [v|] eqn:E; [|auto].
  apply Hwf in E. destruct v; cbn in E; try done. apply ret_or_indet_bind; [apply ret_or_indet_Ret|].
  intros s' _. destruct (transform_ht s') as [[] ?]; [|auto]. by apply ret_or_indet_bind.
Qed.

Lemma detect_mhl_indet data sig c : patterns_wf (patterns sig) -> ret_or_indet (detect_mhl data sig c).
Proof.
  intros Hwf. unfold detect_mhl. destruct (patterns sig !! _) as [v|] eqn:E; [|auto].
  apply Hwf in E. destruct v; cbn in E; try done; [|by destruct E as [[? _]|[? _]]].
  apply ret_or_indet_bind; [apply ret_or_indet_Ret|]. intros m _. by apply ret_or_indet_bind.
Qed.

Lemma detect_so_range_indet data fix_ sig c :
  patterns_wf (patterns sig) -> ret_or_indet (detect_so_range data fix_ sig c).
Proof.
  intros Hwf. unfold detect_so_range. destruct (patterns sig !! _) as [v|] eqn:E; [|auto].
  apply Hwf in E. destruct v; cbn in E; try done; [by destruct E as [[? _]|[? _]]|].
  apply ret_or_indet_bind; [apply ret_or_indet_Ret|]. intros r' _. destruct (so_shape r'); auto.
Qed.

Lemma or_continue_indet (m : outcome (option Z)) k :
  ret_or_indet m -> (forall c, ret_or_indet (k c)) -> ret_or_indet (or_continue m k).
Proof. intros Hm Hk. apply ret_or_indet_bind; [done|]. intros [c|] _; auto. Qed.

Lemma detect_signature_indet data fix_ sig :
  patterns_wf (patterns sig) -> ret_or_indet (detect_signature data fix_ sig).
Proof.
  intros Hwf. apply ret_or_indet_bind; [|by intros [?|]; auto].
  apply or_continue_indet; [by apply detect_nh_indet|intros c1].
  apply or_continue_indet; [by apply detect_ht_indet|intros c2].
  apply or_continue_indet; [by apply detect_mhl_indet|intros c3].
  by apply detect_so_range_indet.
Qed.

(** A well-formed rule never takes [continue] before the hop limit. *)
Lemma detect_signature_mhl data fix_ sig m :
  maximum_hop_limit data = None -> patterns_wf (patterns sig) ->
  patterns sig !! "mhl"%string = Some (PInt m) ->
  detect_signature data fix_ sig = Undef indeterminate_value.
Proof.
  intros Hm Hwf Hp. unfold detect_signature.
  assert (H1 : forall c, (exists c', detect_nh data sig c = Ret (Some c')) \/
    detect_nh data sig c = Undef indeterminate_value).
  { intros c. unfold detect_nh. destruct (patterns sig !! "nh"%string) as [v|] eqn:E; [|by eauto].
    apply Hwf in E. destruct v; cbn in E; try done. destruct E as [[_ E]|[E _]]; [|done].
    cbn [get_string mbind outcome_bind]. rewrite transform_nh_ok by done.
    destruct (next_header data); cbn; eauto. }
  assert (H2 : forall c, (exists c', detect_ht data sig c = Ret (Some c')) \/
    detect_ht data sig c = Undef indeterminate_value).
  { intros c. unfold detect_ht. destruct (patterns sig !! "ht"%string) as [v|] eqn:E; [|by eauto].
    apply Hwf in E. destruct v; cbn in E; try done. destruct E as [[E _]|[_ E]]; [done|].
    cbn [get_string mbind outcome_bind]. unfold transform_ht.
    destruct E as [-> | [-> | ->]]; cbn; destruct (header_type data); cbn; eauto. }
  destruct (H1 0) as [[c1 ->]| ->]; cbn [or_continue mbind outcome_bind]; [|done].
  destruct (H2 c1) as [[c2 ->]| ->]; cbn [or_continue mbind outcome_bind]; [|done].
  unfold detect_mhl. by rewrite Hp, Hm.
Qed.

Lemma detect_loop_mhl data fix_ sigs matched sig m :
  maximum_hop_limit data = None -> Forall (fun s => patterns_wf (patterns s)) sigs ->
  sig ∈ sigs -> patterns sig !! "mhl"%string = Some (PInt m) ->
  detect_loop data fix_ sigs matched = Undef indeterminate_value.
Proof.
  intros Hm Hwf Hin Hp. revert matched.
  induction Hwf as [|s sigs Hs Hwf IH]; intros matched; [by apply not_elem_of_nil in Hin|].
  cbn [detect_loop]. apply elem_of_cons in Hin as [<-|Hin].
  - by rewrite (detect_signature_mhl data fix_ sig m).
  - destruct (detect_signature_indet data fix_ s Hs) as [[b ->]| ->]; [|done].
    cbn [mbind outcome_bind]. by apply IH.
Qed.
End Undecoded.

(** ** What a run does *)

(** C1: The pipeline's contract.  For a GeoNetworking frame from another station
    whose headers were decoded, with rules loaded and a parser for the BTP
    port it names (if any), a run returns; it logs exactly one line per rule
    the packet matches, in rule order, and it forwards the packet unchanged
    exactly when every matched rule's action is Alert. *)
Theorem run_inspects `{!EtsiCodes} fix_ packet hdr c dc nh ht mhl rules :
  inspected packet hdr c dc -> decoded (geonet_data dc) nh ht mhl ->
  parser_registered c dc -> signatures_wf (signatures_ c) ->
  signatures_ c !! GeoNetworking = Some rules ->
  exists c', run fix_ packet hdr c = Ret c' /\
    let matched := filter (rule_matches (geonet_data dc) fix_ nh ht mhl) rules in
    detection_log c' = detection_log c ++ (log_line <$> matched) /\
    transmitted c' = transmitted c ++
      (if decide (Forall (fun s => action s = Action_Alert) matched) then [packet] else []) /\
    signatures_ c' = signatures_ c /\
    (leaked c' <> leaked c <-> btp_data dc = None /\ exists pkt, payload dc = Some (pkt, Released)).
Proof.
  intros Hi Hdec Hreg Hwf Hrules. unfold run. rewrite (inspected_guard _ _ _ _ Hi).
  destruct Hi as (_ & _ & Hd). rewrite Hd. cbn [mbind outcome_bind].
  destruct (apply_parser_ok c dc) as (c1 & dc1 & Hp & Hown);
    [by apply (decode_basic_ok _ _ Hd)|done|].
  rewrite Hp. apply apply_parser_Ret in Hp as (Hm & Hs & Ht & Hl & Hlk & Hg).
  cbn [mbind outcome_bind]. unfold run_detector. rewrite Hs, Hrules, Hg.
  unfold detect. rewrite !Hrules. cbn [default from_option id].
  rewrite (detect_loop_ok (geonet_data dc) fix_ nh ht mhl) by (done || by apply (Hwf _ _ Hrules)).
  cbn [mbind outcome_bind app]. rewrite run_handler_ok.
  cbn [mbind outcome_bind initialised]. eexists. split; [reflexivity|]. cbn zeta.
  cbn [detection_log transmitted signatures_ leaked]. rewrite Hl, Ht, Hlk. unfold verdict.
  split_and!; [done| |done|].
  - destruct (decide (Forall _ _)); cbn; [by rewrite decide_False|].
    by rewrite decide_True, app_nil_r.
  - transitivity (exists pkt, payload dc1 = Some (pkt, Released)); [|clear - Hown; naive_solver].
    clear Hown. destruct (payload dc1) as [[pkt []]|]; try (clear; naive_solver).
    split; [by eexists|]. intros _ Heq. apply (f_equal length) in Heq.
    rewrite length_app in Heq. cbn in Heq. lia.
Qed.

(** Frames sent by the station itself and frames of another ethertype leave
    the context untouched and are not forwarded. *)
Theorem run_ignores fix_ packet hdr c :
  hdr_source hdr = mib_mid c \/ hdr_type hdr <> ethertype_GeoNetworking ->
  run fix_ packet hdr c = Ret c.
Proof.
  intros Hc. unfold run. destruct Hc as [-> |Ht%Z.eqb_neq].
  - by rewrite bool_decide_true.
  - by rewrite Ht, andb_false_r.
Qed.

(** Without a GeoNetworking rule the report is default-constructed and run
    reads its uninitialised result: whether any packet is forwarded is left
    to undefined behaviour. *)
Theorem run_without_rules_undefined fix_ packet hdr c dc :
  inspected packet hdr c dc -> parser_registered c dc ->
  signatures_ c !! GeoNetworking = None ->
  run fix_ packet hdr c = Undef indeterminate_value.
Proof.
  intros Hi Hreg Hnone. unfold run. rewrite (inspected_guard _ _ _ _ Hi).
  destruct Hi as (_ & _ & Hd). rewrite Hd. cbn [mbind outcome_bind].
  destruct (apply_parser_ok c dc) as (c1 & dc1 & Hp & _);
    [by apply (decode_basic_ok _ _ Hd)|done|].
  rewrite Hp. apply apply_parser_Ret in Hp as (_ & Hs & _).
  cbn [mbind outcome_bind]. unfold run_detector. by rewrite Hs, Hnone.
Qed.

(** A packet for a BTP port without an enabled parser makes run call parse
    through a null pointer: operator[] of the port map inserts one. *)
Theorem run_unregistered_port_undefined fix_ packet hdr c dc b :
  inspected packet hdr c dc -> btp_data dc = Some b ->
  (forall a, m_app_layer_parsers c !! destination_port b <> Some (Some a)) ->
  run fix_ packet hdr c = Undef null_dereference.
Proof.
  intros Hi Hb Hno. unfold run. rewrite (inspected_guard _ _ _ _ Hi).
  destruct Hi as (_ & _ & Hd). rewrite Hd. cbn [mbind outcome_bind].
  unfold apply_parser. rewrite Hb. unfold classify.
  destruct (m_app_layer_parsers c !! destination_port b) as [[a|]|] eqn:E; try done.
  by destruct (Hno a).
Qed.

(** A frame whose common header is not decoded (truncated, or secured and
    unreadable) is still matched: as soon as some rule has an mhl pattern the
    detector reads a hop limit that was never stored. *)
Theorem run_undecoded_header_undefined fix_ packet hdr c dc rules sig m :
  inspected packet hdr c dc -> header_type (geonet_data dc) = None ->
  signatures_wf (signatures_ c) -> signatures_ c !! GeoNetworking = Some rules ->
  sig ∈ rules -> patterns sig !! "mhl"%string = Some (PInt m) ->
  run fix_ packet hdr c = Undef indeterminate_value.
Proof.
  intros Hi Hht Hwf Hrules Hin Hp. unfold run. rewrite (inspected_guard _ _ _ _ Hi).
  destruct Hi as (_ & _ & Hd). rewrite Hd. cbn [mbind outcome_bind].
  destruct (decode_basic_ok _ _ Hd) as (Hpl & [Hf _] & Hc).
  assert (Hnone : payload dc = None).
  { destruct (payload dc) eqn:E; [|done]. destruct Hc as [Hc _].
    destruct Hc as [t Ht]; [by eexists|congruence]. }
  assert (Hb : btp_data dc = None).
  { unfold payload_ok in Hpl. by rewrite Hnone in Hpl. }
  assert (Hm : maximum_hop_limit (geonet_data dc) = None).
  { destruct (maximum_hop_limit _) eqn:E; [|done]. destruct Hf as [_ Hf].
    destruct Hf as [t Ht]; [by eexists|congruence]. }
  unfold apply_parser. rewrite Hb. cbn [mbind outcome_bind]. unfold run_detector.
  rewrite Hrules. unfold detect. rewrite Hrules, Hrules. cbn [default from_option id].
  rewrite (detect_loop_mhl _ _ _ _ sig m); [done|done| |done|done].
  apply Forall_impl with (1 := Hwf _ _ Hrules). intros s (_ & _ & Hs & _). exact Hs.
Qed.

(** C2: Over any history of packets and parser changes that stays defined, the
    context forwards only packets it received, unmodified, each at most once
    and in order; its rules never change; and its log only grows. *)
Theorem forwarded_in_order (c c' : IdpsContext) (es : list event) :
  steps c es c' ->
  (exists fwd, transmitted c' = transmitted c ++ fwd /\ fwd `sublist_of` omap received es) /\
  signatures_ c' = signatures_ c /\ mib_mid c' = mib_mid c /\
  detection_log c `prefix_of` detection_log c'.
Proof.
  induction 1 as [c|c e c1 es c2 Hstep Hsteps ((fwd & Hf & Hsub) & Hs & Hm & Hl)].
  { split_and!; [|done..]. exists []. by rewrite app_nil_r. }
  destruct Hstep as [c packet hdr fix_ c1 Hrun|c a|c a]; cbn in *.
  2,3: split_and!; [by exists fwd|done..].
  apply run_effects in Hrun as (Hm1 & Hs1 & sigs & Hl1 & Ht).
  split_and!; try congruence.
  - destruct Ht as [Ht|[Ht _]]; rewrite Ht in Hf.
    + exists (packet :: fwd). rewrite <- app_assoc in Hf. split; [done|]. by constructor.
    + exists fwd. split; [done|]. by constructor.
  - etrans; [|done]. rewrite Hl1. by apply prefix_app_r.
Qed.
End Properties.

(** ** Concrete runs *)

Definition sample_link : Link Z := {| ethertype_GeoNetworking := 35143 |}.
Definition sample_region : @SecurityRegion (@ShortPositionVector sample_vanetza) Z := line_region.
Definition sample_apps := sample_app_library (PacketVariant (list Z) (list Z)).

Definition sample_context (sigs : signatures_type) (ports : gmap Z (option ApplicationLayerParser)) :
    IdpsContext (V := sample_vanetza) :=
  @Build_IdpsContext sample_vanetza ports 77 sigs [] [] [] [].

Definition sample_hdr : EthernetHeader (V := sample_vanetza) :=
  @Build_EthernetHeader sample_vanetza 2 1 35143.

(** Version, next header Common, hop limit; BTP-B, single hop, maximum hop
    limit 9; position; destination port 2001 and port info. *)
Definition sample_packet : list Z := [1; 1; 5; 2; 80; 9; 20; 2001; 0; 42].

(** A beacon, and a frame cut after its basic header. *)
Definition sample_beacon : list Z := [1; 1; 5; 0; 16; 9].
Definition sample_truncated : list Z := [1; 1; 5].

Definition sample_ports : gmap Z (option ApplicationLayerParser) :=
  {[ 2001 := Some {| ap_kind := Cam; print_rx_msg_ := false |} ]}.

Definition sample_run := run (V := sample_vanetza) (SR := sample_region) (LK := sample_link)
  (AL := sample_apps) 0.

Lemma sample_inspected packet dc sigs ports :
  decode (V := sample_vanetza) (CohesivePacket packet) 1 2 DetectionContext_default = Ret dc ->
  inspected (V := sample_vanetza) (LK := sample_link) packet sample_hdr
    (sample_context sigs ports) dc.
Proof. intros Hd. split; [discriminate|split; [reflexivity|exact Hd]]. Qed.

Definition sample_dc (packet : list Z) : DetectionContext (V := sample_vanetza) :=
  match decode (V := sample_vanetza) (CohesivePacket packet) 1 2 DetectionContext_default with
  | Ret dc => dc | _ => DetectionContext_default (V := sample_vanetza) end.

Lemma run_inspects_witness :
  exists c', sample_run sample_packet sample_hdr (sample_context sample_sigs sample_ports) = Ret c' /\
    let matched := filter (rule_matches (GC := etsi_codes) (SR := line_region)
      (geonet_data (V := sample_vanetza) (sample_dc sample_packet)) 0 1 80 9)
      (default [] (sample_sigs !! GeoNetworking)) in
    detection_log (V := sample_vanetza) c' = log_line <$> matched /\
    transmitted (V := sample_vanetza) c' =
      (if decide (Forall (fun s => action s = Action_Alert) matched) then [sample_packet] else []) /\
    signatures_ (V := sample_vanetza) c' = sample_sigs /\
    (leaked (V := sample_vanetza) c' <> [] <->
     btp_data (V := sample_vanetza) (sample_dc sample_packet) = None /\
     exists pkt, payload (V := sample_vanetza) (sample_dc sample_packet) = Some (pkt, Released)).
Proof.
  refine (@run_inspects sample_vanetza Z sample_region sample_link sample_apps etsi_codes_ok
    0 sample_packet sample_hdr (sample_context sample_sigs sample_ports) (sample_dc sample_packet)
    1 80 9 (default [] (sample_sigs !! GeoNetworking)) _ _ _ _ _).
  - apply sample_inspected. reflexivity.
  - split; reflexivity.
  - intros b [= <-]. eexists. reflexivity.
  - exact sample_sigs_wf.
  - reflexivity.
Defined.

Lemma run_ignores_witness :
  sample_run sample_packet (@Build_EthernetHeader sample_vanetza 2 77 35143)
    (sample_context sample_sigs sample_ports) = Ret (sample_context sample_sigs sample_ports).
Proof.
  refine (@run_ignores sample_vanetza Z sample_region sample_link sample_apps 0 _ _ _ _).
  left. reflexivity.
Defined.

Lemma run_without_rules_undefined_witness :
  sample_run sample_packet sample_hdr (sample_context ∅ sample_ports) = Undef indeterminate_value.
Proof.
  refine (@run_without_rules_undefined sample_vanetza Z sample_region sample_link sample_apps 0
    sample_packet sample_hdr (sample_context ∅ sample_ports) (sample_dc sample_packet) _ _ _).
  - apply sample_inspected. reflexivity.
  - intros b [= <-]. eexists. reflexivity.
  - reflexivity.
Defined.

Lemma run_unregistered_port_undefined_witness :
  sample_run sample_packet sample_hdr (sample_context sample_sigs ∅) = Undef null_dereference.
Proof.
  refine (@run_unregistered_port_undefined sample_vanetza Z sample_region sample_link sample_apps 0
    sample_packet sample_hdr (sample_context sample_sigs ∅) (sample_dc sample_packet) _ _ _ _).
  - apply sample_inspected. reflexivity.
  - reflexivity.
  - intros a. cbn. rewrite lookup_empty. discriminate.
Defined.

Lemma run_undecoded_header_undefined_witness :
  sample_run sample_truncated sample_hdr (sample_context sample_sigs sample_ports) =
    Undef indeterminate_value.
Proof.
  refine (@run_undecoded_header_undefined sample_vanetza Z sample_region sample_link sample_apps 0
    sample_truncated sample_hdr (sample_context sample_sigs sample_ports)
    (sample_dc sample_truncated) (default [] (sample_sigs !! GeoNetworking))
    (sample_rule Action_Alert [("nh", PString "common"); ("mhl", PInt 5)]%string) 5 _ _ _ _ _ _).
  - apply sample_inspected. reflexivity.
  - reflexivity.
  - exact sample_sigs_wf.
  - reflexivity.
  - apply elem_of_cons. left. reflexivity.
  - reflexivity.
Defined.

Lemma forwarded_in_order_witness :
  exists c', (exists fwd, transmitted (V := sample_vanetza) c' = [] ++ fwd /\
      fwd `sublist_of` [sample_packet; sample_beacon]) /\
    signatures_ (V := sample_vanetza) c' = sample_sigs /\ mib_mid (V := sample_vanetza) c' = 77 /\
    [] `prefix_of` detection_log (V := sample_vanetza) c'.
Proof.
  eexists.
  refine (@forwarded_in_order sample_vanetza Z sample_region sample_link sample_apps
    (sample_context sample_sigs ∅) _
    [@Enable sample_vanetza Z {| ap_kind := Cam; print_rx_msg_ := false |};
     @Receive sample_vanetza Z sample_packet sample_hdr 0;
     @Receive sample_vanetza Z sample_beacon sample_hdr 0] _).
  refine (steps_cons _ _ _ _ _ _ _); [exact (step_enable _ _)|].
  refine (steps_cons _ _ _ _ _ _ _); [refine (step_receive _ _ _ _ _ _); reflexivity|].
  refine (steps_cons _ _ _ _ _ _ _); [refine (step_receive _ _ _ _ _ _); reflexivity|].
  exact (steps_nil _).
Defined.
