(* ===== verification/Consumer.v ===== *)
(** * Output callbacks

    [asn_app_consume_bytes_f] (support/asn_application.h) is the interface by
    which every encoder hands octets to its caller: a function of a chunk of
    bytes and of the caller's own state ([app_key]) that returns an [int],
    negative on failure.  The class [Consumer] is that interface; the laws of
    [AppendConsumer] are what the two callbacks of asn1c_wrapper.cpp promise
    about the bytes they were given. *)
From S2P Require Import Prelude.

(** asn_app_consume_bytes_f: the return code and the new state behind
    [app_key]. *)
Class Consumer (S : Type) := consume : list Z -> S -> Z * S.

(** A consumer that never fails and keeps every byte, in order. *)
Class AppendConsumer (S : Type) `{Consumer S} := {
  written : S -> list Z;
  consume_rc : forall d s, (consume d s).1 = 0;
  written_consume : forall d s, written (consume d s).2 = written s ++ d
}.

(** ** The callbacks of asn1c_wrapper.cpp *)

(** vanetza::ByteBuffer, a std::vector<uint8_t>. *)
Record ByteBuffer := { bb_bytes : list Z }.

(** std::copy_n(in, size, std::back_inserter(out)); return 0. *)
Definition write_buffer (d : list Z) (s : ByteBuffer) : Z * ByteBuffer :=
  (0, {| bb_bytes := bb_bytes s ++ d |}).

(** [write_null] ignores the bytes; there is no state behind its key. *)
Definition write_null (d : list Z) (s : unit) : Z * unit := (0, s).

#[export] Instance write_buffer_consumer : Consumer ByteBuffer := write_buffer.
#[export] Instance write_null_consumer : Consumer unit := write_null.

#[export] Instance write_buffer_append : AppendConsumer ByteBuffer.
Proof. by exists bb_bytes. Defined.

(** A consumer that refuses every chunk: the error branches of the encoders. *)
Record Refusing := { refused : nat }.
#[export] Instance refusing_consumer : Consumer Refusing :=
  fun _ s => (-1, {| refused := S (refused s) |}).

Lemma consume_append {S} `{AppendConsumer S} d (s : S) :
  exists s', consume d s = (0, s') /\ written s' = written s ++ d.
Proof.
  exists (consume d s).2. split; [|apply written_consume].
  rewrite <- (consume_rc d s). apply surjective_pairing.
Qed.
