(* ===== verification/BitData.v ===== *)
(** * PER bit streams (support/asn_bit_data.c)

    The reader [asn_bit_data_t] and the writer [asn_bit_outp_t] of the packed
    encoding rules.  A C function that updates its argument in place takes the
    state and returns the new one beside its result; the outer [option] is
    [None] exactly when the C code would touch memory outside its buffer (or
    run out of the recursion bound), so that the refinement theorems below
    also show that it never does. *)
From S2P Require Import Prelude Consumer.

(** ** The reader *)

(** [pd_buffer] is the octets from [pd->buffer] to the end of the object.
    [K] is what [refill_key] can point to; [None] is a null [refill]. *)
Record asn_bit_data (K : Type) := {
  pd_buffer : list Z;
  pd_nboff : Z;
  pd_nbits : Z;
  pd_moved : Z;
  pd_refill : option K
}.
Arguments Build_asn_bit_data {K}.
Arguments pd_buffer {K}.
Arguments pd_nboff {K}.
Arguments pd_nbits {K}.
Arguments pd_moved {K}.
Arguments pd_refill {K}.

(** The call [pd->refill(pd)]: its return code and the updated stream. *)
Class Refill (K : Type) := refill : K -> asn_bit_data K -> Z * asn_bit_data K.

Section Reader.
Context {K : Type} `{!Refill K}.
Implicit Types pd : asn_bit_data K.

(** [memcpy] reads [size_bytes] octets of [data]; the copy has a zero octet
    after them. *)
Definition asn_bit_data_new_contiguous (data : list Z) (size_bits : Z) :
    option (asn_bit_data K) :=
  let size_bytes := (size_bits + 7) / 8 in
  if Z.of_nat (length data) <? size_bytes then None
  else Some {| pd_buffer := take (Z.to_nat size_bytes) data ++ [0];
               pd_nboff := 0; pd_nbits := size_bits; pd_moved := 0;
               pd_refill := None |}.

(** When [nboff < nbits] the assertion in the C code holds and nothing
    happens. *)
Definition asn_get_undo pd (nbits : Z) : asn_bit_data K :=
  if pd_nboff pd <? nbits then pd
  else {| pd_buffer := pd_buffer pd; pd_nboff := pd_nboff pd - nbits;
          pd_nbits := pd_nbits pd; pd_moved := pd_moved pd - nbits;
          pd_refill := pd_refill pd |}.

(** "Normalize position indicator." *)
Definition pd_normalize pd : asn_bit_data K :=
  if 8 <=? pd_nboff pd then
    {| pd_buffer := drop (Z.to_nat (pd_nboff pd ≫ 3)) (pd_buffer pd);
       pd_nboff := Z.land (pd_nboff pd) 7;
       pd_nbits := pd_nbits pd - Z.land (pd_nboff pd) (Z.lnot 7);
       pd_moved := pd_moved pd; pd_refill := pd_refill pd |}
  else pd.

Definition pd_advance pd (n : Z) : asn_bit_data K :=
  {| pd_buffer := pd_buffer pd; pd_nboff := pd_nboff pd + n;
     pd_nbits := pd_nbits pd; pd_moved := pd_moved pd + n;
     pd_refill := pd_refill pd |}.

(** [fuel] bounds the recursion: two levels without a refill. *)
Fixpoint asn_get_few_bits (fuel : nat) pd (nbits : Z) : option (Z * asn_bit_data K) :=
  match fuel with
  | O => None
  | S fuel =>
    if nbits <? 0 then Some (-1, pd) else
    let nleft := pd_nbits pd - pd_nboff pd in
    if nleft <? nbits then
      match pd_refill pd with
      | None => Some (-1, pd)
      | Some k =>
        if 31 <? nbits then Some (-1, pd) else
        '(tailv, pd) ← asn_get_few_bits fuel pd nleft;
        if tailv <? 0 then Some (-1, pd) else
        let '(rc, pd) := refill k pd in
        if negb (rc =? 0) then Some (-1, pd) else
        let nbits := nbits - nleft in
        '(vhead, pd) ← asn_get_few_bits fuel pd nbits;
        Some (s32 (Z.lor (tailv ≪ nbits) vhead), pd)
      end
    else
      let pd := pd_advance (pd_normalize pd) nbits in
      let off := pd_nboff pd in
      let buf := pd_buffer pd in
      let finish accum := Some (s32 (Z.land accum (u32 (1 ≪ nbits) - 1)), pd) in
      if off <=? 8 then
        if nbits =? 0 then finish 0
        else b0 ← read buf 0; finish (b0 ≫ (8 - off))
      else if off <=? 16 then
        b0 ← read buf 0; b1 ← read buf 1;
        finish (((b0 ≪ 8) + b1) ≫ (16 - off))
      else if off <=? 24 then
        b0 ← read buf 0; b1 ← read buf 1; b2 ← read buf 2;
        finish (((b0 ≪ 16) + (b1 ≪ 8) + b2) ≫ (24 - off))
      else if off <=? 31 then
        b0 ← read buf 0; b1 ← read buf 1; b2 ← read buf 2; b3 ← read buf 3;
        finish (((b0 ≪ 24) + (b1 ≪ 16) + (b2 ≪ 8) + b3) ≫ (32 - off))
      else if nbits <=? 31 then
        let tpd := asn_get_undo pd nbits in
        '(hi, tpd) ← asn_get_few_bits fuel tpd (nbits - 24);
        '(lo, _) ← asn_get_few_bits fuel tpd 24;
        finish (Z.lor (u32 (hi ≪ 24)) (u32 lo))
      else Some (-1, asn_get_undo pd nbits)
  end.

(** The octets of the last, partial step of [asn_get_many_bits]. *)
Definition get_many_tail (value nbits : Z) : list Z :=
  let '(value, nbits, top) :=
    if negb (Z.land nbits 7 =? 0) then
      let value := s32 (value ≪ (8 - Z.land nbits 7)) in
      let nbits := nbits + (8 - Z.land nbits 7) in
      (value, nbits, if 24 <? nbits then [u8 (value ≫ 24)] else [])
    else (value, nbits, []) in
  top ++ (if 16 <? nbits then [u8 (value ≫ 16)] else [])
      ++ (if 8 <? nbits then [u8 (value ≫ 8)] else []) ++ [u8 value].

(** The [while(nbits)] loop: the octets stored through [dst] so far are
    [dst]; [asn_get_few_bits] runs with fuel [gf]. *)
Fixpoint get_many_loop (fuel gf : nat) pd (dst : list Z) (nbits : Z) :
    option (Z * list Z * asn_bit_data K) :=
  match fuel with
  | O => None
  | S fuel =>
    if nbits =? 0 then Some (0, dst, pd) else
    if 24 <=? nbits then
      '(value, pd) ← asn_get_few_bits gf pd 24;
      if value <? 0 then Some (-1, dst, pd) else
      get_many_loop fuel gf pd
        (dst ++ [u8 (value ≫ 16); u8 (value ≫ 8); u8 value]) (nbits - 24)
    else
      '(value, pd) ← asn_get_few_bits gf pd nbits;
      if value <? 0 then Some (-1, dst, pd) else
      Some (0, dst ++ get_many_tail value nbits, pd)
  end.

(** Return code, octets stored through [dst], new stream. *)
Definition asn_get_many_bits (gf : nat) pd (alright : bool) (nbits : Z) :
    option (Z * list Z * asn_bit_data K) :=
  if alright && negb (Z.land nbits 7 =? 0) then
    '(value, pd) ← asn_get_few_bits gf pd (Z.land nbits 7);
    if value <? 0 then Some (-1, [], pd) else
    let nbits := Z.land nbits (Z.lnot 7) in
    get_many_loop (S (Z.to_nat nbits)) gf pd [u8 value] nbits
  else get_many_loop (S (Z.to_nat nbits)) gf pd [] nbits.
End Reader.

(** ** The writer *)

(** [po_buffer] is the offset of [po->buffer] in [tmpspace] ([None]: a null
    pointer); [po_key] the state behind [op_key]. *)
Record asn_bit_outp (S : Type) := {
  po_buffer : option Z;
  po_nboff : Z;
  po_nbits : Z;
  po_tmpspace : list Z;
  po_key : S;
  po_flushed : Z
}.
Arguments Build_asn_bit_outp {S}.
Arguments po_buffer {S}.
Arguments po_nboff {S}.
Arguments po_nbits {S}.
Arguments po_tmpspace {S}.
Arguments po_key {S}.
Arguments po_flushed {S}.

Section Writer.
Context {S : Type} `{!Consumer S}.
Implicit Types po : asn_bit_outp S.

Definition po_normalize po : asn_bit_outp S :=
  if 8 <=? po_nboff po then
    {| po_buffer := (fun b => b + (po_nboff po ≫ 3)) <$> po_buffer po;
       po_nboff := Z.land (po_nboff po) 7;
       po_nbits := po_nbits po - Z.land (po_nboff po) (Z.lnot 7);
       po_tmpspace := po_tmpspace po; po_key := po_key po;
       po_flushed := po_flushed po |}
  else po.

(** "Flush whole-bytes output, if necessary."; the flag is false when the
    callback failed. *)
Definition po_make_room po (obits : Z) : option (bool * asn_bit_outp S) :=
  if po_nbits po <? po_nboff po + obits then
    let buffer := default 0 (po_buffer po) in
    let complete_bytes := buffer in
    let '(rc, key) := consume (take (Z.to_nat complete_bytes) (po_tmpspace po)) (po_key po) in
    if rc <? 0 then
      Some (false, {| po_buffer := Some buffer; po_nboff := po_nboff po;
                      po_nbits := po_nbits po; po_tmpspace := po_tmpspace po;
                      po_key := key; po_flushed := po_flushed po |})
    else
      tmp ← (if negb (po_nboff po =? 0) then
               b ← read (po_tmpspace po) buffer; store (po_tmpspace po) 0 b
             else Some (po_tmpspace po));
      Some (true, {| po_buffer := Some 0; po_nboff := po_nboff po;
                     po_nbits := 8 * 32; po_tmpspace := tmp; po_key := key;
                     po_flushed := po_flushed po + complete_bytes |})
  else Some (true, po).

Definition po_set po (nboff : Z) (tmp : list Z) : asn_bit_outp S :=
  {| po_buffer := po_buffer po; po_nboff := nboff; po_nbits := po_nbits po;
     po_tmpspace := tmp; po_key := po_key po; po_flushed := po_flushed po |}.

Fixpoint asn_put_few_bits (fuel : nat) po (bits obits : Z) : option (Z * asn_bit_outp S) :=
  match fuel with
  | O => None
  | Datatypes.S fuel =>
    if (obits <=? 0) || (32 <=? obits)
    then Some (if negb (obits =? 0) then -1 else 0, po) else
    '(ok, po) ← po_make_room (po_normalize po) obits;
    if negb ok then Some (-1, po) else
    buf ← po_buffer po;
    let omsk := Z.lnot ((1 ≪ (8 - po_nboff po)) - 1) in
    let off := po_nboff po + obits in
    let bits := Z.land bits (u32 (1 ≪ obits) - 1) in
    b0 ← read (po_tmpspace po) buf;
    if off <=? 8 then
      let bits := u32 (bits ≪ (8 - off)) in
      t ← store (po_tmpspace po) buf (Z.lor (Z.land b0 omsk) bits);
      Some (0, po_set po off t)
    else if off <=? 16 then
      let bits := u32 (bits ≪ (16 - off)) in
      t ← store (po_tmpspace po) buf (Z.lor (Z.land b0 omsk) (bits ≫ 8));
      t ← store t (buf + 1) bits;
      Some (0, po_set po off t)
    else if off <=? 24 then
      let bits := u32 (bits ≪ (24 - off)) in
      t ← store (po_tmpspace po) buf (Z.lor (Z.land b0 omsk) (bits ≫ 16));
      t ← store t (buf + 1) (bits ≫ 8);
      t ← store t (buf + 2) bits;
      Some (0, po_set po off t)
    else if off <=? 31 then
      let bits := u32 (bits ≪ (32 - off)) in
      t ← store (po_tmpspace po) buf (Z.lor (Z.land b0 omsk) (bits ≫ 24));
      t ← store t (buf + 1) (bits ≫ 16);
      t ← store t (buf + 2) (bits ≫ 8);
      t ← store t (buf + 3) bits;
      Some (0, po_set po off t)
    else
      '(rc, po) ← asn_put_few_bits fuel po (bits ≫ (obits - 24)) 24;
      if negb (rc =? 0) then Some (-1, po) else
      '(rc, po) ← asn_put_few_bits fuel po bits (obits - 24);
      if negb (rc =? 0) then Some (-1, po) else
      Some (0, po)
  end.

(** The [while(nbits)] loop, one step per 24 bits. *)
Fixpoint put_many_loop (fuel : nat) po (src : list Z) (nbits : Z) :
    option (Z * asn_bit_outp S) :=
  match fuel with
  | O => None
  | Datatypes.S fuel =>
    if nbits =? 0 then Some (0, po) else
    if 24 <=? nbits then
      b0 ← read src 0; b1 ← read src 1; b2 ← read src 2;
      let value := Z.lor (Z.lor (b0 ≪ 16) (b1 ≪ 8)) b2 in
      '(rc, po) ← asn_put_few_bits 3 po value 24;
      if negb (rc =? 0) then Some (-1, po)
      else put_many_loop fuel po (drop 3 src) (nbits - 24)
    else
      value ← read src 0;
      value ← (if 8 <? nbits then b1 ← read src 1; Some (Z.lor (value ≪ 8) b1)
               else Some value);
      value ← (if 16 <? nbits then b2 ← read src 2; Some (Z.lor (value ≪ 8) b2)
               else Some value);
      let value := if negb (Z.land nbits 7 =? 0)
                   then value ≫ (8 - Z.land nbits 7) else value in
      '(rc, po) ← asn_put_few_bits 3 po value nbits;
      if negb (rc =? 0) then Some (-1, po) else Some (0, po)
  end.

Definition asn_put_many_bits po (src : list Z) (nbits : Z) : option (Z * asn_bit_outp S) :=
  put_many_loop (Datatypes.S (Z.to_nat nbits)) po src nbits.

Definition asn_put_aligned_flush po : option (Z * asn_bit_outp S) :=
  let unused_bits := Z.land 7 (8 - Z.land (po_nboff po) 7) in
  let complete_bytes := default 0 (po_buffer po) + ((po_nboff po + 7) ≫ 3) in
  tmp ← (if negb (unused_bits =? 0) then
           buf ← po_buffer po;
           let i := buf + (po_nboff po ≫ 3) in
           b ← read (po_tmpspace po) i;
           store (po_tmpspace po) i (Z.land b (Z.lnot (2 ^ unused_bits - 1)))
         else Some (po_tmpspace po));
  let '(rc, key) := consume (take (Z.to_nat complete_bytes) tmp) (po_key po) in
  if rc <? 0 then
    Some (-1, {| po_buffer := po_buffer po; po_nboff := po_nboff po;
                 po_nbits := po_nbits po; po_tmpspace := tmp; po_key := key;
                 po_flushed := po_flushed po |})
  else
    Some (0, {| po_buffer := Some 0; po_nboff := 0; po_nbits := 8 * 32;
                po_tmpspace := tmp; po_key := key;
                po_flushed := po_flushed po + complete_bytes |}).
End Writer.

(** ** Specification of the reader: a list of remaining bits *)

Section ReaderSpec.
Context {K : Type} `{!Refill K}.
Implicit Types pd : asn_bit_data K.

Definition pd_wf pd : Prop :=
  0 <= pd_nboff pd <= pd_nbits pd /\
  pd_nbits pd <= 8 * Z.of_nat (length (pd_buffer pd)) /\ bytes_ok (pd_buffer pd).

Definition pd_left pd : Z := pd_nbits pd - pd_nboff pd.

(** Bits of the buffer past the end of the stream: constant along reads. *)
Definition pd_slack pd : Z := 8 * Z.of_nat (length (pd_buffer pd)) - pd_nbits pd.

Definition pd_bits pd : list bool :=
  take (Z.to_nat (pd_left pd)) (drop (Z.to_nat (pd_nboff pd)) (bytes_bits (pd_buffer pd))).

Lemma length_pd_bits pd : pd_wf pd -> Z.of_nat (length (pd_bits pd)) = pd_left pd.
Proof.
  intros (? & ? & ?). unfold pd_bits, pd_left.
  rewrite length_take, length_drop, length_bytes_bits. lia.
Qed.

Lemma pd_normalize_spec pd : pd_wf pd ->
  let pd' := pd_normalize pd in
  pd_wf pd' /\ pd_nboff pd' <= 7 /\ pd_bits pd' = pd_bits pd /\
  pd_left pd' = pd_left pd /\ pd_moved pd' = pd_moved pd /\
  pd_refill pd' = pd_refill pd /\ pd_slack pd' = pd_slack pd.
Proof.
  intros (Ho & Hn & Hb). unfold pd_normalize.
  destruct (Z.leb_spec 8 (pd_nboff pd)) as [H8|H8].
  2: { repeat split; auto; lia. }
  set (o := pd_nboff pd) in *. set (q := o ≫ 3).
  assert (Hq : o = 8 * q + Z.land o 7 /\ 0 <= Z.land o 7 < 8).
  { unfold q. rewrite shiftr_div by lia. change 7 with (2 ^ 3 - 1).
    rewrite land_ones_mod by lia. change (2 ^ 3) with 8.
    split; [apply Z.div_mod; lia|apply Z.mod_pos_bound; lia]. }
  assert (Hc : Z.land o (Z.lnot 7) = 8 * q).
  { change 7 with (2 ^ 3 - 1). rewrite land_clear_low, shiftl_mul by lia. fold q. lia. }
  cbn. unfold pd_wf, pd_bits, pd_left, pd_slack. cbn. rewrite Hc, length_drop.
  repeat split; try lia; [by apply bytes_ok_drop|].
  fold o. rewrite <- drop_bytes_bits, drop_drop. f_equal; [lia|f_equal; lia].
Qed.

(** [n] bits read from [pd] leave [pd']. *)
Definition pd_read pd (n : Z) pd' : Prop :=
  pd_wf pd' /\ pd_bits pd' = drop (Z.to_nat n) (pd_bits pd) /\
  pd_left pd' = pd_left pd - n /\ pd_moved pd' = pd_moved pd + n /\
  pd_refill pd' = pd_refill pd /\ pd_slack pd' = pd_slack pd.

Lemma pd_read_trans pd1 n pd2 m pd3 : 0 <= n -> 0 <= m ->
  pd_read pd1 n pd2 -> pd_read pd2 m pd3 -> pd_read pd1 (n + m) pd3.
Proof.
  intros Hn Hm (_ & Hb & Hl & Hv & Hr & Hs) (Hw & Hb' & Hl' & Hv' & Hr' & Hs').
  split_and!; try done; try lia; try congruence.
  rewrite Hb', Hb, drop_drop. f_equal. lia.
Qed.

Lemma pd_advance_spec pd n : pd_wf pd -> 0 <= n <= pd_left pd ->
  pd_read pd n (pd_advance pd n).
Proof.
  intros (Ho & Hn & Hb) Hle. unfold pd_read, pd_advance, pd_wf, pd_bits, pd_left, pd_slack in *. cbn.
  split_and!; auto; try lia.
  rewrite skipn_firstn_comm, drop_drop. f_equal; [lia|f_equal; lia].
Qed.

(** The accumulator of the byte-wise branches: the [8 * k] bits from
    [buf[0]], shifted right to the last requested bit and masked. *)
Lemma accum_bits pd n k accum : pd_wf pd -> pd_nboff pd <= 7 ->
  0 <= n <= 31 -> n <= pd_left pd -> pd_nboff pd + n <= 8 * Z.of_nat k ->
  (k <= length (pd_buffer pd))%nat ->
  accum = be_val (take k (pd_buffer pd)) ->
  s32 (Z.land (accum ≫ (8 * Z.of_nat k - (pd_nboff pd + n))) (u32 (1 ≪ n) - 1)) =
  bits_val (take (Z.to_nat n) (pd_bits pd)).
Proof.
  intros (Ho & Hn & Hb) H7 Hn31 Hleft Hk Hlen ->.
  pose proof (pow2_pos n ltac:(lia)).
  assert (Hu : u32 (1 ≪ n) = 2 ^ n).
  { unfold u32. rewrite Z.shiftl_1_l. apply Z.mod_small.
    split; [lia|]. apply Z.pow_lt_mono_r; lia. }
  rewrite Hu, land_ones_mod, shiftr_div by lia.
  rewrite s32_small.
  2: { pose proof (mod_pow2_bounds (be_val (take k (pd_buffer pd))
         / 2 ^ (8 * Z.of_nat k - (pd_nboff pd + n))) n ltac:(lia)).
       assert (2 ^ n <= 2 ^ 31) by (apply Z.pow_le_mono_r; lia). lia. }
  unfold pd_bits. rewrite take_take, Nat.min_l by (unfold pd_left in *; lia).
  rewrite (take_drop_bytes_bits _ _ k) by lia.
  assert (Hl : length (bytes_bits (take k (pd_buffer pd))) = (8 * k)%nat)
    by (rewrite length_bytes_bits, length_take; lia).
  rewrite bits_val_slice by lia.
  rewrite <- be_val_bits, Hl by by apply bytes_ok_take.
  do 2 f_equal; [|lia..]. f_equal. lia.
Qed.

(** One byte-wise branch: read [k] octets, then [accum_bits]. *)
Ltac by_bytes k :=
  lazymatch goal with
  | Hacc : forall k a, _ -> _ -> a = be_val (take k ?buf) -> _, Hn : _ <= 8 * Z.of_nat (length ?buf) |- _ =>
    repeat (destruct buf as [|? buf]; [cbn [length] in Hn; lia|]);
    rewrite ?read_0, ?read_1, ?read_2, ?read_3; cbn [mbind option_bind];
    rewrite <- (Hacc k _ ltac:(lia) ltac:(cbn [length]; lia) eq_refl);
    do 5 f_equal; rewrite ?firstn_cons, ?take_0; cbn [be_val length]; rewrite ?shiftl_mul by lia; cbn; lia
  end.

(** The postcondition of a successful [asn_get_few_bits]. *)
Definition got_bits pd (n : Z) (r : option (Z * asn_bit_data K)) : Prop :=
  exists pd', r = Some (bits_val (take (Z.to_nat n) (pd_bits pd)), pd') /\
    pd_read pd n pd'.

Lemma normalize_advance pd n : pd_wf pd -> 0 <= n <= pd_left pd ->
  pd_read pd n (pd_advance (pd_normalize pd) n).
Proof.
  intros Hwf Hle.
  destruct (pd_normalize_spec pd Hwf) as (Hwf1 & H7 & Hb1 & Hl1 & Hm1 & Hr1 & Hs1).
  destruct (pd_advance_spec (pd_normalize pd) n Hwf1) as (Hwf2 & Hb2 & Hl2 & Hm2 & Hr2 & Hs2);
    [lia|].
  unfold pd_read. rewrite Hb2, Hl2, Hm2, Hr2, Hs2, Hb1, Hl1, Hm1, Hr1, Hs1.
  by split_and!.
Qed.

Lemma get_few_direct fuel pd n : pd_wf pd -> 0 <= n <= 31 -> n <= pd_left pd ->
  pd_nboff (pd_normalize pd) + n <= 31 ->
  got_bits pd n (asn_get_few_bits (S fuel) pd n).
Proof.
  intros Hwf Hn Hle H31.
  destruct (pd_normalize_spec pd Hwf) as (Hwf1 & H7 & Hb1 & Hl1 & Hm1 & Hr1 & Hs1).
  pose proof (normalize_advance pd n Hwf ltac:(lia)) as Hpost.
  cbn [asn_get_few_bits].
  destruct (Z.ltb_spec n 0); [lia|].
  destruct (Z.ltb_spec (pd_nbits pd - pd_nboff pd) n); [unfold pd_left in *; lia|].
  exists (pd_advance (pd_normalize pd) n). split; [|exact Hpost].
  pose proof Hwf1 as (Ho & Hnb & Hok). rewrite <- Hl1 in Hle.
  pose proof (fun k a => accum_bits (pd_normalize pd) n k a Hwf1 H7 Hn Hle) as Hacc.
  rewrite <- Hb1. unfold pd_left in Hle. cbn [pd_advance pd_nboff pd_buffer].
  set (buf := pd_buffer (pd_normalize pd)) in *.
  set (o := pd_nboff (pd_normalize pd)) in *.
  clearbody buf. destruct (Z.eqb_spec n 0) as [->|Hn0]; [zcases; done|].
  destruct (Z.leb_spec (o + n) 8); [by_bytes 1%nat|].
  destruct (Z.leb_spec (o + n) 16); [by_bytes 2%nat|].
  destruct (Z.leb_spec (o + n) 24); [by_bytes 3%nat|].
  destruct (Z.leb_spec (o + n) 31); [by_bytes 4%nat|lia].
Qed.

Lemma asn_get_undo_advance pd n : 0 <= pd_nboff pd ->
  asn_get_undo (pd_advance pd n) n = pd.
Proof.
  intros. unfold asn_get_undo, pd_advance. cbn.
  destruct (Z.ltb_spec (pd_nboff pd + n) n); [lia|].
  destruct pd; cbn. f_equal; lia.
Qed.

(** Gluing a read of [n - 24] bits to a read of 24 bits. *)
Lemma join_words x y n : 24 <= n <= 31 -> 0 <= x < 2 ^ (n - 24) -> 0 <= y < 2 ^ 24 ->
  s32 (Z.land (Z.lor (u32 (x ≪ 24)) (u32 y)) (u32 (1 ≪ n) - 1)) = x * 2 ^ 24 + y.
Proof.
  intros Hn Hx Hy.
  assert (2 ^ (n - 24) <= 2 ^ 7) by (apply Z.pow_le_mono_r; lia).
  assert (2 ^ n <= 2 ^ 31) by (apply Z.pow_le_mono_r; lia).
  assert (Hsum : 0 <= x * 2 ^ 24 + y < 2 ^ n).
  { replace n with (n - 24 + 24) by lia. rewrite pow2_split by lia. nia. }
  unfold u32. rewrite shiftl_mul, Z.shiftl_1_l by lia.
  rewrite (Z.mod_small (x * _)), (Z.mod_small y), (Z.mod_small (2 ^ n)).
  2-4: change (2 ^ 7) with 128 in *; lia.
  rewrite <- shiftl_mul, lor_shiftl_add, land_ones_mod, Z.mod_small by lia.
  rewrite shiftl_mul by lia. apply s32_small. lia.
Qed.

Lemma pd_normalize_id pd : pd_nboff pd <= 7 -> pd_normalize pd = pd.
Proof. intros. unfold pd_normalize. destruct (Z.leb_spec 8 (pd_nboff pd)); [lia|done]. Qed.

Lemma bits_val_take_add a b (bs : list bool) : (a + b <= length bs)%nat ->
  bits_val (take (a + b) bs) =
  bits_val (take a bs) * 2 ^ Z.of_nat b + bits_val (take b (drop a bs)).
Proof.
  intros. rewrite <- (take_drop a (take (a + b) bs)), bits_val_app.
  rewrite take_take, Nat.min_l, <- take_drop_commute, length_take, length_drop by lia.
  do 3 f_equal. lia.
Qed.

(** The two-step branch ([off >= 32]): a short read, then a 24-bit read. *)
Lemma get_few_split fuel pd n : pd_wf pd -> 0 <= n <= 31 -> n <= pd_left pd ->
  31 < pd_nboff (pd_normalize pd) + n ->
  got_bits pd n (asn_get_few_bits (S (S fuel)) pd n).
Proof.
  intros Hwf Hn Hle H31.
  destruct (pd_normalize_spec pd Hwf) as (Hwf1 & H7 & Hb1 & Hl1 & Hm1 & Hr1 & Hs1).
  pose proof (normalize_advance pd n Hwf ltac:(lia)) as Hpost.
  remember (S fuel) as f eqn:Hf. cbn [asn_get_few_bits].
  destruct (Z.ltb_spec n 0); [lia|].
  destruct (Z.ltb_spec (pd_nbits pd - pd_nboff pd) n); [unfold pd_left in *; lia|].
  cbn [pd_advance pd_nboff]. zcases.
  fold (pd_advance (pd_normalize pd) n).
  rewrite asn_get_undo_advance by apply Hwf1.
  destruct (get_few_direct fuel (pd_normalize pd) (n - 24)) as (tpd & Hg1 & Hw1 & Ht1 & Htl1 & _);
    [done|lia|lia|rewrite pd_normalize_id by lia; lia|].
  destruct (get_few_direct fuel tpd 24) as (tpd2 & Hg2 & _); [done|lia|lia| |].
  { destruct (pd_normalize_spec tpd Hw1) as (_ & ? & _). lia. }
  rewrite Hf, Hg1. cbn [mbind option_bind]. rewrite Hg2. cbn [mbind option_bind].
  exists (pd_advance (pd_normalize pd) n). split; [|exact Hpost].
  do 2 f_equal. rewrite Ht1, Hb1.
  pose proof (length_pd_bits pd Hwf) as Hlen. set (bs := pd_bits pd) in *.
  pose proof (bits_val_bound (take (Z.to_nat (n - 24)) bs)) as Hbx.
  pose proof (bits_val_bound (take (Z.to_nat 24) (drop (Z.to_nat (n - 24)) bs))) as Hby.
  rewrite length_take, Nat.min_l, Z2Nat.id in Hbx by lia.
  rewrite length_take, length_drop, Nat.min_l, Z2Nat.id in Hby by lia.
  rewrite join_words by lia.
  replace (Z.to_nat n) with (Z.to_nat (n - 24) + Z.to_nat 24)%nat by lia.
  rewrite bits_val_take_add by lia. done.
Qed.

Lemma get_few_ok fuel pd n : pd_wf pd -> 0 <= n <= 31 -> n <= pd_left pd ->
  got_bits pd n (asn_get_few_bits (S (S fuel)) pd n).
Proof.
  intros. destruct (Z.leb_spec (pd_nboff (pd_normalize pd) + n) 31).
  - by apply get_few_direct.
  - by apply get_few_split.
Qed.

(** End of data without a refill: -1 and an untouched stream. *)
Lemma get_few_short fuel pd n : pd_refill pd = None -> 0 <= n -> pd_left pd < n ->
  asn_get_few_bits (S fuel) pd n = Some (-1, pd).
Proof.
  intros Hr Hn Hlt. cbn [asn_get_few_bits]. unfold pd_left in Hlt. rewrite Hr. zcases; done.
Qed.

(** The left-aligned last octets are the big-endian bytes of the value
    shifted up to an octet boundary. *)
Lemma get_many_tail_be value n : 0 < n < 24 -> 0 <= value < 2 ^ n ->
  get_many_tail value n =
  be_bytes (Z.to_nat ((n + 7) / 8)) (value ≪ (8 * ((n + 7) / 8) - n)).
Proof.
  intros Hn Hv.
  assert (Hs : forall p, 0 <= p <= 7 -> n + p <= 24 -> s32 (value ≪ p) = value ≪ p).
  { intros p ??. apply s32_small. rewrite shiftl_mul by lia.
    assert (2 ^ n * 2 ^ p <= 2 ^ 24)
      by (rewrite <- pow2_split by lia; apply Z.pow_le_mono_r; lia).
    pose proof (pow2_pos p). nia. }
  assert (Hc : n ∈ ((fun i => Z.of_nat i) <$> seq 1 23)).
  { apply list_elem_of_fmap. exists (Z.to_nat n). rewrite elem_of_seq. lia. }
  unfold get_many_tail. cbn in Hc.
  repeat (apply elem_of_cons in Hc as [->|Hc]; [cbv -[s32 u8 Z.shiftl Z.shiftr];
    rewrite ?Hs by lia; rewrite ?Z.shiftl_0_r, ?Z.shiftr_0_r; reflexivity|]).
  by apply not_elem_of_nil in Hc.
Qed.

Lemma val_bits_low_zero p v : val_bits p (v ≪ Z.of_nat p) = replicate p false.
Proof.
  assert (H : forall m, (m <= p)%nat -> val_bits m (v ≪ Z.of_nat p) = replicate m false).
  { induction m as [|m IH]; intros; [done|]. cbn [val_bits replicate].
    rewrite IH, Z.shiftl_spec_low by lia. done. }
  by apply H.
Qed.

Lemma get_many_tail_bits bs : (0 < length bs < 24)%nat ->
  bytes_ok (get_many_tail (bits_val bs) (Z.of_nat (length bs))) /\
  bytes_bits (get_many_tail (bits_val bs) (Z.of_nat (length bs))) =
  bs ++ replicate (Z.to_nat (- Z.of_nat (length bs) mod 8)) false.
Proof.
  intros Hl. set (n := Z.of_nat (length bs)).
  rewrite get_many_tail_be; [|lia|apply bits_val_bound].
  split; [apply be_bytes_ok|]. rewrite bytes_bits_be_bytes.
  set (k := (n + 7) / 8). set (p := 8 * k - n).
  assert (Hp : 0 <= p < 8) by (unfold p, k; Z.div_mod_to_equations; lia).
  replace (- n mod 8) with p by (unfold p, k; Z.div_mod_to_equations; lia).
  replace (8 * Z.to_nat k)%nat with (length bs + Z.to_nat p)%nat by lia.
  rewrite val_bits_app. replace (Z.of_nat (Z.to_nat p)) with p by lia.
  rewrite Z.shiftr_shiftl_l, Z.sub_diag, Z.shiftl_0_r, val_bits_bits_val by lia.
  f_equal. replace p with (Z.of_nat (Z.to_nat p)) at 2 by lia. apply val_bits_low_zero.
Qed.

(** Bits padded with zeros to an octet boundary. *)
Definition pad8 (bs : list bool) : list bool :=
  bs ++ replicate (Z.to_nat (- Z.of_nat (length bs) mod 8)) false.

Definition got_octets pd (dst : list Z) (n : Z)
    (r : option (Z * list Z * asn_bit_data K)) : Prop :=
  exists octets pd', r = Some (0, dst ++ octets, pd') /\ bytes_ok octets /\
    bytes_bits octets = pad8 (take (Z.to_nat n) (pd_bits pd)) /\
    pd_read pd n pd'.

Lemma three_bytes v : 0 <= v -> [u8 (v ≫ 16); u8 (v ≫ 8); u8 v] = be_bytes 3 v.
Proof. intros. cbn. by rewrite Z.shiftr_0_r. Qed.

Lemma get_many_loop_ok fuel gf pd dst n :
  pd_wf pd -> 0 <= n <= pd_left pd -> (Z.to_nat n < fuel)%nat ->
  got_octets pd dst n (get_many_loop fuel (S (S gf)) pd dst n).
Proof.
  revert pd dst n. induction fuel as [|fuel IH]; intros pd dst n Hwf Hn Hf; [lia|].
  cbn [get_many_loop]. pose proof (length_pd_bits pd Hwf) as Hlen.
  destruct (Z.eqb_spec n 0) as [->|Hn0].
  { exists [], pd. rewrite app_nil_r. split_and!; auto with bytes. split_and!; by rewrite ?Z.sub_0_r, ?Z.add_0_r. }
  destruct (Z.leb_spec 24 n) as [H24|H24].
  - destruct (get_few_ok gf pd 24) as (pd1 & -> & Hrd); [done|lia..|].
    cbn [mbind option_bind]. pose proof Hrd as (Hw1 & Hb1 & Hl1 & _).
    pose proof (bits_val_bound (take (Z.to_nat 24) (pd_bits pd))) as Hbv.
    rewrite length_take, Nat.min_l in Hbv by lia.
    zcase. rewrite three_bytes by lia.
    set (v := bits_val _) in *.
    destruct (IH pd1 (dst ++ be_bytes 3 v) (n - 24)) as (oct & pd2 & -> & Hok & Hbits & Hrd2);
      [done|lia|lia|].
    exists (be_bytes 3 v ++ oct), pd2. rewrite <- app_assoc.
    split_and!; [done|auto with bytes| |].
    2: { replace n with (24 + (n - 24)) by lia. by apply (pd_read_trans pd 24 pd1); try lia. }
    rewrite bytes_bits_app, bytes_bits_be_bytes, Hbits, Hb1. unfold v, pad8.
    change (8 * 3)%nat with (Z.to_nat 24).
    rewrite <- (length_take_le (pd_bits pd) (Z.to_nat 24)) at 1 by lia.
    rewrite val_bits_bits_val, app_assoc. f_equal.
    + rewrite <- (take_drop (Z.to_nat 24) (take (Z.to_nat n) (pd_bits pd))).
      rewrite take_take, Nat.min_l, take_drop_commute by lia. do 4 f_equal. lia.
    + f_equal. rewrite !length_take, length_drop. f_equal. Z.div_mod_to_equations; lia.
  - destruct (get_few_ok gf pd n) as (pd1 & -> & Hrd); [done|lia..|].
    cbn [mbind option_bind].
    set (bs := take (Z.to_nat n) (pd_bits pd)) in *.
    assert (Hbs : Z.of_nat (length bs) = n) by (unfold bs; rewrite length_take; lia).
    pose proof (bits_val_bound bs). zcase.
    destruct (get_many_tail_bits bs) as [Hok Hbits]; [lia|]. rewrite Hbs in *.
    exists (get_many_tail (bits_val bs) n), pd1. unfold pad8. fold bs. rewrite Hbs.
    by split_and!.
Qed.

(** [asn_get_many_bits], left aligned. *)
Lemma get_many_ok gf pd n : pd_wf pd -> 0 <= n <= pd_left pd ->
  got_octets pd [] n (asn_get_many_bits (S (S gf)) pd false n).
Proof. intros. unfold asn_get_many_bits. cbn [andb]. apply get_many_loop_ok; lia || done. Qed.
End ReaderSpec.

(** ** Specification of the writer: a list of emitted bits *)

(** The [k] octets that hold the kept top [o] bits of [b0] followed by the
    [n] bits of [v], left aligned. *)
Definition merged (k : nat) (b0 o v n : Z) : Z :=
  (b0 ≫ (8 - o)) * 2 ^ (8 * Z.of_nat k - o) + v * 2 ^ (8 * Z.of_nat k - (o + n)).

Lemma merged_bits k b0 o v n : 0 <= o <= 7 -> 0 <= n -> 0 <= v < 2 ^ n ->
  o + n <= 8 * Z.of_nat k ->
  take (Z.to_nat (o + n)) (val_bits (8 * k) (merged k b0 o v n)) =
  take (Z.to_nat o) (byte_bits b0) ++ val_bits (Z.to_nat n) v.
Proof.
  intros Ho Hn Hv Hk. rewrite take_val_bits by lia.
  unfold byte_bits. rewrite take_val_bits by lia.
  replace (Z.to_nat (o + n)) with (Z.to_nat o + Z.to_nat n)%nat by lia.
  rewrite val_bits_app. unfold merged.
  rewrite shiftr_add_high by lia.
  rewrite (shiftr_div (v * _)) by lia.
  replace (2 ^ Z.of_nat (8 * k - _)) with (2 ^ (8 * Z.of_nat k - (o + n))) by (f_equal; lia).
  rewrite Z.div_mul by (pose proof (pow2_pos (8 * Z.of_nat k - (o + n))); lia).
  set (h := b0 ≫ (8 - o)).
  replace (h * 2 ^ _ + v) with (h * 2 ^ Z.of_nat (Z.to_nat n) + v).
  2: { do 3 f_equal. lia. }
  rewrite val_bits_high_add by lia. f_equal.
  rewrite shiftr_add_high, Z.sub_diag, Z.mul_1_r, shiftr_div by lia.
  rewrite Z.div_small by (rewrite Z2Nat.id; lia).
  unfold h. rewrite Z.add_0_r. do 2 f_equal. lia.
Qed.

(** The first octet as the C code computes it. *)
Lemma merged_top k b0 o v n : 0 <= o <= 7 -> 0 <= n -> 0 <= v < 2 ^ n ->
  o + n <= 8 * Z.of_nat k -> (0 < k)%nat ->
  Z.lor (Z.land b0 (Z.lnot ((1 ≪ (8 - o)) - 1)))
        ((v ≪ (8 * Z.of_nat k - (o + n))) ≫ (8 * Z.of_nat (k - 1))) =
  merged k b0 o v n ≫ (8 * Z.of_nat (k - 1)).
Proof.
  intros Ho Hn Hv Hk Hk0. unfold merged.
  rewrite Z.shiftl_1_l, land_clear_low by lia.
  rewrite shiftr_add_high by lia. rewrite <- shiftl_mul by lia.
  rewrite lor_shiftl_add; [|lia|].
  - rewrite !shiftl_mul by lia. do 3 f_equal. lia.
  - rewrite shiftr_div, shiftl_mul by lia.
    pose proof (pow2_pos (8 * Z.of_nat k - (o + n)) ltac:(lia)).
    split; [apply Z.div_pos; [nia|apply pow2_pos; lia]|].
    apply Z.div_lt_upper_bound; [apply pow2_pos; lia|].
    rewrite <- pow2_split by lia.
    replace (8 * Z.of_nat (k - 1) + (8 - o)) with (n + (8 * Z.of_nat k - (o + n))) by lia.
    rewrite pow2_split by lia. nia.
Qed.

(** The other octets. *)
Lemma merged_low k b0 o v n i : 0 <= o <= 7 -> 0 <= n ->
  o + n <= 8 * Z.of_nat k -> 0 <= i < Z.of_nat k - 1 ->
  u8 (merged k b0 o v n ≫ (8 * i)) = u8 ((v ≪ (8 * Z.of_nat k - (o + n))) ≫ (8 * i)).
Proof.
  intros. unfold merged. rewrite shiftr_add_high by lia.
  rewrite u8_add_high by lia. by rewrite shiftl_mul by lia.
Qed.

Section WriterSpec.
Context {S : Type} `{HC : Consumer S} `{HA : !AppendConsumer S}.
Implicit Types po : asn_bit_outp S.

(** [b] is the offset of [po->buffer] in [tmpspace]. *)
Definition po_wf_at po (b : Z) : Prop :=
  po_buffer po = Some b /\ 0 <= b /\ length (po_tmpspace po) = 32%nat /\
  bytes_ok (po_tmpspace po) /\ 0 <= po_nboff po <= po_nbits po /\
  po_nbits po = 256 - 8 * b /\ bytes_ok (written (po_key po)) /\
  po_flushed po = Z.of_nat (length (written (po_key po))).
Definition po_wf po : Prop := exists b, po_wf_at po b.

(** [po_flushed] counts the octets handed to the callback, so the encoders
    start with a callback that has none. *)

(** Every bit put so far: the octets already handed to the callback, then the
    pending ones of [tmpspace]. *)
Definition po_bits po : list bool :=
  bytes_bits (written (po_key po)) ++
  take (Z.to_nat (8 * default 0 (po_buffer po) + po_nboff po)) (bytes_bits (po_tmpspace po)).

Definition put_bits po (bs : list bool) (r : option (Z * asn_bit_outp S)) : Prop :=
  exists po', r = Some (0, po') /\ po_wf po' /\ po_bits po' = po_bits po ++ bs.

Lemma po_normalize_spec po : po_wf po ->
  po_wf (po_normalize po) /\ 0 <= po_nboff (po_normalize po) <= 7 /\
  po_bits (po_normalize po) = po_bits po.
Proof.
  intros (b & Hb & Hb0 & Hl & Hok & Ho & Hn & Hwk & Hfl). unfold po_normalize.
  destruct (Z.leb_spec 8 (po_nboff po)) as [H8|H8].
  2: { split_and!; try lia; [|done]. by exists b. }
  set (o := po_nboff po) in *.
  assert (Hq : o = 8 * (o ≫ 3) + Z.land o 7 /\ 0 <= Z.land o 7 < 8).
  { rewrite shiftr_div by lia. change 7 with (2 ^ 3 - 1).
    rewrite land_ones_mod by lia. change (2 ^ 3) with 8.
    split; [apply Z.div_mod; lia|apply Z.mod_pos_bound; lia]. }
  assert (Hc : Z.land o (Z.lnot 7) = 8 * (o ≫ 3)).
  { change 7 with (2 ^ 3 - 1). rewrite land_clear_low, shiftl_mul by lia. lia. }
  split_and!; cbn; try lia.
  - exists (b + (o ≫ 3)). unfold po_wf_at. cbn. rewrite Hb, Hc. cbn. split_and!; try done; lia.
  - unfold po_bits. cbn. rewrite Hb. cbn. fold o. do 3 f_equal. lia.
Qed.

(** Splitting [tmpspace] at [po->buffer]. *)
Lemma pending_split tmp b o : 0 <= b -> 0 <= o -> 8 * b + o <= 8 * Z.of_nat (length tmp) ->
  take (Z.to_nat (8 * b + o)) (bytes_bits tmp) =
  bytes_bits (take (Z.to_nat b) tmp) ++
  take (Z.to_nat o) (bytes_bits (drop (Z.to_nat b) tmp)).
Proof.
  intros. rewrite <- (take_drop (Z.to_nat b) tmp) at 1.
  rewrite bytes_bits_app, take_app_ge.
  - f_equal. f_equal. rewrite length_bytes_bits, length_take. lia.
  - rewrite length_bytes_bits, length_take. lia.
Qed.

Lemma po_make_room_spec po n : po_wf po -> po_nboff po <= 7 -> 0 < n <= 31 ->
  exists po', po_make_room po n = Some (true, po') /\ po_wf po' /\
    po_nboff po' = po_nboff po /\ po_nboff po + n <= po_nbits po' /\ po_bits po' = po_bits po.
Proof.
  intros (b & Hb & Hb0 & Hl & Hok & Ho & Hn & Hwk & Hfl) H7 Hn31. unfold po_make_room.
  destruct (Z.ltb_spec (po_nbits po) (po_nboff po + n)) as [Hlt|Hge].
  2: { exists po. split_and!; try done. by exists b. }
  rewrite Hb. cbn [default from_option id].
  destruct (consume_append (take (Z.to_nat b) (po_tmpspace po)) (po_key po)) as (key & -> & Hw).
  cbn [Z.ltb Z.compare].
  pose proof (pending_split (po_tmpspace po) b (po_nboff po) ltac:(lia) ltac:(lia) ltac:(lia)) as Hp.
  unfold po_bits at 2. rewrite Hb. cbn [default from_option id]. rewrite Hp.
  destruct (Z.eqb_spec (po_nboff po) 0) as [H0|H0]; cbn [negb mbind option_bind].
  - eexists. split_and!; [reflexivity|..]; cbn [po_nboff po_nbits].
    + exists 0. unfold po_wf_at. cbn. rewrite Hw. split_and!; auto with bytes; try lia.
      rewrite length_app, length_take. lia.
    + done.
    + lia.
    + unfold po_bits. cbn [po_key po_buffer po_nboff po_tmpspace default from_option id].
      by rewrite Hw, bytes_bits_app, H0, app_assoc, !app_nil_r.
  - destruct (drop (Z.to_nat b) (po_tmpspace po)) as [|x l] eqn:Ed.
    { apply (f_equal length) in Ed. rewrite length_drop, Hl in Ed. cbn in Ed. lia. }
    assert (Hx : read (po_tmpspace po) b = Some x).
    { rewrite <- (take_drop (Z.to_nat b) (po_tmpspace po)), Ed.
      apply read_app. rewrite length_take. lia. }
    rewrite Hx. cbn [mbind option_bind]. rewrite store_Some by lia.
    eexists. split_and!; [reflexivity|..]; cbn [po_nboff po_nbits].
    + exists 0. unfold po_wf_at. cbn. rewrite length_insert, Hw. split_and!; auto with bytes; try lia.
      rewrite length_app, length_take. lia.
    + done.
    + lia.
    + unfold po_bits. cbn [po_key po_buffer po_nboff po_tmpspace default from_option id].
      rewrite Hw, bytes_bits_app, <- app_assoc. do 2 f_equal.
      destruct (po_tmpspace po) as [|y tmp]; [done|].
      change (<[Z.to_nat 0:=u8 x]> (y :: tmp)) with (u8 x :: tmp).
      rewrite !bytes_bits_cons, byte_bits_u8, Z.mul_0_r, Z.add_0_l.
      rewrite !take_app_le by (rewrite length_byte_bits; lia). done.
Qed.

(** What the byte-wise branches establish once [k] octets from [po->buffer]
    hold the merged value. *)
Lemma put_merged po b k x l n v t : po_wf_at po b -> po_nboff po <= 7 ->
  0 <= n -> 0 <= v < 2 ^ n -> po_nboff po + n <= po_nbits po ->
  po_nboff po + n <= 8 * Z.of_nat k ->
  drop (Z.to_nat b) (po_tmpspace po) = x :: l -> (0 < k <= Datatypes.S (length l))%nat ->
  t = take (Z.to_nat b) (po_tmpspace po) ++
      be_bytes k (merged k x (po_nboff po) v n) ++ drop (k - 1) l ->
  put_bits po (val_bits (Z.to_nat n) v) (Some (0, po_set po (po_nboff po + n) t)).
Proof.
  intros (Hb & Hb0 & Hl & Hok & Ho & Hnb & Hwk & Hfl) H7 Hn Hv Hfit Hk Hd Hlen ->.
  set (pre := take (Z.to_nat b) (po_tmpspace po)).
  assert (Hpre : length pre = Z.to_nat b) by (unfold pre; rewrite length_take; lia).
  assert (Hll : (Z.to_nat b + Datatypes.S (length l) = 32)%nat).
  { apply (f_equal length) in Hd. rewrite length_drop, Hl in Hd. cbn [length] in Hd. lia. }
  assert (Hokl : bytes_ok l).
  { apply (bytes_ok_drop _ (Z.to_nat b)) in Hok. rewrite Hd in Hok. by inversion Hok. }
  eexists. split_and!; [reflexivity|..].
  - exists b. unfold po_wf_at, po_set. cbn. split_and!; try done; try lia.
    + rewrite !length_app, length_be_bytes, length_drop. lia.
    + unfold pre. auto 6 with bytes.
  - unfold po_bits, po_set. cbn [po_key po_buffer po_nboff po_tmpspace]. rewrite Hb.
    cbn [default from_option id].
    rewrite <- app_assoc. f_equal.
    rewrite (pending_split (po_tmpspace po)), Hd by lia.
    rewrite pending_split; [|lia..|].
    2: { rewrite !length_app, length_be_bytes, length_drop. lia. }
    rewrite take_app_le, take_ge, drop_app_ge by lia.
    rewrite Hpre, Nat.sub_diag, drop_0, <- app_assoc. fold pre. f_equal.
    rewrite bytes_bits_app, bytes_bits_be_bytes.
    rewrite take_app_le by (rewrite length_val_bits; lia).
    rewrite merged_bits by lia. rewrite bytes_bits_cons.
    by rewrite take_app_le by (rewrite length_byte_bits; lia).
Qed.

Lemma u32_shiftl v p n : 0 <= v < 2 ^ n -> 0 <= p -> 0 <= n -> n + p <= 32 -> u32 (v ≪ p) = v ≪ p.
Proof.
  intros Hv Hp Hn Hle. unfold u32. apply Z.mod_small. rewrite shiftl_mul by lia.
  assert (2 ^ n * 2 ^ p <= 2 ^ 32)
    by (rewrite <- pow2_split by lia; apply Z.pow_le_mono_r; lia).
  pose proof (pow2_pos p). nia.
Qed.

Lemma mask_obits v n : 0 <= n <= 31 -> Z.land v (u32 (1 ≪ n) - 1) = v mod 2 ^ n.
Proof.
  intros. unfold u32. rewrite Z.shiftl_1_l, Z.mod_small; [by apply land_ones_mod; lia|].
  pose proof (pow2_pos n). split; [lia|]. apply Z.pow_lt_mono_r; lia.
Qed.

(** The octets the byte-wise branches store are those of the merged value. *)
Lemma merged_bytes k b0 o v n w : 0 <= o <= 7 -> 0 <= n -> 0 <= v < 2 ^ n ->
  o + n <= 8 * Z.of_nat k -> (0 < k)%nat -> w = v ≪ (8 * Z.of_nat k - (o + n)) ->
  be_bytes k (merged k b0 o v n) =
  u8 (Z.lor (Z.land b0 (Z.lnot ((1 ≪ (8 - o)) - 1))) (w ≫ (8 * Z.of_nat (k - 1))))
    :: be_bytes (k - 1) w.
Proof.
  intros Ho Hn Hv Hk Hk0 ->. rewrite merged_top by lia.
  destruct k as [|m]; [lia|]. cbn [be_bytes]. replace (Datatypes.S m - 1)%nat with m by lia.
  f_equal. assert (H : forall j, (j <= m)%nat ->
    be_bytes j (merged (Datatypes.S m) b0 o v n) =
    be_bytes j (v ≪ (8 * Z.of_nat (Datatypes.S m) - (o + n)))); [|by apply H].
  induction j as [|j IH]; intros; [done|]. cbn [be_bytes].
  rewrite IH by lia. f_equal. apply merged_low; lia.
Qed.

Lemma put_direct fuel po v n : po_wf po -> 0 < n <= 31 ->
  po_nboff (po_normalize po) + n <= 31 ->
  put_bits po (val_bits (Z.to_nat n) v) (asn_put_few_bits (Datatypes.S fuel) po v n).
Proof.
  intros Hwf Hn H31.
  destruct (po_normalize_spec po Hwf) as (Hw1 & H7 & Hb1).
  destruct (po_make_room_spec (po_normalize po) n Hw1) as (po2 & Hmr & Hw2 & Ho2 & Hfit & Hb2);
    [lia..|].
  cbn [asn_put_few_bits]. rewrite Hmr. zcases. cbn [mbind option_bind negb].
  destruct Hw2 as (b & Hat). pose proof Hat as (Hb & Hb0 & Hl & Hok & Ho & Hnb & Hwk & Hfl).
  rewrite Hb. cbn [mbind option_bind]. rewrite <- Ho2 in *.
  rewrite mask_obits by lia.
  pose proof (mod_pow2_bounds v n ltac:(lia)) as Hv.
  rewrite <- (val_bits_mod (Z.to_nat n) n) by lia.
  set (v' := v mod 2 ^ n) in *. set (o := po_nboff po2) in *.
  destruct (drop (Z.to_nat b) (po_tmpspace po2)) as [|x l] eqn:Ed.
  { apply (f_equal length) in Ed. rewrite length_drop, Hl in Ed. cbn [length] in Ed. lia. }
  assert (Hll : (Z.to_nat b + Datatypes.S (length l) = 32)%nat).
  { apply (f_equal length) in Ed. rewrite length_drop, Hl in Ed. cbn [length] in Ed. lia. }
  set (pre := take (Z.to_nat b) (po_tmpspace po2)).
  assert (Hpre : Z.of_nat (length pre) = b) by (unfold pre; rewrite length_take; lia).
  assert (Htmp : po_tmpspace po2 = pre ++ x :: l)
    by (rewrite <- Ed; symmetry; apply take_drop).
  assert (Hm : forall k t, o + n <= 8 * Z.of_nat k -> (0 < k <= Datatypes.S (length l))%nat ->
    t = pre ++ be_bytes k (merged k x o v' n) ++ drop (k - 1) l ->
    put_bits po (val_bits (Z.to_nat n) v') (Some (0, po_set po2 (o + n) t))).
  { intros k t ???. destruct (put_merged po2 b k x l n v' t) as (po3 & ? & ? & Hb3);
      try done; try lia. exists po3. rewrite Hb3, Hb2, Hb1. done. }
  clearbody pre. rewrite Htmp, read_app by lia. cbn [mbind option_bind].
  assert (Hfin : forall k t, 8 * (Z.of_nat k - 1) < o + n <= 8 * Z.of_nat k ->
    8 * Z.of_nat k <= 32 -> (0 < k)%nat ->
    t = u8 (Z.lor (Z.land x (Z.lnot ((1 ≪ (8 - o)) - 1)))
              (u32 (v' ≪ (8 * Z.of_nat k - (o + n))) ≫ (8 * Z.of_nat (k - 1))))
        :: be_bytes (k - 1) (u32 (v' ≪ (8 * Z.of_nat k - (o + n)))) ++ drop (k - 1) l ->
    put_bits po (val_bits (Z.to_nat n) v') (Some (0, po_set po2 (o + n) (pre ++ t)))).
  { intros k t Hk Hk32 Hk0 ->. rewrite (u32_shiftl v' _ n) by lia.
    apply (Hm k); [lia|lia|].
    rewrite (merged_bytes k x o v' n _) by (lia || done). done. }
  clear Hm. rewrite !store_app_0 by lia. cbn [mbind option_bind].
  assert (Hlong : forall k : nat, 8 * Z.of_nat k < o + n -> (k <= length l)%nat) by lia.
  destruct (Z.leb_spec (o + n) 8); [by apply (Hfin 1%nat); [lia..|]|].
  destruct l as [|y1 l]; [specialize (Hlong 1%nat ltac:(lia)); cbn in Hlong; lia|].
  rewrite !store_app_1 by lia. cbn [mbind option_bind].
  destruct (Z.leb_spec (o + n) 16); [by apply (Hfin 2%nat); [lia..|]|].
  destruct l as [|y2 l]; [specialize (Hlong 2%nat ltac:(lia)); cbn in Hlong; lia|].
  rewrite !store_app_2 by lia. cbn [mbind option_bind].
  destruct (Z.leb_spec (o + n) 24); [by apply (Hfin 3%nat); [lia..|]|].
  destruct l as [|y3 l]; [specialize (Hlong 3%nat ltac:(lia)); cbn in Hlong; lia|].
  rewrite !store_app_3 by lia. cbn [mbind option_bind].
  destruct (Z.leb_spec (o + n) 31); [by apply (Hfin 4%nat); [lia..|]|lia].
Qed.

Lemma po_normalize_small po : po_nboff po <= 7 -> po_normalize po = po.
Proof. intros. unfold po_normalize. destruct (Z.leb_spec 8 (po_nboff po)); [lia|done]. Qed.

(** The two-step branch: 24 bits, then the remaining 1 to 7. *)
Lemma put_split fuel po v n : po_wf po -> 0 < n <= 31 ->
  31 < po_nboff (po_normalize po) + n ->
  put_bits po (val_bits (Z.to_nat n) v)
    (asn_put_few_bits (Datatypes.S (Datatypes.S fuel)) po v n).
Proof.
  intros Hwf Hn H31.
  destruct (po_normalize_spec po Hwf) as (Hw1 & H7 & Hb1).
  destruct (po_make_room_spec (po_normalize po) n Hw1) as (po2 & Hmr & Hw2 & Ho2 & Hfit & Hb2);
    [lia..|].
  remember (Datatypes.S fuel) as f eqn:Hf. cbn [asn_put_few_bits]. rewrite Hmr, Hf.
  zcase. zcase. cbn [orb mbind option_bind negb].
  destruct Hw2 as (b & Hat). pose proof Hat as (Hb & Hb0 & Hl & Hok & Ho & Hnb & Hwk & Hfl).
  rewrite Hb. cbn [mbind option_bind].
  destruct (read_Some (po_tmpspace po2) b) as (x & -> & _); [lia|]. cbn [mbind option_bind].
  do 4 (zcase; []). rewrite mask_obits by lia.
  destruct (put_direct fuel po2 ((v mod 2 ^ n) ≫ (n - 24)) 24) as (po3 & -> & Hw3 & Hb3);
    [by exists b|lia|rewrite po_normalize_small; lia|]. cbn [mbind option_bind negb Z.eqb].
  destruct (po_normalize_spec po3 Hw3) as (_ & H7' & _).
  destruct (put_direct fuel po3 (v mod 2 ^ n) (n - 24)) as (po4 & -> & Hw4 & Hb4);
    [done|lia..|]. cbn [mbind option_bind negb Z.eqb].
  exists po4. split_and!; try done. rewrite Hb4, Hb3, Hb2, Hb1, <- app_assoc. f_equal.
  rewrite <- (val_bits_mod (Z.to_nat n) n v) by lia.
  set (w := v mod 2 ^ n).
  replace (val_bits (Z.to_nat n) w) with (val_bits (Z.to_nat 24 + Z.to_nat (n - 24)) w)
    by (f_equal; lia).
  rewrite val_bits_app. do 3 f_equal. lia.
Qed.

(** [asn_put_few_bits] appends exactly the low [n] bits of its argument. *)
Lemma put_few_ok fuel po v n : po_wf po -> 0 <= n <= 31 ->
  put_bits po (val_bits (Z.to_nat n) v)
    (asn_put_few_bits (Datatypes.S (Datatypes.S fuel)) po v n).
Proof.
  intros Hwf Hn. destruct (decide (n = 0)) as [->|].
  { exists po. cbn. by rewrite app_nil_r. }
  destruct (Z.leb_spec (po_nboff (po_normalize po) + n) 31).
  - apply put_direct; lia || done.
  - apply put_split; lia || done.
Qed.

Lemma put_few_range fuel po v n : n < 0 \/ 32 <= n ->
  asn_put_few_bits (Datatypes.S fuel) po v n = Some (-1, po).
Proof. intros. cbn [asn_put_few_bits]. zcases; done. Qed.

(** The value the loop reads from up to three octets. *)
Lemma be_val_2 a b : byte_ok b -> Z.lor (a ≪ 8) b = be_val [a; b].
Proof. intros. rewrite lor_shiftl_add by (lia || done). cbn. lia. Qed.
Lemma be_val_3 a b c : byte_ok b -> byte_ok c ->
  Z.lor (Z.lor (a ≪ 8) b ≪ 8) c = be_val [a; b; c].
Proof. intros. rewrite !lor_shiftl_add by (lia || done). cbn. lia. Qed.

Lemma take_bits_be_val l n : bytes_ok l -> (n <= 8 * length l)%nat ->
  val_bits n (be_val l ≫ Z.of_nat (8 * length l - n)) = take n (bytes_bits l).
Proof.
  intros. rewrite <- take_val_bits by lia.
  rewrite be_val_bits, <- length_bytes_bits, val_bits_bits_val by done. done.
Qed.

Lemma be_val_3_hi a b c : byte_ok b -> byte_ok c ->
  Z.lor (Z.lor (a ≪ 16) (b ≪ 8)) c = be_val [a; b; c].
Proof.
  intros. change 16 with (8 + 8). rewrite <- Z.shiftl_shiftl, <- Z.shiftl_lor by lia.
  by apply be_val_3.
Qed.

Lemma put_bits_seq po bs1 bs2 r1 (k : Z * asn_bit_outp S -> option (Z * asn_bit_outp S)) :
  put_bits po bs1 r1 ->
  (forall po', po_wf po' -> put_bits po' bs2 (k (0, po'))) ->
  put_bits po (bs1 ++ bs2) (r1 ≫= k).
Proof.
  intros (po1 & -> & Hw1 & Hb1) Hk. cbn [mbind option_bind].
  destruct (Hk po1 Hw1) as (po2 & -> & Hw2 & Hb2).
  exists po2. by rewrite Hb2, Hb1, app_assoc.
Qed.

(** The value put for a last group of fewer than 24 bits, from its [k]
    octets. *)
Lemma put_tail po (l : list Z) n value : po_wf po -> bytes_ok l -> 0 < n < 24 ->
  8 * (Z.of_nat (length l) - 1) < n <= 8 * Z.of_nat (length l) ->
  value = be_val l ->
  put_bits po (take (Z.to_nat n) (bytes_bits l))
    ('(rc, po) ← asn_put_few_bits 3 po
        (if negb (Z.land n 7 =? 0) then value ≫ (8 - Z.land n 7) else value) n;
     if negb (rc =? 0) then Some (-1, po) else Some (0, po)).
Proof.
  intros Hwf Hok Hn Hl ->.
  assert (Hm : Z.land n 7 = n mod 8) by (change 7 with (2 ^ 3 - 1); by rewrite land_ones_mod).
  assert (Hv : (if negb (Z.land n 7 =? 0) then be_val l ≫ (8 - Z.land n 7) else be_val l) =
    be_val l ≫ Z.of_nat (8 * length l - Z.to_nat n)).
  { rewrite Hm. destruct (Z.eqb_spec (n mod 8) 0); cbn [negb].
    - replace (Z.of_nat _) with 0 by (Z.div_mod_to_equations; lia). by rewrite Z.shiftr_0_r.
    - f_equal. Z.div_mod_to_equations; lia. }
  rewrite Hv. destruct (put_few_ok 1 po (be_val l ≫ Z.of_nat (8 * length l - Z.to_nat n)) n)
    as (po1 & -> & Hw1 & Hb1); [done|lia|].
  exists po1. cbn. split_and!; try done. rewrite Hb1. f_equal.
  apply take_bits_be_val; [done|lia].
Qed.

Lemma put_many_ok po src n : po_wf po -> bytes_ok src ->
  0 <= n <= 8 * Z.of_nat (length src) ->
  put_bits po (take (Z.to_nat n) (bytes_bits src)) (asn_put_many_bits po src n).
Proof.
  unfold asn_put_many_bits. intros Hwf Hok Hn.
  assert (Hf : (Z.to_nat n < Datatypes.S (Z.to_nat n))%nat) by lia. revert Hf.
  generalize (Datatypes.S (Z.to_nat n)) as fuel.
  intros fuel; revert po src n Hwf Hok Hn.
  induction fuel as [|fuel IH]; intros po src n Hwf Hok Hn Hf; [lia|].
  cbn [put_many_loop].
  destruct (Z.eqb_spec n 0) as [->|Hn0].
  { exists po. cbn. by rewrite app_nil_r. }
  destruct (Z.leb_spec 24 n) as [H24|H24].
  - destruct src as [|b0 [|b1 [|b2 src]]]; cbn [length] in Hn; try lia.
    rewrite read_0, read_1, read_2. cbn [mbind option_bind].
    inversion_clear Hok as [|?? H0 Hok1]; inversion_clear Hok1 as [|?? H1 Hok2];
      inversion_clear Hok2 as [|?? H2 Hok3].
    rewrite be_val_3_hi by done.
    replace (take (Z.to_nat n) (bytes_bits (b0 :: b1 :: b2 :: src))) with
      (val_bits (Z.to_nat 24) (be_val [b0; b1; b2]) ++ take (Z.to_nat (n - 24)) (bytes_bits src)).
    + apply put_bits_seq; [apply (put_few_ok 1); [done|lia]|].
      intros po' Hw'. cbn [negb Z.eqb]. change (drop 3 _) with src. apply IH; lia || done.
    + rewrite be_val_bits by auto with bytes.
      change (Z.to_nat 24) with (length (bytes_bits [b0; b1; b2])).
      rewrite val_bits_bits_val. change (b0 :: b1 :: b2 :: src) with ([b0; b1; b2] ++ src).
      rewrite bytes_bits_app, take_app_ge by (cbn; lia).
      do 2 f_equal. rewrite length_bytes_bits. cbn. lia.
  - destruct src as [|b0 src]; [cbn [length] in Hn; lia|].
    rewrite read_0. cbn [mbind option_bind]. inversion_clear Hok as [|?? H0 Hok1].
    assert (Ht : forall k, n <= 8 * Z.of_nat k -> take (Z.to_nat n) (bytes_bits (b0 :: src)) =
      take (Z.to_nat n) (bytes_bits (take k (b0 :: src)))).
    { intros k Hk. pose proof (take_drop_bytes_bits 0 (Z.to_nat n) k (b0 :: src)) as H.
      rewrite !drop_0 in H. apply H. lia. }
    destruct (Z.ltb_spec 8 n).
    2: { rewrite (Ht 1%nat) by lia. change (take 1 _) with [b0]. cbn [mbind option_bind]. zcase. cbn [mbind option_bind].
         apply put_tail; [done|auto with bytes|lia|cbn; lia..]. }
    destruct src as [|b1 src]; [cbn [length] in Hn; lia|].
    cbn [mbind option_bind]. rewrite read_1. cbn [mbind option_bind]. inversion_clear Hok1 as [|?? H1 Hok2].
    destruct (Z.ltb_spec 16 n).
    2: { rewrite (Ht 2%nat) by lia. change (take 2 _) with [b0; b1]. cbn [mbind option_bind].
         apply put_tail; [done|auto with bytes|lia|cbn; lia|by apply be_val_2]. }
    destruct src as [|b2 src]; [cbn [length] in Hn; lia|].
    rewrite read_2. cbn [mbind option_bind]. inversion_clear Hok2 as [|?? Hb2 Hok3].
    rewrite (Ht 3%nat) by lia. change (take 3 _) with [b0; b1; b2]. cbn [mbind option_bind].
    apply put_tail; [done|auto with bytes|lia|cbn; lia|by apply be_val_3].
Qed.

(** Clearing the unused low bits of an octet. *)
Lemma byte_bits_clear x u : 0 <= u < 8 ->
  byte_bits (u8 (Z.land x (Z.lnot (2 ^ u - 1)))) =
  take (Z.to_nat (8 - u)) (byte_bits x) ++ replicate (Z.to_nat u) false.
Proof.
  intros. rewrite byte_bits_u8, land_clear_low by lia. unfold byte_bits.
  replace 8%nat with (Z.to_nat (8 - u) + Z.to_nat u)%nat by lia.
  rewrite val_bits_app, take_val_bits by lia. f_equal.
  - rewrite Z2Nat.id, Z.shiftr_shiftl_l, Z.sub_diag, Z.shiftl_0_r by lia. do 2 f_equal. lia.
  - rewrite <- (Z2Nat.id u) at 3 by lia. apply val_bits_low_zero.
Qed.

Lemma unused_bits_mod o : Z.land 7 (8 - Z.land o 7) = - o mod 8.
Proof.
  rewrite (Z.land_comm 7). change 7 with (2 ^ 3 - 1). rewrite !land_ones_mod by lia.
  change (2 ^ 3) with 8. Z.div_mod_to_equations; lia.
Qed.

(** The octets the flush hands over: the pending bits, zero padded. *)
Lemma flush_octets po b : po_wf_at po b ->
  exists tmp, (if negb (- po_nboff po mod 8 =? 0) then
      x ← read (po_tmpspace po) (b + (po_nboff po ≫ 3));
      store (po_tmpspace po) (b + (po_nboff po ≫ 3)) (Z.land x (Z.lnot (2 ^ (- po_nboff po mod 8) - 1)))
    else Some (po_tmpspace po)) = Some tmp /\ length tmp = 32%nat /\ bytes_ok tmp /\
    bytes_bits (take (Z.to_nat (b + ((po_nboff po + 7) ≫ 3))) tmp) =
    pad8 (take (Z.to_nat (8 * b + po_nboff po)) (bytes_bits (po_tmpspace po))).
Proof.
  intros (Hb & Hb0 & Hl & Hok & Ho & Hn & Hwk & Hfl).
  set (o := po_nboff po) in *. set (tmp := po_tmpspace po) in *.
  rewrite !shiftr_div by lia. change (2 ^ 3) with 8.
  assert (Hp : length (take (Z.to_nat (8 * b + o)) (bytes_bits tmp)) = Z.to_nat (8 * b + o))
    by (rewrite length_take, length_bytes_bits; lia).
  unfold pad8. rewrite Hp.
  replace (- Z.of_nat (Z.to_nat (8 * b + o)) mod 8) with (- o mod 8) by (Z.div_mod_to_equations; lia).
  destruct (Z.eqb_spec (- o mod 8) 0) as [H0|H0]; cbn [negb].
  - exists tmp. split_and!; try done. rewrite H0, app_nil_r, <- take_bytes_bits.
    f_equal. Z.div_mod_to_equations; lia.
  - set (i := b + o / 8).
    assert (Hi : 0 <= i < 32) by (unfold i; Z.div_mod_to_equations; lia).
    destruct (read_Some tmp i) as (x & -> & Hx); [lia|]. cbn [mbind option_bind].
    rewrite store_Some by lia. eexists. split_and!; [done|by rewrite length_insert|auto with bytes|].
    replace (Z.to_nat (b + (o + 7) / 8)) with (Datatypes.S (Z.to_nat i))
      by (unfold i; Z.div_mod_to_equations; lia).
    rewrite (take_S_r _ _ (u8 (Z.land x (Z.lnot (2 ^ (- o mod 8) - 1))))).
    2: { apply list_lookup_insert_eq. lia. }
    rewrite take_insert_ge by lia.
    replace (8 * b + o) with (8 * i + o mod 8) by (unfold i; Z.div_mod_to_equations; lia).
    rewrite pending_split by (unfold i in *; Z.div_mod_to_equations; lia).
    rewrite bytes_bits_app, <- app_assoc. f_equal.
    rewrite bytes_bits_cons, app_nil_r, byte_bits_clear by (Z.div_mod_to_equations; lia).
    f_equal. rewrite (drop_S _ x) by done. rewrite bytes_bits_cons.
    rewrite take_app_le by (rewrite length_byte_bits; Z.div_mod_to_equations; lia).
    f_equal. Z.div_mod_to_equations; lia.
Qed.

Lemma pad8_aligned bs1 bs2 : (length bs1 mod 8 = 0)%nat -> pad8 (bs1 ++ bs2) = bs1 ++ pad8 bs2.
Proof.
  intros H. unfold pad8. rewrite <- app_assoc. do 2 f_equal. rewrite length_app.
  apply (f_equal Z.of_nat) in H. rewrite Nat2Z.inj_mod in H. cbn in H. f_equal. Z.div_mod_to_equations; lia.
Qed.

(** [asn_put_aligned_flush] hands everything to the callback, padded with
    zero bits to an octet boundary, and leaves nothing pending. *)
Lemma flush_ok po : po_wf po ->
  exists po', asn_put_aligned_flush po = Some (0, po') /\ po_wf po' /\
    po_bits po' = pad8 (po_bits po) /\ bytes_bits (written (po_key po')) = pad8 (po_bits po).
Proof.
  intros (b & Hat). pose proof Hat as (Hb & Hb0 & Hl & Hok & Ho & Hn & Hwk & Hfl).
  unfold asn_put_aligned_flush. rewrite unused_bits_mod, Hb.
  cbn [mbind option_bind default from_option id].
  destruct (flush_octets po b Hat) as (tmp & Ht & Hlt & Hokt & Hbits).
  cbn [mbind option_bind] in Ht. rewrite Ht. cbn [mbind option_bind].
  destruct (consume_append (take (Z.to_nat (b + ((po_nboff po + 7) ≫ 3))) tmp) (po_key po))
    as (key & -> & Hw).
  assert (Hkey : bytes_bits (written key) = pad8 (po_bits po)).
  { unfold po_bits. rewrite Hb, Hw, bytes_bits_app, Hbits. cbn [default from_option id].
    rewrite pad8_aligned; [done|]. rewrite length_bytes_bits, Nat.mul_comm.
    by apply Nat.Div0.mod_mul. }
  eexists. split_and!; [reflexivity| | |done].
  - exists 0. unfold po_wf_at. cbn. rewrite Hw. split_and!; auto with bytes; try lia.
    rewrite length_app, length_take, shiftr_div by lia. change (2 ^ 3) with 8.
    Z.div_mod_to_equations; lia.
  - unfold po_bits at 1. cbn. by rewrite app_nil_r.
Qed.
End WriterSpec.

(** ** What clients use *)

Section Clients.
Context {K : Type} `{!Refill K}.
Implicit Types pd : asn_bit_data K.

(** [pd] is a contiguous stream whose remaining bits are [bs]. *)
Definition pd_at pd (bs : list bool) : Prop :=
  pd_wf pd /\ pd_refill pd = None /\ pd_bits pd = bs.

Lemma pd_at_left pd bs : pd_at pd bs -> pd_left pd = Z.of_nat (length bs).
Proof. intros (Hw & _ & <-). symmetry. by apply length_pd_bits. Qed.

Lemma pd_read_at pd n pd' bs rest : 0 <= n -> n = Z.of_nat (length bs) ->
  pd_at pd (bs ++ rest) -> pd_read pd n pd' -> pd_at pd' rest.
Proof.
  intros Hn -> (Hw & Hr & Hb) (Hw' & Hb' & _ & _ & Hr' & _).
  split_and!; [done|congruence|]. rewrite Hb', Hb, Nat2Z.id. apply drop_app_length.
Qed.

Lemma get_few_at fuel pd n v rest : 0 <= n <= 31 ->
  pd_at pd (val_bits (Z.to_nat n) v ++ rest) ->
  exists pd', asn_get_few_bits (S (S fuel)) pd n = Some (v mod 2 ^ n, pd') /\
    pd_at pd' rest /\ pd_read pd n pd'.
Proof.
  intros Hn Hat. pose proof (pd_at_left _ _ Hat) as Hl.
  rewrite length_app, length_val_bits in Hl. destruct Hat as (Hw & Hr & Hb).
  destruct (get_few_ok fuel pd n) as (pd' & -> & Hrd); [done|lia|lia|].
  exists pd'. rewrite Hb, take_app_le, take_ge by (rewrite length_val_bits; lia).
  rewrite bits_val_val_bits, Z2Nat.id by lia. split_and!; [done| |done].
  apply (pd_read_at pd n pd' (val_bits (Z.to_nat n) v)); try done; try lia.
  rewrite length_val_bits. lia.
Qed.

Lemma get_few_eod fuel pd n bs : pd_at pd bs -> Z.of_nat (length bs) < n ->
  asn_get_few_bits (S fuel) pd n = Some (-1, pd).
Proof.
  intros Hat Hn. pose proof (pd_at_left _ _ Hat) as Hl. destruct Hat as (Hw & Hr & _).
  apply get_few_short; [done|lia|lia].
Qed.

Lemma pad8_bytes l : pad8 (bytes_bits l) = bytes_bits l.
Proof.
  unfold pad8. rewrite length_bytes_bits.
  replace (Z.to_nat _) with 0%nat by (Z.div_mod_to_equations; lia). apply app_nil_r.
Qed.

Lemma get_many_at gf pd src rest : bytes_ok src ->
  pd_at pd (bytes_bits src ++ rest) ->
  exists pd', asn_get_many_bits (S (S gf)) pd false (8 * Z.of_nat (length src)) =
      Some (0, src, pd') /\ pd_at pd' rest /\ pd_read pd (8 * Z.of_nat (length src)) pd'.
Proof.
  intros Hok Hat. pose proof (pd_at_left _ _ Hat) as Hl.
  rewrite length_app, length_bytes_bits in Hl. pose proof Hat as (Hw & Hr & Hb).
  destruct (get_many_ok gf pd (8 * Z.of_nat (length src))) as (oct & pd' & -> & Hoo & Hbits & Hrd);
    [done|lia|].
  assert (Hoct : oct = src).
  { apply bytes_bits_inj; [done..|]. rewrite Hbits, Hb.
    rewrite take_app_le, take_ge, pad8_bytes by (rewrite length_bytes_bits; lia). done. }
  exists pd'. rewrite app_nil_l, Hoct. split_and!; [done| |done].
  apply (pd_read_at pd (8 * Z.of_nat (length src)) pd' (bytes_bits src)); try done; [lia|].
  rewrite length_bytes_bits. lia.
Qed.
End Clients.

(** Streams read from a plain buffer never refill. *)
#[export] Instance refill_never : Refill Empty_set := fun k => match k with end.

(** The position indicator [uper_decode] fills in. *)
Definition pd_of_buffer (buffer : list Z) (nboff nbits : Z) : asn_bit_data Empty_set :=
  {| pd_buffer := buffer; pd_nboff := nboff; pd_nbits := nbits; pd_moved := 0;
     pd_refill := None |}.

Lemma pd_of_buffer_at buffer : bytes_ok buffer ->
  pd_at (pd_of_buffer buffer 0 (8 * Z.of_nat (length buffer))) (bytes_bits buffer).
Proof.
  intros Hok. split_and!; [split_and!; cbn; try done; lia|done|].
  unfold pd_bits, pd_left. cbn. rewrite drop_0, take_ge by (rewrite length_bytes_bits; lia).
  done.
Qed.

(** The output descriptor [uper_encode] sets up. *)
Definition po_of_key {S} (key : S) : asn_bit_outp S :=
  {| po_buffer := Some 0; po_nboff := 0; po_nbits := 8 * 32;
     po_tmpspace := replicate 32 0; po_key := key; po_flushed := 0 |}.

Lemma po_of_key_wf {S} `{AppendConsumer S} (key : S) :
  written key = [] -> po_wf (po_of_key key).
Proof.
  intros Hk. exists 0. unfold po_wf_at. cbn. rewrite Hk. split_and!; try done; try lia; try apply bytes_ok_nil.
  repeat (apply bytes_ok_cons; [unfold byte_ok; lia|]). apply bytes_ok_nil.
Qed.

Lemma po_empty_wf : po_wf (po_of_key {| bb_bytes := [] |}).
Proof. by apply po_of_key_wf. Qed.

Lemma po_of_key_bits {S} `{AppendConsumer S} (key : S) :
  po_bits (po_of_key key) = bytes_bits (written key).
Proof. unfold po_bits. cbn. by rewrite app_nil_r. Qed.

(** Error path: a callback that refuses makes the put fail. *)
Lemma put_few_refused fuel po v n : 0 < n < 32 ->
  po_nbits (po_normalize po) < po_nboff (po_normalize po) + n ->
  exists po', asn_put_few_bits (S := Refusing) (S fuel) po v n = Some (-1, po') /\
    refused (po_key po') = S (refused (po_key po)).
Proof.
  intros Hn Hroom. cbn [asn_put_few_bits]. zcases. unfold po_make_room.
  destruct (Z.ltb_spec (po_nbits (po_normalize po)) (po_nboff (po_normalize po) + n)); [|lia].
  cbn. eexists. split; [reflexivity|]. unfold po_normalize. by zcase.
Qed.

(** ** Properties *)

(** A sequence of bit fields written one after the other. *)
Fixpoint put_fields {S} `{Consumer S} (po : asn_bit_outp S) (fs : list (Z * Z)) :
    option (Z * asn_bit_outp S) :=
  match fs with
  | [] => Some (0, po)
  | (v, n) :: fs =>
    '(rc, po) ← asn_put_few_bits 2 po v n;
    if negb (rc =? 0) then Some (-1, po) else put_fields po fs
  end.

Fixpoint get_fields {K} `{Refill K} (pd : asn_bit_data K) (ns : list Z) : option (list Z) :=
  match ns with
  | [] => Some []
  | n :: ns => '(v, pd) ← asn_get_few_bits 2 pd n; vs ← get_fields pd ns; Some (v :: vs)
  end.

Definition field_ok (f : Z * Z) : Prop := 0 <= f.2 <= 31 /\ 0 <= f.1 < 2 ^ f.2.
Definition fields_bits (fs : list (Z * Z)) : list bool :=
  fs ≫= fun f => val_bits (Z.to_nat f.2) f.1.

Lemma put_fields_ok {S} `{AppendConsumer S} (po : asn_bit_outp S) fs :
  Forall field_ok fs -> po_wf po -> put_bits po (fields_bits fs) (put_fields po fs).
Proof.
  intros Hfs; revert po. induction Hfs as [|[v n] fs [Hn Hv] Hfs IH]; intros po Hw.
  { exists po. by rewrite app_nil_r. }
  cbn [put_fields fields_bits mbind list_bind]. apply put_bits_seq.
  - apply (put_few_ok 0); [done|cbn in *; lia].
  - intros po' Hw'. by apply IH.
Qed.

Lemma get_fields_ok {K} `{Refill K} (pd : asn_bit_data K) fs rest :
  Forall field_ok fs -> pd_at pd (fields_bits fs ++ rest) ->
  get_fields pd fs.*2 = Some fs.*1.
Proof.
  intros Hfs; revert pd. induction Hfs as [|[v n] fs [Hn Hv] Hfs IH]; intros pd Hat; [done|].
  cbn [fields_bits mbind list_bind] in Hat. rewrite <- app_assoc in Hat.
  destruct (get_few_at 0 pd n v (fields_bits fs ++ rest)) as (pd' & Hg & Hat' & _);
    [cbn in *; lia|done|].
  rewrite !fmap_cons. cbn [get_fields snd fst] in *. rewrite Hg. cbn [mbind option_bind].
  rewrite (IH pd') by done. cbn [mbind option_bind]. by rewrite Z.mod_small by (cbn in *; lia).
Qed.

(** [asn_get_few_bits] on a contiguous stream refines "take [n] bits":
    it never reads outside its buffer; when at least [n] bits (at most 31)
    are left it returns their value, most significant first, and advances by
    exactly [n]; otherwise it returns -1 and leaves the stream as it was. *)
Theorem asn_get_few_bits_refines (pd : asn_bit_data Empty_set) (n : Z) :
  pd_wf pd -> pd_refill pd = None -> 0 <= n <= 31 ->
  exists v pd', asn_get_few_bits 2 pd n = Some (v, pd') /\
    if pd_left pd <? n then v = -1 /\ pd' = pd
    else v = bits_val (take (Z.to_nat n) (pd_bits pd)) /\ 0 <= v < 2 ^ n /\
         pd_read pd n pd'.
Proof.
  intros Hw Hr Hn. destruct (Z.ltb_spec (pd_left pd) n) as [Hlt|Hge].
  - exists (-1), pd. split; [|done]. apply get_few_short; [done|lia|done].
  - destruct (get_few_ok 0 pd n) as (pd' & Hg & Hrd); [done..|].
    eexists _, pd'. split_and!; [exact Hg|done| | |done].
    all: pose proof (bits_val_bound (take (Z.to_nat n) (pd_bits pd))) as Hb;
      pose proof (length_pd_bits pd Hw) as Hl;
      rewrite length_take, Nat.min_l, Z2Nat.id in Hb by lia; lia.
Qed.

Lemma asn_get_few_bits_refines_witness :
  exists v pd', asn_get_few_bits 2 (pd_of_buffer [165; 255; 0; 129; 7] 3 37) 31 = Some (v, pd') /\
    if pd_left (pd_of_buffer [165; 255; 0; 129; 7] 3 37) <? 31
    then v = -1 /\ pd' = pd_of_buffer [165; 255; 0; 129; 7] 3 37
    else v = bits_val (take (Z.to_nat 31) (pd_bits (pd_of_buffer [165; 255; 0; 129; 7] 3 37))) /\
         0 <= v < 2 ^ 31 /\ pd_read (pd_of_buffer [165; 255; 0; 129; 7] 3 37) 31 pd'.
Proof.
  apply asn_get_few_bits_refines; [|reflexivity|lia].
  split_and!; cbn; try lia. repeat (apply bytes_ok_cons; [unfold byte_ok; lia|]). apply bytes_ok_nil.
Defined.

(** [asn_put_few_bits] refines "append the low [n] bits": for every
    well-formed output descriptor, every value and every width up to 31 it
    returns 0, never touches memory outside [tmpspace] (flushing through the
    callback when it has to), keeps the descriptor well formed and appends
    exactly those bits to what has been emitted; a width outside 0..31 is
    refused with -1 and changes nothing. *)
Theorem asn_put_few_bits_refines (po : asn_bit_outp ByteBuffer) (v n : Z) :
  po_wf po ->
  if (0 <=? n) && (n <=? 31)
  then exists po', asn_put_few_bits 2 po v n = Some (0, po') /\ po_wf po' /\
         po_bits po' = po_bits po ++ val_bits (Z.to_nat n) v
  else asn_put_few_bits 2 po v n = Some (-1, po).
Proof.
  intros Hw. destruct (Z.leb_spec 0 n), (Z.leb_spec n 31); cbn [andb].
  - by apply (put_few_ok 0).
  - apply (put_few_range 1). lia.
  - apply (put_few_range 1). lia.
  - apply (put_few_range 1). lia.
Qed.

Lemma asn_put_few_bits_refines_witness :
  exists po', asn_put_few_bits 2 (po_of_key {| bb_bytes := [] |}) 1000 13 = Some (0, po') /\
    po_wf po' /\
    po_bits po' = po_bits (po_of_key {| bb_bytes := [] |}) ++ val_bits (Z.to_nat 13) 1000.
Proof.
  apply (asn_put_few_bits_refines (po_of_key {| bb_bytes := [] |}) 1000 13).
  exact po_empty_wf.
Defined.

(** round trip through the bit stream: any sequence of fields of at most
    31 bits put one after the other and flushed yields octets from which the
    same sequence of widths reads the same values back, whatever the fields'
    alignment. *)
Theorem bit_fields_roundtrip (fs : list (Z * Z)) :
  Forall field_ok fs ->
  exists po1 po2, put_fields (po_of_key {| bb_bytes := [] |}) fs = Some (0, po1) /\
    asn_put_aligned_flush po1 = Some (0, po2) /\
    let out := bb_bytes (po_key po2) in
    length out = Nat.div (length (fields_bits fs) + 7) 8 /\
    get_fields (pd_of_buffer out 0 (8 * Z.of_nat (length out))) fs.*2 = Some fs.*1.
Proof.
  intros Hfs.
  destruct (put_fields_ok (po_of_key {| bb_bytes := [] |}) fs Hfs po_empty_wf)
    as (po1 & Hp & Hw1 & Hb1).
  destruct (flush_ok po1 Hw1) as (po2 & Hf & Hw2 & _ & Hout).
  exists po1, po2. split_and!; [done..|]. cbn zeta. rewrite Hb1, po_of_key_bits in Hout.
  change (written (po_key po2)) with (bb_bytes (po_key po2)) in Hout.
  change (bytes_bits (written {| bb_bytes := [] |})) with (@nil bool) in Hout.
  rewrite app_nil_l in Hout. split.
  - apply (f_equal length) in Hout. unfold pad8 in Hout.
    rewrite length_bytes_bits, length_app, length_replicate in Hout.
    apply Nat2Z.inj. rewrite Nat2Z.inj_div. apply (f_equal Z.of_nat) in Hout.
    rewrite Nat2Z.inj_mul, Nat2Z.inj_add, Z2Nat.id in Hout by (apply Z.mod_pos_bound; lia).
    Z.div_mod_to_equations; lia.
  - destruct Hw2 as (b & _ & _ & _ & _ & _ & _ & Hok & _).
    eapply get_fields_ok; [done|].
    pose proof (pd_of_buffer_at (bb_bytes (po_key po2)) Hok) as Hat. rewrite Hout in Hat. exact Hat.
Qed.

Lemma bit_fields_roundtrip_witness :
  exists po1 po2,
    put_fields (po_of_key {| bb_bytes := [] |}) [(5, 3); (1000003, 31); (0, 0); (1, 1)] =
      Some (0, po1) /\
    asn_put_aligned_flush po1 = Some (0, po2) /\
    let out := bb_bytes (po_key po2) in
    length out =
      Nat.div (length (fields_bits [(5, 3); (1000003, 31); (0, 0); (1, 1)]) + 7) 8 /\
    get_fields (pd_of_buffer out 0 (8 * Z.of_nat (length out)))
      [(5, 3); (1000003, 31); (0, 0); (1, 1)].*2 =
      Some [(5, 3); (1000003, 31); (0, 0); (1, 1)].*1.
Proof.
  apply bit_fields_roundtrip.
  repeat (apply List.Forall_cons; [split; cbn; lia|]). apply List.Forall_nil.
Defined.
