(* ===== verification/PerSupport.v ===== *)
(** * PER support routines (support/per_support.c)

    Length determinants, normally small numbers, constrained whole numbers
    and the rebasing of a [long] into its range.  Results that C returns
    through pointers are returned beside the return code. *)
From S2P Require Import Prelude Consumer BitData.

Abbreviation asn_per_data := (asn_bit_data Empty_set).

(** per_get_few_bits, per_get_many_bits: the compatibility macros of
    per_support.h.  Without a refill two levels of recursion are enough. *)
Definition per_get_few_bits (pd : asn_per_data) (nbits : Z) := asn_get_few_bits 2 pd nbits.
Definition per_get_many_bits (pd : asn_per_data) (align : bool) (nbits : Z) :=
  asn_get_many_bits 2 pd align nbits.

(** Return value, [*repeat], stream. *)
Definition uper_get_length (pd : asn_per_data) (ebits lower_bound : Z) :
    option (Z * bool * asn_per_data) :=
  if (0 <=? ebits) && (ebits <=? 16) then
    '(value, pd) ← per_get_few_bits pd ebits;
    Some (if 0 <=? value then s64 (value + lower_bound) else value, false, pd)
  else
    '(value, pd) ← per_get_few_bits pd 8;
    if Z.land value 128 =? 0 then Some (Z.land value 127, false, pd)
    else if Z.land value 64 =? 0 then
      '(low, pd) ← per_get_few_bits pd 8;
      Some (Z.lor (Z.land value 63 ≪ 8) low, false, pd)
    else if value <? 0 then Some (-1, false, pd)
    else
      let value := Z.land value 63 in
      if (value <? 1) || (4 <? value) then Some (-1, false, pd)
      else Some (16384 * value, true, pd).

Definition uper_get_nslength (pd : asn_per_data) : option (Z * asn_per_data) :=
  '(bit, pd) ← per_get_few_bits pd 1;
  if bit =? 0 then
    '(v, pd) ← per_get_few_bits pd 6;
    let length := v + 1 in
    if length <=? 0 then Some (-1, pd) else Some (length, pd)
  else
    '(length, repeat, pd) ← uper_get_length pd (-1) 0;
    if (0 <=? length) && negb repeat then Some (length, pd) else Some (-1, pd).

Definition uper_get_nsnnwn (pd : asn_per_data) : option (Z * asn_per_data) :=
  '(value, pd) ← per_get_few_bits pd 7;
  if negb (Z.land value 64 =? 0) then
    let value := Z.land value 63 in
    let value := value ≪ 2 in
    '(low, pd) ← per_get_few_bits pd 2;
    let value := Z.lor value low in
    if negb (Z.land value 128 =? 0) then Some (-1, pd)
    else if value =? 0 then Some (0, pd)
    else if 3 <=? value then Some (-1, pd)
    else per_get_few_bits pd (8 * value)
  else Some (value, pd).

(** Return code, [*out_value], stream; one level per 31 bits. *)
Fixpoint get_whole_number (fuel : nat) (pd : asn_per_data) (nbits : Z) :
    option (Z * Z * asn_per_data) :=
  match fuel with
  | O => None
  | S fuel =>
    if nbits <=? 31 then
      '(half, pd) ← per_get_few_bits pd nbits;
      if half <? 0 then Some (-1, 0, pd) else Some (0, half, pd)
    else if 64 <? nbits then Some (-1, 0, pd)
    else
      '(half, pd) ← per_get_few_bits pd 31;
      if half <? 0 then Some (-1, 0, pd) else
      '(rc, lhalf, pd) ← get_whole_number fuel pd (nbits - 31);
      if negb (rc =? 0) then Some (-1, 0, pd)
      else Some (0, Z.lor (u64 (half ≪ (nbits - 31))) lhalf, pd)
  end.
Definition uper_get_constrained_whole_number (pd : asn_per_data) (nbits : Z) :=
  get_whole_number 3 pd nbits.

Section Put.
Context {S : Type} `{!Consumer S}.
Implicit Types po : asn_bit_outp S.

Definition per_put_few_bits po (bits obits : Z) := asn_put_few_bits 2 po (u32 bits) obits.

Definition uper_put_nsnnwn po (n : Z) : option (Z * asn_bit_outp S) :=
  if n <=? 63 then
    if n <? 0 then Some (-1, po) else per_put_few_bits po n 7
  else
    let put bytes :=
      '(rc, po) ← per_put_few_bits po bytes 8;
      if negb (rc =? 0) then Some (-1, po) else per_put_few_bits po n (8 * bytes) in
    if n <? 256 then put 1
    else if n <? 65536 then put 2
    else if n <? 256 * 65536 then put 3
    else Some (-1, po).

(** One level per 31 bits. *)
Fixpoint put_whole_number (fuel : nat) po (v nbits : Z) : option (Z * asn_bit_outp S) :=
  match fuel with
  | O => None
  | Datatypes.S fuel =>
    if nbits <=? 31 then per_put_few_bits po v nbits
    else
      '(rc, po) ← put_whole_number fuel po (v ≫ 31) (nbits - 31);
      if negb (rc =? 0) then Some (-1, po) else per_put_few_bits po v 31
  end.
Definition uper_put_constrained_whole_number_u po (v nbits : Z) :=
  put_whole_number (Datatypes.S (Z.to_nat nbits)) po v nbits.

(** Return value, [*need_eom], stream. *)
Definition uper_put_length po (length : Z) : option (Z * bool * asn_bit_outp S) :=
  if length <=? 127 then
    '(rc, po) ← per_put_few_bits po length 8;
    Some (if negb (rc =? 0) then -1 else length, false, po)
  else if length <? 16384 then
    '(rc, po) ← per_put_few_bits po (Z.lor length 32768) 16;
    Some (if negb (rc =? 0) then -1 else length, false, po)
  else
    let need_eom := Z.land length 16383 =? 0 in
    let length := length ≫ 14 in
    let '(need_eom, length) := if 4 <? length then (false, 4) else (need_eom, length) in
    '(rc, po) ← per_put_few_bits po (Z.lor 192 length) 8;
    Some (if negb (rc =? 0) then -1 else length ≪ 14, need_eom, po).

Definition uper_put_nslength po (length : Z) : option (Z * asn_bit_outp S) :=
  if length <=? 64 then
    if length =? 0 then Some (-1, po) else
    '(rc, po) ← per_put_few_bits po (length - 1) 7;
    Some (if negb (rc =? 0) then -1 else 0, po)
  else
    '(r, need_eom, po) ← uper_put_length po length;
    if negb (r =? length) || need_eom then Some (-1, po) else Some (0, po).
End Put.

(** ** Rebasing: [long] arithmetic with its overflow checks *)

(** [None] is a failed assertion or signed overflow; otherwise the return
    code and [*range_r]. *)
Definition per__long_range (lb ub : Z) : option (Z * Z) :=
  if Bool.eqb (ub <? 0) (lb <? 0) then
    d ← chk_long (ub - lb); Some (0, u64 d)
  else if lb <? 0 then
    a ← chk_long (lb + 1); b ← chk_long (- a);
    Some (0, u64 (1 + u64 (u64 ub + u64 b)))
  else None.

Definition per_long_range_rebase (v lb ub : Z) : option (Z * Z) :=
  if ub <? lb then None else
  if (v <? lb) || (ub <? v) then Some (-1, 0) else
  '(rc, range) ← per__long_range lb ub;
  if rc <? 0 then Some (-1, 0) else
  if Bool.eqb (v <? 0) (lb <? 0) then d ← chk_long (v - lb); Some (0, u64 d)
  else if v <? 0 then
    a ← chk_long (v + 1); b ← chk_long (- a);
    let rebased := u64 (1 + u64 b + u64 lb) in
    if rebased <=? range then Some (0, rebased) else None
  else if lb <? 0 then
    a ← chk_long (lb + 1); b ← chk_long (- a);
    let rebased := u64 (1 + u64 b + u64 v) in
    if rebased <=? range then Some (0, rebased) else None
  else None.

Definition per_long_range_unrebase (inp lb ub : Z) : option (Z * Z) :=
  '(rc, range) ← per__long_range lb ub;
  if negb (rc =? 0) then Some (-1, 0) else
  if range <? inp then Some (-1, 0) else
  if inp <=? LONG_MAX then r ← chk_long (inp + lb); Some (0, r)
  else
    a ← chk_long (lb + LONG_MAX); a ← chk_long (a + 1);
    r ← chk_long (a + (inp - LONG_MAX - 1)); Some (0, r).

(** ** Specification *)

(** [r] is the outcome [a] of a writer that emitted [bs] from [po]. *)
Definition put_res {S} `{AppendConsumer S} {A} (po : asn_bit_outp S) (bs : list bool)
    (r : option (A * asn_bit_outp S)) (a : A) : Prop :=
  exists po', r = Some (a, po') /\ po_wf po' /\ po_bits po' = po_bits po ++ bs.

(** [r] is the outcome [a] of a reader that consumed [n] bits of [pd] and
    left [rest]. *)
Definition get_res {A} (pd : asn_per_data) (n : Z) (rest : list bool)
    (r : option (A * asn_per_data)) (a : A) : Prop :=
  exists pd', r = Some (a, pd') /\ pd_at pd' rest /\ pd_read pd n pd'.

(** [enc] and [dec] agree on the bits [bs] that stand for a value: writing
    emits them with result [a], reading them yields [b]. *)
Definition codec {A B} (enc : asn_bit_outp ByteBuffer -> option (A * asn_bit_outp ByteBuffer))
    (dec : asn_per_data -> option (B * asn_per_data)) (bs : list bool) (a : A) (b : B) : Prop :=
  (forall po, po_wf po -> put_res po bs (enc po) a) /\
  (forall pd rest, pd_at pd (bs ++ rest) ->
     get_res pd (Z.of_nat (length bs)) rest (dec pd) b).

Section PutLemmas.
Context {S : Type} `{HC : Consumer S} `{HA : !AppendConsumer S}.
Implicit Types po : asn_bit_outp S.

Lemma put_res_bind {A B} po bs1 bs2 (r : option (A * asn_bit_outp S)) a
    (k : A * asn_bit_outp S -> option (B * asn_bit_outp S)) b :
  put_res po bs1 r a -> (forall po', po_wf po' -> put_res po' bs2 (k (a, po')) b) ->
  put_res po (bs1 ++ bs2) (r ≫= k) b.
Proof.
  intros (po1 & -> & Hw1 & Hb1) Hk. cbn [mbind option_bind].
  destruct (Hk po1 Hw1) as (po2 & -> & Hw2 & Hb2).
  exists po2. by rewrite Hb2, Hb1, app_assoc.
Qed.

Lemma put_res_ret {A} po (a : A) : po_wf po -> put_res po [] (Some (a, po)) a.
Proof. intros. exists po. by rewrite app_nil_r. Qed.

Lemma put_res_map {A B} po bs (r : option (A * asn_bit_outp S)) a
    (k : A * asn_bit_outp S -> option (B * asn_bit_outp S)) b :
  put_res po bs r a -> (forall po', po_wf po' -> k (a, po') = Some (b, po')) ->
  put_res po bs (r ≫= k) b.
Proof.
  intros Hr Hk. rewrite <- (app_nil_r bs). eapply put_res_bind; [exact Hr|].
  intros po' Hw. rewrite Hk by done. by apply put_res_ret.
Qed.

Lemma per_put_few_ok po v n : po_wf po -> 0 <= n <= 31 ->
  put_res po (val_bits (Z.to_nat n) v) (per_put_few_bits po v n) 0.
Proof.
  intros Hw Hn. unfold per_put_few_bits, u32.
  rewrite <- (val_bits_mod (Z.to_nat n) 32) by lia. by apply (put_few_ok 0).
Qed.

Lemma per_put_many_ok po src : po_wf po -> bytes_ok src ->
  put_res po (bytes_bits src) (asn_put_many_bits po src (8 * Z.of_nat (length src))) 0.
Proof.
  intros Hw Hok. destruct (put_many_ok po src (8 * Z.of_nat (length src))) as (po' & H & ?);
    [done|done|lia|].
  exists po'. split; [done|]. by rewrite take_ge in * by (rewrite length_bytes_bits; lia).
Qed.

Lemma put_whole_number_ok fuel po v nbits : po_wf po -> 0 <= nbits ->
  (Z.to_nat nbits < fuel)%nat ->
  put_res po (val_bits (Z.to_nat nbits) v) (put_whole_number fuel po v nbits) 0.
Proof.
  revert po v nbits. induction fuel as [|fuel IH]; intros po v nbits Hw Hn Hf; [lia|].
  cbn [put_whole_number]. destruct (Z.leb_spec nbits 31); [by apply per_put_few_ok|].
  replace (Z.to_nat nbits) with (Z.to_nat (nbits - 31) + Z.to_nat 31)%nat by lia.
  rewrite val_bits_app. eapply put_res_bind; [apply IH; lia || done|].
  intros po' Hw'. cbn [negb Z.eqb]. by apply per_put_few_ok.
Qed.
End PutLemmas.

Section GetLemmas.
Implicit Types pd : asn_per_data.

Lemma get_res_bind {A B} pd n1 n2 rest1 rest2 (r : option (A * asn_per_data)) a
    (k : A * asn_per_data -> option (B * asn_per_data)) b : 0 <= n1 -> 0 <= n2 ->
  get_res pd n1 rest1 r a ->
  (forall pd', pd_at pd' rest1 -> get_res pd' n2 rest2 (k (a, pd')) b) ->
  get_res pd (n1 + n2) rest2 (r ≫= k) b.
Proof.
  intros Hn1 Hn2 (pd1 & -> & Hat & Hrd) Hk. cbn [mbind option_bind].
  destruct (Hk pd1 Hat) as (pd2 & -> & Hat2 & Hrd2).
  exists pd2. split_and!; try done. by eapply pd_read_trans.
Qed.

Lemma get_res_ret {A} pd rest (a : A) : pd_at pd rest -> get_res pd 0 rest (Some (a, pd)) a.
Proof.
  intros Hat. exists pd. split_and!; try done.
  destruct Hat as (? & ? & ?). split_and!; try done; lia.
Qed.

Lemma get_res_map {A B} pd n rest (r : option (A * asn_per_data)) a
    (k : A * asn_per_data -> option (B * asn_per_data)) b : 0 <= n ->
  get_res pd n rest r a -> (forall pd', k (a, pd') = Some (b, pd')) ->
  get_res pd n rest (r ≫= k) b.
Proof.
  intros Hn Hr Hk. rewrite <- (Z.add_0_r n). eapply get_res_bind; [done|lia|exact Hr|].
  intros pd' Hat. rewrite Hk. by apply get_res_ret.
Qed.

Lemma per_get_few_at pd n v rest : 0 <= n <= 31 ->
  pd_at pd (val_bits (Z.to_nat n) v ++ rest) ->
  get_res pd n rest (per_get_few_bits pd n) (v mod 2 ^ n).
Proof.
  intros Hn Hat. destruct (get_few_at 0 pd n v rest Hn Hat) as (pd' & H & ? & ?).
  by exists pd'.
Qed.

Lemma get_bit pd (b : bool) rest : pd_at pd (b :: rest) ->
  get_res pd 1 rest (per_get_few_bits pd 1) (Z.b2z b).
Proof.
  intros Hat. replace (Z.b2z b) with (Z.b2z b mod 2 ^ 1) by (by destruct b).
  apply (per_get_few_at pd 1 (Z.b2z b)); [lia|]. by destruct b.
Qed.

Lemma per_get_eod pd n bs : pd_at pd bs -> Z.of_nat (length bs) < n ->
  per_get_few_bits pd n = Some (-1, pd).
Proof. apply get_few_eod. Qed.

Lemma per_get_many_at pd src rest : bytes_ok src -> pd_at pd (bytes_bits src ++ rest) ->
  get_res pd (8 * Z.of_nat (length src)) rest
    (per_get_many_bits pd false (8 * Z.of_nat (length src))) (0, src).
Proof.
  intros Hok Hat. destruct (get_many_at 0 pd src rest Hok Hat) as (pd' & H & ? & ?).
  by exists pd'.
Qed.

Lemma get_whole_number_at fuel pd v nbits rest : 0 <= nbits <= 64 ->
  nbits <= 31 * Z.of_nat fuel ->
  pd_at pd (val_bits (Z.to_nat nbits) v ++ rest) -> (0 < fuel)%nat ->
  get_res pd nbits rest (get_whole_number fuel pd nbits) (0, v mod 2 ^ nbits).
Proof.
  revert pd nbits. induction fuel as [|fuel IH]; intros pd nbits Hn Hf Hat H0; [lia|].
  cbn [get_whole_number]. destruct (Z.leb_spec nbits 31).
  { eapply get_res_map; [lia|apply per_get_few_at; [lia|exact Hat]|].
    intros pd'. pose proof (mod_pow2_bounds v nbits). zcases. done. }
  zcase. replace (Z.to_nat nbits) with (Z.to_nat 31 + Z.to_nat (nbits - 31))%nat in Hat by lia.
  rewrite val_bits_app, <- app_assoc in Hat.
  replace nbits with (31 + (nbits - 31)) at 1 by lia.
  eapply get_res_bind; [lia|lia|apply per_get_few_at; [lia|exact Hat]|].
  intros pd1 Hat1. set (h := (v ≫ Z.of_nat (Z.to_nat (nbits - 31))) mod 2 ^ 31).
  pose proof (mod_pow2_bounds (v ≫ Z.of_nat (Z.to_nat (nbits - 31))) 31 ltac:(lia)) as Hh.
  fold h in Hh. zcase.
  eapply get_res_map; [lia|apply IH; [lia|lia|exact Hat1|lia]|].
  intros pd'. cbn [negb Z.eqb]. do 3 f_equal.
  pose proof (mod_pow2_bounds v (nbits - 31) ltac:(lia)) as Hl.
  assert (Hsplit : v mod 2 ^ nbits = h * 2 ^ (nbits - 31) + v mod 2 ^ (nbits - 31)).
  { unfold h. rewrite Z2Nat.id, shiftr_div by lia. replace nbits with ((nbits - 31) + 31) at 1 by lia.
    rewrite pow2_split, Z.rem_mul_r by (pose proof (pow2_pos (nbits - 31)); lia). lia. }
  pose proof (mod_pow2_bounds v nbits ltac:(lia)).
  assert (2 ^ nbits <= 2 ^ 64) by (apply Z.pow_le_mono_r; lia).
  rewrite u64_small by (rewrite shiftl_mul by lia; lia).
  rewrite lor_shiftl_add by lia. done.
Qed.
End GetLemmas.

(** ** Length determinants *)

(** What [uper_put_length] returns: the whole length, or at most four
    sixteen-kilobyte fragments. *)
Definition length_fragment (len : Z) : Z :=
  if len <? 16384 then len else 16384 * Z.min 4 (len / 16384).

Definition length_bits (len : Z) : list bool :=
  if len <=? 127 then val_bits 8 len
  else if len <? 16384 then val_bits 8 (128 + len / 256) ++ val_bits 8 len
  else val_bits 8 (192 + Z.min 4 (len / 16384)).

(** A trailing empty fragment must follow. *)
Definition length_needs_eom (len : Z) : bool :=
  (16384 <=? len) && (len <=? 65536 + 16383) && (len mod 16384 =? 0).

Lemma uper_put_length_ok {S} `{AppendConsumer S} (po : asn_bit_outp S) len : 0 <= len ->
  po_wf po ->
  exists po', uper_put_length po len = Some (length_fragment len, length_needs_eom len, po') /\
    po_wf po' /\ po_bits po' = po_bits po ++ length_bits len.
Proof.
  intros Hlen Hw. unfold uper_put_length, length_fragment, length_bits, length_needs_eom.
  destruct (Z.leb_spec len 127).
  { destruct (per_put_few_ok po len 8) as (po' & -> & ? & ?); [done|lia|].
    exists po'. cbn [mbind option_bind negb Z.eqb]. zcases; done. }
  destruct (Z.ltb_spec len 16384).
  { destruct (per_put_few_ok po (Z.lor len 32768) 16) as (po' & -> & ? & Hb); [done|lia|].
    exists po'. cbn [mbind option_bind negb Z.eqb]. split_and!; [by zcases|done|].
    rewrite Hb. f_equal. change (Z.to_nat 16) with (8 + 8)%nat.
    replace (Z.lor len 32768) with (1 * 2 ^ 15 + len)
      by (rewrite Z.lor_comm; symmetry; apply (lor_shiftl_add 1 len 15); lia).
    rewrite val_bits_app, shiftr_div by lia. f_equal.
    - f_equal. change (2 ^ Z.of_nat 8) with 256. change (2 ^ 15) with 32768.
      Z.div_mod_to_equations; lia.
    - change (1 * 2 ^ 15) with (128 * 2 ^ Z.of_nat 8). by apply val_bits_high_add. }
  change 16383 with (2 ^ 14 - 1) at 1. rewrite land_ones_mod, shiftr_div by lia.
  change (2 ^ 14) with 16384. assert (1 <= len / 16384) by (Z.div_mod_to_equations; lia).
  assert (Hput : forall q, 1 <= q <= 4 ->
    put_res po (val_bits 8 (192 + q)) (per_put_few_bits po (Z.lor 192 q) 8) 0).
  { intros q Hq. replace (192 + q) with (Z.lor 192 q); [by apply (per_put_few_ok po _ 8); [|lia]|].
    apply (lor_shiftl_add 3 q 6); lia. }
  destruct (Z.ltb_spec 4 (len / 16384)).
  - rewrite Z.min_l by lia. destruct (Hput 4) as (po' & -> & ? & ?); [lia|].
    exists po'. cbn [mbind option_bind negb Z.eqb]. split_and!; [|done..].
    destruct (Z.leb_spec len (65536 + 16383)); [Z.div_mod_to_equations; lia|]. by rewrite andb_false_r.
  - rewrite Z.min_r by lia. destruct (Hput (len / 16384)) as (po' & -> & ? & ?); [lia|].
    exists po'. cbn [mbind option_bind negb Z.eqb]. split_and!; [|done..].
    rewrite shiftl_mul by lia. do 2 f_equal. f_equal; [change (2 ^ 14) with 16384; lia|].
    destruct (Z.leb_spec 16384 len); [|lia].
    destruct (Z.leb_spec len (65536 + 16383)); [done|Z.div_mod_to_equations; lia].
Qed.

(** The masks of the length determinant on a single octet. *)
Lemma octet_masks b : 0 <= b < 256 ->
  (Z.land b 128 =? 0) = (b <? 128) /\ Z.land b 127 = b mod 128 /\
  (Z.land b 64 =? 0) = (b mod 128 <? 64) /\ Z.land b 63 = b mod 64.
Proof.
  intros Hb.
  assert (Hall : forallb (fun b => Bool.eqb (Z.land b 128 =? 0) (b <? 128) &&
    (Z.land b 127 =? b mod 128) && Bool.eqb (Z.land b 64 =? 0) (b mod 128 <? 64) &&
    (Z.land b 63 =? b mod 64)) (seqZ 0 256) = true) by reflexivity.
  rewrite forallb_forall in Hall. specialize (Hall b).
  rewrite !andb_true_iff, !Z.eqb_eq, !Bool.eqb_true_iff in Hall.
  destruct Hall as [[[? ?] ?] ?]; [|done]. apply list_elem_of_In, elem_of_seqZ. lia.
Qed.

Lemma uper_get_length_at (pd : asn_per_data) len rest : 0 <= len ->
  pd_at pd (length_bits len ++ rest) ->
  get_res pd (Z.of_nat (length (length_bits len))) rest
    (uper_get_length pd (-1) 0) (length_fragment len, 16384 <=? len).
Proof.
  intros Hlen Hat. unfold uper_get_length. cbn [andb Z.leb Z.compare].
  assert (H8 : forall b tl, 0 <= b < 256 -> pd_at pd (val_bits 8 b ++ tl) ->
    get_res pd 8 tl (per_get_few_bits pd 8) b).
  { intros b tl Hb Hat'. replace b with (b mod 2 ^ 8) by (by apply Z.mod_small).
    by apply per_get_few_at. }
  unfold length_bits, length_fragment in *. destruct (Z.leb_spec len 127).
  { rewrite length_val_bits. eapply get_res_map; [lia|apply H8; [|exact Hat]; lia|]. intros pd'.
    destruct (octet_masks len) as (-> & -> & _ & _); [lia|].
    rewrite Z.mod_small by lia. by zcases. }
  destruct (Z.ltb_spec len 16384).
  { rewrite <- app_assoc in Hat. rewrite length_app, !length_val_bits.
    change (Z.of_nat (8 + 8)) with (8 + 8).
    eapply get_res_bind; [lia..| |].
    - apply H8; [|exact Hat]. Z.div_mod_to_equations; lia.
    - intros pd1 Hat1. cbn beta iota. destruct (octet_masks (128 + len / 256))
        as (-> & -> & -> & ->); [Z.div_mod_to_equations; lia|].
      destruct (Z.ltb_spec (128 + len / 256) 128); [Z.div_mod_to_equations; lia|].
      destruct (Z.ltb_spec ((128 + len / 256) mod 128) 64); [|Z.div_mod_to_equations; lia].
      eapply get_res_map; [lia|apply (per_get_few_at _ 8 len); [lia|exact Hat1]|]. intros pd2.
      rewrite lor_shiftl_add by (try apply mod_pow2_bounds; lia). zcases.
      change (2 ^ 8) with 256. do 4 f_equal. Z.div_mod_to_equations; lia. }
  rewrite length_val_bits. set (q := Z.min 4 (len / 16384)) in *.
  assert (1 <= q <= 4) by (unfold q; Z.div_mod_to_equations; lia).
  eapply get_res_map; [lia|apply H8; [|exact Hat]; lia|]. intros pd'.
  destruct (octet_masks (192 + q)) as (-> & -> & -> & ->); [lia|].
  replace ((192 + q) mod 128) with (64 + q) by (Z.div_mod_to_equations; lia).
  replace ((192 + q) mod 64) with q by (Z.div_mod_to_equations; lia).
  zcases. done.
Qed.

(** ** Normally small numbers *)

Lemma nslength_small_put {S} `{HC : Consumer S} `{HA : !AppendConsumer S} (po : asn_bit_outp S) len :
  1 <= len <= 64 -> po_wf po -> put_res po (val_bits 7 (len - 1)) (uper_put_nslength po len) 0.
Proof.
  intros Hlen Hw. unfold uper_put_nslength. zcases.
  eapply put_res_map; [by apply (per_put_few_ok po (len - 1) 7)|done].
Qed.

Lemma nslength_small_codec len : 1 <= len <= 64 ->
  codec (fun po => uper_put_nslength po len) uper_get_nslength (val_bits 7 (len - 1)) 0 len.
Proof.
  intros Hlen. split.
  - intros po Hw. by apply nslength_small_put.
  - intros pd rest Hat. rewrite length_val_bits. change (Z.of_nat 7) with (1 + 6).
    change 7%nat with (1 + 6)%nat in Hat. rewrite val_bits_app, <- app_assoc in Hat.
    eapply get_res_bind; [lia..|by apply (per_get_few_at pd 1)|]. intros pd1 Hat1.
    cbn beta iota. rewrite shiftr_div by lia.
    rewrite (Z.div_small (len - 1)) by (change (2 ^ Z.of_nat 6) with 64; lia).
    change (0 mod 2 ^ 1 =? 0) with true. cbn iota.
    eapply get_res_map; [lia|by apply (per_get_few_at pd1 6)|]. intros pd2.
    rewrite Z.mod_small by (change (2 ^ 6) with 64; lia). cbn zeta. zcases. do 2 f_equal. lia.
Qed.

(** The octets [uper_put_nslength] writes above 64 carry no leading 1 bit, so
    [uper_get_nslength] takes them for something else. *)
Lemma nslength_large_put (po : asn_bit_outp ByteBuffer) len : 64 < len < 16384 -> po_wf po ->
  put_res po (length_bits len) (uper_put_nslength po len) 0.
Proof.
  intros Hlen Hw. unfold uper_put_nslength. zcases.
  destruct (uper_put_length_ok po len) as (po' & -> & ? & ?); [lia|done|].
  cbn [mbind option_bind]. exists po'. unfold length_fragment, length_needs_eom. by zcases.
Qed.

Lemma nslength_large_get (pd : asn_per_data) len rest : 64 < len < 16384 ->
  pd_at pd (length_bits len ++ rest) ->
  exists pd', uper_get_nslength pd =
    Some (if len <? 128 then len / 2 + 1 else len / 128, pd').
Proof.
  intros Hlen Hat. unfold uper_get_nslength, length_bits in *.
  destruct (Z.leb_spec len 127).
  - rewrite (val_bits_app 7 1), (val_bits_app 1 6), <- !app_assoc in Hat.
    destruct (per_get_few_at pd 1 _ _ ltac:(lia) Hat) as (pd1 & -> & Hat1 & _).
    cbn [mbind option_bind]. rewrite !shiftr_div by lia.
    change (2 ^ Z.of_nat 1) with 2. change (2 ^ Z.of_nat 6) with 64. change (2 ^ 1) with 2.
    rewrite (Z.div_small (len / 2)) by (Z.div_mod_to_equations; lia). cbn [Z.eqb Z.modulo].
    change (0 mod 2 =? 0) with true. cbn iota.
    destruct (per_get_few_at pd1 6 _ _ ltac:(lia) Hat1) as (pd2 & -> & _).
    cbn [mbind option_bind]. rewrite shiftr_div by lia. change (2 ^ Z.of_nat 1) with 2.
    rewrite Z.mod_small by (change (2 ^ 6) with 64; Z.div_mod_to_equations; lia).
    exists pd2. zcases; try done; Z.div_mod_to_equations; lia.
  - destruct (Z.ltb_spec len 16384); [|lia]. replace (val_bits 8 (128 + len / 256) ++ val_bits 8 len)
      with (val_bits (1 + (8 + 7)) (128 * 2 ^ Z.of_nat 8 + len)) in Hat.
    2: { rewrite (val_bits_app 8 8), shiftr_div by lia. f_equal.
         - f_equal. change (2 ^ Z.of_nat 8) with 256. Z.div_mod_to_equations; lia.
         - by apply val_bits_high_add. }
    set (v := 128 * 2 ^ Z.of_nat 8 + len) in *.
    assert (Hv : v = 32768 + len) by (unfold v; change (2 ^ Z.of_nat 8) with 256; lia).
    clearbody v. rewrite (val_bits_app 1 15), (val_bits_app 8 7), <- !app_assoc in Hat.
    destruct (per_get_few_at pd 1 _ _ ltac:(lia) Hat) as (pd1 & -> & Hat1 & _).
    cbn [mbind option_bind]. rewrite !shiftr_div by lia.
    change (2 ^ Z.of_nat 15) with 32768. change (2 ^ 1) with 2.
    replace ((v / 32768) mod 2) with 1 by (Z.div_mod_to_equations; lia). cbn [Z.eqb].
    unfold uper_get_length. cbn [andb Z.leb Z.compare].
    destruct (per_get_few_at pd1 8 _ _ ltac:(lia) Hat1) as (pd2 & -> & _).
    cbn [mbind option_bind]. rewrite shiftr_div by lia. change (2 ^ Z.of_nat 7) with 128.
    change (2 ^ 8) with 256.
    replace ((v / 128) mod 256) with (len / 128) by (Z.div_mod_to_equations; lia).
    destruct (octet_masks (len / 128)) as (-> & -> & _ & _); [Z.div_mod_to_equations; lia|].
    destruct (Z.ltb_spec (len / 128) 128); [|Z.div_mod_to_equations; lia].
    cbn [mbind option_bind]. rewrite Z.mod_small by (Z.div_mod_to_equations; lia).
    exists pd2. zcases; try done; Z.div_mod_to_equations; lia.
Qed.

Lemma nsnnwn_put {S} `{AppendConsumer S} (po : asn_bit_outp S) n : 0 <= n <= 63 -> po_wf po ->
  put_res po (val_bits 7 n) (uper_put_nsnnwn po n) 0.
Proof. intros Hn Hw. unfold uper_put_nsnnwn. zcases. by apply (per_put_few_ok po n 7). Qed.

Lemma nsnnwn_get (pd : asn_per_data) n rest : 0 <= n <= 63 -> pd_at pd (val_bits 7 n ++ rest) ->
  get_res pd 7 rest (uper_get_nsnnwn pd) n.
Proof.
  intros Hn Hat. eapply get_res_map; [lia|by apply (per_get_few_at pd 7 n)|]. intros pd'.
  rewrite Z.mod_small by (change (2 ^ 7) with 128; lia).
  destruct (octet_masks n) as (_ & _ & -> & _); [lia|].
  rewrite Z.mod_small by lia. by zcases.
Qed.

Lemma nsnnwn_small_codec n : 0 <= n <= 63 ->
  codec (fun po => uper_put_nsnnwn po n) uper_get_nsnnwn (val_bits 7 n) 0 n.
Proof.
  intros Hn. split; [intros; by apply nsnnwn_put|]. intros. rewrite length_val_bits. by apply nsnnwn_get.
Qed.

(** Octets [uper_put_nsnnwn] uses for [n] above 63. *)
Definition nsnnwn_octets (n : Z) : Z :=
  if n <? 256 then 1 else if n <? 65536 then 2 else 3.

Lemma nsnnwn_large_put (po : asn_bit_outp ByteBuffer) n : 63 < n < 256 * 65536 -> po_wf po ->
  put_res po (val_bits 8 (nsnnwn_octets n) ++ val_bits (Z.to_nat (8 * nsnnwn_octets n)) n)
    (uper_put_nsnnwn po n) 0.
Proof.
  intros Hn Hw. unfold uper_put_nsnnwn, nsnnwn_octets. zcases.
  all: eapply put_res_bind; [by apply (per_put_few_ok po _ 8)|]; intros po' Hw'.
  all: by apply per_put_few_ok.
Qed.

Lemma nsnnwn_large_get (pd : asn_per_data) n rest : 63 < n < 256 * 65536 ->
  pd_at pd (val_bits 8 (nsnnwn_octets n) ++ rest) ->
  exists pd', uper_get_nsnnwn pd = Some (nsnnwn_octets n / 2, pd').
Proof.
  intros Hn Hat. rewrite (val_bits_app 7 1), <- app_assoc in Hat.
  destruct (per_get_few_at pd 7 _ _ ltac:(lia) Hat) as (pd1 & Hg & _).
  unfold uper_get_nsnnwn. rewrite Hg. cbn [mbind option_bind]. exists pd1.
  unfold nsnnwn_octets. zcases; done.
Qed.

(** ** Ranges of a [long] *)

Lemma per__long_range_ok lb ub : is_long lb -> is_long ub -> lb <= ub ->
  per__long_range lb ub = Some (0, ub - lb).
Proof.
  intros Hl Hu Hle. unfold per__long_range.
  destruct (Z.ltb_spec ub 0), (Z.ltb_spec lb 0); cbn [Bool.eqb]; try lia.
  - rewrite chk_long_Some by (long_bounds; lia). cbn [mbind option_bind].
    rewrite u64_long by (long_bounds; lia). done.
  - rewrite !chk_long_Some by (long_bounds; lia). cbn [mbind option_bind].
    rewrite chk_long_Some by (long_bounds; lia). cbn [mbind option_bind].
    rewrite u64_add_mod, u64_add_r, u64_long by (long_bounds; lia). do 2 f_equal. lia.
  - rewrite chk_long_Some by (long_bounds; lia). cbn [mbind option_bind].
    rewrite u64_long by (long_bounds; lia). done.
Qed.

Lemma per_long_range_rebase_ok v lb ub : is_long lb -> is_long ub -> lb <= v <= ub ->
  per_long_range_rebase v lb ub = Some (0, v - lb).
Proof.
  intros Hl Hu Hv. unfold per_long_range_rebase. zcases.
  all: rewrite per__long_range_ok by (done || lia); cbn [mbind option_bind Z.ltb Z.compare Bool.eqb].
  all: try (rewrite chk_long_Some by (long_bounds; lia); cbn [mbind option_bind];
            rewrite u64_long by (long_bounds; lia); done).
  rewrite !chk_long_Some by (long_bounds; lia). cbn [mbind option_bind].
  rewrite chk_long_Some by (long_bounds; lia). cbn [mbind option_bind].
  assert (Hr : u64 (1 + u64 (- (lb + 1)) + u64 v) = v - lb).
  { rewrite u64_add_r, <- Z.add_assoc, (Z.add_comm (u64 _)), Z.add_assoc, u64_add_r.
    rewrite u64_long by (long_bounds; lia). lia. }
  rewrite Hr. by zcase.
Qed.

Lemma per_long_range_unrebase_ok r lb ub : is_long lb -> is_long ub -> lb <= ub ->
  0 <= r -> per_long_range_unrebase r lb ub =
    if ub - lb <? r then Some (-1, 0) else Some (0, lb + r).
Proof.
  intros Hl Hu Hle Hr. unfold per_long_range_unrebase.
  rewrite per__long_range_ok by done. cbn [mbind option_bind negb Z.eqb].
  destruct (Z.ltb_spec (ub - lb) r); [done|]. destruct (Z.leb_spec r LONG_MAX).
  - rewrite chk_long_Some by (long_bounds; lia). cbn [mbind option_bind]. do 2 f_equal. lia.
  - rewrite chk_long_Some by (long_bounds; lia). cbn [mbind option_bind].
    rewrite chk_long_Some by (long_bounds; lia). cbn [mbind option_bind].
    rewrite chk_long_Some by (long_bounds; lia). cbn [mbind option_bind]. do 2 f_equal. lia.
Qed.

(** ** Properties *)

(** Constrained whole numbers of any width up to 64 bits: writing emits
    exactly the low [nbits] bits of the value and reading them back yields
    the value modulo [2 ^ nbits], from any well-formed position of a stream
    and whatever follows. *)
Theorem constrained_whole_number_roundtrip (v nbits : Z) : 0 <= nbits <= 64 ->
  codec (fun po => uper_put_constrained_whole_number_u po v nbits)
    (fun pd => '(rc, v, pd) ← uper_get_constrained_whole_number pd nbits; Some ((rc, v), pd))
    (val_bits (Z.to_nat nbits) v) 0 (0, v mod 2 ^ nbits).
Proof.
  intros Hn. split.
  - intros po Hw. apply put_whole_number_ok; [done|lia|lia].
  - intros pd rest Hat. rewrite length_val_bits, Z2Nat.id by lia.
    eapply get_res_map; [lia|apply (get_whole_number_at 3); [lia|cbn; lia|exact Hat|lia]|done].
Qed.

Lemma constrained_whole_number_roundtrip_witness :
  codec (fun po => uper_put_constrained_whole_number_u po (2 ^ 64 - 3) 64)
    (fun pd => '(rc, v, pd) ← uper_get_constrained_whole_number pd 64; Some ((rc, v), pd))
    (val_bits (Z.to_nat 64) (2 ^ 64 - 3)) 0 (0, (2 ^ 64 - 3) mod 2 ^ 64).
Proof. apply constrained_whole_number_roundtrip. lia. Defined.

(** Length determinants: for every non-negative length [uper_put_length]
    reports how much of it this determinant covers (the length itself below
    16384, otherwise up to four fragments of 16384) and whether an empty
    fragment must follow, and [uper_get_length] reads back the same count,
    with [repeat] set exactly when the length was fragmented. *)
Theorem length_determinant_roundtrip (len : Z) : 0 <= len ->
  codec (fun po => '(r, eom, po) ← uper_put_length po len; Some ((r, eom), po))
    (fun pd => uper_get_length pd (-1) 0) (length_bits len)
    (length_fragment len, length_needs_eom len) (length_fragment len, 16384 <=? len).
Proof.
  intros Hlen. split.
  - intros po Hw. destruct (uper_put_length_ok po len Hlen Hw) as (po' & -> & ? & ?). by exists po'.
  - intros pd rest Hat. by apply uper_get_length_at.
Qed.

Lemma length_determinant_roundtrip_witness :
  codec (fun po => '(r, eom, po) ← uper_put_length po 32768; Some ((r, eom), po))
    (fun pd => uper_get_length pd (-1) 0) (length_bits 32768)
    (length_fragment 32768, length_needs_eom 32768) (length_fragment 32768, 16384 <=? 32768).
Proof. apply length_determinant_roundtrip. lia. Defined.

(** Normally small lengths 1..64 and normally small numbers 0..63 are read
    back as they were written. *)
Theorem normally_small_roundtrip (len n : Z) : 1 <= len <= 64 -> 0 <= n <= 63 ->
  codec (fun po => uper_put_nslength po len) uper_get_nslength (val_bits 7 (len - 1)) 0 len /\
  codec (fun po => uper_put_nsnnwn po n) uper_get_nsnnwn (val_bits 7 n) 0 n.
Proof. intros. split; [by apply nslength_small_codec|by apply nsnnwn_small_codec]. Qed.

Lemma normally_small_roundtrip_witness :
  codec (fun po => uper_put_nslength po 64) uper_get_nslength (val_bits 7 (64 - 1)) 0 64 /\
  codec (fun po => uper_put_nsnnwn po 63) uper_get_nsnnwn (val_bits 7 63) 0 63.
Proof. apply normally_small_roundtrip; lia. Defined.

(** Beyond those ranges the writers omit the leading 1 bit the readers look
    for: what [uper_put_nslength] emits for 65..16383 is accepted by
    [uper_get_nslength] as a different length, and what [uper_put_nsnnwn]
    emits for 64 and more is read by [uper_get_nsnnwn] as 0 or 1. *)
Theorem normally_small_large_misread (len n : Z) :
  64 < len < 16384 -> 63 < n < 256 * 65536 ->
  forall po : asn_bit_outp ByteBuffer, po_wf po ->
  (exists bs, put_res po bs (uper_put_nslength po len) 0 /\
     forall pd rest, pd_at pd (bs ++ rest) ->
       exists r pd', uper_get_nslength pd = Some (r, pd') /\ 0 < r < len) /\
  (exists bs, put_res po bs (uper_put_nsnnwn po n) 0 /\
     forall pd rest, pd_at pd (bs ++ rest) ->
       exists r pd', uper_get_nsnnwn pd = Some (r, pd') /\ 0 <= r <= 1).
Proof.
  intros Hlen Hn po Hw. split; eexists; (split; [by apply nslength_large_put ||
    by apply nsnnwn_large_put|]); intros pd rest Hat.
  - destruct (nslength_large_get pd len rest Hlen Hat) as (pd' & ->).
    eexists _, pd'. split; [done|]. destruct (Z.ltb_spec len 128); Z.div_mod_to_equations; lia.
  - rewrite <- app_assoc in Hat.
    destruct (nsnnwn_large_get pd n _ Hn Hat) as (pd' & ->).
    eexists _, pd'. split; [done|]. unfold nsnnwn_octets. zcases; done.
Qed.

Lemma normally_small_large_misread_witness :
  (exists bs, put_res (po_of_key {| bb_bytes := [] |}) bs
       (uper_put_nslength (po_of_key {| bb_bytes := [] |}) 65) 0 /\
     forall pd rest, pd_at pd (bs ++ rest) ->
       exists r pd', uper_get_nslength pd = Some (r, pd') /\ 0 < r < 65) /\
  (exists bs, put_res (po_of_key {| bb_bytes := [] |}) bs
       (uper_put_nsnnwn (po_of_key {| bb_bytes := [] |}) 64) 0 /\
     forall pd rest, pd_at pd (bs ++ rest) ->
       exists r pd', uper_get_nsnnwn pd = Some (r, pd') /\ 0 <= r <= 1).
Proof. apply normally_small_large_misread; [lia|lia|exact po_empty_wf]. Defined.

(** Rebasing a [long] into a range: for all bounds and values representable
    as [long], no signed operation overflows and no assertion fails; a value
    inside the range becomes its distance from the lower bound and comes
    back unchanged, a value outside it and a distance beyond the range's
    width are refused. *)
Theorem long_range_rebase_correct (v r lb ub : Z) :
  is_long lb -> is_long ub -> is_long v -> 0 <= r -> lb <= ub ->
  per_long_range_rebase v lb ub =
    (if (v <? lb) || (ub <? v) then Some (-1, 0) else Some (0, v - lb)) /\
  per_long_range_unrebase r lb ub =
    (if ub - lb <? r then Some (-1, 0) else Some (0, lb + r)).
Proof.
  intros Hl Hu Hv Hr Hle. split; [|by apply per_long_range_unrebase_ok].
  destruct (Z.ltb_spec v lb), (Z.ltb_spec ub v); cbn [orb].
  4: by apply per_long_range_rebase_ok.
  all: unfold per_long_range_rebase; by zcases.
Qed.

Lemma long_range_rebase_correct_witness :
  per_long_range_rebase (-1) LONG_MIN LONG_MAX =
    (if (-1 <? LONG_MIN) || (LONG_MAX <? -1) then Some (-1, 0) else Some (0, -1 - LONG_MIN)) /\
  per_long_range_unrebase (2 ^ 64 - 1) LONG_MIN LONG_MAX =
    (if LONG_MAX - LONG_MIN <? 2 ^ 64 - 1 then Some (-1, 0) else Some (0, LONG_MIN + (2 ^ 64 - 1))).
Proof. apply long_range_rebase_correct; long_bounds; lia. Defined.
