(* ===== verification/PerNatural.v ===== *)
(** * Writers do not look behind the callback

    Every routine that writes bits treats the state behind its callback as
    opaque: mapping that state by a function the callback commutes with, and
    then writing, is the same as writing and then mapping.  [size_per], whose
    callback drops its octets, is related to [encode_per] this way.  A log of
    the chunks handed out is such a state, and [replay] hands it to another
    callback. *)
From S2P Require Import Prelude Consumer BitData PerSupport.

Section Natural.
Context {S1 S2 : Type} `{C1 : Consumer S1} `{C2 : Consumer S2} (f : S1 -> S2).

Definition po_map (po : asn_bit_outp S1) : asn_bit_outp S2 :=
  {| po_buffer := po_buffer po; po_nboff := po_nboff po; po_nbits := po_nbits po;
     po_tmpspace := po_tmpspace po; po_key := f (po_key po); po_flushed := po_flushed po |}.

(** The image of a writer's result. *)
Definition res_map {A} (r : option (A * asn_bit_outp S1)) : option (A * asn_bit_outp S2) :=
  '(a, po) ← r; Some (a, po_map po).

Definition consumer_morphism : Prop :=
  forall d s, consume d (f s) = ((consume d s).1, f (consume d s).2).

Hypothesis Hf : consumer_morphism.

Lemma res_map_bind {A B} (r1 : option (A * asn_bit_outp S1)) r2
    (k1 : A * asn_bit_outp S1 -> option (B * asn_bit_outp S1))
    (k2 : A * asn_bit_outp S2 -> option (B * asn_bit_outp S2)) :
  r2 = res_map r1 -> (forall a po, k2 (a, po_map po) = res_map (k1 (a, po))) ->
  r2 ≫= k2 = res_map (r1 ≫= k1).
Proof. intros -> Hk. destruct r1 as [[a po]|]; [|done]. apply Hk. Qed.

(** A step that does not touch the stream. *)
Lemma res_map_read {A B} (r : option A) (k1 : A -> option (B * asn_bit_outp S1)) k2 :
  (forall a, k2 a = res_map (k1 a)) -> r ≫= k2 = res_map (r ≫= k1).
Proof. intros Hk. destruct r; [|done]. cbn. apply Hk. Qed.

Lemma res_map_if {B} (b : bool) (t1 e1 : option (B * asn_bit_outp S1)) t2 e2 :
  t2 = res_map t1 -> e2 = res_map e1 ->
  (if b then t2 else e2) = res_map (if b then t1 else e1).
Proof. by destruct b. Qed.

Lemma po_normalize_map po : po_normalize (po_map po) = po_map (po_normalize po).
Proof. unfold po_normalize, po_map; cbn. by case_match. Qed.

Lemma po_map_nboff po : po_nboff (po_map po) = po_nboff po. Proof. done. Qed.
Lemma po_map_buffer po : po_buffer (po_map po) = po_buffer po. Proof. done. Qed.
Lemma po_map_tmpspace po : po_tmpspace (po_map po) = po_tmpspace po. Proof. done. Qed.

Lemma po_set_map po o t : po_set (po_map po) o t = po_map (po_set po o t).
Proof. done. Qed.

Lemma po_make_room_map po n : po_make_room (po_map po) n = res_map (po_make_room po n).
Proof.
  unfold po_make_room. cbn [po_map po_nbits po_nboff po_buffer po_tmpspace po_key po_flushed].
  apply res_map_if; [|done]. rewrite Hf. destruct (consume _ _) as [rc k]. cbn.
  case_match; [done|]. by apply res_map_read.
Qed.
End Natural.

(** Descends through a writer's code, one construct per step. *)
Ltac natural_step :=
  lazymatch goal with
  | |- Some _ = res_map _ (Some _) => reflexivity
  | |- (if ?b then _ else _) = res_map _ (if ?b then _ else _) => apply res_map_if
  | |- (match ?x with None => _ | Some _ => _ end) = res_map _ (match ?x with None => _ | Some _ => _ end) =>
    destruct x; [|reflexivity]
  | |- (let (_, _) := ?x in _) = _ => destruct x
  | |- _ = res_map _ (mbind _ _) => (apply res_map_read; intros; cbn beta iota zeta) ||
      (apply res_map_bind; [|intros; cbn beta iota zeta])
  | _ => eauto with natural
  end.
Ltac natural :=
  repeat (cbn beta iota zeta; rewrite ?po_map_nboff, ?po_map_buffer, ?po_map_tmpspace; natural_step).

Create HintDb natural.
#[export] Hint Resolve po_make_room_map : natural.
#[export] Hint Extern 1 (consumer_morphism _) => assumption : natural.

Section Writers.
Context {S1 S2 : Type} `{C1 : Consumer S1} `{C2 : Consumer S2} (f : S1 -> S2).
Hypothesis Hf : consumer_morphism f.

Lemma put_few_map fuel po v n :
  asn_put_few_bits fuel (po_map f po) v n = res_map f (asn_put_few_bits fuel po v n).
Proof.
  revert po v n. induction fuel as [|fuel IH]; intros po v n; [done|].
  cbn [asn_put_few_bits]. rewrite po_normalize_map. natural.
Qed.

Lemma put_many_map po src n :
  asn_put_many_bits (po_map f po) src n = res_map f (asn_put_many_bits po src n).
Proof.
  unfold asn_put_many_bits. generalize (Datatypes.S (Z.to_nat n)) as fuel. intros fuel.
  revert po src n. induction fuel as [|fuel IH]; intros po src n; [done|].
  cbn [put_many_loop]. pose proof put_few_map. natural.
Qed.

Lemma per_put_few_map po v n :
  per_put_few_bits (po_map f po) v n = res_map f (per_put_few_bits po v n).
Proof. apply put_few_map. Qed.

Lemma put_whole_map po v n :
  uper_put_constrained_whole_number_u (po_map f po) v n =
  res_map f (uper_put_constrained_whole_number_u po v n).
Proof.
  unfold uper_put_constrained_whole_number_u. generalize (Datatypes.S (Z.to_nat n)) as fuel.
  intros fuel. revert po v n. induction fuel as [|fuel IH]; intros po v n; [done|].
  cbn [put_whole_number]. pose proof per_put_few_map. natural.
Qed.

Lemma put_length_map po n :
  uper_put_length (po_map f po) n = res_map f (uper_put_length po n).
Proof.
  unfold uper_put_length. destruct (4 <? n ≫ 14); cbn beta iota zeta;
    pose proof per_put_few_map; natural.
Qed.

Lemma put_nslength_map po n :
  uper_put_nslength (po_map f po) n = res_map f (uper_put_nslength po n).
Proof.
  unfold uper_put_nslength. pose proof per_put_few_map; pose proof put_length_map. natural.
Qed.

Lemma put_nsnnwn_map po n :
  uper_put_nsnnwn (po_map f po) n = res_map f (uper_put_nsnnwn po n).
Proof. unfold uper_put_nsnnwn. pose proof per_put_few_map. natural. Qed.
End Writers.

#[export] Hint Resolve put_many_map per_put_few_map put_whole_map put_length_map
  put_nslength_map put_nsnnwn_map : natural.

Lemma write_null_morphism : consumer_morphism (fun _ : ByteBuffer => tt).
Proof. done. Qed.

(** ** The log of a callback

    The chunks an encoder hands over, one by one; replayed, they put any
    callback that never fails in the state it would have come to. *)
Definition patient (S : Type) `{Consumer S} : Prop := forall d (k : S), (consume d k).1 = 0%Z.

Definition hand_over {S} `{Consumer S} (chunks : list (list Z)) (key : S) : S := foldl (fun k d => (consume d k).2) key chunks.

Record chunk_log := { chunks : list (list Z) }.
#[export] Instance log_consumer : Consumer chunk_log := fun d log => (0%Z, {| chunks := chunks log ++ [d] |}).
#[export] Instance log_append : AppendConsumer chunk_log.
Proof. exists (fun log => concat (chunks log)); [done|]. intros d s. cbn. rewrite concat_app. cbn. by rewrite app_nil_r. Defined.

Definition replay {S} `{Consumer S} (key : S) (log : chunk_log) : S := hand_over (chunks log) key.

Lemma hand_over_app {S} `{Consumer S} cs cs' (key : S) : hand_over (cs ++ cs') key = hand_over cs' (hand_over cs key).
Proof. apply foldl_app. Qed.

Lemma hand_over_cons {S} `{Consumer S} d cs (key : S) : hand_over (d :: cs) key = hand_over cs (consume d key).2.
Proof. done. Qed.

Lemma append_patient {S} `{AppendConsumer S} : patient S.
Proof. intros d k. apply consume_rc. Qed.

Lemma replay_morphism {S} `{Consumer S} (key : S) : patient S -> consumer_morphism (replay key).
Proof.
  intros Hp d log. unfold replay. cbn [consume log_consumer snd fst chunks]. rewrite hand_over_app. cbn [hand_over foldl].
  rewrite <- (Hp d (hand_over (chunks log) key)). apply surjective_pairing.
Qed.

Lemma hand_over_written {S} `{AppendConsumer S} cs (key : S) : written (hand_over cs key) = written key ++ concat cs.
Proof. revert key. induction cs as [|d cs IH]; intros key; [by rewrite app_nil_r|]. rewrite hand_over_cons, IH, written_consume, <- app_assoc. done. Qed.
