(* ===== verification/PerCodec.v ===== *)
(** * PER entry points (support/per_encoder.c, support/per_decoder.c,
    support/per_opentype.c, asn1/asn1c_wrapper.cpp)

    The type-independent part of the packed encoding: running a type's own
    encoder or decoder over a buffer, open type fields, and the functions the
    C++ wrapper offers.  [PerType] is what a type descriptor contributes;
    [PerTypeLaws] is the contract its codec must keep, and the theorems here
    are proved against that contract alone. *)
From S2P Require Import Prelude Outcome Consumer BitData PerSupport PerNatural.

(** ** Type descriptors *)

Inductive asn_dec_rval_code := RC_OK | RC_WMORE | RC_FAIL.

#[export] Instance asn_dec_rval_code_eq_dec : EqDecision asn_dec_rval_code.
Proof. solve_decision. Defined.

(** The PER operations of a type descriptor; [None] is a null pointer.  An
    encoder returns [er.encoded], a decoder its code and the structure. *)
Class PerType (T : Type) := {
  op_uper_encoder : option (forall S, Consumer S -> T -> asn_bit_outp S -> option (Z * asn_bit_outp S));
  op_uper_decoder : option (asn_per_data -> option (asn_dec_rval_code * option T * asn_per_data))
}.

(** Reading the encoding of a value yields it and leaves what follows. *)
Definition dec_res {T} (pd : asn_per_data) (n : Z) (rest : list bool)
    (r : option (asn_dec_rval_code * option T * asn_per_data)) (t : T) : Prop :=
  exists pd', r = Some (RC_OK, Some t, pd') /\ pd_at pd' rest /\ pd_read pd n pd'.

Class PerTypeLaws (T : Type) `{PerType T} := {
  per_dom : T -> Prop;
  per_bits : T -> list bool;
  per_enc_law : exists enc, op_uper_encoder = Some enc /\
    (forall S (C : Consumer S) (A : AppendConsumer S) (po : asn_bit_outp S) t, per_dom t -> po_wf po ->
      exists e, e <> -1 /\ put_res po (per_bits t) (enc S C t po) e) /\
    (forall S1 S2 (C1 : Consumer S1) (C2 : Consumer S2) (f : S1 -> S2), consumer_morphism f ->
      forall po t, enc S2 C2 t (po_map f po) = res_map f (enc S1 C1 t po));
  per_dec_law : exists dec, op_uper_decoder = Some dec /\
    forall pd t rest, per_dom t -> pd_at pd (per_bits t ++ rest) ->
      dec_res pd (Z.of_nat (length (per_bits t))) rest (dec pd) t
}.

(** ** Encoding *)

(** [_uper_encode_flush_outp]. *)
Definition uper_encode_flush_outp {S} `{Consumer S} (po : asn_bit_outp S) : option (Z * S) :=
  buffer ← po_buffer po;
  if (po_nboff po =? 0) && (buffer =? 0) then Some (0, po_key po) else
  let buf := buffer + (po_nboff po ≫ 3) in
  let bits := Z.land (po_nboff po) 7 in
  '(tmp, buf) ← (if negb (bits =? 0) then
      b ← read (po_tmpspace po) buf;
      t ← store (po_tmpspace po) buf (Z.land b (255 ≪ (8 - bits)));
      Some (t, buf + 1)
    else Some (po_tmpspace po, buf));
  Some (consume (take (Z.to_nat buf) tmp) (po_key po)).

(** er.encoded and the state behind the callback. *)
Definition uper_encode {T} `{PerType T} {S} `{C : Consumer S} (t : T) (key : S) : option (Z * S) :=
  match op_uper_encoder with
  | None => Some (-1, key)
  | Some enc =>
    '(encoded, po) ← enc S C t (po_of_key key);
    if encoded =? -1 then Some (-1, po_key po) else
    buffer ← po_buffer po;
    let bits_to_flush := (buffer ≪ 3) + po_nboff po in
    let encoded := (po_flushed po ≪ 3) + bits_to_flush in
    '(rc, key) ← uper_encode_flush_outp po;
    Some (if negb (rc =? 0) then -1 else encoded, key)
  end.

(** enc_to_buf_arg: the octets stored and the room left. *)
Record enc_to_buf_arg := { etb_stored : list Z; etb_left : Z }.

Definition encode_to_buffer_cb (d : list Z) (arg : enc_to_buf_arg) : Z * enc_to_buf_arg :=
  let size := Z.of_nat (length d) in
  if etb_left arg <? size then (-1, arg)
  else (0, {| etb_stored := etb_stored arg ++ d; etb_left := etb_left arg - size |}).

#[export] Instance encode_to_buffer_consumer : Consumer enc_to_buf_arg := encode_to_buffer_cb.

Definition uper_encode_to_buffer {T} `{PerType T} (t : T) (buffer_size : Z) : option (Z * list Z) :=
  '(encoded, key) ← uper_encode t {| etb_stored := []; etb_left := buffer_size |};
  Some (encoded, etb_stored key).

(** enc_dyn_arg: the octets stored in a buffer of [dyn_allocated]. *)
Record enc_dyn_arg := { dyn_buffer : list Z; dyn_allocated : Z }.

(** do new_size <<= 2 while(length + size >= new_size) *)
Fixpoint dyn_grow (fuel : nat) (new_size needed : Z) : Z :=
  match fuel with
  | O => new_size
  | S fuel =>
    let new_size := new_size ≪ 2 in
    if new_size <=? needed then dyn_grow fuel new_size needed else new_size
  end.

Definition encode_dyn_cb (d : list Z) (arg : enc_dyn_arg) : Z * enc_dyn_arg :=
  let needed := Z.of_nat (length (dyn_buffer arg)) + Z.of_nat (length d) in
  let allocated :=
    if dyn_allocated arg <=? needed
    then dyn_grow 64 (if dyn_allocated arg =? 0 then 8 else dyn_allocated arg) needed
    else dyn_allocated arg in
  (0, {| dyn_buffer := dyn_buffer arg ++ d; dyn_allocated := allocated |}).

#[export] Instance encode_dyn_consumer : Consumer enc_dyn_arg := encode_dyn_cb.
#[export] Instance encode_dyn_append : AppendConsumer enc_dyn_arg.
Proof. by exists dyn_buffer. Defined.

(** Return value and the new buffer. *)
Definition uper_encode_to_new_buffer {T} `{PerType T} (t : T) : option (Z * list Z) :=
  '(encoded, key) ← uper_encode t {| dyn_buffer := []; dyn_allocated := 0 |};
  Some (if encoded =? -1 then (-1, [])
        else if encoded =? 0 then (1, [0])
        else ((encoded + 7) ≫ 3, dyn_buffer key)).

(** ** Decoding *)

(** Code, rval.consumed, structure.  A failed assertion is [None]. *)
Definition uper_decode {T} `{PerType T} (buffer : list Z) (skip_bits unused_bits : Z) :
    option (asn_dec_rval_code * Z * option T) :=
  let size := Z.of_nat (length buffer) in
  if (skip_bits <? 0) || (7 <? skip_bits) || (unused_bits <? 0) || (7 <? unused_bits) ||
     ((0 <? unused_bits) && (size =? 0))
  then Some (RC_FAIL, 0, None) else
  let nbits := 8 * size - unused_bits in
  if nbits <? skip_bits then Some (RC_FAIL, 0, None) else
  match op_uper_decoder with
  | None => Some (RC_FAIL, 0, None)
  | Some dec =>
    '(code, st, pd) ← dec (pd_of_buffer buffer skip_bits nbits);
    if decide (code = RC_OK) then
      let consumed := ((size - Z.of_nat (length (pd_buffer pd))) ≪ 3) + pd_nboff pd - skip_bits in
      if consumed =? pd_moved pd then Some (code, consumed, st) else None
    else Some (code, 0, st)
  end.

Definition uper_decode_complete {T} `{PerType T} (buffer : list Z) :
    option (asn_dec_rval_code * Z * option T) :=
  '(code, consumed, st) ← uper_decode buffer 0 0;
  if negb (consumed =? 0) then Some (code, (consumed + 7) ≫ 3, st)
  else if decide (code = RC_OK) then
    if negb (Z.of_nat (length buffer) =? 0) then
      b ← read buffer 0;
      Some (if b =? 0 then (code, 1, st) else (RC_FAIL, consumed, st))
    else Some (RC_WMORE, consumed, st)
  else Some (code, consumed, st).

(** ** asn1c_wrapper.cpp *)

Definition size_per {T} `{PerType T} (t : T) : outcome Z :=
  '(encoded, _) ← checked (uper_encode (S := unit) t tt);
  if encoded <? 0 then Throw runtime_error else Ret ((encoded + 7) / 8).

Definition encode_per {T} `{PerType T} (t : T) : outcome (list Z) :=
  '(encoded, buffer) ← checked (uper_encode t {| bb_bytes := [] |});
  if encoded =? -1 then Throw runtime_error else Ret (bb_bytes buffer).

(** The returned flag and the structure. *)
Definition decode_per {T} `{PerType T} (buffer : list Z) : outcome (bool * option T) :=
  '(code, _, st) ← checked (uper_decode_complete buffer);
  Ret (bool_decide (code = RC_OK), st).

(** ** Lemmas: output *)

Section Output.
Context {S : Type} `{HC : Consumer S} `{HA : !AppendConsumer S}.
Implicit Types po : asn_bit_outp S.

Lemma mask_255 b k : byte_ok b -> 0 <= k <= 8 -> Z.land b (255 ≪ k) = Z.land b (Z.lnot (2 ^ k - 1)).
Proof.
  intros Hb Hk. apply Z.bits_inj'. intros i Hi. rewrite !Z.land_spec.
  destruct (decide (i < 8)) as [Hi8|Hi8].
  - f_equal. rewrite Z.shiftl_spec, Z.lnot_spec by lia.
    replace (2 ^ k - 1) with (Z.ones k) by (rewrite Z.ones_equiv; lia).
    change 255 with (Z.ones 8). rewrite !Z.testbit_ones by lia. zcases; done.
  - unfold byte_ok in Hb. rewrite <- (Z.mod_small b (2 ^ 8)) by (change (2 ^ 8) with 256; lia).
    by rewrite Z.mod_pow2_bits_high by lia.
Qed.

Lemma po_bits_count po : po_wf po -> exists b, po_buffer po = Some b /\
  (po_flushed po ≪ 3) + ((b ≪ 3) + po_nboff po) = Z.of_nat (length (po_bits po)).
Proof.
  intros (b & Hb & Hb0 & Hl & Hok & Ho & Hn & Hwk & Hfl). exists b. split; [done|].
  unfold po_bits. rewrite Hb. cbn [default from_option id].
  rewrite length_app, length_take, !length_bytes_bits, !shiftl_mul, Hfl, Hl by lia.
  change (2 ^ 3) with 8. lia.
Qed.

(** The final flush hands over all the bits, padded to an octet. *)
Lemma flush_outp_ok po : po_wf po -> exists key,
  uper_encode_flush_outp po = Some (0, key) /\ bytes_ok (written key) /\
  bytes_bits (written key) = pad8 (po_bits po).
Proof.
  intros (b & Hat). pose proof Hat as (Hb & Hb0 & Hl & Hok & Ho & Hn & Hwk & Hfl).
  unfold uper_encode_flush_outp. rewrite Hb. cbn [mbind option_bind].
  assert (Hpad : forall l, length l = Z.to_nat (8 * b + po_nboff po) ->
    pad8 (bytes_bits (written (po_key po)) ++ l) = bytes_bits (written (po_key po)) ++ pad8 l).
  { intros l _. apply pad8_aligned. rewrite length_bytes_bits, Nat.mul_comm. by apply Nat.Div0.mod_mul. }
  unfold po_bits. rewrite Hb. cbn [default from_option id].
  destruct (Z.eqb_spec (po_nboff po) 0) as [H0|H0], (Z.eqb_spec b 0) as [Hb'|Hb']; cbn [andb].
  { exists (po_key po). split_and!; [done..|]. by rewrite Hb', H0, app_nil_r, pad8_bytes. }
  all: rewrite Hpad by (rewrite length_take, length_bytes_bits; lia).
  all: destruct (flush_octets po b Hat) as (tmp & Ht & Hlt & Hokt & Hbits).
  all: assert (Hmod : - po_nboff po mod 8 = (8 - Z.land (po_nboff po) 7) mod 8)
    by (change 7 with (2 ^ 3 - 1); rewrite land_ones_mod by lia; change (2 ^ 3) with 8;
        Z.div_mod_to_equations; lia).
  all: assert (Hland : Z.land (po_nboff po) 7 = po_nboff po mod 8)
    by (change 7 with (2 ^ 3 - 1); by rewrite land_ones_mod by lia).
  all: rewrite Hland; destruct (Z.eqb_spec (po_nboff po mod 8) 0) as [Hz|Hz]; cbn [negb].
  1,3,5: cbn [mbind option_bind]; assert (Hneg : - po_nboff po mod 8 = 0)
      by (Z.div_mod_to_equations; lia);
    rewrite Hneg in Ht; injection Ht as <-;
    replace (b + (po_nboff po ≫ 3)) with (b + ((po_nboff po + 7) ≫ 3))
      by (rewrite !shiftr_div by lia; change (2 ^ 3) with 8; Z.div_mod_to_equations; lia).
  4-6: assert (Hneg : - po_nboff po mod 8 = 8 - po_nboff po mod 8)
      by (Z.div_mod_to_equations; lia);
    rewrite Hneg in Ht; destruct (Z.eqb_spec (8 - po_nboff po mod 8) 0);
      [Z.div_mod_to_equations; lia|]; cbn [negb] in Ht;
    destruct (read (po_tmpspace po) (b + (po_nboff po ≫ 3))) as [x|] eqn:Ex; [|done];
    cbn [mbind option_bind] in Ht |- *;
    assert (Hx : byte_ok x) by (unfold read in Ex; destruct (_ <? 0); [done|];
      by apply (bytes_ok_lookup _ _ _ Hok) in Ex);
    rewrite mask_255 by (done || Z.div_mod_to_equations; lia);
    rewrite Ht; cbn [mbind option_bind];
    replace (b + (po_nboff po ≫ 3) + 1) with (b + ((po_nboff po + 7) ≫ 3))
      by (rewrite !shiftr_div by lia; change (2 ^ 3) with 8; Z.div_mod_to_equations; lia).
  all: match goal with |- exists key, Some (consume ?d ?k) = _ /\ _ =>
    destruct (consume_append d k) as (key & -> & Hw) end.
  all: exists key; split_and!; [done|rewrite Hw; auto with bytes|]; by rewrite Hw, bytes_bits_app, Hbits.
Qed.

Lemma uper_encode_ok {T} `{HT : PerTypeLaws T} (t : T) (key : S) :
  per_dom t -> written key = [] -> exists key',
    uper_encode t key = Some (Z.of_nat (length (per_bits t)), key') /\
    bytes_ok (written key') /\ bytes_bits (written key') = pad8 (per_bits t).
Proof.
  intros Hd Hk. unfold uper_encode. destruct per_enc_law as (enc & -> & He & _).
  destruct (He S _ _ (po_of_key key) t Hd) as (e & Hne & po & -> & Hw & Hb); [by apply po_of_key_wf|].
  cbn [mbind option_bind]. rewrite (proj2 (Z.eqb_neq _ _) Hne).
  destruct (po_bits_count po Hw) as (b & -> & Hcount). cbn [mbind option_bind].
  destruct (flush_outp_ok po Hw) as (key' & -> & Hok & Hbits). cbn [mbind option_bind negb Z.eqb].
  assert (Hnil : po_bits (po_of_key key) = []).
  { unfold po_bits, po_of_key. cbn. by rewrite Hk. }
  rewrite Hnil in Hb. exists key'. split_and!; [|done|by rewrite Hbits, Hb].
  do 2 f_equal. by rewrite Hcount, Hb.
Qed.
End Output.

(** The number of octets a bit string fills. *)
Definition octets_of (bs : list bool) : Z := (Z.of_nat (length bs) + 7) / 8.

Lemma octets_of_pad8 l bs : bytes_bits l = pad8 bs -> Z.of_nat (length l) = octets_of bs.
Proof.
  intros H. apply (f_equal length) in H. rewrite length_bytes_bits in H.
  unfold pad8 in H. rewrite length_app, length_replicate in H. unfold octets_of.
  Z.div_mod_to_equations; lia.
Qed.

Lemma size_per_ok {T} `{HT : PerTypeLaws T} (t : T) : per_dom t ->
  size_per t = Ret (octets_of (per_bits t)).
Proof.
  intros Hd. destruct (uper_encode_ok t {| bb_bytes := [] |} Hd) as (key & Henc & _); [done|].
  unfold size_per. assert (Hnat : uper_encode (S := unit) t tt = Some (Z.of_nat (length (per_bits t)), tt)).
  2: { rewrite Hnat. cbn [checked mbind outcome_bind]. zcases. done. }
  revert Henc. unfold uper_encode. destruct per_enc_law as (enc & -> & _ & Hn).
  change (po_of_key tt) with (po_map (fun _ : ByteBuffer => tt) (po_of_key {| bb_bytes := [] |})).
  rewrite (Hn _ _ _ _ _ write_null_morphism). unfold res_map.
  destruct (enc _ _ t _) as [[e po]|]; [|done]. cbn [mbind option_bind].
  destruct (e =? -1). { by intros [= <- <-]. }
  rewrite po_map_buffer. destruct (po_buffer po) as [b|] eqn:Eb; [|done]. cbn [mbind option_bind].
  unfold uper_encode_flush_outp. rewrite po_map_buffer, Eb. cbn [mbind option_bind].
  rewrite po_map_nboff, po_map_tmpspace. cbn [po_map po_flushed po_key].
  case_match; [by intros [= <- <-]|].
  destruct (if negb _ then _ else _) as [[tmp n]|]; [|done]. cbn.
  by intros [= <- <-].
Qed.

Lemma uper_decode_front {T} `{HT : PerTypeLaws T} (t : T) bytes rest : per_dom t -> bytes_ok bytes ->
  bytes_bits bytes = per_bits t ++ rest ->
  uper_decode bytes 0 0 = Some (RC_OK, Z.of_nat (length (per_bits t)), Some t).
Proof.
  intros Hd Hok Hb. unfold uper_decode. cbn [Z.ltb Z.compare orb andb]. rewrite Z.sub_0_r.
  zcases. destruct per_dec_law as (dec & -> & Hdec).
  pose proof (pd_of_buffer_at bytes Hok) as Hat. rewrite Hb in Hat.
  destruct (Hdec _ t _ Hd Hat) as (pd & -> & _ & Hrd). cbn [mbind option_bind].
  rewrite decide_True by done. destruct Hrd as (Hw & _ & Hl & Hm & _ & Hs).
  unfold pd_left, pd_slack, pd_of_buffer in *. cbn in Hl, Hm, Hs.
  assert (Hc : ((Z.of_nat (length bytes) - Z.of_nat (length (pd_buffer pd))) ≪ 3) + pd_nboff pd - 0 =
    Z.of_nat (length (per_bits t))).
  { rewrite shiftl_mul by lia. change (2 ^ 3) with 8. lia. }
  rewrite Hc, Hm. zcases. done.
Qed.

Lemma uper_decode_ok {T} `{HT : PerTypeLaws T} (t : T) bytes : per_dom t -> bytes_ok bytes ->
  bytes_bits bytes = pad8 (per_bits t) ->
  uper_decode bytes 0 0 = Some (RC_OK, Z.of_nat (length (per_bits t)), Some t).
Proof. apply uper_decode_front. Qed.

(** ** BOOLEAN (BOOLEAN.c): a type of one bit *)

(** [sptr] is never null here; the decoder allocates its structure. *)
Record BOOLEAN_t := { bool_int : Z }.

Definition BOOLEAN_decode_uper (pd : asn_per_data) :
    option (asn_dec_rval_code * option BOOLEAN_t * asn_per_data) :=
  '(v, pd) ← per_get_few_bits pd 1;
  Some (if v =? 1 then (RC_OK, Some {| bool_int := 1 |}, pd)
        else if v =? 0 then (RC_OK, Some {| bool_int := 0 |}, pd)
        else (RC_WMORE, None, pd)).

Definition BOOLEAN_encode_uper {S} `{Consumer S} (st : BOOLEAN_t) (po : asn_bit_outp S) :
    option (Z * asn_bit_outp S) :=
  '(rc, po) ← per_put_few_bits po (if negb (bool_int st =? 0) then 1 else 0) 1;
  Some (if negb (rc =? 0) then -1 else 0, po).

#[export] Instance BOOLEAN_per : PerType BOOLEAN_t := {
  op_uper_encoder := Some (fun S C st po => BOOLEAN_encode_uper st po);
  op_uper_decoder := Some BOOLEAN_decode_uper
}.

#[export, program] Instance BOOLEAN_laws : PerTypeLaws BOOLEAN_t := {
  per_dom st := bool_int st = 0 \/ bool_int st = 1;
  per_bits st := [negb (bool_int st =? 0)]
}.
Next Obligation.
  eexists. split; [reflexivity|]. split.
  - intros S C A po st Hd Hw. exists 0. split; [done|]. unfold BOOLEAN_encode_uper.
    apply (put_res_map _ _ _ 0); [|done].
    pose proof (per_put_few_ok po (bool_int st) 1 Hw ltac:(lia)) as H.
    by destruct Hd as [Hd|Hd]; rewrite Hd in H |- *.
  - intros S1 S2 C1 C2 f Hf po st. unfold BOOLEAN_encode_uper. natural.
Qed.
Next Obligation.
  eexists. split; [reflexivity|]. intros pd [b] rest Hd Hat. cbn [bool_int] in *. unfold BOOLEAN_decode_uper.
  destruct (per_get_few_at pd 1 b rest ltac:(lia)) as (pd' & -> & Hat' & Hrd).
  { by destruct Hd as [-> | ->]. }
  exists pd'. by destruct Hd as [-> | ->].
Qed.

(** ** The wrapper *)

Lemma encode_per_ok {T} `{PerTypeLaws T} (t : T) : per_dom t -> per_bits t <> [] ->
  exists bytes, encode_per t = Ret bytes /\
    bytes_ok bytes /\ bytes_bits bytes = pad8 (per_bits t) /\
    size_per t = Ret (Z.of_nat (length bytes)) /\
    uper_encode_to_new_buffer t = Some (Z.of_nat (length bytes), bytes) /\
    decode_per bytes = Ret (true, Some t).
Proof.
  intros Hd Hne. destruct (uper_encode_ok t {| bb_bytes := [] |} Hd) as (key & He & Hok & Hb); [done|].
  assert (Hpos : 0 < Z.of_nat (length (per_bits t))) by (destruct (per_bits t); cbn; lia || done).
  exists (bb_bytes key). pose proof (octets_of_pad8 _ _ Hb) as Hlen. split_and!.
  - unfold encode_per. rewrite He. cbn [checked mbind outcome_bind]. zcases. done.
  - done.
  - done.
  - rewrite size_per_ok by done. by rewrite <- Hlen.
  - destruct (uper_encode_ok t {| dyn_buffer := []; dyn_allocated := 0 |} Hd) as (key2 & He2 & Hok2 & Hb2); [done|].
    unfold uper_encode_to_new_buffer. rewrite He2. cbn [mbind option_bind]. zcases.
    rewrite shiftr_div by lia. change (2 ^ 3) with 8. fold (octets_of (per_bits t)).
    change (written key2) with (dyn_buffer key2) in *. change (written key) with (bb_bytes key) in *.
    rewrite Hlen. do 2 f_equal. apply bytes_bits_inj; [done|done|congruence].
  - unfold decode_per, uper_decode_complete.
    rewrite (uper_decode_ok t) by done. cbn [mbind option_bind]. zcases. done.
Qed.

(** ** Properties *)

(** The wrapper's functions agree.  For every type whose codec keeps the
    contract and every value in its domain with a non-empty encoding:
    [encode_per] returns exactly the octets of the value's bits, padded with
    zeros; [size_per] predicts their number; the growing buffer of
    [uper_encode_to_new_buffer] holds the same octets; and [decode_per] of
    them succeeds with the value, its consistency assertion holding. *)
Theorem per_roundtrip {T} `{PerTypeLaws T} (t : T) : per_dom t -> per_bits t <> [] ->
  exists bytes, encode_per t = Ret bytes /\
    bytes_ok bytes /\ bytes_bits bytes = pad8 (per_bits t) /\
    size_per t = Ret (Z.of_nat (length bytes)) /\
    uper_encode_to_new_buffer t = Some (Z.of_nat (length bytes), bytes) /\
    decode_per bytes = Ret (true, Some t).
Proof. apply encode_per_ok. Qed.

Lemma per_roundtrip_witness :
  exists bytes, encode_per {| bool_int := 1 |} = Ret bytes /\
    bytes_ok bytes /\ bytes_bits bytes = pad8 (per_bits {| bool_int := 1 |}) /\
    size_per {| bool_int := 1 |} = Ret (Z.of_nat (length bytes)) /\
    uper_encode_to_new_buffer {| bool_int := 1 |} = Some (Z.of_nat (length bytes), bytes) /\
    decode_per bytes = Ret (true, Some {| bool_int := 1 |}).
Proof. apply per_roundtrip; [right; reflexivity|discriminate]. Defined.
