(* ===== verification/OpenType.v ===== *)
(** * Open type fields (support/per_opentype.c)

    A value of a type unknown to the receiver travels as the octets of its
    own complete encoding behind length determinants, in fragments when there
    are 16384 octets or more.  The section on fragments is shared by the
    string types. *)
From S2P Require Import Prelude Outcome Consumer BitData PerSupport PerNatural PerCodec.

(** ** Operations *)

Section Put.
Context {S : Type} `{Consumer S}.
Implicit Types po : asn_bit_outp S.

(** The do-while loop of uper_open_type_put over the octets still to write;
    its result is the octets left when it ends, or [None] for the return
    inside it. *)
Fixpoint open_type_put_loop (fuel : nat) po (bytes : list Z) :
    option (option (list Z) * asn_bit_outp S) :=
  match fuel with
  | O => None
  | Datatypes.S fuel =>
    '(may_save, need_eom, po) ← uper_put_length po (Z.of_nat (length bytes));
    if may_save <? 0 then Some (Some bytes, po) else
    '(rc, po) ← asn_put_many_bits po bytes (may_save * 8);
    if negb (rc =? 0) then Some (Some bytes, po) else
    let bytes := drop (Z.to_nat may_save) bytes in
    '(rc, po) ← (if (need_eom : bool) then '(r, _, po) ← uper_put_length po 0; Some (r, po)
                 else Some (0, po));
    if negb (rc =? 0) then Some (None, po) else
    if bool_decide (bytes = []) then Some (Some [], po)
    else open_type_put_loop fuel po bytes
  end.

Definition uper_open_type_put {T} `{PerType T} po (t : T) : option (Z * asn_bit_outp S) :=
  '(size, buf) ← uper_encode_to_new_buffer t;
  if size <=? 0 then Some (-1, po) else
  '(remaining, po) ← open_type_put_loop (Datatypes.S (length buf)) po buf;
  Some (match remaining with Some [] => 0 | _ => -1 end, po).
End Put.

(** The do-while loop of uper_open_type_get_simple: [None] inside is a
    starved stream, otherwise the octets gathered. *)
Fixpoint open_type_get_loop (fuel : nat) (pd : asn_per_data) (buf : list Z) :
    option (option (list Z) * asn_per_data) :=
  match fuel with
  | O => None
  | S fuel =>
    '(chunk_bytes, repeat, pd) ← uper_get_length pd (-1) 0;
    if chunk_bytes <? 0 then Some (None, pd) else
    '(rc, octets, pd) ← per_get_many_bits pd false (chunk_bytes ≪ 3);
    if negb (rc =? 0) then Some (None, pd) else
    let buf := buf ++ octets in
    if (repeat : bool) then open_type_get_loop fuel pd buf else Some (Some buf, pd)
  end.

(** An iteration that repeats takes at least 16384 octets of the stream. *)
Definition open_type_fuel (pd : asn_per_data) : nat := S (length (pd_buffer pd)).

Definition uper_open_type_get_simple {T}
    (uper_decoder : asn_per_data -> option (asn_dec_rval_code * option T * asn_per_data))
    (pd : asn_per_data) : option (asn_dec_rval_code * option T * asn_per_data) :=
  '(got, pd) ← open_type_get_loop (open_type_fuel pd) pd [];
  match got with
  | None => Some (RC_WMORE, None, pd)
  | Some buf =>
    '(code, st, spd) ← uper_decoder (pd_of_buffer buf 0 (Z.of_nat (length buf) ≪ 3));
    if decide (code = RC_OK) then
      let padding := pd_nbits spd - pd_nboff spd in
      if (padding <? 8) ||
         ((pd_nboff spd =? 0) && (pd_nbits spd =? 8) &&
          bool_decide (length (pd_buffer spd) = length buf)) then
        '(bits, _) ← per_get_few_bits spd padding;
        Some (if bits =? 0 then RC_OK else RC_FAIL, st, pd)
      else Some (RC_FAIL, st, pd)
    else Some (RC_FAIL, st, pd)
  end.

Definition uper_open_type_get {T}
    (uper_decoder : asn_per_data -> option (asn_dec_rval_code * option T * asn_per_data))
    (pd : asn_per_data) := uper_open_type_get_simple uper_decoder pd.

(** while(per_get_few_bits(pd, 24) >= 0); *)
Fixpoint sot_suck_loop (fuel : nat) (pd : asn_per_data) : option asn_per_data :=
  match fuel with
  | O => None
  | S fuel =>
    '(v, pd) ← per_get_few_bits pd 24;
    if 0 <=? v then sot_suck_loop fuel pd else Some pd
  end.

Definition uper_sot_suck (pd : asn_per_data) : option (asn_dec_rval_code * option unit * asn_per_data) :=
  pd ← sot_suck_loop (S (length (pd_buffer pd))) pd; Some (RC_OK, Some tt, pd).

Definition uper_open_type_skip (pd : asn_per_data) : option (Z * asn_per_data) :=
  '(code, _, pd) ← uper_open_type_get uper_sot_suck pd;
  Some (if decide (code = RC_OK) then 0 else -1, pd).

Fixpoint skip_bits_loop (fuel : nat) (pd : asn_per_data) (skip_nbits hasNonZeroBits : Z) :
    option (Z * asn_per_data) :=
  match fuel with
  | O => None
  | S fuel =>
    if skip_nbits <=? 0 then Some (hasNonZeroBits, pd) else
    let skip := if skip_nbits <? 24 then skip_nbits else 24 in
    '(v, pd) ← per_get_few_bits pd skip;
    if v =? -1 then Some (-1, pd)
    else skip_bits_loop fuel pd (skip_nbits - skip) (if v =? 0 then hasNonZeroBits else 1)
  end.

Definition per_skip_bits (pd : asn_per_data) (skip_nbits : Z) : option (Z * asn_per_data) :=
  skip_bits_loop (S (Z.to_nat skip_nbits)) pd skip_nbits 0.

(** ** Fragments *)

(** The bits of a sequence of units (octets, characters) behind length
    determinants; [fuel] bounds the fragments. *)
Fixpoint frag_bits (fuel : nat) (us : list (list bool)) : list bool :=
  match fuel with
  | O => []
  | S fuel =>
    let n := Z.of_nat (length us) in
    let f := Z.to_nat (length_fragment n) in
    length_bits n ++ concat (take f us) ++
    (if length_needs_eom n then length_bits 0 else []) ++
    (if bool_decide (drop f us = []) then [] else frag_bits fuel (drop f us))
  end.

Definition frags (us : list (list bool)) : list bool := frag_bits (S (length us)) us.

Lemma frag_step n : 0 <= n -> 0 <= length_fragment n <= n /\
  (0 < n -> 0 < length_fragment n) /\
  (n < 16384 -> length_fragment n = n) /\
  (length_needs_eom n = (16384 <=? n) && (n =? length_fragment n)).
Proof.
  intros Hn. unfold length_fragment, length_needs_eom. zcases; split_and!; try done;
    try (Z.div_mod_to_equations; lia).
Qed.

Lemma concat_bytes (l : list Z) : concat (byte_bits <$> l) = bytes_bits l.
Proof. induction l as [|b l IH]; [done|]. cbn. by rewrite IH. Qed.

Lemma take_map_bytes n (l : list Z) : concat (take n (byte_bits <$> l)) = bytes_bits (take n l).
Proof. by rewrite <- fmap_take, concat_bytes. Qed.

Section PutFragments.
Context {S : Type} `{HC : Consumer S} `{HA : !AppendConsumer S}.

Lemma open_type_put_ok fuel (po : asn_bit_outp S) bytes : po_wf po -> bytes_ok bytes ->
  (length bytes < fuel)%nat ->
  put_res po (frag_bits fuel (byte_bits <$> bytes)) (open_type_put_loop fuel po bytes) (Some []).
Proof.
  revert po bytes. induction fuel as [|fuel IH]; intros po bytes Hw Hok Hf; [lia|].
  cbn [open_type_put_loop frag_bits]. rewrite length_fmap.
  set (n := Z.of_nat (length bytes)). destruct (frag_step n) as (Hfr & Hpos & Hsmall & Heom); [lia|].
  apply (put_res_bind _ _ _ _ (length_fragment n, length_needs_eom n)).
  { destruct (uper_put_length_ok po n) as (po' & ? & ? & ?); [lia|done|by exists po']. }
  intros po1 Hw1. cbn beta iota. zcase.
  apply (put_res_bind _ _ _ _ 0).
  { destruct (put_many_ok po1 bytes (length_fragment n * 8)) as (po' & ? & ? & Hb);
      [done|done|lia|]. exists po'. split_and!; [done..|]. rewrite Hb. f_equal.
    rewrite take_map_bytes, <- take_bytes_bits. f_equal. lia. }
  intros po2 Hw2. cbn [negb Z.eqb].
  apply (put_res_bind _ _ _ _ 0).
  { destruct (length_needs_eom n); [|by apply put_res_ret].
    apply (put_res_map _ _ _ (0, false)); [|done].
    destruct (uper_put_length_ok po2 0) as (po' & ? & ? & ?); [lia|done|by exists po']. }
  intros po3 Hw3. cbn [negb Z.eqb]. rewrite <- fmap_drop.
  destruct (drop (Z.to_nat (length_fragment n)) bytes) as [|b r] eqn:Ed.
  { rewrite !bool_decide_true by done. by apply put_res_ret. }
  rewrite !bool_decide_false by done. rewrite <- Ed. apply IH; [done|by apply bytes_ok_drop|].
  rewrite length_drop. destruct bytes; [by rewrite drop_nil in Ed|]. cbn in *. lia.
Qed.
End PutFragments.

Lemma open_type_put_map {S1 S2} `{C1 : Consumer S1} `{C2 : Consumer S2} (f : S1 -> S2) :
  consumer_morphism f -> forall fuel po bytes,
  open_type_put_loop fuel (po_map f po) bytes = res_map f (open_type_put_loop fuel po bytes).
Proof.
  intros Hf fuel. induction fuel as [|fuel IH]; intros po bytes; [done|].
  cbn [open_type_put_loop]. natural.
Qed.
#[export] Hint Resolve open_type_put_map : natural.

(** One determinant and its octets. *)
Lemma open_type_get_step (pd : asn_per_data) n chunk tl : 0 <= n ->
  Z.of_nat (length chunk) = length_fragment n -> bytes_ok chunk ->
  pd_at pd ((length_bits n ++ bytes_bits chunk) ++ tl) ->
  get_res pd (Z.of_nat (length (length_bits n ++ bytes_bits chunk))) tl
    ('(chunk_bytes, repeat, pd) ← uper_get_length pd (-1) 0;
     if chunk_bytes <? 0 then Some (None, pd) else
     '(rc, octets, pd) ← per_get_many_bits pd false (chunk_bytes ≪ 3);
     if negb (rc =? 0) then Some (None, pd) else Some (Some (octets, repeat : bool), pd))
    (Some (chunk, 16384 <=? n)).
Proof.
  intros Hn Hlen Hok Hat. rewrite <- app_assoc in Hat. rewrite length_app, Nat2Z.inj_add.
  eapply get_res_bind; [lia|lia|by apply uper_get_length_at|]. intros pd1 Hat1. cbn beta iota.
  destruct (frag_step n) as (? & _); [lia|]. zcase.
  rewrite <- Hlen, shiftl_mul, Z.mul_comm, length_bytes_bits, Nat2Z.inj_mul by lia.
  eapply get_res_map; [lia|by apply per_get_many_at|]. done.
Qed.

Lemma open_type_get_unfold fuel pd buf :
  open_type_get_loop (S fuel) pd buf =
  '(r, pd) ← ('(chunk_bytes, repeat, pd) ← uper_get_length pd (-1) 0;
     if chunk_bytes <? 0 then Some (None, pd) else
     '(rc, octets, pd) ← per_get_many_bits pd false (chunk_bytes ≪ 3);
     if negb (rc =? 0) then Some (None, pd) else Some (Some (octets, repeat : bool), pd));
  match r with
  | None => Some (None, pd)
  | Some (octets, repeat) =>
    if (repeat : bool) then open_type_get_loop fuel pd (buf ++ octets) else Some (Some (buf ++ octets), pd)
  end.
Proof.
  cbn [open_type_get_loop]. destruct (uper_get_length pd (-1) 0) as [[[c r] pd1]|]; [|done].
  cbn [mbind option_bind]. destruct (c <? 0); [done|].
  destruct (per_get_many_bits _ _ _) as [[[rc o] pd2]|]; [|done]. cbn [mbind option_bind].
  by destruct (negb _).
Qed.

(** Reading the fragments back gathers the octets. *)
Lemma open_type_get_ok fuel (pd : asn_per_data) bytes buf rest fuel' :
  bytes_ok bytes -> pd_at pd (frag_bits fuel' (byte_bits <$> bytes) ++ rest) ->
  (length bytes < fuel')%nat -> (length bytes < fuel)%nat -> (1 < fuel)%nat ->
  get_res pd (Z.of_nat (length (frag_bits fuel' (byte_bits <$> bytes)))) rest
    (open_type_get_loop fuel pd buf) (Some (buf ++ bytes)).
Proof.
  revert fuel pd bytes buf. induction fuel' as [|fuel' IH]; intros fuel pd bytes buf Hok Hat Hf' Hf H1; [lia|].
  cbn [frag_bits] in *. rewrite length_fmap in *. set (n := Z.of_nat (length bytes)) in *.
  destruct (frag_step n) as (Hfr & Hpos & Hsmall & Heom); [lia|].
  set (f := Z.to_nat (length_fragment n)) in *. rewrite take_map_bytes in *. rewrite <- fmap_drop in *.
  assert (Hlen : Z.of_nat (length (take f bytes)) = length_fragment n) by (rewrite length_take; lia).
  rewrite (app_assoc (length_bits n)) in *. rewrite <- app_assoc in Hat.
  rewrite (length_app (length_bits n ++ _)), Nat2Z.inj_add.
  destruct fuel as [|fuel]; [lia|]. rewrite open_type_get_unfold.
  eapply get_res_bind; [lia|lia|apply open_type_get_step;
    [lia|exact Hlen|by apply bytes_ok_take|exact Hat]|].
  intros pd1 Hat1. cbn beta iota. rewrite Heom in *.
  destruct (Z.leb_spec 16384 n); cbn [andb] in *.
  2: { rewrite drop_ge, take_ge in * by lia. rewrite bool_decide_true in * by done.
       by apply get_res_ret. }
  destruct (Z.eqb_spec n (length_fragment n)) as [Hall|Hmore].
  - rewrite drop_ge, take_ge in * by lia. rewrite bool_decide_true in * by done.
    rewrite app_nil_r in *. destruct fuel as [|fuel]; [lia|]. rewrite open_type_get_unfold.
    assert (Hz : length_bits 0 = length_bits 0 ++ bytes_bits []) by (by rewrite app_nil_r).
    rewrite <- (Z.add_0_r (Z.of_nat (length (length_bits 0)))). rewrite Hz in Hat1 |- *.
    eapply get_res_bind; [lia|lia|apply open_type_get_step; [lia|done|constructor|exact Hat1]|].
    intros pd2 Hat2. cbn beta iota. rewrite app_nil_r. by apply get_res_ret.
  - rewrite bool_decide_false in * by (intros Hnil%(f_equal length);
      rewrite length_fmap, length_drop in Hnil; cbn in Hnil; lia).
    cbn [app] in *. rewrite <- (take_drop f bytes) at 3. rewrite app_assoc.
    apply IH; [by apply bytes_ok_drop|done|rewrite length_drop; lia..|lia].
Qed.

Lemma length_bits_ge n : (8 <= length (length_bits n))%nat.
Proof. unfold length_bits. repeat case_match; rewrite ?length_app, !length_val_bits; lia. Qed.

(** More fuel than units changes nothing. *)
Lemma frag_bits_fuel fuel fuel' us : (length us < fuel)%nat -> (length us < fuel')%nat ->
  frag_bits fuel us = frag_bits fuel' us.
Proof.
  revert fuel' us. induction fuel as [|fuel IH]; intros [|fuel'] us Hf Hf'; [lia..|]. cbn [frag_bits].
  set (n := Z.of_nat (length us)). destruct (frag_step n) as (Hfr & Hpos & _); [lia|].
  do 3 f_equal. destruct (decide (drop (Z.to_nat (length_fragment n)) us = [])) as [->|Hne]; [done|].
  rewrite !bool_decide_false by done.
  assert (0 < length us)%nat by (destruct us; [by rewrite drop_nil in Hne|cbn; lia]).
  apply IH; rewrite length_drop; lia.
Qed.

Lemma frag_bits_length fuel us m : (forall u, u ∈ us -> length u = m) -> (length us < fuel)%nat ->
  (m * length us + 8 <= length (frag_bits fuel us))%nat.
Proof.
  revert us. induction fuel as [|fuel IH]; intros us Hm Hf; [lia|]. cbn [frag_bits].
  set (n := Z.of_nat (length us)). destruct (frag_step n) as (Hfr & Hpos & _); [lia|].
  set (f := Z.to_nat (length_fragment n)). rewrite !length_app.
  pose proof (length_bits_ge n) as Hlb.
  assert (Hcat : forall l : list (list bool), (forall u, u ∈ l -> length u = m) -> length (concat l) = (m * length l)%nat).
  { induction l as [|u l IHl]; intros Hl; [cbn; lia|]. cbn [concat length].
    rewrite length_app, (Hl u) by set_solver. rewrite IHl by set_solver. lia. }
  rewrite Hcat by (intros u Hu; apply Hm; rewrite <- (take_drop f us); set_solver).
  rewrite length_take. destruct (drop f us) as [|u r] eqn:Ed.
  - assert (length us <= f)%nat by (apply (f_equal length) in Ed; rewrite length_drop in Ed; cbn in Ed; lia).
    rewrite Nat.min_r by lia. rewrite bool_decide_true by done. lia.
  - rewrite bool_decide_false by done. rewrite <- Ed.
    assert (Hd : forall v, v ∈ drop f us -> length v = m)
      by (intros v Hv; apply Hm; rewrite <- (take_drop f us); set_solver).
    assert (0 < length us)%nat by (destruct us; [by rewrite drop_nil in Ed|cbn; lia]).
    specialize (IH (drop f us) Hd). rewrite length_drop in IH.
    rewrite Nat.min_l by lia. nia.
Qed.

Definition open_type_bits (bytes : list Z) : list bool := frags (byte_bits <$> bytes).

Lemma open_type_put_bits {S} `{AppendConsumer S} (po : asn_bit_outp S) bytes : po_wf po -> bytes_ok bytes ->
  put_res po (open_type_bits bytes)
    (open_type_put_loop (Datatypes.S (length bytes)) po bytes) (Some []).
Proof.
  intros. unfold open_type_bits, frags. rewrite length_fmap. apply open_type_put_ok; lia || done.
Qed.

Lemma open_type_get_from (pd : asn_per_data) buf bytes rest : bytes_ok bytes ->
  pd_at pd (open_type_bits bytes ++ rest) ->
  get_res pd (Z.of_nat (length (open_type_bits bytes))) rest
    (open_type_get_loop (open_type_fuel pd) pd buf) (Some (buf ++ bytes)).
Proof.
  intros Hok Hat. assert (Hl : (8 * length bytes + 8 <= length (open_type_bits bytes))%nat).
  { unfold open_type_bits, frags. rewrite <- (length_fmap byte_bits bytes) at 1.
    apply frag_bits_length; [|rewrite length_fmap; lia].
    intros u (b & -> & _)%list_elem_of_fmap. apply length_byte_bits. }
  pose proof (pd_at_left _ _ Hat) as Hleft. rewrite length_app in Hleft.
  assert (Hbuf : (length bytes < length (pd_buffer pd))%nat).
  { destruct Hat as ((Ho & Hn & _) & _). unfold pd_left in Hleft. lia. }
  apply open_type_get_ok; try done; try (unfold open_type_fuel; lia).
  rewrite length_fmap. lia.
Qed.

Lemma open_type_get_bits (pd : asn_per_data) bytes rest : bytes_ok bytes ->
  pd_at pd (open_type_bits bytes ++ rest) ->
  get_res pd (Z.of_nat (length (open_type_bits bytes))) rest
    (open_type_get_loop (open_type_fuel pd) pd []) (Some bytes).
Proof. apply (open_type_get_from pd []). Qed.

Lemma val_bits_0 n : val_bits n 0 = replicate n false.
Proof. induction n as [|n IH]; [done|]. cbn [val_bits replicate]. by rewrite IH, Z.bits_0. Qed.

Lemma get_padding pd k : (k <= 31)%nat -> pd_at pd (replicate k false) ->
  exists pd', per_get_few_bits pd (Z.of_nat k) = Some (0, pd').
Proof.
  intros Hk Hat. rewrite <- val_bits_0, <- (app_nil_r (val_bits _ _)) in Hat.
  destruct (per_get_few_at pd (Z.of_nat k) 0 []) as (pd' & H & _); [lia|by rewrite Nat2Z.id|].
  exists pd'. by rewrite Z.mod_0_l in H by (pose proof (pow2_pos (Z.of_nat k)); lia).
Qed.

(** *** Values as open types *)

(** The octets of a value's bits. *)
Definition padded_octets (bs : list bool) : list Z :=
  be_bytes (Z.to_nat (octets_of bs)) (bits_val (pad8 bs)).

Lemma length_pad8 bs : length (pad8 bs) = (8 * Z.to_nat (octets_of bs))%nat.
Proof. unfold pad8, octets_of. rewrite length_app, length_replicate. Z.div_mod_to_equations; lia. Qed.

Lemma padded_octets_ok bs : bytes_ok (padded_octets bs) /\ bytes_bits (padded_octets bs) = pad8 bs.
Proof.
  split; [apply be_bytes_ok|]. unfold padded_octets. rewrite bytes_bits_be_bytes, <- length_pad8. apply val_bits_bits_val.
Qed.

Lemma padded_octets_eq l bs : bytes_ok l -> bytes_bits l = pad8 bs -> l = padded_octets bs.
Proof. intros Hl Hb. destruct (padded_octets_ok bs). apply bytes_bits_inj; [done|done|]. by rewrite Hb. Qed.

Lemma length_padded_octets bs : Z.of_nat (length (padded_octets bs)) = octets_of bs.
Proof. apply octets_of_pad8, padded_octets_ok. Qed.

Lemma open_type_put_value {S} `{HC : Consumer S} `{HA : !AppendConsumer S} {T} `{PerTypeLaws T} (t : T)
    (po : asn_bit_outp S) : per_dom t -> per_bits t <> [] -> po_wf po ->
  put_res po (open_type_bits (padded_octets (per_bits t))) (uper_open_type_put po t) 0.
Proof.
  intros Hd Hne Hw. destruct (encode_per_ok t Hd Hne) as (bytes & _ & Hok & Hb & _ & Hnew & _).
  destruct (padded_octets_ok (per_bits t)) as [Hpok Hpb].
  assert (padded_octets (per_bits t) = bytes) as -> by (apply bytes_bits_inj; [done|done|congruence]).
  unfold uper_open_type_put. rewrite Hnew. cbn [mbind option_bind].
  assert (0 < Z.of_nat (length bytes)).
  { rewrite (octets_of_pad8 _ _ Hb). unfold octets_of. destruct (per_bits t); [done|].
    cbn [length]. Z.div_mod_to_equations; lia. }
  zcase. eapply put_res_map; [by apply open_type_put_bits|done].
Qed.

Lemma open_type_get_value {T} `{PerTypeLaws T} (t : T) dec (pd : asn_per_data) rest :
  op_uper_decoder = Some dec -> per_dom t ->
  pd_at pd (open_type_bits (padded_octets (per_bits t)) ++ rest) ->
  dec_res pd (Z.of_nat (length (open_type_bits (padded_octets (per_bits t))))) rest (uper_open_type_get dec pd) t.
Proof.
  intros Hdec Hd Hat. destruct (padded_octets_ok (per_bits t)) as [Hok Hb].
  destruct per_dec_law as (dec' & Hdec' & Hlaw). rewrite Hdec in Hdec'. injection Hdec' as <-.
  unfold uper_open_type_get, uper_open_type_get_simple. set (bytes := padded_octets _) in *.
  destruct (open_type_get_bits pd bytes rest Hok Hat) as (pd' & -> & Hat' & Hrd').
  cbn [mbind option_bind]. exists pd'. split; [|done].
  rewrite shiftl_mul, Z.mul_comm by lia. change (2 ^ 3) with 8.
  pose proof (pd_of_buffer_at bytes Hok) as Hspd. rewrite Hb in Hspd. unfold pad8 in Hspd.
  destruct (Hlaw _ t _ Hd Hspd) as (spd & -> & Hs & _). cbn [mbind option_bind].
  rewrite decide_True by done. pose proof (pd_at_left _ _ Hs) as Hl. unfold pd_left in Hl.
  rewrite length_replicate in Hl. rewrite Hl.
  set (k := Z.to_nat (- Z.of_nat (length (per_bits t)) mod 8)) in *.
  assert (k < 8)%nat by (unfold k; Z.div_mod_to_equations; lia).
  zcase. cbn [orb]. destruct (get_padding spd k) as (spd' & ->); [lia|done|]. done.
Qed.

Lemma uper_open_type_put_map {S1 S2} `{C1 : Consumer S1} `{C2 : Consumer S2} (f : S1 -> S2) {T} `{PerType T} :
  consumer_morphism f -> forall po (t : T), uper_open_type_put (po_map f po) t = res_map f (uper_open_type_put po t).
Proof.
  intros Hf po t. unfold uper_open_type_put. destruct (uper_encode_to_new_buffer t) as [[size buf]|]; [|done].
  cbn [mbind option_bind]. natural.
Qed.
#[export] Hint Resolve uper_open_type_put_map : natural.

(** ** Skipping *)

Lemma pd_read_0 (pd : asn_per_data) : pd_wf pd -> pd_read pd (24 * 0) pd.
Proof. intros. split_and!; done || lia. Qed.

Lemma suck_ok fuel (pd : asn_per_data) : pd_wf pd -> pd_refill pd = None ->
  pd_left pd < 24 * Z.of_nat fuel ->
  exists pd', sot_suck_loop fuel pd = Some pd' /\ pd_read pd (24 * (pd_left pd / 24)) pd' /\
    (pd_left pd < 24 -> pd' = pd).
Proof.
  revert pd. induction fuel as [|fuel IH]; intros pd Hw Hr Hf.
  { destruct Hw as (? & _). unfold pd_left in *. lia. }
  cbn [sot_suck_loop]. unfold per_get_few_bits.
  destruct (Z.ltb_spec (pd_left pd) 24) as [Hlt|Hge].
  - rewrite get_few_short by (done || lia). cbn. exists pd.
    assert (0 <= pd_left pd) by (destruct Hw as (? & _); unfold pd_left; lia).
    rewrite Z.div_small by lia. split_and!; [done|by apply pd_read_0|done].
  - assert (Hw0 : 0 <= pd_left pd) by (destruct Hw as (? & _); unfold pd_left; lia).
    destruct (get_few_ok 0 pd 24) as (pd1 & -> & Hrd); [done|lia|lia|].
    cbn [mbind option_bind]. pose proof (bits_val_bound (take (Z.to_nat 24) (pd_bits pd))).
    zcase. pose proof Hrd as (Hw1 & _ & Hl1 & _ & Hr1 & _).
    destruct (IH pd1) as (pd' & -> & Hrd' & _); [done|congruence|lia|].
    exists pd'. split_and!; [done| |lia].
    replace (24 * (pd_left pd / 24)) with (24 + 24 * (pd_left pd1 / 24))
      by (rewrite Hl1; Z.div_mod_to_equations; lia).
    eapply pd_read_trans; [lia| |done..].
    assert (0 <= pd_left pd1) by lia. Z.div_mod_to_equations; lia.
Qed.

Lemma sot_suck_ok bytes : bytes_ok bytes ->
  exists spd, uper_sot_suck (pd_of_buffer bytes 0 (Z.of_nat (length bytes) ≪ 3)) =
      Some (RC_OK, Some tt, spd) /\
    pd_read (pd_of_buffer bytes 0 (8 * Z.of_nat (length bytes)))
      (24 * (Z.of_nat (length bytes) / 3)) spd /\
    (Z.of_nat (length bytes) < 3 -> spd = pd_of_buffer bytes 0 (8 * Z.of_nat (length bytes))).
Proof.
  intros Hok. rewrite shiftl_mul, Z.mul_comm by lia. change (2 ^ 3) with 8.
  pose proof (pd_of_buffer_at bytes Hok) as (Hw & Hr & _). unfold uper_sot_suck.
  destruct (suck_ok (S (length bytes)) _ Hw Hr) as (spd & Hs & Hrd & Hid).
  { unfold pd_left, pd_of_buffer. cbn [pd_nbits pd_nboff]. lia. }
  exists spd. cbn [pd_buffer pd_of_buffer] in *. rewrite Hs. cbn [mbind option_bind].
  unfold pd_left, pd_of_buffer in Hrd, Hid. cbn [pd_nbits pd_nboff] in Hrd, Hid.
  split_and!; [done| |intros; apply Hid; lia].
  replace (24 * (Z.of_nat (length bytes) / 3))
    with (24 * ((8 * Z.of_nat (length bytes) - 0) / 24)); [exact Hrd|].
  Z.div_mod_to_equations; lia.
Qed.

(** ** Properties *)

(** An open type field carries the complete encoding of its value: writing
    emits the value's octets in length-prefixed fragments, however many there
    are, and reading them consumes exactly those bits, accepts the padding
    and yields the value. *)
Theorem open_type_roundtrip {T} `{PerTypeLaws T} (t : T) : per_dom t -> per_bits t <> [] ->
  exists bytes dec, op_uper_decoder = Some dec /\ bytes_bits bytes = pad8 (per_bits t) /\
    (forall po : asn_bit_outp ByteBuffer, po_wf po ->
       put_res po (open_type_bits bytes) (uper_open_type_put po t) 0) /\
    (forall pd rest, pd_at pd (open_type_bits bytes ++ rest) ->
       dec_res pd (Z.of_nat (length (open_type_bits bytes))) rest (uper_open_type_get dec pd) t).
Proof.
  intros Hd Hne. destruct (padded_octets_ok (per_bits t)) as [Hok Hb].
  destruct per_dec_law as (dec & Hdec & _). exists (padded_octets (per_bits t)), dec. split_and!; [done|done|..].
  - intros po Hw. by apply open_type_put_value.
  - intros pd rest Hat. by apply open_type_get_value.
Qed.

Lemma open_type_roundtrip_witness :
  exists bytes dec, op_uper_decoder = Some dec /\
    bytes_bits bytes = pad8 (per_bits {| bool_int := 1 |}) /\
    (forall po : asn_bit_outp ByteBuffer, po_wf po ->
       put_res po (open_type_bits bytes) (uper_open_type_put po {| bool_int := 1 |}) 0) /\
    (forall pd rest, pd_at pd (open_type_bits bytes ++ rest) ->
       dec_res pd (Z.of_nat (length (open_type_bits bytes))) rest (uper_open_type_get dec pd)
         {| bool_int := 1 |}).
Proof. apply open_type_roundtrip; [right; reflexivity|discriminate]. Defined.

(** Skipping an unknown extension positions the stream behind it whatever it
    holds, but succeeds only when its length is a multiple of three octets or
    it is the single octet zero: the loop that sucks the contents takes 24
    bits at a time and leaves the rest to be refused as padding. *)
Theorem open_type_skip_verdict (bytes : list Z) (pd : asn_per_data) (rest : list bool) :
  bytes_ok bytes -> pd_at pd (open_type_bits bytes ++ rest) ->
  exists pd', pd_at pd' rest /\ uper_open_type_skip pd =
    Some (if (Z.of_nat (length bytes) mod 3 =? 0) || bool_decide (bytes = [0]) then 0 else -1, pd').
Proof.
  intros Hok Hat. unfold uper_open_type_skip, uper_open_type_get, uper_open_type_get_simple.
  destruct (open_type_get_bits pd bytes rest Hok Hat) as (pd' & -> & Hat' & _).
  cbn [mbind option_bind]. destruct (sot_suck_ok bytes Hok) as (spd & -> & Hrd & Hid).
  cbn [mbind option_bind]. rewrite decide_True by done. exists pd'. split; [done|].
  destruct Hrd as (Hw & Hbits & Hl & _ & _ & Hs).
  unfold pd_left, pd_slack, pd_of_buffer in Hl, Hs. cbn [pd_nbits pd_nboff pd_buffer] in Hl, Hs.
  pose proof Hw as (Hw1 & _). set (n := Z.of_nat (length bytes)) in *.
  assert (Hpad : pd_nbits spd - pd_nboff spd = 8 * (n mod 3))
    by (rewrite Hl; Z.div_mod_to_equations; lia).
  rewrite Hpad. destruct (Z.eqb_spec (n mod 3) 0) as [H0|H0]; cbn [orb].
  - rewrite H0. change (8 * 0 <? 8) with true. cbn [orb]. unfold per_get_few_bits. change (8 * 0) with 0.
    destruct (get_few_ok 0 spd 0) as (spd' & -> & _); [done|lia|unfold pd_left; lia|]. done.
  - assert (1 <= n mod 3 <= 2) by (Z.div_mod_to_equations; lia). zcase. cbn [orb].
    destruct (decide (n < 3)) as [Hn3|Hn3].
    + rewrite (Hid Hn3). unfold pd_of_buffer. cbn [pd_nbits pd_nboff pd_buffer].
      rewrite (bool_decide_true (length bytes = length bytes)) by done. cbn [Z.eqb andb].
      destruct bytes as [|b [|c r]]; [done| |].
      2: { rewrite (bool_decide_false (_ = [0])) by done. cbn [length] in n. unfold n.
           by zcase. }
      apply Forall_cons in Hok as [Hb _].
      pose proof (pd_of_buffer_at [b] ltac:(by constructor)) as Hsp. unfold bytes_bits in Hsp.
      change ([b] ≫= byte_bits) with (val_bits 8 b ++ []) in Hsp.
      destruct (per_get_few_at _ 8 b [] ltac:(lia) Hsp) as (spd' & Hg & _).
      unfold pd_of_buffer in Hg. change (8 * (n mod 3)) with 8. cbn [length] in Hg.
      change (8 * Z.of_nat 1) with 8 in *. change (8 * n) with 8. change ((8 =? 8) && true) with true. cbn iota.
      rewrite Hg. cbn [mbind option_bind].
      rewrite Z.mod_small by (change (2 ^ 8) with 256; apply Hb).
      destruct (Z.eqb_spec b 0) as [->|Hb0]; [by rewrite bool_decide_true|].
      rewrite bool_decide_false by congruence. done.
    + assert (Hf : (pd_nboff spd =? 0) && (pd_nbits spd =? 8) &&
        bool_decide (length (pd_buffer spd) = length bytes) = false).
      { destruct (bool_decide_reflect (length (pd_buffer spd) = length bytes)); [|apply andb_false_r].
        zcases; try done. }
      rewrite Hf. rewrite bool_decide_false by (intros ->; cbn in n; lia). done.
Qed.

(** The stream that holds one open type field of two octets. *)
Definition two_octet_field : asn_per_data := pd_of_buffer [2; 128; 0] 0 24.

Lemma open_type_skip_verdict_witness :
  exists pd', pd_at pd' [] /\ uper_open_type_skip two_octet_field =
    Some (if (Z.of_nat (length [128; 0]) mod 3 =? 0) || bool_decide ([128; 0] = [0]) then 0 else -1, pd').
Proof.
  apply open_type_skip_verdict.
  - repeat (apply bytes_ok_cons; [unfold byte_ok; lia|]). apply bytes_ok_nil.
  - apply (pd_of_buffer_at [2; 128; 0]).
    repeat (apply bytes_ok_cons; [unfold byte_ok; lia|]). apply bytes_ok_nil.
Defined.
