(* ===== verification/BerTlv.v ===== *)
(** * BER tags and lengths (support/ber_tlv_tag.c, support/ber_tlv_length.c)

    Reading and writing the identifier and length octets of BER.  The octets
    a C function may read or write are a list; an access outside it is
    [None], so a result shows there was none. *)
From S2P Require Import Prelude.

(** ** Tags *)

(** ber_tlv_tag_t is 32 bits wide: the class in the two lowest, the value in
    the others. *)
Definition BER_TAG_CLASS (tag : Z) : Z := Z.land tag 3.
Definition BER_TAG_VALUE (tag : Z) : Z := tag ≫ 2.
Definition BER_TLV_CONSTRUCTED (octet : Z) : bool := negb (Z.land octet 32 =? 0).

(** The loop over the octets after the first: 7 bits each, the top bit set on
    all but the last.  [inl] is the return code alone, [inr] code and tag. *)
Fixpoint fetch_tag_loop (ptr : list Z) (val tclass skipped : Z) : Z * option Z :=
  match ptr with
  | [] => (0, None)
  | oct :: ptr =>
    if negb (Z.land oct 128 =? 0) then
      let val := Z.lor (u32 (val ≪ 7)) (Z.land oct 127) in
      if negb (val ≫ (8 * 4 - 9) =? 0) then (-1, None)
      else fetch_tag_loop ptr val tclass (skipped + 1)
    else
      let val := Z.lor (u32 (val ≪ 7)) oct in
      (skipped, Some (Z.lor (u32 (val ≪ 2)) tclass))
  end.

(** Return value and [*tag_r] when stored. *)
Definition ber_fetch_tag (ptr : list Z) : Z * option Z :=
  match ptr with
  | [] => (0, None)
  | val :: ptr =>
    let tclass := val ≫ 6 in
    let val := Z.land val 31 in
    if negb (val =? 31) then (1, Some (Z.lor (val ≪ 2) tclass))
    else fetch_tag_loop ptr 0 tclass 2
  end.

(** for(required_size = 1, i = step; i < width; i += step) if(v >> i)
    required_size++ else break; *)
Fixpoint required_loop (fuel : nat) (v step width required_size i : Z) : Z * Z :=
  match fuel with
  | O => (required_size, i)
  | S fuel =>
    if i <? width then
      if negb (v ≫ i =? 0) then required_loop fuel v step width (required_size + 1) (i + step)
      else (required_size, i)
    else (required_size, i)
  end.

(** for(i -= 7; buf < end; i -= 7, buf++) *buf = 0x80 | ((tval >> i) & 0x7F);
    from index [pos], [count] octets. *)
Fixpoint fill_tag (count : nat) (buf : list Z) (pos tval i : Z) : option (list Z) :=
  match count with
  | O => Some buf
  | S count =>
    buf ← store buf pos (Z.lor 128 (Z.land (tval ≫ i) 127));
    fill_tag count buf (pos + 1) tval (i - 7)
  end.

(** Return value and the buffer, of which [size] octets may be written. *)
Definition ber_tlv_tag_serialize (tag : Z) (buf : list Z) : option (Z * list Z) :=
  let size := Z.of_nat (length buf) in
  let tclass := BER_TAG_CLASS tag in
  let tval := BER_TAG_VALUE tag in
  if tval <=? 30 then
    buf ← (if negb (size =? 0) then store buf 0 (Z.lor (tclass ≪ 6) tval) else Some buf);
    Some (1, buf)
  else
    '(buf, pos, size) ← (if negb (size =? 0) then
        buf ← store buf 0 (Z.lor (tclass ≪ 6) 31); Some (buf, 1, size - 1)
      else Some (buf, 0, size));
    let '(required_size, i) := required_loop 5 tval 7 32 1 7 in
    if size <? required_size then Some (required_size + 1, buf)
    else
      buf ← fill_tag (Z.to_nat (required_size - 1)) buf pos tval (i - 7);
      buf ← store buf (pos + (required_size - 1)) (Z.land tval 127);
      Some (required_size + 1, buf).

(** ** Lengths *)

Definition RSSIZE_MAX := ULONG_MAX ≫ 2.

(** Return value and [*len_r] when stored. *)
Fixpoint fetch_length_loop (buf : list Z) (oct len skipped : Z) : Z * option Z :=
  if oct =? 0 then
    if (len <? 0) || (RSSIZE_MAX <? len) then (-1, None) else (skipped, Some len)
  else
    match buf with
    | [] => (0, None)
    | b :: buf =>
      if len ≫ (8 * 8 - (8 + 1)) =? 0
      then fetch_length_loop buf (oct - 1) (Z.lor (s64 (len ≪ 8)) b) (skipped + 1)
      else (-1, None)
    end.

Definition ber_fetch_length (_is_constructed : bool) (buf : list Z) : Z * option Z :=
  match buf with
  | [] => (0, None)
  | oct :: buf =>
    if Z.land oct 128 =? 0 then (1, Some oct)
    else if _is_constructed && (oct =? 128) then (1, Some (-1))
    else if oct =? 255 then (-1, None)
    else fetch_length_loop buf (Z.land oct 127) 0 1
  end.

(** The loop over the elements of an indefinite length, up to and including
    the end-of-contents octets; [skip_length] is the recursive call. *)
Fixpoint skip_elements (skip_length : bool -> list Z -> option Z) (n : nat) (skip : Z) (ptr : list Z) :
    option Z :=
  match n with
  | O => None
  | S n =>
    let '(tl, tag) := ber_fetch_tag ptr in
    if tl <=? 0 then Some tl else
    b0 ← read ptr 0;
    ll ← skip_length (BER_TLV_CONSTRUCTED b0) (drop (Z.to_nat tl) ptr);
    if ll <=? 0 then Some ll else
    let skip := skip + (tl + ll) in
    b1 ← read ptr 1;
    if (b0 =? 0) && (b1 =? 0) then Some skip
    else skip_elements skip_length n skip (drop (Z.to_nat (tl + ll)) ptr)
  end.

(** [fuel] bounds the nesting and the elements of one level; [None] is a read
    outside the octets. *)
Fixpoint ber_skip_length (fuel : nat) (_is_constructed : bool) (ptr : list Z) : option Z :=
  match fuel with
  | O => None
  | S fuel =>
    let '(ll, vlen) := ber_fetch_length _is_constructed ptr in
    match vlen with
    | None => Some ll
    | Some vlen =>
      if ll <=? 0 then Some ll
      else if 0 <=? vlen then
        let skip := u64 (ll + vlen) in
        Some (if Z.of_nat (length ptr) <? skip then 0 else skip)
      else skip_elements (ber_skip_length fuel) fuel ll (drop (Z.to_nat ll) ptr)
    end
  end.

Fixpoint fill_length (count : nat) (buf : list Z) (pos len i : Z) : option (list Z) :=
  match count with
  | O => Some buf
  | S count =>
    buf ← store buf pos (len ≫ i); fill_length count buf (pos + 1) len (i - 8)
  end.

Definition der_tlv_length_serialize (len : Z) (buf : list Z) : option (Z * list Z) :=
  let size := Z.of_nat (length buf) in
  if len <=? 127 then
    buf ← (if negb (size =? 0) then store buf 0 len else Some buf);
    Some (1, buf)
  else
    let '(required_size, i) := required_loop 8 len 8 64 1 8 in
    if size <=? required_size then Some (required_size + 1, buf)
    else
      buf ← store buf 0 (Z.lor 128 required_size);
      buf ← fill_length (Z.to_nat required_size) buf 1 len (i - 8);
      Some (required_size + 1, buf).

(** ** Specification *)

(** [k] continuation octets and the last one. *)
Fixpoint tag_groups (k : nat) (v : Z) : list Z :=
  match k with
  | O => [Z.land v 127]
  | S k' => Z.lor 128 (Z.land (v ≫ (7 * Z.of_nat k)) 127) :: tag_groups k' v
  end.

(** Groups of [w] bits needed for [v]. *)
Definition groups (w width v : Z) : Z := (required_loop (Z.to_nat width) v w width 1 w).1.

Definition tag_octets (tag : Z) : list Z :=
  let v := BER_TAG_VALUE tag in
  if v <=? 30 then [BER_TAG_CLASS tag * 64 + v]
  else (BER_TAG_CLASS tag * 64 + 31) :: tag_groups (Z.to_nat (groups 7 32 v - 1)) v.

Definition length_octets (len : Z) : list Z :=
  if len <=? 127 then [len]
  else (128 + groups 8 64 len) :: be_bytes (Z.to_nat (groups 8 64 len)) len.

(** ** Lemmas *)

Lemma required_loop_ok fuel v step width r i : 0 < step -> 0 < r -> i = step * r ->
  width - i < step * Z.of_nat fuel ->
  exists n, required_loop fuel v step width r i = (n, step * n) /\ r <= n /\
    (step * n < width -> v ≫ (step * n) = 0) /\
    (r < n -> v ≫ (step * (n - 1)) <> 0 /\ step * (n - 1) < width).
Proof.
  revert r i. induction fuel as [|fuel IH]; intros r i Hs Hr -> Hf; cbn [required_loop].
  { exists r. split_and!; try done; lia. }
  destruct (Z.ltb_spec (step * r) width).
  2: { exists r. split_and!; try done; lia. }
  destruct (Z.eqb_spec (v ≫ (step * r)) 0) as [H0|H0]; cbn [negb].
  { exists r. split_and!; try done; lia. }
  destruct (IH (r + 1) (step * r + step)) as (n & -> & Hn & Hz & Hnz); [lia..|].
  exists n. split_and!; try done; [lia|]. intros Hlt. destruct (decide (n = r + 1)) as [->|Hne].
  - replace (r + 1 - 1) with r by lia. done.
  - apply Hnz. lia.
Qed.

Lemma groups_ok fuel w width v : 0 < w -> 0 < width -> width < w * Z.of_nat fuel + w ->
  required_loop fuel v w width 1 w = (groups w width v, w * groups w width v) /\
  1 <= groups w width v /\ (0 <= v < 2 ^ width -> v < 2 ^ (w * groups w width v)) /\
  w * (groups w width v - 1) < width.
Proof.
  intros Hw Hwidth Hf.
  assert (Huniq : forall f, width < w * Z.of_nat f + w -> exists n,
    required_loop f v w width 1 w = (n, w * n) /\ 1 <= n /\
    (0 <= v < 2 ^ width -> v < 2 ^ (w * n)) /\ w * (n - 1) < width /\
    (forall m, 1 <= m < n -> v ≫ (w * m) <> 0) /\ (w * n < width -> v ≫ (w * n) = 0)).
  { intros f Hff. destruct (required_loop_ok f v w width 1 w) as (n & Hr & Hn & Hz & Hnz); [lia..|].
    exists n. split_and!; try done.
    - intros Hv. destruct (Z.ltb_spec (w * n) width) as [Hlt|Hge].
      + specialize (Hz Hlt). rewrite shiftr_div in Hz by lia.
        pose proof (pow2_pos (w * n) ltac:(lia)). apply Z.div_small_iff in Hz; lia.
      + assert (2 ^ width <= 2 ^ (w * n)) by (apply Z.pow_le_mono_r; lia). lia.
    - destruct (decide (n = 1)) as [->|]; [lia|]. apply Hnz. lia.
    - intros m Hm Hz0. destruct Hnz as [Hnz _]; [lia|]. apply Hnz.
      replace (w * (n - 1)) with (w * m + w * (n - 1 - m)) by lia.
      rewrite <- Z.shiftr_shiftr by nia. rewrite Hz0. apply Z.shiftr_0_l. }
  destruct (Huniq fuel Hf) as (n & Hr & Hn & Hv & Hlt & Hnz & Hz).
  destruct (Huniq (Z.to_nat width)) as (n' & Hr' & Hn' & _ & Hlt' & Hnz' & Hz'); [nia|].
  assert (n = n') as <-.
  { destruct (Z.lt_trichotomy n n') as [Hl|[He|Hg]]; [|done|]; exfalso.
    - apply (Hnz' n); [lia|]. apply Hz. nia.
    - apply (Hnz n'); [lia|]. apply Hz'. nia. }
  unfold groups. rewrite Hr'. cbn [fst]. by rewrite Hr.
Qed.

Lemma length_tag_groups k v : length (tag_groups k v) = S k.
Proof. induction k; cbn [tag_groups length]; congruence. Qed.

Lemma u8_cont x : u8 (Z.lor 128 (Z.land x 127)) = Z.lor 128 (Z.land x 127).
Proof.
  change 127 with (2 ^ 7 - 1) at 1 2. rewrite !land_ones_mod by lia. pose proof (mod_pow2_bounds x 7 ltac:(lia)) as H.
  change (2 ^ 7) with 128 in *. replace (Z.lor 128 (x mod 128)) with (1 * 2 ^ 7 + x mod 128)
    by (symmetry; apply (lor_shiftl_add 1 (x mod 128) 7); lia).
  apply u8_small. unfold byte_ok. change (2 ^ 7) with 128. lia.
Qed.

(** Filling the octets of a buffer from a position. *)
Lemma fill_tag_ok k : forall pre mid v rest, length mid = S k ->
  (buf ← fill_tag k (pre ++ mid ++ rest) (Z.of_nat (length pre)) v (7 * Z.of_nat k);
   store buf (Z.of_nat (length pre) + Z.of_nat k) (Z.land v 127)) = Some (pre ++ tag_groups k v ++ rest).
Proof.
  induction k as [|k IH]; intros pre mid v rest Hm.
  - destruct mid as [|a [|b mid]]; try done. cbn [fill_tag mbind option_bind tag_groups app].
    rewrite store_app_0 by lia. do 2 f_equal. rewrite u8_small; [done|].
    change 127 with (2 ^ 7 - 1). rewrite land_ones_mod by lia. pose proof (mod_pow2_bounds v 7 ltac:(lia)).
    unfold byte_ok. change (2 ^ 7) with 128 in *. lia.
  - destruct mid as [|a mid]; [done|]. cbn [fill_tag app]. rewrite store_app_0 by done.
    cbn [mbind option_bind]. rewrite u8_cont.
    replace (Z.of_nat (length pre) + 1) with (Z.of_nat (length (pre ++ [Z.lor 128 (Z.land (v ≫ (7 * Z.of_nat (S k))) 127)])))
      by (rewrite length_app; cbn [length]; lia).
    replace (7 * Z.of_nat (S k) - 7) with (7 * Z.of_nat k) by lia.
    replace (pre ++ Z.lor 128 (Z.land (v ≫ (7 * Z.of_nat (S k))) 127) :: mid ++ rest)
      with ((pre ++ [Z.lor 128 (Z.land (v ≫ (7 * Z.of_nat (S k))) 127)]) ++ mid ++ rest)
      by (by rewrite <- app_assoc).
    cbn [length] in Hm. specialize (IH (pre ++ [Z.lor 128 (Z.land (v ≫ (7 * Z.of_nat (S k))) 127)]) mid v rest ltac:(lia)).
    rewrite length_app in IH |- *. cbn [length] in IH |- *.
    replace (Z.of_nat (length pre) + Z.of_nat (S k)) with (Z.of_nat (length pre + 1) + Z.of_nat k) by lia.
    rewrite IH. cbn [tag_groups]. by rewrite <- app_assoc.
Qed.

Lemma fill_length_ok k : forall pre mid v rest, length mid = k ->
  fill_length k (pre ++ mid ++ rest) (Z.of_nat (length pre)) v (8 * Z.of_nat k - 8) =
  Some (pre ++ be_bytes k v ++ rest).
Proof.
  induction k as [|k IH]; intros pre mid v rest Hm.
  - by destruct mid.
  - destruct mid as [|a mid]; [done|]. cbn [fill_length app be_bytes]. rewrite store_app_0 by done.
    cbn [mbind option_bind].
    replace (8 * Z.of_nat (S k) - 8) with (8 * Z.of_nat k) by lia.
    set (x := u8 (v ≫ (8 * Z.of_nat k))).
    replace (Z.of_nat (length pre) + 1) with (Z.of_nat (length (pre ++ [x])))
      by (rewrite length_app; cbn [length]; lia).
    replace (pre ++ x :: mid ++ rest) with ((pre ++ [x]) ++ mid ++ rest) by (by rewrite <- app_assoc).
    cbn [length] in Hm. rewrite IH by lia. by rewrite <- app_assoc.
Qed.

Lemma cont_octet x : 0 <= x < 128 ->
  (Z.land (Z.lor 128 x) 128 =? 0) = false /\ Z.land (Z.lor 128 x) 127 = x /\
  (Z.land x 128 =? 0) = true.
Proof.
  intros Hx.
  assert (Hall : forallb (fun x => negb (Z.land (Z.lor 128 x) 128 =? 0) &&
    (Z.land (Z.lor 128 x) 127 =? x) && (Z.land x 128 =? 0)) (seqZ 0 128) = true) by reflexivity.
  rewrite forallb_forall in Hall. specialize (Hall x). rewrite !andb_true_iff, negb_true_iff, Z.eqb_eq in Hall.
  destruct Hall as [[? ?] ?]; [|done]. apply list_elem_of_In, elem_of_seqZ. lia.
Qed.

(** One more group of seven bits. *)
Lemma group_step v k : 0 <= v < 2 ^ 30 -> 0 <= k ->
  Z.lor (u32 ((v ≫ (7 * (k + 1))) ≪ 7)) ((v ≫ (7 * k)) mod 128) = v ≫ (7 * k).
Proof.
  intros Hv Hk. rewrite !shiftr_div by lia. replace (7 * (k + 1)) with (7 * k + 7) by lia.
  rewrite pow2_split, <- Z.div_div by (pose proof (pow2_pos (7 * k)); lia). change (2 ^ 7) with 128.
  set (y := v / 2 ^ (7 * k)).
  assert (Hy : 0 <= y <= v).
  { unfold y. pose proof (pow2_pos (7 * k) ltac:(lia)). split; [apply Z.div_pos; lia|apply Z.div_le_upper_bound; nia]. }
  change (2 ^ 30) with 1073741824 in Hv.
  rewrite shiftl_mul by lia. change (2 ^ 7) with 128. unfold u32.
  rewrite Z.mod_small by (change (2 ^ 32) with 4294967296; Z.div_mod_to_equations; lia).
  rewrite <- (shiftl_mul _ 7) by lia. rewrite lor_shiftl_add by (lia || (change (2 ^ 7) with 128; Z.div_mod_to_equations; lia)).
  change (2 ^ 7) with 128. Z.div_mod_to_equations; lia.
Qed.

Lemma fetch_tag_loop_ok k v tclass skipped rest : 0 <= v < 2 ^ 30 ->
  fetch_tag_loop (tag_groups k v ++ rest) (v ≫ (7 * (Z.of_nat k + 1))) tclass skipped =
  (skipped + Z.of_nat k, Some (Z.lor (u32 (v ≪ 2)) tclass)).
Proof.
  intros Hv. revert skipped. induction k as [|k IH]; intros skipped.
  - cbn [tag_groups app fetch_tag_loop]. rewrite land_127.
    destruct (cont_octet (v mod 128)) as (_ & _ & ->); [apply Z.mod_pos_bound; lia|]. cbn [negb].
    pose proof (group_step v 0 Hv ltac:(lia)) as Hg. cbn [Z.mul] in Hg. rewrite Z.shiftr_0_r in Hg.
    change (Z.of_nat 0 + 1) with (0 + 1). rewrite Hg. do 2 f_equal. lia.
  - cbn [tag_groups app fetch_tag_loop]. rewrite land_127.
    destruct (cont_octet ((v ≫ (7 * Z.of_nat (S k))) mod 128)) as (-> & -> & _);
      [apply Z.mod_pos_bound; lia|]. cbn [negb].
    rewrite group_step by lia. replace (Z.of_nat (S k)) with (Z.of_nat k + 1) by lia.
    assert (Hsmall : (v ≫ (7 * (Z.of_nat k + 1))) ≫ (8 * 4 - 9) = 0).
    { rewrite Z.shiftr_shiftr, shiftr_div by lia. apply Z.div_small.
      assert (2 ^ 30 <= 2 ^ (7 * (Z.of_nat k + 1) + (8 * 4 - 9))) by (apply Z.pow_le_mono_r; lia). lia. }
    rewrite Hsmall. cbn [negb Z.eqb]. rewrite IH. f_equal. lia.
Qed.

(** Before the last octet more are wanted. *)
Lemma fetch_tag_loop_short k j v tclass skipped : 0 <= v < 2 ^ 30 -> (j <= k)%nat ->
  fetch_tag_loop (take j (tag_groups k v)) (v ≫ (7 * (Z.of_nat k + 1))) tclass skipped = (0, None).
Proof.
  intros Hv. revert j skipped. induction k as [|k IH]; intros [|j] skipped Hj; try done; try lia.
  cbn [tag_groups take fetch_tag_loop]. rewrite land_127.
  destruct (cont_octet ((v ≫ (7 * Z.of_nat (S k))) mod 128)) as (-> & -> & _);
    [apply Z.mod_pos_bound; lia|]. cbn [negb].
  rewrite group_step by lia. replace (Z.of_nat (S k)) with (Z.of_nat k + 1) by lia.
  assert (Hsmall : (v ≫ (7 * (Z.of_nat k + 1))) ≫ (8 * 4 - 9) = 0).
  { rewrite Z.shiftr_shiftr, shiftr_div by lia. apply Z.div_small.
    assert (2 ^ 30 <= 2 ^ (7 * (Z.of_nat k + 1) + (8 * 4 - 9))) by (apply Z.pow_le_mono_r; lia). lia. }
  rewrite Hsmall. cbn [negb Z.eqb]. apply IH. lia.
Qed.

(** A tag is its class and its value. *)
Lemma tag_split tag : 0 <= tag < 2 ^ 32 ->
  0 <= BER_TAG_CLASS tag < 4 /\ 0 <= BER_TAG_VALUE tag < 2 ^ 30 /\
  Z.lor (u32 (BER_TAG_VALUE tag ≪ 2)) (BER_TAG_CLASS tag) = tag.
Proof.
  intros Ht. unfold BER_TAG_CLASS, BER_TAG_VALUE. change 3 with (2 ^ 2 - 1) at 1 2 3.
  rewrite land_ones_mod, shiftr_div by lia. change (2 ^ 2) with 4. change (2 ^ 30) with 1073741824.
  change (2 ^ 32) with 4294967296 in Ht. unfold u32. rewrite shiftl_mul by lia. change (2 ^ 2) with 4.
  rewrite (Z.mod_small (tag / 4 * 4)) by (change (2 ^ 32) with 4294967296; Z.div_mod_to_equations; lia).
  split_and!; try (Z.div_mod_to_equations; lia).
  rewrite <- (shiftl_mul _ 2), lor_shiftl_add by (lia || (change (2 ^ 2) with 4; Z.div_mod_to_equations; lia)).
  change (2 ^ 2) with 4. Z.div_mod_to_equations; lia.
Qed.

(** The first octet: class above, value or the escape below. *)
Lemma first_octet c x : 0 <= c < 4 -> 0 <= x < 32 ->
  Z.lor (c ≪ 6) x = c * 64 + x /\ (c * 64 + x) ≫ 6 = c /\ Z.land (c * 64 + x) 31 = x /\
  byte_ok (c * 64 + x).
Proof.
  intros Hc Hx. unfold byte_ok. rewrite lor_shiftl_add by (lia || (change (2 ^ 6) with 64; lia)).
  rewrite shiftr_div by lia. change 31 with (2 ^ 5 - 1). rewrite land_ones_mod by lia.
  change (2 ^ 6) with 64. change (2 ^ 5) with 32. split_and!; Z.div_mod_to_equations; lia.
Qed.

Lemma fetch_tag_ok tag rest : 0 <= tag < 2 ^ 32 ->
  ber_fetch_tag (tag_octets tag ++ rest) = (Z.of_nat (length (tag_octets tag)), Some tag).
Proof.
  intros Ht. destruct (tag_split tag Ht) as (Hc & Hv & Hjoin). unfold tag_octets.
  destruct (Z.leb_spec (BER_TAG_VALUE tag) 30).
  - cbn [app ber_fetch_tag length]. destruct (first_octet _ (BER_TAG_VALUE tag) Hc ltac:(lia)) as (_ & -> & -> & _).
    zcase. cbn [negb]. do 2 f_equal. rewrite <- Hjoin at 3. f_equal. unfold u32.
    rewrite shiftl_mul by lia. change (2 ^ 2) with 4. change (2 ^ 32) with 4294967296.
    symmetry. apply Z.mod_small. lia.
  - cbn [app ber_fetch_tag]. destruct (first_octet _ 31 Hc ltac:(lia)) as (_ & -> & -> & _). cbn [Z.eqb Pos.eqb negb].
    destruct (groups_ok 5 7 32 (BER_TAG_VALUE tag)) as (_ & Hg1 & Hgv & _); [lia..|].
    set (k := Z.to_nat (groups 7 32 (BER_TAG_VALUE tag) - 1)) in *.
    assert (H0 : BER_TAG_VALUE tag ≫ (7 * (Z.of_nat k + 1)) = 0).
    { rewrite shiftr_div by lia. apply Z.div_small. split; [lia|]. unfold k.
      replace (Z.of_nat (Z.to_nat (groups 7 32 (BER_TAG_VALUE tag) - 1)) + 1) with (groups 7 32 (BER_TAG_VALUE tag)) by lia.
      apply Hgv. change (2 ^ 30) with 1073741824 in Hv. change (2 ^ 32) with 4294967296. lia. }
    rewrite <- H0. rewrite fetch_tag_loop_ok, Hjoin by done. cbn [length]. rewrite length_tag_groups.
    f_equal. lia.
Qed.

Lemma fetch_tag_short tag j : 0 <= tag < 2 ^ 32 -> (j < length (tag_octets tag))%nat ->
  ber_fetch_tag (take j (tag_octets tag)) = (0, None).
Proof.
  intros Ht. destruct (tag_split tag Ht) as (Hc & Hv & Hjoin). unfold tag_octets.
  destruct (Z.leb_spec (BER_TAG_VALUE tag) 30); intros Hj.
  { cbn in Hj. by replace j with 0%nat by lia. }
  destruct j as [|j]; [done|]. cbn [take ber_fetch_tag].
  destruct (first_octet _ 31 Hc ltac:(lia)) as (_ & -> & -> & _). cbn [Z.eqb Pos.eqb negb].
  destruct (groups_ok 5 7 32 (BER_TAG_VALUE tag)) as (_ & Hg1 & Hgv & _); [lia..|].
  set (k := Z.to_nat (groups 7 32 (BER_TAG_VALUE tag) - 1)) in *.
  assert (H0 : BER_TAG_VALUE tag ≫ (7 * (Z.of_nat k + 1)) = 0).
  { rewrite shiftr_div by lia. apply Z.div_small. split; [lia|]. unfold k.
    replace (Z.of_nat (Z.to_nat (groups 7 32 (BER_TAG_VALUE tag) - 1)) + 1) with (groups 7 32 (BER_TAG_VALUE tag)) by lia.
    apply Hgv. change (2 ^ 30) with 1073741824 in Hv. change (2 ^ 32) with 4294967296. lia. }
  rewrite <- H0 at 1. apply fetch_tag_loop_short; [done|]. cbn [length] in Hj. rewrite length_tag_groups in Hj. lia.
Qed.

(** The serializer fills the front of a large enough buffer, and only reports
    the size otherwise. *)
Lemma tag_serialize_ok tag buf : 0 <= tag < 2 ^ 32 ->
  exists buf', ber_tlv_tag_serialize tag buf = Some (Z.of_nat (length (tag_octets tag)), buf') /\
    length buf' = length buf /\
    ((length (tag_octets tag) <= length buf)%nat ->
     buf' = tag_octets tag ++ drop (length (tag_octets tag)) buf).
Proof.
  intros Ht. destruct (tag_split tag Ht) as (Hc & Hv & _). unfold ber_tlv_tag_serialize, tag_octets.
  destruct (Z.leb_spec (BER_TAG_VALUE tag) 30).
  - destruct buf as [|b buf]; [exists []; split_and!; [done|done|cbn; lia]|]. cbn [length]. zcase. cbn [negb].
    destruct (first_octet _ (BER_TAG_VALUE tag) Hc ltac:(lia)) as (-> & _ & _ & Hok).
    rewrite (store_app_0 [] b buf) by done. cbn [mbind option_bind app]. rewrite u8_small by done.
    eexists. split_and!; [done|done|]. intros _. by rewrite skipn_cons, drop_0.
  - destruct (first_octet _ 31 Hc ltac:(lia)) as (-> & _ & _ & Hok).
    destruct (groups_ok 5 7 32 (BER_TAG_VALUE tag)) as (-> & Hg1 & _ & _); [lia..|].
    set (g := groups 7 32 (BER_TAG_VALUE tag)) in *. set (k := Z.to_nat (g - 1)).
    assert (Hlen : Z.of_nat (length ((BER_TAG_CLASS tag * 64 + 31) :: tag_groups k (BER_TAG_VALUE tag))) = g + 1)
      by (cbn [length]; rewrite length_tag_groups; lia).
    rewrite Hlen. destruct buf as [|b buf].
    { change (Z.of_nat (length []) =? 0) with true. cbn [negb mbind option_bind length Z.of_nat]. zcase.
      exists []. split_and!; [done|done|]. rewrite length_tag_groups. lia. }
    cbn [length]. destruct (Z.eqb_spec (Z.of_nat (S (length buf))) 0); [lia|]. cbn [negb].
    rewrite (store_app_0 [] b buf) by done. cbn [mbind option_bind app]. rewrite u8_small by done.
    destruct (Z.ltb_spec (Z.of_nat (S (length buf)) - 1) g).
    { eexists. split_and!; [done|done|]. cbn [length]. rewrite length_tag_groups. lia. }
    set (o := BER_TAG_CLASS tag * 64 + 31) in *.
    pose proof (fill_tag_ok k [o] (take (S k) buf) (BER_TAG_VALUE tag) (drop (S k) buf)) as Hfill.
    rewrite take_drop, length_take, Nat.min_l in Hfill by lia. specialize (Hfill eq_refl).
    cbn [length app] in Hfill. change (Z.of_nat 1) with 1 in Hfill.
    replace (7 * g - 7) with (7 * Z.of_nat k) by lia.
    replace (g - 1) with (Z.of_nat k) by lia.
    destruct (fill_tag _ _ _ _ _) as [t|]; [|done]. cbn [mbind option_bind] in Hfill |- *.
    rewrite Hfill. cbn [mbind option_bind]. eexists. split_and!; [done|..].
    + cbn [length]. rewrite length_app, length_tag_groups, length_drop. lia.
    + intros _. cbn [length app]. rewrite length_tag_groups. done.
Qed.

(** One more octet of a length: no overflow, and the octets so far. *)
Lemma length_step k v : 0 <= v <= RSSIZE_MAX ->
  (v ≫ (8 * Z.of_nat (S k))) ≫ (8 * 8 - (8 + 1)) = 0 /\
  Z.lor (s64 ((v ≫ (8 * Z.of_nat (S k))) ≪ 8)) (u8 (v ≫ (8 * Z.of_nat k))) = v ≫ (8 * Z.of_nat k).
Proof.
  intros Hv. assert (Hmax : RSSIZE_MAX = 4611686018427387903) by reflexivity. split.
  - rewrite Z.shiftr_shiftr, shiftr_div by lia. apply Z.div_small.
    assert (2 ^ 63 <= 2 ^ (8 * Z.of_nat (S k) + (8 * 8 - (8 + 1)))) by (apply Z.pow_le_mono_r; lia).
    change (2 ^ 63) with 9223372036854775808 in *. lia.
  - rewrite !shiftr_div, shiftl_mul by lia. replace (8 * Z.of_nat (S k)) with (8 * Z.of_nat k + 8) by lia.
    rewrite pow2_split, <- Z.div_div by (pose proof (pow2_pos (8 * Z.of_nat k)); lia). unfold u8.
    change (2 ^ 8) with 256. set (y := v / 2 ^ (8 * Z.of_nat k)).
    assert (Hy : 0 <= y <= v).
    { unfold y. pose proof (pow2_pos (8 * Z.of_nat k) ltac:(lia)).
      split; [apply Z.div_pos; lia|apply Z.div_le_upper_bound; nia]. }
    rewrite s64_small by (change (2 ^ 63) with 9223372036854775808; Z.div_mod_to_equations; lia).
    change 256 with (2 ^ 8) at 2. rewrite <- shiftl_mul, lor_shiftl_add by
      (lia || (change (2 ^ 8) with 256; Z.div_mod_to_equations; lia)).
    change (2 ^ 8) with 256. Z.div_mod_to_equations; lia.
Qed.

Lemma fetch_length_loop_ok k v skipped rest : 0 <= v <= RSSIZE_MAX ->
  fetch_length_loop (be_bytes k v ++ rest) (Z.of_nat k) (v ≫ (8 * Z.of_nat k)) skipped =
  (skipped + Z.of_nat k, Some v).
Proof.
  intros Hv. revert skipped. induction k as [|k IH]; intros skipped.
  - cbn [be_bytes app fetch_length_loop]. rewrite Z.shiftr_0_r. unfold fetch_length_loop. destruct rest; cbn [Z.of_nat Z.eqb];
    zcases; (f_equal; lia).
  - cbn [be_bytes app fetch_length_loop]. destruct (Z.eqb_spec (Z.of_nat (S k)) 0); [lia|].
    destruct (length_step k v Hv) as [-> ->]. cbn [Z.eqb].
    replace (Z.of_nat (S k) - 1) with (Z.of_nat k) by lia. rewrite IH. f_equal. lia.
Qed.

Lemma fetch_length_loop_short k j v skipped : 0 <= v <= RSSIZE_MAX -> (j < k)%nat ->
  fetch_length_loop (take j (be_bytes k v)) (Z.of_nat k) (v ≫ (8 * Z.of_nat k)) skipped = (0, None).
Proof.
  intros Hv. revert j skipped. induction k as [|k IH]; intros j skipped Hj; [lia|].
  destruct j as [|j]; cbn [be_bytes take fetch_length_loop];
    (destruct (Z.eqb_spec (Z.of_nat (S k)) 0); [lia|]); [done|].
  destruct (length_step k v Hv) as [-> ->]. cbn [Z.eqb].
  replace (Z.of_nat (S k) - 1) with (Z.of_nat k) by lia. apply IH. lia.
Qed.

Lemma length_groups len : 127 < len <= RSSIZE_MAX -> 1 <= groups 8 64 len <= 8 /\
  len ≫ (8 * groups 8 64 len) = 0 /\
  required_loop 8 len 8 64 1 8 = (groups 8 64 len, 8 * groups 8 64 len).
Proof.
  intros Hl. assert (Hmax : RSSIZE_MAX = 4611686018427387903) by reflexivity.
  destruct (groups_ok 8 8 64 len) as (Hr & Hg1 & Hgv & Hg2); [lia..|].
  split_and!; try lia; [|done]. rewrite shiftr_div by lia. apply Z.div_small. split; [lia|].
  apply Hgv. change (2 ^ 64) with 18446744073709551616. lia.
Qed.

(** The first octet of a long length. *)
Lemma long_form g : 1 <= g <= 8 -> Z.lor 128 g = 128 + g /\ (Z.land (128 + g) 128 =? 0) = false /\
  Z.land (128 + g) 127 = g /\ byte_ok (128 + g).
Proof.
  intros Hg. unfold byte_ok.
  assert (g = 1 \/ g = 2 \/ g = 3 \/ g = 4 \/ g = 5 \/ g = 6 \/ g = 7 \/ g = 8) as Hc by lia.
  by repeat (destruct Hc as [-> | Hc]; [done|]); subst.
Qed.

Lemma short_form len : 0 <= len <= 127 -> (Z.land len 128 =? 0) = true.
Proof. intros. by destruct (cont_octet len) as (_ & _ & ?); [lia|]. Qed.

Lemma fetch_length_ok cons len rest : 0 <= len <= RSSIZE_MAX ->
  ber_fetch_length cons (length_octets len ++ rest) = (Z.of_nat (length (length_octets len)), Some len).
Proof.
  intros Hl. unfold length_octets. destruct (Z.leb_spec len 127).
  - cbn [app ber_fetch_length length]. by rewrite short_form by lia.
  - destruct (length_groups len ltac:(lia)) as (Hg & H0 & _). cbn [app ber_fetch_length length].
    set (g := groups 8 64 len) in *. destruct (long_form g Hg) as (_ & -> & -> & _).
    destruct (Z.eqb_spec (128 + g) 128); [lia|]. rewrite andb_false_r. zcase.
    rewrite length_be_bytes. replace g with (Z.of_nat (Z.to_nat g)) in H0 |- * at 2 by lia.
    rewrite <- H0. rewrite fetch_length_loop_ok by done. f_equal. lia.
Qed.

Lemma fetch_length_short cons len j : 0 <= len <= RSSIZE_MAX -> (j < length (length_octets len))%nat ->
  ber_fetch_length cons (take j (length_octets len)) = (0, None).
Proof.
  intros Hl. unfold length_octets. destruct (Z.leb_spec len 127); intros Hj.
  { cbn in Hj. by replace j with 0%nat by lia. }
  destruct (length_groups len ltac:(lia)) as (Hg & H0 & _).
  destruct (long_form _ Hg) as (_ & Hl1 & Hl2 & _).
  destruct j as [|j]; [done|]. cbn [take ber_fetch_length]. rewrite Hl1.
  destruct (Z.eqb_spec (128 + groups 8 64 len) 128); [lia|].
  destruct (Z.eqb_spec (128 + groups 8 64 len) 255); [lia|]. rewrite andb_false_r, Hl2.
  cbn [length] in Hj. rewrite length_be_bytes in Hj.
  pose proof (fetch_length_loop_short (Z.to_nat (groups 8 64 len)) j len 1 Hl ltac:(lia)) as Hs.
  by rewrite Z2Nat.id, H0 in Hs by lia.
Qed.

Lemma length_serialize_ok len buf : 0 <= len <= RSSIZE_MAX ->
  exists buf', der_tlv_length_serialize len buf = Some (Z.of_nat (length (length_octets len)), buf') /\
    length buf' = length buf /\
    ((length (length_octets len) <= length buf)%nat ->
     buf' = length_octets len ++ drop (length (length_octets len)) buf).
Proof.
  intros Hl. unfold der_tlv_length_serialize, length_octets. destruct (Z.leb_spec len 127).
  - destruct buf as [|b buf]; [exists []; split_and!; [done|done|cbn; lia]|]. cbn [length]. zcase. cbn [negb].
    rewrite (store_app_0 [] b buf) by done. cbn [mbind option_bind app].
    rewrite u8_small by (unfold byte_ok; lia). eexists. split_and!; [done|done|]. intros _.
    by rewrite skipn_cons, drop_0.
  - destruct (length_groups len ltac:(lia)) as (Hg & _ & ->). set (g := groups 8 64 len) in *.
    cbn [length]. rewrite length_be_bytes. destruct (Z.leb_spec (Z.of_nat (length buf)) g).
    { eexists. split_and!; [do 2 f_equal; lia|done|]. lia. }
    destruct (long_form g Hg) as (-> & _ & _ & Hok). destruct buf as [|b buf]; [cbn in *; lia|].
    rewrite (store_app_0 [] b buf) by done. cbn [mbind option_bind app]. rewrite u8_small by done.
    cbn [length] in *. set (k := Z.to_nat g).
    pose proof (fill_length_ok k [128 + g] (take k buf) len (drop k buf)) as Hfill.
    rewrite take_drop, length_take, Nat.min_l in Hfill by lia. specialize (Hfill eq_refl).
    cbn [length app] in Hfill. change (Z.of_nat 1) with 1 in Hfill.
    replace (8 * g - 8) with (8 * Z.of_nat k - 8) by lia. rewrite Hfill. cbn [mbind option_bind].
    eexists. split_and!; [do 2 f_equal; lia|..].
    + cbn [length]. rewrite length_app, length_be_bytes, length_drop. lia.
    + intros _. cbn [skipn]. done.
Qed.

(** ** Elements *)

(** A TLV element: contents of definite length, or elements up to the
    end-of-contents octets. *)
Inductive element :=
  | Definite (tag : Z) (constructed : bool) (contents : list Z)
  | Indefinite (tag : Z) (elements : list element).

(** Identifier octets with the constructed bit. *)
Definition identifier (tag : Z) (constructed : bool) : list Z :=
  match tag_octets tag with
  | o :: rest => (if constructed then Z.lor o 32 else o) :: rest
  | [] => []
  end.

(** Length octets and contents, the part [ber_skip_length] runs over. *)
Fixpoint element_octets (e : element) : list Z :=
  match e with
  | Definite tag c contents =>
    identifier tag c ++ length_octets (Z.of_nat (length contents)) ++ contents
  | Indefinite tag es => identifier tag true ++ [128] ++ concat (map element_octets es) ++ [0; 0]
  end.
Definition body_octets (e : element) : list Z :=
  match e with
  | Definite _ _ contents => length_octets (Z.of_nat (length contents)) ++ contents
  | Indefinite _ es => [128] ++ concat (map element_octets es) ++ [0; 0]
  end.
Definition is_constructed (e : element) : bool :=
  match e with Definite _ c _ => c | Indefinite _ _ => true end.

(** Tag 0 of the universal class is reserved for end-of-contents. *)
Fixpoint element_ok (e : element) : Prop :=
  match e with
  | Definite tag _ contents => 0 < tag < 2 ^ 32 /\ Z.of_nat (length contents) <= RSSIZE_MAX
  | Indefinite tag es => 0 < tag < 2 ^ 32 /\ fold_right (fun e P => element_ok e /\ P) True es
  end.

(** Levels and elements: enough fuel to skip an element. *)
Fixpoint element_size (e : element) : nat :=
  match e with
  | Definite _ _ _ => 1
  | Indefinite _ es => S (S (fold_right (fun e n => S (element_size e) + n)%nat 0%nat es))
  end.

Lemma constructed_octet o : 0 <= o < 256 -> Z.land o 32 = 0 ->
  Z.lor o 32 ≫ 6 = o ≫ 6 /\ Z.land (Z.lor o 32) 31 = Z.land o 31 /\ byte_ok (Z.lor o 32) /\
  BER_TLV_CONSTRUCTED (Z.lor o 32) = true /\ Z.lor o 32 <> 0.
Proof.
  intros Ho H32. unfold byte_ok.
  assert (Hall : forallb (fun o => negb (Z.land o 32 =? 0) || ((Z.lor o 32 ≫ 6 =? o ≫ 6) &&
    (Z.land (Z.lor o 32) 31 =? Z.land o 31) && (0 <=? Z.lor o 32) && (Z.lor o 32 <? 256) &&
    BER_TLV_CONSTRUCTED (Z.lor o 32) && negb (Z.lor o 32 =? 0))) (seqZ 0 256) = true) by reflexivity.
  rewrite forallb_forall in Hall. specialize (Hall o ltac:(apply list_elem_of_In, elem_of_seqZ; lia)).
  rewrite H32 in Hall. cbn [Z.eqb negb orb] in Hall.
  rewrite !andb_true_iff, !Z.eqb_eq, Z.leb_le, Z.ltb_lt, negb_true_iff, Z.eqb_neq in Hall. tauto.
Qed.

(** The identifier octets: the tag read from them, the constructed bit, and
    that they are not end-of-contents. *)
Lemma identifier_ok tag c : 0 < tag < 2 ^ 32 -> exists o r, identifier tag c = o :: r /\ o <> 0 /\
  BER_TLV_CONSTRUCTED o = c /\
  forall rest, ber_fetch_tag (identifier tag c ++ rest) = (Z.of_nat (length (identifier tag c)), Some tag).
Proof.
  intros Ht. pose proof (fetch_tag_ok tag) as Hf. unfold identifier.
  destruct (tag_split tag ltac:(lia)) as (Hc & Hv & _). unfold tag_octets in *.
  assert (Hcase : forall x r, 0 <= x < 32 -> (x = 0 -> 0 < BER_TAG_CLASS tag) ->
    (forall rest, 0 <= tag < 2 ^ 32 -> ber_fetch_tag ((BER_TAG_CLASS tag * 64 + x :: r) ++ rest) =
       (Z.of_nat (length (BER_TAG_CLASS tag * 64 + x :: r)), Some tag)) ->
    exists o r', (if c then Z.lor (BER_TAG_CLASS tag * 64 + x) 32 else BER_TAG_CLASS tag * 64 + x) :: r = o :: r' /\
      o <> 0 /\ BER_TLV_CONSTRUCTED o = c /\
      forall rest, ber_fetch_tag (((if c then Z.lor (BER_TAG_CLASS tag * 64 + x) 32 else BER_TAG_CLASS tag * 64 + x) :: r) ++ rest) =
        (Z.of_nat (length ((if c then Z.lor (BER_TAG_CLASS tag * 64 + x) 32 else BER_TAG_CLASS tag * 64 + x) :: r)), Some tag)).
  { intros x r Hx Hx0 Hfetch. set (o := BER_TAG_CLASS tag * 64 + x) in *.
    assert (Ho : 0 <= o < 256) by lia.
    assert (H32 : Z.land o 32 = 0).
    { assert (Hall : forallb (fun c => forallb (fun x => Z.land (c * 64 + x) 32 =? 0) (seqZ 0 32)) (seqZ 0 4) = true) by reflexivity.
      rewrite forallb_forall in Hall. specialize (Hall (BER_TAG_CLASS tag) ltac:(apply list_elem_of_In, elem_of_seqZ; lia)).
      rewrite forallb_forall in Hall. specialize (Hall x ltac:(apply list_elem_of_In, elem_of_seqZ; lia)).
      by apply Z.eqb_eq. }
    destruct c.
    - destruct (constructed_octet o Ho H32) as (H6 & H31 & _ & Hcons & Hne).
      eexists _, r. split_and!; [done|done|done|]. intros rest. specialize (Hfetch rest ltac:(lia)).
      cbn [app ber_fetch_tag length] in Hfetch |- *. by rewrite H6, H31.
    - eexists _, r. split_and!; [done|lia| |intros; apply Hfetch; lia].
      unfold BER_TLV_CONSTRUCTED. by rewrite H32. }
  destruct (Z.leb_spec (BER_TAG_VALUE tag) 30).
  - apply Hcase; [lia| |intros; by apply Hf]. intros H0. unfold BER_TAG_CLASS, BER_TAG_VALUE in *.
    rewrite shiftr_div in H0 by lia. change 3 with (2 ^ 2 - 1). rewrite land_ones_mod by lia.
    change (2 ^ 2) with 4 in *. Z.div_mod_to_equations; lia.
  - apply Hcase; [lia|lia|intros; by apply Hf].
Qed.

Lemma element_octets_body e : exists tag, (element_ok e -> 0 < tag < 2 ^ 32) /\
  element_octets e = identifier tag (is_constructed e) ++ body_octets e.
Proof. destruct e as [tag c contents|tag es]; exists tag; cbn; (split; [by intros []|done]). Qed.

Lemma skip_elements_ok skip_length es rest : forall n skip,
  (length es < n)%nat ->
  (forall e, e ∈ es -> element_ok e /\ 0 < Z.of_nat (length (body_octets e)) /\ forall rest,
     skip_length (is_constructed e) (body_octets e ++ rest) = Some (Z.of_nat (length (body_octets e)))) ->
  (forall rest, skip_length false (0 :: rest) = Some 1) ->
  skip_elements skip_length n skip (concat (map element_octets es) ++ [0; 0] ++ rest) =
  Some (skip + Z.of_nat (length (concat (map element_octets es))) + 2).
Proof.
  induction es as [|e es IH]; intros n skip Hn Hes H0r; (destruct n as [|n]; [lia|]).
  - cbn [map concat app skip_elements ber_fetch_tag]. change (negb (Z.land 0 31 =? 31)) with true. cbn iota zeta.
    change (1 <=? 0) with false. cbn iota. rewrite read_0. cbn [mbind option_bind].
    change (BER_TLV_CONSTRUCTED 0) with false. change (drop (Z.to_nat 1) (0 :: 0 :: rest)) with (0 :: rest).
    rewrite H0r. cbn [mbind option_bind]. change (1 <=? 0) with false. cbn iota.
    rewrite read_1. cbn [mbind option_bind]. cbn [Z.eqb andb length Z.of_nat]. f_equal. lia.
  - destruct (Hes e ltac:(set_solver)) as (Hok & Hpos & Hskip).
    destruct (element_octets_body e) as (tag & Htag & He). specialize (Htag Hok).
    destruct (identifier_ok tag (is_constructed e) Htag) as (o & r & Hid & Ho & Hc & Hfetch).
    cbn [map concat]. rewrite He. rewrite <- !app_assoc.
    set (tail := concat (map element_octets es) ++ [0; 0] ++ rest).
    cbn [skip_elements]. rewrite Hfetch. cbn iota zeta.
    assert (Hidl : 0 < Z.of_nat (length (identifier tag (is_constructed e)))) by (rewrite Hid; cbn; lia).
    zcase. rewrite Hid at 1. cbn [app]. rewrite read_0. cbn [mbind option_bind]. rewrite Hc.
    rewrite Nat2Z.id, drop_app_length, Hskip. cbn [mbind option_bind]. zcase.
    set (ptr := identifier tag (is_constructed e) ++ body_octets e ++ tail).
    destruct (read_Some ptr 1) as (b1 & -> & _).
    { unfold ptr. rewrite !length_app. lia. }
    cbn [mbind option_bind]. rewrite (proj2 (Z.eqb_neq o 0) Ho). cbn [andb].
    assert (Hdrop : drop (Z.to_nat (Z.of_nat (length (identifier tag (is_constructed e))) +
        Z.of_nat (length (body_octets e)))) ptr = tail).
    { unfold ptr. rewrite app_assoc. replace (Z.to_nat _) with (length (identifier tag (is_constructed e) ++ body_octets e))
        by (rewrite length_app; lia). apply drop_app_length. }
    rewrite Hdrop. unfold tail. rewrite IH; [|cbn in Hn; lia|intros e' He'; apply Hes; set_solver|done].
    f_equal. rewrite !length_app. lia.
Qed.

Lemma length_length_octets len : 0 < Z.of_nat (length (length_octets len)).
Proof. unfold length_octets. case_match; cbn; lia. Qed.

Lemma body_octets_pos e : 0 < Z.of_nat (length (body_octets e)).
Proof.
  destruct e as [tag c contents|tag es]; cbn [body_octets app length]; [|lia].
  rewrite length_app. pose proof (length_length_octets (Z.of_nat (length contents))). lia.
Qed.

Lemma skip_length_ok fuel : forall e rest, (element_size e <= fuel)%nat -> element_ok e ->
  ber_skip_length fuel (is_constructed e) (body_octets e ++ rest) = Some (Z.of_nat (length (body_octets e))).
Proof.
  assert (Hmax : RSSIZE_MAX = 4611686018427387903) by reflexivity.
  induction fuel as [|fuel IH]; intros e rest Hf Hok; [destruct e; cbn in Hf; lia|].
  cbn [ber_skip_length]. destruct e as [tag c contents|tag es]; cbn [is_constructed body_octets].
  - destruct Hok as (_ & Hlen). rewrite <- app_assoc, fetch_length_ok by lia.
    pose proof (length_length_octets (Z.of_nat (length contents))) as Hpos. cbn iota zeta.
    assert (Hlo : Z.of_nat (length (length_octets (Z.of_nat (length contents)))) <= 9).
    { unfold length_octets. case_match; [cbn; lia|]. cbn [length]. rewrite length_be_bytes.
      destruct (length_groups (Z.of_nat (length contents))) as ([??] & _); lia. }
    rewrite u64_small by (change (2 ^ 64) with 18446744073709551616; lia).
    rewrite !length_app. zcases. f_equal. lia.
  - destruct Hok as (_ & Hes). cbn [element_size] in Hf. rewrite <- !app_assoc. cbn [app ber_fetch_length].
    change (Z.land 128 128 =? 0) with false. cbn [andb Z.eqb Pos.eqb Z.leb Z.compare]. cbn iota.
    change (drop (Z.to_nat 1)) with (@drop Z 1). rewrite skipn_cons, drop_0.
    assert (Hsize : forall e, e ∈ es -> (element_size e <= fuel)%nat /\ element_ok e).
    { intros e He. clear -He Hf Hes. revert Hf Hes. generalize fuel as f.
      induction es as [|e' es IHes]; [by apply not_elem_of_nil in He|]. intros f Hf [Hok' Hes].
      cbn [fold_right] in Hf. apply elem_of_cons in He as [->|He]; [split; [lia|done]|].
      apply IHes; [done|lia|done]. }
    assert (Hcount : (length es < fuel)%nat).
    { clear -Hf. assert (length es <= fold_right (fun e n => S (element_size e) + n)%nat 0%nat es)%nat; [|lia].
      clear. induction es as [|e es IH]; cbn [length fold_right]; lia. }
    change (0 :: 0 :: rest) with ([0; 0] ++ rest).
    rewrite skip_elements_ok; [|done| |].
    + f_equal. cbn [length]. rewrite length_app. cbn [length]. lia.
    + intros e He. destruct (Hsize e He). split_and!; [done|apply body_octets_pos|]. intros. by apply IH.
    + intros r. destruct fuel as [|f]; [lia|]. cbn [ber_skip_length ber_fetch_length].
      change (Z.land 0 128 =? 0) with true. cbn iota zeta. cbn [Z.leb Z.compare].
      change (u64 (1 + 0)) with 1. cbn [length]. zcase. done.
Qed.

(** ** Properties *)

(** Tags and lengths survive.  For every 32-bit tag and every length up to
    RSSIZE_MAX the serializers report the size of the encoding whatever the
    buffer, never write outside it, and fill its front when it is large
    enough; the octets are read back exactly, whatever follows, and a tag cut
    short is answered with "more wanted". *)
Theorem tlv_header_roundtrip (tag len : Z) : 0 <= tag < 2 ^ 32 -> 0 <= len <= RSSIZE_MAX ->
  (forall buf, exists buf',
     ber_tlv_tag_serialize tag buf = Some (Z.of_nat (length (tag_octets tag)), buf') /\
     length buf' = length buf /\
     ((length (tag_octets tag) <= length buf)%nat ->
      buf' = tag_octets tag ++ drop (length (tag_octets tag)) buf)) /\
  (forall buf, exists buf',
     der_tlv_length_serialize len buf = Some (Z.of_nat (length (length_octets len)), buf') /\
     length buf' = length buf /\
     ((length (length_octets len) <= length buf)%nat ->
      buf' = length_octets len ++ drop (length (length_octets len)) buf)) /\
  (forall rest, ber_fetch_tag (tag_octets tag ++ rest) = (Z.of_nat (length (tag_octets tag)), Some tag)) /\
  (forall j, (j < length (tag_octets tag))%nat -> ber_fetch_tag (take j (tag_octets tag)) = (0, None)) /\
  (forall cons rest, ber_fetch_length cons (length_octets len ++ rest) =
     (Z.of_nat (length (length_octets len)), Some len)).
Proof.
  intros Ht Hl. split_and!.
  - intros. by apply tag_serialize_ok.
  - intros. by apply length_serialize_ok.
  - intros. by apply fetch_tag_ok.
  - intros. by apply fetch_tag_short.
  - intros. by apply fetch_length_ok.
Qed.

Lemma tlv_header_roundtrip_witness :
  (forall buf, exists buf',
     ber_tlv_tag_serialize 4294967295 buf = Some (Z.of_nat (length (tag_octets 4294967295)), buf') /\
     length buf' = length buf /\
     ((length (tag_octets 4294967295) <= length buf)%nat ->
      buf' = tag_octets 4294967295 ++ drop (length (tag_octets 4294967295)) buf)) /\
  (forall buf, exists buf',
     der_tlv_length_serialize RSSIZE_MAX buf = Some (Z.of_nat (length (length_octets RSSIZE_MAX)), buf') /\
     length buf' = length buf /\
     ((length (length_octets RSSIZE_MAX) <= length buf)%nat ->
      buf' = length_octets RSSIZE_MAX ++ drop (length (length_octets RSSIZE_MAX)) buf)) /\
  (forall rest, ber_fetch_tag (tag_octets 4294967295 ++ rest) =
     (Z.of_nat (length (tag_octets 4294967295)), Some 4294967295)) /\
  (forall j, (j < length (tag_octets 4294967295))%nat ->
     ber_fetch_tag (take j (tag_octets 4294967295)) = (0, None)) /\
  (forall cons rest, ber_fetch_length cons (length_octets RSSIZE_MAX ++ rest) =
     (Z.of_nat (length (length_octets RSSIZE_MAX)), Some RSSIZE_MAX)).
Proof. apply tlv_header_roundtrip; [lia|]. split; [discriminate|reflexivity]. Defined.

(** Skipping: over the length and contents of any well-formed element, of
    definite or indefinite length and however deeply nested, [ber_skip_length]
    advances exactly to its end, whatever follows, and reads nothing outside
    the octets. *)
Theorem ber_skip_element (e : element) (fuel : nat) (rest : list Z) :
  element_ok e -> (element_size e <= fuel)%nat ->
  ber_skip_length fuel (is_constructed e) (body_octets e ++ rest) = Some (Z.of_nat (length (body_octets e))).
Proof. intros Hok Hf. by apply skip_length_ok. Qed.

Definition sample_element : element :=
  Indefinite 65 [Definite 8 false [1; 2; 3]; Indefinite 1000 [Definite 4 true []]].

Lemma ber_skip_element_witness :
  ber_skip_length 10 (is_constructed sample_element) (body_octets sample_element ++ [7]) =
  Some (Z.of_nat (length (body_octets sample_element))).
Proof. apply ber_skip_element; [cbn; repeat split; discriminate|cbn; lia]. Defined.
