(* ===== verification/AsnInteger.v ===== *)
(** * Arbitrary-length integers (support/INTEGER.c)

    [INTEGER_t] holds a two's complement big-endian number.  This file has
    its conversions to and from the native integers, the decimal parsers and
    the comparison; the codecs of the type are in [UperInteger], [Oer] and
    [IntegerXer]. *)
From S2P Require Import Prelude.

(** ** Representation *)

(** The octets [buf[0..size)]; [None] is a null [buf]. *)
Record INTEGER_t := { i_buf : option (list Z) }.

Definition i_bytes (st : INTEGER_t) : list Z := default [] (i_buf st).
Definition of_bytes (l : list Z) : INTEGER_t := {| i_buf := Some l |}.

(** The number a big-endian two's complement octet string denotes. *)
Definition int_val (l : list Z) : Z :=
  match l with
  | [] => 0
  | b :: _ => be_val l - (if b <? 128 then 0 else 2 ^ (8 * Z.of_nat (length l)))
  end.

(** ** Operations *)

(** The loops that skip superfluous leading octets: an all-zero octet before
    a clear sign bit, an all-ones octet before a set one; at least one octet
    stays. *)
Fixpoint skip_superfluous (l : list Z) : list Z :=
  match l with
  | b :: ((c :: _) as r) =>
    if (b =? 0) && (Z.land c 128 =? 0) then skip_superfluous r
    else if (b =? 255) && negb (Z.land c 128 =? 0) then skip_superfluous r
    else l
  | _ => l
  end.

(** The "conversion engine". *)
Fixpoint convert_loop (l : list Z) (value : Z) : Z :=
  match l with
  | [] => value
  | b :: l => convert_loop l (Z.lor (u64 (value ≪ 8)) b)
  end.

Definition asn__integer_convert (l : list Z) : option Z :=
  b ← read l 0;
  Some (s64 (convert_loop l (if negb (b ≫ 7 =? 0) then ULONG_MAX else 0))).

(** [inl errno]-style failures are [None]; an outer [None] would be an access
    outside the octets. *)
Inductive conv := Conv_OK (v : Z) | EINVAL | ERANGE.

Definition asn_INTEGER2imax (iptr : INTEGER_t) : option conv :=
  match i_buf iptr with
  | None => Some EINVAL
  | Some b =>
    let b := if 8 <? Z.of_nat (length b) then skip_superfluous b else b in
    if 8 <? Z.of_nat (length b) then Some ERANGE
    else if bool_decide (b = []) then Some (Conv_OK 0)
    else v ← asn__integer_convert b; Some (Conv_OK v)
  end.

(** Leading zero octets beyond eight are dropped, anything else there is out
    of range. *)
Fixpoint umax_skip (l : list Z) : option (list Z) :=
  match l with
  | b :: r =>
    if 8 <? Z.of_nat (length l) then if negb (b =? 0) then None else umax_skip r
    else Some l
  | [] => Some []
  end.

Definition asn_INTEGER2umax (iptr : INTEGER_t) : conv :=
  match i_buf iptr with
  | None => EINVAL
  | Some b =>
    match umax_skip b with
    | None => ERANGE
    | Some b => Conv_OK (convert_loop b 0)
    end
  end.

(** The bytes of [value] from the most significant one, superfluous ones
    skipped.  Memory allocation succeeds. *)
Definition asn_imax2INTEGER (value : Z) : INTEGER_t :=
  of_bytes (skip_superfluous (be_bytes 8 value)).

Definition asn_umax2INTEGER (value : Z) : INTEGER_t :=
  if value <=? ULONG_MAX ≫ 1 then asn_imax2INTEGER (s64 value)
  else of_bytes (0 :: be_bytes 8 value).

Definition asn_INTEGER2long (iptr : INTEGER_t) : option conv :=
  r ← asn_INTEGER2imax iptr;
  Some match r with
       | Conv_OK v => if (v <? LONG_MIN) || (LONG_MAX <? v) then ERANGE else Conv_OK v
       | e => e
       end.

Definition asn_INTEGER2ulong (iptr : INTEGER_t) : conv :=
  match asn_INTEGER2umax iptr with
  | Conv_OK v => if ULONG_MAX <? v then ERANGE else Conv_OK v
  | e => e
  end.

Definition asn_long2INTEGER (value : Z) : INTEGER_t := asn_imax2INTEGER value.

(** The argument of asn_imax2INTEGER is converted to intmax_t. *)
Definition asn_ulong2INTEGER (value : Z) : INTEGER_t := asn_imax2INTEGER (s64 value).

(** *** Decimal text *)

Inductive asn_strtox_result_e :=
  | ASN_STRTOX_ERROR_RANGE | ASN_STRTOX_ERROR_INVAL | ASN_STRTOX_EXPECT_MORE
  | ASN_STRTOX_EXTRA_DATA | ASN_STRTOX_OK.

(** Result code, the position [*end] is moved to, [*intp] when stored. *)
Definition strtox : Type := asn_strtox_result_e * Z * option Z.

Definition is_digit (c : Z) : bool := (48 <=? c) && (c <=? 57).

(** The digit loop of asn_strtoimax_lim on the characters from position
    [pos]; [None] is an overflow of a signed operation. *)
Fixpoint strtoimax_loop (s : list Z) (pos value sign last_digit_max : Z) : option strtox :=
  match s with
  | [] => v ← chk_long (sign * value); Some (ASN_STRTOX_OK, pos, Some v)
  | c :: r =>
    if is_digit c then
      let d := c - 48 in
      let upper_boundary := LONG_MAX / 10 in
      if value <? upper_boundary then
        v ← chk_long (value * 10 + d); strtoimax_loop r (pos + 1) v sign last_digit_max
      else if value =? upper_boundary then
        if d <=? last_digit_max then
          '(sign, v) ← (if 0 <? sign then v ← chk_long (value * 10 + d); Some (sign, v)
                        else v ← chk_long (- value * 10 - d); Some (1, v));
          match r with
          | c' :: _ =>
            if is_digit c' then Some (ASN_STRTOX_ERROR_RANGE, pos + 1, None)
            else v ← chk_long (sign * v); Some (ASN_STRTOX_EXTRA_DATA, pos + 1, Some v)
          | [] => v ← chk_long (sign * v); Some (ASN_STRTOX_OK, pos + 1, Some v)
          end
        else Some (ASN_STRTOX_ERROR_RANGE, pos, None)
      else Some (ASN_STRTOX_ERROR_RANGE, pos, None)
    else v ← chk_long (sign * value); Some (ASN_STRTOX_EXTRA_DATA, pos, Some v)
  end.

Definition asn_strtoimax_lim (s : list Z) : option strtox :=
  match s with
  | [] => Some (ASN_STRTOX_ERROR_INVAL, 0, None)
  | c :: r =>
    let last_digit_max := LONG_MAX mod 10 in
    if (c =? 45) || (c =? 43) then
      let '(last_digit_max, sign) :=
        if c =? 45 then (last_digit_max + 1, -1) else (last_digit_max, 1) in
      if bool_decide (r = []) then Some (ASN_STRTOX_EXPECT_MORE, 1, None)
      else strtoimax_loop r 1 0 sign last_digit_max
    else strtoimax_loop s 0 0 1 last_digit_max
  end.

Fixpoint strtoumax_loop (s : list Z) (pos value : Z) : strtox :=
  match s with
  | [] => (ASN_STRTOX_OK, pos, Some value)
  | c :: r =>
    if is_digit c then
      let d := c - 48 in
      let upper_boundary := ULONG_MAX / 10 in
      if value <? upper_boundary then strtoumax_loop r (pos + 1) (u64 (value * 10 + d))
      else if value =? upper_boundary then
        if d <=? ULONG_MAX mod 10 then
          let value := u64 (value * 10 + d) in
          match r with
          | c' :: _ =>
            if is_digit c' then (ASN_STRTOX_ERROR_RANGE, pos + 1, None)
            else (ASN_STRTOX_EXTRA_DATA, pos + 1, Some value)
          | [] => (ASN_STRTOX_OK, pos + 1, Some value)
          end
        else (ASN_STRTOX_ERROR_RANGE, pos, None)
      else (ASN_STRTOX_ERROR_RANGE, pos, None)
    else (ASN_STRTOX_EXTRA_DATA, pos, Some value)
  end.

Definition asn_strtoumax_lim (s : list Z) : strtox :=
  match s with
  | [] => (ASN_STRTOX_ERROR_INVAL, 0, None)
  | c :: r =>
    if c =? 45 then (ASN_STRTOX_ERROR_INVAL, Z.of_nat (length s), None)
    else if c =? 43 then
      if bool_decide (r = []) then (ASN_STRTOX_EXPECT_MORE, 1, None)
      else strtoumax_loop r 1 0
    else strtoumax_loop s 0 0
  end.

(** A value outside the narrower type is a range error. *)
Definition strto_narrow (lo hi : Z) (r : strtox) : strtox :=
  match r with
  | (code, pos, Some v) =>
    if (lo <=? v) && (v <=? hi) then (code, pos, Some v) else (ASN_STRTOX_ERROR_RANGE, pos, None)
  | _ => r
  end.

Definition asn_strtol_lim (s : list Z) : option strtox :=
  r ← asn_strtoimax_lim s; Some (strto_narrow LONG_MIN LONG_MAX r).
Definition asn_strtoul_lim (s : list Z) : strtox := strto_narrow 0 ULONG_MAX (asn_strtoumax_lim s).

(** *** Comparison *)

(** memcmp on equally long octet strings, up to the magnitude of its result. *)
Fixpoint memcmp (a b : list Z) : Z :=
  match a, b with
  | x :: a, y :: b => if x =? y then memcmp a b else x - y
  | _, _ => 0
  end.

Definition sign_of (l : list Z) : option Z :=
  b ← read l 0; Some (if negb (Z.land b 128 =? 0) then -1 else 1).

(** On two present INTEGERs; [None] is a read outside the octets. *)
Definition compare_present (a b : INTEGER_t) : option Z :=
  let la := i_bytes a in
  let lb := i_bytes b in
  let na := Z.of_nat (length la) in
  let nb := Z.of_nat (length lb) in
  if negb (na =? 0) && negb (nb =? 0) then
    sign_a ← sign_of la; sign_b ← sign_of lb;
    Some (if sign_a <? sign_b then -1
          else if sign_b <? sign_a then 1
          else if na <? nb then -1 * sign_a
          else if nb <? na then 1 * sign_b
          else sign_a * memcmp la lb)
  else if negb (na =? 0) then sign ← sign_of la; Some (1 * sign)
  else if negb (nb =? 0) then sign ← sign_of la; Some (-1 * sign)
  else Some 0.

Definition INTEGER_compare (a b : option INTEGER_t) : option Z :=
  match a, b with
  | Some a, Some b => compare_present a b
  | None, None => Some 0
  | None, Some _ => Some (-1)
  | Some _, None => Some 1
  end.

(** ** Lemmas: values of octet strings *)

Lemma octet_sign c : byte_ok c -> (Z.land c 128 =? 0) = (c <? 128).
Proof.
  intros Hc. assert (Hall : forallb (fun c => Bool.eqb (Z.land c 128 =? 0) (c <? 128)) (seqZ 0 256) = true)
    by reflexivity.
  rewrite forallb_forall in Hall. apply Bool.eqb_prop, Hall, list_elem_of_In, elem_of_seqZ.
  unfold byte_ok in Hc. lia.
Qed.

Lemma octet_top b : byte_ok b -> (b ≫ 7 =? 0) = (b <? 128).
Proof.
  intros Hb. unfold byte_ok in Hb. rewrite shiftr_div by lia. change (2 ^ 7) with 128.
  destruct (Z.ltb_spec b 128); [rewrite Z.div_small by lia; done|].
  apply Z.eqb_neq. Z.div_mod_to_equations; lia.
Qed.

Lemma pow2_8_succ n : 2 ^ (8 * Z.of_nat (S n)) = 256 * 2 ^ (8 * Z.of_nat n).
Proof.
  replace (8 * Z.of_nat (S n)) with (8 + 8 * Z.of_nat n) by lia.
  by rewrite pow2_split by lia.
Qed.

Lemma int_val_bound l : bytes_ok l -> l <> [] ->
  - 2 ^ (8 * Z.of_nat (length l) - 1) <= int_val l < 2 ^ (8 * Z.of_nat (length l) - 1).
Proof.
  intros Hok Hne. destruct l as [|b r]; [done|]. inversion Hok as [|? ? Hb Hr]; subst.
  pose proof (be_val_bound r Hr) as Hv. unfold byte_ok in Hb. cbn [int_val be_val length].
  replace (8 * Z.of_nat (S (length r)) - 1) with (7 + 8 * Z.of_nat (length r)) by lia.
  rewrite pow2_8_succ, pow2_split by lia. change (2 ^ 7) with 128.
  set (P := 2 ^ (8 * Z.of_nat (length r))) in *. destruct (Z.ltb_spec b 128); nia.
Qed.

Lemma skip_cons b c r : skip_superfluous (b :: c :: r) =
  if (b =? 0) && (Z.land c 128 =? 0) then skip_superfluous (c :: r)
  else if (b =? 255) && negb (Z.land c 128 =? 0) then skip_superfluous (c :: r)
  else b :: c :: r.
Proof. done. Qed.

(** The value in terms of the first octet's sign and the rest. *)
Lemma int_val_cons b r : int_val (b :: r) =
  (if b <? 128 then b else b - 256) * 2 ^ (8 * Z.of_nat (length r)) + be_val r.
Proof. cbn [int_val be_val length]. rewrite pow2_8_succ. destruct (Z.ltb_spec b 128); ring. Qed.

Lemma int_val_skip l : bytes_ok l -> int_val (skip_superfluous l) = int_val l.
Proof.
  induction 1 as [|b l Hb Hl IH]; [done|]. destruct l as [|c r]; [done|].
  inversion Hl as [|? ? Hc Hr]; subst. rewrite skip_cons, octet_sign by done.
  unfold byte_ok in *.
  destruct (Z.eqb_spec b 0), (Z.ltb_spec c 128); cbn [andb negb].
  - rewrite IH, (int_val_cons b). subst b. cbn [int_val Z.ltb Z.compare].
    destruct (Z.ltb_spec c 128); [|lia]. ring.
  - destruct (Z.eqb_spec b 255); [lia|done].
  - by rewrite andb_false_r.
  - destruct (Z.eqb_spec b 255); [|done]. cbn [andb].
    rewrite IH, (int_val_cons b). subst b. cbn [int_val]. change (255 <? 128) with false. cbn iota.
    destruct (Z.ltb_spec c 128); [lia|]. ring.
Qed.

Lemma skip_ok l : bytes_ok l -> bytes_ok (skip_superfluous l).
Proof.
  induction 1 as [|b l Hb Hl IH]; [constructor|]. destruct l as [|c r]; [by constructor|].
  rewrite skip_cons. repeat case_match; try done. by constructor.
Qed.

Lemma skip_nonempty l : l <> [] -> skip_superfluous l <> [].
Proof.
  induction l as [|b l IH]; [done|]. intros _. destruct l as [|c r]; [done|].
  rewrite skip_cons. repeat case_match; try done; by apply IH.
Qed.

Lemma length_skip l : (length (skip_superfluous l) <= length l)%nat.
Proof.
  induction l as [|b l IH]; [done|]. destruct l as [|c r]; [done|].
  rewrite skip_cons. repeat case_match; try done; cbn in *; lia.
Qed.

(** No shorter octet string denotes the number. *)
Definition minimal (l : list Z) : Prop :=
  match l with
  | b :: c :: _ => ~ (b = 0 /\ c < 128) /\ ~ (b = 255 /\ 128 <= c)
  | _ => True
  end.

Lemma skip_minimal l : bytes_ok l -> minimal (skip_superfluous l).
Proof.
  induction 1 as [|b l Hb Hl IH]; [done|]. destruct l as [|c r]; [done|].
  inversion Hl as [|? ? Hc Hr]; subst. rewrite skip_cons, octet_sign by done.
  unfold byte_ok in *.
  destruct (Z.eqb_spec b 0), (Z.ltb_spec c 128); cbn [andb negb]; try done.
  all: destruct (Z.eqb_spec b 255); cbn [andb]; try done; cbn; lia.
Qed.

Lemma skip_of_minimal l : bytes_ok l -> minimal l -> skip_superfluous l = l.
Proof.
  intros Hok Hm. destruct l as [|b [|c r]]; try done. cbn in Hm.
  inversion Hok as [|? ? Hb Hl]; inversion Hl as [|? ? Hc Hr]; subst.
  rewrite skip_cons, octet_sign by done.
  destruct (Z.eqb_spec b 0), (Z.ltb_spec c 128); cbn [andb negb]; try lia.
  all: destruct (Z.eqb_spec b 255); cbn [andb]; try done; lia.
Qed.

(** A minimal string of more than one octet denotes a number that does not
    fit one octet less. *)
Lemma minimal_large l : bytes_ok l -> minimal l -> (1 < length l)%nat ->
  int_val l < - 2 ^ (8 * Z.of_nat (length l - 1) - 1) \/
  2 ^ (8 * Z.of_nat (length l - 1) - 1) <= int_val l.
Proof.
  intros Hok Hm Hlen. destruct l as [|b [|c r]]; cbn in Hlen; try lia.
  inversion Hok as [|? ? Hb Hl]; inversion Hl as [|? ? Hc Hr]; subst. cbn in Hm.
  rewrite int_val_cons. cbn [be_val length]. pose proof (be_val_bound r Hr) as Hv.
  replace (8 * Z.of_nat (S (S (length r)) - 1) - 1) with (7 + 8 * Z.of_nat (length r)) by lia.
  rewrite pow2_8_succ, pow2_split by lia. change (2 ^ 7) with 128.
  set (P := 2 ^ (8 * Z.of_nat (length r))) in *. unfold byte_ok in *.
  destruct (Z.ltb_spec b 128); [right|left]; nia.
Qed.

Lemma int_val_inj l1 l2 : bytes_ok l1 -> bytes_ok l2 -> length l1 = length l2 ->
  int_val l1 = int_val l2 -> l1 = l2.
Proof.
  intros H1 H2 Hl Hv. rewrite <- (be_bytes_be_val l1), <- (be_bytes_be_val l2) by done.
  rewrite Hl. f_equal. pose proof (be_val_bound l1 H1); pose proof (be_val_bound l2 H2).
  destruct l1 as [|a l1], l2 as [|b l2]; try done. unfold int_val in Hv. rewrite Hl in *.
  set (P := 2 ^ _) in *. repeat case_match; lia.
Qed.

(** Two minimal strings of one value are the same string. *)
Lemma minimal_unique l1 l2 : bytes_ok l1 -> bytes_ok l2 -> l1 <> [] -> l2 <> [] ->
  minimal l1 -> minimal l2 -> int_val l1 = int_val l2 -> l1 = l2.
Proof.
  assert (Hlt : forall a b, bytes_ok a -> bytes_ok b -> a <> [] -> b <> [] -> minimal b ->
    int_val a = int_val b -> ~ (length a < length b)%nat).
  { intros a b Ha Hb Hna Hnb Hmb Hv Hlt. pose proof (int_val_bound a Ha Hna).
    assert (0 < length a)%nat by (destruct a; cbn; lia || done).
    pose proof (minimal_large b Hb Hmb ltac:(lia)).
    assert (2 ^ (8 * Z.of_nat (length a) - 1) <= 2 ^ (8 * Z.of_nat (length b - 1) - 1))
      by (apply Z.pow_le_mono_r; lia). lia. }
  intros H1 H2 Hn1 Hn2 Hm1 Hm2 Hv. apply int_val_inj; [done..| |done].
  pose proof (Hlt l1 l2 H1 H2 Hn1 Hn2 Hm2 Hv). pose proof (Hlt l2 l1 H2 H1 Hn2 Hn1 Hm1 (eq_sym Hv)). lia.
Qed.

(** ** Lemmas: conversions *)

Lemma u64_shift_or v b : byte_ok b -> Z.lor (u64 (v ≪ 8)) b = v mod 2 ^ 56 * 2 ^ 8 + b.
Proof.
  intros Hb. unfold byte_ok in Hb. unfold u64. rewrite shiftl_mul by lia.
  change (2 ^ 64) with (2 ^ 56 * 2 ^ 8). rewrite Z.mul_mod_distr_r by done.
  rewrite <- (shiftl_mul (v mod 2 ^ 56) 8), lor_shiftl_add by lia.
  by rewrite shiftl_mul by lia.
Qed.

Lemma convert_loop_ok l v : bytes_ok l -> 0 <= v -> convert_loop l v mod 2 ^ 64 =
  (v * 2 ^ (8 * Z.of_nat (length l)) + be_val l) mod 2 ^ 64 /\ 0 <= convert_loop l v.
Proof.
  intros Hok. revert v. induction Hok as [|b l Hb Hl IH]; intros v Hv; cbn [convert_loop be_val length].
  { by rewrite Z.mul_1_r, Z.add_0_r. }
  rewrite u64_shift_or by done. unfold byte_ok in Hb.
  pose proof (mod_pow2_bounds v 56 ltac:(lia)).
  destruct (IH (v mod 2 ^ 56 * 2 ^ 8 + b)) as [IH1 IH2]; [lia|]. split; [|exact IH2].
  rewrite IH1. rewrite pow2_8_succ. set (P := 2 ^ (8 * Z.of_nat (length l))).
  rewrite (Z.div_mod v (2 ^ 56)) at 2 by done.
  replace ((2 ^ 56 * (v / 2 ^ 56) + v mod 2 ^ 56) * (256 * P) + (b * P + be_val l))
    with (((v mod 2 ^ 56 * 2 ^ 8 + b) * P + be_val l) + (v / 2 ^ 56 * P) * 2 ^ 64) by ring.
  by rewrite Z.mod_add.
Qed.

Lemma convert_loop_bound l v : bytes_ok l -> 0 <= v < 2 ^ 64 -> 0 <= convert_loop l v < 2 ^ 64.
Proof.
  intros Hok. revert v. induction Hok as [|b l Hb Hl IH]; intros v Hv; [done|].
  cbn [convert_loop]. apply IH. rewrite u64_shift_or by done. unfold byte_ok in Hb.
  pose proof (mod_pow2_bounds v 56 ltac:(lia)). change (2 ^ 56) with 72057594037927936 in *.
  change (2 ^ 8) with 256. change (2 ^ 64) with 18446744073709551616. lia.
Qed.

Lemma s64_cong a b : a mod 2 ^ 64 = b mod 2 ^ 64 -> - 2 ^ 63 <= b < 2 ^ 63 -> s64 a = b.
Proof. intros Hm Hb. unfold s64, sext. rewrite Hm. by apply s64_small. Qed.

Lemma integer_convert_ok l : bytes_ok l -> l <> [] -> (length l <= 8)%nat ->
  asn__integer_convert l = Some (int_val l).
Proof.
  intros Hok Hne Hlen. unfold asn__integer_convert. destruct l as [|b r]; [done|].
  rewrite read_0. cbn [mbind option_bind]. f_equal.
  inversion Hok as [|? ? Hb Hr]; subst. rewrite octet_top by done.
  pose proof (int_val_bound (b :: r) Hok Hne) as Hbound.
  assert (2 ^ (8 * Z.of_nat (length (b :: r)) - 1) <= 2 ^ 63) by (apply Z.pow_le_mono_r; lia).
  apply s64_cong; [|lia].
  destruct (convert_loop_ok (b :: r) (if negb (b <? 128) then ULONG_MAX else 0) Hok) as [-> _];
    [destruct (b <? 128); done|].
  unfold int_val. destruct (Z.ltb_spec b 128); cbn [negb]; [f_equal; ring|].
  set (P := 2 ^ (8 * Z.of_nat (length (b :: r)))). unfold ULONG_MAX.
  replace ((2 ^ 64 - 1) * P + be_val (b :: r)) with (be_val (b :: r) - P + P * 2 ^ 64) by ring.
  by rewrite Z.mod_add.
Qed.

Lemma int_val_be_bytes v : is_long v -> int_val (be_bytes 8 v) = v.
Proof.
  intros Hv. assert (Hok : bytes_ok (be_bytes 8 v)) by apply be_bytes_ok.
  assert (H := integer_convert_ok (be_bytes 8 v) Hok ltac:(done) ltac:(done)).
  unfold int_val. pose proof (be_val_be_bytes 8 v) as Hbe. cbn [Z.of_nat] in Hbe.
  change (8 * Z.of_nat 8) with 64 in Hbe.
  destruct (be_bytes 8 v) as [|b r] eqn:E; [done|]. rewrite Hbe.
  rewrite <- E, length_be_bytes. change (8 * Z.of_nat 8) with 64.
  inversion Hok as [|? ? Hb Hr]; subst. pose proof (be_val_bound r Hr) as Hrb.
  assert (Hlen : length r = 7%nat) by (apply (f_equal length) in E; rewrite length_be_bytes in E; cbn in E; lia).
  rewrite Hlen in Hrb. cbn [be_val] in Hbe. rewrite Hlen in Hbe.
  change (2 ^ (8 * Z.of_nat 7)) with 72057594037927936 in *.
  unfold is_long, LONG_MIN, LONG_MAX in Hv. change (2 ^ 63) with 9223372036854775808 in Hv.
  change (2 ^ 64) with 18446744073709551616 in *. unfold byte_ok in Hb.
  destruct (Z.ltb_spec b 128); Z.div_mod_to_equations; lia.
Qed.

Lemma INTEGER2imax_ok l : bytes_ok l ->
  asn_INTEGER2imax (of_bytes l) =
    Some (if (LONG_MIN <=? int_val l) && (int_val l <=? LONG_MAX) then Conv_OK (int_val l) else ERANGE).
Proof.
  intros Hok. unfold asn_INTEGER2imax. cbn [i_buf of_bytes].
  assert (Hfit : forall l', bytes_ok l' -> int_val l' = int_val l -> (length l' <= 8)%nat ->
    (if bool_decide (l' = []) then Some (Conv_OK 0)
     else v ← asn__integer_convert l'; Some (Conv_OK v)) =
    Some (if (LONG_MIN <=? int_val l) && (int_val l <=? LONG_MAX) then Conv_OK (int_val l) else ERANGE)).
  { intros l' Hok' Hv Hlen. rewrite <- Hv. case_bool_decide as Hnil; [by subst l'|].
    rewrite integer_convert_ok by done. cbn [mbind option_bind].
    pose proof (int_val_bound l' Hok' Hnil).
    assert (2 ^ (8 * Z.of_nat (length l') - 1) <= 2 ^ 63) by (apply Z.pow_le_mono_r; lia).
    unfold LONG_MIN, LONG_MAX. by zcases. }
  destruct (Z.ltb_spec 8 (Z.of_nat (length l))) as [Hlt|].
  2: { destruct (Z.ltb_spec 8 (Z.of_nat (length l))); [lia|]. apply Hfit; [done..|lia]. }
  destruct (Z.ltb_spec 8 (Z.of_nat (length (skip_superfluous l)))) as [Hlong|].
  2: { apply Hfit; [by apply skip_ok|by apply int_val_skip|lia]. }
  rewrite <- int_val_skip by done.
  pose proof (minimal_large (skip_superfluous l) (skip_ok l Hok) (skip_minimal l Hok) ltac:(lia)).
  assert (2 ^ 63 <= 2 ^ (8 * Z.of_nat (length (skip_superfluous l) - 1) - 1))
    by (apply Z.pow_le_mono_r; lia).
  unfold LONG_MIN, LONG_MAX. zcases; done.
Qed.

Lemma imax2INTEGER_ok v : is_long v -> exists l, asn_imax2INTEGER v = of_bytes l /\
  bytes_ok l /\ l <> [] /\ (length l <= 8)%nat /\ minimal l /\ int_val l = v.
Proof.
  intros Hv. exists (skip_superfluous (be_bytes 8 v)).
  pose proof (be_bytes_ok 8 v) as Hok. split_and!; [done|by apply skip_ok|by apply skip_nonempty| |by apply skip_minimal|].
  - etrans; [apply length_skip|]. by rewrite length_be_bytes.
  - rewrite int_val_skip by done. by apply int_val_be_bytes.
Qed.

Lemma int_val_nonneg l : bytes_ok l -> 0 <= int_val l -> int_val l = be_val l.
Proof.
  intros Hok Hv. destruct l as [|b r]; [done|]. unfold int_val in *.
  pose proof (be_val_bound (b :: r) Hok). case_match; lia.
Qed.

Lemma umax_skip_ok l : bytes_ok l ->
  match umax_skip l with
  | Some l' => be_val l' = be_val l /\ bytes_ok l' /\ (length l' <= 8)%nat
  | None => 2 ^ 64 <= be_val l
  end.
Proof.
  induction 1 as [|b l Hb Hl IH]; [cbn; split_and!; [done|constructor|lia]|].
  cbn [umax_skip]. destruct (Z.ltb_spec 8 (Z.of_nat (length (b :: l)))) as [Hlt|].
  2: { split_and!; [done|by constructor|lia]. }
  cbn [be_val length] in *. destruct (Z.eqb_spec b 0) as [->|Hne]; cbn [negb].
  - by rewrite Z.mul_0_l, Z.add_0_l.
  - pose proof (be_val_bound l Hl). unfold byte_ok in Hb.
    assert (2 ^ 64 <= 2 ^ (8 * Z.of_nat (length l))) by (apply Z.pow_le_mono_r; lia). nia.
Qed.

Lemma INTEGER2umax_ok l : bytes_ok l ->
  asn_INTEGER2umax (of_bytes l) = if be_val l <=? ULONG_MAX then Conv_OK (be_val l) else ERANGE.
Proof.
  intros Hok. unfold asn_INTEGER2umax. cbn [i_buf of_bytes]. pose proof (umax_skip_ok l Hok) as Hs.
  unfold ULONG_MAX. destruct (umax_skip l) as [l'|]; [|by zcases].
  destruct Hs as (<- & Hok' & Hlen). pose proof (be_val_bound l' Hok').
  assert (2 ^ (8 * Z.of_nat (length l')) <= 2 ^ 64) by (apply Z.pow_le_mono_r; lia).
  zcases. f_equal. pose proof (convert_loop_bound l' 0 Hok' ltac:(lia)) as Hb.
  destruct (convert_loop_ok l' 0 Hok' ltac:(lia)) as [Hm _].
  rewrite Z.mod_small, Z.mul_0_l, Z.add_0_l, Z.mod_small in Hm by lia. exact Hm.
Qed.

Lemma umax2INTEGER_ok v : is_ulong v -> exists l, asn_umax2INTEGER v = of_bytes l /\
  bytes_ok l /\ minimal l /\ int_val l = v /\ be_val l = v.
Proof.
  unfold is_ulong, ULONG_MAX. intros Hv. unfold asn_umax2INTEGER.
  change (ULONG_MAX ≫ 1) with (2 ^ 63 - 1). destruct (Z.leb_spec v (2 ^ 63 - 1)).
  - rewrite s64_small by lia.
    destruct (imax2INTEGER_ok v) as (l & -> & Hok & _ & _ & Hm & Hval).
    { unfold is_long, LONG_MIN, LONG_MAX. lia. }
    exists l. split_and!; try done. rewrite <- int_val_nonneg; [done..|lia].
  - pose proof (be_bytes_ok 8 v) as Hok.
    assert (Hbe : be_val (be_bytes 8 v) = v) by (rewrite be_val_be_bytes; apply Z.mod_small; lia).
    exists (0 :: be_bytes 8 v). split_and!; [done|by constructor| | |].
    + destruct (be_bytes 8 v) as [|b r] eqn:E; [done|]. cbn. split; [|lia]. intros [_ Hb].
      apply Forall_cons in Hok as [Hb' Hr]. pose proof (be_val_bound r Hr) as Hrb.
      assert (Hlen : length r = 7%nat) by (apply (f_equal length) in E; rewrite length_be_bytes in E; cbn in E; lia).
      rewrite Hlen in Hrb. cbn [be_val] in Hbe. rewrite Hlen in Hbe.
      change (2 ^ (8 * Z.of_nat 7)) with 72057594037927936 in *.
      change (2 ^ 63) with 9223372036854775808 in *. unfold byte_ok in *. lia.
    + rewrite int_val_cons, length_be_bytes, Hbe. cbn [Z.ltb Z.compare]. lia.
    + cbn [be_val]. rewrite Hbe. lia.
Qed.

(** ** Lemmas: comparison *)

Lemma memcmp_ok a b : bytes_ok a -> bytes_ok b -> length a = length b ->
  Z.sgn (memcmp a b) = Z.sgn (be_val a - be_val b).
Proof.
  intros Ha. revert b. induction Ha as [|x a Hx Ha IH]; intros b Hb Hl; destruct Hb as [|y b Hy Hb];
    try done. cbn [memcmp be_val length] in *. injection Hl as Hl. rewrite <- Hl.
  pose proof (be_val_bound a Ha). pose proof (be_val_bound b Hb). rewrite <- Hl in *.
  set (P := 2 ^ (8 * Z.of_nat (length a))) in *. unfold byte_ok in *.
  destruct (Z.eqb_spec x y) as [->|Hne].
  - rewrite IH by done. f_equal. lia.
  - destruct (Z.lt_gt_cases x y) as [[?|?] _]; [done|rewrite !Z.sgn_neg; nia|rewrite !Z.sgn_pos; nia].
Qed.

Lemma sign_of_ok l : bytes_ok l -> l <> [] ->
  sign_of l = Some (if int_val l <? 0 then -1 else 1).
Proof.
  intros Hok Hne. destruct l as [|b r]; [done|]. unfold sign_of. rewrite read_0.
  cbn [mbind option_bind]. inversion Hok as [|? ? Hb Hr]; subst. rewrite octet_sign by done.
  rewrite int_val_cons. pose proof (be_val_bound r Hr). unfold byte_ok in Hb.
  set (P := 2 ^ (8 * Z.of_nat (length r))) in *.
  destruct (Z.ltb_spec b 128); cbn [negb]; zcases; try done; nia.
Qed.

Lemma minimal_longer a b : bytes_ok a -> bytes_ok b -> a <> [] -> minimal b ->
  (length a < length b)%nat -> Z.abs (int_val a) <= Z.abs (int_val b) /\
  (0 <= int_val a -> 0 <= int_val b -> int_val a < int_val b) /\
  (int_val a < 0 -> int_val b < 0 -> int_val b < int_val a).
Proof.
  intros Ha Hb Hna Hmb Hlt. pose proof (int_val_bound a Ha Hna).
  assert (0 < length a)%nat by (destruct a; cbn; lia || done).
  pose proof (minimal_large b Hb Hmb ltac:(lia)).
  assert (2 ^ (8 * Z.of_nat (length a) - 1) <= 2 ^ (8 * Z.of_nat (length b - 1) - 1))
    by (apply Z.pow_le_mono_r; lia). lia.
Qed.

(** ** Lemmas: decimal text *)

Definition digit_val (c : Z) : Z := c - 48.
Definition dec_val (ds : list Z) (acc : Z) : Z := foldl (fun a c => a * 10 + digit_val c) acc ds.

(** The leading digits, and what follows them. *)
Fixpoint span_digits (s : list Z) : list Z * list Z :=
  match s with
  | c :: r => if is_digit c then let '(ds, rest) := span_digits r in (c :: ds, rest) else ([], s)
  | [] => ([], [])
  end.

Lemma is_digit_range c : is_digit c = true -> 0 <= c - 48 <= 9.
Proof. unfold is_digit. rewrite andb_true_iff, !Z.leb_le. lia. Qed.

Lemma dec_val_ge s acc : 0 <= acc -> acc <= dec_val (span_digits s).1 acc.
Proof.
  revert acc. induction s as [|c s IH]; intros acc Ha; [done|]. cbn [span_digits].
  destruct (is_digit c) eqn:E; [|done]. destruct (span_digits s) as [ds rest]. cbn [fst] in *.
  change (dec_val (c :: ds) acc) with (dec_val ds (acc * 10 + (c - 48))).
  apply is_digit_range in E. specialize (IH (acc * 10 + (c - 48)) ltac:(lia)). lia.
Qed.

(** The outcome for digits worth [v] with [rest] after them. *)
Definition strtox_spec (lo hi : Z) (v : Z) (rest : list Z) (endp : Z) (r : strtox) : Prop :=
  if (lo <=? v) && (v <=? hi)
  then r = (match rest with [] => ASN_STRTOX_OK | _ => ASN_STRTOX_EXTRA_DATA end, endp, Some v)
  else exists p, r = (ASN_STRTOX_ERROR_RANGE, p, None).

Lemma strtoimax_loop_ok s pos value sign ldm :
  (sign = 1 /\ ldm = 7) \/ (sign = -1 /\ ldm = 8) -> 0 <= value <= LONG_MAX ->
  exists r, strtoimax_loop s pos value sign ldm = Some r /\
    strtox_spec LONG_MIN LONG_MAX (sign * dec_val (span_digits s).1 value) (span_digits s).2
      (pos + Z.of_nat (length (span_digits s).1)) r.
Proof.
  intros Hs. revert pos value. induction s as [|c s IH]; intros pos value Hv.
  { cbn. rewrite chk_long_Some by (unfold is_long, LONG_MIN, LONG_MAX in *; nia).
    eexists. split; [done|]. unfold strtox_spec, LONG_MIN, LONG_MAX in *.
    zcases; try nia; by rewrite Z.add_0_r. }
  cbn [strtoimax_loop]. pose proof (dec_val_ge (c :: s) value) as Hge. cbn [span_digits] in *.
  change (LONG_MAX / 10) with 922337203685477580.
  destruct (is_digit c) eqn:Ec.
  2: { rewrite chk_long_Some by (unfold is_long, LONG_MIN, LONG_MAX in *; nia).
       eexists. split; [done|]. cbn. unfold strtox_spec, LONG_MIN, LONG_MAX in *.
       zcases; try nia; by rewrite Z.add_0_r. }
  apply is_digit_range in Ec. specialize (IH (pos + 1) (value * 10 + (c - 48))).
  pose proof (dec_val_ge s (value * 10 + (c - 48)) ltac:(lia)) as Hge2.
  assert (Hspan : forall c' s', s = c' :: s' -> is_digit c' = true ->
    10 * (value * 10 + (c - 48)) <= dec_val (span_digits s).1 (value * 10 + (c - 48))).
  { intros c' s' -> Hc'. cbn [span_digits]. rewrite Hc'.
    pose proof (dec_val_ge s' ((value * 10 + (c - 48)) * 10 + (c' - 48))) as Hge3.
    apply is_digit_range in Hc'. destruct (span_digits s') as [ds' rest']. cbn [fst] in *.
    change (dec_val (c' :: ds') (value * 10 + (c - 48)))
      with (dec_val ds' ((value * 10 + (c - 48)) * 10 + (c' - 48))). lia. }
  assert (Hstop : forall c' s', s = c' :: s' -> is_digit c' = false -> span_digits s = ([], s)).
  { intros c' s' -> Hc'. cbn [span_digits]. by rewrite Hc'. }
  destruct (span_digits s) as [ds rest] eqn:Esp. cbn [fst snd length] in *.
  assert (Hdec : dec_val (c :: ds) value = dec_val ds (value * 10 + (c - 48))) by done.
  rewrite Hdec. remember (dec_val ds (value * 10 + (c - 48))) as V eqn:HV.
  replace (pos + Z.of_nat (S (length ds))) with (pos + 1 + Z.of_nat (length ds)) by lia.
  unfold strtox_spec, LONG_MIN, LONG_MAX, is_long in *. change (2 ^ 63) with 9223372036854775808 in *.
  destruct (Z.ltb_spec value 922337203685477580).
  { rewrite chk_long_Some by (unfold is_long, LONG_MIN, LONG_MAX; lia). cbn [mbind option_bind].
    apply IH. lia. }
  destruct (Z.eqb_spec value 922337203685477580) as [Hval|]; [|eexists; split; [done|]; zcases; try nia; by eexists].
  destruct (Z.leb_spec (c - 48) ldm); [|eexists; split; [done|]; zcases; try nia; by eexists].
  assert (Hstep : exists sg v,
    (if 0 <? sign then v ← chk_long (value * 10 + (c - 48)); Some (sign, v)
     else v ← chk_long (- value * 10 - (c - 48)); Some (1, v)) = Some (sg, v) /\
    sg * v = sign * (value * 10 + (c - 48))).
  { destruct Hs as [[-> ->]|[-> ->]]; cbn [Z.ltb Z.compare].
    all: rewrite chk_long_Some by (unfold is_long, LONG_MIN, LONG_MAX; lia).
    all: do 2 eexists; split; [done|lia]. }
  destruct Hstep as (sg & v & -> & Hsg). cbn [mbind option_bind].
  assert (Hchk : chk_long (sg * v) = Some (sg * v)).
  { apply chk_long_Some. rewrite Hsg. unfold is_long, LONG_MIN, LONG_MAX.
    destruct Hs as [[-> ->]|[-> ->]]; lia. }
  destruct s as [|c' s'].
  - injection Esp as <- <-. rewrite Hchk. eexists. split; [done|]. rewrite Hsg in *.
    subst V. cbn [dec_val foldl]. zcases; try nia; by rewrite Z.add_0_r.
  - destruct (is_digit c') eqn:Ec'.
    + pose proof (Hspan c' s' eq_refl Ec'). eexists. split; [done|]. zcases; try nia; by eexists.
    + assert (Hst := Hstop c' s' eq_refl Ec'). injection Hst as -> ->. rewrite Hchk. eexists. split; [done|].
      rewrite Hsg. subst V. cbn [dec_val foldl].
      zcases; try nia; by rewrite Z.add_0_r.
Qed.

Lemma strtoumax_loop_ok s pos value : 0 <= value <= ULONG_MAX ->
  strtox_spec 0 ULONG_MAX (dec_val (span_digits s).1 value) (span_digits s).2
    (pos + Z.of_nat (length (span_digits s).1)) (strtoumax_loop s pos value).
Proof.
  revert pos value. induction s as [|c s IH]; intros pos value Hv.
  { cbn. unfold strtox_spec, ULONG_MAX in *. zcases; by rewrite Z.add_0_r. }
  cbn [strtoumax_loop span_digits].
  change (ULONG_MAX / 10) with 1844674407370955161. change (ULONG_MAX mod 10) with 5.
  destruct (is_digit c) eqn:Ec.
  2: { cbn. unfold strtox_spec, ULONG_MAX in *. zcases; by rewrite Z.add_0_r. }
  apply is_digit_range in Ec. specialize (IH (pos + 1) (value * 10 + (c - 48))).
  pose proof (dec_val_ge s (value * 10 + (c - 48)) ltac:(lia)) as Hge2.
  assert (Hspan : forall c' s', s = c' :: s' -> is_digit c' = true ->
    10 * (value * 10 + (c - 48)) <= dec_val (span_digits s).1 (value * 10 + (c - 48))).
  { intros c' s' -> Hc'. cbn [span_digits]. rewrite Hc'.
    pose proof (dec_val_ge s' ((value * 10 + (c - 48)) * 10 + (c' - 48))) as Hge3.
    apply is_digit_range in Hc'. destruct (span_digits s') as [ds' rest']. cbn [fst] in *.
    change (dec_val (c' :: ds') (value * 10 + (c - 48)))
      with (dec_val ds' ((value * 10 + (c - 48)) * 10 + (c' - 48))). lia. }
  assert (Hstop : forall c' s', s = c' :: s' -> is_digit c' = false -> span_digits s = ([], s)).
  { intros c' s' -> Hc'. cbn [span_digits]. by rewrite Hc'. }
  destruct (span_digits s) as [ds rest] eqn:Esp. cbn [fst snd length] in *.
  change (dec_val (c :: ds) value) with (dec_val ds (value * 10 + (c - 48))).
  remember (dec_val ds (value * 10 + (c - 48))) as V eqn:HV.
  replace (pos + Z.of_nat (S (length ds))) with (pos + 1 + Z.of_nat (length ds)) by lia.
  unfold strtox_spec, ULONG_MAX in *. change (2 ^ 64) with 18446744073709551616 in *.
  destruct (Z.ltb_spec value 1844674407370955161).
  { rewrite u64_small by (change (2 ^ 64) with 18446744073709551616; lia). apply IH. lia. }
  destruct (Z.eqb_spec value 1844674407370955161) as [Hval|]; [|zcases; try nia; by eexists].
  destruct (Z.leb_spec (c - 48) 5); [|zcases; try nia; by eexists].
  rewrite u64_small by (change (2 ^ 64) with 18446744073709551616; lia).
  destruct s as [|c' s'].
  - injection Esp as <- <-. subst V. cbn [dec_val foldl]. zcases; try nia; by rewrite Z.add_0_r.
  - destruct (is_digit c') eqn:Ec'.
    + pose proof (Hspan c' s' eq_refl Ec'). zcases; try nia; by eexists.
    + assert (Hst := Hstop c' s' eq_refl Ec'). injection Hst as -> ->.
      subst V. cbn [dec_val foldl]. zcases; try nia; by rewrite Z.add_0_r.
Qed.

(** A text is an optional sign and something that has no further one. *)
Definition signed_text (pre body : list Z) (sg : Z) : Prop :=
  (pre = [] /\ sg = 1 /\ (forall c r, body = c :: r -> c <> 43 /\ c <> 45)) \/
  (pre = [43] /\ sg = 1) \/ (pre = [45] /\ sg = -1).

Lemma strtoimax_lim_ok pre body sg : body <> [] -> signed_text pre body sg ->
  let ds := (span_digits body).1 in
  exists r, asn_strtoimax_lim (pre ++ body) = Some r /\
    strtox_spec LONG_MIN LONG_MAX (sg * dec_val ds 0) (span_digits body).2
      (Z.of_nat (length pre + length ds)) r.
Proof.
  intros Hne Hpre ds. set (rest := (span_digits body).2). set (endp := Z.of_nat (length pre + length ds)).
  assert (Hmax : LONG_MAX mod 10 = 7) by done.
  assert (Hloop : forall ldm, (sg = 1 /\ ldm = 7) \/ (sg = -1 /\ ldm = 8) ->
      exists r, strtoimax_loop body (Z.of_nat (length pre)) 0 sg ldm = Some r /\
        strtox_spec LONG_MIN LONG_MAX (sg * dec_val ds 0) rest endp r).
    { intros ldm Hldm. destruct (strtoimax_loop_ok body (Z.of_nat (length pre)) 0 sg ldm Hldm)
        as (r & Hr & Hs); [done|]. exists r. split; [exact Hr|]. unfold endp. by rewrite Nat2Z.inj_add. }
    unfold asn_strtoimax_lim. rewrite Hmax.
    destruct Hpre as [(-> & -> & Hc)|[[-> ->]|[-> ->]]]; cbn [app].
    - destruct body as [|c r]; [done|]. destruct (Hc c r eq_refl) as [H1 H2].
      rewrite (proj2 (Z.eqb_neq _ _) H2), (proj2 (Z.eqb_neq _ _) H1). cbn [orb]. apply Hloop; lia.
    - cbn [Z.eqb Pos.eqb orb]. rewrite bool_decide_false by done. apply Hloop; lia.
    - cbn [Z.eqb Pos.eqb orb]. rewrite bool_decide_false by done. apply Hloop; lia.
Qed.

(** Every text is answered: no signed operation overflows. *)
Lemma strtoimax_lim_total s : is_Some (asn_strtoimax_lim s).
Proof.
  destruct s as [|c r]; [by eexists|].
  destruct (decide (c = 45 \/ c = 43)) as [Hc|Hc].
  - destruct r as [|c' r'].
    { unfold asn_strtoimax_lim. destruct Hc as [-> | ->]; by eexists. }
    destruct Hc as [-> | ->].
    + destruct (strtoimax_lim_ok [45] (c' :: r') (-1)) as (x & Hx & _); [done|by right; right|by exists x].
    + destruct (strtoimax_lim_ok [43] (c' :: r') 1) as (x & Hx & _); [done|by right; left|by exists x].
  - destruct (strtoimax_lim_ok [] (c :: r) 1) as (x & Hx & _); [done| |by exists x].
    left. split; [done|]. split; [done|]. intros ? ? [= <- _]. split; intros ->; apply Hc; auto.
Qed.

(** *** The unsigned conversions *)

Lemma ulong_is_negative (v : Z) : 2 ^ 63 <= v <= ULONG_MAX -> int_val (i_bytes (asn_ulong2INTEGER v)) = v - 2 ^ 64.
Proof.
  unfold ULONG_MAX. intros Hv. unfold asn_ulong2INTEGER.
  assert (Hs : s64 v = v - 2 ^ 64).
  { apply s64_cong; [|lia]. replace v with (v - 2 ^ 64 + 1 * 2 ^ 64) at 1 by ring.
    by rewrite Z.mod_add. }
  rewrite Hs. destruct (imax2INTEGER_ok (v - 2 ^ 64)) as (l & -> & _ & _ & _ & _ & Hval); [|done].
  unfold is_long, LONG_MIN, LONG_MAX. lia.
Qed.

Lemma be_val_int_val l : bytes_ok l -> be_val l = if int_val l <? 0 then int_val l + 2 ^ (8 * Z.of_nat (length l)) else int_val l.
Proof.
  intros Hl. pose proof (be_val_bound l Hl). unfold int_val in *. destruct l as [|b l]; [done|]. destruct (b <? 128); zcase; lia.
Qed.

Lemma INTEGER2ulong_ok l : bytes_ok l -> asn_INTEGER2ulong (of_bytes l) =
  let n := if int_val l <? 0 then int_val l + 2 ^ (8 * Z.of_nat (length l)) else int_val l in
  if n <=? ULONG_MAX then Conv_OK n else ERANGE.
Proof. intros Hl. cbv zeta. rewrite <- be_val_int_val by done. unfold asn_INTEGER2ulong. rewrite INTEGER2umax_ok by done. by zcases. Qed.

Lemma ulong2INTEGER_ok u : is_ulong u -> minimal (i_bytes (asn_ulong2INTEGER u)) /\
  (u < 2 ^ 63 -> asn_INTEGER2ulong (asn_ulong2INTEGER u) = Conv_OK u /\ int_val (i_bytes (asn_ulong2INTEGER u)) = u) /\
  (2 ^ 63 <= u -> int_val (i_bytes (asn_ulong2INTEGER u)) = u - 2 ^ 64).
Proof.
  intros Hu. unfold is_ulong in Hu. split; [|split; [|intros Hb; apply ulong_is_negative; lia]].
  - unfold asn_ulong2INTEGER. destruct (imax2INTEGER_ok (s64 u)) as (l & -> & _ & _ & _ & Hm & _); [|done].
    unfold is_long, LONG_MIN, LONG_MAX. unfold s64, sext. pose proof (Z.mod_pos_bound u (2 ^ 64) ltac:(done)). change (64 - 1) with 63. zcase; lia.
  - intros Hs. unfold asn_ulong2INTEGER. rewrite s64_small by lia.
    destruct (imax2INTEGER_ok u) as (l & -> & Hok & _ & _ & _ & Hval); [unfold is_long, LONG_MIN, LONG_MAX; lia|].
    rewrite INTEGER2ulong_ok by done. cbv zeta. rewrite Hval. split; [|exact Hval]. by zcases.
Qed.

(** ** Properties *)

(** C38: What the conversions between native integers and INTEGERs do with every
    number.  A [long] becomes the shortest two's complement octets that denote
    it and is read back, and so is a [uintmax_t].  An [unsigned long] is only
    below 2^63: [asn_ulong2INTEGER] goes through the signed conversion and
    makes a negative INTEGER of a number from 2^63 on.  An INTEGER of any length
    is converted to [long] exactly when its value fits, and otherwise refused
    with ERANGE, without reading outside its octets; to [unsigned long] exactly
    when its value fits if it is not negative, while a negative one is not
    refused for its sign but read as an unsigned number of its own length (-1
    in one octet is 255). *)
Theorem integer_conversions (v u : Z) (l : list Z) :
  is_long v -> is_ulong u -> bytes_ok l ->
  (asn_INTEGER2long (asn_long2INTEGER v) = Some (Conv_OK v) /\
   minimal (i_bytes (asn_long2INTEGER v)) /\ int_val (i_bytes (asn_long2INTEGER v)) = v) /\
  (asn_INTEGER2umax (asn_umax2INTEGER u) = Conv_OK u /\
   minimal (i_bytes (asn_umax2INTEGER u)) /\ int_val (i_bytes (asn_umax2INTEGER u)) = u) /\
  (minimal (i_bytes (asn_ulong2INTEGER u)) /\
   (u < 2 ^ 63 -> asn_INTEGER2ulong (asn_ulong2INTEGER u) = Conv_OK u /\ int_val (i_bytes (asn_ulong2INTEGER u)) = u) /\
   (2 ^ 63 <= u -> int_val (i_bytes (asn_ulong2INTEGER u)) = u - 2 ^ 64)) /\
  asn_INTEGER2long (of_bytes l) =
    Some (if (LONG_MIN <=? int_val l) && (int_val l <=? LONG_MAX) then Conv_OK (int_val l) else ERANGE) /\
  asn_INTEGER2ulong (of_bytes l) =
    (let n := if int_val l <? 0 then int_val l + 2 ^ (8 * Z.of_nat (length l)) else int_val l in
     if n <=? ULONG_MAX then Conv_OK n else ERANGE).
Proof.
  intros Hv Hu Hl.
  assert (Hlong : forall l, bytes_ok l -> asn_INTEGER2long (of_bytes l) =
    Some (if (LONG_MIN <=? int_val l) && (int_val l <=? LONG_MAX) then Conv_OK (int_val l) else ERANGE)).
  { intros l' Hok. unfold asn_INTEGER2long. rewrite INTEGER2imax_ok by done. cbn [mbind option_bind].
    destruct (Z.leb_spec LONG_MIN (int_val l')), (Z.leb_spec (int_val l') LONG_MAX); cbn [andb]; try done.
    by zcases. }
  split; [|split; [|split; [|split]]].
  - unfold asn_long2INTEGER; destruct (imax2INTEGER_ok v Hv) as (l' & -> & Hok & _ & _ & Hm & Hval).
    rewrite Hlong, Hval by done. unfold is_long in Hv. split_and!; [by zcases|done..].
  - destruct (umax2INTEGER_ok u Hu) as (l' & -> & Hok & Hm & Hval & Hbe).
    rewrite INTEGER2umax_ok, Hbe by done. unfold is_ulong in Hu. split_and!; [by zcases|done..].
  - by apply ulong2INTEGER_ok.
  - by apply Hlong.
  - by apply INTEGER2ulong_ok.
Qed.

Lemma integer_conversions_witness :
  (asn_INTEGER2long (asn_long2INTEGER (-129)) = Some (Conv_OK (-129)) /\
   minimal (i_bytes (asn_long2INTEGER (-129))) /\ int_val (i_bytes (asn_long2INTEGER (-129))) = -129) /\
  (asn_INTEGER2umax (asn_umax2INTEGER (2 ^ 64 - 1)) = Conv_OK (2 ^ 64 - 1) /\
   minimal (i_bytes (asn_umax2INTEGER (2 ^ 64 - 1))) /\
   int_val (i_bytes (asn_umax2INTEGER (2 ^ 64 - 1))) = 2 ^ 64 - 1) /\
  (minimal (i_bytes (asn_ulong2INTEGER (2 ^ 64 - 1))) /\
   (2 ^ 64 - 1 < 2 ^ 63 -> asn_INTEGER2ulong (asn_ulong2INTEGER (2 ^ 64 - 1)) = Conv_OK (2 ^ 64 - 1) /\
     int_val (i_bytes (asn_ulong2INTEGER (2 ^ 64 - 1))) = 2 ^ 64 - 1) /\
   (2 ^ 63 <= 2 ^ 64 - 1 -> int_val (i_bytes (asn_ulong2INTEGER (2 ^ 64 - 1))) = 2 ^ 64 - 1 - 2 ^ 64)) /\
  asn_INTEGER2long (of_bytes [255]) =
    Some (if (LONG_MIN <=? int_val [255]) && (int_val [255] <=? LONG_MAX) then Conv_OK (int_val [255]) else ERANGE) /\
  asn_INTEGER2ulong (of_bytes [255]) =
    (let n := if int_val [255] <? 0 then int_val [255] + 2 ^ (8 * Z.of_nat (length [255])) else int_val [255] in
     if n <=? ULONG_MAX then Conv_OK n else ERANGE).
Proof.
  apply integer_conversions; [long_bounds; lia..|].
  repeat (apply bytes_ok_cons; [unfold byte_ok; lia|]). apply bytes_ok_nil.
Defined.

(** [asn_ulong2INTEGER] goes through the signed conversion: from 2^63 on the
    INTEGER it makes is negative, so it does not denote the number it was
    given. *)
Theorem ulong_becomes_negative (v : Z) : 2 ^ 63 <= v <= ULONG_MAX ->
  int_val (i_bytes (asn_ulong2INTEGER v)) = v - 2 ^ 64.
Proof. apply ulong_is_negative. Qed.

Lemma ulong_becomes_negative_witness :
  int_val (i_bytes (asn_ulong2INTEGER (2 ^ 63 + 5))) = 2 ^ 63 + 5 - 2 ^ 64.
Proof. apply ulong_becomes_negative. unfold ULONG_MAX. lia. Defined.


(** The text "-9223372036854775808;". *)
Definition sample_digits : list Z :=
  [57; 50; 50; 51; 51; 55; 50; 48; 51; 54; 56; 53; 52; 55; 55; 53; 56; 48; 56; 59].


(** [INTEGER_compare] on minimal encodings orders by value, except that two
    negative numbers of equal length come out in the opposite order. *)
Theorem integer_compare_order (a b : list Z) :
  bytes_ok a -> bytes_ok b -> a <> [] -> b <> [] -> minimal a -> minimal b ->
  exists r, INTEGER_compare (Some (of_bytes a)) (Some (of_bytes b)) = Some r /\
    Z.sgn r = (if (int_val a <? 0) && (int_val b <? 0) && bool_decide (length a = length b)
               then -1 else 1) * Z.sgn (int_val a - int_val b).
Proof.
  intros Ha Hb Hna Hnb Hma Hmb. unfold INTEGER_compare, compare_present.
  cbn [i_bytes i_buf of_bytes default from_option id].
  assert (0 < length a)%nat by (destruct a; cbn; lia || done).
  assert (0 < length b)%nat by (destruct b; cbn; lia || done).
  destruct (Z.eqb_spec (Z.of_nat (length a)) 0), (Z.eqb_spec (Z.of_nat (length b)) 0); try lia.
  cbn [negb andb]. rewrite !sign_of_ok by done. cbn [mbind option_bind].
  eexists. split; [reflexivity|].
  pose proof (minimal_longer a b Ha Hb Hna Hmb) as Hab.
  pose proof (minimal_longer b a Hb Ha Hnb Hma) as Hba.
  assert (Heq : length a = length b -> Z.sgn (memcmp a b) = Z.sgn (be_val a - be_val b))
    by (intros; by apply memcmp_ok).
  assert (Hv : length a = length b -> (int_val a < 0 <-> int_val b < 0) ->
    be_val a - be_val b = int_val a - int_val b).
  { intros Hl Hs. pose proof (be_val_bound a Ha). pose proof (be_val_bound b Hb).
    unfold int_val in *. destruct a as [|x a], b as [|y b]; try done. rewrite Hl in *.
    set (P := 2 ^ _) in *. destruct (Z.ltb_spec x 128), (Z.ltb_spec y 128); lia. }
  assert (Hlen : (length a < length b)%nat \/ (length b < length a)%nat \/ length a = length b) by lia.
  destruct (Z.ltb_spec (int_val a) 0), (Z.ltb_spec (int_val b) 0); cbn [andb].
  2: { change (-1 <? 1) with true. cbn iota. rewrite Z.mul_1_l. symmetry. apply Z.sgn_neg. lia. }
  2: { change (1 <? -1) with false. change (-1 <? 1) with true. cbn iota.
       rewrite Z.mul_1_l. symmetry. apply Z.sgn_pos. lia. }
  all: rewrite Z.ltb_irrefl; destruct Hlen as [Hlt|[Hlt|Hle]].
  - rewrite bool_decide_false by lia. destruct Hab as (_ & _ & Hab); [done|].
    zcases; symmetry; rewrite Z.mul_1_l; apply Z.sgn_pos; lia.
  - rewrite bool_decide_false by lia. destruct Hba as (_ & _ & Hba); [done|].
    zcases; symmetry; rewrite Z.mul_1_l; apply Z.sgn_neg; lia.
  - rewrite bool_decide_true by done. rewrite Hle, Z.ltb_irrefl.
    rewrite Z.sgn_mul, Heq, Hv by (done || lia). done.
  - destruct Hab as (_ & Hab & _); [done|]. zcases; symmetry; rewrite Z.mul_1_l; apply Z.sgn_neg; lia.
  - destruct Hba as (_ & Hba & _); [done|]. zcases; symmetry; rewrite Z.mul_1_l;
    apply Z.sgn_pos; lia.
  - rewrite Hle, Z.ltb_irrefl. rewrite Z.sgn_mul, Heq, Hv by (done || lia). done.
Qed.

Lemma integer_compare_order_witness :
  exists r, INTEGER_compare (Some (of_bytes [255; 0])) (Some (of_bytes [254; 0])) = Some r /\
    Z.sgn r = (if (int_val [255; 0] <? 0) && (int_val [254; 0] <? 0) &&
                  bool_decide (length [255; 0] = length [254; 0])
               then -1 else 1) * Z.sgn (int_val [255; 0] - int_val [254; 0]).
Proof.
  apply integer_compare_order; try discriminate.
  1,2: repeat (apply bytes_ok_cons; [unfold byte_ok; lia|]); apply bytes_ok_nil.
  all: cbn; lia.
Defined.
