(* ===== verification/UperInteger.v ===== *)
(** * INTEGER in packed encoding (support/INTEGER.c, support/NativeInteger.c)

    The codec of INTEGER under its visible constraint: a bit field relative to
    the lower bound inside a bounded range, length-prefixed octets otherwise,
    an extension bit in front when the constraint is extensible.  A native
    integer goes through a temporary INTEGER. *)
From S2P Require Import Prelude Outcome Consumer BitData PerSupport PerNatural PerCodec OpenType AsnInteger.

(** ** Type descriptors *)

(** asn_INTEGER_enum_map_t without [enum_len], the length of the name. *)
Record asn_INTEGER_enum_map_t := { nat_value : Z; enum_name : string }.

(** An array is a list, [map_count] its length. *)
Record asn_INTEGER_specifics_t := {
  value2enum : list asn_INTEGER_enum_map_t;
  enum2value : list Z;
  extension : Z;
  strict_enumeration : bool;
  field_unsigned : bool
}.
Definition map_count (specs : asn_INTEGER_specifics_t) : Z := Z.of_nat (length (value2enum specs)).

(** asn_per_constraint_t; [flags] is the bit mask of asn_per_constraint_flags. *)
Definition APC_UNCONSTRAINED := 0.
Definition APC_SEMI_CONSTRAINED := 1.
Definition APC_CONSTRAINED := 2.
Definition APC_EXTENSIBLE := 4.

Record asn_per_constraint_t := {
  flags : Z;
  range_bits : Z;
  effective_bits : Z;
  lower_bound : Z;
  upper_bound : Z
}.

Definition has_flag (ct : asn_per_constraint_t) (flag : Z) : bool :=
  negb (Z.land (flags ct) flag =? 0).

Definition is_unsigned (specs : option asn_INTEGER_specifics_t) : bool :=
  match specs with Some specs => field_unsigned specs | None => false end.

(** ** Operations *)

Section INTEGER.
(** td->specifics and the value constraint in force: the argument's, or the
    type's own when the argument is null. *)
Context (specs : option asn_INTEGER_specifics_t) (ct : option asn_per_constraint_t).

(** The extension bit: [None] when the stream is exhausted, otherwise the
    constraint that remains. *)
Definition get_extension_bit (pd : asn_per_data) :
    option (option (option asn_per_constraint_t) * asn_per_data) :=
  match ct with
  | Some c =>
    if has_flag c APC_EXTENSIBLE then
      '(inext, pd) ← per_get_few_bits pd 1;
      Some (if inext <? 0 then None else Some (if negb (inext =? 0) then None else ct), pd)
    else Some (Some ct, pd)
  | None => Some (Some None, pd)
  end.

(** The bit field of a bounded range. *)
Definition decode_ranged (c : asn_per_constraint_t) (pd : asn_per_data) :
    option (asn_dec_rval_code * option INTEGER_t * asn_per_data) :=
  if 64 <? range_bits c then Some (RC_FAIL, None, pd) else
  '(rc, uvalue, pd) ← uper_get_constrained_whole_number pd (range_bits c);
  if negb (rc =? 0) then Some (RC_WMORE, None, pd) else
  if is_unsigned specs then
    Some (RC_OK, Some (asn_ulong2INTEGER (u64 (uvalue + lower_bound c))), pd)
  else
    '(rc, svalue) ← per_long_range_unrebase uvalue (lower_bound c) (upper_bound c);
    if negb (rc =? 0) then Some (RC_FAIL, None, pd)
    else Some (RC_OK, Some (asn_long2INTEGER svalue), pd).

(** The octets of an unbounded value, after what [buf] starts with. *)
Definition decode_octets (c : option asn_per_constraint_t) (buf : list Z) (pd : asn_per_data) :
    option (asn_dec_rval_code * option INTEGER_t * asn_per_data) :=
  '(got, pd) ← open_type_get_loop (open_type_fuel pd) pd buf;
  match got with
  | None => Some (RC_WMORE, None, pd)
  | Some l =>
    let lower := match c with Some c => lower_bound c | None => 0 end in
    if negb (lower =? 0) then
      r ← asn_INTEGER2long (of_bytes l);
      match r with
      | Conv_OK value =>
        value ← chk_long (value + lower); Some (RC_OK, Some (asn_imax2INTEGER value), pd)
      | _ => Some (RC_FAIL, None, pd)
      end
    else Some (RC_OK, Some (of_bytes l), pd)
  end.

Definition INTEGER_decode_uper (pd : asn_per_data) :
    option (asn_dec_rval_code * option INTEGER_t * asn_per_data) :=
  '(c, pd) ← get_extension_bit pd;
  match c with
  | None => Some (RC_WMORE, None, pd)
  | Some c =>
    let buf := match c with Some c => if has_flag c APC_SEMI_CONSTRAINED then [0] else []
               | None => [] end in
    match c with
    | Some c' =>
      if negb (flags c' =? APC_UNCONSTRAINED) && (0 <=? range_bits c')
      then decode_ranged c' pd else decode_octets c buf pd
    | None => decode_octets c buf pd
    end
  end.

(** The value as a [long] and whether it lies outside the constraint; [None]
    when it does not fit the native type. *)
Definition encode_range_check (c : asn_per_constraint_t) (st : INTEGER_t) :
    option (option (Z * bool)) :=
  if is_unsigned specs then
    Some match asn_INTEGER2ulong st with
         | Conv_OK uval =>
           Some (s64 uval,
             if has_flag c APC_SEMI_CONSTRAINED then uval <? u64 (lower_bound c)
             else (0 <=? range_bits c) &&
                  ((uval <? u64 (lower_bound c)) || (u64 (upper_bound c) <? uval)))
         | _ => None
         end
  else
    r ← asn_INTEGER2long st;
    Some match r with
         | Conv_OK value =>
           Some (value,
             if has_flag c APC_SEMI_CONSTRAINED then value <? lower_bound c
             else (0 <=? range_bits c) &&
                  ((value <? lower_bound c) || (upper_bound c <? value)))
         | _ => None
         end.

Section Encode.
Context {S : Type} `{!Consumer S}.
Implicit Types po : asn_bit_outp S.

Definition encode_body (c : option asn_per_constraint_t) (value : Z) (st : INTEGER_t) po :
    option (Z * asn_bit_outp S) :=
  let octets :=
    '(remaining, po) ← open_type_put_loop (Datatypes.S (length (i_bytes st))) po (i_bytes st);
    Some (match remaining with Some [] => 0 | _ => -1 end, po) in
  match c with
  | Some c =>
    if 0 <=? range_bits c then
      '(rc, v) ← per_long_range_rebase value (lower_bound c) (upper_bound c);
      if negb (rc =? 0) then Some (-1, po) else
      '(rc, po) ← uper_put_constrained_whole_number_u po v (range_bits c);
      Some (if negb (rc =? 0) then -1 else 0, po)
    else if negb (lower_bound c =? 0) then Some (-1, po) else octets
  | None => octets
  end.

Definition INTEGER_encode_uper (st : INTEGER_t) po : option (Z * asn_bit_outp S) :=
  if Z.of_nat (length (i_bytes st)) =? 0 then Some (-1, po) else
  match ct with
  | None => encode_body None 0 st po
  | Some c =>
    checked ← encode_range_check c st;
    match checked with
    | None => Some (-1, po)
    | Some (value, inext) =>
      if has_flag c APC_EXTENSIBLE then
        '(rc, po) ← per_put_few_bits po (Z.b2z inext) 1;
        if negb (rc =? 0) then Some (-1, po)
        else encode_body (if (inext : bool) then None else ct) value st po
      else if (inext : bool) then Some (-1, po)
      else encode_body ct value st po
    end
  end.

Definition NativeInteger_encode_uper (native : Z) po : option (Z * asn_bit_outp S) :=
  let tmpint := if is_unsigned specs then asn_ulong2INTEGER (u64 native)
                else asn_long2INTEGER native in
  INTEGER_encode_uper tmpint po.
End Encode.

Definition NativeInteger_decode_uper (pd : asn_per_data) :
    option (asn_dec_rval_code * option Z * asn_per_data) :=
  '(code, tmpint, pd) ← INTEGER_decode_uper pd;
  match tmpint with
  | Some tmpint =>
    if decide (code = RC_OK) then
      r ← (if is_unsigned specs then Some (asn_INTEGER2ulong tmpint) else asn_INTEGER2long tmpint);
      Some match r with
           | Conv_OK v => (RC_OK, Some (s64 v), pd)
           | _ => (RC_FAIL, None, pd)
           end
    else Some (code, None, pd)
  | None => Some (code, None, pd)
  end.

Definition NativeInteger_per : PerType Z := {|
  op_uper_encoder := Some (fun S C n po => NativeInteger_encode_uper n po);
  op_uper_decoder := Some NativeInteger_decode_uper
|}.
End INTEGER.

(** ** Specification *)

Section Spec.
Context (specs : option asn_INTEGER_specifics_t) (ct : option asn_per_constraint_t).

Definition in_constraint (c : asn_per_constraint_t) (v : Z) : bool :=
  if has_flag c APC_SEMI_CONSTRAINED then lower_bound c <=? v
  else negb (0 <=? range_bits c) || ((lower_bound c <=? v) && (v <=? upper_bound c)).

(** The bits of a native integer. *)
Definition octet_bits (v : Z) : list bool := open_type_bits (i_bytes (asn_long2INTEGER v)).

Definition int_bits (v : Z) : list bool :=
  match ct with
  | None => octet_bits v
  | Some c =>
    (if has_flag c APC_EXTENSIBLE then [negb (in_constraint c v)] else []) ++
    (if in_constraint c v && (0 <=? range_bits c)
     then val_bits (Z.to_nat (range_bits c)) (v - lower_bound c) else octet_bits v)
  end.

(** A constraint as the compiler emits it: a bounded range has enough bits
    for its width, an unbounded one starts at zero. *)
Definition constraint_ok : Prop :=
  match ct with
  | None => True
  | Some c =>
    is_long (lower_bound c) /\ is_long (upper_bound c) /\
    (is_unsigned specs = true -> 0 <= lower_bound c /\ 0 <= upper_bound c) /\
    if 0 <=? range_bits c
    then range_bits c <= 64 /\ flags c <> APC_UNCONSTRAINED /\
         has_flag c APC_SEMI_CONSTRAINED = false /\
         lower_bound c <= upper_bound c /\ upper_bound c - lower_bound c < 2 ^ range_bits c
    else lower_bound c = 0
  end.

Definition int_dom (v : Z) : Prop :=
  is_long v /\ (is_unsigned specs = true -> 0 <= v) /\
  match ct with
  | None => True
  | Some c => has_flag c APC_EXTENSIBLE = true \/ in_constraint c v = true
  end.

(** The temporary INTEGER of a native value. *)
Definition native_INTEGER (v : Z) : INTEGER_t :=
  if is_unsigned specs then asn_ulong2INTEGER (u64 v) else asn_long2INTEGER v.

Lemma native_INTEGER_ok v : is_long v -> (is_unsigned specs = true -> 0 <= v) ->
  native_INTEGER v = asn_long2INTEGER v.
Proof.
  intros Hl Hu. unfold native_INTEGER. destruct (is_unsigned specs); [|done].
  specialize (Hu eq_refl). unfold asn_ulong2INTEGER, asn_long2INTEGER.
  rewrite u64_long, s64_small; [done|..]; long_bounds; lia.
Qed.

Lemma long_octets v : is_long v -> exists l, asn_long2INTEGER v = of_bytes l /\
  bytes_ok l /\ l <> [] /\ int_val l = v /\ (0 <= v -> be_val l = v).
Proof.
  intros Hv. destruct (imax2INTEGER_ok v Hv) as (l & Hl & Hok & Hne & _ & _ & Hval).
  exists l. split_and!; try done. intros Hpos. rewrite <- Hval in Hpos |- *.
  pose proof (be_val_bound l Hok). unfold int_val in *. destruct l as [|b l]; [done|].
  destruct (b <? 128); lia.
Qed.

Lemma INTEGER2long_octets l : bytes_ok l -> is_long (int_val l) ->
  asn_INTEGER2long (of_bytes l) = Some (Conv_OK (int_val l)).
Proof.
  intros Hok Hl. unfold asn_INTEGER2long. rewrite INTEGER2imax_ok by done.
  unfold is_long in Hl. cbn [mbind option_bind].
  destruct (Z.leb_spec LONG_MIN (int_val l)), (Z.leb_spec (int_val l) LONG_MAX); try lia.
  cbn [andb mbind option_bind]. by zcases.
Qed.

Lemma INTEGER2ulong_octets l : bytes_ok l -> be_val l <= ULONG_MAX ->
  asn_INTEGER2ulong (of_bytes l) = Conv_OK (be_val l).
Proof. intros Hok Hl. unfold asn_INTEGER2ulong. rewrite INTEGER2umax_ok by done. by zcases. Qed.

Lemma range_check_ok c v : ct = Some c -> constraint_ok -> is_long v ->
  (is_unsigned specs = true -> 0 <= v) ->
  encode_range_check specs c (asn_long2INTEGER v) = Some (Some (v, negb (in_constraint c v))).
Proof.
  intros Hc Hcok Hl Hu. unfold constraint_ok in Hcok. rewrite Hc in Hcok.
  destruct Hcok as (Hlb & Hub & Hns & _).
  destruct (long_octets v Hl) as (l & -> & Hok & _ & Hval & Hbe).
  unfold encode_range_check, in_constraint. destruct (is_unsigned specs).
  - specialize (Hu eq_refl). destruct (Hns eq_refl). specialize (Hbe Hu).
    rewrite INTEGER2ulong_octets by (done || (long_bounds; lia)). rewrite Hbe.
    rewrite s64_small, !u64_small by (long_bounds; lia). do 3 f_equal.
    destruct (has_flag _ _); [by zcases|]. destruct (0 <=? range_bits c); [|done]. by zcases.
  - rewrite INTEGER2long_octets by (done || by rewrite Hval). rewrite Hval.
    cbn [mbind option_bind]. do 3 f_equal.
    destruct (has_flag _ _); [by zcases|]. destruct (0 <=? range_bits c); [|done]. by zcases.
Qed.

Lemma encode_octets_ok {S} `{AppendConsumer S} (po : asn_bit_outp S) l : po_wf po -> bytes_ok l ->
  put_res po (open_type_bits l)
    ('(remaining, po) ← open_type_put_loop (Datatypes.S (length l)) po l;
     Some (match remaining with Some [] => 0 | _ => -1 end, po)) 0.
Proof. intros. eapply put_res_map; [by apply open_type_put_bits|done]. Qed.

Lemma encode_uper_ok {S} `{AppendConsumer S} (po : asn_bit_outp S) v :
  constraint_ok -> int_dom v -> po_wf po ->
  put_res po (int_bits v) (NativeInteger_encode_uper specs ct v po) 0.
Proof.
  intros Hcok Hd Hw. unfold NativeInteger_encode_uper. fold (native_INTEGER v).
  pose proof Hd as (Hl & Hu & Hin). rewrite native_INTEGER_ok by done.
  destruct (long_octets v Hl) as (l & Hst & Hok & Hne & _).
  assert (Hoct : forall po : asn_bit_outp S, po_wf po ->
    put_res po (octet_bits v) (encode_body None v (of_bytes l) po) 0).
  { intros po' Hw'. unfold octet_bits. rewrite Hst. by apply encode_octets_ok. }
  unfold INTEGER_encode_uper. rewrite Hst. cbn [i_bytes i_buf of_bytes default from_option id].
  assert (0 < length l)%nat by (destruct l; cbn; lia || done). zcase.
  unfold int_bits. destruct ct as [c|] eqn:Ec.
  2: { exact (Hoct po Hw). }
  rewrite <- Hst, (range_check_ok c v) by done. cbn [mbind option_bind]. rewrite Hst.
  assert (Hbody : forall po : asn_bit_outp S, po_wf po -> in_constraint c v = true ->
    put_res po (if in_constraint c v && (0 <=? range_bits c)
      then val_bits (Z.to_nat (range_bits c)) (v - lower_bound c) else octet_bits v)
      (encode_body (Some c) v (of_bytes l) po) 0).
  { intros po' Hw' Hi. rewrite Hi. cbn [andb]. unfold encode_body. unfold constraint_ok in Hcok.
    rewrite Ec in Hcok. destruct Hcok as (Hlb & Hub & _ & Hr).
    destruct (Z.leb_spec 0 (range_bits c)).
    - destruct Hr as (Hrb & _ & Hsemi & Hle & Hlt). unfold in_constraint in Hi. rewrite Hsemi in Hi.
      destruct (Z.leb_spec 0 (range_bits c)); [|lia]. cbn [negb orb] in Hi.
      rewrite per_long_range_rebase_ok by (done || lia). cbn [mbind option_bind negb Z.eqb].
      apply (put_res_map _ _ _ 0); [|done].
      unfold uper_put_constrained_whole_number_u. apply put_whole_number_ok; [done|lia|lia].
    - rewrite Hr. cbn [negb Z.eqb]. exact (Hoct po' Hw'). }
  destruct (has_flag c APC_EXTENSIBLE) eqn:Eext.
  - apply (put_res_bind _ _ _ _ 0).
    { destruct (in_constraint c v);
        [apply (per_put_few_ok po 0 1)|apply (per_put_few_ok po 1 1)]; done || lia. }
    intros po1 Hw1. cbn [negb Z.eqb]. destruct (in_constraint c v) eqn:Ei; cbn [negb]; [by apply Hbody|].
    cbn [andb]. by apply Hoct.
  - destruct Hin as [?|Hi]; [done|]. rewrite Hi in *. cbn [negb app]. by apply Hbody.
Qed.

(** What the decoder gathers as octets: the value's, behind a zero octet for
    a semi-constrained type. *)
Lemma decode_octets_ok c buf v pd rest : is_long v ->
  match c with Some c => lower_bound c = 0 | None => True end ->
  (buf = [] \/ (buf = [0] /\ 0 <= v)) -> pd_at pd (octet_bits v ++ rest) ->
  exists l pd', decode_octets c buf pd = Some (RC_OK, Some (of_bytes l), pd') /\
    bytes_ok l /\ int_val l = v /\ (0 <= v -> be_val l = v) /\ pd_at pd' rest /\
    pd_read pd (Z.of_nat (length (octet_bits v))) pd'.
Proof.
  intros Hl Hlow Hbuf Hat. unfold octet_bits in *.
  destruct (long_octets v Hl) as (l & Hst & Hok & Hne & Hval & Hbe). rewrite Hst in *.
  cbn [i_bytes i_buf of_bytes default from_option id] in *.
  exists (buf ++ l). unfold decode_octets.
  assert (Hget : get_res pd (Z.of_nat (length (open_type_bits l))) rest
    (open_type_get_loop (open_type_fuel pd) pd buf) (Some (buf ++ l))) by (by apply open_type_get_from).
  destruct Hget as (pd' & -> & Hat' & Hrd). cbn [mbind option_bind]. exists pd'.
  assert (Hlower : match c with Some c => lower_bound c | None => 0 end = 0) by (by destruct c).
  rewrite Hlower. cbn [negb Z.eqb]. split_and!; try done.
  - destruct Hbuf as [->|[-> _]]; [done|]. apply bytes_ok_cons; [by unfold byte_ok|done].
  - destruct Hbuf as [->|[-> Hpos]]; [done|]. cbn [app int_val be_val Z.ltb Z.compare].
    rewrite Hbe by done. lia.
  - intros Hpos. destruct Hbuf as [->|[-> _]]; [by apply Hbe|]. cbn [app be_val].
    rewrite Hbe by done. lia.
Qed.

Lemma decode_ranged_ok c v pd rest : ct = Some c -> constraint_ok -> int_dom v ->
  in_constraint c v = true -> 0 <= range_bits c ->
  pd_at pd (val_bits (Z.to_nat (range_bits c)) (v - lower_bound c) ++ rest) ->
  exists pd', decode_ranged specs c pd = Some (RC_OK, Some (asn_long2INTEGER v), pd') /\
    pd_at pd' rest /\ pd_read pd (range_bits c) pd'.
Proof.
  intros Hc Hcok (Hl & Hu & _) Hin Hrb Hat. unfold constraint_ok in Hcok. rewrite Hc in Hcok.
  destruct Hcok as (Hlb & Hub & Hns & Hr). destruct (Z.leb_spec 0 (range_bits c)); [|lia].
  destruct Hr as (H64 & _ & Hsemi & Hle & Hlt). unfold in_constraint in Hin. rewrite Hsemi in Hin.
  destruct (Z.leb_spec 0 (range_bits c)); [|lia]. cbn [negb orb] in Hin.
  unfold decode_ranged. zcase.
  destruct (get_whole_number_at 3 pd (v - lower_bound c) (range_bits c) rest) as (pd' & Hg & Hat' & Hrd);
    [lia|lia|done|lia|].
  unfold uper_get_constrained_whole_number. rewrite Hg. cbn [mbind option_bind negb Z.eqb].
  rewrite Z.mod_small by lia. exists pd'. split; [|done]. destruct (is_unsigned specs).
  - specialize (Hu eq_refl). destruct (Hns eq_refl). replace (v - lower_bound c + lower_bound c) with v by lia.
    unfold asn_ulong2INTEGER, asn_long2INTEGER. rewrite u64_long, s64_small; [done|..]; long_bounds; lia.
  - rewrite per_long_range_unrebase_ok by (done || lia). zcases. cbn [mbind option_bind negb Z.eqb].
    do 4 f_equal. f_equal. lia.
Qed.

Lemma INTEGER_decode_ok v pd rest : constraint_ok -> int_dom v -> pd_at pd (int_bits v ++ rest) ->
  exists l pd', INTEGER_decode_uper specs ct pd = Some (RC_OK, Some (of_bytes l), pd') /\
    bytes_ok l /\ int_val l = v /\ (0 <= v -> be_val l = v) /\ pd_at pd' rest /\
    pd_read pd (Z.of_nat (length (int_bits v))) pd'.
Proof.
  intros Hcok Hd Hat. pose proof Hd as (Hl & _ & Hin). unfold INTEGER_decode_uper, int_bits in *.
  destruct ct as [c|] eqn:Ec; cbn [get_extension_bit] in *.
  2: { by apply (decode_octets_ok None []); auto. }
  (* what follows the extension bit *)
  assert (Hbody : forall pd, in_constraint c v = true ->
    pd_at pd ((if 0 <=? range_bits c then val_bits (Z.to_nat (range_bits c)) (v - lower_bound c)
               else octet_bits v) ++ rest) ->
    exists l pd', (if negb (flags c =? APC_UNCONSTRAINED) && (0 <=? range_bits c)
      then decode_ranged specs c pd
      else decode_octets (Some c) (if has_flag c APC_SEMI_CONSTRAINED then [0] else []) pd) =
      Some (RC_OK, Some (of_bytes l), pd') /\
    bytes_ok l /\ int_val l = v /\ (0 <= v -> be_val l = v) /\ pd_at pd' rest /\
    pd_read pd (Z.of_nat (length (if 0 <=? range_bits c
      then val_bits (Z.to_nat (range_bits c)) (v - lower_bound c) else octet_bits v))) pd').
  { intros pd' Hi Hat'. pose proof Hcok as Hcok'. unfold constraint_ok in Hcok'. rewrite Ec in Hcok'.
    destruct Hcok' as (_ & _ & _ & Hr). destruct (Z.leb_spec 0 (range_bits c)) as [Hrb|Hrb].
    - destruct Hr as (_ & Hf & _). destruct (Z.eqb_spec (flags c) APC_UNCONSTRAINED); [done|].
      cbn [negb andb]. rewrite length_val_bits, Z2Nat.id by done.
      destruct (decode_ranged_ok c v pd' rest) as (pd'' & Hdec & ? & ?); try done.
      destruct (long_octets v Hl) as (l & Hst & Hok & _ & Hval & Hbe).
      exists l, pd''. by rewrite Hdec, Hst.
    - rewrite andb_false_r. apply decode_octets_ok; try done. unfold in_constraint in Hi.
      destruct (has_flag c APC_SEMI_CONSTRAINED); [right; split; [done|lia]|by left]. }
  destruct (has_flag c APC_EXTENSIBLE) eqn:Eext.
  - cbn [app] in Hat. destruct (get_bit pd _ _ Hat) as (pd1 & -> & Hat1 & Hrd1).
    cbn [mbind option_bind app length]. rewrite Nat2Z.inj_succ, <- Z.add_1_l.
    assert (Hlift : forall r n, (exists l pd', r = Some (RC_OK, Some (of_bytes l), pd') /\
        bytes_ok l /\ int_val l = v /\ (0 <= v -> be_val l = v) /\ pd_at pd' rest /\
        pd_read pd1 (Z.of_nat n) pd') ->
      exists l pd', r = Some (RC_OK, Some (of_bytes l), pd') /\
        bytes_ok l /\ int_val l = v /\ (0 <= v -> be_val l = v) /\ pd_at pd' rest /\
        pd_read pd (1 + Z.of_nat n) pd').
    { intros r n (l & pd' & -> & ? & ? & ? & ? & ?). exists l, pd'. split_and!; try done.
      eapply pd_read_trans; [lia..|done|done]. }
    apply Hlift. destruct (in_constraint c v) eqn:Ei; cbn [negb Z.b2z Z.ltb Z.compare Z.eqb andb] in *.
    + by apply Hbody.
    + by apply (decode_octets_ok None []); auto.
  - destruct Hin as [?|Hi]; [done|]. rewrite Hi in *. cbn [mbind option_bind app andb] in *. by apply Hbody.
Qed.

Lemma decode_uper_ok v pd rest : constraint_ok -> int_dom v -> pd_at pd (int_bits v ++ rest) ->
  dec_res pd (Z.of_nat (length (int_bits v))) rest (NativeInteger_decode_uper specs ct pd) v.
Proof.
  intros Hcok Hd Hat. unfold NativeInteger_decode_uper.
  destruct (INTEGER_decode_ok v pd rest Hcok Hd Hat) as (l & pd' & -> & Hok & Hval & Hbe & Hat' & Hrd).
  cbn [mbind option_bind]. rewrite decide_True by done. destruct Hd as (Hl & Hu & _).
  exists pd'. split; [|done]. assert (Hs : s64 v = v) by (apply s64_small; long_bounds; lia).
  destruct (is_unsigned specs).
  - specialize (Hbe (Hu eq_refl)). rewrite INTEGER2ulong_octets, Hbe by (done || (long_bounds; lia)).
    cbn [mbind option_bind]. by rewrite Hs.
  - rewrite INTEGER2long_octets, Hval by (done || by rewrite Hval). cbn [mbind option_bind]. by rewrite Hs.
Qed.
End Spec.

(** NativeInteger keeps the contract of a PER type. *)
Lemma native_integer_laws specs ct : constraint_ok specs ct -> @PerTypeLaws Z (NativeInteger_per specs ct).
Proof.
  intros Hok. unshelve refine (@Build_PerTypeLaws Z (NativeInteger_per specs ct)
    (int_dom specs ct) (int_bits ct) _ _).
  - eexists. split; [reflexivity|]. split.
    + intros S C A po v Hd Hw. exists 0. split; [done|]. by apply encode_uper_ok.
    + intros S1 S2 C1 C2 f Hf po v. cbn beta. unfold NativeInteger_encode_uper, INTEGER_encode_uper.
      pose proof (put_whole_map f Hf). pose proof (per_put_few_map f Hf).
      assert (Hbody : forall c v st po, encode_body c v st (po_map f po) = res_map f (encode_body c v st po)).
      { intros c' v' st' po'. unfold encode_body. destruct c' as [c'|]; natural. }
      destruct ct as [c|]; natural.
  - eexists. split; [reflexivity|]. intros pd v rest Hd Hat. by apply decode_uper_ok.
Defined.

(** ** Properties *)

(** A native integer in its constraint is written as exactly the bits of its
    specification (extension bit, distance from the lower bound, or
    length-prefixed minimal octets) and read back, for every constraint the
    compiler emits, signed or unsigned; one outside a constraint that is not
    extensible is refused with nothing written. *)
Theorem native_integer_uper_roundtrip (specs : option asn_INTEGER_specifics_t)
    (ct : option asn_per_constraint_t) (v : Z) :
  constraint_ok specs ct ->
  (int_dom specs ct v ->
   codec (fun po => NativeInteger_encode_uper specs ct v po)
     (fun pd => '(code, st, pd) ← NativeInteger_decode_uper specs ct pd; Some ((code, st), pd))
     (int_bits ct v) 0 (RC_OK, Some v)) /\
  (forall c (po : asn_bit_outp ByteBuffer), ct = Some c -> has_flag c APC_EXTENSIBLE = false ->
   is_long v -> (is_unsigned specs = true -> 0 <= v) -> in_constraint c v = false ->
   NativeInteger_encode_uper specs ct v po = Some (-1, po)).
Proof.
  intros Hok. split.
  - intros Hd. split; [intros po Hw; by apply encode_uper_ok|]. intros pd rest Hat.
    by destruct (decode_uper_ok specs ct v pd rest Hok Hd Hat) as (pd' & -> & ? & ?); exists pd'.
  - intros c po -> Hext Hl Hu Hin.
    unfold NativeInteger_encode_uper. fold (native_INTEGER specs v).
    rewrite native_INTEGER_ok by done. unfold INTEGER_encode_uper.
    destruct (long_octets v Hl) as (l & Hst & _ & Hne & _). rewrite Hst at 1.
    cbn [i_bytes i_buf of_bytes default from_option id].
    destruct (Z.eqb_spec (Z.of_nat (length l)) 0); [destruct l; cbn in *; lia || done|].
    rewrite (range_check_ok specs (Some c)) with (c := c) by done.
    cbn [mbind option_bind]. by rewrite Hext, Hin.
Qed.

(** The constraint (-5..250, ...). *)
Definition sample_constraint : asn_per_constraint_t :=
  {| flags := 6; range_bits := 8; effective_bits := 8; lower_bound := -5; upper_bound := 250 |}.

Lemma native_integer_uper_roundtrip_witness :
  (int_dom None (Some sample_constraint) 250 /\ int_dom None (Some sample_constraint) 70000) /\
  codec (fun po => NativeInteger_encode_uper None (Some sample_constraint) 70000 po)
     (fun pd => '(code, st, pd) ← NativeInteger_decode_uper None (Some sample_constraint) pd;
        Some ((code, st), pd))
     (int_bits (Some sample_constraint) 70000) 0 (RC_OK, Some 70000).
Proof.
  assert (Hd : forall v, is_long v -> int_dom None (Some sample_constraint) v)
    by (intros; split; [assumption|split; [discriminate|left; reflexivity]]).
  split; [split; apply Hd; long_bounds; lia|].
  apply native_integer_uper_roundtrip; [|apply Hd; long_bounds; lia].
  cbn. long_bounds. split; [lia|]. split; [lia|]. split; [discriminate|].
  split; [lia|]. split; [discriminate|]. split; [reflexivity|]. lia.
Defined.
