(* ===== verification/SequenceOf.v ===== *)
(** * SEQUENCE OF and the SET OF decoder in UPER (support/constr_SEQUENCE_OF.c,
    constr_SET_OF.c, asn_SET_OF.c, asn_SEQUENCE_OF.c)

    The list types: a count, in the bits of the size constraint or as length
    determinants with fragments, and the elements' own encodings.  The
    element type is any instance of [PerType]; the theorems are proved
    against its laws and the list type is an instance again, so lists of
    lists are covered. *)
From S2P Require Import Prelude Outcome Consumer BitData PerSupport PerNatural PerCodec UperInteger OpenType.

(** ** The element array (A_SET_OF, A_SEQUENCE_OF) *)

(** Pointers to the elements; [None] is a null pointer. *)
Definition asn_anonymous_set_ (T : Type) := list (option T).

(** Return code and array. *)
Definition asn_set_add {T} (set : asn_anonymous_set_ T) (ptr : option T) : Z * asn_anonymous_set_ T :=
  match ptr with
  | None => (-1, set)
  | Some _ => (0, set ++ [ptr])
  end.

(** The last element takes the place of the deleted one. *)
Definition asn_set_del {T} (set : asn_anonymous_set_ T) (number : Z) : asn_anonymous_set_ T :=
  let count := Z.of_nat (length set) in
  if (number <? 0) || (count <=? number) then set else
  match last set with
  | Some ptr => take (length set - 1) (<[Z.to_nat number := ptr]> set)
  | None => set
  end.

(** Later elements move one place to the left. *)
Definition asn_sequence_del {T} (sequence : asn_anonymous_set_ T) (number : Z) : asn_anonymous_set_ T :=
  let count := Z.of_nat (length sequence) in
  if (number <? 0) || (count <=? number) then sequence
  else take (Z.to_nat number) sequence ++ drop (S (Z.to_nat number)) sequence.

(** ** What a PER decoder reports as consumed *)

(** [rv.consumed] of a successful PER decoder: a constant of the type, since
    the position lives in the stream. *)
Class PerConsumed (T : Type) := per_consumed : Z.

#[export] Instance BOOLEAN_consumed : PerConsumed BOOLEAN_t := 1.
Definition NativeInteger_consumed : PerConsumed Z := 0.
Definition NativeEnumerated_consumed : PerConsumed Z := 0.
#[export] Instance SET_OF_consumed T : PerConsumed (asn_anonymous_set_ T) := 0.

(** ** Operations *)

Section Operations.
Context {T : Type} `{P : PerType T} `{PC : !PerConsumed T} (ct0 : option asn_per_constraint_t).

(** ct && ct->effective_bits >= 0 *)
Definition counted (ct : option asn_per_constraint_t) : bool :=
  match ct with Some c => 0 <=? effective_bits c | None => false end.

(** The for loop over [nelems] elements. *)
Fixpoint get_elems (n : nat) (nelems : Z) (pd : asn_per_data) (set : asn_anonymous_set_ T) :
    option (asn_dec_rval_code * asn_anonymous_set_ T * asn_per_data) :=
  match n with
  | O => Some (RC_OK, set, pd)
  | S n =>
    dec ← op_uper_decoder;
    '(code, ptr, pd) ← dec pd;
    if decide (code = RC_OK) then
      let '(rc, set) := asn_set_add set ptr in
      if rc =? 0 then
        if (per_consumed =? 0) && (200 <? nelems) then Some (RC_FAIL, set, pd)
        else get_elems n nelems pd set
      else Some (RC_FAIL, set, pd)
    else Some (code, set, pd)
  end.

(** The do-while loop from the second half of its body on: the count is
    [nelems], or read here when it is negative. *)
Fixpoint set_of_loop (fuel : nat) (nelems : Z) (pd : asn_per_data) (set : asn_anonymous_set_ T) :
    option (asn_dec_rval_code * asn_anonymous_set_ T * asn_per_data) :=
  match fuel with
  | O => None
  | S fuel =>
    '(nelems, repeat, pd) ← (if nelems <? 0 then uper_get_length pd (-1) 0 else Some (nelems, false, pd));
    if nelems <? 0 then Some (RC_WMORE, set, pd) else
    '(code, set, pd) ← get_elems (Z.to_nat nelems) nelems pd set;
    if decide (code = RC_OK) then
      if (repeat : bool) then set_of_loop fuel (-1) pd set else Some (RC_OK, set, pd)
    else Some (code, set, pd)
  end.

(** A repeated iteration has read a determinant of eight bits. *)
Definition set_of_fuel (pd : asn_per_data) : nat := S (length (pd_buffer pd)).

(** From the count on, under the constraint that remains.  The structure is
    allocated empty; on failure it holds what was decoded. *)
Definition SET_OF_decode_elements (ct : option asn_per_constraint_t) (pd : asn_per_data) :
    option (asn_dec_rval_code * option (asn_anonymous_set_ T) * asn_per_data) :=
  '(nelems, pd) ← match ct with
                  | Some c =>
                    if 0 <=? effective_bits c then
                      '(nelems, pd) ← per_get_few_bits pd (effective_bits c);
                      if nelems <? 0 then Some (None, pd) else
                      nelems ← chk_long (nelems + lower_bound c); Some (Some nelems, pd)
                    else Some (Some (-1), pd)
                  | None => Some (Some (-1), pd)
                  end;
  match nelems with
  | None => Some (RC_WMORE, Some [], pd)
  | Some nelems =>
    '(code, set, pd) ← set_of_loop (set_of_fuel pd) nelems pd []; Some (code, Some set, pd)
  end.

Definition SET_OF_decode_uper (pd : asn_per_data) :
    option (asn_dec_rval_code * option (asn_anonymous_set_ T) * asn_per_data) :=
  match ct0 with
  | Some c =>
    if has_flag c APC_EXTENSIBLE then
      '(value, pd) ← per_get_few_bits pd 1;
      if value <? 0 then Some (RC_WMORE, Some [], pd)
      else SET_OF_decode_elements (if negb (value =? 0) then None else ct0) pd
    else SET_OF_decode_elements ct0 pd
  | None => SET_OF_decode_elements None pd
  end.

Section Encode.
Context {S : Type} `{C : Consumer S}.
Implicit Types po : asn_bit_outp S.

(** The elements from [edx] on: the last er.encoded, or [None] for a failure. *)
Fixpoint put_elems (l : asn_anonymous_set_ T) (encoded : Z) po : option (option Z * asn_bit_outp S) :=
  match l with
  | [] => Some (Some encoded, po)
  | None :: _ => Some (None, po)
  | Some t :: l =>
    enc ← op_uper_encoder;
    '(encoded, po) ← enc S C t po;
    if encoded =? -1 then Some (None, po) else put_elems l encoded po
  end.

(** for(encoded_edx = 0; encoded_edx < list->count;) on the elements from
    encoded_edx on; a counted list is done in one iteration.  SET OF has the
    same loop over its encoded elements, so what an iteration writes is a
    parameter. *)
Fixpoint fragment_loop {A} (put : list A -> Z -> asn_bit_outp S -> option (option Z * asn_bit_outp S))
    (fuel : nat) (counted_ : bool) (l : list A) (encoded : Z) po : option (Z * asn_bit_outp S) :=
  match fuel with
  | O => None
  | Datatypes.S fuel =>
    if bool_decide (l = []) then Some (encoded, po) else
    '(may_encode, need_eom, po) ← (if counted_ then Some (Z.of_nat (length l), false, po)
                                  else uper_put_length po (Z.of_nat (length l)));
    if may_encode <? 0 then Some (-1, po) else
    '(r, po) ← put (take (Z.to_nat may_encode) l) encoded po;
    match r with
    | None => Some (-1, po)
    | Some encoded =>
      '(rc, po) ← (if (need_eom : bool) then '(r, _, po) ← uper_put_length po 0; Some (r, po)
                   else Some (0, po));
      if negb (rc =? 0) then Some (-1, po)
      else fragment_loop put fuel counted_ (drop (Z.to_nat may_encode) l) encoded po
    end
  end.

(** The count, shared by SEQUENCE OF and SET OF: a result to return, or the
    constraint that remains. *)
Definition put_count_header (count : Z) (ct : option asn_per_constraint_t) po :
    option ((Z + option asn_per_constraint_t) * asn_bit_outp S) :=
  let uncounted :=
    if count =? 0 then
      '(rc, _, po) ← uper_put_length po 0;
      Some (inl (if negb (rc =? 0) then -1 else 0), po)
    else Some (inr ct, po) in
  match ct with
  | Some c =>
    if 0 <=? effective_bits c then
      '(rc, po) ← per_put_few_bits po (count - lower_bound c) (effective_bits c);
      Some (if negb (rc =? 0) then inl (-1) else inr ct, po)
    else uncounted
  | None => uncounted
  end.

Definition not_in_root (c : asn_per_constraint_t) (count : Z) : bool :=
  (count <? lower_bound c) || (upper_bound c <? count).

Definition put_count (count : Z) po : option ((Z + option asn_per_constraint_t) * asn_bit_outp S) :=
  match ct0 with
  | Some c =>
    if has_flag c APC_EXTENSIBLE then
      '(rc, po) ← per_put_few_bits po (Z.b2z (not_in_root c count)) 1;
      if negb (rc =? 0) then Some (inl (-1), po)
      else put_count_header count (if not_in_root c count then None else ct0) po
    else if not_in_root c count && (0 <=? effective_bits c) then Some (inl (-1), po)
    else put_count_header count ct0 po
  | None => put_count_header count None po
  end.

Definition SEQUENCE_OF_encode_uper (l : asn_anonymous_set_ T) po : option (Z * asn_bit_outp S) :=
  '(r, po) ← put_count (Z.of_nat (length l)) po;
  match r with
  | inl encoded => Some (encoded, po)
  | inr ct => fragment_loop put_elems (Datatypes.S (length l)) (counted ct) l 0 po
  end.
End Encode.

#[local] Instance SEQUENCE_OF_per : PerType (asn_anonymous_set_ T) := {
  op_uper_encoder := Some (fun S C l po => SEQUENCE_OF_encode_uper l po);
  op_uper_decoder := Some SET_OF_decode_uper
}.
End Operations.

(** ** Lemmas: writing *)

Lemma omap_Some {A} (l : list A) : omap id (Some <$> l) = l.
Proof. induction l as [|a l IH]; [done|]. cbn. by rewrite IH. Qed.

(** The loop over any elements whose encoding is known. *)
Section Fragments.
Context {S : Type} `{HC : Consumer S} `{HA : !AppendConsumer S}.
Context {A : Type} (put : list A -> Z -> asn_bit_outp S -> option (option Z * asn_bit_outp S)).
Context (ok : A -> Prop) (bits : A -> list bool).
Hypothesis put_ok : forall l encoded po, Forall ok l -> encoded <> -1 -> po_wf po ->
  exists e, e <> -1 /\ put_res po (concat (bits <$> l)) (put l encoded po) (Some e).

Lemma fragment_loop_counted l po fuel : Forall ok l -> po_wf po -> (1 < fuel)%nat ->
  exists e, e <> -1 /\ put_res po (concat (bits <$> l)) (fragment_loop put fuel true l 0 po) e.
Proof.
  intros Hd Hw Hf. destruct fuel as [|fuel]; [lia|]. cbn [fragment_loop].
  destruct (decide (l = [])) as [->|Hne].
  { exists 0. split; [done|]. by apply put_res_ret. }
  rewrite bool_decide_false by done. cbn [mbind option_bind]. zcase.
  rewrite take_ge, drop_ge by lia.
  destruct (put_ok l 0 po Hd ltac:(done) Hw) as (e & He & po' & -> & Hw' & Hb').
  cbn [mbind option_bind negb Z.eqb]. exists e. split; [done|]. destruct fuel as [|fuel]; [lia|].
  cbn [fragment_loop]. rewrite bool_decide_true by done. by exists po'.
Qed.

Lemma fragment_loop_fragments fuel l encoded po : Forall ok l -> encoded <> -1 -> po_wf po ->
  (length l < fuel)%nat ->
  exists e, e <> -1 /\
    put_res po (if bool_decide (l = []) then [] else frag_bits fuel (bits <$> l))
      (fragment_loop put fuel false l encoded po) e.
Proof.
  revert l encoded po. induction fuel as [|fuel IH]; intros l encoded po Hd He Hw Hf; [lia|].
  cbn [fragment_loop frag_bits]. rewrite !length_fmap.
  destruct (decide (l = [])) as [->|Hne].
  { exists encoded. split; [done|]. by apply put_res_ret. }
  rewrite !bool_decide_false by done.
  set (n := Z.of_nat (length l)). destruct (frag_step n) as (Hfr & Hpos & _); [lia|].
  destruct (uper_put_length_ok po n) as (po1 & -> & Hw1 & Hb1); [lia|done|]. cbn [mbind option_bind]. zcase.
  set (f := Z.to_nat (length_fragment n)). rewrite <- !fmap_take, <- !fmap_drop.
  destruct (put_ok (take f l) encoded po1 (Forall_take _ _ _ Hd) He Hw1) as (e & Hne' & po2 & -> & Hw2 & Hb2).
  cbn [mbind option_bind].
  assert (Heom : put_res po2 (if length_needs_eom n then length_bits 0 else [])
    (if length_needs_eom n then '(r, _, po) ← uper_put_length po2 0; Some (r, po) else Some (0, po2)) 0).
  { destruct (length_needs_eom n); [|by apply put_res_ret].
    apply (put_res_map _ _ _ (0, false)); [|done].
    destruct (uper_put_length_ok po2 0) as (po' & ? & ? & ?); [lia|done|by exists po']. }
  destruct Heom as (po3 & -> & Hw3 & Hb3). cbn [mbind option_bind negb Z.eqb].
  assert (Hlen : (length (drop f l) < fuel)%nat).
  { rewrite length_drop. assert (0 < length l)%nat by (destruct l; [done|cbn; lia]). unfold f. lia. }
  destruct (IH (drop f l) e po3 (Forall_drop _ _ _ Hd) Hne' Hw3 Hlen) as (e' & He' & po4 & -> & Hw4 & Hb4).
  exists e'. split; [done|]. exists po4. split_and!; [done|done|].
  rewrite Hb4, Hb3, Hb2, Hb1, <- !app_assoc. do 4 f_equal.
  rewrite !(bool_decide_ext (bits <$> drop f l = []) (drop f l = [])); [done|].
  split; [by intros ?%fmap_nil_inv|by intros ->].
Qed.
End Fragments.

Section Spec.
Context {T : Type} `{P : PerType T} `{L : !PerTypeLaws T} `{PC : !PerConsumed T}.

Definition units (l : list T) : list (list bool) := per_bits <$> l.

Definition ptr_ok (ptr : option T) : Prop := exists t, ptr = Some t /\ per_dom t.
Definition ptr_bits (ptr : option T) : list bool := from_option per_bits [] ptr.

Lemma ptr_units l : ptr_bits <$> (Some <$> l) = units l.
Proof. rewrite <- list_fmap_compose. done. Qed.

Lemma ptrs_ok l : Forall per_dom l -> Forall ptr_ok (Some <$> l).
Proof. intros Hd. apply Forall_fmap. eapply Forall_impl; [exact Hd|]. intros t Ht. by exists t. Qed.

Lemma put_elems_ok {S} `{HC : Consumer S} `{HA : !AppendConsumer S} l encoded (po : asn_bit_outp S) :
  Forall ptr_ok l -> encoded <> -1 -> po_wf po ->
  exists e, e <> -1 /\ put_res po (concat (ptr_bits <$> l)) (put_elems l encoded po) (Some e).
Proof.
  destruct per_enc_law as (enc & Henc & Hput & _). intros Hd. revert encoded po.
  induction Hd as [|ptr l (t & -> & Ht) Hl IH]; intros encoded po He Hw; cbn [put_elems fmap list_fmap concat].
  { exists encoded. split; [done|]. by apply put_res_ret. }
  rewrite Henc. cbn [mbind option_bind ptr_bits from_option].
  destruct (Hput S _ _ po t Ht Hw) as (e & Hne & po1 & -> & Hw1 & Hb1). cbn [mbind option_bind].
  destruct (Z.eqb_spec e (-1)); [done|].
  destruct (IH e po1 Hne Hw1) as (e' & Hne' & po2 & H2 & Hw2 & Hb2). exists e'. split; [done|].
  exists po2. split_and!; [done|done|]. by rewrite Hb2, Hb1, app_assoc.
Qed.

(** ** Lemmas: reading *)

(** The loop refuses an element that consumed nothing in a chunk of more
    than 200. *)
Definition bomb (nelems : Z) : bool := (per_consumed =? 0) && (200 <? nelems).

Lemma get_elems_ok l nelems (pd : asn_per_data) set rest : Forall per_dom l -> bomb nelems = false ->
  pd_at pd (concat (units l) ++ rest) ->
  exists pd', get_elems (length l) nelems pd set = Some (RC_OK, set ++ (Some <$> l), pd') /\
    pd_at pd' rest /\ pd_read pd (Z.of_nat (length (concat (units l)))) pd'.
Proof.
  destruct per_dec_law as (dec & Hdec & Hget). intros Hd Hg. revert pd set.
  induction Hd as [|t l Ht Hl IH]; intros pd set Hat; cbn [get_elems length fmap list_fmap units concat] in *.
  { exists pd. rewrite app_nil_r. split_and!; [done|done|].
    destruct (get_res_ret pd rest tt Hat) as (pd' & [= <-] & _ & ?). done. }
  rewrite <- app_assoc in Hat. destruct (Hget pd t _ Ht Hat) as (pd1 & Hr & Hat1 & Hrd1).
  rewrite Hdec. cbn [mbind option_bind]. rewrite Hr. cbn [mbind option_bind asn_set_add Z.eqb].
  rewrite decide_True by done. unfold bomb in Hg. rewrite Hg.
  destruct (IH pd1 (set ++ [Some t]) Hat1) as (pd2 & Hr2 & Hat2 & Hrd2). exists pd2.
  rewrite Hr2, <- app_assoc. split_and!; [done|done|].
  rewrite length_app, Nat2Z.inj_add. eapply pd_read_trans; [lia..|done|done].
Qed.

Lemma get_elems_bomb l nelems (pd : asn_per_data) set rest : Forall per_dom l -> l <> [] ->
  bomb nelems = true -> pd_at pd (concat (units l) ++ rest) ->
  exists set' pd', get_elems (length l) nelems pd set = Some (RC_FAIL, set', pd').
Proof.
  destruct per_dec_law as (dec & Hdec & Hget). intros Hd Hne Hg Hat. destruct l as [|t l]; [done|].
  apply Forall_cons in Hd as [Ht Hl]. cbn [get_elems length fmap list_fmap units concat] in *.
  rewrite <- app_assoc in Hat. destruct (Hget pd t _ Ht Hat) as (pd1 & Hr & _).
  rewrite Hdec. cbn [mbind option_bind]. rewrite Hr. cbn [mbind option_bind asn_set_add Z.eqb].
  rewrite decide_True by done. unfold bomb in Hg. rewrite Hg. by do 2 eexists.
Qed.

(** One iteration that reads its count. *)
Lemma set_of_step fuel (pd : asn_per_data) set n chunk tl : 0 <= n ->
  Z.of_nat (length chunk) = length_fragment n -> Forall per_dom chunk ->
  bomb (length_fragment n) = false -> pd_at pd (length_bits n ++ concat (units chunk) ++ tl) ->
  exists pd', set_of_loop (S fuel) (-1) pd set =
      (if 16384 <=? n then set_of_loop fuel (-1) pd' (set ++ (Some <$> chunk))
       else Some (RC_OK, set ++ (Some <$> chunk), pd')) /\
    pd_at pd' tl /\ pd_read pd (Z.of_nat (length (length_bits n ++ concat (units chunk)))) pd'.
Proof.
  intros Hn Hlen Hd Hg Hat. destruct (uper_get_length_at pd n _ Hn Hat) as (pd1 & Hl & Hat1 & Hrd1).
  cbn [set_of_loop]. zcase. rewrite Hl. cbn [mbind option_bind]. zcase.
  destruct (get_elems_ok chunk (length_fragment n) pd1 set tl Hd Hg Hat1) as (pd2 & Hr & Hat2 & Hrd2).
  rewrite <- Hlen, Nat2Z.id, Hlen, Hr. cbn [mbind option_bind]. rewrite decide_True by done.
  exists pd2. split_and!; [done|done|]. rewrite length_app, Nat2Z.inj_add.
  eapply pd_read_trans; [lia..|done|done].
Qed.

Lemma set_of_fragments fuel fuel' l (pd : asn_per_data) set rest :
  Forall per_dom l -> (length l < fuel')%nat -> bomb (Z.of_nat (length l)) = false ->
  (length (frag_bits fuel' (units l)) <= 8 * fuel)%nat ->
  pd_at pd (frag_bits fuel' (units l) ++ rest) ->
  exists pd', set_of_loop fuel (-1) pd set = Some (RC_OK, set ++ (Some <$> l), pd') /\
    pd_at pd' rest /\ pd_read pd (Z.of_nat (length (frag_bits fuel' (units l)))) pd'.
Proof.
  revert fuel l pd set. induction fuel' as [|fuel' IH]; intros fuel l pd set Hd Hf' Hg Hf Hat; [lia|].
  cbn [frag_bits] in *. unfold units in Hf, Hat |- *. rewrite length_fmap in *. set (n := Z.of_nat (length l)) in *.
  destruct (frag_step n) as (Hfr & Hpos & Hsmall & Heom); [lia|].
  set (f := Z.to_nat (length_fragment n)) in *. rewrite <- fmap_take, <- fmap_drop in *.
  assert (Hlen : Z.of_nat (length (take f l)) = length_fragment n) by (rewrite length_take; lia).
  assert (Hgf : bomb (length_fragment n) = false).
  { unfold bomb in *. destruct (per_consumed =? 0); [|done]. cbn [andb] in *.
    destruct (Z.ltb_spec 200 n); [done|]. by zcase. }
  pose proof (length_bits_ge n) as H8. rewrite <- !app_assoc in Hat.
  destruct fuel as [|fuel]; [rewrite length_app in Hf; lia|].
  destruct (set_of_step fuel pd set n (take f l) _ ltac:(lia) Hlen (Forall_take _ _ _ Hd) Hgf Hat)
    as (pd1 & -> & Hat1 & Hrd1). fold (units (take f l)) in *.
  rewrite app_assoc in Hf |- *. rewrite length_app in Hf |- *. rewrite Nat2Z.inj_add.
  assert (H8' : (8 <= length (length_bits n ++ concat (units (take f l))))%nat) by (rewrite length_app; lia).
  rewrite Heom in *. destruct (Z.leb_spec 16384 n); cbn [andb] in *.
  2: { rewrite drop_ge, take_ge in * by lia. cbn [fmap list_fmap] in *. rewrite bool_decide_true in * by done.
       cbn [app length] in *. exists pd1. rewrite Z.add_0_r. done. }
  destruct (Z.eqb_spec n (length_fragment n)) as [Hall|Hmore].
  - rewrite drop_ge, take_ge in * by lia. cbn [fmap list_fmap] in *. rewrite bool_decide_true in * by done.
    rewrite app_nil_r in *. destruct fuel as [|fuel]; [pose proof (length_bits_ge 0); lia|].
    destruct (set_of_step fuel pd1 (set ++ (Some <$> l)) 0 [] rest) as (pd2 & -> & Hat2 & Hrd2);
      [lia|done|constructor|unfold bomb; by rewrite andb_false_r|exact Hat1|].
    cbn [Z.leb Z.compare fmap list_fmap units concat] in *. rewrite !app_nil_r in *. exists pd2.
    split_and!; [done|done|]. eapply pd_read_trans; [lia..|done|done].
  - assert (Hnn : per_bits <$> drop f l <> []).
    { intros Hnil%(f_equal length). rewrite length_fmap, length_drop in Hnil. cbn in Hnil. lia. }
    rewrite bool_decide_false in * by done. cbn [app] in *.
    destruct (IH fuel (drop f l) pd1 (set ++ (Some <$> take f l))) as (pd2 & -> & Hat2 & Hrd2).
    + by apply Forall_drop.
    + rewrite length_drop. lia.
    + unfold bomb in *. destruct (per_consumed =? 0); [|done]. cbn [andb] in *. apply Z.ltb_ge.
      rewrite length_drop. apply Z.ltb_ge in Hg. lia.
    + unfold units in *. lia.
    + exact Hat1.
    + exists pd2. rewrite <- app_assoc, <- fmap_app, take_drop. split_and!; [done|done|].
      eapply pd_read_trans; [lia..|done|done].
Qed.

Lemma set_of_bomb fuel fuel' l (pd : asn_per_data) set rest :
  Forall per_dom l -> (length l < fuel')%nat -> bomb (Z.of_nat (length l)) = true -> (0 < fuel)%nat ->
  pd_at pd (frag_bits fuel' (units l) ++ rest) ->
  exists set' pd', set_of_loop fuel (-1) pd set = Some (RC_FAIL, set', pd').
Proof.
  intros Hd Hf' Hg Hf Hat. destruct fuel' as [|fuel']; [lia|]. destruct fuel as [|fuel]; [lia|].
  cbn [frag_bits] in Hat. unfold units in Hat. rewrite length_fmap in Hat. set (n := Z.of_nat (length l)) in *.
  destruct (frag_step n) as (Hfr & Hpos & Hsmall & _); [lia|].
  rewrite <- fmap_take, <- !app_assoc in Hat. fold (units (take (Z.to_nat (length_fragment n)) l)) in Hat.
  unfold bomb in Hg. apply andb_true_iff in Hg as [Hc Hn]. apply Z.ltb_lt in Hn.
  assert (Hbig : 200 < length_fragment n) by (unfold length_fragment; zcase; Z.div_mod_to_equations; lia).
  assert (Hlen : Z.of_nat (length (take (Z.to_nat (length_fragment n)) l)) = length_fragment n)
    by (rewrite length_take; lia).
  destruct (uper_get_length_at pd n _ ltac:(lia) Hat) as (pd1 & Hl & Hat1 & _).
  cbn [set_of_loop]. zcase. rewrite Hl. cbn [mbind option_bind]. zcase.
  edestruct (get_elems_bomb (take (Z.to_nat (length_fragment n)) l) (length_fragment n) pd1 set)
    as (set' & pd' & Hr); [by apply Forall_take| |by unfold bomb; rewrite Hc; zcase|exact Hat1|].
  { intros Hnil. rewrite Hnil in Hlen. cbn in Hlen. lia. }
  replace (length (take _ l)) with (Z.to_nat (length_fragment n)) in Hr by lia. rewrite Hr.
  cbn [mbind option_bind]. rewrite decide_False by done. by do 2 eexists.
Qed.

(** ** Specification *)

Context (ct0 : option asn_per_constraint_t).

(** The constraint in force for [n] elements. *)
Definition remaining (n : Z) : option asn_per_constraint_t :=
  match ct0 with
  | Some c => if has_flag c APC_EXTENSIBLE && not_in_root c n then None else ct0
  | None => None
  end.

Definition extension_bits (n : Z) : list bool :=
  match ct0 with
  | Some c => if has_flag c APC_EXTENSIBLE then [not_in_root c n] else []
  | None => []
  end.

Definition body_bits (l : list T) : list bool :=
  let n := Z.of_nat (length l) in
  match remaining n with
  | Some c =>
    if 0 <=? effective_bits c
    then val_bits (Z.to_nat (effective_bits c)) (n - lower_bound c) ++ concat (units l)
    else frags (units l)
  | None => frags (units l)
  end.

Definition sequence_of_bits (l : list T) : list bool := extension_bits (Z.of_nat (length l)) ++ body_bits l.

(** The elements are encodable and the count, an int, is within a counted
    size constraint. *)
Definition sequence_of_dom (l : list T) : Prop :=
  let n := Z.of_nat (length l) in
  Forall per_dom l /\ n < 2 ^ 31 /\
  match remaining n with
  | Some c => 0 <= effective_bits c ->
    not_in_root c n = false /\ effective_bits c <= 31 /\ 0 <= n - lower_bound c < 2 ^ effective_bits c
  | None => True
  end.

(** The count and the loop, for SEQUENCE OF and SET OF. *)
Section PutBody.
Context {S : Type} `{HC : Consumer S} `{HA : !AppendConsumer S}.
Context {A : Type} (put : list A -> Z -> asn_bit_outp S -> option (option Z * asn_bit_outp S)).
Context (ok : A -> Prop) (bits : A -> list bool).
Hypothesis put_ok : forall l encoded po, Forall ok l -> encoded <> -1 -> po_wf po ->
  exists e, e <> -1 /\ put_res po (concat (bits <$> l)) (put l encoded po) (Some e).
Variables (l : list T) (els : list A).
Hypothesis els_ok : Forall ok els.
Hypothesis els_bits : bits <$> els = units l.

Definition after_count (r : Z + option asn_per_constraint_t) (po : asn_bit_outp S) : option (Z * asn_bit_outp S) :=
  match r with
  | inl encoded => Some (encoded, po)
  | inr ct => fragment_loop put (Datatypes.S (length els)) (counted ct) els 0 po
  end.

Lemma length_els : length els = length l.
Proof. rewrite <- (length_fmap bits els), els_bits. apply length_fmap. Qed.

Lemma put_uncounted_ok ct po : counted ct = false -> po_wf po ->
  exists e, e <> -1 /\ put_res po (frags (units l))
    ('(r, po) ← (if Z.of_nat (length l) =? 0 then '(rc, _, po) ← uper_put_length po 0;
        Some (inl (if negb (rc =? 0) then -1 else 0), po) else Some (inr ct, po));
     after_count r po) e.
Proof.
  intros Hc Hw. destruct (Z.eqb_spec (Z.of_nat (length l)) 0) as [H0|H0].
  - assert (l = []) as -> by (destruct l; [done|cbn in H0; lia]). exists 0. split; [done|].
    destruct (uper_put_length_ok po 0) as (po' & -> & ? & ?); [lia|done|]. by exists po'.
  - cbn [mbind option_bind after_count]. rewrite Hc.
    destruct (fragment_loop_fragments put ok bits put_ok (Datatypes.S (length els)) els 0 po els_ok
      ltac:(done) Hw ltac:(lia)) as (e & He & Hr).
    exists e. split; [done|]. rewrite bool_decide_false in Hr by (intros Hnil; apply H0; rewrite <- length_els, Hnil; done).
    unfold frags. unfold units at 1. rewrite length_fmap, <- els_bits, <- length_els. done.
Qed.

Lemma put_body_ok po : sequence_of_dom l -> po_wf po ->
  exists e, e <> -1 /\ put_res po (body_bits l)
    ('(r, po) ← put_count_header (Z.of_nat (length els)) (remaining (Z.of_nat (length l))) po;
     after_count r po) e.
Proof.
  intros (Hd & Hn & Hct) Hw. unfold body_bits. rewrite length_els. set (n := Z.of_nat (length l)) in *.
  destruct (remaining n) as [c|]; [|by apply put_uncounted_ok]. cbn [put_count_header].
  destruct (Z.leb_spec 0 (effective_bits c)) as [Hb|Hb];
    [|apply put_uncounted_ok; [cbn [counted]; by zcase|done]].
  destruct (Hct Hb) as (_ & H31 & Hfit).
  destruct (per_put_few_ok po (n - lower_bound c) (effective_bits c) Hw ltac:(lia)) as (po1 & -> & Hw1 & Hb1).
  cbn [mbind option_bind negb Z.eqb after_count counted]. zcase. rewrite <- els_bits.
  destruct (decide (els = [])) as [Hnil|Hne].
  - exists 0. split; [done|]. rewrite Hnil. cbn [length fragment_loop fmap list_fmap concat].
    rewrite bool_decide_true by done. exists po1. by rewrite app_nil_r.
  - destruct (fragment_loop_counted put ok bits put_ok els po1 (Datatypes.S (length els)) els_ok Hw1)
      as (e & He & po2 & -> & Hw2 & Hb2); [destruct els; [done|cbn; lia]|].
    exists e. split; [done|]. exists po2. split_and!; [done|done|]. by rewrite Hb2, Hb1, app_assoc.
Qed.

Lemma put_list_ok po : sequence_of_dom l -> po_wf po ->
  exists e, e <> -1 /\ put_res po (sequence_of_bits l)
    ('(r, po) ← put_count ct0 (Z.of_nat (length els)) po; after_count r po) e.
Proof.
  intros Hd Hw. unfold sequence_of_bits, put_count, extension_bits.
  pose proof (fun po => put_body_ok po Hd) as Hbody. rewrite length_els in *.
  unfold body_bits, remaining in *. destruct Hd as (_ & Hn & Hct). unfold remaining in Hct.
  set (n := Z.of_nat (length l)) in *.
  destruct ct0 as [c|]; [|by apply Hbody]. destruct (has_flag c APC_EXTENSIBLE) eqn:Ef; cbn [andb] in *.
  - destruct (per_put_few_ok po (Z.b2z (not_in_root c n)) 1 Hw ltac:(lia)) as (po1 & -> & Hw1 & Hb1).
    cbn [mbind option_bind negb Z.eqb].
    destruct (Hbody po1 Hw1) as (e & He & po2 & -> & Hw2 & Hb2).
    exists e. split; [done|]. exists po2. split_and!; [done|done|].
    rewrite Hb2, Hb1, <- app_assoc. do 2 f_equal. by destruct (not_in_root c n).
  - destruct (Z.leb_spec 0 (effective_bits c)) as [Hb|Hb].
    + destruct (Hct Hb) as (-> & _). cbn [andb]. by apply Hbody.
    + rewrite andb_false_r. by apply Hbody.
Qed.
End PutBody.

Lemma sequence_of_encode_ok {S} `{HC : Consumer S} `{HA : !AppendConsumer S} l (po : asn_bit_outp S) :
  sequence_of_dom l -> po_wf po ->
  exists e, e <> -1 /\ put_res po (sequence_of_bits l) (SEQUENCE_OF_encode_uper ct0 (Some <$> l) po) e.
Proof.
  intros Hd Hw. apply (put_list_ok put_elems ptr_ok ptr_bits); try done.
  - intros. by apply put_elems_ok.
  - apply ptrs_ok, Hd.
  - apply ptr_units.
Qed.

(** The fuel covers the fragments of any stream that holds them. *)
Lemma set_of_fuel_enough (pd : asn_per_data) bs rest : pd_at pd (bs ++ rest) ->
  (length bs <= 8 * set_of_fuel pd)%nat.
Proof.
  intros Hat. pose proof (pd_at_left _ _ Hat) as Hleft. rewrite length_app in Hleft.
  destruct Hat as ((Ho & Hn & _) & _). unfold set_of_fuel. unfold pd_left in Hleft. lia.
Qed.

Lemma frags_elements (pd : asn_per_data) l rest : Forall per_dom l -> pd_at pd (frags (units l) ++ rest) ->
  if bomb (Z.of_nat (length l)) then exists set' pd',
    set_of_loop (set_of_fuel pd) (-1) pd [] = Some (RC_FAIL, set', pd')
  else exists pd', set_of_loop (set_of_fuel pd) (-1) pd [] = Some (RC_OK, Some <$> l, pd') /\
    pd_at pd' rest /\ pd_read pd (Z.of_nat (length (frags (units l)))) pd'.
Proof.
  intros Hd Hat. pose proof (set_of_fuel_enough _ _ _ Hat) as Hfuel. unfold frags, units in *.
  rewrite length_fmap in *. destruct (bomb _) eqn:Eb.
  - apply (set_of_bomb _ (S (length l)) l _ _ rest); [done|lia|done|unfold set_of_fuel; lia|exact Hat].
  - apply (set_of_fragments (set_of_fuel pd) (S (length l)) l pd [] rest); [done|lia|done|exact Hfuel|exact Hat].
Qed.

Lemma counted_elements (pd : asn_per_data) l rest : Forall per_dom l ->
  pd_at pd (concat (units l) ++ rest) ->
  if bomb (Z.of_nat (length l)) then exists set' pd',
    set_of_loop (set_of_fuel pd) (Z.of_nat (length l)) pd [] = Some (RC_FAIL, set', pd')
  else exists pd', set_of_loop (set_of_fuel pd) (Z.of_nat (length l)) pd [] = Some (RC_OK, Some <$> l, pd') /\
    pd_at pd' rest /\ pd_read pd (Z.of_nat (length (concat (units l)))) pd'.
Proof.
  intros Hd Hat. unfold set_of_fuel. cbn [set_of_loop]. zcase. cbn [mbind option_bind]. zcase.
  rewrite Nat2Z.id. destruct (bomb _) eqn:Eb.
  - destruct (get_elems_bomb l (Z.of_nat (length l)) pd [] rest Hd) as (set' & pd' & ->); [|done|done|].
    { intros ->. unfold bomb in Eb. by rewrite andb_false_r in Eb. }
    cbn [mbind option_bind]. rewrite decide_False by done. by do 2 eexists.
  - destruct (get_elems_ok l (Z.of_nat (length l)) pd [] rest Hd Eb Hat) as (pd' & -> & ? & ?).
    cbn [mbind option_bind]. rewrite decide_True by done. by exists pd'.
Qed.

(** What decoding yields: the elements, or a refusal that depends on their
    number alone. *)
Definition decodes (pd : asn_per_data) (n : nat) rest l
    (r : option (asn_dec_rval_code * option (asn_anonymous_set_ T) * asn_per_data)) : Prop :=
  if bomb (Z.of_nat (length l)) then exists set' pd', r = Some (RC_FAIL, set', pd')
  else dec_res pd (Z.of_nat n) rest r (Some <$> l).

Lemma get_body_ok (pd : asn_per_data) l rest : sequence_of_dom l -> pd_at pd (body_bits l ++ rest) ->
  decodes pd (length (body_bits l)) rest l (SET_OF_decode_elements (remaining (Z.of_nat (length l))) pd).
Proof.
  intros (Hd & Hn & Hct) Hat. unfold body_bits, SET_OF_decode_elements, decodes in *.
  set (n := Z.of_nat (length l)) in *.
  assert (Hfrag : forall pd, pd_at pd (frags (units l) ++ rest) ->
    decodes pd (length (frags (units l))) rest l ('(nelems, pd) ← Some (Some (-1), pd);
      match nelems with
      | None => Some (RC_WMORE, Some [], pd)
      | Some nelems =>
        '(code, set, pd) ← set_of_loop (set_of_fuel pd) nelems pd []; Some (code, Some set, pd)
      end)).
  { intros pd1 Hat1. pose proof (frags_elements pd1 l rest Hd Hat1) as H. unfold decodes.
    cbn [mbind option_bind]. destruct (bomb _).
    - destruct H as (? & ? & ->). by do 2 eexists.
    - destruct H as (pd2 & -> & ? & ?). by exists pd2. }
  destruct (remaining n) as [c|]; [|by apply Hfrag].
  destruct (Z.leb_spec 0 (effective_bits c)) as [Hb|Hb]; [|by apply Hfrag].
  destruct (Hct Hb) as (_ & H31 & Hfit). rewrite <- app_assoc in Hat.
  destruct (per_get_few_at pd (effective_bits c) _ _ ltac:(lia) Hat) as (pd1 & -> & Hat1 & Hrd1).
  cbn [mbind option_bind]. rewrite Z.mod_small by done. zcase.
  rewrite Z.sub_add, chk_long_Some by (long_bounds; lia). cbn [mbind option_bind].
  pose proof (counted_elements pd1 l rest Hd Hat1) as Hel. fold n in Hel. destruct (bomb n).
  - destruct Hel as (? & ? & ->). by do 2 eexists.
  - destruct Hel as (pd2 & -> & Hat2 & Hrd2). exists pd2. split_and!; [done|done|].
    rewrite length_app, length_val_bits, Nat2Z.inj_add, Z2Nat.id by lia.
    eapply pd_read_trans; [lia..|done|done].
Qed.

Lemma sequence_of_decode_ok (pd : asn_per_data) l rest : sequence_of_dom l ->
  pd_at pd (sequence_of_bits l ++ rest) ->
  decodes pd (length (sequence_of_bits l)) rest l (SET_OF_decode_uper ct0 pd).
Proof.
  intros Hd Hat. pose proof (fun pd => get_body_ok pd l rest Hd) as Hbody. clear Hd.
  unfold SET_OF_decode_uper, sequence_of_bits, extension_bits, body_bits, remaining in *.
  set (n := Z.of_nat (length l)) in *.
  destruct ct0 as [c|]; [|by apply Hbody]. destruct (has_flag c APC_EXTENSIBLE); cbn [andb app] in *; [|by apply Hbody].
  destruct (get_bit pd _ _ Hat) as (pd1 & -> & Hat1 & Hrd1). cbn [mbind option_bind].
  specialize (Hbody pd1 Hat1). unfold decodes in *. fold n in Hbody |- *.
  replace (Z.b2z (not_in_root c n) <? 0) with false by (by destruct (not_in_root c n)).
  replace (negb (Z.b2z (not_in_root c n) =? 0)) with (not_in_root c n) by (by destruct (not_in_root c n)).
  destruct (bomb n); [done|]. destruct Hbody as (pd2 & -> & Hat2 & Hrd2). exists pd2.
  split_and!; [done|done|]. cbn [length]. rewrite Nat2Z.inj_succ, <- Z.add_1_l.
  eapply pd_read_trans; [lia..|done|done].
Qed.
End Spec.

(** ** Lemmas: writers do not look behind the callback *)

Section Natural.
Context {T : Type} `{P : PerType T} {S1 S2 : Type} {C1 : Consumer S1} {C2 : Consumer S2} (f : S1 -> S2).
Hypothesis Hf : consumer_morphism f.
Hypothesis enc_natural : forall enc, op_uper_encoder = Some enc ->
  forall po (t : T), enc S2 C2 t (po_map f po) = res_map f (enc S1 C1 t po).

Lemma put_elems_map (l : asn_anonymous_set_ T) encoded po :
  put_elems l encoded (po_map f po) = res_map f (put_elems l encoded po).
Proof.
  revert encoded po. induction l as [|[t|] l IH]; intros encoded po; cbn [put_elems]; [done| |done].
  pose proof enc_natural as Hn. destruct op_uper_encoder as [enc|]; [|done]. specialize (Hn enc eq_refl).
  cbn [mbind option_bind]. natural.
Qed.

Lemma sequence_of_loop_map fuel c (l : asn_anonymous_set_ T) encoded po :
  fragment_loop put_elems fuel c l encoded (po_map f po) = res_map f (fragment_loop put_elems fuel c l encoded po).
Proof.
  revert l encoded po. induction fuel as [|fuel IH]; intros l encoded po; [done|].
  cbn [fragment_loop]. pose proof put_elems_map. natural.
Qed.

Lemma put_count_header_map count ct po :
  put_count_header count ct (po_map f po) = res_map f (put_count_header count ct po).
Proof. unfold put_count_header. destruct ct as [c|]; natural. Qed.

Lemma put_count_map ct0 count po :
  put_count ct0 count (po_map f po) = res_map f (put_count ct0 count po).
Proof. unfold put_count. pose proof put_count_header_map. destruct ct0 as [c|]; natural. Qed.

Lemma sequence_of_map ct0 (l : asn_anonymous_set_ T) po :
  SEQUENCE_OF_encode_uper ct0 l (po_map f po) = res_map f (SEQUENCE_OF_encode_uper ct0 l po).
Proof.
  unfold SEQUENCE_OF_encode_uper. apply res_map_bind; [apply put_count_map|]. intros r po'. cbn beta iota.
  destruct r; [done|apply sequence_of_loop_map].
Qed.
End Natural.

(** A list type keeps the contract its element type keeps. *)
Definition sequence_of_laws {T} `{P : PerType T} `{L : !PerTypeLaws T} `{PC : !PerConsumed T} ct0 :
  @PerTypeLaws (asn_anonymous_set_ T) (SEQUENCE_OF_per ct0).
Proof.
  unshelve refine (@Build_PerTypeLaws _ (SEQUENCE_OF_per ct0)
    (fun t : list (option T) => exists l : list T, t = Some <$> l /\ sequence_of_dom ct0 l /\ bomb (T := T) (Z.of_nat (length l)) = false)
    (fun t : list (option T) => sequence_of_bits ct0 (omap id t)) _ _).
  - eexists. split; [reflexivity|]. split.
    + intros S C A po t (l & -> & Hd & _) Hw. rewrite omap_Some. by apply sequence_of_encode_ok.
    + intros S1 S2 C1 C2 f Hf po t. apply sequence_of_map; [done|]. intros enc He po' t'.
      destruct per_enc_law as (enc' & He' & _ & Hn). rewrite He in He'. injection He' as <-. by apply Hn.
  - eexists. split; [reflexivity|]. intros pd t rest (l & -> & Hd & Hb). rewrite omap_Some. intros Hat.
    pose proof (sequence_of_decode_ok ct0 pd l rest Hd Hat) as Hr. unfold decodes in Hr. by rewrite Hb in Hr.
Defined.

(** ** Properties *)

(** For every element type that keeps its codec's contract and every size
    constraint: encoding a list within the constraint emits the extension bit,
    the count (or length determinants and fragments) and the elements'
    encodings in order; decoding them, whatever follows, yields the same list
    and stops behind it, except that a list of more than 200 elements is
    refused when the element decoder reports 0 bits consumed, which the
    decoders of INTEGER, ENUMERATED and all constructed types do for every
    value. *)
Theorem sequence_of_uper_roundtrip {T} `{P : PerType T} `{L : !PerTypeLaws T} `{PC : !PerConsumed T}
    (ct0 : option asn_per_constraint_t) (l : list T) :
  sequence_of_dom ct0 l ->
  (forall S (C : Consumer S) (A : AppendConsumer S) (po : asn_bit_outp S), po_wf po ->
     exists e, e <> -1 /\ put_res po (sequence_of_bits ct0 l) (SEQUENCE_OF_encode_uper ct0 (Some <$> l) po) e) /\
  (forall pd rest, pd_at pd (sequence_of_bits ct0 l ++ rest) ->
     if (per_consumed =? 0) && (200 <? Z.of_nat (length l))
     then exists set pd', SET_OF_decode_uper ct0 pd = Some (RC_FAIL, set, pd')
     else dec_res pd (Z.of_nat (length (sequence_of_bits ct0 l))) rest (SET_OF_decode_uper ct0 pd) (Some <$> l)).
Proof.
  intros Hd. split.
  - intros S C A po Hw. by apply sequence_of_encode_ok.
  - intros pd rest Hat. apply (sequence_of_decode_ok ct0 pd l rest Hd Hat).
Qed.

(** SEQUENCE (SIZE(0..7, ...)) OF BOOLEAN with two elements, and with nine. *)
Definition size_0_7 : asn_per_constraint_t :=
  {| flags := 6; range_bits := 3; effective_bits := 3; lower_bound := 0; upper_bound := 7 |}.

Lemma nine_dom : sequence_of_dom (Some size_0_7) (replicate 9 {| bool_int := 1 |}).
Proof.
  split_and!; [|reflexivity|done]. apply Forall_replicate. by right.
Qed.

Lemma sequence_of_uper_roundtrip_witness :
  let yes := {| bool_int := 1 |} in let no := {| bool_int := 0 |} in
  (sequence_of_bits (Some size_0_7) [yes; no] = [false; false; true; false; true; false]) /\
  (forall S (C : Consumer S) (A : AppendConsumer S) (po : asn_bit_outp S), po_wf po ->
     exists e, e <> -1 /\
       put_res po (sequence_of_bits (Some size_0_7) (replicate 9 yes))
         (SEQUENCE_OF_encode_uper (Some size_0_7) (Some <$> replicate 9 yes) po) e) /\
  (forall pd rest, pd_at pd (sequence_of_bits (Some size_0_7) (replicate 9 yes) ++ rest) ->
     dec_res pd 18 rest (SET_OF_decode_uper (Some size_0_7) pd) (Some <$> replicate 9 yes)).
Proof.
  split; [reflexivity|].
  exact (sequence_of_uper_roundtrip (Some size_0_7) (replicate 9 {| bool_int := 1 |}) nine_dom).
Defined.
