(* ===== verification/SetOf.v ===== *)
(** * SET OF in canonical UPER (support/constr_SET_OF.c)

    The elements are encoded one by one, the encodings sorted and then
    written, so that the result does not depend on the order in which the
    application listed the elements.  qsort is the C library's: any function
    with its contract. *)
From stdpp Require Import sorting.
From S2P Require Import Prelude Outcome Consumer BitData PerSupport PerNatural PerCodec AsnInteger UperInteger.
From S2P Require Import OpenType SequenceOf.
#[local] Open Scope Z_scope.

(** ** qsort *)

(** The comparison may fail an assertion; qsort then fails with it. *)
Class Qsort := qsort : forall {A}, (A -> A -> option Z) -> list A -> option (list A).

(** C11 7.22.5.2: given a consistent comparison the result is the array in
    ascending order; the order of equal elements is unspecified. *)
Class QsortLaws `{Qsort} : Prop := qsort_sorts :
  forall A (cmp : A -> A -> option Z) (c : A -> A -> Z) (l : list A),
    (forall a b, a ∈ l -> b ∈ l -> cmp a b = Some (c a b)) ->
    (forall a b, Z.sgn (c a b) = - Z.sgn (c b a)) ->
    (forall x y z, c x y <= 0 -> c y z <= 0 -> c x z <= 0) ->
    exists l', qsort cmp l = Some l' /\ l' ≡ₚ l /\ StronglySorted (fun a b => c a b <= 0) l'.

(** ** Operations *)

(** struct _el_buffer *)
Record el_buffer := { el_buf : list Z; bits_unused : Z }.

Definition el_addbytes (d : list Z) (el : el_buffer) : Z * el_buffer :=
  (0, {| el_buf := el_buf el ++ d; bits_unused := bits_unused el |}).

#[export] Instance el_consumer : Consumer el_buffer := el_addbytes.
#[export] Instance el_append : AppendConsumer el_buffer.
Proof. by exists el_buf. Defined.

Definition assert_unused_bits (p : el_buffer) : bool :=
  match last (el_buf p) with
  | Some b => Z.land b (Z.lnot (255 ≪ bits_unused p)) =? 0
  | None => bits_unused p =? 0
  end.

(** memcmp looks at the common length; then the shorter one is smaller. *)
Definition el_order (a b : list Z) : Z :=
  let ret := memcmp a b in
  if ret =? 0 then
    if (length a <? length b)%nat then -1 else if (length b <? length a)%nat then 1 else 0
  else ret.

Definition el_buf_cmp (a b : el_buffer) : option Z :=
  let ret := memcmp (el_buf a) (el_buf b) in
  if ret =? 0 then
    if assert_unused_bits a && assert_unused_bits b then Some (el_order (el_buf a) (el_buf b)) else None
  else Some ret.

Section Operations.
Context {T : Type} `{P : PerType T} `{Q : Qsort} (ct0 : option asn_per_constraint_t).

(** The members' encodings; the inner [None] is the break out of the loop. *)
Fixpoint encode_members (l : asn_anonymous_set_ T) : option (option (list el_buffer)) :=
  match l with
  | [] => Some (Some [])
  | None :: _ => Some None
  | Some t :: l =>
    '(encoded, el) ← uper_encode t {| el_buf := []; bits_unused := 0 |};
    if negb (encoded =? -1) && negb (Z.of_nat (length (el_buf el)) =? (encoded + 7) / 8) then None else
    if encoded <? 0 then Some None else
    rest ← encode_members l;
    Some (fmap (M:=option) (cons {| el_buf := el_buf el; bits_unused := Z.land (8 - encoded mod 8) 7 |}) rest)
  end.

(** [None] inside is the null pointer returned on a failed member. *)
Definition SET_OF__encode_sorted (l : asn_anonymous_set_ T) : option (option (list el_buffer)) :=
  els ← encode_members l;
  match els with
  | None => Some None
  | Some els => sorted ← qsort el_buf_cmp els; Some (Some sorted)
  end.

Section Encode.
Context {S : Type} `{C : Consumer S}.
Implicit Types po : asn_bit_outp S.

(** The inner loop, left by a break when the stream refuses an element. *)
Fixpoint put_els (els : list el_buffer) (encoded : Z) po : option (option Z * asn_bit_outp S) :=
  match els with
  | [] => Some (Some encoded, po)
  | el :: els =>
    '(rc, po) ← asn_put_many_bits po (el_buf el) (8 * Z.of_nat (length (el_buf el)) - bits_unused el);
    if rc <? 0 then Some (Some encoded, po) else put_els els encoded po
  end.

(** The result of SET_OF__encode_sorted is dereferenced unchecked. *)
Definition SET_OF_encode_uper (l : asn_anonymous_set_ T) po : option (Z * asn_bit_outp S) :=
  '(r, po) ← put_count ct0 (Z.of_nat (length l)) po;
  match r with
  | inl encoded => Some (encoded, po)
  | inr ct =>
    encoded_els ← SET_OF__encode_sorted l;
    encoded_els ← encoded_els;
    fragment_loop put_els (Datatypes.S (length encoded_els)) (counted ct) encoded_els 0 po
  end.
End Encode.
End Operations.

(** ** Lemmas: the order on encodings *)

Lemma el_order_cons x a y b : el_order (x :: a) (y :: b) = if x =? y then el_order a b else x - y.
Proof. unfold el_order. cbn [memcmp length]. destruct (Z.eqb_spec x y); [done|]. by zcase. Qed.

Lemma el_order_anti a b : Z.sgn (el_order a b) = - Z.sgn (el_order b a).
Proof.
  revert b. induction a as [|x a IH]; intros [|y b]; try done.
  rewrite !el_order_cons, (Z.eqb_sym y x). destruct (Z.eqb_spec x y); [apply IH|].
  replace (x - y) with (- (y - x)) by lia. by rewrite Z.sgn_opp.
Qed.

Lemma el_order_trans a b c : el_order a b <= 0 -> el_order b c <= 0 -> el_order a c <= 0.
Proof.
  revert b c. induction a as [|x a IH]; intros [|y b] [|z c]; try done.
  rewrite !el_order_cons. zcases; try lia. by apply IH.
Qed.

Lemma el_order_eq a b : el_order a b <= 0 -> el_order b a <= 0 -> a = b.
Proof.
  revert b. induction a as [|x a IH]; intros [|y b]; try done.
  rewrite !el_order_cons, (Z.eqb_sym y x). destruct (Z.eqb_spec x y) as [->|]; [|lia].
  intros H1 H2. by rewrite (IH b).
Qed.

Lemma el_buf_cmp_order a b : assert_unused_bits a = true -> assert_unused_bits b = true ->
  el_buf_cmp a b = Some (el_order (el_buf a) (el_buf b)).
Proof.
  intros Ha Hb. unfold el_buf_cmp. rewrite Ha, Hb. cbn [andb]. unfold el_order.
  destruct (Z.eqb_spec (memcmp (el_buf a) (el_buf b)) 0); [done|]. done.
Qed.

(** ** Lemmas: an element's encoding *)

Definition unused_of (bs : list bool) : Z := - Z.of_nat (length bs) mod 8.

Lemma low_bits_zero b k : 0 <= b < 256 -> 0 <= k < 8 -> b mod 2 ^ k = 0 ->
  Z.land b (Z.lnot (255 ≪ k)) = 0.
Proof.
  intros Hb Hk Hm.
  assert (Hall : forallb (fun k => forallb (fun b => implb (b mod 2 ^ k =? 0)
    (Z.land b (Z.lnot (255 ≪ k)) =? 0)) (seqZ 0 256)) (seqZ 0 8) = true) by reflexivity.
  rewrite forallb_forall in Hall. specialize (Hall k). rewrite forallb_forall in Hall.
  specialize (Hall ltac:(apply list_elem_of_In, elem_of_seqZ; lia) b
    ltac:(apply list_elem_of_In, elem_of_seqZ; lia)).
  rewrite Hm in Hall. cbn in Hall. by apply Z.eqb_eq in Hall.
Qed.

Lemma octets_pad_unused bs :
  assert_unused_bits {| el_buf := padded_octets bs; bits_unused := unused_of bs |} = true.
Proof.
  destruct (padded_octets_ok bs) as [Hok Hb]. unfold assert_unused_bits. cbn [el_buf bits_unused].
  set (k := unused_of bs). assert (Hk : 0 <= k < 8) by (apply Z.mod_pos_bound; lia).
  destruct (last (padded_octets bs)) as [b|] eqn:El.
  - apply last_Some in El as [l0 El]. rewrite El in Hok, Hb. apply Forall_app in Hok as [_ Hbok].
    apply Forall_cons in Hbok as [Hbok _]. rewrite bytes_bits_app, bytes_bits_cons, app_nil_r in Hb.
    apply Z.eqb_eq, low_bits_zero; [exact Hbok|done|].
    apply (f_equal (drop (length bs))) in Hb. unfold pad8 in Hb. rewrite drop_app_length in Hb.
    assert (Hlen : (length bs + Z.to_nat k = 8 * length l0 + 8)%nat).
    { apply (f_equal length) in El. assert (Hl := length_pad8 bs). unfold pad8 in Hl.
      rewrite length_app, length_replicate in Hl. fold (unused_of bs) in Hl. fold k in Hl.
      unfold padded_octets in El. rewrite length_be_bytes, length_app in El. cbn [length] in El. lia. }
    rewrite drop_app_ge in Hb by (rewrite length_bytes_bits; lia). rewrite length_bytes_bits in Hb.
    replace (length bs - 8 * length l0)%nat with (8 - Z.to_nat k)%nat in Hb by lia.
    unfold byte_bits in Hb. rewrite drop_val_bits in Hb by lia.
    replace (8 - (8 - Z.to_nat k))%nat with (Z.to_nat k) in Hb by lia.
    fold (unused_of bs) in Hb. fold k in Hb. rewrite <- val_bits_0 in Hb.
    apply (f_equal bits_val) in Hb. rewrite !bits_val_val_bits, Z2Nat.id in Hb by lia.
    rewrite Hb. by rewrite Z.mod_0_l by (pose proof (pow2_pos k); lia).
  - apply last_None in El. apply (f_equal length) in El. unfold padded_octets in El.
    rewrite length_be_bytes in El. cbn in El. apply Z.eqb_eq. unfold k, unused_of, octets_of in *.
    Z.div_mod_to_equations; lia.
Qed.

Section Elements.
Context {T : Type} `{P : PerType T} `{L : !PerTypeLaws T}.

(** The buffer that holds an element's encoding. *)
Definition el_of (t : T) : el_buffer :=
  {| el_buf := padded_octets (per_bits t); bits_unused := unused_of (per_bits t) |}.

Lemma encode_members_ok (l : list T) : Forall per_dom l -> encode_members (Some <$> l) = Some (Some (el_of <$> l)).
Proof.
  induction 1 as [|t l Ht Hl IH]; [done|]. cbn [fmap list_fmap encode_members].
  destruct (uper_encode_ok t {| el_buf := []; bits_unused := 0 |} Ht) as (key & -> & Hok & Hb); [done|].
  cbn [mbind option_bind]. cbn [written el_append] in Hok, Hb.
  rewrite (octets_of_pad8 _ _ Hb). fold (octets_of (per_bits t)). rewrite Z.eqb_refl, andb_false_r. zcase.
  unfold asn_anonymous_set_ in IH. rewrite IH. cbn [mbind option_bind fmap option_fmap option_map].
  do 3 f_equal. unfold el_of. f_equal; [by apply padded_octets_eq|].
  unfold unused_of. change 7 with (2 ^ 3 - 1). rewrite land_ones_mod by lia. change (2 ^ 3) with 8.
  Z.div_mod_to_equations; lia.
Qed.

(** Two elements with the same octets are the same: the decoder reads both. *)
Lemma el_of_inj a b : per_dom a -> per_dom b -> el_buf (el_of a) = el_buf (el_of b) -> a = b.
Proof.
  intros Ha Hb He. cbn [el_of el_buf] in He.
  destruct (padded_octets_ok (per_bits a)) as [Hok Hba]. destruct (padded_octets_ok (per_bits b)) as [_ Hbb].
  rewrite <- He in Hbb. pose proof (uper_decode_ok a _ Ha Hok Hba) as H1.
  rewrite (uper_decode_ok b _ Hb Hok Hbb) in H1. by injection H1.
Qed.

Definition el_le (a b : T) : Prop := el_order (padded_octets (per_bits a)) (padded_octets (per_bits b)) <= 0.

(** Sorting the encodings of any arrangement of the elements gives the same. *)
Lemma encode_sorted_ok `{QL : QsortLaws} (l : list T) : Forall per_dom l -> exists l', l' ≡ₚ l /\ StronglySorted el_le l' /\
  SET_OF__encode_sorted (Some <$> l) = Some (Some (el_of <$> l')).
Proof.
  intros Hd. unfold SET_OF__encode_sorted. rewrite encode_members_ok by done. cbn [mbind option_bind].
  destruct (qsort_sorts _ el_buf_cmp (fun a b => el_order (el_buf a) (el_buf b)) (el_of <$> l))
    as (els & -> & Hp & Hs).
  - intros a b (ta & -> & _)%list_elem_of_fmap (tb & -> & _)%list_elem_of_fmap.
    apply el_buf_cmp_order; apply octets_pad_unused.
  - intros a b. apply el_order_anti.
  - intros x y z. apply el_order_trans.
  - apply Permutation_map_inv in Hp as (l' & -> & Hp). exists l'. split_and!; [by symmetry| |done].
    clear -Hs. induction l' as [|t l' IH]; [constructor|]. inversion Hs as [|? ? Hs' Hall]; subst.
    constructor; [by apply IH|]. by apply (Forall_fmap el_of) in Hall.
Qed.

Lemma sorted_unique l1 l2 : Forall per_dom l1 -> l1 ≡ₚ l2 -> StronglySorted el_le l1 ->
  StronglySorted el_le l2 -> l1 = l2.
Proof.
  intros Hd Hp H1 H2. apply (StronglySorted_unique_strong el_le); [|done..].
  intros x y Hx Hy Hxy Hyx. rewrite Forall_forall in Hd.
  apply el_of_inj; [by apply Hd|apply Hd; by rewrite Hp|]. by apply el_order_eq.
Qed.

Definition el_ok (el : el_buffer) : Prop :=
  bytes_ok (el_buf el) /\ 0 <= bits_unused el <= 8 * Z.of_nat (length (el_buf el)).
Definition el_bits (el : el_buffer) : list bool :=
  take (Z.to_nat (8 * Z.of_nat (length (el_buf el)) - bits_unused el)) (bytes_bits (el_buf el)).

Lemma octets_unused bs : 8 * octets_of bs - unused_of bs = Z.of_nat (length bs) /\ 0 <= unused_of bs < 8.
Proof. unfold octets_of, unused_of. Z.div_mod_to_equations; lia. Qed.

Lemma el_of_ok t : el_ok (el_of t).
Proof.
  destruct (octets_unused (per_bits t)). split; cbn [el_of el_buf bits_unused]; [apply padded_octets_ok|].
  rewrite length_padded_octets. lia.
Qed.

Lemma el_of_bits t : el_bits (el_of t) = per_bits t.
Proof.
  unfold el_bits, el_of. cbn [el_buf bits_unused]. destruct (padded_octets_ok (per_bits t)) as [_ ->].
  rewrite length_padded_octets, (proj1 (octets_unused _)), Nat2Z.id. unfold pad8. apply take_app_length.
Qed.

Lemma put_els_ok {S} `{HC : Consumer S} `{HA : !AppendConsumer S} els encoded (po : asn_bit_outp S) :
  Forall el_ok els -> encoded <> -1 -> po_wf po ->
  exists e, e <> -1 /\ put_res po (concat (el_bits <$> els)) (put_els els encoded po) (Some e).
Proof.
  intros Hok He. revert po. induction Hok as [|el els [Hb Hu] Hok IH]; intros po Hw; cbn [put_els fmap list_fmap concat].
  { exists encoded. split; [done|]. by apply put_res_ret. }
  destruct (put_many_ok po (el_buf el) (8 * Z.of_nat (length (el_buf el)) - bits_unused el))
    as (po1 & -> & Hw1 & Hb1); [done|done|lia|].
  cbn [mbind option_bind Z.ltb Z.compare]. destruct (IH po1 Hw1) as (e & Hne & po2 & -> & Hw2 & Hb2).
  exists e. split; [done|]. exists po2. split_and!; [done|done|]. by rewrite Hb2, Hb1, app_assoc.
Qed.

Lemma set_of_encode_ok `{QL : QsortLaws} {S} `{HC : Consumer S} `{HA : !AppendConsumer S} ct0 (l l' : list T)
    (po : asn_bit_outp S) :
  sequence_of_dom ct0 l' -> l' ≡ₚ l -> SET_OF__encode_sorted (Some <$> l) = Some (Some (el_of <$> l')) ->
  po_wf po ->
  exists e, e <> -1 /\ put_res po (sequence_of_bits ct0 l') (SET_OF_encode_uper ct0 (Some <$> l) po) e.
Proof.
  intros Hd Hp Hs Hw. unfold SET_OF_encode_uper. rewrite Hs, length_fmap, <- (Permutation_length Hp), <- (length_fmap el_of l').
  apply (put_list_ok ct0 put_els el_ok el_bits); try done.
  - intros. by apply put_els_ok.
  - apply Forall_fmap, Forall_forall. intros t _. apply el_of_ok.
  - rewrite <- list_fmap_compose. unfold units. apply list_fmap_ext. intros i t _. apply el_of_bits.
Qed.

Lemma sequence_of_dom_perm ct0 (l l' : list T) : l ≡ₚ l' -> sequence_of_dom ct0 l -> sequence_of_dom ct0 l'.
Proof.
  intros Hp (Hd & Hn & Hct). unfold sequence_of_dom. rewrite <- (Permutation_length Hp).
  split_and!; [by rewrite <- Hp|done|done].
Qed.
End Elements.

(** ** An implementation of qsort *)

Fixpoint insert_sorted {A} (cmp : A -> A -> option Z) (x : A) (l : list A) : option (list A) :=
  match l with
  | [] => Some [x]
  | y :: r =>
    v ← cmp x y;
    if v <=? 0 then Some (x :: y :: r) else r ← insert_sorted cmp x r; Some (y :: r)
  end.

#[local] Instance insertion_sort : Qsort := fun A cmp l =>
  foldr (fun x r => r ← r; insert_sorted cmp x r) (Some []) l.

Lemma insert_sorted_ok {A} (cmp : A -> A -> option Z) (c : A -> A -> Z) x l :
  (forall b, b ∈ l -> cmp x b = Some (c x b)) -> (forall a b, Z.sgn (c a b) = - Z.sgn (c b a)) ->
  (forall x y z, c x y <= 0 -> c y z <= 0 -> c x z <= 0) ->
  StronglySorted (fun a b => c a b <= 0) l ->
  exists l', insert_sorted cmp x l = Some l' /\ l' ≡ₚ x :: l /\ StronglySorted (fun a b => c a b <= 0) l'.
Proof.
  intros Hc Ha Ht Hs. induction Hs as [|y r Hs IH Hall]; cbn [insert_sorted].
  { exists [x]. split_and!; [done|done|]. repeat constructor. }
  rewrite Hc by set_solver. cbn [mbind option_bind]. destruct (Z.leb_spec (c x y) 0).
  - eexists. split_and!; [done|done|]. constructor; [by constructor|]. constructor; [done|].
    eapply Forall_impl; [exact Hall|]. intros z Hz. by apply (Ht x y z).
  - destruct IH as (l' & -> & Hp & Hs'); [set_solver|]. cbn [mbind option_bind].
    eexists. split_and!; [done| |].
    + rewrite Hp. apply Permutation_swap.
    + constructor; [done|]. rewrite Hp. constructor; [|done]. pose proof (Ha x y). lia.
Qed.

#[local] Instance insertion_sort_laws : QsortLaws.
Proof.
  intros A cmp c l Hc Ha Ht. induction l as [|x l IH].
  { exists []. split_and!; [done|done|constructor]. }
  destruct IH as (l1 & H1 & Hp1 & Hs1); [intros; apply Hc; set_solver|].
  destruct (insert_sorted_ok cmp c x l1) as (l2 & H2 & Hp2 & Hs2); try done.
  { intros b Hb. apply Hc; [set_solver|]. apply list_elem_of_further. by rewrite <- Hp1. }
  exists l2. split_and!; [|by rewrite Hp2, Hp1|done].
  unfold qsort, insertion_sort in *. cbn [foldr]. rewrite H1. exact H2.
Qed.

(** ** Properties *)

(** C32: The canonical encoding of a SET OF depends on the elements alone: for
    every list within the size constraint there is one arrangement, ascending
    in the octets of the elements' encodings, such that every permutation of
    the list is encoded as that arrangement, with whatever qsort the C library
    has; decoding yields that arrangement. *)
Theorem set_of_uper_canonical {T} `{P : PerType T} `{L : !PerTypeLaws T} `{PC : !PerConsumed T}
    `{QL : QsortLaws} (ct0 : option asn_per_constraint_t) (l : list T) :
  sequence_of_dom ct0 l ->
  exists sorted : list T, sorted ≡ₚ l /\ StronglySorted el_le sorted /\
    (forall l2 : list T, l2 ≡ₚ l ->
       forall S (C : Consumer S) (A : AppendConsumer S) (po : asn_bit_outp S), po_wf po ->
       exists e, e <> -1 /\
         put_res po (sequence_of_bits ct0 sorted) (SET_OF_encode_uper ct0 (Some <$> l2) po) e) /\
    (forall pd rest, (per_consumed =? 0) && (200 <? Z.of_nat (length l)) = false ->
       pd_at pd (sequence_of_bits ct0 sorted ++ rest) ->
       dec_res pd (Z.of_nat (length (sequence_of_bits ct0 sorted))) rest
         (SET_OF_decode_uper ct0 pd) (Some <$> sorted)).
Proof.
  intros Hd. destruct (encode_sorted_ok l (proj1 Hd)) as (sorted & Hp & Hs & Henc).
  assert (Hds : sequence_of_dom ct0 sorted) by (by apply (sequence_of_dom_perm ct0 l)).
  exists sorted. split_and!; [done|done| |].
  - intros l2 Hp2 S C A po Hw.
    assert (Hd2 : Forall per_dom l2) by (rewrite Hp2; apply Hd).
    destruct (encode_sorted_ok l2 Hd2) as (sorted2 & Hp2' & Hs2 & Henc2).
    assert (sorted2 = sorted) as -> by
      (apply sorted_unique; [by rewrite Hp2'|by rewrite Hp2', Hp2, Hp|done|done]).
    by apply set_of_encode_ok.
  - intros pd rest Hb Hat. pose proof (sequence_of_decode_ok ct0 pd sorted rest Hds Hat) as Hr.
    unfold decodes, bomb in Hr. by rewrite (Permutation_length Hp), Hb in Hr.
Qed.

Lemma set_of_uper_canonical_witness :
  let yes := {| bool_int := 1 |} in let no := {| bool_int := 0 |} in
  exists sorted : list BOOLEAN_t, sorted ≡ₚ [yes; no; yes] /\ StronglySorted el_le sorted /\
    (forall l2 : list BOOLEAN_t, l2 ≡ₚ [yes; no; yes] ->
       forall S (C : Consumer S) (A : AppendConsumer S) (po : asn_bit_outp S), po_wf po ->
       exists e, e <> -1 /\
         put_res po (sequence_of_bits None sorted) (SET_OF_encode_uper None (Some <$> l2) po) e) /\
    (forall pd rest, (1 =? 0) && (200 <? 3) = false ->
       pd_at pd (sequence_of_bits None sorted ++ rest) ->
       dec_res pd (Z.of_nat (length (sequence_of_bits None sorted))) rest
         (SET_OF_decode_uper None pd) (Some <$> sorted)).
Proof.
  apply (set_of_uper_canonical None [{| bool_int := 1 |}; {| bool_int := 0 |}; {| bool_int := 1 |}]).
  split_and!; [|reflexivity|done].
  repeat (apply List.Forall_cons; [by (left + right)|]). apply List.Forall_nil.
Defined.

(** A missing member: the null result of SET_OF__encode_sorted is
    dereferenced. *)
Example set_of_null_member :
  SET_OF_encode_uper (T := BOOLEAN_t) None [None] (po_of_key {| bb_bytes := [] |}) = None.
Proof. reflexivity. Qed.
