(* ===== verification/Oer.v ===== *)
(** * Octet encoding rules (support/oer_support.c, oer_encoder.c,
    oer_decoder.c, BOOLEAN.c, INTEGER_oer.c, NativeInteger_oer.c,
    NativeEnumerated_oer.c, OCTET_STRING_oer.c)

    Encodings in whole octets.  An encoder hands its octets to a callback and
    returns their number or -1; a decoder reads the octets it is given.  The
    outer [option] is [None] when C would read outside them or an assertion
    would fail.  [OerType] is what a type descriptor contributes and
    [OerTypeLaws] the contract its codec must keep. *)
From S2P Require Import Prelude Consumer PerNatural PerCodec AsnInteger UperInteger.

(** ** Length determinants *)

Fixpoint drop_zeros (l : list Z) : list Z :=
  match l with
  | b :: r => if b =? 0 then drop_zeros r else l
  | [] => []
  end.

Definition RSIZE_MAX := ULONG_MAX ≫ 1.

(** Return value and [*len_r]. *)
Definition oer_fetch_length (buf : list Z) : Z * Z :=
  match buf with
  | [] => (0, 0)
  | first_byte :: rest =>
    if Z.land first_byte 128 =? 0 then (1, first_byte) else
    let len_len := Z.land first_byte 127 in
    if Z.of_nat (length buf) <? 1 + len_len then (0, 0) else
    let b := drop_zeros (take (Z.to_nat len_len) rest) in
    if 8 <? Z.of_nat (length b) then (-1, 0) else
    let len := foldl (fun len b => u64 (u64 (len ≪ 8) + b)) 0 b in
    if RSIZE_MAX <? len then (-1, 0) else (len_len + 1, len)
  end.

Section Support.
Context {S : Type} `{Consumer S}.

(** The size_t [length] is the octets of [be_bytes 8]; at least the last one
    is kept. *)
Definition oer_serialize_length (length_ : Z) (key : S) : Z * S :=
  if length_ <=? 127 then
    let '(rc, key) := consume [u8 length_] key in (if rc <? 0 then -1 else 1, key)
  else
    let p := drop_zeros (be_bytes 8 length_) in
    let scratch := u8 (128 + Z.of_nat (length p)) :: p in
    let '(rc, key) := consume scratch key in
    (if rc <? 0 then -1 else Z.of_nat (length scratch), key).
End Support.

(** ** Type descriptors *)

(** An encoder returns [er.encoded], a decoder its code, the octets consumed
    and the structure. *)
Class OerType (T : Type) := {
  oer_encoder : forall S, Consumer S -> T -> S -> option (Z * S);
  oer_decoder : list Z -> option (asn_dec_rval_code * Z * option T)
}.

Class OerTypeLaws (T : Type) `{OerType T} := {
  oer_dom : T -> Prop;
  oer_octets : T -> list Z;
  oer_octets_ok : forall t, oer_dom t -> bytes_ok (oer_octets t);
  oer_enc_law : forall S (C : Consumer S) (A : AppendConsumer S) t (key : S), oer_dom t ->
    exists key', oer_encoder S C t key = Some (Z.of_nat (length (oer_octets t)), key') /\
      written key' = written key ++ oer_octets t;
  oer_enc_nat : forall S1 S2 (C1 : Consumer S1) (C2 : Consumer S2) (f : S1 -> S2), consumer_morphism f ->
    forall t key, oer_encoder S2 C2 t (f key) =
      '(r, key) ← oer_encoder S1 C1 t key; Some (r, f key);
  oer_dec_law : forall t rest, oer_dom t ->
    oer_decoder (oer_octets t ++ rest) = Some (RC_OK, Z.of_nat (length (oer_octets t)), Some t)
}.

(** oer__count_bytes: the key is a byte count. *)
Record byte_count := { bytes : Z }.
Definition oer__count_bytes (d : list Z) (key : byte_count) : Z * byte_count :=
  (0, {| bytes := bytes key + Z.of_nat (length d) |}).
#[export] Instance count_bytes_consumer : Consumer byte_count := oer__count_bytes.

Section OpenType.
Context {T : Type} `{OerType T}.

Definition oer_encode {S} `{Consumer S} (t : T) (key : S) : option (Z * S) := oer_encoder S _ t key.
Definition oer_decode (buf : list Z) := oer_decoder buf.

(** er.encoded and the octets stored; the assertion compares them. *)
Definition oer_encode_to_buffer (t : T) (buffer_size : Z) : option (Z * list Z) :=
  '(encoded, arg) ← oer_encode t {| etb_stored := []; etb_left := buffer_size |};
  if negb (encoded =? -1) && negb (encoded =? buffer_size - etb_left arg) then None
  else Some (encoded, etb_stored arg).

Definition oer_open_type_put {S} `{Consumer S} (t : T) (key : S) : option (Z * S) :=
  '(encoded, count) ← oer_encode t {| bytes := 0 |};
  if encoded <? 0 then Some (-1, key) else
  if negb (bytes count =? encoded) then None else
  let '(len_len, key) := oer_serialize_length (bytes count) key in
  if len_len =? -1 then Some (-1, key) else
  '(encoded, key) ← oer_encode t key;
  if encoded <? 0 then Some (-1, key) else
  if negb (bytes count =? encoded) then None else Some (len_len + encoded, key).

(** Return value and the structure. *)
Definition open_type_get {X} (decode : list Z -> option (asn_dec_rval_code * Z * option X)) (buf : list Z) :
    option (Z * option X) :=
  let '(len_len, container_len) := oer_fetch_length buf in
  if len_len <=? 0 then Some (len_len, None) else
  if Z.of_nat (length buf) - len_len <? container_len then Some (0, None) else
  '(code, _, st) ← decode (take (Z.to_nat container_len) (drop (Z.to_nat len_len) buf));
  Some (if decide (code = RC_OK) then (len_len + container_len, st) else (-1, None)).

Definition oer_open_type_get (buf : list Z) : option (Z * option T) := open_type_get oer_decode buf.
End OpenType.

Definition oer_open_type_skip (buf : list Z) : Z := (oer_fetch_length buf).1.

(** ** Primitive types *)

Section Primitive.
Context {S : Type} `{Consumer S}.

Definition oer_encode_primitive (st : INTEGER_t) (key : S) : Z * S :=
  let '(ret, key) := oer_serialize_length (Z.of_nat (length (i_bytes st))) key in
  if ret <? 0 then (-1, key) else
  let '(rc, key) := consume (i_bytes st) key in
  (if rc <? 0 then -1 else ret + Z.of_nat (length (i_bytes st)), key).

Definition BOOLEAN_encode_oer (st : BOOLEAN_t) (key : S) : Z * S :=
  let '(rc, key) := consume [if negb (bool_int st =? 0) then 255 else 0] key in
  (if rc <? 0 then -1 else 1, key).
End Primitive.

Definition oer_decode_primitive (buf : list Z) : asn_dec_rval_code * Z * option INTEGER_t :=
  let '(len_len, expected_length) := oer_fetch_length buf in
  if len_len =? 0 then (RC_WMORE, 0, None)
  else if len_len <? 0 then (RC_FAIL, 0, None)
  else
    let ptr := drop (Z.to_nat len_len) buf in
    if Z.of_nat (length ptr) <? expected_length then (RC_WMORE, 0, None)
    else (RC_OK, len_len + expected_length, Some (of_bytes (take (Z.to_nat expected_length) ptr))).

Definition BOOLEAN_decode_oer (buf : list Z) : asn_dec_rval_code * Z * option BOOLEAN_t :=
  match buf with
  | [] => (RC_WMORE, 0, None)
  | b :: _ => (RC_OK, 1, Some {| bool_int := b |})
  end.

#[export] Instance BOOLEAN_oer : OerType BOOLEAN_t := {|
  oer_encoder S C st key := Some (BOOLEAN_encode_oer st key);
  oer_decoder buf := Some (BOOLEAN_decode_oer buf)
|}.

(** ** INTEGER *)

Record asn_oer_constraint_number_t := { width : Z; positive : bool }.

(** The constraint is the argument's, the type's own, or { 0, 0 }. *)
Definition INTEGER_decode_oer (ct : asn_oer_constraint_number_t) (buf : list Z) :
    option (asn_dec_rval_code * Z * option INTEGER_t) :=
  let '(consumed, req_bytes) :=
    if negb (width ct =? 0) then (0, width ct) else oer_fetch_length buf in
  if (width ct =? 0) && (consumed =? 0) then Some (RC_WMORE, 0, None)
  else if (width ct =? 0) && (consumed =? -1) then Some (RC_FAIL, 0, None)
  else
    let ptr := drop (Z.to_nat consumed) buf in
    if Z.of_nat (length ptr) <? req_bytes then Some (RC_WMORE, 0, None)
    else if positive ct then
      b ← read ptr 0;
      let msb := b ≫ 7 in
      Some (RC_OK, consumed + req_bytes,
        Some (of_bytes (replicate (Z.to_nat msb) 0 ++ take (Z.to_nat req_bytes) ptr)))
    else Some (RC_OK, consumed + req_bytes, Some (of_bytes (take (Z.to_nat req_bytes) ptr))).

(** for(; buf + 1 < end; buf++) if(buf[0] != 0x0) break; *)
Fixpoint skip_zeros_but_last (l : list Z) : list Z :=
  match l with
  | b :: ((_ :: _) as r) => if b =? 0 then skip_zeros_but_last r else l
  | _ => l
  end.

Section IntegerEncode.
Context {S : Type} `{Consumer S}.

(** for(; req_bytes > useful_bytes; req_bytes--) cb(sign ? "\xff" : "\0", 1, app_key) *)
Fixpoint pad_octets (n : nat) (pad : Z) (key : S) : bool * S :=
  match n with
  | O => (true, key)
  | Datatypes.S n =>
    let '(rc, key) := consume [pad] key in
    if rc <? 0 then (false, key) else pad_octets n pad key
  end.

Definition INTEGER_encode_oer (ct : asn_oer_constraint_number_t) (st : INTEGER_t) (key : S) : Z * S :=
  match i_bytes st with
  | [] => (-1, key)
  | b :: _ =>
    let sign := negb (Z.land b 128 =? 0) in
    if positive ct && sign then (-1, key) else
    let buf := if positive ct then skip_zeros_but_last (i_bytes st) else skip_superfluous (i_bytes st) in
    let useful_bytes := Z.of_nat (length buf) in
    let '(r, key) := if negb (width ct =? 0) then (0, key) else oer_serialize_length useful_bytes key in
    if r <? 0 then (-1, key) else
    let req_bytes := if negb (width ct =? 0) then width ct else useful_bytes in
    if req_bytes <? useful_bytes then (-1, key) else
    let '(ok, key) := pad_octets (Z.to_nat (req_bytes - useful_bytes)) (if sign then 255 else 0) key in
    if negb ok then (-1, key) else
    let '(rc, key) := consume buf key in
    (if rc <? 0 then -1 else r + req_bytes, key)
  end.

Definition NativeInteger_encode_oer (specs : option asn_INTEGER_specifics_t)
    (ct : asn_oer_constraint_number_t) (native : Z) (key : S) : Z * S :=
  let tmpint := if is_unsigned specs then asn_ulong2INTEGER (u64 native) else asn_long2INTEGER native in
  INTEGER_encode_oer ct tmpint key.
End IntegerEncode.

Definition NativeInteger_decode_oer (specs : option asn_INTEGER_specifics_t)
    (ct : asn_oer_constraint_number_t) (buf : list Z) : option (asn_dec_rval_code * Z * option Z) :=
  '(code, consumed, tmpint) ← INTEGER_decode_oer ct buf;
  match tmpint with
  | Some tmpint =>
    if decide (code = RC_OK) then
      r ← (if is_unsigned specs then Some (asn_INTEGER2ulong tmpint) else asn_INTEGER2long tmpint);
      Some match r with
           | Conv_OK v => (RC_OK, consumed, Some (s64 v))
           | _ => (RC_FAIL, consumed, None)
           end
    else Some (code, consumed, None)
  | None => Some (code, consumed, None)
  end.

Definition NativeInteger_oer (specs : option asn_INTEGER_specifics_t)
    (ct : asn_oer_constraint_number_t) : OerType Z := {|
  oer_encoder S C n key := Some (NativeInteger_encode_oer specs ct n key);
  oer_decoder := NativeInteger_decode_oer specs ct
|}.

(** ** ENUMERATED *)

(** Two's complement octets to a long. *)
Definition asn__nativeenumerated_convert (l : list Z) : option Z := asn__integer_convert l.

Definition NativeEnumerated_decode_oer (specs : option asn_INTEGER_specifics_t) (buf : list Z) :
    option (asn_dec_rval_code * Z * option Z) :=
  match buf with
  | [] => Some (RC_WMORE, 0, None)
  | b :: rest =>
    if Z.land b 128 =? 0 then Some (RC_OK, 1, Some b) else
    let length_ := Z.land b 127 in
    if (length_ <? 1) || (8 <? length_) then Some (RC_FAIL, 0, None)
    else if Z.of_nat (length buf) <? 1 + length_ then Some (RC_WMORE, 0, None)
    else
      value ← asn__nativeenumerated_convert (take (Z.to_nat length_) rest);
      if (value <? 0) && is_unsigned specs then Some (RC_FAIL, 0, None)
      else Some (RC_OK, 1 + length_, Some value)
  end.

(** The for(;;) loop: octets from the least significant on, each stored in
    front of the others; eight fit the buffer. *)
Fixpoint enum_octets (fuel : nat) (native final_pattern : Z) (b : list Z) : option (list Z) :=
  match fuel with
  | O => None
  | S fuel =>
    let octet := u8 native in
    let native := native ≫ 8 in
    if (native =? final_pattern) &&
       Bool.eqb (negb (final_pattern =? 0)) (negb (Z.land octet 128 =? 0))
    then Some (octet :: b)
    else enum_octets fuel native final_pattern (octet :: b)
  end.

Definition NativeEnumerated_encode_oer {S} `{Consumer S} (native : Z) (key : S) : option (Z * S) :=
  if (0 <=? native) && (native <=? 127) then
    let '(rc, key) := consume [u8 native] key in Some (if rc <? 0 then -1 else 1, key)
  else
    b ← enum_octets 8 native (-1 * Z.b2z (native <? 0)) [];
    let out := u8 (Z.lor 128 (Z.of_nat (length b))) :: b in
    let '(rc, key) := consume out key in
    Some (if rc <? 0 then -1 else 1 + Z.of_nat (length b), key).

Definition NativeEnumerated_oer (specs : option asn_INTEGER_specifics_t) : OerType Z := {|
  oer_encoder S C n key := NativeEnumerated_encode_oer n key;
  oer_decoder := NativeEnumerated_decode_oer specs
|}.

(** ** OCTET STRING *)

Inductive asn_OS_Subvariant := ASN_OSUBV_ANY | ASN_OSUBV_BIT | ASN_OSUBV_STR | ASN_OSUBV_U16 | ASN_OSUBV_U32.

(** Octets per character, none for a BIT STRING. *)
Definition unit_bytes (subvariant : asn_OS_Subvariant) : option Z :=
  match subvariant with
  | ASN_OSUBV_BIT => None
  | ASN_OSUBV_ANY | ASN_OSUBV_STR => Some 1
  | ASN_OSUBV_U16 => Some 2
  | ASN_OSUBV_U32 => Some 4
  end.

Record OCTET_STRING_t := { os_buf : list Z }.

(** [ct_size] is the size constraint, -1 without one. *)
Definition OCTET_STRING_decode_oer (subvariant : asn_OS_Subvariant) (ct_size : Z) (buf : list Z) :
    asn_dec_rval_code * Z * option OCTET_STRING_t :=
  match unit_bytes subvariant with
  | None => (RC_FAIL, 0, None)
  | Some unit =>
    let take_octets consumed expected_length :=
      let ptr := drop (Z.to_nat consumed) buf in
      if Z.of_nat (length ptr) <? expected_length then (RC_WMORE, 0, None)
      else (RC_OK, consumed + expected_length,
            Some {| os_buf := take (Z.to_nat expected_length) ptr |}) in
    if 0 <=? ct_size then take_octets 0 (u64 (unit * ct_size))
    else
      let '(len_len, expected_length) := oer_fetch_length buf in
      if len_len =? 0 then (RC_WMORE, 0, None)
      else if len_len <? 0 then (RC_FAIL, 0, None)
      else if negb (expected_length mod unit =? 0) then (RC_FAIL, 0, None)
      else take_octets len_len expected_length
  end.

Definition OCTET_STRING_encode_oer {S} `{Consumer S} (subvariant : asn_OS_Subvariant) (ct_size : Z)
    (st : OCTET_STRING_t) (key : S) : Z * S :=
  let size := Z.of_nat (length (os_buf st)) in
  let finish encoded key :=
    let '(rc, key) := consume (os_buf st) key in
    (if rc <? 0 then -1 else encoded + size, key) in
  if 0 <=? ct_size then
    match unit_bytes subvariant with
    | None => (-1, key)
    | Some unit => if negb (size =? u64 (unit * ct_size)) then (-1, key) else finish 0 key
    end
  else
    let '(ret, key) := oer_serialize_length size key in
    if ret <? 0 then (-1, key) else finish ret key.

Definition OCTET_STRING_oer (subvariant : asn_OS_Subvariant) (ct_size : Z) : OerType OCTET_STRING_t := {|
  oer_encoder S C st key := Some (OCTET_STRING_encode_oer subvariant ct_size st key);
  oer_decoder buf := Some (OCTET_STRING_decode_oer subvariant ct_size buf)
|}.

(** ** Lemmas: length determinants *)

Lemma drop_zeros_ok l : bytes_ok l -> bytes_ok (drop_zeros l).
Proof. induction 1 as [|b l Hb Hl IH]; [constructor|]. cbn. case_match; [done|]. by constructor. Qed.

Lemma be_val_drop_zeros l : be_val (drop_zeros l) = be_val l.
Proof.
  induction l as [|b l IH]; [done|]. cbn [drop_zeros]. destruct (Z.eqb_spec b 0) as [->|]; [|done].
  rewrite IH. cbn [be_val]. lia.
Qed.

Lemma drop_zeros_idem l : drop_zeros (drop_zeros l) = drop_zeros l.
Proof.
  induction l as [|b l IH]; [done|]. cbn [drop_zeros]. destruct (b =? 0) eqn:E; [done|].
  cbn [drop_zeros]. by rewrite E.
Qed.

Lemma length_drop_zeros l : (length (drop_zeros l) <= length l)%nat.
Proof. induction l as [|b l IH]; [done|]. cbn [drop_zeros]. case_match; cbn in *; lia. Qed.

(** The loop that gathers a length is the big-endian value. *)
Lemma gather_be l acc : bytes_ok l -> 0 <= acc -> acc * 2 ^ (8 * Z.of_nat (length l)) + be_val l < 2 ^ 64 ->
  foldl (fun len b => u64 (u64 (len ≪ 8) + b)) acc l = acc * 2 ^ (8 * Z.of_nat (length l)) + be_val l.
Proof.
  intros Hok. revert acc. induction Hok as [|b l Hb Hl IH]; intros acc Ha Hlt.
  { cbn. lia. }
  cbn [foldl be_val length] in *. rewrite pow2_8_succ in *. pose proof (be_val_bound l Hl) as Hbv.
  set (P := 2 ^ (8 * Z.of_nat (length l))) in *. assert (0 < P) by (apply pow2_pos; lia).
  unfold byte_ok in Hb. rewrite shiftl_mul by lia. change (2 ^ 8) with 256.
  assert (Hsmall : acc * 256 + b < 2 ^ 64) by nia.
  rewrite (u64_small (acc * 256)), u64_small by lia. rewrite IH; [lia|lia|nia].
Qed.

Definition oer_length_octets (len : Z) : list Z :=
  if len <=? 127 then [len]
  else let p := drop_zeros (be_bytes 8 len) in (128 + Z.of_nat (length p)) :: p.

Lemma oer_length_long len : 127 < len < 2 ^ 64 ->
  let p := drop_zeros (be_bytes 8 len) in
  bytes_ok p /\ be_val p = len /\ 1 <= Z.of_nat (length p) <= 8.
Proof.
  intros Hl p. unfold p. pose proof (be_bytes_ok 8 len) as Hok.
  assert (Hval : be_val (drop_zeros (be_bytes 8 len)) = len).
  { rewrite be_val_drop_zeros, be_val_be_bytes. apply Z.mod_small. change (8 * Z.of_nat 8) with 64. lia. }
  split_and!; [by apply drop_zeros_ok|done| |].
  - destruct (drop_zeros (be_bytes 8 len)); cbn in *; lia.
  - pose proof (length_drop_zeros (be_bytes 8 len)) as H. rewrite length_be_bytes in H. lia.
Qed.

Lemma oer_long_octet n : 1 <= n <= 8 ->
  (Z.land (128 + n) 128 =? 0) = false /\ Z.land (128 + n) 127 = n /\ byte_ok (128 + n).
Proof.
  intros Hn. unfold byte_ok.
  assert (n = 1 \/ n = 2 \/ n = 3 \/ n = 4 \/ n = 5 \/ n = 6 \/ n = 7 \/ n = 8) as Hc by lia.
  by repeat (destruct Hc as [-> | Hc]; [done|]); subst.
Qed.

Lemma oer_length_octets_ok len : 0 <= len < 2 ^ 64 -> bytes_ok (oer_length_octets len).
Proof.
  intros Hl. unfold oer_length_octets. destruct (Z.leb_spec len 127).
  - apply bytes_ok_cons; [unfold byte_ok; lia|apply bytes_ok_nil].
  - destruct (oer_length_long len) as (Hok & _ & Hlen); [lia|].
    apply bytes_ok_cons; [|done]. by destruct (oer_long_octet _ Hlen) as (_ & _ & ?).
Qed.

Lemma oer_short_octet b : 0 <= b <= 127 -> (Z.land b 128 =? 0) = true.
Proof. intros. rewrite octet_sign by (unfold byte_ok; lia). by zcase. Qed.

Lemma oer_fetch_length_ok len rest : 0 <= len <= RSIZE_MAX ->
  oer_fetch_length (oer_length_octets len ++ rest) = (Z.of_nat (length (oer_length_octets len)), len).
Proof.
  intros Hl. assert (Hmax : RSIZE_MAX = 9223372036854775807) by reflexivity.
  unfold oer_length_octets. destruct (Z.leb_spec len 127).
  - cbn [app oer_fetch_length length]. by rewrite oer_short_octet by lia.
  - destruct (oer_length_long len) as (Hok & Hval & Hlen).
    { change (2 ^ 64) with 18446744073709551616. lia. }
    set (p := drop_zeros (be_bytes 8 len)) in *. cbn [app oer_fetch_length].
    destruct (oer_long_octet _ Hlen) as (-> & -> & _). cbn [length]. rewrite length_app.
    zcase. rewrite Nat2Z.id, take_app_le, take_ge by lia.
    assert (Hid : drop_zeros p = p) by apply drop_zeros_idem. rewrite Hid. zcase.
    rewrite gather_be; [|done|lia|rewrite Hval; change (2 ^ 64) with 18446744073709551616; lia].
    rewrite Hval, Z.mul_0_l, Z.add_0_l. zcase. f_equal. lia.
Qed.

Lemma oer_serialize_length_ok {S} `{AppendConsumer S} len (key : S) : 0 <= len < 2 ^ 64 ->
  exists key', oer_serialize_length len key = (Z.of_nat (length (oer_length_octets len)), key') /\
    written key' = written key ++ oer_length_octets len.
Proof.
  intros Hl. unfold oer_serialize_length, oer_length_octets. destruct (Z.leb_spec len 127).
  - rewrite u8_small by (unfold byte_ok; lia).
    destruct (consume_append [len] key) as (key' & -> & Hw). by exists key'.
  - destruct (oer_length_long len) as (Hok & Hval & Hlen); [lia|].
    set (p := drop_zeros (be_bytes 8 len)) in *.
    destruct (oer_long_octet _ Hlen) as (_ & _ & Hb). rewrite u8_small by done.
    destruct (consume_append ((128 + Z.of_nat (length p)) :: p) key) as (key' & -> & Hw). by exists key'.
Qed.

(** ** Lemmas: INTEGER *)

Lemma int_val_fixed n v : (0 < n)%nat -> - 2 ^ (8 * Z.of_nat n - 1) <= v < 2 ^ (8 * Z.of_nat n - 1) ->
  int_val (be_bytes n v) = v.
Proof.
  intros Hn Hv. pose proof (be_bytes_ok n v) as Hok. pose proof (length_be_bytes n v) as Hlen.
  assert (Hne : be_bytes n v <> []) by (destruct n; [lia|done]).
  pose proof (int_val_bound _ Hok Hne) as Hb. rewrite Hlen in Hb.
  assert (Hcong : exists k, int_val (be_bytes n v) = v + k * 2 ^ (8 * Z.of_nat n)).
  { pose proof (be_val_be_bytes n v) as Hbe. unfold int_val. rewrite Hlen.
    pose proof (pow2_pos (8 * Z.of_nat n) ltac:(lia)) as HP.
    destruct (be_bytes n v) as [|b l]; [done|]. rewrite Hbe.
    destruct (b <? 128); [exists (- (v / 2 ^ (8 * Z.of_nat n)))|exists (- (v / 2 ^ (8 * Z.of_nat n)) - 1)];
      rewrite Z.mod_eq by lia; ring. }
  destruct Hcong as [k Hk].
  assert (HP : 2 ^ (8 * Z.of_nat n) = 2 * 2 ^ (8 * Z.of_nat n - 1)).
  { replace (8 * Z.of_nat n) with (1 + (8 * Z.of_nat n - 1)) at 1 by lia. by rewrite pow2_split by lia. }
  rewrite HP in Hk. pose proof (pow2_pos (8 * Z.of_nat n - 1) ltac:(lia)) as HPp.
  set (P := 2 ^ (8 * Z.of_nat n - 1)) in *. clearbody P. rewrite Hk in *.
  assert (k = 0) as -> by nia. lia.
Qed.

Lemma be_val_fixed n v : 0 <= v < 2 ^ (8 * Z.of_nat n) -> be_val (be_bytes n v) = v.
Proof. intros. rewrite be_val_be_bytes. by apply Z.mod_small. Qed.

(** Sign extension. *)
Lemma int_val_pad1 l : bytes_ok l -> l <> [] -> int_val ((if int_val l <? 0 then 255 else 0) :: l) = int_val l.
Proof.
  intros Hok Hne. rewrite int_val_cons. pose proof (be_val_bound _ Hok) as Hb.
  assert (Hv : int_val l = be_val l \/ int_val l = be_val l - 2 ^ (8 * Z.of_nat (length l))).
  { destruct l as [|c r]; [done|]. unfold int_val. case_match; [left|right]; lia. }
  set (P := 2 ^ (8 * Z.of_nat (length l))) in *.
  destruct (Z.ltb_spec (int_val l) 0) as [Hn|Hn];
    [change (255 <? 128) with false|change (0 <? 128) with true]; cbn iota; lia.
Qed.

Lemma int_val_pad k l : bytes_ok l -> l <> [] ->
  int_val (replicate k (if int_val l <? 0 then 255 else 0) ++ l) = int_val l.
Proof.
  intros Hok Hne. set (pad := if int_val l <? 0 then 255 else 0).
  assert (Hp : byte_ok pad) by (unfold pad, byte_ok; case_match; lia).
  induction k as [|k IH]; [done|]. cbn [replicate app].
  transitivity (int_val (replicate k pad ++ l)); [|done].
  rewrite <- (int_val_pad1 (replicate k pad ++ l)), IH; [done| |by destruct k].
  apply bytes_ok_app; [by apply Forall_replicate|done].
Qed.

Lemma be_val_pad k l : be_val (replicate k 0 ++ l) = be_val l.
Proof. induction k as [|k IH]; [done|]. cbn [replicate app be_val]. rewrite IH. lia. Qed.

Lemma skip_zeros_ok l : bytes_ok l -> l <> [] ->
  bytes_ok (skip_zeros_but_last l) /\ skip_zeros_but_last l <> [] /\
  be_val (skip_zeros_but_last l) = be_val l /\
  ((1 < length (skip_zeros_but_last l))%nat ->
   2 ^ (8 * Z.of_nat (length (skip_zeros_but_last l) - 1)) <= be_val l).
Proof.
  induction 1 as [|b l Hb Hl IH]; [done|]. intros _. destruct l as [|c r].
  { split_and!; try done; [by constructor|cbn; lia]. }
  change (skip_zeros_but_last (b :: c :: r)) with
    (if b =? 0 then skip_zeros_but_last (c :: r) else b :: c :: r).
  destruct (Z.eqb_spec b 0) as [->|Hb0].
  - destruct IH as (? & ? & Hv & ?); [done|]. split_and!; try done; by rewrite Hv.
  - split_and!; [by constructor|done|done|]. intros _. cbn [length be_val].
    pose proof (be_val_bound (c :: r) Hl) as Hv. cbn [be_val length] in Hv.
    replace (Z.of_nat (S (S (length r)) - 1)) with (Z.of_nat (S (length r))) by lia.
    set (P := 2 ^ (8 * Z.of_nat (S (length r)))) in *. unfold byte_ok in Hb. nia.
Qed.

Lemma length_skip_zeros l : (length (skip_zeros_but_last l) <= length l)%nat.
Proof.
  induction l as [|b l IH]; [done|]. destruct l as [|c r]; [done|].
  change (skip_zeros_but_last (b :: c :: r)) with
    (if b =? 0 then skip_zeros_but_last (c :: r) else b :: c :: r).
  case_match; cbn [length] in *; lia.
Qed.

Section NativeInteger.
Context (specs : option asn_INTEGER_specifics_t) (ct : asn_oer_constraint_number_t).

(** A number as octets: of the constrained width, or the fewest behind a
    length. *)
Definition oer_int_octets (v : Z) : list Z :=
  if width ct =? 0 then
    let m := if positive ct then skip_zeros_but_last (i_bytes (asn_long2INTEGER v))
             else i_bytes (asn_long2INTEGER v) in
    oer_length_octets (Z.of_nat (length m)) ++ m
  else be_bytes (Z.to_nat (width ct)) v.

Definition oer_int_dom (v : Z) : Prop :=
  is_long v /\ (is_unsigned specs = true -> 0 <= v) /\ 0 <= width ct /\ (positive ct = true -> 0 <= v) /\
  (width ct <> 0 ->
   if positive ct then v < 2 ^ (8 * width ct)
   else - 2 ^ (8 * width ct - 1) <= v < 2 ^ (8 * width ct - 1)).

Lemma long2INTEGER_octets v : is_long v -> exists l, asn_long2INTEGER v = of_bytes l /\
  bytes_ok l /\ l <> [] /\ (length l <= 8)%nat /\ minimal l /\ int_val l = v.
Proof. apply imax2INTEGER_ok. Qed.

Lemma int_val_sign b l : byte_ok b -> bytes_ok l -> (b <? 128) = (0 <=? int_val (b :: l)).
Proof.
  intros Hb Hl. rewrite int_val_cons. pose proof (be_val_bound l Hl). unfold byte_ok in Hb.
  set (P := 2 ^ _) in *. destruct (Z.ltb_spec b 128), (Z.leb_spec 0 ((b) * P + be_val l)),
    (Z.leb_spec 0 ((b - 256) * P + be_val l)); try done; nia.
Qed.

(** The octets the encoder keeps, and the padding in front of them. *)
Lemma useful_octets v : oer_int_dom v ->
  let l := i_bytes (asn_long2INTEGER v) in
  let m := if positive ct then skip_zeros_but_last l else l in
  bytes_ok m /\ m <> [] /\ (length m <= 8)%nat /\ (positive ct = true -> be_val m = v) /\
  (positive ct = false -> int_val m = v) /\
  (width ct <> 0 -> Z.of_nat (length m) <= width ct /\
   replicate (Z.to_nat (width ct) - length m) (if v <? 0 then 255 else 0) ++ m =
   be_bytes (Z.to_nat (width ct)) v).
Proof.
  intros (Hv & _ & Hw0 & Hpos & Hw). destruct (long2INTEGER_octets v Hv) as (l & -> & Hok & Hne & Hlen & Hmin & Hval).
  cbn [i_bytes i_buf of_bytes default from_option id]. destruct (positive ct) eqn:Ep.
  - specialize (Hpos eq_refl). assert (Hbe : be_val l = v) by (rewrite <- int_val_nonneg; [done|done|lia]).
    destruct (skip_zeros_ok l Hok Hne) as (Hmok & Hmne & Hmval & Hlarge).
    pose proof (length_skip_zeros l) as Hmlen.
    set (m := skip_zeros_but_last l) in *. split_and!; try done; [lia|by rewrite Hmval|].
    intros Hwz. specialize (Hw Hwz). assert (Hfit : Z.of_nat (length m) <= width ct).
    { destruct (decide (length m <= 1)%nat) as [|Hgt]; [lia|]. rewrite Hbe in Hlarge. specialize (Hlarge ltac:(lia)).
      destruct (Z.leb_spec (Z.of_nat (length m)) (width ct)); [done|].
      assert (2 ^ (8 * width ct) <= 2 ^ (8 * Z.of_nat (length m - 1))) by (apply Z.pow_le_mono_r; lia). lia. }
    split; [done|]. zcase. apply bytes_bits_inj.
    + apply bytes_ok_app; [|done]. apply Forall_replicate. unfold byte_ok. lia.
    + apply be_bytes_ok.
    + apply bits_val_inj.
      * rewrite !length_bytes_bits, length_app, length_replicate, length_be_bytes. lia.
      * rewrite <- !be_val_bits; [|apply be_bytes_ok|apply bytes_ok_app; [|done]; apply Forall_replicate; unfold byte_ok; lia].
        rewrite be_val_pad, be_val_be_bytes, Hmval, Hbe. symmetry. apply Z.mod_small.
        rewrite Z2Nat.id by lia. lia.
  - split_and!; try done. intros Hwz. specialize (Hw Hwz).
    assert (Hfit : Z.of_nat (length l) <= width ct).
    { destruct (decide (length l <= 1)%nat) as [|Hgt]; [lia|].
      pose proof (minimal_large l Hok Hmin ltac:(lia)) as Hlarge. rewrite Hval in Hlarge.
      destruct (Z.leb_spec (Z.of_nat (length l)) (width ct)); [done|].
      assert (2 ^ (8 * width ct - 1) <= 2 ^ (8 * Z.of_nat (length l - 1) - 1)) by (apply Z.pow_le_mono_r; lia). lia. }
    split; [done|]. set (pad := if v <? 0 then 255 else 0).
    assert (Hpok : bytes_ok (replicate (Z.to_nat (width ct) - length l) pad ++ l)).
    { apply bytes_ok_app; [|done]. apply Forall_replicate. unfold pad, byte_ok. case_match; lia. }
    apply int_val_inj; [done|apply be_bytes_ok|rewrite length_app, length_replicate, length_be_bytes; lia|].
    rewrite int_val_fixed by (rewrite ?Z2Nat.id; lia). unfold pad. rewrite <- Hval.
    by apply int_val_pad.
Qed.

Lemma pad_octets_ok {S} `{AppendConsumer S} n pad (key : S) :
  exists key', pad_octets n pad key = (true, key') /\ written key' = written key ++ replicate n pad.
Proof.
  revert key. induction n as [|n IH]; intros key; cbn [pad_octets].
  { exists key. by rewrite app_nil_r. }
  destruct (consume_append [pad] key) as (k1 & -> & Hw). change (0 <? 0) with false. cbn iota.
  destruct (IH k1) as (k2 & -> & Hw2). exists k2. split; [done|]. by rewrite Hw2, Hw, <- app_assoc.
Qed.

Lemma oer_native_encode_ok {S} `{AppendConsumer S} v (key : S) : oer_int_dom v ->
  exists key', NativeInteger_encode_oer specs ct v key = (Z.of_nat (length (oer_int_octets v)), key') /\
    written key' = written key ++ oer_int_octets v.
Proof.
  intros Hd. pose proof (useful_octets v Hd) as Huse. pose proof Hd as (Hv & Hu & Hw0 & Hpos & Hw).
  unfold NativeInteger_encode_oer. fold (native_INTEGER specs v). rewrite native_INTEGER_ok by done.
  unfold oer_int_octets in *. destruct (long2INTEGER_octets v Hv) as (l & Hl & Hok & Hne & Hlen & Hmin & Hval).
  rewrite Hl in *. unfold INTEGER_encode_oer. cbn [i_bytes i_buf of_bytes default from_option id] in *.
  destruct l as [|b r]; [done|]. apply Forall_cons in Hok as [Hb Hr].
  rewrite octet_sign by done. rewrite (int_val_sign b r) by done. rewrite Hval.
  assert (Hneg : positive ct && negb (0 <=? v) = false).
  { destruct (positive ct); [|done]. specialize (Hpos eq_refl). by zcase. }
  rewrite Hneg. assert (Hskip : skip_superfluous (b :: r) = b :: r)
    by (apply skip_of_minimal; [by constructor|done]).
  rewrite Hskip. set (m := if positive ct then skip_zeros_but_last (b :: r) else b :: r) in *.
  destruct Huse as (Hmok & Hmne & Hm8 & _ & _ & Hfix).
  replace (if negb (0 <=? v) then 255 else 0) with (if v <? 0 then 255 else 0) by (by zcases).
  set (pad := if v <? 0 then 255 else 0) in *. clearbody pad.
  destruct (Z.eqb_spec (width ct) 0) as [Hw1|Hw1]; cbn [negb].
  - destruct (oer_serialize_length_ok (Z.of_nat (length m)) key) as (k1 & -> & Hk1).
    { change (2 ^ 64) with 18446744073709551616. lia. }
    zcases. rewrite Z.sub_diag. change (Z.to_nat 0) with 0%nat. cbn [pad_octets negb].
    destruct (consume_append m k1) as (k2 & -> & Hk2). exists k2. cbn [Z.ltb Z.compare].
    rewrite length_app, Hk2, Hk1, <- app_assoc. split; [|done]. f_equal. lia.
  - destruct (Hfix Hw1) as (Hfit & Hpad). cbn [Z.ltb Z.compare]. zcase.
    destruct (pad_octets_ok (Z.to_nat (width ct - Z.of_nat (length m))) pad key) as (k1 & -> & Hk1).
    cbn [negb]. destruct (consume_append m k1) as (k2 & -> & Hk2). exists k2. cbn [Z.ltb Z.compare].
    rewrite length_be_bytes, Hk2, Hk1, <- app_assoc. split; [f_equal; lia|].
    rewrite <- Hpad. do 3 f_equal. lia.
Qed.

(** The octet the decoder puts in front of an unsigned number keeps its sign
    bit clear. *)
Lemma positive_octets m : bytes_ok m -> m <> [] -> exists b, m !! 0%nat = Some b /\
  bytes_ok (replicate (Z.to_nat (b ≫ 7)) 0 ++ m) /\
  int_val (replicate (Z.to_nat (b ≫ 7)) 0 ++ m) = be_val m.
Proof.
  intros Hok Hne. destruct m as [|b r]; [done|]. exists b. split; [done|].
  pose proof Hok as Hbr. apply Forall_cons in Hbr as [Hb Hr]. unfold byte_ok in Hb.
  rewrite shiftr_div by lia. change (2 ^ 7) with 128. destruct (Z.ltb_spec b 128).
  - rewrite Z.div_small by lia. change (Z.to_nat 0) with 0%nat. cbn [replicate app]. split; [done|].
    unfold int_val. by zcases.
  - replace (b / 128) with 1 by (apply (Z.div_unique _ _ _ (b - 128)); lia).
    change (Z.to_nat 1) with 1%nat. cbn [replicate app]. split.
    { apply bytes_ok_cons; [unfold byte_ok; lia|done]. }
    rewrite int_val_cons. change (0 <? 128) with true. cbn iota. lia.
Qed.

(** The number behind the octets the encoder keeps. *)
Lemma oer_native_octets m v rest : bytes_ok m -> m <> [] -> oer_int_dom v ->
  (positive ct = true -> be_val m = v) -> (positive ct = false -> int_val m = v) ->
  exists st, (if positive ct then b ← read (m ++ rest) 0;
      Some (of_bytes (replicate (Z.to_nat (b ≫ 7)) 0 ++ m)) else Some (of_bytes m)) = Some st /\
    (r ← (if is_unsigned specs then Some (asn_INTEGER2ulong st) else asn_INTEGER2long st);
     Some match r with Conv_OK v => Some (s64 v) | _ => None end) = Some (Some v).
Proof.
  intros Hok Hne (Hv & Hu & _ & Hpos & _) Hbe Hin.
  assert (Hst : exists l, bytes_ok l /\ int_val l = v /\
    (if positive ct then b ← read (m ++ rest) 0;
      Some (of_bytes (replicate (Z.to_nat (b ≫ 7)) 0 ++ m)) else Some (of_bytes m)) = Some (of_bytes l)).
  { destruct (positive ct).
    - destruct (positive_octets m Hok Hne) as (b & Hb & Hl & Hval). eexists. split_and!; [exact Hl|by rewrite Hval, Hbe|].
      destruct m; [done|]. cbn [app]. rewrite read_0. by injection Hb as ->.
    - exists m. split_and!; [done|by apply Hin|done]. }
  destruct Hst as (l & Hl & Hval & ->). exists (of_bytes l). split; [done|]. long_bounds.
  destruct (is_unsigned specs).
  - specialize (Hu eq_refl). assert (be_val l = v) as Hb by (rewrite <- int_val_nonneg; [done|done|lia]).
    rewrite INTEGER2ulong_octets by (done || (long_bounds; lia)). cbn. by rewrite Hb, s64_small by lia.
  - rewrite INTEGER2long_octets by (done || (rewrite Hval; long_bounds; lia)). cbn.
    by rewrite Hval, s64_small by lia.
Qed.

Lemma bytes_of_dom v : oer_int_dom v -> bytes_ok (oer_int_octets v).
Proof.
  intros Hd. destruct (useful_octets v Hd) as (Hok & _ & Hlen & _). unfold oer_int_octets.
  destruct (width ct =? 0); [|apply be_bytes_ok]. apply bytes_ok_app; [|done]. apply oer_length_octets_ok.
  change (2 ^ 64) with 18446744073709551616. lia.
Qed.

Lemma take_drop_octets (l m rest : list Z) :
  take (Z.to_nat (Z.of_nat (length m))) (drop (Z.to_nat (Z.of_nat (length l))) (l ++ m ++ rest)) = m.
Proof. by rewrite !Nat2Z.id, drop_app_length, take_app_length. Qed.

Lemma oer_native_decode_ok v rest : oer_int_dom v ->
  NativeInteger_decode_oer specs ct (oer_int_octets v ++ rest) =
    Some (RC_OK, Z.of_nat (length (oer_int_octets v)), Some v).
Proof.
  intros Hd. pose proof (useful_octets v Hd) as Huse. pose proof Hd as (Hv & Hu & Hw0 & Hpos & Hw).
  unfold NativeInteger_decode_oer.
  assert (Hdec : exists m, bytes_ok m /\ m <> [] /\ (positive ct = true -> be_val m = v) /\
    (positive ct = false -> int_val m = v) /\
    INTEGER_decode_oer ct (oer_int_octets v ++ rest) =
      (st ← (if positive ct then b ← read (m ++ rest) 0;
        Some (of_bytes (replicate (Z.to_nat (b ≫ 7)) 0 ++ m)) else Some (of_bytes m));
      Some (RC_OK, Z.of_nat (length (oer_int_octets v)), Some st))).
  { unfold INTEGER_decode_oer, oer_int_octets in *. destruct Huse as (Hmok & Hmne & Hm8 & Hbe & Hin & _).
    destruct (Z.eqb_spec (width ct) 0) as [Hwz|Hwz]; cbn [negb andb].
    - set (m := if positive ct then _ else _) in *. clearbody m. exists m. split_and!; try done.
      rewrite <- app_assoc, oer_fetch_length_ok by (split; [lia|]; change RSIZE_MAX with 9223372036854775807; lia).
      set (l := oer_length_octets _). assert (1 <= Z.of_nat (length l)).
      { unfold l, oer_length_octets. destruct (_ <=? 127); cbn [length]; lia. }
      clearbody l. rewrite take_drop_octets, Nat2Z.id, drop_app_length, !length_app. zcases.
      destruct (positive ct).
      + destruct (read _ 0); [|done]. cbn. do 2 f_equal; f_equal; lia.
      + cbn. do 2 f_equal; f_equal; lia.
    - specialize (Hw Hwz). set (n := Z.to_nat (width ct)) in *.
      assert (Hn : width ct = Z.of_nat n) by (unfold n; lia). pose proof (length_be_bytes n v) as Hlen.
      exists (be_bytes n v). split_and!; [apply be_bytes_ok|destruct (be_bytes n v); [cbn in Hlen; lia|done]| | |].
      + intros Hp. rewrite Hp in Hw. rewrite be_val_fixed; [done|]. rewrite <- Hn. specialize (Hpos Hp). lia.
      + intros Hp. rewrite Hp in Hw. apply int_val_fixed; [lia|]. by rewrite <- Hn.
      + rewrite Hlen, Hn. change (Z.to_nat 0) with 0%nat. rewrite drop_0, length_app, Hlen. zcases.
        rewrite Z.add_0_l, take_app_le, take_ge by lia.
        destruct (positive ct); [by destruct (read _ 0)|done]. }
  destruct Hdec as (m & Hmok & Hmne & Hbe & Hin & ->).
  destruct (oer_native_octets m v rest Hmok Hmne Hd Hbe Hin) as (st & -> & Hst). cbn [mbind option_bind].
  destruct (decide _); [|done]. destruct (if is_unsigned specs then _ else _) as [r|]; [|done].
  cbn [mbind option_bind] in *. destruct r; try done. by injection Hst as ->.
Qed.
End NativeInteger.

(** A number that does not fit its constraint is refused before anything is
    written. *)
Lemma oer_native_refuse specs ct {S} `{Consumer S} v (key : S) :
  is_long v -> (is_unsigned specs = true -> 0 <= v) -> 0 <= width ct ->
  (positive ct = true /\ v < 0) \/
  (width ct <> 0 /\ if positive ct then 2 ^ (8 * width ct) <= v
                    else v < - 2 ^ (8 * width ct - 1) \/ 2 ^ (8 * width ct - 1) <= v) ->
  NativeInteger_encode_oer specs ct v key = (-1, key).
Proof.
  intros Hv Hu Hw0 Hbad. unfold NativeInteger_encode_oer. fold (native_INTEGER specs v).
  rewrite native_INTEGER_ok by done. unfold INTEGER_encode_oer.
  destruct (long2INTEGER_octets v Hv) as (l & -> & Hok & Hne & Hlen & Hmin & Hval).
  cbn [i_bytes i_buf of_bytes default from_option id]. destruct l as [|b r]; [done|].
  pose proof Hok as Hbr. apply Forall_cons in Hbr as [Hb Hr].
  rewrite octet_sign, (int_val_sign b r), Hval by done.
  destruct (positive ct && negb (0 <=? v)) eqn:Eneg; [done|]. apply andb_false_iff in Eneg.
  destruct Hbad as [[Hp Hn]|[Hwz Hbig]].
  { rewrite Hp in Eneg. destruct Eneg as [|Eneg]; [done|]. revert Eneg. by zcase. }
  destruct (Z.eqb_spec (width ct) 0); [done|]. cbn [negb Z.ltb Z.compare].
  assert (Hshort : width ct < Z.of_nat (length (if positive ct then skip_zeros_but_last (b :: r)
                                                else skip_superfluous (b :: r)))).
  { destruct (positive ct).
    - destruct Eneg as [|Eneg]; [done|]. assert (0 <= v) by (revert Eneg; zcases; lia).
      destruct (skip_zeros_ok (b :: r) Hok Hne) as (Hmok & _ & Hmval & _).
      pose proof (be_val_bound _ Hmok) as Hbd. rewrite Hmval, <- int_val_nonneg, Hval in Hbd by (done || lia).
      apply Z.nle_gt. intros Hle.
      assert (2 ^ (8 * Z.of_nat (length (skip_zeros_but_last (b :: r)))) <= 2 ^ (8 * width ct))
        by (apply Z.pow_le_mono_r; lia). lia.
    - rewrite (skip_of_minimal _ Hok Hmin). pose proof (int_val_bound _ Hok Hne) as Hbd. rewrite Hval in Hbd.
      apply Z.nle_gt. intros Hle.
      assert (2 ^ (8 * Z.of_nat (length (b :: r)) - 1) <= 2 ^ (8 * width ct - 1))
        by (apply Z.pow_le_mono_r; lia). lia. }
  by zcase.
Qed.

(** Encoders do not look behind the callback. *)
Section Natural.
Context {S1 S2 : Type} `{C1 : Consumer S1} `{C2 : Consumer S2} (f : S1 -> S2) (Hf : consumer_morphism f).

Definition key_map {A} (r : A * S1) : A * S2 := (r.1, f r.2).

Lemma oer_serialize_length_map len key :
  oer_serialize_length len (f key) = key_map (oer_serialize_length len key).
Proof. unfold oer_serialize_length. case_match; rewrite Hf; by destruct (consume _ key). Qed.

Lemma pad_octets_map n pad key : pad_octets n pad (f key) = key_map (pad_octets n pad key).
Proof.
  revert key. induction n as [|n IH]; intros key; cbn [pad_octets]; [done|].
  rewrite Hf. destruct (consume _ key) as [rc k]. cbn [fst snd]. case_match; [done|apply IH].
Qed.

Lemma INTEGER_encode_oer_map ct st key :
  INTEGER_encode_oer ct st (f key) = key_map (INTEGER_encode_oer ct st key).
Proof.
  unfold INTEGER_encode_oer. destruct (i_bytes st) as [|b r]; [done|]. case_match; [done|].
  set (buf := if positive ct then _ else _). clearbody buf.
  assert (Hlen : (if negb (width ct =? 0) then (0, f key)
                  else oer_serialize_length (Z.of_nat (length buf)) (f key)) =
    key_map (if negb (width ct =? 0) then (0, key) else oer_serialize_length (Z.of_nat (length buf)) key)).
  { case_match; [done|apply oer_serialize_length_map]. }
  rewrite Hlen. destruct (if negb (width ct =? 0) then (0, key) else _) as [r1 k1]. cbn [key_map fst snd].
  destruct (r1 <? 0); [done|]. destruct (_ <? Z.of_nat (length buf)); [done|]. rewrite pad_octets_map.
  destruct (pad_octets _ _ k1) as [ok k2]. cbn [key_map fst snd]. destruct (negb ok); [done|].
  rewrite Hf. by destruct (consume buf k2).
Qed.

Lemma OCTET_STRING_encode_oer_map sub n st key :
  OCTET_STRING_encode_oer sub n st (f key) = key_map (OCTET_STRING_encode_oer sub n st key).
Proof.
  unfold OCTET_STRING_encode_oer. case_match.
  - destruct (unit_bytes sub); [|done]. case_match; [done|]. rewrite Hf. by destruct (consume _ key).
  - rewrite oer_serialize_length_map. destruct (oer_serialize_length _ key) as [r1 k1].
    cbn [key_map fst snd]. case_match; [done|]. rewrite Hf. by destruct (consume _ k1).
Qed.
End Natural.

Definition native_oer_laws specs ct : @OerTypeLaws Z (NativeInteger_oer specs ct).
Proof.
  refine (@Build_OerTypeLaws Z (NativeInteger_oer specs ct) (oer_int_dom specs ct) (oer_int_octets ct) _ _ _ _).
  - intros. by eapply bytes_of_dom.
  - intros S C A t key Hd. destruct (oer_native_encode_ok specs ct t key Hd) as (key' & He & Hw).
    exists key'. split; [|done]. cbn. by rewrite He.
  - intros S1 S2 C1 C2 f Hf t key. cbn. unfold NativeInteger_encode_oer.
    rewrite INTEGER_encode_oer_map by done. by destruct (INTEGER_encode_oer _ _ key).
  - intros. by apply oer_native_decode_ok.
Defined.

(** A true BOOLEAN is written as 255 and that is its value when it is read
    back. *)
Definition boolean_oer_laws : @OerTypeLaws BOOLEAN_t BOOLEAN_oer.
Proof.
  refine (@Build_OerTypeLaws _ BOOLEAN_oer (fun t => bool_int t = 0 \/ bool_int t = 255) (fun t => [bool_int t]) _ _ _ _).
  - intros t [-> | ->]; (apply bytes_ok_cons; [done|apply bytes_ok_nil]).
  - intros S C A t key Hd. destruct (consume_append [bool_int t] key) as (key' & Hc & Hw). exists key'.
    split; [|done]. cbn. unfold BOOLEAN_encode_oer.
    assert ((if negb (bool_int t =? 0) then 255 else 0) = bool_int t) as -> by (by destruct Hd as [-> | ->]).
    by rewrite Hc.
  - intros S1 S2 C1 C2 f Hf t key. cbn. unfold BOOLEAN_encode_oer. rewrite Hf. destruct (consume _ key) as [rc k].
    cbn [fst snd]. by destruct (rc <? 0).
  - by intros [b] rest _.
Defined.

(** ** Lemmas: OCTET STRING *)

Section OctetString.
Context (sub : asn_OS_Subvariant) (ct_size : Z).

Definition oer_string_octets (st : OCTET_STRING_t) : list Z :=
  (if 0 <=? ct_size then [] else oer_length_octets (Z.of_nat (length (os_buf st)))) ++ os_buf st.

Definition oer_string_dom (st : OCTET_STRING_t) : Prop :=
  bytes_ok (os_buf st) /\ Z.of_nat (length (os_buf st)) <= RSIZE_MAX /\
  exists unit, unit_bytes sub = Some unit /\
    if 0 <=? ct_size then Z.of_nat (length (os_buf st)) = u64 (unit * ct_size)
    else Z.of_nat (length (os_buf st)) mod unit = 0.

Lemma oer_string_encode_ok {S} `{AppendConsumer S} st (key : S) : oer_string_dom st ->
  exists key', OCTET_STRING_encode_oer sub ct_size st key =
      (Z.of_nat (length (oer_string_octets st)), key') /\
    written key' = written key ++ oer_string_octets st.
Proof.
  intros (Hok & Hmax & unit & Hunit & Hsize). unfold OCTET_STRING_encode_oer, oer_string_octets.
  change RSIZE_MAX with 9223372036854775807 in Hmax. rewrite Hunit. destruct (0 <=? ct_size).
  - rewrite <- Hsize, Z.eqb_refl. cbn [negb app].
    destruct (consume_append (os_buf st) key) as (k' & -> & Hw). by exists k'.
  - destruct (oer_serialize_length_ok (Z.of_nat (length (os_buf st))) key) as (k1 & -> & Hk1).
    { change (2 ^ 64) with 18446744073709551616. lia. }
    zcases. destruct (consume_append (os_buf st) k1) as (k2 & -> & Hk2). exists k2.
    cbn [Z.ltb Z.compare]. rewrite length_app, Hk2, Hk1, <- app_assoc. split; [f_equal; lia|done].
Qed.

Lemma oer_string_decode_ok st rest : oer_string_dom st ->
  OCTET_STRING_decode_oer sub ct_size (oer_string_octets st ++ rest) =
    (RC_OK, Z.of_nat (length (oer_string_octets st)), Some st).
Proof.
  intros (Hok & Hmax & unit & Hunit & Hsize). unfold OCTET_STRING_decode_oer, oer_string_octets.
  rewrite Hunit. destruct st as [m]. cbn [os_buf] in *. destruct (0 <=? ct_size).
  - rewrite <- Hsize. change (Z.to_nat 0) with 0%nat. cbn [app]. rewrite drop_0, length_app, Nat2Z.id. zcases.
    by rewrite take_app_length.
  - rewrite <- app_assoc, oer_fetch_length_ok by lia. set (l := oer_length_octets _).
    assert (1 <= Z.of_nat (length l)).
    { unfold l, oer_length_octets. destruct (_ <=? 127); cbn [length]; lia. }
    clearbody l. rewrite take_drop_octets, Nat2Z.id, drop_app_length, Hsize, !length_app. zcases.
    do 2 f_equal. f_equal. lia.
Qed.
End OctetString.

Definition string_oer_laws sub ct_size : @OerTypeLaws OCTET_STRING_t (OCTET_STRING_oer sub ct_size).
Proof.
  refine (@Build_OerTypeLaws _ (OCTET_STRING_oer sub ct_size) (oer_string_dom sub ct_size)
    (oer_string_octets ct_size) _ _ _ _).
  - intros t (Hok & Hmax & _). apply bytes_ok_app; [|done]. case_match; [apply bytes_ok_nil|].
    apply oer_length_octets_ok. change RSIZE_MAX with 9223372036854775807 in Hmax.
    change (2 ^ 64) with 18446744073709551616. lia.
  - intros S C A t key Hd. destruct (oer_string_encode_ok sub ct_size t key Hd) as (key' & He & Hw).
    exists key'. split; [|done]. cbn. by rewrite He.
  - intros S1 S2 C1 C2 f Hf t key. cbn. rewrite OCTET_STRING_encode_oer_map by done.
    by destruct (OCTET_STRING_encode_oer _ _ _ key).
  - intros t rest Hd. cbn. by rewrite oer_string_decode_ok.
Defined.

(** ** Lemmas: open types *)

Section OpenTypeLaws.
Context {T : Type} `{L : OerTypeLaws T}.

Definition to_count (b : ByteBuffer) : byte_count := {| bytes := Z.of_nat (length (bb_bytes b)) |}.

Lemma to_count_morphism : consumer_morphism to_count.
Proof.
  intros d s. unfold consume, count_bytes_consumer, write_buffer_consumer, oer__count_bytes, write_buffer, to_count.
  cbn [fst snd bb_bytes bytes]. by rewrite length_app, Nat2Z.inj_add.
Qed.

(** The counting callback counts the octets the other callbacks are given. *)
Lemma oer_count_ok t : oer_dom t ->
  oer_encode t {| bytes := 0 |} =
    Some (Z.of_nat (length (oer_octets t)), {| bytes := Z.of_nat (length (oer_octets t)) |}).
Proof.
  intros Hd. change {| bytes := 0 |} with (to_count {| bb_bytes := [] |}). unfold oer_encode.
  rewrite (oer_enc_nat _ _ _ _ to_count to_count_morphism).
  destruct (oer_enc_law _ _ _ t {| bb_bytes := [] |} Hd) as (key' & -> & Hw).
  cbn in *. unfold to_count. by rewrite Hw.
Qed.

Lemma oer_put_ok {S} `{AppendConsumer S} t (key : S) :
  oer_dom t -> Z.of_nat (length (oer_octets t)) <= RSIZE_MAX ->
  let octets := oer_length_octets (Z.of_nat (length (oer_octets t))) ++ oer_octets t in
  exists key', oer_open_type_put t key = Some (Z.of_nat (length octets), key') /\
    written key' = written key ++ octets.
Proof.
  intros Hd Hmax octets. unfold oer_open_type_put. rewrite oer_count_ok by done. cbn [mbind option_bind bytes].
  set (n := Z.of_nat (length (oer_octets t))) in *. change RSIZE_MAX with 9223372036854775807 in Hmax.
  zcase. rewrite Z.eqb_refl. cbn [negb].
  destruct (oer_serialize_length_ok n key) as (k1 & -> & Hk1); [change (2 ^ 64) with 18446744073709551616; lia|].
  zcase. destruct (oer_enc_law _ _ _ t k1 Hd) as (k2 & He & Hk2). unfold oer_encode. rewrite He.
  cbn [mbind option_bind]. fold n. zcase. rewrite Z.eqb_refl. cbn [negb]. exists k2.
  unfold octets. rewrite length_app, Hk2, Hk1, <- app_assoc. split; [do 2 f_equal; lia|done].
Qed.

Lemma length_octets_pos n : (1 <= length (oer_length_octets n))%nat.
Proof. unfold oer_length_octets. destruct (_ <=? 127); cbn [length]; lia. Qed.

Lemma oer_open_get_ok {X} (decode : list Z -> option (asn_dec_rval_code * Z * option X)) octets c (x : X) rest :
  Z.of_nat (length octets) <= RSIZE_MAX -> decode octets = Some (RC_OK, c, Some x) ->
  let prefix := oer_length_octets (Z.of_nat (length octets)) in
  open_type_get decode (prefix ++ octets ++ rest) = Some (Z.of_nat (length (prefix ++ octets)), Some x).
Proof.
  intros Hmax Hdec prefix. unfold open_type_get. unfold prefix at 1. rewrite oer_fetch_length_ok by lia.
  fold prefix. pose proof (length_octets_pos (Z.of_nat (length octets))) as Hp. fold prefix in Hp.
  clearbody prefix. rewrite take_drop_octets, !length_app. zcases. rewrite Hdec. cbn [mbind option_bind].
  do 2 f_equal. lia.
Qed.

Lemma oer_get_ok t rest :
  oer_dom t -> Z.of_nat (length (oer_octets t)) <= RSIZE_MAX ->
  let prefix := oer_length_octets (Z.of_nat (length (oer_octets t))) in
  oer_open_type_get (prefix ++ oer_octets t ++ rest) = Some (Z.of_nat (length (prefix ++ oer_octets t)), Some t).
Proof.
  intros Hd Hmax. apply (oer_open_get_ok oer_decode _ (Z.of_nat (length (oer_octets t)))); [done|].
  unfold oer_decode. rewrite <- (app_nil_r (oer_octets t)) at 1. by apply oer_dec_law.
Qed.

(** A proper prefix of a length determinant. *)
Lemma oer_fetch_length_short len k : 0 <= len < 2 ^ 64 -> (k < length (oer_length_octets len))%nat ->
  oer_fetch_length (take k (oer_length_octets len)) = (0, 0).
Proof.
  intros Hl Hk. unfold oer_length_octets in *. destruct (Z.leb_spec len 127).
  - cbn [length] in Hk. by replace k with 0%nat by lia.
  - destruct (oer_length_long len) as (Hok & Hval & Hlen); [lia|].
    set (p := drop_zeros (be_bytes 8 len)) in *. destruct k as [|k]; [done|]. cbn [take oer_fetch_length length] in *.
    destruct (oer_long_octet _ Hlen) as (-> & -> & _). rewrite length_take. by zcase.
Qed.

Lemma open_type_get_prefix {X} (decode : list Z -> option (asn_dec_rval_code * Z * option X)) m n :
  Z.of_nat (length m) <= RSIZE_MAX ->
  let octets := oer_length_octets (Z.of_nat (length m)) ++ m in
  (n < length octets)%nat -> open_type_get decode (take n octets) = Some (0, None).
Proof.
  intros Hmax octets Hn. unfold open_type_get, octets in *. rewrite length_app in Hn.
  set (len := Z.of_nat (length m)) in *. pose proof (length_octets_pos len) as Hp.
  destruct (decide (n < length (oer_length_octets len))%nat) as [Hs|Hs].
  - rewrite take_app_le by lia. rewrite oer_fetch_length_short; [done| |done].
    change RSIZE_MAX with 9223372036854775807 in Hmax. change (2 ^ 64) with 18446744073709551616. lia.
  - rewrite take_app_ge by lia. rewrite oer_fetch_length_ok by lia.
    rewrite length_app, length_take. by zcases.
Qed.

Lemma oer_get_prefix t n :
  Z.of_nat (length (oer_octets t)) <= RSIZE_MAX ->
  let octets := oer_length_octets (Z.of_nat (length (oer_octets t))) ++ oer_octets t in
  (n < length octets)%nat -> oer_open_type_get (T := T) (take n octets) = Some (0, None).
Proof. apply (open_type_get_prefix oer_decode). Qed.
End OpenTypeLaws.

Lemma oer_open_put_map {S1 S2} {C1 : Consumer S1} {C2 : Consumer S2} (f : S1 -> S2) {T} `{L : OerTypeLaws T} (t : T) key :
  consumer_morphism f -> oer_open_type_put t (f key) = '(r, key) ← oer_open_type_put t key; Some (r, f key).
Proof.
  intros Hf. unfold oer_open_type_put, oer_encode. destruct (oer_encoder byte_count _ t _) as [[n c]|]; [|done].
  cbn [mbind option_bind]. do 2 (case_match; [done|]). rewrite oer_serialize_length_map by done.
  destruct (oer_serialize_length _ key) as [r k]. cbn [key_map fst snd]. case_match; [done|].
  rewrite (oer_enc_nat S1 S2 C1 C2 f Hf). destruct (oer_encoder S1 C1 t k) as [[e k']|]; [|done]. cbn [mbind option_bind].
  destruct (e <? 0); [done|]. by destruct (negb (bytes c =? e)).
Qed.

(** ** Properties *)

(** NativeInteger_encode_oer under a width and sign constraint writes the
    number in exactly [width] octets, or in the fewest octets behind a length
    when there is no width, and NativeInteger_decode_oer reads it back whatever
    follows, consuming as many octets; a number outside the constraint is
    refused with -1 before any octet is written. *)
Theorem oer_native_integer_roundtrip specs ct {S} `{AppendConsumer S} v (key : S) rest :
  is_long v -> (is_unsigned specs = true -> 0 <= v) -> 0 <= width ct ->
  if (if width ct =? 0 then negb (positive ct) || (0 <=? v)
      else if positive ct then (0 <=? v) && (v <? 2 ^ (8 * width ct))
      else (- 2 ^ (8 * width ct - 1) <=? v) && (v <? 2 ^ (8 * width ct - 1)))
  then
    (exists key', NativeInteger_encode_oer specs ct v key = (Z.of_nat (length (oer_int_octets ct v)), key') /\
      written key' = written key ++ oer_int_octets ct v) /\
    NativeInteger_decode_oer specs ct (oer_int_octets ct v ++ rest) =
      Some (RC_OK, Z.of_nat (length (oer_int_octets ct v)), Some v)
  else NativeInteger_encode_oer specs ct v key = (-1, key).
Proof.
  intros Hv Hu Hw0. set (fits := if width ct =? 0 then _ else _).
  destruct fits eqn:Efits; unfold fits in Efits; clear fits.
  - assert (Hd : oer_int_dom specs ct v).
    { split_and!; try done; destruct (Z.eqb_spec (width ct) 0); [intros Hp|intros Hp|done|intros _];
        try rewrite Hp in Efits; cbn [negb orb andb] in Efits; try destruct (positive ct);
        rewrite ?andb_true_iff, ?Z.leb_le, ?Z.ltb_lt in Efits; lia. }
    split; [by apply (oer_native_encode_ok specs ct v key)|by apply oer_native_decode_ok].
  - apply oer_native_refuse; try done. destruct (Z.eqb_spec (width ct) 0).
    + left. apply orb_false_iff in Efits as [Hp Hn]. apply negb_false_iff in Hp. apply Z.leb_gt in Hn. done.
    + destruct (positive ct); rewrite andb_false_iff, Z.leb_gt, Z.ltb_ge in Efits;
        [destruct Efits; [by left|by right]|by right].
Qed.

Lemma oer_native_integer_roundtrip_witness :
  let ct := {| width := 2; positive := true |} in
  (oer_int_octets ct 40000 = [156; 64]) /\
  (exists key', NativeInteger_encode_oer None ct 40000 {| bb_bytes := [] |} = (2, key') /\
     written key' = [] ++ [156; 64]) /\
  NativeInteger_decode_oer None ct ([156; 64] ++ [7]) = Some (RC_OK, 2, Some 40000).
Proof.
  split; [reflexivity|].
  exact (oer_native_integer_roundtrip None {| width := 2; positive := true |} 40000 {| bb_bytes := [] |} [7]
    ltac:(by vm_compute) ltac:(done) ltac:(done)).
Defined.

(** An open type is the length of the contained encoding and the encoding:
    oer_open_type_put appends it and returns its size for every type that keeps
    its codec's contract, oer_open_type_get returns the value and the size
    whatever follows and asks for more data on every proper prefix; but
    oer_open_type_skip returns the size of the length determinant alone, so a
    caller that advances by it stops in front of the contained value. *)
Theorem oer_open_type_roundtrip {T} `{OerTypeLaws T} {S} `{AppendConsumer S} (t : T) (key : S) rest n :
  oer_dom t -> Z.of_nat (length (oer_octets t)) <= RSIZE_MAX ->
  let prefix := oer_length_octets (Z.of_nat (length (oer_octets t))) in
  let octets := prefix ++ oer_octets t in
  (exists key', oer_open_type_put t key = Some (Z.of_nat (length octets), key') /\
     written key' = written key ++ octets) /\
  oer_open_type_get (octets ++ rest) = Some (Z.of_nat (length octets), Some t) /\
  ((n < length octets)%nat -> oer_open_type_get (T := T) (take n octets) = Some (0, None)) /\
  oer_open_type_skip (octets ++ rest) = Z.of_nat (length prefix).
Proof.
  intros Hd Hmax prefix octets. split_and!.
  - by apply oer_put_ok.
  - unfold octets. rewrite <- app_assoc. by apply oer_get_ok.
  - intros Hn. by apply oer_get_prefix.
  - unfold octets, oer_open_type_skip. rewrite <- app_assoc. unfold prefix at 1. by rewrite oer_fetch_length_ok by lia.
Qed.

Lemma oer_open_type_roundtrip_witness :
  let laws := native_oer_laws None {| width := 1; positive := true |} in
  let key := {| bb_bytes := [9] |} in
  (@oer_octets _ _ laws 200 = [200]) /\
  ((exists key', @oer_open_type_put Z (NativeInteger_oer None {| width := 1; positive := true |}) _ _ 200 key =
      Some (2, key') /\ written key' = written key ++ [1; 200]) /\
   @oer_open_type_get Z (NativeInteger_oer None {| width := 1; positive := true |}) ([1; 200] ++ [5; 5]) =
     Some (2, Some 200) /\
   ((1 < 2)%nat -> @oer_open_type_get Z (NativeInteger_oer None {| width := 1; positive := true |}) (take 1 [1; 200]) =
     Some (0, None)) /\
   oer_open_type_skip ([1; 200] ++ [5; 5]) = 1).
Proof.
  split; [reflexivity|].
  apply (@oer_open_type_roundtrip Z _ (native_oer_laws None {| width := 1; positive := true |})
    ByteBuffer _ _ 200 {| bb_bytes := [9] |} [5; 5] 1%nat).
  - split_and!; by vm_compute.
  - by vm_compute.
Defined.

(** A zero-width unsigned constraint whose length is zero reads past the end
    of the octets. *)
Example oer_zero_length_overread : INTEGER_decode_oer {| width := 0; positive := true |} [0] = None.
Proof. reflexivity. Qed.
