(* ===== verification/OerStream.v ===== *)
(** * Resumable decoding (the [struct_ptr] argument of the OER decoders)

    A decoder that runs out of data returns RC_WMORE with the octets it used
    up; the caller comes again with the structure and the octets that were
    not used, followed by more.  [OerStream] is that interface,
    [OerStreamLaws] its contract with the encoder, and [feed_ok] what the
    contract is good for: any way of cutting an encoding into pieces decodes
    to the same value.  Primitive decoders start from the beginning each time
    and keep the contract when they ask for more data on every proper prefix. *)
From S2P Require Import Prelude Outcome Consumer BitData PerSupport PerNatural PerCodec AsnInteger UperInteger Oer.

(** [oer_struct] is the memory [*struct_ptr] points to, partial results and
    decoder context included; [None] is a null pointer. *)
Class OerStream (T : Type) := {
  oer_struct : Type;
  oer_value : oer_struct -> T;
  oer_step : option oer_struct -> list Z -> option (asn_dec_rval_code * Z * option oer_struct)
}.

(** The structure has taken in all of a value's octets but the last ones. *)
Class OerStreamLaws (T : Type) `{L : OerTypeLaws T} `{St : !OerStream T} := {
  stream_left : option oer_struct -> T -> list Z -> Prop;
  stream_start : forall t, oer_dom t -> stream_left None t (oer_octets t);
  stream_more : forall st t p q, stream_left st t (p ++ q) -> q <> [] ->
    exists n st', oer_step st p = Some (RC_WMORE, n, st') /\ 0 <= n <= Z.of_nat (length p) /\
      stream_left st' t (drop (Z.to_nat n) p ++ q);
  stream_done : forall st t bs rest, stream_left st t bs ->
    exists st', oer_step st (bs ++ rest) = Some (RC_OK, Z.of_nat (length bs), Some st') /\ oer_value st' = t
}.

(** ** The caller *)

(** Data arrives in chunks; what a call did not use is presented again in
    front of the next chunk.  Code, unused octets, structure. *)
Fixpoint oer_feed {T} `{OerStream T} (chunks : list (list Z)) (st : option oer_struct) (pending : list Z) :
    option (asn_dec_rval_code * list Z * option oer_struct) :=
  match chunks with
  | [] => Some (RC_WMORE, pending, st)
  | chunk :: chunks =>
    let buf := pending ++ chunk in
    '(code, n, st) ← oer_step st buf;
    let pending := drop (Z.to_nat n) buf in
    if decide (code = RC_WMORE) then oer_feed chunks st pending
    else Some (code, pending ++ concat chunks, st)
  end.

Section Feed.
Context {T : Type} `{St : OerStream T} `{L : OerTypeLaws T} `{!OerStreamLaws T}.

Lemma feed_ok chunks st (t : T) bs pending rest : stream_left st t bs ->
  pending ++ concat chunks = bs ++ rest -> (length pending < length bs)%nat \/ chunks <> [] ->
  exists st', oer_feed chunks st pending = Some (RC_OK, rest, Some st') /\ oer_value st' = t.
Proof.
  revert st bs pending. induction chunks as [|c cs IH]; intros st bs pending Hl Heq Hlen.
  { destruct Hlen as [Hlen|]; [|done]. cbn [concat] in Heq. rewrite app_nil_r in Heq.
    apply (f_equal length) in Heq. rewrite length_app in Heq. lia. }
  cbn [oer_feed concat] in *. rewrite app_assoc in Heq. set (buf := pending ++ c) in *. clearbody buf.
  assert (Hdone : forall q, buf = bs ++ q -> rest = q ++ concat cs -> exists st', ('(code, n, st) ← oer_step st buf;
      if decide (code = RC_WMORE) then oer_feed cs st (drop (Z.to_nat n) buf)
       else Some (code, drop (Z.to_nat n) buf ++ concat cs, st)) = Some (RC_OK, rest, Some st') /\ oer_value st' = t).
  { intros q -> ->. destruct (stream_done st t bs q Hl) as (st' & -> & Hv). cbn [mbind option_bind].
    rewrite decide_False by done. exists st'. by rewrite Nat2Z.id, drop_app_length. }
  apply app_eq_inv in Heq. destruct Heq as [(q & Hb & Hc)|(q & Hb & Hc)]; [by apply (Hdone q)|].
  destruct (decide (q = [])) as [->|Hq].
  { apply (Hdone []); [by rewrite Hb, !app_nil_r|done]. }
  rewrite Hb in Hl. destruct (stream_more st t buf q Hl Hq) as (n & st' & -> & Hn & Hl').
  cbn [mbind option_bind]. rewrite decide_True by done. apply (IH st' _ _ Hl').
  - by rewrite <- app_assoc, <- Hc.
  - left. rewrite length_app. destruct q; [done|cbn; lia].
Qed.
End Feed.

(** ** Primitive types *)

(** A proper prefix of an encoding asks for more data and uses up nothing. *)
Class OerPrefixLaw (T : Type) `{L : OerTypeLaws T} :=
  oer_prefix : forall t p q, oer_dom t -> oer_octets t = p ++ q -> q <> [] ->
    oer_decoder p = Some (RC_WMORE, 0, None).

Definition primitive_stream (T : Type) `{OerType T} : OerStream T := {|
  oer_struct := T;
  oer_value t := t;
  oer_step _ buf := oer_decoder buf
|}.

Definition primitive_stream_laws (T : Type) `{L : OerTypeLaws T} `{!OerPrefixLaw T} :
  @OerStreamLaws T _ L (primitive_stream T).
Proof.
  unshelve refine (@Build_OerStreamLaws T _ L (primitive_stream T) (fun _ t bs => oer_dom t /\ bs = oer_octets t) _ _ _).
  - done.
  - intros st t p q [Hd Hb] Hq. exists 0, None. split_and!; [by apply (oer_prefix t p q)|done|lia|done|done].
  - intros st t bs rest [Hd ->]. exists t. split; [by apply oer_dec_law|done].
Defined.

#[export] Instance boolean_prefix : @OerPrefixLaw BOOLEAN_t _ boolean_oer_laws.
Proof.
  intros t p q Hd Hb Hq. cbn in Hb. destruct p as [|b p]; [done|]. injection Hb as _ Hb.
  by destruct p, q.
Qed.

(** A cut falls into the first part or behind it. *)
Lemma cut_app (a b p q : list Z) : a ++ b = p ++ q ->
  (exists k, a = p ++ k /\ k <> []) \/ (exists k, p = a ++ k /\ b = k ++ q).
Proof.
  intros Heq. apply app_eq_inv in Heq. destruct Heq as [(k & Hk & Hc)|Hk]; [|by right].
  destruct k as [|x k]; [|left; by exists (x :: k)]. right. exists []. by rewrite app_nil_r in *.
Qed.

(** A length determinant with its octets, cut short. *)
Lemma cut_length_octets n m p q : 0 <= n < 2 ^ 64 -> oer_length_octets n ++ m = p ++ q -> q <> [] ->
  oer_fetch_length p = (0, 0) \/
  exists m', p = oer_length_octets n ++ m' /\ m = m' ++ q.
Proof.
  intros Hn Heq Hq. destruct (cut_app _ _ _ _ Heq) as [(k & Hp & Hne)|(k & Hp & Hk)]; [|right; by exists k].
  left. replace p with (take (length p) (oer_length_octets n)) by (by rewrite Hp, take_app_length).
  apply oer_fetch_length_short; [lia|]. rewrite Hp, length_app. destruct k; [done|cbn; lia].
Qed.

Lemma native_prefix specs ct : @OerPrefixLaw Z _ (native_oer_laws specs ct).
Proof.
  intros v p q Hd Hb Hq. cbn in Hb, Hd |- *. unfold NativeInteger_decode_oer.
  assert (Hi : INTEGER_decode_oer ct p = Some (RC_WMORE, 0, None)); [|by rewrite Hi].
  pose proof (useful_octets _ _ _ Hd) as (Hok & Hne & H8 & _). destruct Hd as (_ & _ & Hw0 & _).
  unfold INTEGER_decode_oer, oer_int_octets in *. destruct (Z.eqb_spec (width ct) 0) as [Hw|Hw]; cbn [negb andb].
  - set (m := if positive ct then _ else _) in *. clearbody m.
    destruct (cut_length_octets (Z.of_nat (length m)) _ _ _ ltac:(change (2 ^ 64) with 18446744073709551616; lia) Hb Hq)
      as [->|(m' & -> & Hm)]; [done|].
    rewrite oer_fetch_length_ok by (split; [lia|]; change RSIZE_MAX with 9223372036854775807; lia).
    pose proof (length_octets_pos (Z.of_nat (length m))). set (l := oer_length_octets _) in *.
    rewrite Nat2Z.id, drop_app_length. apply (f_equal length) in Hm. rewrite length_app in Hm.
    destruct q; [done|]. cbn [length] in Hm. by zcases.
  - apply (f_equal length) in Hb. rewrite length_be_bytes, length_app in Hb. change (Z.to_nat 0) with 0%nat.
    rewrite drop_0. destruct q; [done|]. cbn [length] in Hb. by zcases.
Qed.

Lemma string_prefix sub ct_size : @OerPrefixLaw OCTET_STRING_t _ (string_oer_laws sub ct_size).
Proof.
  intros st p q Hd Hb Hq. cbn in Hb, Hd |- *. destruct Hd as (Hok & Hmax & unit & Hunit & Hsize).
  unfold OCTET_STRING_decode_oer, oer_string_octets in *. rewrite Hunit. destruct st as [m]. cbn [os_buf] in *.
  destruct (0 <=? ct_size).
  - cbn [app] in Hb. rewrite <- Hsize. change (Z.to_nat 0) with 0%nat. rewrite drop_0.
    apply (f_equal length) in Hb. rewrite length_app in Hb. destruct q; [done|]. cbn [length] in Hb. by zcases.
  - change RSIZE_MAX with 9223372036854775807 in Hmax.
    destruct (cut_length_octets (Z.of_nat (length m)) _ _ _ ltac:(change (2 ^ 64) with 18446744073709551616; lia) Hb Hq)
      as [->|(m' & -> & Hm)]; [done|].
    rewrite oer_fetch_length_ok by (split; [lia|]; change RSIZE_MAX with 9223372036854775807; lia).
    pose proof (length_octets_pos (Z.of_nat (length m))). set (l := oer_length_octets _) in *.
    rewrite Nat2Z.id, drop_app_length, Hsize. apply (f_equal length) in Hm. rewrite length_app in Hm.
    destruct q; [done|]. cbn [length] in Hm. by zcases.
Qed.
