(* ===== verification/OerSetOf.v ===== *)
(** * SEQUENCE OF and SET OF in OER (support/constr_SET_OF_oer.c)

    A quantity field and the elements.  The decoder is a state machine that
    can stop at any octet and be resumed; its elements are resumable
    themselves, and the list type is resumable again. *)
From S2P Require Import Prelude Outcome Consumer BitData PerSupport PerNatural PerCodec AsnInteger UperInteger OpenType.
From S2P Require Import SequenceOf Oer OerStream.

(** ** The quantity *)

(** Return value and [*qty_r]. *)
Definition oer_fetch_quantity (buf : list Z) : Z * Z :=
  let '(len_len, len) := oer_fetch_length buf in
  if len_len <=? 0 then (len_len, 0) else
  if Z.of_nat (length buf) <? u64 (len_len + len) then (0, 0) else
  let b := drop_zeros (take (Z.to_nat len) (drop (Z.to_nat len_len) buf)) in
  if 8 <? Z.of_nat (length b) then (-1, 0) else
  let qty := foldl (fun qty b => u64 (u64 (qty ≪ 8) + b)) 0 b in
  if RSIZE_MAX <? qty then (-1, 0) else (len_len + len, qty).

(** do *b-- = qty; while(qty >>= 8): the octets in front of [acc]. *)
Fixpoint qty_loop (fuel : nat) (qty : Z) (acc : list Z) : list Z :=
  match fuel with
  | O => acc
  | S fuel =>
    let acc := u8 qty :: acc in
    let qty := qty ≫ 8 in
    if qty =? 0 then acc else qty_loop fuel qty acc
  end.

(** A size_t has eight octets. *)
Definition oer_put_quantity {S} `{Consumer S} (qty : Z) (key : S) : Z * S :=
  let octets := qty_loop 8 qty [] in
  let buf := u8 (Z.of_nat (length octets)) :: octets in
  let '(rc, key) := consume buf key in
  (if rc <? 0 then -1 else Z.of_nat (length buf), key).

(** ** Encoding *)

Section Encode.
Context {T : Type} `{OerType T} {S : Type} `{C : Consumer S}.

(** A null element is handed to the element's encoder, which reads it. *)
Fixpoint put_oer_elems (l : asn_anonymous_set_ T) (computed_size : Z) (key : S) : option (Z * S) :=
  match l with
  | [] => Some (computed_size, key)
  | memb_ptr :: l =>
    t ← memb_ptr;
    '(encoded, key) ← oer_encoder S C t key;
    if encoded <? 0 then Some (encoded, key) else put_oer_elems l (computed_size + encoded) key
  end.

Definition SET_OF_encode_oer (l : asn_anonymous_set_ T) (key : S) : option (Z * S) :=
  let '(qty_len, key) := oer_put_quantity (Z.of_nat (length l)) key in
  if qty_len <? 0 then Some (-1, key) else put_oer_elems l qty_len key.
End Encode.

(** ** Decoding *)

(** The structure: the element array and the decoder context
    (asn_struct_ctx_t), [sctx_ptr] being the element under construction. *)
Record set_of_struct (E : Type) := {
  sctx_phase : Z;
  sctx_left : Z;
  sctx_ptr : option E;
  sctx_list : asn_anonymous_set_ E
}.
Arguments Build_set_of_struct {E}.
Arguments sctx_phase {E}.
Arguments sctx_left {E}.
Arguments sctx_ptr {E}.
Arguments sctx_list {E}.

Section Decode.
Context {T : Type} `{St : OerStream T}.
Implicit Types st : set_of_struct oer_struct.

Definition fresh_set_of : set_of_struct oer_struct :=
  {| sctx_phase := 0; sctx_left := 0; sctx_ptr := None; sctx_list := [] |}.

Definition set_phase st (phase : Z) : set_of_struct oer_struct :=
  {| sctx_phase := phase; sctx_left := sctx_left st; sctx_ptr := sctx_ptr st; sctx_list := sctx_list st |}.

(** The loop of phase 1: [n] is ctx->left, [base_ctx_left] its value before
    the loop, [consumed] what this call has used up and [base_consumed] what
    it had before the loop (ptr is base_ptr when they are equal). *)
Fixpoint set_of_elems (n : nat) (base_ctx_left base_consumed consumed : Z) st (buf : list Z) :
    option (asn_dec_rval_code * Z * set_of_struct oer_struct) :=
  match n with
  | O => Some (RC_OK, consumed, set_phase st 2)
  | S n' =>
    '(code, c, ptr) ← oer_step (sctx_ptr st) buf;
    let consumed := consumed + c in
    let st := {| sctx_phase := 1; sctx_left := Z.of_nat n; sctx_ptr := ptr; sctx_list := sctx_list st |} in
    match code with
    | RC_OK =>
      let '(rc, list) := asn_set_add (sctx_list st) ptr in
      if negb (rc =? 0) then Some (RC_FAIL, consumed, st) else
      let st := {| sctx_phase := 1; sctx_left := Z.of_nat n; sctx_ptr := None; sctx_list := list |} in
      if (c =? 0) && (consumed =? base_consumed) && (200 <? base_ctx_left - Z.of_nat n)
      then Some (RC_FAIL, 0, st)
      else
        set_of_elems n' base_ctx_left base_consumed consumed
          {| sctx_phase := 1; sctx_left := Z.of_nat n'; sctx_ptr := None; sctx_list := list |}
          (drop (Z.to_nat c) buf)
    | RC_WMORE => Some (RC_WMORE, consumed, st)
    | RC_FAIL =>
      Some (RC_FAIL, consumed,
            {| sctx_phase := 3; sctx_left := Z.of_nat n; sctx_ptr := None; sctx_list := sctx_list st |})
    end
  end.

(** Phase 1 on, having consumed [consumed] octets in this call. *)
Definition set_of_phase1 st (consumed : Z) (buf : list Z) :=
  set_of_elems (Z.to_nat (sctx_left st)) (sctx_left st) consumed consumed st buf.

Definition SET_OF_decode_oer (struct_ptr : option (set_of_struct oer_struct)) (buf : list Z) :
    option (asn_dec_rval_code * Z * set_of_struct oer_struct) :=
  let st := default fresh_set_of struct_ptr in
  if sctx_phase st =? 0 then
    let '(len_size, length) := oer_fetch_quantity buf in
    if len_size =? 0 then Some (RC_WMORE, 0, st)
    else if len_size =? -1 then Some (RC_FAIL, 0, st)
    else
      set_of_phase1 {| sctx_phase := 1; sctx_left := length; sctx_ptr := sctx_ptr st; sctx_list := sctx_list st |}
        len_size (drop (Z.to_nat len_size) buf)
  else if sctx_phase st =? 1 then set_of_phase1 st 0 buf
  else if sctx_phase st =? 2 then (if sctx_left st =? 0 then Some (RC_OK, 0, st) else None)
  else Some (if sctx_phase st =? 3 then RC_FAIL else RC_OK, 0, st).

(** The elements decoded, as values. *)
Definition set_of_value st : asn_anonymous_set_ T := option_map oer_value <$> sctx_list st.

#[local] Instance SET_OF_stream : OerStream (asn_anonymous_set_ T) := {
  oer_struct := set_of_struct oer_struct;
  oer_value := set_of_value;
  oer_step struct_ptr buf := '(code, n, st) ← SET_OF_decode_oer struct_ptr buf; Some (code, n, Some st)
}.

#[local] Instance SET_OF_oer `{OerType T} : OerType (asn_anonymous_set_ T) := {
  oer_encoder S C l key := SET_OF_encode_oer l key;
  oer_decoder buf := '(code, n, st) ← SET_OF_decode_oer None buf; Some (code, n, Some (set_of_value st))
}.
End Decode.

(** ** Lemmas: the quantity *)

Lemma be_val_app1 m b : be_val (m ++ [b]) = 256 * be_val m + b.
Proof.
  induction m as [|x m IH]; [cbn; lia|]. cbn [app be_val]. rewrite IH, length_app. cbn [length].
  rewrite Nat.add_1_r, pow2_8_succ. lia.
Qed.

Lemma qty_loop_ok fuel qty acc : (0 < fuel)%nat -> 0 <= qty < 2 ^ (8 * Z.of_nat fuel) ->
  exists m, qty_loop fuel qty acc = m ++ acc /\ bytes_ok m /\ (1 <= length m <= fuel)%nat /\ be_val m = qty.
Proof.
  revert qty acc. induction fuel as [|fuel IH]; intros qty acc Hf Hq; [lia|]. cbn [qty_loop].
  rewrite shiftr_div by lia. destruct (Z.eqb_spec (qty / 2 ^ 8) 0) as [E|E].
  - exists [u8 qty]. split_and!; [done|apply bytes_ok_cons; [apply u8_ok|apply bytes_ok_nil]|cbn; lia..|].
    cbn. unfold u8. Z.div_mod_to_equations; lia.
  - rewrite pow2_8_succ in Hq. destruct fuel as [|fuel].
    { exfalso. apply E. change (2 ^ (8 * Z.of_nat 0)) with 1 in Hq. change (2 ^ 8) with 256. apply Z.div_small. lia. }
    destruct (IH (qty / 2 ^ 8) (u8 qty :: acc)) as (m & -> & Hok & Hlen & Hval); [lia| |].
    { change (2 ^ 8) with 256. split; [apply Z.div_pos; lia|]. apply Z.div_lt_upper_bound; lia. }
    exists (m ++ [u8 qty]). rewrite <- app_assoc, length_app. split_and!; [done| |cbn; lia..|].
    + apply bytes_ok_app; [done|]. apply bytes_ok_cons; [apply u8_ok|apply bytes_ok_nil].
    + rewrite be_val_app1, Hval. unfold u8. change (2 ^ 8) with 256. Z.div_mod_to_equations; lia.
Qed.

Definition qty_octets (qty : Z) : list Z :=
  let octets := qty_loop 8 qty [] in Z.of_nat (length octets) :: octets.

Lemma qty_octets_split qty : 0 <= qty <= RSIZE_MAX -> exists m, qty_octets qty = Z.of_nat (length m) :: m /\
  qty_loop 8 qty [] = m /\ bytes_ok m /\ (1 <= length m <= 8)%nat /\ be_val m = qty.
Proof.
  intros Hq. change RSIZE_MAX with 9223372036854775807 in Hq.
  destruct (qty_loop_ok 8 qty []) as (m & Hm & Hok & Hlen & Hval); [lia|change (2 ^ (8 * Z.of_nat 8)) with 18446744073709551616; lia|].
  rewrite app_nil_r in Hm. exists m. unfold qty_octets. by rewrite Hm.
Qed.

Lemma oer_put_quantity_ok {S} `{AppendConsumer S} qty (key : S) : 0 <= qty <= RSIZE_MAX ->
  exists key', oer_put_quantity qty key = (Z.of_nat (length (qty_octets qty)), key') /\
    written key' = written key ++ qty_octets qty.
Proof.
  intros Hq. destruct (qty_octets_split qty Hq) as (m & -> & Hm & _ & Hlen & _). unfold oer_put_quantity.
  rewrite Hm, u8_small by (unfold byte_ok; lia).
  destruct (consume_append (Z.of_nat (length m) :: m) key) as (key' & -> & Hw). by exists key'.
Qed.

Lemma short_length n l : 0 <= n <= 127 -> oer_fetch_length (n :: l) = (1, n).
Proof. intros Hn. cbn [oer_fetch_length]. by rewrite oer_short_octet. Qed.

Lemma oer_fetch_quantity_ok qty rest : 0 <= qty <= RSIZE_MAX ->
  oer_fetch_quantity (qty_octets qty ++ rest) = (Z.of_nat (length (qty_octets qty)), qty).
Proof.
  intros Hq. destruct (qty_octets_split qty Hq) as (m & -> & _ & Hok & Hlen & Hval).
  change RSIZE_MAX with 9223372036854775807 in Hq. unfold oer_fetch_quantity. cbn [app].
  rewrite short_length by lia. cbn [Z.leb Z.compare]. change (Z.to_nat 1) with 1%nat. cbn [drop length].
  rewrite drop_0, Nat2Z.id, take_app_length, u64_small, length_app by (change (2 ^ 64) with 18446744073709551616; lia).
  destruct (Z.ltb_spec (Z.of_nat (S (length m + length rest))) (1 + Z.of_nat (length m))); [lia|].
  pose proof (length_drop_zeros m). destruct (Z.ltb_spec 8 (Z.of_nat (length (drop_zeros m)))); [lia|].
  rewrite gather_be; [|by apply drop_zeros_ok|lia|
    rewrite be_val_drop_zeros, Hval; change (2 ^ 64) with 18446744073709551616; lia].
  rewrite be_val_drop_zeros, Hval, Z.mul_0_l, Z.add_0_l. change RSIZE_MAX with 9223372036854775807. zcase.
  f_equal. lia.
Qed.

Lemma oer_fetch_quantity_short qty p q : 0 <= qty <= RSIZE_MAX -> qty_octets qty = p ++ q -> q <> [] ->
  oer_fetch_quantity p = (0, 0).
Proof.
  intros Hq Heq Hne. destruct (qty_octets_split qty Hq) as (m & Hm & _ & Hok & Hlen & _). rewrite Hm in Heq.
  unfold oer_fetch_quantity. destruct p as [|n p]; [done|]. cbn [app] in Heq. injection Heq as <- Heq.
  rewrite short_length by lia. cbn [Z.leb Z.compare length].
  rewrite u64_small by (change (2 ^ 64) with 18446744073709551616; lia).
  apply (f_equal length) in Heq. rewrite length_app in Heq. destruct q; [done|]. cbn [length] in Heq. by zcases.
Qed.

(** ** Lemmas: encoding *)

Section EncodeSpec.
Context {T : Type} `{L : OerTypeLaws T}.

Definition oer_set_octets (l : list T) : list Z :=
  qty_octets (Z.of_nat (length l)) ++ concat (oer_octets <$> l).

Lemma put_oer_elems_ok {S} `{HC : Consumer S} `{HA : !AppendConsumer S} (l : list T) size (key : S) : Forall oer_dom l ->
  exists key', put_oer_elems (Some <$> l) size key = Some (size + Z.of_nat (length (concat (oer_octets <$> l))), key') /\
    written key' = written key ++ concat (oer_octets <$> l).
Proof.
  intros Hd. revert size key. induction Hd as [|t l Ht Hl IH]; intros size key.
  { exists key. cbn. by rewrite Z.add_0_r, app_nil_r. }
  cbn [put_oer_elems fmap list_fmap concat mbind option_bind].
  destruct (oer_enc_law S _ _ t key Ht) as (k1 & -> & Hw1). cbn [mbind option_bind].
  destruct (Z.ltb_spec (Z.of_nat (length (oer_octets t))) 0); [lia|].
  destruct (IH (size + Z.of_nat (length (oer_octets t))) k1) as (k2 & -> & Hw2). exists k2. split.
  - rewrite length_app. do 2 f_equal. lia.
  - by rewrite Hw2, Hw1, app_assoc.
Qed.

Lemma set_of_encode_oer_ok {S} `{HC : Consumer S} `{HA : !AppendConsumer S} (l : list T) (key : S) :
  Forall oer_dom l -> Z.of_nat (length l) <= RSIZE_MAX ->
  exists key', SET_OF_encode_oer (Some <$> l) key = Some (Z.of_nat (length (oer_set_octets l)), key') /\
    written key' = written key ++ oer_set_octets l.
Proof.
  intros Hd Hn. unfold SET_OF_encode_oer, oer_set_octets. rewrite length_fmap.
  destruct (oer_put_quantity_ok (Z.of_nat (length l)) key) as (k1 & -> & Hw1); [lia|].
  destruct (Z.ltb_spec (Z.of_nat (length (qty_octets (Z.of_nat (length l))))) 0); [lia|].
  destruct (put_oer_elems_ok l (Z.of_nat (length (qty_octets (Z.of_nat (length l))))) k1 Hd) as (k2 & -> & Hw2).
  exists k2. rewrite length_app, Nat2Z.inj_add. split; [done|]. by rewrite Hw2, Hw1, app_assoc.
Qed.
End EncodeSpec.

(** ** Lemmas: decoding *)

Section DecodeSpec.
Context {T : Type} `{L : OerTypeLaws T} `{St : !OerStream T} `{SL : !OerStreamLaws T}.
Implicit Types st : set_of_struct oer_struct.

(** The element under construction lacks [bs], the others are untouched. *)
Definition elems_left (ptr : option oer_struct) (ts : list T) (bs : list Z) : Prop :=
  match ts with
  | [] => bs = []
  | t :: todo => exists bs1, stream_left ptr t bs1 /\ bs = bs1 ++ concat (oer_octets <$> todo)
  end.

Lemma elems_start ts : Forall oer_dom ts -> elems_left None ts (concat (oer_octets <$> ts)).
Proof. destruct 1 as [|t ts Ht Hts]; [done|]. exists (oer_octets t). split; [by apply stream_start|done]. Qed.

(** The check against compression bombs cannot apply any more. *)
Definition no_bomb (base_ctx_left base_consumed consumed : Z) : Prop :=
  base_ctx_left <= 201 \/ base_consumed < consumed.

Lemma set_of_elems_step n base_left base consumed st t bs1 rest :
  stream_left (sctx_ptr st) t bs1 -> base <= consumed -> Z.of_nat (S n) <= base_left ->
  no_bomb base_left base consumed \/ bs1 <> [] ->
  exists st', set_of_value st' = set_of_value st ++ [Some t] /\ sctx_ptr st' = None /\
    no_bomb base_left base (consumed + Z.of_nat (length bs1)) /\ sctx_phase st' = 1 /\ sctx_left st' = Z.of_nat n /\
    set_of_elems (S n) base_left base consumed st (bs1 ++ rest) =
    set_of_elems n base_left base (consumed + Z.of_nat (length bs1)) st' rest.
Proof.
  intros Hl Hbase Hn Hbomb. destruct (stream_done (sctx_ptr st) t bs1 rest Hl) as (e & Hstep & Hv).
  exists {| sctx_phase := 1; sctx_left := Z.of_nat n; sctx_ptr := None; sctx_list := sctx_list st ++ [Some e] |}.
  assert (Hnext : no_bomb base_left base (consumed + Z.of_nat (length bs1))).
  { destruct Hbomb as [[?|?]|?]; [by left|right; lia|]. right. destruct bs1; [done|]. cbn [length]. lia. }
  split_and!; [|done..|].
  - unfold set_of_value. cbn [sctx_list]. rewrite fmap_app. cbn [fmap list_fmap option_map]. by rewrite Hv.
  - cbn [set_of_elems]. rewrite Hstep. cbn [mbind option_bind asn_set_add sctx_list negb Z.eqb].
    assert (Hb : (Z.of_nat (length bs1) =? 0) && (consumed + Z.of_nat (length bs1) =? base) &&
      (200 <? base_left - Z.of_nat (S n)) = false).
    { destruct (Z.eqb_spec (consumed + Z.of_nat (length bs1)) base); [|by rewrite andb_false_r].
      destruct Hnext as [?|?]; [|lia]. rewrite andb_comm. by zcase. }
    by rewrite Hb, Nat2Z.id, drop_app_length.
Qed.

Lemma set_of_elems_done ts base_left base consumed st rest :
  sctx_ptr st = None -> Forall oer_dom ts -> Z.of_nat (length ts) <= base_left -> base <= consumed ->
  no_bomb base_left base consumed ->
  exists st', set_of_elems (length ts) base_left base consumed st (concat (oer_octets <$> ts) ++ rest) =
      Some (RC_OK, consumed + Z.of_nat (length (concat (oer_octets <$> ts))), st') /\
    set_of_value st' = set_of_value st ++ (Some <$> (ts : list T)).
Proof.
  intros Hp Hd. revert consumed st Hp. induction Hd as [|t todo Ht Hd IH]; intros consumed st Hp Hn Hbase Hbomb.
  { exists (set_phase st 2). cbn. by rewrite Z.add_0_r, app_nil_r. }
  cbn [fmap list_fmap concat length] in *. rewrite <- app_assoc.
  destruct (set_of_elems_step (length todo) base_left base consumed st t (oer_octets t)
    (concat (oer_octets <$> todo) ++ rest)) as (st1 & Hv1 & Hp1 & Hb1 & _ & _ & ->);
    [rewrite Hp; by apply stream_start|done|lia|by left|].
  destruct (IH (consumed + Z.of_nat (length (oer_octets t))) st1 Hp1) as (st' & -> & Hv'); [lia|lia|done|].
  exists st'. rewrite length_app, Hv', Hv1, <- app_assoc. split; [do 3 f_equal; lia|done].
Qed.

(** Data that ends inside the elements. *)
Lemma set_of_elems_more ts base_left base consumed st p q bs1 t todo :
  ts = t :: todo -> stream_left (sctx_ptr st) t bs1 -> p ++ q = bs1 ++ concat (oer_octets <$> todo) -> q <> [] ->
  Forall oer_dom todo -> Z.of_nat (length ts) <= base_left -> base <= consumed ->
  no_bomb base_left base consumed \/ bs1 <> [] ->
  exists n st' pre t' todo' bs', set_of_elems (length ts) base_left base consumed st p = Some (RC_WMORE, consumed + n, st') /\
    0 <= n <= Z.of_nat (length p) /\ sctx_phase st' = 1 /\ ts = pre ++ t' :: todo' /\
    sctx_left st' = Z.of_nat (length (t' :: todo')) /\ set_of_value st' = set_of_value st ++ (Some <$> (pre : list T)) /\
    stream_left (sctx_ptr st') t' bs' /\ bs' <> [] /\
    drop (Z.to_nat n) p ++ q = bs' ++ concat (oer_octets <$> todo').
Proof.
  revert consumed st p bs1 t todo.
  induction ts as [|t0 ts IH]; intros consumed st p bs1 t todo [= -> ->] Hl Heq Hq Hd Hn Hbase Hbomb.
  assert (Hgo : forall p', p = bs1 ++ p' -> p' ++ q = concat (oer_octets <$> todo) ->
    exists n st' pre t' todo' bs', set_of_elems (length (t :: todo)) base_left base consumed st p =
        Some (RC_WMORE, consumed + n, st') /\
      0 <= n <= Z.of_nat (length p) /\ sctx_phase st' = 1 /\ t :: todo = pre ++ t' :: todo' /\
      sctx_left st' = Z.of_nat (length (t' :: todo')) /\ set_of_value st' = set_of_value st ++ (Some <$> (pre : list T)) /\
      stream_left (sctx_ptr st') t' bs' /\ bs' <> [] /\
      drop (Z.to_nat n) p ++ q = bs' ++ concat (oer_octets <$> todo')).
  { intros p' -> Heq'. cbn [length] in *.
    destruct (set_of_elems_step (length todo) base_left base consumed st t bs1 p')
      as (st1 & Hv1 & Hp1 & Hb1 & _ & _ & ->); [done|done|lia|done|].
    destruct todo as [|t1 todo]; [by destruct p', q|]. apply Forall_cons in Hd as [Ht1 Hd].
    destruct (IH (consumed + Z.of_nat (length bs1)) st1 p' (oer_octets t1) t1 todo)
      as (n & st' & pre & t' & todo' & bs' & Hr & Hn' & Hph & Hts & Hleft & Hv & Hl' & Hne & Hrest);
      [done|rewrite Hp1; by apply stream_start|done|done|done|cbn [length] in *; lia|lia|by left|].
    exists (Z.of_nat (length bs1) + n), st', (t :: pre), t', todo', bs'.
    split_and!; [rewrite Hr; do 3 f_equal; lia|lia|rewrite length_app; lia|done|by rewrite Hts|done| |done|done|].
    - rewrite Hv, Hv1, <- app_assoc. done.
    - rewrite Z2Nat.inj_add, Nat2Z.id by lia. rewrite <- drop_drop, drop_app_length. exact Hrest. }
  apply app_eq_inv in Heq. destruct Heq as [(k & Hk & Hc)|(k & Hk & Hc)]; [by apply (Hgo k)|].
  destruct (decide (k = [])) as [->|Hkne].
  { rewrite app_nil_r in Hk. subst p. apply (Hgo []); [by rewrite app_nil_r|done]. }
  clear Hgo. rewrite Hk in Hl. destruct (stream_more _ t p k Hl Hkne) as (n & e & Hstep & Hn' & Hl').
  exists n, {| sctx_phase := 1; sctx_left := Z.of_nat (length (t :: todo)); sctx_ptr := e; sctx_list := sctx_list st |}.
  exists [], t, todo, (drop (Z.to_nat n) p ++ k). cbn [set_of_elems length]. rewrite Hstep. cbn [mbind option_bind].
  split_and!; [done|lia|lia|done|done|done| |done| |].
  - unfold set_of_value. cbn [sctx_list fmap list_fmap]. by rewrite app_nil_r.
  - intros Hnil. by apply app_eq_nil in Hnil as [_ ?].
  - by rewrite Hc, app_assoc.
Qed.

(** ** Specification *)

(** The elements are encodable, their number a size_t, and if there are more
    than 201 the first is not empty. *)
Definition oer_set_dom (vs : list T) : Prop :=
  Forall oer_dom vs /\ Z.of_nat (length vs) <= RSIZE_MAX /\
  (Z.of_nat (length vs) <= 201 \/ exists t todo, vs = t :: todo /\ oer_octets t <> []).

(** Not begun: everything is left.  In phase 1 the element under construction
    and the ones behind it are left. *)
Inductive set_left : option (set_of_struct oer_struct) -> asn_anonymous_set_ T -> list Z -> Prop :=
| left_begin struct_ptr vs : oer_set_dom vs -> default fresh_set_of struct_ptr = fresh_set_of ->
    set_left struct_ptr (Some <$> (vs : list T)) (oer_set_octets vs)
| left_within st pre t todo bs1 : Forall oer_dom todo -> sctx_phase st = 1 ->
    sctx_left st = Z.of_nat (length (t :: todo)) -> set_of_value st = Some <$> (pre : list T) ->
    stream_left (sctx_ptr st) t bs1 -> bs1 <> [] ->
    set_left (Some st) (Some <$> ((pre ++ t :: todo) : list T)) (bs1 ++ concat (oer_octets <$> todo)).

Lemma phase1_more st pre t todo bs1 p q consumed base_left : Forall oer_dom todo ->
  sctx_left st = base_left -> base_left = Z.of_nat (length (t :: todo)) -> set_of_value st = Some <$> (pre : list T) ->
  stream_left (sctx_ptr st) t bs1 -> base_left <= 201 \/ bs1 <> [] ->
  p ++ q = bs1 ++ concat (oer_octets <$> todo) -> q <> [] ->
  exists n st', set_of_phase1 st consumed p = Some (RC_WMORE, consumed + n, st') /\ 0 <= n <= Z.of_nat (length p) /\
    set_left (Some st') (Some <$> ((pre ++ t :: todo) : list T)) (drop (Z.to_nat n) p ++ q).
Proof.
  intros Hd Hleft Hb Hv Hl Hbomb Heq Hq. unfold set_of_phase1. rewrite Hleft, Hb, Nat2Z.id.
  destruct (set_of_elems_more (t :: todo) (Z.of_nat (length (t :: todo))) consumed consumed st p q bs1 t todo)
    as (n & st' & pre' & t' & todo' & bs' & Hr & Hn & Hph & Hts & Hleft' & Hv' & Hl' & Hne & Hrest);
    try done; [lia..|unfold no_bomb; rewrite <- Hb; tauto|].
  exists n, st'. split_and!; [done|lia|lia|]. rewrite Hrest, Hts, app_assoc. constructor; try done.
  - assert (Hall : todo' ⊆ todo) by
      (destruct pre'; [by injection Hts as -> ->|injection Hts as _ ->; set_solver]).
    rewrite Forall_forall in *. intros x Hx. by apply Hd, Hall.
  - rewrite Hv', Hv. by rewrite fmap_app.
Qed.

Lemma phase1_done st pre t todo bs1 rest consumed base_left : Forall oer_dom todo ->
  sctx_left st = base_left -> base_left = Z.of_nat (length (t :: todo)) -> set_of_value st = Some <$> (pre : list T) ->
  stream_left (sctx_ptr st) t bs1 -> base_left <= 201 \/ bs1 <> [] ->
  exists st', set_of_phase1 st consumed ((bs1 ++ concat (oer_octets <$> todo)) ++ rest) =
      Some (RC_OK, consumed + Z.of_nat (length (bs1 ++ concat (oer_octets <$> todo))), st') /\
    set_of_value st' = Some <$> ((pre ++ t :: todo) : list T).
Proof.
  intros Hd Hleft Hb Hv Hl Hbomb. unfold set_of_phase1. rewrite Hleft, Hb, Nat2Z.id, <- app_assoc. cbn [length] in *.
  destruct (set_of_elems_step (length todo) (Z.of_nat (S (length todo))) consumed consumed st t bs1
    (concat (oer_octets <$> todo) ++ rest)) as (st1 & Hv1 & Hp1 & Hb1 & _ & _ & ->);
    [done|lia|lia|unfold no_bomb; rewrite <- Hb; tauto|].
  destruct (set_of_elems_done todo (Z.of_nat (S (length todo))) consumed (consumed + Z.of_nat (length bs1)) st1 rest Hp1 Hd)
    as (st' & -> & Hv'); [lia|lia|done|].
  exists st'. rewrite length_app, Hv', Hv1, Hv, fmap_app, <- app_assoc. split; [do 3 f_equal; lia|done].
Qed.

Lemma quantity_nonzero n : 0 <= n <= RSIZE_MAX -> Z.of_nat (length (qty_octets n)) > 0.
Proof. intros Hn. unfold qty_octets. cbn [length]. lia. Qed.

(** The quantity has been read and [buf] is behind it. *)
Lemma phase0_quantity struct_ptr vs buf : default fresh_set_of struct_ptr = fresh_set_of ->
  Z.of_nat (length vs) <= RSIZE_MAX -> let qty := qty_octets (Z.of_nat (length (vs : list T))) in
  SET_OF_decode_oer struct_ptr (qty ++ buf) =
  set_of_phase1 {| sctx_phase := 1; sctx_left := Z.of_nat (length vs); sctx_ptr := None; sctx_list := [] |}
    (Z.of_nat (length qty)) buf.
Proof.
  cbn zeta. intros Hf Hn. unfold SET_OF_decode_oer. rewrite Hf. cbn [fresh_set_of sctx_phase Z.eqb sctx_ptr sctx_list].
  rewrite oer_fetch_quantity_ok by lia. pose proof (quantity_nonzero (Z.of_nat (length vs)) ltac:(lia)).
  zcases. by rewrite Nat2Z.id, drop_app_length.
Qed.

Lemma set_more struct_ptr l p q : set_left struct_ptr l (p ++ q) -> q <> [] ->
  exists n (ptr' : option (set_of_struct oer_struct)),
    oer_step (OerStream := SET_OF_stream) struct_ptr p = Some (RC_WMORE, n, ptr') /\
    0 <= n <= Z.of_nat (length p) /\ set_left ptr' l (drop (Z.to_nat n) p ++ q).
Proof.
  intros Hl Hq. remember (p ++ q) as bs eqn:Hbs. cbn [oer_step SET_OF_stream].
  destruct Hl as [struct_ptr vs Hd Hf|st pre t todo bs1 Hd Hph Hleft Hv Hl Hne].
  - unfold oer_set_octets in Hbs. destruct Hd as (Hall & Hn & Hbomb).
    destruct (cut_app _ _ _ _ Hbs) as [(k & Hk & Hkne)|(k & -> & Hk)].
    + exists 0, (Some fresh_set_of). unfold SET_OF_decode_oer. rewrite Hf.
      cbn [fresh_set_of sctx_phase Z.eqb]. rewrite (oer_fetch_quantity_short (Z.of_nat (length vs)) p k) by (done || lia).
      split_and!; [done|lia|lia|]. change (Z.to_nat 0) with 0%nat. rewrite drop_0, <- Hbs. by constructor.
    + rewrite phase0_quantity by done.
      destruct vs as [|t todo]; [by destruct k, q|]. apply Forall_cons in Hall as [Ht Hall].
      destruct (phase1_more {| sctx_phase := 1; sctx_left := Z.of_nat (length (t :: todo)); sctx_ptr := None; sctx_list := [] |}
        [] t todo (oer_octets t) k q (Z.of_nat (length (qty_octets (Z.of_nat (length (t :: todo)))))) (Z.of_nat (length (t :: todo))))
        as (n & st' & -> & Hn' & Hl'); try done; [by apply stream_start| |].
      { destruct Hbomb as [?|(t' & todo' & [= <- <-] & ?)]; [by left|by right]. }
      cbn [mbind option_bind]. eexists _, _. split_and!; [done|lia|rewrite length_app; lia|].
      rewrite Z2Nat.inj_add, Nat2Z.id by lia. by rewrite <- drop_drop, drop_app_length.
  - unfold SET_OF_decode_oer. cbn [default from_option id]. rewrite Hph. cbn [Z.eqb Pos.eqb].
    destruct (phase1_more st pre t todo bs1 p q 0 (Z.of_nat (length (t :: todo))) Hd Hleft eq_refl Hv Hl)
      as (n & st' & -> & Hn & Hl'); [by right|done|done|].
    cbn [mbind option_bind]. rewrite Z.add_0_l. by exists n, (Some st').
Qed.

Lemma set_done struct_ptr l bs rest : set_left struct_ptr l bs ->
  exists st', oer_step (OerStream := SET_OF_stream) struct_ptr (bs ++ rest) = Some (RC_OK, Z.of_nat (length bs), Some st') /\
    set_of_value st' = l.
Proof.
  intros Hl. cbn [oer_step SET_OF_stream]. destruct Hl as [struct_ptr vs Hd Hf|st pre t todo bs1 Hd Hph Hleft Hv Hl Hne].
  - unfold oer_set_octets. destruct Hd as (Hall & Hn & Hbomb). rewrite <- app_assoc, phase0_quantity by done.
    destruct vs as [|t todo].
    { eexists. cbn. rewrite app_nil_r. done. }
    apply Forall_cons in Hall as [Ht Hall].
    destruct (phase1_done {| sctx_phase := 1; sctx_left := Z.of_nat (length (t :: todo)); sctx_ptr := None; sctx_list := [] |}
      [] t todo (oer_octets t) rest (Z.of_nat (length (qty_octets (Z.of_nat (length (t :: todo)))))) (Z.of_nat (length (t :: todo))))
      as (st' & Hr & Hv'); try done; [by apply stream_start| |].
    { destruct Hbomb as [?|(t' & todo' & [= <- <-] & ?)]; [by left|by right]. }
    cbn [fmap list_fmap concat] in *. rewrite Hr. cbn [mbind option_bind]. exists st'. split; [|done].
    rewrite (length_app (qty_octets _)), Nat2Z.inj_add. done.
  - unfold SET_OF_decode_oer. cbn [default from_option id]. rewrite Hph. cbn [Z.eqb Pos.eqb].
    destruct (phase1_done st pre t todo bs1 rest 0 (Z.of_nat (length (t :: todo))) Hd Hleft eq_refl Hv Hl)
      as (st' & -> & Hv'); [by right|]. cbn [mbind option_bind]. by exists st'.
Qed.
End DecodeSpec.

(** ** The contracts *)

Lemma put_quantity_map {S1 S2} `{C1 : Consumer S1} `{C2 : Consumer S2} (f : S1 -> S2) qty key : consumer_morphism f ->
  oer_put_quantity qty (f key) = key_map f (oer_put_quantity qty key).
Proof.
  intros Hf. unfold oer_put_quantity. rewrite Hf. destruct (consume _ key) as [rc k]. unfold key_map. cbn [fst snd].
  by destruct (rc <? 0).
Qed.

Lemma put_oer_elems_map {S1 S2} {C1 : Consumer S1} {C2 : Consumer S2} (f : S1 -> S2) {T} `{L : OerTypeLaws T}
    (l : asn_anonymous_set_ T) size key : consumer_morphism f ->
  put_oer_elems l size (f key) = '(r, key) ← put_oer_elems l size key; Some (r, f key).
Proof.
  intros Hf. revert size key. induction l as [|[t|] l IH]; intros size key; [done| |done].
  cbn [put_oer_elems mbind option_bind]. rewrite (oer_enc_nat S1 S2 C1 C2 f Hf).
  destruct (oer_encoder S1 C1 t key) as [[e k]|]; [|done]. cbn [mbind option_bind].
  destruct (e <? 0); [done|]. apply IH.
Qed.

Lemma oer_set_octets_ok {T} `{L : OerTypeLaws T} (vs : list T) : oer_set_dom vs -> bytes_ok (oer_set_octets vs).
Proof.
  intros (Hd & Hn & _). unfold oer_set_octets. apply bytes_ok_app.
  - destruct (qty_octets_split (Z.of_nat (length vs))) as (m & -> & _ & Hok & Hlen & _); [lia|].
    apply bytes_ok_cons; [unfold byte_ok; lia|done].
  - clear Hn. induction Hd as [|t vs Ht Hd IH]; [apply bytes_ok_nil|]. cbn. apply bytes_ok_app; [by apply oer_octets_ok|done].
Qed.

Lemma step_result_inj {A B C} (a a' : A) (b b' : B) (c c' : C) :
  Some (a, b, Some c) = Some (a', b', Some c') -> a = a' /\ b = b' /\ c = c'.
Proof. by intros [= -> -> ->]. Qed.

Definition set_of_oer_laws {T} `{L : OerTypeLaws T} `{St : !OerStream T} `{SL : !OerStreamLaws T} :
  @OerTypeLaws (asn_anonymous_set_ T) SET_OF_oer.
Proof.
  refine (@Build_OerTypeLaws (asn_anonymous_set_ T) SET_OF_oer
    (fun l : list (option T) => exists vs : list T, l = Some <$> vs /\ oer_set_dom vs)
    (fun l : list (option T) => oer_set_octets (omap id l)) _ _ _ _).
  - intros l (vs & -> & Hd). rewrite omap_Some. by apply oer_set_octets_ok.
  - intros S C A l key (vs & -> & (Hd & Hn & _)). rewrite omap_Some. by apply set_of_encode_oer_ok.
  - intros S1 S2 C1 C2 f Hf l key. cbn [oer_encoder SET_OF_oer]. unfold SET_OF_encode_oer.
    rewrite put_quantity_map by done. destruct (oer_put_quantity _ key) as [r k]. cbn [key_map fst snd].
    destruct (r <? 0); [done|]. by apply put_oer_elems_map.
  - intros l rest (vs & -> & Hd). rewrite omap_Some.
    destruct (set_done None (Some <$> vs) (oer_set_octets vs) rest) as (st' & Hr & Hv).
    { by constructor. }
    cbn [oer_step SET_OF_stream] in Hr. cbn [oer_decoder SET_OF_oer].
    destruct (SET_OF_decode_oer None _) as [[[code n] st]|]; [|done]. cbn [mbind option_bind] in *.
    apply step_result_inj in Hr as (-> & -> & ->). by rewrite Hv.
Defined.

(** Lists of resumable elements are resumable. *)
Definition set_of_stream_laws {T} `{L : OerTypeLaws T} `{St : !OerStream T} `{SL : !OerStreamLaws T} :
  @OerStreamLaws (asn_anonymous_set_ T) SET_OF_oer set_of_oer_laws SET_OF_stream.
Proof.
  unshelve refine (@Build_OerStreamLaws (asn_anonymous_set_ T) SET_OF_oer set_of_oer_laws SET_OF_stream set_left _ _ _).
  - intros l (vs & -> & Hd). cbn [oer_octets set_of_oer_laws]. rewrite omap_Some. by constructor.
  - intros struct_ptr l p q Hl Hq. by apply set_more.
  - intros struct_ptr l bs rest Hl. destruct (set_done struct_ptr l bs rest Hl) as (st' & -> & Hv). by exists st'.
Defined.

(** ** Properties *)

(** For every element type that keeps its contracts: a list is encoded as
    its quantity and its elements; and however that encoding, with anything
    behind it, is cut into chunks, the decoder, called with each chunk behind
    the octets it did not use, comes to RC_OK with the same list and leaves
    exactly what is behind it. *)
Theorem set_of_oer_resumable {T} `{L : OerTypeLaws T} `{St : !OerStream T} `{SL : !OerStreamLaws T}
    {S} `{AppendConsumer S} (vs : list T) (key : S) (rest : list Z) (chunks : list (list Z)) :
  oer_set_dom vs -> concat chunks = oer_set_octets vs ++ rest ->
  (exists key', SET_OF_encode_oer (Some <$> vs) key = Some (Z.of_nat (length (oer_set_octets vs)), key') /\
     written key' = written key ++ oer_set_octets vs) /\
  exists st, oer_feed (H := SET_OF_stream) chunks None [] = Some (RC_OK, rest, Some st) /\
    set_of_value st = Some <$> vs.
Proof.
  intros Hd Hc. split; [destruct Hd as (Hd & Hn & _); by apply set_of_encode_oer_ok|].
  destruct (feed_ok (L := set_of_oer_laws) (OerStreamLaws0 := set_of_stream_laws) chunks None (Some <$> vs)
    (oer_set_octets vs) [] rest) as (st & Hr & Hv); [by constructor|done| |by exists st].
  left. unfold oer_set_octets, qty_octets. cbn [app length]. lia.
Qed.

(** Two numbers of one octet, with an octet behind them, in four chunks. *)
Definition octet_constraint : asn_oer_constraint_number_t := {| width := 1; positive := true |}.

Definition octet_laws : @OerTypeLaws Z (NativeInteger_oer None octet_constraint) := native_oer_laws None octet_constraint.
Definition octet_stream : @OerStream Z := @primitive_stream Z (NativeInteger_oer None octet_constraint).
Definition octet_stream_laws : @OerStreamLaws Z _ octet_laws octet_stream :=
  @primitive_stream_laws Z _ octet_laws (native_prefix None octet_constraint).

Lemma two_octets_dom : oer_set_dom (L := octet_laws) [5; 200].
Proof.
  split_and!; [|done|by left]. repeat (apply Forall_cons; split); [..|constructor]; (split_and!; done).
Qed.

Lemma set_of_oer_resumable_witness :
  (exists key', SET_OF_encode_oer (H := NativeInteger_oer None octet_constraint) (Some <$> [5; 200]) {| bb_bytes := [] |} =
       Some (4, key') /\ written key' = [1; 2; 5; 200]) /\
  exists st, oer_feed (H := SET_OF_stream (St := octet_stream)) [[1]; []; [2; 5]; [200; 9]] None [] = Some (RC_OK, [9], Some st) /\
    set_of_value st = Some <$> [5; 200].
Proof.
  exact (set_of_oer_resumable (L := octet_laws) (SL := octet_stream_laws) [5; 200] {| bb_bytes := [] |} [9]
    [[1]; []; [2; 5]; [200; 9]] two_octets_dom eq_refl).
Defined.
