(* ===== verification/OctetString.v ===== *)
(** * Strings in UPER (support/OCTET_STRING.c)

    OCTET STRING and the character string types: octets grouped into
    characters of one, two or four, each written in the bits its alphabet
    needs, behind the bits of the size constraint or length determinants. *)
From S2P Require Import Prelude Outcome Consumer BitData PerSupport PerNatural PerCodec AsnInteger UperInteger.
From S2P Require Import OpenType Oer.

(** ** Data *)

(** asn_per_constraints_t; the maps between characters and codes are
    generated for permitted alphabets, [None] is a null pointer. *)
Record asn_per_constraints_t := {
  pc_value : asn_per_constraint_t;
  pc_size : asn_per_constraint_t;
  value2code : option (Z -> Z);
  code2value : option (Z -> Z)
}.

Definition asn_DEF_OCTET_STRING_constraints : asn_per_constraints_t := {|
  pc_value := {| flags := APC_CONSTRAINED; range_bits := 8; effective_bits := 8;
                 lower_bound := 0; upper_bound := 255 |};
  pc_size := {| flags := APC_SEMI_CONSTRAINED; range_bits := -1; effective_bits := -1;
                lower_bound := 0; upper_bound := 0 |};
  value2code := None; code2value := None
|}.

(** ** Characters *)

(** (unsigned long)ub <= (unsigned long)2 << (unit_bits - 1) *)
Definition encode_as_is (unit_bits ub : Z) : bool := u64 ub <=? u64 (2 ≪ (unit_bits - 1)).

(** The character at the start of the octets. *)
Definition unit_value (bpc : Z) (buf : list Z) : option Z :=
  if bpc =? 1 then read buf 0
  else if bpc =? 2 then a ← read buf 0; b ← read buf 1; Some (Z.lor (a ≪ 8) b)
  else if bpc =? 4 then
    a ← read buf 0; b ← read buf 1; c ← read buf 2; d ← read buf 3;
    Some (u32 (Z.lor (Z.lor (Z.lor (a ≪ 24) (b ≪ 16)) (c ≪ 8)) d))
  else None.

Definition unit_octets (bpc : Z) (ch : Z) : list Z :=
  if bpc =? 1 then [u8 ch]
  else if bpc =? 2 then [u8 (ch ≫ 8); u8 ch]
  else [u8 (ch ≫ 24); u8 (ch ≫ 16); u8 (ch ≫ 8); u8 ch].

(** The loops over the characters; [translate] is the map or the range check
    of the branch.  Return code, octets stored, stream. *)
Fixpoint get_units (n : nat) (bpc unit_bits : Z) (translate : Z -> option Z) (pd : asn_per_data) :
    option (Z * list Z * asn_per_data) :=
  match n with
  | O => Some (0, [], pd)
  | S n =>
    '(code, pd) ← per_get_few_bits pd unit_bits;
    if code <? 0 then Some (-1, [], pd) else
    match translate code with
    | None => Some (1, [], pd)
    | Some ch =>
      '(rc, octets, pd) ← get_units n bpc unit_bits translate pd;
      Some (rc, unit_octets bpc ch ++ octets, pd)
    end
  end.

Definition OCTET_STRING_per_get_characters (pd : asn_per_data) (units bpc unit_bits lb ub : Z)
    (pc : option asn_per_constraints_t) : option (Z * list Z * asn_per_data) :=
  if unit_bits <=? 0 then None else
  let as_is := encode_as_is unit_bits ub in
  let ranged lb :=
    if (lb =? 0) && (unit_bits =? 8 * bpc) then per_get_many_bits pd false (unit_bits * units)
    else get_units (Z.to_nat units) bpc unit_bits
           (fun code => let ch := s32 (code + lb) in if ub <? ch then None else Some ch) pd in
  if as_is then ranged 0 else
  match pc ≫= code2value with
  | Some f =>
    if 16 <? unit_bits then Some (1, [], pd)
    else get_units (Z.to_nat units) bpc unit_bits
           (fun code => let value := f code in if value <? 0 then None else Some value) pd
  | None => ranged lb
  end.

Section Put.
Context {S : Type} `{Consumer S}.
Implicit Types po : asn_bit_outp S.

Fixpoint put_units (n : nat) (bpc unit_bits : Z) (translate : Z -> option Z) (buf : list Z) po :
    option (Z * asn_bit_outp S) :=
  match n with
  | O => Some (0, po)
  | Datatypes.S n =>
    value ← unit_value bpc buf;
    match translate value with
    | None => Some (-1, po)
    | Some ch =>
      '(rc, po) ← per_put_few_bits po ch unit_bits;
      if negb (rc =? 0) then Some (-1, po)
      else put_units n bpc unit_bits translate (drop (Z.to_nat bpc) buf) po
    end
  end.

(** After the loop over a map [buf] is at its end: the shortcut would read
    behind it, the last loop does nothing. *)
Definition OCTET_STRING_per_put_characters po (buf : list Z) (units bpc unit_bits lb ub : Z)
    (pc : option asn_per_constraints_t) : option (Z * asn_bit_outp S) :=
  if unit_bits <=? 0 then None else
  let as_is := encode_as_is unit_bits ub in
  let ranged lb n buf po :=
    if (lb =? 0) && (unit_bits =? 8 * bpc) then asn_put_many_bits po buf (unit_bits * units)
    else put_units n bpc unit_bits
           (fun value => let ch := s32 (value - lb) in
                         if (ch <? 0) || (ub - lb <? ch) then None else Some ch) buf po in
  if as_is then ranged 0 (Z.to_nat units) buf po else
  match pc ≫= value2code with
  | Some f =>
    '(rc, po) ← put_units (Z.to_nat units) bpc unit_bits
       (fun value => let code := f value in if code <? 0 then None else Some code) buf po;
    if negb (rc =? 0) then Some (-1, po)
    else ranged lb 0%nat (drop (Z.to_nat (units * bpc)) buf) po
  | None => ranged lb (Z.to_nat units) buf po
  end.
End Put.

(** ** OCTET STRING *)

Section OctetString.
Context (subvariant : asn_OS_Subvariant) (pc : option asn_per_constraints_t).

Definition cval : asn_per_constraint_t := pc_value (default asn_DEF_OCTET_STRING_constraints pc).
Definition csiz : asn_per_constraint_t := pc_size (default asn_DEF_OCTET_STRING_constraints pc).

(** Octets per character of the variants PER knows. *)
Definition os_bpc : option Z :=
  match subvariant with
  | ASN_OSUBV_STR => Some 1
  | ASN_OSUBV_U16 => Some 2
  | ASN_OSUBV_U32 => Some 4
  | ASN_OSUBV_ANY | ASN_OSUBV_BIT => None
  end.

Definition constrained_unit_bits (bpc : Z) : Z :=
  if has_flag cval APC_CONSTRAINED then range_bits cval else 8 * bpc.

(** The do-while loop: [allocated] tells whether st->buf is non-null. *)
Fixpoint os_get_loop (fuel : nat) (bpc unit_bits : Z) (siz : asn_per_constraint_t)
    (allocated : bool) (buf : list Z) (pd : asn_per_data) :
    option (asn_dec_rval_code * list Z * asn_per_data) :=
  match fuel with
  | O => None
  | S fuel =>
    '(raw_len, repeat, pd) ← uper_get_length pd (effective_bits siz) (lower_bound siz);
    if raw_len <? 0 then Some (RC_WMORE, buf, pd) else
    if (raw_len =? 0) && allocated then Some (RC_OK, buf, pd) else
    '(ret, octets, pd) ← OCTET_STRING_per_get_characters pd raw_len bpc unit_bits
                           (lower_bound cval) (upper_bound cval) pc;
    if 0 <? ret then Some (RC_FAIL, buf, pd) else
    if ret <? 0 then Some (RC_WMORE, buf, pd) else
    if (repeat : bool) then os_get_loop fuel bpc unit_bits siz true (buf ++ octets) pd
    else Some (RC_OK, buf ++ octets, pd)
  end.

(** A repeated iteration has read a determinant of eight bits. *)
Definition os_fuel (pd : asn_per_data) : nat := S (length (pd_buffer pd)).

(** From the size on, with the size constraint and character width in force.
    A string of fixed size that could not be read has its size set and its
    octets not all written: its contents are undefined, [None]. *)
Definition os_decode_sized (bpc unit_bits : Z) (siz : asn_per_constraint_t) (pd : asn_per_data) :
    option (asn_dec_rval_code * option OCTET_STRING_t * asn_per_data) :=
  if effective_bits siz =? 0 then
    '(ret, octets, pd) ← OCTET_STRING_per_get_characters pd (upper_bound siz) bpc unit_bits
                           (lower_bound cval) (upper_bound cval) pc;
    Some (if 0 <? ret then (RC_FAIL, None, pd)
          else if ret <? 0 then (RC_WMORE, None, pd)
          else (RC_OK, Some {| os_buf := octets |}, pd))
  else
    '(code, buf, pd) ← os_get_loop (os_fuel pd) bpc unit_bits siz (0 <=? effective_bits siz) [] pd;
    Some (code, Some {| os_buf := buf |}, pd).

Definition OCTET_STRING_decode_uper (pd : asn_per_data) :
    option (asn_dec_rval_code * option OCTET_STRING_t * asn_per_data) :=
  match os_bpc with
  | None => Some (RC_FAIL, None, pd)
  | Some bpc =>
    if has_flag csiz APC_EXTENSIBLE then
      '(inext, pd) ← per_get_few_bits pd 1;
      if inext <? 0 then Some (RC_WMORE, Some {| os_buf := [] |}, pd)
      else if negb (inext =? 0)
      then os_decode_sized bpc (8 * bpc) (pc_size asn_DEF_OCTET_STRING_constraints) pd
      else os_decode_sized bpc (constrained_unit_bits bpc) csiz pd
    else os_decode_sized bpc (constrained_unit_bits bpc) csiz pd
  end.

Section Encode.
Context {S : Type} `{Consumer S}.
Implicit Types po : asn_bit_outp S.

(** The do-while loop over the characters still to write. *)
Fixpoint os_put_loop (fuel : nat) (bpc unit_bits : Z) (size_in_units : Z) (buf : list Z) po :
    option (Z * asn_bit_outp S) :=
  match fuel with
  | O => None
  | Datatypes.S fuel =>
    '(may_save, need_eom, po) ← uper_put_length po size_in_units;
    if may_save <? 0 then Some (-1, po) else
    '(ret, po) ← OCTET_STRING_per_put_characters po buf may_save bpc unit_bits
                   (lower_bound cval) (upper_bound cval) pc;
    if negb (ret =? 0) then Some (-1, po) else
    let buf := drop (Z.to_nat (may_save * bpc)) buf in
    let size_in_units := size_in_units - may_save in
    if negb (Z.land may_save 7 =? 0) && negb (size_in_units =? 0) then None else
    '(rc, po) ← (if (need_eom : bool) then '(r, _, po) ← uper_put_length po 0; Some (r, po)
                 else Some (0, po));
    if negb (rc =? 0) then Some (-1, po)
    else if size_in_units =? 0 then Some (0, po)
    else os_put_loop fuel bpc unit_bits size_in_units buf po
  end.

Definition OCTET_STRING_encode_uper (st : OCTET_STRING_t) po : option (Z * asn_bit_outp S) :=
  match os_bpc with
  | None => Some (-1, po)
  | Some bpc =>
    let size := Z.of_nat (length (os_buf st)) in
    if negb (Z.land size (bpc - 1) =? 0) then Some (-1, po) else
    let size_in_units := size / bpc in
    let ct_extensible := has_flag csiz APC_EXTENSIBLE in
    let outside := (0 <=? effective_bits csiz) &&
      ((size_in_units <? lower_bound csiz) || (upper_bound csiz <? size_in_units)) in
    if outside && negb ct_extensible then Some (-1, po) else
    let siz := if outside then pc_size asn_DEF_OCTET_STRING_constraints else csiz in
    let unit_bits := if outside then 8 * bpc else constrained_unit_bits bpc in
    '(rc, po) ← (if ct_extensible then per_put_few_bits po (Z.b2z outside) 1 else Some (0, po));
    if negb (rc =? 0) then Some (-1, po) else
    if (0 <=? effective_bits siz) && negb outside then
      '(ret, po) ← per_put_few_bits po (size_in_units - lower_bound siz) (effective_bits siz);
      if negb (ret =? 0) then Some (-1, po) else
      '(ret, po) ← OCTET_STRING_per_put_characters po (os_buf st) size_in_units bpc unit_bits
                     (lower_bound cval) (upper_bound cval) pc;
      Some (if negb (ret =? 0) then -1 else 0, po)
    else os_put_loop (Datatypes.S (length (os_buf st))) bpc unit_bits size_in_units (os_buf st) po
  end.
End Encode.

#[local] Instance OCTET_STRING_per : PerType OCTET_STRING_t := {
  op_uper_encoder := Some (fun S C st po => OCTET_STRING_encode_uper st po);
  op_uper_decoder := Some OCTET_STRING_decode_uper
}.
End OctetString.

(** ** Lemmas: characters *)

Section Characters.
Context (bpc : Z) (Hbpc : bpc = 1 \/ bpc = 2 \/ bpc = 4).

Lemma unit_octets_be v : unit_octets bpc v = be_bytes (Z.to_nat bpc) v.
Proof.
  destruct Hbpc as [->|[->| ->]]; unfold unit_octets; cbn [Z.eqb Pos.eqb]; [change (Z.to_nat 1) with 1%nat
    |change (Z.to_nat 2) with 2%nat|change (Z.to_nat 4) with 4%nat]; cbn [be_bytes];
    change (8 * Z.of_nat 0) with 0; by rewrite Z.shiftr_0_r.
Qed.

Lemma lor4 a b c d : 0 <= a -> 0 <= b < 256 -> 0 <= c < 256 -> 0 <= d < 256 ->
  Z.lor (Z.lor (Z.lor (a ≪ 24) (b ≪ 16)) (c ≪ 8)) d = a * 2 ^ 24 + b * 2 ^ 16 + c * 2 ^ 8 + d.
Proof.
  intros Ha Hb Hc Hd. rewrite (lor_shiftl_add a (b ≪ 16) 24) by (rewrite ?shiftl_mul; lia).
  rewrite (shiftl_mul b) by lia. replace (a * 2 ^ 24 + b * 2 ^ 16) with ((a * 256 + b) ≪ 16) by (rewrite shiftl_mul; lia).
  rewrite lor_shiftl_add by (rewrite ?shiftl_mul; lia). rewrite (shiftl_mul c) by lia.
  replace ((a * 256 + b) * 2 ^ 16 + c * 2 ^ 8) with (((a * 256 + b) * 256 + c) ≪ 8) by (rewrite shiftl_mul; lia).
  rewrite lor_shiftl_add, shiftl_mul by lia. lia.
Qed.

Lemma unit_value_be v rest : 0 <= v < 2 ^ (8 * bpc) ->
  unit_value bpc (be_bytes (Z.to_nat bpc) v ++ rest) = Some v.
Proof.
  intros Hv. unfold unit_value. destruct Hbpc as [->|[->| ->]]; cbn [Z.eqb Pos.eqb].
  - change (Z.to_nat 1) with 1%nat. cbn [be_bytes app]. change (8 * Z.of_nat 0) with 0.
    rewrite read_0, Z.shiftr_0_r. f_equal. apply u8_small. exact Hv.
  - change (Z.to_nat 2) with 2%nat. cbn [be_bytes app]. rewrite read_0, read_1. cbn [mbind option_bind].
    change (8 * 2) with 16 in Hv. change (8 * Z.of_nat 1) with 8. change (8 * Z.of_nat 0) with 0.
    rewrite Z.shiftr_0_r, (shiftr_div v 8) by lia. unfold u8. rewrite (Z.mod_small (v / 2 ^ 8)) by (Z.div_mod_to_equations; lia).
    rewrite lor_shiftl_add by (try apply mod_pow2_bounds; lia). f_equal. Z.div_mod_to_equations; lia.
  - change (Z.to_nat 4) with 4%nat. cbn [be_bytes app]. rewrite read_0, read_1, read_2, read_3. cbn [mbind option_bind].
    change (8 * 4) with 32 in Hv. change (8 * Z.of_nat 3) with 24. change (8 * Z.of_nat 2) with 16.
    change (8 * Z.of_nat 1) with 8. change (8 * Z.of_nat 0) with 0.
    rewrite lor4 by (apply u8_ok || apply (u8_ok _)). unfold u8. rewrite !shiftr_div by lia.
    f_equal. unfold u32. rewrite Z.pow_0_r, Z.div_1_r.
    transitivity (v mod 2 ^ 32); [f_equal|by apply Z.mod_small]. Z.div_mod_to_equations; lia.
Qed.

Definition octets_of_units (vs : list Z) : list Z := concat (be_bytes (Z.to_nat bpc) <$> vs).

Lemma octets_of_units_ok vs : bytes_ok (octets_of_units vs).
Proof.
  induction vs as [|v vs IH]; [constructor|]. cbn. apply bytes_ok_app; [apply be_bytes_ok|exact IH].
Qed.

Lemma length_octets_of_units vs : Z.of_nat (length (octets_of_units vs)) = bpc * Z.of_nat (length vs).
Proof.
  induction vs as [|v vs IH]; [cbn; lia|]. cbn [octets_of_units fmap list_fmap concat length].
  rewrite length_app, length_be_bytes. fold (octets_of_units vs). destruct Hbpc as [->|[->| ->]]; lia.
Qed.

Lemma octets_of_units_app vs ws : octets_of_units (vs ++ ws) = octets_of_units vs ++ octets_of_units ws.
Proof. unfold octets_of_units. by rewrite fmap_app, concat_app. Qed.

Lemma drop_units n vs : (n <= length vs)%nat ->
  drop (Z.to_nat (Z.of_nat n * bpc)) (octets_of_units vs) = octets_of_units (drop n vs).
Proof.
  intros Hn. rewrite <- (take_drop n vs) at 1. rewrite octets_of_units_app.
  pose proof (length_octets_of_units (take n vs)) as Hl. rewrite length_take in Hl.
  rewrite drop_app_ge by lia. replace (_ - _)%nat with 0%nat by lia. apply drop_0.
Qed.

Lemma bits_of_units vs : bytes_bits (octets_of_units vs) = concat (val_bits (Z.to_nat (8 * bpc)) <$> vs).
Proof.
  induction vs as [|v vs IH]; [done|]. cbn [octets_of_units fmap list_fmap concat].
  fold (octets_of_units vs). rewrite bytes_bits_app, IH, bytes_bits_be_bytes. do 2 f_equal. f_equal.
  destruct Hbpc as [->|[->| ->]]; done.
Qed.

(** Writing and reading characters one by one. *)
Lemma put_units_ok {S} `{HC : Consumer S} `{HA : !AppendConsumer S} unit_bits translate code vs rest
    (po : asn_bit_outp S) :
  0 <= unit_bits <= 31 -> po_wf po ->
  Forall (fun v => translate v = Some (code v) /\ 0 <= v < 2 ^ (8 * bpc)) vs ->
  put_res po (concat ((fun v => val_bits (Z.to_nat unit_bits) (code v)) <$> vs))
    (put_units (length vs) bpc unit_bits translate (octets_of_units vs ++ rest) po) 0.
Proof.
  intros Hu Hw Hvs. revert po Hw. induction Hvs as [|v vs [Ht Hv] Hvs IH]; intros po Hw.
  { by apply put_res_ret. }
  cbn [length put_units octets_of_units fmap list_fmap concat]. fold (octets_of_units vs).
  rewrite <- app_assoc, unit_value_be by done. cbn [mbind option_bind]. rewrite Ht.
  eapply put_res_bind; [by apply per_put_few_ok|]. intros po1 Hw1. cbn [negb Z.eqb].
  rewrite drop_app_length' by (by rewrite length_be_bytes). by apply IH.
Qed.

Lemma get_units_ok unit_bits translate (code read : Z -> Z) vs (pd : asn_per_data) rest : 0 <= unit_bits <= 31 ->
  Forall (fun v => translate (code v mod 2 ^ unit_bits) = Some (read v)) vs ->
  pd_at pd (concat ((fun v => val_bits (Z.to_nat unit_bits) (code v)) <$> vs) ++ rest) ->
  get_res pd (Z.of_nat (length (concat ((fun v => val_bits (Z.to_nat unit_bits) (code v)) <$> vs)))) rest
    (get_units (length vs) bpc unit_bits translate pd) (0, octets_of_units (read <$> vs)).
Proof.
  intros Hu Hvs. revert pd. induction Hvs as [|v vs Ht Hvs IH]; intros pd Hat.
  { by apply get_res_ret. }
  cbn [length get_units octets_of_units fmap list_fmap concat] in *. fold (octets_of_units (read <$> vs)).
  rewrite <- app_assoc in Hat. rewrite length_app, length_val_bits, Nat2Z.inj_add, Z2Nat.id by lia.
  eapply get_res_bind; [lia|lia|by apply per_get_few_at|]. intros pd1 Hat1. cbn beta iota.
  pose proof (Z.mod_pos_bound (code v) (2 ^ unit_bits) ltac:(lia)). zcase. rewrite Ht. eapply get_res_map; [lia|by apply IH|].
  intros pd2. cbn beta iota. by rewrite unit_octets_be.
Qed.

(** *** The branches of the two functions *)

Context (lb ub : Z) (pc : option asn_per_constraints_t) (w : Z).

Definition shortcut : bool := (lb =? 0) && (w =? 8 * bpc).

(** The octets are copied. *)
Definition raw : bool :=
  if encode_as_is w ub then w =? 8 * bpc
  else match pc ≫= value2code, pc ≫= code2value with None, None => shortcut | _, _ => false end.

Definition char_code (v : Z) : Z :=
  if encode_as_is w ub then v
  else match pc ≫= value2code with Some f => f v | None => v - lb end.

Definition char_bits (v : Z) : list bool := val_bits (Z.to_nat w) (char_code v).

(** The comparison with [2 ^ w] lets through one character too many, which is
    written as zero. *)
Definition reads_as (v : Z) : Z := if encode_as_is w ub && (v =? 2 ^ w) then 0 else v.

(** The width is one the functions know what to do with: not more bits than
    the stream functions take at once, wide enough for the range or the codes
    of the map; both maps, inverse to each other, or none. *)
Definition width_ok : Prop :=
  0 < w /\ ub < 2 ^ 63 /\
  (raw = true \/ w <= 31 /\
   (encode_as_is w ub = true \/
    match pc ≫= value2code, pc ≫= code2value with
    | Some f, Some g => w <= 16 /\ shortcut = false /\ forall v, 0 <= v < 2 ^ (8 * bpc) -> 0 <= f v -> f v < 2 ^ w /\ g (f v) = v
    | None, None => ub - lb < 2 ^ w
    | _, _ => False
    end)).

(** The character fits its octets and is within the alphabet. *)
Definition char_ok (v : Z) : Prop :=
  0 <= v < 2 ^ (8 * bpc) /\
  (raw = true \/ v < 2 ^ 31 /\
   if encode_as_is w ub then v <= ub
   else match pc ≫= value2code with
        | Some f => 0 <= f v
        | None => lb <= v <= ub
        end).

Lemma raw_width : raw = true -> w = 8 * bpc.
Proof. unfold raw, shortcut. repeat case_match; try done; lia. Qed.

Lemma raw_bits vs : raw = true -> concat (char_bits <$> vs) = bytes_bits (octets_of_units vs).
Proof.
  intros Hr. rewrite bits_of_units. f_equal. apply list_fmap_ext. intros _ v _. unfold char_bits.
  rewrite (raw_width Hr). f_equal. unfold char_code. unfold raw, shortcut in Hr. repeat case_match; try done; lia.
Qed.

Lemma put_raw_ok {S} `{HC : Consumer S} `{HA : !AppendConsumer S} vs rest (po : asn_bit_outp S) :
  bytes_ok rest -> po_wf po ->
  put_res po (bytes_bits (octets_of_units vs))
    (asn_put_many_bits po (octets_of_units vs ++ rest) (8 * bpc * Z.of_nat (length vs))) 0.
Proof.
  intros Hr Hw. pose proof (length_octets_of_units vs) as Hl.
  destruct (put_many_ok po (octets_of_units vs ++ rest) (8 * bpc * Z.of_nat (length vs))) as (po' & H & Hw' & Hb);
    [done|apply bytes_ok_app; [apply octets_of_units_ok|done]|rewrite length_app; lia|].
  exists po'. split_and!; [done|done|]. rewrite Hb, bytes_bits_app. f_equal.
  replace (Z.to_nat (8 * bpc * Z.of_nat (length vs))) with (length (bytes_bits (octets_of_units vs)))
    by (rewrite length_bytes_bits; lia).
  apply take_app_length.
Qed.

Lemma put_translated_ok {S} `{HC : Consumer S} `{HA : !AppendConsumer S} translate vs rest (po : asn_bit_outp S) :
  raw = false -> width_ok -> Forall (fun v => char_ok v /\ translate v = Some (char_code v)) vs -> po_wf po ->
  put_res po (concat (char_bits <$> vs))
    (put_units (length vs) bpc w translate (octets_of_units vs ++ rest) po) 0.
Proof.
  intros Hraw (Hw0 & _ & Hwd) Hvs Hw. apply (put_units_ok w translate char_code); [|done|].
  - destruct Hwd as [?|[??]]; [congruence|lia].
  - eapply Forall_impl; [exact Hvs|]. intros v ((Hv & _) & Ht). done.
Qed.

Lemma in_range_code v l : 0 <= v < 2 ^ 31 -> 0 <= v - l < 2 ^ 31 -> v <= ub ->
  (let ch := s32 (v - l) in if (ch <? 0) || (ub - l <? ch) then None else Some ch) = Some (v - l) /\
  (let ch := s32 (v - l + l) in if ub <? ch then None else Some ch) = Some v.
Proof. intros Hv Hc Hu. cbn zeta. rewrite Z.sub_add, !s32_small by lia. by zcases. Qed.

(** As it is written: the character, or nothing of it. *)
Lemma as_is_read v : 0 < w <= 31 -> ub < 2 ^ 63 -> encode_as_is w ub = true -> 0 <= v <= ub -> v mod 2 ^ w = reads_as v.
Proof.
  intros Hw Hub Has Hv. unfold reads_as. rewrite Has. unfold encode_as_is in Has. apply Z.leb_le in Has. cbn [andb].
  assert (2 ^ w <= 2 ^ 31) by (apply Z.pow_le_mono_r; lia). assert (0 < 2 ^ w) by lia.
  rewrite shiftl_mul in Has by lia. replace (2 * 2 ^ (w - 1)) with (2 ^ w) in Has by (rewrite <- Z.pow_succ_r by lia; f_equal; lia).
  rewrite !u64_small in Has by lia.
  destruct (Z.eqb_spec v (2 ^ w)) as [->|Hne]; [apply Z.mod_same; lia|apply Z.mod_small; lia].
Qed.

Lemma put_characters_ok {S} `{HC : Consumer S} `{HA : !AppendConsumer S} vs rest (po : asn_bit_outp S) :
  width_ok -> Forall char_ok vs -> bytes_ok rest -> po_wf po ->
  put_res po (concat (char_bits <$> vs))
    (OCTET_STRING_per_put_characters po (octets_of_units vs ++ rest) (Z.of_nat (length vs)) bpc w lb ub pc) 0.
Proof.
  intros Hwd Hvs Hrest Hw. unfold OCTET_STRING_per_put_characters. pose proof Hwd as (Hw0 & Hub63 & Hcase). zcase.
  rewrite Nat2Z.id. pose proof raw_width as Hrw. destruct raw eqn:Hraw.
  - rewrite raw_bits by done. specialize (Hrw eq_refl). unfold raw, shortcut in *.
    pose proof (put_raw_ok vs rest po Hrest Hw) as Hput. rewrite <- Hrw in Hput.
    destruct (encode_as_is w ub); cbn [Z.eqb andb].
    + by rewrite Hraw.
    + destruct (pc ≫= value2code), (pc ≫= code2value); try done. by rewrite Hraw.
  - destruct Hcase as [?|[Hw31 Hcase]]; [done|].
    pose proof (fun tr => put_translated_ok tr vs rest po Hraw Hwd) as Hput.
    unfold char_ok, raw, shortcut in *. unfold char_code in Hput, Hvs. unfold char_bits, char_code in *.
    rewrite Hraw in *. destruct (encode_as_is w ub); cbn [Z.eqb andb].
    { rewrite Hraw. apply Hput; [|done]. eapply Forall_impl; [exact Hvs|].
      intros v (Hv & [?|(H31 & Hle)]); [done|].
      split; [auto|]. destruct (in_range_code v 0) as [Htr _]; [lia..|]. by rewrite Z.sub_0_r in Htr |- *. }
    destruct Hcase as [?|Hcase]; [done|].
    assert (2 ^ w <= 2 ^ 31) by (apply Z.pow_le_mono_r; lia).
    destruct (pc ≫= value2code) as [f|], (pc ≫= code2value) as [g|]; try done.
    + destruct Hcase as (Hw16 & Hs & _). rewrite <- (app_nil_r (concat _)). eapply put_res_bind.
      * apply Hput; [|done]. eapply Forall_impl; [exact Hvs|]. intros v (Hv & [?|(H31 & Hle)]); [done|].
        split; [auto|]. cbn zeta. by zcase.
      * intros po1 Hw1. cbn [negb Z.eqb]. rewrite Hs. by apply put_res_ret.
    + rewrite Hraw. apply Hput; [|done]. eapply Forall_impl; [exact Hvs|].
      intros v (Hv & [?|(H31 & Hle)]); [done|]. split; [auto|].
      destruct (in_range_code v lb) as [Htr _]; [lia..|done].
Qed.

Lemma get_translated_ok translate vs (pd : asn_per_data) rest :
  raw = false -> width_ok -> Forall (fun v => translate (char_code v mod 2 ^ w) = Some (reads_as v)) vs ->
  pd_at pd (concat (char_bits <$> vs) ++ rest) ->
  get_res pd (Z.of_nat (length (concat (char_bits <$> vs)))) rest
    (get_units (length vs) bpc w translate pd) (0, octets_of_units (reads_as <$> vs)).
Proof.
  intros Hraw (Hw0 & _ & Hwd) Hvs Hat. apply (get_units_ok w translate char_code reads_as); [|done|exact Hat].
  destruct Hwd as [?|[??]]; [congruence|lia].
Qed.

(** Octets that are copied are read as they are. *)
Lemma raw_read vs : raw = true -> 0 < w -> ub < 2 ^ 63 -> Forall char_ok vs -> reads_as <$> vs = vs.
Proof.
  intros Hraw Hw Hub Hvs. pose proof (raw_width Hraw) as Hw8. rewrite <- (list_fmap_id vs) at 2. apply list_fmap_ext.
  intros i v Hv%(Forall_lookup_1 _ _ _ _ Hvs). destruct Hv as [Hv _]. unfold reads_as. rewrite Hw8 in *.
  destruct (Z.eqb_spec v (2 ^ (8 * bpc))); [lia|]. by rewrite andb_false_r.
Qed.

Lemma reads_as_same v : width_ok -> char_ok v -> ub <> 2 ^ w \/ v <> 2 ^ w -> reads_as v = v.
Proof.
  intros (Hw & Hub & Hcase) (Hv & Hc) Hne. unfold reads_as. destruct (encode_as_is w ub) eqn:Has; [|done]. cbn [andb].
  destruct (Z.eqb_spec v (2 ^ w)) as [E|E]; [|done]. exfalso. destruct raw eqn:Hraw.
  - pose proof (raw_width Hraw) as Hw8. rewrite <- Hw8 in Hv. lia.
  - destruct Hc as [?|(H31 & Hle)]; [done|]. destruct Hcase as [?|[Hw31 _]]; [done|].
    pose proof (as_is_read v ltac:(lia) Hub Has ltac:(lia)) as Hr. unfold encode_as_is in Has. apply Z.leb_le in Has.
    assert (2 ^ w <= 2 ^ 31) by (apply Z.pow_le_mono_r; lia). assert (0 < 2 ^ w) by lia.
    rewrite shiftl_mul in Has by lia. replace (2 * 2 ^ (w - 1)) with (2 ^ w) in Has by (rewrite <- Z.pow_succ_r by lia; f_equal; lia).
    rewrite !u64_small in Has by lia. lia.
Qed.

Lemma reads_as_full v : 0 < w -> ub = 2 ^ w -> reads_as v = if v =? 2 ^ w then 0 else v.
Proof.
  intros Hw Hub. unfold reads_as, encode_as_is. rewrite shiftl_mul by lia.
  replace (2 * 2 ^ (w - 1)) with (2 ^ w) by (rewrite <- Z.pow_succ_r by lia; f_equal; lia). by rewrite Hub, Z.leb_refl.
Qed.

Lemma get_characters_ok vs (pd : asn_per_data) rest : width_ok -> Forall char_ok vs ->
  pd_at pd (concat (char_bits <$> vs) ++ rest) ->
  get_res pd (Z.of_nat (length (concat (char_bits <$> vs)))) rest
    (OCTET_STRING_per_get_characters pd (Z.of_nat (length vs)) bpc w lb ub pc) (0, octets_of_units (reads_as <$> vs)).
Proof.
  intros Hwd Hvs Hat. unfold OCTET_STRING_per_get_characters. pose proof Hwd as (Hw0 & Hub & Hcase).
  destruct (Z.leb_spec w 0); [lia|].
  rewrite Nat2Z.id. pose proof raw_width as Hrw. destruct raw eqn:Hraw.
  - rewrite raw_read by done. rewrite raw_bits in * by done. specialize (Hrw eq_refl). unfold raw, shortcut in *.
    assert (Hget : get_res pd (Z.of_nat (length (bytes_bits (octets_of_units vs)))) rest
      (per_get_many_bits pd false (w * Z.of_nat (length vs))) (0, octets_of_units vs)).
    { replace (w * Z.of_nat (length vs)) with (8 * Z.of_nat (length (octets_of_units vs)))
        by (rewrite length_octets_of_units; lia).
      rewrite length_bytes_bits, Nat2Z.inj_mul. apply per_get_many_at; [apply octets_of_units_ok|done]. }
    destruct (encode_as_is w ub); cbn [Z.eqb andb].
    + by rewrite Hraw.
    + destruct (pc ≫= value2code), (pc ≫= code2value); try done. by rewrite Hraw.
  - destruct Hcase as [?|[Hw31 Hcase]]; [done|].
    pose proof (fun tr Hf => get_translated_ok tr vs pd rest Hraw Hwd Hf Hat) as Hget.
    assert (Hpow : 2 ^ w <= 2 ^ 31) by (apply Z.pow_le_mono_r; lia).
    pose proof (fun v => as_is_read v ltac:(lia) Hub) as Has.
    assert (Hplain : encode_as_is w ub = false -> forall v, reads_as v = v) by (intros E v; unfold reads_as; by rewrite E).
    unfold char_ok, raw, shortcut in *. unfold char_code in Hget, Hvs. unfold char_bits, char_code in *.
    rewrite Hraw in *. destruct (encode_as_is w ub); cbn [Z.eqb andb].
    { rewrite Hraw. apply Hget. eapply Forall_impl; [exact Hvs|].
      intros v (Hv & [?|(H31 & Hle)]); [done|]. rewrite Has by (done || lia).
      assert (Hr : 0 <= reads_as v <= v) by (unfold reads_as; destruct (encode_as_is w ub && (v =? 2 ^ w)); lia).
      destruct (in_range_code (reads_as v) 0) as [_ Htr]; [lia..|]. by rewrite Z.sub_0_r in Htr. }
    destruct Hcase as [?|Hcase]; [done|]. specialize (Hplain eq_refl).
    destruct (pc ≫= value2code) as [f|], (pc ≫= code2value) as [g|]; try done.
    + destruct Hcase as (Hw16 & Hs & Hinv). zcase. apply Hget. eapply Forall_impl; [exact Hvs|].
      intros v (Hv & [?|(H31 & Hle)]); [done|]. cbn zeta. destruct (Hinv v Hv Hle) as [Hfit Hg].
      rewrite Hplain, Z.mod_small, Hg by lia. by zcases.
    + rewrite Hraw. apply Hget. eapply Forall_impl; [exact Hvs|].
      intros v (Hv & [?|(H31 & Hle)]); [done|]. rewrite Hplain, Z.mod_small by lia.
      destruct (in_range_code v lb) as [_ Htr]; [lia..|done].
Qed.
End Characters.

(** ** Lemmas: the length determinants *)

Lemma os_bpc_cases subvariant bpc : os_bpc subvariant = Some bpc -> bpc = 1 \/ bpc = 2 \/ bpc = 4.
Proof. destruct subvariant; intros [= <-]; auto. Qed.

Section Spec.
Context (subvariant : asn_OS_Subvariant) (pc : option asn_per_constraints_t).
Context (bpc : Z) (Hbpc : bpc = 1 \/ bpc = 2 \/ bpc = 4).

#[local] Abbreviation lb := (lower_bound (cval pc)).
#[local] Abbreviation ub := (upper_bound (cval pc)).
#[local] Abbreviation bits w := (char_bits lb ub pc w).
#[local] Abbreviation good w := (char_ok bpc lb ub pc w).
#[local] Abbreviation wide w := (width_ok bpc lb ub pc w).
#[local] Abbreviation octets := (octets_of_units bpc).
#[local] Abbreviation reread w vs := (octets (reads_as ub w <$> vs)).

Lemma fragment_octets n : 0 <= n -> length_fragment n < n -> Z.land (length_fragment n) 7 = 0.
Proof.
  intros Hn Hlt. change 7 with (2 ^ 3 - 1). rewrite land_ones_mod by lia.
  unfold length_fragment in *. revert Hlt. zcases; intros; try lia; Z.div_mod_to_equations; lia.
Qed.

Lemma os_put_loop_ok {S} `{HC : Consumer S} `{HA : !AppendConsumer S} w fuel vs (po : asn_bit_outp S) :
  wide w -> Forall (good w) vs -> (length vs < fuel)%nat -> po_wf po ->
  put_res po (frag_bits fuel (bits w <$> vs))
    (os_put_loop pc fuel bpc w (Z.of_nat (length vs)) (octets vs) po) 0.
Proof.
  intros Hwd. revert vs po. induction fuel as [|fuel IH]; intros vs po Hvs Hf Hw; [lia|].
  cbn [os_put_loop frag_bits]. rewrite length_fmap. set (n := Z.of_nat (length vs)).
  destruct (frag_step n) as (Hfr & Hpos & _); [lia|]. set (f := Z.to_nat (length_fragment n)).
  rewrite <- fmap_take, <- fmap_drop.
  apply (put_res_bind _ _ _ _ (length_fragment n, length_needs_eom n)).
  { destruct (uper_put_length_ok po n) as (po' & ? & ? & ?); [lia|done|by exists po']. }
  intros po1 Hw1. cbn beta iota. zcase. eapply put_res_bind.
  { pose proof (put_characters_ok bpc Hbpc lb ub pc w (take f vs) (octets (drop f vs)) po1 Hwd) as Hput.
    rewrite <- octets_of_units_app, take_drop, length_take in Hput.
    replace (Z.of_nat (f `min` length vs)) with (length_fragment n) in Hput by lia.
    apply Hput; [by apply Forall_take|apply octets_of_units_ok|done]. }
  intros po2 Hw2. cbn [negb Z.eqb].
  assert (Hassert : negb (Z.land (length_fragment n) 7 =? 0) && negb (n - length_fragment n =? 0) = false).
  { destruct (Z.eqb_spec (n - length_fragment n) 0); [by rewrite andb_false_r|].
    by rewrite fragment_octets by lia. }
  rewrite Hassert. apply (put_res_bind _ _ _ _ 0).
  { destruct (length_needs_eom n); [|by apply put_res_ret].
    apply (put_res_map _ _ _ (0, false)); [|done].
    destruct (uper_put_length_ok po2 0) as (po' & ? & ? & ?); [lia|done|by exists po']. }
  intros po3 Hw3. cbn [negb Z.eqb]. destruct (Z.eqb_spec (n - length_fragment n) 0) as [Hall|Hmore].
  - rewrite drop_ge by lia. by apply put_res_ret.
  - rewrite bool_decide_false by (intros Hnil%(f_equal length); rewrite length_fmap, length_drop in Hnil; cbn in Hnil; lia).
    replace (length_fragment n) with (Z.of_nat f) by lia. rewrite drop_units by (done || lia).
    replace (n - Z.of_nat f) with (Z.of_nat (length (drop f vs))) by (rewrite length_drop; lia).
    apply IH; [by apply Forall_drop|rewrite length_drop; lia|done].
Qed.

(** One iteration of the reader; [siz] says nothing or one of the ranges. *)
Lemma os_get_step siz fuel w allocated buf (pd : asn_per_data) n chunk tl : effective_bits siz < 0 -> wide w ->
  Forall (good w) chunk -> 0 <= n -> Z.of_nat (length chunk) = length_fragment n ->
  pd_at pd (length_bits n ++ concat (bits w <$> chunk) ++ tl) ->
  exists pd', os_get_loop pc (S fuel) bpc w siz allocated buf pd =
      (if 16384 <=? n then os_get_loop pc fuel bpc w siz true (buf ++ reread w chunk) pd'
       else Some (RC_OK, buf ++ reread w chunk, pd')) /\
    pd_at pd' tl /\ pd_read pd (Z.of_nat (length (length_bits n ++ concat (bits w <$> chunk)))) pd'.
Proof.
  intros He Hwd Hvs Hn Hlen Hat. cbn [os_get_loop].
  assert (Hl : uper_get_length pd (effective_bits siz) (lower_bound siz) = uper_get_length pd (-1) 0)
    by (unfold uper_get_length; by zcase).
  rewrite Hl. destruct (uper_get_length_at pd n _ Hn Hat) as (pd1 & -> & Hat1 & Hrd1). cbn [mbind option_bind].
  destruct (frag_step n) as (Hfr & _ & Hsmall & _); [lia|].
  destruct (Z.ltb_spec (length_fragment n) 0); [lia|]. rewrite length_app, Nat2Z.inj_add.
  destruct ((length_fragment n =? 0) && allocated) eqn:E0.
  - apply andb_true_iff in E0 as [E0 _]. assert (chunk = []) as -> by (destruct chunk; [done|cbn in Hlen; lia]).
    exists pd1. destruct (Z.leb_spec 16384 n) as [Hbig|_].
    { unfold length_fragment in E0. revert E0. zcases; intros; try lia; Z.div_mod_to_equations; lia. }
    rewrite app_nil_r, Z.add_0_r. done.
  - rewrite <- Hlen. destruct (get_characters_ok bpc Hbpc lb ub pc w chunk pd1 tl Hwd Hvs Hat1)
      as (pd2 & -> & Hat2 & Hrd2).
    cbn [mbind option_bind Z.ltb Z.compare]. exists pd2. split_and!; [done|done|].
    eapply pd_read_trans; [lia..|done|done].
Qed.

Lemma os_get_fragments siz fuel w fuel' vs allocated buf (pd : asn_per_data) rest :
  effective_bits siz < 0 -> wide w -> Forall (good w) vs -> (length vs < fuel')%nat ->
  (length (frag_bits fuel' (bits w <$> vs)) <= 8 * fuel)%nat ->
  pd_at pd (frag_bits fuel' (bits w <$> vs) ++ rest) ->
  get_res pd (Z.of_nat (length (frag_bits fuel' (bits w <$> vs)))) rest
    ('(code, buf, pd) ← os_get_loop pc fuel bpc w siz allocated buf pd; Some ((code, buf), pd))
    (RC_OK, buf ++ reread w vs).
Proof.
  intros He Hwd. revert fuel vs allocated buf pd.
  induction fuel' as [|fuel' IH]; intros fuel vs allocated buf pd Hvs Hf' Hf Hat; [lia|].
  cbn [frag_bits] in *. rewrite length_fmap in *. set (n := Z.of_nat (length vs)) in *.
  destruct (frag_step n) as (Hfr & Hpos & Hsmall & Heom); [lia|].
  set (f := Z.to_nat (length_fragment n)) in *. rewrite <- fmap_take, <- fmap_drop in *.
  assert (Hlen : Z.of_nat (length (take f vs)) = length_fragment n) by (rewrite length_take; lia).
  pose proof (length_bits_ge n) as H8. rewrite <- !app_assoc in Hat.
  destruct fuel as [|fuel]; [rewrite length_app in Hf; lia|].
  destruct (os_get_step siz fuel w allocated buf pd n (take f vs) _ He Hwd (Forall_take _ _ _ Hvs) ltac:(lia) Hlen Hat)
    as (pd1 & -> & Hat1 & Hrd1).
  rewrite app_assoc in Hf |- *. rewrite length_app in Hf |- *. rewrite Nat2Z.inj_add.
  assert (H8' : (8 <= length (length_bits n ++ concat (bits w <$> take f vs)))%nat) by (rewrite length_app; lia).
  rewrite Heom in *. destruct (Z.leb_spec 16384 n); cbn [andb] in *.
  2: { rewrite drop_ge, take_ge in * by lia. cbn [fmap list_fmap] in *. rewrite bool_decide_true in * by done.
       cbn [app length] in *. exists pd1. rewrite Z.add_0_r. done. }
  destruct (Z.eqb_spec n (length_fragment n)) as [Hall|Hmore].
  - rewrite drop_ge, take_ge in * by lia. cbn [fmap list_fmap] in *. rewrite bool_decide_true in * by done.
    rewrite app_nil_r in *. destruct fuel as [|fuel]; [pose proof (length_bits_ge 0); lia|].
    destruct (os_get_step siz fuel w true (buf ++ reread w vs) pd1 0 [] rest) as (pd2 & -> & Hat2 & Hrd2);
      [done|done|constructor|lia|done|exact Hat1|].
    cbn [Z.leb Z.compare fmap list_fmap concat mbind option_bind] in *. rewrite !app_nil_r in *. exists pd2.
    split_and!; [done|done|]. eapply pd_read_trans; [lia..|done|done].
  - rewrite bool_decide_false in * by (intros Hnil%(f_equal length);
      rewrite length_fmap, length_drop in Hnil; cbn in Hnil; lia).
    cbn [app] in *. destruct (IH fuel (drop f vs) true (buf ++ reread w (take f vs)) pd1) as (pd2 & Hr & Hat2 & Hrd2).
    + by apply Forall_drop.
    + rewrite length_drop. lia.
    + lia.
    + exact Hat1.
    + exists pd2. rewrite Hr, <- app_assoc, <- octets_of_units_app, <- fmap_app, take_drop. split_and!; [done|done|].
      eapply pd_read_trans; [lia..|done|done].
Qed.

(** ** Specification *)

(** Whether a string of [n] characters is outside the size constraint. *)
Definition os_outside (n : Z) : bool :=
  (0 <=? effective_bits (csiz pc)) && ((n <? lower_bound (csiz pc)) || (upper_bound (csiz pc) <? n)).

(** The bits per character of a string of [n]. *)
Definition os_unit_bits (n : Z) : Z := if os_outside n then 8 * bpc else constrained_unit_bits pc bpc.

Definition os_counted (n : Z) : bool := (0 <=? effective_bits (csiz pc)) && negb (os_outside n).

Definition os_bits (vs : list Z) : list bool :=
  let n := Z.of_nat (length vs) in
  let us := bits (os_unit_bits n) <$> vs in
  (if has_flag (csiz pc) APC_EXTENSIBLE then [os_outside n] else []) ++
  (if os_counted n
   then val_bits (Z.to_nat (effective_bits (csiz pc))) (n - lower_bound (csiz pc)) ++ concat us
   else frags us).

(** The characters are within the alphabet, and the number of characters
    within the size constraint unless that is extensible; a fixed size has
    equal bounds. *)
Definition os_dom (vs : list Z) : Prop :=
  let n := Z.of_nat (length vs) in
  let e := effective_bits (csiz pc) in
  wide (os_unit_bits n) /\ Forall (good (os_unit_bits n)) vs /\
  (os_outside n = true -> has_flag (csiz pc) APC_EXTENSIBLE = true) /\
  (os_counted n = true -> e <= 16 /\ 0 <= n - lower_bound (csiz pc) < 2 ^ e /\
     - 2 ^ 63 <= lower_bound (csiz pc) /\ n < 2 ^ 63 /\ (e = 0 -> n = upper_bound (csiz pc))).

(** What the decoder makes of the characters. *)
Definition os_read (vs : list Z) : list Z := reads_as ub (os_unit_bits (Z.of_nat (length vs))) <$> vs.

Lemma os_read_cases vs : os_dom vs -> let w := os_unit_bits (Z.of_nat (length vs)) in
  (ub <> 2 ^ w \/ 2 ^ w ∉ vs -> os_read vs = vs) /\ (ub = 2 ^ w -> os_read vs = (fun v => if v =? 2 ^ w then 0 else v) <$> vs).
Proof.
  intros (Hwd & Hvs & _) w. unfold os_read. fold w in Hwd, Hvs |- *. split; intros H.
  - rewrite <- (list_fmap_id vs) at 2. apply list_fmap_ext. intros i v Hv. apply (reads_as_same bpc Hbpc lb ub pc w); [done| |].
    + exact (Forall_lookup_1 _ _ _ _ Hvs Hv).
    + destruct H as [H|H]; [by left|right]. intros E. apply H. rewrite <- E. by eapply list_elem_of_lookup_2.
  - apply list_fmap_ext. intros i v _. apply reads_as_full; [|done]. by destruct Hwd.
Qed.

Hypothesis Hvariant : os_bpc subvariant = Some bpc.

Lemma os_size vs : Z.land (Z.of_nat (length (octets vs))) (bpc - 1) = 0 /\
  Z.of_nat (length (octets vs)) / bpc = Z.of_nat (length vs).
Proof.
  rewrite length_octets_of_units by done. split; [|rewrite Z.mul_comm; apply Z.div_mul; lia].
  destruct Hbpc as [->|[->| ->]].
  - apply Z.land_0_r.
  - change (2 - 1) with (2 ^ 1 - 1). rewrite land_ones_mod by lia. change (2 ^ 1) with 2. Z.div_mod_to_equations; lia.
  - change (4 - 1) with (2 ^ 2 - 1). rewrite land_ones_mod by lia. change (2 ^ 2) with 4. Z.div_mod_to_equations; lia.
Qed.

Lemma os_encode_ok {S} `{HC : Consumer S} `{HA : !AppendConsumer S} vs (po : asn_bit_outp S) :
  os_dom vs -> po_wf po ->
  put_res po (os_bits vs) (OCTET_STRING_encode_uper subvariant pc {| os_buf := octets vs |} po) 0.
Proof.
  intros (Hwd & Hvs & Hout & Hcnt) Hw. unfold OCTET_STRING_encode_uper. rewrite Hvariant. cbn [os_buf].
  destruct (os_size vs) as [-> ->]. cbn [negb Z.eqb]. cbn zeta.
  unfold os_bits. fold (os_outside (Z.of_nat (length vs))) (os_unit_bits (Z.of_nat (length vs))).
  assert (Hfuel : (length vs <= length (octets vs))%nat)
    by (pose proof (length_octets_of_units bpc Hbpc vs); nia).
  set (n := Z.of_nat (length vs)) in *. destruct (os_outside n && negb (has_flag (csiz pc) APC_EXTENSIBLE)) eqn:Eo.
  { apply andb_true_iff in Eo as [Eo En]. by rewrite Hout in En. }
  apply (put_res_bind _ _ _ _ 0).
  { destruct (has_flag _ _); [|by apply put_res_ret].
    pose proof (per_put_few_ok po (Z.b2z (os_outside n)) 1 Hw ltac:(lia)) as Hput. by destruct (os_outside n). }
  intros po1 Hw1. cbn [negb Z.eqb]. unfold os_counted in *.
  destruct (os_outside n) eqn:En.
  - rewrite !andb_false_r. unfold frags. rewrite length_fmap. unfold os_unit_bits in *. rewrite En in *.
    rewrite (frag_bits_fuel _ (Datatypes.S (length (octets vs)))) by (rewrite length_fmap; lia).
    apply os_put_loop_ok; [done|done|lia|done].
  - rewrite andb_true_r in *. unfold os_unit_bits in *. rewrite En in *.
    destruct (Z.leb_spec 0 (effective_bits (csiz pc))) as [He|He]; cbn [andb].
    + destruct (Hcnt eq_refl) as (H16 & Hfit & _). eapply put_res_bind; [apply per_put_few_ok; [done|lia]|].
      intros po2 Hw2. cbn [negb Z.eqb].
      pose proof (put_characters_ok bpc Hbpc lb ub pc _ vs [] po2 Hwd Hvs (Forall_nil_2 _) Hw2) as Hput.
      rewrite app_nil_r in Hput. apply (put_res_map _ _ _ _ _ _ Hput). done.
    + unfold frags. rewrite length_fmap.
      rewrite (frag_bits_fuel _ (Datatypes.S (length (octets vs)))) by (rewrite length_fmap; lia).
      apply os_put_loop_ok; [done|done|lia|done].
Qed.

Lemma os_fuel_enough (pd : asn_per_data) bs rest : pd_at pd (bs ++ rest) -> (length bs <= 8 * os_fuel pd)%nat.
Proof.
  intros Hat. pose proof (pd_at_left _ _ Hat) as Hleft. rewrite length_app in Hleft.
  destruct Hat as ((Ho & Hn & _) & _). unfold os_fuel, pd_left in *. lia.
Qed.

Lemma os_decode_frags siz w vs (pd : asn_per_data) rest : effective_bits siz < 0 -> wide w ->
  Forall (good w) vs -> pd_at pd (frags (bits w <$> vs) ++ rest) ->
  dec_res pd (Z.of_nat (length (frags (bits w <$> vs)))) rest
    (os_decode_sized pc bpc w siz pd) {| os_buf := reread w vs |}.
Proof.
  intros He Hwd Hvs Hat. unfold os_decode_sized. destruct (Z.eqb_spec (effective_bits siz) 0); [lia|].
  destruct (Z.leb_spec 0 (effective_bits siz)); [lia|]. unfold frags in *. rewrite length_fmap in *.
  destruct (os_get_fragments siz (os_fuel pd) w (S (length vs)) vs false [] pd rest) as (pd' & Hr & ? & ?);
    [done|done|done|lia|by eapply os_fuel_enough|done|].
  destruct (os_get_loop _ _ _ _ _ _ _ _) as [[[c b] p]|]; [|done]. injection Hr as -> -> ->. by exists pd'.
Qed.

Lemma os_decode_counted w vs (pd : asn_per_data) rest :
  let n := Z.of_nat (length vs) in let siz := csiz pc in let e := effective_bits siz in
  wide w -> Forall (good w) vs -> 0 <= e <= 16 -> 0 <= n - lower_bound siz < 2 ^ e ->
  - 2 ^ 63 <= lower_bound siz -> n < 2 ^ 63 -> (e = 0 -> n = upper_bound siz) ->
  pd_at pd (val_bits (Z.to_nat e) (n - lower_bound siz) ++ concat (bits w <$> vs) ++ rest) ->
  dec_res pd (Z.of_nat (length (val_bits (Z.to_nat e) (n - lower_bound siz) ++ concat (bits w <$> vs)))) rest
    (os_decode_sized pc bpc w siz pd) {| os_buf := reread w vs |}.
Proof.
  cbn zeta. set (n := Z.of_nat (length vs)). set (e := effective_bits (csiz pc)).
  intros Hwd Hvs He Hfit Hlb Hn Hub Hat. unfold os_decode_sized. fold e. destruct (Z.eqb_spec e 0) as [E|E].
  - rewrite E in Hat |- *. cbn [Z.to_nat val_bits app] in *. rewrite <- Hub by done.
    pose proof (get_characters_ok bpc Hbpc lb ub pc w vs pd rest Hwd Hvs Hat) as Hg. fold n in Hg.
    destruct Hg as (pd' & -> & ? & ?). cbn [mbind option_bind Z.ltb Z.compare]. by exists pd'.
  - destruct (Z.leb_spec 0 e); [|lia]. unfold os_fuel. cbn [os_get_loop]. unfold uper_get_length. fold e. zcases.
    cbn [andb]. destruct (per_get_few_at pd e _ _ ltac:(lia) Hat) as (pd1 & -> & Hat1 & Hrd1).
    cbn [mbind option_bind]. rewrite Z.mod_small by done.
    destruct (Z.leb_spec 0 (n - lower_bound (csiz pc))); [|lia]. rewrite Z.sub_add, s64_small by lia.
    cbn [mbind option_bind]. destruct (Z.ltb_spec n 0); [lia|]. rewrite length_app, length_val_bits, Nat2Z.inj_add, Z2Nat.id by lia.
    destruct (Z.eqb_spec n 0) as [E0|E0]; cbn [andb].
    + assert (vs = []) as -> by (destruct vs; [done|unfold n in E0; cbn [length] in E0; lia]).
      exists pd1. by rewrite Z.add_0_r.
    + pose proof (get_characters_ok bpc Hbpc lb ub pc w vs pd1 rest Hwd Hvs Hat1) as Hg. fold n in Hg.
      destruct Hg as (pd2 & -> & Hat2 & Hrd2). cbn [mbind option_bind Z.ltb Z.compare app]. exists pd2. split_and!; [done|done|].
      eapply pd_read_trans; [lia..|done|done].
Qed.

Lemma os_decode_ok vs (pd : asn_per_data) rest : os_dom vs -> pd_at pd (os_bits vs ++ rest) ->
  dec_res pd (Z.of_nat (length (os_bits vs))) rest (OCTET_STRING_decode_uper subvariant pc pd)
    {| os_buf := octets (os_read vs) |}.
Proof.
  intros (Hwd & Hvs & Hout & Hcnt) Hat. unfold OCTET_STRING_decode_uper. rewrite Hvariant.
  unfold os_bits, os_read in *. set (n := Z.of_nat (length vs)) in *.
  assert (Hbody : forall pd, pd_at pd ((if os_counted n
       then val_bits (Z.to_nat (effective_bits (csiz pc))) (n - lower_bound (csiz pc)) ++
         concat (bits (os_unit_bits n) <$> vs)
       else frags (bits (os_unit_bits n) <$> vs)) ++ rest) ->
     dec_res pd (Z.of_nat (length (if os_counted n
       then val_bits (Z.to_nat (effective_bits (csiz pc))) (n - lower_bound (csiz pc)) ++
         concat (bits (os_unit_bits n) <$> vs)
       else frags (bits (os_unit_bits n) <$> vs)))) rest
       (if os_outside n then os_decode_sized pc bpc (8 * bpc) (pc_size asn_DEF_OCTET_STRING_constraints) pd
        else os_decode_sized pc bpc (constrained_unit_bits pc bpc) (csiz pc) pd) {| os_buf := reread (os_unit_bits n) vs |}).
  { intros pd1 Hat1. unfold os_counted, os_unit_bits in *. destruct (os_outside n) eqn:En.
    - rewrite andb_false_r in *. by apply os_decode_frags.
    - rewrite andb_true_r in *. destruct (Z.leb_spec 0 (effective_bits (csiz pc))) as [He|He]; [|by apply os_decode_frags].
      destruct (Hcnt eq_refl) as (H16 & Hfit & Hlb & Hn & Hub). rewrite <- app_assoc in Hat1.
      by apply os_decode_counted. }
  destruct (has_flag (csiz pc) APC_EXTENSIBLE).
  - destruct (get_bit pd _ _ Hat) as (pd1 & -> & Hat1 & Hrd1). cbn [mbind option_bind].
    replace (Z.b2z (os_outside n) <? 0) with false by (by destruct (os_outside n)).
    replace (negb (Z.b2z (os_outside n) =? 0)) with (os_outside n) by (by destruct (os_outside n)).
    destruct (Hbody pd1 Hat1) as (pd2 & Hr & Hat2 & Hrd2). exists pd2. split_and!; [|done|].
    + by destruct (os_outside n).
    + cbn [app length]. rewrite Nat2Z.inj_succ, <- Z.add_1_l. eapply pd_read_trans; [lia..|done|done].
  - destruct (os_outside n); [by specialize (Hout eq_refl)|]. by apply Hbody.
Qed.
End Spec.

(** ** Lemmas: writers do not look behind the callback *)

Section Natural.
Context {S1 S2 : Type} `{C1 : Consumer S1} `{C2 : Consumer S2} (f : S1 -> S2).
Hypothesis Hf : consumer_morphism f.

Lemma put_units_map n bpc w translate buf po :
  put_units n bpc w translate buf (po_map f po) = res_map f (put_units n bpc w translate buf po).
Proof.
  revert buf po. induction n as [|n IH]; intros buf po; [done|]. cbn [put_units].
  destruct (unit_value bpc buf) as [v|]; [|done]. cbn [mbind option_bind]. natural.
Qed.
#[local] Hint Resolve put_units_map : natural.

Lemma put_characters_map po buf units bpc w lb ub pc :
  OCTET_STRING_per_put_characters (po_map f po) buf units bpc w lb ub pc =
  res_map f (OCTET_STRING_per_put_characters po buf units bpc w lb ub pc).
Proof. unfold OCTET_STRING_per_put_characters. destruct (pc ≫= value2code); natural. Qed.
#[local] Hint Resolve put_characters_map : natural.

Lemma os_put_loop_map pc fuel bpc w n buf po :
  os_put_loop pc fuel bpc w n buf (po_map f po) = res_map f (os_put_loop pc fuel bpc w n buf po).
Proof. revert n buf po. induction fuel as [|fuel IH]; intros n buf po; [done|]. cbn [os_put_loop]. natural. Qed.
#[local] Hint Resolve os_put_loop_map : natural.

Lemma os_encode_map subvariant pc st po :
  OCTET_STRING_encode_uper subvariant pc st (po_map f po) = res_map f (OCTET_STRING_encode_uper subvariant pc st po).
Proof. unfold OCTET_STRING_encode_uper. destruct (os_bpc subvariant); natural. Qed.
End Natural.

(** ** The codec's contract *)

Fixpoint chars_of (n : nat) (bpc : Z) (buf : list Z) : list Z :=
  match n with
  | O => []
  | S n => match unit_value bpc buf with
           | Some v => v :: chars_of n bpc (drop (Z.to_nat bpc) buf)
           | None => []
           end
  end.

Lemma chars_of_octets bpc vs : bpc = 1 \/ bpc = 2 \/ bpc = 4 -> Forall (fun v => 0 <= v < 2 ^ (8 * bpc)) vs ->
  chars_of (length vs) bpc (octets_of_units bpc vs) = vs.
Proof.
  intros Hbpc. induction 1 as [|v vs Hv Hvs IH]; [done|]. cbn [chars_of length octets_of_units fmap list_fmap concat].
  fold (octets_of_units bpc vs). rewrite unit_value_be by done.
  by rewrite drop_app_length', IH by (by rewrite length_be_bytes).
Qed.

(** The string holds the characters [vs] of a string type in its domain, all
    of which can be read back. *)
Definition os_holds (bpc : Z) pc (st : OCTET_STRING_t) (vs : list Z) : Prop :=
  st = {| os_buf := octets_of_units bpc vs |} /\ os_dom pc bpc vs /\ os_read pc bpc vs = vs.

Definition octet_string_laws subvariant pc bpc (Hv : os_bpc subvariant = Some bpc) :
  @PerTypeLaws OCTET_STRING_t (OCTET_STRING_per subvariant pc).
Proof.
  pose proof (os_bpc_cases _ _ Hv) as Hbpc.
  assert (Hchars : forall st vs, os_holds bpc pc st vs ->
    chars_of (Z.to_nat (Z.of_nat (length (os_buf st)) / bpc)) bpc (os_buf st) = vs).
  { intros st vs (-> & (_ & Hvs & _) & _). cbn [os_buf]. destruct (os_size subvariant bpc Hbpc Hv vs) as [_ ->]. rewrite Nat2Z.id.
    apply chars_of_octets; [done|]. eapply Forall_impl; [exact Hvs|]. by intros v [? _]. }
  unshelve refine (@Build_PerTypeLaws _ (OCTET_STRING_per subvariant pc) (fun st => exists vs, os_holds bpc pc st vs)
    (fun st => os_bits pc bpc (chars_of (Z.to_nat (Z.of_nat (length (os_buf st)) / bpc)) bpc (os_buf st))) _ _).
  - eexists. split; [reflexivity|]. split.
    + intros S C A po st (vs & Hst) Hw. rewrite (Hchars st vs Hst). destruct Hst as (-> & Hd & _). exists 0.
      split; [done|]. by apply os_encode_ok.
    + intros S1 S2 C1 C2 f Hf po st. by apply os_encode_map.
  - eexists. split; [reflexivity|]. intros pd st rest (vs & Hst). rewrite (Hchars st vs Hst). destruct Hst as (-> & Hd & Hr).
    rewrite <- Hr at 3. by apply os_decode_ok.
Defined.

(** ** Properties *)

(** C31: For every string type of one, two or four octets per character, every
    size constraint and every alphabet (by range, by maps or none): encoding a
    string within its constraints emits the extension bit, the size (nothing
    for a fixed size, a count, or length determinants with fragments) and each
    character's code in the alphabet's width; decoding that, whatever follows,
    yields as many characters and stops behind them.  Every character of the
    alphabet is read back but one: where the upper bound of the alphabet is
    exactly 2 to the number of bits per character, the codes are the
    characters themselves and that last one is written as zero and read back
    as NUL. *)
Theorem octet_string_uper_roundtrip subvariant pc bpc vs :
  os_bpc subvariant = Some bpc -> os_dom pc bpc vs ->
  (forall S (C : Consumer S) (A : AppendConsumer S) (po : asn_bit_outp S), po_wf po ->
     put_res po (os_bits pc bpc vs)
       (OCTET_STRING_encode_uper subvariant pc {| os_buf := octets_of_units bpc vs |} po) 0) /\
  (forall pd rest, pd_at pd (os_bits pc bpc vs ++ rest) ->
     dec_res pd (Z.of_nat (length (os_bits pc bpc vs))) rest (OCTET_STRING_decode_uper subvariant pc pd)
       {| os_buf := octets_of_units bpc (os_read pc bpc vs) |}) /\
  let unit_bits := os_unit_bits pc bpc (Z.of_nat (length vs)) in
  (upper_bound (cval pc) <> 2 ^ unit_bits \/ 2 ^ unit_bits ∉ vs -> os_read pc bpc vs = vs) /\
  (upper_bound (cval pc) = 2 ^ unit_bits -> os_read pc bpc vs = (fun v => if v =? 2 ^ unit_bits then 0 else v) <$> vs).
Proof.
  intros Hv Hd. pose proof (os_bpc_cases _ _ Hv). split; [intros; by apply os_encode_ok|]. split; [intros; by apply os_decode_ok|].
  by apply os_read_cases.
Qed.

(** The comparison with 2^unit_bits admits one value too many: in an alphabet
    from the space to the commercial at, of six bits, the latter is written as
    zero and read back as NUL. *)
Example at_sign_misread :
  let pc := Some {| pc_value := {| flags := APC_CONSTRAINED; range_bits := 6; effective_bits := 6;
                                   lower_bound := 32; upper_bound := 64 |};
                    pc_size := {| flags := APC_CONSTRAINED; range_bits := 0; effective_bits := 0;
                                  lower_bound := 1; upper_bound := 1 |};
                    value2code := None; code2value := None |} in
  ('(_, po) ← OCTET_STRING_encode_uper ASN_OSUBV_STR pc {| os_buf := [64] |} (po_of_key {| bb_bytes := [] |});
   '(_, st, _) ← OCTET_STRING_decode_uper ASN_OSUBV_STR pc (pd_of_buffer (po_tmpspace po) 0 6); st) =
  Some {| os_buf := [0] |}.
Proof. vm_compute. reflexivity. Qed.

(** IA5String (SIZE(1..4)) (FROM(A..P)): four bits per character, as offsets
    from A. *)
Definition license : asn_per_constraints_t := {|
  pc_value := {| flags := APC_CONSTRAINED; range_bits := 4; effective_bits := 4; lower_bound := 65; upper_bound := 80 |};
  pc_size := {| flags := APC_CONSTRAINED; range_bits := 2; effective_bits := 2; lower_bound := 1; upper_bound := 4 |};
  value2code := None; code2value := None |}.

Lemma license_dom : os_dom (Some license) 1 [66; 80].
Proof.
  split_and!; [split; [done|split; [done|right; split; [done|by right]]]| |done|done].
  repeat (apply Forall_cons; split); [..|constructor]; (split; [done|right; done]).
Qed.

Definition space_to_at : asn_per_constraints_t := {|
  pc_value := {| flags := APC_CONSTRAINED; range_bits := 6; effective_bits := 6; lower_bound := 32; upper_bound := 64 |};
  pc_size := {| flags := APC_CONSTRAINED; range_bits := 1; effective_bits := 1; lower_bound := 1; upper_bound := 2 |};
  value2code := None; code2value := None |}.

Lemma space_to_at_dom : os_dom (Some space_to_at) 1 [33; 64].
Proof.
  split_and!; [split; [done|split; [done|right; split; [done|by left]]]| |done|done].
  repeat (apply Forall_cons; split); [..|constructor]; (split; [done|right; done]).
Qed.

Lemma octet_string_uper_roundtrip_witness :
  os_bits (Some license) 1 [66; 80] = [false; true; false; false; false; true; true; true; true; true] /\
  (forall S (C : Consumer S) (A : AppendConsumer S) (po : asn_bit_outp S), po_wf po ->
     put_res po (os_bits (Some license) 1 [66; 80])
       (OCTET_STRING_encode_uper ASN_OSUBV_STR (Some license) {| os_buf := [66; 80] |} po) 0) /\
  (forall pd rest, pd_at pd (os_bits (Some license) 1 [66; 80] ++ rest) ->
     dec_res pd 10 rest (OCTET_STRING_decode_uper ASN_OSUBV_STR (Some license) pd) {| os_buf := [66; 80] |}) /\
  (forall pd rest, pd_at pd (os_bits (Some space_to_at) 1 [33; 64] ++ rest) ->
     dec_res pd 13 rest (OCTET_STRING_decode_uper ASN_OSUBV_STR (Some space_to_at) pd) {| os_buf := [33; 0] |}).
Proof.
  split; [reflexivity|].
  destruct (octet_string_uper_roundtrip ASN_OSUBV_STR (Some license) 1 [66; 80] eq_refl license_dom) as (He & Hd & _).
  destruct (octet_string_uper_roundtrip ASN_OSUBV_STR (Some space_to_at) 1 [33; 64] eq_refl space_to_at_dom) as (_ & Hm & _).
  split; [exact He|]. split; [exact Hd|exact Hm].
Defined.
