(* ===== verification/BerPrim.v ===== *)
(** * Primitive types in BER and DER (support/ber_decoder.c, der_encoder.c,
    asn_codecs_prim.c, BOOLEAN.c, INTEGER.c, NativeInteger.c)

    The chain of tags and lengths in front of a value: [ber_check_tags] walks
    over it, [der_write_tags] writes it.  [tags] is the array of the type
    descriptor, [tag_mode] 0, -1 (an IMPLICIT tag replaces the first) or 1 (an
    EXPLICIT tag is put in front).  The stack check is left out, it depends on
    addresses.  The outer [option] is [None] when C would access memory
    outside its buffers, use a variable without a value or fail an
    assertion. *)
From S2P Require Import Prelude Consumer PerNatural PerCodec AsnInteger UperInteger BerTlv.

(** ** Checking tags *)

(** The local variables of [ber_check_tags]: what is left of the buffer, and
    [tlv_len] once it has a value. *)
Record check_state := {
  cs_ptr : list Z;
  cs_consumed : Z;
  cs_step : Z;
  cs_limit_len : Z;
  cs_expect_00 : Z;
  cs_constr : Z;
  cs_len : option Z
}.

(** Past the tag and the length, of [num] octets; a limit other than -1 also
    ends the buffer. *)
Definition advance (num limit_len expect_00 step constr len : Z) (s : check_state) : check_state :=
  let ptr := drop (Z.to_nat num) (cs_ptr s) in
  {| cs_ptr := if (limit_len =? -1) || (Z.of_nat (length ptr) <=? limit_len) then ptr
               else take (Z.to_nat limit_len) ptr;
     cs_consumed := cs_consumed s + num; cs_step := step; cs_limit_len := limit_len;
     cs_expect_00 := expect_00; cs_constr := constr; cs_len := Some len |}.

(** The form the tag must have: constructed when tags follow, [last_tag_form]
    when it is the last one (-1 accepts both). *)
Definition wrong_form (last : bool) (last_tag_form tlv_constr : Z) : bool :=
  if last then negb (last_tag_form =? tlv_constr) && negb (last_tag_form =? -1) else tlv_constr =? 0.

(** The body of the loop for one [tagno]; RC_OK goes on. *)
Definition check_tag (tags : list Z) (tag_mode last_tag_form tagno : Z) (s : check_state) :
    option (asn_dec_rval_code * check_state) :=
  let '(tag_len, tlv_tag) := ber_fetch_tag (cs_ptr s) in
  if tag_len =? -1 then Some (RC_FAIL, s) else if tag_len =? 0 then Some (RC_WMORE, s) else
  octet ← read (cs_ptr s) 0;
  let constructed := BER_TLV_CONSTRUCTED octet in
  let tlv_constr := Z.b2z constructed in
  tag_ok ← (if negb (tag_mode =? 0) && (cs_step s =? 0) then Some true
            else tag ← tlv_tag; expected ← read tags tagno; Some (tag =? expected));
  if negb tag_ok then Some (RC_FAIL, s) else
  if wrong_form (Z.of_nat (length tags) - 1 <=? tagno) last_tag_form tlv_constr then Some (RC_FAIL, s) else
  let '(len_len, tlv_len) := ber_fetch_length constructed (drop (Z.to_nat tag_len) (cs_ptr s)) in
  if len_len =? -1 then Some (RC_FAIL, s) else if len_len =? 0 then Some (RC_WMORE, s) else
  tlv_len ← tlv_len;
  let num := tag_len + len_len in
  if tlv_len =? -1 then
    Some (if cs_limit_len s =? -1
          then (RC_OK, advance num (-1) (cs_expect_00 s + 1) (cs_step s + 1) tlv_constr tlv_len s)
          else (RC_FAIL, s))
  else if negb (cs_expect_00 s =? 0) then Some (RC_FAIL, s)
  else
    let limit_len := if cs_limit_len s =? -1 then tlv_len + tag_len + len_len else cs_limit_len s in
    Some (if (limit_len <? 0) || negb (limit_len =? tlv_len + tag_len + len_len) then (RC_FAIL, s)
          else (RC_OK, advance num (limit_len - num) (cs_expect_00 s) (cs_step s + 1) tlv_constr tlv_len s)).

Fixpoint check_loop (n : nat) (tags : list Z) (tag_mode last_tag_form tagno : Z) (s : check_state) :
    option (asn_dec_rval_code * check_state) :=
  match n with
  | O => Some (RC_OK, s)
  | S n =>
    '(code, s) ← check_tag tags tag_mode last_tag_form tagno s;
    if decide (code = RC_OK) then check_loop n tags tag_mode last_tag_form (tagno + 1) s
    else Some (code, s)
  end.

(** An untagged type of unknown tag: any tag and length. *)
Definition check_any (s : check_state) : option (asn_dec_rval_code * check_state) :=
  let '(tag_len, _) := ber_fetch_tag (cs_ptr s) in
  if tag_len =? -1 then Some (RC_FAIL, s) else if tag_len =? 0 then Some (RC_WMORE, s) else
  octet ← read (cs_ptr s) 0;
  let constructed := BER_TLV_CONSTRUCTED octet in
  let '(len_len, tlv_len) := ber_fetch_length constructed (drop (Z.to_nat tag_len) (cs_ptr s)) in
  if len_len =? -1 then Some (RC_FAIL, s) else if len_len =? 0 then Some (RC_WMORE, s) else
  tlv_len ← tlv_len;
  Some (RC_OK, advance (tag_len + len_len) (-1) 0 (cs_step s) (Z.b2z constructed) tlv_len s).

(** Code, octets consumed, the step kept in [opt_ctx] (a short), and
    [*last_length] with [*opt_tlv_form] when they are set. *)
Definition ber_check_tags (tags : list Z) (opt_ctx : option Z) (ptr : list Z) (tag_mode last_tag_form : Z) :
    option (asn_dec_rval_code * Z * option Z * option (Z * Z)) :=
  let step := default 0 opt_ctx in
  let tagno := step + (if tag_mode =? 1 then -1 else 0) in
  let count := Z.of_nat (length tags) in
  let s := {| cs_ptr := ptr; cs_consumed := 0; cs_step := step; cs_limit_len := -1;
              cs_expect_00 := 0; cs_constr := -1; cs_len := None |} in
  '(code, s) ← (if (tag_mode =? 0) && (tagno =? count) then check_any s
                else if tagno <? count
                then check_loop (Z.to_nat (count - tagno)) tags tag_mode last_tag_form tagno s
                else None);
  let ctx := const (sext 16 (cs_step s)) <$> opt_ctx in
  if decide (code = RC_OK) then
    len ← cs_len s;
    Some (RC_OK, cs_consumed s, ctx,
      Some (if negb (cs_expect_00 s =? 0) then - cs_expect_00 s else len, cs_constr s))
  else Some (code, match opt_ctx with Some _ => cs_consumed s | None => 0 end, ctx, None).

(** ** Decoding *)

(** What [f] makes of the contents octets, behind the tags of a primitive
    encoding; a length over what is left waits for more.  A negative length,
    which only an untagged type can have, is [None]. *)
Definition with_contents {A} (tags : list Z) (buf_ptr : list Z) (tag_mode : Z)
    (f : option (list Z) -> option (option A)) : option (asn_dec_rval_code * Z * option A) :=
  '(code, consumed, _, last) ← ber_check_tags tags None buf_ptr tag_mode 0;
  if negb (bool_decide (code = RC_OK)) then Some (code, consumed, None) else
  '(length_, _) ← last;
  let buf_ptr := drop (Z.to_nat consumed) buf_ptr in
  if Z.of_nat (length buf_ptr) <? length_ then Some (RC_WMORE, 0, None) else
  r ← f (if length_ <? 0 then None else Some (take (Z.to_nat length_) buf_ptr));
  Some match r with
       | Some a => (RC_OK, consumed + length_, Some a)
       | None => (RC_FAIL, 0, None)
       end.

(** The octets allocated, without the final zero, and the member [size]. *)
Record ASN__PRIMITIVE_TYPE_t := { prim_buf : list Z; prim_size : Z }.

(** st->size = (int)length: the length goes through an int. *)
Definition store_primitive (octets : list Z) : ASN__PRIMITIVE_TYPE_t :=
  {| prim_buf := octets; prim_size := u64 (s32 (Z.of_nat (length octets))) |}.

Definition ber_decode_primitive (tags buf_ptr : list Z) (tag_mode : Z) :
    option (asn_dec_rval_code * Z * option ASN__PRIMITIVE_TYPE_t) :=
  with_contents tags buf_ptr tag_mode (fun octets => octets ← octets; Some (Some (store_primitive octets))).

(** The loop ORs octets into the value while it is 0. *)
Fixpoint first_nonzero (octets : list Z) : Z :=
  match octets with
  | [] => 0
  | b :: octets => if negb (b =? 0) then b else first_nonzero octets
  end.

Definition BOOLEAN_decode_ber (tags buf_ptr : list Z) (tag_mode : Z) :
    option (asn_dec_rval_code * Z * option BOOLEAN_t) :=
  with_contents tags buf_ptr tag_mode (fun octets =>
    Some (Some {| bool_int := first_nonzero (default [] octets) |})).

Definition NativeInteger_decode_ber (specs : option asn_INTEGER_specifics_t) (tags buf_ptr : list Z)
    (tag_mode : Z) : option (asn_dec_rval_code * Z * option Z) :=
  with_contents tags buf_ptr tag_mode (fun octets =>
    octets ← octets;
    let tmp := of_bytes octets in
    r ← (if is_unsigned specs then Some (asn_INTEGER2ulong tmp) else asn_INTEGER2long tmp);
    Some match r with Conv_OK v => Some (s64 v) | _ => None end).

(** ** Writing tags *)

Section Encode.
Context {S : Type} `{Consumer S}.

(** The 32 octets of the local buffer, of any content. *)
Context (scratch : list Z).

(** [key] is [None] for a null callback, the size is then estimated; it is
    returned with the state behind the callback. *)
Definition der_write_TL (tag len : Z) (key : option S) (constructed : bool) : option (Z * option S) :=
  let buf := match key with Some _ => scratch | None => [] end in
  '(tl, buf) ← ber_tlv_tag_serialize tag buf;
  if (tl =? -1) || (32 <? tl) then Some (-1, key) else
  '(ll, rest) ← der_tlv_length_serialize len (drop (Z.to_nat tl) buf);
  if ll =? -1 then Some (-1, key) else
  let size := tl + ll in
  if 32 <? size then Some (-1, key) else
  match key with
  | None => Some (size, None)
  | Some key =>
    let buf := take (Z.to_nat tl) buf ++ rest in
    buf ← (if constructed then octet ← read buf 0; store buf 0 (Z.lor octet 32) else Some buf);
    let '(rc, key) := consume (take (Z.to_nat size) buf) key in
    Some (if rc <? 0 then -1 else size, Some key)
  end.

(** The sizes, from right to left: the lengths of all TLVs and the overall
    length; the inner [None] is a tag that cannot be written. *)
Fixpoint measure_tags (tags : list Z) (overall_length : Z) : option (option (list Z * Z)) :=
  match tags with
  | [] => Some (Some ([], overall_length))
  | tag :: tags =>
    r ← measure_tags tags overall_length;
    match r with
    | None => Some None
    | Some (lens, overall_length) =>
      '(n, _) ← der_write_TL tag (s64 overall_length) None false;
      Some (if n =? -1 then None else Some (overall_length :: lens, u64 (overall_length + n)))
    end
  end.

Fixpoint emit_tags (tags lens : list Z) (last_tag_form : bool) (key : option S) : option (Z * option S) :=
  match tags, lens with
  | tag :: tags, len :: lens =>
    '(n, key) ← der_write_TL tag (s64 len) key (last_tag_form || negb (bool_decide (tags = [])));
    if n =? -1 then Some (-1, key) else emit_tags tags lens last_tag_form key
  | [], [] => Some (0, key)
  | _, _ => None
  end.

Definition ASN1_DER_MAX_TAGS_COUNT := 4.

(** The tags to write: the descriptor's, with [tag] in front or in place of
    the first. *)
Definition tags_to_write (tags : list Z) (tag_mode tag : Z) : list Z :=
  if negb (tag_mode =? 0) then tag :: drop (if tag_mode =? -1 then 1 else 0) tags else tags.

Definition der_write_tags (tags : list Z) (struct_length tag_mode : Z) (last_tag_form : bool) (tag : Z)
    (key : option S) : option (Z * option S) :=
  if ASN1_DER_MAX_TAGS_COUNT <? Z.of_nat (length tags) + 1 then Some (-1, key) else
  let tags := tags_to_write tags tag_mode tag in
  if bool_decide (tags = []) then Some (0, key) else
  r ← measure_tags tags struct_length;
  match r with
  | None => Some (-1, key)
  | Some (lens, overall_length) =>
    match key with
    | None => Some (s64 (u64 (overall_length - struct_length)), None)
    | Some _ =>
      '(rc, key) ← emit_tags tags lens last_tag_form key;
      Some (if rc =? -1 then -1 else s64 (u64 (overall_length - struct_length)), key)
    end
  end.

(** ** Encoding *)

(** The octets [contents] behind the tags of a primitive encoding. *)
Definition encode_contents (tags contents : list Z) (tag_mode tag : Z) (key : option S) : option (Z * option S) :=
  '(encoded, key) ← der_write_tags tags (Z.of_nat (length contents)) tag_mode false tag key;
  if encoded =? -1 then Some (-1, key) else
  match key with
  | None => Some (encoded + Z.of_nat (length contents), None)
  | Some key =>
    let '(rc, key) := consume contents key in
    Some (if rc <? 0 then -1 else encoded + Z.of_nat (length contents), Some key)
  end.

(** With a null [buf] nothing is handed on. *)
Definition der_encode_primitive (tags : list Z) (st : INTEGER_t) (tag_mode tag : Z) (key : option S) :
    option (Z * option S) :=
  match i_buf st with
  | Some octets => encode_contents tags octets tag_mode tag key
  | None => der_write_tags tags 0 tag_mode false tag key
  end.

Definition BOOLEAN_encode_der (tags : list Z) (st : BOOLEAN_t) (tag_mode tag : Z) (key : option S) :
    option (Z * option S) :=
  encode_contents tags [if negb (bool_int st =? 0) then 255 else 0] tag_mode tag key.

Definition INTEGER_encode_der (tags : list Z) (st : INTEGER_t) (tag_mode tag : Z) (key : option S) :
    option (Z * option S) :=
  der_encode_primitive tags {| i_buf := skip_superfluous <$> i_buf st |} tag_mode tag key.

(** for(p = buf + sizeof(buf) - 1; p >= buf; p--, native >>= 8) *p = native; *)
Definition NativeInteger_encode_der (tags : list Z) (native tag_mode tag : Z) (key : option S) :
    option (Z * option S) :=
  INTEGER_encode_der tags (of_bytes (be_bytes 8 (u64 native))) tag_mode tag key.
End Encode.

(** der_encode_to_buffer with the type's encoder: the result and the octets
    stored, [None] also when the assertion on their number fails. *)
Definition der_encode_to_buffer (der_encoder : option enc_to_buf_arg -> option (Z * option enc_to_buf_arg))
    (buffer_size : Z) : option (Z * list Z) :=
  '(encoded, arg) ← der_encoder (Some {| etb_stored := []; etb_left := buffer_size |});
  arg ← arg;
  if negb (encoded =? -1) && negb (encoded =? buffer_size - etb_left arg) then None
  else Some (encoded, etb_stored arg).

(** ** Specification *)

(** The chain of tags and lengths in front of [n] octets. *)
Fixpoint der_header (last_tag_form : bool) (tags : list Z) (n : Z) : list Z :=
  match tags with
  | [] => []
  | tag :: tags =>
    let inner := der_header last_tag_form tags n in
    identifier tag (last_tag_form || negb (bool_decide (tags = []))) ++
    length_octets (Z.of_nat (length inner) + n) ++ inner
  end.

Definition tag_ok (tag : Z) : Prop := 0 < tag < 2 ^ 32.

(** ** Lemmas: one tag and length *)

Lemma length_identifier tag c : length (identifier tag c) = length (tag_octets tag).
Proof. unfold identifier. by destruct (tag_octets tag). Qed.

Lemma tag_octets_bound tag : 0 <= tag < 2 ^ 32 -> (1 <= length (tag_octets tag) <= 6)%nat.
Proof.
  intros Ht. destruct (tag_split tag Ht) as (_ & Hv & _). unfold tag_octets.
  case_match; cbn [length]; [lia|]. rewrite length_tag_groups.
  destruct (groups_ok 5 7 32 (BER_TAG_VALUE tag)) as (_ & Hg1 & _ & Hg2); lia.
Qed.

Lemma length_octets_bound len : 0 <= len <= RSSIZE_MAX -> (1 <= length (length_octets len) <= 9)%nat.
Proof.
  intros Hl. unfold length_octets. destruct (Z.leb_spec len 127); cbn [length]; [lia|].
  rewrite length_be_bytes. destruct (length_groups len ltac:(lia)) as (Hg & _). lia.
Qed.

(** The serializer leaves the constructed bit clear. *)
Lemma tag_first tag : tag_ok tag ->
  exists o r, tag_octets tag = o :: r /\ 0 <= o < 256 /\ Z.land o 32 = 0.
Proof.
  unfold tag_ok. intros Ht. destruct (tag_split tag ltac:(lia)) as (Hc & Hv & _).
  assert (Hfirst : exists x r, tag_octets tag = BER_TAG_CLASS tag * 64 + x :: r /\ 0 <= x < 32).
  { unfold tag_octets. case_match; eexists _, _; (split; [done|lia]). }
  destruct Hfirst as (x & r & -> & Hx). exists (BER_TAG_CLASS tag * 64 + x), r. split_and!; [done|lia|lia|].
  apply Z.bits_inj_0. intros i. destruct (decide (0 <= i)); [|by rewrite Z.testbit_neg_r by lia].
  rewrite Z.land_spec. destruct (decide (i = 5)) as [->|Hi].
  - rewrite andb_true_r. rewrite Z.testbit_eqb by lia. change (2 ^ 5) with 32.
    apply Z.eqb_neq. Z.div_mod_to_equations; lia.
  - change 32 with (2 ^ 5). rewrite Z.pow2_bits_false by lia. apply andb_false_r.
Qed.

(** The constructed bit of the first octet takes no part in the tag. *)
Lemma fetch_tag_identifier tag c j : tag_ok tag ->
  ber_fetch_tag (take j (identifier tag c)) = ber_fetch_tag (take j (tag_octets tag)).
Proof.
  intros Ht. unfold identifier. destruct c; [|by destruct (tag_octets tag)].
  destruct (tag_first tag Ht) as (o & r & -> & Ho & H32). destruct j as [|j]; [done|]. cbn [take ber_fetch_tag].
  by destruct (constructed_octet o Ho H32) as (-> & -> & _).
Qed.

Lemma identifier_short tag c j : tag_ok tag -> (j < length (identifier tag c))%nat ->
  ber_fetch_tag (take j (identifier tag c)) = (0, None).
Proof.
  intros Ht Hj. rewrite fetch_tag_identifier by done. rewrite length_identifier in Hj.
  apply fetch_tag_short; [|done]. unfold tag_ok in Ht. lia.
Qed.

Lemma tag_octets_ok tag : tag_ok tag -> bytes_ok (tag_octets tag).
Proof.
  unfold tag_ok. intros Ht. destruct (tag_split tag ltac:(lia)) as (Hc & Hv & _). unfold tag_octets.
  assert (Hg : forall k v, bytes_ok (tag_groups k v)).
  { induction k as [|k IH]; intros v; cbn [tag_groups]; (apply bytes_ok_cons; [|try apply bytes_ok_nil; apply IH]).
    - rewrite land_127. unfold byte_ok. Z.div_mod_to_equations; lia.
    - rewrite <- u8_cont. apply u8_ok. }
  case_match; (apply bytes_ok_cons; [unfold byte_ok; lia|]); [apply bytes_ok_nil|apply Hg].
Qed.

Lemma identifier_bytes tag c : tag_ok tag -> bytes_ok (identifier tag c).
Proof.
  intros Ht. pose proof (tag_octets_ok tag Ht) as Hb. unfold identifier.
  destruct (tag_first tag Ht) as (o & r & Heq & Ho & H32). rewrite Heq in *. inversion Hb; subst.
  destruct c; [|done]. apply bytes_ok_cons; [|done].
  by destruct (constructed_octet o Ho H32) as (_ & _ & ? & _).
Qed.

Lemma length_octets_ok len : 0 <= len <= RSSIZE_MAX -> bytes_ok (length_octets len).
Proof.
  intros Hl. unfold length_octets. destruct (Z.leb_spec len 127).
  - apply bytes_ok_cons; [unfold byte_ok; lia|apply bytes_ok_nil].
  - destruct (length_groups len ltac:(lia)) as (Hg & _). apply bytes_ok_cons; [unfold byte_ok; lia|apply be_bytes_ok].
Qed.

(** *buf |= 0x20 turns the tag into its identifier octets. *)
Lemma set_constructed tag (c : bool) rest : tag_ok tag ->
  (if c then octet ← read (tag_octets tag ++ rest) 0; store (tag_octets tag ++ rest) 0 (Z.lor octet 32)
   else Some (tag_octets tag ++ rest)) = Some (identifier tag c ++ rest).
Proof.
  intros Ht. unfold identifier. destruct c; [|by destruct (tag_octets tag)].
  destruct (tag_first tag Ht) as (o & r & -> & Ho & H32). cbn [app]. rewrite read_0.
  cbn [mbind option_bind]. rewrite (store_app_0 [] o (r ++ rest)) by done. cbn [app]. rewrite u8_small; [done|].
  by destruct (constructed_octet o Ho H32) as (_ & _ & ? & _).
Qed.

(** The lengths [measure_tags] computes. *)
Fixpoint chain_lens (f : bool) (tags : list Z) (n : Z) : list Z :=
  match tags with
  | [] => []
  | _ :: tags => (Z.of_nat (length (der_header f tags n)) + n) :: chain_lens f tags n
  end.

Lemma header_tail f tag tags n : 0 <= n -> Z.of_nat (length (der_header f (tag :: tags) n)) + n <= RSSIZE_MAX ->
  0 <= Z.of_nat (length (der_header f tags n)) + n <= RSSIZE_MAX.
Proof. cbn [der_header]. rewrite !length_app. lia. Qed.

Lemma der_header_bytes f tags n : Forall tag_ok tags -> 0 <= n ->
  Z.of_nat (length (der_header f tags n)) + n <= RSSIZE_MAX -> bytes_ok (der_header f tags n).
Proof.
  intros Hok Hn. induction Hok as [|tag tags Ht Hok IH]; intros Hl; [apply bytes_ok_nil|].
  pose proof (header_tail f tag tags n Hn Hl) as Hl'. cbn [der_header].
  apply bytes_ok_app; [by apply identifier_bytes|]. apply bytes_ok_app; [by apply length_octets_ok|]. apply IH. lia.
Qed.

Section Write.
Context {S : Type} `{AppendConsumer S}.
Context (scratch : list Z) (Hscratch : length scratch = 32%nat).

(** The size, whether there is a callback or not, and the octets. *)
Lemma der_write_TL_ok tag len c : tag_ok tag -> 0 <= len <= RSSIZE_MAX ->
  let octets := identifier tag c ++ length_octets len in
  (forall any, der_write_TL (S := S) scratch tag len None any = Some (Z.of_nat (length octets), None)) /\
  forall key, exists key', der_write_TL scratch tag len (Some key) c =
    Some (Z.of_nat (length octets), Some key') /\ written key' = written key ++ octets.
Proof using All.
  intros Ht Hl octets. unfold tag_ok in Ht. pose proof (tag_octets_bound tag ltac:(lia)) as Hbt.
  pose proof (length_octets_bound len Hl) as Hbl. unfold octets. rewrite length_app, length_identifier.
  split; [intros any|intros key]; unfold der_write_TL.
  - destruct (tag_serialize_ok tag [] ltac:(lia)) as (b1 & -> & Hb1 & _). cbn [mbind option_bind].
    apply nil_length_inv in Hb1 as ->. zcases. rewrite drop_nil.
    destruct (length_serialize_ok len [] Hl) as (b2 & -> & _ & _). cbn [mbind option_bind]. zcases.
    by rewrite Nat2Z.inj_add.
  - destruct (tag_serialize_ok tag scratch ltac:(lia)) as (b1 & -> & Hb1 & Heq). cbn [mbind option_bind].
    specialize (Heq ltac:(lia)). zcases. rewrite Nat2Z.id.
    destruct (length_serialize_ok len (drop (length (tag_octets tag)) b1) Hl) as (b2 & -> & Hb2 & Heq2).
    rewrite length_drop in Hb2, Heq2. specialize (Heq2 ltac:(lia)). cbn [mbind option_bind]. zcases.
    rewrite Heq, take_app_length, Heq2.
    rewrite set_constructed by done. cbn [mbind option_bind].
    rewrite (app_assoc (identifier tag c)), take_app_length'
      by (rewrite length_app, length_identifier; lia).
    destruct (consume_append (identifier tag c ++ length_octets len) key) as (key' & -> & Hw). zcase.
    exists key'. by rewrite Nat2Z.inj_add.
Qed.

Lemma measure_tags_ok f tags n : Forall tag_ok tags -> 0 <= n ->
  Z.of_nat (length (der_header f tags n)) + n <= RSSIZE_MAX ->
  measure_tags (S := S) scratch tags n =
  Some (Some (chain_lens f tags n, Z.of_nat (length (der_header f tags n)) + n)).
Proof using All.
  assert (Hmax : RSSIZE_MAX = 4611686018427387903) by reflexivity.
  intros Hok Hn. induction Hok as [|tag tags Ht Hok IH]; intros Hl; [done|].
  pose proof (header_tail f tag tags n Hn Hl) as Hl'. cbn [measure_tags chain_lens]. rewrite IH by lia.
  cbn [mbind option_bind]. rewrite s64_small by lia.
  destruct (der_write_TL_ok tag _ (f || negb (bool_decide (tags = []))) Ht Hl') as [-> _]. cbn [mbind option_bind].
  zcase. rewrite u64_small by (cbn [der_header] in Hl; rewrite !length_app in *; lia).
  do 3 f_equal. cbn [der_header]. rewrite !length_app. lia.
Qed.

Lemma emit_tags_ok f tags n (key : S) : Forall tag_ok tags -> 0 <= n ->
  Z.of_nat (length (der_header f tags n)) + n <= RSSIZE_MAX ->
  exists key', emit_tags scratch tags (chain_lens f tags n) f (Some key) = Some (0, Some key') /\
    written key' = written key ++ der_header f tags n.
Proof using All.
  assert (Hmax : RSSIZE_MAX = 4611686018427387903) by reflexivity.
  intros Hok Hn. revert key. induction Hok as [|tag tags Ht Hok IH]; intros key Hl.
  { exists key. by rewrite app_nil_r. }
  pose proof (header_tail f tag tags n Hn Hl) as Hl'. cbn [emit_tags chain_lens]. rewrite s64_small by lia.
  destruct (der_write_TL_ok tag _ (f || negb (bool_decide (tags = []))) Ht Hl') as [_ Hw].
  destruct (Hw key) as (key1 & -> & Hk1). cbn [mbind option_bind]. zcase.
  destruct (IH key1 ltac:(lia)) as (key2 & -> & Hk2). exists key2. split; [done|].
  rewrite Hk2, Hk1. cbn [der_header]. by rewrite <- !app_assoc.
Qed.

(** The chain written: its size with or without a callback. *)
Lemma der_write_tags_ok tags n tag_mode f tag : (length tags <= 3)%nat -> 0 <= n ->
  Forall tag_ok (tags_to_write tags tag_mode tag) ->
  let header := der_header f (tags_to_write tags tag_mode tag) n in
  Z.of_nat (length header) + n <= RSSIZE_MAX ->
  der_write_tags (S := S) scratch tags n tag_mode f tag None = Some (Z.of_nat (length header), None) /\
  forall key, exists key', der_write_tags scratch tags n tag_mode f tag (Some key) =
    Some (Z.of_nat (length header), Some key') /\ written key' = written key ++ header.
Proof using All.
  assert (Hmax : RSSIZE_MAX = 4611686018427387903) by reflexivity.
  intros Hlen Hn Hok header Hl. unfold der_write_tags. change ASN1_DER_MAX_TAGS_COUNT with 4. unfold header in *.
  set (ts := tags_to_write tags tag_mode tag) in *. zcase.
  destruct (bool_decide_reflect (ts = [])) as [Hnil|Hne].
  { rewrite Hnil. split; [done|]. intros key. exists key. by rewrite app_nil_r. }
  rewrite (measure_tags_ok f) by done. cbn [mbind option_bind].
  rewrite Z.add_simpl_r, u64_small, s64_small by lia. split; [done|]. intros key.
  destruct (emit_tags_ok f ts n key) as (key' & -> & Hw); [done..|]. cbn [mbind option_bind]. zcase. eauto.
Qed.

Lemma encode_contents_ok tags contents tag_mode tag : (length tags <= 3)%nat ->
  Forall tag_ok (tags_to_write tags tag_mode tag) ->
  let octets := der_header false (tags_to_write tags tag_mode tag) (Z.of_nat (length contents)) ++ contents in
  Z.of_nat (length octets) <= RSSIZE_MAX ->
  encode_contents (S := S) scratch tags contents tag_mode tag None = Some (Z.of_nat (length octets), None) /\
  forall key, exists key', encode_contents scratch tags contents tag_mode tag (Some key) =
    Some (Z.of_nat (length octets), Some key') /\ written key' = written key ++ octets.
Proof using All.
  intros Hlen Hok octets Hl. unfold octets in *. rewrite length_app in *. unfold encode_contents.
  destruct (der_write_tags_ok tags (Z.of_nat (length contents)) tag_mode false tag) as [-> Hw]; [done|lia|done|lia|].
  cbn [mbind option_bind]. zcase. split; [do 2 f_equal; lia|]. intros key.
  destruct (Hw key) as (k1 & -> & Hk1). cbn [mbind option_bind]. zcase.
  destruct (consume_append contents k1) as (k2 & -> & Hk2). zcase.
  exists k2. split; [do 2 f_equal; lia|]. by rewrite Hk2, Hk1, <- app_assoc.
Qed.
End Write.

(** ** Lemmas: the chain read *)

(** [identifier] in front of anything, cut or not. *)
Lemma identifier_front tag c rest : tag_ok tag -> exists o, read (identifier tag c ++ rest) 0 = Some o /\
  BER_TLV_CONSTRUCTED o = c /\
  ber_fetch_tag (identifier tag c ++ rest) = (Z.of_nat (length (identifier tag c)), Some tag).
Proof.
  intros Ht. destruct (identifier_ok tag c Ht) as (o & r & Hid & _ & Hc & Hf).
  exists o. split_and!; [by rewrite Hid|done|apply Hf].
Qed.

Lemma take_to (l : list Z) (m : Z) :
  (if Z.of_nat (length l) <=? m then l else take (Z.to_nat m) l) = take (Z.to_nat m) l.
Proof. case_match; [rewrite take_ge; [done|lia]|done]. Qed.

(** The form a decoder asks for, and the one written. *)
Definition form_ok (f : bool) (last_tag_form : Z) : Prop := last_tag_form = Z.b2z f \/ last_tag_form = -1.

(** One tag and length of a chain, the octets cut after [k]. *)
Lemma check_tag_der f lf tags tag_mode tagno tag chain n k tail s : form_ok f lf -> tag_ok tag -> 0 <= n ->
  Z.of_nat (length (der_header f (tag :: chain) n)) + n <= RSSIZE_MAX ->
  cs_ptr s = take k (der_header f (tag :: chain) n ++ tail) -> cs_expect_00 s = 0 ->
  cs_limit_len s = -1 \/ cs_limit_len s = Z.of_nat (length (der_header f (tag :: chain) n)) + n ->
  (Z.of_nat (length tags) - 1 <=? tagno) = bool_decide (chain = []) ->
  negb (tag_mode =? 0) && (cs_step s =? 0) = true \/ read tags tagno = Some tag ->
  let c := f || negb (bool_decide (chain = [])) in
  let inner := der_header f chain n in
  let T := (length (identifier tag c) + length (length_octets (Z.of_nat (length inner) + n)))%nat in
  check_tag tags tag_mode lf tagno s =
  Some (if decide (k < T)%nat then (RC_WMORE, s) else
    (RC_OK, {| cs_ptr := take (Nat.min (k - T) (length inner + Z.to_nat n)) (inner ++ tail);
               cs_consumed := cs_consumed s + Z.of_nat T; cs_step := cs_step s + 1;
               cs_limit_len := Z.of_nat (length inner) + n; cs_expect_00 := 0; cs_constr := Z.b2z c;
               cs_len := Some (Z.of_nat (length inner) + n) |})).
Proof.
  intros Hlf Ht Hn Hl Hptr Hexp Hlim Hlast Hmatch c inner T.
  assert (Hmax : RSSIZE_MAX = 4611686018427387903) by reflexivity.
  pose proof (header_tail f tag chain n Hn Hl) as Hl'. fold inner in Hl'.
  cbn [der_header] in Hptr, Hl, Hlim. fold c inner in Hptr, Hl, Hlim. set (lo := length_octets (Z.of_nat (length inner) + n)) in *.
  pose proof (length_octets_bound _ Hl') as Hlo. fold lo in Hlo.
  pose proof (tag_octets_bound tag ltac:(unfold tag_ok in Ht; lia)) as Hid.
  rewrite <- (length_identifier tag c) in Hid. set (id := identifier tag c) in *.
  unfold check_tag. rewrite Hptr, <- !app_assoc.
  destruct (decide (k < length id)%nat) as [Hk|Hk].
  { rewrite take_app_le by lia. assert (Hs : ber_fetch_tag (take k id) = (0, None)) by (by apply identifier_short).
    rewrite Hs. cbn [Z.eqb].
    by rewrite decide_True by lia. }
  rewrite take_app_ge by lia.
  destruct (identifier_front tag c (take (k - length id) (lo ++ inner ++ tail)) Ht) as (o & Ho & Hc & Hf).
  fold id in Ho, Hf. rewrite Hf. cbn iota zeta.
  rewrite (proj2 (Z.eqb_neq (Z.of_nat (length id)) (-1))), (proj2 (Z.eqb_neq (Z.of_nat (length id)) 0)) by lia.
  rewrite Ho. cbn [mbind option_bind]. rewrite Hc.
  assert (Hok : (if negb (tag_mode =? 0) && (cs_step s =? 0) then Some true
    else expected ← read tags tagno; Some (tag =? expected)) = Some true).
  { destruct Hmatch as [->| ->]; [done|]. cbn [mbind option_bind]. rewrite Z.eqb_refl. by case_match. }
  cbn [mbind option_bind] in Hok. rewrite Hok. cbn [mbind option_bind negb]. rewrite Hlast.
  assert (Hform : wrong_form (bool_decide (chain = [])) lf (Z.b2z c) = false).
  { unfold wrong_form, c. by destruct (bool_decide (chain = [])), f, Hlf as [-> | ->]. }
  rewrite Hform, Nat2Z.id, drop_app_length.
  destruct (decide (k - length id < length lo)%nat) as [Hk2|Hk2].
  { rewrite take_app_le by lia. unfold lo at 1. rewrite fetch_length_short by (done || (fold lo; lia)). cbn [Z.eqb].
    by rewrite decide_True by lia. }
  rewrite take_app_ge by lia. unfold lo at 1. rewrite fetch_length_ok by done. fold lo.
  rewrite (proj2 (Z.eqb_neq (Z.of_nat (length lo)) (-1))), (proj2 (Z.eqb_neq (Z.of_nat (length lo)) 0)) by lia.
  cbn [mbind option_bind]. rewrite decide_False by lia. rewrite Hexp. cbn [Z.eqb negb].
  rewrite (proj2 (Z.eqb_neq (Z.of_nat (length inner) + n) (-1))) by lia.
  set (total := Z.of_nat (length inner) + n + Z.of_nat (length id) + Z.of_nat (length lo)).
  assert (Hlim' : (if cs_limit_len s =? -1 then total else cs_limit_len s) = total).
  { unfold total. rewrite !length_app in Hlim. destruct (Z.eqb_spec (cs_limit_len s) (-1)); lia. }
  rewrite Hlim', Z.eqb_refl. destruct (Z.ltb_spec total 0); [lia|]. cbn [orb negb].
  replace (total - (Z.of_nat (length id) + Z.of_nat (length lo))) with (Z.of_nat (length inner) + n) by lia.
  unfold advance. rewrite (proj2 (Z.eqb_neq (Z.of_nat (length inner) + n) (-1))) by lia. cbn [orb].
  rewrite take_to, Hptr. do 2 f_equal.
  f_equal; [|lia]. rewrite <- !app_assoc, skipn_firstn_comm, take_take.
  replace (Z.to_nat (Z.of_nat (length id) + Z.of_nat (length lo))) with T by lia.
  rewrite (app_assoc id), drop_app_length' by (rewrite length_app; lia). f_equal. lia.
Qed.

(** The chain from position [tagno] on is the one expected: its tags are the
    descriptor's, the first of all aside when the caller gave it. *)
Definition chain_expected (tags : list Z) (tag_mode tagno step : Z) (chain : list Z) : Prop :=
  Z.of_nat (length tags) - tagno = Z.of_nat (length chain) /\
  forall i tag, chain !! i = Some tag ->
    negb (tag_mode =? 0) && (step + Z.of_nat i =? 0) = true \/ read tags (tagno + Z.of_nat i) = Some tag.

Lemma chain_expected_tail tags tag_mode tagno step tag chain :
  chain_expected tags tag_mode tagno step (tag :: chain) ->
  chain_expected tags tag_mode (tagno + 1) (step + 1) chain.
Proof.
  intros [Hlen Hi]. split; [cbn [length] in Hlen; lia|]. intros i t Ht. specialize (Hi (S i) t Ht).
  replace (step + 1 + Z.of_nat i) with (step + Z.of_nat (S i)) by lia.
  by replace (tagno + 1 + Z.of_nat i) with (tagno + Z.of_nat (S i)) by lia.
Qed.

(** A whole chain, the octets cut after [k]: more wanted inside it, and the
    contents left behind it. *)
Lemma check_loop_der f lf tags tag_mode chain n tail : form_ok f lf -> Forall tag_ok chain -> 0 <= n -> forall tagno k s,
  Z.of_nat (length (der_header f chain n)) + n <= RSSIZE_MAX ->
  cs_ptr s = take k (der_header f chain n ++ tail) -> cs_expect_00 s = 0 ->
  cs_limit_len s = -1 \/ cs_limit_len s = Z.of_nat (length (der_header f chain n)) + n ->
  chain_expected tags tag_mode tagno (cs_step s) chain ->
  (chain = [] -> (k <= Z.to_nat n)%nat /\ cs_len s = Some n /\ cs_constr s = Z.b2z f) ->
  let hd := length (der_header f chain n) in
  exists code s', check_loop (length chain) tags tag_mode lf tagno s = Some (code, s') /\
    if decide (k < hd)%nat then code = RC_WMORE else
      code = RC_OK /\ cs_ptr s' = take (Nat.min (k - hd) (Z.to_nat n)) tail /\
      cs_consumed s' = cs_consumed s + Z.of_nat hd /\ cs_expect_00 s' = 0 /\ cs_len s' = Some n /\ cs_constr s' = Z.b2z f.
Proof.
  intros Hlf Hok Hn. induction Hok as [|tag chain Ht Hok IH]; intros tagno k s Hl Hptr Hexp Hlim Hch Hnil hd.
  - destruct (Hnil eq_refl) as (Hk & Hlen & Hconstr). exists RC_OK, s. split; [done|]. unfold hd. cbn [der_header length].
    rewrite decide_False by lia. rewrite Hptr. cbn [der_header app]. split_and!; try done; [|lia].
    f_equal. lia.
  - pose proof (header_tail f tag chain n Hn Hl) as Hl'. cbn [length check_loop].
    rewrite (check_tag_der f lf tags tag_mode tagno tag chain n k tail s); [|done..| |].
    2: { destruct Hch as [Hlen _]. cbn [length] in Hlen. apply eq_bool_prop_intro; rewrite bool_decide_spec, Is_true_true, Z.leb_le.
         destruct chain; cbn [length] in *; split; (done || lia). }
    2: { destruct Hch as [_ Hi]. specialize (Hi 0%nat tag eq_refl). by rewrite !Z.add_0_r in Hi. }
    cbn [mbind option_bind].
    assert (Hhd : hd = (length (identifier tag (f || negb (bool_decide (chain = [])))) +
      length (length_octets (Z.of_nat (length (der_header f chain n)) + n)) + length (der_header f chain n))%nat).
    { unfold hd. cbn [der_header]. rewrite !length_app. lia. }
    set (T := (length (identifier tag _) + length (length_octets _))%nat) in *.
    destruct (decide (k < T)%nat).
    { cbn iota. rewrite decide_False by done. exists RC_WMORE, s. split; [done|]. by rewrite decide_True by lia. }
    rewrite decide_True by done.
    set (s1 := {| cs_ptr := _ |}). set (k1 := Nat.min _ _) in s1.
    destruct (IH (tagno + 1) k1 s1) as (code & s' & -> & Hcase); try done.
    + lia.
    + by right.
    + by eapply chain_expected_tail.
    + intros ->. unfold s1, k1. cbn [der_header length cs_len cs_constr]. split_and!; [lia|f_equal; lia|by destruct f].
    + exists code, s'. split; [done|]. unfold s1, k1 in Hcase. cbn [cs_consumed] in Hcase.
      set (lc := length (der_header f chain n)) in *.
      destruct (decide (k < hd)%nat); [rewrite decide_True in Hcase by lia; done|].
      rewrite decide_False in Hcase by lia. destruct Hcase as (Hcode & Hp & Hc & He & Hlen & Hconstr).
      split_and!; try done; [rewrite Hp; f_equal; lia|lia].
Qed.

(** The tag modes a type's coder is called with; an IMPLICIT tag needs a tag
    to replace. *)
Definition mode_ok (tags : list Z) (tag_mode : Z) : Prop :=
  tag_mode = 1 \/ ((tag_mode = 0 \/ tag_mode = -1) /\ tags <> []).

Lemma chain_expected_start tags tag_mode tag : mode_ok tags tag_mode ->
  chain_expected tags tag_mode (if tag_mode =? 1 then -1 else 0) 0 (tags_to_write tags tag_mode tag) /\
  tags_to_write tags tag_mode tag <> [].
Proof.
  assert (Hread : forall i t, tags !! i = Some t -> read tags (Z.of_nat i) = Some t).
  { intros i t Hi. pose proof (lookup_lt_Some tags i t Hi). destruct (read_Some tags (Z.of_nat i)) as (b & -> & Hb); [lia|].
    rewrite Nat2Z.id in Hb. congruence. }
  intros [->|[[->| ->] Hne]]; unfold tags_to_write; cbn [Z.eqb Pos.eqb negb andb drop].
  - rewrite drop_0. split; [|done]. split; [cbn [length]; lia|]. intros [|i] t Hi; [by left|right].
    replace (-1 + Z.of_nat (S i)) with (Z.of_nat i) by lia. by apply Hread.
  - split; [|done]. split; [lia|]. intros i t Hi. right. by apply Hread.
  - destruct tags as [|t0 tags]; [done|]. split; [|done]. rewrite skipn_cons, drop_0. split; [cbn [length]; lia|].
    intros [|i] t Hi; [by left|right]. by apply Hread.
Qed.

(** The tags of a value, the octets cut after [k]. *)
Lemma ber_check_tags_der f lf tags opt_ctx tag_mode tag n k tail : form_ok f lf -> default 0 opt_ctx = 0 -> mode_ok tags tag_mode ->
  Forall tag_ok (tags_to_write tags tag_mode tag) -> 0 <= n ->
  let header := der_header f (tags_to_write tags tag_mode tag) n in
  Z.of_nat (length header) + n <= RSSIZE_MAX ->
  exists consumed ctx, ber_check_tags tags opt_ctx (take k (header ++ tail)) tag_mode lf =
    Some (if decide (k < length header)%nat then (RC_WMORE, consumed, ctx, None)
          else (RC_OK, Z.of_nat (length header), ctx, Some (n, Z.b2z f))) /\
    (opt_ctx = None -> consumed = 0) /\ (is_Some opt_ctx -> is_Some ctx).
Proof.
  intros Hlf Hctx Hm Hok Hn header Hl. destruct (chain_expected_start tags tag_mode tag Hm) as [Hch Hne].
  unfold ber_check_tags. rewrite Hctx, Z.add_0_l.
  set (tagno := if tag_mode =? 1 then -1 else 0) in *.
  set (s0 := {| cs_ptr := _ |}).
  destruct (check_loop_der f lf tags tag_mode _ n tail Hlf Hok Hn tagno k s0) as (code & s' & Hloop & Hcase); try done.
  { by left. }
  destruct Hch as [Hlen _].
  assert (0 < length (tags_to_write tags tag_mode tag))%nat by (destruct (tags_to_write _ _ _); [done|cbn; lia]).
  destruct (Z.eqb_spec tagno (Z.of_nat (length tags))); [lia|]. rewrite andb_false_r.
  destruct (Z.ltb_spec tagno (Z.of_nat (length tags))); [|lia].
  rewrite Hlen, Nat2Z.id, Hloop. cbn [mbind option_bind fmap option_fmap option_map]. fold header in Hcase.
  destruct (decide (k < length header)%nat).
  - subst code. rewrite decide_False by done. eexists _, _. split; [done|]. split; [by intros ->|by intros [? ->]].
  - destruct Hcase as (-> & _ & -> & -> & -> & ->). rewrite decide_True by done. cbn. eexists 0, _. split; [done|].
    split; [done|by intros [? ->]].
Qed.

Lemma with_contents_der {A} tags tag_mode tag contents (f : option (list Z) -> option (option A)) r k rest :
  mode_ok tags tag_mode -> Forall tag_ok (tags_to_write tags tag_mode tag) ->
  let octets := der_header false (tags_to_write tags tag_mode tag) (Z.of_nat (length contents)) ++ contents in
  Z.of_nat (length octets) <= RSSIZE_MAX -> f (Some contents) = Some (Some r) ->
  with_contents tags (take k (octets ++ rest)) tag_mode f =
  Some (if decide (k < length octets)%nat then (RC_WMORE, 0, None)
        else (RC_OK, Z.of_nat (length octets), Some r)).
Proof.
  intros Hm Hok octets Hl Hf. unfold octets in *. set (n := Z.of_nat (length contents)) in *.
  set (header := der_header _ _ n) in *. rewrite length_app in *.
  destruct (ber_check_tags_der false 0 tags None tag_mode tag n k (contents ++ rest)) as (consumed & ctx & Hct & Hc0 & _);
    [by left|done..|lia|fold header; lia|]. rewrite (Hc0 eq_refl) in Hct.
  fold header in Hct. unfold with_contents. rewrite <- app_assoc, Hct. cbn [mbind option_bind].
  destruct (decide (k < length header)%nat).
  { rewrite bool_decide_false by done. cbn [negb]. by rewrite decide_True by lia. }
  rewrite bool_decide_true by done. cbn [negb mbind option_bind]. rewrite Nat2Z.id, skipn_firstn_comm, drop_app_length.
  rewrite length_take, length_app.
  destruct (decide (k < length header + length contents)%nat).
  { by destruct (Z.ltb_spec (Z.of_nat ((k - length header) `min` (length contents + length rest))) n); [|lia]. }
  destruct (Z.ltb_spec (Z.of_nat ((k - length header) `min` (length contents + length rest))) n); [lia|].
  destruct (Z.ltb_spec n 0); [lia|]. replace (Z.to_nat n) with (length contents) by lia.
  rewrite take_take, Nat.min_l, take_app_length by lia.
  rewrite Hf. cbn [mbind option_bind]. do 4 f_equal. lia.
Qed.

(** ** Lemmas: any octets *)

Lemma fetch_tag_loop_any ptr : forall val tclass skipped,
  (exists r, fetch_tag_loop ptr val tclass skipped = (r, None) /\ (r = -1 \/ r = 0)) \/
  (exists n tag, fetch_tag_loop ptr val tclass skipped = (n, Some tag) /\
     skipped <= n < skipped + Z.of_nat (length ptr)).
Proof.
  induction ptr as [|o ptr IH]; intros val tclass skipped; cbn [fetch_tag_loop length]; [left; eauto|].
  repeat case_match; [left; eauto| |right; eexists _, _; split; [done|lia]].
  destruct (IH (Z.lor (u32 (val ≪ 7)) (Z.land o 127)) tclass (skipped + 1)) as [?|(n & t & -> & ?)]; [by left|].
  right. exists n, t. split; [done|lia].
Qed.

(** A tag read lies inside the octets, as does a length behind it. *)
Lemma ber_fetch_tag_any ptr :
  (exists r, ber_fetch_tag ptr = (r, None) /\ (r = -1 \/ r = 0)) \/
  (exists n tag o, ber_fetch_tag ptr = (n, Some tag) /\ 1 <= n <= Z.of_nat (length ptr) /\ read ptr 0 = Some o).
Proof.
  destruct ptr as [|o ptr]; cbn [ber_fetch_tag]; [left; eauto|]. rewrite read_0.
  case_match; [right; eexists _, _, o; split_and!; [done|lia|cbn [length]; lia|done]|].
  destruct (fetch_tag_loop_any ptr 0 (o ≫ 6) 2) as [?|(n & t & -> & ?)]; [by left|].
  right. exists n, t, o. split_and!; [done|lia|cbn [length]; lia|done].
Qed.

Lemma fetch_length_loop_any buf : forall oct len skipped,
  (exists r, fetch_length_loop buf oct len skipped = (r, None) /\ (r = -1 \/ r = 0)) \/
  (exists n l, fetch_length_loop buf oct len skipped = (n, Some l) /\
     skipped <= n <= skipped + Z.of_nat (length buf) /\ 0 <= l).
Proof.
  induction buf as [|b buf IH]; intros oct len skipped; cbn [fetch_length_loop length].
  - repeat case_match; [left; eauto|right|left; eauto]. eexists _, _. split; [done|].
    rewrite orb_false_iff, !Z.ltb_ge in *. lia.
  - destruct (oct =? 0).
    + case_match; [left; eauto|right]. eexists _, _. split; [done|]. rewrite orb_false_iff, !Z.ltb_ge in *. lia.
    + case_match; [|left; eauto].
      destruct (IH (oct - 1) (Z.lor (s64 (len ≪ 8)) b) (skipped + 1)) as [?|(n & l & -> & ? & ?)]; [by left|].
      right. exists n, l. split_and!; (done || lia).
Qed.

Lemma ber_fetch_length_any c buf : bytes_ok buf ->
  (exists r, ber_fetch_length c buf = (r, None) /\ (r = -1 \/ r = 0)) \/
  (exists n l, ber_fetch_length c buf = (n, Some l) /\ 1 <= n <= Z.of_nat (length buf) /\
     (0 <= l \/ (c = true /\ l = -1))).
Proof.
  intros Hok. destruct Hok as [|o buf Ho Hok]; cbn [ber_fetch_length length]; [left; eauto|].
  unfold byte_ok in Ho. case_match; [right; exists 1, o; split_and!; (done || lia)|].
  destruct (c && (o =? 128)) eqn:Hc.
  { apply andb_true_iff in Hc as [-> _]. right. exists 1, (-1). split_and!; (done || lia || auto). }
  case_match; [left; eauto|].
  destruct (fetch_length_loop_any buf (Z.land o 127) 0 1) as [?|(n & l & -> & ? & ?)]; [by left|].
  right. exists n, l. split_and!; (done || lia).
Qed.

Lemma advance_inside num limit_len expect_00 step constr len s : bytes_ok (cs_ptr s) ->
  0 <= num <= Z.of_nat (length (cs_ptr s)) ->
  let s' := advance num limit_len expect_00 step constr len s in
  bytes_ok (cs_ptr s') /\ cs_consumed s <= cs_consumed s' /\
  cs_consumed s' + Z.of_nat (length (cs_ptr s')) <= cs_consumed s + Z.of_nat (length (cs_ptr s)).
Proof.
  intros Hok Hn s'. unfold s', advance. cbn [cs_ptr cs_consumed].
  case_match; rewrite ?length_take, length_drop; (split; [by auto using bytes_ok_take, bytes_ok_drop|lia]).
Qed.

(** One step stops where it is, or advances inside the octets; behind a
    primitive tag the length is known. *)
Definition step_inside (lf : Z) (tags : list Z) (tagno : Z) (s : check_state)
    (r : option (asn_dec_rval_code * check_state)) : Prop :=
  exists code s', r = Some (code, s') /\ (code <> RC_OK -> s' = s) /\
    (code = RC_OK -> cs_step s' = cs_step s + 1 /\
       (bytes_ok (cs_ptr s') /\ cs_consumed s <= cs_consumed s' /\
        cs_consumed s' + Z.of_nat (length (cs_ptr s')) <= cs_consumed s + Z.of_nat (length (cs_ptr s))) /\
       (exists len, cs_len s' = Some len /\ (cs_constr s' = 0 -> cs_expect_00 s' = 0 /\ 0 <= len)) /\
       (Z.of_nat (length tags) - 1 <= tagno -> lf = 0 -> cs_constr s' = 0)).

Lemma step_stop lf tags tagno s code : code <> RC_OK -> step_inside lf tags tagno s (Some (code, s)).
Proof. intros Hc. by exists code, s. Qed.
#[local] Hint Resolve step_stop : core.

Lemma check_tag_any lf tags tag_mode tagno s : bytes_ok (cs_ptr s) ->
  negb (tag_mode =? 0) && (cs_step s =? 0) = true \/ 0 <= tagno < Z.of_nat (length tags) ->
  step_inside lf tags tagno s (check_tag tags tag_mode lf tagno s).
Proof.
  intros Hok Hm. unfold check_tag.
  destruct (ber_fetch_tag_any (cs_ptr s)) as [(r & -> & [-> | ->])|(tl & tag & o & -> & Htl & ->)];
    [by apply step_stop..|]. cbn [mbind option_bind].
  rewrite (proj2 (Z.eqb_neq tl (-1))), (proj2 (Z.eqb_neq tl 0)) by lia.
  assert (Htag : exists b, (if negb (tag_mode =? 0) && (cs_step s =? 0) then Some true
    else expected ← read tags tagno; Some (tag =? expected)) = Some b).
  { destruct Hm as [->|Hm]; [eauto|]. case_match; [eauto|].
    destruct (read_Some tags tagno Hm) as (e & -> & _). cbn. eauto. }
  destruct Htag as (b & Htag). cbn [mbind option_bind] in Htag. rewrite Htag. cbn [mbind option_bind].
  destruct b; cbn [negb]; [|by apply step_stop]. destruct (wrong_form _ _ _) eqn:Hform; [by apply step_stop|].
  destruct (ber_fetch_length_any (BER_TLV_CONSTRUCTED o) (drop (Z.to_nat tl) (cs_ptr s)))
    as [(r & -> & [-> | ->])|(ll & l & -> & Hll & Hl)]; [by apply bytes_ok_drop|by apply step_stop..|].
  rewrite length_drop in Hll. rewrite (proj2 (Z.eqb_neq ll (-1))), (proj2 (Z.eqb_neq ll 0)) by lia.
  assert (Hlast : Z.of_nat (length tags) - 1 <= tagno -> lf = 0 -> Z.b2z (BER_TLV_CONSTRUCTED o) = 0).
  { intros Hl0 ->. unfold wrong_form in Hform. rewrite (proj2 (Z.leb_le _ _) Hl0) in Hform. by destruct (BER_TLV_CONSTRUCTED o). }
  cbn [mbind option_bind]. destruct (Z.eqb_spec l (-1)) as [->|Hl1].
  - destruct (cs_limit_len s =? -1); [|by apply step_stop]. eexists _, _. split; [done|]. split; [done|]. intros _.
    split; [done|]. split; [apply advance_inside; [done|lia]|]. split; [|done].
    exists (-1). split; [done|]. destruct Hl as [?|[-> _]]; [lia|done].
  - destruct (Z.eqb_spec (cs_expect_00 s) 0) as [He|]; cbn [negb]; [|by apply step_stop].
    match goal with |- context [if ?b then (RC_FAIL, s) else _] => destruct b end; [by apply step_stop|].
    eexists _, _. split; [done|]. split; [done|]. intros _. split; [done|].
    split; [apply advance_inside; [done|lia]|]. split; [|done]. exists l. split; [done|]. split; [done|lia].
Qed.

Lemma check_loop_any lf tags tag_mode n : forall tagno s, bytes_ok (cs_ptr s) ->
  Z.of_nat (length tags) - tagno = Z.of_nat n -> (0 < n)%nat -> 0 <= cs_step s ->
  (0 <= tagno \/ negb (tag_mode =? 0) && (cs_step s =? 0) = true /\ tagno = -1) ->
  exists code s', check_loop n tags tag_mode lf tagno s = Some (code, s') /\
    cs_consumed s <= cs_consumed s' <= cs_consumed s + Z.of_nat (length (cs_ptr s)) /\
    cs_step s <= cs_step s' <= cs_step s + Z.of_nat n /\
    (code <> RC_OK -> cs_step s' < cs_step s + Z.of_nat n) /\
    (code = RC_OK -> exists len, cs_len s' = Some len /\ (cs_constr s' = 0 -> cs_expect_00 s' = 0 /\ 0 <= len) /\
       (lf = 0 -> cs_constr s' = 0)).
Proof.
  induction n as [|n IH]; intros tagno s Hok Hlen Hn Hstep Hm; [lia|]. cbn [check_loop].
  destruct (check_tag_any lf tags tag_mode tagno s) as (code & s' & -> & Hstop & Hgo); [done| |].
  { destruct Hm as [?|[? _]]; [right; lia|by left]. }
  cbn [mbind option_bind]. destruct (decide (code = RC_OK)) as [Hc|Hc].
  2: { exists code, s'. rewrite (Hstop Hc). split_and!; (done || lia). }
  destruct (Hgo Hc) as (Hs & (Hok' & Hc1 & Hc2) & (len & Hlen' & Hprim) & Hlast). destruct n as [|n].
  - cbn [check_loop]. exists RC_OK, s'. split_and!; try (done || lia). intros _. exists len. split_and!; [done|done|].
    apply Hlast. lia.
  - destruct (IH (tagno + 1) s') as (code2 & s2 & -> & H1 & H2 & H3 & H4); [done|lia..|left; lia|].
    exists code2, s2. split_and!; (done || lia || intros Hn2). specialize (H3 Hn2). lia.
Qed.

(** The step kept between the calls never goes past the tags. *)
Lemma ber_check_tags_any lf tags step buf tag_mode : bytes_ok buf -> Z.of_nat (length tags) < 2 ^ 15 - 1 ->
  tag_mode = 0 \/ tag_mode = 1 \/ tag_mode = -1 -> 0 <= step < Z.of_nat (length tags) + Z.b2z (tag_mode =? 1) ->
  exists code consumed step' last, ber_check_tags tags (Some step) buf tag_mode lf = Some (code, consumed, Some step', last) /\
    0 <= consumed <= Z.of_nat (length buf) /\
    (code <> RC_OK -> 0 <= step' < Z.of_nat (length tags) + Z.b2z (tag_mode =? 1)) /\
    (code = RC_OK -> exists len constr, last = Some (len, constr) /\ (constr = 0 -> 0 <= len)).
Proof.
  change (2 ^ 15 - 1) with 32767. intros Hok Hcount Hmode Hstep. unfold ber_check_tags.
  change (default 0 (Some step)) with step.
  set (tagno := step + (if tag_mode =? 1 then -1 else 0)). set (s0 := {| cs_ptr := _ |}).
  assert (Hn : (tag_mode =? 0) && (tagno =? Z.of_nat (length tags)) = false /\ tagno < Z.of_nat (length tags) /\
    Z.of_nat (length tags) - tagno + step = Z.of_nat (length tags) + Z.b2z (tag_mode =? 1) /\
    (0 <= tagno \/ negb (tag_mode =? 0) && (cs_step s0 =? 0) = true /\ tagno = -1)).
  { unfold tagno. cbn [s0 cs_step]. destruct Hmode as [->|[-> | ->]]; cbn [Z.eqb Pos.eqb negb andb Z.b2z] in *.
    - rewrite Z.add_0_r, (proj2 (Z.eqb_neq _ _)) by lia. split_and!; (done || lia).
    - split_and!; (done || lia).
    - split_and!; (done || lia). }
  destruct Hn as (-> & Hlt & Hsum & Hm0). destruct (Z.ltb_spec tagno (Z.of_nat (length tags))); [|lia].
  destruct (check_loop_any lf tags tag_mode (Z.to_nat (Z.of_nat (length tags) - tagno)) tagno s0) as
    (code & s' & -> & Hb & Hs & Hfail & Hgo); [done|lia|lia|cbn; lia|done|].
  cbn [mbind option_bind fmap option_fmap option_map s0 cs_consumed cs_ptr cs_step] in *.
  assert (Hsext : sext 16 (cs_step s') = cs_step s').
  { unfold sext. change (2 ^ 16) with 65536. change (2 ^ (16 - 1)) with 32768. destruct (tag_mode =? 1); cbn [Z.b2z] in *; rewrite Z.mod_small by lia; zcase. }
  destruct (decide (code = RC_OK)) as [Hc|Hc].
  - destruct (Hgo Hc) as (len & -> & Hprim & _). cbn [mbind option_bind]. eexists _, _, _, _. split; [done|]. split; [lia|].
    split; [done|]. intros _. eexists _, _. split; [done|]. intros H0. destruct (Hprim H0) as [-> ?]. by cbn.
  - eexists _, _, _, _. split; [done|]. split; [lia|]. split; [|done]. intros _. cbn. rewrite Hsext. specialize (Hfail Hc). lia.
Qed.

(** [with_contents] on any octets: the contents lie inside them, right behind
    the tags. *)
Lemma with_contents_any {A} tags buf tag_mode (f : option (list Z) -> option (option A)) :
  bytes_ok buf -> mode_ok tags tag_mode ->
  (forall l, bytes_ok l -> exists r, f (Some l) = Some r) ->
  exists code consumed st, with_contents tags buf tag_mode f = Some (code, consumed, st) /\
    (code <> RC_OK -> consumed = 0 /\ st = None) /\
    (code = RC_OK -> exists header contents rest a, buf = header ++ contents ++ rest /\
       consumed = Z.of_nat (length header + length contents) /\ bytes_ok contents /\
       st = Some a /\ f (Some contents) = Some (Some a)).
Proof.
  intros Hok Hm Hf. unfold with_contents, ber_check_tags. cbn [default]. rewrite Z.add_0_l.
  set (tagno := if tag_mode =? 1 then -1 else 0). set (s0 := {| cs_ptr := _ |}).
  assert (Hn : (tag_mode =? 0) && (tagno =? Z.of_nat (length tags)) = false /\ tagno < Z.of_nat (length tags) /\
    (0 <= tagno \/ negb (tag_mode =? 0) && (cs_step s0 =? 0) = true /\ tagno = -1)).
  { unfold tagno. destruct Hm as [->|[[-> | ->] Hne]]; cbn [Z.eqb Pos.eqb negb andb s0 cs_step];
      [split_and!; (done || lia || auto)|..]; (destruct tags; [done|]); cbn [length]; split_and!; (done || lia || auto). }
  destruct Hn as (-> & Hlt & Hm0). destruct (Z.ltb_spec tagno (Z.of_nat (length tags))); [|lia].
  destruct (check_loop_any 0 tags tag_mode (Z.to_nat (Z.of_nat (length tags) - tagno)) tagno s0) as
    (code & s' & -> & Hb & _ & _ & Hgo); [done|lia|lia|done|done|].
  cbn [mbind option_bind fmap option_fmap option_map]. destruct (decide (code = RC_OK)) as [Hc|Hc].
  2: { cbn [mbind option_bind]. rewrite bool_decide_false by done. cbn [negb]. by eexists _, _, _. }
  destruct (Hgo Hc) as (len & -> & Hprim & Hform). destruct (Hprim (Hform eq_refl)) as [-> Hlen]. cbn [s0 cs_consumed cs_ptr] in Hb.
  cbn [mbind option_bind Z.eqb negb]. rewrite bool_decide_true by done. cbn [negb mbind option_bind].
  set (buf' := drop (Z.to_nat (cs_consumed s')) buf).
  destruct (Z.ltb_spec (Z.of_nat (length buf')) len); [by eexists _, _, _|].
  destruct (Z.ltb_spec len 0); [lia|].
  destruct (Hf (take (Z.to_nat len) buf')) as (r & Hr); [by apply bytes_ok_take, bytes_ok_drop|].
  rewrite Hr. cbn [mbind option_bind]. destruct r as [a|]; [|by eexists _, _, _].
  eexists _, _, _. split; [done|]. split; [done|]. intros _.
  exists (take (Z.to_nat (cs_consumed s')) buf), (take (Z.to_nat len) buf'), (drop (Z.to_nat len) buf'), a.
  split; [by rewrite (take_drop _ buf'); unfold buf'; rewrite take_drop|].
  split; [rewrite !length_take; lia|]. by split; [apply bytes_ok_take, bytes_ok_drop|].
Qed.

(** ** Properties *)

(** An encoder and a decoder agree on a value: the size is estimated and
    written, the octets follow what was there before, and the decoder wants
    more until it has them all and takes no more than them. *)
Definition der_survives {A} (encode : forall S, Consumer S -> option S -> option (Z * option S))
    (decode : list Z -> option (asn_dec_rval_code * Z * option A)) (octets : list Z) (a : A) : Prop :=
  (forall S (C : Consumer S) (L : AppendConsumer S),
     encode S C None = Some (Z.of_nat (length octets), None) /\
     forall key, exists key', encode S C (Some key) = Some (Z.of_nat (length octets), Some key') /\
       written key' = written key ++ octets) /\
  (forall k rest, decode (take k (octets ++ rest)) =
     Some (if decide (k < length octets)%nat then (RC_WMORE, 0, None)
           else (RC_OK, Z.of_nat (length octets), Some a))).

(** All of the octets, with anything behind them. *)
Lemma survives_whole {A} e d octets (a : A) rest : der_survives e d octets a ->
  d (octets ++ rest) = Some (RC_OK, Z.of_nat (length octets), Some a).
Proof.
  intros [_ Hd]. specialize (Hd (length (octets ++ rest)) rest). rewrite take_ge in Hd by done.
  by rewrite decide_False in Hd by (rewrite length_app; lia).
Qed.

Section Survives.
Context (scratch tags : list Z) (tag_mode tag : Z).
Hypothesis (Hscratch : length scratch = 32%nat) (Hlen : (length tags <= 3)%nat) (Hm : mode_ok tags tag_mode).
Hypothesis Hok : Forall tag_ok (tags_to_write tags tag_mode tag).

(** The encoding of contents octets behind the tags. *)
Definition der_octets (tags : list Z) (tag_mode tag : Z) (contents : list Z) : list Z :=
  der_header false (tags_to_write tags tag_mode tag) (Z.of_nat (length contents)) ++ contents.

Lemma contents_survive {A} contents (f : option (list Z) -> option (option A)) a :
  Z.of_nat (length (der_octets tags tag_mode tag contents)) <= RSSIZE_MAX -> f (Some contents) = Some (Some a) ->
  der_survives (fun S _ => encode_contents scratch tags contents tag_mode tag)
    (fun buf => with_contents tags buf tag_mode f) (der_octets tags tag_mode tag contents) a.
Proof using All.
  intros Hl Hf. split.
  - intros S C L. by apply encode_contents_ok.
  - intros k rest. by apply with_contents_der.
Qed.

Lemma header_bound f chain n : Forall tag_ok chain -> 0 <= n -> 15 * Z.of_nat (length chain) + n <= RSSIZE_MAX ->
  Z.of_nat (length (der_header f chain n)) <= 15 * Z.of_nat (length chain).
Proof.
  intros Hc Hn. induction Hc as [|t chain Ht Hc IH]; intros Hl; [done|]. cbn [der_header length] in *.
  rewrite !length_app, length_identifier.
  pose proof (tag_octets_bound t ltac:(unfold tag_ok in Ht; lia)).
  pose proof (length_octets_bound (Z.of_nat (length (der_header f chain n)) + n) ltac:(lia)). lia.
Qed.

(** Four tags of fifteen octets at most. *)
Lemma der_octets_bound contents : Z.of_nat (length contents) <= RSSIZE_MAX - 60 ->
  Z.of_nat (length (der_octets tags tag_mode tag contents)) <= RSSIZE_MAX.
Proof using All.
  intros Hc. unfold der_octets. rewrite length_app.
  assert (length (tags_to_write tags tag_mode tag) <= 4)%nat.
  { unfold tags_to_write. case_match; cbn [length]; rewrite ?length_drop; lia. }
  pose proof (header_bound false _ (Z.of_nat (length contents)) Hok). lia.
Qed.
End Survives.

Lemma der_survives_ext {A} (e1 e2 : forall S, Consumer S -> option S -> option (Z * option S)) d octets (a : A) :
  (forall S C key, e1 S C key = e2 S C key) -> der_survives e1 d octets a -> der_survives e2 d octets a.
Proof.
  intros He [Hw Hd]. split; [|done]. intros S C L. destruct (Hw S C L) as [Hn Hk]. rewrite He in Hn.
  split; [done|]. intros key. specialize (Hk key). by rewrite He in Hk.
Qed.

Lemma native_encode_contents scratch tags v tag_mode tag S (C : Consumer S) (key : option S) :
  encode_contents scratch tags (skip_superfluous (be_bytes 8 (u64 v))) tag_mode tag key =
  NativeInteger_encode_der scratch tags v tag_mode tag key.
Proof.
  unfold NativeInteger_encode_der, INTEGER_encode_der. generalize (be_bytes 8 (u64 v)). done.
Qed.

(** The contents of a native integer are those [asn_long2INTEGER] makes. *)
Lemma native_contents v : is_long v ->
  let l := skip_superfluous (be_bytes 8 (u64 v)) in
  bytes_ok l /\ l <> [] /\ (length l <= 8)%nat /\ minimal l /\ int_val l = v.
Proof.
  intros Hv l. destruct (imax2INTEGER_ok v Hv) as (l' & Heq & H). unfold asn_imax2INTEGER in Heq.
  apply (f_equal i_bytes) in Heq. change (skip_superfluous (be_bytes 8 v) = l') in Heq. unfold l.
  replace (be_bytes 8 (u64 v)) with (be_bytes 8 v); [by rewrite Heq|].
  apply bytes_bits_inj; [apply be_bytes_ok..|]. rewrite !bytes_bits_be_bytes. unfold u64.
  by rewrite val_bits_mod by lia.
Qed.

Definition native_octets (v : Z) : list Z := skip_superfluous (be_bytes 8 (u64 v)).

Section Values.
Context (scratch tags : list Z) (tag_mode tag : Z).
Hypothesis (Hscratch : length scratch = 32%nat) (Hlen : (length tags <= 3)%nat) (Hm : mode_ok tags tag_mode).
Hypothesis Hok : Forall tag_ok (tags_to_write tags tag_mode tag).

Lemma native_survives specs v : is_long v -> (is_unsigned specs = true -> 0 <= v) ->
  der_survives (fun S _ => NativeInteger_encode_der scratch tags v tag_mode tag)
    (fun buf => NativeInteger_decode_ber specs tags buf tag_mode)
    (der_octets tags tag_mode tag (native_octets v)) v.
Proof using All.
  assert (Hmax : RSSIZE_MAX = 4611686018427387903) by reflexivity.
  intros Hv Hu. unfold native_octets. destruct (native_contents v Hv) as (Hb & Hne & Hl8 & Hmin & Hval).
  eapply der_survives_ext; [intros; apply native_encode_contents|].
  set (l := skip_superfluous (be_bytes 8 (u64 v))) in *. clearbody l. unfold NativeInteger_decode_ber.
  apply contents_survive; [exact Hscratch|exact Hlen|exact Hm|exact Hok|
    apply (der_octets_bound scratch); (assumption || lia)|].
  cbn [mbind option_bind]. destruct (is_unsigned specs).
  - unfold asn_INTEGER2ulong. rewrite INTEGER2umax_ok by done. rewrite <- int_val_nonneg, Hval by (rewrite ?Hval; auto).
    long_bounds. zcases. cbn [mbind option_bind]. by rewrite s64_small by lia.
  - unfold asn_INTEGER2long. rewrite INTEGER2imax_ok by done. rewrite Hval. cbn [mbind option_bind].
    long_bounds. zcases. by rewrite s64_small by lia.
Qed.

(** TRUE becomes 255. *)
Definition boolean_octet (b : BOOLEAN_t) : Z := if negb (bool_int b =? 0) then 255 else 0.

Lemma boolean_survives b :
  der_survives (fun S _ => BOOLEAN_encode_der scratch tags b tag_mode tag)
    (fun buf => BOOLEAN_decode_ber tags buf tag_mode)
    (der_octets tags tag_mode tag [boolean_octet b]) {| bool_int := boolean_octet b |}.
Proof using All.
  apply contents_survive; try done. { apply (der_octets_bound scratch); (done || cbn; lia). }
  unfold boolean_octet. cbn [default first_nonzero]. by repeat case_match.
Qed.
End Values.

(** DER of primitive types.  Behind any chain of at most three tags of the
    descriptor, as they are or with an IMPLICIT or EXPLICIT tag, the contents
    of a primitive type and a native long survive encoding: the size is the
    same with and without a callback, nothing written before is touched, and
    the decoder takes exactly those octets, answering "more wanted" while
    any is missing.  The contents of an integer are the shortest that denote
    it.  A BOOLEAN keeps its truth, TRUE becoming 255. *)
Theorem der_primitive_roundtrip specs scratch tags tag_mode tag contents v b :
  length scratch = 32%nat -> (length tags <= 3)%nat -> mode_ok tags tag_mode ->
  Forall tag_ok (tags_to_write tags tag_mode tag) ->
  Z.of_nat (length contents) <= RSSIZE_MAX - 60 -> is_long v -> (is_unsigned specs = true -> 0 <= v) ->
  der_survives (fun S _ => der_encode_primitive scratch tags (of_bytes contents) tag_mode tag)
    (fun buf => ber_decode_primitive tags buf tag_mode)
    (der_octets tags tag_mode tag contents) (store_primitive contents) /\
  (minimal (native_octets v) /\ int_val (native_octets v) = v /\
   der_survives (fun S _ => NativeInteger_encode_der scratch tags v tag_mode tag)
     (fun buf => NativeInteger_decode_ber specs tags buf tag_mode)
     (der_octets tags tag_mode tag (native_octets v)) v) /\
  der_survives (fun S _ => BOOLEAN_encode_der scratch tags b tag_mode tag)
    (fun buf => BOOLEAN_decode_ber tags buf tag_mode)
    (der_octets tags tag_mode tag [boolean_octet b]) {| bool_int := boolean_octet b |}.
Proof.
  intros Hs Hlen Hm Hok Hc Hv Hu. split; [|split].
  - apply contents_survive; try done. by apply (der_octets_bound scratch).
  - destruct (native_contents v Hv) as (_ & _ & _ & Hmin & Hval).
    split; [exact Hmin|]. split; [exact Hval|]. by apply native_survives.
  - by apply boolean_survives.
Qed.

Lemma der_primitive_roundtrip_witness :
  der_survives (fun S _ => der_encode_primitive (replicate 32 0) [8; 6] (of_bytes [1; 2; 3]) (-1) 1002)
    (fun buf => ber_decode_primitive [8; 6] buf (-1))
    (der_octets [8; 6] (-1) 1002 [1; 2; 3]) (store_primitive [1; 2; 3]) /\
  (minimal (native_octets (-129)) /\ int_val (native_octets (-129)) = -129 /\
   der_survives (fun S _ => NativeInteger_encode_der (replicate 32 0) [8; 6] (-129) (-1) 1002)
     (fun buf => NativeInteger_decode_ber None [8; 6] buf (-1))
     (der_octets [8; 6] (-1) 1002 (native_octets (-129))) (-129)) /\
  der_survives (fun S _ => BOOLEAN_encode_der (replicate 32 0) [8; 6] {| bool_int := 5 |} (-1) 1002)
    (fun buf => BOOLEAN_decode_ber [8; 6] buf (-1))
    (der_octets [8; 6] (-1) 1002 [boolean_octet {| bool_int := 5 |}])
    {| bool_int := boolean_octet {| bool_int := 5 |} |}.
Proof.
  apply der_primitive_roundtrip; [reflexivity|cbn; lia|right; split; [by right|discriminate]| |discriminate|
    split; discriminate|discriminate].
  repeat constructor; cbn; lia.
Defined.

(** What a decoder may do with any octets: a failure takes none, and a value
    comes from contents that lie inside them, right behind the tags. *)
Definition decoded_inside {A} (buf : list Z) (r : option (asn_dec_rval_code * Z * option A))
    (spec : list Z -> A -> Prop) : Prop :=
  exists code consumed st, r = Some (code, consumed, st) /\
    (code <> RC_OK -> consumed = 0 /\ st = None) /\
    (code = RC_OK -> exists header contents rest a, buf = header ++ contents ++ rest /\
       consumed = Z.of_nat (length header + length contents) /\ st = Some a /\ spec contents a).

Lemma with_contents_inside {A} tags buf tag_mode (f : option (list Z) -> option (option A)) (spec : list Z -> A -> Prop) :
  bytes_ok buf -> mode_ok tags tag_mode ->
  (forall l, bytes_ok l -> exists r, f (Some l) = Some r /\ forall a, r = Some a -> spec l a) ->
  decoded_inside buf (with_contents tags buf tag_mode f) spec.
Proof.
  intros Hok Hm Hf. destruct (with_contents_any tags buf tag_mode f Hok Hm) as (code & consumed & st & Hr & Hbad & Hgood).
  { intros l Hl. destruct (Hf l Hl) as (r & ? & _). eauto. }
  exists code, consumed, st. split_and!; [done|done|]. intros Hc.
  destruct (Hgood Hc) as (h & c & rest & a & Hbuf & Hcons & Hb & Hst & Hfa).
  exists h, c, rest, a. split_and!; try done. destruct (Hf c Hb) as (r & Hr' & Hspec). apply Hspec. congruence.
Qed.

(** Any octets.  Whatever the octets and the tags of the type, the
    decoders of primitive types, BOOLEAN and native integers read nothing
    outside the octets, fail no assertion and take no more than there is; the
    value is the one of contents inside them.  The size a primitive type
    stores is the length of those contents cut to an int. *)
Theorem ber_primitive_inside specs tags buf tag_mode : bytes_ok buf -> mode_ok tags tag_mode ->
  decoded_inside buf (ber_decode_primitive tags buf tag_mode) (fun contents st =>
    prim_buf st = contents /\
    (Z.of_nat (length contents) < 2 ^ 31 -> prim_size st = Z.of_nat (length contents)) /\
    (2 ^ 31 <= Z.of_nat (length contents) < 2 ^ 32 ->
     prim_size st = 2 ^ 64 - 2 ^ 32 + Z.of_nat (length contents))) /\
  decoded_inside buf (BOOLEAN_decode_ber tags buf tag_mode) (fun contents st =>
    bool_int st = 0 <-> Forall (fun b => b = 0) contents) /\
  decoded_inside buf (NativeInteger_decode_ber specs tags buf tag_mode) (fun contents v =>
    v = s64 (if is_unsigned specs then be_val contents else int_val contents)).
Proof.
  intros Hok Hm. split_and!; apply with_contents_inside; try done; intros l Hl; cbn [mbind option_bind].
  - eexists. split; [done|]. intros a [= <-]. cbn [prim_buf prim_size store_primitive]. split; [done|].
    split; intros Hlen; [by rewrite s32_small, u64_small by lia|].
    unfold s32, sext, u64. change (2 ^ 64) with 18446744073709551616. change (2 ^ 32) with 4294967296 in *.
    change (2 ^ (32 - 1)) with 2147483648. change (2 ^ 31) with 2147483648 in *. cbn zeta.
    rewrite (Z.mod_small (Z.of_nat (length l)) 4294967296) by lia. zcase. Z.div_mod_to_equations; lia.
  - eexists. split; [done|]. intros a [= <-]. cbn [bool_int default].
    induction Hl as [|b l Hb Hl IH]; cbn [first_nonzero]; [done|]. destruct (Z.eqb_spec b 0) as [->|Hne]; cbn [negb].
    + rewrite IH. split; [by constructor|by inversion 1].
    + split; [done|by inversion 1].
  - destruct (is_unsigned specs).
    + eexists. cbn [mbind option_bind]. split; [done|]. intros a Ha. unfold asn_INTEGER2ulong in Ha.
      rewrite INTEGER2umax_ok in Ha by done. by repeat case_match; simplify_eq.
    + unfold asn_INTEGER2long. rewrite INTEGER2imax_ok by done. cbn [mbind option_bind].
      eexists. split; [done|]. intros a Ha. by repeat case_match; simplify_eq.
Qed.

Lemma ber_primitive_inside_witness :
  decoded_inside [226; 128; 2; 2; 1; 200] (ber_decode_primitive [2] [226; 128; 2; 2; 1; 200] 1) (fun contents st =>
    prim_buf st = contents /\
    (Z.of_nat (length contents) < 2 ^ 31 -> prim_size st = Z.of_nat (length contents)) /\
    (2 ^ 31 <= Z.of_nat (length contents) < 2 ^ 32 ->
     prim_size st = 2 ^ 64 - 2 ^ 32 + Z.of_nat (length contents))) /\
  decoded_inside [226; 128; 2; 2; 1; 200] (BOOLEAN_decode_ber [2] [226; 128; 2; 2; 1; 200] 1) (fun contents st =>
    bool_int st = 0 <-> Forall (fun b => b = 0) contents) /\
  decoded_inside [226; 128; 2; 2; 1; 200] (NativeInteger_decode_ber None [2] [226; 128; 2; 2; 1; 200] 1)
    (fun contents v => v = s64 (if is_unsigned None then be_val contents else int_val contents)).
Proof. apply ber_primitive_inside; [repeat constructor; unfold byte_ok; lia|by left]. Defined.

(** An unsigned long over LONG_MAX: the fake INTEGER has no zero octet in
    front, so its contents are those of a negative number, the superfluous
    ones of which are then cut. *)
Example unsigned_der_misread :
  let unsigned := Some {| value2enum := []; enum2value := []; extension := 0; strict_enumeration := false;
                          field_unsigned := true |} in
  NativeInteger_encode_der (replicate 32 0) [8] (s64 ULONG_MAX) 0 0 (Some {| bb_bytes := [] |}) =
    Some (3, Some {| bb_bytes := [2; 1; 255] |}) /\
  NativeInteger_decode_ber unsigned [8] [2; 1; 255] 0 = Some (RC_OK, 3, Some 255).
Proof. split; vm_compute; reflexivity. Qed.

(** Resumed behind the first tag of a definite chain, the check has forgotten
    the limit: the inner length now reaches over the end of the outer one. *)
Example resumed_check_forgets :
  ber_check_tags [2; 6] None [160; 3; 1; 9; 0; 0; 0; 0; 0; 0; 0; 0; 0] 0 0 = Some (RC_FAIL, 0, None, None) /\
  ber_check_tags [2; 6] (Some 0) [160; 3] 0 0 = Some (RC_WMORE, 2, Some 1, None) /\
  ber_check_tags [2; 6] (Some 1) [129; 9; 0; 0; 0; 0; 0; 0; 0; 0; 0] 0 0 = Some (RC_OK, 2, Some 2, Some (9, 0)).
Proof. split_and!; vm_compute; reflexivity. Qed.

(** Encoding to a buffer: too small a one is an error. *)
Example boolean_to_buffer :
  der_encode_to_buffer (BOOLEAN_encode_der (replicate 32 0) [4] {| bool_int := 7 |} 0 0) 3 = Some (3, [1; 1; 255]) /\
  der_encode_to_buffer (BOOLEAN_encode_der (replicate 32 0) [4] {| bool_int := 7 |} 0 0) 2 = Some (-1, [1; 1]).
Proof. split; vm_compute; reflexivity. Qed.
