(* ===== verification/BerType.v ===== *)
(** * BER and DER of a type (support/ber_decoder.c, der_encoder.c,
    asn1/asn1c_wrapper.cpp)

    [BerType] is what a type descriptor contributes: a DER encoder and a BER
    decoder that may stop and be resumed with the structure it has made so far.
    [BerTypeLaws] is the contract its codec must keep.  [copy] of the C++
    wrapper, by which every message object is copied, encodes a structure in
    DER and decodes the octets.  [DerNormal] says where the value this makes is
    encoded like the original; [Copying] shows it of the types. *)
From S2P Require Import Prelude Outcome Consumer PerNatural PerCodec AsnInteger UperInteger BerTlv BerPrim.

(** ** Type descriptors *)

(** [ber_struct] is the memory behind [*struct_ptr], [None] a null pointer.
    [ber_outmost] is asn_TYPE_outmost_tag without a tag mode.
    Decoder: the tag mode, the pointer and the octets to the code, the octets
    consumed and the pointer.  Encoder: the structure, tag mode and tag, and
    the callback with its key, null to estimate the size. *)
Class BerType (T : Type) := {
  ber_struct : Type;
  ber_value : ber_struct -> T;
  ber_outmost : T -> Z;
  ber_decoder : Z -> option ber_struct -> list Z -> option (asn_dec_rval_code * Z * option ber_struct);
  der_encoder : forall S, Consumer S -> T -> Z -> Z -> option S -> option (Z * option S)
}.

Definition ber_decode {T} `{BerType T} (struct_ptr : option ber_struct) (ptr : list Z) :
    option (asn_dec_rval_code * Z * option ber_struct) := ber_decoder 0 struct_ptr ptr.

Definition der_encode {T} `{BerType T} {S} `{C : Consumer S} (struct_ptr : T) (key : option S) :
    option (Z * option S) := der_encoder S C struct_ptr 0 0 key.

(** (ber_tlv_tag_t)-1: the tag of a type is not known beforehand. *)
Definition any_tag : Z := 2 ^ 32 - 1.

(** A tag mode and the tag that goes with it. *)
Definition tagging_ok (tag_mode tag : Z) : Prop := tag_mode = 0 \/ ((tag_mode = 1 \/ tag_mode = -1) /\ tag_ok tag).

(** [der_norm] is the value a decoder makes of an encoding. *)
Class BerTypeLaws (T : Type) `{BerType T} := {
  der_dom : T -> Prop;
  der_mode : Z -> Prop;
  der_norm : T -> T;
  der_of : Z -> Z -> T -> list Z;
  der_enc_law : forall S (C : Consumer S) (A : AppendConsumer S) t tag_mode tag, der_dom t -> der_mode tag_mode ->
    tagging_ok tag_mode tag -> Z.of_nat (length (der_of tag_mode tag t)) <= RSSIZE_MAX ->
    der_encoder S C t tag_mode tag None = Some (Z.of_nat (length (der_of tag_mode tag t)), None) /\
    forall key, exists key', der_encoder S C t tag_mode tag (Some key) =
      Some (Z.of_nat (length (der_of tag_mode tag t)), Some key') /\ written key' = written key ++ der_of tag_mode tag t;
  ber_dec_law : forall t tag_mode tag rest, der_dom t -> der_mode tag_mode ->
    tagging_ok tag_mode tag -> Z.of_nat (length (der_of tag_mode tag t)) <= RSSIZE_MAX ->
    exists st, ber_decoder tag_mode None (der_of tag_mode tag t ++ rest) =
      Some (RC_OK, Z.of_nat (length (der_of tag_mode tag t)), Some st) /\ ber_value st = der_norm t;
  der_bytes_law : forall t tag_mode tag, der_dom t -> der_mode tag_mode -> tagging_ok tag_mode tag ->
    Z.of_nat (length (der_of tag_mode tag t)) <= RSSIZE_MAX -> bytes_ok (der_of tag_mode tag t);
  der_front_law : forall t tag_mode tag, der_dom t -> der_mode tag_mode -> tagging_ok tag_mode tag ->
    let outmost := if tag_mode =? 0 then ber_outmost t else tag in
    tag_ok outmost /\ exists c rest, der_of tag_mode tag t = identifier outmost c ++ rest
}.

(** ** asn1c_wrapper.cpp *)

(** The structure is freed before the second exception. *)
Definition copy {T} `{BerType T} (original : T) : outcome (option T) :=
  '(encoded, buffer) ← checked (der_encode original (Some {| bb_bytes := [] |}));
  if encoded =? -1 then Throw runtime_error else
  buffer ← checked buffer;
  '(code, _, st) ← checked (ber_decode (T := T) None (bb_bytes buffer));
  if decide (code = RC_OK) then Ret (option_map ber_value st) else Throw runtime_error.

(** ** Primitive types *)

Section Primitive.
Context (scratch tags : list Z).

(** The decoder of a primitive type starts from the beginning each time and
    leaves the structure zeroed when it does not succeed. *)
Definition primitive_ber {T} (decode : list Z -> list Z -> Z -> option (asn_dec_rval_code * Z * option T))
    (encode : forall S, Consumer S -> T -> Z -> Z -> option S -> option (Z * option S)) : BerType T := {|
  ber_struct := T;
  ber_value t := t;
  ber_outmost _ := hd 0 tags;
  ber_decoder tag_mode _ buf := decode tags buf tag_mode;
  der_encoder := encode
|}.

Definition BOOLEAN_ber : BerType BOOLEAN_t := primitive_ber BOOLEAN_decode_ber
  (fun S C b tag_mode tag => BOOLEAN_encode_der scratch tags b tag_mode tag).

Definition NativeInteger_ber (specs : option asn_INTEGER_specifics_t) : BerType Z :=
  primitive_ber (NativeInteger_decode_ber specs)
    (fun S C n tag_mode tag => NativeInteger_encode_der scratch tags n tag_mode tag).

(** ** Lemmas: primitive types *)

Context (Hscratch : length scratch = 32%nat) (Hlen : (1 <= length tags <= 3)%nat) (Hok : Forall tag_ok tags).

Definition prim_mode (tag_mode : Z) : Prop := tag_mode = 0 \/ tag_mode = 1 \/ tag_mode = -1.

Lemma prim_mode_ok tag_mode : prim_mode tag_mode -> mode_ok tags tag_mode.
Proof using All.
  assert (tags <> []) by (destruct tags; [cbn in Hlen; lia|done]).
  intros [->|[->| ->]]; unfold mode_ok; auto.
Qed.

Lemma tags_to_write_ok tag_mode tag : prim_mode tag_mode -> tagging_ok tag_mode tag ->
  Forall tag_ok (tags_to_write tags tag_mode tag) /\
  exists ts, tags_to_write tags tag_mode tag = (if tag_mode =? 0 then hd 0 tags else tag) :: ts.
Proof using All.
  assert (Hne : exists t ts, tags = t :: ts) by (destruct tags; [cbn in Hlen; lia|eauto]).
  intros _ Ht. unfold tags_to_write. destruct Ht as [->|[Hm Ht]].
  - cbn [Z.eqb negb]. split; [done|]. destruct Hne as (t & ts & ->). by exists ts.
  - assert (tag_mode <> 0) by lia. rewrite (proj2 (Z.eqb_neq tag_mode 0)) by done. cbn [negb].
    split; [|eauto]. constructor; [done|]. by apply Forall_drop.
Qed.

(** What a codec built from [encode_contents] and [with_contents] owes the
    contract. *)
Lemma prim_front contents tag_mode tag : prim_mode tag_mode -> tagging_ok tag_mode tag ->
  let outmost := if tag_mode =? 0 then hd 0 tags else tag in
  tag_ok outmost /\ exists c rest, der_octets tags tag_mode tag contents = identifier outmost c ++ rest.
Proof using All.
  intros Hm Ht outmost. destruct (tags_to_write_ok tag_mode tag Hm Ht) as (Hall & ts & Hts).
  fold outmost in Hts. unfold der_octets. rewrite Hts in *. apply Forall_cons in Hall as [Hout _].
  split; [done|]. cbn [der_header orb]. rewrite <- !app_assoc. eauto.
Qed.

(** Values whose contents survive behind the tags. *)
Definition primitive_ber_laws {T} decode encode (dom : T -> Prop) (norm : T -> T) (contents : T -> list Z) :
  (forall t tag_mode tag, dom t -> mode_ok tags tag_mode -> Forall tag_ok (tags_to_write tags tag_mode tag) ->
     der_survives (fun S C => encode S C t tag_mode tag) (fun buf => decode tags buf tag_mode)
       (der_octets tags tag_mode tag (contents t)) (norm t)) ->
  (forall t, dom t -> bytes_ok (contents t)) ->
  @BerTypeLaws T (primitive_ber decode encode).
Proof using All.
  intros Hs Hb.
  refine (@Build_BerTypeLaws T (primitive_ber decode encode) dom prim_mode norm
    (fun tag_mode tag t => der_octets tags tag_mode tag (contents t)) _ _ _ _).
  - intros S C A t tag_mode tag Hd Hm Ht _.
    destruct (Hs t tag_mode tag Hd) as [Hw _]; [by apply prim_mode_ok|by apply tags_to_write_ok|]. exact (Hw S C A).
  - intros t tag_mode tag rest Hd Hm Ht _. exists (norm t). split; [|done].
    apply (survives_whole _ _ _ _ rest (Hs t tag_mode tag Hd ltac:(by apply prim_mode_ok) (proj1 (tags_to_write_ok _ _ Hm Ht)))).
  - intros t tag_mode tag Hd Hm Ht Hl. unfold der_octets in *. rewrite length_app in Hl.
    apply bytes_ok_app; [apply der_header_bytes; [by apply tags_to_write_ok|lia|lia]|by apply Hb].
  - intros t tag_mode tag _. by apply prim_front.
Defined.

Definition boolean_ber_laws : @BerTypeLaws BOOLEAN_t BOOLEAN_ber.
Proof using All.
  refine (primitive_ber_laws _ _ (fun _ => True) (fun b => {| bool_int := boolean_octet b |})
    (fun b => [boolean_octet b]) _ _).
  - intros b tag_mode tag _ Hm Ht. apply boolean_survives; (done || lia).
  - intros b _. apply bytes_ok_cons; [|apply bytes_ok_nil]. unfold boolean_octet, byte_ok. case_match; lia.
Defined.

Definition native_ber_laws (specs : option asn_INTEGER_specifics_t) : @BerTypeLaws Z (NativeInteger_ber specs).
Proof using All.
  refine (primitive_ber_laws _ _ (fun v => is_long v /\ (is_unsigned specs = true -> 0 <= v)) (fun v => v)
    native_octets _ _).
  - intros v tag_mode tag [Hv Hu] Hm Ht. apply native_survives; (done || lia).
  - intros v _. apply skip_ok, be_bytes_ok.
Defined.
End Primitive.

(** A structure given in another shape. *)
Definition shaped_ber {T U} (to : U -> T) (from : T -> U) (H : BerType T) : BerType U := {|
  ber_struct := ber_struct;
  ber_value st := from (ber_value st);
  ber_outmost t := ber_outmost (to t);
  ber_decoder := ber_decoder;
  der_encoder S C t tag_mode tag key := der_encoder S C (to t) tag_mode tag key
|}.

Definition shaped_ber_laws {T U} (to : U -> T) (from : T -> U) {H : BerType T} (L : BerTypeLaws T) :
  @BerTypeLaws U (shaped_ber to from H).
Proof.
  refine (@Build_BerTypeLaws U (shaped_ber to from H) (fun t => der_dom (to t)) der_mode
    (fun t => from (der_norm (to t))) (fun tag_mode tag t => der_of tag_mode tag (to t)) _ _ _ _).
  - intros S C A t. exact (der_enc_law S C A (to t)).
  - intros t tag_mode tag rest Hd Hm Ht Hl. destruct (ber_dec_law (to t) tag_mode tag rest Hd Hm Ht Hl) as (st & Hr & Hv).
    exists st. split; [exact Hr|]. cbn. by rewrite Hv.
  - intros t. exact (der_bytes_law (to t)).
  - intros t. exact (der_front_law (to t)).
Defined.

(** An unsigned field over LONG_MAX is not copied. *)
Example unsigned_copy_wrong :
  copy (H := NativeInteger_ber (replicate 32 0) [8]
    (Some {| value2enum := []; enum2value := []; extension := 0; strict_enumeration := false; field_unsigned := true |}))
    (s64 ULONG_MAX) = Ret (Some 255).
Proof. vm_compute. reflexivity. Qed.

Lemma copy_returns {T} `{L : BerTypeLaws T} (t : T) : der_dom t -> der_mode 0 ->
  Z.of_nat (length (der_of 0 0 t)) <= RSSIZE_MAX -> copy t = Ret (Some (der_norm t)).
Proof.
  intros Hd Hm Hl. unfold copy, der_encode, ber_decode.
  destruct (der_enc_law ByteBuffer _ _ t 0 0 Hd Hm ltac:(by left) Hl) as [_ Hw].
  destruct (Hw {| bb_bytes := [] |}) as (key & -> & Hk). cbn [checked mbind outcome_bind].
  rewrite (proj2 (Z.eqb_neq _ (-1))) by lia. cbn [checked mbind outcome_bind].
  cbn [written write_buffer_append bb_bytes app] in Hk. rewrite Hk.
  destruct (ber_dec_law t 0 0 [] Hd Hm ltac:(by left) Hl) as (st & Hr & Hv).
  rewrite app_nil_r in Hr. rewrite Hr. cbn [checked mbind outcome_bind]. rewrite decide_True by done.
  cbn [option_map]. by rewrite Hv.
Qed.

(** ** The normal form *)

(** What the copy of a structure has in common with it: not always the C
    values, but the encoding.  BOOLEAN 5 comes back as 255 and a member with its
    default value as an absent one.  [der_kept] is where the normal form is
    encoded like the structure: a SEQUENCE must not have a member that only its
    copy has at the default value. *)
Class DerNormal (T : Type) `{L : BerTypeLaws T} := {
  der_kept : T -> Prop;
  der_normal_law : forall t, der_dom t -> der_kept t ->
    der_dom (der_norm t) /\ ber_outmost (der_norm t) = ber_outmost t /\
    forall tag_mode tag, der_of tag_mode tag (der_norm t) = der_of tag_mode tag t
}.

(** A structure and its normal form are written alike. *)
Lemma normal_written {T} `{N : DerNormal T} (t : T) : der_dom t -> der_kept t -> der_mode 0 ->
  Z.of_nat (length (der_of 0 0 t)) <= RSSIZE_MAX ->
  exists n buffer, der_encode t (Some {| bb_bytes := [] |}) = Some (n, Some buffer) /\
    der_encode (der_norm t) (Some {| bb_bytes := [] |}) = Some (n, Some buffer).
Proof.
  intros Hd Hk Hm Hl. destruct (der_normal_law t Hd Hk) as (Hd' & _ & Ho). specialize (Ho 0 0).
  destruct (der_enc_law ByteBuffer _ _ t 0 0 Hd Hm ltac:(by left) Hl) as [_ Hw].
  destruct (der_enc_law ByteBuffer _ _ (der_norm t) 0 0 Hd' Hm ltac:(by left)) as [_ Hw']; [by rewrite Ho|].
  destruct (Hw {| bb_bytes := [] |}) as (k1 & Hr1 & Hk1), (Hw' {| bb_bytes := [] |}) as (k2 & Hr2 & Hk2).
  rewrite Ho in Hr2, Hk2. rewrite <- Hk1 in Hk2. destruct k1 as [b1], k2 as [b2]. cbn in Hk2. subst b2.
  by exists (Z.of_nat (length (der_of 0 0 t))), {| bb_bytes := b1 |}.
Qed.

(** The normal form is copied as it is. *)
Lemma copy_again {T} `{N : DerNormal T} (t : T) : der_dom t -> der_kept t -> der_mode 0 ->
  Z.of_nat (length (der_of 0 0 t)) <= RSSIZE_MAX -> copy (der_norm t) = copy t.
Proof.
  intros Hd Hk Hm Hl. destruct (normal_written t Hd Hk Hm Hl) as (n & buffer & H1 & H2). unfold copy. by rewrite H1, H2.
Qed.

Definition integer_tags : list Z := [8].

Lemma integer_tags_ok : Forall tag_ok integer_tags.
Proof. repeat constructor; cbn; lia. Qed.

Lemma boolean_tags_ok : Forall tag_ok [4].
Proof. repeat constructor; cbn; lia. Qed.

Definition integer_ber : BerType Z := NativeInteger_ber (replicate 32 0) integer_tags None.
Definition integer_ber_laws : @BerTypeLaws Z integer_ber :=
  native_ber_laws (replicate 32 0) integer_tags eq_refl ltac:(cbn; lia) integer_tags_ok None.
