(* ===== verification/Wrapper.v ===== *)
(** * The message objects (asn1/asn1c_wrapper.hpp, asn1c_wrapper.cpp)

    Objects that own a structure on the heap, copied through DER and moved by
    exchanging pointers.  The heap, the type descriptors and the objects are
    the shared store, so that a block freed twice, leaked or reached from two
    objects would show. *)
From stdpp Require Import gmap.
From S2P Require Import Prelude Outcome Consumer PerCodec Oer BerTlv BerPrim BerType.

(** ** The OER functions of asn1c_wrapper.cpp *)

Definition size_oer {T} `{OerType T} (t : T) : outcome Z :=
  '(encoded, _) ← checked (oer_encode (S := unit) t tt);
  if encoded <? 0 then Throw runtime_error else Ret ((encoded + 7) / 8).

Definition encode_oer {T} `{OerType T} (t : T) : outcome (list Z) :=
  '(encoded, buffer) ← checked (oer_encode t {| bb_bytes := [] |});
  if encoded =? -1 then Throw runtime_error else Ret (bb_bytes buffer).

(** The returned flag and the structure. *)
Definition decode_oer {T} `{OerType T} (buffer : list Z) : outcome (bool * option T) :=
  '(code, _, st) ← checked (oer_decode buffer);
  Ret (bool_decide (code = RC_OK), st).

(** The encoder counts octets, which [size_oer] takes for bits. *)
Example size_oer_in_eighths :
  let st := {| os_buf := [1; 2; 3] |} in
  encode_oer (H := OCTET_STRING_oer ASN_OSUBV_STR (-1)) st = Ret [3; 1; 2; 3] /\
  size_oer (H := OCTET_STRING_oer ASN_OSUBV_STR (-1)) st = Ret 1.
Proof. split; vm_compute; reflexivity. Qed.

(** ** The store *)

#[local] Abbreviation positive := BinNums.positive.

Section Store.
Context {T : Type} (zeroed : T).

(** What an object uses of asn_TYPE_descriptor_t: the codec behind copy, and
    decoding into the structure that is there, or null. *)
Record asn_TYPE_descriptor_t := {
  d_ber : BerType T;
  d_decode : option T -> list Z -> outcome (bool * option T)
}.

(** asn1c_wrapper_common: [m_struct] points to a block or is null; [m_type] is
    a reference, so it always names the same descriptor. *)
Record asn1c_wrapper_common := { m_struct : option positive; m_type : positive }.

(** Blocks, descriptors and objects by name; [None] is the name of the
    temporary of the assignment operator. *)
Record world := {
  heap : gmap positive T;
  next : positive;
  types : gmap positive asn_TYPE_descriptor_t;
  objects : gmap (option positive) asn1c_wrapper_common
}.
Implicit Types w : world.
Implicit Types o : option positive.

Definition with_heap w (h : gmap positive T) : world :=
  {| heap := h; next := next w; types := types w; objects := objects w |}.
Definition with_object w o (x : asn1c_wrapper_common) : world :=
  {| heap := heap w; next := next w; types := types w; objects := <[o := x]> (objects w) |}.

(** calloc: a block that has not been in use before. *)
Definition allocate w (t : T) : positive * world :=
  (next w, {| heap := <[next w := t]> (heap w); next := Pos.succ (next w); types := types w; objects := objects w |}).

Definition free (t : option positive) w : outcome world :=
  match t with
  | None => Ret w
  | Some l => match heap w !! l with Some _ => Ret (with_heap w (delete l (heap w))) | None => Undef invalid_pointer end
  end.

(** An object that is alive. *)
Definition object w o : outcome asn1c_wrapper_common :=
  match objects w !! o with Some x => Ret x | None => Undef indeterminate_value end.

(** A place where no object is alive. *)
Definition place w o : outcome () :=
  match objects w !! o with Some _ => Undef indeterminate_value | None => Ret () end.

Definition descriptor w (x : asn1c_wrapper_common) : outcome asn_TYPE_descriptor_t :=
  match types w !! m_type x with Some d => Ret d | None => Undef indeterminate_value end.

(** *m_struct *)
Definition contents w (x : asn1c_wrapper_common) : outcome T :=
  match m_struct x with
  | None => Undef null_dereference
  | Some l => match heap w !! l with Some t => Ret t | None => Undef invalid_pointer end
  end.

(** ** The operations *)

(** asn1c_wrapper_common(asn_TYPE_descriptor_t&) *)
Definition construct o (type : positive) w : outcome world :=
  _ ← place w o;
  _ ← descriptor w {| m_struct := None; m_type := type |};
  let '(l, w) := allocate w zeroed in
  Ret (with_object w o {| m_struct := Some l; m_type := type |}).

(** ~asn1c_wrapper_common() *)
Definition destroy o w : outcome world :=
  x ← object w o;
  w ← free (m_struct x) w;
  Ret {| heap := heap w; next := next w; types := types w; objects := delete o (objects w) |}.

(** asn1c_wrapper_common(const asn1c_wrapper_common&); an encoder given a null
    structure reads it. *)
Definition copy_construct o other w : outcome world :=
  _ ← place w o;
  x ← object w other;
  d ← descriptor w x;
  t ← contents w x;
  c ← copy (H := d_ber d) t;
  match c with
  | None => Ret (with_object w o {| m_struct := None; m_type := m_type x |})
  | Some t =>
    let '(l, w) := allocate w t in
    Ret (with_object w o {| m_struct := Some l; m_type := m_type x |})
  end.

(** swap: the pointers, and the descriptors that the references name. *)
Definition swap o other w : outcome world :=
  x ← object w o;
  y ← object w other;
  d ← descriptor w x;
  e ← descriptor w y;
  let w := with_object w o {| m_struct := m_struct y; m_type := m_type x |} in
  let w := with_object w other {| m_struct := m_struct x; m_type := m_type y |} in
  Ret {| heap := heap w; next := next w; types := <[m_type y := d]> (<[m_type x := e]> (types w)); objects := objects w |}.

(** operator=(const asn1c_wrapper_common&) *)
Definition copy_assign o other w : outcome world :=
  _ ← object w o;
  w ← copy_construct None other w;
  w ← swap o None w;
  destroy None w.

(** asn1c_wrapper_common(asn1c_wrapper_common&&) *)
Definition move_construct o other w : outcome world :=
  _ ← place w o;
  x ← object w other;
  swap o other (with_object w o {| m_struct := None; m_type := m_type x |}).

(** operator=(asn1c_wrapper_common&&) *)
Definition move_assign o other w : outcome world := swap o other w.

(** Storing through operator* or operator->. *)
Definition write o (t : T) w : outcome world :=
  x ← object w o;
  _ ← contents w x;
  match m_struct x with Some l => Ret (with_heap w (<[l := t]> (heap w))) | None => Undef null_dereference end.

(** decode: into the structure, or a new one where there is none. *)
Definition decode o (buffer : list Z) w : outcome (bool * world) :=
  x ← object w o;
  d ← descriptor w x;
  match m_struct x with
  | Some l =>
    t ← contents w x;
    '(ok, t') ← d_decode d (Some t) buffer;
    Ret (ok, match t' with Some t' => with_heap w (<[l := t']> (heap w)) | None => w end)
  | None =>
    '(ok, t) ← d_decode d None buffer;
    Ret (ok, match t with
             | Some t => let '(l, w) := allocate w t in with_object w o {| m_struct := Some l; m_type := m_type x |}
             | None => w
             end)
  end.

(** ** Programs *)

Inductive operation :=
  | Construct (o : positive) (type : positive)
  | Destroy (o : positive)
  | CopyConstruct (o other : positive)
  | CopyAssign (o other : positive)
  | MoveConstruct (o other : positive)
  | MoveAssign (o other : positive)
  | Write (o : positive) (t : T)
  | Decode (o : positive) (buffer : list Z).

Definition exec (op : operation) w : outcome world :=
  match op with
  | Construct o type => construct (Some o) type w
  | Destroy o => destroy (Some o) w
  | CopyConstruct o other => copy_construct (Some o) (Some other) w
  | CopyAssign o other => copy_assign (Some o) (Some other) w
  | MoveConstruct o other => move_construct (Some o) (Some other) w
  | MoveAssign o other => move_assign (Some o) (Some other) w
  | Write o t => write (Some o) t w
  | Decode o buffer => '(_, w) ← decode (Some o) buffer w; Ret w
  end.

(** Exceptions are caught by the program; what throws has changed nothing. *)
Fixpoint execute (ops : list operation) w : outcome world :=
  match ops with
  | [] => Ret w
  | op :: ops =>
    match exec op w with
    | Ret w => execute ops w
    | Throw _ => execute ops w
    | Undef u => Undef u
    end
  end.
End Store.

(** ** Ownership *)

Create HintDb wrapper.

Section Ownership.
Context {T : Type} (zeroed : T).
Implicit Types w : world (T := T).
Implicit Types o : option positive.

(** Every pointer leads to a block, no two objects share one, every block has
    an owner, and block names are not used twice. *)
Record owned w : Prop := {
  owned_points : forall o x l, objects w !! o = Some x -> m_struct x = Some l -> is_Some (heap w !! l);
  owned_apart : forall o1 o2 x1 x2 l, objects w !! o1 = Some x1 -> objects w !! o2 = Some x2 ->
    m_struct x1 = Some l -> m_struct x2 = Some l -> o1 = o2;
  owned_reached : forall l, is_Some (heap w !! l) -> exists o x, objects w !! o = Some x /\ m_struct x = Some l;
  owned_next : forall l, is_Some (heap w !! l) -> (l < next w)%positive;
  owned_types : forall o x, objects w !! o = Some x -> is_Some (types w !! m_type x)
}.

(** A decoder that does not itself go through a bad pointer. *)
Definition sound_codec (d : asn_TYPE_descriptor_t (T := T)) : Prop :=
  forall st buffer, d_decode d st buffer <> Undef invalid_pointer.

Lemma copy_sound {H : BerType T} (t : T) : copy t <> Undef invalid_pointer.
Proof.
  unfold copy. destruct (der_encode _ _) as [[encoded [buffer|]]|]; cbn [checked mbind outcome_bind]; [|by case_match|done].
  case_match; [done|]. by destruct (ber_decode _ _) as [[[code consumed] st]|]; cbn; [case_decide|].
Qed.

(** Only the assignment operator has a temporary, while it runs. *)
Definition settled w : Prop :=
  owned w /\ objects w !! None = None /\ map_Forall (fun _ => sound_codec) (types w).

(** A new object with a new block, or without one; or a new block for an
    object that has none. *)
Lemma owned_with_block w o type t : owned w ->
  (forall x, objects w !! o = Some x -> m_struct x = None) -> is_Some (types w !! type) ->
  let '(l, w') := allocate w t in owned (with_object w' o {| m_struct := Some l; m_type := type |}).
Proof.
  intros [Hp Ha Hr Hn Ht] Ho Htype. cbn. constructor; cbn.
  - intros o1 x l H1 Hl. apply lookup_insert_Some in H1 as [[<- <-]|[Hne H1]].
    + injection Hl as <-. rewrite lookup_insert_eq. by eexists.
    + apply lookup_insert_is_Some'. right. by eapply Hp.
  - intros o1 o2 x1 x2 l H1 H2 Hl1 Hl2.
    assert (Hfresh : forall o' x', objects w !! o' = Some x' -> m_struct x' <> Some (next w)).
    { intros o' x' H' Hl. destruct (Hp o' x' (next w) H' Hl) as [t' Hw]. pose proof (Hn (next w) ltac:(by eexists)). lia. }
    apply lookup_insert_Some in H1 as [[<- <-]|[Hne1 H1]]; apply lookup_insert_Some in H2 as [[<- <-]|[Hne2 H2]].
    + done.
    + injection Hl1 as <-. by destruct (Hfresh o2 x2 H2).
    + injection Hl2 as <-. by destruct (Hfresh o1 x1 H1).
    + by eapply Ha.
  - intros l Hl. apply lookup_insert_is_Some in Hl as [<-|[Hne Hl]].
    + eexists o, _. rewrite lookup_insert_eq. done.
    + destruct (Hr l Hl) as (o1 & x & H1 & H2). exists o1, x. split; [|done].
      rewrite lookup_insert_ne; [done|]. intros <-. specialize (Ho x H1). congruence.
  - intros l Hl. apply lookup_insert_is_Some in Hl as [<-|[Hne Hl]]; [lia|]. pose proof (Hn l Hl). lia.
  - intros o1 x H1. apply lookup_insert_Some in H1 as [[<- <-]|[Hne H1]]; [done|by eapply Ht].
Qed.

Lemma owned_with_null w o type : owned w -> objects w !! o = None -> is_Some (types w !! type) ->
  owned (with_object w o {| m_struct := None; m_type := type |}).
Proof.
  intros [Hp Ha Hr Hn Ht] Ho Htype. constructor; cbn; try done.
  - intros o1 x l H1 Hl. apply lookup_insert_Some in H1 as [[<- <-]|[Hne H1]]; [done|by eapply Hp].
  - intros o1 o2 x1 x2 l H1 H2 Hl1 Hl2.
    apply lookup_insert_Some in H1 as [[<- <-]|[Hne1 H1]]; [done|].
    apply lookup_insert_Some in H2 as [[<- <-]|[Hne2 H2]]; [done|]. by eapply Ha.
  - intros l Hl. destruct (Hr l Hl) as (o1 & x & H1 & H2). exists o1, x. split; [|done]. rewrite lookup_insert_ne; congruence.
  - intros o1 x H1. apply lookup_insert_Some in H1 as [[<- <-]|[Hne H1]]; [done|by eapply Ht].
Qed.

Lemma owned_types_some w o x : owned w -> objects w !! o = Some x -> exists d, descriptor w x = Ret d.
Proof. intros Hw Ho. destruct (owned_types w Hw o x Ho) as [d Hd]. exists d. unfold descriptor. by rewrite Hd. Qed.

(** swap succeeds on any two objects, also on one with itself. *)
Lemma owned_swap w o other x y : owned w -> objects w !! o = Some x -> objects w !! other = Some y ->
  exists w', swap o other w = Ret w' /\ owned w' /\ heap w' = heap w /\ next w' = next w /\
    objects w' = <[other := {| m_struct := m_struct x; m_type := m_type y |}]>
                   (<[o := {| m_struct := m_struct y; m_type := m_type x |}]> (objects w)) /\
    exists d e, types w !! m_type x = Some d /\ types w !! m_type y = Some e /\
      types w' = <[m_type y := d]> (<[m_type x := e]> (types w)).
Proof.
  intros Hw Ho Hother. unfold swap, object. rewrite Ho, Hother. cbn [mbind outcome_bind].
  destruct (owned_types w Hw o x Ho) as [d Hd], (owned_types w Hw other y Hother) as [e He].
  unfold descriptor. rewrite Hd, He.
  cbn [mbind outcome_bind]. eexists. split; [done|]. split; [|split_and!; [done..|by exists d, e]].
  destruct Hw as [Hp Ha Hr Hn Ht].
  (* Whose block an object has after the exchange. *)
  assert (Hwho : forall o1 x1, <[other := {| m_struct := m_struct x; m_type := m_type y |}]>
      (<[o := {| m_struct := m_struct y; m_type := m_type x |}]> (objects w)) !! o1 = Some x1 ->
    exists x0, objects w !! (if decide (o1 = other) then o else if decide (o1 = o) then other else o1) = Some x0 /\
      m_struct x0 = m_struct x1 /\ (exists o2 x2, objects w !! o2 = Some x2 /\ m_type x2 = m_type x1)).
  { intros o1 x1 H1. apply lookup_insert_Some in H1 as [[<- <-]|[Hne H1]].
    - rewrite decide_True by done. exists x. split_and!; [done|done|]. by exists other, y.
    - rewrite decide_False by done. apply lookup_insert_Some in H1 as [[<- <-]|[Hne' H1]].
      + rewrite decide_True by done. exists y. split_and!; [done|done|]. by exists o, x.
      + rewrite decide_False by done. exists x1. split_and!; [done|done|]. by exists o1, x1. }
  constructor; cbn.
  - intros o1 x1 l H1 Hl. destruct (Hwho o1 x1 H1) as (x0 & H0 & Hs & _). eapply Hp; [exact H0|congruence].
  - intros o1 o2 x1 x2 l H1 H2 Hl1 Hl2. destruct (Hwho o1 x1 H1) as (y1 & Hy1 & Hs1 & _).
    destruct (Hwho o2 x2 H2) as (y2 & Hy2 & Hs2 & _).
    pose proof (Ha _ _ y1 y2 l Hy1 Hy2 ltac:(congruence) ltac:(congruence)) as Heq.
    repeat case_decide; congruence.
  - intros l Hl. destruct (Hr l Hl) as (o1 & x1 & H1 & H2).
    destruct (decide (o1 = o)) as [->|Hne]; [|destruct (decide (o1 = other)) as [->|Hne']].
    + exists other. eexists. rewrite lookup_insert_eq. split; [done|]. cbn. congruence.
    + exists o. eexists. rewrite lookup_insert_ne, lookup_insert_eq by done. split; [done|]. cbn. congruence.
    + exists o1, x1. rewrite !lookup_insert_ne by done. done.
  - done.
  - intros o1 x1 H1. destruct (Hwho o1 x1 H1) as (_ & _ & _ & o2 & x2 & H2 & Heq).
    rewrite <- Heq. apply lookup_insert_is_Some'. right. apply lookup_insert_is_Some'. right. by eapply Ht.
Qed.

(** An object is destroyed with its block, which nobody else has. *)
Lemma owned_destroy w o x : owned w -> objects w !! o = Some x ->
  exists w', destroy o w = Ret w' /\ owned w' /\ objects w' = delete o (objects w) /\ types w' = types w /\
    heap w' = match m_struct x with Some l => delete l (heap w) | None => heap w end.
Proof.
  intros Hw Ho. unfold destroy, object. rewrite Ho. cbn [mbind outcome_bind].
  destruct (m_struct x) as [l|] eqn:Hx; cbn [free].
  - destruct (owned_points w Hw o x l Ho Hx) as [t Ht]. rewrite Ht. cbn [mbind outcome_bind]. eexists. split; [done|].
    split; [|done]. destruct Hw as [Hp Ha Hr Hn Htypes]. constructor; cbn.
    + intros o1 x1 l1 H1 Hl. apply lookup_delete_Some in H1 as [Hne H1]. destruct (Hp o1 x1 l1 H1 Hl) as [t1 Ht1].
      exists t1. rewrite lookup_delete_ne; [done|]. intros ->. apply Hne. by eapply Ha.
    + intros o1 o2 x1 x2 l1 H1 H2. apply lookup_delete_Some in H1 as [_ H1], H2 as [_ H2]. by eapply Ha.
    + intros l1 [t1 H1]. apply lookup_delete_Some in H1 as [Hne H1]. destruct (Hr l1 ltac:(by eexists)) as (o1 & x1 & Ho1 & Hl1).
      exists o1, x1. split; [|done]. rewrite lookup_delete_ne; [done|]. intros ->. congruence.
    + intros l1 [t1 H1]. apply lookup_delete_Some in H1 as [_ H1]. apply Hn. by eexists.
    + intros o1 x1 H1. apply lookup_delete_Some in H1 as [_ H1]. by eapply Htypes.
  - cbn [mbind outcome_bind]. eexists. split; [done|]. split; [|done]. destruct Hw as [Hp Ha Hr Hn Htypes]. constructor; cbn.
    + intros o1 x1 l1 H1. apply lookup_delete_Some in H1 as [_ H1]. by eapply Hp.
    + intros o1 o2 x1 x2 l1 H1 H2. apply lookup_delete_Some in H1 as [_ H1], H2 as [_ H2]. by eapply Ha.
    + intros l1 Hl. destruct (Hr l1 Hl) as (o1 & x1 & Ho1 & Hl1). exists o1, x1. split; [|done].
      rewrite lookup_delete_ne; [done|]. intros ->. congruence.
    + done.
    + intros o1 x1 H1. apply lookup_delete_Some in H1 as [_ H1]. by eapply Htypes.
Qed.

(** The contents of an object are there, unless it has been moved from. *)
Lemma owned_contents w o x : owned w -> objects w !! o = Some x ->
  contents w x = Undef null_dereference /\ m_struct x = None \/
  exists l t, m_struct x = Some l /\ heap w !! l = Some t /\ contents w x = Ret t.
Proof.
  intros Hw Ho. unfold contents. destruct (m_struct x) as [l|] eqn:Hx; [right|by left].
  destruct (owned_points w Hw o x l Ho Hx) as [t Ht]. exists l, t. by rewrite Ht.
Qed.

Lemma owned_store w o x l t : owned w -> objects w !! o = Some x -> m_struct x = Some l ->
  owned (with_heap w (<[l := t]> (heap w))).
Proof.
  intros Hw Ho Hx. pose proof (owned_points w Hw o x l Ho Hx) as Hl. destruct Hw as [Hp Ha Hr Hn Ht].
  assert (Hin : forall l', is_Some (<[l := t]> (heap w) !! l') <-> is_Some (heap w !! l')).
  { intros l'. rewrite lookup_insert_is_Some'. split; [intros [<-|H]|]; auto. }
  constructor; cbn; [|done| | |done].
  - intros o1 x1 l1 H1 Hl1. apply Hin. by eapply Hp.
  - intros l1 Hl1. apply Hr. by apply Hin.
  - intros l1 Hl1. apply Hn. by apply Hin.
Qed.

(** What a call may end in: a bad pointer it may not. *)
Definition ends {A} (P : A -> Prop) (r : outcome A) : Prop :=
  match r with Ret a => P a | Throw _ => True | Undef u => u <> invalid_pointer end.

Lemma ends_bind {A B} (P : B -> Prop) (r : outcome A) (f : A -> outcome B) :
  r <> Undef invalid_pointer -> (forall a, r = Ret a -> ends P (f a)) -> ends P (r ≫= f).
Proof. destruct r; cbn; intros Hr Hf; [by apply Hf|done|congruence]. Qed.

Lemma ends_sound {A} (P : A -> Prop) r : ends P r -> r <> Undef invalid_pointer.
Proof. by intros Hr ->. Qed.

Lemma ends_ret {A} (P : A -> Prop) r a : ends P r -> r = Ret a -> P a.
Proof. by intros Hr ->. Qed.

Lemma ends_impl {A} (P Q : A -> Prop) r : ends P r -> (forall a, P a -> Q a) -> ends Q r.
Proof. destruct r; cbn; auto. Qed.

Lemma object_sound w o : object w o <> Undef invalid_pointer.
Proof. unfold object. by destruct (objects w !! o). Qed.
Lemma place_sound w o : place w o <> Undef invalid_pointer.
Proof. unfold place. by destruct (objects w !! o). Qed.
Lemma descriptor_sound w x : descriptor w x <> Undef invalid_pointer.
Proof. unfold descriptor. by destruct (types w !! m_type x). Qed.
Lemma object_ret w o x : object w o = Ret x -> objects w !! o = Some x.
Proof. unfold object. destruct (objects w !! o); [by intros [= ->]|done]. Qed.
Lemma place_ret w o a : place w o = Ret a -> objects w !! o = None.
Proof. unfold place. by destruct (objects w !! o). Qed.
Lemma descriptor_ret w x d : descriptor w x = Ret d -> types w !! m_type x = Some d.
Proof. unfold descriptor. destruct (types w !! m_type x); [by intros [= ->]|done]. Qed.
Lemma contents_sound w o x : owned w -> objects w !! o = Some x -> contents w x <> Undef invalid_pointer.
Proof. intros Hw Ho. destruct (owned_contents w o x Hw Ho) as [[-> _]|(l & t & _ & _ & ->)]; done. Qed.

#[local] Hint Resolve object_sound place_sound descriptor_sound contents_sound object_ret place_ret descriptor_ret : wrapper.

(** A copy adds its object and changes nothing that was there. *)
Lemma copy_construct_ends w o other : owned w -> map_Forall (fun _ => sound_codec) (types w) ->
  ends (fun w' => owned w' /\ types w' = types w /\ exists x y, objects w !! other = Some x /\ m_type y = m_type x /\
    objects w !! o = None /\ objects w' = <[o := y]> (objects w)) (copy_construct o other w).
Proof.
  intros Hw Hs. unfold copy_construct.
  apply ends_bind; [auto with wrapper|]. intros a Ho%place_ret.
  apply ends_bind; [auto with wrapper|]. intros x Hx%object_ret.
  apply ends_bind; [auto with wrapper|]. intros d Hd%descriptor_ret.
  apply ends_bind; [by eapply contents_sound|]. intros t _.
  apply ends_bind; [apply copy_sound|]. intros [c|] _.
  - destruct (allocate w c) as [l w1] eqn:Hal.
    pose proof (owned_with_block w o (m_type x) c Hw ltac:(congruence) ltac:(by eexists)) as Hown. rewrite Hal in Hown. cbn [ends].
    injection Hal as <- <-. split_and!; [done..|]. by exists x, {| m_struct := Some (next w); m_type := m_type x |}.
  - cbn [ends]. split_and!; [by apply owned_with_null|done|]. by exists x, {| m_struct := None; m_type := m_type x |}.
Qed.

(** Exchanging the descriptors keeps them all. *)
Lemma swap_types w x y w' : map_Forall (fun _ => sound_codec) (types w) -> (exists d e, types w !! m_type x = Some d /\ types w !! m_type y = Some e /\
      types w' = <[m_type y := d]> (<[m_type x := e]> (types w))) ->
  map_Forall (fun _ => sound_codec) (types w').
Proof.
  intros Hs (d & e & Hd & He & ->). apply map_Forall_insert_2; [by eapply Hs|].
  apply map_Forall_insert_2; [by eapply Hs|done].
Qed.


Lemma decode_settled w o buffer : settled w -> o <> None -> ends (fun r => settled r.2) (decode o buffer w).
Proof.
  intros (Hw & Hnone & Hs) Hne. unfold decode.
  apply ends_bind; [auto with wrapper|]. intros x Hx%object_ret.
  apply ends_bind; [auto with wrapper|]. intros d Hd%descriptor_ret.
  pose proof (Hs _ _ Hd) as Hdec.
  destruct (m_struct x) as [l|] eqn:Hl.
  - apply ends_bind; [by eapply contents_sound|]. intros t _. apply ends_bind; [done|]. intros [ok [t'|]] _; [|done].
    cbn [ends snd]. split_and!; [by eapply owned_store|done..].
  - apply ends_bind; [done|]. intros [ok [t|]] _; [|done].
    pose proof (owned_with_block w o (m_type x) t Hw ltac:(congruence) ltac:(by eexists)) as Hown.
    cbn [allocate] in *. cbn [ends snd]. split_and!; [exact Hown| |done]. cbn. by rewrite lookup_insert_ne.
Qed.

(** Every operation. *)
Lemma exec_settled op w : settled w -> ends settled (exec zeroed op w).
Proof.
  intros (Hw & Hnone & Hs).
  destruct op as [o type|o|o other|o other|o other|o other|o t|o buffer]; cbn [exec].
  - unfold construct. apply ends_bind; [auto with wrapper|]. intros a Ho%place_ret.
    apply ends_bind; [auto with wrapper|]. intros d Hd%descriptor_ret. cbn in Hd.
    destruct (allocate w zeroed) as [l w1] eqn:Hal.
    pose proof (owned_with_block w (Some o) type zeroed Hw ltac:(congruence) ltac:(by eexists)) as Hown. rewrite Hal in Hown.
    injection Hal as <- <-. cbn [ends]. split_and!; [done| |done]. cbn. by rewrite lookup_insert_ne.
  - destruct (objects w !! Some o) as [x|] eqn:Ho; [|unfold destroy, object; by rewrite Ho].
    destruct (owned_destroy w (Some o) x Hw Ho) as (w' & -> & Hw' & Hobj & Ht & _). cbn [ends].
    unfold settled. rewrite Hobj, Ht. split_and!; [done| |done]. by rewrite lookup_delete_ne.
  - eapply ends_impl; [by apply copy_construct_ends|]. intros w' (Hw' & Ht & x & y & _ & _ & _ & Hobj).
    unfold settled. rewrite Hobj, Ht. split_and!; [done| |done]. by rewrite lookup_insert_ne.
  - unfold copy_assign. apply ends_bind; [auto with wrapper|]. intros x Hx%object_ret.
    pose proof (copy_construct_ends w None (Some other) Hw Hs) as Hc.
    apply ends_bind; [intros Heq; by rewrite Heq in Hc|]. intros w1 Heq. rewrite Heq in Hc. cbn [ends] in Hc.
    destruct Hc as (Hw1 & Ht1 & y & z & Hy & Hz & _ & Hobj1).
    assert (Hx1 : objects w1 !! Some o = Some x) by (rewrite Hobj1, lookup_insert_ne; done).
    assert (Hz1 : objects w1 !! None = Some z) by (rewrite Hobj1, lookup_insert_eq; done).
    destruct (owned_swap w1 (Some o) None x z Hw1 Hx1 Hz1) as (w2 & -> & Hw2 & _ & _ & Hobj2 & Ht2).
    cbn [mbind outcome_bind].
    destruct (owned_destroy w2 None _ Hw2 ltac:(by rewrite Hobj2, lookup_insert_eq)) as (w3 & -> & Hw3 & Hobj3 & Ht3 & _).
    cbn [ends]. unfold settled. rewrite Hobj3, Ht3. split_and!; [done|by rewrite lookup_delete_eq|].
    eapply swap_types; [|done]. by rewrite Ht1.
  - unfold move_construct. apply ends_bind; [auto with wrapper|]. intros a Ho%place_ret.
    apply ends_bind; [auto with wrapper|]. intros x Hx%object_ret.
    pose proof (owned_with_null w (Some o) (m_type x) Hw Ho ltac:(by eapply owned_types)) as Hw1.
    destruct (owned_swap _ (Some o) (Some other) {| m_struct := None; m_type := m_type x |} x Hw1
      ltac:(apply lookup_insert_eq) ltac:(cbn; rewrite lookup_insert_ne; congruence)) as (w2 & -> & Hw2 & _ & _ & Hobj2 & Ht2).
    cbn [ends]. split_and!; [done| |by eapply swap_types]. rewrite Hobj2. cbn. by rewrite !lookup_insert_ne.
  - unfold move_assign.
    destruct (objects w !! Some o) as [x|] eqn:Ho; [|unfold swap, object; by rewrite Ho].
    destruct (objects w !! Some other) as [y|] eqn:Hother; [|unfold swap, object; by rewrite Ho, Hother].
    destruct (owned_swap w (Some o) (Some other) x y Hw Ho Hother) as (w2 & -> & Hw2 & _ & _ & Hobj2 & Ht2).
    cbn [ends]. split_and!; [done| |by eapply swap_types]. rewrite Hobj2. by rewrite !lookup_insert_ne.
  - unfold write. apply ends_bind; [auto with wrapper|]. intros x Hx%object_ret.
    apply ends_bind; [by eapply contents_sound|]. intros c _.
    destruct (m_struct x) as [l|] eqn:Hl; [|done]. cbn [ends]. split_and!; [by eapply owned_store|done..].
  - pose proof (decode_settled w (Some o) buffer (conj Hw (conj Hnone Hs)) ltac:(done)) as Hd.
    apply ends_bind; [by eapply ends_sound|]. intros [ok w'] Hr. exact (ends_ret _ _ _ Hd Hr).
Qed.

(** Whole programs. *)
Lemma execute_settled ops : forall w, settled w ->
  match execute zeroed ops w with Ret w' => settled w' | Throw _ => False | Undef u => u <> invalid_pointer end.
Proof.
  induction ops as [|op ops IH]; intros w Hw; cbn [execute]; [done|].
  pose proof (exec_settled op w Hw) as Hop. destruct (exec zeroed op w); cbn [ends] in Hop; [by apply IH..|done].
Qed.

(** Nothing is left behind. *)
Lemma owned_empty w : owned w -> objects w = ∅ -> heap w = ∅.
Proof.
  intros Hw Ho. apply map_empty. intros l. destruct (heap w !! l) eqn:Hl; [|done].
  destruct (owned_reached w Hw l ltac:(by eexists)) as (o & x & Hx & _). by rewrite Ho in Hx.
Qed.

(** What an object holds. *)
Definition value w o : outcome T := x ← object w o; contents w x.

Lemma value_ret w o t : value w o = Ret t <->
  exists x l, objects w !! o = Some x /\ m_struct x = Some l /\ heap w !! l = Some t.
Proof.
  unfold value, object, contents. split.
  - destruct (objects w !! o) as [x|]; [|done]. cbn [mbind outcome_bind]. destruct (m_struct x) as [l|] eqn:Hl; [|done].
    destruct (heap w !! l) eqn:Ht; [|done]. intros [= ->]. by exists x, l.
  - intros (x & l & -> & Hl & Ht). cbn [mbind outcome_bind]. by rewrite Hl, Ht.
Qed.

(** What the codec of a type can copy. *)
Definition copyable {H : BerType T} (L : BerTypeLaws T) (t : T) : Prop :=
  der_dom t /\ der_mode 0 /\ Z.of_nat (length (der_of 0 0 t)) <= RSSIZE_MAX.

Lemma copy_construct_ok w o other y d t : objects w !! o = None -> objects w !! other = Some y ->
  types w !! m_type y = Some d -> value w other = Ret t ->
  forall L : @BerTypeLaws T (d_ber d), copyable L t ->
  copy_construct o other w =
    let '(l, w1) := allocate w (@der_norm T _ L t) in Ret (with_object w1 o {| m_struct := Some l; m_type := m_type y |}).
Proof.
  intros Ho Hother Hd Hv L (H1 & H2 & H3). unfold copy_construct, place, object, descriptor.
  apply value_ret in Hv as (y' & l & Hy & Hl & Ht). unfold contents. rewrite Hother in *. injection Hy as <-.
  rewrite Ho. cbn [mbind outcome_bind]. rewrite Hd, Hl, Ht. cbn [mbind outcome_bind]. by rewrite (copy_returns (L := L)).
Qed.

(** Copying an object into another that lives and has the same type. *)
Lemma copy_assign_ok w o other x y d t : settled w -> o <> None -> other <> None ->
  objects w !! o = Some x -> objects w !! other = Some y -> m_type x = m_type y ->
  types w !! m_type y = Some d -> value w other = Ret t ->
  forall L : @BerTypeLaws T (d_ber d), copyable L t ->
  exists w', copy_assign o other w = Ret w' /\ types w' = types w /\
    objects w' = <[o := {| m_struct := Some (next w); m_type := m_type x |}]> (objects w) /\
    heap w' = match m_struct x with
              | Some l => delete l (<[next w := @der_norm T _ L t]> (heap w))
              | None => <[next w := @der_norm T _ L t]> (heap w)
              end.
Proof.
  intros (Hw & Hnone & Hs) Ho Hother Hx Hy Htype Hd Hv L Hc. unfold copy_assign, object. rewrite Hx.
  cbn [mbind outcome_bind]. rewrite (copy_construct_ok w None other y d t Hnone Hy Hd Hv L Hc).
  pose proof (owned_with_block w None (m_type y) (@der_norm T _ L t) Hw ltac:(congruence) ltac:(by eapply owned_types)) as Hw1.
  destruct (allocate w (@der_norm T _ L t)) as [l w0] eqn:Hal. injection Hal as <- <-. cbn [mbind outcome_bind].
  set (w1 := with_object _ _ _) in *.
  destruct (owned_swap w1 o None x {| m_struct := Some (next w); m_type := m_type y |} Hw1
    ltac:(cbn; by rewrite lookup_insert_ne by done) ltac:(apply lookup_insert_eq))
    as (w2 & -> & Hw2 & Hh2 & _ & Hobj2 & d1 & e1 & Hd1 & He1 & Ht2).
  cbn [mbind outcome_bind m_struct m_type] in *.
  destruct (owned_destroy w2 None {| m_struct := m_struct x; m_type := m_type y |} Hw2
    ltac:(by rewrite Hobj2, lookup_insert_eq)) as (w3 & -> & _ & Hobj3 & Ht3 & Hh3).
  exists w3. split; [done|]. rewrite Ht3, Ht2, Hobj3, Hobj2, Hh3, Hh2. cbn. split_and!.
  - rewrite Htype in *. rewrite Hd1 in He1. injection He1 as <-. rewrite insert_insert_eq. by apply insert_id.
  - rewrite delete_insert_eq, delete_insert_ne by done. f_equal. cbn.
    rewrite delete_insert_eq. apply delete_id. done.
  - done.
Qed.

(** Objects do not see what is stored through another one. *)
Lemma write_ok w o t s : owned w -> value w o = Ret t ->
  exists w', write o s w = Ret w' /\ value w' o = Ret s /\ forall o', o' <> o -> value w' o' = value w o'.
Proof.
  intros Hw Hv. apply value_ret in Hv as (x & l & Hx & Hl & Ht). unfold write, object, contents.
  rewrite Hx. cbn [mbind outcome_bind]. rewrite Hl, Ht. cbn [mbind outcome_bind]. eexists. split; [done|]. split.
  - apply value_ret. exists x, l. split_and!; [done|done|]. cbn. apply lookup_insert_eq.
  - intros o' Hne. unfold value, object, contents. cbn. destruct (objects w !! o') as [y|] eqn:Hy; [|done].
    cbn [mbind outcome_bind]. destruct (m_struct y) as [l'|] eqn:Hl'; [|done].
    rewrite lookup_insert_ne; [done|]. intros <-. apply Hne. by eapply owned_apart.
Qed.

(** After an assignment the target has a block of its own, and the other
    objects have theirs. *)
Lemma copy_assign_values w o other x y d t : settled w -> o <> None -> other <> None ->
  objects w !! o = Some x -> objects w !! other = Some y -> m_type x = m_type y ->
  types w !! m_type y = Some d -> value w other = Ret t ->
  forall L : @BerTypeLaws T (d_ber d), copyable L t ->
  exists w', copy_assign o other w = Ret w' /\ types w' = types w /\
    value w' o = Ret (@der_norm T _ L t) /\ forall o', o' <> o -> value w' o' = value w o'.
Proof.
  intros Hw Ho Hother Hx Hy Htype Hd Hv L Hc. pose proof Hw as [[Hp Ha Hr Hn Ht] _].
  destruct (copy_assign_ok w o other x y d t Hw Ho Hother Hx Hy Htype Hd Hv L Hc) as (w' & Hr' & Hty & Hobj & Hh).
  assert (Hfresh : heap w !! next w = None).
  { destruct (heap w !! next w) eqn:He; [|done]. specialize (Hn (next w) ltac:(by eexists)). lia. }
  exists w'. split_and!; [done|done| |].
  - apply value_ret. exists {| m_struct := Some (next w); m_type := m_type x |}, (next w).
    rewrite Hobj, Hh. split_and!; [apply lookup_insert_eq|done|]. destruct (m_struct x) as [l|] eqn:Hl; [|apply lookup_insert_eq].
    rewrite lookup_delete_ne, lookup_insert_eq; [done|]. intros ->. destruct (Hp o x _ Hx Hl). congruence.
  - intros o' Hne. unfold value, object, contents. rewrite Hobj, lookup_insert_ne by done.
    destruct (objects w !! o') as [z|] eqn:Hz; [|done]. cbn [mbind outcome_bind].
    destruct (m_struct z) as [l'|] eqn:Hl'; [|done]. destruct (Hp o' z l' Hz Hl') as [u Hu].
    assert (Hlook : <[next w := @der_norm T _ L t]> (heap w) !! l' = heap w !! l').
    { apply lookup_insert_ne. congruence. }
    rewrite Hh. destruct (m_struct x) as [l|] eqn:Hl; [|by rewrite Hlook].
    rewrite lookup_delete_ne; [by rewrite Hlook|]. intros ->. apply Hne. by eapply Ha.
Qed.
End Ownership.

(** ** A concrete store *)

(** BOOLEAN in packed encoding: the decoder makes a structure where there is
    none, and one bit is never refused half-way. *)
Definition boolean_type : asn_TYPE_descriptor_t (T := BOOLEAN_t) := {|
  d_ber := BOOLEAN_ber (replicate 32 0) [4];
  d_decode st buffer :=
    '(ok, t) ← decode_per buffer;
    Ret (ok, match t with Some t => Some t | None => Some (default {| bool_int := 0 |} st) end)
|}.

Definition boolean_world : world :=
  {| heap := ∅; next := 1; types := {[ 1%positive := boolean_type ]}; objects := ∅ |}.

Lemma boolean_world_settled : settled boolean_world.
Proof.
  split_and!; [constructor; cbn; intros *; rewrite ?lookup_empty; try done; by intros []|done|].
  apply map_Forall_singleton. intros st buffer. cbn. unfold decode_per.
  by destruct (uper_decode_complete buffer) as [[[code consumed] t]|]; cbn.
Qed.

Definition bool_of (b : Z) : BOOLEAN_t := {| bool_int := b |}.

(** Two objects are constructed, filled, copied, moved and destroyed. *)
Definition boolean_program : list operation := [
  Construct 1 1; Decode 1 [128%Z]; CopyConstruct 2 1; Write 1 (bool_of 0); Construct 3 1;
  MoveAssign 3 2; CopyAssign 1 3; MoveConstruct 4 1; Destroy 1; Destroy 2; Destroy 4; Destroy 3]%positive.

Example boolean_program_run :
  (fun w => (map_to_list (heap w), objects w)) <$>
    match execute (bool_of 0) boolean_program boolean_world with Ret w => Some w | _ => None end = Some ([], ∅).
Proof. vm_compute. reflexivity. Qed.

(** A copy of an object that has been moved from reads through null. *)
Example moved_from_copy :
  execute (bool_of 0) [Construct 1 1; MoveConstruct 2 1; CopyConstruct 3 1]%positive boolean_world = Undef null_dereference.
Proof. vm_compute. reflexivity. Qed.

(** Assigning between objects that name different descriptors of the same
    structure exchanges the descriptors for everybody. *)
Definition two_types : world :=
  {| heap := ∅; next := 1; types := {[ 1%positive := boolean_type;
       2%positive := {| d_ber := BOOLEAN_ber (replicate 32 0) [8]; d_decode := d_decode boolean_type |} ]};
     objects := ∅ |}.

Example assignment_exchanges_descriptors :
  match execute (bool_of 0) [Construct 1 1; Construct 2 2; CopyAssign 1 2]%positive two_types with
  | Ret w => (fun d => ber_outmost (BerType := d_ber d) (bool_of 0)) <$> types w !! 1%positive
  | _ => None
  end = Some 8.
Proof. vm_compute. reflexivity. Qed.

(** ** Properties *)

(** C11: Ownership.  Whatever sequence of constructions, copies, moves,
    assignments, stores, decodings and destructions a program performs on the
    message objects, no block is used or freed after it was freed; where it
    comes to its end every pointer still leads to a block, no block has two
    owners or none, and when all objects are gone all blocks are. *)
Theorem wrappers_own {T} (zeroed : T) ops w : settled w ->
  match execute zeroed ops w with
  | Ret w' => owned w' /\ objects w' !! None = None /\ (objects w' = ∅ -> heap w' = ∅)
  | Throw _ => False
  | Undef u => u <> invalid_pointer
  end.
Proof.
  intros Hw. pose proof (execute_settled zeroed ops w Hw) as H.
  destruct (execute zeroed ops w) as [w'| |u]; [|done|done].
  destruct H as (Ho & Hn & _). split_and!; [done..|by apply owned_empty].
Qed.

Lemma wrappers_own_witness :
  match execute (bool_of 0) boolean_program boolean_world with
  | Ret w' => owned w' /\ objects w' !! None = None /\ (objects w' = ∅ -> heap w' = ∅)
  | Throw _ => False
  | Undef u => u <> invalid_pointer
  end.
Proof. apply (wrappers_own (bool_of 0) boolean_program boolean_world boolean_world_settled). Defined.

(** C15: Assignment.  For every type that keeps the contract of its DER codec,
    assigning one message object to another of the same type gives the target,
    in a block of its own, the value that the DER encoding of the source stands
    for.  That is the value of the source up to what DER does not distinguish:
    where no default value is made or unmade both have the same encoding, but a
    BOOLEAN of 5 becomes 255 and a member that holds its default value becomes
    absent, also in an object that is assigned to itself.  No other object
    changes, and storing through either of the two afterwards does not show in
    the other. *)
Theorem copy_assign_independent {T} (zeroed : T) w o other x y d t : settled w ->
  objects w !! Some o = Some x -> objects w !! Some other = Some y -> m_type x = m_type y ->
  types w !! m_type y = Some d -> value w (Some other) = Ret t ->
  forall L : @BerTypeLaws T (d_ber d), copyable L t ->
  exists w', exec zeroed (CopyAssign o other) w = Ret w' /\ value w' (Some o) = Ret (@der_norm T _ L t) /\
    (forall N : @DerNormal T (d_ber d) L, @der_kept T (d_ber d) L N t ->
       exists n buffer, der_encode (H := d_ber d) t (Some {| bb_bytes := [] |}) = Some (n, Some buffer) /\
         der_encode (H := d_ber d) (@der_norm T _ L t) (Some {| bb_bytes := [] |}) = Some (n, Some buffer)) /\
    (forall o', o' <> Some o -> value w' o' = value w o') /\
    forall s target other', target ∈ [o; other] -> other' <> target -> exists w'',
      exec zeroed (Write target s) w' = Ret w'' /\ value w'' (Some target) = Ret s /\
      value w'' (Some other') = value w' (Some other').
Proof.
  intros Hw Hx Hy Htype Hd Hv L Hc.
  destruct (copy_assign_values w (Some o) (Some other) x y d t Hw ltac:(done) ltac:(done) Hx Hy Htype Hd Hv L Hc)
    as (w' & Hr & _ & Ho & Hrest).
  exists w'. split_and!; [done|done|intros N Hk|done|].
  { destruct Hc as (H1 & H2 & H3). exact (@normal_written T (d_ber d) L N t H1 Hk H2 H3). }
  intros s target other' Hin Hne.
  pose proof (exec_settled zeroed (CopyAssign o other) w Hw) as Hs. cbn [exec] in Hs. rewrite Hr in Hs.
  assert (Htarget : exists u, value w' (Some target) = Ret u).
  { destruct (decide (target = o)) as [->|Hn]; [by eexists|]. apply list_elem_of_In in Hin as [<-|[<-|[]]]; [done|].
    rewrite Hrest by congruence. by eexists. }
  destruct Htarget as [u Hu]. destruct (write_ok w' (Some target) u s (proj1 Hs) Hu) as (w'' & H1 & H2 & H3).
  exists w''. split_and!; [done..|]. apply H3. congruence.
Qed.

(** Two objects with blocks of their own. *)
Definition filled_world : world :=
  match execute (bool_of 0) [Construct 1 1; Construct 2 1; Write 1 (bool_of 5)]%positive boolean_world with
  | Ret w => w
  | _ => boolean_world
  end.

Lemma filled_world_settled : settled filled_world.
Proof.
  unfold filled_world.
  pose proof (execute_settled (bool_of 0) [Construct 1 1; Construct 2 1; Write 1 (bool_of 5)]%positive
    boolean_world boolean_world_settled) as H.
  destruct (execute _ _ _); [exact H|apply boolean_world_settled..].
Qed.

Lemma copy_assign_independent_witness :
  exists w', exec (bool_of 0) (CopyAssign 2 1)%positive filled_world = Ret w' /\ value w' (Some 2%positive) = Ret (bool_of 255) /\
    (exists n buffer, der_encode (H := d_ber boolean_type) (bool_of 5) (Some {| bb_bytes := [] |}) = Some (n, Some buffer) /\
       der_encode (H := d_ber boolean_type) (bool_of 255) (Some {| bb_bytes := [] |}) = Some (n, Some buffer)) /\
    (forall o', o' <> Some 2%positive -> value w' o' = value filled_world o') /\
    forall s target other', target ∈ [2; 1]%positive -> other' <> target -> exists w'',
      exec (bool_of 0) (Write target s) w' = Ret w'' /\ value w'' (Some target) = Ret s /\
      value w'' (Some other') = value w' (Some other').
Proof.
  destruct (copy_assign_independent (bool_of 0) filled_world 2 1 {| m_struct := Some 2%positive; m_type := 1 |}
    {| m_struct := Some 1%positive; m_type := 1 |} boolean_type (bool_of 5) filled_world_settled eq_refl eq_refl eq_refl eq_refl
    eq_refl (boolean_ber_laws (replicate 32 0) [4] eq_refl ltac:(cbn; lia) boolean_tags_ok)) as (w' & H1 & H2 & H3 & H4 & H5).
  - split_and!; [exact I|by left|vm_compute; discriminate].
  - exists w'. split; [exact H1|]. split; [exact H2|]. split; [|split; [exact H4|exact H5]].
    refine (H3 (Build_DerNormal _ _ _ (fun _ => True) _) I). intros b _ _. split; [exact I|]. split; [reflexivity|].
    intros tag_mode tag. cbn. unfold boolean_octet. by destruct (bool_int b =? 0) eqn:E; cbn; rewrite ?E.
Defined.
