(* ===== verification/Constraints.v ===== *)
(** * Constraint checking (support/constraints.c, the checkers of the string
    types, and validate in asn1/asn1c_wrapper.cpp)

    A checker walks a structure and reports the first failure with a message
    through a callback.  [Constrained] is what a checker promises: it accepts
    exactly the valid structures and reports the others once, with -1.  The
    message reaches the caller through a buffer of fixed size. *)
From stdpp Require Import pretty strings.
From S2P Require Import Prelude Outcome.
#[local] Open Scope Z_scope.

(** ** The callback *)

(** struct errbufDesc; the two pointers to what failed are never read. *)
Record errbufDesc := { errbuf : option (list Z); errlen : Z }.

Definition octets_of (s : string) : list Z := Z.of_N ∘ Ascii.N_of_ascii <$> String.list_ascii_of_string s.

(** The octets of [data] over the beginning of [buf]. *)
Definition overwrite (buf data : list Z) : option (list Z) :=
  if (length data <=? length buf)%nat then Some (data ++ drop (length data) buf) else None.

(** vsnprintf stores at most [maxlen - 1] octets and a zero, and returns the
    length of the message; for these formats it does not fail. *)
Definition vsnprintf (buf : list Z) (maxlen : Z) (msg : list Z) : option (list Z * Z) :=
  buf ← overwrite buf (take (Z.to_nat (maxlen - 1)) msg ++ [0]);
  Some (buf, Z.of_nat (length msg)).

Definition _asn_i_ctfailcb (arg : errbufDesc) (msg : list Z) : option errbufDesc :=
  let maxlen := s64 (errlen arg) in
  if maxlen <=? 0 then Some arg else
  buf ← errbuf arg;
  '(buf, vlen) ← vsnprintf buf maxlen msg;
  if maxlen <=? vlen then
    buf ← store buf (maxlen - 1) 0;
    Some {| errbuf := Some buf; errlen := maxlen - 1 |}
  else
    buf ← store buf vlen 0;
    Some {| errbuf := Some buf; errlen := vlen |}.

(** ctfailcb and its key; [None] is a null callback. *)
Definition reporter : Type := option errbufDesc.

(** ASN__CTFAIL and the return of -1. *)
Definition ctfail (msg : string) (r : reporter) : option (Z * reporter) :=
  match r with
  | None => Some (-1, None)
  | Some arg => arg ← _asn_i_ctfailcb arg (octets_of msg); Some (-1, Some arg)
  end.

(** asn_constr_check_f: a checker on a structure, or null. *)
Definition asn_constr_check_f (T : Type) : Type := option T -> reporter -> option (Z * reporter).

Definition asn_generic_no_constraint {T} : asn_constr_check_f T := fun _ r => Some (0, r).
Definition asn_generic_unknown_constraint {T} : asn_constr_check_f T := fun _ r => Some (0, r).

(** Result, errbuf and *errlen. *)
Definition asn_check_constraints {T} (general_constraints : asn_constr_check_f T) (struct_ptr : option T)
    (buf : option (list Z)) (len : option Z) : option (Z * option (list Z) * option Z) :=
  '(ret, arg) ← general_constraints struct_ptr (Some {| errbuf := buf; errlen := default 0 len |});
  arg ← arg;
  Some (ret, errbuf arg, if ret =? -1 then (fun _ => errlen arg) <$> len else len).

(** ** asn1c_wrapper.cpp *)

Definition validate {T} (td : asn_constr_check_f T) (t : option T) : option bool :=
  '(ret, _, _) ← asn_check_constraints td t None None; Some (ret =? 0).

(** The octets of a C string; [None] without a zero in the buffer. *)
Fixpoint c_string (buf : list Z) : option (list Z) :=
  match buf with
  | [] => None
  | b :: buf => if b =? 0 then Some [] else s ← c_string buf; Some (b :: s)
  end.

(** [stack] is what errbuf[1024] holds before the call. *)
Definition validate_error {T} (stack : list Z) (td : asn_constr_check_f T) (t : option T) (error : list Z) :
    option (bool * list Z) :=
  '(ret, errbuf, _) ← asn_check_constraints td t (Some stack) (Some 1024);
  let ok := ret =? 0 in
  if negb ok then errbuf ← errbuf; error ← c_string errbuf; Some (false, error) else Some (true, error).

(** ** Checkers of string types

    [name] is td->name and [FILE] the path of the source file (__FILE__); a
    string is its octets, [None] a null pointer or a null buffer. *)
Section Strings.
Context (name FILE : string).

Definition at_line (line : Z) : string := (" (" +:+ FILE +:+ ":" +:+ pretty (Z.to_N line) +:+ ")")%string.

Definition not_given (line : Z) : string := (name +:+ ": value not given" +:+ at_line line)%string.

(** The loop over the octets: position and value of the first one outside the
    alphabet. *)
Fixpoint bad_octet (alphabet : Z -> bool) (buf : list Z) (position : Z) : option (Z * Z) :=
  match buf with
  | [] => None
  | b :: buf => if alphabet b then bad_octet alphabet buf (position + 1) else Some (position, b)
  end.

Definition IA5String_constraint : asn_constr_check_f (list Z) := fun st r =>
  match st with
  | Some buf =>
    match bad_octet (fun b => b <=? 127) buf 1 with
    | Some (position, b) =>
      ctfail (name +:+ ": value byte " +:+ pretty (Z.to_N position) +:+ " out of range: " +:+ pretty (Z.to_N b) +:+
              " > 127" +:+ at_line 80) r
    | None => Some (0, r)
    end
  | None => ctfail (not_given 87) r
  end.

Definition not_in_alphabet (position b : Z) (type : string) (line : Z) : string :=
  (name +:+ ": value byte " +:+ pretty (Z.to_N position) +:+ " (" +:+ pretty (Z.to_N b) +:+ ") not in " +:+ type +:+
   " alphabet" +:+ at_line line)%string.

Definition VisibleString_constraint : asn_constr_check_f (list Z) := fun st r =>
  match st with
  | Some buf =>
    match bad_octet (fun b => negb ((b <? 32) || (126 <? b))) buf 1 with
    | Some (position, b) => ctfail (not_in_alphabet position b "VisibleString" 83) r
    | None => Some (0, r)
    end
  | None => ctfail (not_given 90) r
  end.

Definition NumericString_constraint : asn_constr_check_f (list Z) := fun st r =>
  match st with
  | Some buf =>
    match bad_octet (fun b => (b =? 32) || (48 <=? b) && (b <=? 57)) buf 1 with
    | Some (position, b) => ctfail (not_in_alphabet position b "NumericString" 106) r
    | None => Some (0, r)
    end
  | None => ctfail (not_given 112) r
  end.

Definition OBJECT_IDENTIFIER_constraint : asn_constr_check_f (list Z) := fun st r =>
  match st with
  | Some buf =>
    if Z.of_nat (length buf) <? 1
    then ctfail (name +:+ ": at least one numerical value expected" +:+ at_line 70) r
    else Some (0, r)
  | None => ctfail (not_given 76) r
  end.
End Strings.

(** ** UTF-8 (support/UTF8String.c) *)

Definition U8E_TRUNC : Z := -1.
Definition U8E_ILLSTART : Z := -2.
Definition U8E_NOTCONT : Z := -3.
Definition U8E_NOTMIN : Z := -4.
Definition U8E_EINVAL : Z := -5.

Definition UTF8String_ht0 : list Z := [1; 1; 1; 1; 1; 1; 1; 1; 0; 0; 0; 0; 2; 2; 3; -1].
Definition UTF8String_ht1 : list Z := [4; 4; 4; 4; 4; 4; 4; 4; 5; 5; 5; 5; 6; 6; -1; -1].
Definition UTF8String_mv : list Z := [0; 0; 128; 2048; 65536; 2097152; 67108864].

(** The octets behind the first, [want] of them. *)
Fixpoint continuation (want : nat) (buf : list Z) (value : Z) : option (Z * list Z) :=
  match want with
  | O => Some (value, buf)
  | S want =>
    match buf with
    | [] => None
    | ch :: buf =>
      if (ch <? 128) || (191 <? ch) then None
      else continuation want buf (Z.lor (value ≪ 6) (Z.land ch 63))
    end
  end.

(** One character: an error code, or its value and the octets behind it. *)
Definition utf8_char (buf : list Z) : option (Z + Z * list Z) :=
  ch ← read buf 0;
  want ← read UTF8String_ht0 (ch ≫ 4);
  want ← (if want =? -1 then read UTF8String_ht1 (Z.land ch 15) else Some want);
  if (want =? -1) || (want =? 0) then Some (inl U8E_ILLSTART) else
  if Z.of_nat (length buf) <? want then Some (inl U8E_TRUNC) else
  match continuation (Z.to_nat want - 1)%nat (drop 1 buf) (Z.land ch (255 ≫ want)) with
  | None => Some (inl U8E_NOTCONT)
  | Some (value, buf) =>
    mv ← read UTF8String_mv want;
    Some (if value <? mv then inl U8E_NOTMIN else inr (value, buf))
  end.

(** The length in characters or an error code, and the values stored in [dst],
    of which there is room for [dstlen]. *)
Fixpoint utf8_loop (fuel : nat) (buf : list Z) (len : Z) (dst : list Z) (dstlen : Z) : option (Z * list Z) :=
  match buf with
  | [] => Some (len, if Z.of_nat (length dst) <? dstlen then dst ++ [0] else dst)
  | _ =>
    match fuel with
    | O => None
    | S fuel =>
      r ← utf8_char buf;
      match r with
      | inl code => Some (code, dst)
      | inr (value, buf) =>
        utf8_loop fuel buf (len + 1) (if Z.of_nat (length dst) <? dstlen then dst ++ [value] else dst) dstlen
      end
    end
  end.

Definition UTF8String__process (st : list Z) (dstlen : Z) : option (Z * list Z) := utf8_loop (length st) st 0 [] dstlen.

Definition UTF8String_length (st : option (list Z)) : option Z :=
  match st with
  | Some buf => '(len, _) ← UTF8String__process buf 0; Some len
  | None => Some U8E_EINVAL
  end.

(** Return value and the words stored. *)
Definition UTF8String_to_wcs (st : option (list Z)) (dstlen : Z) : option (Z * list Z) :=
  match st with
  | Some buf => '(ret, dst) ← UTF8String__process buf dstlen; Some (if ret <? 0 then 0 else ret, dst)
  | None => Some (0, [])
  end.

Definition UTF8String_constraint (name FILE : string) : asn_constr_check_f (list Z) := fun st r =>
  len ← UTF8String_length st;
  if len =? U8E_EINVAL then ctfail (name +:+ ": value not given") r
  else if len =? U8E_TRUNC then ctfail (name +:+ ": truncated UTF-8 sequence" +:+ at_line FILE 98) r
  else if len =? U8E_ILLSTART then ctfail (name +:+ ": UTF-8 illegal start of encoding" +:+ at_line FILE 103) r
  else if len =? U8E_NOTCONT then ctfail (name +:+ ": UTF-8 not continuation" +:+ at_line FILE 108) r
  else if len =? U8E_NOTMIN then ctfail (name +:+ ": UTF-8 not minimal sequence" +:+ at_line FILE 113) r
  else Some (if len <? 0 then -1 else 0, r).

(** ** The contract of a checker *)

Class Constrained {T} (check : asn_constr_check_f T) := {
  valid : option T -> bool;
  complaint : option T -> string;
  check_law : forall st r, check st r = if valid st then Some (0, r) else ctfail (complaint st) r
}.

#[export] Program Instance no_constraint {T} : Constrained (@asn_generic_no_constraint T) := {|
  valid _ := true; complaint _ := ""%string |}.
Next Obligation. done. Qed.

Lemma bad_octet_spec alphabet buf position :
  match bad_octet alphabet buf position with
  | None => forallb alphabet buf = true
  | Some (p, b) => forallb alphabet buf = false /\ alphabet b = false /\ exists i : nat, buf !! i = Some b /\
      p = position + Z.of_nat i /\ forallb alphabet (take i buf) = true
  end.
Proof.
  revert position. induction buf as [|b buf IH]; intros position; [done|]. cbn [bad_octet forallb].
  destruct (alphabet b) eqn:Hb.
  - specialize (IH (position + 1)). destruct (bad_octet alphabet buf (position + 1)) as [[p c]|]; [|done].
    destruct IH as (Hf & Hc & i & Hi & -> & Ht). split_and!; [done|done|]. exists (S i). split_and!; [done|lia|].
    cbn [take forallb]. by rewrite Hb.
  - split_and!; [done|done|]. exists 0%nat. split_and!; [done|lia|done].
Qed.

(** *** What the message leaves behind *)

Lemma overwrite_ok buf data : (length data <= length buf)%nat -> overwrite buf data = Some (data ++ drop (length data) buf).
Proof. intros H. unfold overwrite. by rewrite (proj2 (Nat.leb_le _ _)). Qed.

(** The message is cut to the room there is and ends in a zero. *)
Lemma ctfailcb_ok buf msg n : Z.of_nat (length buf) = n -> 0 < n < 2 ^ 63 ->
  let kept := take (Z.to_nat (n - 1)) msg in
  exists buf', _asn_i_ctfailcb {| errbuf := Some buf; errlen := n |} msg =
    Some {| errbuf := Some buf'; errlen := Z.of_nat (length kept) |} /\
    length buf' = length buf /\ exists rest, buf' = kept ++ 0 :: rest.
Proof.
  intros Hlen Hn kept. assert (Hn' : 0 < n < 9223372036854775808) by lia.
  assert (Hk : length kept = Nat.min (Z.to_nat (n - 1)) (length msg)) by apply length_take.
  unfold _asn_i_ctfailcb. cbn [errlen errbuf]. rewrite s64_small by (split; lia).
  destruct (Z.leb_spec n 0); [lia|]. cbn [mbind option_bind]. unfold vsnprintf. fold kept.
  rewrite overwrite_ok by (rewrite length_app; cbn [length]; lia). cbn [mbind option_bind].
  rewrite <- app_assoc. cbn [app]. set (rest := drop _ buf).
  assert (Hr : (length rest + length kept + 1 = length buf)%nat).
  { unfold rest. rewrite length_drop, length_app. cbn [length]. lia. }
  assert (Hstore : store (kept ++ 0 :: rest) (Z.of_nat (length kept)) 0 = Some (kept ++ 0 :: rest)).
  { unfold store. rewrite length_app. cbn [length]. zcases. rewrite Nat2Z.id.
    f_equal. rewrite <- (Nat.add_0_r (length kept)) at 1. by rewrite insert_app_r. }
  destruct (Z.leb_spec n (Z.of_nat (length msg))).
  - replace (n - 1) with (Z.of_nat (length kept)) by lia. rewrite Hstore. cbn [mbind option_bind].
    eexists. split; [done|]. split; [rewrite length_app; cbn [length]; lia|by exists rest].
  - replace (Z.of_nat (length msg)) with (Z.of_nat (length kept)) by lia. rewrite Hstore. cbn [mbind option_bind].
    eexists. split; [done|]. split; [rewrite length_app; cbn [length]; lia|by exists rest].
Qed.

Lemma c_string_ok s rest : Forall (fun b => b <> 0) s -> c_string (s ++ 0 :: rest) = Some s.
Proof.
  induction 1 as [|b s Hb Hs IH]; [done|]. cbn. rewrite (proj2 (Z.eqb_neq b 0)) by done. cbn in IH. by rewrite IH.
Qed.

(** *** String types *)

(** A string over an alphabet that is given. *)
Definition over (alphabet : Z -> bool) (st : option (list Z)) : bool :=
  match st with Some buf => forallb alphabet buf | None => false end.

Lemma alphabet_law alphabet (report : Z -> Z -> string) (missing : string) st r :
  match st with
  | Some buf => match bad_octet alphabet buf 1 with Some (p, b) => ctfail (report p b) r | None => Some (0, r) end
  | None => ctfail missing r
  end =
  if over alphabet st then Some (0, r)
  else ctfail match st ≫= fun buf => bad_octet alphabet buf 1 with Some (p, b) => report p b | None => missing end r.
Proof.
  destruct st as [buf|]; [|done]. cbn [over mbind option_bind]. pose proof (bad_octet_spec alphabet buf 1) as H.
  destruct (bad_octet alphabet buf 1) as [[p b]|]; [by destruct H as [-> _]|by rewrite H].
Qed.

#[export] Instance ia5_constrained name FILE : Constrained (IA5String_constraint name FILE).
Proof. econstructor. intros st r. unfold IA5String_constraint. by rewrite (alphabet_law _ (fun p b => _)). Defined.

#[export] Instance visible_constrained name FILE : Constrained (VisibleString_constraint name FILE).
Proof. econstructor. intros st r. unfold VisibleString_constraint. by rewrite (alphabet_law _ (fun p b => _)). Defined.

#[export] Instance numeric_constrained name FILE : Constrained (NumericString_constraint name FILE).
Proof. econstructor. intros st r. unfold NumericString_constraint. by rewrite (alphabet_law _ (fun p b => _)). Defined.

(** ** Lemmas: UTF-8 *)

(** The reference: the low six bits of each group behind the first. *)
Fixpoint utf8_tail (n : nat) (v : Z) : list Z :=
  match n with
  | O => []
  | S n => 128 + (v / 64 ^ Z.of_nat n) mod 64 :: utf8_tail n v
  end.

Definition utf8_width (v : Z) : Z :=
  if v <? 128 then 1 else if v <? 2048 then 2 else if v <? 65536 then 3
  else if v <? 2097152 then 4 else if v <? 67108864 then 5 else 6.

Definition utf8_mark (want : Z) : Z := if want =? 1 then 0 else 256 - 2 ^ (8 - want).

Definition utf8_encode (v : Z) : list Z :=
  let n := (Z.to_nat (utf8_width v) - 1)%nat in
  utf8_mark (utf8_width v) + v / 64 ^ Z.of_nat n :: utf8_tail n v.

Lemma continuation_spec n : forall buf x v rest, bytes_ok buf -> 0 <= x ->
  continuation n buf x = Some (v, rest) <-> buf = utf8_tail n v ++ rest /\ v / 64 ^ Z.of_nat n = x.
Proof.
  assert (Hbyte : Forall (fun ch => (if (ch <? 128) || (191 <? ch) then None else Some (Z.land ch 63)) =
    if (128 <=? ch) && (ch <? 192) then Some (ch - 128) else None) (seqZ 0 256)) by (by vm_compute; repeat constructor).
  rewrite Forall_seqZ in Hbyte.
  induction n as [|n IH]; intros buf x v rest Hok Hx.
  { cbn. rewrite Z.div_1_r. split; [intros [= -> ->]|intros [-> ->]]; done. }
  cbn [utf8_tail app]. rewrite Nat2Z.inj_succ, Z.pow_succ_r by lia.
  assert (Hp : 0 < 64 ^ Z.of_nat n) by lia.
  assert (Hdiv : v / (64 * 64 ^ Z.of_nat n) = v / 64 ^ Z.of_nat n / 64) by (rewrite Z.mul_comm, Z.div_div by lia; done).
  rewrite Hdiv. set (y := v / 64 ^ Z.of_nat n) in *. pose proof (Z.mod_pos_bound y 64 ltac:(lia)).
  destruct buf as [|ch buf]; cbn [continuation]; [split; [done|intros [? _]; done]|].
  apply Forall_cons in Hok as [Hch Hok]. specialize (Hbyte ch Hch).
  destruct ((ch <? 128) || (191 <? ch)) eqn:Hout.
  - split; [done|]. intros [[= -> _] _]. lia.
  - destruct ((128 <=? ch) && (ch <? 192)) eqn:Hin; [|done]. injection Hbyte as ->.
    rewrite lor_shiftl_add by (change (2 ^ 6) with 64; lia). change (2 ^ 6) with 64.
    rewrite (IH buf (x * 64 + (ch - 128)) v rest Hok ltac:(lia)). fold y. split.
    + intros [-> Hy]. split; [f_equal|]; Z.div_mod_to_equations; lia.
    + intros [[= -> ->] Hy]. split; [done|]. Z.div_mod_to_equations; lia.
Qed.

(** The first octet of a character of [want] octets and the bits in it. *)
Definition lead_bits (ch : Z) : option (Z * Z) :=
  want ← read UTF8String_ht0 (ch ≫ 4);
  want ← (if want =? -1 then read UTF8String_ht1 (Z.land ch 15) else Some want);
  Some (want, Z.land ch (255 ≫ want)).

Lemma lead_spec ch want x : byte_ok ch -> lead_bits ch = Some (want, x) -> want <> -1 -> want <> 0 ->
  1 <= want <= 6 /\ ch = utf8_mark want + x /\ 0 <= x < 2 ^ (if want =? 1 then 7 else 7 - want).
Proof.
  assert (Hall : Forall (fun ch => match lead_bits ch with
    | Some (want, x) => (want = -1 \/ want = 0) \/
        (1 <= want <= 6 /\ ch = utf8_mark want + x /\ 0 <= x < 2 ^ (if want =? 1 then 7 else 7 - want))
    | None => False end) (seqZ 0 256)).
  { apply Forall_forall. intros c Hc. apply elem_of_seqZ in Hc.
    assert (Hb : forallb (fun ch => match lead_bits ch with
      | Some (want, x) => (want =? -1) || (want =? 0) ||
          ((1 <=? want) && (want <=? 6) && (ch =? utf8_mark want + x) && (0 <=? x) && (x <? 2 ^ (if want =? 1 then 7 else 7 - want)))
      | None => false end) (seqZ 0 256) = true) by reflexivity.
    rewrite forallb_forall in Hb. specialize (Hb c ltac:(apply list_elem_of_In, elem_of_seqZ; lia)).
    destruct (lead_bits c) as [[w y]|]; [lia|done]. }
  rewrite Forall_seqZ in Hall. intros Hch Hl H1 H2. specialize (Hall ch Hch). rewrite Hl in Hall. destruct Hall; [lia|done].
Qed.

Lemma lead_complete want x : 1 <= want <= 6 -> 0 <= x < 2 ^ (if want =? 1 then 7 else 7 - want) ->
  byte_ok (utf8_mark want + x) /\ lead_bits (utf8_mark want + x) = Some (want, x).
Proof.
  intros Hw Hx.
  assert (Hall : forallb (fun want => forallb (fun x =>
    (utf8_mark want + x <? 256) && (0 <=? utf8_mark want + x) &&
    bool_decide (lead_bits (utf8_mark want + x) = Some (want, x)))
    (seqZ 0 (2 ^ (if want =? 1 then 7 else 7 - want)))) (seqZ 1 6) = true) by (vm_compute; reflexivity).
  rewrite forallb_forall in Hall. specialize (Hall want ltac:(apply list_elem_of_In, elem_of_seqZ; lia)).
  cbn beta in Hall. rewrite forallb_forall in Hall. specialize (Hall x ltac:(apply list_elem_of_In, elem_of_seqZ; lia)).
  apply andb_prop in Hall as [Hb Hl%bool_decide_eq_true]. unfold byte_ok. split; [lia|done].
Qed.

Lemma length_utf8_tail n v : length (utf8_tail n v) = n.
Proof. induction n as [|n IH]; [done|]. cbn. by rewrite IH. Qed.

Lemma utf8_tail_bytes n v : bytes_ok (utf8_tail n v).
Proof.
  induction n as [|n IH]; [apply bytes_ok_nil|]. apply bytes_ok_cons; [|done]. unfold byte_ok.
  pose proof (Z.mod_pos_bound (v / 64 ^ Z.of_nat n) 64 ltac:(lia)). lia.
Qed.

(** Powers of constants. *)
Ltac eval_pow :=
  repeat match goal with
  | |- context [Z.pow ?a ?b] => let t := eval vm_compute in (Z.pow a b) in progress change (Z.pow a b) with t
  end.

(** A value with the least number of octets for it, and its first bits. *)
Lemma utf8_width_spec v want : 0 <= v < 2 ^ 31 ->
  utf8_width v = want <->
  1 <= want <= 6 /\ (exists mv, read UTF8String_mv want = Some mv /\ mv <= v) /\
  v / 64 ^ (want - 1) < 2 ^ (if want =? 1 then 7 else 7 - want).
Proof.
  intros Hv. unfold utf8_width. change (2 ^ 31) with 2147483648 in Hv.
  assert (Hmv : read UTF8String_mv 1 = Some 0 /\ read UTF8String_mv 2 = Some 128 /\ read UTF8String_mv 3 = Some 2048 /\
    read UTF8String_mv 4 = Some 65536 /\ read UTF8String_mv 5 = Some 2097152 /\ read UTF8String_mv 6 = Some 67108864)
    by done.
  destruct Hmv as (E1 & E2 & E3 & E4 & E5 & E6).
  assert (H6 : forall P : Z -> Prop, (1 <= want <= 6 -> P want) <-> ((want = 1 -> P 1) /\ (want = 2 -> P 2) /\ (want = 3 -> P 3) /\
    (want = 4 -> P 4) /\ (want = 5 -> P 5) /\ (want = 6 -> P 6))).
  { intros P. split; [intros H; split_and!; intros ->; apply H; lia|].
    intros (H1 & H2 & H3 & H4 & H5 & H6) Hw.
    assert (want = 1 \/ want = 2 \/ want = 3 \/ want = 4 \/ want = 5 \/ want = 6) as [->|[->|[->|[->|[->| ->]]]]] by lia; auto. }
  split.
  - intros <-.
    destruct (Z.ltb_spec v 128); [|destruct (Z.ltb_spec v 2048); [|destruct (Z.ltb_spec v 65536);
      [|destruct (Z.ltb_spec v 2097152); [|destruct (Z.ltb_spec v 67108864)]]]];
      (split; [lia|]); (split; [eexists; split; [eassumption|lia]|]); eval_pow; Z.div_mod_to_equations; lia.
  - intros (Hw & (mv & Hr & Hmv) & Hlt). pose proof Hw as Hw'. revert Hr Hlt. revert Hw. apply H6; [|exact Hw'].
    split_and!; intros _; cbn beta; eval_pow; rewrite ?E1, ?E2, ?E3, ?E4, ?E5, ?E6; intros _ [= <-] Hlt;
    destruct (Z.ltb_spec v 128); try (destruct (Z.ltb_spec v 2048)); try (destruct (Z.ltb_spec v 65536));
      try (destruct (Z.ltb_spec v 2097152)); try (destruct (Z.ltb_spec v 67108864)); Z.div_mod_to_equations; lia.
Qed.

(** A character is decoded exactly from its shortest encoding. *)
Lemma utf8_char_spec buf v rest : bytes_ok buf ->
  utf8_char buf = Some (inr (v, rest)) <-> 0 <= v < 2 ^ 31 /\ buf = utf8_encode v ++ rest.
Proof.
  intros Hok. split.
  - destruct buf as [|ch buf]; [done|]. apply Forall_cons in Hok as [Hch Hok]. unfold utf8_char. rewrite read_0.
    cbn [mbind option_bind drop]. rewrite ?drop_0. pose proof (lead_spec ch) as Hlead. unfold lead_bits in Hlead.
    destruct (read UTF8String_ht0 (ch ≫ 4)) as [w0|]; [|done]. cbn [mbind option_bind] in *.
    destruct (if w0 =? -1 then _ else _) as [want|]; [|done]. cbn [mbind option_bind] in *.
    destruct ((want =? -1) || (want =? 0)) eqn:Hw; [done|].
    destruct (Hlead want _ Hch eq_refl ltac:(lia) ltac:(lia)) as (Hrange & Heq & Hx). set (x := Z.land ch (255 ≫ want)) in *.
    destruct (Z.of_nat (length (ch :: buf)) <? want); [done|].
    destruct (continuation (Z.to_nat want - 1)%nat buf x) as [[v' rest']|] eqn:Hc; [|done].
    apply continuation_spec in Hc as [Hbuf Hdiv]; [|done|lia].
    destruct (read UTF8String_mv want) as [mv|] eqn:Hmv; [|done]. cbn [mbind option_bind].
    destruct (Z.ltb_spec v' mv) as [|Hmin]; [done|]. intros [= -> ->].
    replace (Z.of_nat (Z.to_nat want - 1)%nat) with (want - 1) in Hdiv by lia.
    assert (Hv : 0 <= v < 2 ^ 31).
    { assert (0 <= mv) by (assert (Hall : forallb (Z.leb 0) UTF8String_mv = true) by reflexivity;
        rewrite forallb_forall in Hall; apply Z.leb_le, Hall, list_elem_of_In;
        unfold read in Hmv; destruct (want <? 0); [done|]; by eapply list_elem_of_lookup_2).
      split; [lia|]. revert Hx Hdiv. clear -Hrange H.
      assert (want = 1 \/ want = 2 \/ want = 3 \/ want = 4 \/ want = 5 \/ want = 6) as [->|[->|[->|[->|[->| ->]]]]] by lia;
        eval_pow; intros Hx Hd; Z.div_mod_to_equations; lia. }
    split; [done|]. assert (Hwidth : utf8_width v = want).
    { apply utf8_width_spec; [done|]. split_and!; [lia|lia|by exists mv|]. rewrite Hdiv. lia. }
    unfold utf8_encode. rewrite Hwidth. cbn [app]. f_equal; [|done].
    replace (Z.of_nat (Z.to_nat want - 1)%nat) with (want - 1) by lia. by rewrite Hdiv.
  - intros [Hv ->]. destruct (proj1 (utf8_width_spec v (utf8_width v) Hv) eq_refl) as (Hw & (mv & Hmv & Hmin) & Hlead).
    unfold utf8_encode in *. set (want := utf8_width v) in *. cbn [app] in *.
    apply Forall_cons in Hok as [_ Hok].
    replace (Z.of_nat (Z.to_nat want - 1)%nat) with (want - 1) in * by lia.
    assert (Hx : 0 <= v / 64 ^ (want - 1)) by (apply Z.div_pos; lia).
    destruct (lead_complete want (v / 64 ^ (want - 1)) Hw ltac:(lia)) as [Hch Hbits].
    unfold utf8_char. rewrite read_0. cbn [mbind option_bind drop]. rewrite ?drop_0. unfold lead_bits in Hbits.
    destruct (read UTF8String_ht0 _) as [w0|]; [|done]. cbn [mbind option_bind] in *.
    destruct (if w0 =? -1 then _ else _) as [w|]; [|done]. cbn [mbind option_bind] in *. injection Hbits as -> Hbits.
    rewrite Hbits. destruct (Z.eqb_spec want (-1)); [lia|]. destruct (Z.eqb_spec want 0); [lia|]. cbn [orb].
    cbn [length]. rewrite length_app, length_utf8_tail. zcases.
    rewrite (proj2 (continuation_spec _ _ _ v rest Hok Hx)); [|split; [done|f_equal; f_equal; lia]].
    rewrite Hmv. cbn [mbind option_bind]. by rewrite (proj2 (Z.ltb_ge v mv)).
Qed.

Lemma utf8_char_total buf : bytes_ok buf -> buf <> [] ->
  exists r, utf8_char buf = Some r /\ forall code, r = inl code -> -4 <= code < 0.
Proof.
  destruct buf as [|ch buf]; [done|]. intros [Hch Hok]%Forall_cons _. unfold utf8_char. rewrite read_0.
  cbn [mbind option_bind].
  assert (Hlead : exists want x, lead_bits ch = Some (want, x)).
  { assert (Hall : forallb (fun ch => match lead_bits ch with Some _ => true | None => false end) (seqZ 0 256) = true)
      by reflexivity.
    rewrite forallb_forall in Hall. specialize (Hall ch ltac:(apply list_elem_of_In, elem_of_seqZ; unfold byte_ok in Hch; lia)).
    destruct (lead_bits ch) as [[w x]|]; [|done]. by exists w, x. }
  destruct Hlead as (want & x & Hl). pose proof (lead_spec ch want x Hch Hl) as Hspec. unfold lead_bits in Hl.
  destruct (read UTF8String_ht0 (ch ≫ 4)) as [w0|]; [|done]. cbn [mbind option_bind] in *.
  destruct (if w0 =? -1 then _ else _) as [w|]; [|done]. cbn [mbind option_bind] in *. injection Hl as -> _.
  destruct ((want =? -1) || (want =? 0)) eqn:Hw; [eexists; split; [done|]; by intros code [= <-]|].
  destruct (Hspec ltac:(lia) ltac:(lia)) as (Hrange & _).
  destruct (Z.of_nat (length (ch :: buf)) <? want); [eexists; split; [done|]; by intros code [= <-]|].
  destruct (continuation _ _ _) as [[v rest]|]; [|eexists; split; [done|]; by intros code [= <-]].
  destruct (read_Some UTF8String_mv want) as (mv & -> & _); [cbn; lia|]. cbn [mbind option_bind].
  destruct (v <? mv); (eexists; split; [done|]); [by intros code [= <-]|done].
Qed.

Definition code_point (v : Z) : Prop := 0 <= v < 2 ^ 31.

Lemma utf8_encode_cons v vs : concat (utf8_encode <$> v :: vs) = utf8_encode v ++ concat (utf8_encode <$> vs).
Proof. done. Qed.

Lemma utf8_loop_spec fuel : forall buf len dst dstlen, (length buf <= fuel)%nat -> bytes_ok buf ->
  exists n d, utf8_loop fuel buf len dst dstlen = Some (n, d) /\
    ((exists vs, Forall code_point vs /\ buf = concat (utf8_encode <$> vs) /\ n = len + Z.of_nat (length vs) /\
        (Z.of_nat (length dst) <= dstlen -> d = take (Z.to_nat dstlen) (dst ++ vs ++ [0]))) \/
     (-4 <= n < 0 /\ forall vs, Forall code_point vs -> buf <> concat (utf8_encode <$> vs))).
Proof.
  assert (Hend : forall (dst : list Z) dstlen, Z.of_nat (length dst) <= dstlen ->
    (if Z.of_nat (length dst) <? dstlen then dst ++ [0] else dst) = take (Z.to_nat dstlen) (dst ++ [] ++ [0])).
  { intros dst dstlen Hd. destruct (Z.ltb_spec (Z.of_nat (length dst)) dstlen).
    - by rewrite take_ge by (rewrite !length_app; cbn; lia).
    - replace (Z.to_nat dstlen) with (length dst) by lia. by rewrite take_app_length. }
  induction fuel as [|fuel IH]; intros buf len dst dstlen Hfuel Hok.
  { destruct buf; [|cbn in Hfuel; lia]. eexists _, _. split; [done|]. left. exists [].
    split_and!; [done|done|cbn; lia|apply Hend]. }
  destruct buf as [|ch buf]; [eexists _, _; split; [done|]; left; exists []; split_and!; [done|done|cbn; lia|apply Hend]|].
  cbn [utf8_loop]. set (all := ch :: buf) in *.
  destruct (utf8_char_total all Hok) as ([code|[v rest]] & Hc & Hcode); [done| |].
  - rewrite Hc. cbn [mbind option_bind]. eexists _, _. split; [done|]. right. split; [by apply Hcode|].
    intros [|v vs] Hvs Heq; [done|]. apply Forall_cons in Hvs as [Hv _]. rewrite utf8_encode_cons in Heq.
    assert (Hr : utf8_char all = Some (inr (v, concat (utf8_encode <$> vs)))) by (by apply utf8_char_spec). congruence.
  - rewrite Hc. cbn [mbind option_bind]. apply utf8_char_spec in Hc as [Hv Heq]; [|done].
    assert (Hshort : (length rest < length all)%nat).
    { rewrite Heq. unfold utf8_encode. rewrite length_app. cbn [length]. lia. }
    assert (Hrest : bytes_ok rest) by (rewrite Heq in Hok; by apply Forall_app in Hok as [_ ?]).
    destruct (IH rest (len + 1) (if Z.of_nat (length dst) <? dstlen then dst ++ [v] else dst) dstlen)
      as (n & d & -> & Hcase); [lia|done|].
    eexists _, _. split; [done|]. destruct Hcase as [(vs & Hvs & -> & -> & Hd)|[Hn Hno]]; [left|right].
    + exists (v :: vs). split_and!; [by constructor|done|cbn [length]; lia|]. intros Hdst.
      destruct (Z.ltb_spec (Z.of_nat (length dst)) dstlen).
      * rewrite Hd by (rewrite length_app; cbn; lia). by rewrite <- app_assoc.
      * rewrite Hd by lia. replace (Z.to_nat dstlen) with (length dst) by lia. by rewrite !take_app_length.
    + split; [done|]. intros [|v' vs] Hvs Heq'; [done|]. apply Forall_cons in Hvs as [Hv' Hvs].
      rewrite utf8_encode_cons in Heq'.
      assert (H1 : utf8_char all = Some (inr (v', concat (utf8_encode <$> vs)))) by (by apply utf8_char_spec).
      assert (H2 : utf8_char all = Some (inr (v, rest))) by (by apply utf8_char_spec).
      rewrite H1 in H2. injection H2 as _ H2. by apply (Hno vs).
Qed.

(** ** Properties *)

(** C13: Validation.  Against the contract of its checker, a structure is valid
    for the wrapper exactly when the checker accepts it; the message that is
    handed out is the one the checker reports, cut to the 1023 octets that fit
    into the buffer, nothing is stored outside it, and a valid structure leaves
    the caller's message alone. *)
Theorem validate_exact {T} (check : asn_constr_check_f T) `{K : !Constrained check} (t : option T) (stack error : list Z) :
  length stack = 1024%nat -> Forall (fun b => b <> 0) (octets_of (complaint t)) ->
  validate check t = Some (valid t) /\
  validate_error stack check t error =
    Some (valid t, if valid t then error else take 1023 (octets_of (complaint t))).
Proof.
  intros Hs Hmsg. unfold validate, validate_error, asn_check_constraints. rewrite !check_law.
  destruct (valid t); [done|]. split; [done|]. cbn [ctfail default from_option id].
  destruct (ctfailcb_ok stack (octets_of (complaint t)) 1024) as (buf & -> & _ & rest & ->); [lia|lia|].
  cbn [mbind option_bind Z.eqb negb errbuf]. change (Z.to_nat (1024 - 1)) with 1023%nat.
  rewrite c_string_ok; [done|]. by apply Forall_take.
Qed.

(** A name of 1100 characters: the message is cut. *)
Lemma validate_exact_witness :
  let name := String.concat "" (replicate 1100 "x"%string) in
  let check := IA5String_constraint name "IA5String.c" in
  validate check (Some [200]) = Some false /\
  validate_error (replicate 1024 7) check (Some [200]) [] = Some (false, replicate 1023 120).
Proof.
  cbn zeta. set (name := String.concat "" (replicate 1100 "x"%string)).
  destruct (validate_exact (IA5String_constraint name "IA5String.c") (Some [200]) (replicate 1024 7) []) as [H1 H2].
  - reflexivity.
  - apply (bool_decide_unpack (Forall (fun b => b <> 0) (octets_of _))). vm_compute. exact I.
  - split; [exact H1|]. rewrite H2. vm_compute. reflexivity.
Defined.

(** C37: UTF-8.  A string passes the check exactly when it is a sequence of
    shortest encodings of values under 2^31; its length is their number, and
    they are what is stored, as many as there is room for, with a zero behind
    them if there is room for it.  Every other string is answered with one of
    the four error codes. *)
Theorem utf8_exact (st : list Z) (dstlen : Z) (name FILE : string) : bytes_ok st -> 0 <= dstlen ->
  (forall vs, Forall code_point vs -> st = concat (utf8_encode <$> vs) ->
     UTF8String__process st dstlen = Some (Z.of_nat (length vs), take (Z.to_nat dstlen) (vs ++ [0])) /\
     UTF8String_constraint name FILE (Some st) None = Some (0, None)) /\
  ((forall vs, Forall code_point vs -> st <> concat (utf8_encode <$> vs)) ->
     (exists code dst, UTF8String__process st dstlen = Some (code, dst) /\ -4 <= code < 0) /\
     UTF8String_constraint name FILE (Some st) None = Some (-1, None)).
Proof.
  intros Hok Hd. unfold UTF8String__process, UTF8String_constraint, UTF8String_length, UTF8String__process.
  destruct (utf8_loop_spec (length st) st 0 [] dstlen ltac:(lia) Hok) as (n & d & Hp & Hcase).
  destruct (utf8_loop_spec (length st) st 0 [] 0 ltac:(lia) Hok) as (n0 & d0 & Hp0 & Hcase0).
  rewrite Hp, Hp0. cbn [mbind option_bind]. split.
  - intros vs Hvs Heq.
    destruct Hcase as [(vs' & Hvs' & Heq' & -> & Hdst)|[_ Hno]]; [|by destruct (Hno vs)].
    destruct Hcase0 as [(vs0 & Hvs0 & Heq0 & -> & _)|[_ Hno]]; [|by destruct (Hno vs)].
    assert (vs' = vs) as ->.
    { clear -Hvs Hvs' Heq Heq' Hok. rewrite Heq in Heq', Hok. clear Heq. revert vs' Hvs' Heq'.
      induction Hvs as [|v vs Hv Hvs IH]; intros vs' Hvs' Heq'; [by destruct vs'|].
      destruct Hvs' as [|v' vs' Hv' Hvs']; [done|]. rewrite !utf8_encode_cons in *.
      assert (H1 : utf8_char (utf8_encode v ++ concat (utf8_encode <$> vs)) = Some (inr (v, concat (utf8_encode <$> vs))))
        by (by apply utf8_char_spec).
      assert (H2 : utf8_char (utf8_encode v ++ concat (utf8_encode <$> vs)) = Some (inr (v', concat (utf8_encode <$> vs'))))
        by (by apply utf8_char_spec).
      rewrite H1 in H2. injection H2 as -> H2. f_equal. apply IH; [|done|done]. by apply Forall_app in Hok as [_ ?]. }
    rewrite (Hdst ltac:(cbn; lia)). split; [done|].
    unfold U8E_EINVAL, U8E_TRUNC, U8E_ILLSTART, U8E_NOTCONT, U8E_NOTMIN. zcases. done.
  - intros Hno. destruct Hcase as [(vs & Hvs & Heq & _)|[Hn _]]; [by destruct (Hno vs)|].
    destruct Hcase0 as [(vs & Hvs & Heq & _)|[Hn0 _]]; [by destruct (Hno vs)|].
    split; [by exists n, d|]. cbn [ctfail].
    assert (n0 = -1 \/ n0 = -2 \/ n0 = -3 \/ n0 = -4) as [->|[->|[->| ->]]] by lia; done.
Qed.

(** The euro sign and a surrogate, which is let through; and an overlong zero. *)
Lemma utf8_exact_witness :
  UTF8String__process [226; 130; 172; 237; 160; 128] 3 = Some (2, [8364; 55296; 0]) /\
  UTF8String_constraint "s" "UTF8String.c" (Some [226; 130; 172; 237; 160; 128]) None = Some (0, None) /\
  UTF8String__process [192; 128] 3 = Some (U8E_NOTMIN, []).
Proof.
  destruct (utf8_exact [226; 130; 172; 237; 160; 128] 3 "s" "UTF8String.c") as [H _].
  - apply (bool_decide_unpack (Forall (fun b => 0 <= b < 256) _)). vm_compute. exact I.
  - discriminate.
  - destruct (H [8364; 55296]) as [H1 H2]; [repeat constructor; unfold code_point; cbn; lia|reflexivity|].
    split; [exact H1|]. split; [exact H2|reflexivity].
Defined.
