(* ===== verification/Enumerated.v ===== *)
(** * Enumerations (support/INTEGER.c, support/NativeEnumerated.c)

    The value map of an ENUMERATED type, its binary searches, and the packed
    codec of a natively stored enumeration. *)
From S2P Require Import Prelude Outcome Consumer BitData PerSupport PerNatural PerCodec UperInteger.

(** ** Operations *)

(** bsearch(3): the index of an element the comparison function, given as a
    function of the index, answers 0 for.  On a sorted array without equal
    elements every implementation returns this one. *)
Fixpoint bsearch_loop (fuel : nat) (compar : Z -> option Z) (l u : Z) : option (option Z) :=
  match fuel with
  | O => None
  | S fuel =>
    if u <=? l then Some None else
    let idx := (l + u) / 2 in
    c ← compar idx;
    if c <? 0 then bsearch_loop fuel compar l idx
    else if 0 <? c then bsearch_loop fuel compar (idx + 1) u
    else Some (Some idx)
  end.
Definition bsearch (compar : Z -> option Z) (nmemb : Z) : option (option Z) :=
  bsearch_loop (S (Z.to_nat nmemb)) compar 0 nmemb.

(** [base + idx], [None] outside the array. *)
Definition at_index {A} (base : list A) (idx : Z) : option A :=
  if idx <? 0 then None else base !! Z.to_nat idx.

Definition INTEGER__compar_value2enum (a : Z) (el : asn_INTEGER_enum_map_t) : Z :=
  if a <? nat_value el then -1 else if a =? nat_value el then 0 else 1.

Definition NativeEnumerated__compar_value2enum (a b : asn_INTEGER_enum_map_t) : Z :=
  if nat_value a =? nat_value b then 0 else if nat_value a <? nat_value b then -1 else 1.

Definition search_value (compar : asn_INTEGER_enum_map_t -> Z) (specs : asn_INTEGER_specifics_t) :
    option (option Z) :=
  bsearch (fun i => compar <$> at_index (value2enum specs) i) (map_count specs).

Definition INTEGER_map_value2enum (specs : option asn_INTEGER_specifics_t) (value : Z) :
    option (option asn_INTEGER_enum_map_t) :=
  match specs with
  | None => Some None
  | Some specs =>
    if map_count specs =? 0 then Some None else
    found ← search_value (INTEGER__compar_value2enum value) specs;
    match found with
    | None => Some None
    | Some i => el ← at_index (value2enum specs) i; Some (Some el)
    end
  end.

Section NativeEnumerated.
(** td->specifics; the value constraint is mandatory. *)
Context (specs : asn_INTEGER_specifics_t) (ct : asn_per_constraint_t).

(** The number of values before the extension marker. *)
Definition root_count : Z := if negb (extension specs =? 0) then extension specs - 1 else map_count specs.

Definition NativeEnumerated_decode_uper (pd : asn_per_data) :
    option (asn_dec_rval_code * option Z * asn_per_data) :=
  let finish value pd :=
    if map_count specs <=? value then Some (RC_FAIL, None, pd)
    else el ← at_index (value2enum specs) value; Some (RC_OK, Some (nat_value el), pd) in
  '(inext, pd) ← (if has_flag ct APC_EXTENSIBLE then per_get_few_bits pd 1 else Some (0, pd));
  if inext <? 0 then Some (RC_WMORE, None, pd) else
  if (inext =? 0) && (0 <=? range_bits ct) then
    '(value, pd) ← per_get_few_bits pd (range_bits ct);
    if value <? 0 then Some (RC_WMORE, None, pd) else
    if root_count <=? value then Some (RC_FAIL, None, pd) else
    el ← at_index (value2enum specs) value; Some (RC_OK, Some (nat_value el), pd)
  else if extension specs =? 0 then Some (RC_FAIL, None, pd)
  else
    '(value, pd) ← uper_get_nsnnwn pd;
    if value <? 0 then Some (RC_WMORE, None, pd) else finish (value + (extension specs - 1)) pd.

Definition NativeEnumerated_encode_uper {S} `{Consumer S} (native : Z) (po : asn_bit_outp S) :
    option (Z * asn_bit_outp S) :=
  let key := {| nat_value := native; enum_name := EmptyString |} in
  kf ← search_value (NativeEnumerated__compar_value2enum key) specs;
  match kf with
  | None => Some (-1, po)
  | Some value =>
    let inext := (0 <=? range_bits ct) && (root_count <=? value) in
    let rest c po :=
      if negb (c : bool) && (0 <=? range_bits ct) then
        '(rc, po) ← per_put_few_bits po value (range_bits ct);
        Some (if negb (rc =? 0) then -1 else 0, po)
      else if extension specs =? 0 then Some (-1, po)
      else
        '(rc, po) ← uper_put_nsnnwn po (value - (if inext then extension specs - 1 else 0));
        Some (if negb (rc =? 0) then -1 else 0, po) in
    if has_flag ct APC_EXTENSIBLE then
      '(rc, po) ← per_put_few_bits po (Z.b2z inext) 1;
      if negb (rc =? 0) then Some (-1, po) else rest inext po
    else if inext then Some (-1, po) else rest false po
  end.

Definition NativeEnumerated_per : PerType Z := {|
  op_uper_encoder := Some (fun S C n po => NativeEnumerated_encode_uper n po);
  op_uper_decoder := Some NativeEnumerated_decode_uper
|}.
End NativeEnumerated.

(** ** Lemmas: searching *)

Lemma bsearch_loop_ok (compar : Z -> option Z) (i : Z) fuel l u : 0 <= l -> l <= i < u ->
  (Z.to_nat (u - l) < fuel)%nat ->
  (forall j, l <= j < u -> exists c, compar j = Some c /\
     (j < i -> 0 < c) /\ (j = i -> c = 0) /\ (i < j -> c < 0)) ->
  bsearch_loop fuel compar l u = Some (Some i).
Proof.
  revert l u. induction fuel as [|fuel IH]; intros l u Hl Hi Hf Hc; [lia|].
  cbn [bsearch_loop]. zcase.
  assert (Hm : l <= (l + u) / 2 < u) by (Z.div_mod_to_equations; lia).
  destruct (Hc _ Hm) as (c & -> & H1 & H2 & H3). cbn [mbind option_bind].
  destruct (Z.lt_trichotomy ((l + u) / 2) i) as [Hlt|[Heq|Hgt]].
  - specialize (H1 Hlt). zcases. apply IH; try lia. intros j Hj. apply Hc. lia.
  - rewrite (H2 Heq). cbn. by rewrite Heq.
  - specialize (H3 Hgt). zcases. apply IH; try lia. intros j Hj. apply Hc. lia.
Qed.

Lemma bsearch_loop_none (compar : Z -> option Z) fuel l u : 0 <= l -> l <= u ->
  (Z.to_nat (u - l) < fuel)%nat ->
  (forall j, l <= j < u -> exists c, compar j = Some c /\ c <> 0) ->
  bsearch_loop fuel compar l u = Some None.
Proof.
  revert l u. induction fuel as [|fuel IH]; intros l u Hl Hlu Hf Hc; [lia|].
  cbn [bsearch_loop]. destruct (Z.leb_spec u l); [done|].
  assert (Hm : l <= (l + u) / 2 < u) by (Z.div_mod_to_equations; lia).
  destruct (Hc _ Hm) as (c & -> & Hne). cbn [mbind option_bind].
  zcases; apply IH; try lia; intros j Hj; apply Hc; lia.
Qed.

(** The map is sorted by value, as the compiler emits it. *)
Definition map_sorted (l : list asn_INTEGER_enum_map_t) : Prop :=
  forall i j a b, (i < j)%nat -> l !! i = Some a -> l !! j = Some b -> nat_value a < nat_value b.

Lemma map_sorted_nil : map_sorted [].
Proof. by intros i j a b _ Ha. Qed.

Lemma map_sorted_cons a l : Forall (fun b => nat_value a < nat_value b) l -> map_sorted l ->
  map_sorted (a :: l).
Proof.
  intros Ha Hl [|i] [|j] x y Hij Hx Hy; try lia; cbn in Hx, Hy.
  - injection Hx as <-. by eapply Forall_lookup_1 in Ha.
  - apply (Hl i j); [lia|done..].
Qed.

Lemma at_index_Some {A} (l : list A) i : 0 <= i < Z.of_nat (length l) ->
  exists a, at_index l i = Some a /\ l !! Z.to_nat i = Some a.
Proof.
  intros Hi. unfold at_index. destruct (lookup_lt_is_Some_2 l (Z.to_nat i)) as [a Ha]; [lia|].
  exists a. by destruct (Z.ltb_spec i 0); [lia|].
Qed.

Lemma search_value_ok compar specs v i el : map_sorted (value2enum specs) ->
  (forall e, (v < nat_value e -> compar e < 0) /\ (v = nat_value e -> compar e = 0) /\
             (nat_value e < v -> 0 < compar e)) ->
  value2enum specs !! i = Some el -> nat_value el = v ->
  search_value compar specs = Some (Some (Z.of_nat i)).
Proof.
  intros Hs Hc Hi Hv. unfold search_value, bsearch, map_count.
  pose proof (lookup_lt_Some _ _ _ Hi) as Hlt.
  apply bsearch_loop_ok; [lia|lia|lia|]. intros j Hj.
  destruct (at_index_Some (value2enum specs) j) as (e & -> & He); [lia|]. cbn.
  eexists. split; [done|]. destruct (Hc e) as (H1 & H2 & H3).
  split_and!; intros.
  - apply H3. rewrite <- Hv. by apply (Hs (Z.to_nat j) i e el); [lia|..].
  - subst j. rewrite Nat2Z.id in He. apply H2. congruence.
  - apply H1. rewrite <- Hv. by apply (Hs i (Z.to_nat j) el e); [lia|..].
Qed.

Lemma search_value_none compar specs v :
  (forall e, nat_value e <> v -> compar e <> 0) ->
  (forall e, e ∈ value2enum specs -> nat_value e <> v) ->
  search_value compar specs = Some None.
Proof.
  intros Hc Hn. unfold search_value, bsearch, map_count.
  apply bsearch_loop_none; [lia|lia|lia|]. intros j Hj.
  destruct (at_index_Some (value2enum specs) j) as (e & -> & He); [lia|]. cbn.
  eexists. split; [done|]. apply Hc, Hn. by eapply list_elem_of_lookup_2.
Qed.

(** ** Specification *)

Section Spec.
Context (specs : asn_INTEGER_specifics_t) (ct : asn_per_constraint_t).

(** An enumeration as the compiler emits it: sorted, its root values fit the
    bit field, and an extension marker goes with an extensible constraint. *)
Definition enum_ok : Prop :=
  map_sorted (value2enum specs) /\ 0 <= range_bits ct <= 31 /\
  0 <= root_count specs <= map_count specs /\ root_count specs <= 2 ^ range_bits ct /\
  has_flag ct APC_EXTENSIBLE = negb (extension specs =? 0) /\ 0 <= extension specs.

(** Position of a value in the map; extension additions beyond the 64th do
    not survive uper_put_nsnnwn. *)
Definition enum_dom (v : Z) : Prop :=
  exists i el, value2enum specs !! i = Some el /\ nat_value el = v /\
    Z.of_nat i - root_count specs <= 63.

Definition enum_index (v : Z) : Z :=
  match search_value (INTEGER__compar_value2enum v) specs with
  | Some (Some i) => i
  | _ => -1
  end.

Definition enum_bits (v : Z) : list bool :=
  let i := enum_index v in
  let inext := root_count specs <=? i in
  (if has_flag ct APC_EXTENSIBLE then [inext] else []) ++
  (if inext then val_bits 7 (i - root_count specs)
   else val_bits (Z.to_nat (range_bits ct)) i).

Lemma compar_value2enum_ok v e :
  (v < nat_value e -> INTEGER__compar_value2enum v e < 0) /\
  (v = nat_value e -> INTEGER__compar_value2enum v e = 0) /\
  (nat_value e < v -> 0 < INTEGER__compar_value2enum v e).
Proof. unfold INTEGER__compar_value2enum. split_and!; intros; zcases; done. Qed.

Lemma native_compar_ok v e :
  let key := {| nat_value := v; enum_name := EmptyString |} in
  (v < nat_value e -> NativeEnumerated__compar_value2enum key e < 0) /\
  (v = nat_value e -> NativeEnumerated__compar_value2enum key e = 0) /\
  (nat_value e < v -> 0 < NativeEnumerated__compar_value2enum key e).
Proof. unfold NativeEnumerated__compar_value2enum. cbn. split_and!; intros; zcases; done. Qed.

(** The index of a value of the domain and what bounds it. *)
Lemma enum_index_ok v : enum_ok -> enum_dom v -> exists i el,
  enum_index v = Z.of_nat i /\ at_index (value2enum specs) (Z.of_nat i) = Some el /\
  nat_value el = v /\ Z.of_nat i < map_count specs /\ Z.of_nat i - root_count specs <= 63 /\
  search_value (NativeEnumerated__compar_value2enum {| nat_value := v; enum_name := EmptyString |})
    specs = Some (Some (Z.of_nat i)).
Proof.
  intros (Hs & _) (i & el & Hi & Hv & H63). exists i, el.
  pose proof (lookup_lt_Some _ _ _ Hi). split_and!; try done.
  - unfold enum_index. rewrite (search_value_ok _ specs v i el); try done.
    intros e. apply compar_value2enum_ok.
  - unfold at_index. destruct (Z.ltb_spec (Z.of_nat i) 0); [lia|]. by rewrite Nat2Z.id.
  - unfold map_count. lia.
  - apply (search_value_ok _ specs v i el); try done. intros e. apply native_compar_ok.
Qed.

Lemma root_count_ext : enum_ok -> negb (extension specs =? 0) = true ->
  root_count specs = extension specs - 1.
Proof. intros _ He. unfold root_count. by rewrite He. Qed.

Lemma enum_encode_ok {S} `{AppendConsumer S} (po : asn_bit_outp S) v : enum_ok -> enum_dom v ->
  po_wf po -> put_res po (enum_bits v) (NativeEnumerated_encode_uper specs ct v po) 0.
Proof.
  intros Hok Hd Hw. pose proof Hok as (_ & Hrb & Hroot & Hfit & Hext & He0).
  destruct (enum_index_ok v Hok Hd) as (i & el & Hidx & Hat & Hel & Hlt & H63 & Hsearch).
  unfold NativeEnumerated_encode_uper, enum_bits. rewrite Hsearch, Hidx. cbn [mbind option_bind].
  destruct (Z.leb_spec 0 (range_bits ct)); [|lia]. cbn [andb]. rewrite Hext.
  destruct (Z.leb_spec (root_count specs) (Z.of_nat i)) as [Hin|Hin].
  - destruct (negb (extension specs =? 0)) eqn:Ee.
    2: { unfold root_count in Hin. rewrite Ee in Hin. lia. }
    apply (put_res_bind _ _ _ _ 0); [apply (per_put_few_ok po 1 1); lia || done|].
    intros po1 Hw1. cbn [negb Z.eqb andb].
    apply negb_true_iff in Ee as Ee'. rewrite Ee'.
    apply (put_res_map _ _ _ 0); [|done].
    rewrite <- root_count_ext by done. apply nsnnwn_put; lia || done.
  - destruct (negb (extension specs =? 0)) eqn:Ee.
    + apply (put_res_bind _ _ _ _ 0); [apply (per_put_few_ok po 0 1); lia || done|].
      intros po1 Hw1. cbn [negb Z.eqb andb].
      apply (put_res_map _ _ _ 0); [|done]. by apply per_put_few_ok.
    + cbn [negb andb app]. apply (put_res_map _ _ _ 0); [|done]. by apply per_put_few_ok.
Qed.

Lemma enum_decode_ok v pd rest : enum_ok -> enum_dom v -> pd_at pd (enum_bits v ++ rest) ->
  dec_res pd (Z.of_nat (length (enum_bits v))) rest (NativeEnumerated_decode_uper specs ct pd) v.
Proof.
  intros Hok Hd Hat. pose proof Hok as (_ & Hrb & Hroot & Hfit & Hext & He0).
  destruct (enum_index_ok v Hok Hd) as (i & el & Hidx & Hel & Hv & Hlt & H63 & _).
  unfold NativeEnumerated_decode_uper, enum_bits in *. rewrite Hidx in *. rewrite Hext in *.
  destruct (Z.leb_spec 0 (range_bits ct)); [|lia].
  assert (Hroot_field : forall pd, Z.of_nat i < root_count specs ->
    pd_at pd (val_bits (Z.to_nat (range_bits ct)) (Z.of_nat i) ++ rest) ->
    dec_res pd (Z.of_nat (length (val_bits (Z.to_nat (range_bits ct)) (Z.of_nat i)))) rest
      ('(value, pd) ← per_get_few_bits pd (range_bits ct);
       if value <? 0 then Some (RC_WMORE, None, pd) else
       if root_count specs <=? value then Some (RC_FAIL, None, pd) else
       el ← at_index (value2enum specs) value; Some (RC_OK, Some (nat_value el), pd)) v).
  { intros pd' Hlt' Hat'. rewrite length_val_bits, Z2Nat.id by lia.
    destruct (per_get_few_at pd' (range_bits ct) _ _ ltac:(lia) Hat') as (pd'' & -> & ? & ?).
    cbn [mbind option_bind]. rewrite Z.mod_small by lia. zcases. rewrite Hel. cbn [mbind option_bind].
    rewrite Hv. by exists pd''. }
  destruct (Z.leb_spec (root_count specs) (Z.of_nat i)) as [Hin|Hin].
  - destruct (negb (extension specs =? 0)) eqn:Ee.
    2: { unfold root_count in Hin. rewrite Ee in Hin. lia. }
    apply negb_true_iff in Ee as Ee'. rewrite Ee'.
    cbn [app length] in *. destruct (get_bit pd _ _ Hat) as (pd1 & -> & Hat1 & Hrd1).
    rewrite length_val_bits. cbn [mbind option_bind Z.b2z Z.ltb Z.compare Z.eqb andb].
    destruct (nsnnwn_get pd1 (Z.of_nat i - root_count specs) rest) as (pd2 & -> & Hat2 & Hrd2); [lia|done|].
    cbn [mbind option_bind]. zcase. rewrite <- root_count_ext by done.
    replace (Z.of_nat i - root_count specs + root_count specs) with (Z.of_nat i) by lia.
    zcase. rewrite Hel. cbn [mbind option_bind]. rewrite Hv. exists pd2. split_and!; try done.
    change (Z.of_nat 8) with (1 + 7). eapply pd_read_trans; [lia..|done|done].
  - destruct (negb (extension specs =? 0)) eqn:Ee.
    + cbn [app length] in *. destruct (get_bit pd _ _ Hat) as (pd1 & -> & Hat1 & Hrd1).
      cbn [mbind option_bind Z.b2z Z.ltb Z.compare Z.eqb andb].
      destruct (Hroot_field pd1 Hin Hat1) as (pd2 & -> & Hat2 & Hrd2). exists pd2.
      split_and!; try done. rewrite Nat2Z.inj_succ, <- Z.add_1_l.
      eapply pd_read_trans; [lia..|done|done].
    + cbn [app mbind option_bind Z.ltb Z.compare Z.eqb andb] in *. by apply Hroot_field.
Qed.

Lemma enum_laws : enum_ok -> @PerTypeLaws Z (NativeEnumerated_per specs ct).
Proof.
  intros Hok. unshelve refine (@Build_PerTypeLaws Z (NativeEnumerated_per specs ct)
    enum_dom enum_bits _ _).
  - eexists. split; [reflexivity|]. split.
    + intros S C A po v Hd Hw. exists 0. split; [done|]. by apply enum_encode_ok.
    + intros S1 S2 C1 C2 f Hf po v. cbn beta. unfold NativeEnumerated_encode_uper.
      pose proof (put_nsnnwn_map f Hf). pose proof (per_put_few_map f Hf). natural.
  - eexists. split; [reflexivity|]. intros pd v rest Hd Hat. by apply enum_decode_ok.
Defined.
End Spec.

(** ** Properties *)

(** Every value of a sorted enumeration is found by the binary search, written
    as its index (behind an extension bit, and relative to the root for an
    extension addition) and read back; a number that is not in the map is
    refused with nothing written. *)
Theorem native_enumerated_uper_roundtrip (specs : asn_INTEGER_specifics_t)
    (ct : asn_per_constraint_t) (v : Z) :
  enum_ok specs ct ->
  (enum_dom specs v ->
   codec (fun po => NativeEnumerated_encode_uper specs ct v po)
     (fun pd => '(code, st, pd) ← NativeEnumerated_decode_uper specs ct pd; Some ((code, st), pd))
     (enum_bits specs ct v) 0 (RC_OK, Some v)) /\
  ((forall e, e ∈ value2enum specs -> nat_value e <> v) ->
   forall po : asn_bit_outp ByteBuffer, NativeEnumerated_encode_uper specs ct v po = Some (-1, po)).
Proof.
  intros Hok. split.
  - intros Hd. split; [intros po Hw; by apply enum_encode_ok|]. intros pd rest Hat.
    by destruct (enum_decode_ok specs ct v pd rest Hok Hd Hat) as (pd' & -> & ? & ?); exists pd'.
  - intros Hn po. unfold NativeEnumerated_encode_uper.
    rewrite (search_value_none _ specs v); [done| |done].
    intros e He. destruct (native_compar_ok v e) as (H1 & _ & H3). cbn in H1, H3. lia.
Qed.

(** The enumeration { green (0), amber (3), red (7), ..., purple (9) }. *)
Definition sample_enum : asn_INTEGER_specifics_t :=
  {| value2enum := [ {| nat_value := 0; enum_name := "green" |};
                     {| nat_value := 3; enum_name := "amber" |};
                     {| nat_value := 7; enum_name := "red" |};
                     {| nat_value := 9; enum_name := "purple" |} ];
     enum2value := [1; 0; 3; 2]; extension := 4; strict_enumeration := true; field_unsigned := false |}.
Definition sample_enum_constraint : asn_per_constraint_t :=
  {| flags := 6; range_bits := 2; effective_bits := 2; lower_bound := 0; upper_bound := 2 |}.

Lemma native_enumerated_uper_roundtrip_witness :
  enum_bits sample_enum sample_enum_constraint 9 = [true; false; false; false; false; false; false; false] /\
  codec (fun po => NativeEnumerated_encode_uper sample_enum sample_enum_constraint 9 po)
     (fun pd => '(code, st, pd) ← NativeEnumerated_decode_uper sample_enum sample_enum_constraint pd;
        Some ((code, st), pd))
     (enum_bits sample_enum sample_enum_constraint 9) 0 (RC_OK, Some 9).
Proof.
  split; [reflexivity|]. apply native_enumerated_uper_roundtrip.
  - split; [|unfold root_count, map_count; cbn; repeat split; lia].
    repeat (apply map_sorted_cons; [repeat constructor; cbn; lia|]). apply map_sorted_nil.
  - exists 3%nat, {| nat_value := 9; enum_name := "purple" |}. split; [reflexivity|].
    split; [reflexivity|]. cbn. lia.
Defined.
