(* ===== verification/IntegerXer.v ===== *)
(** * INTEGER as text (support/INTEGER.c, the XER part)

    [INTEGER__dump] prints an INTEGER as an identifier, a decimal number or,
    when it is too long for one, as colon-separated octets;
    [INTEGER__xer_body_decode] is the state machine that reads such text.
    Characters are their codes. *)
From S2P Require Import Prelude Consumer AsnInteger UperInteger Enumerated.

(** ** Identifiers *)

(** The characters of a C string, without the terminating zero. *)
Definition chars (s : string) : list Z := (fun a => Z.of_nat (Ascii.nat_of_ascii a)) <$> String.list_ascii_of_string s.

(** The comparison of a key with a zero-terminated name. *)
Fixpoint compar_chars (key name : list Z) : Z :=
  match key, name with
  | [], [] => 0
  | [], _ :: _ => -1
  | k :: _, [] => k
  | k :: key, n :: name => if k =? n then compar_chars key name else k - n
  end.

(** Compares the key with the [idx]-th name in tag order. *)
Definition INTEGER__compar_enum2value (specs : asn_INTEGER_specifics_t) (key : list Z) (idx : Z) :
    option Z :=
  i ← at_index (enum2value specs) idx;
  el ← at_index (value2enum specs) i;
  Some (compar_chars key (chars (enum_name el))).

(** Whitespace, '/' and '>' end the tag name. *)
Definition ends_name (c : Z) : bool :=
  ((9 <=? c) && (c <=? 13)) || (c =? 32) || (c =? 47) || (c =? 62).

(** The characters before the first that ends the name, [None] when there is
    no such character. *)
Fixpoint tag_name (s : list Z) : option (list Z) :=
  match s with
  | [] => None
  | c :: s => if ends_name c then Some [] else (fun r => c :: r) <$> tag_name s
  end.

(** On the text from [lstart] to [lstop]; the first character is skipped. *)
Definition INTEGER_map_enum2value (specs : option asn_INTEGER_specifics_t) (text : list Z) :
    option (option asn_INTEGER_enum_map_t) :=
  match specs with
  | None => Some None
  | Some specs =>
    if map_count specs =? 0 then Some None else
    match tag_name (drop 1 text) with
    | None => Some None
    | Some key =>
      found ← bsearch (INTEGER__compar_enum2value specs key) (map_count specs);
      match found with
      | None => Some None
      | Some idx =>
        i ← at_index (enum2value specs) idx;
        el ← at_index (value2enum specs) i; Some (Some el)
      end
    end
  end.

(** ** Printing *)

(** printf's decimal conversion. *)
Fixpoint digits (fuel : nat) (v : Z) (acc : list Z) : list Z :=
  match fuel with
  | O => acc
  | S fuel =>
    let acc := (48 + v mod 10) :: acc in
    if v / 10 =? 0 then acc else digits fuel (v / 10) acc
  end.
Definition decimal (v : Z) : list Z :=
  if v <? 0 then 45 :: digits 20 (- v) [] else digits 20 v [].

Definition hex_digit (n : Z) : Z := if n <? 10 then 48 + n else 55 + n.

Section Dump.
Context {K : Type} `{Consumer K}.

(** One formatted text to the callback; its buffer grows as needed. *)
Definition asn__format_to_callback (text : list Z) (key : K) : Z * K :=
  let '(rc, key) := consume text key in
  (if rc <? 0 then -1 else Z.of_nat (length text), key).

(** The long form: [scratch] is what the 32-character buffer holds. *)
Fixpoint dump_hex (buf scratch : list Z) (wrote : Z) (key : K) : Z * K :=
  match buf with
  | [] =>
    let p := take (length scratch - 1) scratch in
    let '(rc, key) := consume p key in
    (if rc <? 0 then -1 else wrote + Z.of_nat (length p), key)
  | b :: buf =>
    let octet := [hex_digit (b ≫ 4); hex_digit (Z.land b 15); 58] in
    if 28 <=? Z.of_nat (length scratch) then
      let '(rc, key) := consume scratch key in
      if rc <? 0 then (-1, key)
      else dump_hex buf octet (wrote + Z.of_nat (length scratch)) key
    else dump_hex buf (scratch ++ octet) wrote key
  end.

Definition INTEGER__dump (specs : option asn_INTEGER_specifics_t) (st : INTEGER_t)
    (plainOrXER : bool) (key : K) : option (Z * K) :=
  ret ← (if is_unsigned specs then Some (asn_INTEGER2umax st) else asn_INTEGER2imax st);
  let strict := match specs with Some specs => strict_enumeration specs | None => false end in
  match ret with
  | Conv_OK v =>
    let value := s64 v in
    el ← (if (0 <=? value) || negb (is_unsigned specs)
          then INTEGER_map_value2enum specs value else Some None);
    Some match el with
         | Some el =>
           if plainOrXER then
             asn__format_to_callback ([60] ++ chars (enum_name el) ++ [47; 62]) key
           else
             asn__format_to_callback (decimal value ++ [32; 40] ++ chars (enum_name el) ++ [41]) key
         | None =>
           if plainOrXER && strict then (-1, key)
           else asn__format_to_callback (decimal (if is_unsigned specs then v else value)) key
         end
  | _ =>
    if plainOrXER && strict then Some (-1, key)
    else Some (dump_hex (i_bytes st) [] 0 key)
  end.

Definition INTEGER_print (specs : option asn_INTEGER_specifics_t) (st : option INTEGER_t) (key : K) :
    option (Z * K) :=
  '(ret, key) ← match st with
    | Some {| i_buf := Some l |} => INTEGER__dump specs {| i_buf := Some l |} false key
    | _ => Some (consume (chars "<absent>") key)
    end;
  Some (if ret <? 0 then -1 else 0, key).

Definition INTEGER_encode_xer (specs : option asn_INTEGER_specifics_t) (st : option INTEGER_t)
    (key : K) : option (Z * K) :=
  match st with
  | Some {| i_buf := Some l |} =>
    '(encoded, key) ← INTEGER__dump specs {| i_buf := Some l |} true key;
    Some (if encoded <? 0 then -1 else encoded, key)
  | _ => Some (-1, key)
  end.
End Dump.

(** ** Reading *)

Inductive xer_pbd_rval :=
  | XPBD_SYSTEM_FAILURE | XPBD_DECODER_LIMIT | XPBD_BROKEN_ENCODING
  | XPBD_NOT_BODY_IGNORE | XPBD_BODY_CONSUMED.

Inductive xer_state :=
  | ST_LEADSPACE | ST_SKIPSPHEX | ST_WAITDIGITS | ST_DIGITS | ST_DIGITS_TRAILSPACE
  | ST_HEXDIGIT1 | ST_HEXDIGIT2 | ST_HEXDIGITS_TRAILSPACE | ST_HEXCOLON
  | ST_END_ENUM | ST_UNEXPECTED.

(** The locals of the state machine and the octets stored in st->buf. *)
Record xer_body := {
  xb_state : xer_state;
  hex_value : Z;
  dec_value : Z;
  dec_value_start : option Z;
  dec_value_end : option Z;
  xb_buf : list Z
}.

Definition to_state (st : xer_state) (s : xer_body) : xer_body :=
  {| xb_state := st; hex_value := hex_value s; dec_value := dec_value s;
     dec_value_start := dec_value_start s; dec_value_end := dec_value_end s; xb_buf := xb_buf s |}.
Definition set_hex (v : Z) (s : xer_body) : xer_body :=
  {| xb_state := xb_state s; hex_value := v; dec_value := dec_value s;
     dec_value_start := dec_value_start s; dec_value_end := dec_value_end s; xb_buf := xb_buf s |}.
Definition set_start (p : option Z) (s : xer_body) : xer_body :=
  {| xb_state := xb_state s; hex_value := hex_value s; dec_value := dec_value s;
     dec_value_start := p; dec_value_end := dec_value_end s; xb_buf := xb_buf s |}.
Definition set_end (p : option Z) (s : xer_body) : xer_body :=
  {| xb_state := xb_state s; hex_value := hex_value s; dec_value := dec_value s;
     dec_value_start := dec_value_start s; dec_value_end := p; xb_buf := xb_buf s |}.
Definition set_dec (v : Z) (s : xer_body) : xer_body :=
  {| xb_state := xb_state s; hex_value := hex_value s; dec_value := v;
     dec_value_start := dec_value_start s; dec_value_end := dec_value_end s; xb_buf := xb_buf s |}.

(** What one character does: go on at a position, leave the loop, return. *)
Inductive xer_step := Continue (lp : Z) (s : xer_body) | Break (s : xer_body) | Return (r : xer_pbd_rval).

Section Decode.
Context (specs : option asn_INTEGER_specifics_t) (chunk : list Z).

(** INTEGER_st_prealloc allocates one octet more than [chunk_size / 3 + 1]. *)
Definition capacity : Z := Z.of_nat (length chunk) / 3 + 1 + 1.

(** st->buf[st->size++] = (uint8_t)hex_value. *)
Definition push_octet (s : xer_body) : option xer_body :=
  if Z.of_nat (length (xb_buf s)) <? capacity then
    Some {| xb_state := xb_state s; hex_value := hex_value s; dec_value := dec_value s;
            dec_value_start := dec_value_start s; dec_value_end := dec_value_end s;
            xb_buf := xb_buf s ++ [u8 (hex_value s)] |}
  else None.

(** Re-evaluation in hexadecimal form from the first character. *)
Definition reevaluate (s : xer_body) : xer_step :=
  Continue 0 (set_start None (to_state ST_SKIPSPHEX s)).

Definition body_step (lp lv : Z) (s : xer_body) : option xer_step :=
  let go st := Some (Continue (lp + 1) (to_state st s)) in
  let unexpected := Some (Break (to_state ST_UNEXPECTED s)) in
  if (lv =? 9) || (lv =? 10) || (lv =? 13) || (lv =? 32) then
    match xb_state s with
    | ST_LEADSPACE | ST_DIGITS_TRAILSPACE | ST_HEXDIGITS_TRAILSPACE | ST_SKIPSPHEX =>
      Some (Continue (lp + 1) s)
    | ST_DIGITS =>
      Some (Continue (lp + 1) (set_end (Some lp) (to_state ST_DIGITS_TRAILSPACE s)))
    | ST_HEXCOLON => go ST_HEXDIGITS_TRAILSPACE
    | _ => unexpected
    end
  else if (lv =? 45) || (lv =? 43) then
    match xb_state s with
    | ST_LEADSPACE =>
      Some (Continue (lp + 1) (set_start (Some lp) (set_dec 0 (to_state ST_WAITDIGITS s))))
    | _ => unexpected
    end
  else if is_digit lv then
    match xb_state s with
    | ST_DIGITS => Some (Continue (lp + 1) s)
    | ST_SKIPSPHEX | ST_HEXDIGIT1 =>
      Some (Continue (lp + 1) (set_hex ((lv - 48) ≪ 4) (to_state ST_HEXDIGIT2 s)))
    | ST_HEXDIGIT2 =>
      s ← push_octet (set_hex (hex_value s + (lv - 48)) (to_state ST_HEXCOLON s));
      Some (Continue (lp + 1) s)
    | ST_HEXCOLON => Some (Return XPBD_BROKEN_ENCODING)
    | ST_LEADSPACE =>
      Some (Continue (lp + 1) (set_start (Some lp) (set_dec 0 (to_state ST_DIGITS s))))
    | ST_WAITDIGITS => go ST_DIGITS
    | _ => unexpected
    end
  else if lv =? 60 then
    match xb_state s with
    | ST_LEADSPACE =>
      el ← INTEGER_map_enum2value specs chunk;
      Some match el with
           | Some el => Continue (Z.of_nat (length chunk)) (set_dec (nat_value el) (to_state ST_END_ENUM s))
           | None => Return XPBD_BROKEN_ENCODING
           end
    | _ => Some (Return XPBD_BROKEN_ENCODING)
    end
  else if lv =? 58 then
    match xb_state s with
    | ST_HEXCOLON => go ST_HEXDIGIT1
    | ST_DIGITS => Some (reevaluate s)
    | _ => unexpected
    end
  else if ((65 <=? lv) && (lv <=? 70)) || ((97 <=? lv) && (lv <=? 102)) then
    let nibble := lv - (if lv <? 97 then 65 else 97) + 10 in
    match xb_state s with
    | ST_SKIPSPHEX | ST_LEADSPACE | ST_HEXDIGIT1 =>
      Some (Continue (lp + 1) (set_hex (nibble ≪ 4) (to_state ST_HEXDIGIT2 s)))
    | ST_HEXDIGIT2 =>
      s ← push_octet (set_hex (hex_value s + nibble) s);
      Some (Continue (lp + 1) (to_state ST_HEXCOLON s))
    | ST_DIGITS => Some (reevaluate s)
    | _ => unexpected
    end
  else unexpected.

(** The loop over the chunk; [inl] is a return from inside it. *)
Fixpoint body_loop (fuel : nat) (lp : Z) (s : xer_body) : option (xer_pbd_rval + xer_body) :=
  match fuel with
  | O => None
  | S fuel =>
    if Z.of_nat (length chunk) <=? lp then Some (inr s) else
    lv ← read chunk lp;
    r ← body_step lp lv s;
    match r with
    | Continue lp s => body_loop fuel lp s
    | Break s => Some (inr s)
    | Return r => Some (inl r)
    end
  end.

(** The decimal text from [dec_value_start] to [dec_value_end]. *)
Definition finish_decimal (s : xer_body) : option (xer_pbd_rval * option INTEGER_t) :=
  start ← dec_value_start s; stop ← dec_value_end s;
  r ← asn_strtoimax_lim (take (Z.to_nat (stop - start)) (drop (Z.to_nat start) chunk));
  match r with
  | (ASN_STRTOX_OK, _, Some v) =>
    Some (if (LONG_MIN <=? v) && (v <=? LONG_MAX)
          then (XPBD_BODY_CONSUMED, Some (asn_imax2INTEGER v)) else (XPBD_DECODER_LIMIT, None))
  | (ASN_STRTOX_ERROR_RANGE, _, _) => Some (XPBD_DECODER_LIMIT, None)
  | _ => Some (XPBD_BROKEN_ENCODING, None)
  end.

(** The switch after the loop. *)
Definition body_finish (s : xer_body) : option (xer_pbd_rval * option INTEGER_t) :=
  match xb_state s with
  | ST_END_ENUM => Some (XPBD_BODY_CONSUMED, Some (asn_imax2INTEGER (dec_value s)))
  | ST_DIGITS => finish_decimal (set_end (Some (Z.of_nat (length chunk))) s)
  | ST_DIGITS_TRAILSPACE => finish_decimal s
  | ST_HEXCOLON | ST_HEXDIGITS_TRAILSPACE =>
    (* st->buf[st->size] = 0 *)
    if Z.of_nat (length (xb_buf s)) <? capacity
    then Some (XPBD_BODY_CONSUMED, Some (of_bytes (xb_buf s))) else None
  | ST_HEXDIGIT1 | ST_HEXDIGIT2 | ST_SKIPSPHEX => Some (XPBD_BROKEN_ENCODING, None)
  | ST_LEADSPACE => Some (XPBD_NOT_BODY_IGNORE, None)
  | ST_WAITDIGITS | ST_UNEXPECTED => Some (XPBD_BROKEN_ENCODING, None)
  end.

(** The text is scanned at most twice. *)
Definition body_fuel : nat := S (S (2 * length chunk)).

Definition INTEGER__xer_body_decode : option (xer_pbd_rval * option INTEGER_t) :=
  r ← body_loop body_fuel 0
        {| xb_state := ST_LEADSPACE; hex_value := 0; dec_value := 0;
           dec_value_start := None; dec_value_end := None; xb_buf := [] |};
  match r with
  | inl r => Some (r, None)
  | inr s => body_finish s
  end.
End Decode.

(** ** Safety of the reader *)

Section Safety.
Context (specs : option asn_INTEGER_specifics_t) (chunk : list Z).
Local Abbreviation n := (Z.of_nat (length chunk)).

(** The maps of the type refer to each other within their bounds. *)
Definition maps_ok : Prop :=
  match specs with
  | None => True
  | Some specs =>
    length (enum2value specs) = length (value2enum specs) /\
    Forall (fun i => 0 <= i < map_count specs) (enum2value specs)
  end.

(** Before hexadecimal digits nothing is stored and a decimal number has its
    start; with them every octet took three characters. *)
Definition body_inv (lp : Z) (s : xer_body) : Prop :=
  let k := Z.of_nat (length (xb_buf s)) in
  let started := match dec_value_start s with Some p => 0 <= p < lp | None => False end in
  match xb_state s with
  | ST_LEADSPACE => k = 0
  | ST_WAITDIGITS | ST_DIGITS => k = 0 /\ started
  | ST_DIGITS_TRAILSPACE => k = 0 /\ started /\ is_Some (dec_value_end s)
  | ST_SKIPSPHEX => k = 0
  | ST_HEXDIGIT1 => 3 * k <= lp
  | ST_HEXDIGIT2 => 3 * k + 1 <= lp
  | ST_HEXCOLON | ST_HEXDIGITS_TRAILSPACE => 3 * k - 1 <= lp
  | ST_END_ENUM => k = 0 /\ lp = n
  | ST_UNEXPECTED => True
  end.

(** Bounds the steps to the end of the loop. *)
Definition body_measure (lp : Z) (s : xer_body) : Z :=
  match xb_state s with
  | ST_LEADSPACE | ST_WAITDIGITS | ST_DIGITS | ST_DIGITS_TRAILSPACE => 2 * n - lp
  | _ => n - lp
  end.

Lemma bsearch_total compar fuel l u : 0 <= l -> (Z.to_nat (u - l) < fuel)%nat ->
  (forall j, l <= j < u -> is_Some (compar j)) ->
  exists r, bsearch_loop fuel compar l u = Some r /\
    match r with Some i => l <= i < u | None => True end.
Proof.
  revert l u. induction fuel as [|fuel IH]; intros l u Hl Hf Hc; [lia|]. cbn [bsearch_loop].
  destruct (Z.leb_spec u l); [by exists None|].
  assert (Hm : l <= (l + u) / 2 < u) by (Z.div_mod_to_equations; lia).
  destruct (Hc _ Hm) as [c ->]. cbn [mbind option_bind]. zcases.
  - destruct (IH l ((l + u) / 2)) as (r & -> & Hr); [lia|lia|intros; apply Hc; lia|].
    exists r. split; [done|]. destruct r; lia || done.
  - destruct (IH ((l + u) / 2 + 1) u) as (r & -> & Hr); [lia|lia|intros; apply Hc; lia|].
    exists r. split; [done|]. destruct r; lia || done.
  - by exists (Some ((l + u) / 2)).
Qed.

Lemma enum2value_total text : maps_ok -> is_Some (INTEGER_map_enum2value specs text).
Proof.
  unfold maps_ok, INTEGER_map_enum2value. intros Hm. destruct specs as [sp|]; [|by eexists].
  destruct Hm as [Hlen Hall]. destruct (_ =? 0); [by eexists|].
  destruct (tag_name _) as [key|]; [|by eexists].
  assert (Hget : forall j, 0 <= j < map_count sp ->
    exists i el, at_index (enum2value sp) j = Some i /\ at_index (value2enum sp) i = Some el).
  { intros j Hj. unfold map_count in Hj.
    destruct (at_index_Some (enum2value sp) j) as (i & Hi & Hl); [lia|].
    pose proof (Forall_lookup_1 _ _ _ _ Hall Hl) as Hb. cbn in Hb.
    destruct (at_index_Some (value2enum sp) i) as (el & Hel & _); [done|]. by exists i, el. }
  unfold bsearch. destruct (bsearch_total (INTEGER__compar_enum2value sp key)
    (S (Z.to_nat (map_count sp))) 0 (map_count sp)) as (r & -> & Hr); [lia|lia| |].
  - intros j Hj. destruct (Hget j Hj) as (i & el & Hi & Hel). unfold INTEGER__compar_enum2value.
    rewrite Hi. cbn. rewrite Hel. by eexists.
  - cbn [mbind option_bind]. destruct r as [j|]; [|by eexists].
    destruct (Hget j Hr) as (i & el & Hi & Hel). rewrite Hi. cbn [mbind option_bind].
    rewrite Hel. by eexists.
Qed.

Definition step_ok (lp : Z) (s : xer_body) (r : option xer_step) : Prop :=
  match r with
  | None => False
  | Some (Continue lp' s') => body_inv lp' s' /\ 0 <= lp' <= n /\ body_measure lp' s' < body_measure lp s /\
      xb_state s' <> ST_UNEXPECTED
  | Some (Break s') => xb_state s' = ST_UNEXPECTED
  | Some (Return _) => True
  end.

Lemma push_octet_ok s : Z.of_nat (length (xb_buf s)) < n / 3 + 2 ->
  push_octet chunk s = Some {| xb_state := xb_state s; hex_value := hex_value s;
    dec_value := dec_value s; dec_value_start := dec_value_start s;
    dec_value_end := dec_value_end s; xb_buf := xb_buf s ++ [u8 (hex_value s)] |}.
Proof. intros H. unfold push_octet, capacity. by zcase. Qed.

Local Ltac step_solve :=
  cbn in *; rewrite ?length_app; cbn [length];
  repeat match goal with H : _ /\ _ |- _ => destruct H end;
  try done; try lia; repeat split; try done; lia.

Lemma body_step_ok lp lv s : maps_ok -> 0 <= lp < n -> body_inv lp s ->
  xb_state s <> ST_UNEXPECTED -> step_ok lp s (body_step specs chunk lp lv s).
Proof.
  intros Hm Hlp Hinv Hu. destruct (enum2value_total chunk Hm) as [el Hel].
  unfold body_step, step_ok, body_inv, body_measure in *.
  destruct s as [st h d ds de buf]. cbn [xb_state xb_buf dec_value_start dec_value_end] in *.
  assert (Hroom : 3 * Z.of_nat (length buf) + 1 <= lp -> Z.of_nat (length buf) < n / 3 + 2)
    by (intros; Z.div_mod_to_equations; lia).
  destruct (_ || (lv =? 32)); [destruct st, ds; step_solve|].
  destruct (_ || (lv =? 43)); [destruct st, ds; step_solve|].
  destruct (is_digit lv).
  { destruct st; try rewrite push_octet_ok by (apply Hroom; exact Hinv); destruct ds; step_solve. }
  destruct (lv =? 60).
  { destruct st; try rewrite Hel; destruct el; step_solve. }
  destruct (lv =? 58); [destruct st; step_solve|].
  destruct (_ || ((97 <=? lv) && (lv <=? 102))); [|done].
  destruct st; try rewrite push_octet_ok by (apply Hroom; exact Hinv); step_solve.
Qed.

Lemma body_loop_ok fuel lp s : maps_ok -> 0 <= lp <= n -> body_inv lp s ->
  xb_state s <> ST_UNEXPECTED -> body_measure lp s < Z.of_nat fuel ->
  exists r, body_loop specs chunk fuel lp s = Some r /\
    match r with
    | inr s' => xb_state s' = ST_UNEXPECTED \/ body_inv n s'
    | inl _ => True
    end.
Proof.
  revert lp s. induction fuel as [|fuel IH]; intros lp s Hm Hlp Hinv Hu Hf.
  { unfold body_measure in Hf. destruct (xb_state s); lia. }
  cbn [body_loop]. destruct (Z.leb_spec n lp).
  { replace lp with n in Hinv by lia. eexists. split; [done|]. by right. }
  destruct (read_Some chunk lp) as (lv & -> & _); [lia|]. cbn [mbind option_bind].
  pose proof (body_step_ok lp lv s Hm ltac:(lia) Hinv Hu) as Hs. unfold step_ok in Hs.
  destruct (body_step specs chunk lp lv s) as [[lp' s'|s'|r]|]; [ | |by eexists|done].
  - cbn [mbind option_bind]. destruct Hs as (Hinv' & Hlp' & Hmeas & Hu').
    apply IH; done || lia.
  - eexists. split; [done|]. by left.
Qed.

Lemma finish_decimal_ok s p e : dec_value_start s = Some p -> dec_value_end s = Some e ->
  is_Some (finish_decimal chunk s).
Proof.
  intros Hp He. unfold finish_decimal. rewrite Hp, He. cbn [mbind option_bind].
  destruct (strtoimax_lim_total (take (Z.to_nat (e - p)) (drop (Z.to_nat p) chunk))) as [[[c q] v] ->].
  cbn [mbind option_bind]. destruct c, v; by eexists.
Qed.

(** Whatever the text, the reader comes to a verdict without storing outside
    its buffer. *)
Lemma xer_body_decode_total : maps_ok -> is_Some (INTEGER__xer_body_decode specs chunk).
Proof.
  intros Hm. unfold INTEGER__xer_body_decode, body_fuel.
  match goal with |- context [body_loop _ _ _ _ ?s0] =>
    destruct (body_loop_ok (S (S (2 * length chunk))) 0 s0 Hm) as (r & -> & Hr) end;
    try done; try lia; [cbn; lia|].
  cbn [mbind option_bind]. destruct r as [r|s]; [by eexists|]. destruct Hr as [Hu|Hinv].
  { unfold body_finish. rewrite Hu. by eexists. }
  unfold body_finish. unfold body_inv in Hinv.
  assert (Hcap : 3 * Z.of_nat (length (xb_buf s)) - 1 <= n -> Z.of_nat (length (xb_buf s)) < capacity chunk)
    by (unfold capacity; intros; Z.div_mod_to_equations; lia).
  destruct (xb_state s); try (by eexists).
  - destruct Hinv as (_ & Hs). destruct (dec_value_start s) as [p|] eqn:Ep; [|done].
    by eapply finish_decimal_ok.
  - destruct Hinv as (_ & Hs & [e He]). destruct (dec_value_start s) as [p|] eqn:Ep; [|done].
    by eapply finish_decimal_ok.
  - specialize (Hcap Hinv). zcase. by eexists.
  - specialize (Hcap Hinv). zcase. by eexists.
Qed.
End Safety.

(** ** Hexadecimal text *)

(** Octets in capital hexadecimal digits, separated by colons. *)
Definition hex_octet (b : Z) : list Z := [hex_digit (b ≫ 4); hex_digit (Z.land b 15)].
Fixpoint hex_text (l : list Z) : list Z :=
  match l with
  | [] => []
  | [b] => hex_octet b
  | b :: l => hex_octet b ++ 58 :: hex_text l
  end.

Lemma octet_nibbles b : byte_ok b -> (0 <= (b ≫ 4) < 16) /\ 0 <= Z.land b 15 < 16 /\
  ((b ≫ 4) ≪ 4) + Z.land b 15 = b.
Proof.
  intros Hb. unfold byte_ok in Hb. rewrite shiftr_div, shiftl_mul by lia.
  change 15 with (2 ^ 4 - 1). rewrite land_ones_mod by lia. change (2 ^ 4) with 16.
  Z.div_mod_to_equations; lia.
Qed.

(** A hexadecimal digit is a decimal one or a letter. *)
Inductive hex_char (h : Z) : Z -> Prop :=
  | hex_dec : 0 <= h < 10 -> hex_char h (48 + h)
  | hex_letter : 10 <= h < 16 -> hex_char h (55 + h).

Lemma hex_digit_char h : 0 <= h < 16 -> hex_char h (hex_digit h).
Proof. intros Hh. unfold hex_digit. zcase; constructor; lia. Qed.

Section Hex.
Context (specs : option asn_INTEGER_specifics_t) (chunk : list Z).

Definition hex_wait (st : xer_state) : Prop := st = ST_HEXDIGIT1 \/ st = ST_SKIPSPHEX.

Lemma hex_step1 lp h c s : hex_char h c -> hex_wait (xb_state s) ->
  body_step specs chunk lp c s = Some (Continue (lp + 1) (set_hex (h ≪ 4) (to_state ST_HEXDIGIT2 s))).
Proof.
  intros Hc Hs. unfold body_step. destruct Hc as [Hh|Hh].
  - assert (Hd : is_digit (48 + h) = true) by (unfold is_digit; apply andb_true_intro; lia).
    zcases. cbn [orb]. rewrite Hd. replace (48 + h - 48) with h by lia. by destruct Hs as [-> | ->].
  - assert (Hd : is_digit (55 + h) = false) by (unfold is_digit; apply andb_false_iff; lia).
    rewrite Hd. zcases. cbn [orb andb]. replace (55 + h - 65 + 10) with h by lia.
    by destruct Hs as [-> | ->].
Qed.

Lemma hex_step2 lp h c s : hex_char h c -> xb_state s = ST_HEXDIGIT2 ->
  Z.of_nat (length (xb_buf s)) < capacity chunk ->
  exists s', body_step specs chunk lp c s = Some (Continue (lp + 1) s') /\
    xb_state s' = ST_HEXCOLON /\ xb_buf s' = xb_buf s ++ [u8 (hex_value s + h)].
Proof.
  intros Hc Hs Hcap. unfold body_step. rewrite Hs. destruct Hc as [Hh|Hh].
  - assert (Hd : is_digit (48 + h) = true) by (unfold is_digit; apply andb_true_intro; lia).
    zcases. cbn [orb]. rewrite Hd. replace (48 + h - 48) with h by lia.
    unfold push_octet. cbn [xb_buf set_hex to_state]. zcase. by eexists.
  - assert (Hd : is_digit (55 + h) = false) by (unfold is_digit; apply andb_false_iff; lia).
    rewrite Hd. zcases. cbn [orb andb]. replace (55 + h - 65 + 10) with h by lia.
    unfold push_octet. cbn [xb_buf set_hex to_state]. zcase. by eexists.
Qed.

(** The loop at a position where a character is. *)
Lemma body_loop_at fuel pre c post s : chunk = pre ++ c :: post ->
  body_loop specs chunk (S fuel) (Z.of_nat (length pre)) s =
  r ← body_step specs chunk (Z.of_nat (length pre)) c s;
  match r with
  | Continue lp s => body_loop specs chunk fuel lp s
  | Break s => Some (inr s)
  | Return r => Some (inl r)
  end.
Proof.
  intros Hc. cbn [body_loop].
  assert (Hl : Z.of_nat (length chunk) = Z.of_nat (length pre) + Z.of_nat (S (length post)))
    by (rewrite Hc, length_app; cbn [length]; lia).
  zcase. rewrite Hc at 1. by rewrite read_app.
Qed.

Lemma hex_run l : forall fuel pre b s, bytes_ok (b :: l) -> chunk = pre ++ hex_text (b :: l) ->
  hex_wait (xb_state s) -> 3 * Z.of_nat (length (xb_buf s)) <= Z.of_nat (length pre) ->
  (3 * length (b :: l) <= fuel)%nat ->
  exists s', body_loop specs chunk fuel (Z.of_nat (length pre)) s = Some (inr s') /\
    xb_state s' = ST_HEXCOLON /\ xb_buf s' = xb_buf s ++ b :: l.
Proof.
  induction l as [|b' l IH]; intros fuel pre b s Hok Hc Hs Hroom Hf;
    apply Forall_cons in Hok as [Hb Hok]; destruct (octet_nibbles b Hb) as (Hh1 & Hh2 & Hjoin);
    do 3 (destruct fuel as [|fuel]; [cbn in Hf; lia|]).
  all: assert (Hcap : Z.of_nat (length (xb_buf s)) < capacity chunk) by
    (unfold capacity; rewrite Hc, length_app; cbn [hex_text hex_octet length app]; Z.div_mod_to_equations; lia).
  all: set (c1 := hex_digit (b ≫ 4)) in *; set (c2 := hex_digit (Z.land b 15)) in *.
  all: pose proof (hex_digit_char _ Hh1) as Hc1; pose proof (hex_digit_char _ Hh2) as Hc2.
  - change (hex_text [b]) with [c1; c2] in Hc.
    rewrite (body_loop_at _ pre c1 [c2]), (hex_step1 _ (b ≫ 4)) by done. cbn [mbind option_bind].
    replace (Z.of_nat (length pre) + 1) with (Z.of_nat (length (pre ++ [c1])))
      by (rewrite length_app; cbn; lia).
    rewrite (body_loop_at _ (pre ++ [c1]) c2 []) by (by rewrite <- app_assoc).
    edestruct (hex_step2 (Z.of_nat (length (pre ++ [c1]))) (Z.land b 15) c2) as (s' & -> & Hst & Hbuf);
      [exact Hc2|..]; [done|exact Hcap|].
    cbn [mbind option_bind body_loop]. rewrite Hc, !length_app. cbn [length]. zcase.
    exists s'. split_and!; [done..|]. rewrite Hbuf. cbn [xb_buf set_hex to_state hex_value].
    by rewrite Hjoin, u8_small.
  - change (hex_text (b :: b' :: l)) with (c1 :: c2 :: 58 :: hex_text (b' :: l)) in Hc.
    rewrite (body_loop_at _ pre c1 (c2 :: 58 :: hex_text (b' :: l))), (hex_step1 _ (b ≫ 4)) by done.
    cbn [mbind option_bind].
    replace (Z.of_nat (length pre) + 1) with (Z.of_nat (length (pre ++ [c1])))
      by (rewrite length_app; cbn; lia).
    rewrite (body_loop_at _ (pre ++ [c1]) c2 (58 :: hex_text (b' :: l))) by (by rewrite <- app_assoc).
    edestruct (hex_step2 (Z.of_nat (length (pre ++ [c1]))) (Z.land b 15) c2) as (s' & -> & Hst & Hbuf);
      [exact Hc2|..]; [done|exact Hcap|].
    cbn [mbind option_bind].
    replace (Z.of_nat (length (pre ++ [c1])) + 1) with (Z.of_nat (length (pre ++ [c1; c2])))
      by (rewrite !length_app; cbn; lia).
    rewrite (body_loop_at _ (pre ++ [c1; c2]) 58 (hex_text (b' :: l))) by (by rewrite <- app_assoc).
    unfold body_step at 1. cbn [Z.eqb Pos.eqb orb is_digit Z.leb Z.compare Pos.compare Pos.compare_cont andb].
    rewrite Hst. cbn [mbind option_bind].
    replace (Z.of_nat (length (pre ++ [c1; c2])) + 1) with (Z.of_nat (length (pre ++ [c1; c2; 58])))
      by (rewrite !length_app; cbn; lia).
    cbn [xb_buf set_hex to_state hex_value] in Hbuf. rewrite Hjoin, u8_small in Hbuf by done.
    destruct (IH fuel (pre ++ [c1; c2; 58]) b' (to_state ST_HEXDIGIT1 s')) as (s2 & -> & Hst2 & Hbuf2).
    + done.
    + by rewrite <- app_assoc.
    + by left.
    + cbn [xb_buf to_state]. rewrite Hbuf, !length_app. cbn. lia.
    + cbn in Hf |- *. lia.
    + exists s2. split_and!; [done..|]. rewrite Hbuf2. cbn [xb_buf to_state]. by rewrite Hbuf, <- app_assoc.
Qed.
End Hex.

(** The state the reader starts in. *)
Definition body_start : xer_body :=
  {| xb_state := ST_LEADSPACE; hex_value := 0; dec_value := 0;
     dec_value_start := None; dec_value_end := None; xb_buf := [] |}.

Lemma is_digit_true h : 0 <= h < 10 -> is_digit (48 + h) = true.
Proof. intros. unfold is_digit. apply andb_true_intro; lia. Qed.

(** One digit where a number may start or goes on. *)
Lemma digit_step specs chunk lp c s : is_digit c = true ->
  body_step specs chunk lp c s =
  match xb_state s with
  | ST_LEADSPACE => Some (Continue (lp + 1) (set_start (Some lp) (set_dec 0 (to_state ST_DIGITS s))))
  | ST_WAITDIGITS => Some (Continue (lp + 1) (to_state ST_DIGITS s))
  | ST_DIGITS => Some (Continue (lp + 1) s)
  | _ => body_step specs chunk lp c s
  end.
Proof.
  intros Hd. pose proof (is_digit_range c Hd). destruct (xb_state s) eqn:Es; try done.
  all: unfold body_step; zcases; cbn [orb]; by rewrite Hd, Es.
Qed.

Lemma hex_decode specs b b' l : bytes_ok (b :: b' :: l) ->
  INTEGER__xer_body_decode specs (hex_text (b :: b' :: l)) =
  Some (XPBD_BODY_CONSUMED, Some (of_bytes (b :: b' :: l))).
Proof.
  intros Hok. set (chunk := hex_text (b :: b' :: l)).
  assert (Hlen : Z.of_nat (length chunk) = 3 * Z.of_nat (length (b :: b' :: l)) - 1).
  { unfold chunk. clear. generalize (b' :: l) as r. intros r. revert b.
    induction r as [|c r IH]; intros b; [done|].
    change (hex_text (b :: c :: r)) with (hex_octet b ++ 58 :: hex_text (c :: r)).
    specialize (IH c). rewrite length_app. change (length (hex_octet b)) with 2%nat.
    cbn [length] in IH |- *. lia. }
  assert (Hrun : forall fuel s, hex_wait (xb_state s) -> xb_buf s = [] ->
    (3 * length (b :: b' :: l) <= fuel)%nat ->
    exists s', body_loop specs chunk fuel 0 s = Some (inr s') /\
      xb_state s' = ST_HEXCOLON /\ xb_buf s' = b :: b' :: l).
  { intros fuel s Hs Hb Hf. destruct (hex_run specs chunk (b' :: l) fuel [] b s) as (s' & ? & ? & Hbuf);
      try done; [by rewrite Hb|]. exists s'. split_and!; [done..|]. by rewrite Hbuf, Hb. }
  assert (Hloop : exists s', body_loop specs chunk (body_fuel chunk) 0 body_start = Some (inr s') /\
      xb_state s' = ST_HEXCOLON /\ xb_buf s' = b :: b' :: l).
  { unfold body_fuel. destruct (octet_nibbles b) as (Hh1 & Hh2 & _); [by apply Forall_cons in Hok as []|].
    set (c1 := hex_digit (b ≫ 4)). set (c2 := hex_digit (Z.land b 15)).
    assert (Hch : chunk = c1 :: c2 :: 58 :: hex_text (b' :: l)) by done.
    pose proof (hex_digit_char _ Hh1) as Hc1; pose proof (hex_digit_char _ Hh2) as Hc2.
    fold c1 in Hc1; fold c2 in Hc2. clearbody c1 c2 chunk.
    change 0 with (Z.of_nat (@length Z [])).
    rewrite (body_loop_at _ chunk _ [] _ (c2 :: 58 :: hex_text (b' :: l))) by done.
    cbn [length Z.of_nat]. destruct Hc1 as [Hh|Hh].
    2: { (* a letter: hexadecimal at once *)
      destruct (Hrun (S (S (2 * length chunk))) (to_state ST_SKIPSPHEX body_start)) as (s' & Hl & ?);
        [by right|done|lia|].
      exists s'. split; [|done]. rewrite <- Hl. change 0 with (Z.of_nat (@length Z [])).
      rewrite (body_loop_at _ chunk _ [] _ (c2 :: 58 :: hex_text (b' :: l))) by done.
      cbn [length Z.of_nat]. 
      rewrite (hex_step1 _ _ _ (b ≫ 4) _ (to_state ST_SKIPSPHEX body_start)); [|by constructor|by right].
      unfold body_step. assert (Hd : is_digit (55 + (b ≫ 4)) = false) by (unfold is_digit; apply andb_false_iff; lia).
      rewrite Hd. zcases. cbn [orb andb body_start xb_state]. do 2 f_equal.
      f_equal. f_equal. f_equal. lia. }
    rewrite digit_step by (by apply is_digit_true). cbn [body_start xb_state mbind option_bind].
    change (0 + 1) with (Z.of_nat (length [48 + (b ≫ 4)])).
    set (s1 := set_start _ _).
    rewrite (body_loop_at _ chunk _ [_] c2 (58 :: hex_text (b' :: l))) by done.
    destruct Hc2 as [Hk|Hk].
    - rewrite digit_step by (by apply is_digit_true). cbn [s1 xb_state to_state set_start set_dec mbind option_bind].
      change (Z.of_nat (length [48 + (b ≫ 4)]) + 1) with (Z.of_nat (length [48 + (b ≫ 4); 48 + Z.land b 15])).
      destruct (2 * length chunk)%nat as [|fuel] eqn:Ef; [lia|].
      rewrite (body_loop_at _ chunk _ [_; _] 58 (hex_text (b' :: l))) by done.
      unfold body_step. cbn [Z.eqb Pos.eqb orb is_digit Z.leb Z.compare Pos.compare Pos.compare_cont andb].
      cbn [s1 xb_state to_state set_start set_dec mbind option_bind].
      apply Hrun; [by right|done|lia].
    - assert (Hd : is_digit (55 + Z.land b 15) = false) by (unfold is_digit; apply andb_false_iff; lia).
      unfold body_step. rewrite Hd. zcases. cbn [orb andb s1 xb_state to_state set_start set_dec mbind option_bind].
      apply Hrun; [by right|done|lia]. }
  destruct Hloop as (s' & Hl & Hst & Hbuf). unfold INTEGER__xer_body_decode.
  fold body_start. rewrite Hl. cbn [mbind option_bind]. unfold body_finish. rewrite Hst, Hbuf.
  unfold capacity. destruct (Z.ltb_spec (Z.of_nat (length (b :: b' :: l))) (Z.of_nat (length chunk) / 3 + 1 + 1)) as [|Hge]; [done|].
  rewrite Hlen in Hge. Z.div_mod_to_equations; lia.
Qed.

(** ** Decimal text *)

Lemma digits_nonempty fuel v acc : acc <> [] \/ fuel <> 0%nat -> digits fuel v acc <> [].
Proof.
  revert v acc. induction fuel as [|fuel IH]; intros v acc H; [by destruct H|].
  cbn [digits]. case_match; [done|]. apply IH. by left.
Qed.

Lemma digits_ok fuel v acc : 0 <= v < 10 ^ Z.of_nat fuel ->
  Forall (fun c => is_digit c = true) acc ->
  dec_val (digits fuel v acc) 0 = dec_val acc v /\
  Forall (fun c => is_digit c = true) (digits fuel v acc).
Proof.
  revert v acc. induction fuel as [|fuel IH]; intros v acc Hv Hacc.
  { change (10 ^ Z.of_nat 0) with 1 in Hv. by replace v with 0 by lia. }
  cbn [digits]. rewrite Nat2Z.inj_succ, Z.pow_succ_r in Hv by lia.
  assert (Hd : 0 <= v mod 10 < 10) by (apply Z.mod_pos_bound; lia).
  assert (Hacc' : Forall (fun c => is_digit c = true) ((48 + v mod 10) :: acc))
    by (constructor; [by apply is_digit_true|done]).
  assert (Hval : forall x, dec_val ((48 + v mod 10) :: acc) x = dec_val acc (x * 10 + v mod 10)).
  { intros x. change (dec_val acc (x * 10 + (48 + v mod 10 - 48)) = dec_val acc (x * 10 + v mod 10)).
    f_equal. lia. }
  destruct (Z.eqb_spec (v / 10) 0) as [H0|H0].
  - split; [|done]. rewrite Hval. f_equal. Z.div_mod_to_equations; lia.
  - destruct (IH (v / 10) _ ltac:(Z.div_mod_to_equations; lia) Hacc') as (Hv' & Hall).
    split; [|done]. rewrite Hv', Hval. f_equal. Z.div_mod_to_equations; lia.
Qed.

Lemma digits_span ds : Forall (fun c => is_digit c = true) ds -> span_digits ds = (ds, []).
Proof. induction 1 as [|c ds Hc _ IH]; [done|]. cbn [span_digits]. by rewrite Hc, IH. Qed.

(** The sign and the digits a number is printed as. *)
Lemma decimal_ok v : is_long v -> exists pre ds, decimal v = pre ++ ds /\ ds <> [] /\
  Forall (fun c => is_digit c = true) ds /\
  ((pre = [] /\ 0 <= v /\ dec_val ds 0 = v) \/ (pre = [45] /\ v < 0 /\ dec_val ds 0 = - v)).
Proof.
  intros Hv. assert (Hb : Z.abs v < 10 ^ Z.of_nat 20)
    by (change (10 ^ Z.of_nat 20) with 100000000000000000000; long_bounds; lia).
  unfold decimal. destruct (Z.ltb_spec v 0).
  - exists [45], (digits 20 (- v) []). destruct (digits_ok 20 (- v) []) as [Hd Hall]; [lia|done|].
    split_and!; [done|apply digits_nonempty; by right|done|]. right. by rewrite Hd.
  - exists [], (digits 20 v []). destruct (digits_ok 20 v []) as [Hd Hall]; [lia|done|].
    split_and!; [done|apply digits_nonempty; by right|done|]. left. by rewrite Hd.
Qed.

Lemma decimal_strto v : is_long v -> exists p, asn_strtoimax_lim (decimal v) = Some (ASN_STRTOX_OK, p, Some v).
Proof.
  intros Hv. destruct (decimal_ok v Hv) as (pre & ds & -> & Hne & Hall & Hcase).
  set (sg := if v <? 0 then -1 else 1).
  destruct (strtoimax_lim_ok pre ds sg Hne) as (r & -> & Hs).
  - unfold signed_text, sg. destruct Hcase as [(-> & ? & _)|(-> & ? & _)].
    + left. zcase. split_and!; [done|done|]. intros c r' ->. apply Forall_cons in Hall as [Hc _].
      apply is_digit_range in Hc. lia.
    + right; right. by zcase.
  - rewrite digits_span in Hs by done. cbn [fst snd] in Hs. unfold strtox_spec in Hs.
    assert (Hval : sg * dec_val ds 0 = v) by (unfold sg; destruct Hcase as [(_ & ? & ->)|(_ & ? & ->)]; zcase; lia).
    rewrite Hval in Hs. unfold is_long in Hv. destruct (Z.leb_spec LONG_MIN v), (Z.leb_spec v LONG_MAX); try lia.
    cbn [andb] in Hs. by eexists; rewrite Hs.
Qed.

(** Digits up to the end leave the reader in ST_DIGITS. *)
Lemma digits_run specs chunk ds : forall fuel pre s, Forall (fun c => is_digit c = true) ds ->
  chunk = pre ++ ds -> xb_state s = ST_DIGITS -> (length ds < fuel)%nat ->
  body_loop specs chunk fuel (Z.of_nat (length pre)) s = Some (inr s).
Proof.
  induction ds as [|c ds IH]; intros fuel pre s Hall Hc Hs Hf; (destruct fuel as [|fuel]; [lia|]).
  - rewrite app_nil_r in Hc. subst pre. cbn [body_loop]. by zcase.
  - apply Forall_cons in Hall as [Hd Hall].
    rewrite (body_loop_at _ _ _ pre c ds), digit_step, Hs by done. cbn [mbind option_bind].
    replace (Z.of_nat (length pre) + 1) with (Z.of_nat (length (pre ++ [c])))
      by (rewrite length_app; cbn; lia).
    apply IH; [done|by rewrite <- app_assoc|done|cbn in Hf; lia].
Qed.

Lemma decimal_decode specs v : is_long v ->
  INTEGER__xer_body_decode specs (decimal v) = Some (XPBD_BODY_CONSUMED, Some (asn_imax2INTEGER v)).
Proof.
  intros Hv. destruct (decimal_strto v Hv) as (p & Hstrto).
  destruct (decimal_ok v Hv) as (pre & ds & Hch & Hne & Hall & Hcase).
  assert (Hloop : exists s, body_loop specs (decimal v) (body_fuel (decimal v)) 0 body_start = Some (inr s) /\
    xb_state s = ST_DIGITS /\ dec_value_start s = Some 0).
  { destruct ds as [|c ds]; [done|]. apply Forall_cons in Hall as [Hd Hall].
    assert (Hlen : length (decimal v) = (length pre + S (length ds))%nat) by (by rewrite Hch, length_app).
    unfold body_fuel. change 0 with (Z.of_nat (@length Z [])) at 1.
    destruct Hcase as [(-> & _)|(-> & _)]; cbn [app length] in Hch, Hlen.
    - rewrite (body_loop_at _ _ _ [] c ds), digit_step by done. cbn [body_start xb_state mbind option_bind].
      change (Z.of_nat (length []) + 1) with (Z.of_nat (length [c])).
      rewrite (digits_run _ _ ds) by (done || lia). by eexists.
    - rewrite (body_loop_at _ _ _ [] 45 (c :: ds)) by done.
      unfold body_step at 1. cbn [Z.eqb Pos.eqb orb body_start xb_state mbind option_bind].
      change (Z.of_nat (length []) + 1) with (Z.of_nat (length [45])).
      rewrite (body_loop_at _ _ _ [45] c ds), digit_step by done.
      cbn [xb_state set_start set_dec to_state mbind option_bind].
      change (Z.of_nat (length [45]) + 1) with (Z.of_nat (length [45; c])).
      rewrite (digits_run _ _ ds) by (done || lia). by eexists. }
  destruct Hloop as (s & Hl & Hst & Hstart). unfold INTEGER__xer_body_decode. fold body_start.
  rewrite Hl. cbn [mbind option_bind]. unfold body_finish. rewrite Hst.
  unfold finish_decimal. cbn [set_end dec_value_start dec_value_end]. rewrite Hstart. cbn [mbind option_bind].
  rewrite Z.sub_0_r, Nat2Z.id, drop_0, take_ge by lia. rewrite Hstrto. cbn [mbind option_bind].
  unfold is_long in Hv. destruct (Z.leb_spec LONG_MIN v), (Z.leb_spec v LONG_MAX); try lia. done.
Qed.

(** ** Printed text *)

(** Octets in hexadecimal, each followed by a colon. *)
Fixpoint colon_text (l : list Z) : list Z :=
  match l with
  | [] => []
  | b :: l => hex_octet b ++ 58 :: colon_text l
  end.

Lemma colon_hex_text l : l <> [] -> colon_text l = hex_text l ++ [58].
Proof.
  induction l as [|b l IH]; [done|]. intros _. destruct l as [|c l]; [done|].
  change (hex_text (b :: c :: l)) with (hex_octet b ++ 58 :: hex_text (c :: l)).
  change (colon_text (b :: c :: l)) with (hex_octet b ++ 58 :: colon_text (c :: l)).
  rewrite IH by done. by rewrite <- app_assoc.
Qed.

Lemma dump_hex_ok {K} `{HC : Consumer K} `{HA : !AppendConsumer K} l : forall scratch wrote (key : K), scratch ++ colon_text l <> [] ->
  exists key', dump_hex l scratch wrote key = (wrote + Z.of_nat (length (scratch ++ colon_text l)) - 1, key') /\
    written key' = written key ++ take (length (scratch ++ colon_text l) - 1) (scratch ++ colon_text l).
Proof.
  induction l as [|b l IH]; intros scratch wrote key Hne.
  - cbn [colon_text dump_hex] in *. rewrite app_nil_r in *.
    destruct (consume_append (take (length scratch - 1) scratch) key) as (k & -> & Hk). cbn. rewrite length_take.
    assert (0 < length scratch)%nat by (destruct scratch; cbn; lia || done). exists k. split; [f_equal; lia|done].
  - cbn [dump_hex colon_text].
    change (hex_octet b ++ 58 :: colon_text l)
      with ([hex_digit (b ≫ 4); hex_digit (Z.land b 15); 58] ++ colon_text l).
    destruct (28 <=? _).
    + destruct (consume_append scratch key) as (k & -> & Hk). cbn [Z.ltb Z.compare].
      set (octet := [hex_digit (b ≫ 4); hex_digit (Z.land b 15); 58]).
      destruct (IH octet (wrote + Z.of_nat (length scratch)) k) as (k' & -> & Hk'); [done|]. exists k'.
      set (X := octet ++ colon_text l) in *.
      assert (3 <= length X)%nat by (unfold X, octet; rewrite length_app; cbn [length]; lia).
      rewrite (length_app scratch). split; [f_equal; lia|]. rewrite Hk', Hk, <- app_assoc, take_app_ge by lia. do 3 f_equal. lia.
    + destruct (IH (scratch ++ [hex_digit (b ≫ 4); hex_digit (Z.land b 15); 58]) wrote key) as (k & -> & Hk); [by destruct scratch|].
      exists k. by rewrite <- app_assoc in *.
Qed.

(** The tags of a map: names of letters, in strict order in [enum2value],
    which lists every element. *)
Definition tags_ok (specs : asn_INTEGER_specifics_t) : Prop :=
  (forall el, el ∈ value2enum specs -> is_long (nat_value el) /\
     Forall (fun c => ends_name c = false /\ 0 < c) (chars (enum_name el))) /\
  (forall i j a b ea eb, (i < j)%nat ->
     enum2value specs !! i = Some a -> enum2value specs !! j = Some b ->
     at_index (value2enum specs) a = Some ea -> at_index (value2enum specs) b = Some eb ->
     compar_chars (chars (enum_name ea)) (chars (enum_name eb)) < 0 /\
     0 < compar_chars (chars (enum_name eb)) (chars (enum_name ea))) /\
  (forall k, 0 <= k < map_count specs -> k ∈ enum2value specs).

Lemma tag_name_ok key : Forall (fun c => ends_name c = false /\ 0 < c) key ->
  tag_name (key ++ [47; 62]) = Some key.
Proof. induction 1 as [|c key [Hc _] _ IH]; [done|]. cbn [tag_name app]. by rewrite Hc, IH. Qed.

Lemma compar_chars_refl key : compar_chars key key = 0.
Proof. induction key as [|c key IH]; [done|]. cbn. by rewrite Z.eqb_refl. Qed.

Lemma enum2value_ok specs el : maps_ok (Some specs) -> tags_ok specs -> el ∈ value2enum specs ->
  INTEGER_map_enum2value (Some specs) ([60] ++ chars (enum_name el) ++ [47; 62]) = Some (Some el).
Proof.
  intros [Hlen Hall] (Hnames & Hsorted & Hcomplete) Hel. unfold INTEGER_map_enum2value.
  apply list_elem_of_lookup in Hel as Hk. destruct Hk as [k Hk].
  pose proof (lookup_lt_Some _ _ _ Hk) as Hklt.
  destruct (Z.eqb_spec (map_count specs) 0) as [H0|_]; [unfold map_count in H0; lia|].
  cbn [app]. rewrite skipn_cons, drop_0, tag_name_ok by apply (Hnames el Hel).
  assert (Hat : forall A (base : list A) m e, base !! m = Some e -> at_index base (Z.of_nat m) = Some e).
  { intros A base m e He. unfold at_index. destruct (Z.ltb_spec (Z.of_nat m) 0); [lia|]. by rewrite Nat2Z.id. }
  destruct (proj1 (list_elem_of_lookup _ _) (Hcomplete (Z.of_nat k) ltac:(unfold map_count; lia))) as [j Hj].
  pose proof (lookup_lt_Some _ _ _ Hj) as Hjlt.
  unfold bsearch. rewrite (bsearch_loop_ok _ (Z.of_nat j)); [|lia|unfold map_count; lia|lia|].
  - cbn [mbind option_bind]. rewrite (Hat _ _ j _ Hj). cbn [mbind option_bind]. by rewrite (Hat _ _ k el).
  - intros i Hi. destruct (at_index_Some (enum2value specs) i) as (a & Ha & Hla); [unfold map_count in Hi; lia|].
    pose proof (Forall_lookup_1 _ _ _ _ Hall Hla) as Hab. cbn in Hab.
    destruct (at_index_Some (value2enum specs) a) as (ea & Hea & _); [exact Hab|].
    unfold INTEGER__compar_enum2value. rewrite Ha. cbn [mbind option_bind]. rewrite Hea. cbn [mbind option_bind].
    eexists. split; [done|]. pose proof (Hat _ _ k el Hk) as Hel'. split_and!; intros Hij.
    + by apply (Hsorted (Z.to_nat i) j a (Z.of_nat k) ea el); [lia|..].
    + subst i. rewrite Nat2Z.id in Hla. assert (a = Z.of_nat k) as -> by congruence.
      rewrite Hel' in Hea. injection Hea as <-. apply compar_chars_refl.
    + by apply (Hsorted j (Z.to_nat i) (Z.of_nat k) a el ea); [lia|..].
Qed.

Lemma enum_decode specs el : maps_ok (Some specs) -> tags_ok specs -> el ∈ value2enum specs ->
  INTEGER__xer_body_decode (Some specs) ([60] ++ chars (enum_name el) ++ [47; 62]) =
  Some (XPBD_BODY_CONSUMED, Some (asn_imax2INTEGER (nat_value el))).
Proof.
  intros Hm Ht Hel. unfold INTEGER__xer_body_decode, body_fuel. fold body_start.
  set (chunk := [60] ++ chars (enum_name el) ++ [47; 62]).
  change 0 with (Z.of_nat (@length Z [])).
  rewrite (body_loop_at _ _ _ [] 60 (chars (enum_name el) ++ [47; 62])) by done.
  unfold body_step. cbn [Z.eqb Pos.eqb orb is_digit Z.leb Z.compare Pos.compare Pos.compare_cont andb body_start xb_state].
  pose proof (enum2value_ok specs el Hm Ht Hel) as He. fold chunk in He. rewrite He.
  cbn [mbind option_bind body_loop]. by zcase.
Qed.

Lemma bsearch_zero compar fuel l u i : bsearch_loop fuel compar l u = Some (Some i) -> compar i = Some 0.
Proof.
  revert l u. induction fuel as [|fuel IH]; intros l u; [done|]. cbn [bsearch_loop].
  destruct (u <=? l); [done|]. destruct (compar ((l + u) / 2)) as [c|] eqn:Ec; [|done].
  cbn [mbind option_bind]. zcases; try apply IH. intros [= <-]. rewrite Ec. f_equal. lia.
Qed.

Lemma value2enum_found specs v : exists r, INTEGER_map_value2enum specs v = Some r /\
  match r with
  | Some el => exists sp, specs = Some sp /\ el ∈ value2enum sp /\ nat_value el = v
  | None => True
  end.
Proof.
  unfold INTEGER_map_value2enum. destruct specs as [sp|]; [|by eexists].
  destruct (_ =? 0); [by eexists|]. unfold search_value, bsearch.
  set (compar := fun i => INTEGER__compar_value2enum v <$> at_index (value2enum sp) i).
  destruct (bsearch_total compar (S (Z.to_nat (map_count sp))) 0 (map_count sp)) as (r & Hr & Hb); [lia|lia| |].
  { intros j Hj. unfold compar. destruct (at_index_Some (value2enum sp) j) as (e & -> & _); [exact Hj|]. by eexists. }
  rewrite Hr. cbn [mbind option_bind]. destruct r as [i|]; [|by eexists].
  apply bsearch_zero in Hr. unfold compar in Hr.
  destruct (at_index_Some (value2enum sp) i) as (e & He & Hl); [exact Hb|]. rewrite He in Hr |- *.
  cbn [fmap option_fmap option_map] in Hr. injection Hr as Hr. cbn [mbind option_bind].
  eexists. split; [done|]. exists sp. split_and!; [done|by eapply list_elem_of_lookup_2|].
  destruct (compar_value2enum_ok v e) as (H1 & _ & H3). lia.
Qed.

(** An INTEGER type whose maps are as the compiler emits them. *)
Definition integer_type_ok (specs : option asn_INTEGER_specifics_t) : Prop :=
  is_unsigned specs = false /\ maps_ok specs /\
  match specs with Some sp => tags_ok sp | None => True end.

Definition is_strict (specs : option asn_INTEGER_specifics_t) : bool :=
  match specs with Some specs => strict_enumeration specs | None => false end.

(** ** Properties *)

(** Text is a faithful external form of an INTEGER of any length: what
    [INTEGER_encode_xer] prints (the identifier of the value, a decimal
    number, or colon-separated octets when it exceeds a [long]) is consumed
    whole by [INTEGER__xer_body_decode] and yields an INTEGER of the same
    value; only a strict enumeration refuses to print a value, one it does
    not name. *)
Theorem integer_xer_roundtrip (specs : option asn_INTEGER_specifics_t) (l : list Z) :
  integer_type_ok specs -> bytes_ok l -> l <> [] ->
  (is_strict specs = true /\
   INTEGER_encode_xer specs (Some (of_bytes l)) {| bb_bytes := [] |} = Some (-1, {| bb_bytes := [] |})) \/
  exists text st', INTEGER_encode_xer specs (Some (of_bytes l)) {| bb_bytes := [] |} =
      Some (Z.of_nat (length text), {| bb_bytes := text |}) /\
    INTEGER__xer_body_decode specs text = Some (XPBD_BODY_CONSUMED, Some st') /\
    int_val (i_bytes st') = int_val l.
Proof.
  intros (Huns & Hmaps & Htags) Hok Hne. unfold INTEGER_encode_xer, INTEGER__dump. cbn [of_bytes].
  fold (of_bytes l). fold (is_strict specs). rewrite Huns, INTEGER2imax_ok by done. cbn [mbind option_bind].
  assert (Hret : forall text, (exists st', INTEGER__xer_body_decode specs text = Some (XPBD_BODY_CONSUMED, Some st') /\
      int_val (i_bytes st') = int_val l) ->
    exists text' st', ('(encoded, key) ← Some (asn__format_to_callback text {| bb_bytes := [] |});
      Some (if encoded <? 0 then -1 else encoded, key)) = Some (Z.of_nat (length text'), {| bb_bytes := text' |}) /\
    INTEGER__xer_body_decode specs text' = Some (XPBD_BODY_CONSUMED, Some st') /\
    int_val (i_bytes st') = int_val l).
  { intros text (st' & Hdec & Hval). exists text, st'. split_and!; [|done|done]. cbn. by zcase. }
  destruct ((LONG_MIN <=? int_val l) && (int_val l <=? LONG_MAX)) eqn:Efit; cbn [mbind option_bind].
  - apply andb_true_iff in Efit as [H1%Z.leb_le H2%Z.leb_le].
    assert (Hlong : is_long (int_val l)) by done.
    rewrite s64_small by (long_bounds; lia). rewrite orb_true_r.
    destruct (value2enum_found specs (int_val l)) as ([el|] & -> & Hel); cbn [mbind option_bind].
    + right. apply Hret. destruct Hel as (sp & -> & Hin & Hval). exists (asn_imax2INTEGER (nat_value el)).
      split; [by apply enum_decode|]. rewrite Hval.
      destruct (imax2INTEGER_ok (int_val l) Hlong) as (l' & -> & _ & _ & _ & _ & ?). done.
    + destruct (is_strict specs); cbn [andb]; [by left|]. right. apply Hret.
      exists (asn_imax2INTEGER (int_val l)). split; [by apply decimal_decode|].
      destruct (imax2INTEGER_ok (int_val l) Hlong) as (l' & -> & _ & _ & _ & _ & ?). done.
  - destruct (is_strict specs); cbn [andb]; [by left|]. right.
    change (i_bytes (of_bytes l)) with l.
    destruct (dump_hex_ok l [] 0 {| bb_bytes := [] |}) as ([text] & -> & Htext); [by rewrite colon_hex_text by done; destruct (hex_text l)|].
    cbn [app mbind option_bind written write_buffer_append bb_bytes] in Htext |- *. subst text.
    rewrite colon_hex_text, length_app, Nat.add_sub, take_app_le, take_ge by done. cbn [length].
    exists (hex_text l), (of_bytes l).
    assert (Hlen : exists b b' r, l = b :: b' :: r).
    { destruct l as [|b [|b' r]]; [done| |by eauto]. pose proof (int_val_bound [b] Hok Hne) as Hb.
      cbn [length] in Hb. change (2 ^ (8 * Z.of_nat 1 - 1)) with 128 in Hb. apply andb_false_iff in Efit.
      exfalso. long_bounds. destruct Efit as [H%Z.leb_gt|H%Z.leb_gt]; lia. }
    destruct Hlen as (b & b' & r & ->). split_and!; [|by apply hex_decode|done].
    zcase. do 2 f_equal. lia.
Qed.

Lemma sample_enum_ok : integer_type_ok (Some sample_enum).
Proof.
  split; [reflexivity|]. split; [|split; [|split]].
  - split; [reflexivity|]. unfold map_count. cbn. repeat constructor; lia.
  - intros el Hel. unfold sample_enum in Hel. cbn in Hel. rewrite !elem_of_cons in Hel.
    destruct Hel as [-> | [-> | [-> | [-> | Hel]]]]; [..|by apply not_elem_of_nil in Hel];
      (split; [long_bounds; cbn; lia|]); vm_compute; repeat constructor.
  - intros i j a b ea eb Hij Ha Hb Hea Heb.
    destruct i as [|[|[|[|i]]]], j as [|[|[|[|j]]]]; try lia; try discriminate Ha; try discriminate Hb.
    all: injection Ha as <-; injection Hb as <-; vm_compute in Hea; vm_compute in Heb.
    all: injection Hea as <-; injection Heb as <-; split; reflexivity.
  - intros k Hk. unfold map_count in Hk. cbn in Hk.
    assert (k = 0 \/ k = 1 \/ k = 2 \/ k = 3) as [-> | [-> | [-> | ->]]] by lia; cbn; set_solver.
Qed.

Lemma integer_xer_roundtrip_witness :
  (is_strict (Some sample_enum) = true /\
   INTEGER_encode_xer (Some sample_enum) (Some (of_bytes [7])) {| bb_bytes := [] |} =
     Some (-1, {| bb_bytes := [] |})) \/
  exists text st', INTEGER_encode_xer (Some sample_enum) (Some (of_bytes [7])) {| bb_bytes := [] |} =
      Some (Z.of_nat (length text), {| bb_bytes := text |}) /\
    INTEGER__xer_body_decode (Some sample_enum) text = Some (XPBD_BODY_CONSUMED, Some st') /\
    int_val (i_bytes st') = int_val [7].
Proof.
  apply integer_xer_roundtrip; [exact sample_enum_ok| |discriminate].
  apply bytes_ok_cons; [unfold byte_ok; lia|apply bytes_ok_nil].
Defined.

(** Whatever text arrives, the reader comes to a verdict in at most two scans
    of it, without storing outside the buffer it allocated for a third of the
    text's length, and without using a number whose start it has not seen. *)
Theorem integer_xer_decode_safe (specs : option asn_INTEGER_specifics_t) (chunk : list Z) :
  maps_ok specs -> is_Some (INTEGER__xer_body_decode specs chunk).
Proof. apply xer_body_decode_total. Qed.

Lemma integer_xer_decode_safe_witness :
  is_Some (INTEGER__xer_body_decode (Some sample_enum) (chars "12:ab:3C  ")).
Proof. apply integer_xer_decode_safe. split; [reflexivity|]. unfold map_count. cbn. repeat constructor; lia. Defined.
