(* ===== verification/Xer.v ===== *)
(** * XML tokens, elements and texts (support/xer_support.c, xer_decoder.c,
    xer_encoder.c, asn_internal.h)

    The tokenizer is a state machine that hands chunks to a callback; an XER
    decoder takes one token at a time from it and keeps its state between
    calls.  Characters are their codes, names are lists of them without the
    terminating zero.  The class [XerType] is what a type contributes, its
    laws what the decoders of elements and of constructed types rely on. *)
From S2P Require Import Prelude Consumer PerCodec.
#[local] Open Scope Z_scope.

(** ** Tokens *)

(** pxml_chunk_type_e and pstate_e. *)
Inductive pxml_chunk_type := PXML_TEXT | PXML_TAG | PXML_COMMENT | PXML_TAG_END | PXML_COMMENT_END.

Inductive pstate :=
  | ST_TEXT | ST_TAG_START | ST_TAG_BODY | ST_TAG_QUOTE_WAIT | ST_TAG_QUOTED_STRING | ST_TAG_UNQUOTED_STRING
  | ST_COMMENT_WAIT_DASH1 | ST_COMMENT_WAIT_DASH2 | ST_COMMENT | ST_COMMENT_CLO_DASH2 | ST_COMMENT_CLO_RT.

(** [_charclass]: 1 for whitespace, 2 for digits, 3 for letters. *)
Definition charclass (c : Z) : Z :=
  if (c =? 9) || (c =? 10) || (c =? 12) || (c =? 13) || (c =? 32) then 1
  else if (48 <=? c) && (c <=? 57) then 2
  else if ((65 <=? c) && (c <=? 90)) || ((97 <=? c) && (c <=? 122)) then 3 else 0.
Definition WHITESPACE (c : Z) : bool := charclass c =? 1.
Definition ALPHA (c : Z) : bool := charclass c =? 3.

(** What a character asks for: the state is changed, or the chunk so far, with
    the character or without it, is a token behind which the state is [ns]. *)
Inductive pxml_action := Enter (ns : pstate) | Token (type : pxml_chunk_type) (ns : pstate) (current_too : bool).

Definition pxml_step (state : pstate) (C : Z) : pxml_action :=
  match state with
  | ST_TEXT => if C =? 60 then Token PXML_TEXT ST_TAG_START false else Enter ST_TEXT
  | ST_TAG_START =>
    if ALPHA C || (C =? 47) then Enter ST_TAG_BODY
    else if C =? 33 then Enter ST_COMMENT_WAIT_DASH1
    else Token PXML_TEXT ST_TEXT true
  | ST_TAG_BODY =>
    if C =? 62 then Token PXML_TAG_END ST_TEXT true
    else if C =? 60 then Token PXML_TAG_END ST_TAG_START false
    else if C =? 61 then Enter ST_TAG_QUOTE_WAIT else Enter ST_TAG_BODY
  | ST_TAG_QUOTE_WAIT =>
    if C =? 34 then Enter ST_TAG_QUOTED_STRING
    else if C =? 62 then Token PXML_TAG_END ST_TEXT true
    else if negb (WHITESPACE C) then Enter ST_TAG_UNQUOTED_STRING else Enter ST_TAG_QUOTE_WAIT
  | ST_TAG_QUOTED_STRING => if C =? 34 then Enter ST_TAG_BODY else Enter ST_TAG_QUOTED_STRING
  | ST_TAG_UNQUOTED_STRING =>
    if C =? 62 then Token PXML_TAG_END ST_TEXT true
    else if WHITESPACE C then Enter ST_TAG_BODY else Enter ST_TAG_UNQUOTED_STRING
  | ST_COMMENT_WAIT_DASH1 => if C =? 45 then Enter ST_COMMENT_WAIT_DASH2 else Enter ST_TAG_BODY
  | ST_COMMENT_WAIT_DASH2 => if C =? 45 then Enter ST_COMMENT else Enter ST_TAG_BODY
  | ST_COMMENT => if C =? 45 then Enter ST_COMMENT_CLO_DASH2 else Enter ST_COMMENT
  | ST_COMMENT_CLO_DASH2 => if C =? 45 then Enter ST_COMMENT_CLO_RT else Enter ST_COMMENT
  | ST_COMMENT_CLO_RT =>
    if C =? 62 then Token PXML_COMMENT_END ST_TEXT true
    else if C =? 45 then Enter ST_COMMENT_CLO_RT else Enter ST_COMMENT
  end.

Section Parser.
(** The callback gets the type, the place of the chunk in the buffer and its
    characters. *)
Context {K : Type} (cb : pxml_chunk_type -> Z -> list Z -> K -> Z * K).

(** The state, [chunk_start] and the characters from there to [p]. *)
Record pxml := { px_state : pstate; px_start : Z; px_chunk : list Z }.

(** TOKEN_CB_CALL; the answer is false where it goes to [finish]. *)
Definition TOKEN_CB (type : pxml_chunk_type) (ns : pstate) (current : option Z) (x : pxml) (key : K) : bool * pxml * K :=
  let chunk := px_chunk x ++ match current with Some c => [c] | None => [] end in
  let sz := Z.of_nat (length chunk) in
  if sz =? 0 then (true, {| px_state := ns; px_start := px_start x; px_chunk := px_chunk x |}, key) else
  let '(ret, key) := cb type (px_start x) chunk key in
  if ret <? sz
  then (false, {| px_state := if bool_decide (is_Some current) && (ret =? -1) then ns else px_state x;
                  px_start := px_start x; px_chunk := px_chunk x |}, key)
  else (true, {| px_state := ns; px_start := px_start x + sz; px_chunk := [] |}, key).

Definition with_chunk (chunk : list Z) (x : pxml) : pxml :=
  {| px_state := px_state x; px_start := px_start x; px_chunk := chunk |}.

Fixpoint pxml_loop (l : list Z) (x : pxml) (key : K) : bool * pxml * K :=
  match l with
  | [] => (true, x, key)
  | C :: l =>
    match pxml_step (px_state x) C with
    | Enter ns => pxml_loop l {| px_state := ns; px_start := px_start x; px_chunk := px_chunk x ++ [C] |} key
    | Token type ns current_too =>
      let '(go, x, key) := TOKEN_CB type ns (if current_too then Some C else None) x key in
      if go : bool then pxml_loop l (if current_too then x else with_chunk (px_chunk x ++ [C]) x) key
      else (false, x, key)
    end
  end.

(** The answer, the number of characters consumed, and the state. *)
Definition pxml_parse (stateContext : pstate) (xmlbuf : list Z) (key : K) : Z * pstate * K :=
  let '(go, x, key) := pxml_loop xmlbuf {| px_state := stateContext; px_start := 0; px_chunk := [] |} key in
  let '(x, key) :=
    (if (go : bool) && negb (bool_decide (px_chunk x = [])) then
       match px_state x with
       | ST_COMMENT => let '(_, x, key) := TOKEN_CB PXML_COMMENT (px_state x) None x key in (x, key)
       | ST_TEXT => let '(_, x, key) := TOKEN_CB PXML_TEXT (px_state x) None x key in (x, key)
       | _ => (x, key)
       end
     else (x, key)) in
  (px_start x, px_state x, key).
End Parser.

(** ** xer_decoder.c *)

Inductive pxer_chunk_type := PXER_WMORE | PXER_TAG | PXER_TEXT | PXER_COMMENT.

(** The first chunk ends the parsing. *)
Definition xer__token_cb (type : pxml_chunk_type) (start : Z) (chunk : list Z)
    (_ : option (pxml_chunk_type * Z * list Z)) : Z * option (pxml_chunk_type * Z * list Z) :=
  (-1, Some (type, start, chunk)).

(** The size of the token, its kind and the new state. *)
Definition xer_next_token (stateContext : pstate) (buffer : list Z) : option (Z * pxer_chunk_type * pstate) :=
  let '(ret, new_stateContext, arg) := pxml_parse xer__token_cb stateContext buffer None in
  match arg with
  | None => if negb (ret =? 0) then None else Some (0, PXER_WMORE, stateContext)
  | Some (type, start, chunk) =>
    let size := Z.of_nat (length chunk) in
    if (size =? 0) || negb (start =? 0) then None else
    match type with
    | PXML_TEXT => Some (size, PXER_TEXT, new_stateContext)
    | PXML_TAG => Some (0, PXER_WMORE, stateContext)
    | PXML_TAG_END => Some (size, PXER_TAG, new_stateContext)
    | PXML_COMMENT | PXML_COMMENT_END => Some (size, PXER_COMMENT, new_stateContext)
    end
  end.

(** xer_check_tag_e: the form of a tag, and whether its name was expected. *)
Inductive tag_form := OPENING | CLOSING | BOTH.
Inductive xer_check_tag_e := XCT_BROKEN | XCT (expected : bool) (form : tag_form).

#[export] Instance tag_form_eq_dec : EqDecision tag_form.
Proof. solve_decision. Defined.

(** The tag name: whitespace behind it begins attributes. *)
Fixpoint check_name (buf need_tag : list Z) (ct : tag_form) : xer_check_tag_e :=
  match buf with
  | [] => XCT (bool_decide (need_tag = [])) ct
  | b :: buf =>
    let n := default 0 (head need_tag) in
    if negb (b =? n) then XCT ((n =? 0) && WHITESPACE b) ct
    else if b =? 0 then XCT_BROKEN
    else check_name buf (tail need_tag) ct
  end.

Definition xer_check_tag (buf : list Z) (need_tag : option (list Z)) : xer_check_tag_e :=
  let size := Z.of_nat (length buf) in
  if (size <? 2) || negb (bool_decide (head buf = Some 60)) || negb (bool_decide (last buf = Some 62)) then XCT_BROKEN else
  let ends_in_slash buf := bool_decide (last buf = Some 47) in
  let '(broken, name, ct) :=
    (if bool_decide (head (tail buf) = Some 47)
     then let name := take (Z.to_nat (size - 3)) (drop 2 buf) in (ends_in_slash name, name, CLOSING)
     else let name := take (Z.to_nat (size - 2)) (drop 1 buf) in
          if ends_in_slash name then (false, removelast name, BOTH) else (false, name, OPENING)) in
  if broken : bool then XCT_BROKEN else
  match need_tag with
  | None | Some [] => XCT false ct
  | Some need_tag => check_name name need_tag ct
  end.

Fixpoint xer_whitespace_span (chunk_buf : list Z) : Z :=
  match chunk_buf with
  | c :: chunk_buf => if (c =? 9) || (c =? 10) || (c =? 13) || (c =? 32) then 1 + xer_whitespace_span chunk_buf else 0
  | [] => 0
  end.

(** The answer and the new depth. *)
Definition xer_skip_unknown (tcv : xer_check_tag_e) (depth : Z) : option (Z * Z) :=
  if depth <=? 0 then None else
  match tcv with
  | XCT _ BOTH => Some (0, depth)
  | XCT _ OPENING => Some (0, depth + 1)
  | XCT expected CLOSING => Some (if depth - 1 =? 0 then if expected then 2 else 1 else 0, depth - 1)
  | XCT_BROKEN => Some (-1, depth)
  end.

(** *** Primitive values *)

(** The part of the context the element decoders use. *)
Record xer_ctx := { xc_phase : Z; xc_context : pstate }.
Definition fresh_xer : xer_ctx := {| xc_phase := 0; xc_context := ST_TEXT |}.
Definition to_phase (phase : Z) (c : xer_ctx) : xer_ctx := {| xc_phase := phase; xc_context := xc_context c |}.

Section General.
(** The receivers: the tag decoder when there is one, and that of the body,
    told whether more follows.  They are [None] where C is undefined. *)
Context {K : Type} (opt_unexpected_tag_decoder : option (list Z -> K -> option (Z * K)))
  (body_receiver : list Z -> bool -> K -> option (Z * K)) (xml_tag : list Z).

(** The loop of xer_decode_general.  A receiver that takes nothing of a text
    others follow would hold it up for ever. *)
Fixpoint xer_decode_general (fuel : nat) (ctx : xer_ctx) (struct_key : K) (buf_ptr : list Z) (consumed_myself : Z) :
    option (asn_dec_rval_code * Z * xer_ctx * K) :=
  match fuel with
  | O => None
  | S fuel =>
    let ret code ctx key := Some (code, consumed_myself, ctx, key) in
    let size := Z.of_nat (length buf_ptr) in
    if 1 <? xc_phase ctx then ret RC_FAIL ctx struct_key else
    '(ch_size, ch_type, context) ← xer_next_token (xc_context ctx) buf_ptr;
    let ctx := {| xc_phase := xc_phase ctx; xc_context := context |} in
    let chunk := take (Z.to_nat ch_size) buf_ptr in
    let go n ctx key := xer_decode_general fuel ctx key (drop (Z.to_nat n) buf_ptr) (consumed_myself + n) in
    let phase_out key := Some (RC_OK, consumed_myself + ch_size, to_phase 2 ctx, key) in
    if ch_size =? -1 then ret RC_FAIL ctx struct_key else
    match ch_type with
    | PXER_WMORE => ret RC_WMORE ctx struct_key
    | PXER_COMMENT => go ch_size ctx struct_key
    | PXER_TEXT =>
      if xc_phase ctx =? 0 then go ch_size ctx struct_key else
      '(converted_size, key) ← body_receiver chunk (ch_size <? size) struct_key;
      if converted_size =? -1 then ret RC_FAIL ctx key
      else if (converted_size =? 0) && (size =? ch_size) then ret RC_WMORE ctx key
      else go converted_size ctx key
    | PXER_TAG =>
      match xer_check_tag chunk (Some xml_tag) with
      | XCT true BOTH =>
        if negb (xc_phase ctx =? 0) then ret RC_FAIL ctx struct_key else
        '(converted_size, key) ← body_receiver [] (0 <? size) struct_key;
        if converted_size =? -1 then ret RC_FAIL ctx key else phase_out key
      | XCT true OPENING =>
        if negb (xc_phase ctx =? 0) then ret RC_FAIL ctx struct_key else go ch_size (to_phase 1 ctx) struct_key
      | XCT true CLOSING =>
        if xc_phase ctx =? 0 then ret RC_FAIL ctx struct_key else phase_out struct_key
      | XCT false BOTH =>
        match opt_unexpected_tag_decoder with
        | None => ret RC_FAIL ctx struct_key
        | Some decoder =>
          '(rc, key) ← decoder chunk struct_key;
          if rc <? 0 then ret RC_FAIL ctx key
          else if xc_phase ctx =? 0 then phase_out key else go ch_size ctx key
        end
      | _ => ret RC_FAIL ctx struct_key
      end
    end
  end.
End General.

(** A token has a character at least. *)
Definition general_fuel (buf : list Z) : nat := S (length buf).

(** ** Output (asn_internal.h) *)

Section Output.
Context {S : Type} `{Consumer S}.

(** Something written: the octets counted, or -1. *)
Definition emitter : Type := S -> option (Z * S).

(** The callback is called for each piece until it fails. *)
Fixpoint call_each (pieces : list (list Z)) (key : S) : bool * S :=
  match pieces with
  | [] => (true, key)
  | p :: pieces => let '(rc, key) := consume p key in if rc <? 0 then (false, key) else call_each pieces key
  end.

(** ASN__CALLBACK, ASN__CALLBACK2, ASN__CALLBACK3. *)
Definition callback (pieces : list (list Z)) : emitter := fun key =>
  let '(ok, key) := call_each pieces key in
  Some (if ok : bool then Z.of_nat (length (concat pieces)) else -1, key).

(** One after the other, er.encoded adding up. *)
Definition and_then (a b : emitter) : emitter := fun key =>
  '(n, key) ← a key;
  if n <? 0 then Some (-1, key) else
  '(m, key) ← b key;
  Some (if m <? 0 then -1 else n + m, key).

Definition emit_nothing : emitter := fun key => Some (0, key).

Fixpoint repeated (n : nat) (e : emitter) : emitter :=
  match n with O => emit_nothing | Datatypes.S n => and_then e (repeated n e) end.

(** ASN__TEXT_INDENT. *)
Definition TEXT_INDENT (nl : bool) (level : Z) : emitter :=
  and_then (if nl then callback [[10]] else emit_nothing) (repeated (Z.to_nat level) (callback [[32; 32; 32; 32]])).

(** Opening and closing tags. *)
Definition open_tag (mname : list Z) : list (list Z) := [[60]; mname; [62]].
Definition close_tag (mname : list Z) : list (list Z) := [[60; 47]; mname; [62]].
End Output.
Arguments emitter : clear implicits.

(** ** Types *)

(** op->xer_encoder at an indentation level, canonical or not, op->xer_decoder
    with the name of the member when there is one, and td->xml_tag. *)
Class XerType (T : Type) := {
  xer_struct : Type;
  xer_value : xer_struct -> T;
  xml_tag : list Z;
  xer_encoder : forall S, Consumer S -> T -> Z -> bool -> emitter S;
  xer_decoder : option (list Z) -> option xer_struct -> list Z -> option (asn_dec_rval_code * Z * option xer_struct)
}.

(** xer_encode: an element around the value, and a line feed unless the
    encoding is canonical. *)
Definition xer_encode {T} `{XerType T} {S} `{Consumer S} (sptr : T) (canonical : bool) : emitter S :=
  and_then (callback (open_tag xml_tag))
    (and_then (xer_encoder S _ sptr 1 canonical)
       (callback [[60; 47]; xml_tag; if canonical then [62] else [62; 10]])).

Definition xer_decode {T} `{XerType T} (st : option xer_struct) (buffer : list Z) :
    option (asn_dec_rval_code * Z * option xer_struct) :=
  xer_decoder None st buffer.

(** ** xer_equivalent *)

(** struct xer_buffer; there is always room for a terminating zero. *)
Record xer_buffer := { xb_buffer : list Z; xb_allocated : nat }.
Definition empty_buffer : xer_buffer := {| xb_buffer := []; xb_allocated := 0 |}.

(** The loop that doubles the allocation until [need] octets fit. *)
Fixpoint enlarge (fuel need allocated : nat) : nat :=
  match fuel with
  | O => allocated
  | S fuel =>
    if (allocated <? need)%nat then enlarge fuel need (2 * (if (allocated =? 0)%nat then 64 else allocated)) else allocated
  end.

Definition xer__buffer_append (d : list Z) (xb : xer_buffer) : Z * xer_buffer :=
  let need := (length (xb_buffer xb) + length d + 1)%nat in
  (0, {| xb_buffer := xb_buffer xb ++ d; xb_allocated := enlarge need need (xb_allocated xb) |}).

#[export] Instance xer_buffer_consumer : Consumer xer_buffer := xer__buffer_append.
#[export] Instance xer_buffer_append_consumer : AppendConsumer xer_buffer.
Proof. by exists xb_buffer. Defined.

Inductive xer_equivalence_e :=
  XEQ_SUCCESS | XEQ_FAILURE | XEQ_ENCODE1_FAILED | XEQ_ENCODE2_FAILED | XEQ_DIFFERENT | XEQ_DECODE_FAILED | XEQ_ROUND_TRIP_FAILED.

(** The debug stream is left out. *)
Definition xer_equivalent {T} `{XerType T} (struct1 struct2 : option T) : option xer_equivalence_e :=
  match struct1, struct2 with
  | Some struct1, Some struct2 =>
    '(e1, xb1) ← xer_encode struct1 false empty_buffer;
    if e1 =? -1 then Some XEQ_ENCODE1_FAILED else
    '(e2, xb2) ← xer_encode struct2 false empty_buffer;
    if e2 =? -1 then Some XEQ_ENCODE1_FAILED else
    if negb (bool_decide (xb_buffer xb1 = xb_buffer xb2)) then Some XEQ_DIFFERENT else
    let size := Z.of_nat (length (xb_buffer xb1)) in
    '(code, consumed, sptr) ← xer_decode None (xb_buffer xb1);
    if negb (bool_decide (code = RC_OK)) then Some XEQ_DECODE_FAILED else
    if negb (consumed =? size) &&
       ((size <? consumed) || negb (xer_whitespace_span (drop (Z.to_nat consumed) (xb_buffer xb1)) =? size - consumed))
    then Some XEQ_ROUND_TRIP_FAILED else
    match sptr with
    | None => Some XEQ_ROUND_TRIP_FAILED
    | Some st =>
      '(e2, xb2) ← xer_encode (xer_value st) false empty_buffer;
      if e2 =? -1 then Some XEQ_ROUND_TRIP_FAILED else
      Some (if bool_decide (xb_buffer xb1 = xb_buffer xb2) then XEQ_SUCCESS else XEQ_ROUND_TRIP_FAILED)
    end
  | _, _ => Some XEQ_FAILURE
  end.

(** ** The contract *)

(** What an emitter writes. *)
Definition emits {S} `{AppendConsumer S} (e : emitter S) (text : list Z) : Prop :=
  forall key, exists key', e key = Some (Z.of_nat (length text), key') /\ written key' = written key ++ text.

(** Characters of names: letters, digits, '-', '_'. *)
Definition name_char (c : Z) : bool := (2 <=? charclass c) || (c =? 45) || (c =? 95).
Definition name_ok (name : list Z) : Prop :=
  (exists c, head name = Some c /\ ALPHA c = true) /\ Forall (fun c => name_char c = true) name.

Definition opening (name : list Z) : list Z := 60 :: name ++ [62].
Definition closing (name : list Z) : list Z := 60 :: 47 :: name ++ [62].
Definition empty_tag (name : list Z) : list Z := 60 :: name ++ [47; 62].
Definition element (name text : list Z) : list Z := opening name ++ text ++ closing name.

(** Canonical text does not depend on the indentation.  [xer_norm] is the value a decoder makes of the (canonical) text, [xer_name] the names an
    element of the type can have. *)
Class XerTypeLaws (T : Type) `{XerType T} := {
  xer_dom : T -> Prop;
  xer_name : list Z -> Prop;
  xer_norm : bool -> T -> T;
  xer_text : T -> Z -> bool -> list Z;
  xer_enc_law : forall S (C : Consumer S) (A : AppendConsumer S) t ilevel canonical, xer_dom t ->
    emits (xer_encoder S C t ilevel canonical) (xer_text t ilevel canonical);
  xer_dec_law : forall t ilevel canonical opt_mname rest, xer_dom t ->
    let name := default xml_tag opt_mname in name_ok name -> xer_name name ->
    let octets := element name (xer_text t ilevel canonical) in
    exists st, xer_decoder opt_mname None (octets ++ rest) = Some (RC_OK, Z.of_nat (length octets), Some st) /\
      xer_value st = xer_norm canonical t;
  xer_norm_law : forall t ilevel canonical, xer_dom t ->
    xer_dom (xer_norm canonical t) /\ xer_text (xer_norm canonical t) ilevel canonical = xer_text t ilevel canonical;
  xer_canonical_law : forall t i j, xer_dom t -> xer_text t i true = xer_text t j true
}.

(** A reference to the character zero: zeros, or none, and a semicolon. *)
Fixpoint zeros_end (l : list Z) : bool :=
  match l with
  | c :: l => if c =? 48 then zeros_end l else c =? 59
  | [] => false
  end.
Definition zero_reference (l : list Z) : bool :=
  match l with
  | a :: b :: l => (a =? 38) && (b =? 35) && zeros_end (if bool_decide (head l = Some 120) then tail l else l)
  | _ => false
  end.
Fixpoint has_zero_reference (l : list Z) : bool :=
  match l with
  | [] => false
  | c :: l' => zero_reference l || has_zero_reference l'
  end.

(** Octets that no assertion fails for: any at all, but where there are
    character [strings] none with a reference to the character zero. *)
Definition readable (strings : bool) (buf : list Z) : Prop :=
  bytes_ok buf /\ (strings = true -> has_zero_reference buf = false).

(** Whatever octets are given, the decoder answers, and takes of them what there
    is; something at least when it has a value.  [xer_inv] is what holds of the
    structures it leaves behind, decoded under a name, unless it fails. *)
Class XerTotal (strings : bool) (T : Type) `{XerType T} := {
  xer_inv : option (list Z) -> xer_struct -> Prop;
  xer_total : forall opt_mname st buf, from_option (xer_inv opt_mname) True st -> readable strings buf ->
    exists code n st', xer_decoder opt_mname st buf = Some (code, n, st') /\ 0 <= n <= Z.of_nat (length buf) /\
      (code = RC_OK -> 0 < n /\ is_Some st') /\ (code <> RC_FAIL -> from_option (xer_inv opt_mname) True st')
}.

(** ** Lemmas: output *)

Section Emits.
Context {S : Type} `{HC : Consumer S} `{HA : !AppendConsumer S}.

Lemma call_each_ok pieces (key : S) : exists key', call_each pieces key = (true, key') /\ written key' = written key ++ concat pieces.
Proof.
  revert key. induction pieces as [|p pieces IH]; intros key; cbn [call_each concat]; [exists key; by rewrite app_nil_r|].
  destruct (consume_append p key) as (k & -> & Hk). cbn. destruct (IH k) as (k' & -> & Hk'). exists k'. by rewrite Hk', Hk, app_assoc.
Qed.

Lemma callback_emits pieces : emits (callback pieces) (concat pieces).
Proof. intros key. unfold callback. destruct (call_each_ok pieces key) as (k & -> & Hk). by exists k. Qed.

Lemma then_emits a b ta tb : emits a ta -> emits b tb -> emits (and_then a b) (ta ++ tb).
Proof.
  intros Ha Hb key. unfold and_then. destruct (Ha key) as (k1 & -> & Hk1). cbn [mbind option_bind]. zcase.
  destruct (Hb k1) as (k2 & -> & Hk2). cbn [mbind option_bind]. zcase. exists k2. rewrite length_app, Hk2, Hk1, app_assoc.
  split; [do 2 f_equal; lia|done].
Qed.

Lemma nothing_emits : emits emit_nothing [].
Proof. intros key. exists key. by rewrite app_nil_r. Qed.

Lemma repeated_emits n e t : emits e t -> emits (repeated n e) (concat (replicate n t)).
Proof. intros He. induction n as [|n IH]; cbn; [apply nothing_emits|by apply then_emits]. Qed.

Definition indent (nl : bool) (level : Z) : list Z := (if nl then [10] else []) ++ concat (replicate (Z.to_nat level) [32; 32; 32; 32]).

Lemma indent_emits nl level : emits (TEXT_INDENT nl level) (indent nl level).
Proof.
  apply then_emits; [destruct nl; [apply (callback_emits [[10]])|apply nothing_emits]|].
  apply repeated_emits. apply (callback_emits [[32; 32; 32; 32]]).
Qed.

Lemma emits_eq e t t' : emits e t -> t = t' -> emits e t'.
Proof. by intros ? <-. Qed.
End Emits.

(** ** Lemmas: tokens *)

Definition plain (c : Z) : Prop := c <> 60.

Lemma char_classes c : name_char c = true -> c <> 0 /\ c <> 33 /\ c <> 34 /\ c <> 47 /\ c <> 60 /\ c <> 61 /\ c <> 62 /\ WHITESPACE c = false.
Proof.
  unfold name_char, WHITESPACE, charclass. intros H.
  assert (Hcase : c = 45 \/ c = 95 \/ 48 <= c <= 57 \/ 65 <= c <= 90 \/ 97 <= c <= 122).
  { revert H. repeat case_match; rewrite ?orb_true_iff, ?andb_true_iff, ?Z.eqb_eq, ?Z.leb_le in *; intros; lia. }
  split_and!; try lia. rewrite !(proj2 (Z.eqb_neq c _)) by lia. cbn [orb]. by repeat case_match.
Qed.

Section TextToken.
Context {K : Type} (cb : pxml_chunk_type -> Z -> list Z -> K -> Z * K).

Lemma loop_text t : forall rest start chunk (key : K), Forall plain t ->
  pxml_loop cb (t ++ rest) {| px_state := ST_TEXT; px_start := start; px_chunk := chunk |} key =
  pxml_loop cb rest {| px_state := ST_TEXT; px_start := start; px_chunk := chunk ++ t |} key.
Proof.
  induction t as [|c t IH]; intros rest start chunk key Ht; cbn [app]; [by rewrite app_nil_r|].
  apply Forall_cons in Ht as [Hc Ht]. cbn [pxml_loop pxml_step px_state]. rewrite (proj2 (Z.eqb_neq c 60)) by done.
  rewrite IH by done. cbn [px_start px_chunk]. by rewrite <- app_assoc.
Qed.

Lemma loop_name name : forall rest start chunk (key : K), Forall (fun c => c <> 60 /\ c <> 61 /\ c <> 62) name ->
  pxml_loop cb (name ++ rest) {| px_state := ST_TAG_BODY; px_start := start; px_chunk := chunk |} key =
  pxml_loop cb rest {| px_state := ST_TAG_BODY; px_start := start; px_chunk := chunk ++ name |} key.
Proof.
  induction name as [|c t IH]; intros rest start chunk key Ht; cbn [app]; [by rewrite app_nil_r|].
  apply Forall_cons in Ht as [(H1 & H2 & H3) Ht]. cbn [pxml_loop pxml_step px_state].
  rewrite (proj2 (Z.eqb_neq c 60)), (proj2 (Z.eqb_neq c 61)), (proj2 (Z.eqb_neq c 62)) by done.
  rewrite IH by done. cbn [px_start px_chunk]. by rewrite <- app_assoc.
Qed.
End TextToken.

Definition ends_text (rest : list Z) : Prop := rest = [] \/ head rest = Some 60.

Lemma next_text t rest : t <> [] -> Forall plain t -> ends_text rest ->
  xer_next_token ST_TEXT (t ++ rest) = Some (Z.of_nat (length t), PXER_TEXT, ST_TEXT).
Proof.
  intros Hne Ht Hend. unfold xer_next_token, pxml_parse. rewrite loop_text by done. cbn [app].
  assert (Hl : (Z.of_nat (length t) =? 0) = false) by (apply Z.eqb_neq; destruct t; [done|cbn [length]; lia]).
  destruct rest as [|c rest].
  - cbn [pxml_loop px_chunk px_state andb]. rewrite bool_decide_false by done. cbn [negb].
    unfold TOKEN_CB. cbn [px_chunk px_start]. rewrite app_nil_r, Hl. unfold xer__token_cb at 1.
    rewrite (proj2 (Z.ltb_lt (-1) _)) by lia. cbn [px_start px_state]. rewrite Hl. done.
  - destruct Hend as [?|[= ->]]; [done|]. cbn [pxml_loop pxml_step px_state Z.eqb Pos.eqb].
    unfold TOKEN_CB. cbn [px_chunk px_start]. rewrite app_nil_r, Hl. unfold xer__token_cb at 1.
    rewrite (proj2 (Z.ltb_lt (-1) _)) by lia. cbn [andb px_start px_state px_chunk]. rewrite Hl. done.
Qed.

(** A tag: a letter or '/' behind the '<', and no '=' before the '>'. *)
Lemma next_tag c name rest : ALPHA c = true \/ c = 47 -> Forall (fun c => c <> 60 /\ c <> 61 /\ c <> 62) name ->
  xer_next_token ST_TEXT ([60] ++ (c :: name) ++ [62] ++ rest) = Some (Z.of_nat (length name) + 3, PXER_TAG, ST_TEXT).
Proof.
  intros Hc Hname. unfold xer_next_token, pxml_parse. cbn [app].
  assert (Hstart : pxml_loop xer__token_cb (60 :: c :: name ++ 62 :: rest) {| px_state := ST_TEXT; px_start := 0; px_chunk := [] |} None =
    pxml_loop xer__token_cb (name ++ 62 :: rest) {| px_state := ST_TAG_BODY; px_start := 0; px_chunk := [60; c] |} None).
  { change (pxml_loop xer__token_cb (c :: name ++ 62 :: rest) {| px_state := ST_TAG_START; px_start := 0; px_chunk := [60] |} None =
      pxml_loop xer__token_cb (name ++ 62 :: rest) {| px_state := ST_TAG_BODY; px_start := 0; px_chunk := [60; c] |} None).
    cbn [pxml_loop pxml_step px_state]. assert (Hs : ALPHA c || (c =? 47) = true) by (destruct Hc as [->| ->]; [done|by rewrite orb_comm]).
    by rewrite Hs. }
  rewrite Hstart, loop_name by done. cbn [pxml_loop pxml_step px_state Z.eqb Pos.eqb].
  unfold TOKEN_CB. cbn [px_chunk px_start].
  set (chunk := _ ++ [62]).
  assert (Hl : Z.of_nat (length chunk) = Z.of_nat (length name) + 3) by (unfold chunk; rewrite !length_app; cbn [length]; lia).
  rewrite Hl, (proj2 (Z.eqb_neq _ 0)) by lia. unfold xer__token_cb at 1. rewrite (proj2 (Z.ltb_lt (-1) _)) by lia.
  cbn [andb px_start px_state]. rewrite Hl, (proj2 (Z.eqb_neq _ 0)) by lia. done.
Qed.

Lemma concat_open name : concat (open_tag name) = opening name.
Proof. done. Qed.
Lemma concat_close name : concat (close_tag name) = closing name.
Proof. done. Qed.

Lemma name_plain name : Forall (fun c => name_char c = true) name -> Forall (fun c => c <> 60 /\ c <> 61 /\ c <> 62) name.
Proof. intros H. eapply Forall_impl; [exact H|]. intros c (_ & _ & _ & _ & ? & ? & ? & _)%char_classes. done. Qed.

Lemma next_opening name rest : name_ok name ->
  xer_next_token ST_TEXT (opening name ++ rest) = Some (Z.of_nat (length (opening name)), PXER_TAG, ST_TEXT).
Proof.
  intros [(c & Hc & Ha) Hall]. destruct name as [|c' name]; [done|]. injection Hc as ->. apply Forall_cons in Hall as [_ Hall].
  pose proof (next_tag c name rest ltac:(by left) (name_plain name Hall)) as H. unfold opening. cbn [app] in *. rewrite <- app_assoc. cbn [app] in *.
  rewrite H. do 3 f_equal. cbn [length]. rewrite length_app. cbn [length]. lia.
Qed.

Lemma next_closing name rest : name_ok name ->
  xer_next_token ST_TEXT (closing name ++ rest) = Some (Z.of_nat (length (closing name)), PXER_TAG, ST_TEXT).
Proof.
  intros [_ Hall]. pose proof (next_tag 47 name rest ltac:(by right) (name_plain name Hall)) as H. unfold closing. cbn [app] in *.
  rewrite <- app_assoc. cbn [app] in *. rewrite H. do 3 f_equal. cbn [length]. rewrite length_app. cbn [length]. lia.
Qed.

Lemma next_empty_tag name rest : name_ok name ->
  xer_next_token ST_TEXT (empty_tag name ++ rest) = Some (Z.of_nat (length (empty_tag name)), PXER_TAG, ST_TEXT).
Proof.
  intros [(c & Hc & Ha) Hall]. destruct name as [|c' name]; [done|]. injection Hc as ->. apply Forall_cons in Hall as [_ Hall].
  pose proof (next_tag c (name ++ [47]) rest ltac:(by left)) as H. unfold empty_tag. cbn [app] in *. rewrite <- !app_assoc in *. cbn [app] in *.
  rewrite H; [do 3 f_equal; cbn [length]; rewrite !length_app; cbn [length]; lia|].
  apply Forall_app. split; [by apply name_plain|]. by repeat constructor.
Qed.

(** *** Names *)

Lemma check_name_ok name : forall need ct, Forall (fun c => name_char c = true) name -> Forall (fun c => name_char c = true) need ->
  check_name name need ct = XCT (bool_decide (name = need)) ct.
Proof.
  induction name as [|b name IH]; intros need ct Hn Hneed; cbn [check_name].
  - f_equal. apply bool_decide_ext. naive_solver.
  - apply Forall_cons in Hn as [Hb Hn]. destruct (char_classes b Hb) as (Hb0 & _ & _ & _ & _ & _ & _ & Hws).
    destruct need as [|n need]; cbn [head default tail from_option].
    + rewrite (proj2 (Z.eqb_neq b 0)) by done. cbn [negb]. by rewrite Hws.
    + apply Forall_cons in Hneed as [Hn0 Hneed]. unfold id. destruct (Z.eqb_spec b n) as [->|Hne]; cbn [negb].
      * rewrite (proj2 (Z.eqb_neq n 0)) by done. rewrite IH by done. f_equal. apply bool_decide_ext. naive_solver.
      * destruct (char_classes n Hn0) as (Hn00 & _). rewrite (proj2 (Z.eqb_neq n 0)) by done. cbn [andb].
        rewrite bool_decide_false by congruence. done.
Qed.

Lemma last_not c name : Forall (fun c => name_char c = true) name -> c = 47 -> last name <> Some c.
Proof. intros Hall -> Hl. apply last_Some_elem_of in Hl. rewrite Forall_forall in Hall. by apply Hall, char_classes in Hl as (_ & _ & _ & ? & _). Qed.

Section CheckTag.
Context (name need : list Z) (Hname : name_ok name) (Hneed : name_ok need).

Lemma check_need ct : match need with [] => XCT false ct | _ => check_name name need ct end = XCT (bool_decide (name = need)) ct.
Proof using Hname Hneed.
  destruct Hneed as [(c & Hc & _) Hall]. destruct need as [|n need']; [done|]. apply check_name_ok; [apply Hname|done].
Qed.

Lemma check_opening : xer_check_tag (opening name) (Some need) = XCT (bool_decide (name = need)) OPENING.
Proof using Hname Hneed.
  unfold xer_check_tag, opening. cbn [length head tail]. rewrite length_app. cbn [length]. zcase.
  rewrite app_comm_cons, last_snoc. cbn [orb]. rewrite !bool_decide_true by done. cbn [negb orb].
  rewrite <- app_comm_cons. cbn [head tail drop].
  assert (Hhead : bool_decide (head (name ++ [62]) = Some 47) = false).
  { apply bool_decide_false. destruct Hname as [(c & Hc & Ha) _]. destruct name as [|c' n]; [done|]. cbn in *. intros [= ->]. by injection Hc as <-. }
  rewrite Hhead. replace (Z.to_nat _) with (length name) by lia. rewrite drop_0, take_app_length.
  rewrite bool_decide_false by (by apply last_not; [apply Hname|]). apply check_need.
Qed.

Lemma check_closing : xer_check_tag (closing name) (Some need) = XCT (bool_decide (name = need)) CLOSING.
Proof using Hname Hneed.
  unfold xer_check_tag, closing. cbn [length head tail]. rewrite length_app. cbn [length]. zcase.
  rewrite !app_comm_cons, last_snoc. cbn [orb]. rewrite !bool_decide_true by done. cbn [negb orb].
  rewrite <- !app_comm_cons. cbn [head tail drop].
  replace (Z.to_nat _) with (length name) by lia. rewrite drop_0, take_app_length.
  rewrite bool_decide_false by (by apply last_not; [apply Hname|]). apply check_need.
Qed.

Lemma check_empty_tag : xer_check_tag (empty_tag name) (Some need) = XCT (bool_decide (name = need)) BOTH.
Proof using Hname Hneed.
  unfold xer_check_tag, empty_tag. cbn [length head tail]. rewrite length_app. cbn [length]. zcase.
  change [47; 62] with ([47] ++ [62]). rewrite (app_assoc name), app_comm_cons, last_snoc. cbn [orb]. rewrite !bool_decide_true by done. cbn [negb orb].
  rewrite <- app_comm_cons. cbn [head tail drop].
  assert (Hhead : bool_decide (head ((name ++ [47]) ++ [62]) = Some 47) = false).
  { apply bool_decide_false. destruct Hname as [(c & Hc & Ha) _]. destruct name as [|c' n]; [done|]. cbn in *. intros [= ->]. by injection Hc as <-. }
  rewrite Hhead. replace (Z.to_nat _) with (length (name ++ [47])) by (rewrite length_app; cbn [length]; lia). rewrite drop_0, take_app_length.
  rewrite last_snoc, bool_decide_true by done. rewrite removelast_last. apply check_need.
Qed.
End CheckTag.

(** ** Lemmas: one token of an element *)

Definition in_body : xer_ctx := {| xc_phase := 1; xc_context := ST_TEXT |}.

Section Steps.
Context {K : Type} (tag_decoder : option (list Z -> K -> option (Z * K))) (body : list Z -> bool -> K -> option (Z * K))
  (name : list Z) (Hname : name_ok name).
#[local] Abbreviation general := (xer_decode_general tag_decoder body name).

Lemma general_open fuel key rest c :
  general (S fuel) fresh_xer key (opening name ++ rest) c = general fuel in_body key rest (c + Z.of_nat (length (opening name))).
Proof using Hname.
  cbn [xer_decode_general fresh_xer xc_phase xc_context]. change (1 <? 0) with false. cbn match.
  rewrite next_opening by done. cbn [mbind option_bind]. rewrite (proj2 (Z.eqb_neq _ (-1))) by lia.
  rewrite Nat2Z.id, take_app_length, drop_app_length, check_opening, bool_decide_true by done. done.
Qed.

Lemma general_text fuel t key key' rest c : t <> [] -> Forall plain t -> head rest = Some 60 -> body t true key = Some (Z.of_nat (length t), key') ->
  general (S fuel) in_body key (t ++ rest) c = general fuel in_body key' rest (c + Z.of_nat (length t)).
Proof.
  intros Hne Ht Hrest Hbody. cbn [xer_decode_general in_body xc_phase xc_context]. change (1 <? 1) with false. cbn match.
  rewrite next_text by (done || by right). cbn [mbind option_bind]. rewrite (proj2 (Z.eqb_neq _ (-1))) by lia.
  rewrite Nat2Z.id, take_app_length, drop_app_length. change (1 =? 0) with false. cbn match.
  rewrite length_app. rewrite (proj2 (Z.ltb_lt _ _)) by (destruct rest; [done|cbn [length]; lia]).
  rewrite Hbody. cbn [mbind option_bind]. rewrite (proj2 (Z.eqb_neq _ (-1))), (proj2 (Z.eqb_neq _ 0)) by (destruct t; [done|cbn [length]; lia]).
  cbn [andb]. by rewrite Nat2Z.id, drop_app_length.
Qed.

Lemma general_close fuel key rest c :
  general (S fuel) in_body key (closing name ++ rest) c =
    Some (RC_OK, c + Z.of_nat (length (closing name)), {| xc_phase := 2; xc_context := ST_TEXT |}, key).
Proof using Hname.
  cbn [xer_decode_general in_body xc_phase xc_context]. change (1 <? 1) with false. cbn match.
  rewrite next_closing by done. cbn [mbind option_bind]. rewrite (proj2 (Z.eqb_neq _ (-1))) by lia.
  rewrite Nat2Z.id, take_app_length, drop_app_length, check_closing, bool_decide_true by done. done.
Qed.

(** A tag inside the body that has a meaning of its own. *)
Lemma general_tag fuel tag decoder rc key key' rest c : name_ok tag -> tag <> name -> tag_decoder = Some decoder ->
  decoder (empty_tag tag) key = Some (rc, key') -> 0 <= rc ->
  general (S fuel) in_body key (empty_tag tag ++ rest) c = general fuel in_body key' rest (c + Z.of_nat (length (empty_tag tag))).
Proof using Hname.
  intros Htag Hne -> Hd Hrc. cbn [xer_decode_general in_body xc_phase xc_context]. change (1 <? 1) with false. cbn match.
  rewrite next_empty_tag by done. cbn [mbind option_bind]. rewrite (proj2 (Z.eqb_neq _ (-1))) by lia.
  rewrite Nat2Z.id, take_app_length, drop_app_length, check_empty_tag, bool_decide_false by done. rewrite Hd. cbn [mbind option_bind].
  rewrite (proj2 (Z.ltb_ge _ 0)) by done. done.
Qed.

(** An element whose body is at most one text. *)
Lemma element_decode t key key' rest : Forall plain t -> (t = [] -> key' = key) ->
  (t <> [] -> body t true key = Some (Z.of_nat (length t), key')) ->
  general (general_fuel (element name t ++ rest)) fresh_xer key (element name t ++ rest) 0 =
    Some (RC_OK, Z.of_nat (length (element name t)), {| xc_phase := 2; xc_context := ST_TEXT |}, key').
Proof using Hname.
  intros Ht Hnil Hbody. unfold element.
  assert (Hfuel : exists f, general_fuel ((opening name ++ t ++ closing name) ++ rest) = S (S (S f))).
  { exists (general_fuel ((opening name ++ t ++ closing name) ++ rest) - 3)%nat. unfold general_fuel, opening, closing.
    rewrite !length_app. cbn [length]. lia. }
  destruct Hfuel as [f ->]. rewrite <- !app_assoc, general_open.
  assert (Hlen : forall a b c : nat, 0 + Z.of_nat a + Z.of_nat b + Z.of_nat c = Z.of_nat (a + (b + c))) by lia.
  rewrite !length_app, <- Hlen.
  destruct t as [|x t].
  - rewrite (Hnil eq_refl). cbn [app length]. rewrite general_close. do 3 f_equal; lia.
  - rewrite (general_text _ _ key key'); [|discriminate|exact Ht|reflexivity|by apply Hbody]. by rewrite general_close.
Qed.
End Steps.

(** ** Lemmas: any octets *)

Lemma zeros_end_take n l : zeros_end (take n l) = true -> zeros_end l = true.
Proof.
  revert n. induction l as [|c l IH]; intros [|n]; cbn [take zeros_end]; [done..|]. destruct (c =? 48); [apply IH|done].
Qed.

Lemma zero_reference_take n l : zero_reference (take n l) = true -> zero_reference l = true.
Proof.
  destruct n as [|[|n]], l as [|a [|b l]]; cbn [take zero_reference]; try done. intros [Hab Hz]%andb_true_iff. rewrite Hab. cbn [andb].
  destruct n as [|n], l as [|c l]; cbn [take head tail] in *; try by destruct (bool_decide _).
  destruct (bool_decide _); [by eapply zeros_end_take|by apply (zeros_end_take (S n) (c :: l))].
Qed.

Lemma has_zero_take n l : has_zero_reference (take n l) = true -> has_zero_reference l = true.
Proof.
  revert n. induction l as [|c l IH]; intros [|n]; [done..|]. cbn [take has_zero_reference]. intros [H|H]%orb_true_iff; apply orb_true_iff.
  - left. by apply (zero_reference_take (S n) (c :: l)).
  - right. by apply (IH n).
Qed.

Lemma has_zero_drop n l : has_zero_reference (drop n l) = true -> has_zero_reference l = true.
Proof.
  revert n. induction l as [|c l IH]; intros [|n]; [done..|]. cbn [drop]. intros H%IH. cbn [has_zero_reference]. by rewrite H, orb_true_r.
Qed.

Lemma readable_nil strings : readable strings [].
Proof. split; [apply bytes_ok_nil|done]. Qed.

Lemma readable_take strings n buf : readable strings buf -> readable strings (take n buf).
Proof.
  intros [Hok Hz]. split; [by apply bytes_ok_take|]. intros Hs. specialize (Hz Hs).
  destruct (has_zero_reference (take n buf)) eqn:E; [|done]. apply has_zero_take in E. congruence.
Qed.

Lemma readable_drop strings n buf : readable strings buf -> readable strings (drop n buf).
Proof.
  intros [Hok Hz]. split; [by apply bytes_ok_drop|]. intros Hs. specialize (Hz Hs).
  destruct (has_zero_reference (drop n buf)) eqn:E; [|done]. apply has_zero_drop in E. congruence.
Qed.

Lemma loop_any l : forall state chunk,
  let '(go, x, arg) := pxml_loop xer__token_cb l {| px_state := state; px_start := 0; px_chunk := chunk |} None in
  match arg with
  | None => go = true /\ px_start x = 0 /\ px_chunk x = chunk ++ l
  | Some (_, start, c) => go = false /\ start = 0 /\ px_start x = 0 /\ c <> [] /\ exists rest, chunk ++ l = c ++ rest
  end.
Proof.
  induction l as [|C l IH]; intros state chunk; cbn [pxml_loop]; [cbn; by rewrite app_nil_r|]. cbn [px_state px_start px_chunk].
  destruct (pxml_step state C) as [ns|type ns current_too].
  - specialize (IH ns (chunk ++ [C])). rewrite <- app_assoc in IH. exact IH.
  - unfold TOKEN_CB. cbn [px_chunk px_start]. set (c := chunk ++ _).
    destruct (Z.eqb_spec (Z.of_nat (length c)) 0) as [E|E].
    + assert (Hc : chunk = [] /\ current_too = false).
      { unfold c in E. rewrite length_app in E. destruct current_too; cbn [length] in E; [lia|]. split; [apply length_zero_iff_nil; lia|done]. }
      destruct Hc as [-> ->]. cbn [with_chunk px_chunk px_state px_start app]. specialize (IH ns [C]). exact IH.
    + unfold xer__token_cb at 1. rewrite (proj2 (Z.ltb_lt (-1) _)) by lia. split_and!; try done.
      * intros Hn. by rewrite Hn in E.
      * unfold c. destruct current_too; [exists l; by rewrite <- app_assoc|exists (C :: l); by rewrite app_nil_r].
Qed.

(** A token is a beginning of the buffer, and its checks hold. *)
Lemma next_token_any ctx buf : exists size type ctx', xer_next_token ctx buf = Some (size, type, ctx') /\
  (type = PXER_WMORE /\ size = 0 /\ ctx' = ctx \/ type <> PXER_WMORE /\ 0 < size <= Z.of_nat (length buf)).
Proof.
  unfold xer_next_token, pxml_parse. pose proof (loop_any buf ctx []) as Hloop.
  destruct (pxml_loop _ _ _ _) as [[go x] [[[type start] c]|]].
  - destruct Hloop as (-> & -> & _ & Hne & rest & Hc). cbn [andb]. assert (Hl : 0 < Z.of_nat (length c)) by (destruct c; [done|cbn; lia]).
    apply (f_equal length) in Hc. cbn [app] in Hc. rewrite length_app in Hc. rewrite (proj2 (Z.eqb_neq _ 0)) by lia. cbn [orb negb Z.eqb].
    destruct type; eexists _, _, _; (split; [done|]); first [by left|right; split; [done|lia]].
  - destruct Hloop as (-> & Hst & Hch). cbn [andb app] in *. case_bool_decide as Hb; cbn [negb].
    { rewrite Hst. cbn. eexists _, _, _. split; [done|]. by left. }
    assert (Hl : 0 < Z.of_nat (length (px_chunk x))) by (destruct (px_chunk x); [done|cbn; lia]).
    assert (Hflush : forall type, TOKEN_CB xer__token_cb type (px_state x) None x None = (false, x, Some (type, px_start x, px_chunk x))).
    { intros type. unfold TOKEN_CB. rewrite app_nil_r, (proj2 (Z.eqb_neq _ 0)) by lia. unfold xer__token_cb. rewrite (proj2 (Z.ltb_lt (-1) _)) by lia.
      cbn. by destruct x. }
    destruct (px_state x) eqn:Hs; rewrite ?Hflush; cbn; rewrite ?Hst; cbn;
      try (eexists _, _, _; split; [done|]; by left).
    all: rewrite (proj2 (Z.eqb_neq _ 0)) by lia; cbn; eexists _, _, _; (split; [done|]); right; (split; [done|]); rewrite Hch in *; lia.
Qed.

Section General_any.
(** Receivers that are defined where an invariant holds, keep it, and take all
    of a text that others follow. *)
Context (strings : bool) {K : Type} (Inv : K -> Prop) (tag_decoder : option (list Z -> K -> option (Z * K))) (body : list Z -> bool -> K -> option (Z * K)).
Context (Hbody : forall chunk more key, Inv key -> readable strings chunk -> exists n key', body chunk more key = Some (n, key') /\ (n <> -1 -> Inv key') /\
    (n = -1 \/ 0 <= n <= Z.of_nat (length chunk) /\ (more = true -> n = Z.of_nat (length chunk)))).
Context (Htag : match tag_decoder with None => True | Some d => forall chunk key, Inv key -> readable strings chunk -> head chunk = Some 60 -> exists n key', d chunk key = Some (n, key') /\ (0 <= n -> Inv key') end).

Lemma general_any name fuel : forall ctx key buf consumed, Inv key -> readable strings buf -> (length buf < fuel)%nat ->
  exists code consumed' ctx' key', xer_decode_general tag_decoder body name fuel ctx key buf consumed = Some (code, consumed', ctx', key') /\
    consumed <= consumed' <= consumed + Z.of_nat (length buf) /\ (code = RC_OK -> consumed < consumed') /\ (code <> RC_FAIL -> Inv key').
Proof using Hbody Htag.
  induction fuel as [|fuel IH]; intros ctx key buf consumed Hk Hok Hfuel; [lia|]. cbn [xer_decode_general].
  assert (Hret : forall (code : asn_dec_rval_code) (ctx : xer_ctx) (key : K), code <> RC_OK -> (code <> RC_FAIL -> Inv key) -> exists code' consumed' ctx' key',
    Some (code, consumed, ctx, key) = Some (code', consumed', ctx', key') /\ consumed <= consumed' <= consumed + Z.of_nat (length buf) /\
    (code' = RC_OK -> consumed < consumed') /\ (code' <> RC_FAIL -> Inv key')).
  { intros. eexists _, _, _, _. split; [done|]. split; [lia|done]. }
  destruct (1 <? xc_phase ctx); [by apply Hret|].
  destruct (next_token_any (xc_context ctx) buf) as (size & type & context & -> & [(-> & -> & ->)|[Htype Hsize]]); cbn [mbind option_bind]; [by apply Hret|].
  rewrite (proj2 (Z.eqb_neq size (-1))) by lia. set (ctx' := {| xc_phase := _ |}). set (chunk := take (Z.to_nat size) buf).
  assert (Hgo : forall n ctx key, Inv key -> 0 < n <= Z.of_nat (length buf) -> exists code consumed' ctx' key',
    xer_decode_general tag_decoder body name fuel ctx key (drop (Z.to_nat n) buf) (consumed + n) = Some (code, consumed', ctx', key') /\
    consumed <= consumed' <= consumed + Z.of_nat (length buf) /\ (code = RC_OK -> consumed < consumed') /\ (code <> RC_FAIL -> Inv key')).
  { intros n ctx0 key0 Hk0 Hn. destruct (IH ctx0 key0 (drop (Z.to_nat n) buf) (consumed + n)) as (code & c' & x' & k' & -> & Hc & Hlt & Hk'); [done|by apply readable_drop|rewrite length_drop; lia|].
    eexists _, _, _, _. split; [done|]. rewrite length_drop in Hc. split; [lia|]. split; [intros E; specialize (Hlt E); lia|done]. }
  assert (Hout : forall (code : asn_dec_rval_code) (ctx : xer_ctx) (key : K), Inv key -> exists code' consumed' ctx' key',
    Some (code, consumed + size, ctx, key) = Some (code', consumed', ctx', key') /\ consumed <= consumed' <= consumed + Z.of_nat (length buf) /\
    (code' = RC_OK -> consumed < consumed') /\ (code' <> RC_FAIL -> Inv key')).
  { intros. eexists _, _, _, _. split; [done|]. split; [lia|]. split; [lia|done]. }
  assert (Hchunk : readable strings chunk /\ Z.of_nat (length chunk) = size) by (unfold chunk; rewrite length_take; split; [by apply readable_take|lia]).
  destruct Hchunk as [Hcok Hclen].
  destruct type; [done| | |by apply Hgo].
  - destruct (xer_check_tag chunk (Some name)) as [|expected form] eqn:Hct; [by apply Hret|].
    assert (Hhead : head chunk = Some 60).
    { revert Hct. unfold xer_check_tag. case_bool_decide as Hb; [done|]. cbn [negb orb]. by rewrite orb_true_r. }
    destruct expected, form; try by apply Hret.
    + destruct (negb _); [by apply Hret|by apply Hgo].
    + destruct (xc_phase ctx' =? 0); [by apply Hret|by apply Hout].
    + destruct (negb _); [by apply Hret|].
      destruct (Hbody [] (0 <? Z.of_nat (length buf)) key Hk (readable_nil strings)) as (n & key' & -> & Hk' & _). cbn [mbind option_bind].
      destruct (Z.eqb_spec n (-1)); [by apply Hret|apply Hout; by apply Hk'].
    + destruct tag_decoder as [d|]; [|by apply Hret].
      destruct (Htag chunk key Hk Hcok Hhead) as (n & key' & -> & Hk'). cbn [mbind option_bind].
      destruct (Z.ltb_spec n 0) as [|Hn]; [by apply Hret|]. specialize (Hk' Hn). destruct (xc_phase ctx' =? 0); [by apply Hout|by apply Hgo].
  - destruct (xc_phase ctx' =? 0); [by apply Hgo|].
    destruct (Hbody chunk (size <? Z.of_nat (length buf)) key Hk Hcok) as (n & key' & -> & Hk' & Hn). cbn [mbind option_bind].
    destruct (Z.eqb_spec n (-1)) as [|Hne]; [by apply Hret|]. specialize (Hk' Hne). destruct Hn as [?|[Hn Hmore]]; [done|].
    destruct (Z.eqb_spec n 0) as [->|Hn0]; cbn [andb].
    + destruct (Z.eqb_spec (Z.of_nat (length buf)) size) as [E|E]; [by apply Hret|].
      rewrite (proj2 (Z.ltb_lt _ _)) in Hmore by lia. specialize (Hmore eq_refl). lia.
    + apply Hgo; [done|lia].
Qed.
End General_any.

(** ** Lemmas: whole texts *)

Section Whole.
Context {T : Type} `{HX : XerType T} `{HL : !XerTypeLaws T} (Htag : name_ok xml_tag) (Hname : xer_name xml_tag).

Lemma xer_encode_emits {S} `{HC : Consumer S} `{HA : !AppendConsumer S} t canonical : xer_dom t ->
  emits (xer_encode t canonical) (element xml_tag (xer_text t 1 canonical) ++ if canonical then [] else [10]).
Proof using HL.
  intros Ht. unfold xer_encode.
  eapply emits_eq; [apply then_emits; [apply callback_emits|apply then_emits; [by apply xer_enc_law|apply callback_emits]]|].
  rewrite concat_open. unfold element. rewrite <- !app_assoc. do 2 f_equal. unfold closing. destruct canonical; cbn; rewrite <- ?app_assoc; done.
Qed.

Lemma xer_decode_ok t ilevel canonical rest : xer_dom t ->
  let octets := element xml_tag (xer_text t ilevel canonical) in
  exists st, xer_decode None (octets ++ rest) = Some (RC_OK, Z.of_nat (length octets), Some st) /\ xer_value st = xer_norm canonical t.
Proof using HL Htag Hname. intros Ht octets. unfold xer_decode. by apply (xer_dec_law t ilevel canonical None rest Ht). Qed.

Lemma xer_equivalent_ok t1 t2 : xer_dom t1 -> xer_dom t2 ->
  xer_equivalent (Some t1) (Some t2) =
    Some (if bool_decide (xer_text t1 1 false = xer_text t2 1 false) then XEQ_SUCCESS else XEQ_DIFFERENT).
Proof using HL Htag Hname.
  intros H1 H2. unfold xer_equivalent.
  destruct (xer_encode_emits t1 false H1 empty_buffer) as (b1 & -> & Hb1). destruct (xer_encode_emits t2 false H2 empty_buffer) as (b2 & -> & Hb2).
  cbn [mbind option_bind]. rewrite !(proj2 (Z.eqb_neq (Z.of_nat _) (-1))) by lia. cbn [written xer_buffer_append_consumer empty_buffer xb_buffer app] in Hb1, Hb2.
  rewrite Hb1, Hb2.
  destruct (decide (xer_text t1 1 false = xer_text t2 1 false)) as [E|E].
  2: { rewrite (bool_decide_false (_ = _)); [by rewrite bool_decide_false|]. intros H. apply app_inv_tail in H. unfold element in H.
       apply app_inv_head, app_inv_tail in H. done. }
  rewrite E. rewrite !bool_decide_true by done. cbn [negb]. destruct (xer_norm_law t1 1 false H1) as [Hn Hnt].
  destruct (xer_decode_ok t1 1 false [10] H1) as (st & Hd & Hv). cbn zeta in Hd. rewrite E in Hd, Hnt. rewrite Hd. cbn [mbind option_bind].
  rewrite bool_decide_true by done. cbn [negb]. rewrite Nat2Z.id, drop_app_length, length_app, Nat2Z.inj_add. cbn [length xer_whitespace_span Z.eqb Pos.eqb orb].
  rewrite (proj2 (Z.ltb_ge (_ + _) _)) by lia. cbn [orb]. rewrite (proj2 (Z.eqb_eq (1 + 0) _)) by lia. rewrite andb_false_r.
  rewrite Hv. destruct (xer_encode_emits (xer_norm false t1) false Hn empty_buffer) as (b3 & -> & Hb3). cbn [mbind option_bind].
  rewrite (proj2 (Z.eqb_neq (Z.of_nat _) (-1))) by lia. cbn [written xer_buffer_append_consumer empty_buffer xb_buffer app] in Hb3.
  rewrite Hb3, Hnt, bool_decide_true by done. done.
Qed.
End Whole.

(** ** The buffer of xer_equivalent always has room for its terminator *)

Lemma enlarge_enough fuel : forall need allocated, (need <= fuel + allocated)%nat -> (need <= enlarge fuel need allocated)%nat.
Proof.
  induction fuel as [|fuel IH]; intros need allocated H; cbn [enlarge]; [lia|].
  destruct (Nat.ltb_spec allocated need); [|lia]. apply IH. destruct (Nat.eqb_spec allocated 0); lia.
Qed.

Lemma buffer_append_room d xb : (length (xb_buffer (xer__buffer_append d xb).2) < xb_allocated (xer__buffer_append d xb).2)%nat.
Proof.
  unfold xer__buffer_append. cbn. rewrite length_app. pose proof (enlarge_enough (length (xb_buffer xb) + length d + 1)
    (length (xb_buffer xb) + length d + 1) (xb_allocated xb) ltac:(lia)). lia.
Qed.
