(* ===== verification/XerPrim.v ===== *)
(** * Primitive values in XER (support/asn_codecs_prim.c, BOOLEAN.c, NULL.c,
    INTEGER.c, NativeInteger.c, NativeEnumerated.c)

    [xer_decode_primitive] reads an element whose contents the decoder of the
    type, working on whole texts and empty tags, turns into a value.  The
    readers and printers of BOOLEAN, NULL, INTEGER, native integers and
    enumerations, and the contract [XerTypeLaws] they keep. *)
From S2P Require Import Prelude Consumer PerCodec AsnInteger UperInteger Oer Enumerated IntegerXer BerPrim Xer.
#[local] Open Scope Z_scope.

(** ** asn_codecs_prim.c *)

(** struct xdp_arg_s around the value. *)
Record xdp_arg_s (A : Type) := { struct_key : A; decoded_something : bool; want_more : bool }.
Arguments struct_key {A}. Arguments decoded_something {A}. Arguments want_more {A}.

Section Primitive.
(** prim_body_decoder of the type. *)
Context {A : Type} (prim_body_decoder : A -> list Z -> option (xer_pbd_rval * A)).

(** The verdict of the decoder of the type on a chunk: [answer] when it takes
    the chunk or ignores it. *)
Definition judge (answer : Z) (bret : xer_pbd_rval) (a : A) (arg : xdp_arg_s A) : Z * xdp_arg_s A :=
  match bret with
  | XPBD_BODY_CONSUMED => (answer, {| struct_key := a; decoded_something := true; want_more := want_more arg |})
  | XPBD_NOT_BODY_IGNORE => (answer, {| struct_key := a; decoded_something := decoded_something arg; want_more := want_more arg |})
  | _ => (-1, {| struct_key := a; decoded_something := decoded_something arg; want_more := want_more arg |})
  end.

Definition xer_decode__unexpected_tag (chunk_buf : list Z) (arg : xdp_arg_s A) : option (Z * xdp_arg_s A) :=
  if negb (bool_decide (head chunk_buf = Some 60)) then None else
  if decoded_something arg then Some (-1, arg) else
  '(bret, a) ← prim_body_decoder (struct_key arg) chunk_buf;
  Some (judge 0 bret a arg).

Definition xer_decode__primitive_body (chunk_buf : list Z) (have_more : bool) (arg : xdp_arg_s A) : option (Z * xdp_arg_s A) :=
  let chunk_size := Z.of_nat (length chunk_buf) in
  if decoded_something arg then Some (if xer_whitespace_span chunk_buf =? chunk_size then chunk_size else -1, arg) else
  if negb have_more then Some (-1, {| struct_key := struct_key arg; decoded_something := false; want_more := true |}) else
  let lead_wsp_size := xer_whitespace_span chunk_buf in
  '(bret, a) ← prim_body_decoder (struct_key arg) (drop (Z.to_nat lead_wsp_size) chunk_buf);
  Some (judge chunk_size bret a arg).

Definition xer_decode_primitive (xml_tag : list Z) (a : A) (buf_ptr : list Z) : option (asn_dec_rval_code * Z * A) :=
  '(code, consumed, _, arg) ← xer_decode_general (Some xer_decode__unexpected_tag) xer_decode__primitive_body xml_tag
     (general_fuel buf_ptr) fresh_xer {| struct_key := a; decoded_something := false; want_more := false |} buf_ptr 0;
  match code with
  | RC_OK =>
    if decoded_something arg then Some (RC_OK, consumed, struct_key arg) else
    '(bret, a) ← prim_body_decoder (struct_key arg) [];
    Some match bret with XPBD_BODY_CONSUMED => (RC_OK, consumed, a) | _ => (RC_FAIL, 0, a) end
  | RC_WMORE => Some (RC_WMORE, 0, struct_key arg)
  | RC_FAIL => Some (if want_more arg then RC_WMORE else RC_FAIL, 0, struct_key arg)
  end.

(** The operations of a type that reads with it. *)
Definition primitive_xer {T} (tag : list Z) (fresh : A) (value : A -> T)
    (encode : forall S, Consumer S -> T -> emitter S) : XerType T := {|
  xer_struct := A;
  xer_value := value;
  xml_tag := tag;
  xer_encoder S C t ilevel canonical := encode S C t;
  xer_decoder opt_mname st buf :=
    '(code, consumed, a) ← xer_decode_primitive (default tag opt_mname) (default fresh st) buf; Some (code, consumed, Some a)
|}.
End Primitive.

(** ** The types *)

Definition false_tag : list Z := chars "false".
Definition true_tag : list Z := chars "true".

Definition BOOLEAN__xer_body_decode (st : BOOLEAN_t) (chunk_buf : list Z) : option (xer_pbd_rval * BOOLEAN_t) :=
  Some (if bool_decide (head chunk_buf = Some 60) then
    match xer_check_tag chunk_buf (Some false_tag) with
    | XCT true BOTH => (XPBD_BODY_CONSUMED, {| bool_int := 0 |})
    | XCT false BOTH =>
      match xer_check_tag chunk_buf (Some true_tag) with
      | XCT true BOTH => (XPBD_BODY_CONSUMED, {| bool_int := 1 |})
      | _ => (XPBD_BROKEN_ENCODING, st)
      end
    | _ => (XPBD_BROKEN_ENCODING, st)
    end
  else (XPBD_BROKEN_ENCODING, st)).

Definition BOOLEAN_encode_xer {S} `{Consumer S} (st : BOOLEAN_t) : emitter S :=
  callback [if negb (bool_int st =? 0) then chars "<true/>" else chars "<false/>"].

Definition BOOLEAN_xer (tag : list Z) : XerType BOOLEAN_t :=
  primitive_xer BOOLEAN__xer_body_decode tag {| bool_int := 0 |} (fun b => b) (fun S C => BOOLEAN_encode_xer).

(** NULL_t is an int nobody looks at. *)
Definition NULL__xer_body_decode (st : unit) (chunk_buf : list Z) : option (xer_pbd_rval * unit) :=
  Some (if negb (bool_decide (chunk_buf = [])) then XPBD_BROKEN_ENCODING else XPBD_BODY_CONSUMED, st).

Definition NULL_encode_xer {S} (st : unit) : emitter S := emit_nothing.

Definition NULL_xer (tag : list Z) : XerType unit :=
  primitive_xer NULL__xer_body_decode tag tt (fun u => u) (fun S C => NULL_encode_xer).

Section Integers.
Context (specs : option asn_INTEGER_specifics_t) (tag : list Z).

(** What a failing reader leaves in the INTEGER is not modelled: the old value
    stands for it. *)
Definition integer_body (st : INTEGER_t) (chunk_buf : list Z) : option (xer_pbd_rval * INTEGER_t) :=
  '(bret, st') ← INTEGER__xer_body_decode specs chunk_buf; Some (bret, default st st').

Definition INTEGER_decode_xer (xml_tag : list Z) (st : INTEGER_t) (buf_ptr : list Z) : option (asn_dec_rval_code * Z * INTEGER_t) :=
  xer_decode_primitive integer_body xml_tag st buf_ptr.

Definition no_integer : INTEGER_t := {| i_buf := None |}.

Definition INTEGER_xer : XerType INTEGER_t :=
  primitive_xer integer_body tag no_integer (fun st => st) (fun S C st key => INTEGER_encode_xer specs (Some st) key).

Definition NativeInteger_decode_xer (xml_tag : list Z) (native : Z) (buf_ptr : list Z) : option (asn_dec_rval_code * Z * Z) :=
  '(code, consumed, st) ← INTEGER_decode_xer xml_tag no_integer buf_ptr;
  if decide (code = RC_OK) then
    r ← (if is_unsigned specs then Some (asn_INTEGER2ulong st) else asn_INTEGER2long st);
    Some match r with
         | Conv_OK l => (RC_OK, consumed, s64 l)
         | _ => (RC_FAIL, 0, native)
         end
  else Some (code, 0, native).

Definition NativeInteger_encode_xer {S} `{Consumer S} (native : Z) : emitter S :=
  callback [decimal (if is_unsigned specs then u64 native else native)].

Definition NativeEnumerated_encode_xer {S} `{Consumer S} (native : Z) : emitter S := fun key =>
  el ← INTEGER_map_value2enum specs native;
  Some match el with
       | Some el => asn__format_to_callback (empty_tag (chars (enum_name el))) key
       | None => (-1, key)
       end.

(** The types stored in a long differ in their printers. *)
Definition native_xer (encode : forall S, Consumer S -> Z -> emitter S) : XerType Z := {|
  xer_struct := Z;
  xer_value n := n;
  xml_tag := tag;
  xer_encoder S C n ilevel canonical := encode S C n;
  xer_decoder opt_mname st buf :=
    '(code, consumed, n) ← NativeInteger_decode_xer (default tag opt_mname) (default 0 st) buf; Some (code, consumed, Some n)
|}.
Definition NativeInteger_xer : XerType Z := native_xer (fun S C => NativeInteger_encode_xer).
Definition NativeEnumerated_xer : XerType Z := native_xer (fun S C => NativeEnumerated_encode_xer).
End Integers.

(** ** Lemmas: elements of primitive values *)

Section Elements.
Context {A : Type} (prim : A -> list Z -> option (xer_pbd_rval * A)) (name : list Z) (Hname : name_ok name).

Lemma primitive_text text a a' rest : text <> [] -> Forall plain text -> xer_whitespace_span text = 0 ->
  prim a text = Some (XPBD_BODY_CONSUMED, a') ->
  xer_decode_primitive prim name a (element name text ++ rest) = Some (RC_OK, Z.of_nat (length (element name text)), a').
Proof using Hname.
  intros Hne Hplain Hspan Hprim. unfold xer_decode_primitive.
  rewrite (element_decode _ _ name Hname text _ {| struct_key := a'; decoded_something := true; want_more := false |}); [done|done|done|].
  intros _. unfold xer_decode__primitive_body. cbn [decoded_something negb struct_key]. rewrite Hspan, drop_0, Hprim. done.
Qed.

Lemma primitive_empty a a' rest : prim a [] = Some (XPBD_BODY_CONSUMED, a') ->
  xer_decode_primitive prim name a (element name [] ++ rest) = Some (RC_OK, Z.of_nat (length (element name [])), a').
Proof using Hname.
  intros Hprim. unfold xer_decode_primitive.
  rewrite (element_decode _ _ name Hname [] _ {| struct_key := a; decoded_something := false; want_more := false |}); [|constructor|done|done].
  cbn [mbind option_bind decoded_something struct_key]. rewrite Hprim. done.
Qed.

(** A value that is an empty tag. *)
Lemma primitive_tag tag a a' rest : name_ok tag -> tag <> name -> prim a (empty_tag tag) = Some (XPBD_BODY_CONSUMED, a') ->
  xer_decode_primitive prim name a (element name (empty_tag tag) ++ rest) =
    Some (RC_OK, Z.of_nat (length (element name (empty_tag tag))), a').
Proof using Hname.
  intros Htag Hne Hprim. unfold xer_decode_primitive, element.
  set (octets := opening name ++ empty_tag tag ++ closing name).
  assert (Hfuel : exists f, general_fuel (octets ++ rest) = S (S (S f))).
  { exists (general_fuel (octets ++ rest) - 3)%nat. unfold general_fuel, octets, opening, closing, empty_tag. rewrite !length_app. cbn [length]. lia. }
  destruct Hfuel as [f ->]. unfold octets. rewrite <- !app_assoc, general_open by done.
  rewrite (general_tag _ _ name Hname _ tag (xer_decode__unexpected_tag prim) 0 _
    {| struct_key := a'; decoded_something := true; want_more := false |}); [|done|done|done| |done].
  - rewrite general_close by done. cbn [mbind option_bind decoded_something struct_key]. rewrite !length_app. do 3 f_equal. lia.
  - unfold xer_decode__unexpected_tag. cbn [empty_tag head]. rewrite bool_decide_true by done. cbn [negb decoded_something struct_key]. by rewrite Hprim.
Qed.
End Elements.

Lemma length_element name text : length (element name text) = (length name + 2 + (length text + (length name + 3)))%nat.
Proof. unfold element, opening, closing. cbn [length]. rewrite !length_app. cbn [length]. rewrite length_app. cbn [length]. lia. Qed.

(** ** BOOLEAN and NULL *)

Definition boolean_text (b : BOOLEAN_t) : list Z := empty_tag (if negb (bool_int b =? 0) then true_tag else false_tag).

Lemma tags_names : name_ok true_tag /\ name_ok false_tag.
Proof. split; (split; [eexists; split; reflexivity|repeat constructor]). Qed.

Section BoolNull.
Context (tag : list Z).

Definition boolean_xer_laws : @XerTypeLaws BOOLEAN_t (BOOLEAN_xer tag).
Proof.
  refine (@Build_XerTypeLaws BOOLEAN_t (BOOLEAN_xer tag) (fun _ => True) (fun name => name <> true_tag /\ name <> false_tag)
    (fun _ b => {| bool_int := Z.b2z (negb (bool_int b =? 0)) |}) (fun b _ _ => boolean_text b) _ _ _ (fun _ _ _ _ => eq_refl)).
  - intros S C A b ilevel canonical _. cbn. unfold BOOLEAN_encode_xer.
    eapply emits_eq; [apply callback_emits|]. unfold boolean_text. by destruct (negb _).
  - intros b ilevel canonical opt_mname rest _ name Hname [H1 H2]. destruct tags_names as [Ht Hf].
    exists {| bool_int := Z.b2z (negb (bool_int b =? 0)) |}. split; [|reflexivity].
    cbn [xer_decoder BOOLEAN_xer primitive_xer xml_tag default from_option]. fold name. unfold boolean_text.
    destruct (negb _).
    + rewrite (primitive_tag _ name Hname true_tag _ {| bool_int := 1 |} rest Ht); [done|by apply not_eq_sym|done].
    + rewrite (primitive_tag _ name Hname false_tag _ {| bool_int := 0 |} rest Hf); [done|by apply not_eq_sym|done].
  - intros b ilevel canonical _. split; [done|]. unfold boolean_text. cbn. by destruct (bool_int b =? 0).
Defined.

Definition null_xer_laws : @XerTypeLaws unit (NULL_xer tag).
Proof.
  refine (@Build_XerTypeLaws unit (NULL_xer tag) (fun _ => True) (fun _ => True) (fun _ u => u) (fun _ _ _ => []) _ _ _ (fun _ _ _ _ => eq_refl)).
  - intros S C A u ilevel canonical _. apply nothing_emits.
  - intros u ilevel canonical opt_mname rest _ name Hname _. exists tt. split; [|by destruct u].
    change (('(c, n, a) ← xer_decode_primitive NULL__xer_body_decode name tt (element name [] ++ rest); Some (c, n, Some a)) =
      Some (RC_OK, Z.of_nat (length (element name [])), Some tt)).
    rewrite (primitive_empty NULL__xer_body_decode name Hname tt tt rest eq_refl). reflexivity.
  - intros ? ? ? _. split; [exact I|reflexivity].
Defined.
End BoolNull.

(** ** Integers *)

(** Text [primitive_text] can read. *)
Definition text_ok (text : list Z) : Prop := text <> [] /\ Forall plain text /\ xer_whitespace_span text = 0.

Lemma text_ok_chars text : text <> [] -> Forall (fun c => 33 <= c /\ c <> 60) text -> text_ok text.
Proof.
  intros Hne H. split; [done|]. split; [eapply Forall_impl; [exact H|]; intros c [_ Hc]; exact Hc|].
  destruct text as [|c text]; [done|]. apply Forall_cons in H as [[H _] _]. cbn [xer_whitespace_span].
  by rewrite !(proj2 (Z.eqb_neq c _)) by lia.
Qed.

Lemma decimal_text_ok v : is_long v -> text_ok (decimal v).
Proof.
  intros Hv. destruct (decimal_ok v Hv) as (pre & ds & -> & Hne & Hds & Hpre). apply text_ok_chars.
  - intros E. apply app_eq_nil in E as [_ E]. done.
  - apply Forall_app. split.
    + destruct Hpre as [(-> & _)|(-> & _)]; repeat constructor; lia.
    + eapply Forall_impl; [exact Hds|]. intros c Hc. unfold is_digit in Hc. cbn in Hc. lia.
Qed.

#[local] Instance is_long_dec v : Decision (is_long v).
Proof. unfold is_long. apply _. Defined.

Lemma is_long_test v : (LONG_MIN <=? v) && (v <=? LONG_MAX) = bool_decide (is_long v).
Proof. apply eq_true_iff_eq. by rewrite andb_true_iff, !Z.leb_le, bool_decide_eq_true. Qed.

Lemma hex_digit_range n : 0 <= n < 16 -> 48 <= hex_digit n /\ hex_digit n <> 60.
Proof. intros H. unfold hex_digit. zcase; lia. Qed.

Lemma hex_text_chars l : bytes_ok l -> Forall (fun c => 33 <= c /\ c <> 60) (hex_text l).
Proof.
  induction l as [|b l IH]; intros Hok; [constructor|]. apply Forall_cons in Hok as [Hb Hok].
  assert (Ho : Forall (fun c => 33 <= c /\ c <> 60) (hex_octet b)).
  { unfold hex_octet, byte_ok in *. rewrite Z.shiftr_div_pow2 by lia. change 15 with (Z.ones 4). rewrite Z.land_ones by lia. change (2 ^ 4) with 16.
    pose proof (hex_digit_range (b / 16) ltac:(split; [apply Z.div_pos; lia|apply Z.div_lt_upper_bound; lia])).
    pose proof (hex_digit_range (b mod 16) ltac:(apply Z.mod_pos_bound; lia)). repeat constructor; lia. }
  destruct l as [|c l]; [exact Ho|]. change (hex_text (b :: c :: l)) with (hex_octet b ++ 58 :: hex_text (c :: l)).
  apply Forall_app. split; [done|]. constructor; [lia|by apply IH].
Qed.

(** A type whose maps, if it has any, are as the compiler emits them. *)
Definition named_type_ok (specs : option asn_INTEGER_specifics_t) : Prop :=
  match specs with Some sp => maps_ok specs /\ tags_ok sp | None => True end.

Lemma integer_named_ok specs : integer_type_ok specs -> named_type_ok specs.
Proof. intros (_ & Hm & Ht). by destruct specs. Qed.

Section IntegerLaws.
Context (specs : option asn_INTEGER_specifics_t) (tag : list Z) (Htype : integer_type_ok specs)
  (Hnames : match specs with Some sp => Forall (fun el => name_ok (chars (enum_name el))) (value2enum sp) | None => True end).

(** Names the elements can have: not those of the values. *)
Definition not_value_name (name : list Z) : Prop :=
  match specs with Some sp => Forall (fun el => chars (enum_name el) <> name) (value2enum sp) | None => True end.

(** The name of a value. *)
Definition value_name (v : Z) : option asn_INTEGER_enum_map_t := default None (INTEGER_map_value2enum specs v).

Lemma value_name_ok v : INTEGER_map_value2enum specs v = Some (value_name v) /\
  forall el, value_name v = Some el -> exists sp, specs = Some sp /\ el ∈ value2enum sp /\ nat_value el = v.
Proof using.
  unfold value_name. destruct (value2enum_found specs v) as (r & -> & Hr). split; [done|].
  intros el Hel. cbn in Hel. subst r. exact Hr.
Qed.

Lemma named_element {A} (body : A -> list Z -> option (xer_pbd_rval * A)) name el a a' rest :
  name_ok name -> not_value_name name -> value_name (nat_value el) = Some el ->
  body a (empty_tag (chars (enum_name el))) = Some (XPBD_BODY_CONSUMED, a') ->
  xer_decode_primitive body name a (element name (empty_tag (chars (enum_name el))) ++ rest) =
    Some (RC_OK, Z.of_nat (length (element name (empty_tag (chars (enum_name el))))), a').
Proof using Hnames.
  intros Hname Hnot Hel Hbody. destruct (value_name_ok (nat_value el)) as [_ Hv]. destruct (Hv el Hel) as (sp & Hsp & Hin & _).
  unfold not_value_name in Hnot. rewrite Hsp in Hnot, Hnames. rewrite Forall_forall in Hnames, Hnot. apply primitive_tag; auto.
Qed.

Lemma named_body v el st : named_type_ok specs -> value_name v = Some el ->
  integer_body specs st (empty_tag (chars (enum_name el))) = Some (XPBD_BODY_CONSUMED, asn_imax2INTEGER v).
Proof using.
  intros Hnt Hel. destruct (value_name_ok v) as [_ Hv]. destruct (Hv el Hel) as (sp & Hsp & Hin & Hval).
  unfold named_type_ok in Hnt. unfold integer_body. rewrite Hsp in Hnt |- *. destruct Hnt as [Hm Ht].
  change (empty_tag (chars (enum_name el))) with ([60] ++ chars (enum_name el) ++ [47; 62]).
  rewrite enum_decode by done. cbn [mbind option_bind default from_option]. by rewrite Hval.
Qed.

Lemma decimal_body v st : is_long v -> integer_body specs st (decimal v) = Some (XPBD_BODY_CONSUMED, asn_imax2INTEGER v).
Proof using. intros Hv. unfold integer_body. by rewrite decimal_decode. Qed.

(** The text of an INTEGER of the octets [l]. *)
Definition integer_text (l : list Z) : list Z :=
  if decide (is_long (int_val l)) then
    match value_name (int_val l) with
    | Some el => empty_tag (chars (enum_name el))
    | None => decimal (int_val l)
    end
  else hex_text l.

(** What there is a text for: a strict enumeration prints the values it names. *)
Definition integer_dom (st : INTEGER_t) : Prop :=
  bytes_ok (i_bytes st) /\ i_bytes st <> [] /\ i_buf st = Some (i_bytes st) /\
  (is_strict specs = true -> is_long (int_val (i_bytes st)) /\ is_Some (value_name (int_val (i_bytes st)))).

Definition integer_norm (st : INTEGER_t) : INTEGER_t :=
  if decide (is_long (int_val (i_bytes st))) then asn_imax2INTEGER (int_val (i_bytes st)) else st.

Lemma integer_emits {S} `{HC : Consumer S} `{HA : !AppendConsumer S} st : integer_dom st ->
  emits (fun key : S => INTEGER_encode_xer specs (Some st) key) (integer_text (i_bytes st)).
Proof using Htype.
  intros (Hok & Hne & Hbuf & Hstrict) key. destruct st as [[l|]]; [|done]. cbn [i_bytes i_buf default from_option id] in *. unfold INTEGER_encode_xer. destruct Htype as (Huns & Hm & Ht). unfold INTEGER__dump. fold (of_bytes l).
  rewrite Huns, INTEGER2imax_ok by done. cbn [mbind option_bind]. unfold integer_text.
  assert (Hret : forall text, text <> [] -> exists key', ('(encoded, key) ← Some (asn__format_to_callback text key); Some (if encoded <? 0 then -1 else encoded, key)) =
      Some (Z.of_nat (length text), key') /\ written key' = written key ++ text).
  { intros text _. unfold asn__format_to_callback. destruct (consume_append text key) as (k & -> & Hk). cbn. zcase. by exists k. }
  destruct (decide (is_long (int_val l))) as [Hl|Hl].
  - rewrite is_long_test, bool_decide_true by done. cbn [mbind option_bind]. rewrite s64_small by (unfold is_long in Hl; long_bounds; lia). rewrite orb_true_r.
    destruct (value_name_ok (int_val l)) as [-> _]. cbn [mbind option_bind]. destruct (value_name (int_val l)) as [el|]; [by apply Hret|].
    fold (is_strict specs). destruct (is_strict specs); [by destruct (Hstrict eq_refl) as [_ []]|]. cbn [andb].
    apply Hret. by destruct (decimal_text_ok _ Hl).
  - rewrite is_long_test, bool_decide_false by done. cbn [mbind option_bind]. fold (is_strict specs). destruct (is_strict specs); [by destruct (Hstrict eq_refl)|]. cbn [andb].
    change (i_bytes (of_bytes l)) with l. assert (Hc : colon_text l <> []) by (rewrite colon_hex_text by done; by destruct (hex_text l)).
    destruct (dump_hex_ok l [] 0 key Hc) as (key' & -> & Hk). cbn [app] in Hk |- *. rewrite colon_hex_text, length_app, Nat.add_sub in * by done.
    rewrite take_app_length in Hk. cbn [mbind option_bind length]. exists key'. split; [|done]. zcase. do 2 f_equal. lia.
Qed.

Lemma integer_element name st a rest : integer_dom st -> name_ok name -> not_value_name name ->
  let octets := element name (integer_text (i_bytes st)) in
  INTEGER_decode_xer specs name a (octets ++ rest) = Some (RC_OK, Z.of_nat (length octets), integer_norm st).
Proof using Htype Hnames.
  intros (Hok & Hne & Hbuf & _) Hname Hnot octets. destruct st as [[l|]]; [|done].
  cbn [i_bytes i_buf default from_option id] in *. change (i_bytes {| i_buf := Some l |}) with l in *.
  unfold octets, INTEGER_decode_xer, integer_text, integer_norm. cbn [i_bytes i_buf default from_option id].
  destruct (decide (is_long (int_val l))) as [Hl|Hl].
  - destruct (value_name (int_val l)) as [el|] eqn:Hel.
    + destruct (value_name_ok (int_val l)) as [_ Hv]. destruct (Hv el Hel) as (_ & _ & _ & Hval).
      apply named_element; [done|done|by rewrite Hval|apply named_body; [by apply integer_named_ok|done]].
    + destruct (decimal_text_ok _ Hl) as (H1 & H2 & H3). by apply primitive_text, decimal_body.
  - assert (Hlong : exists b b' r, l = b :: b' :: r).
    { destruct l as [|b [|b' r]]; [done| |by eauto]. pose proof (int_val_bound [b] Hok Hne) as Hb. cbn [length] in Hb.
      change (2 ^ (8 * Z.of_nat 1 - 1)) with 128 in Hb. destruct Hl. unfold is_long. long_bounds. lia. }
    destruct Hlong as (b & b' & r & ->).
    assert (Htext : text_ok (hex_text (b :: b' :: r))) by (apply text_ok_chars; [done|by apply hex_text_chars]).
    destruct Htext as (H1 & H2 & H3). apply primitive_text; [done..|]. unfold integer_body. by rewrite hex_decode.
Qed.

Lemma integer_norm_ok st : integer_dom st -> integer_dom (integer_norm st) /\ integer_text (i_bytes (integer_norm st)) = integer_text (i_bytes st).
Proof using.
  intros Hd. unfold integer_norm. destruct (decide (is_long (int_val (i_bytes st)))) as [Hl|]; [|done].
  destruct (imax2INTEGER_ok _ Hl) as (l' & -> & Hok & Hne & _ & _ & Hv). destruct Hd as (_ & _ & _ & Hs).
  change (i_bytes (of_bytes l')) with l'. unfold integer_dom, integer_text. change (i_bytes (of_bytes l')) with l'.
  rewrite Hv. split; [|by rewrite !decide_True]. split; [done|]. split; [done|]. split; [done|exact Hs].
Qed.

Definition integer_xer_laws : @XerTypeLaws INTEGER_t (INTEGER_xer specs tag).
Proof using Htype Hnames.
  refine (@Build_XerTypeLaws INTEGER_t (INTEGER_xer specs tag) integer_dom not_value_name (fun _ => integer_norm)
    (fun st _ _ => integer_text (i_bytes st)) _ _ _ (fun _ _ _ _ => eq_refl)).
  - intros S C A st ilevel canonical Hd. by apply integer_emits.
  - intros st ilevel canonical opt_mname rest Hd name Hname Hnot. exists (integer_norm st). split; [|reflexivity].
    change (('(c, n, a) ← INTEGER_decode_xer specs name no_integer (element name (integer_text (i_bytes st)) ++ rest); Some (c, n, Some a)) =
      Some (RC_OK, Z.of_nat (length (element name (integer_text (i_bytes st)))), Some (integer_norm st))).
    rewrite integer_element by done. reflexivity.
  - intros st ilevel canonical Hd. by apply integer_norm_ok.
Defined.
End IntegerLaws.

(** ** Native integers and enumerations *)

Section NativeLaws.
Context (specs : option asn_INTEGER_specifics_t) (tag : list Z).

Lemma native_of_octets v : is_long v -> (is_unsigned specs = true -> 0 <= v) ->
  (r ← (if is_unsigned specs then Some (asn_INTEGER2ulong (asn_imax2INTEGER v)) else asn_INTEGER2long (asn_imax2INTEGER v));
   Some match r with Conv_OK l => (RC_OK, s64 l) | _ => (RC_FAIL, 0) end) = Some (RC_OK, v).
Proof.
  intros Hv Hu. destruct (imax2INTEGER_ok v Hv) as (l & -> & Hok & Hne & _ & _ & Hval). destruct (is_unsigned specs).
  - unfold asn_INTEGER2ulong. rewrite INTEGER2umax_ok by done. rewrite <- int_val_nonneg, Hval by (rewrite ?Hval; auto).
    unfold is_long in Hv. long_bounds. zcases. cbn [mbind option_bind]. by rewrite s64_small by lia.
  - rewrite INTEGER2long_octets, Hval by (rewrite ?Hval; done). cbn [mbind option_bind].
    by rewrite s64_small by (unfold is_long in Hv; long_bounds; lia).
Qed.

(** A native value from the INTEGER of its element. *)
Lemma native_element name v octets n rest : is_long v -> (is_unsigned specs = true -> 0 <= v) ->
  INTEGER_decode_xer specs name no_integer (octets ++ rest) = Some (RC_OK, n, asn_imax2INTEGER v) ->
  NativeInteger_decode_xer specs name 0 (octets ++ rest) = Some (RC_OK, n, v).
Proof.
  intros Hv Hu Hd. unfold NativeInteger_decode_xer. rewrite Hd. cbn [mbind option_bind]. rewrite decide_True by done.
  pose proof (native_of_octets v Hv Hu) as H.
  destruct (if is_unsigned specs then _ else _) as [[l| |]|]; cbn [mbind option_bind] in *; try done. by injection H as ->.
Qed.

Definition native_dom (v : Z) : Prop := is_long v /\ (is_unsigned specs = true -> 0 <= v).

Definition native_integer_xer_laws : @XerTypeLaws Z (NativeInteger_xer specs tag).
Proof.
  refine (@Build_XerTypeLaws Z (NativeInteger_xer specs tag) native_dom (fun _ => True) (fun _ v => v) (fun v _ _ => decimal v) _ _ _ (fun _ _ _ _ => eq_refl)).
  - intros S C A v ilevel canonical [Hv Hu]. cbn. unfold NativeInteger_encode_xer.
    eapply emits_eq; [apply callback_emits|]. cbn [concat]. rewrite app_nil_r. destruct (is_unsigned specs); [|done].
    specialize (Hu eq_refl). rewrite u64_small; [done|]. unfold is_long in Hv. long_bounds. change (2 ^ 64) with 18446744073709551616. lia.
  - intros v ilevel canonical opt_mname rest [Hv Hu] name Hname _. exists v. split; [|reflexivity].
    change (('(c, n, a) ← NativeInteger_decode_xer specs name 0 (element name (decimal v) ++ rest); Some (c, n, Some a)) =
      Some (RC_OK, Z.of_nat (length (element name (decimal v))), Some v)).
    rewrite (native_element name v _ (Z.of_nat (length (element name (decimal v))))); [reflexivity|done|done|].
    destruct (decimal_text_ok v Hv) as (H1 & H2 & H3). by apply primitive_text, decimal_body.
  - intros v ilevel canonical Hd. split; [exact Hd|reflexivity].
Defined.

Context (Htype : named_type_ok specs)
  (Hnames : match specs with Some sp => Forall (fun el => name_ok (chars (enum_name el))) (value2enum sp) | None => True end).

Definition enum_dom (v : Z) : Prop := native_dom v /\ is_Some (value_name specs v).
Definition enum_text (v : Z) : list Z := match value_name specs v with Some el => empty_tag (chars (enum_name el)) | None => [] end.

Definition native_enumerated_xer_laws : @XerTypeLaws Z (NativeEnumerated_xer specs tag).
Proof using Htype Hnames.
  refine (@Build_XerTypeLaws Z (NativeEnumerated_xer specs tag) enum_dom (not_value_name specs) (fun _ v => v) (fun v _ _ => enum_text v) _ _ _ (fun _ _ _ _ => eq_refl)).
  - intros S C A v ilevel canonical [_ [el Hel]] key. cbn. unfold NativeEnumerated_encode_xer, enum_text.
    destruct (value_name_ok specs v) as [-> _]. rewrite Hel. cbn [mbind option_bind]. unfold asn__format_to_callback.
    destruct (consume_append (empty_tag (chars (enum_name el))) key) as (k & -> & Hk). cbn. by exists k.
  - intros v ilevel canonical opt_mname rest [[Hv Hu] [el Hel]] name Hname Hnot. exists v. split; [|reflexivity].
    unfold enum_text. rewrite Hel. destruct (value_name_ok specs v) as [_ Hin]. destruct (Hin el Hel) as (sp & Hsp & Hin' & Hval).
    set (octets := element name (empty_tag (chars (enum_name el)))).
    change (('(c, n, a) ← NativeInteger_decode_xer specs name 0 (octets ++ rest); Some (c, n, Some a)) = Some (RC_OK, Z.of_nat (length octets), Some v)).
    rewrite (native_element name v _ (Z.of_nat (length octets))); [reflexivity|done|done|].
    unfold octets. unfold INTEGER_decode_xer. rewrite (named_element specs Hnames _ name el no_integer (asn_imax2INTEGER v)); [done|done|done|by rewrite Hval|by apply named_body].
  - intros v ilevel canonical Hd. split; [exact Hd|reflexivity].
Defined.
End NativeLaws.

(** ** Any octets *)

Section Any.
Context {A : Type} (prim : A -> list Z -> option (xer_pbd_rval * A)) (Hprim : forall a chunk, bytes_ok chunk -> is_Some (prim a chunk)).

Lemma judge_range answer bret (a : A) arg : 0 <= answer -> (judge answer bret a arg).1 = -1 \/ (judge answer bret a arg).1 = answer.
Proof. destruct bret; cbn; auto. Qed.

Lemma whitespace_span_range l : 0 <= xer_whitespace_span l <= Z.of_nat (length l).
Proof. induction l as [|c l IH]; cbn [xer_whitespace_span length]; [lia|]. case_match; lia. Qed.

Lemma primitive_body_any chunk more arg : bytes_ok chunk -> exists n arg', xer_decode__primitive_body prim chunk more arg = Some (n, arg') /\
  (n = -1 \/ n = Z.of_nat (length chunk)).
Proof using Hprim.
  intros Hok. unfold xer_decode__primitive_body. destruct (decoded_something arg).
  { case_match; eexists _, _; split; try done; auto. }
  destruct (negb more); [eexists _, _; split; [done|by left]|].
  destruct (Hprim (struct_key arg) (drop (Z.to_nat (xer_whitespace_span chunk)) chunk)) as [[bret a] ->]; [by apply bytes_ok_drop|]. cbn [mbind option_bind].
  destruct (judge (Z.of_nat (length chunk)) bret a arg) as [n arg'] eqn:Hj. exists n, arg'. split; [done|].
  pose proof (judge_range (Z.of_nat (length chunk)) bret a arg) as H. rewrite Hj in H. apply H. lia.
Qed.

Lemma unexpected_tag_any chunk arg : bytes_ok chunk -> head chunk = Some 60 -> exists n arg', xer_decode__unexpected_tag prim chunk arg = Some (n, arg').
Proof using Hprim.
  intros Hok Hhead. unfold xer_decode__unexpected_tag. rewrite bool_decide_true by done. cbn [negb].
  destruct (decoded_something arg); [by eexists _, _|].
  destruct (Hprim (struct_key arg) chunk Hok) as [[bret a] ->]. cbn [mbind option_bind]. destruct (judge _ _ _ _) as [n arg']. by eexists _, _.
Qed.

Lemma xer_primitive_any name a buf : bytes_ok buf -> exists code n a', xer_decode_primitive prim name a buf = Some (code, n, a') /\
  0 <= n <= Z.of_nat (length buf) /\ (code <> RC_OK -> n = 0) /\ (code = RC_OK -> 0 < n).
Proof using Hprim.
  intros Hok. unfold xer_decode_primitive.
  destruct (general_any false (fun _ => True) (Some (xer_decode__unexpected_tag prim)) (xer_decode__primitive_body prim)) with
    (name := name) (fuel := general_fuel buf) (ctx := fresh_xer) (key := {| struct_key := a; decoded_something := false; want_more := false |}) (buf := buf)
    (consumed := 0) as (code & c & ctx & arg & -> & Hc & Hlt & _); [| |done|by split|unfold general_fuel; lia|].
  - intros chunk more key _ [Hck _]. destruct (primitive_body_any chunk more key Hck) as (n & k & -> & Hn). eexists _, _. split; [done|]. split; [done|].
    destruct Hn as [->| ->]; [by left|right]. split; [lia|done].
  - intros chunk key _ [Hck _] Hhead. destruct (unexpected_tag_any chunk key Hck Hhead) as (n & k & ->). by eexists _, _.
  - cbn [mbind option_bind].
    assert (Hret : forall (code : asn_dec_rval_code) (n : Z) (a : A), (code = RC_OK /\ n = c \/ code <> RC_OK /\ n = 0) -> (code = RC_OK -> 0 < c) ->
      exists code' n' a', Some (code, n, a) = Some (code', n', a') /\ 0 <= n' <= Z.of_nat (length buf) /\ (code' <> RC_OK -> n' = 0) /\ (code' = RC_OK -> 0 < n')).
    { intros code0 n0 a0 [[-> ->]|[Hne ->]] Hpos; eexists _, _, _; (split; [done|]); (split; [lia|]); split; [done|auto|done|done]. }
    destruct code; [specialize (Hlt eq_refl)|by apply Hret; [right|]|destruct (want_more arg); by apply Hret; [right|]].
    destruct (decoded_something arg); [apply Hret; [by left|done]|].
    destruct (Hprim (struct_key arg) []) as [[bret a'] ->]; [apply bytes_ok_nil|]. cbn [mbind option_bind].
    destruct bret; apply Hret; try done; ((by left) || by right).
Qed.

Definition primitive_xer_total {strings T} tag fresh (value : A -> T) encode : @XerTotal strings T (primitive_xer prim tag fresh value encode).
Proof using Hprim.
  refine (@Build_XerTotal strings T (primitive_xer prim tag fresh value encode) (fun _ _ => True) _).
  intros opt_mname st buf _ [Hok _]. destruct (xer_primitive_any (default tag opt_mname) (default fresh st) buf Hok) as (code & n & a & Hd & Hn & _ & Hpos).
  exists code, n, (Some a). split; [|split; [exact Hn|split; [|done]]].
  - change (('(c, n, a) ← xer_decode_primitive prim (default tag opt_mname) (default fresh st) buf; Some (c, n, Some a)) = Some (code, n, Some a)).
    by rewrite Hd.
  - intros E. split; [by apply Hpos|by eexists].
Defined.
End Any.

Lemma integer_body_total specs : maps_ok specs -> forall st chunk, bytes_ok chunk -> is_Some (integer_body specs st chunk).
Proof. intros Hm st chunk _. unfold integer_body. destruct (xer_body_decode_total specs chunk Hm) as [[bret st'] ->]. by eexists. Qed.

Definition boolean_xer_total {strings} tag : @XerTotal strings BOOLEAN_t (BOOLEAN_xer tag) := primitive_xer_total _ (fun a chunk _ => ltac:(by eexists)) _ _ _ _.
Definition null_xer_total {strings} tag : @XerTotal strings unit (NULL_xer tag) := primitive_xer_total _ (fun a chunk _ => ltac:(by eexists)) _ _ _ _.
Definition integer_xer_total {strings} specs tag (Hm : maps_ok specs) : @XerTotal strings INTEGER_t (INTEGER_xer specs tag) :=
  primitive_xer_total _ (integer_body_total specs Hm) _ _ _ _.

Lemma INTEGER2imax_total st : is_Some (asn_INTEGER2imax st).
Proof.
  unfold asn_INTEGER2imax. destruct (i_buf st) as [b|]; [|by eexists]. set (l := if _ : bool then _ else b).
  destruct (8 <? Z.of_nat (length l)); [by eexists|]. case_bool_decide as Hb; [by eexists|]. destruct l as [|x l]; [done|]. by eexists.
Qed.

Definition native_xer_total {strings} specs tag encode (Hm : maps_ok specs) : @XerTotal strings Z (native_xer specs tag encode).
Proof.
  refine (@Build_XerTotal strings Z (native_xer specs tag encode) (fun _ _ => True) _). intros opt_mname st buf _ [Hok _].
  assert (Hd : exists code n v, NativeInteger_decode_xer specs (default tag opt_mname) (default 0 st) buf = Some (code, n, v) /\
    0 <= n <= Z.of_nat (length buf) /\ (code = RC_OK -> 0 < n)).
  { unfold NativeInteger_decode_xer, INTEGER_decode_xer.
    destruct (xer_primitive_any _ (integer_body_total specs Hm) (default tag opt_mname) no_integer buf Hok) as (code & n & a & -> & Hn & _ & Hpos).
    cbn [mbind option_bind]. destruct (decide (code = RC_OK)) as [E|E]; [|eexists _, _, _; split; [done|]; split; [lia|done]].
    specialize (Hpos E). destruct (INTEGER2imax_total a) as [r Hr].
    assert (Hconv : is_Some (if is_unsigned specs then Some (asn_INTEGER2ulong a) else asn_INTEGER2long a)).
    { destruct (is_unsigned specs); [by eexists|]. unfold asn_INTEGER2long. rewrite Hr. by eexists. }
    destruct Hconv as [conv ->]. cbn [mbind option_bind].
    destruct conv; eexists _, _, _; (split; [done|]); (split; [lia|done]). }
  destruct Hd as (code & n & v & Hd & Hn & Hpos). exists code, n, (Some v). split; [|split; [exact Hn|split; [|done]]].
  - change (('(c, n, a) ← NativeInteger_decode_xer specs (default tag opt_mname) (default 0 st) buf; Some (c, n, Some a)) = Some (code, n, Some v)).
    by rewrite Hd.
  - intros E. split; [by apply Hpos|by eexists].
Defined.

(** ** Properties *)

(** The XML text of a value is written and counted in full, whatever is
    written before; in front of anything the reader takes the element and
    comes to [t'].  Text that is not canonical ends with a line feed. *)
Definition xer_survives_as {T} (X : XerType T) (canonical : bool) (t t' : T) : Prop :=
  exists octets, emits (S := ByteBuffer) (xer_encode t canonical) (octets ++ if canonical then [] else [10]) /\
    forall rest, exists st, xer_decode None (octets ++ rest) = Some (RC_OK, Z.of_nat (length octets), Some st) /\ xer_value st = t'.

Definition xer_survives {T} (X : XerType T) (t t' : T) : Prop := forall canonical, xer_survives_as X canonical t t'.

Lemma lawful_survives {T} (X : XerType T) (L : @XerTypeLaws T X) t : name_ok xml_tag -> xer_name xml_tag -> xer_dom t ->
  forall canonical, xer_survives_as X canonical t (xer_norm canonical t).
Proof.
  intros Htag Hname Ht canonical. exists (element xml_tag (xer_text t 1 canonical)).
  split; [by apply xer_encode_emits|]. intros rest. by apply xer_decode_ok.
Qed.

(** Values of the primitive types survive as XML: an INTEGER of any length
    (as the name of the value, a decimal number, or octets in hexadecimal),
    an enumeration, a native integer, a BOOLEAN and a NULL, each written as an
    element by [xer_encode], are read back by [xer_decode], which takes
    exactly the element.  An INTEGER comes back in its shortest octets when it
    fits a long; a strict enumeration has to name the value; an element
    cannot be called like a value. *)
Theorem primitive_xer_roundtrip (specs : option asn_INTEGER_specifics_t) (tag : list Z) (st : INTEGER_t) (v : Z) (b : BOOLEAN_t) :
  name_ok tag -> named_type_ok specs ->
  match specs with Some sp => Forall (fun el => name_ok (chars (enum_name el))) (value2enum sp) | None => True end ->
  not_value_name specs tag ->
  (is_unsigned specs = false -> integer_dom specs st -> xer_survives (INTEGER_xer specs tag) st (integer_norm st)) /\
  (native_dom specs v -> xer_survives (NativeInteger_xer specs tag) v v) /\
  (enum_dom specs v -> xer_survives (NativeEnumerated_xer specs tag) v v) /\
  (tag <> true_tag -> tag <> false_tag -> xer_survives (BOOLEAN_xer tag) b {| bool_int := Z.b2z (negb (bool_int b =? 0)) |}) /\
  xer_survives (NULL_xer tag) tt tt.
Proof.
  intros Htag Htype Hnames Hnot. split; [|split; [|split; [|split]]].
  - intros Hu Hd. assert (Hi : integer_type_ok specs) by (split; [done|]; by destruct specs).
    exact (lawful_survives _ (integer_xer_laws specs tag Hi Hnames) st Htag Hnot Hd).
  - intros Hd. exact (lawful_survives _ (native_integer_xer_laws specs tag) v Htag I Hd).
  - intros Hd. exact (lawful_survives _ (native_enumerated_xer_laws specs tag Htype Hnames) v Htag Hnot Hd).
  - intros H1 H2. exact (lawful_survives _ (boolean_xer_laws tag) b Htag (conj H1 H2) I).
  - exact (lawful_survives _ (null_xer_laws tag) tt Htag I I).
Qed.

Lemma sample_names : Forall (fun el => name_ok (chars (enum_name el))) (value2enum sample_enum) /\ not_value_name (Some sample_enum) (chars "Cause").
Proof.
  split; repeat constructor; try discriminate; eexists; split; reflexivity.
Qed.

Lemma primitive_xer_roundtrip_witness :
  integer_dom None (of_bytes [1; 0; 0; 0; 0; 0; 0; 0; 5]) /\ enum_dom (Some sample_enum) 9 /\
  xer_survives (INTEGER_xer None (chars "Cause")) (of_bytes [1; 0; 0; 0; 0; 0; 0; 0; 5]) (of_bytes [1; 0; 0; 0; 0; 0; 0; 0; 5]) /\
  xer_survives (NativeEnumerated_xer (Some sample_enum) (chars "Cause")) 9 9 /\
  xer_survives (BOOLEAN_xer (chars "Cause")) {| bool_int := 5 |} {| bool_int := 1 |}.
Proof.
  assert (Htag : name_ok (chars "Cause")) by (split; [by exists 67|by repeat constructor]).
  assert (Hi : integer_dom None (of_bytes [1; 0; 0; 0; 0; 0; 0; 0; 5])).
  { split; [repeat (apply bytes_ok_cons; [unfold byte_ok; lia|]); apply bytes_ok_nil|]. split; [done|]. split; [done|discriminate]. }
  assert (He : enum_dom (Some sample_enum) 9) by (split; [split; [unfold is_long; long_bounds; lia|done]|by eexists]).
  destruct sample_names as [Hn Ht].
  split; [exact Hi|]. split; [exact He|]. split; [|split].
  - by apply (primitive_xer_roundtrip None (chars "Cause") (of_bytes [1; 0; 0; 0; 0; 0; 0; 0; 5]) 0 {| bool_int := 5 |}).
  - apply (primitive_xer_roundtrip (Some sample_enum) (chars "Cause") (of_bytes [1]) 9 {| bool_int := 5 |}); [done| |done|done|done].
    apply integer_named_ok, sample_enum_ok.
  - by apply (primitive_xer_roundtrip None (chars "Cause") (of_bytes [1]) 9 {| bool_int := 5 |}).
Defined.

(** C25: [xer_equivalent] decides whether two values have the same text: it
    answers XEQ_SUCCESS when they do, having checked that the text can be
    read back and written again, and XEQ_DIFFERENT when they do not; it
    answers XEQ_FAILURE when one of them is missing.  For any type that keeps
    the contract, as the primitive ones and the strings do. *)
Theorem xer_equivalent_exact {T} (X : XerType T) (L : @XerTypeLaws T X) (t1 t2 : T) :
  name_ok xml_tag -> xer_name xml_tag -> xer_dom t1 -> xer_dom t2 ->
  xer_equivalent (Some t1) (Some t2) =
    Some (if bool_decide (xer_text t1 1 false = xer_text t2 1 false) then XEQ_SUCCESS else XEQ_DIFFERENT) /\
  xer_equivalent (Some t1) None = Some XEQ_FAILURE /\ xer_equivalent None (Some t2) = Some XEQ_FAILURE.
Proof. intros Htag Hname H1 H2. split; [by apply xer_equivalent_ok|done]. Qed.

Lemma xer_equivalent_exact_witness : let X := BOOLEAN_xer (chars "flag") in
  xer_equivalent (Some {| bool_int := 1 |}) (Some {| bool_int := 7 |}) = Some XEQ_SUCCESS /\
  xer_equivalent (Some {| bool_int := 1 |}) (Some {| bool_int := 0 |}) = Some XEQ_DIFFERENT.
Proof.
  intros X. assert (Htag : name_ok (chars "flag")) by (split; [by exists 102|by repeat constructor]).
  assert (Hname : chars "flag" <> true_tag /\ chars "flag" <> false_tag) by (split; discriminate).
  split.
  - exact (proj1 (xer_equivalent_exact X (boolean_xer_laws (chars "flag")) {| bool_int := 1 |} {| bool_int := 7 |} Htag Hname I I)).
  - exact (proj1 (xer_equivalent_exact X (boolean_xer_laws (chars "flag")) {| bool_int := 1 |} {| bool_int := 0 |} Htag Hname I I)).
Defined.

(** Whatever octets are given as the XML text of an INTEGER, a BOOLEAN or
    a NULL, under any name, the reader comes to an answer, takes no more than
    it was given, and nothing when it does not accept. *)
Theorem primitive_xer_terminates (specs : option asn_INTEGER_specifics_t) (tag : list Z) (buf : list Z) :
  maps_ok specs -> bytes_ok buf ->
  let bounded (T : Type) (X : XerType T) :=
    exists code n st, xer_decode None buf = Some (code, n, Some st) /\ 0 <= n <= Z.of_nat (length buf) /\ (code <> RC_OK -> n = 0) in
  bounded INTEGER_t (INTEGER_xer specs tag) /\ bounded BOOLEAN_t (BOOLEAN_xer tag) /\ bounded unit (NULL_xer tag).
Proof.
  intros Hm Hok bounded.
  assert (Hany : forall T A prim fresh (value : A -> T) encode, (forall a chunk, bytes_ok chunk -> is_Some (prim a chunk)) ->
    bounded T (primitive_xer prim tag fresh value encode)).
  { intros T A prim fresh value encode Hprim. destruct (xer_primitive_any prim Hprim tag fresh buf Hok) as (code & n & a & Hd & Hn & Hc & _).
    exists code, n, a. split; [|done].
    change (('(c, n, a) ← xer_decode_primitive prim tag fresh buf; Some (c, n, Some a)) = Some (code, n, Some a)). by rewrite Hd. }
  split; [|split]; apply Hany; [|by eexists..].
  by apply integer_body_total.
Qed.

Lemma primitive_xer_terminates_witness :
  maps_ok (Some sample_enum) /\
  exists code n st, xer_decode (H := INTEGER_xer (Some sample_enum) (chars "Cause")) None (chars "<Cause><red/") = Some (code, n, Some st) /\
    0 <= n <= 12 /\ (code <> RC_OK -> n = 0).
Proof.
  destruct sample_enum_ok as (_ & Hm & _). split; [exact Hm|].
  apply (primitive_xer_terminates (Some sample_enum) (chars "Cause") (chars "<Cause><red/") Hm).
  let l := eval vm_compute in (chars "<Cause><red/") in change (bytes_ok l).
  repeat (apply bytes_ok_cons; [unfold byte_ok; lia|]). apply bytes_ok_nil.
Defined.

(** BOOLEAN's reader cannot have white space in front of the value: the body
    decoder gets an empty text, and breaks. *)
Example boolean_after_space :
  let X := BOOLEAN_xer (chars "flag") in
  (fst ∘ fst <$> xer_decode None (chars "<flag><true/></flag>")) = Some RC_OK /\
  (fst ∘ fst <$> xer_decode None (chars "<flag> <true/></flag>")) = Some RC_FAIL.
Proof. split; vm_compute; reflexivity. Qed.

(** An unsigned value from LONG_MAX on is printed but not read. *)
Definition sample_unsigned : asn_INTEGER_specifics_t :=
  {| value2enum := []; enum2value := []; extension := 0; strict_enumeration := false; field_unsigned := true |}.

Example unsigned_not_read_back :
  let X := NativeInteger_xer (Some sample_unsigned) (chars "n") in
  xer_encode (-1) true {| bb_bytes := [] |} = Some (27, {| bb_bytes := chars "<n>18446744073709551615</n>" |}) /\
  (fst ∘ fst <$> xer_decode None (chars "<n>18446744073709551615</n>")) = Some RC_FAIL.
Proof. split; vm_compute; reflexivity. Qed.
