(* ===== verification/Members.v ===== *)
(** * Members of constructed types (support/constr_TYPE.h)

    [asn_TYPE_member_t] and the structures built from members: one field per
    member, typed by the member's own type.  A structure over members with
    codecs is itself a type with a codec, so constructed types nest. *)
From S2P Require Import Prelude Outcome Consumer BitData PerSupport PerNatural PerCodec Oer OerStream BerPrim BerType Constraints IntegerXer Xer XerPrim.

(** The C record holds the member's place in the structure; here the structure
    is made of fields, and the member says which kind its field is.
    [elm_any] is the flag ATF_ANY_TYPE, [elm_constraints] the checker of the
    member itself, which may be null, and [type_constraints] that of its type.
    [elm_zero] is the zeroed memory of an inline member.  default_value_set
    always succeeds (it only allocates) and is given by the value it sets.
    Open types chosen at run time (ATF_OPEN_TYPE) are left out. *)
Record asn_TYPE_member_t := {
  elm_type : Type;
  elm_per : PerType elm_type;
  elm_oer : OerType elm_type;
  elm_stream : OerStream elm_type;
  elm_ber : BerType elm_type;
  elm_xer : XerType elm_type;
  elm_tag : Z;
  elm_tag_mode : Z;
  elm_any : bool;
  elm_name : string;
  elm_constraints : option (asn_constr_check_f elm_type);
  type_constraints : asn_constr_check_f elm_type;
  elm_pointer : bool;
  elm_optional : Z;
  default_value_cmp : option (elm_type -> Z);
  default_value_set : option elm_type;
  elm_zero : elm_type
}.

#[export] Existing Instance elm_per.
#[export] Existing Instance elm_oer.
#[export] Existing Instance elm_stream.
#[export] Existing Instance elm_ber.
#[export] Existing Instance elm_xer.

(** asn_TYPE_outmost_tag with the member's tag and mode. *)
Definition elm_outmost_tag (m : asn_TYPE_member_t) (t : elm_type m) : Z :=
  if negb (elm_tag_mode m =? 0) then elm_tag m else ber_outmost t.

(** ATF_POINTER: the field is a pointer, possibly null. *)
Definition field (m : asn_TYPE_member_t) : Type :=
  if elm_pointer m then option (elm_type m) else elm_type m.

(** *memb_ptr2: null or the member. *)
Definition memb_ptr (m : asn_TYPE_member_t) : field m -> option (elm_type m) :=
  match elm_pointer m as b return (if b then option (elm_type m) else elm_type m) -> option (elm_type m) with
  | true => fun p => p
  | false => fun v => Some v
  end.

(** Present in the structure: a pointer that is not null, or inline. *)
Definition memb_present (m : asn_TYPE_member_t) (f : field m) : bool :=
  match memb_ptr m f with Some _ => true | None => false end.

(** What a decoder or default_value_set leaves behind [memb_ptr2]. *)
Definition set_memb (m : asn_TYPE_member_t) (p : option (elm_type m)) : field m :=
  match elm_pointer m as b return if b then option (elm_type m) else elm_type m with
  | true => p
  | false => default (elm_zero m) p
  end.

(** elm->default_value_cmp, where there is one, returns 0. *)
Definition is_default (m : asn_TYPE_member_t) (v : elm_type m) : bool :=
  match default_value_cmp m with Some cmp => cmp v =? 0 | None => false end.

(** An entry of the table from tags to members, sorted by tag and member; the
    last two lead to the first and the last entry of the same tag. *)
Record asn_TYPE_tag2member_t := { el_tag : Z; el_no : Z; toff_first : Z; toff_last : Z }.

(** ** Structures *)

Fixpoint fields (ms : list asn_TYPE_member_t) : Type :=
  match ms with
  | [] => unit
  | m :: ms => field m * fields ms
  end.

Definition cons_field {m ms} (f : field m) (fs : option (fields ms)) : option (fields (m :: ms)) :=
  option_map (pair f) fs.

(** CALLOC(1, specs->struct_size) *)
Fixpoint fresh (ms : list asn_TYPE_member_t) : fields ms :=
  match ms with
  | [] => tt
  | m :: ms => (set_memb m None, fresh ms)
  end.

(** The member at an index, and the structure with it replaced. *)
Fixpoint set_default_at (ms : list asn_TYPE_member_t) (i : nat) : fields ms -> option (fields ms) :=
  match ms, i with
  | [], _ => fun _ => None
  | m :: ms, O => fun '(f, fs) =>
      match default_value_set m with
      | Some d => Some (if elm_pointer m && negb (memb_present m f) then set_memb m (Some d) else f, fs)
      | None => Some (f, fs)
      end
  | m :: ms, S i => fun '(f, fs) => fs' ← set_default_at ms i fs; Some (f, fs')
  end.

(** Presence after the elimination of default values. *)
Fixpoint marks (ms : list asn_TYPE_member_t) : fields ms -> list bool :=
  match ms with
  | [] => fun _ => []
  | m :: ms => fun '(f, fs) =>
      match memb_ptr m f with Some v => negb (is_default m v) | None => false end :: marks ms fs
  end.

(** ** Lemmas *)

Lemma set_memb_ptr m f : set_memb m (memb_ptr m f) = f.
Proof. unfold set_memb, memb_ptr, field in *. by destruct (elm_pointer m). Qed.

Lemma memb_ptr_set m t : memb_ptr m (set_memb m (Some t)) = Some t.
Proof. unfold set_memb, memb_ptr. by destruct (elm_pointer m). Qed.

Lemma memb_ptr_inline m f : elm_pointer m = false -> is_Some (memb_ptr m f).
Proof. unfold memb_ptr, field in *. destruct (elm_pointer m); [done|]. by eexists. Qed.

Lemma length_marks ms fs : length (marks ms fs) = length ms.
Proof. induction ms as [|m ms IH]; [done|]. destruct fs as [f fs]. cbn. by rewrite IH. Qed.

(** The members in one table, or as root and additions. *)
Fixpoint join_fields (rs es : list asn_TYPE_member_t) : fields rs -> fields es -> fields (rs ++ es) :=
  match rs with
  | [] => fun _ b => b
  | m :: rs => fun '(f, a) b => (f, join_fields rs es a b)
  end.

Fixpoint split_fields (rs es : list asn_TYPE_member_t) : fields (rs ++ es) -> fields rs * fields es :=
  match rs with
  | [] => fun b => (tt, b)
  | m :: rs => fun '(f, fs) => let '(a, b) := split_fields rs es fs in ((f, a), b)
  end.

(** A contract for every member of a list. *)
Fixpoint members_per_laws (ms : list asn_TYPE_member_t) : Type :=
  match ms with
  | [] => unit
  | m :: ms => @PerTypeLaws (elm_type m) (elm_per m) * members_per_laws ms
  end.

Fixpoint members_oer_laws (ms : list asn_TYPE_member_t) : Type :=
  match ms with
  | [] => unit
  | m :: ms => { L : @OerTypeLaws (elm_type m) (elm_oer m) & @OerStreamLaws (elm_type m) (elm_oer m) L (elm_stream m) } *
               members_oer_laws ms
  end.

Fixpoint members_ber_laws (ms : list asn_TYPE_member_t) : Type :=
  match ms with
  | [] => unit
  | m :: ms => { L : @BerTypeLaws (elm_type m) (elm_ber m) |
                 der_mode (elm_tag_mode m) /\ tagging_ok (elm_tag_mode m) (elm_tag m) } * members_ber_laws ms
  end.

Fixpoint members_xer_laws (ms : list asn_TYPE_member_t) : Type :=
  match ms with
  | [] => unit
  | m :: ms => { L : @XerTypeLaws (elm_type m) (elm_xer m) |
                 name_ok (chars (elm_name m)) /\ xer_name (chars (elm_name m)) } * members_xer_laws ms
  end.

Fixpoint members_xer_total (strings : bool) (ms : list asn_TYPE_member_t) : Type :=
  match ms with
  | [] => unit
  | m :: ms => @XerTotal strings (elm_type m) (elm_xer m) * members_xer_total strings ms
  end.

(** ** Booleans as members, for the examples *)

Definition checked_member (name : string) (own : option (asn_constr_check_f BOOLEAN_t))
    (type : asn_constr_check_f BOOLEAN_t) (pointer : bool) (opt tag : Z) (def : option BOOLEAN_t) : asn_TYPE_member_t := {|
  elm_type := BOOLEAN_t; elm_per := BOOLEAN_per; elm_oer := BOOLEAN_oer; elm_stream := primitive_stream BOOLEAN_t;
  elm_ber := BOOLEAN_ber (replicate 32 0) [4]; elm_xer := BOOLEAN_xer (chars "BOOLEAN"); elm_tag := tag; elm_tag_mode := -1; elm_any := false;
  elm_name := name; elm_constraints := own; type_constraints := type; elm_pointer := pointer; elm_optional := opt;
  default_value_cmp := (fun d v => bool_int v - bool_int d) <$> def; default_value_set := def;
  elm_zero := {| bool_int := 0 |} |}.

Definition boolean_member : bool -> Z -> Z -> option BOOLEAN_t -> asn_TYPE_member_t :=
  checked_member "flag"%string None asn_generic_no_constraint.

Definition boolean_member_ber (pointer : bool) (opt tag : Z) (def : option BOOLEAN_t) (Ht : tag_ok tag) :
    let m := boolean_member pointer opt tag def in
    { L : @BerTypeLaws (elm_type m) (elm_ber m) |
      der_mode (elm_tag_mode m) /\ tagging_ok (elm_tag_mode m) (elm_tag m) } :=
  exist _ (boolean_ber_laws (replicate 32 0) [4] eq_refl ltac:(cbn; lia) boolean_tags_ok)
    (conj (or_intror (or_intror eq_refl)) (or_intror (conj (or_intror eq_refl) Ht))).
