(* ===== verification/ConstrSequence.v ===== *)
(** * SEQUENCE in UPER (support/constr_SEQUENCE.c)

    The root members behind the bitmap of optional ones, default values left
    out, and the extension additions behind their own bitmap as open types. *)
From S2P Require Import Prelude Outcome Consumer BitData PerSupport PerNatural PerCodec OpenType Members.

(** ** Data *)

(** The members with asn_SEQUENCE_specifics_t.  The root members come first
    and the additions last: first_extension is the number of root members of
    an extensible sequence and -1 otherwise. *)
Record asn_SEQUENCE_specifics_t := {
  roots : list asn_TYPE_member_t;
  additions : list asn_TYPE_member_t;
  seq_extensible : bool;
  oms : list Z;
  roms_count : Z;
  aoms_count : Z
}.

Definition sequence_t (specs : asn_SEQUENCE_specifics_t) : Type := fields (roots specs) * fields (additions specs).

(** ** Encoding *)

Section Encode.
Context {S : Type} `{C : Consumer S}.
Implicit Types po : asn_bit_outp S.

(** A call on a stream pointer that may be null. *)
Definition on_stream (put : asn_bit_outp S -> option (Z * asn_bit_outp S)) (po : option (asn_bit_outp S)) :
    option (Z * option (asn_bit_outp S)) :=
  match po with
  | Some po => '(rc, po) ← put po; Some (rc, Some po)
  | None => Some (0, None)
  end.

(** The loop over the additions: [None] for the return of -1, otherwise
    exts_present and exts_count. *)
Fixpoint handle_extensions_loop (ms : list asn_TYPE_member_t) (exts_present exts_count : Z)
    (po1 po2 : option (asn_bit_outp S)) : fields ms ->
    option (option (Z * Z) * option (asn_bit_outp S) * option (asn_bit_outp S)) :=
  match ms with
  | [] => fun _ => Some (Some (exts_present, exts_count), po1, po2)
  | m :: ms => fun '(f, fs) =>
    let present := Z.b2z (memb_present m f) in
    '(rc, po1) ← on_stream (fun po => per_put_few_bits po present 1) po1;
    if negb (rc =? 0) then Some (None, po1, po2) else
    '(rc, po2) ← match memb_ptr m f with
                 | Some v => on_stream (fun po => uper_open_type_put po v) po2
                 | None => Some (0, po2)
                 end;
    if negb (rc =? 0) then Some (None, po1, po2) else
    handle_extensions_loop ms (exts_present + present) (exts_count + 1) po1 po2 fs
  end.

Definition SEQUENCE__handle_extensions (specs : asn_SEQUENCE_specifics_t) (st : sequence_t specs)
    (po1 po2 : option (asn_bit_outp S)) : option (Z * option (asn_bit_outp S) * option (asn_bit_outp S)) :=
  if negb (seq_extensible specs) then Some (0, po1, po2) else
  '(r, po1, po2) ← handle_extensions_loop (additions specs) 0 0 po1 po2 (snd st);
  Some (match r with
        | None => -1
        | Some (exts_present, exts_count) => if negb (exts_present =? 0) then exts_count else 0
        end, po1, po2).

(** The presence bitmap: a bit for each index of [idx] into the members. *)
Fixpoint put_bitmap (idx : list Z) (present : list bool) po : option (Z * asn_bit_outp S) :=
  match idx with
  | [] => Some (0, po)
  | edx :: idx =>
    b ← present !! Z.to_nat edx;
    '(rc, po) ← per_put_few_bits po (Z.b2z b) 1;
    if negb (rc =? 0) then Some (-1, po) else put_bitmap idx present po
  end.

(** The loop over the root elements: er.encoded. *)
Fixpoint put_roots (ms : list asn_TYPE_member_t) (encoded : Z) po : fields ms -> option (Z * asn_bit_outp S) :=
  match ms with
  | [] => fun _ => Some (encoded, po)
  | m :: ms => fun '(f, fs) =>
    match memb_ptr m f with
    | None => if negb (elm_optional m =? 0) then put_roots ms encoded po fs else Some (-1, po)
    | Some v =>
      if is_default m v then put_roots ms encoded po fs else
      enc ← op_uper_encoder;
      '(encoded, po) ← enc S C v po;
      if encoded =? -1 then Some (-1, po) else put_roots ms encoded po fs
    end
  end.

Definition SEQUENCE_encode_uper (specs : asn_SEQUENCE_specifics_t) (st : sequence_t specs) po :
    option (Z * asn_bit_outp S) :=
  '(n_extensions, _, _) ← SEQUENCE__handle_extensions specs st None None;
  if n_extensions <? 0 then Some (-1, po) else
  '(rc, po) ← (if seq_extensible specs then per_put_few_bits po (if negb (n_extensions =? 0) then 1 else 0) 1
               else Some (0, po));
  if negb (rc =? 0) then Some (-1, po) else
  '(rc, po) ← put_bitmap (take (Z.to_nat (roms_count specs)) (oms specs))
                (marks _ (fst st) ++ marks _ (snd st)) po;
  if negb (rc =? 0) then Some (-1, po) else
  '(encoded, po) ← put_roots (roots specs) 0 po (fst st);
  if encoded =? -1 then Some (-1, po) else
  if n_extensions =? 0 then Some (encoded, po) else
  '(rc, po) ← uper_put_nslength po n_extensions;
  if negb (rc =? 0) then Some (-1, po) else
  '(n, po1, _) ← SEQUENCE__handle_extensions specs st (Some po) None;
  po ← po1;
  if negb (n =? n_extensions) then Some (-1, po) else
  '(n, _, po2) ← SEQUENCE__handle_extensions specs st None (Some po);
  po ← po2;
  if negb (n =? n_extensions) then Some (-1, po) else Some (encoded, po).
End Encode.

(** ** Decoding *)

(** A bitmap that was read, as a stream: opmd, epmd. *)
Definition bitmap_stream (octets : list Z) (nbits : Z) : asn_per_data := pd_of_buffer octets 0 nbits.

(** A root element: code, member, what is left of the bitmap, stream. *)
Definition get_root (m : asn_TYPE_member_t) (opmd pd : asn_per_data) :
    option (asn_dec_rval_code * field m * asn_per_data * asn_per_data) :=
  '(present, opmd) ← (if negb (elm_optional m =? 0) then per_get_few_bits opmd 1 else Some (1, opmd));
  if present =? 0 then Some (RC_OK, set_memb m (default_value_set m), opmd, pd)
  else
    dec ← op_uper_decoder (T := elm_type m);
    '(code, p, pd) ← dec pd;
    Some (code, set_memb m p, opmd, pd).

(** The loop over the root elements.  After a failure the caller frees the
    structure; its contents are not modelled. *)
Fixpoint get_roots (ms : list asn_TYPE_member_t) (opmd pd : asn_per_data) :
    option (asn_dec_rval_code * option (fields ms) * asn_per_data) :=
  match ms with
  | [] => Some (RC_OK, Some tt, pd)
  | m :: ms =>
    '(code, f, opmd, pd) ← get_root m opmd pd;
    if decide (code = RC_OK) then
      '(code, fs, pd) ← get_roots ms opmd pd;
      Some (code, cons_field f fs, pd)
    else Some (code, None, pd)
  end.

(** An addition whose presence bit has been read. *)
Definition get_addition (m : asn_TYPE_member_t) (present : Z) (pd : asn_per_data) :
    option (asn_dec_rval_code * field m * asn_per_data) :=
  if present =? 0 then Some (RC_OK, set_memb m None, pd)
  else
    dec ← op_uper_decoder (T := elm_type m);
    '(code, p, pd) ← uper_open_type_get dec pd;
    Some (code, set_memb m p, pd).

(** The loop over the additions, with what is left of the bitmap. *)
Fixpoint get_additions (ms : list asn_TYPE_member_t) (epmd pd : asn_per_data) :
    option (asn_dec_rval_code * option (fields ms) * asn_per_data * asn_per_data) :=
  match ms with
  | [] => Some (RC_OK, Some tt, epmd, pd)
  | m :: ms =>
    '(present, epmd) ← per_get_few_bits epmd 1;
    if present <? 0 then Some (RC_OK, Some (fresh (m :: ms)), epmd, pd) else
    '(code, f, pd) ← get_addition m present pd;
    if decide (code = RC_OK) then
      '(code, fs, epmd, pd) ← get_additions ms epmd pd;
      Some (code, cons_field f fs, epmd, pd)
    else Some (code, None, epmd, pd)
  end.

(** Overflow extensions; false when one could not be skipped. *)
Fixpoint skip_overflow (fuel : nat) (epmd pd : asn_per_data) : option (bool * asn_per_data) :=
  match fuel with
  | O => None
  | S fuel =>
    '(present, epmd) ← per_get_few_bits epmd 1;
    if present =? -1 then Some (true, pd)
    else if present =? 0 then skip_overflow fuel epmd pd
    else
      '(rc, pd) ← uper_open_type_skip pd;
      if negb (rc =? 0) then Some (false, pd) else skip_overflow fuel epmd pd
  end.

Definition SEQUENCE_get_extensions (specs : asn_SEQUENCE_specifics_t) (pd : asn_per_data) :
    option (asn_dec_rval_code * option (fields (additions specs)) * asn_per_data) :=
  '(bmlength, pd) ← uper_get_nslength pd;
  if bmlength <? 0 then Some (RC_WMORE, None, pd) else
  '(rc, epres, pd) ← per_get_many_bits pd false bmlength;
  if negb (rc =? 0) then Some (RC_WMORE, None, pd) else
  '(code, fs, epmd, pd) ← get_additions (additions specs) (bitmap_stream epres bmlength) pd;
  if decide (code = RC_OK) then
    '(ok, pd) ← skip_overflow (S (Z.to_nat bmlength)) epmd pd;
    Some (if (ok : bool) then (RC_OK, fs, pd) else (RC_WMORE, None, pd))
  else Some (code, None, pd).

(** Fill DEFAULT members in extensions. *)
Fixpoint fill_defaults (specs : asn_SEQUENCE_specifics_t) (idx : list Z) (st : sequence_t specs) :
    option (sequence_t specs) :=
  match idx with
  | [] => Some st
  | edx :: idx =>
    let n := length (roots specs) in
    st ← (if edx <? Z.of_nat n then fs ← set_default_at (roots specs) (Z.to_nat edx) (fst st); Some (fs, snd st)
          else fs ← set_default_at (additions specs) (Z.to_nat edx - n) (snd st); Some (fst st, fs));
    fill_defaults specs idx st
  end.

Definition SEQUENCE_decode_uper (specs : asn_SEQUENCE_specifics_t) (pd : asn_per_data) :
    option (asn_dec_rval_code * option (sequence_t specs) * asn_per_data) :=
  '(extpresent, pd) ← (if seq_extensible specs then per_get_few_bits pd 1 else Some (0, pd));
  if extpresent <? 0 then Some (RC_WMORE, None, pd) else
  '(rc, opres, pd) ← (if negb (roms_count specs =? 0) then per_get_many_bits pd false (roms_count specs)
                      else Some (0, [], pd));
  if negb (rc =? 0) then Some (RC_WMORE, None, pd) else
  '(code, rs, pd) ← get_roots (roots specs) (bitmap_stream opres (roms_count specs)) pd;
  if decide (code = RC_OK) then
    '(code, es, pd) ← (if negb (extpresent =? 0) then SEQUENCE_get_extensions specs pd
                       else Some (RC_OK, Some (fresh (additions specs)), pd));
    if decide (code = RC_OK) then
      rs ← rs; es ← es;
      st ← (if seq_extensible specs
            then fill_defaults specs (take (Z.to_nat (aoms_count specs)) (drop (Z.to_nat (roms_count specs)) (oms specs)))
                   (rs, es)
            else Some (rs, es));
      Some (RC_OK, Some st, pd)
    else Some (code, None, pd)
  else Some (code, None, pd).

#[local] Instance SEQUENCE_per (specs : asn_SEQUENCE_specifics_t) : PerType (sequence_t specs) := {
  op_uper_encoder := Some (fun S C st po => SEQUENCE_encode_uper specs st po);
  op_uper_decoder := Some (SEQUENCE_decode_uper specs)
}.

(** ** Specification *)

(** A root member can be left out when it is optional, and then decoding gives
    back what was there: nothing, or the default value. *)
Definition root_dom (m : asn_TYPE_member_t) (L : PerTypeLaws (elm_type m)) (f : field m) : Prop :=
  match memb_ptr m f with
  | None => elm_optional m <> 0 /\ default_value_set m = None
  | Some v => if is_default m v then elm_optional m <> 0 /\ default_value_set m = Some v else per_dom v
  end.

Definition root_bits (m : asn_TYPE_member_t) (L : PerTypeLaws (elm_type m)) (f : field m) : list bool :=
  match memb_ptr m f with
  | Some v => if is_default m v then [] else per_bits v
  | None => []
  end.

Definition addition_dom (m : asn_TYPE_member_t) (L : PerTypeLaws (elm_type m)) (f : field m) : Prop :=
  match memb_ptr m f with
  | Some v => per_dom v /\ per_bits v <> []
  | None => default_value_set m = None
  end.

Definition addition_bits (m : asn_TYPE_member_t) (L : PerTypeLaws (elm_type m)) (f : field m) : list bool :=
  match memb_ptr m f with
  | Some v => open_type_bits (padded_octets (per_bits v))
  | None => []
  end.

Fixpoint all_fields (P : forall m, PerTypeLaws (elm_type m) -> field m -> Prop) (ms : list asn_TYPE_member_t) :
    members_per_laws ms -> fields ms -> Prop :=
  match ms with
  | [] => fun _ _ => True
  | m :: ms => fun '(L, Ls) '(f, fs) => P m L f /\ all_fields P ms Ls fs
  end.

Fixpoint fields_bits (bits : forall m, PerTypeLaws (elm_type m) -> field m -> list bool)
    (ms : list asn_TYPE_member_t) : members_per_laws ms -> fields ms -> list bool :=
  match ms with
  | [] => fun _ _ => []
  | m :: ms => fun '(L, Ls) '(f, fs) => bits m L f ++ fields_bits bits ms Ls fs
  end.

Fixpoint presences (ms : list asn_TYPE_member_t) : fields ms -> list bool :=
  match ms with
  | [] => fun _ => []
  | m :: ms => fun '(f, fs) => memb_present m f :: presences ms fs
  end.

(** The optional members and their marks. *)
Fixpoint optional_positions (i : Z) (ms : list asn_TYPE_member_t) : list Z :=
  match ms with
  | [] => []
  | m :: ms => (if negb (elm_optional m =? 0) then [i] else []) ++ optional_positions (i + 1) ms
  end.

Definition optional_mark (m : asn_TYPE_member_t) (f : field m) : list bool :=
  if negb (elm_optional m =? 0)
  then [match memb_ptr m f with Some v => negb (is_default m v) | None => false end] else [].

Fixpoint optional_marks (ms : list asn_TYPE_member_t) : fields ms -> list bool :=
  match ms with
  | [] => fun _ => []
  | m :: ms => fun '(f, fs) => optional_mark m f ++ optional_marks ms fs
  end.

(** ** Lemmas: the bitmaps *)

Lemma length_presences ms fs : length (presences ms fs) = length ms.
Proof. induction ms as [|m ms IH]; [done|]. destruct fs as [f fs]. cbn. by rewrite IH. Qed.

Lemma put_bitmap_ok {S} `{HC : Consumer S} `{HA : !AppendConsumer S} idx present bs (po : asn_bit_outp S) :
  Forall2 (fun edx b => present !! Z.to_nat edx = Some b) idx bs -> po_wf po ->
  put_res po bs (put_bitmap idx present po) 0.
Proof.
  intros Hbs. revert po. induction Hbs as [|edx b idx bs Hb Hbs IH]; intros po Hw; [by apply put_res_ret|].
  cbn [put_bitmap]. rewrite Hb. cbn [mbind option_bind]. change (b :: bs) with ([b] ++ bs).
  eapply put_res_bind.
  - pose proof (per_put_few_ok po (Z.b2z b) 1 Hw ltac:(lia)) as Hput. by destruct b.
  - intros po1 Hw1. cbn [negb Z.eqb]. by apply IH.
Qed.

Lemma optional_lookup ms (fs : fields ms) pre post :
  Forall2 (fun edx b => (pre ++ marks ms fs ++ post) !! Z.to_nat edx = Some b)
    (optional_positions (Z.of_nat (length pre)) ms) (optional_marks ms fs).
Proof.
  revert pre. induction ms as [|m ms IH]; intros pre; [constructor|]. destruct fs as [f fs].
  cbn [marks optional_positions optional_marks]. apply Forall2_app.
  - unfold optional_mark. destruct (negb _); [|constructor]. constructor; [|constructor]. rewrite Nat2Z.id.
    cbn [app]. by apply list_lookup_middle.
  - set (b := match memb_ptr m f with Some v => _ | None => _ end). specialize (IH fs (pre ++ [b])).
    rewrite length_app, <- app_assoc, Nat2Z.inj_add in IH. exact IH.
Qed.

Lemma get_bitmap_ok (pd : asn_per_data) bs rest : pd_at pd (bs ++ rest) ->
  exists octets pd', per_get_many_bits pd false (Z.of_nat (length bs)) = Some (0, octets, pd') /\
    pd_at pd' rest /\ pd_read pd (Z.of_nat (length bs)) pd' /\
    pd_at (bitmap_stream octets (Z.of_nat (length bs))) bs.
Proof.
  intros Hat. pose proof Hat as (Hw & Hr & Hb). pose proof (pd_at_left _ _ Hat) as Hl. rewrite length_app in Hl.
  destruct (get_many_ok 0 pd (Z.of_nat (length bs)) Hw ltac:(lia)) as (octets & pd' & Hg & Hok & Hbits & Hrd).
  exists octets, pd'. rewrite Nat2Z.id, Hb, take_app_length in Hbits. split_and!; [done| |done|].
  - destruct Hrd as (Hw' & Hb' & _ & _ & Hr' & _). split_and!; [done|congruence|].
    by rewrite Hb', Hb, Nat2Z.id, drop_app_length.
  - pose proof (octets_of_pad8 _ _ Hbits) as Ho. unfold octets_of in Ho.
    split_and!; [split_and!; cbn; try done; try lia| |].
    + Z.div_mod_to_equations; lia.
    + done.
    + unfold pd_bits, pd_left, bitmap_stream, pd_of_buffer. cbn [pd_nbits pd_nboff pd_buffer].
      rewrite Z.sub_0_r, Nat2Z.id, Hbits. unfold pad8. cbn [Z.to_nat drop]. apply take_app_length.
Qed.

(** ** Lemmas: the root members *)

Lemma put_roots_ok {S} `{HC : Consumer S} `{HA : !AppendConsumer S} ms (Ls : members_per_laws ms) fs encoded
    (po : asn_bit_outp S) : all_fields root_dom ms Ls fs -> encoded <> -1 -> po_wf po ->
  exists e, e <> -1 /\ put_res po (fields_bits root_bits ms Ls fs) (put_roots ms encoded po fs) e.
Proof.
  revert Ls fs encoded po. induction ms as [|m ms IH]; intros Ls fs encoded po Hd He Hw.
  { exists encoded. split; [done|]. by apply put_res_ret. }
  destruct Ls as [L Ls], fs as [f fs], Hd as [Hm Hd]. cbn [put_roots fields_bits].
  unfold root_dom, root_bits in *. destruct (memb_ptr m f) as [v|].
  - destruct (is_default m v); [by apply IH|].
    destruct (@per_enc_law _ _ L) as (enc & Henc & Hput & _). rewrite Henc. cbn [mbind option_bind].
    destruct (Hput S _ _ po v Hm Hw) as (e & Hne & po1 & -> & Hw1 & Hb1). cbn [mbind option_bind].
    destruct (Z.eqb_spec e (-1)); [done|]. destruct (IH Ls fs e po1 Hd Hne Hw1) as (e' & Hne' & po2 & -> & Hw2 & Hb2).
    exists e'. split; [done|]. exists po2. split_and!; [done|done|]. by rewrite Hb2, Hb1, app_assoc.
  - destruct Hm as [Ho _]. destruct (Z.eqb_spec (elm_optional m) 0); [done|]. by apply IH.
Qed.

(** What is there is read back, what was left out is filled in. *)
Lemma get_root_ok m (L : PerTypeLaws (elm_type m)) f (opmd pd : asn_per_data) orest rest : root_dom m L f ->
  pd_at opmd (optional_mark m f ++ orest) -> pd_at pd (root_bits m L f ++ rest) ->
  exists opmd' pd', get_root m opmd pd = Some (RC_OK, f, opmd', pd') /\ pd_at opmd' orest /\
    pd_at pd' rest /\ pd_read pd (Z.of_nat (length (root_bits m L f))) pd'.
Proof.
  unfold root_dom, root_bits, optional_mark, get_root. intros Hm Hopt Hat.
  assert (Habsent : elm_optional m <> 0 -> set_memb m (default_value_set m) = f -> pd_at pd rest ->
    pd_at opmd (false :: orest) -> exists opmd' pd', (
      '(present, opmd) ← (if negb (elm_optional m =? 0) then per_get_few_bits opmd 1 else Some (1, opmd));
      if present =? 0 then Some (RC_OK, set_memb m (default_value_set m), opmd, pd)
      else dec ← op_uper_decoder (T := elm_type m); '(code, p, pd) ← dec pd; Some (code, set_memb m p, opmd, pd)) =
      Some (RC_OK, f, opmd', pd') /\ pd_at opmd' orest /\ pd_at pd' rest /\ pd_read pd 0 pd').
  { intros Ho -> Hat0 Hopt0. destruct (Z.eqb_spec (elm_optional m) 0); [done|]. cbn [negb].
    destruct (get_bit opmd _ _ Hopt0) as (opmd1 & -> & Hopt1 & _). exists opmd1, pd. split_and!; [done..|].
    destruct (get_res_ret pd _ tt Hat0) as (pd' & [= <-] & _ & ?). done. }
  destruct (memb_ptr m f) as [v|] eqn:Ep; [destruct (is_default m v)|].
  - destruct Hm as [Ho Hset]. destruct (Z.eqb_spec (elm_optional m) 0); [done|].
    apply Habsent; [done| |done|done]. by rewrite Hset, <- Ep, set_memb_ptr.
  - destruct (@per_dec_law _ _ L) as (dec & -> & Hget). destruct (Hget pd v _ Hm Hat) as (pd1 & Hr & Hat1 & Hrd1).
    destruct (Z.eqb_spec (elm_optional m) 0); cbn [negb] in *;
      [|destruct (get_bit opmd true _ Hopt) as (opmd1 & -> & Hopt1 & _)]; cbn [mbind option_bind Z.eqb Z.b2z];
      rewrite Hr; cbn [mbind option_bind]; rewrite <- Ep, set_memb_ptr; by do 2 eexists.
  - destruct Hm as [Ho Hset]. destruct (Z.eqb_spec (elm_optional m) 0); [done|].
    apply Habsent; [done| |done|done]. by rewrite Hset, <- Ep, set_memb_ptr.
Qed.

Lemma get_roots_ok ms (Ls : members_per_laws ms) fs (opmd pd : asn_per_data) orest rest :
  all_fields root_dom ms Ls fs -> pd_at opmd (optional_marks ms fs ++ orest) ->
  pd_at pd (fields_bits root_bits ms Ls fs ++ rest) ->
  dec_res pd (Z.of_nat (length (fields_bits root_bits ms Ls fs))) rest (get_roots ms opmd pd) fs.
Proof.
  revert Ls fs opmd pd. induction ms as [|m ms IH]; intros Ls fs opmd pd Hd Hopt Hat.
  { destruct fs. exists pd. destruct (get_res_ret pd rest tt Hat) as (pd' & [= <-] & ? & ?). done. }
  destruct Ls as [L Ls], fs as [f fs], Hd as [Hm Hd]. cbn [get_roots fields_bits optional_marks] in *.
  rewrite <- app_assoc in Hat, Hopt.
  destruct (get_root_ok m L f opmd pd _ _ Hm Hopt Hat) as (opmd1 & pd1 & -> & Hopt1 & Hat1 & Hrd1).
  cbn [mbind option_bind]. rewrite decide_True by done.
  destruct (IH Ls fs opmd1 pd1 Hd Hopt1 Hat1) as (pd2 & -> & Hat2 & Hrd2). exists pd2. split_and!; [done|done|].
  rewrite length_app, Nat2Z.inj_add. eapply pd_read_trans; [lia..|done|done].
Qed.

(** ** Lemmas: the extension additions *)

Lemma set_absent m f : memb_present m f = false -> set_memb m None = f.
Proof. unfold memb_present. rewrite <- (set_memb_ptr m f) at 2. by destruct (memb_ptr m f). Qed.

Definition count_present (ms : list asn_TYPE_member_t) (fs : fields ms) : Z :=
  Z.of_nat (length (filter Is_true (presences ms fs))).

Lemma count_present_cons m ms f fs :
  count_present (m :: ms) (f, fs) = Z.b2z (memb_present m f) + count_present ms fs.
Proof.
  unfold count_present. cbn [presences]. destruct (memb_present m f); [|done].
  rewrite filter_cons_True by done. cbn [length Z.b2z]. lia.
Qed.

(** The three uses of the loop: to count, to write the bitmap, to write the
    fields. *)
Lemma extensions_count {S} `{HC : Consumer S} ms fs p c :
  handle_extensions_loop (S := S) ms p c None None fs =
  Some (Some (p + count_present ms fs, c + Z.of_nat (length ms)), None, None).
Proof.
  revert fs p c. induction ms as [|m ms IH]; intros fs p c.
  { cbn. by rewrite !Z.add_0_r. }
  destruct fs as [f fs]. cbn [handle_extensions_loop on_stream mbind option_bind negb Z.eqb].
  rewrite count_present_cons. cbn [length]. unfold memb_present.
  destruct (memb_ptr m f); cbn [mbind option_bind negb Z.eqb Z.b2z]; rewrite IH; do 5 f_equal; lia.
Qed.

Section Put.
Context {S : Type} `{HC : Consumer S} `{HA : !AppendConsumer S}.

Lemma extensions_bitmap ms fs p c (po : asn_bit_outp S) : po_wf po ->
  exists po', handle_extensions_loop ms p c (Some po) None fs =
      Some (Some (p + count_present ms fs, c + Z.of_nat (length ms)), Some po', None) /\
    po_wf po' /\ po_bits po' = po_bits po ++ presences ms fs.
Proof.
  revert fs p c po. induction ms as [|m ms IH]; intros fs p c po Hw.
  { exists po. cbn. by rewrite !Z.add_0_r, app_nil_r. }
  destruct fs as [f fs]. cbn [handle_extensions_loop on_stream presences].
  destruct (per_put_few_ok po (Z.b2z (memb_present m f)) 1 Hw ltac:(lia)) as (po1 & -> & Hw1 & Hb1).
  cbn [mbind option_bind negb Z.eqb]. rewrite count_present_cons.
  destruct (IH fs (p + Z.b2z (memb_present m f)) (c + 1) po1 Hw1) as (po2 & Hr & Hw2 & Hb2).
  exists po2. split_and!; [|done|].
  - destruct (memb_ptr m f); cbn [mbind option_bind negb Z.eqb on_stream]; rewrite Hr; cbn [length];
      do 5 f_equal; lia.
  - rewrite Hb2, Hb1, <- app_assoc. by destruct (memb_present m f).
Qed.

Lemma extensions_fields ms (Ls : members_per_laws ms) fs p c (po : asn_bit_outp S) :
  all_fields addition_dom ms Ls fs -> po_wf po ->
  exists po', handle_extensions_loop ms p c None (Some po) fs =
      Some (Some (p + count_present ms fs, c + Z.of_nat (length ms)), None, Some po') /\
    po_wf po' /\ po_bits po' = po_bits po ++ fields_bits addition_bits ms Ls fs.
Proof.
  revert Ls fs p c po. induction ms as [|m ms IH]; intros Ls fs p c po Hd Hw.
  { exists po. cbn. by rewrite !Z.add_0_r, app_nil_r. }
  destruct Ls as [L Ls], fs as [f fs], Hd as [Hm Hd].
  cbn [handle_extensions_loop on_stream fields_bits mbind option_bind negb Z.eqb]. rewrite count_present_cons.
  assert (Hput : exists po1, match memb_ptr m f with
      | Some v => '(rc, po) ← uper_open_type_put po v; Some (rc, Some po)
      | None => Some (0, Some po) end = Some (0, Some po1) /\
    po_wf po1 /\ po_bits po1 = po_bits po ++ addition_bits m L f).
  { unfold addition_dom, addition_bits in *. destruct (memb_ptr m f) as [v|]; [|exists po; by rewrite app_nil_r].
    destruct Hm as [Hv Hne]. destruct (open_type_put_value v po Hv Hne Hw) as (po1 & -> & ? & ?). by exists po1. }
  destruct Hput as (po1 & -> & Hw1 & Hb1). cbn [mbind option_bind negb Z.eqb].
  destruct (IH Ls fs (p + Z.b2z (memb_present m f)) (c + 1) po1 Hd Hw1) as (po2 & -> & Hw2 & Hb2).
  exists po2. split_and!; [cbn [length]; do 5 f_equal; lia|done|]. by rewrite Hb2, Hb1, <- app_assoc.
Qed.
End Put.

Lemma get_addition_ok m (L : PerTypeLaws (elm_type m)) f (pd : asn_per_data) rest : addition_dom m L f ->
  pd_at pd (addition_bits m L f ++ rest) ->
  exists pd', get_addition m (Z.b2z (memb_present m f)) pd = Some (RC_OK, f, pd') /\
    pd_at pd' rest /\ pd_read pd (Z.of_nat (length (addition_bits m L f))) pd'.
Proof.
  unfold addition_dom, addition_bits, get_addition. pose proof (set_absent m f) as Habs. unfold memb_present in *.
  destruct (memb_ptr m f) as [v|] eqn:Ep; intros Hm Hat; cbn [Z.b2z Z.eqb].
  - destruct Hm as [Hv _]. destruct (@per_dec_law _ _ L) as (dec & Hdec & _). rewrite Hdec. cbn [mbind option_bind].
    destruct (open_type_get_value v dec pd rest Hdec Hv Hat) as (pd1 & -> & Hat1 & Hrd1). cbn [mbind option_bind].
    exists pd1. by rewrite <- Ep, set_memb_ptr.
  - rewrite Habs by done. destruct (get_res_ret pd rest f Hat) as (pd' & [= <-] & ? & ?). by exists pd.
Qed.

Lemma get_additions_ok ms (Ls : members_per_laws ms) fs (epmd pd : asn_per_data) rest :
  all_fields addition_dom ms Ls fs -> pd_at epmd (presences ms fs) ->
  pd_at pd (fields_bits addition_bits ms Ls fs ++ rest) ->
  exists epmd' pd', get_additions ms epmd pd = Some (RC_OK, Some fs, epmd', pd') /\ pd_at epmd' [] /\
    pd_at pd' rest /\ pd_read pd (Z.of_nat (length (fields_bits addition_bits ms Ls fs))) pd'.
Proof.
  revert Ls fs epmd pd. induction ms as [|m ms IH]; intros Ls fs epmd pd Hd Hep Hat.
  { destruct fs. exists epmd, pd. destruct (get_res_ret pd rest tt Hat) as (pd' & [= <-] & ? & ?). done. }
  destruct Ls as [L Ls], fs as [f fs], Hd as [Hm Hd]. cbn [get_additions fields_bits presences] in *.
  rewrite <- app_assoc in Hat. destruct (get_bit epmd _ _ Hep) as (epmd1 & -> & Hep1 & _). cbn [mbind option_bind].
  replace (Z.b2z (memb_present m f) <? 0) with false by (by destruct (memb_present m f)).
  destruct (get_addition_ok m L f pd _ Hm Hat) as (pd1 & -> & Hat1 & Hrd1). cbn [mbind option_bind].
  rewrite decide_True by done.
  destruct (IH Ls fs epmd1 pd1 Hd Hep1 Hat1) as (epmd2 & pd2 & -> & Hep2 & Hat2 & Hrd2). exists epmd2, pd2.
  split_and!; [done..|]. rewrite length_app, Nat2Z.inj_add. eapply pd_read_trans; [lia..|done|done].
Qed.

Lemma get_extensions_ok specs (Ls : members_per_laws (additions specs)) fs (pd : asn_per_data) rest :
  let n := Z.of_nat (length (additions specs)) in
  let bs := val_bits 7 (n - 1) ++ presences _ fs ++ fields_bits addition_bits _ Ls fs in
  1 <= n <= 64 -> all_fields addition_dom _ Ls fs -> pd_at pd (bs ++ rest) ->
  dec_res pd (Z.of_nat (length bs)) rest (SEQUENCE_get_extensions specs pd) fs.
Proof.
  cbn zeta. set (n := Z.of_nat _). intros Hn Hd Hat. rewrite <- !app_assoc in Hat. unfold SEQUENCE_get_extensions.
  destruct (proj2 (nslength_small_codec n Hn) pd _ Hat) as (pd1 & -> & Hat1 & Hrd1). cbn [mbind option_bind].
  destruct (Z.ltb_spec n 0); [lia|].
  destruct (get_bitmap_ok pd1 (presences _ fs) _ Hat1) as (epres & pd2 & Hg & Hat2 & Hrd2 & Hep).
  rewrite length_presences in *. fold n in Hg, Hep, Hrd2. rewrite Hg. cbn [mbind option_bind negb Z.eqb].
  destruct (get_additions_ok _ Ls fs _ pd2 rest Hd Hep Hat2) as (epmd & pd3 & -> & Hend & Hat3 & Hrd3).
  cbn [mbind option_bind]. rewrite decide_True by done. cbn [skip_overflow].
  rewrite (per_get_eod epmd 1 []) by done. cbn [mbind option_bind Z.eqb Pos.eqb]. exists pd3. split_and!; [done|done|].
  rewrite !length_app, !Nat2Z.inj_add, length_presences. fold n.
  eapply pd_read_trans; [lia..|exact Hrd1|]. eapply pd_read_trans; [lia..|done|done].
Qed.

(** ** Lemmas: default values of additions *)

(** Nothing is missing that a default value would replace. *)
Definition settled (m : asn_TYPE_member_t) (f : field m) : Prop :=
  memb_present m f = false -> default_value_set m = None.

Lemma set_default_settled ms (Ls : members_per_laws ms) P fs i :
  (forall m L f, P m L f -> settled m f) -> all_fields P ms Ls fs -> (i < length ms)%nat ->
  set_default_at ms i fs = Some fs.
Proof.
  intros HP. revert Ls fs i. induction ms as [|m ms IH]; intros Ls fs i Hd Hi; [cbn in Hi; lia|].
  destruct Ls as [L Ls], fs as [f fs], Hd as [Hm Hd]. destruct i as [|i]; cbn [set_default_at].
  - specialize (HP m L f Hm). unfold settled in HP. destruct (default_value_set m); [|done].
    destruct (memb_present m f); [by rewrite andb_false_r|by specialize (HP eq_refl)].
  - cbn in Hi. rewrite (IH Ls) by (done || lia). done.
Qed.

Lemma root_settled m L f : root_dom m L f -> settled m f.
Proof. unfold root_dom, settled, memb_present. destruct (memb_ptr m f); [done|]. by intros []. Qed.

Lemma addition_settled m L f : addition_dom m L f -> settled m f.
Proof. unfold addition_dom, settled, memb_present. by destruct (memb_ptr m f). Qed.

Lemma fill_defaults_id specs (LR : members_per_laws (roots specs)) (LA : members_per_laws (additions specs)) idx st :
  all_fields root_dom _ LR (fst st) -> all_fields addition_dom _ LA (snd st) ->
  Forall (fun edx => 0 <= edx < Z.of_nat (length (roots specs) + length (additions specs))) idx ->
  fill_defaults specs idx st = Some st.
Proof.
  intros HR HA. destruct st as [rs es]. cbn [fst snd] in *.
  induction 1 as [|edx idx Hi Hidx IH]; [done|]. cbn [fill_defaults fst snd]. zcases.
  - rewrite (set_default_settled _ LR root_dom) by (apply root_settled || done || lia). exact IH.
  - rewrite (set_default_settled _ LA addition_dom) by (apply addition_settled || done || lia). exact IH.
Qed.

Lemma none_present ms fs : count_present ms fs = 0 -> fresh ms = fs.
Proof.
  induction ms as [|m ms IH]; [by destruct fs|destruct fs as [f fs]]. rewrite count_present_cons. cbn [fresh].
  pose proof (set_absent m f) as Habs. intros H. assert (0 <= count_present ms fs) by (unfold count_present; lia).
  destruct (memb_present m f); cbn [Z.b2z] in H; [lia|]. rewrite Habs, (IH fs) by (done || lia). done.
Qed.

(** ** Specification: the whole sequence *)

(** The tables the compiler generates: the first roms_count entries of oms are
    the optional root members in order, the next ones are members. *)
Record specs_ok (specs : asn_SEQUENCE_specifics_t) : Prop := {
  roms_ok : roms_count specs = Z.of_nat (length (optional_positions 0 (roots specs)));
  oms_ok : take (Z.to_nat (roms_count specs)) (oms specs) = optional_positions 0 (roots specs);
  aoms_ok : Forall (fun edx => 0 <= edx < Z.of_nat (length (roots specs) + length (additions specs)))
    (take (Z.to_nat (aoms_count specs)) (drop (Z.to_nat (roms_count specs)) (oms specs)));
  additions_ok : seq_extensible specs = false -> additions specs = []
}.

Section Whole.
Context (specs : asn_SEQUENCE_specifics_t) (Hspecs : specs_ok specs).
Context (LR : members_per_laws (roots specs)) (LA : members_per_laws (additions specs)).
Implicit Types st : sequence_t specs.

Definition extended st : bool := negb (count_present (additions specs) (snd st) =? 0).

Definition sequence_dom st : Prop :=
  all_fields root_dom _ LR (fst st) /\ all_fields addition_dom _ LA (snd st) /\
  (extended st = true -> (length (additions specs) <= 64)%nat).

Definition extension_part st : list bool :=
  if extended st
  then val_bits 7 (Z.of_nat (length (additions specs)) - 1) ++ presences _ (snd st) ++
       fields_bits addition_bits _ LA (snd st)
  else [].

Definition sequence_bits st : list bool :=
  (if seq_extensible specs then [extended st] else []) ++ optional_marks _ (fst st) ++
  fields_bits root_bits _ LR (fst st) ++ extension_part st.

Lemma count_present_bound ms fs : 0 <= count_present ms fs <= Z.of_nat (length ms).
Proof.
  unfold count_present. pose proof (length_filter Is_true (presences ms fs)) as H.
  rewrite length_presences in H. lia.
Qed.

Lemma not_extended st : seq_extensible specs = false -> extended st = false.
Proof.
  intros H. apply (additions_ok _ Hspecs) in H. pose proof (count_present_bound _ (snd st)) as Hc.
  apply (f_equal length) in H. cbn in H. unfold extended. apply negb_false_iff, Z.eqb_eq. lia.
Qed.

(** The number of extensions the three calls of the loop agree on. *)
Definition n_extensions st : Z := if extended st then Z.of_nat (length (additions specs)) else 0.

Lemma n_extensions_bounds st : sequence_dom st ->
  n_extensions st = 0 /\ extended st = false \/ 1 <= n_extensions st <= 64 /\ extended st = true.
Proof.
  intros (_ & _ & H64). unfold n_extensions in *. destruct (extended st) eqn:E; [|by left]. right. split; [|done].
  specialize (H64 eq_refl). unfold extended in E. pose proof (count_present_bound _ (snd st)).
  destruct (Z.eqb_spec (count_present (additions specs) (snd st)) 0); [done|]. lia.
Qed.

Lemma extensions_result st :
  (if negb (0 + count_present (additions specs) (snd st) =? 0) then 0 + Z.of_nat (length (additions specs)) else 0) =
  n_extensions st.
Proof. unfold n_extensions, extended. rewrite !Z.add_0_l. done. Qed.

Lemma sequence_put_extensions {S} `{HC : Consumer S} `{HA : !AppendConsumer S} st encoded (po : asn_bit_outp S) :
  sequence_dom st -> po_wf po ->
  put_res po (extension_part st)
    (if n_extensions st =? 0 then Some (encoded, po) else
     '(rc, po) ← uper_put_nslength po (n_extensions st);
     if negb (rc =? 0) then Some (-1, po) else
     '(n, po1, _) ← SEQUENCE__handle_extensions specs st (Some po) None;
     po ← po1;
     if negb (n =? n_extensions st) then Some (-1, po) else
     '(n, _, po2) ← SEQUENCE__handle_extensions specs st None (Some po);
     po ← po2;
     if negb (n =? n_extensions st) then Some (-1, po) else Some (encoded, po)) encoded.
Proof.
  intros Hd Hw. pose proof (not_extended st) as Hne. unfold extension_part.
  destruct (n_extensions_bounds st Hd) as [[-> Hext]|[Hn Hext]]; rewrite Hext in *; [by apply put_res_ret|].
  assert (Hx : seq_extensible specs = true) by (destruct (seq_extensible specs); [done|by specialize (Hne eq_refl)]).
  destruct (Z.eqb_spec (n_extensions st) 0); [lia|].
  destruct Hd as (_ & Hadd & _). assert (HN : n_extensions st = Z.of_nat (length (additions specs)))
    by (unfold n_extensions; by rewrite Hext).
  rewrite <- HN. destruct (nslength_small_put po _ Hn Hw) as (po1 & -> & Hw1 & Hb1). cbn [mbind option_bind negb Z.eqb].
  unfold SEQUENCE__handle_extensions. rewrite Hx. cbn [negb].
  destruct (extensions_bitmap (additions specs) (snd st) 0 0 po1 Hw1) as (po2 & -> & Hw2 & Hb2).
  cbn [mbind option_bind]. rewrite extensions_result, Z.eqb_refl. cbn [negb].
  destruct (extensions_fields (additions specs) LA (snd st) 0 0 po2 Hadd Hw2) as (po3 & -> & Hw3 & Hb3).
  cbn [mbind option_bind]. rewrite extensions_result, Z.eqb_refl. cbn [negb].
  exists po3. split_and!; [done|done|]. by rewrite Hb3, Hb2, Hb1, <- !app_assoc.
Qed.

Lemma sequence_encode_ok {S} `{HC : Consumer S} `{HA : !AppendConsumer S} st (po : asn_bit_outp S) :
  sequence_dom st -> po_wf po ->
  exists e, e <> -1 /\ put_res po (sequence_bits st) (SEQUENCE_encode_uper specs st po) e.
Proof.
  intros Hd Hw. unfold SEQUENCE_encode_uper, sequence_bits.
  assert (Hn : SEQUENCE__handle_extensions (S := S) specs st None None = Some (n_extensions st, None, None)).
  { unfold SEQUENCE__handle_extensions. destruct (seq_extensible specs) eqn:Hx; cbn [negb].
    - rewrite extensions_count. cbn [mbind option_bind]. by rewrite extensions_result.
    - unfold n_extensions. by rewrite not_extended. }
  rewrite Hn. cbn [mbind option_bind]. pose proof (n_extensions_bounds st Hd) as Hb.
  destruct (Z.ltb_spec (n_extensions st) 0); [lia|].
  assert (Hext : negb (n_extensions st =? 0) = extended st).
  { destruct Hb as [[-> ->]|[? ->]]; [done|]. by destruct (Z.eqb_spec (n_extensions st) 0); [lia|]. }
  rewrite Hext.
  assert (H1 : put_res po (if seq_extensible specs then [extended st] else [])
    (if seq_extensible specs then per_put_few_bits po (if extended st then 1 else 0) 1 else Some (0, po)) 0).
  { destruct (seq_extensible specs); [|by apply put_res_ret].
    pose proof (per_put_few_ok po (if extended st then 1 else 0) 1 Hw ltac:(lia)) as Hput. by destruct (extended st). }
  destruct H1 as (po1 & -> & Hw1 & Hb1). cbn [mbind option_bind negb Z.eqb].
  rewrite (oms_ok _ Hspecs).
  pose proof (optional_lookup (roots specs) (fst st) [] (marks _ (snd st))) as Hopt. cbn [length app] in Hopt.
  change (Z.of_nat 0) with 0 in Hopt.
  destruct (put_bitmap_ok _ _ _ po1 Hopt Hw1) as (po2 & -> & Hw2 & Hb2). cbn [mbind option_bind negb Z.eqb].
  destruct (put_roots_ok _ LR (fst st) 0 po2 (proj1 Hd) ltac:(done) Hw2) as (e & He & po3 & -> & Hw3 & Hb3).
  cbn [mbind option_bind]. destruct (Z.eqb_spec e (-1)); [done|]. exists e. split; [done|].
  destruct (sequence_put_extensions st e po3 Hd Hw3) as (po4 & -> & Hw4 & Hb4).
  exists po4. split_and!; [done|done|]. by rewrite Hb4, Hb3, Hb2, Hb1, <- !app_assoc.
Qed.

(** The extension bit, the presence bitmap and the extensions, where there
    are any. *)
Lemma get_extpresent st (pd : asn_per_data) rest :
  pd_at pd ((if seq_extensible specs then [extended st] else []) ++ rest) ->
  get_res pd (Z.of_nat (length (if seq_extensible specs then [extended st] else []))) rest
    (if seq_extensible specs then per_get_few_bits pd 1 else Some (0, pd)) (Z.b2z (extended st)).
Proof.
  intros Hat. destruct (seq_extensible specs) eqn:Hx; [by apply get_bit|].
  rewrite not_extended by done. by apply get_res_ret.
Qed.

Lemma length_optional ms (fs : fields ms) z :
  length (optional_marks ms fs) = length (optional_positions z ms).
Proof.
  revert fs z. induction ms as [|m ms IH]; intros fs z; [done|]. destruct fs as [f fs].
  cbn [optional_positions optional_marks]. unfold optional_mark. rewrite !length_app, (IH fs (z + 1)).
  by destruct (negb _).
Qed.

Lemma get_opres st (pd : asn_per_data) rest : pd_at pd (optional_marks _ (fst st) ++ rest) ->
  exists octets pd', (if negb (roms_count specs =? 0) then per_get_many_bits pd false (roms_count specs)
      else Some (0, [], pd)) = Some (0, octets, pd') /\
    pd_at (bitmap_stream octets (roms_count specs)) (optional_marks (roots specs) (fst st)) /\
    pd_at pd' rest /\ pd_read pd (Z.of_nat (length (optional_marks (roots specs) (fst st)))) pd'.
Proof.
  intros Hat. pose proof (roms_ok _ Hspecs) as Hlen. rewrite <- (length_optional _ (fst st)) in Hlen.
  destruct (get_bitmap_ok pd _ _ Hat) as (opres & pd2 & Hg & Hat2 & Hrd2 & Hopt). rewrite <- Hlen in Hg, Hopt.
  destruct (Z.eqb_spec (roms_count specs) 0) as [E|E]; cbn [negb]; [|by exists opres, pd2].
  exists [], pd. rewrite E in *. assert (Hnil : optional_marks (roots specs) (fst st) = [])
    by (apply length_zero_iff_nil; lia). rewrite Hnil in *.
  split_and!; [done|apply (pd_of_buffer_at []), bytes_ok_nil|done|].
  destruct (get_res_ret pd _ tt Hat) as (pd' & [= <-] & _ & ?). done.
Qed.

Lemma get_extension_part st (pd : asn_per_data) rest : sequence_dom st -> pd_at pd (extension_part st ++ rest) ->
  dec_res pd (Z.of_nat (length (extension_part st))) rest
    (if negb (Z.b2z (extended st) =? 0) then SEQUENCE_get_extensions specs pd
     else Some (RC_OK, Some (fresh (additions specs)), pd)) (snd st).
Proof.
  intros Hd Hat. pose proof (n_extensions_bounds st Hd) as Hb. destruct Hd as (_ & Hadd & _).
  unfold extension_part, n_extensions in *. destruct (extended st) eqn:E; cbn [Z.b2z Z.eqb negb].
  - destruct Hb as [[_ ?]|[Hn _]]; [done|]. by apply get_extensions_ok.
  - unfold extended in E. apply negb_false_iff, Z.eqb_eq, none_present in E. rewrite E.
    destruct (get_res_ret pd _ tt Hat) as (pd' & [= <-] & ? & ?). by exists pd.
Qed.

Lemma sequence_decode_ok st (pd : asn_per_data) rest : sequence_dom st -> pd_at pd (sequence_bits st ++ rest) ->
  dec_res pd (Z.of_nat (length (sequence_bits st))) rest (SEQUENCE_decode_uper specs pd) st.
Proof.
  intros Hd Hat. pose proof Hd as (Hroot & Hadd & _). unfold SEQUENCE_decode_uper, sequence_bits in *.
  rewrite <- !app_assoc in Hat. destruct (get_extpresent st pd _ Hat) as (pd1 & -> & Hat1 & Hrd1).
  cbn [mbind option_bind]. replace (Z.b2z (extended st) <? 0) with false by (by destruct (extended st)).
  destruct (get_opres st pd1 _ Hat1) as (opres & pd2 & -> & Hopt & Hat2 & Hrd2). cbn [mbind option_bind negb Z.eqb].
  rewrite <- (app_nil_r (optional_marks _ _)) in Hopt.
  destruct (get_roots_ok _ LR (fst st) _ pd2 [] _ Hroot Hopt Hat2) as (pd3 & -> & Hat3 & Hrd3).
  cbn [mbind option_bind]. rewrite decide_True by done.
  destruct (get_extension_part st pd3 rest Hd Hat3) as (pd4 & -> & Hat4 & Hrd4).
  cbn [mbind option_bind]. rewrite decide_True by done.
  assert (Hfill : (if seq_extensible specs
      then fill_defaults specs (take (Z.to_nat (aoms_count specs)) (drop (Z.to_nat (roms_count specs)) (oms specs)))
             (fst st, snd st)
      else Some (fst st, snd st)) = Some st).
  { rewrite <- surjective_pairing. destruct (seq_extensible specs); [|done].
    apply (fill_defaults_id specs LR LA); [done|done|apply (aoms_ok _ Hspecs)]. }
  unfold sequence_t in *. cbn [mbind option_bind]. rewrite Hfill. cbn [mbind option_bind]. exists pd4. split_and!; [done|done|].
  rewrite !length_app, !Nat2Z.inj_add.
  eapply pd_read_trans; [lia..|exact Hrd1|]. eapply pd_read_trans; [lia..|exact Hrd2|].
  eapply pd_read_trans; [lia..|exact Hrd3|exact Hrd4].
Qed.
End Whole.

(** ** Lemmas: writers do not look behind the callback *)

Section Natural.
Context {S1 S2 : Type} {C1 : Consumer S1} {C2 : Consumer S2} (f : S1 -> S2).
Hypothesis Hf : consumer_morphism f.

Lemma on_stream_map put1 put2 po :
  (forall po, put2 (po_map f po) = res_map f (put1 po)) ->
  on_stream put2 (option_map (po_map f) po) = '(rc, po) ← on_stream put1 po; Some (rc, option_map (po_map f) po).
Proof.
  intros Hput. destruct po as [po|]; [|done]. cbn [on_stream option_map]. rewrite Hput.
  unfold res_map. by destruct (put1 po) as [[rc po']|].
Qed.

Lemma handle_loop_map ms fs p c po1 po2 :
  handle_extensions_loop ms p c (option_map (po_map f) po1) (option_map (po_map f) po2) fs =
  '(r, po1, po2) ← handle_extensions_loop ms p c po1 po2 fs; Some (r, option_map (po_map f) po1, option_map (po_map f) po2).
Proof.
  revert fs p c po1 po2. induction ms as [|m ms IH]; intros fs p c po1 po2; [done|]. destruct fs as [x fs].
  cbn [handle_extensions_loop]. erewrite on_stream_map by (intros; by apply per_put_few_map).
  destruct (on_stream _ po1) as [[rc1 po1']|]; [|done]. cbn [mbind option_bind].
  destruct (negb _); [done|]. destruct (memb_ptr m x) as [v|].
  - erewrite on_stream_map by (intros; by apply uper_open_type_put_map).
    destruct (on_stream _ po2) as [[rc2 po2']|]; [|done]. cbn [mbind option_bind].
    destruct (negb _); [done|]. apply IH.
  - cbn [mbind option_bind negb Z.eqb]. apply IH.
Qed.

Lemma handle_extensions_map specs st po1 po2 :
  SEQUENCE__handle_extensions specs st (option_map (po_map f) po1) (option_map (po_map f) po2) =
  '(n, po1, po2) ← SEQUENCE__handle_extensions specs st po1 po2; Some (n, option_map (po_map f) po1, option_map (po_map f) po2).
Proof.
  unfold SEQUENCE__handle_extensions. destruct (negb _); [done|]. rewrite handle_loop_map.
  by destruct (handle_extensions_loop _ _ _ _ _ _) as [[[r p1] p2]|].
Qed.

Lemma put_bitmap_map idx present po : put_bitmap idx present (po_map f po) = res_map f (put_bitmap idx present po).
Proof.
  revert po. induction idx as [|edx idx IH]; intros po; [done|]. cbn [put_bitmap].
  destruct (present !! Z.to_nat edx); [|done]. cbn [mbind option_bind]. natural.
Qed.

Lemma put_roots_map ms (Ls : members_per_laws ms) fs e po :
  put_roots ms e (po_map f po) fs = res_map f (put_roots ms e po fs).
Proof.
  revert Ls fs e po. induction ms as [|m ms IH]; intros Ls fs e po; [done|]. destruct Ls as [L Ls], fs as [x fs].
  cbn [put_roots]. specialize (IH Ls). destruct (memb_ptr m x) as [v|].
  - destruct (is_default m v); [done|]. destruct (@per_enc_law _ _ L) as (enc & -> & _ & Hn).
    cbn [mbind option_bind]. apply res_map_bind; [by apply Hn|]. intros r po'. cbn beta iota. by destruct (r =? -1).
  - by destruct (negb _).
Qed.

Lemma sequence_encode_map specs (LR : members_per_laws (roots specs)) st po :
  SEQUENCE_encode_uper specs st (po_map f po) = res_map f (SEQUENCE_encode_uper specs st po).
Proof.
  unfold SEQUENCE_encode_uper. pose proof (handle_extensions_map specs st None None) as H0.
  cbn [option_map] in H0. rewrite H0.
  destruct (SEQUENCE__handle_extensions (S := S1) specs st None None) as [[[n p1] p2]|]; [|done]. cbn [mbind option_bind].
  destruct (n <? 0); [done|]. apply res_map_bind; [destruct (seq_extensible specs); natural|]. intros rc po1. cbn beta iota.
  destruct (negb _); [done|]. apply res_map_bind; [apply put_bitmap_map|]. intros rc2 po2. cbn beta iota.
  destruct (negb _); [done|]. apply res_map_bind; [by apply put_roots_map|]. intros e po3. cbn beta iota.
  destruct (e =? -1); [done|]. destruct (n =? 0); [done|].
  apply res_map_bind; [by apply put_nslength_map|]. intros rc4 po4. cbn beta iota. destruct (negb _); [done|].
  pose proof (handle_extensions_map specs st (Some po4) None) as H5. cbn [option_map] in H5. rewrite H5.
  destruct (SEQUENCE__handle_extensions (S := S1) specs st (Some po4) None) as [[[n5 [po5|]] q5]|]; [|done|done].
  cbn [mbind option_bind option_map]. destruct (negb _); [done|].
  pose proof (handle_extensions_map specs st None (Some po5)) as H6. cbn [option_map] in H6. rewrite H6.
  destruct (SEQUENCE__handle_extensions (S := S1) specs st None (Some po5)) as [[[n6 q6] [po6|]]|]; [|done|done].
  cbn [mbind option_bind option_map]. by destruct (negb _).
Qed.
End Natural.

(** A sequence keeps the contract its members keep, so sequences nest. *)
Definition sequence_laws specs (Hspecs : specs_ok specs)
    (LR : members_per_laws (roots specs)) (LA : members_per_laws (additions specs)) :
  @PerTypeLaws (sequence_t specs) (SEQUENCE_per specs).
Proof.
  unshelve refine (@Build_PerTypeLaws _ (SEQUENCE_per specs) (sequence_dom specs LR LA) (sequence_bits specs LR LA) _ _).
  - eexists. split; [reflexivity|]. split.
    + intros S C A po st Hd Hw. by apply sequence_encode_ok.
    + intros S1 S2 C1 C2 f Hf po st. by apply sequence_encode_map.
  - eexists. split; [reflexivity|]. intros pd st rest Hd Hat. by apply sequence_decode_ok.
Defined.

(** ** Properties *)

(** C27: For every SEQUENCE whose tables are as the compiler makes them and
    whose members keep their codecs' contract: encoding emits the extension
    bit, the bitmap of optional root members (a member equal to its default
    counts as absent), the root members, and, when an addition is present, the
    number of additions, their bitmap and their open type fields; decoding
    that, whatever follows, yields the same structure, defaults filled in, and
    stops behind it. *)
Theorem sequence_uper_roundtrip specs (LR : members_per_laws (roots specs)) (LA : members_per_laws (additions specs))
    (st : sequence_t specs) : specs_ok specs -> sequence_dom specs LR LA st ->
  (forall S (C : Consumer S) (A : AppendConsumer S) (po : asn_bit_outp S), po_wf po ->
     exists e, e <> -1 /\ put_res po (sequence_bits specs LR LA st) (SEQUENCE_encode_uper specs st po) e) /\
  (forall pd rest, pd_at pd (sequence_bits specs LR LA st ++ rest) ->
     dec_res pd (Z.of_nat (length (sequence_bits specs LR LA st))) rest (SEQUENCE_decode_uper specs pd) st).
Proof.
  intros Hs Hd. split; intros; [by apply sequence_encode_ok|by apply sequence_decode_ok].
Qed.

(** SEQUENCE \{ a BOOLEAN, b BOOLEAN OPTIONAL, c BOOLEAN DEFAULT TRUE, ...,
    d BOOLEAN OPTIONAL \} *)
Definition flags_specs : asn_SEQUENCE_specifics_t := {|
  roots := [boolean_member false 0 2 None; boolean_member true 2 6 None; boolean_member true 1 10 (Some {| bool_int := 1 |})];
  additions := [boolean_member true 1 14 None];
  seq_extensible := true; oms := [1; 2; 3]; roms_count := 2; aoms_count := 1 |}.

Definition flags_value : sequence_t flags_specs :=
  (({| bool_int := 1 |}, (None, (Some {| bool_int := 1 |}, tt))), (Some {| bool_int := 0 |}, tt)).

Definition flags_root_laws : members_per_laws (roots flags_specs) :=
  (BOOLEAN_laws, (BOOLEAN_laws, (BOOLEAN_laws, tt))).
Definition flags_addition_laws : members_per_laws (additions flags_specs) := (BOOLEAN_laws, tt).

Lemma flags_ok : specs_ok flags_specs.
Proof. split; [done|done|repeat constructor; done|done]. Qed.

Lemma flags_dom : sequence_dom flags_specs flags_root_laws flags_addition_laws flags_value.
Proof.
  split; [|split; [|cbn; lia]]; cbn.
  - split; [by right|done].
  - split; [|done]. split; [by left|done].
Qed.

Lemma sequence_uper_roundtrip_witness :
  let bits := sequence_bits flags_specs flags_root_laws flags_addition_laws flags_value in
  bits = [true; false; false; true] ++ val_bits 7 0 ++ [true] ++ val_bits 8 1 ++ val_bits 8 0 /\
  (forall S (C : Consumer S) (A : AppendConsumer S) (po : asn_bit_outp S), po_wf po ->
     exists e, e <> -1 /\ put_res po bits (SEQUENCE_encode_uper flags_specs flags_value po) e) /\
  (forall pd rest, pd_at pd (bits ++ rest) ->
     dec_res pd (Z.of_nat (length bits)) rest (SEQUENCE_decode_uper flags_specs pd) flags_value).
Proof.
  split; [reflexivity|].
  exact (sequence_uper_roundtrip flags_specs flags_root_laws flags_addition_laws flags_value flags_ok flags_dom).
Defined.
