(* ===== verification/ConstrChoice.v ===== *)
(** * CHOICE in UPER (support/constr_CHOICE.c)

    The index of the alternative, in canonical order, in the bits of the root
    or as a normally small number for extensions, and the alternative itself,
    as an open type when it is an extension. *)
From S2P Require Import Prelude Outcome Consumer BitData PerSupport PerNatural PerCodec UperInteger OpenType Members.

(** ** Data *)

(** asn_CHOICE_specifics_t with the alternatives; the two orders are tables or
    null.  [ext_start] is -1 without extensions. *)
Record asn_CHOICE_specifics_t := {
  alternatives : list asn_TYPE_member_t;
  to_canonical_order : option (list Z);
  from_canonical_order : option (list Z);
  ext_start : Z
}.

(** The alternative that is present. *)
Fixpoint variant (ms : list asn_TYPE_member_t) : Type :=
  match ms with
  | [] => Empty_set
  | m :: ms => field m + variant ms
  end.

(** [None] stands for a structure whose presence index is 0 or beyond the
    alternatives. *)
Definition choice_t (specs : asn_CHOICE_specifics_t) : Type := option (variant (alternatives specs)).

Fixpoint variant_index (ms : list asn_TYPE_member_t) : variant ms -> Z :=
  match ms with
  | [] => fun v => match v with end
  | m :: ms => fun v => match v with inl _ => 0 | inr v => 1 + variant_index ms v end
  end.

(** What is done with the member that is present. *)
Fixpoint on_variant {R} (k : forall m, field m -> R) (ms : list asn_TYPE_member_t) : variant ms -> R :=
  match ms with
  | [] => fun v => match v with end
  | m :: ms => fun v => match v with inl f => k m f | inr v => on_variant k ms v end
  end.

(** Decoding into the member at an index; [None] outside the table. *)
Fixpoint decode_variant
    (get : forall m : asn_TYPE_member_t, asn_per_data -> option (asn_dec_rval_code * option (elm_type m) * asn_per_data))
    (ms : list asn_TYPE_member_t) (value : nat) (pd : asn_per_data) :
    option (asn_dec_rval_code * variant ms * asn_per_data) :=
  match ms, value with
  | [], _ => None
  | m :: ms, O => '(code, p, pd) ← get m pd; Some (code, inl (set_memb m p), pd)
  | m :: ms, S value => '(code, v, pd) ← decode_variant get ms value pd; Some (code, inr v, pd)
  end.

(** ** Structures under construction

    The member as the decoder that is resumed on it has left it, [None] a null
    pointer.  Zeroed inline memory is like a null pointer: the decoders
    allocate zeroed memory for one. *)
Section Construction.
Context (str : asn_TYPE_member_t -> Type).

Fixpoint variant_struct (ms : list asn_TYPE_member_t) : Type :=
  match ms with
  | [] => Empty_set
  | m :: ms => option (str m) + variant_struct ms
  end.

(** Running a decoder on the member at an index, which becomes the one that is
    present; [None] outside the table. *)
Fixpoint step_variant (ms : list asn_TYPE_member_t)
    (dec : forall m : asn_TYPE_member_t, option (str m) ->
       option (asn_dec_rval_code * Z * option (str m)))
    (i : nat) : option (variant_struct ms) -> option (asn_dec_rval_code * Z * variant_struct ms) :=
  match ms, i with
  | [], _ => fun _ => None
  | m :: ms, O => fun cur =>
    '(code, n, p) ← dec m match cur with Some (inl p) => p | _ => None end;
    Some (code, n, inl p)
  | m :: ms, S i => fun cur =>
    '(code, n, v) ← step_variant ms dec i match cur with Some (inr v) => Some v | _ => None end;
    Some (code, n, inr v)
  end.

Context (value : forall m, str m -> elm_type m).

Fixpoint variant_value (ms : list asn_TYPE_member_t) : variant_struct ms -> variant ms :=
  match ms with
  | [] => fun v => match v with end
  | m :: ms => fun v =>
    match v with
    | inl p => inl (set_memb m (value m <$> p))
    | inr v => inr (variant_value ms v)
    end
  end.
End Construction.
Arguments step_variant {str}.
Arguments variant_value {str}.

(** _fetch_present_idx *)
Definition _fetch_present_idx {specs} (st : choice_t specs) : Z :=
  match st with Some v => variant_index _ v + 1 | None => 0 end.

Section Choice.
Context (specs : asn_CHOICE_specifics_t) (ct : option asn_per_constraint_t).

(** ct && ct->range_bits >= 0 *)
Definition ranged (ct : option asn_per_constraint_t) : bool :=
  match ct with Some c => 0 <=? range_bits c | None => false end.

Definition extensible (ct : option asn_per_constraint_t) : bool :=
  match ct with Some c => has_flag c APC_EXTENSIBLE | None => false end.

Definition upper (ct : option asn_per_constraint_t) : Z := from_option upper_bound 0 ct.

(** ** Decoding *)

(** The index of the alternative on the wire: a code other than RC_OK is
    returned. *)
Definition get_index (ct : option asn_per_constraint_t) (pd : asn_per_data) :
    option (asn_dec_rval_code * Z * asn_per_data) :=
  if ranged ct then
    '(value, pd) ← per_get_few_bits pd (from_option range_bits 0 ct);
    Some (if value <? 0 then RC_WMORE else if upper ct <? value then RC_FAIL else RC_OK, value, pd)
  else if ext_start specs =? -1 then Some (RC_FAIL, 0, pd)
  else
    '(value, pd) ← uper_get_nsnnwn pd;
    if value <? 0 then Some (RC_WMORE, value, pd) else
    let value := value + ext_start specs in
    Some (if Z.of_nat (length (alternatives specs)) <=? u32 value then RC_FAIL else RC_OK, value, pd).

(** From the index on, under the constraint that remains. *)
Definition get_alternative (ct : option asn_per_constraint_t) (pd : asn_per_data) :
    option (asn_dec_rval_code * option (choice_t specs) * asn_per_data) :=
  '(code, value, pd) ← get_index ct pd;
  if decide (code = RC_OK) then
    value ← match from_canonical_order specs with Some order => read order value | None => Some value end;
    '(code, v, pd) ← decode_variant (fun m pd =>
        dec ← op_uper_decoder (T := elm_type m);
        if ranged ct then dec pd else uper_open_type_get dec pd)
      (alternatives specs) (Z.to_nat value) pd;
    Some (code, Some (Some v), pd)
  else Some (code, Some None, pd).

Definition CHOICE_decode_uper (pd : asn_per_data) :
    option (asn_dec_rval_code * option (choice_t specs) * asn_per_data) :=
  if extensible ct then
    '(value, pd) ← per_get_few_bits pd 1;
    if value <? 0 then Some (RC_WMORE, Some None, pd)
    else get_alternative (if negb (value =? 0) then None else ct) pd
  else get_alternative ct pd.

(** ** Encoding *)

Section Encode.
Context {S : Type} `{C : Consumer S}.
Implicit Types po : asn_bit_outp S.

(** The index and the member, under the constraint that remains. *)
Definition put_alternative (ct : option asn_per_constraint_t) (present_enc : Z) (v : variant (alternatives specs)) po :
    option (Z * asn_bit_outp S) :=
  on_variant (fun m f =>
    match memb_ptr m f with
    | None => Some (-1, po)
    | Some t =>
      if ranged ct then
        '(rc, po) ← per_put_few_bits po present_enc (from_option range_bits 0 ct);
        if negb (rc =? 0) then Some (-1, po) else
        enc ← op_uper_encoder; enc S C t po
      else if ext_start specs =? -1 then Some (-1, po) else
      '(rc, po) ← uper_put_nsnnwn po (present_enc - ext_start specs);
      if negb (rc =? 0) then Some (-1, po) else
      '(rc, po) ← uper_open_type_put po t;
      Some (if negb (rc =? 0) then -1 else 0, po)
    end) _ v.

Definition CHOICE_encode_uper (st : choice_t specs) po : option (Z * asn_bit_outp S) :=
  match st with
  | None => Some (-1, po)
  | Some v =>
    let present := _fetch_present_idx st - 1 in
    present_enc ← match to_canonical_order specs with Some order => read order present | None => Some present end;
    let outside := ranged ct &&
      ((present_enc <? from_option lower_bound 0 ct) || (upper ct <? present_enc)) in
    if outside && negb (extensible ct) then Some (-1, po) else
    '(rc, po) ← (if extensible ct then per_put_few_bits po (Z.b2z outside) 1 else Some (0, po));
    if negb (rc =? 0) then Some (-1, po) else
    put_alternative (if outside then None else ct) present_enc v po
  end.
End Encode.

#[local] Instance CHOICE_per : PerType (choice_t specs) := {
  op_uper_encoder := Some (fun S C st po => CHOICE_encode_uper st po);
  op_uper_decoder := Some CHOICE_decode_uper
}.

(** ** Specification *)

Fixpoint variant_dom (ms : list asn_TYPE_member_t) : members_per_laws ms -> variant ms -> Prop :=
  match ms with
  | [] => fun _ v => match v with end
  | m :: ms => fun '(L, Ls) v =>
      match v with
      | inl f => exists t, f = set_memb m (Some t) /\ per_dom t
      | inr v => variant_dom ms Ls v
      end
  end.

Fixpoint variant_bits (ms : list asn_TYPE_member_t) : members_per_laws ms -> variant ms -> list bool :=
  match ms with
  | [] => fun _ v => match v with end
  | m :: ms => fun '(L, Ls) v =>
      match v with
      | inl f => from_option per_bits [] (memb_ptr m f)
      | inr v => variant_bits ms Ls v
      end
  end.

Context (Ls : members_per_laws (alternatives specs)).

(** The alternative's place in canonical order, and outside the root. *)
Definition canonical (v : variant (alternatives specs)) : Z :=
  let i := variant_index _ v in
  match to_canonical_order specs with Some order => default 0 (read order i) | None => i end.

Definition outside_root (v : variant (alternatives specs)) : bool :=
  ranged ct && ((canonical v <? from_option lower_bound 0 ct) || (upper ct <? canonical v)).

Definition in_range (v : variant (alternatives specs)) : bool := ranged ct && negb (outside_root v).

Definition choice_bits (v : variant (alternatives specs)) : list bool :=
  (if extensible ct then [outside_root v] else []) ++
  (if in_range v then val_bits (Z.to_nat (from_option range_bits 0 ct)) (canonical v) ++ variant_bits _ Ls v
   else val_bits 7 (canonical v - ext_start specs) ++ open_type_bits (padded_octets (variant_bits _ Ls v))).

(** The orders are inverse to each other at this alternative, and its place
    fits the bits it gets. *)
Definition choice_dom (v : variant (alternatives specs)) : Prop :=
  variant_dom _ Ls v /\ Z.of_nat (length (alternatives specs)) < 2 ^ 32 /\
  is_Some (match to_canonical_order specs with Some order => read order (variant_index _ v) | None => Some 0 end) /\
  match from_canonical_order specs with Some order => read order (canonical v) | None => Some (canonical v) end =
    Some (variant_index _ v) /\
  (outside_root v = true -> extensible ct = true) /\
  if in_range v then from_option range_bits 0 ct <= 31 /\ 0 <= canonical v < 2 ^ from_option range_bits 0 ct
  else 0 <= ext_start specs /\ ext_start specs <= canonical v < Z.of_nat (length (alternatives specs)) /\
       canonical v - ext_start specs <= 63 /\ variant_bits _ Ls v <> [].

(** ** Lemmas *)

Lemma variant_index_bounds ms v : 0 <= variant_index ms v < Z.of_nat (length ms).
Proof.
  induction ms as [|m ms IH]; [by destruct v|]. destruct v as [f|v]; cbn [variant_index length]; [lia|].
  specialize (IH v). lia.
Qed.

Section ConstructionLemmas.
Context {str : asn_TYPE_member_t -> Type}.

Lemma step_variant_here m ms dec (f : field m) cur :
  step_variant (str := str) (m :: ms) dec (Z.to_nat (variant_index (m :: ms) (inl f))) cur =
  '(code, n, p) ← dec m match cur with Some (inl p) => p | _ => None end; Some (code, n, inl p).
Proof. done. Qed.

Lemma step_variant_next m ms dec (v : variant ms) (cur : option (variant_struct str ms)) :
  step_variant (str := str) (m :: ms) dec (Z.to_nat (variant_index (m :: ms) (inr v))) (option_map inr cur) =
  '(code, n, x) ← step_variant (str := str) ms dec (Z.to_nat (variant_index ms v)) cur; Some (code, n, inr x).
Proof.
  cbn [variant_index]. pose proof (variant_index_bounds ms v). rewrite Z2Nat.inj_add by lia.
  change (Z.to_nat 1) with 1%nat. by destruct cur.
Qed.
End ConstructionLemmas.

(** The member that is present, its contract and how it is put back. *)
Lemma variant_select ms (Lms : members_per_laws ms) v : variant_dom ms Lms v ->
  exists m (L : PerTypeLaws (elm_type m)) (t : elm_type m) (inj : field m -> variant ms),
    v = inj (set_memb m (Some t)) /\ per_dom t /\ variant_bits ms Lms v = per_bits t /\
    (forall R (k : forall m, field m -> R), on_variant k ms v = k m (set_memb m (Some t))) /\
    (forall get pd, decode_variant get ms (Z.to_nat (variant_index ms v)) pd =
       '(code, p, pd) ← get m pd; Some (code, inj (set_memb m p), pd)).
Proof.
  induction ms as [|m ms IH]; [by destruct v|]. destruct Lms as [L Lms], v as [f|v]; cbn [variant_dom variant_bits].
  - intros (t & -> & Hd). exists m, L, t, inl. rewrite memb_ptr_set. done.
  - intros Hd. destruct (IH Lms v Hd) as (m' & L' & t & inj & -> & Ht & -> & Hon & Hdec).
    exists m', L', t, (inr ∘ inj). split_and!; [done|done|done|exact Hon|]. intros get pd. cbn [variant_index].
    pose proof (variant_index_bounds ms (inj (set_memb m' (Some t)))).
    rewrite Z2Nat.inj_add by lia. change (Z.to_nat 1) with 1%nat. cbn [Nat.add decode_variant]. rewrite Hdec.
    by destruct (get m' pd) as [[[code p] pd']|].
Qed.

Lemma canonical_place v : choice_dom v ->
  match to_canonical_order specs with
  | Some order => read order (variant_index _ v) | None => Some (variant_index _ v)
  end = Some (canonical v).
Proof.
  intros (_ & _ & Hto & _). unfold canonical. destruct (to_canonical_order specs); [|done].
  by destruct Hto as [x ->].
Qed.

Lemma choice_encode_ok {S} `{HC : Consumer S} `{HA : !AppendConsumer S} v (po : asn_bit_outp S) :
  choice_dom v -> po_wf po ->
  exists e, e <> -1 /\ put_res po (choice_bits v) (CHOICE_encode_uper (Some v) po) e.
Proof.
  intros Hd Hw. unfold CHOICE_encode_uper, _fetch_present_idx. rewrite Z.add_simpl_r, canonical_place by done.
  cbn [mbind option_bind]. destruct Hd as (Hv & _ & _ & _ & Hout & Hfit).
  fold (outside_root v). unfold choice_bits, in_range in *.
  assert (Hno : outside_root v && negb (extensible ct) = false)
    by (destruct (outside_root v); [by rewrite Hout|done]). rewrite Hno.
  assert (H1 : put_res po (if extensible ct then [outside_root v] else [])
    (if extensible ct then per_put_few_bits po (Z.b2z (outside_root v)) 1 else Some (0, po)) 0).
  { destruct (extensible ct); [|by apply put_res_ret].
    pose proof (per_put_few_ok po (Z.b2z (outside_root v)) 1 Hw ltac:(lia)) as Hput. by destruct (outside_root v). }
  destruct H1 as (po1 & -> & Hw1 & Hb1). cbn [mbind option_bind negb Z.eqb]. unfold put_alternative.
  destruct (variant_select _ Ls v Hv) as (m & L & t & inj & Hinj & Ht & Hbits & -> & _). rewrite memb_ptr_set, Hbits in *.
  assert (Hr : ranged (if outside_root v then None else ct) = ranged ct && negb (outside_root v))
    by (destruct (outside_root v); [by rewrite andb_false_r|by rewrite andb_true_r]). rewrite Hr.
  destruct (ranged ct && negb (outside_root v)) eqn:Er.
  - apply andb_true_iff in Er as [_ Er]. apply negb_true_iff in Er. rewrite Er in *.
    destruct Hfit as [H31 Hfit]. assert (Hr0 : 0 <= from_option range_bits 0 ct)
      by (unfold ranged in Hr; destruct ct; cbn in *; lia).
    destruct (per_put_few_ok po1 (canonical v) (from_option range_bits 0 ct) Hw1 ltac:(lia)) as (po2 & -> & Hw2 & Hb2).
    cbn [mbind option_bind negb Z.eqb]. destruct (@per_enc_law _ _ L) as (enc & -> & Hput & _). cbn [mbind option_bind].
    destruct (Hput S _ _ po2 t Ht Hw2) as (e & He & po3 & -> & Hw3 & Hb3). exists e. split; [done|].
    exists po3. split_and!; [done|done|]. by rewrite Hb3, Hb2, Hb1, <- !app_assoc.
  - destruct Hfit as (Hext & Hcan & H63 & Hne). destruct (Z.eqb_spec (ext_start specs) (-1)); [lia|].
    destruct (nsnnwn_put po1 (canonical v - ext_start specs) ltac:(lia) Hw1) as (po2 & -> & Hw2 & Hb2).
    cbn [mbind option_bind negb Z.eqb].
    destruct (open_type_put_value t po2 Ht Hne Hw2) as (po3 & -> & Hw3 & Hb3). cbn [mbind option_bind negb Z.eqb].
    exists 0. split; [done|]. exists po3. split_and!; [done|done|]. by rewrite Hb3, Hb2, Hb1, <- !app_assoc.
Qed.

Lemma get_extension_index n (pd : asn_per_data) rest c : ranged c = false ->
  0 <= ext_start specs /\ ext_start specs <= n < Z.of_nat (length (alternatives specs)) /\
    n - ext_start specs <= 63 ->
  Z.of_nat (length (alternatives specs)) < 2 ^ 32 ->
  pd_at pd (val_bits 7 (n - ext_start specs) ++ rest) ->
  exists pd', get_index c pd = Some (RC_OK, n, pd') /\ pd_at pd' rest /\
    pd_read pd (Z.of_nat (length (val_bits 7 (n - ext_start specs)))) pd'.
Proof.
  intros Hc (H0 & Hn & H63) Hlen Hat. unfold get_index. rewrite Hc. destruct (Z.eqb_spec (ext_start specs) (-1)); [lia|].
  destruct (nsnnwn_get pd (n - ext_start specs) rest ltac:(lia) Hat) as (pd1 & -> & Hat1 & Hrd1).
  cbn [mbind option_bind]. destruct (Z.ltb_spec (n - ext_start specs) 0); [lia|]. rewrite Z.sub_add.
  unfold u32. rewrite Z.mod_small by lia. zcase. by exists pd1.
Qed.

Lemma get_index_ok v (pd : asn_per_data) rest : choice_dom v ->
  let bs := if in_range v then val_bits (Z.to_nat (from_option range_bits 0 ct)) (canonical v)
            else val_bits 7 (canonical v - ext_start specs) in
  pd_at pd (bs ++ rest) ->
  exists pd', get_index (if outside_root v then None else ct) pd = Some (RC_OK, canonical v, pd') /\
    pd_at pd' rest /\ pd_read pd (Z.of_nat (length bs)) pd'.
Proof.
  intros (_ & Hlen & _ & _ & _ & Hfit) bs Hat. unfold bs, in_range in *.
  destruct (ranged ct && negb (outside_root v)) eqn:Er.
  - apply andb_true_iff in Er as [Er Eo]. apply negb_true_iff in Eo. rewrite Eo in *.
    unfold outside_root in Eo. rewrite Er in Eo. apply orb_false_iff in Eo as [_ Eo].
    destruct Hfit as [H31 Hfit]. unfold get_index. rewrite Er.
    assert (0 <= from_option range_bits 0 ct) by (unfold ranged in Er; destruct ct; cbn in *; lia).
    rewrite length_val_bits, Z2Nat.id by lia.
    destruct (per_get_few_at pd (from_option range_bits 0 ct) _ _ ltac:(lia) Hat) as (pd1 & -> & Hat1 & Hrd1).
    cbn [mbind option_bind]. rewrite Z.mod_small by done. destruct (Z.ltb_spec (canonical v) 0); [lia|].
    rewrite Eo. by exists pd1.
  - apply get_extension_index; [|tauto|done|exact Hat].
    destruct (outside_root v); [done|]. by rewrite andb_true_r in Er.
Qed.

Lemma get_alternative_ok v (pd : asn_per_data) rest : choice_dom v ->
  let bs := if in_range v then val_bits (Z.to_nat (from_option range_bits 0 ct)) (canonical v) ++ variant_bits _ Ls v
            else val_bits 7 (canonical v - ext_start specs) ++ open_type_bits (padded_octets (variant_bits _ Ls v)) in
  pd_at pd (bs ++ rest) ->
  dec_res pd (Z.of_nat (length bs)) rest (get_alternative (if outside_root v then None else ct) pd) (Some v).
Proof.
  intros Hd bs Hat. unfold get_alternative.
  set (member := if in_range v then variant_bits _ Ls v else open_type_bits (padded_octets (variant_bits _ Ls v))).
  set (index := if in_range v then val_bits (Z.to_nat (from_option range_bits 0 ct)) (canonical v)
                else val_bits 7 (canonical v - ext_start specs)).
  assert (Hbs : bs = index ++ member) by (unfold bs, index, member; by destruct (in_range v)). rewrite Hbs in *.
  rewrite <- app_assoc in Hat. destruct (get_index_ok v pd _ Hd Hat) as (pd1 & -> & Hat1 & Hrd1).
  fold index in Hrd1. cbn [mbind option_bind]. rewrite decide_True by done.
  pose proof Hd as (Hv & _ & _ & Hfrom & _). rewrite Hfrom. cbn [mbind option_bind].
  destruct (variant_select _ Ls v Hv) as (m & L & t & inj & Hinj & Ht & Hbits & _ & ->).
  assert (Hr : ranged (if outside_root v then None else ct) = in_range v)
    by (unfold in_range; destruct (outside_root v); [by rewrite andb_false_r|by rewrite andb_true_r]). rewrite Hr.
  destruct (@per_dec_law _ _ L) as (dec & Hdec & Hget). rewrite Hdec. cbn [mbind option_bind].
  assert (Hmem : dec_res pd1 (Z.of_nat (length member)) rest
    (if in_range v then dec pd1 else uper_open_type_get dec pd1) t).
  { unfold member in *. rewrite Hbits in *. destruct (in_range v); [by apply Hget|by apply open_type_get_value]. }
  destruct Hmem as (pd2 & -> & Hat2 & Hrd2). cbn [mbind option_bind]. rewrite <- Hinj. exists pd2.
  split_and!; [done|done|]. rewrite length_app, Nat2Z.inj_add. eapply pd_read_trans; [lia..|done|done].
Qed.

Lemma choice_decode_ok v (pd : asn_per_data) rest : choice_dom v -> pd_at pd (choice_bits v ++ rest) ->
  dec_res pd (Z.of_nat (length (choice_bits v))) rest (CHOICE_decode_uper pd) (Some v).
Proof.
  intros Hd Hat. pose proof (fun pd => get_alternative_ok v pd rest Hd) as Halt. cbn zeta in Halt.
  unfold CHOICE_decode_uper, choice_bits in *. destruct Hd as (_ & _ & _ & _ & Hout & _).
  destruct (extensible ct).
  - destruct (get_bit pd _ _ Hat) as (pd1 & -> & Hat1 & Hrd1). cbn [mbind option_bind].
    replace (Z.b2z (outside_root v) <? 0) with false by (by destruct (outside_root v)).
    replace (negb (Z.b2z (outside_root v) =? 0)) with (outside_root v) by (by destruct (outside_root v)).
    destruct (Halt pd1 Hat1) as (pd2 & -> & Hat2 & Hrd2). exists pd2. split_and!; [done|done|].
    cbn [app length]. rewrite Nat2Z.inj_succ, <- Z.add_1_l. eapply pd_read_trans; [lia..|done|done].
  - destruct (outside_root v); [by specialize (Hout eq_refl)|]. by apply Halt.
Qed.
End Choice.

(** Writers do not look behind the callback. *)
Lemma on_variant_laws {S1 S2} `{C1 : Consumer S1} `{C2 : Consumer S2} (f : S1 -> S2) ms (Lms : members_per_laws ms) v
    (k1 : forall m, field m -> option (Z * asn_bit_outp S1)) (k2 : forall m, field m -> option (Z * asn_bit_outp S2)) :
  (forall m (L : PerTypeLaws (elm_type m)) x, k2 m x = res_map f (k1 m x)) ->
  on_variant k2 ms v = res_map f (on_variant k1 ms v).
Proof.
  intros Hk. induction ms as [|m ms IH]; [by destruct v|]. destruct Lms as [L Lms], v as [x|v]; cbn [on_variant].
  - by apply Hk.
  - by apply IH.
Qed.

Lemma choice_encode_map {S1 S2} `{C1 : Consumer S1} `{C2 : Consumer S2} (f : S1 -> S2) specs ct
    (Ls : members_per_laws (alternatives specs)) st po : consumer_morphism f ->
  CHOICE_encode_uper specs ct st (po_map f po) = res_map f (CHOICE_encode_uper specs ct st po).
Proof.
  intros Hf. unfold CHOICE_encode_uper. destruct st as [v|]; [|done].
  destruct (match to_canonical_order specs with Some _ => _ | None => _ end); [|done]. cbn [mbind option_bind].
  destruct (_ && negb _); [done|]. apply res_map_bind; [destruct (extensible ct); natural|].
  intros rc po1. cbn beta iota. destruct (negb _); [done|]. unfold put_alternative.
  apply (on_variant_laws f _ Ls). intros m L x. destruct (memb_ptr m x) as [t|]; [|done].
  destruct (ranged _).
  - apply res_map_bind; [by apply per_put_few_map|]. intros rc2 po2. cbn beta iota. destruct (negb _); [done|].
    destruct (@per_enc_law _ _ L) as (enc & -> & _ & Hn). by apply Hn.
  - destruct (_ =? -1); [done|]. apply res_map_bind; [by apply put_nsnnwn_map|]. intros rc2 po2. cbn beta iota.
    destruct (negb _); [done|]. natural.
Qed.

(** A choice keeps the contract its alternatives keep. *)
Definition choice_laws specs ct (Ls : members_per_laws (alternatives specs)) :
  @PerTypeLaws (choice_t specs) (CHOICE_per specs ct).
Proof.
  unshelve refine (@Build_PerTypeLaws _ (CHOICE_per specs ct)
    (fun st : choice_t specs => exists v, st = Some v /\ choice_dom specs ct Ls v)
    (fun st : choice_t specs => from_option (choice_bits specs ct Ls) [] st) _ _).
  - eexists. split; [reflexivity|]. split.
    + intros S C A po st (v & -> & Hd) Hw. by apply choice_encode_ok.
    + intros S1 S2 C1 C2 f Hf po st. by apply choice_encode_map.
  - eexists. split; [reflexivity|]. intros pd st rest (v & -> & Hd) Hat. by apply choice_decode_ok.
Defined.

(** ** Properties *)

(** C28: For every CHOICE whose canonical orders are inverse to each other and
    whose alternatives keep their codecs' contract: encoding emits the
    extension bit and the alternative's place in canonical order, in the bits
    of the root or as a normally small number, then the alternative, as an
    open type outside the root; decoding that, whatever follows, selects the
    same alternative with the same value and stops behind it.  A structure
    without a valid presence index is refused before anything is written. *)
Theorem choice_uper_roundtrip specs ct (Ls : members_per_laws (alternatives specs)) (v : variant (alternatives specs)) :
  choice_dom specs ct Ls v ->
  (forall S (C : Consumer S) (A : AppendConsumer S) (po : asn_bit_outp S), po_wf po ->
     (exists e, e <> -1 /\ put_res po (choice_bits specs ct Ls v) (CHOICE_encode_uper specs ct (Some v) po) e) /\
     CHOICE_encode_uper specs ct None po = Some (-1, po)) /\
  (forall pd rest, pd_at pd (choice_bits specs ct Ls v ++ rest) ->
     dec_res pd (Z.of_nat (length (choice_bits specs ct Ls v))) rest (CHOICE_decode_uper specs ct pd) (Some v)).
Proof.
  intros Hd. split; intros; [split; [by apply choice_encode_ok|done]|by apply choice_decode_ok].
Qed.

(** CHOICE \{ a BOOLEAN, b BOOLEAN, ..., c BOOLEAN \} with the first two in the
    other order on the wire. *)
Definition switch_specs : asn_CHOICE_specifics_t := {|
  alternatives := [boolean_member false 0 2 None; boolean_member false 0 6 None; boolean_member false 0 10 None];
  to_canonical_order := Some [1; 0; 2]; from_canonical_order := Some [1; 0; 2]; ext_start := 2 |}.

Definition switch_constraint : asn_per_constraint_t :=
  {| flags := 6; range_bits := 1; effective_bits := 1; lower_bound := 0; upper_bound := 1 |}.

Definition switch_laws : members_per_laws (alternatives switch_specs) :=
  (BOOLEAN_laws, (BOOLEAN_laws, (BOOLEAN_laws, tt))).

Definition switch_a : variant (alternatives switch_specs) := inl {| bool_int := 1 |}.
Definition switch_c : variant (alternatives switch_specs) := inr (inr (inl {| bool_int := 1 |})).

Lemma switch_dom_c : choice_dom switch_specs (Some switch_constraint) switch_laws switch_c.
Proof.
  split_and!; [|done|by eexists|done|done|vm_compute; split_and!; try done; intros ?; congruence].
  eexists. split; [done|]. by right.
Qed.

Lemma choice_uper_roundtrip_witness :
  let bits := choice_bits switch_specs (Some switch_constraint) switch_laws in
  bits switch_a = [false; true; true] /\
  bits switch_c = [true] ++ val_bits 7 0 ++ val_bits 8 1 ++ val_bits 8 128 /\
  (forall S (C : Consumer S) (A : AppendConsumer S) (po : asn_bit_outp S), po_wf po ->
     (exists e, e <> -1 /\ put_res po (bits switch_c)
        (CHOICE_encode_uper switch_specs (Some switch_constraint) (Some switch_c) po) e) /\
     CHOICE_encode_uper switch_specs (Some switch_constraint) None po = Some (-1, po)) /\
  (forall pd rest, pd_at pd (bits switch_c ++ rest) ->
     dec_res pd (Z.of_nat (length (bits switch_c))) rest
       (CHOICE_decode_uper switch_specs (Some switch_constraint) pd) (Some switch_c)).
Proof.
  split; [reflexivity|split; [reflexivity|]].
  exact (choice_uper_roundtrip switch_specs (Some switch_constraint) switch_laws switch_c switch_dom_c).
Defined.
