(* ===== verification/OerChoice.v ===== *)
(** * CHOICE in OER (support/constr_CHOICE_oer.c)

    The tag of the alternative and the alternative, as an open type when it is
    an extension.  The decoder is a state machine resumed like that of the
    list types. *)
From S2P Require Import Prelude Outcome Consumer BitData PerSupport PerNatural PerCodec BerTlv AsnInteger UperInteger.
From S2P Require Import OpenType Oer OerStream Members ConstrChoice.

(** ** Tags *)

(** The octets behind a first one of 0x3F; return value and [*tag_r]. *)
Fixpoint fetch_tag_octets (ptr : list Z) (val tclass skipped : Z) : Z * option Z :=
  match ptr with
  | [] => (0, None)
  | oct :: ptr =>
    if negb (Z.land oct 128 =? 0) then
      let val := Z.lor (u32 (val ≪ 7)) (Z.land oct 127) in
      if negb (val ≫ 23 =? 0) then (-1, None) else fetch_tag_octets ptr val tclass (skipped + 1)
    else
      let val := Z.lor (u32 (val ≪ 7)) oct in
      (skipped, Some (Z.lor (u32 (val ≪ 2)) tclass))
  end.

Definition oer_fetch_tag (ptr : list Z) : Z * option Z :=
  match ptr with
  | [] => (0, None)
  | val :: rest =>
    let tclass := val ≫ 6 in
    if negb (Z.land val 63 =? 63) then (1, Some (Z.lor (Z.land val 63 ≪ 2) tclass))
    else fetch_tag_octets rest 0 tclass 2
  end.

(** The loop from the last octet backwards: the octets in front of [acc]. *)
Fixpoint put_tag_loop (fuel : nat) (tval : Z) (acc : list Z) : list Z :=
  match fuel with
  | O => acc
  | S fuel =>
    if negb (tval ≫ 7 =? 0) then put_tag_loop fuel (tval ≫ 7) (Z.lor 128 (Z.land tval 127) :: acc)
    else Z.land tval 127 :: acc
  end.

(** A tag value has 30 bits, five groups of seven. *)
Definition oer_put_tag {S} `{Consumer S} (tag : Z) (key : S) : Z * S :=
  let tclass := BER_TAG_CLASS tag in
  let tval := BER_TAG_VALUE tag in
  let buf := if tval <? 63 then [u8 (Z.lor (tclass ≪ 6) tval)]
             else u8 (Z.lor (tclass ≪ 6) 63) :: put_tag_loop 5 tval [] in
  let '(rc, key) := consume buf key in
  (if rc <? 0 then -1 else Z.of_nat (length buf), key).

(** ** Encoding *)

#[local] Abbreviation variant_struct := (variant_struct (fun m => oer_struct (T := elm_type m))).
#[local] Abbreviation variant_value := (variant_value (fun m => oer_value)).

Section Choice.
Context (specs : asn_CHOICE_specifics_t) (tag2el : list asn_TYPE_tag2member_t).

(** specs->ext_start >= 0 && specs->ext_start <= index *)
Definition is_extension (index : Z) : bool := (0 <=? ext_start specs) && (ext_start specs <=? index).

Definition CHOICE_encode_oer {S} `{C : Consumer S} (st : choice_t specs) (key : S) : option (Z * S) :=
  match st with
  | None => Some (-1, key)
  | Some v =>
    on_variant (fun m f =>
      match memb_ptr m f with
      | None => Some (-1, key)
      | Some t =>
        let tag := elm_outmost_tag m t in
        if tag =? 0 then Some (-1, key) else
        let '(tag_len, key) := oer_put_tag tag key in
        if tag_len <? 0 then Some (-1, key) else
        if is_extension (variant_index _ v) then
          '(encoded, key) ← oer_open_type_put t key;
          Some (if encoded <? 0 then -1 else tag_len + encoded, key)
        else
          '(encoded, key) ← oer_encoder S C t key;
          Some (if 0 <=? encoded then encoded + tag_len else encoded, key)
      end) _ v
  end.

(** ** Decoding *)

Record choice_struct := {
  ch_phase : Z;
  ch_step : Z;
  ch_present : option (variant_struct (alternatives specs))
}.

Definition fresh_choice : choice_struct := {| ch_phase := 0; ch_step := 0; ch_present := None |}.

(** Phase 1, having consumed [consumed_myself] octets in this call.  The two
    returns behind oer_open_type_get report no octets and keep the phase. *)
Definition choice_phase1 (step : Z) (present : option (variant_struct (alternatives specs)))
    (consumed_myself : Z) (buf : list Z) : option (asn_dec_rval_code * Z * choice_struct) :=
  let ext := is_extension step in
  '(code, n, v) ← step_variant (alternatives specs) (fun m p =>
      if ext then
        '(got, p) ← open_type_get (oer_step p) buf;
        Some (if got <? 0 then RC_FAIL else if got =? 0 then RC_WMORE else RC_OK, got, p)
      else oer_step p buf)
    (Z.to_nat step) present;
  let st phase step := {| ch_phase := phase; ch_step := step; ch_present := Some v |} in
  Some (match code with
        | RC_OK => (RC_OK, n + consumed_myself, st 2 0)
        | RC_WMORE => (RC_WMORE, if ext then 0 else n + consumed_myself, st 1 step)
        | RC_FAIL => if ext then (RC_FAIL, 0, st 1 step) else (RC_FAIL, n + consumed_myself, st 3 0)
        end).

(** _search4tag: by class and then by value. *)
Definition _search4tag (a b : Z) : Z :=
  if BER_TAG_CLASS a =? BER_TAG_CLASS b then
    if BER_TAG_VALUE a =? BER_TAG_VALUE b then 0 else if BER_TAG_VALUE a <? BER_TAG_VALUE b then -1 else 1
  else if BER_TAG_CLASS a <? BER_TAG_CLASS b then -1 else 1.

(** bsearch in the sorted table finds the entry that compares equal. *)
Definition search_tag (tag : Z) : option asn_TYPE_tag2member_t :=
  List.find (fun e => _search4tag tag (el_tag e) =? 0) tag2el.

Definition CHOICE_decode_oer (struct_ptr : option choice_struct) (buf : list Z) :
    option (asn_dec_rval_code * Z * choice_struct) :=
  let st := default fresh_choice struct_ptr in
  if ch_phase st =? 0 then
    let '(tag_len, tag) := oer_fetch_tag buf in
    if tag_len =? 0 then Some (RC_WMORE, 0, st)
    else if tag_len =? -1 then Some (RC_FAIL, 0, st)
    else match tag ≫= search_tag with
         | Some t2m => choice_phase1 (el_no t2m) (ch_present st) tag_len (drop (Z.to_nat tag_len) buf)
         | None => Some (RC_FAIL, 0, st)
         end
  else if ch_phase st =? 1 then choice_phase1 (ch_step st) (ch_present st) 0 buf
  else Some (if ch_phase st =? 2 then RC_OK else RC_FAIL, 0, st).

(** The structure as a value. *)
Definition choice_value (st : choice_struct) : choice_t specs := variant_value _ <$> ch_present st.

#[local] Instance CHOICE_stream : OerStream (choice_t specs) := {
  oer_struct := choice_struct;
  oer_value := choice_value;
  oer_step struct_ptr buf := '(code, n, st) ← CHOICE_decode_oer struct_ptr buf; Some (code, n, Some st)
}.

#[local] Instance CHOICE_oer : OerType (choice_t specs) := {
  oer_encoder S C st key := CHOICE_encode_oer st key;
  oer_decoder buf := '(code, n, st) ← CHOICE_decode_oer None buf; Some (code, n, Some (choice_value st))
}.
End Choice.

(** ** Lemmas: tags *)

(** The octets of a tag whose value has at most seven bits. *)
Definition oer_tag_octets (tag : Z) : list Z :=
  if BER_TAG_VALUE tag <? 63 then [BER_TAG_CLASS tag * 64 + BER_TAG_VALUE tag]
  else [BER_TAG_CLASS tag * 64 + 63; BER_TAG_VALUE tag].

Lemma class_octet c v : 0 <= c < 4 -> 0 <= v < 64 ->
  u8 (Z.lor (c ≪ 6) v) = c * 64 + v /\ (c * 64 + v) ≫ 6 = c /\ Z.land (c * 64 + v) 63 = v /\ byte_ok (c * 64 + v).
Proof.
  intros Hc Hv. rewrite lor_shiftl_add, shiftr_div by lia. change 63 with (2 ^ 6 - 1).
  rewrite land_ones_mod by lia. change (2 ^ 6) with 64. unfold byte_ok, u8. change (2 ^ 8) with 256.
  split_and!; [apply Z.mod_small| | | |]; Z.div_mod_to_equations; lia.
Qed.

Lemma oer_put_tag_ok {S} `{AppendConsumer S} tag (key : S) : 0 <= tag < 2 ^ 32 -> BER_TAG_VALUE tag < 128 ->
  exists key', oer_put_tag tag key = (Z.of_nat (length (oer_tag_octets tag)), key') /\
    written key' = written key ++ oer_tag_octets tag.
Proof.
  intros Ht Hv. destruct (tag_split tag Ht) as (Hc & Hval & _). unfold oer_put_tag, oer_tag_octets.
  destruct (Z.ltb_spec (BER_TAG_VALUE tag) 63).
  - destruct (class_octet (BER_TAG_CLASS tag) (BER_TAG_VALUE tag) Hc ltac:(lia)) as (-> & _).
    destruct (consume_append [BER_TAG_CLASS tag * 64 + BER_TAG_VALUE tag] key) as (key' & -> & Hw). by exists key'.
  - destruct (class_octet (BER_TAG_CLASS tag) 63 Hc ltac:(lia)) as (-> & _). cbn [put_tag_loop].
    rewrite shiftr_div, Z.div_small by (change (2 ^ 7) with 128; lia). cbn [Z.eqb negb].
    rewrite land_127, Z.mod_small by lia.
    destruct (consume_append [BER_TAG_CLASS tag * 64 + 63; BER_TAG_VALUE tag] key) as (key' & -> & Hw). by exists key'.
Qed.

Lemma oer_fetch_tag_ok tag rest : 0 <= tag < 2 ^ 32 -> BER_TAG_VALUE tag < 128 ->
  oer_fetch_tag (oer_tag_octets tag ++ rest) = (Z.of_nat (length (oer_tag_octets tag)), Some tag).
Proof.
  intros Ht Hv. destruct (tag_split tag Ht) as (Hc & Hval & Hjoin). unfold oer_tag_octets.
  assert (Hu : u32 (BER_TAG_VALUE tag ≪ 2) = BER_TAG_VALUE tag ≪ 2).
  { unfold u32. rewrite shiftl_mul by lia. apply Z.mod_small. change (2 ^ 32) with 4294967296. lia. }
  rewrite Hu in Hjoin. destruct (Z.ltb_spec (BER_TAG_VALUE tag) 63); cbn [app oer_fetch_tag length].
  - destruct (class_octet (BER_TAG_CLASS tag) (BER_TAG_VALUE tag) Hc ltac:(lia)) as (_ & -> & -> & _).
    destruct (Z.eqb_spec (BER_TAG_VALUE tag) 63); [lia|]. cbn [negb]. by rewrite Hjoin.
  - destruct (class_octet (BER_TAG_CLASS tag) 63 Hc ltac:(lia)) as (_ & -> & -> & _). cbn [Z.eqb Pos.eqb negb fetch_tag_octets].
    rewrite oer_short_octet by lia. cbn [negb]. rewrite Z.shiftl_0_l. change (u32 0) with 0. rewrite Z.lor_0_l, Hu, Hjoin. done.
Qed.

Lemma oer_fetch_tag_short tag p q : 0 <= tag < 2 ^ 32 -> BER_TAG_VALUE tag < 128 -> oer_tag_octets tag = p ++ q -> q <> [] ->
  oer_fetch_tag p = (0, None).
Proof.
  intros Ht Hv Heq Hq. destruct (tag_split tag Ht) as (Hc & Hval & _). unfold oer_tag_octets in Heq.
  destruct p as [|b p]; [done|]. destruct (Z.ltb_spec (BER_TAG_VALUE tag) 63).
  - injection Heq as _ Heq. by destruct p, q.
  - injection Heq as <- Heq. destruct p; [|injection Heq as _ Heq; by destruct p, q]. cbn [oer_fetch_tag].
    by destruct (class_octet (BER_TAG_CLASS tag) 63 Hc ltac:(lia)) as (_ & _ & -> & _).
Qed.

(** ** Specification *)

Fixpoint alt_dom (ms : list asn_TYPE_member_t) : members_oer_laws ms -> variant ms -> Prop :=
  match ms with
  | [] => fun _ v => match v with end
  | m :: ms => fun '(existT L _, Ls) v =>
      match v with
      | inl f => exists t, f = set_memb m (Some t) /\ @oer_dom _ _ L t
      | inr v => alt_dom ms Ls v
      end
  end.

Fixpoint alt_octets (ms : list asn_TYPE_member_t) : members_oer_laws ms -> variant ms -> list Z :=
  match ms with
  | [] => fun _ v => match v with end
  | m :: ms => fun '(existT L _, Ls) v =>
      match v with
      | inl f => from_option (@oer_octets _ _ L) [] (memb_ptr m f)
      | inr v => alt_octets ms Ls v
      end
  end.

(** The tag of the alternative that is present. *)
Definition alt_tag (ms : list asn_TYPE_member_t) (v : variant ms) : Z :=
  on_variant (fun m f => from_option (elm_outmost_tag m) 0 (memb_ptr m f)) ms v.

(** The member under construction has taken in all but [bs]. *)
Fixpoint alt_left (ms : list asn_TYPE_member_t) :
    members_oer_laws ms -> variant_struct ms -> variant ms -> list Z -> Prop :=
  match ms with
  | [] => fun _ _ v _ => match v with end
  | m :: ms => fun '(existT L SL, Ls) cur v bs =>
      match cur, v with
      | inl p, inl f => exists t, f = set_memb m (Some t) /\ @stream_left _ _ L _ SL p t bs
      | inr cur, inr v => alt_left ms Ls cur v bs
      | _, _ => False
      end
  end.

Lemma alt_start ms (Ls : members_oer_laws ms) v : alt_dom ms Ls v ->
  exists cur, alt_left ms Ls cur v (alt_octets ms Ls v) /\
    forall dec, step_variant ms dec (Z.to_nat (variant_index ms v)) None =
      step_variant ms dec (Z.to_nat (variant_index ms v)) (Some cur).
Proof.
  induction ms as [|m ms IH]; [by destruct v|]. destruct Ls as [[L SL] Ls], v as [f|v]; cbn [alt_dom alt_octets].
  - intros (t & -> & Hd). exists (inl None). rewrite memb_ptr_set. split; [|done]. exists t. split; [done|].
    by apply stream_start.
  - intros Hd. destruct (IH Ls v Hd) as (cur & Hl & Hs). exists (inr cur). split; [done|]. intros dec.
    etransitivity; [apply (step_variant_next m ms dec v None)|].
    etransitivity; [|symmetry; apply (step_variant_next m ms dec v (Some cur))]. by rewrite Hs.
Qed.

(** Root alternatives continue with the member's own decoder. *)
Lemma alt_more ms (Ls : members_oer_laws ms) cur v p q : alt_left ms Ls cur v (p ++ q) -> q <> [] ->
  exists n cur', step_variant ms (fun m x => oer_step x p) (Z.to_nat (variant_index ms v)) (Some cur) =
      Some (RC_WMORE, n, cur') /\
    0 <= n <= Z.of_nat (length p) /\ alt_left ms Ls cur' v (drop (Z.to_nat n) p ++ q).
Proof.
  induction ms as [|m ms IH]; [by destruct v|].
  destruct Ls as [[L SL] Ls], cur as [x|cur], v as [f|v]; cbn [alt_left]; [|done|done|].
  - intros (t & -> & Hl) Hq. destruct (stream_more x t p q Hl Hq) as (n & x' & Hs & Hn & Hl').
    exists n, (inl x').
    rewrite step_variant_here. cbn beta iota. rewrite Hs. split_and!; [done|lia|lia|]. by exists t.
  - intros Hl Hq. destruct (IH Ls cur v Hl Hq) as (n & cur' & Hs & Hn & Hl'). exists n, (inr cur').
    split; [|done]. etransitivity; [apply (step_variant_next m ms _ v (Some cur))|by rewrite Hs].
Qed.

Lemma alt_done ms (Ls : members_oer_laws ms) cur v bs rest : alt_left ms Ls cur v bs ->
  exists cur', step_variant ms (fun m x => oer_step x (bs ++ rest)) (Z.to_nat (variant_index ms v)) (Some cur) =
      Some (RC_OK, Z.of_nat (length bs), cur') /\ variant_value ms cur' = v.
Proof.
  induction ms as [|m ms IH]; [by destruct v|].
  destruct Ls as [[L SL] Ls], cur as [x|cur], v as [f|v]; cbn [alt_left]; [|done|done|].
  - intros (t & -> & Hl). destruct (stream_done x t bs rest Hl) as (x' & Hs & Hv). exists (inl (Some x')).
    rewrite step_variant_here. cbn beta iota. rewrite Hs. cbn. by rewrite Hv.
  - intros Hl. destruct (IH Ls cur v Hl) as (cur' & Hs & Hv). exists (inr cur').
    split; [|cbn; by rewrite Hv]. etransitivity; [apply (step_variant_next m ms _ v (Some cur))|by rewrite Hs].
Qed.

(** Extensions come as open types, decoded from the beginning and whole. *)
Definition open_step (buf : list Z) (m : asn_TYPE_member_t) (p : option (oer_struct (T := elm_type m))) :
    option (asn_dec_rval_code * Z * option (oer_struct (T := elm_type m))) :=
  '(got, p) ← open_type_get (oer_step p) buf;
  Some (if got <? 0 then RC_FAIL else if got =? 0 then RC_WMORE else RC_OK, got, p).

Lemma alt_open ms (Ls : members_oer_laws ms) v rest : alt_dom ms Ls v ->
  let octets := alt_octets ms Ls v in
  Z.of_nat (length octets) <= RSIZE_MAX ->
  let prefix := oer_length_octets (Z.of_nat (length octets)) in
  exists cur, step_variant ms (open_step (prefix ++ octets ++ rest)) (Z.to_nat (variant_index ms v)) None =
    Some (RC_OK, Z.of_nat (length (prefix ++ octets)), cur) /\ variant_value ms cur = v.
Proof.
  cbn zeta. induction ms as [|m ms IH]; [by destruct v|].
  destruct Ls as [[L SL] Ls], v as [f|v]; cbn [alt_dom alt_octets].
  - intros (t & -> & Hd). rewrite memb_ptr_set. cbn [from_option]. intros Hmax.
    destruct (stream_done None t (oer_octets t) []) as (x & Hs & Hv); [by apply stream_start|]. rewrite app_nil_r in Hs.
    exists (inl (Some x)). rewrite step_variant_here. cbn beta iota. unfold open_step.
    rewrite (oer_open_get_ok _ _ _ _ rest Hmax Hs). cbn [mbind option_bind variant_value].
    pose proof (length_octets_pos (Z.of_nat (length (oer_octets t)))). rewrite length_app. zcases. cbn. by rewrite Hv.
  - intros Hd Hmax. destruct (IH Ls v Hd Hmax) as (cur & Hs & Hv). exists (inr cur).
    split; [|cbn; by rewrite Hv]. etransitivity; [apply (step_variant_next m ms _ v None)|by rewrite Hs].
Qed.

Section Spec.
Context (specs : asn_CHOICE_specifics_t) (tag2el : list asn_TYPE_tag2member_t).
Context (Ls : members_oer_laws (alternatives specs)).
Implicit Types v : variant (alternatives specs).

Definition extension v : bool := is_extension specs (variant_index _ v).

Definition member_octets v : list Z :=
  let octets := alt_octets _ Ls v in
  if extension v then oer_length_octets (Z.of_nat (length octets)) ++ octets else octets.

Definition choice_octets v : list Z := oer_tag_octets (alt_tag _ v) ++ member_octets v.

(** The alternative has a value and a tag of at most seven bits that the table
    sends to it; an extension where [exts] allows them. *)
Definition choice_oer_dom (exts : bool) v : Prop :=
  alt_dom _ Ls v /\ 0 < alt_tag _ v < 2 ^ 32 /\ BER_TAG_VALUE (alt_tag _ v) < 128 /\
  el_no <$> search_tag tag2el (alt_tag _ v) = Some (variant_index _ v) /\
  (extension v = true -> exts = true /\ Z.of_nat (length (alt_octets _ Ls v)) <= RSIZE_MAX).

Lemma phase1_root i present consumed buf : is_extension specs i = false ->
  choice_phase1 specs i present consumed buf =
  '(code, n, v) ← step_variant (alternatives specs) (fun m p => oer_step p buf) (Z.to_nat i) present;
  Some match code with
       | RC_OK => (RC_OK, n + consumed, {| ch_phase := 2; ch_step := 0; ch_present := Some v |})
       | RC_WMORE => (RC_WMORE, n + consumed, {| ch_phase := 1; ch_step := i; ch_present := Some v |})
       | RC_FAIL => (RC_FAIL, n + consumed, {| ch_phase := 3; ch_step := 0; ch_present := Some v |})
       end.
Proof. intros He. unfold choice_phase1. rewrite He. done. Qed.

Lemma phase1_extension i present consumed buf : is_extension specs i = true ->
  choice_phase1 specs i present consumed buf =
  '(code, n, v) ← step_variant (alternatives specs) (open_step buf) (Z.to_nat i) present;
  Some match code with
       | RC_OK => (RC_OK, n + consumed, {| ch_phase := 2; ch_step := 0; ch_present := Some v |})
       | c => (c, 0, {| ch_phase := 1; ch_step := i; ch_present := Some v |})
       end.
Proof.
  intros He. unfold choice_phase1. rewrite He. unfold open_step.
  destruct (step_variant _ _ _ _) as [[[[| |] n] v]|]; done.
Qed.

(** Phase 0 with the whole tag. *)
Lemma decode_after_tag exts v ptr buf : choice_oer_dom exts v -> default (fresh_choice specs) ptr = fresh_choice specs ->
  CHOICE_decode_oer specs tag2el ptr (oer_tag_octets (alt_tag _ v) ++ buf) =
  choice_phase1 specs (variant_index _ v) None (Z.of_nat (length (oer_tag_octets (alt_tag _ v)))) buf.
Proof.
  intros (_ & Ht & Hs & Hf & _) Hfresh. unfold CHOICE_decode_oer. rewrite Hfresh. cbn [fresh_choice ch_phase Z.eqb ch_present].
  rewrite oer_fetch_tag_ok by lia.
  assert (1 <= length (oer_tag_octets (alt_tag _ v)))%nat by (unfold oer_tag_octets; destruct (_ <? 63); cbn; lia).
  zcases. cbn [mbind option_bind]. destruct (search_tag _ _) as [e|]; [|done]. injection Hf as Hf.
  by rewrite Hf, Nat2Z.id, drop_app_length.
Qed.

Lemma alt_tag_positive ms (Lms : members_oer_laws ms) (v : variant ms) : alt_dom ms Lms v -> 0 < alt_tag ms v ->
  exists m (L : OerTypeLaws (elm_type m)) (t : elm_type m), oer_dom t /\ alt_octets ms Lms v = oer_octets t /\
    elm_outmost_tag m t = alt_tag ms v /\
    forall R (k : forall m, field m -> R), on_variant k ms v = k m (set_memb m (Some t)).
Proof.
  unfold alt_tag. induction ms as [|m ms IH]; [by destruct v|].
  destruct Lms as [[L SL] Lms], v as [f|v]; cbn [alt_dom alt_octets on_variant].
  - intros (t & -> & Hd) _. exists m, L, t. by rewrite memb_ptr_set.
  - intros Hd Ht. destruct (IH Lms v Hd Ht) as (m' & L' & t & Hdt & Ho & Htag & Hon). by exists m', L', t.
Qed.

Lemma choice_encode_ok_oer exts {S} `{HC : Consumer S} `{HA : !AppendConsumer S} v (key : S) : choice_oer_dom exts v ->
  exists key', CHOICE_encode_oer specs (Some v) key = Some (Z.of_nat (length (choice_octets v)), key') /\
    written key' = written key ++ choice_octets v.
Proof.
  intros (Hd & Ht & Hs & _ & Hx). unfold CHOICE_encode_oer, choice_octets, member_octets.
  destruct (alt_tag_positive _ Ls v Hd ltac:(lia)) as (m & L & t & Hdt & Ho & Htag & ->).
  rewrite memb_ptr_set, Htag, Ho in *. zcase.
  destruct (oer_put_tag_ok (alt_tag _ v) key ltac:(lia) Hs) as (k1 & -> & Hw1). zcase. fold (extension v).
  destruct (extension v).
  - destruct (Hx eq_refl) as [_ Hmax]. destruct (oer_put_ok (L := L) t k1 Hdt Hmax) as (k2 & -> & Hw2).
    cbn [mbind option_bind]. zcase. exists k2. rewrite Hw2, Hw1, (length_app (oer_tag_octets _)), Nat2Z.inj_add, <- app_assoc. done.
  - destruct (oer_enc_law _ _ _ t k1 Hdt) as (k2 & -> & Hw2). cbn [mbind option_bind]. zcase. exists k2.
    rewrite Hw2, Hw1, length_app, Nat2Z.inj_add, <- app_assoc. split; [do 2 f_equal; lia|done].
Qed.

Lemma choice_whole exts v ptr rest : choice_oer_dom exts v -> default (fresh_choice specs) ptr = fresh_choice specs ->
  exists st, CHOICE_decode_oer specs tag2el ptr (choice_octets v ++ rest) =
      Some (RC_OK, Z.of_nat (length (choice_octets v)), st) /\ choice_value specs st = Some v.
Proof.
  intros Hdom Hfresh. unfold choice_octets. rewrite <- app_assoc, (decode_after_tag exts) by done.
  destruct Hdom as (Hd & _ & _ & _ & Hx). unfold member_octets. destruct (extension v) eqn:He.
  - rewrite phase1_extension by done. destruct (Hx eq_refl) as [_ Hmax]. rewrite <- (app_assoc (oer_length_octets _)).
    destruct (alt_open _ Ls v rest Hd Hmax) as (cur & -> & Hv). cbn [mbind option_bind]. eexists. split.
    { rewrite (length_app (oer_tag_octets _)), Nat2Z.inj_add, Z.add_comm. reflexivity. }
    unfold choice_value. cbn. by rewrite Hv.
  - rewrite phase1_root by done. destruct (alt_start _ Ls v Hd) as (cur & Hl & ->).
    destruct (alt_done _ Ls cur v _ rest Hl) as (cur' & -> & Hv). cbn [mbind option_bind]. eexists. split.
    { rewrite (length_app (oer_tag_octets _)), Nat2Z.inj_add, Z.add_comm. reflexivity. }
    unfold choice_value. cbn. by rewrite Hv.
Qed.

(** ** Resuming *)

Inductive choice_left : option (choice_struct specs) -> choice_t specs -> list Z -> Prop :=
| choice_fresh ptr v : choice_oer_dom false v -> default (fresh_choice specs) ptr = fresh_choice specs ->
    choice_left ptr (Some v) (choice_octets v)
| choice_member cur v bs : choice_oer_dom false v -> alt_left _ Ls cur v bs ->
    choice_left (Some {| ch_phase := 1; ch_step := variant_index _ v; ch_present := Some cur |}) (Some v) bs.

Lemma not_extension v : choice_oer_dom false v -> extension v = false.
Proof. intros (_ & _ & _ & _ & Hx). destruct (extension v); [by destruct (Hx eq_refl)|done]. Qed.

Lemma choice_more ptr t p q : choice_left ptr t (p ++ q) -> q <> [] ->
  exists n st, CHOICE_decode_oer specs tag2el ptr p = Some (RC_WMORE, n, st) /\
    0 <= n <= Z.of_nat (length p) /\ choice_left (Some st) t (drop (Z.to_nat n) p ++ q).
Proof.
  intros Hl Hq. remember (p ++ q) as bs eqn:Hbs. destruct Hl as [ptr v Hdom Hfresh|cur v bs Hdom Hl];
    pose proof (not_extension v Hdom) as He.
  - unfold choice_octets in Hbs. pose proof Hdom as (Hd & Ht & Hs & _).
    destruct (cut_app _ _ _ _ Hbs) as [(k & Hk & Hne)|(k & -> & Hk)].
    + exists 0, (fresh_choice specs). unfold CHOICE_decode_oer. rewrite Hfresh. cbn [fresh_choice ch_phase Z.eqb].
      rewrite (oer_fetch_tag_short (alt_tag _ v) p k) by (done || lia). split_and!; [done|lia|lia|].
      change (Z.to_nat 0) with 0%nat. rewrite drop_0, <- Hbs. by apply choice_fresh.
    + rewrite (decode_after_tag false), phase1_root by done. destruct (alt_start _ Ls v Hd) as (cur & Hl & ->).
      unfold member_octets in Hk. rewrite He in Hk. rewrite Hk in Hl.
      destruct (alt_more _ Ls cur v k q Hl Hq) as (n & cur' & -> & Hn & Hl'). cbn [mbind option_bind].
      eexists _, _. split_and!; [done|lia|rewrite length_app; lia|].
      rewrite Z.add_comm, Z2Nat.inj_add, Nat2Z.id, <- drop_drop, drop_app_length by lia. by apply choice_member.
  - unfold CHOICE_decode_oer. cbn [default from_option id ch_phase ch_step ch_present Z.eqb Pos.eqb].
    rewrite phase1_root by done. rewrite Hbs in Hl. destruct (alt_more _ Ls cur v p q Hl Hq) as (n & cur' & -> & Hn & Hl').
    cbn [mbind option_bind]. rewrite Z.add_0_r. eexists _, _. split_and!; [done|lia|lia|]. by apply choice_member.
Qed.

Lemma choice_done ptr t bs rest : choice_left ptr t bs ->
  exists st, CHOICE_decode_oer specs tag2el ptr (bs ++ rest) = Some (RC_OK, Z.of_nat (length bs), st) /\
    choice_value specs st = t.
Proof.
  intros Hl. destruct Hl as [ptr v Hdom Hfresh|cur v bs Hdom Hl]; [by apply (choice_whole false)|].
  unfold CHOICE_decode_oer. cbn [default from_option id ch_phase ch_step ch_present Z.eqb Pos.eqb].
  rewrite phase1_root by (by apply not_extension). destruct (alt_done _ Ls cur v bs rest Hl) as (cur' & -> & Hv).
  cbn [mbind option_bind]. rewrite Z.add_0_r. eexists. split; [done|]. unfold choice_value. cbn. by rewrite Hv.
Qed.

(** ** The contracts *)

Lemma alt_octets_ok ms (Lms : members_oer_laws ms) (v : variant ms) : alt_dom ms Lms v -> bytes_ok (alt_octets ms Lms v).
Proof.
  induction ms as [|m ms IH]; [by destruct v|]. destruct Lms as [[L SL] Lms], v as [f|v]; cbn [alt_dom alt_octets].
  - intros (t & -> & Hd). rewrite memb_ptr_set. by apply oer_octets_ok.
  - apply IH.
Qed.

Lemma choice_octets_ok exts v : choice_oer_dom exts v -> bytes_ok (choice_octets v).
Proof.
  intros (Hd & Ht & Hs & _ & Hx). pose proof (alt_octets_ok _ Ls v Hd) as Hok. unfold choice_octets, member_octets.
  destruct (tag_split (alt_tag _ v) ltac:(lia)) as (Hc & Hv & _). apply bytes_ok_app.
  - unfold oer_tag_octets. destruct (Z.ltb_spec (BER_TAG_VALUE (alt_tag _ v)) 63);
      repeat (apply bytes_ok_cons; [unfold byte_ok; lia|]); apply bytes_ok_nil.
  - destruct (extension v); [|done]. destruct (Hx eq_refl) as [_ Hmax]. apply bytes_ok_app; [|done].
    change RSIZE_MAX with 9223372036854775807 in Hmax.
    apply oer_length_octets_ok. change (2 ^ 64) with 18446744073709551616. lia.
Qed.
End Spec.

Lemma oer_put_tag_map {S1 S2} `{C1 : Consumer S1} `{C2 : Consumer S2} (f : S1 -> S2) tag key : consumer_morphism f ->
  oer_put_tag tag (f key) = key_map f (oer_put_tag tag key).
Proof. intros Hf. unfold oer_put_tag. rewrite Hf. by destruct (consume _ key). Qed.

Lemma on_variant_map {S1 S2} `{C1 : Consumer S1} `{C2 : Consumer S2} (f : S1 -> S2) ms (Lms : members_oer_laws ms) v
    (k1 : forall m, field m -> option (Z * S1)) (k2 : forall m, field m -> option (Z * S2)) :
  (forall m (L : OerTypeLaws (elm_type m)) x, k2 m x = '(r, key) ← k1 m x; Some (r, f key)) ->
  on_variant k2 ms v = '(r, key) ← on_variant k1 ms v; Some (r, f key).
Proof.
  intros Hk. induction ms as [|m ms IH]; [by destruct v|]. destruct Lms as [[L SL] Lms], v as [x|v]; cbn [on_variant].
  - by apply Hk.
  - by apply IH.
Qed.

Lemma choice_encode_oer_map {S1 S2} {C1 : Consumer S1} {C2 : Consumer S2} (f : S1 -> S2) specs
    (Ls : members_oer_laws (alternatives specs)) st key : consumer_morphism f ->
  CHOICE_encode_oer specs st (f key) = '(r, key) ← CHOICE_encode_oer specs st key; Some (r, f key).
Proof.
  intros Hf. unfold CHOICE_encode_oer. destruct st as [v|]; [|done]. apply (on_variant_map f _ Ls). intros m L x.
  destruct (memb_ptr m x) as [t|]; [|done]. case_match; [done|]. rewrite oer_put_tag_map by done.
  destruct (oer_put_tag _ key) as [r k]. cbn [key_map fst snd]. case_match; [done|]. case_match.
  - rewrite oer_open_put_map by done. by destruct (oer_open_type_put t k) as [[e k']|].
  - rewrite (oer_enc_nat S1 S2 C1 C2 f Hf). by destruct (oer_encoder S1 C1 t k) as [[e k']|].
Qed.

(** A choice keeps the contract its alternatives keep; it is resumable as far
    as it stays away from extensions. *)
Definition choice_oer_laws (exts : bool) specs tag2el (Ls : members_oer_laws (alternatives specs)) :
  @OerTypeLaws (choice_t specs) (CHOICE_oer specs tag2el).
Proof.
  refine (@Build_OerTypeLaws (choice_t specs) (CHOICE_oer specs tag2el)
    (fun st : choice_t specs => exists v, st = Some v /\ choice_oer_dom specs tag2el Ls exts v)
    (fun st : choice_t specs => from_option (choice_octets specs Ls) [] st) _ _ _ _).
  - intros st (v & -> & Hd). by eapply choice_octets_ok.
  - intros S C A st key (v & -> & Hd). by eapply choice_encode_ok_oer.
  - intros S1 S2 C1 C2 f Hf st key. by apply choice_encode_oer_map.
  - intros st rest (v & -> & Hd). cbn [oer_decoder CHOICE_oer from_option].
    destruct (choice_whole specs tag2el Ls exts v None rest Hd eq_refl) as (st & -> & Hv). cbn. by rewrite Hv.
Defined.

Definition choice_stream_laws specs tag2el (Ls : members_oer_laws (alternatives specs)) :
  @OerStreamLaws (choice_t specs) (CHOICE_oer specs tag2el) (choice_oer_laws false specs tag2el Ls) (CHOICE_stream specs tag2el).
Proof.
  unshelve refine (@Build_OerStreamLaws (choice_t specs) (CHOICE_oer specs tag2el) (choice_oer_laws false specs tag2el Ls)
    (CHOICE_stream specs tag2el) (choice_left specs tag2el Ls) _ _ _).
  - intros st (v & -> & Hd). by apply choice_fresh.
  - intros ptr st p q Hl Hq. cbn [oer_step CHOICE_stream].
    destruct (choice_more specs tag2el Ls ptr st p q Hl Hq) as (n & st' & -> & Hn & Hl'). by exists n, (Some st').
  - intros ptr st bs rest Hl. cbn [oer_step CHOICE_stream].
    destruct (choice_done specs tag2el Ls ptr st bs rest Hl) as (st' & -> & Hv). by exists st'.
Defined.

(** ** Properties *)

(** For every CHOICE whose table sends each tag to its alternative and whose
    alternatives keep their contracts, with a tag of at most seven bits: the
    alternative is encoded as its tag and its octets, as an open type when it
    is an extension, and decoding that, whatever follows, finds it again; and
    an alternative of the root is decoded however its octets are cut into
    chunks, the decoder being called with each chunk behind what it left. *)
Theorem choice_oer_resumable specs tag2el (Ls : members_oer_laws (alternatives specs))
    (v : variant (alternatives specs)) (rest : list Z) :
  choice_oer_dom specs tag2el Ls true v ->
  (forall S (C : Consumer S) (A : AppendConsumer S) (key : S), exists key',
     CHOICE_encode_oer specs (Some v) key = Some (Z.of_nat (length (choice_octets specs Ls v)), key') /\
     written key' = written key ++ choice_octets specs Ls v) /\
  (exists st, CHOICE_decode_oer specs tag2el None (choice_octets specs Ls v ++ rest) =
      Some (RC_OK, Z.of_nat (length (choice_octets specs Ls v)), st) /\ choice_value specs st = Some v) /\
  (extension specs v = false ->
   forall chunks : list (list Z), concat chunks = choice_octets specs Ls v ++ rest ->
     exists st, oer_feed (H := CHOICE_stream specs tag2el) chunks None [] = Some (RC_OK, rest, Some st) /\
       choice_value specs st = Some v).
Proof.
  intros Hd. split_and!; [intros; by eapply choice_encode_ok_oer|by eapply choice_whole|]. intros He chunks Hc.
  assert (Hroot : choice_oer_dom specs tag2el Ls false v)
    by (destruct Hd as (? & ? & ? & ? & _); repeat (split; [assumption|]); intros Hx; congruence).
  destruct (feed_ok (L := choice_oer_laws false specs tag2el Ls) (OerStreamLaws0 := choice_stream_laws specs tag2el Ls)
    chunks None (Some v) (choice_octets specs Ls v) [] rest) as (st & Hr & Hv); [by apply choice_fresh|done| |by exists st].
  left. unfold choice_octets, oer_tag_octets. destruct (_ <? 63); cbn [app length]; lia.
Qed.

(** CHOICE \{ a [0] BOOLEAN, b [100] BOOLEAN, ..., c [2] BOOLEAN \}: context
    tags, so 2 in the low bits. *)
Definition mode_specs : asn_CHOICE_specifics_t := {|
  alternatives := [boolean_member false 0 2 None; boolean_member false 0 402 None; boolean_member false 0 10 None];
  to_canonical_order := None; from_canonical_order := None; ext_start := 2 |}.

Definition mode_tag2el : list asn_TYPE_tag2member_t :=
  [{| el_tag := 2; el_no := 0; toff_first := 0; toff_last := 0 |}; {| el_tag := 10; el_no := 2; toff_first := 0; toff_last := 0 |};
   {| el_tag := 402; el_no := 1; toff_first := 0; toff_last := 0 |}].

Definition boolean_oer : { L : OerTypeLaws BOOLEAN_t & @OerStreamLaws BOOLEAN_t _ L (primitive_stream BOOLEAN_t) } :=
  existT boolean_oer_laws (primitive_stream_laws BOOLEAN_t (L := boolean_oer_laws)).

Definition mode_laws : members_oer_laws (alternatives mode_specs) := (boolean_oer, (boolean_oer, (boolean_oer, tt))).

Definition mode_b : variant (alternatives mode_specs) := inr (inl {| bool_int := 255 |}).
Definition mode_c : variant (alternatives mode_specs) := inr (inr (inl {| bool_int := 255 |})).

Lemma mode_dom_b : choice_oer_dom mode_specs mode_tag2el mode_laws true mode_b.
Proof. split_and!; try done. eexists. split; [done|]. by right. Qed.

Lemma choice_oer_resumable_witness :
  let octets := choice_octets mode_specs mode_laws mode_b in
  octets = [191; 100; 255] /\
  (forall S (C : Consumer S) (A : AppendConsumer S) (key : S), exists key',
     CHOICE_encode_oer mode_specs (Some mode_b) key = Some (3, key') /\ written key' = written key ++ octets) /\
  (exists st, CHOICE_decode_oer mode_specs mode_tag2el None (octets ++ [7]) = Some (RC_OK, 3, st) /\
     choice_value mode_specs st = Some mode_b) /\
  (extension mode_specs mode_b = false ->
   forall chunks : list (list Z), concat chunks = octets ++ [7] ->
     exists st, oer_feed (H := CHOICE_stream mode_specs mode_tag2el) chunks None [] = Some (RC_OK, [7], Some st) /\
       choice_value mode_specs st = Some mode_b).
Proof.
  split; [reflexivity|]. exact (choice_oer_resumable mode_specs mode_tag2el mode_laws mode_b [7] mode_dom_b).
Defined.

(** ** What goes wrong *)

Definition c_struct (p : option BOOLEAN_t) : option (variant_struct (alternatives mode_specs)) := Some (inr (inr (inl p))).

(** A tag value of more than seven bits: 1000 is 7 * 128 + 104, and the octet
    with the low group, which comes last, has the top bit that says more
    octets follow, while the one in front of it has not: the octets are read
    back as the value 7, and one octet is left over. *)
Example long_tag_misread :
  oer_put_tag 4002 {| bb_bytes := [] |} = (3, {| bb_bytes := [191; 7; 232] |}) /\
  BER_TAG_VALUE 4002 = 1000 /\ oer_fetch_tag [191; 7; 232] = (2, Some 30).
Proof. split_and!; reflexivity. Qed.

(** The extension c = TRUE, whole and cut behind the length of the open type:
    the first call has passed the tag, but reports that it used up nothing,
    so that the second one takes the tag for the length of the open type. *)
Example extension_not_resumable :
  choice_octets mode_specs mode_laws mode_c = [130; 1; 255] /\
  oer_feed (H := CHOICE_stream mode_specs mode_tag2el) [[130; 1; 255]] None [] =
    Some (RC_OK, [], Some {| ch_phase := 2; ch_step := 0; ch_present := c_struct (Some {| bool_int := 255 |}) |}) /\
  CHOICE_decode_oer mode_specs mode_tag2el None [130; 1] =
    Some (RC_WMORE, 0, {| ch_phase := 1; ch_step := 2; ch_present := c_struct None |}) /\
  exists st, oer_feed (H := CHOICE_stream mode_specs mode_tag2el) [[130; 1]; [255]] None [] =
    Some (RC_WMORE, [130; 1; 255], Some st).
Proof. split_and!; [reflexivity..|by eexists]. Qed.
