(* ===== verification/OerSequence.v ===== *)
(** * SEQUENCE in OER (support/constr_SEQUENCE_oer.c)

    A preamble with the extension bit and the presence of the optional root
    members, the root members, and for extensions a bitmap with its length and
    the additions as open types.  The decoder is a state machine over its
    context: the phase, the step and the bits it is reading. *)
From S2P Require Import Prelude Outcome Consumer BitData PerSupport PerNatural PerCodec AsnInteger UperInteger OpenType.
From S2P Require Import Oer OerStream Members ConstrSequence.

(** ** Encoding *)

(** An asn_bit_outp_t cleared by memset: the first put finds no buffer. *)
Definition po_zero {S} (key : S) : asn_bit_outp S :=
  {| po_buffer := None; po_nboff := 0; po_nbits := 0; po_tmpspace := replicate 32 0; po_key := key; po_flushed := 0 |}.

(** memb_ptr is not null and does not hold the default value. *)
Definition encoded_member (m : asn_TYPE_member_t) (f : field m) : bool :=
  match memb_ptr m f with Some v => negb (is_default m v) | None => false end.

(** The search for an addition to encode. *)
Fixpoint has_additions (ms : list asn_TYPE_member_t) : fields ms -> bool :=
  match ms with
  | [] => fun _ => false
  | m :: ms => fun '(f, fs) => if encoded_member m f then true else has_additions ms fs
  end.

Section Encode.
Context {S : Type} `{C : Consumer S}.

(** The optional components bitmap. *)
Fixpoint put_optionals (ms : list asn_TYPE_member_t) (po : asn_bit_outp S) : fields ms -> option (Z * asn_bit_outp S) :=
  match ms with
  | [] => fun _ => Some (0, po)
  | m :: ms => fun '(f, fs) =>
    if negb (elm_optional m =? 0) then
      '(ret, po) ← per_put_few_bits po (Z.b2z (encoded_member m f)) 1;
      if ret <? 0 then Some (-1, po) else put_optionals ms po fs
    else put_optionals ms po fs
  end.

(** The preamble: -1 or its octets. *)
Definition put_preamble (specs : asn_SEQUENCE_specifics_t) (has_extensions : bool) (st : sequence_t specs) (key : S) :
    option (Z * S) :=
  if Z.b2z (seq_extensible specs) + roms_count specs =? 0 then Some (0, key) else
  '(ret, po) ← (if seq_extensible specs then per_put_few_bits (po_zero key) (Z.b2z has_extensions) 1
                else Some (0, po_zero key));
  if negb (ret =? 0) then None else
  '(ret, po) ← (if negb (roms_count specs =? 0) then put_optionals (roots specs) po (fst st) else Some (0, po));
  if ret <? 0 then Some (-1, po_key po) else
  '(_, po) ← asn_put_aligned_flush po;
  Some (po_flushed po, po_key po).

(** The loop over the root members. *)
Fixpoint put_root_members (ms : list asn_TYPE_member_t) (computed_size : Z) (key : S) : fields ms -> option (Z * S) :=
  match ms with
  | [] => fun _ => Some (computed_size, key)
  | m :: ms => fun '(f, fs) =>
    match memb_ptr m f with
    | Some v =>
      if is_default m v then put_root_members ms computed_size key fs else
      '(encoded, key) ← oer_encoder S C v key;
      if encoded =? -1 then Some (-1, key) else put_root_members ms (computed_size + encoded) key fs
    | None =>
      if negb (elm_optional m =? 0) then put_root_members ms computed_size key fs else Some (-1, key)
    end
  end.

(** ret |= asn_put_few_bits(...) for each addition. *)
Fixpoint put_addition_bits (ms : list asn_TYPE_member_t) (ret : Z) (po : asn_bit_outp S) :
    fields ms -> option (Z * asn_bit_outp S) :=
  match ms with
  | [] => fun _ => Some (ret, po)
  | m :: ms => fun '(f, fs) =>
    '(r, po) ← per_put_few_bits po (Z.b2z (encoded_member m f)) 1;
    put_addition_bits ms (Z.lor ret r) po fs
  end.

(** The length, the unused bits and the presence bitmap: -1 or their octets. *)
Definition put_extension_map (specs : asn_SEQUENCE_specifics_t) (st : sequence_t specs) (key : S) : option (Z * S) :=
  let aoms_length_bytes := (7 + aoms_count specs) ≫ 3 in
  let unused_bits := Z.land 7 (8 - Z.land (aoms_count specs) 7) in
  if negb (1 + aoms_length_bytes <=? 127) then None else
  '(ret, po) ← per_put_few_bits (po_zero key) (1 + aoms_length_bytes) 8;
  if ret <? 0 then Some (-1, po_key po) else
  '(ret, po) ← per_put_few_bits po unused_bits 8;
  if ret <? 0 then Some (-1, po_key po) else
  '(ret, po) ← put_addition_bits (additions specs) ret po (snd st);
  if ret <? 0 then Some (-1, po_key po) else
  '(_, po) ← asn_put_aligned_flush po;
  Some (po_flushed po, po_key po).

(** The additions as open types. *)
Fixpoint put_additions (ms : list asn_TYPE_member_t) (computed_size : Z) (key : S) : fields ms -> option (Z * S) :=
  match ms with
  | [] => fun _ => Some (computed_size, key)
  | m :: ms => fun '(f, fs) =>
    match memb_ptr m f with
    | Some v =>
      if is_default m v then put_additions ms computed_size key fs else
      '(wrote, key) ← oer_open_type_put v key;
      if wrote =? -1 then Some (-1, key) else put_additions ms (computed_size + wrote) key fs
    | None =>
      if negb (elm_optional m =? 0) then put_additions ms computed_size key fs else Some (-1, key)
    end
  end.

Definition SEQUENCE_encode_oer (specs : asn_SEQUENCE_specifics_t) (st : sequence_t specs) (key : S) : option (Z * S) :=
  let has_extensions := seq_extensible specs && has_additions (additions specs) (snd st) in
  '(computed_size, key) ← put_preamble specs has_extensions st key;
  if computed_size <? 0 then Some (-1, key) else
  '(computed_size, key) ← put_root_members (roots specs) computed_size key (fst st);
  if computed_size =? -1 then Some (-1, key) else
  if negb has_extensions then Some (computed_size, key) else
  '(n, key) ← put_extension_map specs st key;
  if n <? 0 then Some (-1, key) else
  put_additions (additions specs) (computed_size + n) key (snd st).
End Encode.

(** ** Decoding *)

(** A member of the structure under construction: null (or zeroed), what the
    member's decoder made, or a default value. *)
Definition slot (m : asn_TYPE_member_t) : Type := option (oer_struct (T := elm_type m) + elm_type m).

Definition slot_struct {m} (s : slot m) : option (oer_struct (T := elm_type m)) :=
  match s with Some (inl p) => Some p | _ => None end.

Definition slot_value {m} (s : slot m) : field m :=
  set_memb m match s with Some (inl p) => Some (oer_value p) | Some (inr v) => Some v | None => None end.

(** *memb_ptr2 as the member's decoder left it. *)
Definition decoded_slot {m : asn_TYPE_member_t} (p : option (oer_struct (T := elm_type m))) : slot m :=
  match p with Some p => Some (inl p) | None => None end.

(** default_value_set, where there is one. *)
Definition slot_default {m} (s : slot m) : slot m :=
  match default_value_set m with Some d => Some (inr d) | None => s end.

Fixpoint slots (ms : list asn_TYPE_member_t) : Type :=
  match ms with
  | [] => unit
  | m :: ms => slot m * slots ms
  end.

Fixpoint fresh_slots (ms : list asn_TYPE_member_t) : slots ms :=
  match ms with
  | [] => tt
  | m :: ms => (None, fresh_slots ms)
  end.

Fixpoint slots_value (ms : list asn_TYPE_member_t) : slots ms -> fields ms :=
  match ms with
  | [] => fun _ => tt
  | m :: ms => fun '(s, ss) => (slot_value s, slots_value ms ss)
  end.

(** The loops' variables: ctx->step, the bits behind ctx->ptr, and ADVANCE's
    consumed_myself and ptr. *)
Record cursor := { cu_step : Z; cu_bits : asn_per_data; cu_consumed : Z; cu_buf : list Z }.

Definition at_step (step : Z) (c : cursor) : cursor :=
  {| cu_step := step; cu_bits := cu_bits c; cu_consumed := cu_consumed c; cu_buf := cu_buf c |}.
Definition at_bits (bits : asn_per_data) (c : cursor) : cursor :=
  {| cu_step := cu_step c; cu_bits := bits; cu_consumed := cu_consumed c; cu_buf := cu_buf c |}.

(** ADVANCE(num_bytes) *)
Definition advance (num_bytes : Z) (c : cursor) : cursor :=
  {| cu_step := cu_step c; cu_bits := cu_bits c; cu_consumed := cu_consumed c + num_bytes;
     cu_buf := drop (Z.to_nat num_bytes) (cu_buf c) |}.

(** The member's own decoder (microphase 2): the code to return, or [None] to
    go on with the next member. *)
Definition microphase2 (m : asn_TYPE_member_t) (s : slot m) (c : cursor) :
    option (option asn_dec_rval_code * slot m * cursor) :=
  '(code, consumed, p) ← oer_step (slot_struct s) (cu_buf c);
  let s := decoded_slot p in
  Some (match code with
        | RC_OK => (None, s, at_step (Z.land (cu_step c) (Z.lnot 1) + 2) (advance consumed c))
        | RC_WMORE => (Some RC_WMORE, s, advance consumed c)
        | RC_FAIL => (Some RC_FAIL, s, c)
        end).

(** One root member. *)
Definition root_member (m : asn_TYPE_member_t) (s : slot m) (c : cursor) :
    option (option asn_dec_rval_code * slot m * cursor) :=
  '(present, c) ← (if (Z.land (cu_step c) 1 =? 0) && negb (elm_optional m =? 0)
                   then '(present, bits) ← per_get_few_bits (cu_bits c) 1; Some (present, at_bits bits c)
                   else Some (1, c));
  if present <? 0 then Some (Some RC_FAIL, s, c)
  else if present =? 0 then Some (None, slot_default s, at_step (Z.land (cu_step c) (Z.lnot 1) + 2) c)
  else microphase2 m s (at_step (Z.lor (cu_step c) 1) c).

(** Phase 1: the root members from index step >> 1 on; [edx] counts the
    members in front. *)
Fixpoint root_loop (ms : list asn_TYPE_member_t) (edx : Z) (c : cursor) :
    slots ms -> option (option asn_dec_rval_code * slots ms * cursor) :=
  match ms with
  | [] => fun _ => Some (None, tt, c)
  | m :: ms => fun '(s, ss) =>
    '(code, s, c) ← (if edx <? cu_step c ≫ 1 then Some (None, s, c) else root_member m s c);
    match code with
    | Some code => Some (Some code, (s, ss), c)
    | None => '(code, ss, c) ← root_loop ms (edx + 1) c ss; Some (code, (s, ss), c)
    end
  end.

(** One addition. *)
Definition addition_member (m : asn_TYPE_member_t) (s : slot m) (c : cursor) :
    option (option asn_dec_rval_code * slot m * cursor) :=
  '(present, bits) ← per_get_few_bits (cu_bits c) 1;
  let c := at_bits bits c in
  if (present =? -1) || (present =? 0) then Some (None, slot_default s, at_step (cu_step c + 1) c)
  else if present =? 1 then
    '(ot_size, p) ← open_type_get (oer_step (slot_struct s)) (cu_buf c);
    Some (if 0 <? ot_size then (None, decoded_slot p, at_step (cu_step c + 1) (advance ot_size c))
          else if ot_size <? 0 then (Some RC_FAIL, decoded_slot p, c)
          else (Some RC_WMORE, s, at_bits (asn_get_undo (cu_bits c) 1) c))
  else Some (Some RC_FAIL, s, c).

(** Phase 3: the additions from index [step] on. *)
Fixpoint addition_loop (ms : list asn_TYPE_member_t) (edx : Z) (c : cursor) :
    slots ms -> option (option asn_dec_rval_code * slots ms * cursor) :=
  match ms with
  | [] => fun _ => Some (None, tt, c)
  | m :: ms => fun '(s, ss) =>
    '(code, s, c) ← (if edx <? cu_step c then Some (None, s, c) else addition_member m s c);
    match code with
    | Some code => Some (Some code, (s, ss), c)
    | None => '(code, ss, c) ← addition_loop ms (edx + 1) c ss; Some (code, (s, ss), c)
    end
  end.

(** Phase 4: open types that are not known; one bit per round. *)
Fixpoint skip_additions (fuel : nat) (c : cursor) : option (asn_dec_rval_code * cursor) :=
  match fuel with
  | O => None
  | S fuel =>
    '(present, bits) ← per_get_few_bits (cu_bits c) 1;
    let c := at_bits bits c in
    if present =? 0 then skip_additions fuel c
    else if present =? 1 then
      let skipped := oer_open_type_skip (cu_buf c) in
      if 0 <? skipped then skip_additions fuel (advance skipped c)
      else if skipped <? 0 then Some (RC_FAIL, c)
      else Some (RC_WMORE, at_bits (asn_get_undo (cu_bits c) 1) c)
    else Some (if present =? -1 then RC_OK else RC_FAIL, c)
  end.

(** The structure and its context (asn_struct_ctx_t); [sq_ptr] is ctx->ptr and
    [sq_null] says that its buffer pointer has been cleared. *)
Record sequence_struct (specs : asn_SEQUENCE_specifics_t) := {
  sq_phase : Z;
  sq_step : Z;
  sq_ptr : option asn_per_data;
  sq_null : bool;
  sq_roots : slots (roots specs);
  sq_additions : slots (additions specs)
}.
Arguments Build_sequence_struct {specs}.
Arguments sq_phase {specs}.
Arguments sq_step {specs}.
Arguments sq_ptr {specs}.
Arguments sq_null {specs}.
Arguments sq_roots {specs}.
Arguments sq_additions {specs}.

Definition fresh_sequence (specs : asn_SEQUENCE_specifics_t) : sequence_struct specs :=
  {| sq_phase := 0; sq_step := 0; sq_ptr := None; sq_null := false;
     sq_roots := fresh_slots _; sq_additions := fresh_slots _ |}.

Section Decode.
Context (specs : asn_SEQUENCE_specifics_t).
Implicit Types st : sequence_struct specs.

Definition first_extension : Z := if seq_extensible specs then Z.of_nat (length (roots specs)) else -1.

(** The structure after a call that got as far as the cursor [c]. *)
Definition stopped (phase : Z) (null : bool) (c : cursor) (rs : slots (roots specs)) (es : slots (additions specs)) :
    sequence_struct specs :=
  {| sq_phase := phase; sq_step := cu_step c; sq_ptr := Some (cu_bits c); sq_null := null;
     sq_roots := rs; sq_additions := es |}.

Definition sequence_phase4 (c : cursor) (null : bool) (rs : slots (roots specs)) (es : slots (additions specs)) :
    option (asn_dec_rval_code * Z * sequence_struct specs) :=
  '(code, c) ← skip_additions (S (Z.to_nat (pd_nbits (cu_bits c) - pd_nboff (cu_bits c)))) c;
  Some (code, cu_consumed c, stopped 4 null c rs es).

Definition sequence_phase3 (c : cursor) (null : bool) (rs : slots (roots specs)) (es : slots (additions specs)) :
    option (asn_dec_rval_code * Z * sequence_struct specs) :=
  '(code, es, c) ← addition_loop (additions specs) (Z.of_nat (length (roots specs))) c es;
  match code with
  | Some code => Some (code, cu_consumed c, stopped 3 null c rs es)
  | None => sequence_phase4 (at_step 0 c) null rs es
  end.

(** Phase 2, from the length on: the bitmap of the additions. *)
Definition sequence_bitmap (c : cursor) (rs : slots (roots specs)) (es : slots (additions specs)) :
    option (asn_dec_rval_code * Z * sequence_struct specs) :=
  let '(len_len, len) := oer_fetch_length (cu_buf c) in
  if len_len <=? 0
  then Some (if len_len <? 0 then RC_FAIL else RC_WMORE, cu_consumed c, stopped 2 true c rs es)
  else
    let c := advance len_len c in
    if len =? 0 then Some (RC_FAIL, cu_consumed c, stopped 2 true c rs es)
    else if Z.of_nat (length (cu_buf c)) <? len then Some (RC_WMORE, cu_consumed c, stopped 2 true c rs es)
    else
      unused_bits ← cu_buf c !! 0%nat;
      let unused_bits := Z.land 7 unused_bits in
      let c := advance 1 c in
      let len := len - 1 in
      if negb (unused_bits =? 0) && (len =? 0) then Some (RC_FAIL, cu_consumed c, stopped 2 true c rs es)
      else
        extadds ← asn_bit_data_new_contiguous (cu_buf c) (len * 8 - unused_bits);
        let c := at_step first_extension (at_bits extadds (advance len c)) in
        sequence_phase3 c false rs es.

(** Phase 2: extensions are present when the cleared buffer pointer says so or
    the first bit of the octet it points to. *)
Definition sequence_phase2 (c : cursor) (null : bool) (rs : slots (roots specs)) (es : slots (additions specs)) :
    option (asn_dec_rval_code * Z * sequence_struct specs) :=
  extensions_present ← (if negb (seq_extensible specs) then Some false
                        else if null then Some true
                        else b ← pd_buffer (cu_bits c) !! 0%nat; Some (negb (Z.land b 128 =? 0)));
  if negb extensions_present then Some (RC_OK, cu_consumed c, stopped 10 true c rs es)
  else sequence_bitmap c rs es.

Definition sequence_phase1 (c : cursor) (null : bool) (rs : slots (roots specs)) (es : slots (additions specs)) :
    option (asn_dec_rval_code * Z * sequence_struct specs) :=
  '(code, rs, c) ← root_loop (roots specs) 0 c rs;
  match code with
  | Some code => Some (code, cu_consumed c, stopped 1 null c rs es)
  | None => sequence_phase2 (at_step 0 c) null rs es
  end.

Definition SEQUENCE_decode_oer (struct_ptr : option (sequence_struct specs)) (buf : list Z) :
    option (asn_dec_rval_code * Z * sequence_struct specs) :=
  let st := default (fresh_sequence specs) struct_ptr in
  let resume (phase : cursor -> bool -> slots (roots specs) -> slots (additions specs) -> _) :=
    ptr ← sq_ptr st;
    phase {| cu_step := sq_step st; cu_bits := ptr; cu_consumed := 0; cu_buf := buf |}
      (sq_null st) (sq_roots st) (sq_additions st) in
  if sq_phase st =? 0 then
    let has_extensions_bit := Z.b2z (seq_extensible specs) in
    let preamble_bits := has_extensions_bit + roms_count specs in
    let preamble_bytes := (7 + preamble_bits) ≫ 3 in
    if Z.of_nat (length buf) <? preamble_bytes then Some (RC_WMORE, 0, st) else
    preamble ← asn_bit_data_new_contiguous buf preamble_bits;
    let preamble := {| pd_buffer := pd_buffer preamble; pd_nboff := has_extensions_bit; pd_nbits := pd_nbits preamble;
                       pd_moved := pd_moved preamble; pd_refill := pd_refill preamble |} in
    sequence_phase1 (advance preamble_bytes {| cu_step := 0; cu_bits := preamble; cu_consumed := 0; cu_buf := buf |})
      false (sq_roots st) (sq_additions st)
  else if sq_phase st =? 1 then resume sequence_phase1
  else if sq_phase st =? 2 then resume sequence_phase2
  else if sq_phase st =? 3 then resume sequence_phase3
  else if sq_phase st =? 4 then resume sequence_phase4
  else Some (RC_OK, 0, st).

(** The structure as a value. *)
Definition sequence_value st : sequence_t specs := (slots_value _ (sq_roots st), slots_value _ (sq_additions st)).

#[local] Instance SEQUENCE_stream : OerStream (sequence_t specs) := {
  oer_struct := sequence_struct specs;
  oer_value := sequence_value;
  oer_step struct_ptr buf := '(code, n, st) ← SEQUENCE_decode_oer struct_ptr buf; Some (code, n, Some st)
}.

#[local] Instance SEQUENCE_oer : OerType (sequence_t specs) := {
  oer_encoder S C t key := SEQUENCE_encode_oer specs t key;
  oer_decoder buf := '(code, n, st) ← SEQUENCE_decode_oer None buf; Some (code, n, Some (sequence_value st))
}.
End Decode.

(** ** Lemmas: bits in front of octets

    A bit writer that starts in the middle of the output: the chunks it hands
    over, replayed behind what is written already. *)
Lemma replay_written {S} `{AppendConsumer S} (key : S) l : written (replay key l) = written key ++ written l.
Proof. apply hand_over_written. Qed.

Lemma flush_map {S1 S2} `{C1 : Consumer S1} `{C2 : Consumer S2} (f : S1 -> S2) po : consumer_morphism f ->
  asn_put_aligned_flush (po_map f po) = res_map f (asn_put_aligned_flush po).
Proof.
  intros Hf. unfold asn_put_aligned_flush. cbn [po_map po_nboff po_buffer po_tmpspace po_key po_flushed po_nbits].
  destruct (if negb _ then _ else _) as [tmp|]; [|done]. cbn [mbind option_bind]. rewrite Hf.
  destruct (consume _ (po_key po)) as [rc k]. cbn [fst snd]. by destruct (rc <? 0).
Qed.

(** After the first bits the cleared writer is where the set up one is. *)
Lemma put_from_zero {S} `{AppendConsumer S} (key : S) v n : 0 < n < 32 ->
  exists key1, written key1 = written key /\
    per_put_few_bits (po_zero key) v n = per_put_few_bits (po_of_key key1) v n.
Proof.
  intros Hn. destruct (consume_append [] key) as (key1 & Hc & Hw). exists key1. rewrite app_nil_r in Hw. split; [done|].
  unfold per_put_few_bits. cbn [asn_put_few_bits]. replace ((n <=? 0) || (32 <=? n)) with false by lia.
  change (po_normalize (po_zero key)) with (po_zero key). change (po_normalize (po_of_key key1)) with (po_of_key key1).
  unfold po_make_room. cbn [po_zero po_of_key po_nbits po_nboff po_buffer po_tmpspace po_key po_flushed default from_option id].
  rewrite Z.add_0_l. destruct (Z.ltb_spec 0 n); [|lia]. destruct (Z.ltb_spec (8 * 32) n); [lia|].
  change (take (Z.to_nat 0) (replicate 32 0)) with (@nil Z). rewrite Hc. done.
Qed.

(** The bits [bs] written by a program from a cleared writer, and flushed. *)
Lemma emit_bits {S} `{HC : Consumer S} `{HA : !AppendConsumer S} (key : S) bs
    (prog : forall S, Consumer S -> asn_bit_outp S -> option (Z * asn_bit_outp S)) :
  (forall S1 S2 (C1 : Consumer S1) (C2 : Consumer S2) (f : S1 -> S2), consumer_morphism f ->
     forall po, prog S2 C2 (po_map f po) = res_map f (prog S1 C1 po)) ->
  (forall key1 : chunk_log, exists key2, written key2 = written key1 /\
     prog chunk_log _ (po_zero key1) = prog chunk_log _ (po_of_key key2)) ->
  (forall po : asn_bit_outp chunk_log, po_wf po -> put_res po bs (prog chunk_log _ po) 0) ->
  exists po po', prog S _ (po_zero key) = Some (0, po) /\ asn_put_aligned_flush po = Some (0, po') /\
    po_flushed po' = Z.of_nat (length (padded_octets bs)) /\ written (po_key po') = written key ++ padded_octets bs.
Proof.
  intros Hn Hz Hput. pose proof (replay_morphism key append_patient) as Hf.
  change (po_zero key) with (po_map (replay key) (po_zero {| chunks := [] |})). rewrite (Hn _ _ _ _ _ Hf).
  destruct (Hz {| chunks := [] |}) as (key2 & Hk & ->).
  destruct (Hput (po_of_key key2)) as (po & -> & Hw & Hb); [by apply po_of_key_wf|].
  rewrite po_of_key_bits, Hk in Hb. change (bytes_bits (written {| chunks := [] |}) ++ bs) with bs in Hb.
  destruct (flush_ok po Hw) as (po' & Hfl & (b & Hw') & _ & Hbits). rewrite Hb in Hbits.
  exists (po_map (replay key) po), (po_map (replay key) po'). split; [done|]. rewrite flush_map, Hfl by done. split; [done|].
  cbn [po_map po_flushed po_key]. rewrite replay_written. destruct Hw' as (_ & _ & _ & _ & _ & _ & Hok & Hlen).
  destruct (padded_octets_ok bs) as [Hpok Hpb].
  assert (written (po_key po') = padded_octets bs) as Heq by (apply bytes_bits_inj; [done|done|by rewrite Hpb]).
  rewrite Heq in *. split; [done|done].
Qed.

(** ** Specification *)

Section Fields.
Context (P : forall m, OerTypeLaws (elm_type m) -> field m -> Prop).
Context (octets : forall m, OerTypeLaws (elm_type m) -> field m -> list Z).

Fixpoint all_members (ms : list asn_TYPE_member_t) : members_oer_laws ms -> fields ms -> Prop :=
  match ms with
  | [] => fun _ _ => True
  | m :: ms => fun '(existT L _, Ls) '(f, fs) => P m L f /\ all_members ms Ls fs
  end.

Fixpoint members_octets (ms : list asn_TYPE_member_t) : members_oer_laws ms -> fields ms -> list Z :=
  match ms with
  | [] => fun _ _ => []
  | m :: ms => fun '(existT L _, Ls) '(f, fs) => octets m L f ++ members_octets ms Ls fs
  end.
End Fields.

(** A root member can be left out when it is optional, and then decoding gives
    back what was there: nothing, or the default value. *)
Definition oer_root_dom (m : asn_TYPE_member_t) (L : OerTypeLaws (elm_type m)) (f : field m) : Prop :=
  match memb_ptr m f with
  | None => elm_optional m <> 0 /\ default_value_set m = None
  | Some v => if is_default m v then elm_optional m <> 0 /\ default_value_set m = Some v else oer_dom v
  end.

Definition oer_root_octets (m : asn_TYPE_member_t) (L : OerTypeLaws (elm_type m)) (f : field m) : list Z :=
  match memb_ptr m f with Some v => if is_default m v then [] else oer_octets v | None => [] end.

(** An addition likewise. *)
Definition oer_addition_dom (m : asn_TYPE_member_t) (L : OerTypeLaws (elm_type m)) (f : field m) : Prop :=
  match memb_ptr m f with
  | None => elm_optional m <> 0 /\ default_value_set m = None
  | Some v => if is_default m v then default_value_set m = Some v
              else oer_dom v /\ Z.of_nat (length (oer_octets v)) <= RSIZE_MAX
  end.

Definition oer_addition_octets (m : asn_TYPE_member_t) (L : OerTypeLaws (elm_type m)) (f : field m) : list Z :=
  match memb_ptr m f with
  | Some v => if is_default m v then [] else oer_length_octets (Z.of_nat (length (oer_octets v))) ++ oer_octets v
  | None => []
  end.

Section Spec.
Context (specs : asn_SEQUENCE_specifics_t).
Context (Rs : members_oer_laws (roots specs)) (As : members_oer_laws (additions specs)).

Definition extended (st : sequence_t specs) : bool := seq_extensible specs && has_additions _ (snd st).

Definition preamble_bits (st : sequence_t specs) : list bool :=
  (if seq_extensible specs then [extended st] else []) ++ optional_marks _ (fst st).

(** The length of the bitmap, its unused bits and the bitmap. *)
Definition map_bits (st : sequence_t specs) : list bool :=
  val_bits 8 (1 + (7 + aoms_count specs) / 8) ++ val_bits 8 (- aoms_count specs mod 8) ++ marks _ (snd st).

Definition root_part (st : sequence_t specs) : list Z := members_octets oer_root_octets _ Rs (fst st).

Definition extension_part (st : sequence_t specs) : list Z :=
  if extended st then padded_octets (map_bits st) ++ members_octets oer_addition_octets _ As (snd st) else [].

Definition sequence_octets (st : sequence_t specs) : list Z :=
  padded_octets (preamble_bits st) ++ root_part st ++ extension_part st.

(** The preamble has one octet when there is an extension bit in it, and the
    length of the additions' bitmap is a short one. *)
Definition sequence_oer_dom (st : sequence_t specs) : Prop :=
  all_members oer_root_dom _ Rs (fst st) /\ roms_count specs = Z.of_nat (length (optional_marks _ (fst st))) /\
  (seq_extensible specs = true -> roms_count specs <= 7) /\
  if extended st
  then all_members oer_addition_dom _ As (snd st) /\ aoms_count specs = Z.of_nat (length (additions specs)) /\
       aoms_count specs <= 1008
  else snd st = fresh _.
End Spec.

(** ** Lemmas: encoding *)

Lemma put_optionals_ok {S} `{HC : Consumer S} `{HA : !AppendConsumer S} ms fs (po : asn_bit_outp S) : po_wf po ->
  put_res po (optional_marks ms fs) (put_optionals ms po fs) 0.
Proof.
  revert po. induction ms as [|m ms IH]; intros po Hw; [by apply put_res_ret|]. destruct fs as [f fs].
  cbn [put_optionals optional_marks]. unfold optional_mark. destruct (negb _); [|by apply IH].
  eapply put_res_bind.
  - pose proof (per_put_few_ok po (Z.b2z (encoded_member m f)) 1 Hw ltac:(lia)) as Hput. unfold encoded_member in *.
    by destruct (memb_ptr m f) as [v|]; [destruct (is_default m v)|].
  - intros po1 Hw1. zcase. by apply IH.
Qed.

Lemma put_addition_bits_ok {S} `{HC : Consumer S} `{HA : !AppendConsumer S} ms fs (po : asn_bit_outp S) : po_wf po ->
  put_res po (marks ms fs) (put_addition_bits ms 0 po fs) 0.
Proof.
  revert po. induction ms as [|m ms IH]; intros po Hw; [by apply put_res_ret|]. destruct fs as [f fs].
  cbn [put_addition_bits marks]. change (?b :: marks ms fs) with ([b] ++ marks ms fs). eapply put_res_bind.
  - pose proof (per_put_few_ok po (Z.b2z (encoded_member m f)) 1 Hw ltac:(lia)) as Hput. unfold encoded_member in *.
    by destruct (memb_ptr m f) as [v|]; [destruct (is_default m v)|].
  - intros po1 Hw1. by apply IH.
Qed.

Lemma put_optionals_map {S1 S2} `{C1 : Consumer S1} `{C2 : Consumer S2} (f : S1 -> S2) ms fs po : consumer_morphism f ->
  put_optionals ms (po_map f po) fs = res_map f (put_optionals ms po fs).
Proof.
  intros Hf. revert po. induction ms as [|m ms IH]; intros po; [done|]. destruct fs as [x fs]. cbn [put_optionals].
  destruct (negb _); [|apply IH]. pose proof (per_put_few_map f Hf). natural.
Qed.

Lemma put_addition_bits_map {S1 S2} `{C1 : Consumer S1} `{C2 : Consumer S2} (f : S1 -> S2) ms fs ret po :
  consumer_morphism f -> put_addition_bits ms ret (po_map f po) fs = res_map f (put_addition_bits ms ret po fs).
Proof.
  intros Hf. revert ret po. induction ms as [|m ms IH]; intros ret po; [done|]. destruct fs as [x fs].
  cbn [put_addition_bits]. pose proof (per_put_few_map f Hf). natural.
Qed.

(** The writer of the optional bits alone. *)
Lemma put_optionals_zero {S} `{AppendConsumer S} ms fs (key : S) : optional_marks ms fs <> [] ->
  exists key1, written key1 = written key /\ put_optionals ms (po_zero key) fs = put_optionals ms (po_of_key key1) fs.
Proof.
  induction ms as [|m ms IH]; [done|]. destruct fs as [f fs]. cbn [put_optionals optional_marks]. unfold optional_mark.
  destruct (negb _); [|by apply IH]. intros _.
  destruct (put_from_zero key (Z.b2z (encoded_member m f)) 1 ltac:(lia)) as (key1 & Hk & ->). by exists key1.
Qed.

Section EncodeSpec.
Context (specs : asn_SEQUENCE_specifics_t).
Context (Rs : members_oer_laws (roots specs)) (As : members_oer_laws (additions specs)).
Implicit Types st : sequence_t specs.

(** What put_preamble writes in front of the flush. *)
Definition preamble_program st (S : Type) (C : Consumer S) (po : asn_bit_outp S) : option (Z * asn_bit_outp S) :=
  '(ret, po) ← (if seq_extensible specs then per_put_few_bits po (Z.b2z (extended specs st)) 1 else Some (0, po));
  if negb (ret =? 0) then None else
  if negb (roms_count specs =? 0) then put_optionals (roots specs) po (fst st) else Some (0, po).

Lemma preamble_ok {S} `{HC : Consumer S} `{HA : !AppendConsumer S} st (key : S) :
  roms_count specs = Z.of_nat (length (optional_marks _ (fst st))) ->
  exists key', put_preamble specs (extended specs st) st key =
      Some (Z.of_nat (length (padded_octets (preamble_bits specs st))), key') /\
    written key' = written key ++ padded_octets (preamble_bits specs st).
Proof.
  intros Hroms. unfold put_preamble.
  assert (Hempty : optional_marks _ (fst st) = [] <-> roms_count specs = 0).
  { rewrite Hroms. split; [by intros ->|]. destruct (optional_marks _ _); [done|cbn [length]; lia]. }
  destruct (Z.eqb_spec (Z.b2z (seq_extensible specs) + roms_count specs) 0) as [E|E].
  { exists key. unfold preamble_bits. destruct (seq_extensible specs); cbn [Z.b2z] in E; [lia|].
    rewrite (proj2 Hempty) by lia. cbn. by rewrite app_nil_r. }
  destruct (emit_bits key (preamble_bits specs st) (preamble_program st)) as (po & po' & Hp & Hf & Hn & Hw).
  - intros S1 S2 C1 C2 f Hf po. unfold preamble_program. apply res_map_bind.
    { pose proof (per_put_few_map f Hf). destruct (seq_extensible specs); natural. }
    intros ret po1. cbn beta iota. destruct (negb (ret =? 0)); [done|].
    destruct (negb (roms_count specs =? 0)); [by apply put_optionals_map|done].
  - intros key1. unfold preamble_program. destruct (seq_extensible specs).
    + destruct (put_from_zero key1 (Z.b2z (extended specs st)) 1 ltac:(lia)) as (key2 & Hk & ->). by exists key2.
    + cbn [mbind option_bind negb Z.eqb Z.b2z] in *. destruct (Z.eqb_spec (roms_count specs) 0) as [Hz|Hz]; [lia|].
      apply put_optionals_zero. by rewrite Hempty.
  - intros po Hpo. unfold preamble_program, preamble_bits. eapply put_res_bind.
    { destruct (seq_extensible specs); [|by apply put_res_ret].
      pose proof (per_put_few_ok po (Z.b2z (extended specs st)) 1 Hpo ltac:(lia)) as Hput. by destruct (extended specs st). }
    intros po1 Hpo1. cbn beta iota. cbn [negb Z.eqb]. destruct (Z.eqb_spec (roms_count specs) 0) as [Hz|Hz].
    + rewrite (proj2 Hempty Hz). by apply put_res_ret.
    + by apply put_optionals_ok.
  - unfold preamble_program in Hp. destruct (if seq_extensible specs then _ else _) as [[ret po1]|]; [|done].
    cbn [mbind option_bind] in *. destruct (negb (ret =? 0)); [done|]. rewrite Hp. cbn [mbind option_bind].
    zcase. rewrite Hf. cbn [mbind option_bind]. exists (po_key po'). by rewrite Hn.
Qed.

Definition map_program st (S : Type) (C : Consumer S) (po : asn_bit_outp S) : option (Z * asn_bit_outp S) :=
  '(ret, po) ← per_put_few_bits po (1 + (7 + aoms_count specs) ≫ 3) 8;
  if negb (ret =? 0) then None else
  '(ret, po) ← per_put_few_bits po (Z.land 7 (8 - Z.land (aoms_count specs) 7)) 8;
  if negb (ret =? 0) then None else put_addition_bits (additions specs) 0 po (snd st).

Lemma map_ok {S} `{HC : Consumer S} `{HA : !AppendConsumer S} st (key : S) : 0 <= aoms_count specs <= 1008 ->
  exists key', put_extension_map specs st key = Some (Z.of_nat (length (padded_octets (map_bits specs st))), key') /\
    written key' = written key ++ padded_octets (map_bits specs st).
Proof.
  intros Ha. destruct (emit_bits key (map_bits specs st) (map_program st)) as (po & po' & Hp & Hf & Hn & Hw).
  - intros S1 S2 C1 C2 f Hf po. unfold map_program. pose proof (per_put_few_map f Hf).
    pose proof (fun fs ret po => put_addition_bits_map f (additions specs) fs ret po Hf).
    apply res_map_bind; [natural|]. intros ret po1. cbn beta iota. destruct (negb (ret =? 0)); [done|].
    apply res_map_bind; [natural|]. intros ret2 po2. cbn beta iota. destruct (negb (ret2 =? 0)); [done|]. natural.
  - intros key1. unfold map_program.
    destruct (put_from_zero key1 (1 + (7 + aoms_count specs) ≫ 3) 8 ltac:(lia)) as (key2 & Hk & ->). by exists key2.
  - intros po Hpo. unfold map_program, map_bits. rewrite shiftr_div by lia. change (2 ^ 3) with 8. eapply put_res_bind.
    { by apply per_put_few_ok. }
    intros po1 Hpo1. cbn beta iota. cbn [negb Z.eqb]. eapply put_res_bind.
    { rewrite unused_bits_mod. by apply per_put_few_ok. }
    intros po2 Hpo2. cbn beta iota. cbn [negb Z.eqb]. by apply put_addition_bits_ok.
  - unfold put_extension_map. unfold map_program in Hp.
    assert (1 + (7 + aoms_count specs) ≫ 3 <= 127)
      by (rewrite shiftr_div by lia; change (2 ^ 3) with 8; Z.div_mod_to_equations; lia).
    zcase. cbn [negb]. destruct (per_put_few_bits _ _ 8) as [[ret po1]|]; [|done]. cbn [mbind option_bind] in *.
    destruct (Z.eqb_spec ret 0) as [->|]; [|done]. cbn [negb Z.ltb Z.compare] in *.
    destruct (per_put_few_bits po1 _ 8) as [[ret po2]|]; [|done]. cbn [mbind option_bind] in *.
    destruct (Z.eqb_spec ret 0) as [->|]; [|done]. cbn [negb Z.ltb Z.compare] in *. rewrite Hp. cbn [mbind option_bind].
    zcase. rewrite Hf. cbn [mbind option_bind]. exists (po_key po'). by rewrite Hn.
Qed.
End EncodeSpec.

Lemma put_root_members_ok {S} `{HC : Consumer S} `{HA : !AppendConsumer S} ms (Ls : members_oer_laws ms) fs n (key : S) :
  all_members oer_root_dom ms Ls fs -> 0 <= n ->
  let octets := members_octets oer_root_octets ms Ls fs in
  exists key', put_root_members ms n key fs = Some (n + Z.of_nat (length octets), key') /\
    written key' = written key ++ octets.
Proof.
  cbn zeta. revert n key. induction ms as [|m ms IH]; intros n key Hd Hn.
  { exists key. cbn. by rewrite Z.add_0_r, app_nil_r. }
  destruct Ls as [[L SL] Ls], fs as [f fs], Hd as [Hm Hd]. cbn [put_root_members members_octets].
  unfold oer_root_dom, oer_root_octets in *. destruct (memb_ptr m f) as [v|].
  - destruct (is_default m v); [by apply IH|].
    destruct (oer_enc_law _ _ _ v key Hm) as (k1 & -> & Hw1). cbn [mbind option_bind]. zcase.
    destruct (IH Ls fs (n + Z.of_nat (length (oer_octets v))) k1 Hd ltac:(lia)) as (k2 & -> & Hw2). exists k2.
    rewrite Hw2, Hw1, length_app, <- app_assoc. split; [do 2 f_equal; lia|done].
  - destruct Hm as [Ho _]. destruct (Z.eqb_spec (elm_optional m) 0); [done|]. by apply IH.
Qed.

Lemma put_additions_ok {S} `{HC : Consumer S} `{HA : !AppendConsumer S} ms (Ls : members_oer_laws ms) fs n (key : S) :
  all_members oer_addition_dom ms Ls fs -> 0 <= n ->
  let octets := members_octets oer_addition_octets ms Ls fs in
  exists key', put_additions ms n key fs = Some (n + Z.of_nat (length octets), key') /\
    written key' = written key ++ octets.
Proof.
  cbn zeta. revert n key. induction ms as [|m ms IH]; intros n key Hd Hn.
  { exists key. cbn. by rewrite Z.add_0_r, app_nil_r. }
  destruct Ls as [[L SL] Ls], fs as [f fs], Hd as [Hm Hd]. cbn [put_additions members_octets].
  unfold oer_addition_dom, oer_addition_octets in *. destruct (memb_ptr m f) as [v|].
  - destruct (is_default m v); [by apply IH|]. destruct Hm as [Hm Hmax].
    destruct (oer_put_ok v key Hm Hmax) as (k1 & -> & Hw1). cbn [mbind option_bind]. zcase.
    set (o := oer_length_octets _ ++ oer_octets v) in *.
    destruct (IH Ls fs (n + Z.of_nat (length o)) k1 Hd ltac:(lia)) as (k2 & -> & Hw2). exists k2.
    rewrite Hw2, Hw1, length_app, <- app_assoc. split; [do 2 f_equal; lia|done].
  - destruct Hm as [Ho _]. destruct (Z.eqb_spec (elm_optional m) 0); [done|]. by apply IH.
Qed.

Lemma sequence_encode_oer_ok {S} `{HC : Consumer S} `{HA : !AppendConsumer S} specs
    (Rs : members_oer_laws (roots specs)) (As : members_oer_laws (additions specs)) st (key : S) :
  sequence_oer_dom specs Rs As st ->
  exists key', SEQUENCE_encode_oer specs st key = Some (Z.of_nat (length (sequence_octets specs Rs As st)), key') /\
    written key' = written key ++ sequence_octets specs Rs As st.
Proof.
  intros (Hroots & Hroms & _ & Hext). unfold SEQUENCE_encode_oer, sequence_octets, extension_part. fold (extended specs st).
  destruct (preamble_ok specs st key Hroms) as (k1 & -> & Hw1). cbn [mbind option_bind]. zcase.
  destruct (put_root_members_ok _ Rs (fst st) (Z.of_nat (length (padded_octets (preamble_bits specs st)))) k1 Hroots)
    as (k2 & -> & Hw2); [lia|]. cbn [mbind option_bind]. fold (root_part specs Rs st) in *. zcase.
  destruct (extended specs st) eqn:He; cbn [negb].
  - destruct Hext as (Hadds & Ha & Hmax). destruct (map_ok specs st k2 ltac:(lia)) as (k3 & -> & Hw3).
    cbn [mbind option_bind]. zcase.
    match goal with |- context [put_additions _ ?n k3] =>
      destruct (put_additions_ok _ As (snd st) n k3 Hadds ltac:(lia)) as (k4 & -> & Hw4) end.
    exists k4. rewrite Hw4, Hw3, Hw2, Hw1, !length_app, <- !app_assoc. split; [do 2 f_equal; lia|done].
  - exists k2. rewrite Hw2, Hw1, !app_nil_r, length_app, <- app_assoc. split; [do 2 f_equal; lia|done].
Qed.

(** ** Lemmas: the preamble *)

Lemma contiguous_ok bs rest : exists pd : asn_per_data,
  asn_bit_data_new_contiguous (padded_octets bs ++ rest) (Z.of_nat (length bs)) = Some pd /\
  pd_at pd bs /\ pd_nboff pd = 0 /\ pd_buffer pd = padded_octets bs ++ [0].
Proof.
  destruct (padded_octets_ok bs) as [Hok Hb]. pose proof (octets_of_pad8 _ _ Hb) as Hn. unfold octets_of in Hn.
  unfold asn_bit_data_new_contiguous. rewrite <- Hn, length_app, Nat2Z.id, take_app_length. zcase.
  eexists. split; [reflexivity|]. split; [|done]. split_and!; [split_and!; cbn; try done; try lia|done|].
  - rewrite length_app. cbn [length]. Z.div_mod_to_equations; lia.
  - apply bytes_ok_app; [done|]. apply bytes_ok_cons; [unfold byte_ok; lia|apply bytes_ok_nil].
  - unfold pd_bits, pd_left. cbn [pd_nbits pd_nboff pd_buffer]. rewrite Z.sub_0_r, Nat2Z.id, bytes_bits_app, Hb.
    unfold pad8. rewrite <- app_assoc. change (Z.to_nat 0) with 0%nat. rewrite drop_0. apply take_app_length.
Qed.

(** The first bit of padded octets. *)
Lemma first_bit b bs : exists o, padded_octets (b :: bs) !! 0%nat = Some o /\ negb (Z.land o 128 =? 0) = b.
Proof.
  destruct (padded_octets_ok (b :: bs)) as [Hok Hb]. destruct (padded_octets (b :: bs)) as [|o r]; [done|].
  exists o. split; [done|].
  apply (f_equal (hd false)) in Hb. change (Z.testbit o 7 = b) in Hb. rewrite <- Hb. clear Hb.
  change 128 with (2 ^ 7). rewrite Z.land_comm.
  destruct (Z.eqb_spec (Z.land (2 ^ 7) o) 0) as [E|E]; cbn [negb].
  - assert (E7 : Z.testbit (Z.land (2 ^ 7) o) 7 = false) by (by rewrite E). by rewrite Z.land_spec, Z.pow2_bits_true in E7.
  - destruct (Z.testbit o 7) eqn:Et; [done|]. exfalso. apply E. apply Z.bits_inj'. intros n Hn.
    rewrite Z.land_spec, Z.bits_0, Z.pow2_bits_eqb by lia. destruct (Z.eqb_spec 7 n) as [<-|]; [by rewrite Et|done].
Qed.

(** Bits that are still to be read; when there is an extension bit, it is the
    first bit of the octet [o] at the buffer pointer, and stays there. *)
Definition bits_held (ext : bool) (o : Z) (bits : asn_per_data) (bs : list bool) : Prop :=
  pd_at bits bs /\
  (ext = true -> pd_buffer bits !! 0%nat = Some o /\ pd_nboff bits + Z.of_nat (length bs) <= 8).

Lemma get_bit_in_place (pd : asn_per_data) (b : bool) bs : pd_at pd (b :: bs) -> pd_nboff pd <= 7 ->
  per_get_few_bits pd 1 = Some (Z.b2z b, pd_advance pd 1).
Proof.
  intros Hat Hn. destruct (get_bit pd b bs Hat) as (pd' & Hg & _). rewrite Hg. do 2 f_equal.
  unfold per_get_few_bits in Hg. cbn [asn_get_few_bits] in Hg. rewrite pd_normalize_id in Hg by done.
  pose proof (pd_at_left _ _ Hat) as Hl. unfold pd_left in Hl. cbn [length] in Hl. destruct Hat as ((Ho & _) & _).
  change (1 <? 0) with false in Hg. cbn iota in Hg.
  destruct (Z.ltb_spec (pd_nbits pd - pd_nboff pd) 1); [lia|]. cbn [pd_advance pd_nboff] in Hg.
  destruct (Z.leb_spec (pd_nboff pd + 1) 8); [|lia]. change (1 =? 0) with false in Hg. cbn iota in Hg.
  destruct (read _ 0); [|done]. cbn [mbind option_bind] in Hg. congruence.
Qed.

Lemma bits_held_read ext o bits b bs : bits_held ext o bits (b :: bs) ->
  exists bits', per_get_few_bits bits 1 = Some (Z.b2z b, bits') /\ bits_held ext o bits' bs.
Proof.
  intros [Hat Hkeep]. destruct (get_bit bits b bs Hat) as (bits' & Hg & Hat' & _). exists bits'. split; [done|]. split; [done|].
  intros Hext. destruct (Hkeep Hext) as [Hb Hn]. cbn [length] in Hn. rewrite (get_bit_in_place bits b bs Hat) in Hg by lia.
  injection Hg as <-. cbn [pd_advance pd_buffer pd_nboff]. split; [done|lia].
Qed.

(** ** Lemmas: the steps *)

Lemma even_step i : 0 <= i -> Z.land (2 * i) 1 = 0 /\ Z.lor (2 * i) 1 = 2 * i + 1 /\
  Z.land (2 * i) (Z.lnot 1) = 2 * i /\ (2 * i) ≫ 1 = i.
Proof.
  intros Hi. split_and!.
  - change 1 with (2 ^ 1 - 1) at 1. rewrite land_ones_mod by lia. change (2 ^ 1) with 2. Z.div_mod_to_equations; lia.
  - replace (2 * i) with (i ≪ 1) by (rewrite shiftl_mul by lia; lia). rewrite lor_shiftl_add by lia.
    rewrite shiftl_mul by lia. done.
  - change 1 with (2 ^ 1 - 1) at 1. rewrite land_clear_low, shiftr_div, shiftl_mul by lia. change (2 ^ 1) with 2.
    Z.div_mod_to_equations; lia.
  - rewrite shiftr_div by lia. change (2 ^ 1) with 2. Z.div_mod_to_equations; lia.
Qed.

Lemma odd_step i : 0 <= i -> Z.land (2 * i + 1) 1 = 1 /\ Z.lor (2 * i + 1) 1 = 2 * i + 1 /\
  Z.land (2 * i + 1) (Z.lnot 1) = 2 * i /\ (2 * i + 1) ≫ 1 = i.
Proof.
  intros Hi. destruct (even_step i Hi) as (_ & Hlor & Hclear & _). split_and!.
  - change 1 with (2 ^ 1 - 1) at 2. rewrite land_ones_mod by lia. change (2 ^ 1) with 2. Z.div_mod_to_equations; lia.
  - rewrite <- Hlor, <- Z.lor_assoc. done.
  - change 1 with (2 ^ 1 - 1) at 2. rewrite land_clear_low, shiftr_div, shiftl_mul by lia. change (2 ^ 1) with 2.
    Z.div_mod_to_equations; lia.
  - rewrite shiftr_div by lia. change (2 ^ 1) with 2. Z.div_mod_to_equations; lia.
Qed.

(** ** Lemmas: the root members *)

Section Member.
Context (m : asn_TYPE_member_t) (L : OerTypeLaws (elm_type m)) (SL : OerStreamLaws (elm_type m)).
Context (ext : bool) (o : Z).
Implicit Types c : cursor.

Lemma microphase2_done (s : slot m) (t : elm_type m) bs rest i c : 0 <= i ->
  stream_left (slot_struct s) t bs -> cu_step c = 2 * i + 1 -> cu_buf c = bs ++ rest ->
  exists s', microphase2 m s c = Some (None, s', at_step (2 * (i + 1)) (advance (Z.of_nat (length bs)) c)) /\
    slot_value s' = set_memb m (Some t).
Proof.
  intros Hi Hl Hs Hb. unfold microphase2. rewrite Hb. destruct (stream_done _ t bs rest Hl) as (p & -> & Hv).
  cbn [mbind option_bind decoded_slot]. destruct (odd_step i Hi) as (_ & _ & Hclear & _). exists (Some (inl p)).
  rewrite Hs, Hclear. split; [do 4 f_equal; lia|]. unfold slot_value. by rewrite Hv.
Qed.

Lemma microphase2_more (s : slot m) (t : elm_type m) p q c :
  stream_left (slot_struct s) t (p ++ q) -> q <> [] -> cu_buf c = p ->
  exists n s', microphase2 m s c = Some (Some RC_WMORE, s', advance n c) /\ 0 <= n <= Z.of_nat (length p) /\
    stream_left (slot_struct s') t (drop (Z.to_nat n) p ++ q).
Proof.
  intros Hl Hq Hb. unfold microphase2. rewrite Hb. destruct (stream_more _ t p q Hl Hq) as (n & p' & -> & Hn & Hl').
  cbn [mbind option_bind]. exists n, (decoded_slot p'). split_and!; [done|lia|lia|]. by destruct p'.
Qed.

(** A member that is left out is filled in. *)
Lemma root_member_fill (x : field m) bs i c : 0 <= i -> elm_optional m <> 0 ->
  set_memb m (default_value_set m) = x -> cu_step c = 2 * i -> bits_held ext o (cu_bits c) (false :: bs) ->
  exists bits s, bits_held ext o bits bs /\
    root_member m None c = Some (None, s, at_step (2 * (i + 1)) (at_bits bits c)) /\ slot_value s = x.
Proof.
  intros Hi Ho Hx Hs Hb. destruct (even_step i Hi) as (Hz & _ & Hclear & _). unfold root_member. rewrite Hs, Hz.
  rewrite (proj2 (Z.eqb_neq _ _) Ho). cbn [andb negb Z.eqb].
  destruct (bits_held_read _ _ _ _ _ Hb) as (bits & -> & Hb'). exists bits, (slot_default None). split; [done|].
  cbn [mbind option_bind Z.b2z Z.ltb Z.compare Z.eqb at_bits cu_step]. rewrite Hs, Hclear.
  split; [do 4 f_equal; lia|]. rewrite <- Hx. unfold slot_default, slot_value. by destruct (default_value_set m).
Qed.

(** A member that is not begun: its presence is looked up, and either it is
    filled in or its decoder is called. *)
Lemma root_member_begin (x : field m) bs i c : 0 <= i -> oer_root_dom m L x ->
  cu_step c = 2 * i -> bits_held ext o (cu_bits c) (optional_mark m x ++ bs) ->
  exists bits, bits_held ext o bits bs /\
    ((exists s, root_member m None c = Some (None, s, at_step (2 * (i + 1)) (at_bits bits c)) /\
        slot_value s = x /\ oer_root_octets m L x = []) \/
     (exists t, root_member m None c = microphase2 m None (at_step (2 * i + 1) (at_bits bits c)) /\
        x = set_memb m (Some t) /\ oer_dom t /\ oer_root_octets m L x = oer_octets t)).
Proof.
  intros Hi Hd Hs Hbits. unfold oer_root_dom, oer_root_octets, optional_mark in *.
  assert (Hfill : elm_optional m <> 0 -> set_memb m (default_value_set m) = x -> bits_held ext o (cu_bits c) (false :: bs) ->
    exists bits, bits_held ext o bits bs /\ exists s,
      root_member m None c = Some (None, s, at_step (2 * (i + 1)) (at_bits bits c)) /\ slot_value s = x).
  { intros Ho Hx Hb. destruct (root_member_fill x bs i c Hi Ho Hx Hs Hb) as (bits & s & ? & ? & ?). exists bits. by split; [|exists s]. }
  destruct (memb_ptr m x) as [v|] eqn:Ep; [destruct (is_default m v)|].
  - destruct Hd as [Ho Hset]. rewrite (proj2 (Z.eqb_neq _ _) Ho) in Hbits.
    destruct Hfill as (bits & Hb & s & Hr & Hv); [done|by rewrite Hset, <- Ep, set_memb_ptr|done|].
    exists bits. split; [done|]. left. by exists s.
  - assert (Hx : x = set_memb m (Some v)) by (by rewrite <- Ep, set_memb_ptr).
    destruct (even_step i Hi) as (Hz & Hlor & _). unfold root_member. rewrite Hs, Hz. cbn [Z.eqb andb].
    destruct (elm_optional m =? 0); cbn [negb app] in *.
    + exists (cu_bits c). split; [done|]. right. exists v. cbn [mbind option_bind Z.ltb Z.compare Z.eqb].
      rewrite Hs, Hlor. by destruct c.
    + destruct (bits_held_read _ _ _ _ _ Hbits) as (bits & -> & Hb). exists bits. split; [done|]. right. exists v.
      cbn [mbind option_bind Z.b2z Z.ltb Z.compare Z.eqb at_bits cu_step]. by rewrite Hs, Hlor.
  - destruct Hd as [Ho Hset]. rewrite (proj2 (Z.eqb_neq _ _) Ho) in Hbits.
    destruct Hfill as (bits & Hb & s & Hr & Hv); [done|by rewrite Hset, <- Ep, set_memb_ptr|done|].
    exists bits. split; [done|]. left. by exists s.
Qed.
End Member.

Section Roots.
Context (ext : bool) (o : Z).
Implicit Types c : cursor.

(** The root members from index [edx] on take in [bs] and are then [xs]: not
    begun, in the middle of a member, or further on. *)
Inductive roots_left : forall ms, members_oer_laws ms -> Z -> Z -> asn_per_data -> slots ms -> fields ms -> list Z -> Prop :=
| left_begin ms (Ls : members_oer_laws ms) edx bits xs :
    all_members oer_root_dom ms Ls xs -> bits_held ext o bits (optional_marks ms xs) ->
    roots_left ms Ls edx (2 * edx) bits (fresh_slots ms) xs (members_octets oer_root_octets ms Ls xs)
| left_inside m ms (L : OerTypeLaws (elm_type m)) (SL : OerStreamLaws (elm_type m)) (Ls : members_oer_laws ms)
      edx bits (s : slot m) (t : elm_type m) (xs : fields ms) bs :
    stream_left (slot_struct s) t bs -> all_members oer_root_dom ms Ls xs -> bits_held ext o bits (optional_marks ms xs) ->
    roots_left (m :: ms) (existT L SL, Ls) edx (2 * edx + 1) bits ((s, fresh_slots ms) : slots (m :: ms))
      ((set_memb m (Some t), xs) : fields (m :: ms)) (bs ++ members_octets oer_root_octets ms Ls xs)
| left_behind m ms (L : OerTypeLaws (elm_type m)) (SL : OerStreamLaws (elm_type m)) (Ls : members_oer_laws ms)
      edx step bits (s : slot m) (x : field m) (ss : slots ms) (xs : fields ms) bs :
    edx < step ≫ 1 -> slot_value s = x -> roots_left ms Ls (edx + 1) step bits ss xs bs ->
    roots_left (m :: ms) (existT L SL, Ls) edx step bits ((s, ss) : slots (m :: ms)) ((x, xs) : fields (m :: ms)) bs.

Lemma roots_begin_done ms (Ls : members_oer_laws ms) xs i c rest : 0 <= i ->
  all_members oer_root_dom ms Ls xs -> cu_step c = 2 * i -> bits_held ext o (cu_bits c) (optional_marks ms xs) ->
  cu_buf c = members_octets oer_root_octets ms Ls xs ++ rest ->
  exists ss c', root_loop ms i c (fresh_slots ms) = Some (None, ss, c') /\ slots_value ms ss = xs /\
    cu_consumed c' = cu_consumed c + Z.of_nat (length (members_octets oer_root_octets ms Ls xs)) /\ cu_buf c' = rest /\
    bits_held ext o (cu_bits c') [].
Proof.
  revert i c. induction ms as [|m ms IH]; intros i c Hi Hd Hs Hbits Hb.
  { destruct xs. exists tt, c. cbn in *. split_and!; [done|done|lia|done|done]. }
  destruct Ls as [[L SL] Ls], xs as [x xs], Hd as [Hm Hd]. cbn [root_loop fresh_slots members_octets optional_marks] in *.
  rewrite Hs. destruct (even_step i Hi) as (_ & _ & _ & ->). rewrite Z.ltb_irrefl. rewrite <- app_assoc in Hb.
  destruct (root_member_begin m L ext o x _ i c Hi Hm Hs Hbits)
    as (bits & Hbits' & [(s & -> & Hv & Ho)|(t & -> & Hx & Ht & Ho)]); rewrite Ho in *.
  - cbn [mbind option_bind app]. destruct (IH Ls xs (i + 1) (at_step (2 * (i + 1)) (at_bits bits c)))
      as (ss & c' & -> & Hvs & Hc & Hb' & Hbits''); [lia|done|done|done|done|].
    cbn [mbind option_bind]. exists (s, ss), c'. cbn [slots_value]. split_and!; [done|by rewrite Hv, Hvs|done|done|done].
  - destruct (microphase2_done m L SL None t (oer_octets t) (members_octets oer_root_octets ms Ls xs ++ rest) i
      (at_step (2 * i + 1) (at_bits bits c)) Hi) as (s & -> & Hv); [by apply stream_start|done|done|].
    cbn [mbind option_bind]. edestruct (IH Ls xs (i + 1)) as (ss & c' & -> & Hvs & Hc & Hb' & Hbits'');
      [lia|done| |exact Hbits'| |].
    { done. }
    { cbn [at_step advance cu_buf at_bits]. rewrite Hb, Nat2Z.id. by rewrite drop_app_length. }
    cbn [mbind option_bind]. exists (s, ss), c'. cbn [slots_value at_step advance at_bits cu_consumed] in *.
    rewrite length_app. split_and!; [done|by rewrite Hv, Hvs, Hx|lia|done|done].
Qed.

Lemma roots_begin_more ms (Ls : members_oer_laws ms) xs i c p q : 0 <= i ->
  all_members oer_root_dom ms Ls xs -> cu_step c = 2 * i -> bits_held ext o (cu_bits c) (optional_marks ms xs) ->
  members_octets oer_root_octets ms Ls xs = p ++ q -> q <> [] -> cu_buf c = p ->
  exists n ss c', root_loop ms i c (fresh_slots ms) = Some (Some RC_WMORE, ss, c') /\ 0 <= n <= Z.of_nat (length p) /\
    cu_consumed c' = cu_consumed c + n /\ cu_step c <= cu_step c' /\
    roots_left ms Ls i (cu_step c') (cu_bits c') ss xs (drop (Z.to_nat n) p ++ q).
Proof.
  revert i c p. induction ms as [|m ms IH]; intros i c p Hi Hd Hs Hbits Hpq Hq Hb.
  { by destruct p, q. }
  destruct Ls as [[L SL] Ls], xs as [x xs], Hd as [Hm Hd]. cbn [root_loop fresh_slots members_octets optional_marks] in *.
  rewrite Hs. destruct (even_step i Hi) as (_ & _ & _ & ->). rewrite Z.ltb_irrefl.
  assert (Hnext : forall step, 2 * (i + 1) <= step -> i < step ≫ 1)
    by (intros; rewrite shiftr_div by lia; change (2 ^ 1) with 2; Z.div_mod_to_equations; lia).
  destruct (root_member_begin m L ext o x _ i c Hi Hm Hs Hbits)
    as (bits & Hbits' & [(s & -> & Hv & Ho)|(t & -> & Hx & Ht & Ho)]); rewrite Ho in *.
  - cbn [mbind option_bind app] in *. destruct (IH Ls xs (i + 1) (at_step (2 * (i + 1)) (at_bits bits c)) p)
      as (n & ss & c' & -> & Hn & Hc & Hst & Hl); [lia|done|done|done|done|done|done|].
    cbn [mbind option_bind at_step at_bits cu_step cu_consumed] in *. exists n, (s, ss), c'.
    split_and!; [done|lia|lia|done|lia|]. apply left_behind; [by apply Hnext|done|done].
  - destruct (cut_app _ _ _ _ Hpq) as [(k & Hk & Hne)|(k & -> & Hk)].
    + assert (Hq' : exists q', q = q' /\ k ++ members_octets oer_root_octets ms Ls xs = q)
        by (exists q; split; [done|]; rewrite Hk, <- app_assoc in Hpq; by apply app_inv_head in Hpq).
      destruct Hq' as (_ & _ & <-).
      destruct (microphase2_more m L SL None t p k (at_step (2 * i + 1) (at_bits bits c)))
        as (n & s & -> & Hn & Hl); [rewrite <- Hk; by apply stream_start|done|done|].
      cbn [mbind option_bind]. eexists n, _, _. split; [reflexivity|]. cbn [advance at_step at_bits cu_step cu_bits cu_consumed].
      split_and!; [lia|lia|lia|lia|]. rewrite Hx, app_assoc. by apply left_inside.
    + destruct (microphase2_done m L SL None t (oer_octets t) k i (at_step (2 * i + 1) (at_bits bits c)) Hi)
        as (s & -> & Hv); [by apply stream_start|done|done|].
      cbn [mbind option_bind]. edestruct (IH Ls xs (i + 1)) as (n & ss & c' & -> & Hn & Hc & Hst & Hl);
        [lia|done| |exact Hbits'|exact Hk|done| |].
      { done. }
      { cbn [at_step advance cu_buf at_bits]. rewrite Hb, Nat2Z.id. apply drop_app_length. }
      cbn [mbind option_bind at_step advance at_bits cu_step cu_consumed] in *.
      exists (Z.of_nat (length (oer_octets t)) + n), (s, ss), c'. rewrite length_app.
      split_and!; [done|lia|lia|lia|lia|]. rewrite Z2Nat.inj_add, Nat2Z.id by lia.
      rewrite <- drop_drop, drop_app_length. apply left_behind; [by apply Hnext|by rewrite Hv, Hx|done].
Qed.

Lemma roots_done ms (Ls : members_oer_laws ms) edx step bits ss xs bs c rest : roots_left ms Ls edx step bits ss xs bs ->
  0 <= edx -> cu_step c = step -> cu_bits c = bits -> cu_buf c = bs ++ rest ->
  exists ss' c', root_loop ms edx c ss = Some (None, ss', c') /\ slots_value ms ss' = xs /\
    cu_consumed c' = cu_consumed c + Z.of_nat (length bs) /\ cu_buf c' = rest /\ bits_held ext o (cu_bits c') [].
Proof.
  intros Hl. revert c. induction Hl as [ms Ls edx bits xs Hd Hbits|m ms L SL Ls edx bits s t xs bs Hl Hd Hbits|
    m ms L SL Ls edx step bits s x ss xs bs Hs Hv Hl IH]; intros c Hi Hstep Hcb Hb.
  - rewrite <- Hcb in Hbits. by apply roots_begin_done.
  - cbn [root_loop]. rewrite Hstep. destruct (odd_step edx Hi) as (H1 & Hlor & _ & ->). rewrite Z.ltb_irrefl.
    unfold root_member. rewrite Hstep, H1. cbn [Z.eqb Pos.eqb andb mbind option_bind Z.ltb Z.compare]. rewrite Hstep, Hlor.
    rewrite <- app_assoc in Hb. destruct (microphase2_done m L SL s t bs _ edx (at_step (2 * edx + 1) c) Hi Hl eq_refl Hb)
      as (s' & -> & Hv). cbn [mbind option_bind].
    edestruct (roots_begin_done ms Ls xs (edx + 1)) as (ss & c' & -> & Hvs & Hc & Hb' & Hbits');
      [lia|done|reflexivity| | |].
    { cbn [at_step advance cu_bits]. by rewrite Hcb. }
    { cbn [at_step advance cu_buf]. rewrite Hb, Nat2Z.id. apply drop_app_length. }
    cbn [mbind option_bind at_step advance cu_consumed slots_value] in *. exists (s', ss), c'. rewrite length_app.
    split_and!; [done|by rewrite Hv, Hvs|lia|done|done].
  - cbn [root_loop]. rewrite Hstep. zcase. cbn [mbind option_bind].
    destruct (IH c) as (ss' & c' & -> & Hvs & Hc & Hb' & Hbits'); [lia|done|done|done|].
    cbn [mbind option_bind slots_value]. exists (s, ss'), c'. split_and!; [done|by rewrite Hv, Hvs|done|done|done].
Qed.

Lemma roots_more ms (Ls : members_oer_laws ms) edx step bits ss xs p q c :
  roots_left ms Ls edx step bits ss xs (p ++ q) -> q <> [] ->
  0 <= edx -> cu_step c = step -> cu_bits c = bits -> cu_buf c = p ->
  exists n ss' c', root_loop ms edx c ss = Some (Some RC_WMORE, ss', c') /\ 0 <= n <= Z.of_nat (length p) /\
    cu_consumed c' = cu_consumed c + n /\ cu_step c <= cu_step c' /\
    roots_left ms Ls edx (cu_step c') (cu_bits c') ss' xs (drop (Z.to_nat n) p ++ q).
Proof.
  intros Hl. remember (p ++ q) as bs0 eqn:Hpq. revert c p Hpq.
  induction Hl as [ms Ls edx bits xs Hd Hbits|m ms L SL Ls edx bits s t xs bs Hl Hd Hbits|
    m ms L SL Ls edx step bits s x ss xs bs Hs Hv Hl IH]; intros c p Hpq Hq Hi Hstep Hcb Hb.
  - rewrite <- Hcb in Hbits. by apply roots_begin_more.
  - cbn [root_loop]. rewrite Hstep. destruct (odd_step edx Hi) as (H1 & Hlor & _ & ->). rewrite Z.ltb_irrefl.
    unfold root_member. rewrite Hstep, H1. cbn [Z.eqb Pos.eqb andb mbind option_bind Z.ltb Z.compare]. rewrite Hstep, Hlor.
    destruct (cut_app _ _ _ _ Hpq) as [(k & -> & Hne)|(k & -> & Hk)].
    + rewrite <- app_assoc in Hpq. apply app_inv_head in Hpq as <-.
      destruct (microphase2_more m L SL s t p k (at_step (2 * edx + 1) c) Hl Hne Hb) as (n & s' & -> & Hn & Hl').
      cbn [mbind option_bind]. eexists n, _, _. split; [reflexivity|]. cbn [advance at_step cu_step cu_bits cu_consumed].
      split_and!; [lia|lia|lia|lia|]. rewrite app_assoc, Hcb. by apply left_inside.
    + destruct (microphase2_done m L SL s t bs k edx (at_step (2 * edx + 1) c) Hi Hl eq_refl Hb) as (s' & -> & Hv).
      cbn [mbind option_bind].
      edestruct (roots_begin_more ms Ls xs (edx + 1)) as (n & ss & c' & -> & Hn & Hc & Hst & Hl');
        [lia|done|reflexivity| |exact Hk|done| |].
      { cbn [at_step advance cu_bits]. by rewrite Hcb. }
      { cbn [at_step advance cu_buf]. rewrite Hb, Nat2Z.id. apply drop_app_length. }
      cbn [mbind option_bind at_step advance cu_step cu_consumed] in *.
      exists (Z.of_nat (length bs) + n), (s', ss), c'. rewrite length_app.
      split_and!; [done|lia|lia|lia|lia|]. rewrite Z2Nat.inj_add, Nat2Z.id by lia.
      rewrite <- drop_drop, drop_app_length. apply left_behind; [|done|done].
      rewrite shiftr_div by lia; change (2 ^ 1) with 2; Z.div_mod_to_equations; lia.
  - cbn [root_loop]. rewrite Hstep. zcase. cbn [mbind option_bind].
    destruct (IH c p Hpq Hq) as (n & ss' & c' & -> & Hn & Hc & Hst & Hl'); [lia|done|done|done|].
    cbn [mbind option_bind]. exists n, (s, ss'), c'. split_and!; [done|lia|lia|done|lia|].
    apply left_behind; [|done|done]. rewrite shiftr_div in * by lia. change (2 ^ 1) with 2 in *.
    Z.div_mod_to_equations; lia.
Qed.
End Roots.

(** ** Lemmas: the additions *)

Lemma slots_value_fresh ms : slots_value ms (fresh_slots ms) = fresh ms.
Proof. induction ms as [|m ms IH]; [done|]. cbn. by rewrite IH. Qed.

Lemma addition_ok m (L : OerTypeLaws (elm_type m)) (SL : OerStreamLaws (elm_type m)) (x : field m) c bs rest :
  oer_addition_dom m L x -> pd_at (cu_bits c) (encoded_member m x :: bs) ->
  cu_buf c = oer_addition_octets m L x ++ rest ->
  exists s c', addition_member m None c = Some (None, s, c') /\ slot_value s = x /\ cu_step c' = cu_step c + 1 /\
    pd_at (cu_bits c') bs /\ cu_buf c' = rest /\
    cu_consumed c' = cu_consumed c + Z.of_nat (length (oer_addition_octets m L x)).
Proof.
  intros Hm Hbits Hb. unfold addition_member. destruct (get_bit _ _ _ Hbits) as (bits & -> & Hbits' & _).
  cbn [mbind option_bind]. unfold oer_addition_dom, oer_addition_octets, encoded_member in *.
  destruct (memb_ptr m x) as [v|] eqn:Ep; [destruct (is_default m v)|].
  - cbn [negb Z.b2z Z.eqb orb]. eexists _, _. split; [reflexivity|]. cbn [at_step at_bits cu_step cu_bits cu_buf cu_consumed].
    split_and!; [|done|done|done|cbn; lia]. unfold slot_default, slot_value. rewrite Hm. by rewrite <- Ep, set_memb_ptr.
  - destruct Hm as [Hm Hmax]. cbn [negb Z.b2z Z.eqb Pos.eqb orb slot_struct at_bits cu_buf cu_step].
    destruct (stream_done None v (oer_octets v) []) as (p & Hs & Hv); [by apply stream_start|]. rewrite app_nil_r in Hs.
    rewrite Hb, <- app_assoc, (oer_open_get_ok _ _ _ _ rest Hmax Hs). cbn [mbind option_bind].
    pose proof (length_octets_pos (Z.of_nat (length (oer_octets v)))). set (l := oer_length_octets _ ++ oer_octets v).
    assert (0 < Z.of_nat (length l)) by (unfold l; rewrite length_app; lia). zcase.
    eexists _, _. split; [reflexivity|]. cbn [at_step advance at_bits cu_step cu_bits cu_buf cu_consumed].
    split_and!; [|done|done| |done].
    + unfold slot_value, decoded_slot. by rewrite Hv, <- Ep, set_memb_ptr.
    + rewrite Hb, Nat2Z.id. apply drop_app_length.
  - cbn [negb Z.b2z Z.eqb orb]. eexists _, _. split; [reflexivity|]. cbn [at_step at_bits cu_step cu_bits cu_buf cu_consumed].
    split_and!; [|done|done|done|cbn; lia]. unfold slot_default, slot_value. destruct Hm as [_ ->].
    by rewrite <- Ep, set_memb_ptr.
Qed.

Lemma addition_loop_ok ms (Ls : members_oer_laws ms) xs i c rest :
  all_members oer_addition_dom ms Ls xs -> cu_step c = i -> pd_at (cu_bits c) (marks ms xs) ->
  cu_buf c = members_octets oer_addition_octets ms Ls xs ++ rest ->
  exists ss c', addition_loop ms i c (fresh_slots ms) = Some (None, ss, c') /\ slots_value ms ss = xs /\
    cu_consumed c' = cu_consumed c + Z.of_nat (length (members_octets oer_addition_octets ms Ls xs)) /\ cu_buf c' = rest /\
    pd_at (cu_bits c') [].
Proof.
  revert i c. induction ms as [|m ms IH]; intros i c Hd Hs Hbits Hb.
  { destruct xs. exists tt, c. cbn in *. split_and!; [done|done|lia|done|done]. }
  destruct Ls as [[L SL] Ls], xs as [x xs], Hd as [Hm Hd]. cbn [addition_loop fresh_slots members_octets marks] in *.
  rewrite Hs, Z.ltb_irrefl. rewrite <- app_assoc in Hb.
  destruct (addition_ok m L SL x c _ _ Hm Hbits Hb) as (s & c1 & -> & Hv & Hs1 & Hbits1 & Hb1 & Hc1).
  cbn [mbind option_bind]. destruct (IH Ls xs (i + 1) c1 Hd) as (ss & c2 & -> & Hvs & Hc2 & Hb2 & Hbits2);
    [lia|done|done|]. cbn [mbind option_bind]. exists (s, ss), c2. cbn [slots_value]. rewrite length_app.
  split_and!; [done|by rewrite Hv, Hvs|lia|done|done].
Qed.

(** ** Lemmas: the phases *)

Lemma padded_octets_app l bs : bytes_ok l -> padded_octets (bytes_bits l ++ bs) = l ++ padded_octets bs.
Proof.
  intros Hl. destruct (padded_octets_ok bs) as [Hok Hb]. destruct (padded_octets_ok (bytes_bits l ++ bs)) as [Hok' Hb'].
  apply bytes_bits_inj; [done|by apply bytes_ok_app|]. rewrite Hb', bytes_bits_app, Hb. apply pad8_aligned.
  rewrite length_bytes_bits, Nat.mul_comm. apply Nat.Div0.mod_mul.
Qed.

Section Phases.
Context (specs : asn_SEQUENCE_specifics_t).
Context (Rs : members_oer_laws (roots specs)) (As : members_oer_laws (additions specs)).
Implicit Types t : sequence_t specs.

Definition extension_dom t : Prop :=
  if extended specs t
  then all_members oer_addition_dom _ As (snd t) /\ aoms_count specs = Z.of_nat (length (additions specs)) /\
       aoms_count specs <= 1008
  else snd t = fresh _.

Lemma map_octets t : aoms_count specs = Z.of_nat (length (additions specs)) -> aoms_count specs <= 1008 ->
  padded_octets (map_bits specs t) =
  [1 + (7 + aoms_count specs) / 8; - aoms_count specs mod 8] ++ padded_octets (marks _ (snd t)).
Proof.
  intros Ha Hmax. rewrite <- padded_octets_app; [done|].
  repeat (apply bytes_ok_cons; [unfold byte_ok; Z.div_mod_to_equations; lia|]). apply bytes_ok_nil.
Qed.

Lemma length_map_octets t : Z.of_nat (length (padded_octets (marks _ (snd t)))) = (7 + Z.of_nat (length (additions specs))) / 8.
Proof.
  destruct (padded_octets_ok (marks _ (snd t))) as [_ Hb]. rewrite (octets_of_pad8 _ _ Hb). unfold octets_of.
  by rewrite length_marks, Z.add_comm.
Qed.

Lemma phase3_ok t c null rs rest : all_members oer_addition_dom _ As (snd t) ->
  cu_step c = Z.of_nat (length (roots specs)) -> pd_at (cu_bits c) (marks _ (snd t)) ->
  cu_buf c = members_octets oer_addition_octets _ As (snd t) ++ rest -> slots_value _ rs = fst t ->
  exists st, sequence_phase3 specs c null rs (fresh_slots _) =
      Some (RC_OK, cu_consumed c + Z.of_nat (length (members_octets oer_addition_octets _ As (snd t))), st) /\
    sequence_value specs st = t.
Proof.
  intros Hd Hs Hbits Hb Hrs. unfold sequence_phase3. rewrite <- Hs.
  destruct (addition_loop_ok _ As (snd t) (cu_step c) c rest Hd eq_refl Hbits Hb) as (es & c' & -> & Hes & Hc & _ & Hbits').
  cbn [mbind option_bind]. unfold sequence_phase4. cbn [skip_additions at_step cu_bits].
  rewrite (per_get_eod _ 1 [] Hbits') by (cbn; lia). cbn [mbind option_bind Z.eqb Pos.eqb orb at_bits at_step cu_consumed]. rewrite Hc.
  eexists. split; [reflexivity|]. unfold sequence_value. cbn [stopped sq_roots sq_additions]. rewrite Hrs, Hes. by destruct t.
Qed.

Lemma bitmap_ok t c rs rest : extended specs t = true -> extension_dom t ->
  cu_buf c = extension_part specs As t ++ rest -> slots_value _ rs = fst t ->
  exists st, sequence_bitmap specs c rs (fresh_slots _) =
      Some (RC_OK, cu_consumed c + Z.of_nat (length (extension_part specs As t)), st) /\ sequence_value specs st = t.
Proof.
  unfold extension_dom, extension_part. intros He. rewrite He. intros (Hd & Ha & Hmax) Hb Hrs.
  rewrite map_octets in * by done. pose proof (length_map_octets t) as Hlen. rewrite <- Ha in Hlen.
  set (bitmap := padded_octets (marks _ (snd t))) in *. set (octets := members_octets _ _ As (snd t)) in *.
  set (a := 1 + (7 + aoms_count specs) / 8) in *. set (u := - aoms_count specs mod 8) in *.
  assert (Hau : 1 <= a <= 127 /\ 0 <= u < 8 /\ (a - 1) * 8 - u = aoms_count specs /\ a = 1 + Z.of_nat (length bitmap))
    by (unfold a, u; Z.div_mod_to_equations; lia).
  assert (Hbuf : cu_buf c = [a] ++ u :: bitmap ++ octets ++ rest) by (by rewrite Hb, <- !app_assoc).
  unfold sequence_bitmap. rewrite Hbuf.
  assert (Hf : oer_fetch_length ([a] ++ u :: bitmap ++ octets ++ rest) = (1, a)).
  { assert (Ho : oer_length_octets a = [a]) by (unfold oer_length_octets; by zcase). rewrite <- Ho.
    rewrite oer_fetch_length_ok, Ho by (split; [lia|]; change RSIZE_MAX with 9223372036854775807; lia). done. }
  rewrite Hf. clearbody a u. cbn [Z.leb Z.compare]. set (c1 := advance 1 c). set (c2 := advance 1 c1).
  assert (H1 : cu_buf c1 = u :: bitmap ++ octets ++ rest) by (unfold c1; cbn [advance cu_buf]; by rewrite Hbuf).
  assert (H2 : cu_buf c2 = bitmap ++ octets ++ rest) by (unfold c2; cbn [advance cu_buf]; by rewrite H1).
  assert (Hu : Z.land 7 u = u).
  { rewrite Z.land_comm. change 7 with (2 ^ 3 - 1). rewrite land_ones_mod by lia. apply Z.mod_small. change (2 ^ 3) with 8. lia. }
  destruct (Z.eqb_spec a 0); [lia|]. rewrite H1. cbn [length]. rewrite length_app.
  destruct (Z.ltb_spec (Z.of_nat (S (length bitmap + length (octets ++ rest)))) a); [lia|].
  change ((u :: bitmap ++ octets ++ rest) !! 0%nat) with (Some u). cbn [mbind option_bind]. rewrite Hu.
  replace (negb (u =? 0) && (a - 1 =? 0)) with false by lia. rewrite H2.
  replace ((a - 1) * 8 - u) with (Z.of_nat (length (marks _ (snd t)))) by (rewrite length_marks; lia).
  destruct (contiguous_ok (marks _ (snd t)) (octets ++ rest)) as (bits & Hn & Hbits & _). fold bitmap in Hn.
  rewrite Hn. cbn [mbind option_bind].
  assert (Hext : seq_extensible specs = true) by (unfold extended in He; by destruct (seq_extensible specs)).
  edestruct (phase3_ok t) as (st & -> & Hv); [done| |exact Hbits| |exact Hrs|].
  { cbn [at_step cu_step]. unfold first_extension. by rewrite Hext. }
  { cbn [at_step at_bits advance cu_buf]. fold c1 c2. cbn [at_step at_bits advance cu_buf]. rewrite H2.
    replace (Z.to_nat (a - 1)) with (length bitmap) by lia. apply drop_app_length. }
  exists st. split; [|done]. cbn [at_step at_bits advance cu_consumed]. fold octets.
  do 3 f_equal. unfold c2, c1. cbn [advance cu_consumed app length]. rewrite length_app. lia.
Qed.

(** The extension bit is where phase 2 looks for it. *)
Lemma phase2_ok t o c rs rest : extension_dom t -> (seq_extensible specs = true -> negb (Z.land o 128 =? 0) = extended specs t) ->
  bits_held (seq_extensible specs) o (cu_bits c) [] -> cu_buf c = extension_part specs As t ++ rest ->
  slots_value _ rs = fst t ->
  exists st, sequence_phase2 specs c false rs (fresh_slots _) =
      Some (RC_OK, cu_consumed c + Z.of_nat (length (extension_part specs As t)), st) /\ sequence_value specs st = t.
Proof.
  intros Hd Ho [_ Hkeep] Hb Hrs. unfold sequence_phase2.
  assert (Hno : extended specs t = false -> exists st : sequence_struct specs,
    Some (RC_OK, cu_consumed c, stopped specs 10 true c rs (fresh_slots _)) =
      Some (RC_OK, cu_consumed c + Z.of_nat (length (extension_part specs As t)), st) /\ sequence_value specs st = t).
  { intros He. unfold extension_dom, extension_part in *. rewrite He in *. eexists. rewrite Z.add_0_r. split; [reflexivity|].
    unfold sequence_value. cbn [stopped sq_roots sq_additions]. rewrite slots_value_fresh, Hrs, <- Hd. by destruct t. }
  destruct (seq_extensible specs) eqn:Hext; cbn [negb].
  - destruct (Hkeep eq_refl) as [-> _]. cbn [mbind option_bind]. rewrite Ho by done.
    destruct (extended specs t) eqn:He; cbn [negb]; [|by apply Hno]. apply (bitmap_ok t c rs rest); done.
  - cbn [mbind option_bind negb]. apply Hno. unfold extended. by rewrite Hext.
Qed.

Lemma phase1_ok t o ss bs c rest : extension_dom t ->
  (seq_extensible specs = true -> negb (Z.land o 128 =? 0) = extended specs t) ->
  roots_left (seq_extensible specs) o _ Rs 0 (cu_step c) (cu_bits c) ss (fst t) bs ->
  cu_buf c = bs ++ extension_part specs As t ++ rest ->
  exists st, sequence_phase1 specs c false ss (fresh_slots _) =
      Some (RC_OK, cu_consumed c + Z.of_nat (length (bs ++ extension_part specs As t)), st) /\ sequence_value specs st = t.
Proof.
  intros Hd Ho Hl Hb. unfold sequence_phase1.
  destruct (roots_done _ _ _ _ _ _ _ _ _ _ c _ Hl ltac:(lia) eq_refl eq_refl Hb) as (ss' & c' & -> & Hv & Hc & Hb' & Hbits).
  cbn [mbind option_bind]. destruct (phase2_ok t o (at_step 0 c') ss' rest Hd Ho Hbits Hb' Hv) as (st & -> & Hst).
  exists st. split; [|done]. cbn [at_step cu_consumed]. rewrite Hc, length_app. do 3 f_equal. lia.
Qed.

(** Phase 0: the preamble; an extension bit is the first bit of its octet. *)
Lemma phase0_ok t ptr buf : sequence_oer_dom specs Rs As t -> default (fresh_sequence specs) ptr = fresh_sequence specs ->
  exists o bits, (seq_extensible specs = true -> negb (Z.land o 128 =? 0) = extended specs t) /\
    bits_held (seq_extensible specs) o bits (optional_marks _ (fst t)) /\
    SEQUENCE_decode_oer specs ptr (padded_octets (preamble_bits specs t) ++ buf) =
      sequence_phase1 specs {| cu_step := 0; cu_bits := bits;
        cu_consumed := Z.of_nat (length (padded_octets (preamble_bits specs t))); cu_buf := buf |} false (fresh_slots _) (fresh_slots _).
Proof.
  intros (_ & Hroms & H7 & _) Hfresh. unfold SEQUENCE_decode_oer. rewrite Hfresh. cbn [fresh_sequence sq_phase Z.eqb sq_roots sq_additions].
  assert (Hbits : Z.b2z (seq_extensible specs) + roms_count specs = Z.of_nat (length (preamble_bits specs t))).
  { unfold preamble_bits. rewrite length_app, Hroms. destruct (seq_extensible specs); cbn [Z.b2z length]; lia. }
  rewrite Hbits. destruct (padded_octets_ok (preamble_bits specs t)) as [_ Hpad].
  pose proof (octets_of_pad8 _ _ Hpad) as Hlen. unfold octets_of in Hlen.
  rewrite shiftr_div, Z.add_comm by lia. change (2 ^ 3) with 8. rewrite <- Hlen, length_app. zcase.
  destruct (contiguous_ok (preamble_bits specs t) buf) as (pd & -> & Hat & H0 & Hbuf). cbn [mbind option_bind].
  unfold advance. cbn [cu_step cu_bits cu_consumed cu_buf]. rewrite Z.add_0_l, Nat2Z.id, drop_app_length.
  unfold preamble_bits in *. destruct (seq_extensible specs) eqn:Hext; cbn [Z.b2z app] in *.
  - destruct (first_bit (extended specs t) (optional_marks _ (fst t))) as (o & Ho & Hbit).
    exists o. eexists. split; [done|]. split; [|reflexivity]. split.
    + destruct (get_bit pd _ _ Hat) as (pd' & Hg & Hat' & _). rewrite (get_bit_in_place pd _ _ Hat) in Hg by lia.
      injection Hg as Hpd'. destruct Hat' as (Hw & Hr & Hb). rewrite <- Hpd' in *. unfold pd_advance in *. rewrite H0 in *.
      cbn in Hr. split_and!; [exact Hw|done|exact Hb].
    + intros _. cbn [pd_buffer pd_nboff]. rewrite Hbuf. split; [|specialize (H7 eq_refl); lia].
      rewrite lookup_app_l; [done|]. by apply lookup_lt_Some in Ho.
  - exists 0. eexists. split; [done|]. split; [|reflexivity]. split; [|done]. destruct pd. cbn in *. by rewrite <- H0.
Qed.

(** The structure has taken in all but [bs]; extensions only from the
    beginning. *)
Inductive sequence_left : option (sequence_struct specs) -> sequence_t specs -> list Z -> Prop :=
| sequence_begin ptr t : sequence_oer_dom specs Rs As t -> extended specs t = false ->
    default (fresh_sequence specs) ptr = fresh_sequence specs -> sequence_left ptr t (sequence_octets specs Rs As t)
| sequence_roots o step bits ss t bs : extension_dom t -> extended specs t = false ->
    (seq_extensible specs = true -> negb (Z.land o 128 =? 0) = false) ->
    roots_left (seq_extensible specs) o _ Rs 0 step bits ss (fst t) bs ->
    sequence_left (Some {| sq_phase := 1; sq_step := step; sq_ptr := Some bits; sq_null := false;
                           sq_roots := ss; sq_additions := fresh_slots _ |}) t bs.

Lemma dom_extension t : sequence_oer_dom specs Rs As t -> extension_dom t.
Proof. by intros (_ & _ & _ & Hd). Qed.

Lemma sequence_whole t ptr rest : sequence_oer_dom specs Rs As t -> default (fresh_sequence specs) ptr = fresh_sequence specs ->
  exists st, SEQUENCE_decode_oer specs ptr (sequence_octets specs Rs As t ++ rest) =
      Some (RC_OK, Z.of_nat (length (sequence_octets specs Rs As t)), st) /\ sequence_value specs st = t.
Proof.
  intros Hd Hfresh. unfold sequence_octets. rewrite <- app_assoc.
  destruct (phase0_ok t ptr ((root_part specs Rs t ++ extension_part specs As t) ++ rest) Hd Hfresh) as (o & bits & Ho & Hbits & ->).
  edestruct (phase1_ok t o (fresh_slots _) (root_part specs Rs t)) as (st & -> & Hv); [by apply dom_extension|exact Ho| | |].
  - apply (left_begin _ o _ Rs 0); [by destruct Hd|exact Hbits].
  - by rewrite <- app_assoc.
  - exists st. split; [|done]. cbn [cu_consumed]. rewrite (length_app (padded_octets _)). do 3 f_equal. lia.
Qed.

Lemma sequence_phase1_more t o step bits ss p q consumed : extension_dom t -> extended specs t = false ->
  (seq_extensible specs = true -> negb (Z.land o 128 =? 0) = false) ->
  roots_left (seq_extensible specs) o _ Rs 0 step bits ss (fst t) (p ++ q) -> q <> [] ->
  exists n st, sequence_phase1 specs {| cu_step := step; cu_bits := bits; cu_consumed := consumed; cu_buf := p |} false ss (fresh_slots _) =
      Some (RC_WMORE, consumed + n, st) /\ 0 <= n <= Z.of_nat (length p) /\
    sequence_left (Some st) t (drop (Z.to_nat n) p ++ q).
Proof.
  intros Hd He Ho Hl Hq. unfold sequence_phase1.
  destruct (roots_more _ _ _ _ _ _ _ _ _ _ _ {| cu_step := step; cu_bits := bits; cu_consumed := consumed; cu_buf := p |} Hl Hq
    ltac:(lia) eq_refl eq_refl eq_refl) as (n & ss' & c' & -> & Hn & Hc & _ & Hl').
  cbn [mbind option_bind cu_consumed] in *. rewrite Hc. eexists n, _. split; [reflexivity|]. split; [done|].
  by apply (sequence_roots o).
Qed.

Lemma sequence_more ptr t p q : sequence_left ptr t (p ++ q) -> q <> [] ->
  exists n st, SEQUENCE_decode_oer specs ptr p = Some (RC_WMORE, n, st) /\
    0 <= n <= Z.of_nat (length p) /\ sequence_left (Some st) t (drop (Z.to_nat n) p ++ q).
Proof.
  intros Hl Hq. remember (p ++ q) as bs eqn:Hbs. destruct Hl as [ptr t Hd He Hfresh|o step bits ss t bs Hd He Ho Hl].
  - unfold sequence_octets, extension_part in Hbs. rewrite He, app_nil_r in Hbs.
    destruct (cut_app _ _ _ _ Hbs) as [(k & Hk & Hne)|(k & -> & Hk)].
    + exists 0, (fresh_sequence specs). unfold SEQUENCE_decode_oer. rewrite Hfresh. cbn [fresh_sequence sq_phase Z.eqb].
      assert (Hshort : Z.of_nat (length p) < (7 + (Z.b2z (seq_extensible specs) + roms_count specs)) ≫ 3).
      { destruct Hd as (_ & Hroms & _). destruct (padded_octets_ok (preamble_bits specs t)) as [_ Hpad].
        pose proof (octets_of_pad8 _ _ Hpad) as Hlen. unfold octets_of, preamble_bits in Hlen.
        rewrite (length_app (if seq_extensible specs then _ else _)) in Hlen. fold (preamble_bits specs t) in Hlen.
        rewrite Hk, length_app in Hlen. rewrite shiftr_div by lia. change (2 ^ 3) with 8.
        destruct k; [done|]. cbn [length] in Hlen. rewrite Hroms.
        destruct (seq_extensible specs); cbn [Z.b2z length] in *; Z.div_mod_to_equations; lia. }
      zcase. split_and!; [done|lia|lia|]. change (Z.to_nat 0) with 0%nat. rewrite drop_0, <- Hbs.
      replace (padded_octets (preamble_bits specs t) ++ root_part specs Rs t) with (sequence_octets specs Rs As t)
        by (unfold sequence_octets, extension_part; by rewrite He, app_nil_r).
      by apply sequence_begin.
    + destruct (phase0_ok t ptr k Hd Hfresh) as (o & bits & Ho & Hbits & ->). rewrite He in Ho.
      edestruct (sequence_phase1_more t o 0 bits (fresh_slots _) k q) as (n & st & -> & Hn & Hl);
        [by apply dom_extension|done|exact Ho| |done|].
      { rewrite <- Hk. apply (left_begin _ o _ Rs 0); [by destruct Hd|exact Hbits]. }
      eexists _, st. split; [reflexivity|]. rewrite length_app. split; [lia|].
      rewrite Z2Nat.inj_add, Nat2Z.id by lia. by rewrite <- drop_drop, drop_app_length.
  - unfold SEQUENCE_decode_oer. cbn [default from_option id sq_phase sq_step sq_ptr sq_null sq_roots sq_additions Z.eqb Pos.eqb mbind option_bind].
    rewrite Hbs in Hl. destruct (sequence_phase1_more t o step bits ss p q 0 Hd He Ho Hl Hq) as (n & st & -> & Hn & Hl').
    rewrite Z.add_0_l. by exists n, st.
Qed.

Lemma sequence_done ptr t bs rest : sequence_left ptr t bs ->
  exists st, SEQUENCE_decode_oer specs ptr (bs ++ rest) = Some (RC_OK, Z.of_nat (length bs), st) /\ sequence_value specs st = t.
Proof.
  intros Hl. destruct Hl as [ptr t Hd He Hfresh|o step bits ss t bs Hd He Ho Hl]; [by apply sequence_whole|].
  unfold SEQUENCE_decode_oer. cbn [default from_option id sq_phase sq_step sq_ptr sq_null sq_roots sq_additions Z.eqb Pos.eqb mbind option_bind].
  assert (Hex : extension_part specs As t = []) by (unfold extension_part; by rewrite He).
  edestruct (phase1_ok t o ss bs) as (st & -> & Hv); [done|by rewrite He| | |].
  - exact Hl.
  - by rewrite Hex.
  - exists st. by rewrite Hex, app_nil_r.
Qed.
End Phases.

(** ** The contracts *)

Section Natural.
Context {S1 S2 : Type} {C1 : Consumer S1} {C2 : Consumer S2} (f : S1 -> S2) (Hf : consumer_morphism f).

(** The end of put_preamble and put_extension_map. *)
Lemma flushed_map (r1 : option (Z * asn_bit_outp S1)) (r2 : option (Z * asn_bit_outp S2)) : r2 = res_map f r1 ->
  ('(ret, po) ← r2; if ret <? 0 then Some (-1, po_key po) else
     '(_, po) ← asn_put_aligned_flush po; Some (po_flushed po, po_key po)) =
  '(r, key) ← ('(ret, po) ← r1; if ret <? 0 then Some (-1, po_key po) else
     '(_, po) ← asn_put_aligned_flush po; Some (po_flushed po, po_key po)); Some (r, f key).
Proof.
  intros ->. destruct r1 as [[ret po]|]; [|done]. cbn [res_map mbind option_bind]. destruct (ret <? 0); [done|].
  rewrite flush_map by done. by destruct (asn_put_aligned_flush po) as [[rc po']|].
Qed.

Lemma put_preamble_map specs e st key : put_preamble specs e st (f key) =
  '(r, key) ← put_preamble specs e st key; Some (r, f key).
Proof.
  unfold put_preamble. destruct (_ =? 0); [done|]. change (po_zero (f key)) with (po_map f (po_zero key)).
  set (r1 := if seq_extensible specs then per_put_few_bits (po_zero key) (Z.b2z e) 1 else Some (0, po_zero key)).
  assert (H1 : (if seq_extensible specs then per_put_few_bits (po_map f (po_zero key)) (Z.b2z e) 1
                else Some (0, po_map f (po_zero key))) = res_map f r1)
    by (unfold r1; pose proof (per_put_few_map f Hf); destruct (seq_extensible specs); natural).
  rewrite H1. destruct r1 as [[ret po]|]; [|done]. cbn [res_map mbind option_bind].
  destruct (negb (ret =? 0)); [done|]. apply flushed_map. destruct (negb _); [by apply put_optionals_map|done].
Qed.

Lemma put_extension_map_map specs st key : put_extension_map specs st (f key) =
  '(r, key) ← put_extension_map specs st key; Some (r, f key).
Proof.
  unfold put_extension_map. destruct (negb _); [done|]. change (po_zero (f key)) with (po_map f (po_zero key)).
  rewrite per_put_few_map by done. destruct (per_put_few_bits _ _ 8) as [[ret po]|]; [|done]. cbn [res_map mbind option_bind].
  destruct (ret <? 0); [done|]. rewrite per_put_few_map by done. destruct (per_put_few_bits po _ 8) as [[ret2 po2]|]; [|done].
  cbn [res_map mbind option_bind]. destruct (ret2 <? 0); [done|]. apply flushed_map. by apply put_addition_bits_map.
Qed.

Lemma put_root_members_map ms (Ls : members_oer_laws ms) n key fs : put_root_members ms n (f key) fs =
  '(r, key) ← put_root_members ms n key fs; Some (r, f key).
Proof.
  revert n key. induction ms as [|m ms IH]; intros n key; [done|]. destruct Ls as [[L SL] Ls], fs as [x fs].
  cbn [put_root_members]. destruct (memb_ptr m x) as [v|].
  - destruct (is_default m v); [by apply IH|]. rewrite (oer_enc_nat S1 S2 C1 C2 f Hf).
    destruct (oer_encoder S1 C1 v key) as [[e k]|]; [|done]. cbn [mbind option_bind]. destruct (e =? -1); [done|]. by apply IH.
  - destruct (negb _); [by apply IH|done].
Qed.

Lemma put_additions_map ms (Ls : members_oer_laws ms) n key fs : put_additions ms n (f key) fs =
  '(r, key) ← put_additions ms n key fs; Some (r, f key).
Proof.
  revert n key. induction ms as [|m ms IH]; intros n key; [done|]. destruct Ls as [[L SL] Ls], fs as [x fs].
  cbn [put_additions]. destruct (memb_ptr m x) as [v|].
  - destruct (is_default m v); [by apply IH|]. rewrite oer_open_put_map by done.
    destruct (oer_open_type_put v key) as [[e k]|]; [|done]. cbn [mbind option_bind]. destruct (e =? -1); [done|]. by apply IH.
  - destruct (negb _); [by apply IH|done].
Qed.

Lemma sequence_encode_oer_map specs (Rs : members_oer_laws (roots specs)) (As : members_oer_laws (additions specs)) st key :
  SEQUENCE_encode_oer specs st (f key) = '(r, key) ← SEQUENCE_encode_oer specs st key; Some (r, f key).
Proof.
  unfold SEQUENCE_encode_oer. rewrite put_preamble_map. destruct (put_preamble _ _ st key) as [[n1 k1]|]; [|done].
  cbn [mbind option_bind]. destruct (n1 <? 0); [done|]. rewrite (put_root_members_map _ Rs).
  destruct (put_root_members _ n1 k1 _) as [[n2 k2]|]; [|done]. cbn [mbind option_bind]. destruct (n2 =? -1); [done|].
  destruct (negb _); [done|]. rewrite put_extension_map_map. destruct (put_extension_map _ st k2) as [[n3 k3]|]; [|done].
  cbn [mbind option_bind]. destruct (n3 <? 0); [done|]. apply (put_additions_map _ As).
Qed.
End Natural.

Lemma members_octets_ok P octets ms (Ls : members_oer_laws ms) fs :
  (forall m (L : OerTypeLaws (elm_type m)) f, P m L f -> bytes_ok (octets m L f)) ->
  all_members P ms Ls fs -> bytes_ok (members_octets octets ms Ls fs).
Proof.
  intros Hok. induction ms as [|m ms IH]; intros Hd; [apply bytes_ok_nil|].
  destruct Ls as [[L SL] Ls], fs as [f fs], Hd as [Hm Hd]. cbn [members_octets]. apply bytes_ok_app; [by apply Hok|by apply IH].
Qed.

Lemma sequence_octets_ok specs (Rs : members_oer_laws (roots specs)) (As : members_oer_laws (additions specs)) t :
  sequence_oer_dom specs Rs As t -> bytes_ok (sequence_octets specs Rs As t).
Proof.
  intros (Hr & _ & _ & He). unfold sequence_octets, root_part, extension_part.
  apply bytes_ok_app; [apply padded_octets_ok|]. apply bytes_ok_app.
  - revert Hr. apply members_octets_ok. intros m L f. unfold oer_root_dom, oer_root_octets.
    destruct (memb_ptr m f) as [v|]; [|intros; apply bytes_ok_nil]. destruct (is_default m v); [intros; apply bytes_ok_nil|].
    apply oer_octets_ok.
  - destruct (extended specs t); [|apply bytes_ok_nil]. apply bytes_ok_app; [apply padded_octets_ok|].
    destruct He as [Hd _]. revert Hd. apply members_octets_ok. intros m L f. unfold oer_addition_dom, oer_addition_octets.
    destruct (memb_ptr m f) as [v|]; [|intros; apply bytes_ok_nil]. destruct (is_default m v); [intros; apply bytes_ok_nil|].
    intros [Hv Hmax]. apply bytes_ok_app; [|by apply oer_octets_ok]. apply oer_length_octets_ok.
    change RSIZE_MAX with 9223372036854775807 in Hmax. change (2 ^ 64) with 18446744073709551616. lia.
Qed.

(** A sequence keeps the contract its members keep; it is resumable as far as
    it stays away from extensions ([exts] allows them). *)
Definition sequence_oer_laws (exts : bool) specs (Rs : members_oer_laws (roots specs)) (As : members_oer_laws (additions specs)) :
  @OerTypeLaws (sequence_t specs) (SEQUENCE_oer specs).
Proof.
  refine (@Build_OerTypeLaws (sequence_t specs) (SEQUENCE_oer specs)
    (fun t => sequence_oer_dom specs Rs As t /\ (exts = false -> extended specs t = false))
    (sequence_octets specs Rs As) _ _ _ _).
  - intros t [Hd _]. by apply sequence_octets_ok.
  - intros S C A t key [Hd _]. by apply sequence_encode_oer_ok.
  - intros S1 S2 C1 C2 f Hf t key. by apply (sequence_encode_oer_map f Hf specs Rs As).
  - intros t rest [Hd _]. cbn [oer_decoder SEQUENCE_oer].
    destruct (sequence_whole specs Rs As t None rest Hd eq_refl) as (st & -> & Hv). cbn. by rewrite Hv.
Defined.

Definition sequence_stream_laws specs (Rs : members_oer_laws (roots specs)) (As : members_oer_laws (additions specs)) :
  @OerStreamLaws (sequence_t specs) (SEQUENCE_oer specs) (sequence_oer_laws false specs Rs As) (SEQUENCE_stream specs).
Proof.
  unshelve refine (@Build_OerStreamLaws (sequence_t specs) (SEQUENCE_oer specs) (sequence_oer_laws false specs Rs As)
    (SEQUENCE_stream specs) (sequence_left specs Rs As) _ _ _).
  - intros t [Hd He]. apply sequence_begin; [done|by apply He|done].
  - intros ptr t p q Hl Hq. cbn [oer_step SEQUENCE_stream].
    destruct (sequence_more specs Rs As ptr t p q Hl Hq) as (n & st & -> & Hn & Hl'). by exists n, (Some st).
  - intros ptr t bs rest Hl. cbn [oer_step SEQUENCE_stream].
    destruct (sequence_done specs Rs As ptr t bs rest Hl) as (st & -> & Hv). by exists st.
Defined.

(** ** Properties *)


(** The flags of ConstrSequence, the member a being TRUE and the addition d
    FALSE. *)
Definition flags_oer_value : sequence_t flags_specs :=
  (({| bool_int := 255 |}, (None, (Some {| bool_int := 1 |}, tt))), (Some {| bool_int := 0 |}, tt)).

Definition boolean_contract : { L : OerTypeLaws BOOLEAN_t & @OerStreamLaws BOOLEAN_t _ L (primitive_stream BOOLEAN_t) } :=
  existT boolean_oer_laws (primitive_stream_laws BOOLEAN_t (L := boolean_oer_laws)).

Definition flags_root_contracts : members_oer_laws (roots flags_specs) :=
  (boolean_contract, (boolean_contract, (boolean_contract, tt))).
Definition flags_addition_contracts : members_oer_laws (additions flags_specs) := (boolean_contract, tt).

Lemma flags_oer_dom : sequence_oer_dom flags_specs flags_root_contracts flags_addition_contracts flags_oer_value.
Proof.
  split; [|split; [done|split; [done|]]].
  - split; [by right|]. by split_and!.
  - change (extended flags_specs flags_oer_value) with true. cbn iota. split; [|done]. split; [|done]. split; [by left|done].
Qed.


(** ** What goes wrong *)

(** Code and octets used up of a decoder's call. *)
Definition verdict {specs} (r : option (asn_dec_rval_code * Z * sequence_struct specs)) : option (asn_dec_rval_code * Z) :=
  fst <$> r.

(** Eight optional members in an extensible sequence.  Reading the eighth
    presence bit moves the buffer pointer to the second octet of the preamble,
    and phase 2 takes that bit for the extension bit: a sequence with the
    eighth member and no extensions asks for more data, and one with an
    extension and without the eighth member ends in front of the bitmap. *)
Definition eight_specs : asn_SEQUENCE_specifics_t := {|
  roots := replicate 8 (boolean_member true 1 2 None); additions := [boolean_member true 1 6 None];
  seq_extensible := true; oms := [0; 1; 2; 3; 4; 5; 6; 7; 8]; roms_count := 8; aoms_count := 1 |}.

Definition eighth (root addition : option BOOLEAN_t) : sequence_t eight_specs :=
  ((None, (None, (None, (None, (None, (None, (None, (root, tt)))))))), (addition, tt)).

Example eighth_option_misread :
  snd <$> SEQUENCE_encode_oer eight_specs (eighth (Some {| bool_int := 255 |}) None) {| bb_bytes := [] |} =
    Some {| bb_bytes := [0; 128; 255] |} /\
  verdict (SEQUENCE_decode_oer eight_specs None [0; 128; 255]) = Some (RC_WMORE, 3) /\
  snd <$> SEQUENCE_encode_oer eight_specs (eighth None (Some {| bool_int := 0 |})) {| bb_bytes := [] |} =
    Some {| bb_bytes := [128; 0; 2; 7; 128; 1; 0] |} /\
  verdict (SEQUENCE_decode_oer eight_specs None [128; 0; 2; 7; 128; 1; 0]) = Some (RC_OK, 2).
Proof. split_and!; vm_compute; reflexivity. Qed.

(** The length of the additions' bitmap is used up when the bitmap is not there
    yet, and the next call takes the bitmap for a length. *)
Example bitmap_not_resumable :
  verdict (SEQUENCE_decode_oer flags_specs None [128; 255; 2; 7; 128; 1; 0]) = Some (RC_OK, 7) /\
  verdict (SEQUENCE_decode_oer flags_specs None [128; 255; 2]) = Some (RC_WMORE, 3) /\
  fst <$> oer_feed (H := SEQUENCE_stream flags_specs) [[128; 255; 2]; [7; 128; 1; 0]] None [] =
    Some (RC_WMORE, [128; 1; 0]).
Proof. split_and!; vm_compute; reflexivity. Qed.

(** An addition that has its default value is not encoded, and when no other
    addition is there the decoder does not fill it in. *)
Definition default_specs : asn_SEQUENCE_specifics_t := {|
  roots := []; additions := [boolean_member true 1 2 (Some {| bool_int := 1 |})];
  seq_extensible := true; oms := [0]; roms_count := 0; aoms_count := 1 |}.

Example addition_default_lost :
  snd <$> SEQUENCE_encode_oer default_specs (tt, (Some {| bool_int := 1 |}, tt)) {| bb_bytes := [] |} =
    Some {| bb_bytes := [0] |} /\
  (sequence_value default_specs ∘ snd) <$> SEQUENCE_decode_oer default_specs None [0] = Some (tt, (None, tt)).
Proof. split_and!; vm_compute; reflexivity. Qed.
