(* ===== verification/ObjectIdentifier.v ===== *)
(** * Object identifiers (support/OBJECT_IDENTIFIER.c, support/RELATIVE-OID.c)

    An OBJECT IDENTIFIER holds the octets of its arcs, seven bits in each, the
    first two arcs in one number.  This file has the conversion between arcs
    and octets, and the text, arcs in decimal with dots between them: printing
    and the state machine that reads it.  Characters are their codes; a
    decimal number is read by asn_strtoul_lim. *)
From S2P Require Import Prelude Consumer BitData AsnInteger IntegerXer.

(** ** Arcs *)

(** (uint32_t)~0 *)
Definition ASN_OID_ARC_MAX : Z := u32 (Z.lnot 0).

(** The loop of OBJECT_IDENTIFIER_get_single_arc, [n] octets into the buffer;
    return value and [*ret_value]. *)
Fixpoint gather_arc (b : list Z) (n accum : Z) : Z * option Z :=
  match b with
  | [] => (-1, None)
  | oct :: b =>
    let accum := Z.lor (u32 (accum ≪ 7)) (Z.land oct (Z.lnot 128)) in
    if Z.land oct 128 =? 0 then
      if accum <=? ASN_OID_ARC_MAX then (1 + n, Some accum) else (-1, None)
    else gather_arc b (n + 1) accum
  end.

Definition OBJECT_IDENTIFIER_get_single_arc (arcbuf : list Z) : Z * option Z :=
  match arcbuf with
  | [] => (0, None)
  | _ => gather_arc arcbuf 0 0
  end.

(** Return value and both arcs. *)
Definition OBJECT_IDENTIFIER_get_first_arcs (arcbuf : list Z) : Z * option (Z * Z) :=
  let '(rd, value) := OBJECT_IDENTIFIER_get_single_arc arcbuf in
  (rd, value ← value;
       Some (if 80 <=? value then (2, value - 80) else if 40 <=? value then (1, value - 40) else (0, value))).

(** The loop over the arcs behind offset [off]: return value and the arcs that
    were stored, in the order of their slots. *)
Fixpoint get_arcs_loop (fuel : nat) (buf : list Z) (arc_slots num_arcs : Z) (arcs : list Z) : option (Z * list Z) :=
  match fuel with
  | O => None
  | S fuel =>
    let '(rd, arc) := OBJECT_IDENTIFIER_get_single_arc buf in
    if rd <? 0 then Some (-1, arcs)
    else if rd =? 0 then Some (if negb (bool_decide (buf = [])) then -1 else num_arcs, arcs)
    else
      arc ← arc;
      get_arcs_loop fuel (drop (Z.to_nat rd) buf) arc_slots (num_arcs + 1)
        (if num_arcs <? arc_slots then arcs ++ [arc] else arcs)
  end.

(** [buf] is null or the octets. *)
Definition OBJECT_IDENTIFIER_get_arcs (buf : option (list Z)) (arc_slots : Z) : option (Z * list Z) :=
  match buf with
  | None => Some (-1, [])
  | Some buf =>
    let '(rd, first) := OBJECT_IDENTIFIER_get_first_arcs buf in
    if rd <=? 0 then Some (-1, []) else
    '(arc0, arc1) ← first;
    get_arcs_loop (S (length buf)) (drop (Z.to_nat rd) buf) arc_slots 2 (take (Z.to_nat arc_slots) [arc0; arc1])
  end.

Definition RELATIVE_OID_get_arcs (buf : option (list Z)) (arcs_count : Z) : option (Z * list Z) :=
  match buf with
  | None => Some (-1, [])
  | Some buf => get_arcs_loop (S (length buf)) buf arcs_count 0 []
  end.

(** The octets from the last one backwards, in front of [acc]; [scratch] has
    five octets. *)
Fixpoint scratch_loop (fuel : nat) (mask value : Z) (acc : list Z) : list Z :=
  match fuel with
  | O => acc
  | S fuel =>
    let acc := Z.lor mask (Z.land value 127) :: acc in
    let value := value ≫ 7 in
    if value =? 0 then acc else scratch_loop fuel 128 value acc
  end.

(** Return value and what is written to [arcbuf]. *)
Definition OBJECT_IDENTIFIER_set_single_arc (arcbuf_len value : Z) : Z * list Z :=
  let octets := scratch_loop 5 0 value [] in
  if arcbuf_len <? Z.of_nat (length octets) then (-1, []) else (Z.of_nat (length octets), octets).

(** One arc after the other into a buffer with [size] octets left; [None] when
    one did not fit. *)
Fixpoint set_arcs_loop (arcs : list Z) (size : Z) (buf : list Z) : option (list Z) :=
  match arcs with
  | [] => Some buf
  | arc :: arcs =>
    let '(wrote, octets) := OBJECT_IDENTIFIER_set_single_arc size arc in
    if wrote <=? 0 then None else set_arcs_loop arcs (size - wrote) (buf ++ octets)
  end.

(** Room for the arcs: ((sizeof(asn_oid_arc_t) * CHAR_BIT + 6) / 7) * arc_slots. *)
Definition arcs_room (arcs : list Z) : Z := (4 * 8 + 6) / 7 * Z.of_nat (length arcs).

(** The new octets, or [None] for the return of -1, which leaves the old. *)
Definition OBJECT_IDENTIFIER_set_arcs (arcs : list Z) : option (list Z) :=
  match arcs with
  | arc0 :: arc1 :: rest =>
    if arc0 <=? 1 then
      if 40 <=? arc1 then None else set_arcs_loop (u32 (arc0 * 40 + arc1) :: rest) (arcs_room arcs) []
    else if arc0 =? 2 then
      if ASN_OID_ARC_MAX - 80 <? arc1 then None else set_arcs_loop (u32 (arc0 * 40 + arc1) :: rest) (arcs_room arcs) []
    else None
  | _ => None
  end.

Definition RELATIVE_OID_set_arcs (arcs : list Z) : option (list Z) := set_arcs_loop arcs (arcs_room arcs) [].

(** ** Text *)

Section Dump.
Context {K : Type} `{Consumer K}.

(** One snprintf into 32 characters and the callback: its characters or -1. *)
Definition put_scratch (text : list Z) (key : K) : Z * K :=
  let ret := Z.of_nat (length text) in
  if 32 <=? ret then (-1, key) else
  let '(rc, key) := consume text key in
  (if rc <? 0 then -1 else ret, key).

(** The arcs behind [off] octets, each with a dot in front unless it is the
    first of a RELATIVE-OID. *)
Fixpoint dump_loop (fuel : nat) (buf : list Z) (off produced : Z) (key : K) : option (Z * K) :=
  match fuel with
  | O => None
  | S fuel =>
    let '(rd, arc) := OBJECT_IDENTIFIER_get_single_arc buf in
    if rd <? 0 then Some (-1, key)
    else if rd =? 0 then Some (if negb (bool_decide (buf = [])) then -1 else produced, key)
    else
      arc ← arc;
      let '(ret, key) := put_scratch ((if off =? 0 then [] else [46]) ++ decimal arc) key in
      if ret <? 0 then Some (-1, key)
      else dump_loop fuel (drop (Z.to_nat rd) buf) (off + rd) (produced + ret) key
  end.

Definition OBJECT_IDENTIFIER__dump_body (buf : list Z) (key : K) : option (Z * K) :=
  let '(rd, first) := OBJECT_IDENTIFIER_get_first_arcs buf in
  if rd <=? 0 then Some (-1, key) else
  '(arc0, arc1) ← first;
  let '(ret, key) := put_scratch (decimal arc0 ++ [46] ++ decimal arc1) key in
  if ret <? 0 then Some (-1, key) else dump_loop (S (length buf)) (drop (Z.to_nat rd) buf) rd ret key.

Definition RELATIVE_OID__dump_body (buf : list Z) (key : K) : option (Z * K) := dump_loop (S (length buf)) buf 0 0 key.
End Dump.

Inductive oid_state := ST_LEADSPACE | ST_TAILSPACE | ST_AFTERVALUE | ST_WAITDIGITS.
#[export] Instance oid_state_eq_dec : EqDecision oid_state.
Proof. solve_decision. Defined.

Definition is_whitespace (c : Z) : bool := (c =? 9) || (c =? 10) || (c =? 13) || (c =? 32).

(** Behind the loop: return value by the state it was left in. *)
Definition parse_finish (state : oid_state) (num_arcs : Z) : Z :=
  match state with
  | ST_LEADSPACE => 0
  | ST_WAITDIGITS => -1
  | ST_AFTERVALUE | ST_TAILSPACE => num_arcs
  end.

(** The loop at position [pos]: return value, the arcs stored in [arcs_count]
    slots, and where the text was left. *)
Fixpoint parse_arcs_loop (fuel : nat) (s : list Z) (pos : Z) (state : oid_state) (arcs_count num_arcs : Z)
    (arcs : list Z) : option (Z * list Z * Z) :=
  match fuel with
  | O => None
  | S fuel =>
    match s with
    | [] => Some (parse_finish state num_arcs, arcs, pos)
    | c :: r =>
      if is_whitespace c then
        match state with
        | ST_LEADSPACE | ST_TAILSPACE => parse_arcs_loop fuel r (pos + 1) state arcs_count num_arcs arcs
        | ST_AFTERVALUE => parse_arcs_loop fuel r (pos + 1) ST_TAILSPACE arcs_count num_arcs arcs
        | ST_WAITDIGITS => Some (parse_finish ST_WAITDIGITS num_arcs, arcs, pos)
        end
      else if c =? 46 then
        if decide (state = ST_AFTERVALUE) then parse_arcs_loop fuel r (pos + 1) ST_WAITDIGITS arcs_count num_arcs arcs
        else Some (-1, arcs, pos)
      else if is_digit c then
        match state with
        | ST_TAILSPACE | ST_AFTERVALUE => Some (-1, arcs, pos)
        | ST_LEADSPACE | ST_WAITDIGITS =>
          match asn_strtoul_lim s with
          | (ASN_STRTOX_EXTRA_DATA, endp, Some value) | (ASN_STRTOX_OK, endp, Some value) =>
            if value <=? ASN_OID_ARC_MAX then
              parse_arcs_loop fuel (drop (Z.to_nat endp) s) (pos + endp) ST_AFTERVALUE arcs_count (num_arcs + 1)
                (if num_arcs <? arcs_count then arcs ++ [value] else arcs)
            else Some (-1, arcs, pos)
          | _ => Some (-1, arcs, pos)
          end
        end
      else Some (parse_finish ST_WAITDIGITS num_arcs, arcs, pos)
    end
  end.

(** With a text and its length, and slots for [arcs_count] arcs. *)
Definition OBJECT_IDENTIFIER_parse_arcs (oid_text : list Z) (arcs_count : Z) : option (Z * list Z * Z) :=
  parse_arcs_loop (S (length oid_text)) oid_text 0 ST_LEADSPACE arcs_count 0 [].

(** Both body decoders, with the conversion and the slots on the stack: the
    verdict and the octets of the structure. *)
Definition oid_body_decode (set_arcs : list Z -> option (list Z)) (slots : Z) (st : option (list Z)) (chunk_buf : list Z) :
    option (xer_pbd_rval * option (list Z)) :=
  '(num_arcs, arcs, endptr) ← OBJECT_IDENTIFIER_parse_arcs chunk_buf slots;
  if num_arcs <? 0 then Some (XPBD_BROKEN_ENCODING, st)
  else if num_arcs =? 0 then Some (XPBD_NOT_BODY_IGNORE, st)
  else if negb (endptr =? Z.of_nat (length chunk_buf)) then None
  else
    '(ok, arcs) ← (if slots <? num_arcs
                   then '(ret, arcs, _) ← OBJECT_IDENTIFIER_parse_arcs chunk_buf num_arcs; Some (ret =? num_arcs, arcs)
                   else Some (true, arcs));
    if negb ok then Some (XPBD_SYSTEM_FAILURE, st) else
    Some (match set_arcs arcs with
          | Some buf => (XPBD_BODY_CONSUMED, Some buf)
          | None => (XPBD_SYSTEM_FAILURE, st)
          end).

Definition OBJECT_IDENTIFIER__xer_body_decode := oid_body_decode OBJECT_IDENTIFIER_set_arcs 10.
Definition RELATIVE_OID__xer_body_decode := oid_body_decode RELATIVE_OID_set_arcs 6.

(** ** Lemmas: arcs *)

Lemma arc_octet c : 0 <= c < 128 -> Z.land (128 + c) (Z.lnot 128) = c /\ Z.land (128 + c) 128 = 128 /\
  Z.land c (Z.lnot 128) = c /\ Z.land c 128 = 0 /\ Z.lor 128 c = 128 + c.
Proof.
  intros Hc. assert (Hall : Forall (fun c => Z.land (128 + c) (Z.lnot 128) = c /\ Z.land (128 + c) 128 = 128 /\
    Z.land c (Z.lnot 128) = c /\ Z.land c 128 = 0 /\ Z.lor 128 c = 128 + c) (seqZ 0 128)).
  { vm_compute. repeat constructor. }
  rewrite Forall_forall in Hall. apply Hall. apply elem_of_seqZ. lia.
Qed.

(** The groups in front of the last one, each with the top bit. *)
Fixpoint continued (fuel : nat) (v : Z) : list Z :=
  match fuel with
  | O => []
  | S fuel => if v =? 0 then [] else continued fuel (v / 128) ++ [128 + v mod 128]
  end.

(** The octets of an arc. *)
Definition arc_octets (v : Z) : list Z := continued 5 (v / 128) ++ [v mod 128].

Lemma scratch_loop_ok fuel mask v acc : (0 < fuel)%nat -> 0 <= v < 128 ^ Z.of_nat fuel ->
  scratch_loop fuel mask v acc = continued fuel (v / 128) ++ Z.lor mask (v mod 128) :: acc.
Proof.
  revert mask v acc. induction fuel as [|fuel IH]; intros mask v acc Hf Hv; [lia|].
  rewrite Nat2Z.inj_succ, Z.pow_succ_r in Hv by lia. cbn [scratch_loop continued].
  rewrite land_127, shiftr_div by lia. change (2 ^ 7) with 128.
  destruct (Z.eqb_spec (v / 128) 0) as [E|E]; [done|]. destruct fuel as [|fuel].
  { change (128 ^ Z.of_nat 0) with 1 in Hv. exfalso. apply E. Z.div_mod_to_equations; lia. }
  rewrite IH by (try lia; Z.div_mod_to_equations; lia). rewrite <- app_assoc. cbn [app].
  do 2 f_equal. apply arc_octet. Z.div_mod_to_equations; lia.
Qed.

Lemma gather_continued fuel v l n : 0 <= v < 128 ^ Z.of_nat fuel -> v < 2 ^ 25 ->
  gather_arc (continued fuel v ++ l) n 0 = gather_arc l (n + Z.of_nat (length (continued fuel v))) v.
Proof.
  revert v l n. induction fuel as [|fuel IH]; intros v l n Hv H25.
  { change (128 ^ Z.of_nat 0) with 1 in Hv. replace v with 0 by lia. cbn. by rewrite Z.add_0_r. }
  rewrite Nat2Z.inj_succ, Z.pow_succ_r in Hv by lia. change (2 ^ 25) with 33554432 in H25. cbn [continued].
  destruct (Z.eqb_spec v 0) as [->|E]; [cbn; by rewrite Z.add_0_r|].
  rewrite <- app_assoc, IH by (change (2 ^ 25) with 33554432; Z.div_mod_to_equations; lia). cbn [app gather_arc].
  destruct (arc_octet (v mod 128)) as (-> & -> & _); [Z.div_mod_to_equations; lia|]. cbn [Z.eqb Pos.eqb].
  rewrite length_app, Nat2Z.inj_add, Z.add_assoc. f_equal. unfold u32. change (2 ^ 32) with 4294967296.
  rewrite Z.mod_small by (rewrite shiftl_mul by lia; change (2 ^ 7) with 128; Z.div_mod_to_equations; lia).
  rewrite lor_shiftl_add by (change (2 ^ 7) with 128; Z.div_mod_to_equations; lia). change (2 ^ 7) with 128.
  Z.div_mod_to_equations; lia.
Qed.

Definition arc_ok (v : Z) : Prop := 0 <= v <= ASN_OID_ARC_MAX.

Lemma arc_range v : arc_ok v -> 0 <= v < 4294967296.
Proof. unfold arc_ok. change ASN_OID_ARC_MAX with 4294967295. lia. Qed.

Lemma length_continued fuel v : (length (continued fuel v) <= fuel)%nat.
Proof.
  revert v. induction fuel as [|fuel IH]; intros v; [done|]. cbn [continued]. destruct (v =? 0); [cbn; lia|].
  rewrite length_app. specialize (IH (v / 128)). cbn. lia.
Qed.

Lemma length_arc_octets v : arc_ok v -> (1 <= length (arc_octets v) <= 5)%nat.
Proof.
  intros Hv%arc_range. unfold arc_octets. rewrite length_app. cbn [length].
  assert (H4 : (length (continued 5 (v / 128)) <= 4)%nat); [|lia].
  assert (Hsmall : forall fuel x, 0 <= x < 128 ^ Z.of_nat fuel -> continued (S fuel) x = continued fuel x).
  { induction fuel as [|fuel IH]; intros x Hx.
    - change (128 ^ Z.of_nat 0) with 1 in Hx. by replace x with 0 by lia.
    - rewrite Nat2Z.inj_succ, Z.pow_succ_r in Hx by lia. change (continued (S (S fuel)) x) with
        (if x =? 0 then [] else continued (S fuel) (x / 128) ++ [128 + x mod 128]).
      rewrite IH by (Z.div_mod_to_equations; lia). done. }
  rewrite Hsmall; [apply length_continued|]. change (128 ^ Z.of_nat 4) with 268435456. Z.div_mod_to_equations; lia.
Qed.

Lemma set_single_arc_ok size v : arc_ok v -> 5 <= size ->
  OBJECT_IDENTIFIER_set_single_arc size v = (Z.of_nat (length (arc_octets v)), arc_octets v).
Proof.
  intros Hv Hs. pose proof (length_arc_octets v Hv). apply arc_range in Hv. unfold OBJECT_IDENTIFIER_set_single_arc.
  rewrite scratch_loop_ok; [|lia|change (128 ^ Z.of_nat 5) with 34359738368; lia]. rewrite Z.lor_0_l.
  fold (arc_octets v). zcase. done.
Qed.

Lemma get_single_arc_ok v rest : arc_ok v ->
  OBJECT_IDENTIFIER_get_single_arc (arc_octets v ++ rest) = (Z.of_nat (length (arc_octets v)), Some v).
Proof.
  intros Hv%arc_range. unfold OBJECT_IDENTIFIER_get_single_arc.
  assert (Hg : gather_arc (arc_octets v ++ rest) 0 0 = (Z.of_nat (length (arc_octets v)), Some v)).
  { unfold arc_octets. rewrite <- app_assoc, gather_continued.
    2: change (128 ^ Z.of_nat 5) with 34359738368; Z.div_mod_to_equations; lia.
    2: change (2 ^ 25) with 33554432; Z.div_mod_to_equations; lia.
    cbn [app gather_arc]. destruct (arc_octet (v mod 128)) as (_ & _ & -> & -> & _); [Z.div_mod_to_equations; lia|].
    cbn [Z.eqb].
    assert (Hval : Z.lor (u32 ((v / 128) ≪ 7)) (v mod 128) = v).
    { unfold u32. change (2 ^ 32) with 4294967296.
      rewrite Z.mod_small by (rewrite shiftl_mul by lia; change (2 ^ 7) with 128; Z.div_mod_to_equations; lia).
      rewrite lor_shiftl_add by (change (2 ^ 7) with 128; Z.div_mod_to_equations; lia). change (2 ^ 7) with 128.
      Z.div_mod_to_equations; lia. }
    rewrite Hval. change ASN_OID_ARC_MAX with 4294967295. zcase. f_equal. rewrite length_app. cbn [length]. lia. }
  rewrite <- Hg. unfold arc_octets. by destruct (continued _ _).
Qed.

(** ** Lemmas: all arcs *)

Definition arcs_octets (arcs : list Z) : list Z := arcs ≫= arc_octets.

Lemma set_arcs_loop_ok arcs size buf : Forall arc_ok arcs -> 5 * Z.of_nat (length arcs) <= size ->
  set_arcs_loop arcs size buf = Some (buf ++ arcs_octets arcs).
Proof.
  intros Hall. revert size buf. induction Hall as [|v arcs Hv Hall IH]; intros size buf Hs; cbn [set_arcs_loop].
  { by rewrite app_nil_r. }
  cbn [length] in Hs. rewrite set_single_arc_ok by (done || lia). pose proof (length_arc_octets v Hv). zcase.
  rewrite IH by lia. by rewrite <- app_assoc.
Qed.

Lemma get_arcs_loop_ok fuel arcs slots n acc : Forall arc_ok arcs -> (length arcs < fuel)%nat ->
  n + Z.of_nat (length arcs) <= slots ->
  get_arcs_loop fuel (arcs_octets arcs) slots n acc = Some (n + Z.of_nat (length arcs), acc ++ arcs).
Proof.
  intros Hall. revert fuel n acc. induction Hall as [|v arcs Hv Hall IH]; intros fuel n acc Hf Hs.
  { destruct fuel; [lia|]. cbn. by rewrite Z.add_0_r, app_nil_r. }
  destruct fuel as [|fuel]; [lia|]. cbn [get_arcs_loop length] in *. change (arcs_octets (v :: arcs)) with (arc_octets v ++ arcs_octets arcs).
  rewrite get_single_arc_ok by done. pose proof (length_arc_octets v Hv). zcases. cbn [mbind option_bind].
  rewrite Nat2Z.id, drop_app_length, IH by lia. rewrite <- app_assoc. do 2 f_equal. lia.
Qed.

Lemma length_arcs_octets arcs : Forall arc_ok arcs -> (length arcs <= length (arcs_octets arcs))%nat.
Proof.
  induction 1 as [|v arcs Hv Hall IH]; [done|]. change (arcs_octets (v :: arcs)) with (arc_octets v ++ arcs_octets arcs).
  rewrite length_app. pose proof (length_arc_octets v Hv). cbn [length]. lia.
Qed.

(** What OBJECT_IDENTIFIER_set_arcs accepts. *)
Definition oid_ok (arcs : list Z) : Prop :=
  Forall arc_ok arcs /\
  exists arc0 arc1 rest, arcs = arc0 :: arc1 :: rest /\
    (arc0 <= 1 /\ arc1 < 40 \/ arc0 = 2 /\ arc1 <= ASN_OID_ARC_MAX - 80).

(** The octets of an object identifier. *)
Definition oid_octets (arcs : list Z) : list Z :=
  match arcs with arc0 :: arc1 :: rest => arcs_octets (arc0 * 40 + arc1 :: rest) | _ => [] end.

Lemma oid_first arc0 arc1 rest : oid_ok (arc0 :: arc1 :: rest) ->
  arc_ok (arc0 * 40 + arc1) /\ u32 (arc0 * 40 + arc1) = arc0 * 40 + arc1 /\ Forall arc_ok rest /\
  (if 80 <=? arc0 * 40 + arc1 then (2, arc0 * 40 + arc1 - 80)
   else if 40 <=? arc0 * 40 + arc1 then (1, arc0 * 40 + arc1 - 40) else (0, arc0 * 40 + arc1)) = (arc0, arc1).
Proof.
  intros [Hall (a & b & r & [= <- <- <-] & Hcase)]. apply Forall_cons in Hall as [Ha Hall]. apply Forall_cons in Hall as [Hb Hall].
  unfold arc_ok in *. change ASN_OID_ARC_MAX with 4294967295 in *. unfold u32. change (2 ^ 32) with 4294967296.
  rewrite Z.mod_small by lia. split_and!; [lia|lia|done|done|]. zcases; f_equal; lia.
Qed.

Lemma oid_set_ok arcs : oid_ok arcs -> OBJECT_IDENTIFIER_set_arcs arcs = Some (oid_octets arcs).
Proof.
  intros Hok. pose proof Hok as [_ (arc0 & arc1 & rest & -> & Hcase)].
  destruct (oid_first _ _ _ Hok) as (H01 & Hu & Hrest & _). unfold OBJECT_IDENTIFIER_set_arcs. rewrite Hu.
  assert (Hset : set_arcs_loop (arc0 * 40 + arc1 :: rest) (arcs_room (arc0 :: arc1 :: rest)) [] =
    Some ([] ++ arcs_octets (arc0 * 40 + arc1 :: rest))).
  { apply set_arcs_loop_ok; [by constructor|]. unfold arcs_room. change ((4 * 8 + 6) / 7) with 5. cbn [length]. lia. }
  destruct Hcase as [[H0 H1]|[-> H1]].
  - by zcases.
  - change (2 <=? 1) with false. change (2 =? 2) with true. cbn iota. by zcase.
Qed.

Lemma oid_first_get arcs : oid_ok arcs -> exists arc0 arc1 rest n, arcs = arc0 :: arc1 :: rest /\ Forall arc_ok rest /\
  OBJECT_IDENTIFIER_get_first_arcs (oid_octets arcs) = (n, Some (arc0, arc1)) /\ 0 < n /\
  drop (Z.to_nat n) (oid_octets arcs) = arcs_octets rest /\ (length rest < length (oid_octets arcs))%nat.
Proof.
  intros Hok. pose proof Hok as [_ (arc0 & arc1 & rest & -> & _)].
  destruct (oid_first _ _ _ Hok) as (H01 & _ & Hrest & Hsplit). exists arc0, arc1, rest.
  pose proof (length_arc_octets _ H01). pose proof (length_arcs_octets _ Hrest).
  exists (Z.of_nat (length (arc_octets (arc0 * 40 + arc1)))).
  change (oid_octets (arc0 :: arc1 :: rest)) with (arc_octets (arc0 * 40 + arc1) ++ arcs_octets rest).
  unfold OBJECT_IDENTIFIER_get_first_arcs. rewrite get_single_arc_ok by done. cbn [mbind option_bind].
  rewrite Hsplit, Nat2Z.id, drop_app_length, length_app. split_and!; [done|done|done|lia|done|lia].
Qed.

Lemma oid_get_ok arcs slots : oid_ok arcs -> Z.of_nat (length arcs) <= slots ->
  OBJECT_IDENTIFIER_get_arcs (Some (oid_octets arcs)) slots = Some (Z.of_nat (length arcs), arcs).
Proof.
  intros Hok Hs. destruct (oid_first_get arcs Hok) as (arc0 & arc1 & rest & n & -> & Hrest & Hf & Hn & Hd & Hlen).
  unfold OBJECT_IDENTIFIER_get_arcs. rewrite Hf. zcase. cbn [mbind option_bind length] in *.
  rewrite Hd, take_ge by (cbn; lia). rewrite get_arcs_loop_ok by (done || lia). cbn [app]. do 2 f_equal. lia.
Qed.

(** ** Lemmas: text *)

Lemma length_digits fuel k v acc : 0 <= v < 10 ^ Z.of_nat k -> (1 <= k <= fuel)%nat ->
  (1 <= length (digits fuel v acc) - length acc <= k)%nat /\ (length acc <= length (digits fuel v acc))%nat.
Proof.
  revert k v acc. induction fuel as [|fuel IH]; intros k v acc Hv Hk; [lia|]. cbn [digits].
  destruct (Z.eqb_spec (v / 10) 0) as [E|E]; [cbn [length]; lia|]. destruct k as [|[|k]]; [lia| |].
  { change (10 ^ Z.of_nat 1) with 10 in Hv. exfalso. apply E. Z.div_mod_to_equations; lia. }
  rewrite Nat2Z.inj_succ, Z.pow_succ_r in Hv by lia.
  destruct (IH (S k) (v / 10) ((48 + v mod 10) :: acc)) as [H1 H2]; [Z.div_mod_to_equations; lia|lia|].
  cbn [length] in *. lia.
Qed.

(** An arc in decimal: one to ten digits. *)
Lemma decimal_arc v : arc_ok v -> (1 <= length (decimal v) <= 10)%nat /\
  Forall (fun c => is_digit c = true) (decimal v) /\ dec_val (decimal v) 0 = v.
Proof.
  intros Hv%arc_range. unfold decimal. destruct (Z.ltb_spec v 0); [lia|]. split.
  - destruct (length_digits 20 10 v []) as [Hl _]; [change (10 ^ Z.of_nat 10) with 10000000000; lia|lia|]. cbn [length] in Hl. lia.
  - destruct (digits_ok 20 v []) as [Hd Hall]; [change (10 ^ Z.of_nat 20) with 100000000000000000000; lia|done|]. done.
Qed.

(** The arcs behind the first one, and the whole text. *)
Definition dots (arcs : list Z) : list Z := arcs ≫= fun v => 46 :: decimal v.
Definition dotted (arcs : list Z) : list Z := match arcs with [] => [] | v :: rest => decimal v ++ dots rest end.

Lemma put_scratch_ok {K} `{AppendConsumer K} text (key : K) : (length text < 32)%nat ->
  exists key', put_scratch text key = (Z.of_nat (length text), key') /\ written key' = written key ++ text.
Proof.
  intros Hl. unfold put_scratch. zcase. destruct (consume_append text key) as (key' & -> & Hw). by exists key'.
Qed.

Lemma dump_loop_ok {K} `{AppendConsumer K} fuel arcs off n (key : K) : Forall arc_ok arcs -> (length arcs < fuel)%nat ->
  0 < off -> 0 <= n ->
  exists key', dump_loop fuel (arcs_octets arcs) off n key = Some (n + Z.of_nat (length (dots arcs)), key') /\
    written key' = written key ++ dots arcs.
Proof.
  intros Hall. revert fuel off n key. induction Hall as [|v arcs Hv Hall IH]; intros fuel off n key Hf Ho Hn.
  { destruct fuel; [lia|]. exists key. cbn. by rewrite Z.add_0_r, app_nil_r. }
  destruct fuel as [|fuel]; [lia|]. cbn [dump_loop length] in *.
  change (arcs_octets (v :: arcs)) with (arc_octets v ++ arcs_octets arcs).
  rewrite get_single_arc_ok by done. pose proof (length_arc_octets v Hv). zcases. cbn [mbind option_bind].
  destruct (decimal_arc v Hv) as (Hl & _). destruct (put_scratch_ok ([46] ++ decimal v) key) as (k1 & -> & Hw1); [cbn; lia|].
  zcase. rewrite Nat2Z.id, drop_app_length.
  destruct (IH fuel (off + Z.of_nat (length (arc_octets v))) (n + Z.of_nat (length ([46] ++ decimal v))) k1)
    as (k2 & -> & Hw2); [lia..|].
  exists k2. change (dots (v :: arcs)) with (([46] ++ decimal v) ++ dots arcs). rewrite Hw2, Hw1, (length_app (_ ++ _)), <- app_assoc.
  split; [do 2 f_equal; lia|done].
Qed.

Lemma oid_dump_ok {K} `{AppendConsumer K} arcs (key : K) : oid_ok arcs ->
  exists key', OBJECT_IDENTIFIER__dump_body (oid_octets arcs) key = Some (Z.of_nat (length (dotted arcs)), key') /\
    written key' = written key ++ dotted arcs.
Proof.
  intros Hok. destruct (oid_first_get arcs Hok) as (arc0 & arc1 & rest & n & -> & Hrest & Hf & Hn & Hd & Hlen).
  unfold OBJECT_IDENTIFIER__dump_body. rewrite Hf. zcase. cbn [mbind option_bind].
  destruct Hok as [Hall _]. apply Forall_cons in Hall as [Ha Hall]. apply Forall_cons in Hall as [Hb _].
  destruct (decimal_arc arc0 Ha) as (Hl0 & _), (decimal_arc arc1 Hb) as (Hl1 & _).
  assert (Hdots : dotted (arc0 :: arc1 :: rest) = (decimal arc0 ++ [46] ++ decimal arc1) ++ dots rest)
    by (cbn [dotted]; rewrite <- app_assoc; reflexivity).
  destruct (put_scratch_ok (decimal arc0 ++ [46] ++ decimal arc1) key) as (k1 & -> & Hw1); [rewrite !length_app; cbn; lia|].
  zcase. rewrite Hd. destruct (dump_loop_ok (S (length (oid_octets (arc0 :: arc1 :: rest)))) rest n
    (Z.of_nat (length (decimal arc0 ++ [46] ++ decimal arc1))) k1) as (k2 & -> & Hw2); [done|lia..|].
  exists k2. rewrite Hdots, Hw2, Hw1, (length_app (_ ++ _)), <- app_assoc. split; [do 2 f_equal; lia|done].
Qed.

Lemma relative_dump_ok {K} `{AppendConsumer K} arcs (key : K) : Forall arc_ok arcs ->
  exists key', RELATIVE_OID__dump_body (arcs_octets arcs) key = Some (Z.of_nat (length (dotted arcs)), key') /\
    written key' = written key ++ dotted arcs.
Proof.
  intros Hall. unfold RELATIVE_OID__dump_body. destruct Hall as [|v arcs Hv Hall].
  { exists key. cbn. by rewrite app_nil_r. }
  pose proof (length_arc_octets v Hv). pose proof (length_arcs_octets arcs Hall).
  change (arcs_octets (v :: arcs)) with (arc_octets v ++ arcs_octets arcs). cbn [dump_loop].
  rewrite get_single_arc_ok by done. zcases. cbn [mbind option_bind Z.eqb app].
  destruct (decimal_arc v Hv) as (Hl & _). destruct (put_scratch_ok (decimal v) key) as (k1 & -> & Hw1); [lia|].
  zcase. rewrite Nat2Z.id, drop_app_length, length_app.
  destruct (dump_loop_ok (length (arc_octets v) + length (arcs_octets arcs)) arcs (0 + Z.of_nat (length (arc_octets v)))
    (0 + Z.of_nat (length (decimal v))) k1) as (k2 & -> & Hw2); [done|lia..|].
  exists k2. cbn [dotted]. rewrite Hw2, Hw1, length_app, <- app_assoc. split; [do 2 f_equal; lia|done].
Qed.

(** A number in the text and what follows it. *)
Definition ends_number (tail : list Z) : Prop := match tail with [] => True | c :: _ => is_digit c = false end.

Lemma span_number ds tail : Forall (fun c => is_digit c = true) ds -> ends_number tail -> span_digits (ds ++ tail) = (ds, tail).
Proof.
  induction 1 as [|c ds Hc _ IH]; intros Ht; cbn [app].
  - destruct tail as [|c tail]; [done|]. cbn [span_digits]. cbn in Ht. by rewrite Ht.
  - cbn [span_digits]. by rewrite Hc, IH.
Qed.

Lemma strtoul_arc v tail : arc_ok v -> ends_number tail ->
  asn_strtoul_lim (decimal v ++ tail) =
    (match tail with [] => ASN_STRTOX_OK | _ => ASN_STRTOX_EXTRA_DATA end, Z.of_nat (length (decimal v)), Some v).
Proof.
  intros Hv Ht. destruct (decimal_arc v Hv) as (Hl & Hall & Hval). apply arc_range in Hv.
  pose proof (strtoumax_loop_ok (decimal v ++ tail) 0 0) as Hs. rewrite span_number in Hs by done. cbn [fst snd] in Hs.
  rewrite Hval in Hs. unfold strtox_spec, ULONG_MAX in Hs. change (2 ^ 64 - 1) with 18446744073709551615 in Hs.
  replace ((0 <=? v) && (v <=? 18446744073709551615)) with true in Hs by lia.
  unfold asn_strtoul_lim, asn_strtoumax_lim. destruct (decimal v) as [|c ds]; [cbn in Hl; lia|].
  apply Forall_cons in Hall as [Hc _]. apply is_digit_range in Hc. cbn [app] in *.
  destruct (Z.eqb_spec c 45); [lia|]. destruct (Z.eqb_spec c 43); [lia|]. rewrite Hs by lia.
  unfold strto_narrow, ULONG_MAX. change (2 ^ 64 - 1) with 18446744073709551615. destruct tail;
    replace ((0 <=? v) && (v <=? 18446744073709551615)) with true by lia; done.
Qed.

Lemma parse_capture fuel v tail pos state count n acc : arc_ok v -> ends_number tail ->
  state = ST_LEADSPACE \/ state = ST_WAITDIGITS ->
  parse_arcs_loop (S fuel) (decimal v ++ tail) pos state count n acc =
  parse_arcs_loop fuel tail (pos + Z.of_nat (length (decimal v))) ST_AFTERVALUE count (n + 1)
    (if n <? count then acc ++ [v] else acc).
Proof.
  intros Hv Ht Hst. pose proof (strtoul_arc v tail Hv Ht) as Hs. destruct (decimal_arc v Hv) as (Hl & Hall & _).
  assert (Hd : drop (length (decimal v)) (decimal v ++ tail) = tail) by apply drop_app_length.
  destruct (decimal v) as [|c ds] eqn:Ed; [cbn in Hl; lia|]. apply Forall_cons in Hall as [Hc _]. cbn [parse_arcs_loop app] in *.
  pose proof (is_digit_range c Hc). unfold is_whitespace.
  replace ((c =? 9) || (c =? 10) || (c =? 13) || (c =? 32)) with false by lia. destruct (Z.eqb_spec c 46); [lia|]. rewrite Hc.
  unfold arc_ok in Hv. assert (Hmax : (v <=? ASN_OID_ARC_MAX) = true) by lia.
  destruct Hst as [->| ->]; rewrite Hs; destruct tail; rewrite Hmax, Nat2Z.id, Hd; done.
Qed.

Lemma parse_dots fuel arcs pos count n acc : Forall arc_ok arcs -> (length (dots arcs) < fuel)%nat -> 0 <= n ->
  parse_arcs_loop fuel (dots arcs) pos ST_AFTERVALUE count n acc =
  Some (n + Z.of_nat (length arcs), acc ++ take (Z.to_nat (count - n)) arcs, pos + Z.of_nat (length (dots arcs))).
Proof.
  intros Hall. revert fuel pos n acc. induction Hall as [|v arcs Hv Hall IH]; intros fuel pos n acc Hf Hn.
  { destruct fuel; [lia|]. cbn. by rewrite take_nil, app_nil_r, !Z.add_0_r. }
  destruct fuel as [|fuel]; [lia|]. change (dots (v :: arcs)) with (46 :: decimal v ++ dots arcs) in *.
  cbn [length] in *. rewrite length_app in *. destruct (decimal_arc v Hv) as (Hl & _).
  cbn [parse_arcs_loop]. change (is_whitespace 46) with false. change (46 =? 46) with true. cbn iota.
  rewrite decide_True by done. destruct fuel as [|fuel]; [lia|].
  rewrite parse_capture; [|done|by destruct arcs|by right]. rewrite IH by lia.
  destruct (Z.ltb_spec n count).
  - replace (Z.to_nat (count - n)) with (S (Z.to_nat (count - (n + 1)))) by lia. cbn [take]. rewrite <- app_assoc.
    do 2 f_equal; [f_equal; lia|lia].
  - replace (Z.to_nat (count - n)) with 0%nat by lia. replace (Z.to_nat (count - (n + 1))) with 0%nat by lia.
    do 2 f_equal; [f_equal; lia|lia].
Qed.

Lemma parse_dotted arcs count : Forall arc_ok arcs -> arcs <> [] -> 0 <= count ->
  OBJECT_IDENTIFIER_parse_arcs (dotted arcs) count =
  Some (Z.of_nat (length arcs), take (Z.to_nat count) arcs, Z.of_nat (length (dotted arcs))).
Proof.
  intros Hall Hne Hc. destruct Hall as [|v arcs Hv Hall]; [done|]. unfold OBJECT_IDENTIFIER_parse_arcs. cbn [dotted length].
  rewrite length_app, parse_capture; [|done|by destruct arcs|by left]. destruct (decimal_arc v Hv) as (Hl & _).
  rewrite parse_dots by (done || lia). destruct (Z.ltb_spec 0 count).
  - replace (Z.to_nat count) with (S (Z.to_nat (count - (0 + 1)))) by lia. cbn [take app]. do 2 f_equal; [f_equal; lia|lia].
  - replace (Z.to_nat count) with 0%nat by lia. replace (Z.to_nat (count - (0 + 1))) with 0%nat by lia. cbn [take app].
    do 2 f_equal; [f_equal; lia|lia].
Qed.

Lemma body_decode_ok set slots st arcs : Forall arc_ok arcs -> arcs <> [] -> 0 <= slots ->
  oid_body_decode set slots st (dotted arcs) =
  Some match set arcs with Some buf => (XPBD_BODY_CONSUMED, Some buf) | None => (XPBD_SYSTEM_FAILURE, st) end.
Proof.
  intros Hall Hne Hs. unfold oid_body_decode. rewrite parse_dotted by done. cbn [mbind option_bind].
  assert (0 < Z.of_nat (length arcs)) by (destruct arcs; [done|cbn; lia]).
  destruct (Z.ltb_spec (Z.of_nat (length arcs)) 0); [lia|]. destruct (Z.eqb_spec (Z.of_nat (length arcs)) 0); [lia|].
  rewrite Z.eqb_refl. cbn [negb].
  destruct (Z.ltb_spec slots (Z.of_nat (length arcs))).
  - rewrite parse_dotted by (done || lia). cbn [mbind option_bind]. rewrite Z.eqb_refl, Nat2Z.id, firstn_all. done.
  - cbn [mbind option_bind negb]. rewrite take_ge by lia. done.
Qed.

(** ** Properties *)

(** For the arcs X.690 8.19 allows, every arc in 32 bits: setting them
    gives the octets with seven bits each; getting them gives all of them and
    their number when there are slots enough; printing writes them in decimal
    with dots between them, and reading that text, whatever the structure
    held, sets the same octets.  Other arcs are refused and leave the
    structure alone.  The same holds for a RELATIVE-OID and any arcs. *)
Theorem object_identifier_roundtrip (arcs : list Z) (slots : Z) (st : option (list Z)) :
  Forall arc_ok arcs -> Z.of_nat (length arcs) <= slots ->
  (oid_ok arcs ->
     OBJECT_IDENTIFIER_set_arcs arcs = Some (oid_octets arcs) /\
     OBJECT_IDENTIFIER_get_arcs (Some (oid_octets arcs)) slots = Some (Z.of_nat (length arcs), arcs) /\
     (forall K (C : Consumer K) (A : AppendConsumer K) (key : K), exists key',
        OBJECT_IDENTIFIER__dump_body (oid_octets arcs) key = Some (Z.of_nat (length (dotted arcs)), key') /\
        written key' = written key ++ dotted arcs) /\
     OBJECT_IDENTIFIER__xer_body_decode st (dotted arcs) = Some (XPBD_BODY_CONSUMED, Some (oid_octets arcs))) /\
  (~ oid_ok arcs -> OBJECT_IDENTIFIER_set_arcs arcs = None) /\
  (arcs <> [] ->
     RELATIVE_OID_set_arcs arcs = Some (arcs_octets arcs) /\
     RELATIVE_OID_get_arcs (Some (arcs_octets arcs)) slots = Some (Z.of_nat (length arcs), arcs) /\
     (forall K (C : Consumer K) (A : AppendConsumer K) (key : K), exists key',
        RELATIVE_OID__dump_body (arcs_octets arcs) key = Some (Z.of_nat (length (dotted arcs)), key') /\
        written key' = written key ++ dotted arcs) /\
     RELATIVE_OID__xer_body_decode st (dotted arcs) = Some (XPBD_BODY_CONSUMED, Some (arcs_octets arcs))).
Proof.
  intros Hall Hs. split_and!.
  - intros Hok. split_and!; [by apply oid_set_ok|by apply oid_get_ok|intros; by apply oid_dump_ok|].
    unfold OBJECT_IDENTIFIER__xer_body_decode. rewrite body_decode_ok by (try done; by destruct Hok as [_ (? & ? & ? & -> & _)]).
    by rewrite oid_set_ok.
  - intros Hno. destruct arcs as [|arc0 [|arc1 rest]]; [done|done|]. cbn [OBJECT_IDENTIFIER_set_arcs].
    assert (Hcase : ~ (arc0 <= 1 /\ arc1 < 40 \/ arc0 = 2 /\ arc1 <= ASN_OID_ARC_MAX - 80))
      by (intros Hcase; apply Hno; split; [done|by exists arc0, arc1, rest]).
    destruct (Z.leb_spec arc0 1); [zcase; done|]. destruct (Z.eqb_spec arc0 2); [zcase; done|done].
  - intros Hne. assert (Hset : RELATIVE_OID_set_arcs arcs = Some (arcs_octets arcs)).
    { apply (set_arcs_loop_ok arcs _ []); [done|]. unfold arcs_room. change ((4 * 8 + 6) / 7) with 5. lia. }
    pose proof (length_arcs_octets arcs Hall).
    split_and!; [done|by apply get_arcs_loop_ok; [done|lia|lia]|intros; by apply relative_dump_ok|].
    unfold RELATIVE_OID__xer_body_decode. rewrite body_decode_ok by done. by rewrite Hset.
Qed.

(** id-ecPublicKey, 1.2.840.10045.2.1 *)
Definition id_ecPublicKey : list Z := [1; 2; 840; 10045; 2; 1].

Lemma id_ecPublicKey_ok : Forall arc_ok id_ecPublicKey /\ oid_ok id_ecPublicKey.
Proof.
  assert (Hall : Forall arc_ok id_ecPublicKey) by (repeat constructor; done).
  split; [done|]. split; [done|]. eexists _, _, _. split; [reflexivity|]. left. done.
Qed.

Lemma object_identifier_roundtrip_witness :
  oid_octets id_ecPublicKey = [42; 134; 72; 206; 61; 2; 1] /\
  (oid_ok id_ecPublicKey ->
     OBJECT_IDENTIFIER_set_arcs id_ecPublicKey = Some (oid_octets id_ecPublicKey) /\
     OBJECT_IDENTIFIER_get_arcs (Some (oid_octets id_ecPublicKey)) 10 = Some (6, id_ecPublicKey) /\
     (forall K (C : Consumer K) (A : AppendConsumer K) (key : K), exists key',
        OBJECT_IDENTIFIER__dump_body (oid_octets id_ecPublicKey) key = Some (17, key') /\
        written key' = written key ++ dotted id_ecPublicKey) /\
     OBJECT_IDENTIFIER__xer_body_decode None (dotted id_ecPublicKey) =
       Some (XPBD_BODY_CONSUMED, Some (oid_octets id_ecPublicKey))).
Proof.
  split; [reflexivity|].
  exact (proj1 (object_identifier_roundtrip id_ecPublicKey 10 None (proj1 id_ecPublicKey_ok) ltac:(done))).
Defined.

(** ** What goes wrong *)

(** asn_oid_arc_t has 32 bits, and the accumulator is one: the comparison with
    the maximum is always true, and an arc of 2^32 + 5 is read as 5. *)
Example long_arc_wraps :
  OBJECT_IDENTIFIER_get_single_arc [144; 128; 128; 128; 5] = (5, Some 5) /\
  OBJECT_IDENTIFIER_get_arcs (Some [42; 144; 128; 128; 128; 5]) 4 = Some (3, [1; 2; 5]).
Proof. split; vm_compute; reflexivity. Qed.
