(* ===== verification/BitString.v ===== *)
(** * BIT STRING (support/BIT_STRING.c, BIT_STRING_oer.c)

    Octets with a count of unused bits at the end.  The code takes strings
    that differ only in trailing zero bits for the same value: [trim] is the
    value, and packed encoding keeps no more than it and what the size
    constraint asks for. *)
From stdpp Require Import pretty strings.
From S2P Require Import Prelude Outcome Consumer BitData PerSupport PerNatural PerCodec AsnInteger UperInteger.
From S2P Require Import OpenType Oer OctetString Constraints.
#[local] Open Scope Z_scope.

(** ** Data *)

Record BIT_STRING_t := { bs_buf : list Z; bits_unused : Z }.

#[local] Abbreviation size st := (Z.of_nat (length (bs_buf st))).

(** BIT_STRING_constraint; [None] is a null pointer or a null buffer. *)
Definition BIT_STRING_constraint (name FILE : string) : asn_constr_check_f BIT_STRING_t := fun st r =>
  match st with
  | Some st =>
    if ((size st =? 0) && negb (bits_unused st =? 0)) || (bits_unused st <? 0) || (7 <? bits_unused st)
    then ctfail (name +:+ ": invalid padding byte" +:+ at_line FILE 73) r
    else Some (0, r)
  | None => ctfail (not_given name FILE 79) r
  end.

(** ** Without the trailing zeros *)

(** for(b = &st->buf[st->size - 1]; b > st->buf && *b == 0; b--): where [b],
    as an index, comes to rest. *)
Fixpoint last_nonzero (b : nat) (buf : list Z) : nat :=
  match b with
  | O => O
  | S b' => if bool_decide (buf !! b = Some 0) then last_nonzero b' buf else b
  end.

(** (int8_t)v *)
Definition s8 (z : Z) : Z := sext 8 z.

(** The unused bits below the lowest one of an octet; - (int8_t)v. *)
Definition unused_below (v : Z) : Z :=
  let v := Z.land v (- s8 v) in
  7 - (if negb (Z.land v 15 =? 0) then 4 else 0) - (if negb (Z.land v 51 =? 0) then 2 else 0)
    - (if negb (Z.land v 85 =? 0) then 1 else 0).

Definition BIT_STRING__compactify (st : BIT_STRING_t) : option BIT_STRING_t :=
  if size st =? 0 then if bits_unused st =? 0 then Some st else None
  else
    let b := last_nonzero (length (bs_buf st) - 1) (bs_buf st) in
    v ← bs_buf st !! b;
    Some (if negb (v =? 0)
          then {| bs_buf := take (b + 1) (bs_buf st); bits_unused := unused_below v |}
          else {| bs_buf := take b (bs_buf st); bits_unused := 0 |}).

Definition compare_compact (a b : BIT_STRING_t) : Z :=
  let common_prefix_size := Z.to_nat (if size a <=? size b then size a else size b) in
  let ret := memcmp (take common_prefix_size (bs_buf a)) (take common_prefix_size (bs_buf b)) in
  if ret =? 0 then
    if size a <? size b then -1
    else if size b <? size a then 1
    else if bits_unused b <? bits_unused a then -1
    else if bits_unused a <? bits_unused b then 1
    else 0
  else ret.

Definition BIT_STRING_compare (aptr bptr : BIT_STRING_t) : option Z :=
  a ← BIT_STRING__compactify aptr;
  b ← BIT_STRING__compactify bptr;
  Some (compare_compact a b).

(** ** Packed encoding *)

Definition asn_DEF_BIT_STRING_constraint_size : asn_per_constraint_t :=
  {| flags := APC_SEMI_CONSTRAINED; range_bits := -1; effective_bits := -1; lower_bound := 0; upper_bound := 0 |}.

Section Uper.
Context (size_constraint : option asn_per_constraint_t).

Definition bs_csiz : asn_per_constraint_t := default asn_DEF_BIT_STRING_constraint_size size_constraint.

(** The do-while loop; [allocated] tells whether st->buf is non-null. *)
Fixpoint bs_get_loop (fuel : nat) (siz : asn_per_constraint_t) (allocated : bool) (st : BIT_STRING_t)
    (pd : asn_per_data) : option (asn_dec_rval_code * BIT_STRING_t * asn_per_data) :=
  match fuel with
  | O => None
  | S fuel =>
    '(raw_len, repeat, pd) ← uper_get_length pd (effective_bits siz) (lower_bound siz);
    if raw_len <? 0 then Some (RC_WMORE, st, pd) else
    if (raw_len =? 0) && allocated then Some (RC_OK, st, pd) else
    let unused := if negb (Z.land raw_len 7 =? 0) then 8 - Z.land raw_len 7 else bits_unused st in
    '(ret, octets, pd) ← per_get_many_bits pd false raw_len;
    if ret <? 0 then Some (RC_WMORE, {| bs_buf := bs_buf st; bits_unused := unused |}, pd) else
    let st := {| bs_buf := bs_buf st ++ octets; bits_unused := unused |} in
    if (repeat : bool) then bs_get_loop fuel siz true st pd else Some (RC_OK, st, pd)
  end.

(** A string of fixed size that could not be read has a size and no contents,
    [None]. *)
Definition bs_decode_sized (siz : asn_per_constraint_t) (pd : asn_per_data) :
    option (asn_dec_rval_code * option BIT_STRING_t * asn_per_data) :=
  if effective_bits siz =? 0 then
    '(ret, octets, pd) ← per_get_many_bits pd false (upper_bound siz);
    Some (if ret <? 0 then (RC_WMORE, None, pd)
          else (RC_OK, Some {| bs_buf := octets;
                               bits_unused := Z.land (8 - Z.land (upper_bound siz) 7) 7 |}, pd))
  else
    '(code, st, pd) ← bs_get_loop (os_fuel pd) siz (0 <=? effective_bits siz) {| bs_buf := []; bits_unused := 0 |} pd;
    Some (code, Some st, pd).

Definition BIT_STRING_decode_uper (pd : asn_per_data) :
    option (asn_dec_rval_code * option BIT_STRING_t * asn_per_data) :=
  if has_flag bs_csiz APC_EXTENSIBLE then
    '(inext, pd) ← per_get_few_bits pd 1;
    if inext <? 0 then Some (RC_WMORE, Some {| bs_buf := []; bits_unused := 0 |}, pd)
    else bs_decode_sized (if negb (inext =? 0) then asn_DEF_BIT_STRING_constraint_size else bs_csiz) pd
  else bs_decode_sized bs_csiz pd.

Section Encode.
Context {S : Type} `{Consumer S}.
Implicit Types po : asn_bit_outp S.

(** The trailer: at most 128 zero bits at a time. *)
Fixpoint put_zeros (fuel : nat) po (trailing_zero_bits : Z) : option (Z * asn_bit_outp S) :=
  match fuel with
  | O => None
  | Datatypes.S fuel =>
    if 0 <? trailing_zero_bits then
      let n := if 128 <? trailing_zero_bits then 128 else trailing_zero_bits in
      '(ret, po) ← asn_put_many_bits po (replicate 16 0) n;
      if negb (ret =? 0) then Some (-1, po) else put_zeros fuel po (trailing_zero_bits - n)
    else Some (0, po)
  end.

(** The do-while loop over the bits still to write. *)
Fixpoint bs_put_loop (fuel : nat) (size_in_bits : Z) (buf : list Z) po : option (Z * asn_bit_outp S) :=
  match fuel with
  | O => None
  | Datatypes.S fuel =>
    '(may_save, need_eom, po) ← uper_put_length po size_in_bits;
    if may_save <? 0 then Some (-1, po) else
    '(ret, po) ← asn_put_many_bits po buf may_save;
    if negb (ret =? 0) then Some (-1, po) else
    let buf := drop (Z.to_nat (may_save ≫ 3)) buf in
    let size_in_bits := size_in_bits - may_save in
    if negb (Z.land may_save 7 =? 0) && negb (size_in_bits =? 0) then None else
    '(rc, po) ← (if (need_eom : bool) then '(r, _, po) ← uper_put_length po 0; Some (r, po)
                 else Some (0, po));
    if negb (rc =? 0) then Some (-1, po)
    else if size_in_bits =? 0 then Some (0, po)
    else bs_put_loop fuel size_in_bits buf po
  end.

Definition BIT_STRING_encode_uper (st : BIT_STRING_t) po : option (Z * asn_bit_outp S) :=
  if ((size st =? 0) && negb (bits_unused st =? 0)) || negb (Z.land (bits_unused st) (Z.lnot 7) =? 0)
  then Some (-1, po) else
  let ct_extensible := has_flag bs_csiz APC_EXTENSIBLE in
  st ← BIT_STRING__compactify st;
  let size_in_bits := 8 * size st - bits_unused st in
  let outside := (0 <=? effective_bits bs_csiz) && (upper_bound bs_csiz <? size_in_bits) in
  if outside && negb ct_extensible then Some (-1, po) else
  let siz := if outside then asn_DEF_BIT_STRING_constraint_size else bs_csiz in
  '(rc, po) ← (if ct_extensible then per_put_few_bits po (Z.b2z outside) 1 else Some (0, po));
  if negb (rc =? 0) then Some (-1, po) else
  if (0 <=? effective_bits siz) && negb outside then
    let add_trailer := size_in_bits <? lower_bound siz in
    '(ret, po) ← per_put_few_bits po (if add_trailer then 0 else size_in_bits - lower_bound siz) (effective_bits siz);
    if negb (ret =? 0) then Some (-1, po) else
    '(ret, po) ← asn_put_many_bits po (bs_buf st) size_in_bits;
    if negb (ret =? 0) then Some (-1, po) else
    if add_trailer then
      let trailing_zero_bits := lower_bound siz - size_in_bits in
      put_zeros (Datatypes.S (Z.to_nat trailing_zero_bits)) po trailing_zero_bits
    else Some (0, po)
  else bs_put_loop (Datatypes.S (Z.to_nat size_in_bits)) size_in_bits (bs_buf st) po.
End Encode.

#[local] Instance BIT_STRING_per : PerType BIT_STRING_t := {
  op_uper_encoder := Some (fun S C st po => BIT_STRING_encode_uper st po);
  op_uper_decoder := Some BIT_STRING_decode_uper
}.
End Uper.

(** ** Octet encoding *)

(** [ct_size] is the size constraint, -1 without one. *)
Definition BIT_STRING_decode_oer (ct_size : Z) (buf : list Z) : asn_dec_rval_code * Z * option BIT_STRING_t :=
  let take_octets consumed unused expected_length :=
    let ptr := drop (Z.to_nat consumed) buf in
    if Z.of_nat (length ptr) <? expected_length then (RC_WMORE, 0, None)
    else
      let octets := take (Z.to_nat expected_length) ptr in
      (RC_OK, consumed + expected_length,
       Some {| bs_buf := if 0 <? expected_length
                         then alter (fun b => Z.land b (u8 (255 ≪ unused))) (Z.to_nat (expected_length - 1)) octets
                         else octets;
               bits_unused := unused |}) in
  if 0 <=? ct_size then take_octets 0 (Z.land (8 - Z.land ct_size 7) 7) ((ct_size + 7) ≫ 3)
  else
    let '(len_len, expected_length) := oer_fetch_length buf in
    if len_len =? 0 then (RC_WMORE, 0, None)
    else if len_len <? 0 then (RC_FAIL, 0, None)
    else
      let ptr := drop (Z.to_nat len_len) buf in
      if expected_length <? 1 then (RC_FAIL, 0, None)
      else match ptr with
           | [] => (RC_WMORE, 0, None)
           | unused :: _ =>
             if Z.of_nat (length ptr) <? expected_length then (RC_WMORE, 0, None)
             else if negb (Z.land unused (Z.lnot 7) =? 0) then (RC_FAIL, 0, None)
             else take_octets (len_len + 1) unused (expected_length - 1)
           end.

Section EncodeOer.
Context {S : Type} `{Consumer S}.

(** while(trailing_zeros > 0): nothing in the loop changes trailing_zeros. *)
Fixpoint send_zeros (fuel : nat) (trailing_zeros encoded : Z) (key : S) : option (Z * S) :=
  match fuel with
  | O => None
  | Datatypes.S fuel =>
    if 0 <? trailing_zeros then
      let n := if trailing_zeros <? 16 then trailing_zeros else 16 in
      let '(ret, key) := consume (replicate (Z.to_nat n) 0) key in
      if ret <? 0 then Some (-1, key) else send_zeros fuel trailing_zeros (encoded + n) key
    else Some (encoded, key)
  end.

(** From the octets of the string on. *)
Definition send_octets (fuel : nat) (st : BIT_STRING_t) (trailing_zeros encoded : Z) (key : S) : option (Z * S) :=
  let mask := 255 ≪ bits_unused st in
  fix_last_byte ← (if negb (bits_unused st =? 0)
                   then last ← read (bs_buf st) (size st - 1); Some (negb (Z.land last mask =? 0))
                   else Some false);
  let '(ret, key) := consume (take (Z.to_nat (size st - Z.b2z fix_last_byte)) (bs_buf st)) key in
  if ret <? 0 then Some (-1, key) else
  '(ret, key) ← (if (fix_last_byte : bool) then
                   last ← read (bs_buf st) (size st - 1);
                   Some (consume [u8 (Z.land last mask)] key)
                 else Some (0, key));
  if ret <? 0 then Some (-1, key) else send_zeros fuel trailing_zeros (encoded + size st) key.

Definition BIT_STRING_encode_oer (fuel : nat) (ct_size : Z) (st : BIT_STRING_t) (key : S) : option (Z * S) :=
  if negb (Z.land (bits_unused st) (Z.lnot 7) =? 0) then Some (-1, key) else
  if negb (bits_unused st =? 0) && (size st =? 0) then Some (-1, key) else
  if 0 <=? ct_size then
    let ct_bytes := (ct_size + 7) ≫ 3 in
    if ct_bytes <? size st then Some (-1, key) else send_octets fuel st (ct_bytes - size st) 0 key
  else
    let ub := Z.land (bits_unused st) 7 in
    let '(len_len, key) := oer_serialize_length (1 + size st) key in
    if len_len <? 0 then Some (-1, key) else
    let '(ret, key) := consume [ub] key in
    if ret <? 0 then Some (-1, key) else send_octets fuel st 0 (len_len + 1) key.
End EncodeOer.

Definition BIT_STRING_oer (fuel : nat) (ct_size : Z) : OerType BIT_STRING_t := {|
  oer_encoder S C st key := BIT_STRING_encode_oer fuel ct_size st key;
  oer_decoder buf := Some (BIT_STRING_decode_oer ct_size buf)
|}.

(** ** Lemmas: strings of bits as octets *)

#[local] Abbreviation packed := padded_octets.

(** A string of bits, with unused bits of zero. *)
Definition bit_string (bs : list bool) : BIT_STRING_t :=
  {| bs_buf := packed bs; bits_unused := - Z.of_nat (length bs) mod 8 |}.

(** The bits a structure stands for. *)
Definition bs_bits (st : BIT_STRING_t) : list bool :=
  take (Z.to_nat (8 * size st - bits_unused st)) (bytes_bits (bs_buf st)).

Lemma packed_ok bs : bytes_ok (packed bs).
Proof. apply padded_octets_ok. Qed.

Lemma packed_bits bs : bytes_bits (packed bs) = pad8 bs.
Proof. apply padded_octets_ok. Qed.

Lemma length_packed bs : Z.of_nat (length (packed bs)) = (Z.of_nat (length bs) + 7) / 8.
Proof. apply length_padded_octets. Qed.

Lemma bit_string_size bs : 8 * size (bit_string bs) - bits_unused (bit_string bs) = Z.of_nat (length bs).
Proof. cbn [bit_string bs_buf bits_unused]. rewrite length_packed. Z.div_mod_to_equations. lia. Qed.

Lemma bs_bits_bit_string bs : bs_bits (bit_string bs) = bs.
Proof.
  unfold bs_bits. rewrite bit_string_size. cbn [bit_string bs_buf]. rewrite packed_bits, Nat2Z.id.
  unfold pad8. apply take_app_length.
Qed.

Lemma packed_app p c : (length p mod 8 = 0)%nat -> packed (p ++ c) = packed p ++ packed c.
Proof.
  intros Hp. symmetry. apply padded_octets_eq; [apply bytes_ok_app; apply packed_ok|].
  rewrite bytes_bits_app, !packed_bits. unfold pad8. rewrite <- !app_assoc, length_app. f_equal.
  pose proof (Nat.div_mod_eq (length p) 8) as Hd.
  replace (Z.to_nat (- Z.of_nat (length p) mod 8)) with 0%nat by (Z.div_mod_to_equations; lia). cbn [replicate app].
  do 2 f_equal. Z.div_mod_to_equations; lia.
Qed.

(** ** Lemmas: trailing zeros *)

Fixpoint trim (bs : list bool) : list bool :=
  match bs with
  | [] => []
  | b :: bs => match trim bs with [] => if b then [true] else [] | t => b :: t end
  end.

Lemma trim_zeros k : trim (replicate k false) = [].
Proof. induction k as [|k IH]; [done|]. cbn [replicate trim]. by rewrite IH. Qed.

Lemma trim_app_zeros bs k : trim (bs ++ replicate k false) = trim bs.
Proof. induction bs as [|b bs IH]; [apply trim_zeros|]. cbn [app trim]. by rewrite IH. Qed.

Lemma trim_pad8 bs : trim (pad8 bs) = trim bs.
Proof. apply trim_app_zeros. Qed.

Lemma trim_one bs : trim (bs ++ [true]) = bs ++ [true].
Proof. induction bs as [|b bs IH]; [done|]. cbn [app trim]. rewrite IH. by destruct bs. Qed.

Lemma trim_split bs : exists k, bs = trim bs ++ replicate k false.
Proof.
  induction bs as [|b bs [k IH]]; [by exists 0%nat|]. cbn [trim]. destruct (trim bs) as [|t ts] eqn:E.
  - destruct b; [exists k|exists (S k)]; cbn [app replicate]; by rewrite IH at 1.
  - exists k. by rewrite IH at 1.
Qed.

Lemma trim_last bs : trim bs = [] \/ exists t, trim bs = t ++ [true].
Proof.
  induction bs as [|b bs IH]; [by left|]. cbn [trim]. destruct IH as [->|[t ->]].
  - destruct b; [right; by exists []|by left].
  - right. exists (b :: t). by destruct t.
Qed.

Lemma trim_idem bs : trim (trim bs) = trim bs.
Proof. destruct (trim_split bs) as [k Hk]. rewrite Hk at 2. by rewrite trim_app_zeros. Qed.

Lemma length_trim bs : (length (trim bs) <= length bs)%nat.
Proof. destruct (trim_split bs) as [k Hk]. rewrite Hk at 2. rewrite length_app. lia. Qed.

(** ** Lemmas: compactify *)

Lemma last_nonzero_spec buf b : (b < length buf)%nat ->
  let b' := last_nonzero b buf in
  (b' <= b)%nat /\ (b' = O \/ buf !! b' <> Some 0) /\ drop (S b') (take (S b) buf) = replicate (b - b') 0.
Proof.
  induction b as [|b IH]; intros Hb; cbn [last_nonzero].
  { split_and!; [done|by left|]. cbn [Nat.sub replicate]. apply drop_ge. rewrite length_take. lia. }
  case_bool_decide as Hz; [|split_and!; [done|by right|rewrite Nat.sub_diag; apply drop_ge; rewrite length_take; lia]].
  destruct IH as (Hle & Hor & Hdrop); [lia|]. set (b' := last_nonzero b buf) in *. split_and!; [lia|done|].
  rewrite (take_S_r _ _ 0) by done. rewrite drop_app_le by (rewrite length_take; lia). rewrite Hdrop.
  replace (S b - b')%nat with (b - b' + 1)%nat by lia. by rewrite replicate_add.
Qed.

Lemma unused_below_ok v : 0 < v < 256 -> 0 <= unused_below v <= 7 /\
  exists h, length h = Z.to_nat (7 - unused_below v) /\
    byte_bits v = (h ++ [true]) ++ replicate (Z.to_nat (unused_below v)) false.
Proof.
  intros Hv.
  assert (Hall : forallb (fun v => (0 <=? unused_below v) && (unused_below v <=? 7) &&
    bool_decide (byte_bits v = (take (Z.to_nat (7 - unused_below v)) (byte_bits v) ++ [true]) ++
      replicate (Z.to_nat (unused_below v)) false)) (seqZ 1 255) = true) by (vm_compute; reflexivity).
  rewrite forallb_forall in Hall. specialize (Hall v ltac:(apply list_elem_of_In, elem_of_seqZ; lia)).
  rewrite !andb_true_iff, !Z.leb_le, bool_decide_eq_true in Hall. destruct Hall as [[Hl Hu] Hb].
  split; [lia|]. eexists. split; [|exact Hb]. rewrite length_take. unfold byte_bits. rewrite length_val_bits. lia.
Qed.

Lemma bytes_zeros k : bytes_bits (replicate k 0) = replicate (8 * k) false.
Proof.
  induction k as [|k IH]; [done|]. cbn [replicate]. rewrite bytes_bits_cons, IH.
  replace (8 * S k)%nat with (8 + 8 * k)%nat by lia. by rewrite replicate_add.
Qed.

Lemma compactify_ok st : bytes_ok (bs_buf st) -> (bs_buf st = [] -> bits_unused st = 0) ->
  BIT_STRING__compactify st = Some (bit_string (trim (bytes_bits (bs_buf st)))).
Proof.
  destruct st as [buf unused]. cbn [bs_buf bits_unused]. intros Hok Hempty. unfold BIT_STRING__compactify.
  cbn [bs_buf bits_unused]. destruct (Z.eqb_spec (Z.of_nat (length buf)) 0) as [E|E].
  { destruct buf; [|done]. by rewrite Hempty. }
  set (n := (length buf - 1)%nat). destruct (last_nonzero_spec buf n) as (Hle & Hor & Hdrop); [lia|].
  set (b := last_nonzero n buf) in *. rewrite (take_ge buf) in Hdrop by lia.
  destruct (lookup_lt_is_Some_2 buf b) as [v Hv]; [lia|]. rewrite Hv. cbn [mbind option_bind]. f_equal.
  pose proof (take_drop (S b) buf) as Hsplit. rewrite Hdrop, (take_S_r _ _ v) in Hsplit by done.
  assert (Hbits : trim (bytes_bits buf) = trim (bytes_bits (take b buf) ++ byte_bits v)).
  { rewrite <- Hsplit at 1. rewrite bytes_bits_app, bytes_zeros, trim_app_zeros, bytes_bits_app.
    cbn [bytes_bits mbind list_bind]. by rewrite app_nil_r. }
  rewrite Hbits. assert (Hbyte : byte_ok v) by (by eapply Forall_lookup_1 in Hv).
  destruct (Z.eqb_spec v 0) as [->|Hn]; cbn [negb].
  - destruct Hor as [->|Hor]; [|done]. change (byte_bits 0) with (replicate 8 false). rewrite trim_app_zeros. done.
  - destruct (unused_below_ok v) as (Hu & h & Hh & Hvb); [unfold byte_ok in *; lia|].
    rewrite Hvb, app_assoc, trim_app_zeros, app_assoc, trim_one.
    set (t := (bytes_bits (take b buf) ++ h) ++ [true]).
    assert (Hlen : Z.of_nat (length t) = 8 * Z.of_nat b + 8 - unused_below v).
    { unfold t. rewrite !length_app, length_bytes_bits, length_take. cbn [length]. lia. }
    unfold bit_string. f_equal; [|rewrite Hlen; Z.div_mod_to_equations; lia].
    apply padded_octets_eq; [by apply Forall_take|]. replace (b + 1)%nat with (S b) by lia.
    rewrite (take_S_r _ _ v), bytes_bits_app by done. cbn [bytes_bits mbind list_bind]. rewrite app_nil_r, Hvb.
    unfold pad8. rewrite Hlen. unfold t. rewrite <- !app_assoc. do 4 f_equal. Z.div_mod_to_equations; lia.
Qed.

(** ** Lemmas: comparison *)

(** Two strings as binary fractions. *)
Definition bits_compare (s t : list bool) : Z :=
  Z.sgn (bits_val s * 2 ^ Z.of_nat (length t) - bits_val t * 2 ^ Z.of_nat (length s)).

Lemma bits_val_zeros s k : bits_val (s ++ replicate k false) = bits_val s * 2 ^ Z.of_nat k.
Proof.
  rewrite bits_val_app, length_replicate. replace (bits_val (replicate k false)) with 0; [lia|].
  induction k as [|k IH]; [done|]. cbn [replicate bits_val]. rewrite <- IH. done.
Qed.

Lemma sgn_scale a b k : 0 <= k -> Z.sgn (a * 2 ^ k - b * 2 ^ k) = Z.sgn (a - b).
Proof. intros Hk. rewrite <- Z.mul_sub_distr_r, Z.sgn_mul, (Z.sgn_pos (2 ^ k)) by (by apply pow2_pos). lia. Qed.

(** Trailing zeros do not count. *)
Lemma bits_compare_zeros s t j k : bits_compare (s ++ replicate j false) (t ++ replicate k false) = bits_compare s t.
Proof.
  unfold bits_compare. rewrite !bits_val_zeros, !length_app, !length_replicate, !Nat2Z.inj_add.
  set (a := bits_val s). set (b := bits_val t).
  rewrite <- (sgn_scale (a * 2 ^ Z.of_nat (length t)) _ (Z.of_nat j + Z.of_nat k)) by lia. f_equal.
  rewrite !pow2_split by lia. ring.
Qed.

Lemma bits_compare_trim s t : bits_compare (trim s) (trim t) = bits_compare s t.
Proof.
  destruct (trim_split s) as [j Hj], (trim_split t) as [k Hk]. rewrite Hj at 2. rewrite Hk at 2. by rewrite bits_compare_zeros.
Qed.

Lemma bits_compare_packed s t : bits_compare s t =
  Z.sgn (be_val (packed s) * 2 ^ (8 * Z.of_nat (length (packed t))) - be_val (packed t) * 2 ^ (8 * Z.of_nat (length (packed s)))).
Proof.
  rewrite !be_val_bits, !packed_bits by apply packed_ok.
  replace (8 * Z.of_nat (length (packed t))) with (Z.of_nat (length (pad8 t))) by (rewrite <- packed_bits, length_bytes_bits; lia).
  replace (8 * Z.of_nat (length (packed s))) with (Z.of_nat (length (pad8 s))) by (rewrite <- packed_bits, length_bytes_bits; lia).
  symmetry. apply bits_compare_zeros.
Qed.

(** A prefix is smaller when something follows it in the other string. *)
Lemma be_val_prefix p q r : bytes_ok p -> bytes_ok q -> bytes_ok r -> length p = length q -> (p = q -> 0 < be_val r \/ r = []) ->
  Z.sgn (be_val p * 2 ^ (8 * Z.of_nat (length r)) - be_val (q ++ r)) =
  if Z.sgn (memcmp p q) =? 0 then if bool_decide (r = []) then 0 else -1 else Z.sgn (memcmp p q).
Proof.
  intros Hp Hq Hr Hlen Hpos. rewrite memcmp_ok by done. pose proof (be_val_bound r Hr) as Hb.
  assert (Happ : be_val (q ++ r) = be_val q * 2 ^ (8 * Z.of_nat (length r)) + be_val r).
  { rewrite !be_val_bits, bytes_bits_app, bits_val_app, length_bytes_bits by (auto with bytes). do 2 f_equal. f_equal. lia. }
  rewrite Happ. set (w := 2 ^ (8 * Z.of_nat (length r))) in *. destruct (Z.eqb_spec (Z.sgn (be_val p - be_val q)) 0) as [E|E].
  - assert (be_val p = be_val q) as Heq by lia.
    assert (p = q) as ->.
    { apply (f_equal (be_bytes (length p))) in Heq. rewrite be_bytes_be_val, Hlen, be_bytes_be_val in Heq by done. done. }
    case_bool_decide as Hnil; [subst r; cbn [be_val]; lia|]. destruct (Hpos eq_refl) as [|]; [lia|done].
  - destruct (Z.lt_trichotomy (be_val p) (be_val q)) as [|[|]]; [|lia|].
    + rewrite !Z.sgn_neg; nia.
    + rewrite !Z.sgn_pos; nia.
Qed.

(** The octets of a trimmed string do not end in a zero. *)
Lemma packed_trim_pos s q r : packed (trim s) = q ++ r -> 0 < be_val r \/ r = [].
Proof.
  intros H. destruct (decide (r = [])) as [|Hr]; [by right|left].
  pose proof (packed_ok (trim s)) as Hok. rewrite H in Hok. apply Forall_app in Hok as [_ Hok].
  destruct (Z.lt_trichotomy 0 (be_val r)) as [|[Hz|]]; [done| |pose proof (be_val_bound r Hok); lia].
  (* r would be zeros, and the bits of the string end in one within its last octet *)
  assert (Hzeros : bytes_bits r = replicate (8 * length r) false).
  { rewrite <- bytes_zeros. f_equal. transitivity (be_bytes (length r) 0); [by rewrite Hz, be_bytes_be_val|].
    generalize (length r) as k. induction k as [|k IH]; [done|]. cbn [be_bytes replicate]. by rewrite IH, Z.shiftr_0_l. }
  pose proof (packed_bits (trim s)) as Hbits. rewrite H, bytes_bits_app, Hzeros in Hbits.
  destruct (trim_last s) as [E|[t Ht]].
  { rewrite E in H. cbn in H. symmetry in H. by apply app_eq_nil in H as [_ ->]. }
  pose proof (trim_idem s) as Hid. pose proof (trim_pad8 (trim s)) as Hp. rewrite <- Hbits, trim_app_zeros, Hid in Hp.
  pose proof (length_trim (bytes_bits q)) as Hlt. rewrite Hp, length_bytes_bits in Hlt.
  pose proof (length_packed (trim s)) as Hlen. rewrite H, length_app in Hlen.
  destruct r; [done|]. cbn [length] in Hlen. Z.div_mod_to_equations. lia.
Qed.

Lemma packed_inj s t : packed (trim s) = packed (trim t) -> trim s = trim t.
Proof.
  intros H. apply (f_equal (fun l => trim (bytes_bits l))) in H. by rewrite !packed_bits, !trim_pad8, !trim_idem in H.
Qed.

Lemma memcmp_zero a b : bytes_ok a -> bytes_ok b -> length a = length b -> Z.sgn (memcmp a b) = 0 -> a = b.
Proof.
  intros Ha Hb Hl H. rewrite memcmp_ok in H by done. assert (Heq : be_val a = be_val b) by lia.
  apply (f_equal (be_bytes (length a))) in Heq. by rewrite be_bytes_be_val, Hl, be_bytes_be_val in Heq by done.
Qed.

Lemma memcmp_swap a : forall b, memcmp b a = - memcmp a b.
Proof.
  induction a as [|x a IH]; intros [|y b]; try done. cbn [memcmp]. rewrite (Z.eqb_sym y x).
  destruct (x =? y); [apply IH|lia].
Qed.

Lemma compare_swap a b : compare_compact b a = - compare_compact a b.
Proof.
  unfold compare_compact.
  replace (if size b <=? size a then size b else size a) with (if size a <=? size b then size a else size b) by (zcases; lia).
  set (n := Z.to_nat _). rewrite (memcmp_swap (take n (bs_buf a))). zcases; lia.
Qed.

Lemma bits_compare_swap s t : bits_compare t s = - bits_compare s t.
Proof. unfold bits_compare. rewrite <- Z.sgn_opp. f_equal. lia. Qed.

Lemma compare_shorter s t : let p := bit_string (trim s) in let q := bit_string (trim t) in
  size p <= size q -> Z.sgn (compare_compact p q) = bits_compare s t.
Proof.
  cbn zeta. rewrite <- bits_compare_trim, bits_compare_packed. unfold compare_compact. cbn [bit_string bs_buf bits_unused].
  pose proof (packed_ok (trim s)) as Hs. pose proof (packed_ok (trim t)) as Ht.
  pose proof (packed_trim_pos t) as Hpt. pose proof (packed_inj s t) as Hinj.
  set (p := packed (trim s)) in *. set (q := packed (trim t)) in *. intros Hle.
  destruct (Z.leb_spec (Z.of_nat (length p)) (Z.of_nat (length q))); [|lia]. rewrite Nat2Z.id, (take_ge p) by done.
  pose proof (take_drop (length p) q) as Hq.
  assert (Hl : length p = length (take (length p) q)) by (rewrite length_take; lia).
  pose proof (be_val_prefix p (take (length p) q) (drop (length p) q) Hs (Forall_take _ _ _ Ht) (Forall_drop _ _ _ Ht) Hl
    (fun _ => Hpt _ _ (eq_sym Hq))) as Hv. rewrite Hq, length_drop in Hv.
  rewrite <- (sgn_scale _ _ (8 * Z.of_nat (length p))), <- Z.mul_assoc, <- pow2_split in Hv by lia.
  replace (8 * Z.of_nat (length q - length p) + 8 * Z.of_nat (length p)) with (8 * Z.of_nat (length q)) in Hv by lia.
  rewrite Hv. clear Hv. set (r := memcmp p (take (length p) q)) in *.
  destruct (Z.eqb_spec r 0) as [E|E]; [|destruct (Z.eqb_spec (Z.sgn r) 0); [lia|done]].
  rewrite E. cbn [Z.sgn Z.eqb]. destruct (Z.ltb_spec (Z.of_nat (length p)) (Z.of_nat (length q))).
  - rewrite bool_decide_false; [done|]. intros Hn%(f_equal length). rewrite length_drop in Hn. cbn in Hn. lia.
  - rewrite bool_decide_true by (apply drop_ge; lia). zcase. unfold r in E.
    assert (Heq : p = q) by (rewrite (take_ge q) in * by lia; apply memcmp_zero; [done|done|lia|by rewrite E]).
    rewrite (Hinj Heq). by rewrite Z.ltb_irrefl.
Qed.

Lemma compactify_bit_string s : BIT_STRING__compactify (bit_string s) = Some (bit_string (trim s)).
Proof.
  rewrite compactify_ok; cbn [bit_string bs_buf bits_unused]; [by rewrite packed_bits, trim_pad8|apply packed_ok|].
  intros Hnil%(f_equal (fun l => Z.of_nat (length l))). rewrite length_packed in Hnil. cbn in Hnil.
  Z.div_mod_to_equations; lia.
Qed.

Lemma compare_ok s t : exists r, BIT_STRING_compare (bit_string s) (bit_string t) = Some r /\ Z.sgn r = bits_compare s t.
Proof.
  unfold BIT_STRING_compare. rewrite !compactify_bit_string. cbn [mbind option_bind]. eexists. split; [done|].
  destruct (Z.le_ge_cases (size (bit_string (trim s))) (size (bit_string (trim t)))) as [H|H].
  - by apply compare_shorter.
  - rewrite compare_swap, bits_compare_swap, <- (compare_shorter t s H). lia.
Qed.

Lemma bits_compare_eq s t : bits_compare s t = 0 <-> trim s = trim t.
Proof.
  split; intros H.
  - assert (Heq : s ++ replicate (length t) false = t ++ replicate (length s) false).
    { apply bits_val_inj; [rewrite !length_app, !length_replicate; lia|]. rewrite !bits_val_zeros. unfold bits_compare in H. lia. }
    apply (f_equal trim) in Heq. by rewrite !trim_app_zeros in Heq.
  - rewrite <- bits_compare_trim, H. unfold bits_compare. by rewrite Z.sub_diag.
Qed.

(** ** Lemmas: packed encoding *)

Definition bit_units (bs : list bool) : list (list bool) := (fun b => [b]) <$> bs.

Lemma concat_bit_units bs : concat (bit_units bs) = bs.
Proof. induction bs as [|b bs IH]; [done|]. cbn. by rewrite <- IH at 2. Qed.

Section Spec.
Context (size_constraint : option asn_per_constraint_t).
#[local] Abbreviation csiz := (bs_csiz size_constraint).

(** The value [bs], whose octets start [buf], behind length determinants. *)
Lemma bs_put_loop_ok {S} `{HC : Consumer S} `{HA : !AppendConsumer S} fuel bs buf (po : asn_bit_outp S) :
  bytes_ok buf -> take (length bs) (bytes_bits buf) = bs -> (length bs < fuel)%nat -> po_wf po ->
  put_res po (frag_bits fuel (bit_units bs)) (bs_put_loop fuel (Z.of_nat (length bs)) buf po) 0.
Proof.
  revert bs buf po. induction fuel as [|fuel IH]; intros bs buf po Hok Hbs Hf Hw; [lia|].
  cbn [bs_put_loop frag_bits]. unfold bit_units. rewrite length_fmap. set (n := Z.of_nat (length bs)).
  destruct (frag_step n) as (Hfr & Hpos & _); [lia|]. set (f := Z.to_nat (length_fragment n)).
  rewrite <- fmap_take, <- fmap_drop. fold (bit_units (take f bs)) (bit_units (drop f bs)). rewrite concat_bit_units.
  apply (put_res_bind _ _ _ _ (length_fragment n, length_needs_eom n)).
  { destruct (uper_put_length_ok po n) as (po' & ? & ? & ?); [lia|done|by exists po']. }
  intros po1 Hw1. cbn beta iota. zcase.
  pose proof (f_equal length Hbs) as Hlen. rewrite length_take, length_bytes_bits in Hlen.
  eapply put_res_bind.
  { destruct (put_many_ok po1 buf (length_fragment n)) as (po2 & Hr & Hw2 & Hb); [done|done|lia|].
    exists po2. split_and!; [exact Hr|done|]. rewrite Hb. f_equal. fold f. rewrite <- Hbs at 1.
    rewrite take_take. f_equal. lia. }
  intros po2 Hw2. cbn [negb Z.eqb].
  assert (Hassert : negb (Z.land (length_fragment n) 7 =? 0) && negb (n - length_fragment n =? 0) = false).
  { destruct (Z.eqb_spec (n - length_fragment n) 0); [by rewrite andb_false_r|]. by rewrite fragment_octets by lia. }
  rewrite Hassert. apply (put_res_bind _ _ _ _ 0).
  { destruct (length_needs_eom n); [|by apply put_res_ret].
    apply (put_res_map _ _ _ (0, false)); [|done].
    destruct (uper_put_length_ok po2 0) as (po' & ? & ? & ?); [lia|done|by exists po']. }
  intros po3 Hw3. cbn [negb Z.eqb]. destruct (Z.eqb_spec (n - length_fragment n) 0) as [Hall|Hmore].
  - rewrite drop_ge by lia. by apply put_res_ret.
  - rewrite bool_decide_false by (intros Hnil%(f_equal length); unfold bit_units in Hnil; rewrite length_fmap, length_drop in Hnil; cbn in Hnil; lia).
    replace (n - length_fragment n) with (Z.of_nat (length (drop f bs))) by (rewrite length_drop; lia).
    pose proof (fragment_octets n ltac:(lia) ltac:(lia)) as H7. change 7 with (2 ^ 3 - 1) in H7. rewrite land_ones_mod in H7 by lia.
    change (2 ^ 3) with 8 in H7.
    assert (H8 : f = (8 * Z.to_nat (length_fragment n ≫ 3))%nat) by (rewrite shiftr_div by lia; Z.div_mod_to_equations; lia).
    apply IH; [by apply Forall_drop| |rewrite length_drop; lia|done].
    rewrite <- drop_bytes_bits, <- H8, length_drop, take_drop_commute.
    replace (f + (length bs - f))%nat with (length bs) by lia. by rewrite Hbs.
Qed.

Lemma get_bits_at (pd : asn_per_data) bs rest : pd_at pd (bs ++ rest) ->
  get_res pd (Z.of_nat (length bs)) rest (per_get_many_bits pd false (Z.of_nat (length bs))) (0, packed bs).
Proof.
  intros Hat. pose proof (pd_at_left _ _ Hat) as Hl. rewrite length_app in Hl. pose proof Hat as (Hw & Hr & Hb).
  destruct (get_many_ok 0 pd (Z.of_nat (length bs))) as (oct & pd' & Hget & Hoo & Hbits & Hrd); [done|lia|].
  exists pd'. unfold per_get_many_bits. rewrite Hget, app_nil_l. rewrite Nat2Z.id, Hb, take_app_length in Hbits.
  rewrite (padded_octets_eq oct bs) by done. split_and!; [done| |done]. by apply (pd_read_at pd (Z.of_nat (length bs)) pd' bs); [lia|..].
Qed.

Lemma get_nothing (pd : asn_per_data) : per_get_many_bits pd false 0 = Some (0, [], pd).
Proof. done. Qed.

(** Octets added to a string of whole octets. *)
Lemma bit_string_app p c : (length p mod 8 = 0)%nat ->
  {| bs_buf := bs_buf (bit_string p) ++ packed c;
     bits_unused := if negb (Z.land (Z.of_nat (length c)) 7 =? 0) then 8 - Z.land (Z.of_nat (length c)) 7
                    else bits_unused (bit_string p) |} = bit_string (p ++ c).
Proof.
  intros Hp. unfold bit_string. cbn [bs_buf bits_unused]. rewrite packed_app by done. f_equal.
  change 7 with (2 ^ 3 - 1). rewrite land_ones_mod, length_app by lia. change (2 ^ 3) with 8.
  pose proof (Nat.div_mod_eq (length p) 8). destruct (Z.eqb_spec (Z.of_nat (length c) mod 8) 0); cbn [negb];
    Z.div_mod_to_equations; lia.
Qed.

(** One iteration of the reader. *)
Lemma bs_get_step siz fuel allocated p (pd : asn_per_data) n chunk tl : effective_bits siz < 0 ->
  (length p mod 8 = 0)%nat -> 0 <= n -> Z.of_nat (length chunk) = length_fragment n ->
  pd_at pd (length_bits n ++ chunk ++ tl) ->
  exists pd', bs_get_loop (S fuel) siz allocated (bit_string p) pd =
      (if 16384 <=? n then bs_get_loop fuel siz true (bit_string (p ++ chunk)) pd'
       else Some (RC_OK, bit_string (p ++ chunk), pd')) /\
    pd_at pd' tl /\ pd_read pd (Z.of_nat (length (length_bits n ++ chunk))) pd'.
Proof.
  intros He Hp Hn Hlen Hat. cbn [bs_get_loop].
  assert (Hl : uper_get_length pd (effective_bits siz) (lower_bound siz) = uper_get_length pd (-1) 0)
    by (unfold uper_get_length; by zcase).
  rewrite Hl. destruct (uper_get_length_at pd n _ Hn Hat) as (pd1 & -> & Hat1 & Hrd1). cbn [mbind option_bind].
  destruct (frag_step n) as (Hfr & _ & Hsmall & _); [lia|].
  destruct (Z.ltb_spec (length_fragment n) 0); [lia|]. rewrite length_app, Nat2Z.inj_add.
  destruct ((length_fragment n =? 0) && allocated) eqn:E0.
  - apply andb_true_iff in E0 as [E0 _]. assert (chunk = []) as -> by (destruct chunk; [done|cbn in Hlen; lia]).
    exists pd1. destruct (Z.leb_spec 16384 n) as [Hbig|_].
    { unfold length_fragment in E0. revert E0. zcases; intros; try lia; Z.div_mod_to_equations; lia. }
    rewrite app_nil_r, Z.add_0_r. done.
  - rewrite <- Hlen. destruct (get_bits_at pd1 chunk tl Hat1) as (pd2 & -> & Hat2 & Hrd2).
    cbn [mbind option_bind Z.ltb Z.compare]. exists pd2. rewrite bit_string_app by done. split_and!; [done|done|].
    eapply pd_read_trans; [lia..|done|done].
Qed.

(** A fragment that another one follows is whole octets. *)
Lemma fragment_whole (p bs : list bool) : let n := Z.of_nat (length bs) in (length p mod 8 = 0)%nat -> 16384 <= n ->
  (length (p ++ take (Z.to_nat (length_fragment n)) bs) mod 8 = 0)%nat.
Proof.
  cbn zeta. intros Hp Hn. destruct (frag_step (Z.of_nat (length bs))) as (Hfr & _); [lia|].
  rewrite length_app, length_take, Nat.min_l by lia.
  assert (Hf8 : (Z.to_nat (length_fragment (Z.of_nat (length bs))) mod 8 = 0)%nat).
  { unfold length_fragment. zcase.
    replace (Z.to_nat (16384 * _)) with (Z.to_nat (2048 * Z.min 4 (Z.of_nat (length bs) / 16384)) * 8)%nat by lia.
    apply Nat.Div0.mod_mul. }
  by rewrite Nat.Div0.add_mod, Hp, Hf8.
Qed.

Lemma bs_get_fragments siz fuel fuel' bs p allocated (pd : asn_per_data) rest :
  effective_bits siz < 0 -> (length p mod 8 = 0)%nat -> (length bs < fuel')%nat ->
  (length (frag_bits fuel' (bit_units bs)) <= 8 * fuel)%nat ->
  pd_at pd (frag_bits fuel' (bit_units bs) ++ rest) ->
  get_res pd (Z.of_nat (length (frag_bits fuel' (bit_units bs)))) rest
    ('(code, st, pd) ← bs_get_loop fuel siz allocated (bit_string p) pd; Some ((code, st), pd))
    (RC_OK, bit_string (p ++ bs)).
Proof.
  intros He. revert fuel bs p allocated pd.
  induction fuel' as [|fuel' IH]; intros fuel bs p allocated pd Hp Hf' Hf Hat; [lia|].
  cbn [frag_bits] in *. assert (Hlu : forall l, length (bit_units l) = length l) by (intros; apply length_fmap).
  rewrite Hlu in *. set (n := Z.of_nat (length bs)) in *.
  destruct (frag_step n) as (Hfr & Hpos & Hsmall & Heom); [lia|].
  set (f := Z.to_nat (length_fragment n)) in *.
  assert (Htake : take f (bit_units bs) = bit_units (take f bs)) by (unfold bit_units; by rewrite fmap_take).
  assert (Hdrop : drop f (bit_units bs) = bit_units (drop f bs)) by (unfold bit_units; by rewrite fmap_drop).
  rewrite Htake, Hdrop, concat_bit_units in *.
  assert (Hlen : Z.of_nat (length (take f bs)) = length_fragment n) by (rewrite length_take; lia).
  pose proof (length_bits_ge n) as H8. rewrite <- !app_assoc in Hat.
  destruct fuel as [|fuel]; [rewrite length_app in Hf; lia|].
  destruct (bs_get_step siz fuel allocated p pd n (take f bs) _ He Hp ltac:(lia) Hlen Hat)
    as (pd1 & -> & Hat1 & Hrd1).
  rewrite app_assoc in Hf |- *. rewrite length_app in Hf |- *. rewrite Nat2Z.inj_add.
  assert (H8' : (8 <= length (length_bits n ++ take f bs))%nat) by (rewrite length_app; lia).
  rewrite Heom in *. destruct (Z.leb_spec 16384 n); cbn [andb] in *.
  2: { rewrite drop_ge, take_ge in * by lia. rewrite bool_decide_true in * by done.
       cbn [app length] in *. exists pd1. rewrite Z.add_0_r. done. }
  assert (Hp' : (length (p ++ take f bs) mod 8 = 0)%nat) by (apply fragment_whole; [done|lia..]).
  destruct (Z.eqb_spec n (length_fragment n)) as [Hall|Hmore].
  - rewrite drop_ge, take_ge in * by lia. rewrite bool_decide_true in * by done.
    rewrite app_nil_r in *. destruct fuel as [|fuel]; [pose proof (length_bits_ge 0); lia|].
    destruct (bs_get_step siz fuel true (p ++ bs) pd1 0 [] rest) as (pd2 & -> & Hat2 & Hrd2);
      [done|done|lia|done|exact Hat1|].
    cbn [Z.leb Z.compare mbind option_bind] in *. rewrite !app_nil_r in *. exists pd2.
    split_and!; [done|done|]. eapply pd_read_trans; [lia..|done|done].
  - rewrite bool_decide_false in * by (intros Hnil%(f_equal length); rewrite Hlu, length_drop in Hnil; cbn in Hnil; lia).
    cbn [app] in *. destruct (IH fuel (drop f bs) (p ++ take f bs) true pd1) as (pd2 & Hr & Hat2 & Hrd2).
    + done.
    + rewrite length_drop. lia.
    + lia.
    + exact Hat1.
    + exists pd2. rewrite Hr, <- app_assoc, take_drop. split_and!; [done|done|].
      eapply pd_read_trans; [lia..|done|done].
Qed.

(** ** Specification of packed encoding *)

(** Whether a string of [n] bits without trailing zeros is too long. *)
Definition bs_outside (n : Z) : bool := (0 <=? effective_bits csiz) && (upper_bound csiz <? n).

Definition bs_counted (n : Z) : bool := (0 <=? effective_bits csiz) && negb (bs_outside n).

(** What is kept of a string: no trailing zeros but those the size constraint
    asks for. *)
Definition bs_norm (bs : list bool) : list bool :=
  let t := trim bs in
  let n := Z.of_nat (length t) in
  t ++ (if bs_counted n then replicate (Z.to_nat (lower_bound csiz - n)) false else []).

Definition bs_uper_bits (bs : list bool) : list bool :=
  let n := Z.of_nat (length (trim bs)) in
  (if has_flag csiz APC_EXTENSIBLE then [bs_outside n] else []) ++
  (if bs_counted n
   then val_bits (Z.to_nat (effective_bits csiz)) (Z.of_nat (length (bs_norm bs)) - lower_bound csiz) ++ bs_norm bs
   else frags (bit_units (trim bs))).

(** A string that is too long needs an extensible constraint; the range of
    sizes fits its bits, and a fixed size has equal bounds. *)
Definition bs_dom (bs : list bool) : Prop :=
  let n := Z.of_nat (length (trim bs)) in
  let e := effective_bits csiz in
  (bs_outside n = true -> has_flag csiz APC_EXTENSIBLE = true) /\
  (bs_counted n = true -> e <= 16 /\ 0 <= lower_bound csiz < 2 ^ 63 /\ n < 2 ^ 63 /\
     Z.max n (lower_bound csiz) - lower_bound csiz < 2 ^ e /\
     (e = 0 -> lower_bound csiz = upper_bound csiz)).

Lemma length_norm bs : bs_counted (Z.of_nat (length (trim bs))) = true -> 0 <= lower_bound csiz ->
  Z.of_nat (length (bs_norm bs)) = Z.max (Z.of_nat (length (trim bs))) (lower_bound csiz).
Proof. intros Hc Hl. unfold bs_norm. rewrite Hc, length_app, length_replicate. lia. Qed.

Lemma trim_norm bs : trim (bs_norm bs) = trim bs.
Proof. unfold bs_norm. case_match; [by rewrite trim_app_zeros, trim_idem|by rewrite app_nil_r, trim_idem]. Qed.

Lemma put_zeros_ok {S} `{HC : Consumer S} `{HA : !AppendConsumer S} fuel (po : asn_bit_outp S) n : po_wf po -> 0 <= n ->
  (Z.to_nat n < fuel)%nat -> put_res po (replicate (Z.to_nat n) false) (put_zeros fuel po n) 0.
Proof.
  revert po n. induction fuel as [|fuel IH]; intros po n Hw Hn Hf; [lia|]. cbn [put_zeros].
  destruct (Z.ltb_spec 0 n); [|replace n with 0 by lia; by apply put_res_ret].
  set (m := if 128 <? n then 128 else n). assert (Hm : 0 < m <= n /\ m <= 128) by (unfold m; zcases; lia).
  replace (Z.to_nat n) with (Z.to_nat m + Z.to_nat (n - m))%nat by lia. rewrite replicate_add.
  eapply put_res_bind.
  { destruct (put_many_ok po (replicate 16 0) m) as (po' & Hr & Hw' & Hb);
      [done|repeat constructor; lia|rewrite length_replicate; lia|].
    exists po'. split_and!; [exact Hr|done|]. rewrite Hb, bytes_zeros, take_replicate. do 3 f_equal. lia. }
  intros po' Hw'. cbn [negb Z.eqb]. apply IH; [done|lia|lia].
Qed.

Lemma put_bits_ok {S} `{HC : Consumer S} `{HA : !AppendConsumer S} (po : asn_bit_outp S) t : po_wf po ->
  put_res po t (asn_put_many_bits po (packed t) (Z.of_nat (length t))) 0.
Proof.
  intros Hw. destruct (put_many_ok po (packed t) (Z.of_nat (length t))) as (po' & Hr & Hw' & Hb);
    [done|apply packed_ok|rewrite length_packed; Z.div_mod_to_equations; lia|].
  exists po'. split_and!; [exact Hr|done|]. rewrite Hb, packed_bits, Nat2Z.id. unfold pad8. by rewrite take_app_length.
Qed.

Lemma bit_string_ready bs : ((size (bit_string bs) =? 0) && negb (bits_unused (bit_string bs) =? 0)) ||
  negb (Z.land (bits_unused (bit_string bs)) (Z.lnot 7) =? 0) = false.
Proof.
  cbn [bit_string bs_buf bits_unused]. change (Z.lnot 7) with (Z.lnot (2 ^ 3 - 1)). rewrite land_clear_low, length_packed by lia.
  rewrite shiftr_div by lia. rewrite (Z.div_small (- _ mod 8)) by (change (2 ^ 3) with 8; apply Z.mod_pos_bound; lia).
  rewrite Z.shiftl_0_l, orb_false_r. destruct (Z.eqb_spec ((Z.of_nat (length bs) + 7) / 8) 0); [|done].
  destruct (Z.eqb_spec (- Z.of_nat (length bs) mod 8) 0); [done|]. Z.div_mod_to_equations; lia.
Qed.

Lemma bs_encode_ok {S} `{HC : Consumer S} `{HA : !AppendConsumer S} bs (po : asn_bit_outp S) : bs_dom bs -> po_wf po ->
  put_res po (bs_uper_bits bs) (BIT_STRING_encode_uper size_constraint (bit_string bs) po) 0.
Proof.
  intros (Hout & Hcnt) Hw. unfold BIT_STRING_encode_uper. rewrite bit_string_ready, compactify_bit_string.
  cbn [mbind option_bind]. rewrite bit_string_size. unfold bs_uper_bits.
  fold (bs_outside (Z.of_nat (length (trim bs)))). set (n := Z.of_nat (length (trim bs))) in *. cbn zeta.
  destruct (bs_outside n && negb (has_flag csiz APC_EXTENSIBLE)) eqn:Eo.
  { apply andb_true_iff in Eo as [Eo En]. by rewrite Hout in En. }
  apply (put_res_bind _ _ _ _ 0).
  { destruct (has_flag _ _); [|by apply put_res_ret].
    pose proof (per_put_few_ok po (Z.b2z (bs_outside n)) 1 Hw ltac:(lia)) as Hput. by destruct (bs_outside n). }
  intros po1 Hw1. cbn [negb Z.eqb].
  assert (Hloop : put_res po1 (frags (bit_units (trim bs)))
    (bs_put_loop (Datatypes.S (Z.to_nat n)) n (bs_buf (bit_string (trim bs))) po1) 0).
  { unfold frags, bit_units. rewrite length_fmap. unfold n. rewrite Nat2Z.id.
    apply bs_put_loop_ok; [apply packed_ok| |lia|done]. cbn [bit_string bs_buf]. rewrite packed_bits. apply take_app_length. }
  pose proof (length_norm bs) as Hlen. fold n in Hlen. unfold bs_norm in *. cbn zeta in *. fold n in Hlen |- *.
  destruct (bs_counted n) eqn:Ec.
  - destruct (Hcnt eq_refl) as (H16 & Hlb & Hn & Hfit & _). unfold bs_counted in Ec.
    apply andb_true_iff in Ec as [He Eo']. apply negb_true_iff in Eo'. rewrite Eo', He. cbn [andb negb].
    apply Z.leb_le in He. rewrite Hlen by (done || lia).
    eapply put_res_bind.
    { replace (Z.max n (lower_bound csiz) - lower_bound csiz) with
        (if n <? lower_bound csiz then 0 else n - lower_bound csiz) by (zcase; lia).
      apply per_put_few_ok; [done|lia]. }
    intros po2 Hw2. cbn [negb Z.eqb]. eapply put_res_bind; [by apply put_bits_ok|].
    intros po3 Hw3. cbn [negb Z.eqb]. destruct (Z.ltb_spec n (lower_bound csiz)); [apply put_zeros_ok; lia || done|].
    replace (Z.to_nat (lower_bound csiz - n)) with 0%nat by lia. by apply put_res_ret.
  - unfold bs_counted in Ec. destruct (bs_outside n) eqn:Eo'; [by rewrite andb_false_r|].
    rewrite andb_true_r in Ec. by rewrite Ec.
Qed.

Lemma bs_decode_frags siz bs (pd : asn_per_data) rest : effective_bits siz < 0 ->
  pd_at pd (frags (bit_units bs) ++ rest) ->
  dec_res pd (Z.of_nat (length (frags (bit_units bs)))) rest (bs_decode_sized siz pd) (bit_string bs).
Proof.
  intros He Hat. unfold bs_decode_sized. destruct (Z.eqb_spec (effective_bits siz) 0); [lia|].
  destruct (Z.leb_spec 0 (effective_bits siz)); [lia|]. unfold frags, bit_units in *. rewrite length_fmap in *.
  fold (bit_units bs) in *. destruct (bs_get_fragments siz (os_fuel pd) (S (length bs)) bs [] false pd rest) as (pd' & Hr & ? & ?);
    [done|done|lia|by eapply os_fuel_enough|done|]. change (bit_string []) with {| bs_buf := []; bits_unused := 0 |} in Hr.
  destruct (bs_get_loop _ _ _ _ _) as [[[c b] p]|]; [|done]. injection Hr as -> -> ->. by exists pd'.
Qed.

(** A string of the size the constraint allows. *)
Lemma bs_decode_counted bs (pd : asn_per_data) rest : let n := Z.of_nat (length bs) in let e := effective_bits csiz in
  0 <= e <= 16 -> 0 <= lower_bound csiz <= n -> n - lower_bound csiz < 2 ^ e -> n < 2 ^ 63 -> (e = 0 -> n = upper_bound csiz) ->
  pd_at pd ((val_bits (Z.to_nat e) (n - lower_bound csiz) ++ bs) ++ rest) ->
  dec_res pd (Z.of_nat (length (val_bits (Z.to_nat e) (n - lower_bound csiz) ++ bs))) rest
    (bs_decode_sized csiz pd) (bit_string bs).
Proof.
  cbn zeta. set (n := Z.of_nat (length bs)). set (e := effective_bits csiz).
  intros He Hlb Hfit Hn Hub Hat. unfold bs_decode_sized. fold e. rewrite <- app_assoc in Hat. destruct (Z.eqb_spec e 0) as [E|E].
  - rewrite E in Hat |- *. cbn [Z.to_nat val_bits app] in *. rewrite <- Hub by done.
    destruct (get_bits_at pd bs rest Hat) as (pd' & Hg & ? & ?). fold n in Hg. rewrite Hg.
    cbn [mbind option_bind Z.ltb Z.compare]. exists pd'. split_and!; [|done|done].
    unfold bit_string. change 7 with (2 ^ 3 - 1). rewrite !land_ones_mod by lia. change (2 ^ 3) with 8. do 5 f_equal.
    unfold n. Z.div_mod_to_equations; lia.
  - destruct (Z.leb_spec 0 e); [|lia]. unfold os_fuel. cbn [bs_get_loop]. unfold uper_get_length. fold e. zcases.
    cbn [andb]. destruct (per_get_few_at pd e _ _ ltac:(lia) Hat) as (pd1 & -> & Hat1 & Hrd1).
    cbn [mbind option_bind]. rewrite Z.mod_small by lia.
    destruct (Z.leb_spec 0 (n - lower_bound csiz)); [|lia]. rewrite Z.sub_add, s64_small by lia.
    cbn [mbind option_bind]. destruct (Z.ltb_spec n 0); [lia|]. rewrite length_app, length_val_bits, Nat2Z.inj_add, Z2Nat.id by lia.
    destruct (Z.eqb_spec n 0) as [E0|E0]; cbn [andb].
    + assert (bs = []) as -> by (destruct bs; [done|unfold n in E0; cbn [length] in E0; lia]).
      exists pd1. by rewrite Z.add_0_r.
    + destruct (get_bits_at pd1 bs rest Hat1) as (pd2 & Hg & Hat2 & Hrd2). fold n in Hg. rewrite Hg.
      cbn [mbind option_bind Z.ltb Z.compare]. exists pd2. split_and!; [|done|].
      * pose proof (bit_string_app [] bs eq_refl) as Hb. unfold n. cbn [app] in Hb |- *. by rewrite <- Hb.
      * eapply pd_read_trans; [lia..|done|done].
Qed.

Lemma bs_decode_ok bs (pd : asn_per_data) rest : bs_dom bs -> pd_at pd (bs_uper_bits bs ++ rest) ->
  dec_res pd (Z.of_nat (length (bs_uper_bits bs))) rest (BIT_STRING_decode_uper size_constraint pd) (bit_string (bs_norm bs)).
Proof.
  intros (Hout & Hcnt) Hat. unfold BIT_STRING_decode_uper. unfold bs_uper_bits in *.
  set (n := Z.of_nat (length (trim bs))) in *. cbn zeta in *. set (body := if bs_counted n then _ else _) in *.
  assert (Hbody : forall pd, pd_at pd (body ++ rest) -> dec_res pd (Z.of_nat (length body)) rest
    (bs_decode_sized (if bs_outside n then asn_DEF_BIT_STRING_constraint_size else csiz) pd) (bit_string (bs_norm bs))).
  { intros pd1 Hat1. pose proof (length_norm bs) as Hlen. fold n in Hlen. subst body. destruct (bs_counted n) eqn:Ec.
    - destruct (Hcnt eq_refl) as (H16 & Hlb & Hn & Hfit & Hfix). specialize (Hlen eq_refl ltac:(lia)).
      unfold bs_counted in Ec. apply andb_true_iff in Ec as [He Eo]. apply negb_true_iff in Eo. rewrite Eo.
      apply Z.leb_le in He. apply bs_decode_counted; [lia|lia|lia|lia| |exact Hat1].
      intros E. unfold bs_outside in Eo. rewrite (proj2 (Z.leb_le _ _) He) in Eo. cbn [andb] in Eo. specialize (Hfix E). lia.
    - unfold bs_norm. cbn zeta. fold n. rewrite Ec, app_nil_r. apply bs_decode_frags; [|done].
      unfold bs_counted in Ec. destruct (bs_outside n); [done|]. rewrite andb_true_r in Ec. by apply Z.leb_gt in Ec. }
  destruct (has_flag csiz APC_EXTENSIBLE) eqn:Ef.
  - cbn [app] in Hat. destruct (get_bit pd (bs_outside n) _ Hat) as (pd1 & -> & Hat1 & Hrd1). cbn [mbind option_bind].
    destruct (Hbody pd1 Hat1) as (pd2 & Hr & Hat2 & Hrd2). exists pd2. split_and!; [|done|].
    + by destruct (bs_outside n).
    + cbn [app length]. rewrite Nat2Z.inj_succ, <- Z.add_1_l. eapply pd_read_trans; [lia..|done|done].
  - cbn [app] in *. destruct (bs_outside n) eqn:Eo; [by specialize (Hout eq_refl)|]. by apply Hbody.
Qed.
End Spec.

Section Natural.
Context {S1 S2 : Type} `{C1 : Consumer S1} `{C2 : Consumer S2} (f : S1 -> S2).
Hypothesis Hf : consumer_morphism f.

Lemma put_zeros_map fuel po n : put_zeros fuel (po_map f po) n = res_map f (put_zeros fuel po n).
Proof. revert po n. induction fuel as [|fuel IH]; intros po n; [done|]. cbn [put_zeros]. natural. Qed.
#[local] Hint Resolve put_zeros_map : natural.

Lemma bs_put_loop_map fuel n buf po : bs_put_loop fuel n buf (po_map f po) = res_map f (bs_put_loop fuel n buf po).
Proof. revert n buf po. induction fuel as [|fuel IH]; intros n buf po; [done|]. cbn [bs_put_loop]. natural. Qed.
#[local] Hint Resolve bs_put_loop_map : natural.

Lemma bs_encode_map sc st po : BIT_STRING_encode_uper sc st (po_map f po) = res_map f (BIT_STRING_encode_uper sc st po).
Proof. unfold BIT_STRING_encode_uper. destruct (BIT_STRING__compactify st) as [c|]; natural. Qed.
End Natural.

(** Strings in the form the decoder makes keep the contract of packed
    encoding. *)
Definition bit_string_per_laws sc : @PerTypeLaws BIT_STRING_t (BIT_STRING_per sc).
Proof.
  unshelve refine (@Build_PerTypeLaws _ (BIT_STRING_per sc)
    (fun st => exists bs, st = bit_string bs /\ bs_norm sc bs = bs /\ bs_dom sc bs)
    (fun st => bs_uper_bits sc (bs_bits st)) _ _).
  - eexists. split; [reflexivity|]. split.
    + intros S C A po st (bs & -> & _ & Hd) Hw. rewrite bs_bits_bit_string. exists 0. split; [done|]. by apply bs_encode_ok.
    + intros S1 S2 C1 C2 f Hf po st. by apply bs_encode_map.
  - eexists. split; [reflexivity|]. intros pd st rest (bs & -> & Hn & Hd). rewrite bs_bits_bit_string. intros Hat.
    pose proof (bs_decode_ok sc bs pd rest Hd Hat) as Hr. by rewrite Hn in Hr.
Defined.

(** ** Lemmas: octet encoding *)

(** What is sent of the octets: the unused bits are cleared when a used bit
    of the last octet is set. *)
Definition sent_octets (st : BIT_STRING_t) : list Z :=
  if negb (bits_unused st =? 0) &&
     bool_decide ((fun last => negb (Z.land last (255 ≪ bits_unused st) =? 0)) <$> last (bs_buf st) = Some true)
  then alter (fun b => u8 (Z.land b (255 ≪ bits_unused st))) (length (bs_buf st) - 1)%nat (bs_buf st)
  else bs_buf st.

Definition bs_valid (st : BIT_STRING_t) : Prop :=
  bytes_ok (bs_buf st) /\ 0 <= bits_unused st <= 7 /\ (bs_buf st = [] -> bits_unused st = 0).

Definition bs_oer_octets (ct_size : Z) (st : BIT_STRING_t) : list Z :=
  (if 0 <=? ct_size then [] else oer_length_octets (1 + size st) ++ [bits_unused st]) ++ sent_octets st.

(** The size constraint, if there is one, and a size the length takes. *)
Definition bs_oer_fits (ct_size : Z) (st : BIT_STRING_t) : Prop :=
  if 0 <=? ct_size then 8 * size st - bits_unused st = ct_size else 1 + size st <= RSIZE_MAX.

Lemma mask_byte b u : byte_ok b -> 0 <= u <= 7 ->
  u8 (Z.land b (255 ≪ u)) = (b ≫ u) ≪ u /\ Z.land b (u8 (255 ≪ u)) = (b ≫ u) ≪ u /\
  byte_bits ((b ≫ u) ≪ u) = take (Z.to_nat (8 - u)) (byte_bits b) ++ replicate (Z.to_nat u) false.
Proof.
  intros Hb Hu.
  assert (Hall : forallb (fun u => forallb (fun b => (u8 (Z.land b (255 ≪ u)) =? (b ≫ u) ≪ u) &&
    (Z.land b (u8 (255 ≪ u)) =? (b ≫ u) ≪ u) && bool_decide (byte_bits ((b ≫ u) ≪ u) =
      take (Z.to_nat (8 - u)) (byte_bits b) ++ replicate (Z.to_nat u) false)) (seqZ 0 256)) (seqZ 0 8) = true)
    by (vm_compute; reflexivity).
  rewrite forallb_forall in Hall. specialize (Hall u ltac:(apply list_elem_of_In, elem_of_seqZ; lia)). cbn beta in Hall.
  rewrite forallb_forall in Hall. specialize (Hall b ltac:(apply list_elem_of_In, elem_of_seqZ; unfold byte_ok in *; lia)).
  rewrite !andb_true_iff, !Z.eqb_eq, bool_decide_eq_true in Hall. tauto.
Qed.

Lemma alter_last (f : Z -> Z) l b : alter f (length (l ++ [b]) - 1)%nat (l ++ [b]) = l ++ [f b].
Proof.
  rewrite length_app. cbn [length]. replace (length l + 1 - 1)%nat with (length l + 0)%nat by lia.
  by rewrite alter_app_r.
Qed.

(** A masked last octet ends the string of the used bits. *)
Lemma packed_masked l b u : bytes_ok l -> byte_ok b -> 0 <= u <= 7 ->
  l ++ [(b ≫ u) ≪ u] = packed (bs_bits {| bs_buf := l ++ [b]; bits_unused := u |}).
Proof.
  intros Hl Hb Hu. destruct (mask_byte b u Hb Hu) as (H1 & _ & H3).
  assert (Hbits : bs_bits {| bs_buf := l ++ [b]; bits_unused := u |} = bytes_bits l ++ take (Z.to_nat (8 - u)) (byte_bits b)).
  { unfold bs_bits. cbn [bs_buf bits_unused]. rewrite bytes_bits_app, length_app. cbn [bytes_bits mbind list_bind length].
    rewrite app_nil_r, take_app_ge by (rewrite length_bytes_bits; lia). do 2 f_equal. rewrite length_bytes_bits. lia. }
  rewrite Hbits. apply padded_octets_eq.
  - apply bytes_ok_app; [done|]. apply bytes_ok_cons; [|apply bytes_ok_nil]. rewrite <- H1. unfold u8, byte_ok.
    change (2 ^ 8) with 256. apply Z.mod_pos_bound. lia.
  - rewrite bytes_bits_app. cbn [bytes_bits mbind list_bind]. rewrite app_nil_r, H3, app_assoc. unfold pad8. f_equal. f_equal.
    rewrite length_app, length_bytes_bits, length_take. unfold byte_bits. rewrite length_val_bits. Z.div_mod_to_equations; lia.
Qed.

(** Masking the last octet twice is masking it once, and makes the string of
    the used bits. *)
Definition mask_last (u : Z) (l : list Z) : list Z :=
  if 0 <? Z.of_nat (length l) then alter (fun b => Z.land b (u8 (255 ≪ u))) (length l - 1)%nat l else l.

Lemma masked_octets st : bs_valid st -> mask_last (bits_unused st) (sent_octets st) = packed (bs_bits st) /\
  length (sent_octets st) = length (bs_buf st) /\ bytes_ok (sent_octets st).
Proof.
  intros (Hok & Hu & Hempty). unfold sent_octets, mask_last. destruct st as [buf u]. cbn [bs_buf bits_unused] in *.
  destruct buf as [|b l _] using rev_ind; [by rewrite (Hempty eq_refl)|].
  apply Forall_app in Hok as [Hok [Hb _]%Forall_cons]. destruct (mask_byte b u Hb Hu) as (H1 & H2 & H3).
  rewrite last_snoc, alter_last, <- (packed_masked l b u Hok Hb Hu). cbn [fmap option_fmap option_map].
  assert (Hm : byte_ok ((b ≫ u) ≪ u)).
  { rewrite <- H1. unfold u8, byte_ok. change (2 ^ 8) with 256. apply Z.mod_pos_bound. lia. }
  match goal with |- context [if ?c then l ++ [?x] else l ++ [b]] => assert (Hx : exists y, (if c then l ++ [x] else l ++ [b]) = l ++ [y] /\
    byte_ok y /\ Z.land y (u8 (255 ≪ u)) = (b ≫ u) ≪ u) end.
  { case_match; [|by exists b]. rewrite H1. exists ((b ≫ u) ≪ u). split_and!; [done|done|].
    destruct (mask_byte _ u Hm Hu) as (_ & -> & _). by rewrite Z.shiftr_shiftl_l, Z.sub_diag, Z.shiftl_0_r by lia. }
  destruct Hx as (y & -> & Hy & Hland). rewrite alter_last, Hland, !length_app. cbn [length].
  destruct (Z.ltb_spec 0 (Z.of_nat (length l + 1))); [|lia]. split_and!; [done|done|].
  apply bytes_ok_app; [done|]. by apply bytes_ok_cons; [|apply bytes_ok_nil].
Qed.

Lemma send_octets_ok {S} `{HC : Consumer S} `{HA : !AppendConsumer S} fuel st encoded (key : S) : bs_valid st ->
  exists key', send_octets (Datatypes.S fuel) st 0 encoded key = Some (encoded + size st, key') /\
    written key' = written key ++ sent_octets st.
Proof.
  intros (Hok & Hu & Hempty). unfold send_octets, sent_octets. destruct st as [buf u]. cbn [bs_buf bits_unused] in *.
  destruct (Z.eqb_spec u 0) as [->|Hn]; cbn [negb andb mbind option_bind Z.b2z].
  { rewrite Z.sub_0_r, Nat2Z.id, take_ge by done. destruct (consume_append buf key) as (key' & -> & Hk). by exists key'. }
  destruct buf as [|b l _] using rev_ind; [by specialize (Hempty eq_refl)|]. rewrite last_snoc, alter_last.
  assert (Hread : read (l ++ [b]) (Z.of_nat (length (l ++ [b])) - 1) = Some b).
  { unfold read. rewrite length_app. cbn [length]. zcase. replace (Z.to_nat _) with (length l) by lia. by rewrite list_lookup_middle. }
  rewrite Hread. cbn [mbind option_bind fmap option_fmap option_map]. destruct (negb (Z.land b (255 ≪ u) =? 0)); cbn [Z.b2z].
  - rewrite bool_decide_true by done.
    replace (Z.to_nat (Z.of_nat (length (l ++ [b])) - 1)) with (length l) by (rewrite length_app; cbn; lia). rewrite take_app_length.
    destruct (consume_append l key) as (k1 & -> & Hk1). cbn [Z.ltb Z.compare].
    destruct (consume_append [u8 (Z.land b (255 ≪ u))] k1) as (k2 & -> & Hk2). cbn [mbind option_bind Z.ltb Z.compare send_zeros].
    exists k2. split; [done|]. by rewrite Hk2, Hk1, app_assoc.
  - rewrite bool_decide_false by done. rewrite Z.sub_0_r, Nat2Z.id, take_ge by done.
    destruct (consume_append (l ++ [b]) key) as (key' & -> & Hk). by exists key'.
Qed.

Lemma valid_mask u : 0 <= u <= 7 -> Z.land u (Z.lnot 7) = 0 /\ Z.land u 7 = u.
Proof.
  intros Hu. change 7 with (2 ^ 3 - 1). rewrite land_clear_low, shiftr_div, Z.div_small, land_ones_mod, Z.mod_small by (change (2 ^ 3) with 8; lia).
  done.
Qed.

(** The octets of a constrained size. *)
Lemma constrained_size n u ct : 0 <= u <= 7 -> (n = 0 -> u = 0) -> 0 <= n -> 8 * n - u = ct ->
  (ct + 7) ≫ 3 = n /\ Z.land (8 - Z.land ct 7) 7 = u.
Proof.
  intros Hu H0 Hn <-. change 7 with (2 ^ 3 - 1) at 2 3. rewrite shiftr_div, !land_ones_mod by lia. change (2 ^ 3) with 8.
  split; Z.div_mod_to_equations; lia.
Qed.

Lemma bs_oer_encode_ok {S} `{HC : Consumer S} `{HA : !AppendConsumer S} fuel ct st (key : S) : bs_valid st -> bs_oer_fits ct st ->
  exists key', BIT_STRING_encode_oer (Datatypes.S fuel) ct st key = Some (Z.of_nat (length (bs_oer_octets ct st)), key') /\
    written key' = written key ++ bs_oer_octets ct st.
Proof.
  intros Hv Hfit. pose proof Hv as (Hok & Hu & Hempty). unfold BIT_STRING_encode_oer, bs_oer_octets, bs_oer_fits in *.
  destruct (valid_mask _ Hu) as [-> ->]. destruct (masked_octets st Hv) as (_ & Hlen & _).
  assert (He : negb (bits_unused st =? 0) && (size st =? 0) = false).
  { destruct (Z.eqb_spec (size st) 0) as [E|]; [|by rewrite andb_false_r]. rewrite Hempty; [done|]. by destruct (bs_buf st). }
  rewrite He. cbn [negb Z.eqb]. destruct (0 <=? ct).
  - destruct (constrained_size (size st) (bits_unused st) ct Hu) as [-> _]; [intros E; apply Hempty; by destruct (bs_buf st)|lia|done|].
    rewrite Z.ltb_irrefl, Z.sub_diag. destruct (send_octets_ok fuel st 0 key Hv) as (k & -> & Hk). exists k.
    cbn [app]. by rewrite Hlen.
  - change RSIZE_MAX with 9223372036854775807 in Hfit.
    destruct (oer_serialize_length_ok (1 + size st) key) as (k1 & -> & Hk1).
    { change (2 ^ 64) with 18446744073709551616. lia. }
    zcases. destruct (consume_append [bits_unused st] k1) as (k2 & -> & Hk2). cbn [Z.ltb Z.compare].
    destruct (send_octets_ok fuel st (Z.of_nat (length (oer_length_octets (1 + size st))) + 1) k2 Hv) as (k3 & -> & Hk3).
    exists k3. rewrite Hk3, Hk2, Hk1, !length_app, Hlen, <- !app_assoc. split; [|done]. cbn [length]. do 2 f_equal. lia.
Qed.

Lemma bs_oer_decode_ok ct st rest : bs_valid st -> bs_oer_fits ct st ->
  BIT_STRING_decode_oer ct (bs_oer_octets ct st ++ rest) =
    (RC_OK, Z.of_nat (length (bs_oer_octets ct st)), Some (bit_string (bs_bits st))).
Proof.
  intros Hv Hfit. pose proof Hv as (Hok & Hu & Hempty). unfold BIT_STRING_decode_oer, bs_oer_octets, bs_oer_fits in *.
  destruct (masked_octets st Hv) as (Hm & Hlen & _). unfold mask_last in Hm. rewrite Hlen in Hm.
  assert (Hst : {| bs_buf := packed (bs_bits st); bits_unused := bits_unused st |} = bit_string (bs_bits st)).
  { unfold bit_string. f_equal. unfold bs_bits. rewrite length_take, length_bytes_bits.
    assert (bits_unused st <= 8 * size st) by (destruct (bs_buf st); [rewrite Hempty by done; done|cbn [length]; lia]).
    rewrite Nat.min_l by lia. Z.div_mod_to_equations; lia. }
  destruct (0 <=? ct).
  - destruct (constrained_size (size st) (bits_unused st) ct Hu) as [-> ->]; [intros E; apply Hempty; by destruct (bs_buf st)|lia|done|].
    cbn [app]. change (Z.to_nat 0) with 0%nat. rewrite drop_0, length_app, Hlen.
    destruct (Z.ltb_spec (Z.of_nat (length (bs_buf st) + length rest)) (size st)); [lia|].
    rewrite take_app_le, take_ge by lia. replace (Z.to_nat (size st - 1)) with (length (bs_buf st) - 1)%nat by lia.
    by rewrite Hm, Hst.
  - change RSIZE_MAX with 9223372036854775807 in Hfit. rewrite <- !app_assoc.
    rewrite oer_fetch_length_ok by (change RSIZE_MAX with 9223372036854775807; lia).
    set (L := oer_length_octets (1 + size st)) in *. assert (HL : (1 <= length L)%nat) by apply length_octets_pos.
    rewrite (proj2 (Z.eqb_neq _ 0)), (proj2 (Z.ltb_ge (Z.of_nat (length L)) 0)), (proj2 (Z.ltb_ge (1 + size st) 1)) by lia.
    rewrite Nat2Z.id, drop_app_length. cbn [app].
    destruct (valid_mask _ Hu) as [-> _]. cbn [negb Z.eqb].
    assert (Hrest : length (bits_unused st :: sent_octets st ++ rest) = (1 + length (bs_buf st) + length rest)%nat).
    { cbn [length]. rewrite length_app, Hlen. lia. }
    rewrite Hrest, (proj2 (Z.ltb_ge _ (1 + size st))) by lia.
    replace (Z.to_nat (Z.of_nat (length L) + 1)) with (length L + 1)%nat by lia. rewrite <- drop_drop, drop_app_length.
    change (drop 1 (bits_unused st :: sent_octets st ++ rest)) with (sent_octets st ++ rest).
    replace (1 + size st - 1) with (size st) by lia.
    rewrite (length_app (sent_octets st)), Hlen, (proj2 (Z.ltb_ge _ (size st))), take_app_le, take_ge by lia.
    replace (Z.to_nat (size st - 1)) with (length (bs_buf st) - 1)%nat by lia. rewrite Hm, Hst. do 3 f_equal.
    rewrite length_app. cbn [length]. rewrite Hlen. lia.
Qed.

Lemma bit_string_valid bs : bs_valid (bit_string bs).
Proof.
  split_and!; cbn [bit_string bs_buf bits_unused]; [apply packed_ok|Z.div_mod_to_equations; lia..|].
  intros Hn%(f_equal (fun l => Z.of_nat (length l))). rewrite length_packed in Hn. cbn in Hn. Z.div_mod_to_equations; lia.
Qed.

Section NaturalOer.
Context {S1 S2 : Type} {C1 : Consumer S1} {C2 : Consumer S2} (f : S1 -> S2) (Hf : consumer_morphism f).
#[local] Abbreviation mapped r := ('(e, key) ← r; Some (e, f key)).

Lemma send_zeros_map fuel n e key : send_zeros fuel n e (f key) = mapped (send_zeros fuel n e key).
Proof.
  revert e key. induction fuel as [|fuel IH]; intros e key; [done|]. cbn [send_zeros]. destruct (0 <? n); [|done].
  rewrite Hf. destruct (consume _ key) as [ret key']. cbn [fst snd]. destruct (ret <? 0); [done|apply IH].
Qed.

Lemma send_octets_map fuel st n e key : send_octets fuel st n e (f key) = mapped (send_octets fuel st n e key).
Proof.
  unfold send_octets. destruct (if negb (bits_unused st =? 0) then _ else _) as [fix_last|]; [|done].
  cbn [mbind option_bind]. rewrite Hf. destruct (consume (take _ _) key) as [ret k1]. cbn [fst snd].
  destruct (ret <? 0); [done|]. destruct fix_last; [|apply send_zeros_map].
  destruct (read _ _) as [last|]; [|done]. cbn [mbind option_bind]. rewrite Hf. destruct (consume _ k1) as [ret2 k2]. cbn [fst snd].
  destruct (ret2 <? 0); [done|apply send_zeros_map].
Qed.

Lemma bs_encode_oer_map fuel ct st key :
  BIT_STRING_encode_oer fuel ct st (f key) = mapped (BIT_STRING_encode_oer fuel ct st key).
Proof.
  unfold BIT_STRING_encode_oer. repeat (case_match; [done|]). case_match; [case_match; [done|apply send_octets_map]|].
  rewrite (oer_serialize_length_map f Hf). destruct (oer_serialize_length _ key) as [len k1]. cbn [key_map fst snd].
  destruct (len <? 0); [done|]. rewrite Hf. destruct (consume _ k1) as [ret k2]. cbn [fst snd].
  destruct (ret <? 0); [done|apply send_octets_map].
Qed.
End NaturalOer.

(** Strings without dirty unused bits keep the contract of octet encoding. *)
Definition bit_string_oer_laws fuel ct : @OerTypeLaws BIT_STRING_t (BIT_STRING_oer (S fuel) ct).
Proof.
  unshelve refine (@Build_OerTypeLaws _ (BIT_STRING_oer (S fuel) ct)
    (fun st => st = bit_string (bs_bits st) /\ bs_oer_fits ct st) (bs_oer_octets ct) _ _ _ _).
  - intros st [-> Hfit]. pose proof (bit_string_valid (bs_bits st)) as Hv. unfold bs_oer_octets, bs_oer_fits in *.
    destruct (masked_octets _ Hv) as (_ & _ & Hok). apply bytes_ok_app; [|done]. destruct (0 <=? ct); [apply bytes_ok_nil|].
    apply bytes_ok_app; [apply oer_length_octets_ok|].
    { change RSIZE_MAX with 9223372036854775807 in Hfit. change (2 ^ 64) with 18446744073709551616. lia. }
    apply bytes_ok_cons; [|apply bytes_ok_nil]. destruct Hv as (_ & Hu & _). unfold byte_ok. lia.
  - intros S C A st key [Hst Hfit]. apply bs_oer_encode_ok; [rewrite Hst; apply bit_string_valid|done].
  - intros S1 S2 C1 C2 f Hf st key. by apply bs_encode_oer_map.
  - intros st rest [Hst Hfit]. cbn [oer_decoder BIT_STRING_oer]. rewrite bs_oer_decode_ok; [by rewrite <- Hst| |done].
    rewrite Hst. apply bit_string_valid.
Defined.

Lemma send_zeros_forever {S} `{HC : Consumer S} `{HA : !AppendConsumer S} fuel n e (key : S) : 0 < n -> send_zeros fuel n e key = None.
Proof.
  intros Hn. revert e key. induction fuel as [|fuel IH]; intros e key; [done|]. cbn [send_zeros]. zcase.
  destruct (consume_append (replicate (Z.to_nat (if n <? 16 then n else 16)) 0) key) as (k & -> & _). apply IH.
Qed.

Lemma send_octets_forever {S} `{HC : Consumer S} `{HA : !AppendConsumer S} fuel st n e (key : S) : 0 < n -> bs_valid st ->
  send_octets fuel st n e key = None.
Proof.
  intros Hn (_ & _ & Hempty). unfold send_octets. destruct (if negb (bits_unused st =? 0) then _ else _) as [fix_last|]; [|done].
  cbn [mbind option_bind].
  destruct (consume_append (take (Z.to_nat (size st - Z.b2z fix_last)) (bs_buf st)) key) as (k1 & -> & _).
  cbn [Z.ltb Z.compare]. destruct fix_last; [|by apply send_zeros_forever].
  destruct (read _ _) as [l|]; [|done]. cbn [mbind option_bind].
  destruct (consume_append [u8 (Z.land l (255 ≪ bits_unused st))] k1) as (k2 & -> & _). by apply send_zeros_forever.
Qed.

#[export] Instance bit_string_constrained name FILE : Constrained (BIT_STRING_constraint name FILE).
Proof.
  refine {| valid st := match st with
      | Some st => negb (((size st =? 0) && negb (bits_unused st =? 0)) || (bits_unused st <? 0) || (7 <? bits_unused st))
      | None => false end;
    complaint st := match st with Some _ => (name +:+ ": invalid padding byte" +:+ at_line FILE 73)%string
                                | None => not_given name FILE 79 end |}.
  intros [st|] r; [|done]. cbn [BIT_STRING_constraint]. by case_match.
Defined.

(** ** Examples *)

(** Unused bits that are not zero count as bits of the string. *)
Example dirty_bits_encoded :
  let st := {| bs_buf := [255]; bits_unused := 4 |} in
  bs_bits st = replicate 4 true /\
  ('(_, po) ← BIT_STRING_encode_uper None st (po_of_key {| bb_bytes := [] |});
   '(_, st, _) ← BIT_STRING_decode_uper None (pd_of_buffer (po_tmpspace po) 0 16); st) = Some {| bs_buf := [255]; bits_unused := 0 |}.
Proof. split; vm_compute; reflexivity. Qed.

(** The octet encoder clears the unused bits when a used bit is set, and sends
    them as they are when none is. *)
Example dirty_bits_sent :
  BIT_STRING_encode_oer 1 (-1) {| bs_buf := [168; 15]; bits_unused := 4 |} {| bb_bytes := [] |} =
    Some (4, {| bb_bytes := [3; 4; 168; 15] |}).
Proof. reflexivity. Qed.

(** Without a list of names the trailing zeros of a BIT STRING are part of its
    value; packed encoding drops them. *)
Example trailing_zeros_lost :
  ('(_, po) ← BIT_STRING_encode_uper None (bit_string [true; false; false]) (po_of_key {| bb_bytes := [] |});
   '(_, st, _) ← BIT_STRING_decode_uper None (pd_of_buffer (po_tmpspace po) 0 16); st) = Some (bit_string [true]).
Proof. vm_compute. reflexivity. Qed.

(** ** Properties *)

(** Comparison decides the order of the binary fractions two strings
    denote, in which trailing zeros do not count: the result is zero exactly
    for strings that are equal without them, and changes its sign when the
    strings are exchanged. *)
Theorem bit_string_compare_exact s t :
  exists r r', BIT_STRING_compare (bit_string s) (bit_string t) = Some r /\
    BIT_STRING_compare (bit_string t) (bit_string s) = Some r' /\
    Z.sgn r = bits_compare s t /\ r' = - r /\ (r = 0 <-> trim s = trim t).
Proof.
  destruct (compare_ok s t) as (r & Hr & Hs). exists r, (- r). rewrite <- bits_compare_eq, <- Hs.
  unfold BIT_STRING_compare in *. rewrite !compactify_bit_string in *. cbn [mbind option_bind] in *. injection Hr as <-.
  split_and!; [done|by rewrite compare_swap|done|done|lia].
Qed.

(** Packed encoding of a BIT STRING.  For every size constraint and every
    string that fits it, the encoder emits the extension bit, the size (nothing
    for a fixed one, a count, or length determinants with fragments) and the
    bits, without trailing zeros but those the constraint asks for; the
    decoder, whatever follows, reads that form and stops behind it, and the
    result compares as equal with what was encoded. *)
Theorem bit_string_uper_roundtrip sc bs : bs_dom sc bs ->
  (forall S (C : Consumer S) (A : AppendConsumer S) (po : asn_bit_outp S), po_wf po ->
     put_res po (bs_uper_bits sc bs) (BIT_STRING_encode_uper sc (bit_string bs) po) 0) /\
  (forall pd rest, pd_at pd (bs_uper_bits sc bs ++ rest) ->
     dec_res pd (Z.of_nat (length (bs_uper_bits sc bs))) rest (BIT_STRING_decode_uper sc pd) (bit_string (bs_norm sc bs))) /\
  BIT_STRING_compare (bit_string bs) (bit_string (bs_norm sc bs)) = Some 0.
Proof.
  intros Hd. split_and!; intros; [by apply bs_encode_ok|by apply bs_decode_ok|].
  destruct (compare_ok bs (bs_norm sc bs)) as (r & -> & Hr). rewrite (proj2 (bits_compare_eq _ _)) in Hr by (by rewrite trim_norm).
  f_equal. lia.
Qed.

(** BIT STRING (SIZE(9..12)). *)
Definition nine_to_twelve : asn_per_constraint_t :=
  {| flags := APC_CONSTRAINED; range_bits := 2; effective_bits := 2; lower_bound := 9; upper_bound := 12 |}.

Lemma bit_string_uper_roundtrip_witness :
  bs_uper_bits (Some nine_to_twelve) [true; true; false] = [false; false; true; true] ++ replicate 7 false /\
  (forall S (C : Consumer S) (A : AppendConsumer S) (po : asn_bit_outp S), po_wf po ->
     put_res po (bs_uper_bits (Some nine_to_twelve) [true; true; false])
       (BIT_STRING_encode_uper (Some nine_to_twelve) (bit_string [true; true; false]) po) 0) /\
  (forall pd rest, pd_at pd (bs_uper_bits (Some nine_to_twelve) [true; true; false] ++ rest) ->
     dec_res pd 11 rest (BIT_STRING_decode_uper (Some nine_to_twelve) pd) (bit_string ([true; true] ++ replicate 7 false))) /\
  BIT_STRING_compare (bit_string [true; true; false]) (bit_string ([true; true] ++ replicate 7 false)) = Some 0.
Proof.
  split; [reflexivity|]. apply (bit_string_uper_roundtrip (Some nine_to_twelve) [true; true; false]).
  split; [done|]. intros _. vm_compute. split_and!; congruence.
Defined.

(** C19: Octet encoding of a BIT STRING.  A valid string without a size
    constraint, or of exactly the constrained size, is sent as its length, the
    count of unused bits and its octets (the octets alone under a constraint),
    and read back as the string of its used bits whatever follows.  A string
    of fewer octets than its size constraint is padded with zeros by a loop
    whose count never falls: no number of steps ends it while the callback
    accepts what it is given. *)
Theorem bit_string_oer_terminates ct st {S} `{AppendConsumer S} (key : S) : bs_valid st ->
  (bs_oer_fits ct st -> forall fuel, (0 < fuel)%nat ->
     exists key', BIT_STRING_encode_oer fuel ct st key = Some (Z.of_nat (length (bs_oer_octets ct st)), key') /\
       written key' = written key ++ bs_oer_octets ct st /\
       forall rest, BIT_STRING_decode_oer ct (bs_oer_octets ct st ++ rest) =
         (RC_OK, Z.of_nat (length (bs_oer_octets ct st)), Some (bit_string (bs_bits st)))) /\
  (0 <= ct -> size st < (ct + 7) / 8 -> forall fuel, BIT_STRING_encode_oer fuel ct st key = None).
Proof.
  intros Hv. split.
  - intros Hfit [|fuel] Hf; [lia|]. destruct (bs_oer_encode_ok fuel ct st key Hv Hfit) as (key' & -> & Hk).
    exists key'. split_and!; [done|done|]. intros rest. by apply bs_oer_decode_ok.
  - intros Hct Hlt fuel. pose proof Hv as (_ & Hu & Hempty). unfold BIT_STRING_encode_oer. destruct (valid_mask _ Hu) as [-> _].
    cbn [negb Z.eqb]. destruct (Z.eqb_spec (size st) 0) as [E|E].
    + rewrite Hempty by (by destruct (bs_buf st)). cbn [negb Z.eqb andb]. rewrite shiftr_div by lia. change (2 ^ 3) with 8. zcases.
      apply send_octets_forever; [lia|done].
    + rewrite andb_false_r, shiftr_div by lia. change (2 ^ 3) with 8. zcases. apply send_octets_forever; [lia|done].
Qed.

Lemma bit_string_oer_terminates_witness :
  (exists key', BIT_STRING_encode_oer 1 12 {| bs_buf := [168; 79]; bits_unused := 4 |} {| bb_bytes := [] |} = Some (2, key') /\
     written key' = [168; 64] /\
     forall rest, BIT_STRING_decode_oer 12 ([168; 64] ++ rest) = (RC_OK, 2, Some {| bs_buf := [168; 64]; bits_unused := 4 |})) /\
  forall fuel, BIT_STRING_encode_oer fuel 24 {| bs_buf := [168; 79]; bits_unused := 4 |} {| bb_bytes := [] |} = None.
Proof.
  assert (Hv : bs_valid {| bs_buf := [168; 79]; bits_unused := 4 |}).
  { split_and!; [repeat constructor; cbn; lia|cbn; lia..|done]. }
  split.
  - exact (proj1 (bit_string_oer_terminates 12 _ {| bb_bytes := [] |} Hv) eq_refl 1%nat ltac:(lia)).
  - exact (proj2 (bit_string_oer_terminates 24 _ {| bb_bytes := [] |} Hv) ltac:(lia) eq_refl).
Defined.
