(* ===== verification/StringBer.v ===== *)
(** * Strings in BER and DER (support/OCTET_STRING.c, NULL.c)

    OCTET STRING, BIT STRING, the character strings and ANY share one decoder.
    A primitive encoding is copied; a constructed one is a tree of pieces,
    which the decoder walks with a stack of expectations it keeps between
    calls, so that the octets may arrive in any portions. *)
From S2P Require Import Prelude Consumer PerNatural PerCodec OpenType Oer BerTlv BerPrim BerType BitString.
#[local] Open Scope Z_scope.

(** ** State *)

(** struct _stack_el: what is left of the piece (or -1), what was processed of
    it, whether an end-of-contents is awaited, and whether the octet of unused
    bits has been taken. *)
Record stack_el := { se_left : Z; se_got : Z; se_want_nulls : Z; se_bits_chopped : bool }.

(** The string and its parsing context.  The stack has the current element in
    front; the level of an element is the number of those behind it.  Elements
    that were left again are reused with all members set anew. *)
Record string_struct := {
  ss_buf : list Z;
  ss_unused : Z;
  ss_phase : Z;
  ss_step : Z;
  ss_context : Z;
  ss_left : Z;
  ss_stack : list stack_el
}.

Definition fresh_string : string_struct :=
  {| ss_buf := []; ss_unused := 0; ss_phase := 0; ss_step := 0; ss_context := 0; ss_left := 0; ss_stack := [] |}.

Definition with_phase (phase : Z) (s : string_struct) : string_struct :=
  {| ss_buf := ss_buf s; ss_unused := ss_unused s; ss_phase := phase; ss_step := ss_step s;
     ss_context := if ss_phase s =? 0 then 0 else ss_context s; ss_left := ss_left s; ss_stack := ss_stack s |}.
Definition with_step (step : Z) (s : string_struct) : string_struct :=
  {| ss_buf := ss_buf s; ss_unused := ss_unused s; ss_phase := ss_phase s; ss_step := step;
     ss_context := ss_context s; ss_left := ss_left s; ss_stack := ss_stack s |}.
Definition with_left (left : Z) (s : string_struct) : string_struct :=
  {| ss_buf := ss_buf s; ss_unused := ss_unused s; ss_phase := ss_phase s; ss_step := ss_step s;
     ss_context := ss_context s; ss_left := left; ss_stack := ss_stack s |}.
Definition with_stack (stack : list stack_el) (s : string_struct) : string_struct :=
  {| ss_buf := ss_buf s; ss_unused := ss_unused s; ss_phase := ss_phase s; ss_step := ss_step s;
     ss_context := ss_context s; ss_left := ss_left s; ss_stack := stack |}.
Definition with_unused (unused : Z) (s : string_struct) : string_struct :=
  {| ss_buf := ss_buf s; ss_unused := unused; ss_phase := ss_phase s; ss_step := ss_step s;
     ss_context := ss_context s; ss_left := ss_left s; ss_stack := ss_stack s |}.

(** [buf_ptr] with its [size], and [consumed_myself]. *)
Record input := { in_ptr : list Z; in_consumed : Z }.

Definition skip_input (num : Z) (i : input) : input :=
  {| in_ptr := drop (Z.to_nat num) (in_ptr i); in_consumed := in_consumed i + num |}.

(** do { _ns = _ns ? _ns << 1 : 16; } while(_ns <= _es): the new capacity. *)
Fixpoint grow (fuel : nat) (ns es : Z) : option Z :=
  match fuel with
  | O => None
  | S fuel =>
    let ns := if ns =? 0 then 16 else u64 (ns ≪ 1) in
    if ns <=? es then grow fuel ns es else Some ns
  end.

(** APPEND; the answer is false where it returns RC_FAIL. *)
Definition APPEND (data : list Z) (s : string_struct) : option (bool * string_struct) :=
  let es := Z.of_nat (length (ss_buf s)) + Z.of_nat (length data) in
  if s32 es <? 0 then Some (false, s) else
  ns ← (if ss_context s <=? es then grow 64 (ss_context s) es else Some (ss_context s));
  if (ss_context s <=? es) && (s32 ns <? 0) then Some (false, s) else
  Some (true, {| ss_buf := ss_buf s ++ data; ss_unused := ss_unused s; ss_phase := ss_phase s; ss_step := ss_step s;
                 ss_context := s32 ns; ss_left := ss_left s; ss_stack := ss_stack s |}).

(** Where a step leads: it returns, it goes round the loop of phase 1 again or
    leaves it, or it goes on behind the switch. *)
Inductive move := Return (code : asn_dec_rval_code) | Again | Leave | Behind.

#[export] Instance subvariant_eq_dec : EqDecision asn_OS_Subvariant.
Proof. solve_decision. Defined.

Section Decoder.
Context (type_variant : asn_OS_Subvariant) (tags all_tags : list Z) (tag_mode : Z).

Definition is_any : bool := bool_decide (type_variant = ASN_OSUBV_ANY).
Definition is_bit : bool := bool_decide (type_variant = ASN_OSUBV_BIT).

(** The tag expected of the next piece. *)
Definition expected_tag (stack : list stack_el) (tlv_tag : Z) : Z :=
  if is_any then tlv_tag else
  match stack with
  | [] => tlv_tag
  | _ :: outer => default (default tlv_tag (last all_tags)) (all_tags !! length outer)
  end.

(** The current piece is complete: back to the one around it. *)
Definition finish_piece (sel : stack_el) (outer : list stack_el) (s : string_struct) : move * string_struct :=
  match outer with
  | [] => (Leave, with_stack [] s)
  | prev :: outer =>
    if negb (se_left prev =? -1) && (se_left prev <? se_got sel) then (Return RC_FAIL, s) else
    let prev := {| se_left := if negb (se_left prev =? -1) then se_left prev - se_got sel else se_left prev;
                   se_got := se_got prev + se_got sel; se_want_nulls := se_want_nulls prev;
                   se_bits_chopped := se_bits_chopped prev |} in
    (Again, with_stack (prev :: outer) s)
  end.

(** An end-of-contents for the current piece. *)
Definition eat_nulls (sel : stack_el) (outer : list stack_el) (s : string_struct) (i : input) :
    option (move * string_struct * input) :=
  '(ok, s) ← (if is_any && (negb (tag_mode =? 1) || negb (bool_decide (outer = []))) then APPEND [0; 0] s else Some (true, s));
  if negb ok then Some (Return RC_FAIL, s, i) else
  let want_nulls := se_want_nulls sel - 1 in
  let left := if negb (se_left sel =? -1) then se_left sel - 2 else se_left sel in
  let sel := {| se_left := if want_nulls =? 0 then 0 else left; se_got := se_got sel + 2;
                se_want_nulls := want_nulls; se_bits_chopped := se_bits_chopped sel |} in
  Some (if want_nulls =? 0 then Again else Leave, with_stack (sel :: outer) s, skip_input 2 i).

(** A new expectation, of [tlv_len] octets behind [tlvl]. *)
Definition push_piece (tlv_constr : bool) (tlvl tlv_len : Z) (s : string_struct) (i : input) :
    option (move * string_struct * input) :=
  let outer := ss_stack s in
  let sel remaining got := {| se_left := remaining; se_got := got; se_want_nulls := Z.b2z (tlv_len =? -1); se_bits_chopped := false |} in
  let remaining := match outer with
              | prev :: _ =>
                if negb (se_left prev =? -1) then
                  if se_left prev <? tlvl + (if tlv_len =? -1 then 0 else tlv_len) then None
                  else Some (if tlv_len =? -1 then se_left prev - tlvl else tlv_len)
                else Some tlv_len
              | [] => Some tlv_len
              end in
  match remaining with
  | None => Some (Return RC_FAIL, with_stack (sel 0 0 :: outer) s, i)
  | Some remaining =>
    '(ok, s) ← (if is_any && (negb (tag_mode =? 1) || negb (bool_decide (outer = [])))
                then APPEND (take (Z.to_nat tlvl) (in_ptr i)) s else Some (true, s));
    if negb ok then Some (Return RC_FAIL, with_stack (sel remaining 0 :: outer) s, i) else
    Some (if tlv_constr then Again else Leave, with_stack (sel remaining tlvl :: outer) s, skip_input tlvl i)
  end.

(** The next tag and length within [Left] octets: tag, form, octets taken and
    length; or the code to return. *)
Definition fetch_TL (Left : Z) (i : input) : option (asn_dec_rval_code + Z * bool * Z * Z) :=
  let ptr := take (Z.to_nat Left) (in_ptr i) in
  let '(tl, tlv_tag) := ber_fetch_tag ptr in
  if tl =? -1 then Some (inl RC_FAIL) else if tl =? 0 then Some (inl RC_WMORE) else
  tlv_tag ← tlv_tag;
  octet ← read (in_ptr i) 0;
  let tlv_constr := BER_TLV_CONSTRUCTED octet in
  let '(ll, tlv_len) := ber_fetch_length tlv_constr (drop (Z.to_nat tl) ptr) in
  if ll =? -1 then Some (inl RC_FAIL) else if ll =? 0 then Some (inl RC_WMORE) else
  tlv_len ← tlv_len;
  Some (inr (tlv_tag, tlv_constr, tl + ll, tlv_len)).

Definition at_nulls (sel : stack_el) (i : input) : option bool :=
  if negb (se_want_nulls sel =? 0) then
    first ← read (in_ptr i) 0;
    if first =? 0 then second ← read (in_ptr i) 1; Some (second =? 0) else Some false
  else Some false.

(** A new piece, when its tag is the one expected.  Where the tags differ the
    code formats the last tag of the descriptor for its log. *)
Definition start_piece (tlv_tag : Z) (tlv_constr : bool) (tlvl tlv_len : Z) (s : string_struct) (i : input) :
    option (move * string_struct * input) :=
  if negb (tlv_tag =? expected_tag (ss_stack s) tlv_tag)
  then _ ← read tags (Z.of_nat (length tags) - 1); Some (Return RC_FAIL, s, i)
  else if tlv_len + tlvl <? 0 then Some (Return RC_FAIL, s, i)
  else push_piece tlv_constr tlvl tlv_len s i.

(** Once round the loop of phase 1. *)
Definition expect_piece (s : string_struct) (i : input) : option (move * string_struct * input) :=
  let size := Z.of_nat (length (in_ptr i)) in
  match ss_stack s with
  | [] =>
    r ← fetch_TL size i;
    match r with
    | inl code => Some (Return code, s, i)
    | inr (tlv_tag, tlv_constr, tlvl, tlv_len) => start_piece tlv_tag tlv_constr tlvl tlv_len s i
    end
  | sel :: outer =>
    if (se_left sel <=? 0) && (se_want_nulls sel =? 0)
    then let '(m, s) := finish_piece sel outer s in Some (m, s, i)
    else
      r ← fetch_TL (if size <=? u64 (se_left sel) then size else se_left sel) i;
      match r with
      | inl code => Some (Return code, s, i)
      | inr (tlv_tag, tlv_constr, tlvl, tlv_len) =>
        nulls ← at_nulls sel i;
        if (nulls : bool) then eat_nulls sel outer s i
        else start_piece tlv_tag tlv_constr tlvl tlv_len s i
      end
  end.

(** Phase 2: the contents of a primitive piece. *)
Definition piece_contents (s : string_struct) (i : input) : option (move * string_struct * input) :=
  match ss_stack s with
  | [] => None
  | sel :: outer =>
    if se_left sel <? 0 then None else
    let size := Z.of_nat (length (in_ptr i)) in
    let len := if size <? se_left sel then size else se_left sel in
    '(ok, chopped, s) ←
      (if 0 <? len then
         if is_bit && negb (se_bits_chopped sel) then
           unused ← read (in_ptr i) 0;
           '(ok, s) ← APPEND (take (Z.to_nat (len - 1)) (drop 1 (in_ptr i))) (with_unused unused s);
           Some (ok, (ok : bool), s)
         else '(ok, s) ← APPEND (take (Z.to_nat len) (in_ptr i)) s; Some (ok, se_bits_chopped sel, s)
       else Some (true, se_bits_chopped sel, s));
    if negb ok then Some (Return RC_FAIL, s, i) else
    let sel := {| se_left := se_left sel - len; se_got := se_got sel + len; se_want_nulls := se_want_nulls sel;
                  se_bits_chopped := chopped |} in
    Some (if negb (se_left sel =? 0) then Return RC_WMORE else Again, with_stack (sel :: outer) s, skip_input len i)
  end.

(** Phase 3: the contents of a primitive encoding. *)
Definition primitive_contents (s : string_struct) (i : input) : option (move * string_struct * input) :=
  if ss_left s <? 0 then None else
  let chop s i := (if is_bit && (ss_context s =? 0) && negb (ss_left s =? 0) then
                     unused ← read (in_ptr i) 0;
                     Some (with_left (ss_left s - 1) (with_unused unused s), skip_input 1 i)
                   else Some (s, i)) in
  if Z.of_nat (length (in_ptr i)) <? ss_left s then
    if bool_decide (in_ptr i = []) then Some (Return RC_WMORE, s, i) else
    '(s, i) ← chop s i;
    '(ok, s) ← APPEND (in_ptr i) s;
    if negb ok then Some (Return RC_FAIL, s, i) else
    if ss_context s <=? 0 then None else
    let size := Z.of_nat (length (in_ptr i)) in
    Some (Return RC_WMORE, with_left (ss_left s - size) s, skip_input size i)
  else
    '(s, i) ← chop s i;
    let left := ss_left s in
    '(ok, s) ← APPEND (take (Z.to_nat left) (in_ptr i)) s;
    if negb ok then Some (Return RC_FAIL, s, i) else
    Some (Behind, with_phase (ss_phase s + 1) (with_left 0 s), skip_input left i).

(** Behind the switch. *)
Definition finalize (s : string_struct) : asn_dec_rval_code * string_struct :=
  if is_bit then
    if negb (bool_decide (ss_buf s = [])) then
      if (ss_unused s <? 0) || (7 <? ss_unused s) then (RC_FAIL, s)
      else (RC_OK, {| ss_buf := mask_last (ss_unused s) (ss_buf s); ss_unused := ss_unused s; ss_phase := ss_phase s;
                      ss_step := ss_step s; ss_context := ss_context s; ss_left := ss_left s; ss_stack := ss_stack s |})
    else if negb (ss_unused s =? 0) then (RC_FAIL, s) else (RC_OK, s)
  else (RC_OK, s).

(** The switch from phase 1 on, with the jumps between the phases. *)
Fixpoint string_phases (fuel : nat) (s : string_struct) (i : input) :
    option (asn_dec_rval_code * string_struct * input) :=
  match fuel with
  | O => None
  | S fuel =>
    if ss_phase s =? 1 then
      '(m, s, i) ← expect_piece s i;
      match m with
      | Return code => Some (code, s, i)
      | Again => string_phases fuel s i
      | _ => if bool_decide (ss_stack s = []) then let '(code, s) := finalize (with_phase (ss_phase s + 3) s) in Some (code, s, i)
             else string_phases fuel (with_phase (ss_phase s + 1) s) i
      end
    else if ss_phase s =? 2 then
      '(m, s, i) ← piece_contents s i;
      match m with
      | Return code => Some (code, s, i)
      | _ => string_phases fuel (with_phase (ss_phase s - 1) s) i
      end
    else if ss_phase s =? 3 then
      '(m, s, i) ← primitive_contents s i;
      match m with
      | Return code => Some (code, s, i)
      | _ => let '(code, s) := finalize s in Some (code, s, i)
      end
    else let '(code, s) := finalize s in Some (code, s, i)
  end.

(** Every round takes an octet or gives up an element of the stack. *)
Definition string_fuel (s : string_struct) (i : input) : nat :=
  (3 * length (in_ptr i) + 2 * length (ss_stack s) + 4)%nat.

Definition OCTET_STRING_decode_ber (sptr : option string_struct) (buf_ptr : list Z) :
    option (asn_dec_rval_code * Z * option string_struct) :=
  let s := default fresh_string sptr in
  let i := {| in_ptr := buf_ptr; in_consumed := 0 |} in
  let run s i := ('(code, s, i) ← string_phases (string_fuel s i) s i; Some (code, in_consumed i, Some s)) in
  if ss_phase s =? 0 then
    '(code, consumed, step, last) ← ber_check_tags tags (Some (ss_step s)) buf_ptr tag_mode (-1);
    step ← step;
    let s := with_step step s in
    if negb (bool_decide (code = RC_OK)) then Some (code, consumed, Some s) else
    '(remaining, tlv_constr) ← last;
    let s := with_left remaining s in
    if negb (tlv_constr =? 0) then run (with_phase 1 (with_stack [] s)) i
    else
      '(ok, s) ← (if is_any && negb (tag_mode =? 1) then APPEND (take (Z.to_nat consumed) buf_ptr) (with_phase 3 s)
                  else Some (true, with_phase 3 s));
      if negb ok then Some (RC_FAIL, 0, Some s) else run s (skip_input consumed i)
  else run s i.
End Decoder.

(** ** Encoding *)

Section Encoder.
Context {S : Type} `{Consumer S}.
Context (type_variant : asn_OS_Subvariant) (scratch tags : list Z).

(** ASN__CALLBACK: what was handed on is counted. *)
Definition send (data : list Z) (encoded : Z) (key : S) : Z * S :=
  let '(rc, key) := consume data key in (if rc <? 0 then -1 else encoded + Z.of_nat (length data), key).

(** The octets behind the tags. *)
Definition emit_string (st : BIT_STRING_t) (encoded : Z) (key : S) : option (Z * S) :=
  let size := Z.of_nat (length (bs_buf st)) in
  let b := Z.land (bits_unused st) 7 in
  let fix_last_byte := is_bit type_variant && negb (b =? 0) && negb (size =? 0) in
  let '(encoded, key) := if is_bit type_variant then send [b] encoded key else (encoded, key) in
  if encoded <? 0 then Some (-1, key) else
  let '(encoded, key) := send (take (Z.to_nat (size - Z.b2z fix_last_byte)) (bs_buf st)) encoded key in
  if encoded <? 0 then Some (-1, key) else
  if fix_last_byte then
    if (bits_unused st <? 0) || (23 <? bits_unused st) then None else
    octet ← read (bs_buf st) (size - 1);
    Some (send [u8 (Z.land octet (255 ≪ bits_unused st))] encoded key)
  else Some (encoded, key).

Definition OCTET_STRING_encode_der (st : BIT_STRING_t) (tag_mode tag : Z) (key : option S) : option (Z * option S) :=
  let length_ := Z.b2z (is_bit type_variant) + Z.of_nat (length (bs_buf st)) in
  '(encoded, key) ←
    (if negb (is_any type_variant) || (tag_mode =? 1)
     then der_write_tags scratch tags length_ tag_mode (is_any type_variant) tag key
     else if tag_mode =? -1 then None else Some (0, key));
  if encoded =? -1 then Some (-1, key) else
  match key with
  | None => Some (encoded + length_, None)
  | Some key => '(rc, key) ← emit_string st encoded key; Some (rc, Some key)
  end.
End Encoder.

(** ** Lemmas: appending *)

Lemma grow_ok fuel : forall ns es, 0 <= ns <= es -> es < 2 ^ 63 -> es < (if ns =? 0 then 8 else ns) * 2 ^ Z.of_nat fuel -> (0 < fuel)%nat ->
  exists ns', grow fuel ns es = Some ns' /\ es < ns' <= Z.max 16 (2 * es).
Proof.
  induction fuel as [|fuel IH]; intros ns es Hn Hes Hf H0; [lia|]. cbn [grow].
  set (m := if ns =? 0 then 16 else u64 (ns ≪ 1)).
  assert (Hm : m = 16 /\ (if ns =? 0 then 8 else ns) = 8 \/ m = 2 * ns /\ 0 < ns /\ (if ns =? 0 then 8 else ns) = ns).
  { unfold m. destruct (Z.eqb_spec ns 0); [by left|right]. rewrite shiftl_mul by lia. change (2 ^ 1) with 2.
    change (2 ^ 63) with 9223372036854775808 in Hes. rewrite u64_small by lia. lia. }
  destruct (Z.leb_spec m es); [|eexists; split; [done|lia]].
  rewrite Nat2Z.inj_succ, Z.pow_succ_r in Hf by lia. pose proof (pow2_pos (Z.of_nat fuel) ltac:(lia)) as Hp.
  destruct fuel as [|fuel]; [change (2 ^ Z.of_nat 0) with 1 in *; lia|].
  apply IH; [lia|lia| |lia]. rewrite (proj2 (Z.eqb_neq m 0)) by lia. destruct Hm as [[-> E]|(-> & Hns & E)]; rewrite E in Hf; lia.
Qed.

(** The strings APPEND can make: with 2^30 octets the capacity does not fit an
    int. *)
Definition string_room : Z := 2 ^ 30.

Lemma APPEND_ok data s : 0 <= ss_context s < 2 ^ 31 -> Z.of_nat (length (ss_buf s ++ data)) < string_room ->
  exists context, APPEND data s = Some (true,
    {| ss_buf := ss_buf s ++ data; ss_unused := ss_unused s; ss_phase := ss_phase s; ss_step := ss_step s;
       ss_context := context; ss_left := ss_left s; ss_stack := ss_stack s |}) /\ 0 < context < 2 ^ 31.
Proof.
  change (2 ^ 31) with 2147483648. intros Hc Hl. change string_room with 1073741824 in Hl. rewrite length_app, Nat2Z.inj_add in Hl. unfold APPEND.
  set (es := Z.of_nat (length (ss_buf s)) + Z.of_nat (length data)) in *. rewrite s32_small by lia. zcase.
  destruct (Z.leb_spec (ss_context s) es) as [Hle|Hlt]; cbn [andb].
  - destruct (grow_ok 64 (ss_context s) es) as (ns & -> & Hns); [lia|change (2 ^ 62) with 4611686018427387904; lia| |lia|].
    { change (2 ^ Z.of_nat 64) with 18446744073709551616. zcase; lia. }
    cbn [mbind option_bind]. rewrite s32_small by lia. zcase. eexists. split; [done|lia].
  - cbn [mbind option_bind]. eexists. split; [done|]. rewrite s32_small; lia.
Qed.

(** ** Lemmas: primitive encodings *)

Lemma mask_last_snoc u l b : byte_ok b -> 0 <= u <= 7 -> mask_last u (l ++ [b]) = l ++ [(b ≫ u) ≪ u].
Proof.
  intros Hb Hu. unfold mask_last. rewrite alter_last. destruct (mask_byte b u Hb Hu) as (_ & -> & _).
  rewrite length_app. cbn [length]. zcase. done.
Qed.

Section Strings.
Context (type_variant : asn_OS_Subvariant) (Hvariant : type_variant <> ASN_OSUBV_ANY) (scratch tags all_tags : list Z) (tag_mode : Z).

#[local] Abbreviation is_bit := (is_bit type_variant).

Lemma not_any : is_any type_variant = false.
Proof using Hvariant. unfold is_any. by rewrite bool_decide_false. Qed.

(** What contents octets add to a string. *)
Definition piece_data (c : list Z) : list Z := if is_bit then drop 1 c else c.
Definition piece_unused (u : Z) (c : list Z) : Z := if is_bit then default u (head c) else u.

Definition contents_of (st : BIT_STRING_t) : list Z :=
  (if is_bit then [bits_unused st] else []) ++ bs_buf st.

Definition string_octets (tag : Z) (st : BIT_STRING_t) : list Z :=
  der_octets tags tag_mode tag (contents_of st).

(** What the decoder makes of it: unused bits are cleared. *)
Definition string_result (buf : list Z) (unused : Z) : list Z := if is_bit then mask_last unused buf else buf.

Definition string_ok (st : BIT_STRING_t) : Prop :=
  bytes_ok (bs_buf st) /\ Z.of_nat (length (bs_buf st)) < string_room /\
  if is_bit then 0 <= bits_unused st <= 7 /\ (bs_buf st = [] -> bits_unused st = 0) else bits_unused st = 0.

Lemma finalize_ok s : (if is_bit then 0 <= ss_unused s <= 7 /\ (ss_buf s = [] -> ss_unused s = 0) else True) ->
  finalize type_variant s = (RC_OK, {| ss_buf := string_result (ss_buf s) (ss_unused s); ss_unused := ss_unused s;
    ss_phase := ss_phase s; ss_step := ss_step s; ss_context := ss_context s; ss_left := ss_left s; ss_stack := ss_stack s |}).
Proof.
  intros H. unfold finalize, string_result. fold is_bit. destruct is_bit; [|by destruct s].
  destruct H as [Hu H0]. case_bool_decide as Hb; cbn [negb].
  - rewrite H0 by done. cbn [Z.eqb negb]. rewrite Hb. unfold mask_last. cbn. destruct s. cbn in *. subst. by rewrite H0.
  - zcases; cbn [orb]; done.
Qed.

(** Phase 3 with all the contents there. *)
Lemma primitive_whole st s i rest fuel : string_ok st -> ss_phase s = 3 -> ss_context s = 0 -> ss_buf s = [] -> ss_unused s = 0 ->
  ss_left s = Z.of_nat (length (contents_of st)) -> in_ptr i = contents_of st ++ rest ->
  exists s', string_phases type_variant tags all_tags tag_mode (S fuel) s i = Some (RC_OK, s',
    {| in_ptr := rest; in_consumed := in_consumed i + Z.of_nat (length (contents_of st)) |}) /\
    ss_buf s' = string_result (bs_buf st) (bits_unused st) /\ ss_unused s' = bits_unused st.
Proof.
  intros (Hok & Hroom & Hbits) Hph Hctx Hbuf Hun Hleft Hptr.
  cbn [string_phases]. rewrite Hph. cbn [Z.eqb Pos.eqb]. unfold primitive_contents. fold is_bit.
  rewrite Hctx, Hleft, Hptr. destruct (Z.ltb_spec (Z.of_nat (length (contents_of st))) 0); [lia|].
  rewrite length_app. destruct (Z.ltb_spec (Z.of_nat (length (contents_of st) + length rest)) (Z.of_nat (length (contents_of st)))); [lia|].
  unfold contents_of in *. destruct is_bit eqn:Eb; cbn [andb Z.eqb app length] in *.
  - rewrite (proj2 (Z.eqb_neq (Z.of_nat (S (length (bs_buf st)))) 0)) by lia. cbn [negb]. rewrite read_0. cbn [mbind option_bind].
    assert (Hskip : in_ptr (skip_input 1 i) = bs_buf st ++ rest) by (cbn [skip_input in_ptr]; by rewrite Hptr).
    cbn [ss_left with_left with_unused]. rewrite Hskip. replace (Z.of_nat (S (length (bs_buf st))) - 1) with (Z.of_nat (length (bs_buf st))) by lia.
    rewrite Nat2Z.id, take_app_length.
    destruct (APPEND_ok (bs_buf st) (with_left (Z.of_nat (length (bs_buf st))) (with_unused (bits_unused st) s)))
      as (c & -> & _); cbn [with_left with_unused ss_context ss_buf ss_unused ss_phase ss_step ss_stack ss_left].
    { by rewrite Hctx. }
    { by rewrite Hbuf. }
    cbn [mbind option_bind negb with_phase ss_context ss_buf ss_unused ss_phase ss_step ss_stack ss_left].
    rewrite finalize_ok; fold is_bit; rewrite ?Eb; cbn [with_phase ss_context ss_buf ss_unused ss_phase ss_step ss_stack ss_left with_left].
    + eexists. split.
      * unfold skip_input at 1. rewrite Hskip. cbn [skip_input in_consumed]. rewrite Nat2Z.id, drop_app_length. do 3 f_equal. lia.
      * cbn [ss_buf ss_unused]. by rewrite Hbuf.
    + by rewrite Hbuf.
  - cbn [mbind option_bind]. rewrite Hleft, Hptr. rewrite Nat2Z.id, take_app_length.
    destruct (APPEND_ok (bs_buf st) s) as (c & -> & _); [by rewrite Hctx|by rewrite Hbuf|].
    cbn [mbind option_bind negb]. rewrite finalize_ok; fold is_bit; rewrite ?Eb; [|done].
    eexists. split.
    + unfold skip_input. cbn [in_ptr in_consumed]. rewrite Hptr, Nat2Z.id, drop_app_length. done.
    + cbn [ss_buf ss_unused with_phase with_left]. rewrite Hbuf, Hun. split; [|by rewrite Hbits]. cbn [app]. by rewrite Hbits.
Qed.

Lemma decode_string_ok tag st rest : string_ok st -> mode_ok tags tag_mode -> Forall tag_ok (tags_to_write tags tag_mode tag) ->
  Z.of_nat (length (string_octets tag st)) <= RSSIZE_MAX ->
  exists s', OCTET_STRING_decode_ber type_variant tags all_tags tag_mode None (string_octets tag st ++ rest) =
    Some (RC_OK, Z.of_nat (length (string_octets tag st)), Some s') /\
    ss_buf s' = string_result (bs_buf st) (bits_unused st) /\ ss_unused s' = bits_unused st.
Proof using Hvariant.
  intros Hst Hm Hok Hl. unfold OCTET_STRING_decode_ber. cbn [default fresh_string ss_phase Z.eqb ss_step].
  unfold string_octets, der_octets in *. set (n := Z.of_nat (length (contents_of st))) in *.
  set (header := der_header _ _ n) in *. rewrite length_app in Hl. rewrite <- app_assoc.
  destruct (ber_check_tags_der false (-1) tags (Some 0) tag_mode tag n (length (header ++ contents_of st ++ rest)) (contents_of st ++ rest))
    as (consumed & ctx & Hct & _ & Hctx); [by right|done|done|done|lia|fold header; lia|].
  fold header in Hct. rewrite take_ge, decide_False in Hct by (rewrite ?length_app; lia). rewrite Hct.
  destruct (Hctx ltac:(done)) as (step & ->). cbn [mbind option_bind]. rewrite bool_decide_true by done. cbn [negb Z.b2z Z.eqb].
  rewrite not_any. cbn [andb mbind option_bind negb].
  set (i := skip_input _ _).
  assert (Hi : i = {| in_ptr := contents_of st ++ rest; in_consumed := Z.of_nat (length header) |}).
  { unfold i, skip_input. cbn [in_ptr in_consumed]. by rewrite Nat2Z.id, drop_app_length. }
  rewrite Hi. clear i Hi. set (s0 := with_phase 3 _). set (i0 := {| in_ptr := contents_of st ++ rest; in_consumed := _ |}).
  destruct (primitive_whole st s0 i0 rest (string_fuel s0 i0 - 1) Hst eq_refl eq_refl eq_refl eq_refl eq_refl eq_refl)
    as (s' & Hr & Hb & Hu).
  replace (S (string_fuel s0 i0 - 1)) with (string_fuel s0 i0) in Hr by (unfold string_fuel; lia).
  rewrite Hr. cbn [mbind option_bind in_consumed i0]. exists s'. split_and!; [|done|done].
  rewrite length_app. do 3 f_equal. lia.
Qed.

(** ** Lemmas: writing strings *)

(** The octets written: the last one without its unused bits. *)
Definition written_string (st : BIT_STRING_t) : BIT_STRING_t :=
  {| bs_buf := string_result (bs_buf st) (bits_unused st); bits_unused := bits_unused st |}.

Lemma send_ok {S} `{HC : Consumer S} `{HA : !AppendConsumer S} data e (key : S) :
  exists key', send data e key = (e + Z.of_nat (length data), key') /\ written key' = written key ++ data.
Proof. unfold send. destruct (consume_append data key) as (key' & -> & Hk). by exists key'. Qed.

Lemma length_result st : length (string_result (bs_buf st) (bits_unused st)) = length (bs_buf st).
Proof. unfold string_result, mask_last. case_match; [case_match; [apply length_alter|done]|done]. Qed.

Lemma emit_string_ok {S} `{HC : Consumer S} `{HA : !AppendConsumer S} st e (key : S) : string_ok st -> 0 <= e ->
  exists key', emit_string type_variant st e key = Some (e + Z.of_nat (length (contents_of st)), key') /\
    written key' = written key ++ contents_of (written_string st).
Proof.
  intros (Hok & _ & Hb) He. unfold emit_string, contents_of, written_string, string_result. cbn [bs_buf bits_unused].
  destruct is_bit; cbn [andb app length Z.b2z].
  2: { rewrite Z.sub_0_r, Nat2Z.id, take_ge by done. zcase. destruct (send_ok (bs_buf st) e key) as (k & -> & Hk). zcase. by exists k. }
  destruct Hb as [Hu Hempty]. destruct (valid_mask _ Hu) as [_ ->].
  destruct (send_ok [bits_unused st] e key) as (k1 & -> & Hk1). cbn [length]. zcase.
  destruct st as [buf u]. cbn [bs_buf bits_unused] in *. destruct buf as [|b l _] using rev_ind.
  - rewrite (Hempty eq_refl). change (negb (0 =? 0)) with false. cbn [andb Z.b2z length]. change (take _ []) with (@nil Z).
    destruct (send_ok [] (e + Z.of_nat 1) k1) as (k2 & -> & Hk2). cbn [length]. zcase. exists k2. split; [do 2 f_equal; lia|].
    rewrite Hk2, Hk1, app_nil_r. by rewrite (Hempty eq_refl).
  - apply Forall_app in Hok as [_ [Hbyte _]%Forall_cons]. rewrite mask_last_snoc by done.
    rewrite (proj2 (Z.eqb_neq (Z.of_nat (length (l ++ [b]))) 0)) by (rewrite length_app; cbn; lia). rewrite andb_true_r.
    destruct (Z.eqb_spec u 0) as [->|E]; cbn [negb Z.b2z].
    + rewrite Z.sub_0_r, Nat2Z.id, take_ge by done. destruct (send_ok (l ++ [b]) (e + Z.of_nat 1) k1) as (k2 & -> & Hk2). zcase.
      exists k2. split; [do 2 f_equal; lia|]. rewrite Hk2, Hk1, <- app_assoc, Z.shiftr_0_r, Z.shiftl_0_r. done.
    + replace (Z.to_nat (Z.of_nat (length (l ++ [b])) - 1)) with (length l) by (rewrite length_app; cbn; lia).
      rewrite take_app_length. destruct (send_ok l (e + Z.of_nat 1) k1) as (k2 & -> & Hk2). zcases. cbn [orb].
      assert (Hread : read (l ++ [b]) (Z.of_nat (length (l ++ [b])) - 1) = Some b).
      { unfold read. rewrite length_app. cbn [length]. zcase. replace (Z.to_nat _) with (length l) by lia. by rewrite list_lookup_middle. }
      rewrite Hread. cbn [mbind option_bind]. destruct (mask_byte b u Hbyte Hu) as (-> & _ & _).
      destruct (send_ok [(b ≫ u) ≪ u] (e + Z.of_nat 1 + Z.of_nat (length l)) k2) as (k3 & -> & Hk3).
      exists k3. split; [rewrite length_app; cbn [length]; do 2 f_equal; lia|]. rewrite Hk3, Hk2, Hk1, <- !app_assoc. done.
Qed.

Lemma length_contents st : length (contents_of (written_string st)) = length (contents_of st).
Proof. unfold contents_of, written_string. cbn [bs_buf bits_unused]. rewrite !length_app, length_result. done. Qed.

Context (Hscratch : length scratch = 32%nat).

Lemma encode_string_ok {S} `{HC : Consumer S} `{HA : !AppendConsumer S} tag st : string_ok st -> (length tags <= 3)%nat ->
  Forall tag_ok (tags_to_write tags tag_mode tag) -> Z.of_nat (length (string_octets tag (written_string st))) <= RSSIZE_MAX ->
  OCTET_STRING_encode_der (S := S) type_variant scratch tags st tag_mode tag None =
    Some (Z.of_nat (length (string_octets tag (written_string st))), None) /\
  forall key, exists key', OCTET_STRING_encode_der type_variant scratch tags st tag_mode tag (Some key) =
    Some (Z.of_nat (length (string_octets tag (written_string st))), Some key') /\
    written key' = written key ++ string_octets tag (written_string st).
Proof using Hvariant Hscratch.
  intros Hst Hlen Hok Hl. unfold OCTET_STRING_encode_der, string_octets, der_octets in *. rewrite not_any. cbn [negb orb].
  rewrite length_app, length_contents in Hl |- *. fold is_bit.
  replace (Z.b2z is_bit + Z.of_nat (length (bs_buf st))) with (Z.of_nat (length (contents_of st)))
    by (unfold contents_of; rewrite length_app; destruct is_bit; cbn [length Z.b2z]; lia).
  set (n := Z.of_nat (length (contents_of st))) in *.
  destruct (der_write_tags_ok (S := S) scratch Hscratch tags n tag_mode false tag) as [-> Hw]; [done|lia|done|lia|].
  cbn [mbind option_bind]. zcase. split; [do 2 f_equal; lia|]. intros key.
  destruct (Hw key) as (k1 & -> & Hk1). cbn [mbind option_bind]. zcase.
  destruct (emit_string_ok st (Z.of_nat (length (der_header false (tags_to_write tags tag_mode tag) n))) k1 Hst ltac:(lia))
    as (k2 & -> & Hk2).
  cbn [mbind option_bind]. exists k2. split; [do 2 f_equal; lia|]. by rewrite Hk2, Hk1, <- app_assoc.
Qed.
End Strings.

(** ** The contract *)

Section Laws.
Context (type_variant : asn_OS_Subvariant) (Hvariant : type_variant <> ASN_OSUBV_ANY) (scratch tags all_tags : list Z).

Definition string_ber : BerType BIT_STRING_t := {|
  ber_struct := string_struct;
  ber_value s := {| bs_buf := ss_buf s; bits_unused := ss_unused s |};
  ber_outmost _ := hd 0 tags;
  ber_decoder := OCTET_STRING_decode_ber type_variant tags all_tags;
  der_encoder S C st tag_mode tag key := OCTET_STRING_encode_der type_variant scratch tags st tag_mode tag key
|}.

Lemma written_ok st : string_ok type_variant st -> string_ok type_variant (written_string type_variant st) /\
  written_string type_variant (written_string type_variant st) = written_string type_variant st.
Proof.
  intros (Hok & Hroom & Hb). unfold string_ok, written_string, string_result. cbn [bs_buf bits_unused].
  destruct st as [buf u]. cbn [bs_buf bits_unused] in *. destruct (is_bit type_variant); [|done]. destruct Hb as [Hu Hempty].
  destruct buf as [|b l _] using rev_ind; [done|]. apply Forall_app in Hok as [Hok [Hbyte _]%Forall_cons].
  assert (Hm : byte_ok ((b ≫ u) ≪ u)).
  { destruct (mask_byte b u Hbyte Hu) as (<- & _). unfold u8, byte_ok. change (2 ^ 8) with 256. apply Z.mod_pos_bound. lia. }
  rewrite !mask_last_snoc by done. rewrite Z.shiftr_shiftl_l, Z.sub_diag, Z.shiftl_0_r by lia. split; [|done]. split_and!; try lia.
  - apply bytes_ok_app; [done|]. by apply bytes_ok_cons; [|apply bytes_ok_nil].
  - rewrite length_app in *. done.
  - intros Hn. by apply app_eq_nil in Hn as [_ ?].
Qed.

Context (Hscratch : length scratch = 32%nat) (Hlen : (1 <= length tags <= 3)%nat) (Hok : Forall tag_ok tags).

Definition string_ber_laws : @BerTypeLaws BIT_STRING_t string_ber.
Proof using All.
  pose proof (prim_mode_ok scratch tags Hscratch Hlen Hok) as Hpm. pose proof (tags_to_write_ok scratch tags Hscratch Hlen Hok) as Htw.
  refine (@Build_BerTypeLaws BIT_STRING_t string_ber (string_ok type_variant) prim_mode (written_string type_variant)
    (fun tag_mode tag st => string_octets type_variant tags tag_mode tag (written_string type_variant st)) _ _ _ _).
  - intros S C A st tag_mode tag Hst Hm Ht Hl. apply encode_string_ok; [done|done|done|lia| |done].
    by apply Htw.
  - intros st tag_mode tag rest Hst Hm Ht Hl. destruct (written_ok st Hst) as [Hw Hidem].
    destruct (decode_string_ok type_variant Hvariant tags all_tags tag_mode tag (written_string type_variant st) rest)
      as (s' & Hr & Hb & Hu); [done|by apply Hpm|by apply Htw|done|].
    exists s'. split; [exact Hr|]. cbn [ber_value string_ber]. rewrite Hb, Hu. exact Hidem.
  - intros st tag_mode tag Hst Hm Ht Hl. destruct (written_ok st Hst) as [(Hb & _ & Hu) _]. unfold string_octets, der_octets in *.
    rewrite length_app in Hl. apply bytes_ok_app; [apply der_header_bytes; [by apply Htw|lia|lia]|].
    unfold contents_of. apply bytes_ok_app; [|done]. destruct (is_bit type_variant); [|apply bytes_ok_nil].
    apply bytes_ok_cons; [|apply bytes_ok_nil]. unfold byte_ok. lia.
  - intros st tag_mode tag _ Hm Ht. by apply (prim_front scratch tags Hscratch Hlen Hok).
Defined.

(** OCTET STRING and the character strings. *)
Definition OCTET_STRING_ber : BerType OCTET_STRING_t :=
  shaped_ber (fun st => {| bs_buf := os_buf st; bits_unused := 0 |}) (fun st => {| os_buf := bs_buf st |}) string_ber.

Definition octet_string_ber_laws : @BerTypeLaws OCTET_STRING_t OCTET_STRING_ber := shaped_ber_laws _ _ string_ber_laws.
End Laws.

(** ** Constructed encodings *)

(** A string in pieces: whole contents, or pieces of their own, closed by a
    length or by an end-of-contents. *)
Inductive piece := Whole (contents : list Z) | Parts (indefinite : bool) (ps : list piece).

Section PieceInd.
Context (P : piece -> Prop) (HW : forall c, P (Whole c)) (HP : forall b ps, Forall P ps -> P (Parts b ps)).

Fixpoint piece_rect' (p : piece) : P p :=
  match p with
  | Whole c => HW c
  | Parts b ps => HP b ps ((fix go ps : Forall P ps :=
      match ps with [] => Forall_nil_2 P | p :: ps => Forall_cons_2 P p ps (piece_rect' p) (go ps) end) ps)
  end.
End PieceInd.

(** The octets, with the tag of the outermost piece and of the ones inside. *)
Fixpoint piece_octets (inner tag : Z) (p : piece) : list Z :=
  match p with
  | Whole c => identifier tag false ++ length_octets (Z.of_nat (length c)) ++ c
  | Parts indefinite ps =>
    let body := concat (map (piece_octets inner inner) ps) in
    identifier tag true ++
    (if indefinite then [128] ++ body ++ [0; 0] else length_octets (Z.of_nat (length body)) ++ body)
  end.

Fixpoint leaves (p : piece) : list (list Z) :=
  match p with
  | Whole c => [c]
  | Parts _ ps => concat (map leaves ps)
  end.

(** Rounds of the decoder. *)
Fixpoint rounds (p : piece) : nat :=
  match p with
  | Whole _ => 3
  | Parts indefinite ps => 2 + (if indefinite then 1 else 0) + sum_list (map rounds ps)
  end.

Section Flatten.
Context (type_variant : asn_OS_Subvariant) (Hvariant : type_variant <> ASN_OSUBV_ANY) (inner tag_mode : Z).
Context (Hinner : tag_ok inner).

#[local] Abbreviation run := (string_phases type_variant [inner] [inner] tag_mode).
#[local] Abbreviation data cs := (concat (piece_data type_variant <$> cs)).

(** The state between two pieces. *)
Definition between (s : string_struct) (cs : list (list Z)) (context : Z) (stack : list stack_el) : string_struct :=
  {| ss_buf := ss_buf s ++ data cs; ss_unused := foldl (piece_unused type_variant) (ss_unused s) cs; ss_phase := 1;
     ss_step := ss_step s; ss_context := context; ss_left := ss_left s; ss_stack := stack |}.

Definition took (n : Z) (sel : stack_el) : stack_el :=
  {| se_left := if negb (se_left sel =? -1) then se_left sel - n else se_left sel; se_got := se_got sel + n;
     se_want_nulls := se_want_nulls sel; se_bits_chopped := se_bits_chopped sel |}.

(** A piece of [n] octets has its place in the current element. *)
Definition fits (sel : stack_el) (n : Z) : Prop :=
  se_left sel = -1 /\ se_want_nulls sel <> 0 \/ n <= se_left sel.

Lemma expected_inner stack tag : expected_tag type_variant [inner] stack tag = match stack with [] => tag | _ => inner end.
Proof using Hvariant.
  unfold expected_tag. rewrite not_any by done. destruct stack as [|sel outer]; [done|].
  destruct outer as [|prev outer]; [done|]. by rewrite lookup_ge_None_2 by (cbn; lia).
Qed.

Lemma fetch_TL_ok tag c len lo tail Left i : tag_ok tag ->
  (lo = length_octets len /\ 0 <= len <= RSSIZE_MAX) \/ (lo = [128] /\ c = true /\ len = -1) ->
  in_ptr i = identifier tag c ++ lo ++ tail -> Z.of_nat (length (identifier tag c) + length lo) <= Left ->
  fetch_TL Left i = Some (inr (tag, c, Z.of_nat (length (identifier tag c) + length lo), len)) /\
  exists o, read (in_ptr i) 0 = Some o /\ o <> 0.
Proof.
  intros Htag Hlo Hptr HL. unfold fetch_TL. rewrite Hptr.
  assert (Hll : (1 <= length lo <= 9)%nat).
  { destruct Hlo as [[-> Hl]|(-> & _)]; [by apply length_octets_bound|cbn; lia]. }
  pose proof (tag_octets_bound tag ltac:(unfold tag_ok in Htag; lia)) as Hid. rewrite <- (length_identifier tag c) in Hid.
  rewrite app_assoc, take_app_ge, <- app_assoc by (rewrite length_app; lia). set (t' := take _ tail).
  destruct (identifier_ok tag c Htag) as (o & r & Hio & Ho & Hc & ->).
  assert (Hread : forall l, read (identifier tag c ++ l) 0 = Some o) by (intros l; by rewrite Hio).
  rewrite (proj2 (Z.eqb_neq _ (-1))), (proj2 (Z.eqb_neq _ 0)) by lia. cbn [mbind option_bind]. rewrite <- app_assoc, Hread.
  cbn [mbind option_bind].
  rewrite Hc, Nat2Z.id, drop_app_length. split; [|by exists o].
  assert (Hf : ber_fetch_length c (lo ++ t') = (Z.of_nat (length lo), Some len)).
  { destruct Hlo as [[-> Hl]|(-> & -> & ->)]; [by apply fetch_length_ok|done]. }
  rewrite Hf, (proj2 (Z.eqb_neq _ (-1))), (proj2 (Z.eqb_neq _ 0)) by lia.
  cbn [mbind option_bind]. do 4 f_equal. lia.
Qed.

Lemma push_ok c tlvl len s i : 0 < tlvl ->
  match ss_stack s with sel :: _ => fits sel (tlvl + Z.max len 0) | [] => True end -> -1 <= len ->
  push_piece type_variant tag_mode c tlvl len s i =
    Some (if c then Again else Leave,
      with_stack ({| se_left := match ss_stack s with
                                | sel :: _ => if negb (se_left sel =? -1) && (len =? -1) then se_left sel - tlvl else len
                                | [] => len end;
                     se_got := tlvl; se_want_nulls := Z.b2z (len =? -1); se_bits_chopped := false |} :: ss_stack s) s,
      skip_input tlvl i).
Proof using Hvariant.
  intros Htl Hfits Hlen. unfold push_piece. rewrite not_any by done. cbn [andb].
  destruct (ss_stack s) as [|sel outer]; [done|].
  destruct (Z.eqb_spec (se_left sel) (-1)); cbn [negb andb mbind option_bind]; [done|]. unfold fits in Hfits.
  destruct (Z.ltb_spec (se_left sel) (tlvl + (if len =? -1 then 0 else len))) as [Hlt|_].
  - revert Hlt. zcases; intros; lia.
  - by destruct (len =? -1).
Qed.

Lemma expect_push tag c len lo tail s i : tag_ok tag -> match ss_stack s with [] => True | _ => tag = inner end ->
  (lo = length_octets len /\ 0 <= len <= RSSIZE_MAX) \/ (lo = [128] /\ c = true /\ len = -1) ->
  in_ptr i = identifier tag c ++ lo ++ tail -> Z.of_nat (length (in_ptr i)) <= ULONG_MAX ->
  let tlvl := Z.of_nat (length (identifier tag c) + length lo) in
  match ss_stack s with sel :: _ => fits sel (tlvl + Z.max len 0) /\ se_left sel <= RSSIZE_MAX | [] => True end ->
  expect_piece type_variant [inner] [inner] tag_mode s i =
    Some (if c then Again else Leave,
      with_stack ({| se_left := match ss_stack s with
                                | sel :: _ => if negb (se_left sel =? -1) && (len =? -1) then se_left sel - tlvl else len
                                | [] => len end;
                     se_got := tlvl; se_want_nulls := Z.b2z (len =? -1); se_bits_chopped := false |} :: ss_stack s) s,
      skip_input tlvl i).
Proof using Hvariant Hinner.
  intros Htag Hmatch Hlo Hptr Hsize tlvl Hfits. unfold expect_piece.
  assert (Hmax : RSSIZE_MAX = 4611686018427387903) by reflexivity. assert (Hmaxu : ULONG_MAX = 18446744073709551615) by reflexivity.
  pose proof (tag_octets_bound tag ltac:(unfold tag_ok in Htag; lia)) as Hid. rewrite <- (length_identifier tag c) in Hid.
  assert (Hlen : -1 <= len) by (destruct Hlo as [[_ ?]|(_ & _ & ?)]; lia).
  assert (Hstart : start_piece type_variant [inner] [inner] tag_mode tag c tlvl len s i = push_piece type_variant tag_mode c tlvl len s i).
  { unfold start_piece. rewrite expected_inner.
    assert (Ht : (tag =? match ss_stack s with [] => tag | _ => inner end) = true)
      by (apply Z.eqb_eq; by destruct (ss_stack s)).
    rewrite Ht. cbn [negb]. by rewrite (proj2 (Z.ltb_ge _ 0)) by lia. }
  pose proof (push_ok c tlvl len s i ltac:(lia)) as Hpush.
  pose proof (f_equal length Hptr) as Hl. rewrite !length_app in Hl.
  destruct (ss_stack s) as [|sel outer] eqn:Hs.
  - destruct (fetch_TL_ok tag c len lo tail (Z.of_nat (length (in_ptr i))) i Htag Hlo Hptr ltac:(lia)) as [-> _].
    cbn [mbind option_bind]. fold tlvl. rewrite Hstart, Hpush by done. done.
  - destruct Hfits as [Hfits Hle].
    assert (Hopen : (se_left sel <=? 0) && (se_want_nulls sel =? 0) = false).
    { destruct Hfits as [[_ Hw]|Hf]; [rewrite (proj2 (Z.eqb_neq _ 0)) by done; by rewrite andb_false_r|].
      by rewrite (proj2 (Z.leb_gt _ 0)) by lia. }
    rewrite Hopen. set (Left := if _ <=? _ then _ else _).
    destruct (fetch_TL_ok tag c len lo tail Left i Htag Hlo Hptr) as (-> & o & Ho & Hne).
    { unfold Left. destruct Hfits as [[-> _]|Hf].
      - change (u64 (-1)) with ULONG_MAX. zcase; lia.
      - rewrite u64_small by lia. zcase; lia. }
    cbn [mbind option_bind]. fold tlvl. unfold at_nulls. rewrite Ho. cbn [mbind option_bind].
    rewrite (proj2 (Z.eqb_neq o 0)) by done. rewrite Hstart, Hpush by done. by destruct (se_want_nulls sel =? 0).
Qed.

(** *** One piece *)

Lemma piece_octets_pos p : (2 <= length (piece_octets inner inner p))%nat.
Proof using Hinner.
  pose proof (tag_octets_bound inner ltac:(unfold tag_ok in Hinner; lia)) as Hid.
  assert (Hlo : forall n, (1 <= length (length_octets n))%nat).
  { intros n. unfold length_octets. case_match; cbn; lia. }
  destruct p as [c|indefinite ps]; cbn [piece_octets]; rewrite !length_app, length_identifier.
  - specialize (Hlo (Z.of_nat (length c))). lia.
  - destruct indefinite; rewrite !length_app; cbn [length]; [lia|].
    specialize (Hlo (Z.of_nat (length (concat (map (piece_octets inner inner) ps))))). lia.
Qed.

Lemma between_nil s context : ss_phase s = 1 -> ss_context s = context -> between s [] context (ss_stack s) = s.
Proof. intros Hp Hc. unfold between. destruct s. cbn in *. subst. by rewrite app_nil_r. Qed.

Lemma between_app s cs context stack cs' context' stack' :
  between (between s cs context stack) cs' context' stack' = between s (cs ++ cs') context' stack'.
Proof. unfold between. cbn. by rewrite fmap_app, concat_app, <- app_assoc, foldl_app. Qed.

(** Phase 2 on the contents of a piece. *)
Lemma contents_ok s i sel outer c rest : ss_stack s = sel :: outer -> se_left sel = Z.of_nat (length c) -> se_bits_chopped sel = false ->
  in_ptr i = c ++ rest -> 0 <= ss_context s < 2 ^ 31 -> Z.of_nat (length (ss_buf s ++ data [c])) < string_room ->
  exists context chopped, 0 <= context < 2 ^ 31 /\ piece_contents type_variant s i = Some (Again,
    {| ss_buf := ss_buf s ++ data [c]; ss_unused := piece_unused type_variant (ss_unused s) c; ss_phase := ss_phase s; ss_step := ss_step s;
       ss_context := context; ss_left := ss_left s;
       ss_stack := {| se_left := 0; se_got := se_got sel + Z.of_nat (length c); se_want_nulls := se_want_nulls sel;
                      se_bits_chopped := chopped |} :: outer |},
    {| in_ptr := rest; in_consumed := in_consumed i + Z.of_nat (length c) |}).
Proof.
  intros Hs Hleft Hchop Hptr Hctx Hroom. unfold piece_contents. rewrite Hs, Hleft, Hptr, length_app. rewrite Hchop.
  zcase. destruct (Z.ltb_spec (Z.of_nat (length c + length rest)) (Z.of_nat (length c))); [lia|]. cbn [negb]. rewrite andb_true_r.
  cbn [fmap list_fmap map concat] in Hroom |- *. rewrite app_nil_r in Hroom. unfold piece_data, piece_unused in *. rewrite app_nil_r.
  destruct c as [|b c]; cbn [length Z.of_nat].
  { change (0 <? 0) with false. cbn [mbind option_bind negb Z.sub Z.opp Z.add Z.eqb]. exists (ss_context s), false. split; [done|].
    replace (if is_bit type_variant then drop 1 [] else []) with (@nil Z) by (by destruct (is_bit type_variant)).
    replace (if is_bit type_variant then default (ss_unused s) (head []) else ss_unused s) with (ss_unused s) by (by destruct (is_bit type_variant)).
    rewrite app_nil_r. unfold skip_input. cbn [Z.to_nat]. rewrite drop_0, Hptr. destruct s. cbn in *. by subst. }
  rewrite (proj2 (Z.ltb_lt 0 _)) by lia.
  destruct (is_bit type_variant) eqn:Eb; cbn [app drop head default from_option] in *.
  - rewrite read_0. cbn [mbind option_bind]. rewrite !drop_0.
    replace (Z.to_nat (Z.of_nat (S (length c)) - 1)) with (length c) by lia. rewrite take_app_length. rewrite drop_0 in Hroom.
    destruct (APPEND_ok c (with_unused b s)) as (ctx & -> & Hc); [done|done|]. cbn [mbind option_bind negb].
    exists ctx, true. split; [lia|]. rewrite Z.sub_diag. unfold skip_input. rewrite Nat2Z.id, Hptr. cbn [app drop].
    by rewrite drop_app_length.
  - rewrite Nat2Z.id, (app_comm_cons c rest b). change (S (length c)) with (length (b :: c)). rewrite take_app_length.
    destruct (APPEND_ok (b :: c) s) as (ctx & -> & Hc); [done|done|]. cbn [mbind option_bind negb].
    exists ctx, false. split; [lia|]. rewrite Z.sub_diag. unfold skip_input. rewrite Nat2Z.id, Hptr.
    rewrite (app_comm_cons c rest b), drop_app_length. by destruct s.
Qed.

Lemma round_again s i s' i' f : ss_phase s = 1 -> expect_piece type_variant [inner] [inner] tag_mode s i = Some (Again, s', i') ->
  run (S f) s i = run f s' i'.
Proof. intros Hp He. cbn [string_phases]. by rewrite Hp, He. Qed.

Lemma round_leave s i s' i' sel outer f : ss_phase s = 1 -> expect_piece type_variant [inner] [inner] tag_mode s i = Some (Leave, s', i') ->
  ss_stack s' = sel :: outer -> ss_phase s' = 1 -> run (S f) s i = run f (with_phase 2 s') i'.
Proof. intros Hp He Hs Hp'. cbn [string_phases]. rewrite Hp, He. cbn [mbind option_bind Z.eqb Pos.eqb]. by rewrite Hs, Hp'. Qed.

Lemma round_contents s i s' i' f : ss_phase s = 2 -> piece_contents type_variant s i = Some (Again, s', i') ->
  ss_phase s' = 2 -> run (S f) s i = run f (with_phase 1 s') i'.
Proof. intros Hp He Hp'. cbn [string_phases]. rewrite Hp, He. cbn [mbind option_bind Z.eqb Pos.eqb]. by rewrite Hp'. Qed.

(** A complete piece gives way to the one around it. *)
Lemma pop_ok s i sel prev outer : ss_stack s = sel :: prev :: outer -> se_left sel = 0 -> se_want_nulls sel = 0 ->
  fits prev (se_got sel) ->
  expect_piece type_variant [inner] [inner] tag_mode s i = Some (Again, with_stack (took (se_got sel) prev :: outer) s, i).
Proof.
  intros Hs Hl Hw Hfits. unfold expect_piece. rewrite Hs, Hl, Hw. cbn [Z.leb Z.eqb Z.compare andb]. unfold finish_piece, took.
  destruct (Z.eqb_spec (se_left prev) (-1)) as [E|E]; cbn [negb andb]; [done|].
  destruct Hfits as [[? _]|Hf]; [done|]. by rewrite (proj2 (Z.ltb_ge _ _)) by lia.
Qed.

(** The end of a piece of indefinite length. *)
Lemma nulls_ok s i sel outer rest : ss_stack s = sel :: outer -> se_want_nulls sel = 1 -> fits sel 2 -> se_left sel <= RSSIZE_MAX ->
  in_ptr i = 0 :: 0 :: rest -> Z.of_nat (length (in_ptr i)) <= RSSIZE_MAX ->
  expect_piece type_variant [inner] [inner] tag_mode s i = Some (Again,
    with_stack ({| se_left := 0; se_got := se_got sel + 2; se_want_nulls := 0; se_bits_chopped := se_bits_chopped sel |} :: outer) s,
    skip_input 2 i).
Proof using Hvariant.
  intros Hs Hw Hfits Hle Hptr Hsize. rewrite Hptr in Hsize. cbn [length] in Hsize. unfold expect_piece. rewrite Hs, Hw. rewrite andb_false_r.
  assert (Hmax : RSSIZE_MAX = 4611686018427387903) by reflexivity.
  set (Left := if _ <=? _ then _ else _).
  assert (HL : 2 <= Left).
  { unfold Left. rewrite Hptr. cbn [length]. destruct Hfits as [[-> _]|Hf].
    - change (u64 (-1)) with 18446744073709551615. zcase; lia.
    - rewrite u64_small by lia. zcase; lia. }
  assert (Hfetch : fetch_TL Left i = Some (inr (0, false, 2, 0))).
  { unfold fetch_TL. rewrite Hptr. by replace (Z.to_nat Left) with (S (S (Z.to_nat (Left - 2)))) by lia. }
  rewrite Hfetch. cbn [mbind option_bind]. unfold at_nulls. rewrite Hw, Hptr. cbn [Z.eqb negb].
  change (read (0 :: 0 :: rest) 0) with (Some 0). change (read (0 :: 0 :: rest) 1) with (Some 0). cbn [mbind option_bind Z.eqb].
  unfold eat_nulls. rewrite not_any, Hw by done. done.
Qed.

(** The outermost piece is complete. *)
Lemma round_last s i sel f : ss_phase s = 1 -> ss_stack s = [sel] -> se_left sel = 0 -> se_want_nulls sel = 0 ->
  run (S f) s i = let '(code, s) := finalize type_variant (with_phase 4 (with_stack [] s)) in Some (code, s, i).
Proof. intros Hp Hs Hl Hw. cbn [string_phases]. rewrite Hp. unfold expect_piece. rewrite Hs, Hl, Hw. cbn. by rewrite Hp. Qed.

(** What it means to take octets that hold whole pieces. *)
Definition runs (n : nat) (octets : list Z) (cs : list (list Z)) : Prop :=
  forall s i rest sel outer f, ss_phase s = 1 -> ss_stack s = sel :: outer -> 0 <= ss_context s < 2 ^ 31 ->
  in_ptr i = octets ++ rest -> Z.of_nat (length (in_ptr i)) <= RSSIZE_MAX ->
  fits sel (Z.of_nat (length octets)) -> se_left sel <= RSSIZE_MAX -> Z.of_nat (length (ss_buf s ++ data cs)) < string_room ->
  exists context, 0 <= context < 2 ^ 31 /\ run (n + f) s i =
    run f (between s cs context (took (Z.of_nat (length octets)) sel :: outer))
      {| in_ptr := rest; in_consumed := in_consumed i + Z.of_nat (length octets) |}.

Lemma took_0 sel : took 0 sel = sel.
Proof. unfold took. destruct sel as [l g w c]. cbn. rewrite Z.sub_0_r, Z.add_0_r. by destruct (negb _). Qed.

Lemma took_took sel a b : 0 <= a -> 0 <= b -> fits sel (a + b) -> took b (took a sel) = took (a + b) sel /\ fits (took a sel) b.
Proof.
  intros Ha Hb Hfits. unfold took, fits in *. cbn. destruct (Z.eqb_spec (se_left sel) (-1)) as [E|E]; cbn [negb].
  - rewrite E in *. cbn [Z.eqb Pos.eqb negb]. split; [f_equal; lia|]. destruct Hfits as [?|?]; [by left|lia].
  - destruct Hfits as [[? _]|Hf]; [done|]. rewrite (proj2 (Z.eqb_neq (se_left sel - a) (-1))) by lia. cbn [negb].
    split; [f_equal; lia|]. right. lia.
Qed.

Lemma runs_nil : runs 0 [] [].
Proof.
  intros s i rest sel outer f Hp Hs Hc Hptr _ _ _ _. exists (ss_context s). split; [done|]. cbn [length Z.of_nat Nat.add app] in *.
  rewrite took_0, <- Hs, between_nil by done. rewrite Z.add_0_r, <- Hptr. by destruct i.
Qed.

Lemma runs_app n o cs n' o' cs' : runs n o cs -> runs n' o' cs' -> runs (n + n') (o ++ o') (cs ++ cs').
Proof.
  intros H H' s i rest sel outer f Hp Hs Hc Hptr Hsize Hfits Hle Hroom.
  rewrite <- app_assoc in Hptr. rewrite length_app, Nat2Z.inj_add in *.
  rewrite fmap_app, concat_app, !length_app in Hroom. destruct (took_took sel (Z.of_nat (length o)) (Z.of_nat (length o')) ltac:(lia) ltac:(lia) Hfits) as [Htook Hfits'].
  destruct (H s i (o' ++ rest) sel outer (n' + f)%nat Hp Hs Hc Hptr Hsize) as (c1 & Hc1 & Hr1).
  { destruct Hfits as [?|?]; [by left|right; lia]. }
  { done. }
  { rewrite length_app. lia. }
  destruct (H' (between s cs c1 (took (Z.of_nat (length o)) sel :: outer)) {| in_ptr := o' ++ rest; in_consumed := in_consumed i + Z.of_nat (length o) |}
    rest (took (Z.of_nat (length o)) sel) outer f) as (c2 & Hc2 & Hr2); try done.
  { cbn [in_ptr]. rewrite Hptr, length_app in Hsize. lia. }
  { unfold took. cbn [se_left]. destruct (negb _); lia. }
  { cbn [between ss_buf]. rewrite !length_app. lia. }
  exists c2. split; [done|]. rewrite <- Nat.add_assoc, Hr1, Hr2, between_app, Htook. cbn [in_consumed]. by rewrite Z.add_assoc.
Qed.

Lemma runs_pieces ps : Forall (fun p => runs (rounds p) (piece_octets inner inner p) (leaves p)) ps ->
  runs (sum_list (map rounds ps)) (concat (map (piece_octets inner inner) ps)) (concat (map leaves ps)).
Proof. induction 1 as [|p ps Hp _ IH]; [apply runs_nil|]. cbn. by apply runs_app. Qed.

Lemma skip_app pre rest i n : in_ptr i = pre ++ rest -> n = Z.of_nat (length pre) ->
  skip_input n i = {| in_ptr := rest; in_consumed := in_consumed i + n |}.
Proof. intros Hptr ->. unfold skip_input. by rewrite Hptr, Nat2Z.id, drop_app_length. Qed.

Lemma runs_whole c : runs (rounds (Whole c)) (piece_octets inner inner (Whole c)) [c].
Proof using Hvariant Hinner.
  intros s i rest sel outer f Hp Hs Hc Hptr Hsize Hfits Hle Hroom. cbn [piece_octets rounds Nat.add] in *.
  set (id := identifier inner false) in *. set (lo := length_octets (Z.of_nat (length c))) in *.
  pose proof (f_equal length Hptr) as Hl. rewrite !length_app in *. rewrite <- !app_assoc in Hptr.
  set (tlvl := Z.of_nat (length id + length lo)).
  pose proof (expect_push inner false (Z.of_nat (length c)) lo (c ++ rest) s i Hinner) as Hpush. rewrite Hs in Hpush. cbn [andb] in Hpush.
  fold id tlvl in Hpush. rewrite (proj2 (Z.eqb_neq (Z.of_nat (length c)) (-1))), andb_false_r in Hpush by lia.
  assert (Htl : 0 < tlvl).
  { unfold tlvl, id. rewrite length_identifier. pose proof (tag_octets_bound inner ltac:(unfold tag_ok in Hinner; lia)). lia. }
  assert (Hmax : RSSIZE_MAX < ULONG_MAX) by reflexivity.
  rewrite round_leave with (s' := with_stack ({| se_left := Z.of_nat (length c); se_got := tlvl; se_want_nulls := 0;
    se_bits_chopped := false |} :: sel :: outer) s) (i' := skip_input tlvl i)
    (sel := {| se_left := Z.of_nat (length c); se_got := tlvl; se_want_nulls := 0; se_bits_chopped := false |})
    (outer := sel :: outer); [|done| |done|done].
  2: { apply Hpush; [done| |done|lia|split; [|done]]. { left. split; [done|]. lia. }
       destruct Hfits as [?|?]; [by left|right; lia]. }
  rewrite (skip_app (id ++ lo) (c ++ rest)); [|by rewrite <- app_assoc|rewrite length_app; done].
  match goal with |- context [run _ ?s1 ?i1] =>
    destruct (contents_ok s1 i1 {| se_left := Z.of_nat (length c); se_got := tlvl; se_want_nulls := 0; se_bits_chopped := false |}
      (sel :: outer) c rest) as (ctx & chopped & Hctx & Hcontents); try done end.
  { cbn. by destruct (ss_phase s =? 0). }
  { rewrite length_app. done. }
  erewrite round_contents; [|done|exact Hcontents|done].
  cbn [with_phase with_stack ss_phase ss_context ss_buf ss_unused ss_step ss_left ss_stack se_got se_want_nulls Z.eqb Pos.eqb].
  exists ctx. split; [done|].
  erewrite round_again; [|done|].
  2: { eapply (pop_ok _ _ _ sel outer); [done|done|done|]. cbn [se_got]. unfold tlvl.
       destruct Hfits as [?|?]; [by left|right; lia]. }
  f_equal; [|f_equal; cbn [in_consumed]; unfold tlvl; lia].
  unfold between, with_stack. cbn. f_equal. do 2 f_equal. unfold tlvl. lia.
Qed.

(** The octets of a constructed piece in three parts. *)
Definition parts_len (indefinite : bool) (ps : list piece) : Z :=
  if indefinite then -1 else Z.of_nat (length (concat (map (piece_octets inner inner) ps))).
Definition parts_length (indefinite : bool) (ps : list piece) : list Z :=
  if indefinite then [128] else length_octets (parts_len false ps).
Definition parts_end (indefinite : bool) : list Z := if indefinite then [0; 0] else [].

Lemma parts_octets tag indefinite ps : piece_octets inner tag (Parts indefinite ps) =
  identifier tag true ++ parts_length indefinite ps ++ concat (map (piece_octets inner inner) ps) ++ parts_end indefinite.
Proof. destruct indefinite; cbn [piece_octets parts_length parts_end parts_len]; [done|]. by rewrite app_nil_r. Qed.

(** The element pushed for it. *)
Definition parts_el (indefinite : bool) (ps : list piece) (tlvl : Z) (stack : list stack_el) : stack_el :=
  {| se_left := match stack with
                | sel :: _ => if negb (se_left sel =? -1) && indefinite then se_left sel - tlvl else parts_len indefinite ps
                | [] => parts_len indefinite ps end;
     se_got := tlvl; se_want_nulls := Z.b2z indefinite; se_bits_chopped := false |}.

Lemma push_parts tag indefinite ps tail s i : tag_ok tag -> match ss_stack s with [] => True | _ => tag = inner end ->
  let tlvl := Z.of_nat (length (identifier tag true ++ parts_length indefinite ps)) in
  in_ptr i = piece_octets inner tag (Parts indefinite ps) ++ tail -> Z.of_nat (length (in_ptr i)) <= RSSIZE_MAX ->
  match ss_stack s with
  | sel :: _ => fits sel (Z.of_nat (length (piece_octets inner tag (Parts indefinite ps)))) /\ se_left sel <= RSSIZE_MAX
  | [] => True end ->
  expect_piece type_variant [inner] [inner] tag_mode s i =
    Some (Again, with_stack (parts_el indefinite ps tlvl (ss_stack s) :: ss_stack s) s,
          {| in_ptr := concat (map (piece_octets inner inner) ps) ++ parts_end indefinite ++ tail; in_consumed := in_consumed i + tlvl |}).
Proof using Hvariant Hinner.
  intros Htag Hmatch tlvl Hptr Hsize Hfits. pose proof (f_equal length Hptr) as Hl. rewrite parts_octets, !length_app in *.
  rewrite <- !app_assoc in Hptr. assert (Hmax : RSSIZE_MAX < ULONG_MAX) by reflexivity.
  set (body := concat (map (piece_octets inner inner) ps)) in *.
  assert (Hlen : (parts_len indefinite ps =? -1) = indefinite).
  { destruct indefinite; [done|]. apply Z.eqb_neq. unfold parts_len. lia. }
  rewrite (expect_push tag true (parts_len indefinite ps) (parts_length indefinite ps) (body ++ parts_end indefinite ++ tail)); try done.
  - rewrite <- length_app. fold tlvl. rewrite Hlen. rewrite (skip_app (identifier tag true ++ parts_length indefinite ps) (body ++ parts_end indefinite ++ tail));
      [done|by rewrite <- app_assoc|done].
  - destruct indefinite; [by right|left]. split; [done|]. unfold parts_len. fold body. lia.
  - lia.
  - destruct (ss_stack s) as [|sel outer]; [done|]. destruct Hfits as [Hfits Hle]. split; [|done].
    destruct Hfits as [?|?]; [by left|right]. unfold parts_len, parts_end in *. fold body. destruct indefinite; cbn [length] in *; lia.
Qed.

(** The pieces inside a constructed one, up to its end. *)
Lemma runs_inside (indefinite : bool) ps s i rest sel outer f :
  Forall (fun p => runs (rounds p) (piece_octets inner inner p) (leaves p)) ps ->
  let body := concat (map (piece_octets inner inner) ps) in
  let nulls := parts_end indefinite in
  let n : Z := Z.of_nat (length (body ++ nulls)) in
  ss_phase s = 1 -> ss_stack s = sel :: outer -> 0 <= ss_context s < 2 ^ 31 ->
  in_ptr i = body ++ nulls ++ rest -> Z.of_nat (length (in_ptr i)) <= RSSIZE_MAX ->
  se_want_nulls sel = Z.b2z indefinite -> (if indefinite then fits sel n else se_left sel = n) -> se_left sel <= RSSIZE_MAX ->
  Z.of_nat (length (ss_buf s ++ data (concat (map leaves ps)))) < string_room ->
  exists context chopped, 0 <= context < 2 ^ 31 /\
    run ((if indefinite then 1 else 0) + sum_list (map rounds ps) + f)%nat s i =
    run f (between s (concat (map leaves ps)) context
      ({| se_left := 0; se_got := se_got sel + n; se_want_nulls := 0; se_bits_chopped := chopped |} :: outer))
      {| in_ptr := rest; in_consumed := in_consumed i + n |}.
Proof using Hvariant.
  intros Hps body nulls n Hp Hs Hc Hptr Hsize Hw Hfits Hle Hroom.
  pose proof (f_equal length Hptr) as Hl. rewrite !length_app in Hl.
  assert (Hn : n = Z.of_nat (length body) + Z.of_nat (length nulls)) by (unfold n; rewrite length_app; lia).
  assert (Hbody : fits sel (Z.of_nat (length body)) /\ (indefinite = true -> fits (took (Z.of_nat (length body)) sel) 2)).
  { subst nulls. destruct indefinite; cbn [length] in Hn; [|split; [right; lia|done]]. rewrite Hn in Hfits.
    destruct (took_took sel (Z.of_nat (length body)) 2 ltac:(lia) ltac:(lia) Hfits) as [_ ?]. split; [|done].
    destruct Hfits as [?|?]; [by left|right; lia]. }
  destruct Hbody as [Hbody Hnulls].
  rewrite (Nat.add_comm (if indefinite then 1 else 0)%nat), <- Nat.add_assoc.
  destruct (runs_pieces ps Hps s i (nulls ++ rest) sel outer ((if indefinite then 1 else 0) + f)%nat Hp Hs Hc Hptr Hsize Hbody Hle Hroom)
    as (ctx & Hctx & ->).
  exists ctx, (se_bits_chopped sel). split; [done|]. fold body. set (got := Z.of_nat (length body)) in *.
  destruct indefinite; cbn [Nat.add Z.b2z] in *.
  - change (Z.of_nat (length nulls)) with 2 in Hn. erewrite round_again; [|done|].
    2: { eapply (nulls_ok _ _ (took got sel) outer rest); [done|exact Hw|by apply Hnulls| |done|].
         - unfold took. cbn [se_left]. destruct (negb _); lia.
         - cbn [in_ptr]. rewrite length_app. lia. }
    f_equal; [unfold between, with_stack, took; cbn; do 3 f_equal; lia|].
    unfold skip_input. cbn. f_equal. lia.
  - change (Z.of_nat (length nulls)) with 0 in Hn. f_equal; [|f_equal; lia]. unfold between, took. f_equal. rewrite Hfits, Hw.
    rewrite (proj2 (Z.eqb_neq n (-1))) by lia. cbn [negb]. do 2 f_equal; lia.
Qed.

Lemma runs_parts indefinite ps : Forall (fun p => runs (rounds p) (piece_octets inner inner p) (leaves p)) ps ->
  runs (rounds (Parts indefinite ps)) (piece_octets inner inner (Parts indefinite ps)) (leaves (Parts indefinite ps)).
Proof using Hvariant Hinner.
  intros Hps s i rest sel outer f Hp Hs Hc Hptr Hsize Hfits Hle Hroom.
  pose proof (push_parts inner indefinite ps rest s i Hinner) as Hpush. rewrite Hs in Hpush. cbn zeta in Hpush.
  specialize (Hpush eq_refl Hptr Hsize (conj Hfits Hle)). rewrite parts_octets in *.
  set (front := identifier inner true ++ parts_length indefinite ps) in *. rewrite app_assoc in *. fold front in Hptr, Hfits |- *.
  set (body := concat (map (piece_octets inner inner) ps)) in *. set (tlvl := Z.of_nat (length front)) in *.
  set (n := Z.of_nat (length (body ++ parts_end indefinite))).
  assert (Hn : Z.of_nat (length (front ++ body ++ parts_end indefinite)) = tlvl + n) by (rewrite length_app; lia).
  rewrite Hn in *. clear Hn. pose proof (f_equal length Hptr) as Hl. rewrite !length_app in Hl.
  assert (Hr : (rounds (Parts indefinite ps) + f = S ((if indefinite then 1 else 0) + sum_list (map rounds ps) + S f))%nat)
    by (cbn [rounds]; lia).
  rewrite Hr. erewrite round_again; [|done|exact Hpush].
  match goal with |- context [run _ ?s1 ?i1] =>
    destruct (runs_inside indefinite ps s1 i1 rest (parts_el indefinite ps tlvl (sel :: outer)) (sel :: outer) (S f) Hps)
      as (ctx & chopped & Hctx & ->); try done end.
  - cbn [in_ptr]. by rewrite <- app_assoc.
  - cbn [in_ptr]. rewrite !length_app. lia.
  - fold body n. unfold fits, parts_el, parts_len in *. cbn [se_left se_want_nulls]. fold body. destruct indefinite; cbn [Z.b2z parts_end] in *.
    + rewrite andb_true_r. destruct (Z.eqb_spec (se_left sel) (-1)) as [E|E]; cbn [negb]; [by left|right; lia].
    + rewrite andb_false_r. unfold n. by rewrite app_nil_r.
  - unfold parts_el, parts_len. cbn [se_left]. fold body. destruct (negb _ && _) eqn:E; [unfold tlvl; lia|]. destruct indefinite; [done|lia].
  - exists ctx. split; [done|]. erewrite round_again; [|done|].
    2: { eapply (pop_ok _ _ _ sel outer); [done|done|done|]. fold body n. cbn [se_got parts_el].
         destruct Hfits as [?|?]; [by left|by right]. }
    fold body n. cbn [se_got parts_el]. f_equal. cbn [in_consumed]. f_equal. lia.
Qed.

Lemma runs_piece p : runs (rounds p) (piece_octets inner inner p) (leaves p).
Proof using Hvariant Hinner.
  induction p as [c|indefinite ps IH] using piece_rect'; [apply runs_whole|by apply runs_parts].
Qed.

Lemma rounds_sum ps : Forall (fun p => (rounds p <= 2 * length (piece_octets inner inner p))%nat) ps ->
  (sum_list (map rounds ps) <= 2 * length (concat (map (piece_octets inner inner) ps)))%nat.
Proof. induction 1 as [|p ps Hp _ IH]; cbn; [lia|]. rewrite length_app. unfold sum_list in *. lia. Qed.

Lemma parts_length_pos indefinite ps : (1 <= length (parts_length indefinite ps))%nat.
Proof. unfold parts_length, length_octets. repeat case_match; cbn; lia. Qed.

Lemma rounds_bound p : (rounds p <= 2 * length (piece_octets inner inner p))%nat.
Proof using Hinner.
  pose proof (tag_octets_bound inner ltac:(unfold tag_ok in Hinner; lia)) as Hid.
  induction p as [c|indefinite ps IH] using piece_rect'.
  - pose proof (piece_octets_pos (Whole c)). cbn [rounds]. lia.
  - rewrite parts_octets, !length_app, length_identifier. cbn [rounds].
    pose proof (rounds_sum ps IH). pose proof (parts_length_pos indefinite ps). destruct indefinite; cbn [parts_end length]; lia.
Qed.

(** The tags in front of it. *)
Lemma check_parts tag indefinite ps rest : tag_ok tag -> tag_mode = 0 /\ tag = inner \/ tag_mode = -1 ->
  Z.of_nat (length (piece_octets inner tag (Parts indefinite ps))) <= RSSIZE_MAX ->
  exists consumed len, ber_check_tags [inner] (Some 0) (piece_octets inner tag (Parts indefinite ps) ++ rest) tag_mode (-1) =
    Some (RC_OK, consumed, Some 1, Some (len, 1)).
Proof using Hinner.
  intros Htag Hmode. rewrite parts_octets, !length_app. intros Hl.
  rewrite <- !app_assoc. set (tail := parts_end indefinite ++ rest).
  set (body := concat (map (piece_octets inner inner) ps)) in *.
  unfold ber_check_tags.
  assert (Hmode' : (tag_mode =? 1) = false) by (destruct Hmode as [[-> _]| ->]; done). rewrite Hmode'.
  change (default 0 (Some 0) + 0 =? Z.of_nat (length [inner])) with false.
  change (default 0 (Some 0) + 0 <? Z.of_nat (length [inner])) with true.
  change (Z.to_nat (Z.of_nat (length [inner]) - (default 0 (Some 0) + 0))) with 1%nat.
  change (default 0 (Some 0) + 0) with 0. change (default 0 (Some 0)) with 0. rewrite andb_false_r. cbn [check_loop].
  unfold check_tag. cbn [cs_ptr cs_step cs_limit_len cs_expect_00].
  destruct (identifier_front tag true (parts_length indefinite ps ++ body ++ tail) Htag) as (o & Ho & Hc & ->).
  pose proof (tag_octets_bound tag ltac:(unfold tag_ok in Htag; lia)) as Hid. rewrite <- (length_identifier tag true) in Hid.
  rewrite (proj2 (Z.eqb_neq _ (-1))), (proj2 (Z.eqb_neq _ 0)) by lia. rewrite Ho. cbn [mbind option_bind]. rewrite Hc.
  set (s0 := {| cs_ptr := _ |}).
  assert (Ht : (if negb (tag_mode =? 0) && (0 =? 0) then Some true else expected ← read [inner] 0; Some (tag =? expected)) = Some true).
  { destruct Hmode as [[-> ->]| ->]; [|done]. change (read [inner] 0) with (Some inner). cbn. by rewrite Z.eqb_refl. }
  rewrite Ht. cbn [mbind option_bind negb]. change (wrong_form (Z.of_nat (length [inner]) - 1 <=? 0) (-1) (Z.b2z true)) with false.
  cbn match. rewrite Nat2Z.id, drop_app_length. clear Ht Ho. clearbody s0.
  assert (Hf : ber_fetch_length true (parts_length indefinite ps ++ body ++ tail) =
    (Z.of_nat (length (parts_length indefinite ps)), Some (parts_len indefinite ps)) /\ 1 <= Z.of_nat (length (parts_length indefinite ps))).
  { destruct indefinite; [done|]. unfold parts_length, parts_len in Hl |- *. fold body in Hl |- *. split; [apply fetch_length_ok; lia|].
    pose proof (length_octets_bound (Z.of_nat (length body)) ltac:(lia)). lia. }
  destruct Hf as [-> Hlo]. rewrite (proj2 (Z.eqb_neq (Z.of_nat (length (parts_length indefinite ps))) (-1))),
    (proj2 (Z.eqb_neq (Z.of_nat (length (parts_length indefinite ps))) 0)) by lia.
  cbn [mbind option_bind]. change (-1 =? -1) with true. change (0 =? 0) with true. cbn [negb]. rewrite Z.eqb_refl.
  destruct (Z.eqb_spec (parts_len indefinite ps) (-1)) as [E|E].
  - eexists _, _. reflexivity.
  - rewrite (proj2 (Z.ltb_ge _ 0)); [eexists _, _; reflexivity|].
    destruct indefinite; [done|]. unfold parts_len. lia.
Qed.

(** The value of a string in pieces. *)
Definition joined (p : piece) : BIT_STRING_t :=
  {| bs_buf := data (leaves p); bits_unused := foldl (piece_unused type_variant) 0 (leaves p) |}.

Lemma decode_parts_ok tag indefinite ps rest : tag_ok tag -> tag_mode = 0 /\ tag = inner \/ tag_mode = -1 ->
  let p := Parts indefinite ps in
  let octets := piece_octets inner tag p in
  Z.of_nat (length (octets ++ rest)) <= RSSIZE_MAX -> Z.of_nat (length (bs_buf (joined p))) < string_room ->
  (if is_bit type_variant then 0 <= bits_unused (joined p) <= 7 /\ (bs_buf (joined p) = [] -> bits_unused (joined p) = 0) else True) ->
  exists s', OCTET_STRING_decode_ber type_variant [inner] [inner] tag_mode None (octets ++ rest) =
    Some (RC_OK, Z.of_nat (length octets), Some s') /\
    ss_buf s' = string_result type_variant (bs_buf (joined p)) (bits_unused (joined p)) /\ ss_unused s' = bits_unused (joined p).
Proof using Hvariant Hinner.
  intros Htag Hmode p octets Hsize Hroom Hbits. unfold OCTET_STRING_decode_ber. cbn [default fresh_string ss_phase Z.eqb ss_step].
  pose proof Hsize as Hl. rewrite length_app in Hl.
  destruct (check_parts tag indefinite ps rest Htag Hmode ltac:(fold p; fold octets; lia)) as (consumed & len & Hct).
  fold p octets in Hct. rewrite Hct. cbn [mbind option_bind]. rewrite bool_decide_true by done. cbn [negb Z.eqb].
  match goal with |- context [with_phase 1 ?x] => set (s0 := with_phase 1 x) end. set (i0 := {| in_ptr := _ |}).
  pose proof (push_parts tag indefinite ps rest s0 i0 Htag I eq_refl Hsize I) as Hpush. cbn [ss_stack s0 with_phase with_stack] in Hpush.
  set (tlvl := Z.of_nat (length (identifier tag true ++ parts_length indefinite ps))) in *.
  pose proof (rounds_sum ps ltac:(apply Forall_true; apply rounds_bound)) as Hrounds. set (sel := parts_el indefinite ps tlvl []) in *.
  pose proof (parts_octets tag indefinite ps) as Hparts. fold p octets in Hparts.
  set (body := concat (map (piece_octets inner inner) ps)) in *. set (n := Z.of_nat (length (body ++ parts_end indefinite))).
  assert (Hlen : Z.of_nat (length octets) = tlvl + n) by (rewrite Hparts, app_assoc, length_app; lia).
  assert (Hfuel : exists f, string_fuel s0 i0 = S ((if indefinite then 1 else 0) + sum_list (map rounds ps) + S f)).
  { exists (string_fuel s0 i0 - (if indefinite then 1 else 0) - sum_list (map rounds ps) - 2)%nat. unfold string_fuel.
    cbn [i0 in_ptr s0 ss_stack with_phase with_stack length]. rewrite length_app, Hparts, !length_app, length_identifier.
    pose proof (parts_length_pos indefinite ps). fold body in Hrounds. destruct indefinite; lia. }
  destruct Hfuel as [f ->]. erewrite round_again; [|done|exact Hpush].
  match goal with |- context [run _ ?s1 ?i1] =>
    destruct (runs_inside indefinite ps s1 i1 rest sel [] (S f)) as (ctx & chopped & Hctx & ->); try done end.
  - apply Forall_true. apply runs_piece.
  - cbn [in_ptr]. rewrite Hparts, !length_app in Hl. rewrite !length_app. lia.
  - fold body n. unfold sel, parts_el, parts_len, fits. cbn [se_left se_want_nulls]. destruct indefinite; [by left|].
    fold body. unfold n. cbn [parts_end]. by rewrite app_nil_r.
  - unfold sel, parts_el, parts_len. cbn [se_left]. fold body. destruct indefinite; [done|]. cbn [parts_end] in n. unfold n in Hlen.
    rewrite length_app in Hlen. lia.
  - rewrite (round_last _ _ {| se_left := 0; se_got := se_got sel + n; se_want_nulls := 0; se_bits_chopped := chopped |}); [|reflexivity..].
    rewrite finalize_ok; [|exact Hbits]. cbn [mbind option_bind in_consumed]. eexists. split.
    + fold body n. cbn [in_consumed i0]. rewrite Hlen, Z.add_0_l. reflexivity.
    + done.
Qed.
End Flatten.

(** ** Any octets *)

Section Any.
Context (type_variant : asn_OS_Subvariant) (Hvariant : type_variant <> ASN_OSUBV_ANY) (tags all_tags : list Z) (tag_mode : Z).
Context (Htags : tags <> []).

(** An expectation: the length is known, or an end-of-contents is awaited. *)
Definition el_ok (sel : stack_el) : Prop :=
  (se_want_nulls sel = 0 \/ se_want_nulls sel = 1) /\ (se_left sel = -1 /\ se_want_nulls sel = 1 \/ 0 <= se_left sel) /\ 0 <= se_got sel.

(** What holds of a string between two calls, and between two rounds: the
    capacity covers the octets there are, and each phase finds the context it
    relies on. *)
Definition string_inv (s : string_struct) : Prop :=
  Z.of_nat (length (ss_buf s)) <= ss_context s < 2 ^ 31 /\
  (ss_phase s = 1 /\ Forall el_ok (ss_stack s) \/
   ss_phase s = 2 /\ Forall el_ok (ss_stack s) /\ (exists sel outer, ss_stack s = sel :: outer /\ 0 <= se_left sel) \/
   ss_phase s = 3 /\ 0 <= ss_left s \/ ss_phase s = 4).

(** The rest of the input lies behind what was taken. *)
Definition within (i i' : input) : Prop :=
  in_consumed i <= in_consumed i' /\
  in_consumed i' + Z.of_nat (length (in_ptr i')) = in_consumed i + Z.of_nat (length (in_ptr i)) /\ bytes_ok (in_ptr i').

Lemma within_refl i : bytes_ok (in_ptr i) -> within i i.
Proof. intros Hok. unfold within. split_and!; (done || lia). Qed.

Lemma within_trans i1 i2 i3 : within i1 i2 -> within i2 i3 -> within i1 i3.
Proof. intros (? & ? & ?) (? & ? & ?). unfold within. split_and!; (done || lia). Qed.

Lemma skip_within n i : bytes_ok (in_ptr i) -> 0 <= n <= Z.of_nat (length (in_ptr i)) -> within i (skip_input n i) /\
  Z.of_nat (length (in_ptr (skip_input n i))) = Z.of_nat (length (in_ptr i)) - n.
Proof. intros Hok Hn. unfold within, skip_input. cbn. rewrite length_drop. split_and!; try lia. by apply bytes_ok_drop. Qed.

(** Appending gives up on a string that is too long. *)
Lemma APPEND_any d s : Z.of_nat (length (ss_buf s)) <= ss_context s < 2 ^ 31 -> Z.of_nat (length d) < 2 ^ 31 ->
  exists ok s', APPEND d s = Some (ok, s') /\ Z.of_nat (length (ss_buf s')) <= ss_context s' < 2 ^ 31 /\
    (ok = true -> 0 < ss_context s') /\ (ok = false -> s' = s) /\
    ss_unused s' = ss_unused s /\ ss_phase s' = ss_phase s /\ ss_step s' = ss_step s /\ ss_left s' = ss_left s /\ ss_stack s' = ss_stack s.
Proof.
  change (2 ^ 31) with 2147483648. intros Hs Hd. unfold APPEND.
  set (es := Z.of_nat (length (ss_buf s)) + Z.of_nat (length d)).
  assert (Hes : 0 <= es < 4294967296) by lia.
  assert (Hsign : forall x, 0 <= x < 4294967296 -> (s32 x <? 0) = false -> s32 x = x /\ x < 2147483648).
  { intros x Hx. unfold s32, sext. change (2 ^ 32) with 4294967296. change (2 ^ (32 - 1)) with 2147483648. rewrite Z.mod_small by done. zcases; intros; lia. }
  destruct (s32 es <? 0) eqn:E1; [by exists false, s|]. apply Hsign in E1; [|done]. destruct E1 as [_ E1].
  destruct (Z.leb_spec (ss_context s) es) as [Hle|Hlt]; cbn [andb].
  - destruct (grow_ok 64 (ss_context s) es) as (ns & -> & Hns); [lia|change (2 ^ 63) with 9223372036854775808; lia| |lia|].
    { change (2 ^ Z.of_nat 64) with 18446744073709551616. zcase; lia. }
    cbn [mbind option_bind]. destruct (s32 ns <? 0) eqn:E2; [by exists false, s|]. apply Hsign in E2; [|lia].
    eexists true, _. split; [done|]. cbn. rewrite length_app. split_and!; (done || lia).
  - cbn [mbind option_bind]. eexists true, _. split; [done|]. cbn. rewrite length_app, s32_small by lia. split_and!; (done || lia).
Qed.

(** What the rounds of phase 1 keep, and what they use up. *)
Definition walking (s : string_struct) : Prop :=
  Z.of_nat (length (ss_buf s)) <= ss_context s < 2 ^ 31 /\ Forall el_ok (ss_stack s).
Definition weight (s : string_struct) (i : input) : nat := (3 * length (in_ptr i) + 2 * length (ss_stack s))%nat.

Definition round_any (s : string_struct) (i : input) (r : option (move * string_struct * input)) : Prop :=
  exists m s' i', r = Some (m, s', i') /\ within i i' /\ walking s' /\ ss_phase s' = ss_phase s /\
  match m with
  | Return _ => True
  | Again => (weight s' i' < weight s i)%nat
  | Leave => (weight s' i' + 1 < weight s i)%nat /\ match ss_stack s' with [] => True | sel :: _ => 0 <= se_left sel end
  | Behind => False
  end.

Lemma return_any code s i : walking s -> bytes_ok (in_ptr i) -> round_any s i (Some (Return code, s, i)).
Proof. intros Hw Hok. exists (Return code), s, i. split; [done|]. split; [by apply within_refl|done]. Qed.

Lemma finish_any s i sel outer : walking s -> bytes_ok (in_ptr i) -> ss_stack s = sel :: outer ->
  round_any s i (let '(m, s) := finish_piece sel outer s in Some (m, s, i)).
Proof.
  intros Hwalk Hok Hs. destruct (Hwalk) as [Hcap Hst]. rewrite Hs in Hst. apply Forall_cons in Hst as [Hsel Hst]. unfold finish_piece.
  destruct outer as [|prev outer].
  { eexists _, _, _. split; [done|]. split; [by apply within_refl|]. unfold walking, weight. cbn. rewrite Hs. cbn. split_and!; (done || lia). }
  apply Forall_cons in Hst as [(Hw & Hl & Hg) Hst].
  destruct (Z.eqb_spec (se_left prev) (-1)) as [E|E]; cbn [negb andb].
  2: destruct (Z.ltb_spec (se_left prev) (se_got sel)); [by apply return_any|].
  all: eexists _, _, _; split; [done|]; split; [by apply within_refl|]; unfold walking, weight; cbn; rewrite Hs; cbn.
  all: split_and!; try (done || lia); constructor; [|done]; unfold el_ok in *; cbn; split_and!; (done || lia).
Qed.

Lemma fetch_any Left i : bytes_ok (in_ptr i) ->
  (exists code, fetch_TL Left i = Some (inl code)) \/
  exists tag c tlvl len, fetch_TL Left i = Some (inr (tag, c, tlvl, len)) /\ 2 <= tlvl <= Z.of_nat (length (in_ptr i)) /\
    (0 <= len \/ c = true /\ len = -1).
Proof.
  intros Hok. unfold fetch_TL. set (ptr := take _ _).
  assert (Hptr : bytes_ok ptr /\ (length ptr <= length (in_ptr i))%nat) by (unfold ptr; rewrite length_take; split; [by apply bytes_ok_take|lia]).
  destruct Hptr as [Hp Hle].
  destruct (ber_fetch_tag_any ptr) as [(r & -> & [-> | ->])|(tl & tag & o & -> & Htl & Ho)]; [by left; eexists..|].
  rewrite (proj2 (Z.eqb_neq tl (-1))), (proj2 (Z.eqb_neq tl 0)) by lia. cbn [mbind option_bind].
  destruct (read_Some (in_ptr i) 0 ltac:(lia)) as (o' & -> & _). cbn [mbind option_bind].
  destruct (ber_fetch_length_any (BER_TLV_CONSTRUCTED o') (drop (Z.to_nat tl) ptr)) as [(r & -> & [-> | ->])|(ll & l & -> & Hll & Hl)];
    [by apply bytes_ok_drop|by left; eexists..|].
  rewrite length_drop in Hll. rewrite (proj2 (Z.eqb_neq ll (-1))), (proj2 (Z.eqb_neq ll 0)) by lia. cbn [mbind option_bind].
  right. eexists _, _, _, _. split; [done|]. split; [lia|done].
Qed.

Lemma push_any c tlvl len s i : walking s -> bytes_ok (in_ptr i) -> 2 <= tlvl <= Z.of_nat (length (in_ptr i)) -> (0 <= len \/ c = true /\ len = -1) ->
  round_any s i (push_piece type_variant tag_mode c tlvl len s i).
Proof using Hvariant.
  intros [Hcap Hst] Hok Htl Hlen. unfold push_piece. rewrite not_any by done. cbn [andb].
  assert (Hpush : forall remaining, (len = -1 /\ remaining = -1 \/ 0 <= remaining) ->
    let s' := with_stack ({| se_left := remaining; se_got := tlvl; se_want_nulls := Z.b2z (len =? -1); se_bits_chopped := false |} :: ss_stack s) s in
    round_any s i (Some (if c then Again else Leave, s', skip_input tlvl i))).
  { intros remaining Hr. destruct (skip_within tlvl i Hok ltac:(lia)) as [Hin Hskip]. eexists _, _, _. split; [done|]. split; [done|].
    split; [|split; [done|]].
    - split; [done|]. cbn. constructor; [|done]. unfold el_ok. cbn. destruct (Z.eqb_spec len (-1)); cbn; split_and!; try lia; auto.
    - unfold weight. cbn [with_stack ss_stack length]. destruct c; [lia|]. split; [lia|]. cbn. destruct Hlen as [?|[? _]]; [lia|done]. }
  destruct (ss_stack s) as [|prev outer] eqn:Hs; cbn [mbind option_bind].
  { apply Hpush. destruct Hlen as [?|[_ ?]]; [by right|by left]. }
  assert (Hfail : round_any s i (Some (Return RC_FAIL, with_stack ({| se_left := 0; se_got := 0; se_want_nulls := Z.b2z (len =? -1);
    se_bits_chopped := false |} :: prev :: outer) s, i))).
  { eexists _, _, _. split; [done|]. split; [by apply within_refl|]. split; [|done]. split; [done|]. cbn. constructor; [|done].
    unfold el_ok. cbn. destruct (len =? -1); cbn; split_and!; auto; lia. }
  destruct (Z.eqb_spec (se_left prev) (-1)); cbn [negb mbind option_bind].
  { apply Hpush. destruct Hlen as [?|[_ ?]]; [by right|by left]. }
  destruct (Z.ltb_spec (se_left prev) (tlvl + (if len =? -1 then 0 else len))) as [|Hge]; [done|]. cbn [mbind option_bind negb].
  apply Hpush. revert Hge. destruct (Z.eqb_spec len (-1)); intros; right; lia.
Qed.

Lemma nulls_any sel outer s i : walking s -> bytes_ok (in_ptr i) -> 2 <= Z.of_nat (length (in_ptr i)) -> ss_stack s = sel :: outer ->
  se_want_nulls sel <> 0 -> round_any s i (eat_nulls type_variant tag_mode sel outer s i).
Proof using Hvariant.
  intros [Hcap Hst] Hok Hlen Hs Hw. unfold eat_nulls. rewrite not_any by done. cbn [andb mbind option_bind negb].
  rewrite Hs in Hst. apply Forall_cons in Hst as [([?|Hw1] & Hl & Hg) Hst]; [done|]. rewrite Hw1. change (1 - 1) with 0. change (0 =? 0) with true. cbn match.
  destruct (skip_within 2 i Hok ltac:(lia)) as [Hin Hskip]. eexists _, _, _. split; [done|]. split; [done|]. split; [|split; [done|]].
  - split; [done|]. cbn. constructor; [|done]. unfold el_ok. cbn. split_and!; auto; lia.
  - unfold weight. rewrite Hs. cbn [with_stack ss_stack length]. lia.
Qed.

Lemma start_any tag c tlvl len s i : walking s -> bytes_ok (in_ptr i) -> 2 <= tlvl <= Z.of_nat (length (in_ptr i)) ->
  (0 <= len \/ c = true /\ len = -1) -> round_any s i (start_piece type_variant tags all_tags tag_mode tag c tlvl len s i).
Proof using Hvariant Htags.
  intros Hw Hok Htl Hlen. unfold start_piece. destruct (negb _).
  - destruct tags as [|t ts] eqn:Ht; [done|]. destruct (read_Some (t :: ts) (Z.of_nat (length (t :: ts)) - 1)) as (x & -> & _); [cbn [length]; lia|].
    cbn [mbind option_bind]. by apply return_any.
  - destruct (len + tlvl <? 0); [by apply return_any|by apply push_any].
Qed.

Lemma expect_any s i : walking s -> bytes_ok (in_ptr i) -> round_any s i (expect_piece type_variant tags all_tags tag_mode s i).
Proof using Hvariant Htags.
  intros Hw Hok. unfold expect_piece. destruct (ss_stack s) as [|sel outer] eqn:Hs.
  - destruct (fetch_any (Z.of_nat (length (in_ptr i))) i Hok) as [(code & ->)|(tag & c & tlvl & len & -> & Htl & Hlen)];
      [by apply return_any|by apply start_any].
  - destruct ((se_left sel <=? 0) && (se_want_nulls sel =? 0)); [by apply finish_any|].
    match goal with |- context [fetch_TL ?L i] => destruct (fetch_any L i Hok) as [(code & ->)|(tag & c & tlvl & len & -> & Htl & Hlen)] end;
      [by apply return_any|]. cbn [mbind option_bind]. unfold at_nulls.
    destruct (read_Some (in_ptr i) 0 ltac:(lia)) as (b0 & -> & _). destruct (read_Some (in_ptr i) 1 ltac:(lia)) as (b1 & -> & _).
    destruct (Z.eqb_spec (se_want_nulls sel) 0) as [E|E]; cbn [negb mbind option_bind]; [by apply start_any|].
    destruct (b0 =? 0); cbn [mbind option_bind]; [|by apply start_any].
    destruct (b1 =? 0); [apply nulls_any; (done || lia)|by apply start_any].
Qed.

Lemma contents_any s i sel outer : walking s -> bytes_ok (in_ptr i) -> Z.of_nat (length (in_ptr i)) < 2 ^ 31 ->
  ss_stack s = sel :: outer -> 0 <= se_left sel ->
  exists m s' i', piece_contents type_variant s i = Some (m, s', i') /\ within i i' /\ walking s' /\ ss_phase s' = ss_phase s /\
    (m = Again \/ exists code, m = Return code) /\ exists sel', ss_stack s' = sel' :: outer /\ 0 <= se_left sel'.
Proof.
  intros Hwalk Hok Hsize Hs Hl. destruct (Hwalk) as [Hcap Hst]. unfold piece_contents. rewrite Hs in *.
  pose proof Hst as Hall. apply Forall_cons in Hst as [(Hw & Hleft & Hg) Hst]. zcase.
  set (size := Z.of_nat (length (in_ptr i))) in *. set (len := if size <? se_left sel then size else se_left sel).
  assert (Hlen : 0 <= len <= se_left sel /\ len <= size) by (unfold len; zcase; lia). clearbody len.
  assert (Happ : exists ok chopped s', (if 0 <? len then
      if is_bit type_variant && negb (se_bits_chopped sel)
      then unused ← read (in_ptr i) 0; '(ok, s) ← APPEND (take (Z.to_nat (len - 1)) (drop 1 (in_ptr i))) (with_unused unused s); Some (ok, (ok : bool), s)
      else '(ok, s) ← APPEND (take (Z.to_nat len) (in_ptr i)) s; Some (ok, se_bits_chopped sel, s)
    else Some (true, se_bits_chopped sel, s)) = Some (ok, chopped, s') /\
    walking s' /\ ss_phase s' = ss_phase s /\ ss_stack s' = sel :: outer).
  { destruct (Z.ltb_spec 0 len); [|by eexists _, _, _].
    destruct (is_bit type_variant && _).
    - destruct (read_Some (in_ptr i) 0 ltac:(unfold size in *; lia)) as (b & -> & _). cbn [mbind option_bind].
      destruct (APPEND_any (take (Z.to_nat (len - 1)) (drop 1 (in_ptr i))) (with_unused b s) Hcap) as (ok & s' & -> & Hcap' & _ & _ & _ & Hp & _ & _ & Hs').
      { rewrite length_take, length_drop. unfold size in *. lia. }
      eexists _, _, _. split; [done|]. cbn in Hs', Hp. rewrite Hs in Hs'. unfold walking. rewrite Hs', Hp. done.
    - destruct (APPEND_any (take (Z.to_nat len) (in_ptr i)) s Hcap) as (ok & s' & -> & Hcap' & _ & _ & _ & Hp & _ & _ & Hs').
      { rewrite length_take. unfold size in *. lia. }
      eexists _, _, _. split; [done|]. rewrite Hs in Hs'. unfold walking. rewrite Hs', Hp. done. }
  destruct Happ as (ok & chopped & s' & Happ & Hwalk' & Hp & Hs'). cbn [mbind option_bind] in Happ. rewrite Happ. cbn [mbind option_bind].
  destruct ok; cbn [negb].
  2: { eexists _, _, _. split; [done|]. split; [by apply within_refl|]. split; [done|]. split; [done|]. split; [right; by eexists|by exists sel]. }
  destruct (skip_within len i Hok ltac:(unfold size in *; lia)) as [Hin _].
  eexists _, _, _. split; [done|]. split; [done|]. split; [|split; [done|split]].
  - destruct Hwalk' as [? _]. split; [done|]. cbn. constructor; [|done]. unfold el_ok. cbn. split_and!; auto; lia.
  - cbn [se_left]. destruct (se_left sel - len =? 0); [by left|right; by eexists].
  - eexists. split; [done|]. cbn. lia.
Qed.

Lemma primitive_any s i : Z.of_nat (length (ss_buf s)) <= ss_context s < 2 ^ 31 -> bytes_ok (in_ptr i) -> Z.of_nat (length (in_ptr i)) < 2 ^ 31 ->
  ss_phase s = 3 -> 0 <= ss_left s ->
  exists m s' i', primitive_contents type_variant s i = Some (m, s', i') /\ within i i' /\
    Z.of_nat (length (ss_buf s')) <= ss_context s' < 2 ^ 31 /\
    (ss_phase s' = 3 /\ 0 <= ss_left s' /\ (exists code, m = Return code) \/ ss_phase s' = 4 /\ m = Behind).
Proof.
  intros Hcap Hok Hsize Hp Hl. unfold primitive_contents. cbn zeta beta. zcase.
  set (chop := fun (s : string_struct) (i : input) => if is_bit type_variant && (ss_context s =? 0) && negb (ss_left s =? 0)
    then unused ← read (in_ptr i) 0; Some (with_left (ss_left s - 1) (with_unused unused s), skip_input 1 i) else Some (s, i)).
  assert (Hchop : (0 < ss_left s -> in_ptr i <> []) -> exists s1 i1, chop s i = Some (s1, i1) /\ within i i1 /\
    Z.of_nat (length (ss_buf s1)) <= ss_context s1 < 2 ^ 31 /\ ss_phase s1 = 3 /\ 0 <= ss_left s1 /\
    ss_left s1 - Z.of_nat (length (in_ptr i1)) = ss_left s - Z.of_nat (length (in_ptr i))).
  { intros Hne. unfold chop. destruct (_ && _ && _) eqn:E; [|eexists _, _; split; [done|]; split; [by apply within_refl|]; split_and!; (done || lia)].
    rewrite !andb_true_iff, negb_true_iff, Z.eqb_neq in E. destruct E as [_ E].
    assert (Hlen : 0 < Z.of_nat (length (in_ptr i))) by (destruct (in_ptr i); [by destruct Hne; [lia|]|cbn; lia]).
    destruct (read_Some (in_ptr i) 0 ltac:(lia)) as (b & -> & _). cbn [mbind option_bind].
    destruct (skip_within 1 i Hok ltac:(lia)) as [Hin Hskip]. eexists _, _. split; [done|]. split; [done|]. cbn in Hskip |- *. split; [done|]. split; [done|]. lia. }
  destruct (Z.ltb_spec (Z.of_nat (length (in_ptr i))) (ss_left s)) as [Hlt|Hge].
  - case_bool_decide as He.
    { eexists _, _, _. split; [done|]. split; [by apply within_refl|]. split; [done|]. left. split_and!; try done. by eexists. }
    destruct (Hchop ltac:(done)) as (s1 & i1 & Hc & Hin & Hcap1 & Hp1 & Hl1 & Hd).
    unfold chop in Hc. cbn beta in Hc. rewrite Hc. clear Hc. cbn [mbind option_bind].
    destruct (APPEND_any (in_ptr i1) s1 Hcap1) as (ok & s2 & -> & Hcap2 & Hpos & _ & _ & Hp2 & _ & Hl2 & _); [unfold within in Hin; lia|].
    cbn [mbind option_bind]. destruct ok; cbn [negb].
    + specialize (Hpos eq_refl). zcase. destruct (skip_within (Z.of_nat (length (in_ptr i1))) i1) as [Hin2 _]; [apply Hin|lia|].
      eexists _, _, _. split; [done|]. split; [by eapply within_trans|]. split; [done|]. left. cbn. split_and!; [congruence|lia|by eexists].
    + eexists _, _, _. split; [done|]. split; [done|]. split; [done|]. left. split_and!; [congruence|lia|by eexists].
  - destruct (Hchop ltac:(intros ? E; rewrite E in Hge; cbn in Hge; lia)) as (s1 & i1 & Hc & Hin & Hcap1 & Hp1 & Hl1 & Hd).
    unfold chop in Hc. cbn beta in Hc. rewrite Hc. clear Hc. cbn [mbind option_bind].
    destruct (APPEND_any (take (Z.to_nat (ss_left s1)) (in_ptr i1)) s1 Hcap1) as (ok & s2 & -> & Hcap2 & Hpos & _ & _ & Hp2 & _ & Hl2 & _).
    { rewrite length_take. unfold within in Hin. lia. }
    cbn [mbind option_bind]. destruct ok; cbn [negb].
    + destruct (skip_within (ss_left s1) i1) as [Hin2 _]; [apply Hin|lia|].
      eexists _, _, _. split; [done|]. split; [by eapply within_trans|]. cbn. rewrite Hp2, Hp1. split; [done|]. by right.
    + eexists _, _, _. split; [done|]. split; [done|]. split; [done|]. left. split_and!; [congruence|lia|by eexists].
Qed.

Lemma finalize_any s (i : input) : string_inv s -> exists code s', (let '(code, s) := finalize type_variant s in Some (code, s, i)) = Some (code, s', i) /\
  string_inv s'.
Proof.
  intros Hinv. unfold finalize. destruct (is_bit type_variant); [|by eexists _, _].
  destruct (negb _); [|destruct (negb _); by eexists _, _]. destruct (_ || _); [by eexists _, _|].
  eexists _, _. split; [done|]. destruct Hinv as [Hcap Hph]. split; [|exact Hph]. cbn.
  unfold mask_last. by case_match; rewrite ?length_alter.
Qed.

(** The rounds come to an end, whatever there is to read. *)
Lemma phases_any fuel : forall s i, string_inv s -> bytes_ok (in_ptr i) -> Z.of_nat (length (in_ptr i)) < 2 ^ 31 ->
  (weight s i + (if (ss_phase s =? 2)%Z then 1 else 0) < fuel)%nat ->
  exists code s' i', string_phases type_variant tags all_tags tag_mode fuel s i = Some (code, s', i') /\ within i i' /\ string_inv s'.
Proof using Hvariant Htags.
  induction fuel as [|fuel IH]; intros s i Hinv Hok Hsize Hw; [lia|]. cbn [string_phases].
  assert (Hgo : forall s' i', string_inv s' -> within i i' -> (weight s' i' + (if (ss_phase s' =? 2)%Z then 1 else 0) < fuel)%nat ->
    exists code s2 i2, string_phases type_variant tags all_tags tag_mode fuel s' i' = Some (code, s2, i2) /\ within i i2 /\ string_inv s2).
  { intros s' i' Hinv' Hin Hw'. pose proof Hin as (? & ? & Hok'). destruct (IH s' i') as (code & s2 & i2 & -> & Hin2 & Hinv2); [done|done|lia|done|].
    eexists _, _, _. split; [done|]. split; [by eapply within_trans|done]. }
  assert (Hfin : forall s' i', string_inv s' -> within i i' -> exists code s2 i2,
    (let '(code, s) := finalize type_variant s' in Some (code, s, i')) = Some (code, s2, i2) /\ within i i2 /\ string_inv s2).
  { intros s' i' Hinv' Hin. destruct (finalize_any s' i' Hinv') as (code & s2 & -> & Hinv2). by eexists _, _, _. }
  destruct Hinv as [Hcap [[Hp Hst]|[(Hp & Hst & sel & outer & Hs & Hl)|[[Hp Hl]|Hp]]]].
  - rewrite Hp in *. cbn [Z.eqb Pos.eqb] in *.
    destruct (expect_any s i (conj Hcap Hst) Hok) as (m & s' & i' & -> & Hin & [Hcap' Hst'] & Hp' & Hm).
    cbn [mbind option_bind]. rewrite Hp in Hp'. destruct m as [code| | |]; [|by apply Hgo; [split; [done|by left]|done|rewrite Hp'; cbn [Z.eqb Pos.eqb]; lia]| |done].
    { eexists _, _, _. split; [done|]. split; [done|]. split; [done|by left]. }
    destruct Hm as [Hm Hs']. rewrite Hp'. case_bool_decide as He.
    + apply Hfin; [|done]. split; [cbn; by rewrite Hp'|]. do 3 right. done.
    + destruct (ss_stack s') as [|sel outer] eqn:Es; [done|]. apply Hgo; [|done|unfold weight in *; cbn; rewrite Es in *; change (1 + 1 =? 2) with true; cbn match; lia].
      split; [cbn; by rewrite Hp'|]. right; left. cbn. rewrite Es. split_and!; try done. by exists sel, outer.
  - rewrite Hp in *. cbn [Z.eqb Pos.eqb] in *.
    destruct (contents_any s i sel outer (conj Hcap Hst) Hok Hsize Hs Hl) as (m & s' & i' & -> & Hin & [Hcap' Hst'] & Hp' & Hm & sel' & Hs' & Hl').
    cbn [mbind option_bind]. rewrite Hp in Hp'. destruct Hm as [->|[code ->]].
    + rewrite Hp'. apply Hgo; [|done|].
      * split; [cbn; by rewrite Hp'|]. by left.
      * unfold weight, within in *. rewrite Hs in Hw. cbn [with_phase ss_phase ss_stack]. rewrite Hs'. change (2 - 1 =? 2) with false. cbn [length] in *. lia.
    + eexists _, _, _. split; [done|]. split; [done|]. split; [done|]. right; left. split_and!; try done. by exists sel', outer.
  - rewrite Hp in *. cbn [Z.eqb Pos.eqb] in *.
    destruct (primitive_any s i Hcap Hok Hsize Hp Hl) as (m & s' & i' & -> & Hin & Hcap' & [(Hp' & Hl' & code & ->)|[Hp' ->]]); cbn [mbind option_bind].
    + eexists _, _, _. split; [done|]. split; [done|]. split; [done|]. do 2 right. by left.
    + apply Hfin; [|done]. split; [done|]. by do 3 right.
  - rewrite Hp in *. cbn [Z.eqb Pos.eqb] in *. apply Hfin; [|by apply within_refl]. split; [done|]. by do 3 right.
Qed.

(** A string as the calls leave it: its tags are still being checked, or it
    is inside one of the phases. *)
Definition string_reached (s : string_struct) : Prop :=
  ss_phase s = 0 /\ ss_buf s = [] /\ 0 <= ss_step s < Z.of_nat (length tags) + Z.b2z (tag_mode =? 1) \/ string_inv s.

Lemma decode_any sptr buf : Z.of_nat (length tags) < 2 ^ 15 - 1 -> tag_mode = 0 \/ tag_mode = 1 \/ tag_mode = -1 ->
  from_option string_reached True sptr -> bytes_ok buf -> Z.of_nat (length buf) < 2 ^ 31 ->
  exists code consumed s', OCTET_STRING_decode_ber type_variant tags all_tags tag_mode sptr buf = Some (code, consumed, Some s') /\
    0 <= consumed <= Z.of_nat (length buf) /\ string_reached s'.
Proof using Hvariant Htags.
  intros Hcount Hmode Hs Hok Hsize. unfold OCTET_STRING_decode_ber. set (s := default fresh_string sptr).
  assert (Hreached : string_reached s).
  { destruct sptr; [done|]. left. cbn. split_and!; try done. destruct tags; [done|]. cbn [length]. destruct (tag_mode =? 1); cbn; lia. }
  clearbody s. clear Hs sptr.
  assert (Hrun : forall s i, string_inv s -> bytes_ok (in_ptr i) -> 0 <= in_consumed i ->
    in_consumed i + Z.of_nat (length (in_ptr i)) = Z.of_nat (length buf) -> exists code consumed s',
    ('(code, s, i) ← string_phases type_variant tags all_tags tag_mode (string_fuel s i) s i; Some (code, in_consumed i, Some s)) =
      Some (code, consumed, Some s') /\ 0 <= consumed <= Z.of_nat (length buf) /\ string_reached s').
  { intros s1 i Hinv Hok1 Hc Htot. destruct (phases_any (string_fuel s1 i) s1 i Hinv Hok1) as (code & s' & i' & -> & (? & ? & _) & Hinv').
    - lia.
    - unfold string_fuel, weight. destruct (ss_phase s1 =? 2); lia.
    - cbn [mbind option_bind]. eexists _, _, _. split; [done|]. split; [lia|by right]. }
  destruct Hreached as [(Hp & Hb & Hstep)|Hinv].
  2: { destruct (Z.eqb_spec (ss_phase s) 0) as [E|E]; [destruct Hinv as [_ [[? _]|[[? _]|[[? _]|?]]]]; lia|].
       apply Hrun; [done|done|done|]. cbn. lia. }
  rewrite Hp. cbn [Z.eqb].
  destruct (ber_check_tags_any (-1) tags (ss_step s) buf tag_mode Hok Hcount Hmode Hstep)
    as (code & consumed & step & last & -> & Hcons & Hfail & Hgo). cbn [mbind option_bind].
  destruct (decide (code = RC_OK)) as [Hc|Hc].
  2: { rewrite bool_decide_false by done. cbn [negb]. eexists _, _, _. split; [done|]. split; [done|]. left. cbn. by split_and!; try apply (Hfail Hc). }
  rewrite bool_decide_true by done. cbn [negb]. destruct (Hgo Hc) as (len & constr & -> & Hlen). cbn [mbind option_bind].
  destruct (Z.eqb_spec constr 0) as [E|E]; cbn [negb].
  - rewrite not_any by done. cbn [andb mbind option_bind negb]. destruct (skip_within consumed {| in_ptr := buf; in_consumed := 0 |} Hok Hcons) as [(Hi1 & Hi2 & Hi3) _].
    apply Hrun; [|done|cbn; lia|cbn in Hi2 |- *; lia]. split; [cbn; by rewrite Hb, Hp|]. do 2 right. left. cbn. split; [done|by apply Hlen].
  - apply Hrun; [|done|done|cbn; lia]. split; [cbn; by rewrite Hb, Hp|]. left. by cbn.
Qed.
End Any.

(** ** Examples *)

Definition answer {A B C} (r : option (A * B * C)) : option A := option_map (fun r => r.1.1) r.

(** [0] IMPLICIT OCTET STRING: the piece inside is refused, because the tag
    expected of it is the first of all the tags, that of the type itself. *)
Lemma tagged_pieces_refused :
  answer (OCTET_STRING_decode_ber ASN_OSUBV_STR [2] [2; 16] 0 None [160; 3; 4; 1; 97]) = Some RC_FAIL /\
  answer (OCTET_STRING_decode_ber ASN_OSUBV_STR [2] [2; 16] 0 None [160; 3; 128; 1; 97]) = Some RC_OK.
Proof. split; reflexivity. Qed.

(** IA5String: a piece tagged OCTET STRING is refused, one tagged IA5String
    taken. *)
Lemma ia5_pieces_refused :
  answer (OCTET_STRING_decode_ber ASN_OSUBV_STR [88] [88; 16] 0 None [54; 3; 4; 1; 97]) = Some RC_FAIL /\
  answer (OCTET_STRING_decode_ber ASN_OSUBV_STR [88] [88; 16] 0 None [54; 3; 22; 1; 97]) = Some RC_OK.
Proof. split; reflexivity. Qed.

(** Unused bits in the middle of a BIT STRING become bits of the value. *)
Lemma unused_bits_inside : option_map (fun r => option_map (fun s => (ss_buf s, ss_unused s)) r.2)
  (OCTET_STRING_decode_ber ASN_OSUBV_BIT [12] [12] 0 None [35; 8; 3; 2; 4; 240; 3; 2; 0; 15]) = Some (Some ([240; 15], 0)).
Proof. reflexivity. Qed.

(** A BIT STRING without contents, not even the octet of unused bits. *)
Lemma empty_bits_accepted : answer (OCTET_STRING_decode_ber ASN_OSUBV_BIT [12] [12] 0 None [3; 0]) = Some RC_OK.
Proof. reflexivity. Qed.

(** ** Properties *)

(** What is written of a string in DER is read back.  Without a consumer
    the size is estimated, with one the octets follow what was written before;
    whatever comes behind them, the decoder takes exactly these octets and
    makes the same string of them, the unused bits of a BIT STRING cleared. *)
Theorem string_der_roundtrip type_variant scratch tags all_tags st tag_mode tag (key : ByteBuffer) rest :
  type_variant <> ASN_OSUBV_ANY -> length scratch = 32%nat -> (1 <= length tags <= 3)%nat -> Forall tag_ok tags ->
  string_ok type_variant st -> prim_mode tag_mode -> tagging_ok tag_mode tag ->
  let octets := string_octets type_variant tags tag_mode tag (written_string type_variant st) in
  Z.of_nat (length octets) <= RSSIZE_MAX ->
  OCTET_STRING_encode_der (S := ByteBuffer) type_variant scratch tags st tag_mode tag None = Some (Z.of_nat (length octets), None) /\
  (exists key', OCTET_STRING_encode_der type_variant scratch tags st tag_mode tag (Some key) =
     Some (Z.of_nat (length octets), Some key') /\ written key' = written key ++ octets) /\
  exists s', OCTET_STRING_decode_ber type_variant tags all_tags tag_mode None (octets ++ rest) =
    Some (RC_OK, Z.of_nat (length octets), Some s') /\
    {| bs_buf := ss_buf s'; bits_unused := ss_unused s' |} = written_string type_variant st.
Proof.
  intros Hv Hs Hlen Hok Hst Hm Ht octets Hl.
  pose proof (string_ber_laws type_variant Hv scratch tags all_tags Hs Hlen Hok) as laws.
  pose proof (prim_mode_ok scratch tags Hs Hlen Hok) as Hpm. pose proof (tags_to_write_ok scratch tags Hs Hlen Hok) as Htw.
  destruct (encode_string_ok type_variant Hv scratch tags tag_mode Hs (S := ByteBuffer) tag st Hst) as [He Hk]; [lia|by apply Htw|done|].
  split; [exact He|]. split; [apply Hk|]. destruct (written_ok type_variant st Hst) as [Hw Hidem].
  destruct (decode_string_ok type_variant Hv tags all_tags tag_mode tag _ rest Hw) as (s' & Hr & Hb & Hu); [by apply Hpm|by apply Htw|done|].
  exists s'. split; [exact Hr|]. rewrite Hb, Hu. exact Hidem.
Qed.

(** The BIT STRING 1010 1100 011 with five unused bits, of which one is set. *)
Lemma string_der_roundtrip_witness :
  let st := {| bs_buf := [172; 97]; bits_unused := 5 |} in
  let octets := [3; 3; 5; 172; 96] in
  OCTET_STRING_encode_der (S := ByteBuffer) ASN_OSUBV_BIT (replicate 32 0) [12] st 0 0 None = Some (5, None) /\
  (exists key', OCTET_STRING_encode_der ASN_OSUBV_BIT (replicate 32 0) [12] st 0 0 (Some {| bb_bytes := [9] |}) = Some (5, Some key') /\
     written key' = 9 :: octets) /\
  exists s', OCTET_STRING_decode_ber ASN_OSUBV_BIT [12] [12] 0 None (octets ++ [1; 2]) = Some (RC_OK, 5, Some s') /\
    {| bs_buf := ss_buf s'; bits_unused := ss_unused s' |} = {| bs_buf := [172; 96]; bits_unused := 5 |}.
Proof.
  apply (string_der_roundtrip ASN_OSUBV_BIT (replicate 32 0) [12] [12] {| bs_buf := [172; 97]; bits_unused := 5 |} 0 0 {| bb_bytes := [9] |} [1; 2]).
  - discriminate.
  - reflexivity.
  - cbn; lia.
  - repeat constructor; vm_compute; done.
  - split_and!; [|done|done]. repeat constructor; vm_compute; done.
  - by left.
  - by left.
  - vm_compute. discriminate.
Defined.

(** C17: A string in pieces is put together.  However deep the pieces of an
    OCTET STRING, BIT STRING or character string are nested, and whether each
    is closed by its length or by an end-of-contents, the decoder takes exactly
    the octets of the encoding, whatever follows, and makes of them the
    contents of the pieces in their order; of a BIT STRING the octets of
    unused bits are left out and the last one counts. *)
Theorem string_pieces_joined type_variant tag inner tag_mode indefinite ps rest :
  type_variant <> ASN_OSUBV_ANY -> tag_ok tag -> tag_ok inner -> tag_mode = 0 /\ tag = inner \/ tag_mode = -1 ->
  let p := Parts indefinite ps in
  let octets := piece_octets inner tag p in
  let st := joined type_variant p in
  Z.of_nat (length (octets ++ rest)) <= RSSIZE_MAX -> Z.of_nat (length (bs_buf st)) < string_room ->
  (is_bit type_variant = true -> 0 <= bits_unused st <= 7 /\ (bs_buf st = [] -> bits_unused st = 0)) ->
  exists s', OCTET_STRING_decode_ber type_variant [inner] [inner] tag_mode None (octets ++ rest) =
    Some (RC_OK, Z.of_nat (length octets), Some s') /\
    {| bs_buf := ss_buf s'; bits_unused := ss_unused s' |} = written_string type_variant st.
Proof.
  intros Hv Htag Hinner Hmode p octets st Hsize Hroom Hbits.
  destruct (decode_parts_ok type_variant Hv inner tag_mode Hinner tag indefinite ps rest Htag Hmode Hsize Hroom) as (s' & Hr & Hb & Hu).
  { destruct (is_bit type_variant); [by apply Hbits|done]. }
  exists s'. split; [exact Hr|]. unfold written_string. by rewrite Hb, Hu.
Qed.

(** A BIT STRING whose last piece lies in a piece of indefinite length. *)
Lemma string_pieces_joined_witness :
  let octets := [35; 128; 3; 2; 0; 171; 35; 128; 3; 3; 4; 205; 255; 0; 0; 0; 0] in
  exists s', OCTET_STRING_decode_ber ASN_OSUBV_BIT [12] [12] 0 None (octets ++ [5]) = Some (RC_OK, 17, Some s') /\
    {| bs_buf := ss_buf s'; bits_unused := ss_unused s' |} = {| bs_buf := [171; 205; 240]; bits_unused := 4 |}.
Proof.
  apply (string_pieces_joined ASN_OSUBV_BIT 12 12 0 true [Whole [0; 171]; Parts true [Whole [4; 205; 255]]] [5]);
    [discriminate|done|done|by left|vm_compute; discriminate|done|intros _; vm_compute; split; [split; discriminate|discriminate]].
Defined.

(** The calls with one portion after the other: the code and the octets taken
    of each, and the string. *)
Fixpoint feed type_variant tags all_tags tag_mode (sptr : option string_struct) (portions : list (list Z)) :
    option (list (asn_dec_rval_code * Z) * option string_struct) :=
  match portions with
  | [] => Some ([], sptr)
  | buf :: portions =>
    '(code, consumed, sptr) ← OCTET_STRING_decode_ber type_variant tags all_tags tag_mode sptr buf;
    '(answers, sptr) ← feed type_variant tags all_tags tag_mode sptr portions;
    Some ((code, consumed) :: answers, sptr)
  end.

Lemma feed_any type_variant tags all_tags tag_mode portions : type_variant <> ASN_OSUBV_ANY -> tags <> [] ->
  Z.of_nat (length tags) < 2 ^ 15 - 1 -> tag_mode = 0 \/ tag_mode = 1 \/ tag_mode = -1 ->
  Forall (fun buf => bytes_ok buf /\ Z.of_nat (length buf) < 2 ^ 31) portions ->
  forall sptr, from_option (string_reached tags tag_mode) True sptr ->
  exists answers sptr', feed type_variant tags all_tags tag_mode sptr portions = Some (answers, sptr') /\
    Forall2 (fun buf answer => 0 <= answer.2 <= Z.of_nat (length buf)) portions answers /\
    from_option (fun s => Z.of_nat (length (ss_buf s)) < 2 ^ 31) True sptr'.
Proof.
  intros Hv Ht Hc Hm Hp. induction Hp as [|buf portions [Hok Hsize] _ IH]; intros sptr Hs; cbn [feed].
  - eexists _, _. split; [done|]. split; [constructor|]. destruct sptr as [s|]; [|done]. cbn in *.
    destruct Hs as [(_ & -> & _)|[Hcap _]]; [done|lia].
  - destruct (decode_any type_variant Hv tags all_tags tag_mode Ht sptr buf Hc Hm Hs Hok Hsize) as (code & consumed & s' & -> & Hb & Hs').
    cbn [mbind option_bind]. destruct (IH (Some s') Hs') as (answers & sptr' & -> & Ha & Hl). cbn [mbind option_bind].
    eexists _, _. split; [done|]. split; [by constructor|done].
Qed.

(** The decoder of the strings comes to an end on any octets.  Fed with
    portions of anything, complete or not, well formed or not, and called again
    even after it has failed, every call returns without touching memory
    outside the portion or the string and without an assertion failing; it
    takes no more octets than it was given, and the string stays below the
    largest int. *)
Theorem string_ber_terminates type_variant tags all_tags tag_mode portions :
  type_variant <> ASN_OSUBV_ANY -> tags <> [] -> Z.of_nat (length tags) < 2 ^ 15 - 1 ->
  tag_mode = 0 \/ tag_mode = 1 \/ tag_mode = -1 ->
  Forall (fun buf => bytes_ok buf /\ Z.of_nat (length buf) < 2 ^ 31) portions ->
  exists answers sptr, feed type_variant tags all_tags tag_mode None portions = Some (answers, sptr) /\
    Forall2 (fun buf answer => 0 <= answer.2 <= Z.of_nat (length buf)) portions answers /\
    from_option (fun s => Z.of_nat (length (ss_buf s)) < 2 ^ 31) True sptr.
Proof. intros Hv Ht Hc Hm Hp. by apply feed_any. Qed.

(** An OCTET STRING in four portions, then one that is not an encoding. *)
Lemma string_ber_terminates_witness :
  let portions := [[36]; [36; 128; 4]; [4; 2; 7]; [8; 4; 0]; [5]; [5; 5]] in
  let answers := [(RC_WMORE, 0); (RC_WMORE, 2); (RC_WMORE, 3); (RC_WMORE, 3); (RC_WMORE, 0); (RC_FAIL, 0)] in
  option_map fst (feed ASN_OSUBV_STR [16] [16] 0 None portions) = Some answers /\
  exists answers sptr, feed ASN_OSUBV_STR [16] [16] 0 None portions = Some (answers, sptr) /\
    Forall2 (fun buf answer => 0 <= answer.2 <= Z.of_nat (length buf)) portions answers /\
    from_option (fun s => Z.of_nat (length (ss_buf s)) < 2 ^ 31) True sptr.
Proof.
  split; [vm_compute; reflexivity|].
  apply (string_ber_terminates ASN_OSUBV_STR [16] [16] 0 [[36]; [36; 128; 4]; [4; 2; 7]; [8; 4; 0]; [5]; [5; 5]]);
    [discriminate|discriminate|done|by left|].
  repeat (constructor; [split; [repeat constructor; vm_compute; done|done]|]). constructor.
Defined.
