(* ===== verification/XerString.v ===== *)
(** * Strings in XER (support/OCTET_STRING.c, BIT_STRING.c)

    An OCTET STRING is text of hexadecimal digits, a BIT STRING of zeros and
    ones, a character string is its characters, some of them as entity
    references or as empty tags.  The readers are the receivers of
    [xer_decode_general]; a text may arrive in portions.  Of the octets behind
    a string, which the code keeps zero as long as no text fails, only that is
    used. *)
From S2P Require Import Prelude Consumer BitData PerCodec PerNatural OpenType Oer IntegerXer BerPrim BitString Xer XerPrim.
#[local] Open Scope Z_scope.

(** ** Printing *)

Definition hex_pair (b : Z) : list Z := [hex_digit (Z.land (b ≫ 4) 15); hex_digit (Z.land b 15)].

(** OCTET_STRING__xer_escape_table; an empty entry is a character that stands
    for itself. *)
Definition control_names : list string :=
  ["nul"; "soh"; "stx"; "etx"; "eot"; "enq"; "ack"; "bel"; "bs"; ""; ""; "vt"; "ff"; ""; "so"; "si";
   "dle"; "dc1"; "dc2"; "dc3"; "dc4"; "nak"; "syn"; "etb"; "can"; "em"; "sub"; "esc"; "is4"; "is3"; "is2"; "is1"]%string.
Definition control_escapes : list (list Z) :=
  imap (fun i name => if decide (name = ""%string) then [Z.of_nat i] else empty_tag (chars name)) control_names.
Definition OCTET_STRING__xer_escape_table : list (list Z) :=
  control_escapes ++ [[]; []; []; []; []; []; chars "&amp;"; []] ++ replicate 20 [] ++ [chars "&lt;"; []; chars "&gt;"].

Definition xer_escape (ch : Z) : list Z := default [] (OCTET_STRING__xer_escape_table !! Z.to_nat ch).

Section Print.
Context {S : Type} `{Consumer S}.

(** The loops of OCTET_STRING_encode_xer; [scratch] is what its buffer holds. *)
Fixpoint hex_canonical (buf scratch : list Z) : emitter S :=
  match buf with
  | [] => callback [scratch]
  | b :: buf =>
    if 50 <=? Z.of_nat (length scratch) then and_then (callback [scratch]) (hex_canonical buf (hex_pair b))
    else hex_canonical buf (scratch ++ hex_pair b)
  end.

Fixpoint hex_basic (size ilevel : Z) (buf scratch : list Z) (i : Z) : emitter S :=
  match buf with
  | [] =>
    if bool_decide (scratch = []) then emit_nothing
    else and_then (callback [removelast scratch]) (if 16 <? size then TEXT_INDENT true (ilevel - 1) else emit_nothing)
  | b :: buf =>
    if (i mod 16 =? 0) && (negb (i =? 0) || (16 <? size))
    then and_then (callback [scratch]) (and_then (TEXT_INDENT true ilevel) (hex_basic size ilevel buf (hex_pair b ++ [32]) (i + 1)))
    else hex_basic size ilevel buf (scratch ++ hex_pair b ++ [32]) (i + 1)
  end.

Definition OCTET_STRING_encode_xer (st : OCTET_STRING_t) (ilevel : Z) (canonical : bool) : emitter S :=
  if canonical then hex_canonical (os_buf st) [] else hex_basic (Z.of_nat (length (os_buf st))) ilevel (os_buf st) [] 0.

(** [ss] is the run of characters that stand for themselves. *)
Fixpoint escape_loop (buf ss : list Z) : emitter S :=
  match buf with
  | [] => if bool_decide (ss = []) then emit_nothing else callback [ss]
  | ch :: buf =>
    if bool_decide (xer_escape ch = []) then escape_loop buf (ss ++ [ch])
    else and_then (callback ((if bool_decide (ss = []) then [] else [ss]) ++ [xer_escape ch])) (escape_loop buf [])
  end.

Definition OCTET_STRING_encode_xer_utf8 (st : OCTET_STRING_t) : emitter S := escape_loop (os_buf st) [].

Definition bit_pattern : list (list Z) := chars <$>
  ["0000"; "0001"; "0010"; "0011"; "0100"; "0101"; "0110"; "0111";
   "1000"; "1001"; "1010"; "1011"; "1100"; "1101"; "1110"; "1111"]%string.
Definition octet_pattern (v : Z) : list Z :=
  default [] (bit_pattern !! Z.to_nat (v ≫ 4)) ++ default [] (bit_pattern !! Z.to_nat (Z.land v 15)).

(** The last octet, from the highest bit down to the last one used. *)
Definition last_pattern (v ubits : Z) : list Z :=
  (fun i => if negb (Z.land v (1 ≪ (7 - Z.of_nat i)) =? 0) then 49 else 48) <$> seq 0 (Z.to_nat (8 - ubits)).

(** The loop over the octets but the last; [i] is the place, [rest] what is
    printed behind them. *)
Fixpoint binary_loop (ilevel : Z) (xcan : bool) (rest : emitter S) (buf scratch : list Z) (i : Z) : emitter S :=
  let nline := negb xcan && (i mod 8 =? 0) in
  match buf with
  | [] => and_then (if nline then TEXT_INDENT true ilevel else emit_nothing) (and_then (callback [scratch]) rest)
  | v :: buf =>
    if (118 <=? Z.of_nat (length scratch)) || nline
    then and_then (callback [scratch])
           (and_then (if nline then TEXT_INDENT true ilevel else emit_nothing) (binary_loop ilevel xcan rest buf (octet_pattern v) (i + 1)))
    else binary_loop ilevel xcan rest buf (scratch ++ octet_pattern v) (i + 1)
  end.

Definition BIT_STRING_encode_xer (st : BIT_STRING_t) (ilevel : Z) (canonical : bool) : emitter S :=
  binary_loop ilevel canonical
    (and_then (match last (bs_buf st) with Some v => callback [last_pattern v (bits_unused st)] | None => emit_nothing end)
       (if canonical then emit_nothing else TEXT_INDENT true (ilevel - 1)))
    (removelast (bs_buf st)) [] 0.
End Print.

(** ** Reading *)

Fixpoint find_escape (els : list (list Z)) (buf : list Z) (i : Z) : Z :=
  match els with
  | [] => -1
  | el :: els => if bool_decide (el = buf) then i else find_escape els buf (i + 1)
  end.

Definition OS__check_escaped_control_char (buf : list Z) : Z := find_escape (take 32 OCTET_STRING__xer_escape_table) buf 0.

Definition OCTET_STRING__handle_control_chars (chunk_buf : list Z) (st : OCTET_STRING_t) : option (Z * OCTET_STRING_t) :=
  let control_char := OS__check_escaped_control_char chunk_buf in
  Some (if 0 <=? control_char then (0, {| os_buf := os_buf st ++ [control_char] |}) else (-1, st)).

(** The value of a hexadecimal digit. *)
Definition hex_nibble (ch : Z) : option Z :=
  if (48 <=? ch) && (ch <=? 57) then Some (ch - 48)
  else if (65 <=? ch) && (ch <=? 70) then Some (ch - 65 + 10)
  else if (97 <=? ch) && (ch <=? 102) then Some (ch - 97 + 10)
  else None.

(** [buf] is the string so far, [p] the place, [chunk_stop] the one behind the
    last whole octet; [None] is a character that does not belong. *)
Fixpoint hexadecimal_loop (l buf : list Z) (clv : Z) (half : bool) (p chunk_stop : Z) : option (list Z * Z * bool * Z) :=
  match l with
  | [] => Some (buf, clv, half, chunk_stop)
  | ch :: l =>
    if WHITESPACE ch then hexadecimal_loop l buf clv half (p + 1) chunk_stop else
    match hex_nibble ch with
    | None => None
    | Some d =>
      let clv := u32 (u32 (clv ≪ 4) + d) in
      if half then hexadecimal_loop l (buf ++ [u8 clv]) clv false (p + 1) (p + 1)
      else hexadecimal_loop l buf clv true (p + 1) chunk_stop
    end
  end.

(** assert(st->size <= new_size) in front of an answer. *)
Definition within {A} (size new_size : Z) (answer : A) : option A := if size <=? new_size then Some answer else None.

Definition OCTET_STRING__convert_hexadecimal (chunk_buf : list Z) (have_more : bool) (st : OCTET_STRING_t) : option (Z * OCTET_STRING_t) :=
  let chunk_size := Z.of_nat (length chunk_buf) in
  let new_size := Z.of_nat (length (os_buf st)) + (chunk_size + 1) / 2 in
  match hexadecimal_loop chunk_buf (os_buf st) 0 false 0 0 with
  | None => Some (-1, st)
  | Some (buf, clv, half, chunk_stop) =>
    let '(buf, chunk_stop) :=
      if half then if have_more then (buf ++ [u8 (clv ≪ 4)], chunk_size) else (buf, chunk_stop)
      else (buf, chunk_size) in
    within (Z.of_nat (length buf)) new_size (chunk_stop, {| os_buf := buf |})
  end.

(** [buf] are the octets before the one that is being filled, [cell] that one
    and [bits] the room in it.  The flag tells that the loop ended. *)
Fixpoint convert_binary_loop (l buf : list Z) (cell bits : Z) : bool * list Z * Z * Z :=
  match l with
  | [] => (true, buf, cell, bits)
  | ch :: l =>
    if WHITESPACE ch then convert_binary_loop l buf cell bits
    else if (ch =? 48) || (ch =? 49) then
      if bits <=? 0 then convert_binary_loop l (buf ++ [cell]) (u8 (Z.land ch 1 ≪ 7)) 7
      else convert_binary_loop l buf (u8 (Z.lor cell (Z.land ch 1 ≪ (bits - 1)))) (bits - 1)
    else (false, buf, cell, bits)
  end.

Definition OCTET_STRING__convert_binary (chunk_buf : list Z) (have_more : bool) (st : BIT_STRING_t) : option (Z * BIT_STRING_t) :=
  let unused := Z.land (bits_unused st) 7 in
  let new_size := Z.of_nat (length (bs_buf st)) + (Z.of_nat (length chunk_buf) + 7) / 8 in
  let '(buf, cell, bits) :=
    if unused =? 0 then (bs_buf st, 0, 8)
    else match last (bs_buf st) with Some b => (removelast (bs_buf st), b, unused) | None => ([], 0, unused) end in
  let '(ended, buf, cell, bits) := convert_binary_loop chunk_buf buf cell bits in
  if ended : bool then
    let st := if bits =? 8 then {| bs_buf := buf; bits_unused := 0 |} else {| bs_buf := buf ++ [cell]; bits_unused := bits |} in
    within (Z.of_nat (length (bs_buf st))) new_size (Z.of_nat (length chunk_buf), st)
  else Some (-1, {| bs_buf := take (length (bs_buf st)) (buf ++ [cell]); bits_unused := bits |}).

(** The answer and the value: the characters read and, when they end with ';',
    the number. *)
Fixpoint OS__strtoent (base : Z) (buf : list Z) (p val : Z) : Z * Z :=
  match buf with
  | [] => (p, -1)
  | ch :: buf =>
    if ch =? 59 then (p + 1, val) else
    match hex_nibble ch with
    | None => (-1, 0)
    | Some d => let val := val * base + d in if 1114111 <? val then (-1, 0) else OS__strtoent base buf (p + 1) val
    end
  end.

(** The octets of a character. *)
Definition utf8_octets (val : Z) : list Z :=
  let trail s := Z.lor 128 (Z.land (val ≫ s) 63) in
  u8 <$> (if val <? 128 then [val]
  else if val <? 2048 then [Z.lor 192 (val ≫ 6); trail 0]
  else if val <? 65536 then [Z.lor 224 (val ≫ 12); trail 6; trail 0]
  else if val <? 2097152 then [Z.lor 240 (val ≫ 18); trail 12; trail 6; trail 0]
  else if val <? 67108864 then [Z.lor 248 (val ≫ 24); trail 18; trail 12; trail 6; trail 0]
  else [Z.lor 252 (Z.land (val ≫ 30) 1); trail 24; trail 18; trail 12; trail 6; trail 0]).

Fixpoint memchr (c : Z) (l : list Z) : option nat :=
  match l with
  | [] => None
  | x :: l => if x =? c then Some O else Datatypes.S <$> memchr c l
  end.

(** What begins at a character: one that stands for itself, a reference of [n]
    characters, one that more characters are needed for, or one the assertion
    fails for. *)
Inductive entity := Verbatim | Reference (n : nat) (octets : list Z) | Want_more | Aborts.

Definition entity_at (ch : Z) (rest : list Z) : entity :=
  if negb (ch =? 38) then Verbatim else
  match rest with
  | [] => Want_more
  | c1 :: digits =>
    if c1 =? 35 then
      if bool_decide (digits = []) then Want_more else
      let '(skipped, pval, base) := if bool_decide (head digits = Some 120) then (3%nat, tail digits, 16) else (2%nat, digits, 10) in
      let '(len, val) := OS__strtoent base pval 0 0 in
      if len =? -1 then Verbatim
      else if (len =? 0) || negb (default 0 (pval !! Z.to_nat (len - 1)) =? 59) then Want_more
      else if val <=? 0 then Aborts
      else Reference (skipped + Z.to_nat len) (utf8_octets val)
    else
      match memchr 59 (take 5 (ch :: rest)) with
      | None => Want_more
      | Some sc =>
        if (sc =? 4)%nat && bool_decide (take 3 rest = chars "amp") then Reference 5 [38]
        else if (sc =? 3)%nat && bool_decide (take 2 rest = chars "lt") then Reference 4 [60]
        else if (sc =? 3)%nat && bool_decide (take 2 rest = chars "gt") then Reference 4 [62]
        else Verbatim
      end
  end.

(** [skip] characters belong to the last reference. *)
Fixpoint entrefs_loop (have_more : bool) (l : list Z) (skip : nat) (p : Z) (buf : list Z) : option (Z * list Z) :=
  match l with
  | [] => Some (p, buf)
  | ch :: rest =>
    match skip with
    | Datatypes.S skip => entrefs_loop have_more rest skip (p + 1) buf
    | O =>
      match entity_at ch rest with
      | Verbatim => entrefs_loop have_more rest O (p + 1) (buf ++ [ch])
      | Reference n octets => entrefs_loop have_more rest (n - 1) (p + 1) (buf ++ octets)
      | Want_more => if have_more then entrefs_loop have_more rest O (p + 1) (buf ++ [ch]) else Some (p, buf)
      | Aborts => None
      end
    end
  end.

Definition OCTET_STRING__convert_entrefs (chunk_buf : list Z) (have_more : bool) (st : OCTET_STRING_t) : option (Z * OCTET_STRING_t) :=
  '(n, buf) ← entrefs_loop have_more chunk_buf O 0 (os_buf st);
  within (Z.of_nat (length buf)) (Z.of_nat (length (os_buf st)) + Z.of_nat (length chunk_buf)) (n, {| os_buf := buf |}).

(** The string and the context of its reader. *)
Record xer_string (A : Type) := { xs_value : A; xs_ctx : xer_ctx }.
Arguments xs_value {A}. Arguments xs_ctx {A}.

Section Strings.
Context {A : Type} (opt_unexpected_tag_decoder : option (list Z -> A -> option (Z * A)))
  (body_receiver : list Z -> bool -> A -> option (Z * A)) (tag : list Z) (fresh : A)
  (encode : forall S, Consumer S -> A -> Z -> bool -> emitter S).

Definition OCTET_STRING__decode_xer (xml_tag : list Z) (st : xer_string A) (buf_ptr : list Z) :
    option (asn_dec_rval_code * Z * xer_string A) :=
  '(code, consumed, ctx, a) ← xer_decode_general opt_unexpected_tag_decoder body_receiver xml_tag (general_fuel buf_ptr) (xs_ctx st) (xs_value st) buf_ptr 0;
  Some (code, consumed, {| xs_value := a; xs_ctx := ctx |}).

Definition string_xer : XerType A := {|
  xer_struct := xer_string A;
  xer_value := xs_value;
  xml_tag := tag;
  xer_encoder S C t ilevel canonical := encode S C t ilevel canonical;
  xer_decoder opt_mname st buf :=
    '(code, consumed, st) ← OCTET_STRING__decode_xer (default tag opt_mname) (default {| xs_value := fresh; xs_ctx := fresh_xer |} st) buf;
    Some (code, consumed, Some st)
|}.
End Strings.

Definition OCTET_STRING_xer (tag : list Z) : XerType OCTET_STRING_t :=
  string_xer None OCTET_STRING__convert_hexadecimal tag {| os_buf := [] |} (fun S C st ilevel canonical => OCTET_STRING_encode_xer st ilevel canonical).

(** UTF8String, IA5String and VisibleString. *)
Definition utf8_string_xer (tag : list Z) : XerType OCTET_STRING_t :=
  string_xer (Some OCTET_STRING__handle_control_chars) OCTET_STRING__convert_entrefs tag {| os_buf := [] |}
    (fun S C st ilevel canonical => OCTET_STRING_encode_xer_utf8 st).

Definition BIT_STRING_xer (tag : list Z) : XerType BIT_STRING_t :=
  string_xer None OCTET_STRING__convert_binary tag {| bs_buf := []; bits_unused := 0 |}
    (fun S C st ilevel canonical => BIT_STRING_encode_xer st ilevel canonical).

(** ** Lemmas: room for what is read *)

Lemma within_room {A} size new_size (answer : A) : size <= new_size -> within size new_size answer = Some answer.
Proof. intros H. unfold within. by rewrite (proj2 (Z.leb_le _ _) H). Qed.

Lemma hexadecimal_room l : forall buf clv half p stop buf' clv' half' stop', 0 <= stop <= p ->
  hexadecimal_loop l buf clv half p stop = Some (buf', clv', half', stop') ->
  2 * Z.of_nat (length buf') + Z.b2z half' <= 2 * Z.of_nat (length buf) + Z.b2z half + Z.of_nat (length l) /\
  0 <= stop' <= p + Z.of_nat (length l).
Proof.
  induction l as [|ch l IH]; intros buf clv half p stop buf' clv' half' stop' Hs; cbn [hexadecimal_loop length].
  - intros [= <- _ <- <-]. lia.
  - destruct (WHITESPACE ch); [intros H%IH; lia|]. destruct (hex_nibble ch); [|done].
    destruct half; intros Hl; apply IH in Hl; rewrite ?length_app in *; cbn [Z.b2z length] in *; lia.
Qed.

Lemma binary_room l : forall buf cell bits ended buf' cell' bits', 0 <= bits <= 8 ->
  convert_binary_loop l buf cell bits = (ended, buf', cell', bits') ->
  0 <= bits' <= 8 /\ 8 * Z.of_nat (length buf') - bits' <= 8 * Z.of_nat (length buf) - bits + Z.of_nat (length l).
Proof.
  induction l as [|ch l IH]; intros buf cell bits ended buf' cell' bits' Hb; cbn [convert_binary_loop length].
  - intros [= _ <- _ <-]. lia.
  - destruct (WHITESPACE ch); [intros H%IH; lia|]. destruct (_ || _); [|intros [= _ <- _ <-]; lia].
    destruct (Z.leb_spec bits 0); intros Hl; apply IH in Hl; rewrite ?length_app in *; cbn [length] in *; lia.
Qed.

(** The string fits unless a failed call has left bits to fill and no octet. *)
Definition binary_ready (st : BIT_STRING_t) : Prop := Z.land (bits_unused st) 7 = 0 \/ bs_buf st <> [].

Lemma convert_binary_room chunk more st : binary_ready st ->
  exists n st', OCTET_STRING__convert_binary chunk more st = Some (n, st') /\ (n <> -1 -> binary_ready st') /\
    (n = -1 \/ n = Z.of_nat (length chunk)).
Proof.
  intros Hst. unfold OCTET_STRING__convert_binary. set (u := Z.land (bits_unused st) 7) in *.
  assert (Hu : 0 <= u < 8) by (unfold u; rewrite (Z.land_ones _ 3) by lia; apply Z.mod_pos_bound; lia).
  assert (Hstart : exists buf cell bits, (if u =? 0 then (bs_buf st, 0, 8)
      else match last (bs_buf st) with Some b => (removelast (bs_buf st), b, u) | None => ([], 0, u) end) = (buf, cell, bits) /\
    0 <= bits <= 8 /\ 8 * Z.of_nat (length buf) - bits <= 8 * Z.of_nat (length (bs_buf st)) - 8).
  { destruct (Z.eqb_spec u 0) as [E|E]; [eexists _, _, _; split; [done|]; lia|]. destruct Hst as [?|Hne]; [done|].
    destruct (bs_buf st) as [|b l _] using rev_ind; [done|]. rewrite last_snoc, removelast_last, length_app.
    eexists _, _, _. split; [done|]. cbn [length]. lia. }
  destruct Hstart as (buf & cell & bits & -> & Hbits & Hlen).
  destruct (convert_binary_loop chunk buf cell bits) as [[[ended buf'] cell'] bits'] eqn:Hl.
  destruct (binary_room chunk buf cell bits ended buf' cell' bits' Hbits Hl) as [Hbits' Hlen'].
  destruct ended; [|eexists _, _; split; [done|]; split; [done|by left]].
  destruct (Z.eqb_spec bits' 8) as [E|E]; cbn [bs_buf]; rewrite within_room.
  - eexists _, _. split; [done|]. split; [by left|by right].
  - Z.div_mod_to_equations. lia.
  - eexists _, _. split; [done|]. split; [intros _; right; cbn; intros Hn; by apply app_eq_nil in Hn as [_ ?]|by right].
  - rewrite length_app. cbn [length]. Z.div_mod_to_equations. lia.
Qed.

Lemma convert_hexadecimal_any chunk more st : exists n st', OCTET_STRING__convert_hexadecimal chunk more st = Some (n, st') /\
  (n = -1 \/ 0 <= n <= Z.of_nat (length chunk) /\ (more = true -> n = Z.of_nat (length chunk))).
Proof.
  unfold OCTET_STRING__convert_hexadecimal. destruct (hexadecimal_loop _ _ _ _ _ _) as [[[[buf clv] half] stop]|] eqn:Hl; [|eexists _, _; by eauto].
  apply hexadecimal_room in Hl as [Hroom Hstop]; [|lia].
  destruct half, more; (rewrite within_room; [eexists _, _; split; [done|]; right; split; [lia|done]|]);
    rewrite ?length_app; cbn [length Z.b2z] in *; Z.div_mod_to_equations; lia.
Qed.

(** What OS__strtoent makes of the digits of a reference: a character that
    does not belong, no semicolon, or a number. *)
Lemma strtoent_cases base buf : 10 <= base -> forall p val len v, 0 <= val <= 1114111 -> OS__strtoent base buf p val = (len, v) ->
  len = -1 \/ (v = -1 /\ 59 ∉ buf) \/
  (val <= v <= 1114111 /\ p < len <= p + Z.of_nat (length buf) /\ (v <> val -> p + 1 < len) /\ (v = 0 -> zeros_end buf = true)).
Proof.
  intros Hbase. induction buf as [|ch buf IH]; intros p val len v Hval; cbn [OS__strtoent length zeros_end].
  { intros [= <- <-]. right. left. split; [done|]. apply not_elem_of_nil. }
  destruct (Z.eqb_spec ch 59) as [->|Hch]; [intros [= <- <-]; right; right; split; [lia|]; split; [lia|done]|].
  destruct (hex_nibble ch) as [d|] eqn:Hd; [|intros [= <- _]; by left].
  assert (Hrange : 0 <= d /\ (d = 0 -> ch = 48)) by (revert Hd; unfold hex_nibble; repeat case_match; intros [= <-]; lia).
  destruct (Z.ltb_spec 1114111 (val * base + d)); [intros [= <- _]; by left|]. intros H'.
  apply IH in H'; [|nia]. destruct H' as [->|[[-> Hnot]|(Hv & Hlen & Hmore & Hz)]]; [by left|right; left|right; right].
  - split; [done|]. apply not_elem_of_cons. by split.
  - split; [nia|]. split; [lia|]. split; [lia|]. intros E. specialize (Hz E). destruct (Z.eqb_spec ch 48) as [|Hn]; [done|].
    exfalso. assert (0 < d) by (destruct (Z.eq_dec d 0) as [E0|E0]; [by destruct Hn; apply Hrange|lia]). assert (0 < val * base + d) by nia. subst v. lia.
Qed.

Lemma memchr_lt c l n : memchr c l = Some n -> (n < length l)%nat.
Proof.
  revert n. induction l as [|x l IH]; intros n; cbn [memchr length]; [done|]. destruct (x =? c); [intros [= <-]; lia|].
  destruct (memchr c l) as [k|]; [|done]. intros [= <-]. specialize (IH k eq_refl). lia.
Qed.

Lemma utf8_octets_few v : v <= 1114111 -> (length (utf8_octets v) <= 4)%nat.
Proof. intros Hv. unfold utf8_octets. rewrite length_fmap. repeat (case_match; [cbn; lia|]). lia. Qed.

(** A reference has not fewer characters than octets, and the assertion fails
    at a reference to zero only. *)
Lemma entity_cases ch rest :
  match entity_at ch rest with
  | Reference n octets => (1 <= n <= S (length rest))%nat /\ (length octets <= n)%nat
  | Aborts => zero_reference (ch :: rest) = true
  | _ => True
  end.
Proof.
  unfold entity_at. destruct (Z.eqb_spec ch 38) as [->|]; cbn [negb]; [|done]. destruct rest as [|c1 digits]; [done|].
  destruct (Z.eqb_spec c1 35) as [->|].
  - case_bool_decide as Hne; [done|]. cbn [zero_reference Z.eqb Pos.eqb andb length].
    set (hex := bool_decide (head digits = Some 120)).
    assert (Hparts : exists skipped pval base, (if hex then (3%nat, tail digits, 16) else (2%nat, digits, 10)) = (skipped, pval, base) /\
      (2 <= skipped)%nat /\ 10 <= base /\ (skipped + length pval = 2 + length digits)%nat /\ pval = (if hex then tail digits else digits)).
    { destruct hex; eexists _, _, _; (split; [done|]); split_and!; try (done || lia). destruct digits; [done|cbn; lia]. }
    destruct Hparts as (skipped & pval & base & -> & Hsk & Hbase & Hlen & ->). cbv beta iota zeta. set (pval := if hex then _ else _) in *.
    destruct (OS__strtoent base pval 0 0) as [len v] eqn:Hent. apply strtoent_cases in Hent; [|lia..].
    destruct (Z.eqb_spec len (-1)); [done|]. destruct Hent as [?|[[-> Hnot]|(Hv & Hl & Hmore & Hz)]]; [done| |].
    + destruct (len =? 0); [done|]. cbn [orb]. destruct (Z.eqb_spec (default 0 (pval !! Z.to_nat (len - 1))) 59) as [E|]; [|done].
      destruct (pval !! Z.to_nat (len - 1)) eqn:Hp; [|done]. cbn in E. subst. by apply list_elem_of_lookup_2 in Hp.
    + destruct (_ || _); [done|]. destruct (Z.leb_spec v 0); [apply Hz; lia|]. specialize (Hmore ltac:(lia)).
      pose proof (utf8_octets_few v ltac:(lia)). lia.
  - destruct (memchr 59 _) as [sc|] eqn:Hsc; [|done]. apply memchr_lt in Hsc. rewrite length_take in Hsc. cbn [length] in *.
    destruct (Nat.eqb_spec sc 4) as [->|]; cbn [andb].
    + destruct (bool_decide _); [cbn; lia|]. done.
    + destruct (Nat.eqb_spec sc 3) as [->|]; cbn [andb]; [|done]. destruct (bool_decide _); [cbn; lia|]. destruct (bool_decide _); [cbn; lia|done].
Qed.

Lemma entrefs_room more l : forall skip p buf n buf', (skip <= length l)%nat -> entrefs_loop more l skip p buf = Some (n, buf') ->
  Z.of_nat (length buf') + Z.of_nat skip <= Z.of_nat (length buf) + Z.of_nat (length l) /\
  p <= n <= p + Z.of_nat (length l) /\ (more = true -> n = p + Z.of_nat (length l)).
Proof.
  induction l as [|ch l IH]; intros skip p buf n buf' Hskip; cbn [entrefs_loop length] in *; [intros [= <- <-]; lia|].
  assert (Hgo : forall skip' add, (skip' <= length l)%nat -> (length add + skip <= 1 + skip')%nat ->
    entrefs_loop more l skip' (p + 1) (buf ++ add) = Some (n, buf') ->
    Z.of_nat (length buf') + Z.of_nat skip <= Z.of_nat (length buf) + Z.of_nat (S (length l)) /\
    p <= n <= p + Z.of_nat (S (length l)) /\ (more = true -> n = p + Z.of_nat (S (length l)))).
  { intros skip' add Hs Ha Hr. apply IH in Hr as (H1 & H2 & H3); [|done]. rewrite length_app in H1.
    split; [lia|]. split; [lia|]. intros E. specialize (H3 E). lia. }
  destruct skip as [|skip]; [|specialize (Hgo skip []); rewrite app_nil_r in Hgo; apply Hgo; cbn; lia]. pose proof (entity_cases ch l) as He.
  destruct (entity_at ch l) as [|k octets| |]; [| |destruct more|done].
  1-3: apply Hgo; cbn; lia. intros [= <- <-]. split; [lia|]. split; [lia|done].
Qed.

Lemma entrefs_answers more l : has_zero_reference l = false -> forall skip p buf, is_Some (entrefs_loop more l skip p buf).
Proof.
  induction l as [|ch l IH]; cbn [has_zero_reference]; intros Hz skip p buf; cbn [entrefs_loop]; [by eexists|].
  apply orb_false_iff in Hz as [Hz Hrest]. specialize (IH Hrest). destruct skip; [|apply IH]. pose proof (entity_cases ch l) as He.
  destruct (entity_at ch l); [apply IH..| |congruence]. destruct more; [apply IH|by eexists].
Qed.

Lemma convert_entrefs_any chunk more st : has_zero_reference chunk = false ->
  exists n st', OCTET_STRING__convert_entrefs chunk more st = Some (n, st') /\
    (n = -1 \/ 0 <= n <= Z.of_nat (length chunk) /\ (more = true -> n = Z.of_nat (length chunk))).
Proof.
  intros Hz. unfold OCTET_STRING__convert_entrefs. destruct (entrefs_answers more chunk Hz 0 0 (os_buf st)) as [[n buf] Hl]. rewrite Hl.
  apply entrefs_room in Hl as (Hroom & Hn & Hmore); [|lia]. cbn [mbind option_bind]. rewrite within_room by lia.
  exists n, {| os_buf := buf |}. split; [done|]. right. split; [lia|]. intros E. specialize (Hmore E). lia.
Qed.

(** ** Lemmas: words between white space *)

(** A text of pieces, and white space anywhere between them. *)
Inductive words {A} (piece : A -> list Z) : list Z -> list A -> Prop :=
  | words_nil : words piece [] []
  | words_space c t l : WHITESPACE c = true -> words piece t l -> words piece (c :: t) l
  | words_piece a t l : words piece t l -> words piece (piece a ++ t) (a :: l).

Section Words.
Context {A : Type} (piece : A -> list Z).

Lemma words_app t1 l1 t2 l2 : words piece t1 l1 -> words piece t2 l2 -> words piece (t1 ++ t2) (l1 ++ l2).
Proof.
  intros H1 H2. induction H1 as [|c t l Hc _ IH|a t l _ IH]; cbn [app]; [done|by constructor|].
  rewrite <- app_assoc. by constructor.
Qed.

Lemma words_pieces l : words piece (concat (piece <$> l)) l.
Proof. induction l as [|a l IH]; cbn; by constructor. Qed.

Lemma words_spaces t : Forall (fun c => WHITESPACE c = true) t -> words piece t [].
Proof. induction 1; by constructor. Qed.

Lemma words_spaces_end t l s : words piece t l -> Forall (fun c => WHITESPACE c = true) s -> words piece (t ++ s) l.
Proof. intros Ht Hs. rewrite <- (app_nil_r l). by apply words_app; [|apply words_spaces]. Qed.

Lemma words_plain t l : (forall a, a ∈ l -> Forall plain (piece a)) -> words piece t l -> Forall plain t.
Proof.
  intros Hp H. induction H as [|c t l Hc _ IH|a t l _ IH]; [constructor| |].
  - constructor; [|by apply IH]. intros ->. done.
  - apply Forall_app. split; [apply Hp; left|apply IH; intros; apply Hp; by right].
Qed.

Lemma words_empty t l : (forall a, piece a <> []) -> words piece t l -> t = [] -> l = [].
Proof. intros Hp H E. destruct H as [|c t l _ _|a t l _]; [done|discriminate E|]. apply app_eq_nil in E as [E _]. by destruct (Hp a). Qed.
End Words.

Lemma indent_spaces nl level : Forall (fun c => WHITESPACE c = true) (indent nl level).
Proof.
  unfold indent. apply Forall_app. split; [by destruct nl; repeat constructor|]. apply Forall_concat, Forall_replicate. by repeat constructor.
Qed.

(** ** Lemmas: hexadecimal *)

Lemma hex_digit_nibble h : 0 <= h < 16 -> hex_nibble (hex_digit h) = Some h /\ WHITESPACE (hex_digit h) = false.
Proof.
  intros Hh. assert (Hall : forallb (fun h => bool_decide (hex_nibble (hex_digit h) = Some h) && negb (WHITESPACE (hex_digit h))) (seqZ 0 16) = true) by reflexivity.
  rewrite forallb_forall in Hall. specialize (Hall h ltac:(apply list_elem_of_In, elem_of_seqZ; lia)).
  apply andb_true_iff in Hall as [H1%bool_decide_eq_true H2%negb_true_iff]. done.
Qed.

Lemma hex_pair_octet b : byte_ok b -> hex_pair b = hex_octet b.
Proof.
  intros Hb. unfold hex_pair, hex_octet. do 2 f_equal. change 15 with (Z.ones 4). rewrite Z.land_ones by lia. apply Z.mod_small.
  unfold byte_ok in Hb. rewrite Z.shiftr_div_pow2 by lia. change (2 ^ 4) with 16. split; [apply Z.div_pos; lia|apply Z.div_lt_upper_bound; lia].
Qed.

Lemma hex_pair_plain b : byte_ok b -> Forall plain (hex_pair b).
Proof.
  intros Hb. rewrite hex_pair_octet by done. pose proof (hex_text_chars [b]) as H. cbn in H.
  eapply Forall_impl; [apply H; by apply bytes_ok_cons; [|apply bytes_ok_nil]|]. intros c [_ Hc]. exact Hc.
Qed.

Lemma two_nibbles clv b : byte_ok b -> u8 (u32 (u32 (u32 (u32 (clv ≪ 4) + b / 16) ≪ 4) + b mod 16)) = b.
Proof.
  intros Hb. unfold u8, u32, byte_ok in *. rewrite !Z.shiftl_mul_pow2 by lia.
  change (2 ^ 32) with (16777216 * 2 ^ 8). change (2 ^ 8) with 256. change (2 ^ 4) with 16.
  Z.div_mod_to_equations. lia.
Qed.

Lemma hexadecimal_words t l : words hex_pair t l -> bytes_ok l -> forall buf clv p stop,
  exists clv' stop', hexadecimal_loop t buf clv false p stop = Some (buf ++ l, clv', false, stop').
Proof.
  intros H. induction H as [|c t l Hc _ IH|b t l _ IH]; intros Hok buf clv p stop; cbn [hexadecimal_loop].
  - rewrite app_nil_r. by eexists _, _.
  - rewrite Hc. by apply IH.
  - apply Forall_cons in Hok as [Hb Hok]. rewrite hex_pair_octet by done. unfold hex_octet. cbn [app].
    rewrite Z.shiftr_div_pow2 by lia. change 15 with (Z.ones 4). rewrite Z.land_ones by lia. change (2 ^ 4) with 16.
    destruct (hex_digit_nibble (b / 16)) as [H1 H2]; [unfold byte_ok in Hb; split; [apply Z.div_pos; lia|apply Z.div_lt_upper_bound; lia]|].
    destruct (hex_digit_nibble (b mod 16)) as [H3 H4]; [apply Z.mod_pos_bound; lia|].
    cbn [hexadecimal_loop]. rewrite H2, H1, H4, H3, two_nibbles by done.
    destruct (IH Hok (buf ++ [b]) (u32 (u32 (u32 (u32 (clv ≪ 4) + b / 16) ≪ 4) + b mod 16)) (p + 1 + 1) (p + 1 + 1)) as (clv' & stop' & Hr).
    exists clv', stop'. rewrite Hr. by rewrite <- app_assoc.
Qed.

(** The text of an OCTET STRING, line by line. *)
Fixpoint basic_text (size ilevel : Z) (buf scratch : list Z) (i : Z) : list Z :=
  match buf with
  | [] => if bool_decide (scratch = []) then [] else removelast scratch ++ if 16 <? size then indent true (ilevel - 1) else []
  | b :: buf =>
    if (i mod 16 =? 0) && (negb (i =? 0) || (16 <? size))
    then scratch ++ indent true ilevel ++ basic_text size ilevel buf (hex_pair b ++ [32]) (i + 1)
    else basic_text size ilevel buf (scratch ++ hex_pair b ++ [32]) (i + 1)
  end.

Definition hex_xer_text (st : OCTET_STRING_t) (ilevel : Z) (canonical : bool) : list Z :=
  if canonical then concat (hex_pair <$> os_buf st)
  else basic_text (Z.of_nat (length (os_buf st))) ilevel (os_buf st) [] 0.

Section PrintOk.
Context {S : Type} `{HC : Consumer S} `{HA : !AppendConsumer S}.

Lemma one_emits text : emits (S := S) (callback [text]) text.
Proof. eapply emits_eq; [apply callback_emits|]. cbn. apply app_nil_r. Qed.

Lemma canonical_emits buf : forall scratch, emits (S := S) (hex_canonical buf scratch) (scratch ++ concat (hex_pair <$> buf)).
Proof.
  induction buf as [|b buf IH]; intros scratch; cbn [hex_canonical].
  - cbn. rewrite app_nil_r. apply one_emits.
  - change (concat (hex_pair <$> b :: buf)) with (hex_pair b ++ concat (hex_pair <$> buf)). case_match.
    + apply then_emits; [apply one_emits|apply IH].
    + rewrite app_assoc. apply IH.
Qed.

Lemma basic_emits size ilevel buf : forall scratch i, emits (S := S) (hex_basic size ilevel buf scratch i) (basic_text size ilevel buf scratch i).
Proof.
  induction buf as [|b buf IH]; intros scratch i; cbn [hex_basic basic_text]; case_match.
  - apply nothing_emits.
  - apply then_emits; [apply one_emits|]. case_match; [apply indent_emits|apply nothing_emits].
  - apply then_emits; [apply one_emits|]. apply then_emits; [apply indent_emits|apply IH].
  - apply IH.
Qed.

Lemma hex_emits st ilevel canonical : emits (S := S) (OCTET_STRING_encode_xer st ilevel canonical) (hex_xer_text st ilevel canonical).
Proof. unfold OCTET_STRING_encode_xer, hex_xer_text. destruct canonical; [apply (canonical_emits _ [])|apply basic_emits]. Qed.
End PrintOk.

(** What the scratch buffer holds: words, and a space behind them. *)
Definition scratch_words (scratch : list Z) (l : list Z) : Prop :=
  scratch = [] /\ l = [] \/ exists s, scratch = s ++ [32] /\ words hex_pair s l.

Lemma scratch_all scratch l : scratch_words scratch l -> words hex_pair scratch l.
Proof. intros [[-> ->]|(s & -> & Hs)]; [constructor|]. apply words_spaces_end; [done|by repeat constructor]. Qed.

Lemma scratch_more scratch l b : scratch_words scratch l -> scratch_words (scratch ++ hex_pair b ++ [32]) (l ++ [b]).
Proof.
  intros H%scratch_all. right. exists (scratch ++ hex_pair b). split; [by rewrite <- app_assoc|].
  apply words_app; [done|]. rewrite <- (app_nil_r (hex_pair b)). apply words_piece, words_nil.
Qed.

Lemma basic_words size ilevel buf : forall scratch l i, scratch_words scratch l -> words hex_pair (basic_text size ilevel buf scratch i) (l ++ buf).
Proof.
  induction buf as [|b buf IH]; intros scratch l i Hs; cbn [basic_text].
  - rewrite app_nil_r. case_bool_decide as Hb; [destruct Hs as [[_ ->]|(s & -> & _)]; [constructor|by apply app_eq_nil in Hb as [_ Hb]]|].
    destruct Hs as [[-> _]|(s & -> & Hs)]; [done|]. rewrite removelast_last.
    apply words_spaces_end; [done|]. case_match; [apply indent_spaces|constructor].
  - case_match.
    + apply words_app; [by apply scratch_all|]. change (b :: buf) with ([] ++ (b :: buf)). apply words_app; [apply words_spaces, indent_spaces|].
      change (b :: buf) with ([b] ++ buf). apply IH. apply (scratch_more [] [] b). by left.
    + replace (l ++ b :: buf) with ((l ++ [b]) ++ buf) by by rewrite <- app_assoc. apply IH. by apply scratch_more.
Qed.

Lemma hex_xer_words st ilevel canonical : words hex_pair (hex_xer_text st ilevel canonical) (os_buf st).
Proof. unfold hex_xer_text. destruct canonical; [apply words_pieces|]. apply (basic_words _ _ _ [] []). by left. Qed.

(** ** Lemmas: binary *)

Definition bit_char (b : bool) : list Z := [48 + Z.b2z b].

Lemma octet_pattern_ok v : byte_ok v -> octet_pattern v = concat (bit_char <$> byte_bits v).
Proof.
  intros Hv. assert (Hall : forallb (fun v => bool_decide (octet_pattern v = concat (bit_char <$> byte_bits v))) (seqZ 0 256) = true) by (vm_compute; reflexivity).
  rewrite forallb_forall in Hall. specialize (Hall v ltac:(apply list_elem_of_In, elem_of_seqZ; unfold byte_ok in *; lia)).
  by apply bool_decide_eq_true in Hall.
Qed.

Lemma last_pattern_ok v u : byte_ok v -> 0 <= u <= 7 -> last_pattern v u = concat (bit_char <$> take (Z.to_nat (8 - u)) (byte_bits v)).
Proof.
  intros Hv Hu. assert (Hall : forallb (fun u => forallb (fun v => bool_decide (last_pattern v u = concat (bit_char <$> take (Z.to_nat (8 - u)) (byte_bits v))))
    (seqZ 0 256)) (seqZ 0 8) = true) by (vm_compute; reflexivity).
  rewrite forallb_forall in Hall. specialize (Hall u ltac:(apply list_elem_of_In, elem_of_seqZ; lia)). cbn beta in Hall.
  rewrite forallb_forall in Hall. specialize (Hall v ltac:(apply list_elem_of_In, elem_of_seqZ; unfold byte_ok in *; lia)).
  by apply bool_decide_eq_true in Hall.
Qed.

(** The text of a BIT STRING; [rest] is what is behind the octets but the last. *)
Fixpoint binary_text (ilevel : Z) (xcan : bool) (rest : list Z) (buf scratch : list Z) (i : Z) : list Z :=
  let line := if negb xcan && (i mod 8 =? 0) then indent true ilevel else [] in
  match buf with
  | [] => line ++ scratch ++ rest
  | v :: buf =>
    if (118 <=? Z.of_nat (length scratch)) || negb xcan && (i mod 8 =? 0)
    then scratch ++ line ++ binary_text ilevel xcan rest buf (octet_pattern v) (i + 1)
    else binary_text ilevel xcan rest buf (scratch ++ octet_pattern v) (i + 1)
  end.

Definition binary_rest (ilevel : Z) (canonical : bool) (st : BIT_STRING_t) : list Z :=
  match last (bs_buf st) with Some v => last_pattern v (bits_unused st) | None => [] end ++ if canonical then [] else indent true (ilevel - 1).

Definition binary_xer_text (st : BIT_STRING_t) (ilevel : Z) (canonical : bool) : list Z :=
  binary_text ilevel canonical (binary_rest ilevel canonical st) (removelast (bs_buf st)) [] 0.

Lemma binary_text_canonical rest i j buf : forall scratch k, binary_text i true rest buf scratch k = binary_text j true rest buf scratch k.
Proof. induction buf as [|v buf IH]; intros scratch k; cbn [binary_text negb andb]; [done|]. case_match; [by rewrite IH|apply IH]. Qed.

Lemma binary_loop_emits {S} `{HC : Consumer S} `{HA : !AppendConsumer S} ilevel xcan (e : emitter S) rest buf : emits e rest ->
  forall scratch i, emits (binary_loop ilevel xcan e buf scratch i) (binary_text ilevel xcan rest buf scratch i).
Proof.
  intros He. assert (Hline : forall c : bool, emits (S := S) (if c then TEXT_INDENT true ilevel else emit_nothing) (if c then indent true ilevel else [])).
  { intros []; [apply indent_emits|apply nothing_emits]. }
  induction buf as [|v buf IH]; intros scratch i; cbn [binary_loop binary_text].
  - apply then_emits; [apply Hline|]. apply then_emits; [apply one_emits|done].
  - case_match; [|apply IH]. apply then_emits; [apply one_emits|]. apply then_emits; [apply Hline|apply IH].
Qed.

Lemma binary_emits {S} `{HC : Consumer S} `{HA : !AppendConsumer S} st ilevel canonical :
  emits (S := S) (BIT_STRING_encode_xer st ilevel canonical) (binary_xer_text st ilevel canonical).
Proof.
  apply binary_loop_emits. apply then_emits.
  - destruct (last (bs_buf st)); [apply one_emits|apply nothing_emits].
  - destruct canonical; [apply nothing_emits|apply indent_emits].
Qed.

Lemma binary_text_words ilevel xcan rest bits buf : bytes_ok buf -> words bit_char rest bits ->
  forall scratch sbits i, words bit_char scratch sbits -> words bit_char (binary_text ilevel xcan rest buf scratch i) (sbits ++ bytes_bits buf ++ bits).
Proof.
  intros Hok Hrest. assert (Hline : forall c : bool, words bit_char (if c then indent true ilevel else []) []).
  { intros []; [apply words_spaces, indent_spaces|constructor]. }
  assert (Hskip : forall t1 t2 l, words bit_char t1 [] -> words bit_char t2 l -> words bit_char (t1 ++ t2) l).
  { intros t1 t2 l H1 H2. change l with ([] ++ l). by apply words_app. }
  induction buf as [|v buf IH]; intros scratch sbits i Hs; cbn [binary_text].
  - cbn. apply Hskip; [apply Hline|]. by apply words_app.
  - apply Forall_cons in Hok as [Hv Hok]. cbn [bytes_bits mbind list_bind]. fold (bytes_bits buf). rewrite <- app_assoc.
    assert (Hp : words bit_char (octet_pattern v) (byte_bits v)) by (rewrite octet_pattern_ok by done; apply words_pieces).
    case_match.
    + apply words_app; [done|]. apply Hskip; [apply Hline|]. by apply IH.
    + rewrite app_assoc. apply IH; [done|]. by apply words_app.
Qed.

Lemma binary_xer_words st ilevel canonical : bs_valid st -> words bit_char (binary_xer_text st ilevel canonical) (bs_bits st).
Proof.
  intros (Hok & Hu & Hempty). unfold binary_xer_text, binary_rest, bs_bits. destruct st as [buf u]. cbn [bs_buf bits_unused] in *.
  assert (Hend : forall t l, words bit_char t l -> words bit_char (t ++ if canonical then [] else indent true (ilevel - 1)) l).
  { intros t l Ht. apply words_spaces_end; [done|]. destruct canonical; [constructor|apply indent_spaces]. }
  destruct buf as [|b l _] using rev_ind.
  - rewrite (Hempty eq_refl).
    change (words bit_char (binary_text ilevel canonical ([] ++ if canonical then [] else indent true (ilevel - 1)) [] [] 0) ([] ++ bytes_bits [] ++ [])).
    apply binary_text_words; [apply bytes_ok_nil|apply Hend; constructor|constructor].
  - apply Forall_app in Hok as [Hok [Hb _]%Forall_cons]. rewrite removelast_last, last_snoc.
    replace (take _ _) with ([] ++ bytes_bits l ++ take (Z.to_nat (8 - u)) (byte_bits b)).
    + apply binary_text_words; [done| |constructor]. apply Hend. rewrite last_pattern_ok by done. apply words_pieces.
    + cbn [app]. rewrite bytes_bits_app, length_app. cbn [bytes_bits mbind list_bind length].
      rewrite app_nil_r, take_app_ge by (rewrite length_bytes_bits; lia). do 2 f_equal. rewrite length_bytes_bits. lia.
Qed.

(** The octet that begins with the bits [c]. *)
Definition cell_of (c : list bool) : Z := bits_val (c ++ replicate (8 - length c) false).

Lemma cell_octet c : (length c <= 8)%nat -> byte_ok (cell_of c) /\ byte_bits (cell_of c) = c ++ replicate (8 - length c) false.
Proof.
  intros Hc. unfold cell_of. set (l := c ++ _). assert (Hl : length l = 8%nat) by (unfold l; rewrite length_app, length_replicate; lia).
  pose proof (bits_val_bound l) as Hb. rewrite Hl in Hb. split; [exact Hb|]. unfold byte_bits. rewrite <- Hl. apply val_bits_bits_val.
Qed.

Lemma packed_cell c : (1 <= length c <= 8)%nat -> padded_octets c = [cell_of c].
Proof.
  intros Hc. destruct (cell_octet c) as [Hb Hbits]; [lia|]. symmetry. apply padded_octets_eq; [by apply bytes_ok_cons; [|apply bytes_ok_nil]|].
  cbn [bytes_bits mbind list_bind]. rewrite app_nil_r, Hbits. unfold pad8. do 2 f_equal. Z.div_mod_to_equations. lia.
Qed.

Lemma bits_val_replicate n : bits_val (replicate n false) = 0.
Proof. exact (bits_val_zeros [] n). Qed.

Lemma cell_more c b : (length c < 8)%nat ->
  u8 (Z.lor (cell_of c) (Z.b2z b ≪ (8 - Z.of_nat (length c) - 1))) = cell_of (c ++ [b]).
Proof.
  intros Hc. destruct (cell_octet (c ++ [b])) as [Hb _]; [rewrite length_app; cbn; lia|].
  set (k := (8 - (length c + 1))%nat).
  assert (Hnew : cell_of (c ++ [b]) = bits_val c * 2 ^ Z.of_nat (S k) + Z.b2z b * 2 ^ Z.of_nat k).
  { unfold cell_of. rewrite length_app. cbn [length]. fold k. rewrite <- app_assoc, bits_val_app. cbn [app length bits_val].
    rewrite length_replicate, bits_val_replicate. lia. }
  assert (Hold : cell_of c = bits_val c ≪ Z.of_nat (S k)).
  { unfold cell_of. replace (8 - length c)%nat with (S k) by lia. rewrite bits_val_app, length_replicate, bits_val_replicate, Z.shiftl_mul_pow2 by lia. lia. }
  rewrite Hnew in *. rewrite Hold. replace (8 - Z.of_nat (length c) - 1) with (Z.of_nat k) by lia.
  assert (Hp : 0 < 2 ^ Z.of_nat k) by (apply Z.pow_pos_nonneg; lia).
  assert (Hs : 2 ^ Z.of_nat (S k) = 2 * 2 ^ Z.of_nat k) by (rewrite Nat2Z.inj_succ; apply Z.pow_succ_r; lia).
  rewrite (Z.shiftl_mul_pow2 (Z.b2z b)) by lia. rewrite lor_shiftl_add by (destruct b; cbn [Z.b2z]; lia).
  unfold u8. apply Z.mod_small. exact Hb.
Qed.

(** The cell and the octets before it after some bits; [p] are those of the
    octets, [c] those in the cell. *)
Lemma binary_words t bits : words bit_char t bits -> forall p c, (length p mod 8 = 0)%nat -> (length c <= 8)%nat -> (c = [] -> p = []) ->
  exists p' c', convert_binary_loop t (padded_octets p) (cell_of c) (8 - Z.of_nat (length c)) =
      (true, padded_octets p', cell_of c', 8 - Z.of_nat (length c')) /\
    p' ++ c' = p ++ c ++ bits /\ (length p' mod 8 = 0)%nat /\ (length c' <= 8)%nat /\ (c' = [] -> p' = []).
Proof.
  intros H. induction H as [|x t l Hx _ IH|b t l _ IH]; intros p c Hp Hc Hnil; cbn [convert_binary_loop].
  - exists p, c. by rewrite app_nil_r.
  - rewrite Hx. by apply IH.
  - cbn [bit_char app]. assert (Hw : WHITESPACE (48 + Z.b2z b) = false /\ ((48 + Z.b2z b =? 48) || (48 + Z.b2z b =? 49) = true) /\ Z.land (48 + Z.b2z b) 1 = Z.b2z b)
      by by destruct b.
    destruct Hw as (Hw & Hd & Hl). cbn [convert_binary_loop]. rewrite Hw, Hd, Hl. destruct (Z.leb_spec (8 - Z.of_nat (length c)) 0) as [Hfull|Hroom].
    + assert (Hc8 : length c = 8%nat) by lia. rewrite <- packed_cell, <- packed_app by (done || lia).
      replace (u8 (Z.b2z b ≪ 7)) with (cell_of [b]) by by destruct b. change 7 with (8 - Z.of_nat (length [b])).
      destruct (IH (p ++ c) [b]) as (p' & c' & Hr & Happ & Hrest); [|cbn; lia|discriminate|].
      { rewrite length_app, Hc8. by rewrite Nat.Div0.add_mod, Hp. }
      exists p', c'. split; [exact Hr|]. split; [|done]. by rewrite Happ, <- !app_assoc.
    + rewrite cell_more by lia. replace (8 - Z.of_nat (length c) - 1) with (8 - Z.of_nat (length (c ++ [b]))) by (rewrite length_app; cbn; lia).
      destruct (IH p (c ++ [b])) as (p' & c' & Hr & Happ & Hrest); [done|rewrite length_app; cbn; lia|by destruct c|].
      exists p', c'. split; [exact Hr|]. split; [|done]. by rewrite Happ, <- !app_assoc.
Qed.

Lemma convert_binary_ok t bits more : words bit_char t bits ->
  OCTET_STRING__convert_binary t more {| bs_buf := []; bits_unused := 0 |} = Some (Z.of_nat (length t), bit_string bits).
Proof.
  intros Ht. unfold OCTET_STRING__convert_binary. cbn [bs_buf bits_unused]. change (Z.land 0 7 =? 0) with true. cbn match.
  destruct (binary_words t bits Ht [] []) as (p & c & Hr & Happ & Hp & Hc & Hnil); [done|cbn; lia|done|].
  change (padded_octets []) with (@nil Z) in Hr. change (cell_of []) with 0 in Hr. change (8 - Z.of_nat (length [])) with 8 in Hr. rewrite Hr.
  destruct (convert_binary_room t more {| bs_buf := []; bits_unused := 0 |} ltac:(by left)) as (n & st' & Hany & _ & _).
  unfold OCTET_STRING__convert_binary in Hany. cbn [bs_buf bits_unused] in Hany. change (Z.land 0 7 =? 0) with true in Hany. cbn match in Hany.
  rewrite Hr in Hany. cbn match in Hany. unfold within in Hany |- *. destruct (_ <=? _); [|done].
  cbn [app] in Happ. do 2 f_equal. unfold bit_string. destruct c as [|b c].
  - rewrite (Hnil eq_refl) in Happ. cbn [app] in Happ. subst bits. by rewrite (Hnil eq_refl).
  - rewrite (proj2 (Z.eqb_neq _ 8)) by (cbn [length]; lia). rewrite <- Happ, packed_app, (packed_cell (b :: c)) by (done || (cbn [length] in *; lia)).
    f_equal. rewrite length_app. pose proof (Nat.div_mod_eq (length p) 8) as Hd. cbn [length] in *. Z.div_mod_to_equations. lia.
Qed.

(** ** Lemmas: characters *)

(** How a character is written. *)
Definition escaped (c : Z) : list Z := if bool_decide (xer_escape c = []) then [c] else xer_escape c.

(** The control characters that are empty tags, and their names. *)
Definition is_control (c : Z) : bool := (c <? 32) && negb ((c =? 9) || (c =? 10) || (c =? 13)).
Definition control_name (c : Z) : list Z := chars (default ""%string (control_names !! Z.to_nat c)).

Definition name_okb (name : list Z) : bool :=
  match name with c :: _ => ALPHA c | [] => false end && forallb name_char name.

Lemma name_okb_ok name : name_okb name = true -> name_ok name.
Proof.
  unfold name_okb, name_ok. intros [H1 H2]%andb_true_iff. split; [destruct name as [|c name]; [done|by exists c]|].
  rewrite forallb_forall in H2. apply Forall_forall. intros c Hc. by apply H2, list_elem_of_In.
Qed.

Definition escapes_as_said (c : Z) : bool :=
  if is_control c then
    bool_decide (escaped c = empty_tag (control_name c)) && name_okb (control_name c) && (OS__check_escaped_control_char (escaped c) =? c)
  else
    forallb (fun x => negb (x =? 60)) (escaped c) && negb (bool_decide (escaped c = [])) &&
    (if (c =? 38) || (c =? 60) || (c =? 62) then bool_decide (escaped c = if c =? 38 then chars "&amp;" else if c =? 60 then chars "&lt;" else chars "&gt;")
     else bool_decide (escaped c = [c])).

Lemma escapes_ok c : byte_ok c -> escapes_as_said c = true.
Proof.
  intros Hc. assert (Hall : forallb escapes_as_said (seqZ 0 256) = true) by (vm_compute; reflexivity).
  rewrite forallb_forall in Hall. apply Hall, list_elem_of_In, elem_of_seqZ. unfold byte_ok in Hc. lia.
Qed.

Lemma escaped_control c : byte_ok c -> is_control c = true ->
  escaped c = empty_tag (control_name c) /\ name_ok (control_name c) /\ OS__check_escaped_control_char (escaped c) = c.
Proof.
  intros Hb Hc. pose proof (escapes_ok c Hb) as H. unfold escapes_as_said in H. rewrite Hc, !andb_true_iff in H.
  destruct H as [[H1%bool_decide_eq_true H2] H3%Z.eqb_eq]. split; [done|]. split; [by apply name_okb_ok|done].
Qed.

Lemma escaped_plain c : byte_ok c -> is_control c = false -> Forall plain (escaped c) /\ escaped c <> [] /\
  forall more rest p buf, entrefs_loop more (escaped c ++ rest) O p buf = entrefs_loop more rest O (p + Z.of_nat (length (escaped c))) (buf ++ [c]).
Proof.
  intros Hb Hc. pose proof (escapes_ok c Hb) as H. unfold escapes_as_said in H. rewrite Hc, !andb_true_iff in H.
  destruct H as [[H1 H2%negb_true_iff%bool_decide_eq_false] H3]. split; [|split; [done|]].
  - apply Forall_forall. intros x Hx. rewrite forallb_forall in H1. specialize (H1 x (proj1 (list_elem_of_In _ _) Hx)).
    apply negb_true_iff, Z.eqb_neq in H1. exact H1.
  - intros more rest p buf. destruct (Z.eqb_spec c 38) as [->|H38]; [|destruct (Z.eqb_spec c 60) as [->|H60]; [|destruct (Z.eqb_spec c 62) as [->|H62]]];
      cbn [orb] in H3; apply bool_decide_eq_true in H3; rewrite H3.
    + change (Z.of_nat (length (chars "&amp;"))) with 5. replace (p + 5) with (p + 1 + 1 + 1 + 1 + 1) by lia. reflexivity.
    + change (Z.of_nat (length (chars "&lt;"))) with 4. replace (p + 4) with (p + 1 + 1 + 1 + 1) by lia. reflexivity.
    + change (Z.of_nat (length (chars "&gt;"))) with 4. replace (p + 4) with (p + 1 + 1 + 1 + 1) by lia. reflexivity.
    + cbn [app entrefs_loop]. unfold entity_at. by rewrite (proj2 (Z.eqb_neq c 38)).
Qed.

Definition utf8_xer_text (st : OCTET_STRING_t) : list Z := concat (escaped <$> os_buf st).

Lemma escape_loop_emits {S} `{HC : Consumer S} `{HA : !AppendConsumer S} buf : forall ss,
  emits (S := S) (escape_loop buf ss) (ss ++ concat (escaped <$> buf)).
Proof.
  induction buf as [|ch buf IH]; intros ss; cbn [escape_loop].
  - cbn. rewrite app_nil_r. case_bool_decide as Hb; [rewrite Hb; apply nothing_emits|apply one_emits].
  - change (concat (escaped <$> ch :: buf)) with (escaped ch ++ concat (escaped <$> buf)). unfold escaped at 1. case_bool_decide as Hch.
    + rewrite app_assoc. apply IH.
    + rewrite app_assoc. apply then_emits; [|apply (IH [])]. eapply emits_eq; [apply callback_emits|].
      case_bool_decide as Hss; [rewrite Hss|]; cbn; by rewrite ?app_nil_r.
Qed.

Lemma entrefs_pieces l : forall p buf, bytes_ok l -> Forall (fun c => is_control c = false) l ->
  entrefs_loop true (concat (escaped <$> l)) O p buf = Some (p + Z.of_nat (length (concat (escaped <$> l))), buf ++ l).
Proof.
  induction l as [|c l IH]; intros p buf Hok Hc; [cbn; by rewrite Z.add_0_r, app_nil_r|].
  apply Forall_cons in Hok as [Hb Hok]. apply Forall_cons in Hc as [Hc Hl].
  change (concat (escaped <$> c :: l)) with (escaped c ++ concat (escaped <$> l)).
  destruct (escaped_plain c Hb Hc) as (_ & _ & ->). rewrite IH, length_app, <- app_assoc by done. do 2 f_equal. lia.
Qed.

Lemma escaped_run l : bytes_ok l -> Forall (fun c => is_control c = false) l -> l <> [] ->
  Forall plain (concat (escaped <$> l)) /\ concat (escaped <$> l) <> [].
Proof.
  intros Hok Hc Hne. split.
  - clear Hne. induction l as [|c l IH]; [constructor|]. apply Forall_cons in Hok as [Hb Hok]. apply Forall_cons in Hc as [Hc Hl].
    cbn. apply Forall_app. split; [by destruct (escaped_plain c Hb Hc)|by apply IH].
  - destruct l as [|c l]; [done|]. apply Forall_cons in Hok as [Hb _]. apply Forall_cons in Hc as [Hc _].
    destruct (escaped_plain c Hb Hc) as (_ & Hn & _). cbn. intros [E _]%app_eq_nil. done.
Qed.

(** The characters up to the first control character. *)
Lemma split_control l : exists pre post, l = pre ++ post /\ Forall (fun c => is_control c = false) pre /\
  (post = [] \/ exists c post', post = c :: post' /\ is_control c = true).
Proof.
  induction l as [|c l IH]; [exists [], []; split_and!; auto; constructor|].
  destruct (is_control c) eqn:Hc; [exists [], (c :: l); split_and!; [done|constructor|right; by eexists _, _]|].
  destruct IH as (pre & post & -> & Hpre & Hpost). exists (c :: pre), post. split_and!; [done|by constructor|done].
Qed.

Section Characters.
Context (name : list Z) (Hname : name_ok name) (Hnot : Forall (fun n => chars n <> name) control_names).

Lemma control_not_name c : byte_ok c -> is_control c = true -> control_name c <> name.
Proof using Hnot.
  intros Hb Hc. unfold control_name. unfold is_control in Hc. apply andb_true_iff in Hc as [Hc%Z.ltb_lt _].
  destruct (lookup_lt_is_Some_2 control_names (Z.to_nat c)) as [n Hn]; [change (length control_names) with 32%nat; unfold byte_ok in Hb; lia|].
  rewrite Hn. cbn [default from_option]. rewrite Forall_forall in Hnot. by apply Hnot, (list_elem_of_lookup_2 _ (Z.to_nat c)).
Qed.

#[local] Abbreviation general := (xer_decode_general (Some OCTET_STRING__handle_control_chars) OCTET_STRING__convert_entrefs name).

Lemma characters_run fuel : forall l key rest c, bytes_ok l -> (length l < fuel)%nat ->
  general fuel in_body key (concat (escaped <$> l) ++ closing name ++ rest) c =
    Some (RC_OK, c + Z.of_nat (length (concat (escaped <$> l) ++ closing name)), {| xc_phase := 2; xc_context := ST_TEXT |},
          {| os_buf := os_buf key ++ l |}).
Proof using Hname Hnot.
  induction fuel as [|fuel IH]; intros l key rest c Hok Hfuel; [lia|].
  destruct (split_control l) as (pre & post & -> & Hpre & Hpost). apply Forall_app in Hok as [Hok1 Hok2].
  destruct pre as [|x pre].
  - cbn [app] in *. destruct Hpost as [->|(k & post' & -> & Hk)].
    + cbn [fmap list_fmap concat app]. rewrite general_close by done. rewrite app_nil_r. by destruct key.
    + apply Forall_cons in Hok2 as [Hb Hok2]. destruct (escaped_control k Hb Hk) as (Htag & Hnk & Hesc).
      change (concat (escaped <$> k :: post')) with (escaped k ++ concat (escaped <$> post')). rewrite Htag in *. rewrite <- !app_assoc.
      assert (Hd : OCTET_STRING__handle_control_chars (empty_tag (control_name k)) key = Some (0, {| os_buf := os_buf key ++ [k] |})).
      { unfold OCTET_STRING__handle_control_chars. rewrite Hesc. rewrite (proj2 (Z.leb_le 0 k)) by (unfold byte_ok in Hb; lia). done. }
      rewrite (general_tag _ _ name Hname _ (control_name k) OCTET_STRING__handle_control_chars 0 key {| os_buf := os_buf key ++ [k] |});
        [|done|by apply control_not_name|done|exact Hd|lia].
      rewrite IH by (done || (cbn [length] in Hfuel; lia)). cbn [os_buf]. rewrite <- app_assoc, !length_app. do 4 f_equal. lia.
  - destruct (escaped_run (x :: pre) Hok1 Hpre ltac:(discriminate)) as [Hplain Hne].
    rewrite fmap_app, concat_app, <- !app_assoc. set (t := concat (escaped <$> x :: pre)) in *.
    assert (Hbody : OCTET_STRING__convert_entrefs t true key = Some (Z.of_nat (length t), {| os_buf := os_buf key ++ (x :: pre) |})).
    { unfold OCTET_STRING__convert_entrefs. assert (Hl : entrefs_loop true t 0 0 (os_buf key) = Some (0 + Z.of_nat (length t), os_buf key ++ (x :: pre)))
        by (by apply entrefs_pieces). rewrite Hl. apply entrefs_room in Hl as [Hroom _]; [|lia]. cbn [mbind option_bind]. by rewrite within_room by lia. }
    rewrite (general_text _ _ name fuel t key {| os_buf := os_buf key ++ (x :: pre) |}); [|done|done| |done].
    + rewrite IH by (done || (rewrite length_app in Hfuel; cbn [length] in Hfuel; lia)). cbn [os_buf]. rewrite <- app_assoc, !length_app. do 4 f_equal. lia.
    + destruct Hpost as [->|(k & post' & -> & Hk)]; [done|]. apply Forall_cons in Hok2 as [Hb _].
      destruct (escaped_control k Hb Hk) as (Htag & _). cbn. by rewrite Htag.
Qed.

Lemma characters_element l rest : bytes_ok l -> let octets := element name (concat (escaped <$> l)) in
  OCTET_STRING__decode_xer (Some OCTET_STRING__handle_control_chars) OCTET_STRING__convert_entrefs name
    {| xs_value := {| os_buf := [] |}; xs_ctx := fresh_xer |} (octets ++ rest) =
  Some (RC_OK, Z.of_nat (length octets), {| xs_value := {| os_buf := l |}; xs_ctx := {| xc_phase := 2; xc_context := ST_TEXT |} |}).
Proof using Hname Hnot.
  intros Hok octets. unfold OCTET_STRING__decode_xer. cbn [xs_ctx xs_value].
  assert (Hfuel : exists f, general_fuel (octets ++ rest) = S f /\ (length l < f)%nat).
  { exists (length (octets ++ rest)). split; [done|]. unfold octets, element, opening. rewrite !length_app. cbn [length].
    assert (length l <= length (concat (escaped <$> l)))%nat; [|lia].
    clear -Hok. induction Hok as [|c l Hb _ IH]; [done|]. cbn. rewrite length_app.
    assert (escaped c <> []) by (unfold escaped; case_bool_decide; done). destruct (escaped c); [done|]. cbn. lia. }
  destruct Hfuel as (f & -> & Hf). unfold octets, element. rewrite <- !app_assoc, general_open, characters_run by done.
  cbn [mbind option_bind os_buf app]. rewrite !length_app. do 3 f_equal. lia.
Qed.
End Characters.

(** ** The contract *)

Definition string_dom (st : OCTET_STRING_t) : Prop := bytes_ok (os_buf st).

(** Texts read by a receiver of whole texts. *)
Lemma whole_text_element {A} (body : list Z -> bool -> A -> option (Z * A)) name a a' text rest :
  name_ok name -> Forall plain text -> (text = [] -> a' = a) -> (text <> [] -> body text true a = Some (Z.of_nat (length text), a')) ->
  OCTET_STRING__decode_xer None body name {| xs_value := a; xs_ctx := fresh_xer |} (element name text ++ rest) =
  Some (RC_OK, Z.of_nat (length (element name text)), {| xs_value := a'; xs_ctx := {| xc_phase := 2; xc_context := ST_TEXT |} |}).
Proof.
  intros Hname Hplain Hnil Hbody. unfold OCTET_STRING__decode_xer. cbn [xs_ctx xs_value]. by rewrite (element_decode _ _ name Hname text a a').
Qed.

Section Laws.
Context (tag : list Z).

Definition octet_string_xer_laws : @XerTypeLaws OCTET_STRING_t (OCTET_STRING_xer tag).
Proof.
  refine (@Build_XerTypeLaws OCTET_STRING_t (OCTET_STRING_xer tag) string_dom (fun _ => True) (fun _ st => st) hex_xer_text _ _ _ (fun _ _ _ _ => eq_refl)).
  - intros S C A st ilevel canonical _. apply hex_emits.
  - intros st ilevel canonical opt_mname rest Hok name Hname _. pose proof (hex_xer_words st ilevel canonical) as Hw.
    set (text := hex_xer_text st ilevel canonical) in *. unfold string_dom in Hok.
    exists {| xs_value := st; xs_ctx := {| xc_phase := 2; xc_context := ST_TEXT |} |}. split; [|reflexivity].
    change (('(code, n, x) ← OCTET_STRING__decode_xer None OCTET_STRING__convert_hexadecimal name {| xs_value := {| os_buf := [] |}; xs_ctx := fresh_xer |}
      (element name text ++ rest); Some (code, n, Some x)) = Some (RC_OK, Z.of_nat (length (element name text)),
      Some {| xs_value := st; xs_ctx := {| xc_phase := 2; xc_context := ST_TEXT |} |})).
    rewrite (whole_text_element _ name _ st); [reflexivity|done| | |].
    + eapply words_plain; [|exact Hw]. intros b Hb. apply hex_pair_plain. exact (proj1 (Forall_forall _ _) Hok b Hb).
    + intros E. apply words_empty in Hw; [|discriminate|done]. destruct st as [l]. cbn in Hw. by subst l.
    + intros _. unfold OCTET_STRING__convert_hexadecimal. cbn [os_buf].
      destruct (hexadecimal_words _ _ Hw Hok [] 0 0 0) as (clv & stop & Hl). rewrite Hl. apply hexadecimal_room in Hl as [Hroom _]; [|lia].
      rewrite within_room; [by destruct st|]. cbn [length app Z.b2z] in *. Z.div_mod_to_equations. lia.
  - intros st ilevel canonical Hd. split; [exact Hd|reflexivity].
Defined.

Definition utf8_string_xer_laws : @XerTypeLaws OCTET_STRING_t (utf8_string_xer tag).
Proof.
  refine (@Build_XerTypeLaws OCTET_STRING_t (utf8_string_xer tag) string_dom (fun name => Forall (fun n => chars n <> name) control_names)
    (fun _ st => st) (fun st _ _ => utf8_xer_text st) _ _ _ (fun _ _ _ _ => eq_refl)).
  - intros S C A st ilevel canonical _. apply (escape_loop_emits (os_buf st) []).
  - intros st ilevel canonical opt_mname rest Hok name Hname Hnot. unfold utf8_xer_text.
    exists {| xs_value := st; xs_ctx := {| xc_phase := 2; xc_context := ST_TEXT |} |}. split; [|reflexivity].
    set (text := concat (escaped <$> os_buf st)).
    change (('(code, n, x) ← OCTET_STRING__decode_xer (Some OCTET_STRING__handle_control_chars) OCTET_STRING__convert_entrefs name
      {| xs_value := {| os_buf := [] |}; xs_ctx := fresh_xer |} (element name text ++ rest); Some (code, n, Some x)) =
      Some (RC_OK, Z.of_nat (length (element name text)), Some {| xs_value := st; xs_ctx := {| xc_phase := 2; xc_context := ST_TEXT |} |})).
    unfold text. rewrite characters_element by done. by destruct st.
  - intros st ilevel canonical Hd. split; [exact Hd|reflexivity].
Defined.

Lemma binary_text_norm st ilevel canonical : bs_valid st ->
  bs_valid (bit_string (bs_bits st)) /\ binary_xer_text (bit_string (bs_bits st)) ilevel canonical = binary_xer_text st ilevel canonical.
Proof.
  intros (Hok & Hu & Hempty). destruct st as [buf u]. cbn [bs_buf bits_unused] in *. destruct buf as [|b l _] using rev_ind.
  { rewrite (Hempty eq_refl). split; [|reflexivity]. split; [apply bytes_ok_nil|]. split; [change (0 <= 0 <= 7); lia|done]. }
  apply Forall_app in Hok as [Hok [Hb _]%Forall_cons]. destruct (mask_byte b u Hb Hu) as (H1 & _ & H3).
  assert (Hm : byte_ok ((b ≫ u) ≪ u)).
  { rewrite <- H1. unfold u8, byte_ok. change (2 ^ 8) with 256. apply Z.mod_pos_bound. lia. }
  assert (Hst : bit_string (bs_bits {| bs_buf := l ++ [b]; bits_unused := u |}) = {| bs_buf := l ++ [(b ≫ u) ≪ u]; bits_unused := u |}).
  { unfold bit_string. rewrite <- packed_masked by done. f_equal. unfold bs_bits. cbn [bs_buf bits_unused].
    rewrite length_take, length_bytes_bits, length_app. cbn [length]. Z.div_mod_to_equations. lia. }
  rewrite Hst. split; [split; [|split; [exact Hu|]]|]; cbn [bs_buf bits_unused].
  - apply bytes_ok_app; [done|]. by apply bytes_ok_cons; [|apply bytes_ok_nil].
  - intros E. by apply app_eq_nil in E as [_ E].
  - unfold binary_xer_text, binary_rest. cbn [bs_buf bits_unused]. rewrite !removelast_last, !last_snoc, !last_pattern_ok, H3 by done.
    rewrite take_app_le, take_take, Nat.min_id; [done|]. rewrite length_take. unfold byte_bits. rewrite length_val_bits. lia.
Qed.

Definition bit_string_xer_laws : @XerTypeLaws BIT_STRING_t (BIT_STRING_xer tag).
Proof.
  refine (@Build_XerTypeLaws BIT_STRING_t (BIT_STRING_xer tag) bs_valid (fun _ => True) (fun _ st => bit_string (bs_bits st)) binary_xer_text _ _ _ _).
  - intros S C A st ilevel canonical _. apply binary_emits.
  - intros st ilevel canonical opt_mname rest Hok name Hname _. pose proof (binary_xer_words st ilevel canonical Hok) as Hw.
    set (text := binary_xer_text st ilevel canonical) in *. set (st' := bit_string (bs_bits st)).
    exists {| xs_value := st'; xs_ctx := {| xc_phase := 2; xc_context := ST_TEXT |} |}. split; [|reflexivity].
    change (('(code, n, x) ← OCTET_STRING__decode_xer None OCTET_STRING__convert_binary name
      {| xs_value := {| bs_buf := []; bits_unused := 0 |}; xs_ctx := fresh_xer |}
      (element name text ++ rest); Some (code, n, Some x)) = Some (RC_OK, Z.of_nat (length (element name text)),
      Some {| xs_value := st'; xs_ctx := {| xc_phase := 2; xc_context := ST_TEXT |} |})).
    rewrite (whole_text_element _ name _ st'); [reflexivity|done| | |].
    + eapply words_plain; [|exact Hw]. intros b _. by destruct b; repeat constructor.
    + intros E. apply words_empty in Hw; [|discriminate|done]. unfold st'. by rewrite Hw.
    + intros _. by apply convert_binary_ok.
  - intros st ilevel canonical Hd. by apply binary_text_norm.
  - intros st i j _. apply binary_text_canonical.
Defined.
End Laws.

(** ** Any octets *)

Section Any.
Context {strings : bool} {A : Type} (Inv : A -> Prop) (tag_decoder : option (list Z -> A -> option (Z * A)))
  (body : list Z -> bool -> A -> option (Z * A)).
Context (Htag : forall d, tag_decoder = Some d -> forall chunk key, exists n key', d chunk key = Some (n, key') /\ (Inv key -> Inv key')).
Context (Hbody : forall chunk more key, Inv key -> readable strings chunk -> exists n key', body chunk more key = Some (n, key') /\
    (n <> -1 -> Inv key') /\ (n = -1 \/ 0 <= n <= Z.of_nat (length chunk) /\ (more = true -> n = Z.of_nat (length chunk)))).

Lemma decode_xer_any name st buf : Inv (xs_value st) -> readable strings buf ->
  exists code n st', OCTET_STRING__decode_xer tag_decoder body name st buf = Some (code, n, st') /\ 0 <= n <= Z.of_nat (length buf) /\
    (code = RC_OK -> 0 < n) /\ (code <> RC_FAIL -> Inv (xs_value st')).
Proof using Htag Hbody.
  intros Hinv Hok. unfold OCTET_STRING__decode_xer.
  destruct (general_any strings Inv tag_decoder body Hbody) with (name := name) (fuel := general_fuel buf) (ctx := xs_ctx st) (key := xs_value st) (buf := buf)
    (consumed := 0) as (code & c & ctx & a & -> & Hc & Hlt & Hi); [|exact Hinv|exact Hok|unfold general_fuel; lia|].
  - destruct tag_decoder as [d|]; [|done]. intros chunk key Hk _ _. destruct (Htag d eq_refl chunk key) as (n & key' & H & Hi). exists n, key'. auto.
  - cbn [mbind option_bind]. eexists _, _, _. split; [done|]. split; [lia|]. split; [exact Hlt|exact Hi].
Qed.

Definition string_xer_total tag (fresh : A) encode (Hfresh : Inv fresh) : @XerTotal strings A (string_xer tag_decoder body tag fresh encode).
Proof using Htag Hbody.
  refine (@Build_XerTotal strings A (string_xer tag_decoder body tag fresh encode) (fun _ (st : xer_string A) => Inv (xs_value st)) _).
  intros opt_mname st buf Hinv Hok. set (st0 := default {| xs_value := fresh; xs_ctx := fresh_xer |} st).
  assert (Hst0 : Inv (xs_value st0)) by (by destruct st).
  destruct (decode_xer_any (default tag opt_mname) st0 buf Hst0 Hok) as (code & n & st' & Hd & Hn & Hpos & Hi).
  exists code, n, (Some st'). split; [|split; [exact Hn|split; [intros E; split; [by apply Hpos|by eexists]|exact Hi]]].
  change (('(c, n, s) ← OCTET_STRING__decode_xer tag_decoder body (default tag opt_mname) st0 buf; Some (c, n, Some s)) = Some (code, n, Some st')).
  by rewrite Hd.
Defined.
End Any.

Lemma no_tags {A} (Inv : A -> Prop) : forall d : list Z -> A -> option (Z * A), None = Some d ->
  forall chunk key, exists n key', d chunk key = Some (n, key') /\ (Inv key -> Inv key').
Proof. done. Qed.

Lemma hexadecimal_receiver strings chunk more (st : OCTET_STRING_t) : True -> readable strings chunk ->
  exists n st', OCTET_STRING__convert_hexadecimal chunk more st = Some (n, st') /\ (n <> -1 -> True) /\
    (n = -1 \/ 0 <= n <= Z.of_nat (length chunk) /\ (more = true -> n = Z.of_nat (length chunk))).
Proof. intros _ _. destruct (convert_hexadecimal_any chunk more st) as (n & st' & H & Hn). by exists n, st'. Qed.

Lemma binary_receiver strings chunk more (st : BIT_STRING_t) : binary_ready st -> readable strings chunk ->
  exists n st', OCTET_STRING__convert_binary chunk more st = Some (n, st') /\ (n <> -1 -> binary_ready st') /\
    (n = -1 \/ 0 <= n <= Z.of_nat (length chunk) /\ (more = true -> n = Z.of_nat (length chunk))).
Proof.
  intros Hst _. destruct (convert_binary_room chunk more st Hst) as (n & st' & H & Hi & Hn). exists n, st'. split; [exact H|]. split; [exact Hi|].
  destruct Hn as [->| ->]; [by left|right; split; [lia|done]].
Qed.

Lemma entrefs_receiver chunk more (st : OCTET_STRING_t) : True -> readable true chunk ->
  exists n st', OCTET_STRING__convert_entrefs chunk more st = Some (n, st') /\ (n <> -1 -> True) /\
    (n = -1 \/ 0 <= n <= Z.of_nat (length chunk) /\ (more = true -> n = Z.of_nat (length chunk))).
Proof. intros _ [_ Hz]. destruct (convert_entrefs_any chunk more st (Hz eq_refl)) as (n & st' & H & Hn). by exists n, st'. Qed.

Lemma control_chars_answer d : Some OCTET_STRING__handle_control_chars = Some d -> forall chunk key, exists n key',
  d chunk key = Some (n, key') /\ (True -> True).
Proof. intros [= <-] chunk key. unfold OCTET_STRING__handle_control_chars. destruct (0 <=? _); by eexists _, _. Qed.

Definition octet_string_xer_total {strings} tag : @XerTotal strings OCTET_STRING_t (OCTET_STRING_xer tag) :=
  string_xer_total (fun _ => True) None _ (no_tags _) (hexadecimal_receiver strings) tag _ _ I.
Definition bit_string_xer_total {strings} tag : @XerTotal strings BIT_STRING_t (BIT_STRING_xer tag) :=
  string_xer_total binary_ready None _ (no_tags _) (binary_receiver strings) tag {| bs_buf := []; bits_unused := 0 |} _ (or_introl eq_refl).

(** Characters, where no reference to zero is among the octets. *)
Definition utf8_string_xer_total tag : @XerTotal true OCTET_STRING_t (utf8_string_xer tag) :=
  string_xer_total (fun _ => True) _ _ control_chars_answer entrefs_receiver tag _ _ I.

(** ** Properties *)

(** C40: Strings survive as XML.  The octets of an OCTET STRING, printed as
    hexadecimal digits, in lines when they are many; the bits of a BIT STRING,
    printed as zeros and ones; and the characters of a string, with '&', '<'
    and '>' as entity references and control characters as empty tags: what
    [xer_encode] writes is read back by [xer_decode], which takes exactly the
    element.  The unused bits of a BIT STRING come back as zeros.  An element
    of characters cannot be called like a control character. *)
Theorem string_xer_roundtrip (tag : list Z) (st : OCTET_STRING_t) (bs : BIT_STRING_t) :
  name_ok tag -> string_dom st ->
  xer_survives (OCTET_STRING_xer tag) st st /\
  (Forall (fun n => chars n <> tag) control_names -> xer_survives (utf8_string_xer tag) st st) /\
  (bs_valid bs -> xer_survives (BIT_STRING_xer tag) bs (bit_string (bs_bits bs))).
Proof.
  intros Htag Hst. split; [|split].
  - exact (lawful_survives _ (octet_string_xer_laws tag) st Htag I Hst).
  - intros Hnot. exact (lawful_survives _ (utf8_string_xer_laws tag) st Htag Hnot Hst).
  - intros Hbs. exact (lawful_survives _ (bit_string_xer_laws tag) bs Htag I Hbs).
Qed.

Lemma string_xer_roundtrip_witness :
  xer_survives (OCTET_STRING_xer (chars "octets")) {| os_buf := [0; 38; 255] |} {| os_buf := [0; 38; 255] |} /\
  xer_survives (utf8_string_xer (chars "octets")) {| os_buf := [0; 38; 255] |} {| os_buf := [0; 38; 255] |} /\
  xer_survives (BIT_STRING_xer (chars "octets")) {| bs_buf := [255]; bits_unused := 5 |} (bit_string [true; true; true]).
Proof.
  assert (Htag : name_ok (chars "octets")) by (split; [by exists 111|by repeat constructor]).
  assert (Hst : string_dom {| os_buf := [0; 38; 255] |}) by (repeat (apply bytes_ok_cons; [unfold byte_ok; lia|]); apply bytes_ok_nil).
  assert (Hnot : Forall (fun n => chars n <> chars "octets") control_names) by (repeat constructor; discriminate).
  assert (Hbs : bs_valid {| bs_buf := [255]; bits_unused := 5 |}).
  { split; [apply bytes_ok_cons; [unfold byte_ok; lia|apply bytes_ok_nil]|]. split; [cbn; lia|discriminate]. }
  destruct (string_xer_roundtrip (chars "octets") {| os_buf := [0; 38; 255] |} {| bs_buf := [255]; bits_unused := 5 |} Htag Hst) as (H1 & H2 & H3).
  split; [exact H1|]. split; [exact (H2 Hnot)|exact (H3 Hbs)].
Defined.

(** A reference to the character zero, or to no number at all, fails the
    assertion. *)
Example zero_reference_aborts :
  let X := utf8_string_xer (chars "s") in
  xer_decode None (chars "<s>&#0;</s>") = None /\ xer_decode None (chars "<s>&#;</s>") = None /\
  (fst ∘ fst <$> xer_decode None (chars "<s>&#1;</s>")) = Some RC_OK.
Proof. split_and!; vm_compute; reflexivity. Qed.

(** What a text that failed has left: two bits to fill and no octet to fill
    them in.  Seven more bits do not fit, and the assertion on the size fails. *)
Example failed_bits_abort :
  let X := BIT_STRING_xer (chars "b") in
  exists n st, xer_decode None (chars "<b>100110!</b>") = Some (RC_FAIL, n, Some st) /\ bs_buf (xer_value st) = [] /\
    bits_unused (xer_value st) = 2 /\ xer_decode (Some st) (chars "1111111</b>") = None.
Proof. eexists _, _. split; [vm_compute; reflexivity|]. split_and!; vm_compute; reflexivity. Qed.

(** Letters are digits of a decimal reference. *)
Example decimal_reference_letters :
  OCTET_STRING__convert_entrefs (chars "&#A5;") true {| os_buf := [] |} = Some (5, {| os_buf := [105] |}).
Proof. vm_compute. reflexivity. Qed.

(** With nine octets the last line break comes before the line it ends. *)
Example ninth_octet_layout :
  binary_xer_text {| bs_buf := [0; 0; 0; 0; 0; 0; 0; 0; 255]; bits_unused := 0 |} 0 false =
  [10; 10] ++ replicate 64 48 ++ replicate 8 49 ++ [10].
Proof. vm_compute. reflexivity. Qed.
