(* ===== verification/XerFrame.v ===== *)
(** * What the XER codecs of constructed types share (support/constr_SET_OF.c,
    constr_SEQUENCE.c, constr_CHOICE.c)

    The context of the decoders, the fetching of the next tag past free text
    and comments, and a member printed as an element. *)
From S2P Require Import Prelude Consumer PerCodec IntegerXer Xer.
#[local] Open Scope Z_scope.

(** ** The context *)

(** asn_struct_ctx_t, and the buffer with what has been taken of it. *)
Record xer_frame := {
  xf_phase : Z;
  xf_step : Z;
  xf_left : Z;
  xf_context : pstate;
  xf_consumed : Z;
  xf_buf : list Z
}.
Implicit Types f : xer_frame.

Definition XER_ADVANCE (num_bytes : Z) f : xer_frame :=
  {| xf_phase := xf_phase f; xf_step := xf_step f; xf_left := xf_left f; xf_context := xf_context f;
     xf_consumed := xf_consumed f + num_bytes; xf_buf := drop (Z.to_nat num_bytes) (xf_buf f) |}.
Definition phase_to (phase : Z) f : xer_frame :=
  {| xf_phase := phase; xf_step := xf_step f; xf_left := xf_left f; xf_context := xf_context f;
     xf_consumed := xf_consumed f; xf_buf := xf_buf f |}.
Definition step_to (step : Z) f : xer_frame :=
  {| xf_phase := xf_phase f; xf_step := step; xf_left := xf_left f; xf_context := xf_context f;
     xf_consumed := xf_consumed f; xf_buf := xf_buf f |}.
Definition left_to (left : Z) f : xer_frame :=
  {| xf_phase := xf_phase f; xf_step := xf_step f; xf_left := left; xf_context := xf_context f;
     xf_consumed := xf_consumed f; xf_buf := xf_buf f |}.
Definition context_to (context : pstate) f : xer_frame :=
  {| xf_phase := xf_phase f; xf_step := xf_step f; xf_left := xf_left f; xf_context := context;
     xf_consumed := xf_consumed f; xf_buf := xf_buf f |}.

(** The context between two calls. *)
Record xer_saved := { xv_phase : Z; xv_step : Z; xv_left : Z; xv_context : pstate }.
Definition zeroed_context : xer_saved := {| xv_phase := 0; xv_step := 0; xv_left := 0; xv_context := ST_TEXT |}.
Definition saved f : xer_saved :=
  {| xv_phase := xf_phase f; xv_step := xf_step f; xv_left := xf_left f; xv_context := xf_context f |}.
Definition resumed (v : xer_saved) (buf : list Z) : xer_frame :=
  {| xf_phase := xv_phase v; xf_step := xv_step v; xf_left := xv_left v; xf_context := xv_context v; xf_consumed := 0; xf_buf := buf |}.

(** The next part of the stream: a return, free text or a comment taken, or a
    tag, which is not taken yet. *)
Inductive part := Part_return (code : asn_dec_rval_code) | Part_skip f | Part_tag (chunk : list Z) f.

Definition next_part f : option part :=
  '(ch_size, ch_type, context) ← xer_next_token (xf_context f) (xf_buf f);
  let f := context_to context f in
  Some (if ch_size =? -1 then Part_return RC_FAIL else
        match ch_type with
        | PXER_WMORE => Part_return RC_WMORE
        | PXER_COMMENT | PXER_TEXT => Part_skip (XER_ADVANCE ch_size f)
        | PXER_TAG => Part_tag (take (Z.to_nat ch_size) (xf_buf f)) f
        end).

(** How a decoder goes on after a tag. *)
Inductive on_tag := Again f | Leave (code : asn_dec_rval_code) f.

(** Whether the form of a tag has the bit of a closing one. *)
Definition closing_bit (form : tag_form) : bool := match form with OPENING => false | CLOSING | BOTH => true end.

(** ** Members as elements *)

Section Members.
Context {S : Type} `{Consumer S}.

Definition fail_emitter : emitter S := fun key => Some (-1, key).

(** A new line unless the encoding is canonical. *)
Definition new_line (canonical : bool) (level : Z) : emitter S := if canonical then emit_nothing else TEXT_INDENT true level.

Definition xer_member (canonical : bool) (ilevel : Z) (mname : list Z) (member : emitter S) : emitter S :=
  and_then (new_line canonical ilevel) (and_then (callback (open_tag mname)) (and_then member (callback (close_tag mname)))).
End Members.

(** ** Lemmas: output *)

Definition line (canonical : bool) (level : Z) : list Z := if canonical then [] else indent true level.
Definition member_text (canonical : bool) (ilevel : Z) (mname text : list Z) : list Z := line canonical ilevel ++ element mname text.

Section Emits.
Context {S : Type} `{HC : Consumer S} `{HA : !AppendConsumer S}.

Lemma new_line_emits canonical level : emits (S := S) (new_line canonical level) (line canonical level).
Proof. destruct canonical; [apply nothing_emits|apply indent_emits]. Qed.

Lemma member_emits canonical ilevel mname (member : emitter S) text : emits member text ->
  emits (xer_member canonical ilevel mname member) (member_text canonical ilevel mname text).
Proof.
  intros Hm. unfold xer_member, member_text, element. apply then_emits; [apply new_line_emits|].
  eapply emits_eq; [apply then_emits; [apply callback_emits|apply then_emits; [exact Hm|apply callback_emits]]|].
  unfold opening, closing, open_tag, close_tag. cbn. by rewrite <- ?app_assoc.
Qed.
End Emits.

(** ** Lemmas: input *)

Lemma take_chunk (t rest : list Z) : take (Z.to_nat (Z.of_nat (length t))) (t ++ rest) = t.
Proof. by rewrite Nat2Z.id, take_app_length. Qed.

Lemma drop_chunk (t rest : list Z) : drop (Z.to_nat (Z.of_nat (length t))) (t ++ rest) = rest.
Proof. by rewrite Nat2Z.id, drop_app_length. Qed.

(** The frame when [t] of its buffer has been taken. *)
Definition past (t rest : list Z) f : xer_frame :=
  {| xf_phase := xf_phase f; xf_step := xf_step f; xf_left := xf_left f; xf_context := ST_TEXT;
     xf_consumed := xf_consumed f + Z.of_nat (length t); xf_buf := rest |}.

Section Parts.
Context f (Hcontext : xf_context f = ST_TEXT).

Lemma part_text t rest : t <> [] -> Forall plain t -> xf_buf f = t ++ rest -> head rest = Some 60 ->
  next_part f = Some (Part_skip (past t rest f)).
Proof using Hcontext.
  intros Hne Ht Hbuf Hrest. unfold next_part. rewrite Hcontext, Hbuf, next_text by (done || by right).
  cbn [mbind option_bind]. rewrite (proj2 (Z.eqb_neq _ (-1))) by lia. unfold XER_ADVANCE, past. cbn. rewrite Hbuf, drop_chunk. done.
Qed.

Lemma part_line canonical level rest : xf_buf f = line canonical level ++ rest -> head rest = Some 60 -> line canonical level <> [] ->
  next_part f = Some (Part_skip (past (line canonical level) rest f)).
Proof using Hcontext.
  intros Hbuf Hrest Hne. apply part_text; [done| |done|done].
  destruct canonical; [done|]. unfold line, indent. apply Forall_app. split; [by repeat constructor|].
  apply Forall_concat, Forall_replicate. by repeat constructor.
Qed.

Lemma part_opening name rest : name_ok name -> xf_buf f = opening name ++ rest ->
  next_part f = Some (Part_tag (opening name) (context_to ST_TEXT f)).
Proof using Hcontext.
  intros Hname Hbuf. unfold next_part. rewrite Hcontext, Hbuf, next_opening by done. cbn [mbind option_bind].
  rewrite (proj2 (Z.eqb_neq _ (-1))) by lia. cbn [context_to xf_buf]. by rewrite Hbuf, take_chunk.
Qed.

Lemma part_closing name rest : name_ok name -> xf_buf f = closing name ++ rest ->
  next_part f = Some (Part_tag (closing name) (context_to ST_TEXT f)).
Proof using Hcontext.
  intros Hname Hbuf. unfold next_part. rewrite Hcontext, Hbuf, next_closing by done. cbn [mbind option_bind].
  rewrite (proj2 (Z.eqb_neq _ (-1))) by lia. cbn [context_to xf_buf]. by rewrite Hbuf, take_chunk.
Qed.
End Parts.

(** In some phase in front of some text. *)
Definition standing (phase : Z) (buf : list Z) f : Prop := xf_phase f = phase /\ xf_context f = ST_TEXT /\ xf_buf f = buf.

(** A new line is passed over in one round of a loop. *)
Lemma skip_line {R} (run : nat -> xer_frame -> R) phase canonical level rest fuel f :
  (forall fuel f f' buf, standing phase buf f -> next_part f = Some (Part_skip f') -> run (S fuel) f = run fuel f') ->
  (1 <= fuel)%nat -> standing phase (line canonical level ++ rest) f -> head rest = Some 60 ->
  exists f' fuel', standing phase rest f' /\ xf_step f' = xf_step f /\
    xf_consumed f' = xf_consumed f + Z.of_nat (length (line canonical level)) /\ (fuel <= S fuel')%nat /\ run fuel f = run fuel' f'.
Proof.
  intros Hround Hfuel Hf Hrest. pose proof Hf as (Hp & Hc & Hb). destruct (decide (line canonical level = [])) as [E|E].
  - exists f, fuel. rewrite E in Hb |- *. cbn in Hb |- *. rewrite Z.add_0_r. do 3 (split; [done|]). split; [lia|done].
  - destruct fuel as [|fuel]; [lia|]. exists (past (line canonical level) rest f), fuel. do 3 (split; [done|]). split; [lia|].
    eapply Hround; [exact Hf|]. by apply part_line.
Qed.

(** Whatever is in the buffer. *)
Lemma part_any f : exists p, next_part f = Some p /\
  match p with
  | Part_return code => code <> RC_OK
  | Part_skip f' => exists n context, 0 < n <= Z.of_nat (length (xf_buf f)) /\ f' = XER_ADVANCE n (context_to context f)
  | Part_tag chunk f' => 0 < Z.of_nat (length chunk) <= Z.of_nat (length (xf_buf f)) /\ exists context, f' = context_to context f
  end.
Proof.
  unfold next_part. destruct (next_token_any (xf_context f) (xf_buf f)) as (size & type & context & -> & [(-> & -> & ->)|[Htype Hsize]]);
    cbn [mbind option_bind]; [by eexists|].
  rewrite (proj2 (Z.eqb_neq size (-1))) by lia. destruct type; [done|eexists; split; [done|]..].
  - cbn [context_to xf_buf]. rewrite length_take. split; [lia|by eexists].
  - by exists size, context.
  - by exists size, context.
Qed.

(** ** Progress

    A round of the loops takes a character or goes inside a member, and a
    member takes one. *)
Definition frame_measure f : nat := (2 * length (xf_buf f) + if (xf_phase f =? 2)%Z then 0 else 1)%nat.

(** Between two frames only characters are taken. *)
Definition moved f g : Prop :=
  xf_consumed f <= xf_consumed g /\
  xf_consumed g + Z.of_nat (length (xf_buf g)) = xf_consumed f + Z.of_nat (length (xf_buf f)) /\
  exists n, xf_buf g = drop n (xf_buf f).

Definition progress f (r : on_tag) : Prop :=
  match r with
  | Again g => moved f g /\ (frame_measure g < frame_measure f)%nat
  | Leave code g => moved f g /\ (code = RC_OK -> xf_consumed f < xf_consumed g)
  end.

Lemma moved_refl f : moved f f.
Proof. split; [lia|]. split; [lia|by exists O]. Qed.

Lemma moved_readable strings f g : moved f g -> readable strings (xf_buf f) -> readable strings (xf_buf g).
Proof. intros (_ & _ & n & ->). apply readable_drop. Qed.

Lemma moved_trans f g h : moved f g -> moved g h -> moved f h.
Proof.
  intros (H1 & H2 & n & H3) (H4 & H5 & k & H6). split; [lia|]. split; [lia|]. exists (n + k)%nat. by rewrite H6, H3, drop_drop.
Qed.

Lemma moved_advance n f : 0 <= n <= Z.of_nat (length (xf_buf f)) -> moved f (XER_ADVANCE n f).
Proof. intros Hn. unfold moved. cbn. rewrite length_drop. split; [lia|]. split; [lia|by eexists]. Qed.

(** A tag taken of the same buffer. *)
Lemma moved_taken size f g : 0 <= size <= Z.of_nat (length (xf_buf f)) -> xf_consumed g = xf_consumed f -> xf_buf g = xf_buf f ->
  moved f (XER_ADVANCE size g).
Proof. intros Hs Hc Hb. unfold moved. cbn. rewrite Hc, Hb, length_drop. split; [lia|]. split; [lia|by eexists]. Qed.

Lemma moved_same f g : xf_consumed g = xf_consumed f -> xf_buf g = xf_buf f -> moved f g.
Proof. intros Hc Hb. unfold moved. rewrite Hc, Hb. split; [lia|]. split; [lia|by exists O]. Qed.

Lemma moved_phase phase f g : moved f g -> moved f (phase_to phase g).
Proof. done. Qed.

Lemma moved_context context f : moved f (context_to context f).
Proof. exact (moved_refl f). Qed.

(** A tag taken, with the buffer otherwise untouched. *)
Lemma progress_taken size f g : 0 < size <= Z.of_nat (length (xf_buf f)) -> xf_phase f <> 2 ->
  xf_consumed g = xf_consumed f -> xf_buf g = xf_buf f -> progress f (Again (XER_ADVANCE size g)).
Proof.
  intros Hs Hp Hc Hb. split.
  - apply moved_taken; (done || lia).
  - unfold frame_measure. cbn [XER_ADVANCE xf_buf xf_phase]. rewrite Hb, length_drop, (proj2 (Z.eqb_neq (xf_phase f) 2)) by done. case_match; lia.
Qed.

(** How a decoder answers from a frame on; what it leaves after a failure is
    not used again. *)
Definition answers {X} (Inv : X -> Prop) f (r : option (asn_dec_rval_code * Z * X)) : Prop :=
  exists code n st, r = Some (code, n, st) /\ xf_consumed f <= n <= xf_consumed f + Z.of_nat (length (xf_buf f)) /\
    (code = RC_OK -> xf_consumed f < n) /\ (code <> RC_FAIL -> Inv st).

Lemma answers_moved {X} (Inv : X -> Prop) f g r : moved f g -> answers Inv g r -> answers Inv f r.
Proof.
  intros (H1 & H2 & _) (code & n & st & -> & Hn & Hc & Hi). exists code, n, st. split; [done|]. split; [lia|]. split; [|done].
  intros E. specialize (Hc E). lia.
Qed.

Lemma answers_return {X} (Inv : X -> Prop) f g code st : moved f g -> (code = RC_OK -> xf_consumed f < xf_consumed g) ->
  (code <> RC_FAIL -> Inv st) -> answers Inv f (Some (code, xf_consumed g, st)).
Proof. intros (H1 & H2 & _) Hc Hi. exists code, (xf_consumed g), st. split; [done|]. split; [lia|done]. Qed.

(** The names of members, one after the other: the first that is opened by the
    tag, or the check that ended the search. *)
Fixpoint search_names (chunk : list Z) (names : list (list Z)) (n : Z) (tcv : xer_check_tag_e) : option Z * xer_check_tag_e :=
  match names with
  | [] => (None, tcv)
  | name :: names =>
    match xer_check_tag chunk (Some name) with
    | XCT true BOTH => (Some n, XCT true BOTH)
    | XCT true OPENING => (Some n, XCT true OPENING)
    | XCT false OPENING => search_names chunk names (n + 1) (XCT false OPENING)
    | XCT false BOTH => search_names chunk names (n + 1) (XCT false BOTH)
    | tcv => (None, tcv)
    end
  end.

(** Whether a tag opens nothing: tcv & XCT_CLOSING. *)
Definition tcv_closes (tcv : xer_check_tag_e) : bool := match tcv with XCT _ form => closing_bit form | XCT_BROKEN => false end.

Lemma search_finds names : forall k n name tcv, names !! k = Some name -> Forall name_ok names -> NoDup names ->
  search_names (opening name) names n tcv = (Some (n + Z.of_nat k), XCT true OPENING).
Proof.
  induction names as [|x names IH]; intros [|k] n name tcv Hk Hok Hdup; [done..| |]; apply Forall_cons in Hok as [Hx Hok];
    apply NoDup_cons in Hdup as [Hnot Hdup]; cbn [search_names].
  - injection Hk as ->. rewrite check_opening, bool_decide_true by done. by rewrite Z.add_0_r.
  - cbn in Hk. assert (Hin : name ∈ names) by (by eapply list_elem_of_lookup_2).
    assert (Hname : name_ok name) by (rewrite Forall_forall in Hok; auto).
    rewrite check_opening, bool_decide_false by (done || congruence). rewrite (IH k) by done. do 2 f_equal. lia.
Qed.

Lemma search_bound chunk names : forall n tcv k tcv', search_names chunk names n tcv = (Some k, tcv') ->
  n <= k < n + Z.of_nat (length names).
Proof.
  induction names as [|name names IH]; intros n tcv k tcv'; cbn [search_names length]; [done|].
  destruct (xer_check_tag chunk (Some name)) as [|[] []]; try done; (intros [= <- _]; lia) || (intros H%IH; lia).
Qed.
