(* ===== verification/XerSetOf.v ===== *)
(** * SEQUENCE OF and SET OF in XER (support/constr_SET_OF.c,
    constr_SEQUENCE_OF.c)

    The elements one behind the other inside the element of the list; in
    canonical text those of a SET OF are sorted.  The decoder serves both
    types: a state machine that stops when characters are missing and goes on
    with the context it left in the structure. *)
From stdpp Require Import sorting.
From S2P Require Import Prelude Consumer PerCodec AsnInteger SequenceOf SetOf IntegerXer Xer XerPrim XerFrame.
#[local] Open Scope Z_scope.

(** ** Printing *)

(** xer_tmp_enc_t: the text of an element and the room there is for it. *)
Record xer_tmp_enc := { te_buffer : list Z; te_size : Z }.
Definition empty_enc : xer_tmp_enc := {| te_buffer := []; te_size := 0 |}.

Definition SET_OF_encode_xer_callback (d : list Z) (t : xer_tmp_enc) : Z * xer_tmp_enc :=
  let size := Z.of_nat (length d) in
  (0, {| te_buffer := te_buffer t ++ d;
         te_size := if te_size t <=? Z.of_nat (length (te_buffer t)) + size then (te_size t ≪ 2) + size else te_size t |}).

#[export] Instance xer_tmp_consumer : Consumer xer_tmp_enc := SET_OF_encode_xer_callback.
#[export] Instance xer_tmp_append : AppendConsumer xer_tmp_enc.
Proof. by exists te_buffer. Defined.

Definition SET_OF_xer_order (a b : xer_tmp_enc) : Z :=
  let a_offset := length (te_buffer a) in
  let b_offset := length (te_buffer b) in
  let minlen := if (b_offset <? a_offset)%nat then b_offset else a_offset in
  let ret := memcmp (te_buffer a) (te_buffer b) in
  if negb (ret =? 0) then ret
  else if (a_offset =? b_offset)%nat then 0
  else if (a_offset =? minlen)%nat then -1 else 1.

Section Lists.
(** asn_SET_OF_specifics_t's as_XMLValueList and the name of the element. *)
Context {T : Type} `{XT : XerType T} (as_XMLValueList : Z) (element_name : list Z).

(** The name around each element, when there is one. *)
Definition own_name : list Z := if bool_decide (element_name = []) then xml_tag else element_name.
Definition list_mname : option (list Z) := if negb (as_XMLValueList =? 0) then None else Some own_name.

Section Print.
Context {S : Type} `{C : Consumer S}.

(** What takes the place of nothing. *)
Definition or_else (a b : emitter S) : emitter S := fun key =>
  '(n, key) ← a key;
  if n <? 0 then Some (-1, key) else if n =? 0 then b key else Some (n, key).

Definition in_mname (canonical : bool) (ilevel : Z) (member : emitter S) : emitter S :=
  match list_mname with Some mname => xer_member canonical ilevel mname member | None => member end.

(** A value of a value list that prints nothing is its name. *)
Definition or_name (member before : emitter S) : emitter S :=
  if as_XMLValueList =? 0 then member else or_else member (and_then before (callback [[60]; xml_tag; [47; 62]])).

Definition sequence_of_element (canonical : bool) (ilevel : Z) (t : T) : emitter S :=
  in_mname canonical ilevel (or_name (xer_encoder S C t (ilevel + 1) canonical) (new_line canonical (ilevel + 1))).

Definition set_of_element (canonical : bool) (ilevel : Z) (t : T) : emitter S :=
  in_mname canonical ilevel
    (and_then (if as_XMLValueList =? 1 then new_line canonical (ilevel + 1) else emit_nothing)
       (or_name (xer_encoder S C t (ilevel + (if as_XMLValueList =? 2 then 0 else 1)) canonical) emit_nothing)).

(** Null elements are passed over. *)
Fixpoint each_element (element : T -> emitter S) (l : asn_anonymous_set_ T) (rest : emitter S) : emitter S :=
  match l with
  | [] => rest
  | None :: l => each_element element l rest
  | Some t :: l => and_then (element t) (each_element element l rest)
  end.

Definition SEQUENCE_OF_encode_xer (l : asn_anonymous_set_ T) (ilevel : Z) (canonical : bool) : emitter S :=
  each_element (sequence_of_element canonical ilevel) l (new_line canonical (ilevel - 1)).
End Print.

(** The texts of the elements in buffers of their own; the inner [None] is a
    failure. *)
Fixpoint encode_elements (ilevel : Z) (l : asn_anonymous_set_ T) : option (option (list xer_tmp_enc)) :=
  match l with
  | [] => Some (Some [])
  | None :: l => encode_elements ilevel l
  | Some t :: l =>
    '(encoded, enc) ← set_of_element true ilevel t empty_enc;
    if encoded =? -1 then Some None else
    encs ← encode_elements ilevel l; Some (option_map (cons enc) encs)
  end.

Fixpoint report_encs {S} `{Consumer S} (encs : list xer_tmp_enc) : emitter S :=
  match encs with
  | [] => emit_nothing
  | enc :: encs => and_then (callback [te_buffer enc]) (report_encs encs)
  end.

Definition SET_OF_encode_xer `{Q : Qsort} {S} `{C : Consumer S} (l : asn_anonymous_set_ T) (ilevel : Z) (canonical : bool) : emitter S :=
  if canonical then fun key =>
    encs ← encode_elements ilevel l;
    match encs with
    | None => Some (-1, key)
    | Some encs => encs ← qsort (fun a b => Some (SET_OF_xer_order a b)) encs; report_encs encs key
    end
  else each_element (set_of_element false ilevel) l (new_line false (ilevel - 1)).

(** ** Reading *)

(** The name the element's decoder is told. *)
Definition list_elm_tag : option (list Z) :=
  if negb (as_XMLValueList =? 0) then if as_XMLValueList =? 1 then None else Some [] else Some own_name.

(** The structure: the array, the element under construction and the context. *)
Record xer_list_struct := { xl_list : asn_anonymous_set_ xer_struct; xl_ptr : option xer_struct; xl_saved : xer_saved }.

Definition list_leave (code : asn_dec_rval_code) (f : xer_frame) (ptr : option xer_struct) (list : asn_anonymous_set_ xer_struct) :
    option (asn_dec_rval_code * Z * xer_list_struct) :=
  Some (code, xf_consumed f, {| xl_list := list; xl_ptr := ptr; xl_saved := saved f |}).

(** Phase 3 is the end, also after an unexpected tag. *)
Definition list_on_tag (size : Z) (tcv : xer_check_tag_e) (f : xer_frame) : on_tag :=
  let unexpected := Leave RC_FAIL (phase_to 3 f) in
  let phase_out := Leave RC_OK (phase_to 3 (XER_ADVANCE size f)) in
  let member := if xf_phase f =? 1 then Again (phase_to 2 f) else unexpected in
  match tcv with
  | XCT true CLOSING => if xf_phase f =? 0 then unexpected else phase_out
  | XCT true BOTH => if xf_phase f =? 0 then phase_out else member
  | XCT true OPENING => if xf_phase f =? 0 then Again (phase_to 1 (XER_ADVANCE size f)) else member
  | XCT false OPENING | XCT false BOTH => member
  | XCT false CLOSING | XCT_BROKEN => unexpected
  end.

(** Phase 2: the element's decoder; the left side is a return. *)
Definition list_member (f : xer_frame) (ptr : option xer_struct) (list : asn_anonymous_set_ xer_struct) :
    option ((asn_dec_rval_code * xer_frame * option xer_struct) + (xer_frame * asn_anonymous_set_ xer_struct)) :=
  '(code, n, ptr) ← xer_decoder list_elm_tag ptr (xf_buf f);
  Some (if bool_decide (code = RC_OK) then
          let '(rc, list) := asn_set_add list ptr in
          if negb (rc =? 0) then inl (RC_FAIL, f, ptr) else inr (phase_to 1 (XER_ADVANCE n f), list)
        else inl (code, XER_ADVANCE n f, ptr)).

Fixpoint list_xer_loop (tag : list Z) (fuel : nat) (f : xer_frame) (ptr : option xer_struct) (list : asn_anonymous_set_ xer_struct) :
    option (asn_dec_rval_code * Z * xer_list_struct) :=
  match fuel with
  | O => None
  | S fuel =>
    if 2 <? xf_phase f then list_leave RC_FAIL (phase_to 3 f) ptr list else
    r ← (if xf_phase f =? 2 then list_member f ptr list else Some (inr (f, list)));
    match r with
    | inl (code, f, ptr) => list_leave code f ptr list
    | inr (g, list) =>
      let ptr := if xf_phase f =? 2 then None else ptr in
      p ← next_part g;
      match p with
      | Part_return code => list_leave code g ptr list
      | Part_skip f => list_xer_loop tag fuel f ptr list
      | Part_tag chunk f =>
        match list_on_tag (Z.of_nat (length chunk)) (xer_check_tag chunk (Some tag)) f with
        | Again f => list_xer_loop tag fuel f ptr list
        | Leave code f => list_leave code f ptr list
        end
      end
    end
  end.

(** A token takes a character at least, and so does an element. *)
Definition list_fuel (buf : list Z) : nat := (2 * length buf + 2)%nat.

Definition SET_OF_decode_xer (tag : list Z) (struct_ptr : option xer_list_struct) (buf : list Z) :
    option (asn_dec_rval_code * Z * xer_list_struct) :=
  let st := default {| xl_list := []; xl_ptr := None; xl_saved := zeroed_context |} struct_ptr in
  list_xer_loop tag (list_fuel buf) (resumed (xl_saved st) buf) (xl_ptr st) (xl_list st).

(** ** The operations of the types *)

Definition list_of_xer (tag : list Z) (encode : forall S, Consumer S -> asn_anonymous_set_ T -> Z -> bool -> emitter S) :
    XerType (asn_anonymous_set_ T) := {|
  xer_struct := xer_list_struct;
  xer_value st := option_map xer_value <$> xl_list st;
  xml_tag := tag;
  xer_encoder S C l ilevel canonical := encode S C l ilevel canonical;
  xer_decoder opt_mname st buf := '(code, n, st) ← SET_OF_decode_xer (default tag opt_mname) st buf; Some (code, n, Some st)
|}.

Definition SEQUENCE_OF_xer (tag : list Z) : XerType (asn_anonymous_set_ T) :=
  list_of_xer tag (fun S C l ilevel canonical => SEQUENCE_OF_encode_xer l ilevel canonical).
Definition SET_OF_xer `{Q : Qsort} (tag : list Z) : XerType (asn_anonymous_set_ T) :=
  list_of_xer tag (fun S C l ilevel canonical => SET_OF_encode_xer l ilevel canonical).
End Lists.

(** ** Lemmas: printing *)

(** A text never outgrows its buffer. *)
Lemma tmp_room d t : Z.of_nat (length (te_buffer t)) <= te_size t ->
  let t' := (SET_OF_encode_xer_callback d t).2 in Z.of_nat (length (te_buffer t')) <= te_size t'.
Proof. intros H. cbn. rewrite length_app, Z.shiftl_mul_pow2 by lia. case_match; lia. Qed.

Lemma xer_order_texts a b : SET_OF_xer_order a b = el_order (te_buffer a) (te_buffer b).
Proof.
  unfold SET_OF_xer_order, el_order. destruct (memcmp _ _ =? 0); [cbn [negb]|done].
  repeat match goal with |- context [(?x <? ?y)%nat] => destruct (Nat.ltb_spec x y) | |- context [(?x =? ?y)%nat] => destruct (Nat.eqb_spec x y) end; lia.
Qed.

(** The elements that are there. *)
Definition values {T} (l : asn_anonymous_set_ T) : list T := omap id l.

Section ListLemmas.
Context {T : Type} `{XT : XerType T} `{L : !XerTypeLaws T} (element_name : list Z).
#[local] Abbreviation mname := (own_name element_name).

Definition elem_text (canonical : bool) (ilevel : Z) (t : T) : list Z := member_text canonical ilevel mname (xer_text t (ilevel + 1) canonical).
Definition elems_text (canonical : bool) (ilevel : Z) (vs : list T) : list Z := concat (elem_text canonical ilevel <$> vs).

Section Print.
Context {S : Type} `{HC : Consumer S} `{HA : !AppendConsumer S}.

Lemma sequence_of_element_emits canonical ilevel t : xer_dom t ->
  emits (S := S) (sequence_of_element 0 element_name canonical ilevel t) (elem_text canonical ilevel t).
Proof. intros Ht. apply member_emits. by apply xer_enc_law. Qed.

Lemma set_of_element_emits canonical ilevel t : xer_dom t ->
  emits (S := S) (set_of_element 0 element_name canonical ilevel t) (elem_text canonical ilevel t).
Proof.
  intros Ht. apply member_emits. eapply emits_eq; [apply then_emits; [apply nothing_emits|by apply xer_enc_law]|done].
Qed.

Lemma each_element_emits element canonical ilevel (l : asn_anonymous_set_ T) (rest : emitter S) end_text : Forall xer_dom (values l) ->
  (forall t, xer_dom t -> emits (element t) (elem_text canonical ilevel t)) -> emits rest end_text ->
  emits (each_element element l rest) (elems_text canonical ilevel (values l) ++ end_text).
Proof using L.
  intros Hl He Hr. induction l as [|[t|] l IH]; cbn [each_element]; [done| |by apply IH].
  change (values (Some t :: l)) with (t :: values l) in *. apply Forall_cons in Hl as [Ht Hl].
  unfold elems_text. cbn. rewrite <- app_assoc. apply then_emits; [by apply He|by apply IH].
Qed.

Lemma sequence_of_emits (l : asn_anonymous_set_ T) ilevel canonical : Forall xer_dom (values l) ->
  emits (S := S) (SEQUENCE_OF_encode_xer 0 element_name l ilevel canonical) (elems_text canonical ilevel (values l) ++ line canonical (ilevel - 1)).
Proof using L. intros Hl. apply each_element_emits; [done|by apply sequence_of_element_emits|apply new_line_emits]. Qed.

Lemma set_of_basic_emits `{Q : Qsort} (l : asn_anonymous_set_ T) ilevel : Forall xer_dom (values l) ->
  emits (S := S) (SET_OF_encode_xer 0 element_name l ilevel false) (elems_text false ilevel (values l) ++ line false (ilevel - 1)).
Proof using L. intros Hl. apply each_element_emits; [done|by apply set_of_element_emits|apply (new_line_emits false)]. Qed.
End Print.

(** *** Canonical SET OF *)

Definition canon_text (t : T) : list Z := elem_text true 0 t.
Definition text_order (a b : T) : Z := el_order (canon_text a) (canon_text b).
Definition text_le (a b : T) : Prop := text_order a b <= 0.

(** The elements in the order of their texts, as qsort finds it. *)
Definition sorted_elems `{Q : Qsort} (vs : list T) : list T := default vs (qsort (fun a b => Some (text_order a b)) vs).

Lemma sorted_elems_ok `{QL : QsortLaws} vs : sorted_elems vs ≡ₚ vs /\ StronglySorted text_le (sorted_elems vs).
Proof.
  unfold sorted_elems. destruct (qsort_sorts T (fun a b => Some (text_order a b)) text_order vs) as (vs' & -> & Hp & Hs); [done| | |done].
  - intros a b. apply el_order_anti.
  - intros a b c. apply el_order_trans.
Qed.

Lemma texts_sorted vs : StronglySorted text_le vs <-> StronglySorted (fun a b => el_order a b <= 0) (canon_text <$> vs).
Proof.
  induction vs as [|t vs IH]; cbn; [split; constructor|]. split; intros H; apply StronglySorted_inv in H as [H1 H2]; constructor.
  - by apply IH.
  - by apply Forall_fmap.
  - by apply IH.
  - exact (proj1 (Forall_fmap _ _ _) H2).
Qed.

(** Sorted arrangements of the same texts are the same. *)
Lemma sorted_texts vs1 vs2 : canon_text <$> vs1 ≡ₚ canon_text <$> vs2 -> StronglySorted text_le vs1 -> StronglySorted text_le vs2 ->
  canon_text <$> vs1 = canon_text <$> vs2.
Proof.
  intros Hp H1%texts_sorted H2%texts_sorted.
  apply (StronglySorted_unique_strong (fun a b => el_order a b <= 0)); [|done..].
  intros a b _ _. apply el_order_eq.
Qed.

Lemma elem_text_canonical i t : xer_dom t -> elem_text true i t = canon_text t.
Proof. intros Ht. unfold canon_text, elem_text, member_text. cbn [line app]. f_equal. by apply xer_canonical_law. Qed.

Lemma encode_elements_ok ilevel (l : asn_anonymous_set_ T) : Forall xer_dom (values l) -> exists encs, encode_elements 0 element_name ilevel l = Some (Some encs) /\
  te_buffer <$> encs = canon_text <$> values l.
Proof.
  induction l as [|[t|] l IH]; intros Hl; cbn [encode_elements]; [by exists []| |by apply IH].
  change (values (Some t :: l)) with (t :: values l) in *. apply Forall_cons in Hl as [Ht Hl].
  destruct (set_of_element_emits (S := xer_tmp_enc) true ilevel t Ht empty_enc) as (enc & -> & Henc). cbn [mbind option_bind].
  rewrite (proj2 (Z.eqb_neq _ (-1))) by lia. destruct (IH Hl) as (encs & -> & Hencs). cbn [mbind option_bind option_map].
  exists (enc :: encs). split; [done|]. cbn. rewrite Hencs. f_equal. cbn in Henc. rewrite Henc. by apply elem_text_canonical.
Qed.

Lemma report_encs_emits {S} `{HC : Consumer S} `{HA : !AppendConsumer S} encs : emits (S := S) (report_encs encs) (concat (te_buffer <$> encs)).
Proof.
  induction encs as [|enc encs IH]; cbn [report_encs]; [apply nothing_emits|]. cbn. apply then_emits; [|exact IH].
  eapply emits_eq; [apply callback_emits|]. cbn. apply app_nil_r.
Qed.

Lemma set_of_canonical_emits `{QL : QsortLaws} {S} `{HC : Consumer S} `{HA : !AppendConsumer S} (l : asn_anonymous_set_ T) ilevel : Forall xer_dom (values l) ->
  emits (S := S) (SET_OF_encode_xer 0 element_name l ilevel true) (concat (canon_text <$> sorted_elems (values l))).
Proof using L.
  intros Hl key. unfold SET_OF_encode_xer. destruct (encode_elements_ok ilevel l Hl) as (encs & -> & Hencs). cbn [mbind option_bind].
  destruct (qsort_sorts xer_tmp_enc (fun a b => Some (SET_OF_xer_order a b)) SET_OF_xer_order encs) as (encs' & -> & Hp & Hs); [done| | |].
  { intros a b. rewrite !xer_order_texts. apply el_order_anti. }
  { intros a b c. rewrite !xer_order_texts. apply el_order_trans. }
  cbn [mbind option_bind]. destruct (report_encs_emits encs' key) as (key' & -> & Hk). exists key'.
  replace (concat (canon_text <$> _)) with (concat (te_buffer <$> encs')); [done|]. f_equal.
  destruct (sorted_elems_ok (values l)) as [Hp2 Hs2].
  apply (StronglySorted_unique_strong (fun a b => el_order a b <= 0)).
  - intros a b _ _. apply el_order_eq.
  - clear -Hs. induction Hs as [|e es _ IH Hall]; cbn; constructor; [done|]. apply Forall_fmap. eapply Forall_impl; [exact Hall|].
    intros x. cbn. by rewrite xer_order_texts.
  - by apply texts_sorted.
  - rewrite Hp, Hencs. by rewrite Hp2.
Qed.

(** *** Reading *)

Section Read.
Context (tag : list Z) (Htag : name_ok tag) (Hmname : name_ok mname) (Hname : xer_name mname).

#[local] Abbreviation loop := (list_xer_loop 0 element_name tag).

Lemma list_text_round ptr list : forall fuel f f' buf, standing 1 buf f -> next_part f = Some (Part_skip f') ->
  loop (S fuel) f ptr list = loop fuel f' ptr list.
Proof.
  intros fuel f f' buf (Hp & _) E. cbn [list_xer_loop]. rewrite Hp. change (2 <? 1) with false. change (1 =? 2) with false.
  cbn [mbind option_bind]. by rewrite E.
Qed.

(** The decoder of an element, and what follows as if it had just been reached. *)
Lemma list_member_ok t canonical ilevel rest f lst : xer_dom t -> xf_phase f = 2 -> xf_context f = ST_TEXT ->
  xf_buf f = element mname (xer_text t ilevel canonical) ++ rest ->
  exists st f', xer_value st = xer_norm canonical t /\ standing 1 rest f' /\
    xf_consumed f' = xf_consumed f + Z.of_nat (length (element mname (xer_text t ilevel canonical))) /\
    forall fuel, loop (S fuel) f None lst = loop (S fuel) f' None (lst ++ [Some st]).
Proof using L Hmname Hname.
  intros Ht Hp Hc Hb. destruct (xer_dec_law t ilevel canonical (Some mname) rest Ht Hmname Hname) as (st & Hd & Hv). cbn zeta in Hd. cbn [default from_option id] in Hd.
  set (octets := element mname (xer_text t ilevel canonical)) in *.
  exists st, (phase_to 1 (XER_ADVANCE (Z.of_nat (length octets)) f)). split; [done|]. split; [|split; [done|]].
  - split; [done|]. split; [done|]. cbn [phase_to XER_ADVANCE xf_buf]. by rewrite Hb, drop_chunk.
  - intros fuel. cbn [list_xer_loop]. rewrite Hp. cbn [phase_to xf_phase]. change (2 <? 2) with false. change (2 =? 2) with true. change (2 <? 1) with false. change (1 =? 2) with false.
    cbn match. unfold list_member. rewrite Hb. change (list_elm_tag 0 element_name) with (Some mname). unfold octets in Hd |- *. rewrite Hd.
    cbn [mbind option_bind asn_set_add]. rewrite bool_decide_true by done. reflexivity.
Qed.

Lemma list_open_member rest fuel f ptr list : standing 1 (opening mname ++ rest) f ->
  loop (S fuel) f ptr list = loop fuel (phase_to 2 (context_to ST_TEXT f)) ptr list.
Proof using Hmname Htag.
  intros (Hp & Hc & Hb). cbn [list_xer_loop]. rewrite Hp. change (2 <? 1) with false. change (1 =? 2) with false. cbn [mbind option_bind].
  rewrite (part_opening f Hc mname rest Hmname Hb). cbn [mbind option_bind]. rewrite check_opening by done.
  unfold list_on_tag. cbn [context_to xf_phase]. rewrite Hp. by case_bool_decide.
Qed.

Lemma list_close rest fuel f ptr list : standing 1 (closing tag ++ rest) f ->
  exists st, loop (S fuel) f ptr list = Some (RC_OK, xf_consumed f + Z.of_nat (length (closing tag)), st) /\ xl_list st = list.
Proof using Htag.
  intros (Hp & Hc & Hb). cbn [list_xer_loop]. rewrite Hp. change (2 <? 1) with false. change (1 =? 2) with false. cbn [mbind option_bind].
  rewrite (part_closing f Hc tag rest Htag Hb). cbn [mbind option_bind]. rewrite check_closing, bool_decide_true by done.
  unfold list_on_tag. cbn [context_to xf_phase]. rewrite Hp. change (1 =? 0) with false. eexists. split; [reflexivity|done].
Qed.

Lemma list_xer_loop_ok canonical ilevel vs rest : Forall xer_dom vs -> forall fuel f lst, (3 * length vs + 2 <= fuel)%nat ->
  standing 1 (elems_text canonical ilevel vs ++ line canonical (ilevel - 1) ++ closing tag ++ rest) f ->
  exists st, loop fuel f None lst = Some (RC_OK, xf_consumed f + Z.of_nat (length (elems_text canonical ilevel vs ++ line canonical (ilevel - 1) ++ closing tag)), st) /\
    option_map xer_value <$> xl_list st = (option_map xer_value <$> lst) ++ (Some <$> (xer_norm canonical <$> vs)).
Proof using L Htag Hmname Hname.
  induction 1 as [|t vs Ht _ IH]; intros fuel f lst Hfuel Hin.
  - unfold elems_text in *. cbn [fmap list_fmap concat app] in *.
    destruct (skip_line (fun fuel f => loop fuel f None lst) 1 canonical (ilevel - 1) (closing tag ++ rest) fuel f)
      as (f' & fuel' & Hin' & _ & Hc & Hf & ->); [by apply list_text_round|lia|done|done|].
    destruct fuel' as [|fuel']; [cbn [length] in Hfuel; lia|]. destruct (list_close rest fuel' f' None lst Hin') as (st & -> & Hst).
    exists st. rewrite Hc, length_app, Hst, app_nil_r. split; [do 3 f_equal; lia|done].
  - unfold elems_text in *. cbn [fmap list_fmap concat] in *. fold (elems_text canonical ilevel vs) in *.
    unfold elem_text at 1 in Hin. unfold member_text, element in Hin. rewrite <- !app_assoc in Hin.
    destruct (skip_line (fun fuel f => loop fuel f None lst) 1 canonical ilevel (opening mname ++ xer_text t (ilevel + 1) canonical ++ closing mname ++
      elems_text canonical ilevel vs ++ line canonical (ilevel - 1) ++ closing tag ++ rest) fuel f) as (f' & fuel' & Hin' & _ & Hc & Hf & ->); [by apply list_text_round|lia|done|done|].
    cbn [length] in Hfuel. destruct fuel' as [|[|fuel']]; [lia..|]. rewrite (list_open_member _ (S fuel') f' None lst Hin').
    destruct (list_member_ok t canonical (ilevel + 1) (elems_text canonical ilevel vs ++ line canonical (ilevel - 1) ++ closing tag ++ rest)
      (phase_to 2 (context_to ST_TEXT f')) lst Ht) as (st & f2 & Hv & Hin2 & Hc2 & ->); [done|done| |].
    { destruct Hin' as (_ & _ & Hb). cbn [phase_to context_to xf_buf]. rewrite Hb. unfold element. by rewrite <- !app_assoc. }
    destruct (IH (S fuel') f2 (lst ++ [Some st]) ltac:(lia) Hin2) as (st2 & -> & Hst2). exists st2. split.
    + cbn [phase_to context_to xf_consumed] in Hc2. rewrite Hc2, Hc. unfold elem_text, member_text. rewrite !length_app. do 3 f_equal. lia.
    + rewrite Hst2, fmap_app, <- app_assoc. cbn [fmap list_fmap option_map app]. by rewrite Hv.
Qed.

Lemma list_xer_decode_ok canonical ilevel vs rest : Forall xer_dom vs ->
  let octets := element tag (elems_text canonical ilevel vs ++ line canonical (ilevel - 1)) in
  exists st, SET_OF_decode_xer 0 element_name tag None (octets ++ rest) = Some (RC_OK, Z.of_nat (length octets), st) /\
    option_map xer_value <$> xl_list st = Some <$> (xer_norm canonical <$> vs).
Proof using L Htag Hmname Hname.
  intros Hvs octets. unfold SET_OF_decode_xer. cbn [default xl_list xl_ptr xl_saved].
  set (text := elems_text canonical ilevel vs ++ line canonical (ilevel - 1)) in *.
  assert (Hlen : (7 * length vs <= length text)%nat).
  { unfold text, elems_text. rewrite length_app. clear -vs Hmname.
    assert (length (concat (elem_text canonical ilevel <$> vs)) >= 7 * length vs)%nat; [|lia].
    induction vs as [|t vs IH]; cbn; [lia|]. rewrite length_app. unfold elem_text at 1, member_text. rewrite length_app, length_element.
    destruct Hmname as [(c & Hc & _) _]. destruct mname; [done|]. cbn [length] in *. lia. }
  assert (Hfuel : exists f, list_fuel (octets ++ rest) = S f /\ (3 * length vs + 2 <= f)%nat).
  { exists (2 * length (octets ++ rest) + 1)%nat. unfold list_fuel. split; [lia|]. unfold octets, element, opening, closing.
    rewrite !length_app. cbn [length]. rewrite !length_app. cbn [length]. lia. }
  destruct Hfuel as (fuel & -> & Hf). unfold octets, element. rewrite <- !app_assoc.
  set (f := resumed zeroed_context _). cbn [list_xer_loop]. change (2 <? xf_phase f) with false. change (xf_phase f =? 2) with false.
  cbn [mbind option_bind]. rewrite (part_opening f eq_refl tag _ Htag eq_refl). cbn [mbind option_bind].
  rewrite check_opening, bool_decide_true by done. unfold list_on_tag. cbn [context_to xf_phase]. change (xf_phase f =? 0) with true. cbn match.
  destruct (list_xer_loop_ok canonical ilevel vs rest Hvs fuel (phase_to 1 (XER_ADVANCE (Z.of_nat (length (opening tag))) (context_to ST_TEXT f))) [] Hf)
    as (st & -> & Hst).
  { split; [done|]. split; [done|]. cbn [phase_to XER_ADVANCE context_to xf_buf f resumed]. unfold text. by rewrite drop_chunk, <- !app_assoc. }
  exists st. split; [|exact Hst]. cbn [phase_to XER_ADVANCE context_to xf_consumed f resumed]. unfold text. rewrite !length_app. do 3 f_equal. lia.
Qed.
End Read.
End ListLemmas.

(** ** The contract *)

Lemma values_some {T} (vs : list T) : values (Some <$> vs) = vs.
Proof. unfold values. induction vs as [|v vs IH]; [done|]. cbn. by rewrite IH. Qed.

Section Laws.
Context {T : Type} `{XT : XerType T} `{L : !XerTypeLaws T} (element_name tag : list Z).
Context (Hmname : name_ok (own_name element_name)) (Hname : xer_name (own_name element_name)).

Lemma norm_elems canonical vs : Forall xer_dom vs -> Forall xer_dom (xer_norm canonical <$> vs) /\
  forall i, elems_text element_name canonical i (xer_norm canonical <$> vs) = elems_text element_name canonical i vs.
Proof.
  intros Hvs. split.
  - apply Forall_fmap. eapply Forall_impl; [exact Hvs|]. intros t Ht. by destruct (xer_norm_law t 0 canonical Ht).
  - intros i. unfold elems_text. f_equal. rewrite <- list_fmap_compose. apply list_fmap_ext. intros k t Hk.
    unfold compose, elem_text. f_equal. apply xer_norm_law. by apply (Forall_lookup_1 _ _ _ _ Hvs Hk).
Qed.

Lemma elems_canonical i vs : Forall xer_dom vs -> elems_text element_name true i vs = concat (canon_text element_name <$> vs).
Proof.
  intros Hvs. unfold elems_text. f_equal. apply list_fmap_ext. intros k t Hk. apply elem_text_canonical. by apply (Forall_lookup_1 _ _ _ _ Hvs Hk).
Qed.

Definition list_xer_dom (l : asn_anonymous_set_ T) : Prop := Forall xer_dom (values l).
Definition sequence_of_norm (canonical : bool) (l : asn_anonymous_set_ T) : asn_anonymous_set_ T := Some <$> (xer_norm canonical <$> values l).
Definition sequence_of_text (l : asn_anonymous_set_ T) (ilevel : Z) (canonical : bool) : list Z :=
  elems_text element_name canonical ilevel (values l) ++ line canonical (ilevel - 1).

(** The decoder of either type on the text of some elements. *)
Lemma list_decoder_ok (encode : forall S, Consumer S -> asn_anonymous_set_ T -> Z -> bool -> emitter S) canonical ilevel (vs : list T) opt_mname rest : Forall xer_dom vs ->
  let name := default tag opt_mname in name_ok name ->
  let octets := element name (elems_text element_name canonical ilevel vs ++ line canonical (ilevel - 1)) in
  exists st, xer_decoder (XerType := list_of_xer 0 element_name tag encode) opt_mname None (octets ++ rest) =
      Some (RC_OK, Z.of_nat (length octets), Some st) /\
    xer_value (XerType := list_of_xer 0 element_name tag encode) st = Some <$> (xer_norm canonical <$> vs).
Proof using L Hmname Hname.
  intros Hvs name Htag octets. destruct (list_xer_decode_ok element_name name Htag Hmname Hname canonical ilevel vs rest Hvs) as (st & Hd & Hv).
  exists st. split; [|exact Hv].
  change (('(code, n, st) ← SET_OF_decode_xer 0 element_name name None (octets ++ rest); Some (code, n, Some st)) = Some (RC_OK, Z.of_nat (length octets), Some st)).
  unfold octets. cbn zeta in Hd. by rewrite Hd.
Qed.

Definition sequence_of_xer_laws : @XerTypeLaws (asn_anonymous_set_ T) (SEQUENCE_OF_xer 0 element_name tag).
Proof using L Hmname Hname.
  refine (@Build_XerTypeLaws (asn_anonymous_set_ T) (SEQUENCE_OF_xer 0 element_name tag) list_xer_dom (fun _ => True)
    sequence_of_norm sequence_of_text _ _ _ _).
  - intros S C A l ilevel canonical Hl. by apply sequence_of_emits.
  - intros l ilevel canonical opt_mname rest Hl name Htag _. by apply list_decoder_ok.
  - intros l ilevel canonical Hl. unfold list_xer_dom, sequence_of_norm, sequence_of_text. rewrite !values_some.
    destruct (norm_elems canonical (values l) Hl) as [H1 H2]. by rewrite H2.
  - intros l i j Hl. unfold sequence_of_text. cbn [line]. by rewrite !elems_canonical.
Defined.

Section SetOf.
Context `{QL : QsortLaws}.

Definition set_of_norm (canonical : bool) (l : asn_anonymous_set_ T) : asn_anonymous_set_ T :=
  Some <$> (xer_norm canonical <$> if canonical then sorted_elems element_name (values l) else values l).
Definition set_of_text (l : asn_anonymous_set_ T) (ilevel : Z) (canonical : bool) : list Z :=
  if canonical then concat (canon_text element_name <$> sorted_elems element_name (values l))
  else elems_text element_name false ilevel (values l) ++ line false (ilevel - 1).

Lemma sorted_dom vs : Forall xer_dom vs -> Forall xer_dom (sorted_elems element_name vs).
Proof. intros Hvs. by rewrite (proj1 (sorted_elems_ok element_name vs)). Qed.

Definition set_of_xer_laws : @XerTypeLaws (asn_anonymous_set_ T) (SET_OF_xer 0 element_name tag).
Proof using L QL Hmname Hname.
  refine (@Build_XerTypeLaws (asn_anonymous_set_ T) (SET_OF_xer 0 element_name tag) list_xer_dom (fun _ => True)
    set_of_norm set_of_text _ _ _ _).
  - intros S C A l ilevel [|] Hl; [by apply set_of_canonical_emits|by apply set_of_basic_emits].
  - intros l ilevel canonical opt_mname rest Hl name Htag _. destruct canonical; [|by apply list_decoder_ok].
    pose proof (sorted_dom _ Hl) as Hs. unfold set_of_text. rewrite <- (elems_canonical ilevel _ Hs), <- (app_nil_r (elems_text _ _ _ _)).
    by apply (list_decoder_ok _ true ilevel (sorted_elems element_name (values l))).
  - intros l ilevel canonical Hl. unfold list_xer_dom, set_of_norm, set_of_text. rewrite !values_some. destruct canonical.
    + pose proof (sorted_dom _ Hl) as Hs. destruct (norm_elems true _ Hs) as [H1 H2]. split; [done|]. apply (f_equal (@concat Z)).
      set (vs := sorted_elems element_name (values l)) in *. set (ws := xer_norm true <$> vs) in *.
      assert (Htexts : canon_text element_name <$> ws = canon_text element_name <$> vs).
      { unfold ws. rewrite <- list_fmap_compose. apply list_fmap_ext. intros k t Hk. unfold compose, canon_text, elem_text. f_equal.
        apply xer_norm_law. by apply (Forall_lookup_1 _ _ _ _ Hs Hk). }
      rewrite <- Htexts. destruct (sorted_elems_ok element_name ws) as [Hp Hsorted]. apply sorted_texts; [by rewrite Hp|done|].
      apply texts_sorted. rewrite Htexts. apply texts_sorted. exact (proj2 (sorted_elems_ok element_name (values l))).
    + destruct (norm_elems false (values l) Hl) as [H1 H2]. by rewrite H2.
  - intros l i j Hl. reflexivity.
Defined.
End SetOf.
End Laws.

(** ** Any octets *)

Section Total.
Context {strings : bool} {T : Type} `{XT : XerType T} `{HT : !XerTotal strings T} (as_XMLValueList : Z) (element_name tag : list Z).
Implicit Types f : xer_frame.

(** The element under construction is as its decoder left it. *)
Definition list_inv (st : xer_list_struct) : Prop := from_option (xer_inv (list_elm_tag as_XMLValueList element_name)) True (xl_ptr st).

Lemma list_on_tag_ok size tcv f : 0 < size <= Z.of_nat (length (xf_buf f)) -> xf_phase f <> 2 -> progress f (list_on_tag size tcv f).
Proof.
  intros Hs Hp. assert (E : (xf_phase f =? 2) = false) by (by apply Z.eqb_neq).
  pose proof (moved_advance size f ltac:(lia)) as Ha. pose proof (moved_refl f) as Hr. unfold list_on_tag.
  destruct tcv as [|[] []], (xf_phase f =? 0), (xf_phase f =? 1); cbn [progress]; (split; [by repeat apply moved_phase|]);
    unfold frame_measure; cbn [phase_to XER_ADVANCE xf_consumed xf_buf xf_phase Z.eqb Pos.eqb]; rewrite ?length_drop, ?E; try done; lia.
Qed.

Lemma list_xer_loop_total fuel name : forall f ptr list, readable strings (xf_buf f) -> (frame_measure f < fuel)%nat -> from_option (xer_inv (list_elm_tag as_XMLValueList element_name)) True ptr ->
  answers list_inv f (list_xer_loop as_XMLValueList element_name name fuel f ptr list).
Proof using HT.
  induction fuel as [|fuel IH]; intros f ptr list Hok Hfuel Hinv; [lia|]. cbn [list_xer_loop].
  destruct (2 <? xf_phase f); [by apply answers_return; [apply moved_phase, moved_refl|..]|].
  assert (Htoken : forall g ptr list, moved f g -> xf_phase g <> 2 -> (frame_measure g <= fuel)%nat -> from_option (xer_inv (list_elm_tag as_XMLValueList element_name)) True ptr ->
    answers list_inv f (p ← next_part g;
      match p with
      | Part_return code => list_leave code g ptr list
      | Part_skip f => list_xer_loop as_XMLValueList element_name name fuel f ptr list
      | Part_tag chunk f =>
        match list_on_tag (Z.of_nat (length chunk)) (xer_check_tag chunk (Some name)) f with
        | Again f => list_xer_loop as_XMLValueList element_name name fuel f ptr list
        | Leave code f => list_leave code f ptr list
        end
      end)).
  { intros g ptr' list' Hg Hp Hm Hi. apply (answers_moved _ f g); [done|]. pose proof (moved_readable _ _ _ Hg Hok) as Hgok.
    destruct (part_any g) as (p & -> & Hpart). cbn [mbind option_bind]. destruct p as [code|g'|chunk g'].
    - by apply answers_return; [apply moved_refl|..].
    - destruct Hpart as (n & context & Hn & ->). pose proof (moved_advance n (context_to context g) ltac:(cbn; lia)) as Ha.
      apply (answers_moved _ g _ _ Ha). apply IH; [by eapply moved_readable| |done]. unfold frame_measure in Hm |- *.
      change (xf_phase (XER_ADVANCE n (context_to context g))) with (xf_phase g). cbn [XER_ADVANCE context_to xf_buf]. rewrite length_drop.
      rewrite (proj2 (Z.eqb_neq (xf_phase g) 2)) in Hm |- * by done. lia.
    - destruct Hpart as (Hn & context & ->).
      pose proof (list_on_tag_ok (Z.of_nat (length chunk)) (xer_check_tag chunk (Some name)) (context_to context g) Hn Hp) as Htag.
      apply (answers_moved _ g (context_to context g) _ (moved_context context g)). destruct (list_on_tag _ _ _) as [g'|code g'].
      + destruct Htag as [Hmv Hlt]. apply (answers_moved _ _ _ _ Hmv). apply IH; [by eapply moved_readable| |done].
        change (frame_measure (context_to context g)) with (frame_measure g) in Hlt. lia.
      + destruct Htag as [Hmv Hc]. by apply answers_return. }
  destruct (Z.eqb_spec (xf_phase f) 2) as [Ep|Ep]; cbn [mbind option_bind]; [|apply Htoken; [apply moved_refl|done|lia|done]].
  unfold list_member. destruct (xer_total (list_elm_tag as_XMLValueList element_name) ptr (xf_buf f) Hinv Hok) as (code & n & st & -> & Hn & Hval & Hst).
  pose proof (moved_advance n f Hn) as Ha. cbn [mbind option_bind]. case_bool_decide as Hc; [|by apply answers_return].
  destruct (Hval Hc) as [Hpos [s ->]]. cbn [asn_set_add Z.eqb negb]. apply Htoken; [by apply moved_phase|done| |exact I].
  unfold frame_measure in *. cbn [phase_to XER_ADVANCE xf_buf xf_phase Z.eqb Pos.eqb]. rewrite length_drop. rewrite Ep in Hfuel.
  cbn [Z.eqb Pos.eqb] in Hfuel. lia.
Qed.

(** A list ends if its elements do. *)
Definition list_of_xer_total encode : @XerTotal strings (asn_anonymous_set_ T) (list_of_xer as_XMLValueList element_name tag encode).
Proof using HT.
  refine (@Build_XerTotal strings _ (list_of_xer as_XMLValueList element_name tag encode) (fun _ => list_inv) _).
  intros opt_mname struct_ptr buf Hinv Hok. set (name := default tag opt_mname).
  set (st := default {| xl_list := []; xl_ptr := None; xl_saved := zeroed_context |} struct_ptr).
  destruct (list_xer_loop_total (list_fuel buf) name (resumed (xl_saved st) buf) (xl_ptr st) (xl_list st)) as (code & n & st' & Hd & Hn & Hc & Hi);
    [done|unfold frame_measure, list_fuel; cbn [resumed xf_buf]; case_match; lia|by destruct struct_ptr|].
  exists code, n, (Some st'). split; [|split; [exact Hn|split; [intros E; split; [exact (Hc E)|by eexists]|exact Hi]]].
  change (('(code, n, st) ← list_xer_loop as_XMLValueList element_name name (list_fuel buf) (resumed (xl_saved st) buf) (xl_ptr st) (xl_list st);
    Some (code, n, Some st)) = Some (code, n, Some st')). by rewrite Hd.
Defined.
End Total.

(** ** Properties *)


#[local] Abbreviation numbers := (NativeInteger_xer None (chars "INTEGER")).

Lemma number_dom vs : Forall (fun v => -100 <= v <= 100) vs -> Forall (native_dom None) vs.
Proof. intros Hvs. eapply Forall_impl; [exact Hvs|]. intros v Hv. split; [|done]. unfold is_long. long_bounds. lia. Qed.


(** What the encoder writes for it. *)
Example canonical_numbers :
  option_map (fun r => bb_bytes (snd r)) (xer_encode (H := SET_OF_xer 0 (chars "n") (chars "Set") (Q := insertion_sort) (XT := numbers))
    [Some 30; None; Some (-4)] true {| bb_bytes := [] |}) = Some (chars "<Set><n>-4</n><n>30</n></Set>").
Proof. vm_compute. reflexivity. Qed.

(** A value list: the elements are not named but written as themselves. *)
Example value_list :
  let X := SEQUENCE_OF_xer 1 [] (chars "Flags") (XT := BOOLEAN_xer (chars "BOOLEAN")) in
  let l := [Some {| bool_int := 1 |}; Some {| bool_int := 0 |}] in
  let text := chars "<Flags><true/><false/></Flags>" in
  option_map (fun r => bb_bytes (snd r)) (xer_encode (H := X) l true {| bb_bytes := [] |}) = Some text /\
  option_map (fun r => (fst r, option_map (@xer_value _ X) (snd r))) (xer_decode (H := X) None text) = Some (RC_OK, 30, Some l).
Proof. split; vm_compute; reflexivity. Qed.
