(* ===== verification/XerChoice.v ===== *)
(** * CHOICE in XER (support/constr_CHOICE.c)

    The alternative as an element inside that of the CHOICE.  The decoder finds
    the alternative by its name, passes over one it does not know if the CHOICE
    is extensible, and is resumed from the context in the structure. *)
From S2P Require Import Prelude Consumer PerCodec Constraints IntegerXer Xer XerPrim XerFrame Members ConstrChoice.
#[local] Open Scope Z_scope.

#[local] Abbreviation xer_variant := (variant_struct (fun m => xer_struct (T := elm_type m))).

(** The name of a member as characters. *)
Definition elm_mname (m : asn_TYPE_member_t) : list Z := chars (elm_name m).

Section Choice.
Context (specs : asn_CHOICE_specifics_t).
Implicit Types f : xer_frame.

(** ** Printing *)

Definition CHOICE_encode_xer {S} `{C : Consumer S} (st : choice_t specs) (ilevel : Z) (canonical : bool) : emitter S :=
  match st with
  | None => fail_emitter
  | Some v =>
    on_variant (fun m memb =>
      match memb_ptr m memb with
      | None => fail_emitter
      | Some t =>
        and_then (xer_member canonical ilevel (elm_mname m) (xer_encoder S C t (ilevel + 1) canonical)) (new_line canonical (ilevel - 1))
      end) _ v
  end.

(** ** Reading *)

Record xer_choice_struct := { xh_saved : xer_saved; xh_present : option (xer_variant (alternatives specs)) }.
Definition fresh_xer_choice : xer_choice_struct := {| xh_saved := zeroed_context; xh_present := None |}.

Definition choice_leave (code : asn_dec_rval_code) f (present : option (xer_variant (alternatives specs))) :
    option (asn_dec_rval_code * Z * xer_choice_struct) :=
  Some (code, xf_consumed f, {| xh_saved := saved f; xh_present := present |}).

(** Phase 5 is the end, also after an unexpected tag. *)
Definition choice_unexpected f : on_tag := Leave RC_FAIL (phase_to 5 f).

(** The alternative of a tag, or an extension, passed over in phase 4 unless it
    is empty. *)
Definition choice_search (chunk : list Z) (tcv : xer_check_tag_e) f : on_tag :=
  match search_names chunk (elm_mname <$> alternatives specs) 0 tcv with
  | (Some n, _) => Again (phase_to 2 (step_to n f))
  | (None, tcv) =>
    if negb (ext_start specs =? -1) then
      Again (XER_ADVANCE (Z.of_nat (length chunk)) (if tcv_closes tcv then phase_to 3 f else phase_to 4 (left_to 1 f)))
    else choice_unexpected f
  end.

Definition choice_on_tag (chunk : list Z) (tcv : xer_check_tag_e) f : on_tag :=
  let size := Z.of_nat (length chunk) in
  let member := if negb (xf_phase f =? 1) then choice_unexpected f else choice_search chunk tcv f in
  match tcv with
  | XCT true BOTH => choice_unexpected f
  | XCT true CLOSING => if negb (xf_phase f =? 3) then choice_unexpected f else Leave RC_OK (phase_to 5 (XER_ADVANCE size f))
  | XCT true OPENING => if xf_phase f =? 0 then Again (phase_to 1 (XER_ADVANCE size f)) else member
  | XCT false OPENING | XCT false BOTH => member
  | XCT false CLOSING | XCT_BROKEN => choice_unexpected f
  end.

(** Phase 4: inside an unknown element. *)
Definition choice_skip (chunk : list Z) (tcv : xer_check_tag_e) f : option on_tag :=
  '(r, depth) ← xer_skip_unknown tcv (xf_left f);
  let f := left_to depth f in
  let size := Z.of_nat (length chunk) in
  Some (if r =? -1 then choice_unexpected f
        else if r =? 1 then Again (XER_ADVANCE size (phase_to 3 f))
        else if r =? 0 then Again (XER_ADVANCE size f)
        else choice_on_tag chunk tcv (phase_to 3 f)).

Definition choice_dispatch (chunk : list Z) (tcv : xer_check_tag_e) f : option on_tag :=
  if xf_phase f =? 4 then choice_skip chunk tcv f else Some (choice_on_tag chunk tcv f).

Fixpoint slot_index {str : asn_TYPE_member_t -> Type} (ms : list asn_TYPE_member_t) : variant_struct str ms -> Z :=
  match ms with
  | [] => fun v => match v with end
  | m :: ms => fun v => match v with inl _ => 0 | inr v => 1 + slot_index ms v end
  end.

(** Phase 2: the decoder of the alternative, which must be the one that is
    present if there is one. *)
Definition choice_enter f (present : option (xer_variant (alternatives specs))) :
    option (asn_dec_rval_code * xer_frame * option (xer_variant (alternatives specs))) :=
  if negb (xf_phase f =? 2) then Some (RC_OK, f, present) else
  '(code, n, v) ← step_variant (alternatives specs) (fun m p => xer_decoder (Some (elm_mname m)) p (xf_buf f)) (Z.to_nat (xf_step f)) present;
  if negb (from_option (fun old => slot_index _ old =? xf_step f) true present) then None else
  let f := XER_ADVANCE n f in
  Some (code, if bool_decide (code = RC_OK) then phase_to 3 f else f, Some v).

Fixpoint choice_loop (tag : list Z) (fuel : nat) f (present : option (xer_variant (alternatives specs))) :
    option (asn_dec_rval_code * Z * xer_choice_struct) :=
  match fuel with
  | O => None
  | S fuel =>
    if 4 <? xf_phase f then choice_leave RC_FAIL (phase_to 5 f) present else
    '(code, f, present) ← choice_enter f present;
    if negb (bool_decide (code = RC_OK)) then choice_leave code f present else
    if (xf_phase f =? 3) && bool_decide (tag = []) then choice_leave RC_OK (phase_to 5 f) present else
    p ← next_part f;
    match p with
    | Part_return code => choice_leave code f present
    | Part_skip f => choice_loop tag fuel f present
    | Part_tag chunk f =>
      r ← choice_dispatch chunk (xer_check_tag chunk (Some tag)) f;
      match r with
      | Again f => choice_loop tag fuel f present
      | Leave code f => choice_leave code f present
      end
    end
  end.

(** A token takes a character at least, and so does the alternative. *)
Definition choice_fuel (buf : list Z) : nat := (2 * length buf + 2)%nat.

Definition CHOICE_decode_xer (xml_tag : list Z) (struct_ptr : option xer_choice_struct) (buf : list Z) :
    option (asn_dec_rval_code * Z * xer_choice_struct) :=
  let st := default fresh_xer_choice struct_ptr in
  let f := resumed (xh_saved st) buf in
  let f := if (xf_phase f =? 0) && bool_decide (xml_tag = []) then phase_to 1 f else f in
  choice_loop xml_tag (choice_fuel buf) f (xh_present st).

Definition CHOICE_xer (tag : list Z) : XerType (choice_t specs) := {|
  xer_struct := xer_choice_struct;
  xer_value st := variant_value (fun m => xer_value) _ <$> xh_present st;
  xml_tag := tag;
  xer_encoder S C st ilevel canonical := CHOICE_encode_xer st ilevel canonical;
  xer_decoder opt_mname st buf := '(code, n, st) ← CHOICE_decode_xer (default tag opt_mname) st buf; Some (code, n, Some st)
|}.
End Choice.

(** ** Lemmas: the alternative *)

Fixpoint alt_xer_dom (ms : list asn_TYPE_member_t) : members_xer_laws ms -> variant ms -> Prop :=
  match ms with
  | [] => fun _ v => match v with end
  | m :: ms => fun '(exist _ L _, Ls) v =>
      match v with
      | inl f => exists t, f = set_memb m (Some t) /\ @xer_dom _ _ L t
      | inr v => alt_xer_dom ms Ls v
      end
  end.

Fixpoint alt_text (ms : list asn_TYPE_member_t) (ilevel : Z) (canonical : bool) : members_xer_laws ms -> variant ms -> list Z :=
  match ms with
  | [] => fun _ v => match v with end
  | m :: ms => fun '(exist _ L _, Ls) v =>
      match v with
      | inl f => from_option (fun t => element (elm_mname m) (@xer_text _ _ L t (ilevel + 1) canonical)) [] (memb_ptr m f)
      | inr v => alt_text ms ilevel canonical Ls v
      end
  end.

Fixpoint alt_xer_norm (ms : list asn_TYPE_member_t) (canonical : bool) : members_xer_laws ms -> variant ms -> variant ms :=
  match ms with
  | [] => fun _ v => v
  | m :: ms => fun '(exist _ L _, Ls) v =>
      match v with
      | inl f => inl (set_memb m (@xer_norm _ _ L canonical <$> memb_ptr m f))
      | inr v => inr (alt_xer_norm ms canonical Ls v)
      end
  end.

(** The member that is present, its contract, and how it is put back. *)
Lemma alt_xer_select ms (Ls : members_xer_laws ms) v canonical : alt_xer_dom ms Ls v ->
  exists m (L : XerTypeLaws (elm_type m)) (t : elm_type m) (inj : field m -> variant ms) (injs : option xer_struct -> xer_variant ms),
    (name_ok (elm_mname m) /\ xer_name (elm_mname m)) /\ xer_dom t /\ ms !! Z.to_nat (variant_index ms v) = Some m /\
    (forall ilevel, alt_text ms ilevel canonical Ls v = element (elm_mname m) (xer_text t (ilevel + 1) canonical)) /\
    alt_xer_norm ms canonical Ls v = inj (set_memb m (Some (xer_norm canonical t))) /\
    (forall R (k : forall m, field m -> R), on_variant k ms v = k m (set_memb m (Some t))) /\
    (forall dec, step_variant ms dec (Z.to_nat (variant_index ms v)) None = '(code, n, p) ← dec m None; Some (code, n, injs p)) /\
    (forall p, variant_value (fun m => xer_value) ms (injs p) = inj (set_memb m (xer_value <$> p))).
Proof.
  induction ms as [|m ms IH]; [by destruct v|]. destruct Ls as [[L HL] Ls], v as [f|v]; cbn [alt_xer_dom alt_text alt_xer_norm].
  - intros (t & -> & Hd). exists m, L, t, inl, inl. rewrite memb_ptr_set. by repeat (split; [done|]).
  - intros Hd. destruct (IH Ls v Hd) as (m' & L' & t & inj & injs & HL' & Hd' & Hm & Htext & Hnorm & Hon & Hstep & Hval).
    exists m', L', t, (inr ∘ inj), (inr ∘ injs). cbn [variant_index]. pose proof (variant_index_bounds ms v) as Hb.
    rewrite Z2Nat.inj_add by lia. change (Z.to_nat 1) with 1%nat. cbn [Nat.add].
    split; [done|]. split; [done|]. split; [exact Hm|]. split; [exact Htext|]. split; [by rewrite Hnorm|]. split; [exact Hon|]. split.
    + intros dec. cbn [step_variant]. rewrite Hstep. by destruct (dec m' None) as [[[code n] p]|].
    + intros p. cbn. by rewrite Hval.
Qed.

Lemma alt_xer_norm_dom ms (Ls : members_xer_laws ms) canonical v : alt_xer_dom ms Ls v -> alt_xer_dom ms Ls (alt_xer_norm ms canonical Ls v) /\
  forall ilevel, alt_text ms ilevel canonical Ls (alt_xer_norm ms canonical Ls v) = alt_text ms ilevel canonical Ls v.
Proof.
  induction ms as [|m ms IH]; [by destruct v|]. destruct Ls as [[L HL] Ls], v as [f|v]; cbn [alt_xer_dom alt_text alt_xer_norm]; [|apply IH].
  intros (t & -> & Hd). rewrite !memb_ptr_set. cbn [fmap option_fmap option_map from_option]. split.
  - eexists. split; [reflexivity|]. by apply (xer_norm_law t 0 canonical).
  - intros ilevel. rewrite memb_ptr_set. cbn [from_option]. f_equal. by apply xer_norm_law.
Qed.

Lemma alt_text_canonical ms (Ls : members_xer_laws ms) v i j : alt_xer_dom ms Ls v -> alt_text ms i true Ls v = alt_text ms j true Ls v.
Proof.
  induction ms as [|m ms IH]; [by destruct v|]. destruct Ls as [[L HL] Ls], v as [f|v]; cbn [alt_xer_dom alt_text]; [|apply IH].
  intros (t & -> & Hd). rewrite memb_ptr_set. cbn [from_option]. f_equal. by apply xer_canonical_law.
Qed.

(** ** Lemmas: the text of a value *)

Section Spec.
Context (specs : asn_CHOICE_specifics_t) (Ls : members_xer_laws (alternatives specs)).
Context (Hdistinct : NoDup (elm_mname <$> alternatives specs)).
Implicit Types v : variant (alternatives specs).

Definition choice_xer_dom (st : choice_t specs) : Prop := from_option (alt_xer_dom _ Ls) False st.
Definition choice_xer_norm (canonical : bool) (st : choice_t specs) : choice_t specs := alt_xer_norm _ canonical Ls <$> st.
Definition choice_text (st : choice_t specs) (ilevel : Z) (canonical : bool) : list Z :=
  from_option (fun v => line canonical ilevel ++ alt_text _ ilevel canonical Ls v ++ line canonical (ilevel - 1)) [] st.

Lemma choice_emits {S} `{HC : Consumer S} `{HA : !AppendConsumer S} (st : choice_t specs) ilevel canonical : choice_xer_dom st ->
  emits (S := S) (CHOICE_encode_xer specs st ilevel canonical) (choice_text st ilevel canonical).
Proof.
  destruct st as [v|]; [|done]. intros Hd.
  destruct (alt_xer_select _ Ls v canonical Hd) as (m & L & t & inj & injs & HL & Ht & _ & Htext & _ & Hon & _).
  unfold CHOICE_encode_xer, choice_text. cbn [from_option]. rewrite Hon, memb_ptr_set, Htext, app_assoc.
  apply then_emits; [|apply new_line_emits]. apply member_emits. by apply xer_enc_law.
Qed.

Lemma member_names_ok ms : members_xer_laws ms -> Forall name_ok (elm_mname <$> ms).
Proof.
  induction ms as [|m ms IH]; [constructor|]. intros [[L [Hn _]] Ls']. cbn. constructor; [exact Hn|by apply IH].
Qed.

(** *** The decoder's rounds *)

Section Read.
Context (tag : list Z) (Htag : name_ok tag).
Implicit Types f : xer_frame.

Lemma tag_named : tag <> [].
Proof using Htag. destruct Htag as [(c & Hc & _) _]. by destruct tag. Qed.

#[local] Abbreviation loop := (choice_loop specs tag).

Lemma choice_round fuel phase buf f present : standing phase buf f -> phase <= 4 -> phase <> 2 ->
  loop (S fuel) f present =
    p ← next_part f;
    match p with
    | Part_return code => choice_leave specs code f present
    | Part_skip f => loop fuel f present
    | Part_tag chunk f =>
      r ← choice_dispatch specs chunk (xer_check_tag chunk (Some tag)) f;
      match r with
      | Again f => loop fuel f present
      | Leave code f => choice_leave specs code f present
      end
    end.
Proof using Htag.
  intros (Hp & _) Hle Hne. cbn [choice_loop]. rewrite Hp. rewrite (proj2 (Z.ltb_ge 4 phase)) by done.
  unfold choice_enter. rewrite Hp, (proj2 (Z.eqb_neq phase 2)) by done. cbn [negb mbind option_bind].
  rewrite bool_decide_true by done. cbn [negb]. rewrite Hp, (bool_decide_false (tag = [])) by apply tag_named. by rewrite andb_false_r.
Qed.

Lemma choice_text_round phase present : phase <= 4 -> phase <> 2 -> forall fuel f f' buf, standing phase buf f ->
  next_part f = Some (Part_skip f') -> loop (S fuel) f present = loop fuel f' present.
Proof using Htag. intros Hle Hne fuel f f' buf Hf E. by rewrite (choice_round fuel phase buf f present Hf), E. Qed.

Lemma choice_open_ok rest fuel f present : standing 0 (opening tag ++ rest) f ->
  exists f', standing 1 rest f' /\ xf_consumed f' = xf_consumed f + Z.of_nat (length (opening tag)) /\
    loop (S fuel) f present = loop fuel f' present.
Proof using Htag.
  intros Hf. pose proof Hf as (Hp & Hc & Hb). exists (phase_to 1 (XER_ADVANCE (Z.of_nat (length (opening tag))) (context_to ST_TEXT f))).
  split; [|split; [done|]].
  - split; [done|]. split; [done|]. cbn [phase_to XER_ADVANCE context_to xf_buf]. by rewrite Hb, drop_chunk.
  - rewrite (choice_round fuel 0 _ f present Hf) by done. rewrite (part_opening f Hc tag rest Htag Hb). cbn [mbind option_bind].
    rewrite check_opening, bool_decide_true by done. unfold choice_dispatch, choice_on_tag. cbn [context_to xf_phase]. by rewrite Hp.
Qed.

Lemma choice_find_ok (i : nat) m rest fuel f present : alternatives specs !! i = Some m -> standing 1 (opening (elm_mname m) ++ rest) f ->
  exists f', standing 2 (opening (elm_mname m) ++ rest) f' /\ xf_step f' = Z.of_nat i /\ xf_consumed f' = xf_consumed f /\
    loop (S fuel) f present = loop fuel f' present.
Proof using Htag Hdistinct Ls.
  intros Hi Hf. pose proof Hf as (Hp & Hc & Hb). exists (phase_to 2 (step_to (Z.of_nat i) (context_to ST_TEXT f))).
  split; [done|]. split; [done|]. split; [done|]. rewrite (choice_round fuel 1 _ f present Hf) by done.
  pose proof (member_names_ok _ Ls) as Hnames. assert (Hn : (elm_mname <$> alternatives specs) !! i = Some (elm_mname m)) by (by rewrite list_lookup_fmap, Hi).
  assert (Hm : name_ok (elm_mname m)) by exact (Forall_lookup_1 _ _ _ _ Hnames Hn).
  rewrite (part_opening f Hc (elm_mname m) rest Hm Hb). cbn [mbind option_bind]. rewrite check_opening by done.
  unfold choice_dispatch, choice_on_tag, choice_search. cbn [context_to xf_phase]. rewrite Hp. change (1 =? 4) with false. change (1 =? 0) with false. change (1 =? 1) with true.
  cbn [negb]. rewrite (search_finds _ i 0 (elm_mname m)) by done. by case_bool_decide.
Qed.

Lemma choice_close_ok rest fuel f present : standing 3 (closing tag ++ rest) f ->
  exists st, loop (S fuel) f present = Some (RC_OK, xf_consumed f + Z.of_nat (length (closing tag)), st) /\ xh_present specs st = present.
Proof using Htag.
  intros Hf. pose proof Hf as (Hp & Hc & Hb). rewrite (choice_round fuel 3 _ f present Hf) by done.
  rewrite (part_closing f Hc tag rest Htag Hb). cbn [mbind option_bind]. rewrite check_closing, bool_decide_true by done.
  unfold choice_dispatch, choice_on_tag. cbn [context_to xf_phase]. rewrite Hp. change (3 =? 4) with false. change (3 =? 3) with true. cbn [negb].
  eexists. split; [reflexivity|done].
Qed.

(** The alternative's decoder, and what follows as if it had just been reached. *)
Lemma choice_enter_ok f (octets rest : list Z) n (v : xer_variant (alternatives specs)) (step : Z) :
  standing 2 (octets ++ rest) f -> xf_step f = step -> n = Z.of_nat (length octets) ->
  step_variant (alternatives specs) (fun m p => xer_decoder (Some (elm_mname m)) p (octets ++ rest)) (Z.to_nat step) None = Some (RC_OK, n, v) ->
  exists f', standing 3 rest f' /\ xf_consumed f' = xf_consumed f + n /\
    forall fuel, loop (S fuel) f None = loop (S fuel) f' (Some v).
Proof using Htag.
  intros Hf <- -> Hd. pose proof Hf as (Hp & Hc & Hb). set (g := phase_to 3 (XER_ADVANCE (Z.of_nat (length octets)) f)).
  assert (Hg : standing 3 rest g).
  { split; [done|]. split; [done|]. cbn [g phase_to XER_ADVANCE xf_buf]. by rewrite Hb, drop_chunk. }
  exists g. split; [exact Hg|]. split; [done|]. intros fuel. rewrite (choice_round fuel 3 _ g (Some v) Hg) by done.
  cbn [choice_loop]. rewrite Hp. change (4 <? 2) with false. unfold choice_enter. rewrite Hp, Hb, Hd. change (2 =? 2) with true.
  cbn [negb mbind option_bind from_option]. rewrite bool_decide_true by done. cbn [negb].
  change (XER_ADVANCE (Z.of_nat (length octets)) f) with (XER_ADVANCE (Z.of_nat (length octets)) f). fold g.
  rewrite (bool_decide_false (tag = [])) by apply tag_named. by rewrite andb_false_r.
Qed.

Lemma choice_xer_decode_ok canonical ilevel v rest : alt_xer_dom _ Ls v ->
  let octets := element tag (choice_text (Some v) ilevel canonical) in
  exists st, CHOICE_decode_xer specs tag None (octets ++ rest) = Some (RC_OK, Z.of_nat (length octets), st) /\
    variant_value (fun m => xer_value) _ <$> xh_present specs st = Some (alt_xer_norm _ canonical Ls v).
Proof using Htag Hdistinct Ls.
  intros Hd octets. destruct (alt_xer_select _ Ls v canonical Hd) as (m & L & t & inj & injs & [Hmn Hxn] & Ht & Hm & Htext & Hnorm & _ & Hstep & Hval).
  unfold octets, choice_text. cbn [from_option]. rewrite Htext. set (name := elm_mname m) in *. set (mtext := xer_text t (ilevel + 1) canonical) in *.
  set (i := variant_index _ v) in *. assert (Hi : i = Z.of_nat (Z.to_nat i)) by (pose proof (variant_index_bounds _ v); lia).
  unfold CHOICE_decode_xer. cbn [default fresh_xer_choice xh_saved xh_present]. rewrite (bool_decide_false (tag = [])) by apply tag_named. rewrite andb_false_r.
  set (body := line canonical ilevel ++ element name mtext ++ line canonical (ilevel - 1)).
  assert (Hfuel : (5 <= choice_fuel (element tag body ++ rest))%nat).
  { unfold choice_fuel, element, opening, closing. rewrite !length_app. cbn [length]. lia. }
  set (buf := element tag body ++ rest) in *. destruct (choice_fuel buf) as [|fuel]; [lia|].
  destruct (choice_open_ok (body ++ closing tag ++ rest) fuel (resumed zeroed_context buf) None) as (f1 & H1 & C1 & ->).
  { split; [done|]. split; [done|]. unfold buf, element. cbn [resumed xf_buf]. by rewrite <- !app_assoc. }
  unfold body in H1. rewrite <- !app_assoc in H1.
  destruct (skip_line (fun fuel f => loop fuel f None) 1 canonical ilevel (element name mtext ++ line canonical (ilevel - 1) ++ closing tag ++ rest) fuel f1)
    as (f2 & fuel2 & H2 & _ & C2 & F2 & ->); [by apply choice_text_round|lia|exact H1|done|].
  destruct fuel2 as [|fuel2]; [lia|]. unfold element in H2. rewrite <- !app_assoc in H2.
  destruct (choice_find_ok (Z.to_nat i) m _ fuel2 f2 None Hm H2) as (f3 & H3 & S3 & C3 & ->).
  destruct (xer_dec_law t (ilevel + 1) canonical (Some name) (line canonical (ilevel - 1) ++ closing tag ++ rest) Ht Hmn Hxn) as (st & Hdec & Hst).
  cbn zeta in Hdec. cbn [default from_option id] in Hdec. change (xer_text t (ilevel + 1) canonical) with mtext in Hdec.
  destruct (choice_enter_ok f3 (element name mtext) (line canonical (ilevel - 1) ++ closing tag ++ rest)
    (Z.of_nat (length (element name mtext))) (injs (Some st)) i) as (f4 & H4 & C4 & Henter); [|lia|done| |].
  { unfold element. by rewrite <- !app_assoc. }
  { rewrite Hstep. change (elm_mname m) with name. by rewrite Hdec. }
  destruct fuel2 as [|fuel2]; [lia|]. rewrite Henter.
  destruct (skip_line (fun fuel f => loop fuel f (Some (injs (Some st)))) 3 canonical (ilevel - 1) (closing tag ++ rest) (S fuel2) f4)
    as (f5 & fuel5 & H5 & _ & C5 & F5 & ->); [by apply choice_text_round|lia|exact H4|done|].
  destruct fuel5 as [|fuel5]; [lia|]. destruct (choice_close_ok rest fuel5 f5 (Some (injs (Some st))) H5) as (st' & -> & Hpresent).
  exists st'. split.
  - do 3 f_equal. rewrite C5, C4, C3, C2, C1. cbn [resumed xf_consumed]. unfold body. generalize (element name mtext). intros inner.
    unfold element. rewrite !length_app. lia.
  - rewrite Hpresent. cbn. by rewrite Hval, Hnorm, <- Hst.
Qed.
End Read.

Definition choice_xer_laws (tag : list Z) : @XerTypeLaws (choice_t specs) (CHOICE_xer specs tag).
Proof using Hdistinct Ls.
  refine (@Build_XerTypeLaws (choice_t specs) (CHOICE_xer specs tag) choice_xer_dom (fun _ => True) choice_xer_norm choice_text _ _ _ _).
  - intros S C A st ilevel canonical Hd. by apply choice_emits.
  - intros [v|] ilevel canonical opt_mname rest Hd name Hname _ octets; [|done].
    destruct (choice_xer_decode_ok name Hname canonical ilevel v rest Hd) as (st & Hr & Hv). exists st. split; [|exact Hv].
    change (('(code, n, st) ← CHOICE_decode_xer specs name None (octets ++ rest); Some (code, n, Some st)) = Some (RC_OK, Z.of_nat (length octets), Some st)).
    unfold octets. cbn zeta in Hr. by rewrite Hr.
  - intros [v|] ilevel canonical Hd; [|done]. destruct (alt_xer_norm_dom _ Ls canonical v Hd) as [H1 H2]. split; [exact H1|].
    cbn. by rewrite H2.
  - intros [v|] i j Hd; [|done]. cbn. f_equal. by apply alt_text_canonical.
Defined.
End Spec.

(** ** Any octets *)

Section Total.
Context (strings : bool) (specs : asn_CHOICE_specifics_t) (Ts : members_xer_total strings (alternatives specs)).
Implicit Types f : xer_frame.

(** The structure of the alternative is as its decoder left it. *)
Fixpoint variant_inv (ms : list asn_TYPE_member_t) : members_xer_total strings ms -> xer_variant ms -> Prop :=
  match ms with
  | [] => fun _ v => match v with end
  | m :: ms => fun '(T, Ts) v =>
      match v with
      | inl p => from_option (@xer_inv _ _ _ T (Some (elm_mname m))) True p
      | inr v => variant_inv ms Ts v
      end
  end.

Lemma step_variant_total ms (Tms : members_xer_total strings ms) buf : readable strings buf -> forall i (v : option (xer_variant ms)), 0 <= i < Z.of_nat (length ms) ->
  from_option (variant_inv ms Tms) True v ->
  exists code n v', step_variant ms (fun m p => xer_decoder (Some (elm_mname m)) p buf) (Z.to_nat i) v = Some (code, n, v') /\
    0 <= n <= Z.of_nat (length buf) /\ (code = RC_OK -> 0 < n) /\ (code <> RC_FAIL -> variant_inv ms Tms v') /\ slot_index ms v' = i.
Proof.
  intros Hok. induction ms as [|m ms IH]; intros i v Hi Hv; [cbn in Hi; lia|]. destruct Tms as [T Tms]. destruct (Z.eq_dec i 0) as [->|Hne].
  - change (Z.to_nat 0) with 0%nat. cbn [step_variant].
    destruct (xer_total (Some (elm_mname m)) match v with Some (inl p) => p | _ => None end buf) as (code & n & p & -> & Hn & Hc & Hp);
      [by destruct v as [[p|v]|]|done|].
    cbn [mbind option_bind]. exists code, n, (inl p). split; [done|]. split; [done|]. split; [|done]. intros E. by apply Hc.
  - replace (Z.to_nat i) with (S (Z.to_nat (i - 1))) by lia. cbn [step_variant length] in *.
    destruct (IH Tms (i - 1) match v with Some (inr v) => Some v | _ => None end) as (code & n & v' & -> & Hn & Hc & Hp & Hidx);
      [lia|by destruct v as [[p|v]|]|].
    cbn [mbind option_bind]. exists code, n, (inr v'). cbn [slot_index]. split; [done|]. split; [done|]. split; [done|]. split; [exact Hp|lia].
Qed.

(** The context fits what is present: an index inside the table in phase 2, and
    an unknown element open in phase 4. *)
Definition context_inv (phase step depth : Z) (present : option (xer_variant (alternatives specs))) : Prop :=
  from_option (variant_inv _ Ts) True present /\
  (phase = 2 -> 0 <= step < Z.of_nat (length (alternatives specs)) /\ from_option (fun old => slot_index _ old = step) True present) /\
  (phase = 0 \/ phase = 1 -> present = None) /\
  (phase = 4 -> 0 < depth).

(** A CHOICE without a name ends with its alternative. *)
Definition choice_inv (tag : list Z) (st : xer_choice_struct specs) : Prop :=
  let v := xh_saved specs st in
  context_inv (xv_phase v) (xv_step v) (xv_left v) (xh_present specs st) /\ (xv_phase v = 3 -> tag <> []).
Definition frame_inv f (present : option (xer_variant (alternatives specs))) : Prop :=
  context_inv (xf_phase f) (xf_step f) (xf_left f) present.

Lemma phase_inv phase f present : frame_inv f present -> (phase = 1 /\ xf_phase f = 0 \/ phase = 3 \/ phase = 5) ->
  frame_inv (phase_to phase f) present.
Proof.
  intros (H1 & H2 & H3 & H4) Hp. split; [exact H1|]. cbn. split; [lia|]. split; [|lia]. intros Hphase. apply H3. lia.
Qed.

(** A tag is taken, or it leads into a member. *)
Definition tag_answer f (present : option (xer_variant (alternatives specs))) (r : on_tag) : Prop :=
  progress f r /\
  match r with
  | Again g => frame_inv g present /\ (xf_phase g = 3 -> xf_consumed f < xf_consumed g)
  | Leave _ g => frame_inv g present /\ xf_phase g = 5
  end.

Lemma unexpected_answer f present : frame_inv f present -> tag_answer f present (choice_unexpected f).
Proof. intros Hi. split; [split; [exact (moved_refl f)|done]|]. split; [|done]. apply phase_inv; auto. Qed.

Section OnTag.
Context (chunk : list Z) f (Hsize : 0 < Z.of_nat (length chunk) <= Z.of_nat (length (xf_buf f))) (Hphase : xf_phase f <> 2).
Context (present : option (xer_variant (alternatives specs))) (Hinv : frame_inv f present).

(** Going on behind the tag. *)
Lemma taken_answer g : xf_consumed g = xf_consumed f -> xf_buf g = xf_buf f -> frame_inv g present ->
  tag_answer f present (Again (XER_ADVANCE (Z.of_nat (length chunk)) g)).
Proof using Hsize Hphase.
  intros Hc Hb Hg. split; [by apply progress_taken|]. split; [exact Hg|]. intros _. cbn [XER_ADVANCE xf_consumed]. rewrite Hc. lia.
Qed.

Lemma search_answer tcv : xf_phase f = 1 -> tag_answer f present (choice_search specs chunk tcv f).
Proof using Hsize Hphase Hinv.
  intros Hp. pose proof Hinv as (H1 & _ & H3 & _). specialize (H3 (or_intror Hp)). unfold choice_search.
  destruct (search_names _ _ _ _) as [[n|] tcv'] eqn:E.
  - apply search_bound in E. rewrite length_fmap in E. split.
    + split; [exact (moved_refl f)|]. unfold frame_measure. cbn. rewrite Hp. cbn. lia.
    + split; [|done]. split; [exact H1|]. cbn. split; [intros _; split; [lia|by rewrite H3]|]. split; lia.
  - destruct (negb _); [|by apply unexpected_answer]. destruct (tcv_closes tcv'); apply taken_answer; try done.
Qed.

Lemma on_tag_answer tcv : tag_answer f present (choice_on_tag specs chunk tcv f).
Proof using Hsize Hphase Hinv.
  assert (Hmember : tag_answer f present (if negb (xf_phase f =? 1) then choice_unexpected f else choice_search specs chunk tcv f)).
  { destruct (Z.eqb_spec (xf_phase f) 1); [by apply search_answer|by apply unexpected_answer]. }
  unfold choice_on_tag. destruct tcv as [|[] []]; try done; try by apply unexpected_answer.
  - destruct (Z.eqb_spec (xf_phase f) 0) as [Hp|]; [|exact Hmember]. apply (taken_answer (phase_to 1 f)); [done..|]. apply phase_inv; auto.
  - destruct (Z.eqb_spec (xf_phase f) 3) as [Hp|]; [|by apply unexpected_answer]. pose proof (moved_advance (Z.of_nat (length chunk)) f ltac:(lia)) as Ha.
    split; [split; [by apply moved_phase|intros _; cbn; lia]|]. split; [|done]. apply phase_inv; auto.
Qed.
End OnTag.

Lemma answer_from f g present r : xf_consumed f = xf_consumed g -> xf_buf f = xf_buf g -> frame_measure f = frame_measure g ->
  tag_answer f present r -> tag_answer g present r.
Proof. unfold tag_answer, progress, moved. by intros -> -> ->. Qed.

Lemma dispatch_answer chunk tcv f present : 0 < Z.of_nat (length chunk) <= Z.of_nat (length (xf_buf f)) -> xf_phase f <> 2 -> frame_inv f present ->
  exists r, choice_dispatch specs chunk tcv f = Some r /\ tag_answer f present r.
Proof.
  intros Hs Hp Hi. unfold choice_dispatch. destruct (Z.eqb_spec (xf_phase f) 4) as [E|]; [|eexists; split; [done|by apply on_tag_answer]].
  pose proof Hi as (H1 & _ & _ & H4). specialize (H4 E). unfold choice_skip, xer_skip_unknown. rewrite (proj2 (Z.leb_gt (xf_left f) 0)) by done.
  assert (Hin : forall depth, 0 < depth -> frame_inv (left_to depth f) present).
  { intros depth Hd. split; [exact H1|]. cbn. rewrite E. split; [lia|]. split; lia. }
  assert (Hout : forall depth, frame_inv (phase_to 3 (left_to depth f)) present).
  { intros depth. split; [exact H1|]. cbn. split; [lia|]. split; lia. }
  destruct tcv as [|expected []]; cbn [mbind option_bind]; (eexists; split; [reflexivity|]); cbn [Z.eqb Pos.eqb].
  - split; [split; [exact (moved_refl f)|done]|]. split; [|done]. split; [exact H1|]. cbn. split; [lia|]. split; lia.
  - apply taken_answer; [done..|]. apply Hin. lia.
  - destruct (Z.eqb_spec (xf_left f - 1) 0) as [El|]; [|apply taken_answer; [done..|apply Hin; lia]].
    destruct expected; cbn [Z.eqb Pos.eqb]; [|by apply taken_answer].
    apply answer_from with (f := phase_to 3 (left_to (xf_left f - 1) f)); [done..|unfold frame_measure; cbn; by rewrite E|].
    apply on_tag_answer; [done|done|apply Hout].
  - apply taken_answer; [done..|]. by apply Hin.
Qed.

Lemma enter_total f present : readable strings (xf_buf f) -> frame_inv f present ->
  exists code g present', choice_enter specs f present = Some (code, g, present') /\ moved f g /\ (code <> RC_FAIL -> frame_inv g present') /\
    (code <> RC_OK -> xf_phase g = 2) /\
    (code = RC_OK -> xf_phase g <> 2 /\ (frame_measure g <= frame_measure f)%nat /\
       (xf_phase f = 2 /\ xf_consumed f < xf_consumed g \/ g = f)).
Proof.
  intros Hok Hi. unfold choice_enter. destruct (Z.eqb_spec (xf_phase f) 2) as [E|E]; cbn [negb].
  2:{ exists RC_OK, f, present. split; [done|]. split; [apply moved_refl|]. split; [done|]. split; [done|]. intros _. split; [done|]. split; [lia|by right]. }
  destruct Hi as (H1 & H2 & H3 & H4). destruct (H2 E) as [Hstep Hold].
  destruct (step_variant_total _ Ts (xf_buf f) Hok (xf_step f) present Hstep H1) as (code & n & v & -> & Hn & Hc & Hv & Hidx). cbn [mbind option_bind].
  replace (from_option _ true present) with true.
  2:{ destruct present as [old|]; [|done]. cbn in Hold |- *. symmetry. by apply Z.eqb_eq. }
  cbn [negb]. eexists code, _, (Some v). split; [reflexivity|]. pose proof (moved_advance n f Hn) as Ha. case_bool_decide as Hcode.
  - split; [by apply moved_phase|]. split; [intros Hf; split; [exact (Hv Hf)|]; cbn; split; [lia|]; split; lia|]. split; [done|]. intros _. split; [done|].
    specialize (Hc Hcode). split; [|left; cbn; lia]. unfold frame_measure. cbn [phase_to XER_ADVANCE xf_buf xf_phase]. rewrite E, length_drop. cbn. lia.
  - split; [exact Ha|]. split; [|done]. intros Hf. split; [exact (Hv Hf)|]. cbn. rewrite E. split; [done|]. split; lia.
Qed.

Lemma choice_loop_total tag fuel : forall f0 f present, moved f0 f -> readable strings (xf_buf f) -> (frame_measure f < fuel)%nat -> frame_inv f present ->
  (xf_phase f = 3 -> tag = [] -> xf_consumed f0 < xf_consumed f) ->
  answers (choice_inv tag) f0 (choice_loop specs tag fuel f present).
Proof.
  induction fuel as [|fuel IH]; intros f0 f present Hm Hok Hfuel Hi Hend; [lia|]. cbn [choice_loop].
  assert (Hleave : forall code g present, moved f0 g -> (code <> RC_FAIL -> frame_inv g present) -> (xf_phase g = 3 -> tag <> []) ->
    (code = RC_OK -> xf_consumed f0 < xf_consumed g) -> answers (choice_inv tag) f0 (choice_leave specs code g present)).
  { intros code g pr Hg Hig Htag Hc. apply answers_return; [done|done|]. intros Hf. split; [by apply Hig|done]. }
  destruct (4 <? xf_phase f); [apply Hleave; [done|intros _; apply phase_inv; auto|done|done]|].
  destruct (enter_total f present Hok Hi) as (code & g & pr & -> & Hfg & Hig & Hbad & Hgood). cbn [mbind option_bind].
  pose proof (moved_trans _ _ _ Hm Hfg) as Hmg. case_bool_decide as Hcode; cbn [negb].
  2:{ apply Hleave; [done|done| |done]. by rewrite (Hbad Hcode). }
  destruct (Hgood Hcode) as (Hne & Hmeasure & Hhow). specialize (Hig ltac:(by rewrite Hcode)).
  assert (Hend' : xf_phase g = 3 -> tag = [] -> xf_consumed f0 < xf_consumed g).
  { intros Hp Ht. destruct Hhow as [[_ Hlt]|E]; [destruct Hm; lia|]. rewrite E in Hp |- *. by apply Hend. }
  destruct ((xf_phase g =? 3) && bool_decide (tag = [])) eqn:Eend.
  { apply andb_true_iff in Eend as [Ep%Z.eqb_eq Et%bool_decide_eq_true]. apply Hleave; [done|intros _; apply phase_inv; auto|done|]. intros _. by apply Hend'. }
  assert (Hnamed : xf_phase g = 3 -> tag <> []).
  { intros Ep Et. rewrite Ep, Et in Eend. by rewrite bool_decide_true in Eend. }
  pose proof (moved_readable _ _ _ Hfg Hok) as Hokg.
  destruct (part_any g) as (p & -> & Hp). cbn [mbind option_bind]. destruct p as [code'|g'|chunk g'].
  - by apply Hleave.
  - destruct Hp as (n & context & Hn & ->). pose proof (moved_advance n (context_to context g) ltac:(cbn; lia)) as Ha.
    pose proof (moved_trans _ _ _ Hmg Ha) as Hm'. apply IH; [done|exact (moved_readable _ _ _ Ha Hokg)| |exact Hig|].
    + unfold frame_measure in *. cbn [XER_ADVANCE context_to xf_buf xf_phase]. rewrite length_drop. lia.
    + intros _ _. destruct Hmg. cbn. lia.
  - destruct Hp as (Hn & context & ->).
    destruct (dispatch_answer chunk (xer_check_tag chunk (Some tag)) (context_to context g) pr Hn Hne Hig) as (r & -> & Hprog & Hr).
    cbn [mbind option_bind]. destruct r as [h|code' h]; destruct Hprog as [Hgh Hlt]; pose proof (moved_trans _ _ _ Hmg Hgh) as Hmh; destruct Hr as [Hih Hcase].
    + apply IH; [done|exact (moved_readable _ _ _ Hgh Hokg)| |done|]; [change (frame_measure (context_to context g)) with (frame_measure g) in Hlt; lia|].
      intros Hp3 _. specialize (Hcase Hp3). cbn in Hcase. destruct Hmg. lia.
    + apply Hleave; [done|done|by rewrite Hcase|]. intros E. specialize (Hlt E). cbn in Hlt. destruct Hmg. lia.
Qed.

(** A CHOICE ends if its alternatives do. *)
Definition choice_xer_total (tag : list Z) : @XerTotal strings (choice_t specs) (CHOICE_xer specs tag).
Proof using Ts.
  refine (@Build_XerTotal strings _ (CHOICE_xer specs tag) (fun opt_mname => choice_inv (default tag opt_mname)) _).
  intros opt_mname struct_ptr buf Hinv Hok. set (name := default tag opt_mname) in *.
  set (st := default (fresh_xer_choice specs) struct_ptr).
  assert (Hst : choice_inv name st).
  { destruct struct_ptr; [exact Hinv|]. split; [|done]. split; [exact I|]. cbn. split; [lia|]. split; [done|lia]. }
  set (f := if (xv_phase (xh_saved specs st) =? 0) && bool_decide (name = []) then phase_to 1 (resumed (xh_saved specs st) buf)
            else resumed (xh_saved specs st) buf).
  destruct Hst as [Hst Hnamed].
  assert (Hf : moved (resumed (xh_saved specs st) buf) f /\ frame_inv f (xh_present specs st) /\ readable strings (xf_buf f) /\
    (frame_measure f < choice_fuel buf)%nat /\ (xf_phase f = 3 -> name <> [])).
  { unfold f, frame_measure, choice_fuel. destruct (Z.eqb_spec (xv_phase (xh_saved specs st)) 0) as [E|E]; [destruct (bool_decide _)|]; cbn [andb].
    - split; [exact (moved_refl _)|]. split; [apply phase_inv; [done|by left]|]. split; [done|]. cbn. split; [lia|done].
    - split; [apply moved_refl|]. split; [done|]. split; [done|]. split; [cbn; case_match; lia|done].
    - split; [apply moved_refl|]. split; [done|]. split; [done|]. split; [cbn; case_match; lia|done]. }
  destruct Hf as (Hm & Hi & Hokf & Hfuel & Hname).
  destruct (choice_loop_total name (choice_fuel buf) _ f (xh_present specs st) Hm Hokf Hfuel Hi) as (code & n & st' & Hd & Hn & Hc & Hi').
  { intros Hp Ht. by destruct (Hname Hp). }
  exists code, n, (Some st'). split; [|split; [exact Hn|split; [intros E; split; [exact (Hc E)|by eexists]|exact Hi']]].
  change (('(code, n, st) ← choice_loop specs name (choice_fuel buf) f (xh_present specs st); Some (code, n, Some st)) = Some (code, n, Some st')).
  by rewrite Hd.
Defined.
End Total.

(** ** Extensions *)

Section Extension.
Context (specs : asn_CHOICE_specifics_t) (tag ext : list Z) (Htag : name_ok tag) (Hext : name_ok ext) (Hne : ext <> tag).
Context (Hnames : Forall name_ok (elm_mname <$> alternatives specs)) (Hunknown : ext ∉ elm_mname <$> alternatives specs).

Lemma search_misses names : ext ∉ names -> Forall name_ok names -> forall n,
  search_names (opening ext) names n (XCT false OPENING) = (None, XCT false OPENING).
Proof using Hext.
  induction names as [|name names IH]; [done|]. intros Hnot Hok n. apply not_elem_of_cons in Hnot as [Hn Hnot]. apply Forall_cons in Hok as [Ho Hok].
  cbn [search_names]. rewrite check_opening, bool_decide_false by done. by apply IH.
Qed.

(** An alternative that is not known: the text of an extensible CHOICE is taken
    without a value, that of another one is refused. *)
Lemma choice_unknown_ok text rest : Forall plain text ->
  let octets := element tag (element ext text) in
  if ext_start specs =? -1 then
    exists st n, CHOICE_decode_xer specs tag None (octets ++ rest) = Some (RC_FAIL, n, st) /\ xh_present specs st = None
  else
    exists st, CHOICE_decode_xer specs tag None (octets ++ rest) = Some (RC_OK, Z.of_nat (length octets), st) /\ xh_present specs st = None.
Proof using Htag Hext Hne Hnames Hunknown.
  intros Htext octets. unfold CHOICE_decode_xer. cbn [default fresh_xer_choice xh_saved xh_present].
  rewrite (bool_decide_false (tag = [])) by (by apply tag_named). rewrite andb_false_r.
  assert (Hfuel : (6 <= choice_fuel (octets ++ rest))%nat).
  { unfold choice_fuel, octets, element, opening, closing. rewrite !length_app. cbn [length]. rewrite !length_app. cbn [length]. lia. }
  destruct (choice_fuel _) as [|fuel]; [lia|].
  destruct (choice_open_ok specs tag Htag (element ext text ++ closing tag ++ rest) fuel (resumed zeroed_context (octets ++ rest)) None)
    as (f1 & H1 & C1 & ->).
  { split; [done|]. split; [done|]. unfold octets. cbn [resumed xf_buf]. unfold element at 1. by rewrite <- !app_assoc. }
  destruct fuel as [|fuel]; [lia|]. rewrite (choice_round specs tag Htag fuel 1 _ f1 None H1) by done. unfold element in H1. rewrite <- !app_assoc in H1.
  destruct H1 as (P1 & T1 & B1). rewrite (part_opening f1 T1 ext _ Hext B1). cbn [mbind option_bind].
  rewrite check_opening, bool_decide_false by done. unfold choice_dispatch, choice_on_tag, choice_search. cbn [context_to xf_phase]. rewrite P1.
  change (1 =? 4) with false. change (1 =? 1) with true. cbn [negb]. rewrite search_misses by done.
  destruct (ext_start specs =? -1); cbn [negb mbind option_bind]; [by eexists _, _|]. cbn [tcv_closes closing_bit].
  set (f2 := XER_ADVANCE _ _). assert (H2 : standing 4 (text ++ closing ext ++ closing tag ++ rest) f2).
  { split; [done|]. split; [done|]. cbn [f2 XER_ADVANCE phase_to left_to context_to xf_buf]. by rewrite B1, drop_chunk. }
  assert (Hskip : exists f3 fuel3, standing 4 (closing ext ++ closing tag ++ rest) f3 /\ xf_left f3 = 1 /\
    xf_consumed f3 = xf_consumed f2 + Z.of_nat (length text) /\ (2 <= fuel3)%nat /\ choice_loop specs tag fuel f2 None = choice_loop specs tag fuel3 f3 None).
  { destruct (decide (text = [])) as [->|Hnonempty].
    - exists f2, fuel. cbn [length app] in *. rewrite Z.add_0_r. do 3 (split; [done|]). split; [lia|done].
    - destruct fuel as [|fuel]; [lia|]. exists (past text (closing ext ++ closing tag ++ rest) f2), fuel. do 3 (split; [done|]). split; [lia|].
      rewrite (choice_round specs tag Htag fuel 4 _ f2 None H2) by done. destruct H2 as (P2 & T2 & B2).
      by rewrite (part_text f2 T2 text _ Hnonempty Htext B2). }
  destruct Hskip as (f3 & fuel3 & H3 & L3 & C3 & F3 & ->). destruct fuel3 as [|[|fuel3]]; [lia..|].
  rewrite (choice_round specs tag Htag (S fuel3) 4 _ f3 None H3) by done. destruct H3 as (P3 & T3 & B3).
  rewrite (part_closing f3 T3 ext _ Hext B3). cbn [mbind option_bind]. rewrite check_closing, bool_decide_false by done.
  unfold choice_dispatch, choice_skip, xer_skip_unknown. cbn [context_to xf_phase xf_left]. rewrite P3, L3. cbn [Z.eqb Pos.eqb Z.leb Z.compare mbind option_bind Z.sub Z.add Z.opp Pos.compare].
  set (f4 := XER_ADVANCE _ _). assert (H4 : standing 3 (closing tag ++ rest) f4).
  { split; [done|]. split; [done|]. cbn [f4 XER_ADVANCE phase_to left_to context_to xf_buf]. by rewrite B3, drop_chunk. }
  destruct (choice_close_ok specs tag Htag rest fuel3 f4 None H4) as (st & Hr & Hst). exists st. split; [|exact Hst].
  etransitivity; [exact Hr|]. do 3 f_equal. unfold octets. generalize C1 C3. unfold element. rewrite !length_app.
  cbn [f4 f2 XER_ADVANCE phase_to left_to context_to xf_consumed resumed]. lia.
Qed.
End Extension.

(** ** Properties *)


(** CHOICE \{ near BOOLEAN, far BOOLEAN, ... \} *)
Definition range_specs : asn_CHOICE_specifics_t := {|
  alternatives := [checked_member "near" None asn_generic_no_constraint true 0 2 None; checked_member "far" None asn_generic_no_constraint false 0 6 None];
  to_canonical_order := None; from_canonical_order := None; ext_start := 2 |}.

Definition range_laws : members_xer_laws (alternatives range_specs).
Proof.
  split; [|split; [|exact tt]]; (exists (boolean_xer_laws (chars "BOOLEAN")); split; [|split; discriminate]);
    (split; [by eexists|by repeat constructor]).
Defined.

Lemma range_distinct : NoDup (elm_mname <$> alternatives range_specs).
Proof. apply (bool_decide_unpack (NoDup (elm_mname <$> alternatives range_specs))). vm_compute. exact I. Qed.

Definition range_far : variant (alternatives range_specs) := inr (inl {| bool_int := 1 |}).


Example range_text :
  option_map (fun r => bb_bytes (snd r)) (xer_encode (H := CHOICE_xer range_specs (chars "Range")) (Some range_far) true {| bb_bytes := [] |}) =
    Some (chars "<Range><far><true/></far></Range>").
Proof. vm_compute. reflexivity. Qed.
