(* ===== verification/BerFrame.v ===== *)
(** * Inside a constructed encoding (support/constr_SET_OF.c,
    constr_SEQUENCE.c, constr_CHOICE.c)

    The three decoders share their macros: LEFT, SIZE_VIOLATION and ADVANCE
    over [ctx->left], [ptr], [size] and [consumed_myself], the check of the
    tags in phase 0, and the treatment of a member's answer. *)
From S2P Require Import Prelude Consumer PerNatural PerCodec BerTlv BerPrim BerType.

(** [fr_left] is ctx->left, the octets left for the structure or the negated
    number of end-of-contents expected; [fr_buf] is [ptr] with its [size]. *)
Record frame := { fr_left : Z; fr_consumed : Z; fr_buf : list Z }.

(** The octets [ptr, LEFT]: a negative ctx->left is a huge size_t. *)
Definition LEFT (f : frame) : list Z :=
  if fr_left f <? 0 then fr_buf f else take (Z.to_nat (fr_left f)) (fr_buf f).

Definition SIZE_VIOLATION (f : frame) : bool :=
  (0 <=? fr_left f) && (fr_left f <=? Z.of_nat (length (fr_buf f))).

Definition ADVANCE (num : Z) (f : frame) : frame :=
  {| fr_left := if 0 <=? fr_left f then fr_left f - num else fr_left f;
     fr_consumed := fr_consumed f + num; fr_buf := drop (Z.to_nat num) (fr_buf f) |}.

(** What is returned where octets are missing. *)
Definition missing (f : frame) : asn_dec_rval_code := if SIZE_VIOLATION f then RC_FAIL else RC_WMORE.

(** ctx->left++ behind an end-of-contents. *)
Definition closed_one (f : frame) : frame :=
  {| fr_left := fr_left f + 1; fr_consumed := fr_consumed f; fr_buf := fr_buf f |}.

(** Fetching T: the code to return, or the length of the tag and the tag. *)
Definition frame_tag (f : frame) : option (asn_dec_rval_code + Z * Z) :=
  let '(tag_len, tlv_tag) := ber_fetch_tag (LEFT f) in
  if tag_len =? 0 then Some (inl (missing f)) else if tag_len =? -1 then Some (inl RC_FAIL) else
  tag ← tlv_tag; Some (inr (tag_len, tag)).

(** Whether the two octets of an end-of-contents stand at [ptr]; the code to
    return when the second is missing. *)
Definition at_end_of_contents (f : frame) : option (asn_dec_rval_code + bool) :=
  b0 ← read (fr_buf f) 0;
  if b0 =? 0 then
    if Z.of_nat (length (LEFT f)) <? 2 then Some (inl (missing f))
    else b1 ← read (fr_buf f) 1; Some (inr (b1 =? 0))
  else Some (inr false).

(** A member's own decoder on the octets left: [None] goes on behind it. *)
Definition member_answer {A} (r : asn_dec_rval_code * Z * A) (f : frame) : option asn_dec_rval_code * A * frame :=
  let '(code, consumed, p) := r in
  match code with
  | RC_OK => (None, p, ADVANCE consumed f)
  | RC_WMORE => if SIZE_VIOLATION f then (Some RC_FAIL, p, f) else (Some RC_WMORE, p, ADVANCE consumed f)
  | RC_FAIL => (Some RC_FAIL, p, f)
  end.

(** Passing over an element that is not known, behind its tag. *)
Definition skip_element (tag_len : Z) (f : frame) : option (asn_dec_rval_code + frame) :=
  octet ← read (fr_buf f) 0;
  let ptr := drop (Z.to_nat tag_len) (LEFT f) in
  skip ← ber_skip_length (S (length ptr)) (BER_TLV_CONSTRUCTED octet) ptr;
  Some (if skip =? 0 then inl (missing f) else if skip =? -1 then inl RC_FAIL
        else inr (ADVANCE (skip + tag_len) f)).

(** Phase 0: the tags of the structure.  Code, octets consumed when it is not
    RC_OK, ctx->step as the check leaves it, and the frame behind them. *)
Definition open_frame (tags : list Z) (tag_mode last_tag_form step left : Z) (buf : list Z) :
    option (asn_dec_rval_code * Z * Z * frame) :=
  '(code, consumed, ctx, last) ← ber_check_tags tags (Some step) buf tag_mode last_tag_form;
  step ← ctx;
  if negb (bool_decide (code = RC_OK)) then
    Some (code, consumed, step, {| fr_left := left; fr_consumed := 0; fr_buf := buf |})
  else
    '(left, _) ← last;
    let left := if 0 <=? left then left + consumed else left in
    Some (RC_OK, consumed, step, ADVANCE consumed {| fr_left := left; fr_consumed := 0; fr_buf := buf |}).

(** ** Lemmas: contents of definite length *)

(** [todo] is left of the structure, [rest] lies behind it. *)
Definition inside (f : frame) (todo rest : list Z) : Prop :=
  fr_left f = Z.of_nat (length todo) /\ fr_buf f = todo ++ rest.

Lemma inside_left f todo rest : inside f todo rest -> LEFT f = todo.
Proof.
  intros [Hl Hb]. unfold LEFT. destruct (Z.ltb_spec (fr_left f) 0); [lia|].
  by rewrite Hl, Hb, Nat2Z.id, take_app_length.
Qed.

Lemma inside_advance f a b rest : inside f (a ++ b) rest ->
  inside (ADVANCE (Z.of_nat (length a)) f) b rest /\
  fr_consumed (ADVANCE (Z.of_nat (length a)) f) = fr_consumed f + Z.of_nat (length a).
Proof.
  intros [Hl Hb]. unfold inside, ADVANCE. cbn [fr_left fr_buf fr_consumed]. rewrite Hl, Hb, length_app.
  split; [|done]. split; [|by rewrite Nat2Z.id, <- app_assoc, drop_app_length].
  destruct (Z.leb_spec 0 (Z.of_nat (length a + length b))); lia.
Qed.

(** The tag at the front of what is left, whatever the kind of length. *)
Lemma frame_tag_at f tag c todo : tag_ok tag -> LEFT f = identifier tag c ++ todo ->
  frame_tag f = Some (inr (Z.of_nat (length (identifier tag c)), tag)).
Proof.
  intros Ht Hl. unfold frame_tag. rewrite Hl.
  destruct (identifier_front tag c todo Ht) as (o & _ & _ & ->).
  pose proof (tag_octets_bound tag ltac:(unfold tag_ok in Ht; lia)). rewrite <- (length_identifier tag c) in *.
  rewrite (proj2 (Z.eqb_neq _ 0)), (proj2 (Z.eqb_neq _ (-1))) by lia. done.
Qed.

Lemma inside_tag f tag c todo rest : tag_ok tag -> inside f (identifier tag c ++ todo) rest ->
  frame_tag f = Some (inr (Z.of_nat (length (identifier tag c)), tag)).
Proof. intros Ht Hi. apply frame_tag_at with todo; [done|]. by eapply inside_left. Qed.

Lemma open_frame_der tags tag_mode lf tag contents left rest : form_ok true lf -> mode_ok tags tag_mode ->
  Forall tag_ok (tags_to_write tags tag_mode tag) ->
  let header := der_header true (tags_to_write tags tag_mode tag) (Z.of_nat (length contents)) in
  Z.of_nat (length (header ++ contents)) <= RSSIZE_MAX ->
  exists step f, open_frame tags tag_mode lf 0 left ((header ++ contents) ++ rest) =
    Some (RC_OK, Z.of_nat (length header), step, f) /\
    inside f contents rest /\ fr_consumed f = Z.of_nat (length header).
Proof.
  intros Hf Hm Hok header Hl. rewrite length_app in Hl. unfold open_frame. rewrite <- app_assoc.
  destruct (ber_check_tags_der true lf tags (Some 0) tag_mode tag (Z.of_nat (length contents))
    (length (header ++ contents ++ rest)) (contents ++ rest)) as (consumed & ctx & Hct & _ & Hctx);
    [done|done|done|done|lia|fold header; lia|].
  fold header in Hct. rewrite take_ge in Hct by done. rewrite decide_False in Hct by (rewrite length_app; lia).
  destruct (Hctx ltac:(done)) as (step & ->). rewrite Hct. cbn [mbind option_bind]. rewrite bool_decide_true by done.
  cbn [negb mbind option_bind]. destruct (Z.leb_spec 0 (Z.of_nat (length contents))); [|lia].
  eexists _, _. split; [done|].
  apply (inside_advance {| fr_left := Z.of_nat (length contents) + Z.of_nat (length header); fr_consumed := 0;
    fr_buf := header ++ contents ++ rest |} header contents rest).
  split; cbn [fr_left fr_buf]; [rewrite length_app; lia|by rewrite <- app_assoc].
Qed.
