(* ===== verification/BerSetOf.v ===== *)
(** * SEQUENCE OF and SET OF in BER and DER (support/constr_SET_OF.c,
    constr_SEQUENCE_OF.c)

    The elements one behind the other inside the tags of the list; in DER the
    encodings of a SET OF are sorted.  The decoder serves both types: a state
    machine that stops when octets are missing and goes on with the context it
    left in the structure. *)
From stdpp Require Import sorting.
From S2P Require Import Prelude Outcome Consumer PerNatural PerCodec AsnInteger UperInteger SequenceOf SetOf.
From S2P Require Import BerTlv BerPrim BerType BerFrame.
#[local] Open Scope Z_scope.

(** ** Encoding *)

Section Encode.
Context {T : Type} `{BT : BerType T} (scratch tags : list Z) (elm_tag : Z).
Context {S : Type} `{C : Consumer S}.

(** The sizes of the elements: a null one is passed over by SEQUENCE OF
    ([skip]) and refused by SET OF. *)
Fixpoint gather_size (skip : bool) (l : asn_anonymous_set_ T) (computed_size : Z) : option (option Z) :=
  match l with
  | [] => Some (Some computed_size)
  | None :: l => if skip then gather_size skip l computed_size else Some None
  | Some t :: l =>
    '(encoded, _) ← der_encoder S C t 0 elm_tag None;
    if encoded =? -1 then Some None else gather_size skip l (u64 (computed_size + encoded))
  end.

Fixpoint emit_elems (l : asn_anonymous_set_ T) (encoding_size : Z) (key : S) : option (option Z * S) :=
  match l with
  | [] => Some (Some encoding_size, key)
  | None :: l => emit_elems l encoding_size key
  | Some t :: l =>
    '(encoded, key') ← der_encoder S C t 0 elm_tag (Some key);
    key ← key';
    if encoded =? -1 then Some (None, key) else emit_elems l (encoding_size + encoded) key
  end.

Definition SEQUENCE_OF_encode_der (l : asn_anonymous_set_ T) (tag_mode tag : Z) (key : option S) :
    option (Z * option S) :=
  computed_size ← gather_size true l 0;
  match computed_size with
  | None => Some (-1, key)
  | Some computed_size =>
    '(encoding_size, key) ← der_write_tags scratch tags computed_size tag_mode true tag key;
    if encoding_size =? -1 then Some (-1, key) else
    let computed_size := u64 (computed_size + encoding_size) in
    match key with
    | None => Some (s64 computed_size, None)
    | Some key =>
      '(encoding_size, key) ← emit_elems l encoding_size key;
      Some (match encoding_size with
            | None => -1
            | Some encoding_size => if computed_size =? u64 encoding_size then s64 computed_size else -1
            end, Some key)
    end
  end.

(** The encodings of the members for sorting, with SOES_DER: the loop is left
    at a null or refused member.  Nothing sets bits_unused. *)
Fixpoint der_members (l : asn_anonymous_set_ T) : option (option (list el_buffer)) :=
  match l with
  | [] => Some (Some [])
  | None :: _ => Some None
  | Some t :: l =>
    '(encoded, el) ← der_encoder el_buffer el_consumer t 0 elm_tag (Some {| el_buf := []; bits_unused := 0 |});
    el ← el;
    if encoded <? 0 then Some None else
    rest ← der_members l;
    Some (option_map (cons {| el_buf := el_buf el; bits_unused := 0 |}) rest)
  end.

Fixpoint report_els (els : list el_buffer) (encoding_size : Z) (key : S) : option Z * S :=
  match els with
  | [] => (Some encoding_size, key)
  | el :: els =>
    let '(rc, key) := consume (el_buf el) key in
    if rc <? 0 then (None, key) else report_els els (encoding_size + Z.of_nat (length (el_buf el))) key
  end.

(** The result of SET_OF__encode_sorted is dereferenced unchecked. *)
Definition SET_OF_encode_der `{Q : Qsort} (l : asn_anonymous_set_ T) (tag_mode tag : Z) (key : option S) :
    option (Z * option S) :=
  computed_size ← gather_size false l 0;
  match computed_size with
  | None => Some (-1, key)
  | Some computed_size =>
    '(encoding_size, key) ← der_write_tags scratch tags computed_size tag_mode true tag key;
    if encoding_size <? 0 then Some (-1, key) else
    let computed_size := u64 (computed_size + encoding_size) in
    match key with
    | None => Some (s64 computed_size, None)
    | Some key =>
      if bool_decide (l = []) then Some (s64 computed_size, Some key) else
      els ← der_members l;
      els ← els;
      els ← qsort el_buf_cmp els;
      let '(encoding_size, key) := report_els els encoding_size key in
      match encoding_size with
      | None => Some (-1, Some key)
      | Some encoding_size =>
        if computed_size =? u64 encoding_size then Some (s64 computed_size, Some key) else None
      end
    end
  end.
End Encode.

(** ** Decoding *)

(** The structure: the array and the decoder context (asn_struct_ctx_t);
    [bl_ptr] is the element under construction. *)
Record ber_list_struct (E : Type) := {
  bl_phase : Z;
  bl_step : Z;
  bl_left : Z;
  bl_ptr : option E;
  bl_list : asn_anonymous_set_ E
}.
Arguments Build_ber_list_struct {E}.
Arguments bl_phase {E}.
Arguments bl_step {E}.
Arguments bl_left {E}.
Arguments bl_ptr {E}.
Arguments bl_list {E}.

(** What microphase 1 finds: octets missing or wrong, the end of the contents,
    the end-of-contents octets, or an element. *)
Inductive sync := Stop (code : asn_dec_rval_code) | Ended | Terminator | Element.

Definition sync_item (elm_tag : Z) (f : frame) : option sync :=
  if fr_left f =? 0 then Some Ended else
  r ← frame_tag f;
  match r with
  | inl code => Some (Stop code)
  | inr (_, tlv_tag) =>
    eoc ← (if fr_left f <? 0 then at_end_of_contents f else Some (inr false));
    match eoc with
    | inl code => Some (Stop code)
    | inr true => Some Terminator
    | inr false =>
      Some (if negb (elm_tag =? any_tag) && negb (tlv_tag =? elm_tag) then Stop RC_FAIL else Element)
    end
  end.

(** Phase 2: [n] end-of-contents are expected. *)
Fixpoint read_terminators (n : nat) (f : frame) : asn_dec_rval_code * frame :=
  match n with
  | O => (RC_OK, f)
  | S n =>
    match fr_buf f with
    | b0 :: b1 :: _ =>
      if (b0 =? 0) && (b1 =? 0) then read_terminators n (closed_one (ADVANCE 2 f)) else (RC_FAIL, f)
    | [b0] => (if negb (b0 =? 0) then RC_FAIL else RC_WMORE, f)
    | [] => (RC_WMORE, f)
    end
  end.

Section Decode.
Context {T : Type} `{BT : BerType T} (tags : list Z) (elm_tag : Z).
Implicit Types f : frame.
Implicit Types st : ber_list_struct ber_struct.
Implicit Types lst : asn_anonymous_set_ ber_struct.

Definition fresh_ber_list : ber_list_struct ber_struct :=
  {| bl_phase := 0; bl_step := 0; bl_left := 0; bl_ptr := None; bl_list := [] |}.

Definition list_return (code : asn_dec_rval_code) (phase step : Z) (ptr : option ber_struct) lst f :
    option (asn_dec_rval_code * Z * ber_list_struct ber_struct) :=
  Some (code, fr_consumed f,
        {| bl_phase := phase; bl_step := step; bl_left := fr_left f; bl_ptr := ptr; bl_list := lst |}).

Definition list_phase2 (ptr : option ber_struct) lst f : option (asn_dec_rval_code * Z * ber_list_struct ber_struct) :=
  let '(code, f) := read_terminators (Z.to_nat (- fr_left f)) f in
  list_return code (if decide (code = RC_OK) then 10 else 2) 0 ptr lst f.

(** The loop over the elements; an element takes up at least one octet, so
    [fuel] over their number is enough. *)
Fixpoint list_loop (fuel : nat) (step : Z) (ptr : option ber_struct) lst f :
    option (asn_dec_rval_code * Z * ber_list_struct ber_struct) :=
  match fuel with
  | O => None
  | S fuel =>
    sy ← (if Z.land step 1 =? 0 then sync_item elm_tag f else Some Element);
    match sy with
    | Stop code => list_return code 1 step ptr lst f
    | Ended => list_return RC_OK 10 step ptr lst f
    | Terminator => list_phase2 ptr lst f
    | Element =>
      r ← ber_decoder 0 ptr (LEFT f);
      let '(answer, ptr, f') := member_answer r f in
      match answer with
      | None =>
        let '(rc, lst) := asn_set_add lst ptr in
        if negb (rc =? 0) then list_return RC_FAIL 1 (Z.lor step 1) ptr lst f
        else list_loop fuel 0 None lst f'
      | Some RC_WMORE => list_return RC_WMORE 1 (Z.lor step 1) ptr lst f'
      | Some _ => list_return RC_FAIL 1 (Z.lor step 1) None lst f'
      end
    end
  end.

Definition SET_OF_decode_ber (struct_ptr : option (ber_list_struct ber_struct)) (buf : list Z) (tag_mode : Z) :
    option (asn_dec_rval_code * Z * ber_list_struct ber_struct) :=
  let st := default fresh_ber_list struct_ptr in
  let fuel := S (length buf) in
  if bl_phase st =? 0 then
    '(code, consumed, step, f) ← open_frame tags tag_mode 1 (bl_step st) (bl_left st) buf;
    if negb (bool_decide (code = RC_OK)) then
      Some (code, consumed, {| bl_phase := 0; bl_step := step; bl_left := fr_left f;
                               bl_ptr := bl_ptr st; bl_list := bl_list st |})
    else list_loop fuel 0 (bl_ptr st) (bl_list st) f
  else
    let f := {| fr_left := bl_left st; fr_consumed := 0; fr_buf := buf |} in
    if bl_phase st =? 1 then list_loop fuel (bl_step st) (bl_ptr st) (bl_list st) f
    else if bl_phase st =? 2 then list_phase2 (bl_ptr st) (bl_list st) f
    else Some (RC_OK, 0, st).

Definition ber_list_value st : asn_anonymous_set_ T := option_map ber_value <$> bl_list st.
End Decode.

(** The operations of the two list types. *)
Definition SEQUENCE_OF_ber {T} `{BT : BerType T} (scratch tags : list Z) (elm_tag : Z) : BerType (asn_anonymous_set_ T) := {|
  ber_struct := ber_list_struct ber_struct;
  ber_value := ber_list_value;
  ber_outmost _ := hd 0 tags;
  ber_decoder tag_mode struct_ptr buf :=
    '(code, n, st) ← SET_OF_decode_ber tags elm_tag struct_ptr buf tag_mode; Some (code, n, Some st);
  der_encoder S C l tag_mode tag key := SEQUENCE_OF_encode_der scratch tags elm_tag l tag_mode tag key
|}.

Definition SET_OF_ber {T} `{BT : BerType T} `{Q : Qsort} (scratch tags : list Z) (elm_tag : Z) :
    BerType (asn_anonymous_set_ T) := {|
  ber_struct := ber_list_struct ber_struct;
  ber_value := ber_list_value;
  ber_outmost _ := hd 0 tags;
  ber_decoder tag_mode struct_ptr buf :=
    '(code, n, st) ← SET_OF_decode_ber tags elm_tag struct_ptr buf tag_mode; Some (code, n, Some st);
  der_encoder S C l tag_mode tag key := SET_OF_encode_der scratch tags elm_tag l tag_mode tag key
|}.

(** ** Lemmas *)

Section Spec.
Context {T : Type} `{L : BerTypeLaws T} (scratch tags : list Z) (elm_tag : Z).
Context (Hscratch : length scratch = 32%nat) (Hlen : (1 <= length tags <= 3)%nat) (Htags : Forall tag_ok tags).

(** An element: encodable with tag mode 0, and under the tag that the list
    type expects. *)
Definition elem_dom (t : T) : Prop := der_dom t /\ (elm_tag <> any_tag -> ber_outmost t = elm_tag).

Definition elem_octets (t : T) : list Z := der_of 0 elm_tag t.

Definition list_body (vs : list T) : list Z := concat (elem_octets <$> vs).

Definition list_octets (tag_mode tag : Z) (vs : list T) : list Z :=
  der_header true (tags_to_write tags tag_mode tag) (Z.of_nat (length (list_body vs))) ++ list_body vs.

Lemma list_body_cons t vs : list_body (t :: vs) = elem_octets t ++ list_body vs.
Proof. done. Qed.

Lemma elem_front t : der_mode 0 -> elem_dom t -> tag_ok (ber_outmost t) /\
  exists c rest, elem_octets t = identifier (ber_outmost t) c ++ rest.
Proof. intros Hm [Hd _]. exact (der_front_law t 0 elm_tag Hd Hm (or_introl eq_refl)). Qed.

Lemma elem_octets_pos t : der_mode 0 -> elem_dom t -> (0 < length (elem_octets t))%nat.
Proof.
  intros Hm Hd. destruct (elem_front t Hm Hd) as (Ht & c & rest & ->).
  unfold tag_ok in Ht. rewrite length_app, length_identifier.
  assert (H1 : (1 <= length (tag_octets (ber_outmost t)) <= 6)%nat) by (apply tag_octets_bound; lia). lia.
Qed.

Lemma list_body_length vs : der_mode 0 -> Forall elem_dom vs -> (length vs <= length (list_body vs))%nat.
Proof.
  intros Hm Hd. induction Hd as [|t vs Ht Hd IH]; [done|]. rewrite list_body_cons, length_app. cbn [length].
  pose proof (elem_octets_pos t Hm Ht). lia.
Qed.

(** *** Encoding *)

Section Write.
Context {S : Type} {C : Consumer S} {A : AppendConsumer S}.

Lemma elem_enc t : der_mode 0 -> elem_dom t -> Z.of_nat (length (elem_octets t)) <= RSSIZE_MAX ->
  der_encoder S C t 0 elm_tag None = Some (Z.of_nat (length (elem_octets t)), None) /\
  forall key, exists key', der_encoder S C t 0 elm_tag (Some key) =
    Some (Z.of_nat (length (elem_octets t)), Some key') /\ written key' = written key ++ elem_octets t.
Proof. intros Hm [Hd _] Hl. exact (der_enc_law S C A t 0 elm_tag Hd Hm (or_introl eq_refl) Hl). Qed.

Lemma gather_size_ok skip vs size : der_mode 0 -> Forall elem_dom vs -> 0 <= size ->
  size + Z.of_nat (length (list_body vs)) <= RSSIZE_MAX ->
  gather_size (S := S) elm_tag skip (Some <$> vs) size = Some (Some (size + Z.of_nat (length (list_body vs)))).
Proof using All.
  assert (Hmax : RSSIZE_MAX = 4611686018427387903) by reflexivity.
  intros Hm Hd. revert size. induction Hd as [|t vs Ht Hd IH]; intros size Hs Hl.
  { cbn. by rewrite Z.add_0_r. }
  rewrite list_body_cons, length_app in Hl |- *. cbn [fmap list_fmap gather_size].
  destruct (elem_enc t Hm Ht) as [-> _]; [lia|]. cbn [mbind option_bind].
  rewrite (proj2 (Z.eqb_neq _ (-1))), u64_small by lia.
  rewrite IH by lia. do 2 f_equal. lia.
Qed.

Lemma emit_elems_ok vs size (key : S) : der_mode 0 -> Forall elem_dom vs ->
  Z.of_nat (length (list_body vs)) <= RSSIZE_MAX ->
  exists key', emit_elems elm_tag (Some <$> vs) size key =
    Some (Some (size + Z.of_nat (length (list_body vs))), key') /\ written key' = written key ++ list_body vs.
Proof using All.
  intros Hm Hd. revert size key. induction Hd as [|t vs Ht Hd IH]; intros size key Hl.
  { exists key. cbn. by rewrite Z.add_0_r, app_nil_r. }
  rewrite list_body_cons, length_app in Hl |- *. cbn [fmap list_fmap emit_elems].
  destruct (elem_enc t Hm Ht) as [_ Hw]; [lia|]. destruct (Hw key) as (k1 & -> & Hk1). cbn [mbind option_bind].
  rewrite (proj2 (Z.eqb_neq _ (-1))) by lia.
  destruct (IH (size + Z.of_nat (length (elem_octets t))) k1 ltac:(lia)) as (k2 & -> & Hk2).
  exists k2. split; [do 3 f_equal; lia|]. by rewrite Hk2, Hk1, app_assoc.
Qed.
End Write.

(** *** Decoding *)

Lemma sync_element t vs f rest : der_mode 0 -> elem_dom t ->
  inside f (list_body (t :: vs)) rest -> sync_item elm_tag f = Some Element.
Proof using All.
  intros Hm Hd Hi. unfold sync_item. pose proof (elem_octets_pos t Hm Hd) as Hpos.
  destruct (elem_front t Hm Hd) as (Ht & c & r & Heq).
  rewrite list_body_cons in Hi. destruct Hi as [Hl Hb]. rewrite length_app in Hl.
  rewrite (proj2 (Z.eqb_neq (fr_left f) 0)) by lia.
  rewrite (inside_tag f (ber_outmost t) c (r ++ list_body vs) rest Ht).
  2: { split; rewrite app_assoc, <- Heq; [by rewrite length_app|done]. }
  cbn [mbind option_bind]. destruct (Z.ltb_spec (fr_left f) 0); [lia|]. cbn [mbind option_bind].
  destruct (Z.eqb_spec elm_tag any_tag) as [|Hne]; [done|]. cbn [negb andb].
  by rewrite (proj2 Hd Hne), Z.eqb_refl.
Qed.

Lemma list_loop_ok vs : der_mode 0 -> Forall elem_dom vs -> forall fuel lst f rest, (length vs < fuel)%nat ->
  inside f (list_body vs) rest -> Z.of_nat (length (list_body vs)) <= RSSIZE_MAX ->
  exists st, list_loop elm_tag fuel 0 None lst f =
      Some (RC_OK, fr_consumed f + Z.of_nat (length (list_body vs)), st) /\
    ber_list_value st = (option_map ber_value <$> lst) ++ (Some <$> (der_norm <$> vs)).
Proof using All.
  intros Hm Hd. induction Hd as [|t vs Ht Hd IH]; intros [|fuel] lst f rest Hf Hi Hl; cbn [length] in Hf; try lia.
  - eexists. cbn [list_loop]. change (Z.land 0 1 =? 0) with true. unfold sync_item. rewrite (proj1 Hi). cbn.
    rewrite app_nil_r, Z.add_0_r. done.
  - cbn [list_loop]. change (Z.land 0 1 =? 0) with true. cbn iota.
    rewrite (sync_element t vs f rest Hm Ht Hi). cbn [mbind option_bind].
    rewrite (inside_left _ _ _ Hi). rewrite list_body_cons, length_app in Hl |- *. rewrite list_body_cons in Hi.
    destruct (ber_dec_law t 0 elm_tag (list_body vs) (proj1 Ht) Hm (or_introl eq_refl)) as (e & Hr & Hv).
    { fold (elem_octets t). lia. }
    fold (elem_octets t) in Hr. rewrite Hr. cbn [mbind option_bind member_answer asn_set_add Z.eqb negb].
    destruct (inside_advance f _ _ _ Hi) as [Hi' Hc].
    destruct (IH fuel (lst ++ [Some e]) _ rest ltac:(lia) Hi' ltac:(lia)) as (st & -> & Hval).
    exists st. rewrite Hc. split; [do 3 f_equal; lia|].
    rewrite Hval, fmap_app, <- app_assoc. cbn [fmap list_fmap option_map app]. by rewrite Hv.
Qed.

(** The whole decoder on an encoding. *)
Lemma list_decode_ok vs tag_mode tag rest : der_mode 0 -> Forall elem_dom vs -> prim_mode tag_mode ->
  tagging_ok tag_mode tag -> Z.of_nat (length (list_octets tag_mode tag vs)) <= RSSIZE_MAX ->
  exists st, SET_OF_decode_ber tags elm_tag None (list_octets tag_mode tag vs ++ rest) tag_mode =
      Some (RC_OK, Z.of_nat (length (list_octets tag_mode tag vs)), st) /\
    ber_list_value st = Some <$> (der_norm <$> vs).
Proof using All.
  intros Hm Hd Hp Ht Hl. destruct (tags_to_write_ok scratch tags Hscratch Hlen Htags tag_mode tag Hp Ht) as [Hall _].
  unfold SET_OF_decode_ber, list_octets in *. cbn [default fresh_ber_list bl_phase Z.eqb bl_step bl_left bl_ptr bl_list].
  destruct (open_frame_der tags tag_mode 1 tag (list_body vs) 0 rest) as (step & f & -> & Hi & Hc);
    [by left|by eapply prim_mode_ok|done|done|].
  cbn [mbind option_bind]. rewrite bool_decide_true by done. cbn [negb].
  set (header := der_header true _ _) in *. rewrite length_app in Hl.
  pose proof (list_body_length vs Hm Hd).
  destruct (list_loop_ok vs Hm Hd (S (length ((header ++ list_body vs) ++ rest))) [] f rest) as (st & -> & Hv);
    [rewrite !length_app; lia|done|lia|].
  exists st. rewrite length_app, Hc, Nat2Z.inj_add. done.
Qed.

Lemma list_size vs tag_mode tag : Z.of_nat (length (list_octets tag_mode tag vs)) <= RSSIZE_MAX ->
  Z.of_nat (length (der_header true (tags_to_write tags tag_mode tag) (Z.of_nat (length (list_body vs))))) +
  Z.of_nat (length (list_body vs)) = Z.of_nat (length (list_octets tag_mode tag vs)).
Proof using All. intros _. unfold list_octets. rewrite length_app. lia. Qed.

Lemma sequence_of_encode_der_ok {S} {C : Consumer S} {A : AppendConsumer S} vs tag_mode tag :
  der_mode 0 -> Forall elem_dom vs -> prim_mode tag_mode -> tagging_ok tag_mode tag ->
  Z.of_nat (length (list_octets tag_mode tag vs)) <= RSSIZE_MAX ->
  SEQUENCE_OF_encode_der (S := S) scratch tags elm_tag (Some <$> vs) tag_mode tag None =
    Some (Z.of_nat (length (list_octets tag_mode tag vs)), None) /\
  forall key, exists key', SEQUENCE_OF_encode_der scratch tags elm_tag (Some <$> vs) tag_mode tag (Some key) =
    Some (Z.of_nat (length (list_octets tag_mode tag vs)), Some key') /\
    written key' = written key ++ list_octets tag_mode tag vs.
Proof using All.
  assert (Hmax : RSSIZE_MAX = 4611686018427387903) by reflexivity.
  intros Hm Hd Hp Ht Hl. pose proof (list_size vs tag_mode tag Hl) as Hsize.
  destruct (tags_to_write_ok scratch tags Hscratch Hlen Htags tag_mode tag Hp Ht) as [Hall _].
  unfold SEQUENCE_OF_encode_der. rewrite (gather_size_ok true vs 0) by (done || lia). rewrite Z.add_0_l.
  cbn [mbind option_bind].
  destruct (der_write_tags_ok (S := S) scratch Hscratch tags (Z.of_nat (length (list_body vs))) tag_mode true tag)
    as [Hn Hk]; [lia|lia|done|lia|].
  set (header := der_header true _ _) in *. split; [rewrite Hn|intros key; destruct (Hk key) as (k1 & -> & Hk1)];
    cbn [mbind option_bind]; rewrite (proj2 (Z.eqb_neq _ (-1))) by lia; rewrite u64_small by lia.
  - rewrite s64_small by lia. do 2 f_equal. lia.
  - destruct (emit_elems_ok vs (Z.of_nat (length header)) k1 Hm Hd ltac:(lia)) as (k2 & -> & Hk2).
    cbn [mbind option_bind]. rewrite u64_small, (Z.add_comm (Z.of_nat (length header))), Z.eqb_refl, s64_small by lia.
    exists k2. split; [do 3 f_equal; lia|]. unfold list_octets. by rewrite Hk2, Hk1, <- app_assoc.
Qed.

(** *** SET OF *)

Definition el_of_octets (octets : list Z) : el_buffer := {| el_buf := octets; bits_unused := 0 |}.

Lemma der_members_ok vs : der_mode 0 -> Forall elem_dom vs -> Z.of_nat (length (list_body vs)) <= RSSIZE_MAX ->
  der_members elm_tag (Some <$> vs) = Some (Some (el_of_octets ∘ elem_octets <$> vs)).
Proof using All.
  intros Hm Hd. induction Hd as [|t vs Ht Hd IH]; intros Hl; [done|].
  rewrite list_body_cons, length_app in Hl. cbn [fmap list_fmap der_members].
  destruct (elem_enc (S := el_buffer) t Hm Ht) as [_ Hw]; [lia|].
  destruct (Hw {| el_buf := []; bits_unused := 0 |}) as (el & -> & Hk). cbn [written el_append el_buf app] in Hk.
  cbn [mbind option_bind]. destruct (Z.ltb_spec (Z.of_nat (length (elem_octets t))) 0); [lia|].
  rewrite IH by lia. cbn [mbind option_bind option_map]. by rewrite Hk.
Qed.

Definition octets_le (a b : T) : Prop := el_order (elem_octets a) (elem_octets b) <= 0.

Lemma octet_unused o : bytes_ok o -> assert_unused_bits (el_of_octets o) = true.
Proof.
  intros Hok. unfold assert_unused_bits. cbn [el_of_octets el_buf bits_unused].
  destruct (last o) as [b|] eqn:Hl; [|done]. apply last_Some_elem_of in Hl.
  assert (Hb : byte_ok b) by (by apply (proj1 (Forall_forall _ _) Hok)). unfold byte_ok in Hb.
  change (255 ≪ 0) with (2 ^ 8 - 1). rewrite land_clear_low by lia.
  rewrite shiftr_div by lia. by rewrite Z.div_small by lia.
Qed.

Lemma elem_bytes t : der_mode 0 -> elem_dom t -> Z.of_nat (length (elem_octets t)) <= RSSIZE_MAX ->
  bytes_ok (elem_octets t).
Proof. intros Hm [Hd _] Hl. exact (der_bytes_law t 0 elm_tag Hd Hm (or_introl eq_refl) Hl). Qed.

Lemma elem_in_body t vs : t ∈ vs -> (length (elem_octets t) <= length (list_body vs))%nat.
Proof.
  induction vs as [|t' vs IH]; [by intros ?%not_elem_of_nil|]. rewrite list_body_cons, length_app.
  intros [->|Ht]%elem_of_cons; [lia|]. specialize (IH Ht). lia.
Qed.

(** qsort arranges the elements by their encodings. *)
Lemma sort_members `{QL : QsortLaws} vs : der_mode 0 -> Forall elem_dom vs ->
  Z.of_nat (length (list_body vs)) <= RSSIZE_MAX -> exists vs', vs' ≡ₚ vs /\ StronglySorted octets_le vs' /\
  qsort el_buf_cmp (el_of_octets ∘ elem_octets <$> vs) = Some (el_of_octets ∘ elem_octets <$> vs').
Proof using All.
  intros Hm Hd Hl.
  destruct (qsort_sorts _ el_buf_cmp (fun a b => el_order (el_buf a) (el_buf b)) (el_of_octets ∘ elem_octets <$> vs))
    as (els & -> & Hp & Hs).
  - rewrite Forall_forall in Hd.
    assert (Hu : forall a, a ∈ el_of_octets ∘ elem_octets <$> vs -> assert_unused_bits a = true).
    { intros a (t & -> & Ht)%list_elem_of_fmap. apply octet_unused, elem_bytes; [done|by apply Hd|].
      pose proof (elem_in_body t vs Ht). lia. }
    intros a b Ha Hb. by apply el_buf_cmp_order; apply Hu.
  - intros a b. apply el_order_anti.
  - intros x y z. apply el_order_trans.
  - apply Permutation_map_inv in Hp as (vs' & -> & Hp). exists vs'. split_and!; [by symmetry| |done].
    clear -Hs. induction vs' as [|t l' IH]; [constructor|]. inversion Hs as [|? ? Hs' Hall]; subst.
    constructor; [by apply IH|]. by apply (Forall_fmap (el_of_octets ∘ elem_octets)) in Hall.
Qed.

(** Sorted arrangements of the same elements have the same octets. *)
Lemma sorted_body vs1 vs2 : vs1 ≡ₚ vs2 -> StronglySorted octets_le vs1 -> StronglySorted octets_le vs2 ->
  elem_octets <$> vs1 = elem_octets <$> vs2.
Proof.
  intros Hp H1 H2.
  assert (Hs : forall vs, StronglySorted octets_le vs -> StronglySorted (fun a b => el_order a b <= 0) (elem_octets <$> vs)).
  { intros vs. induction 1 as [|t vs Hs IH Hall]; [constructor|]. cbn. constructor; [done|]. by apply Forall_fmap. }
  apply (StronglySorted_unique_strong (fun a b => el_order a b <= 0)); [|by apply Hs|by apply Hs|by apply fmap_Permutation].
  intros x y _ _. apply el_order_eq.
Qed.

Lemma list_body_perm vs1 vs2 : vs1 ≡ₚ vs2 -> length (list_body vs1) = length (list_body vs2).
Proof.
  induction 1 as [|t l1 l2 _ IH|t1 t2 l|l1 l2 l3 _ IH1 _ IH2]; [done|..].
  - by rewrite !list_body_cons, !length_app, IH.
  - rewrite !list_body_cons, !length_app. lia.
  - by rewrite IH1.
Qed.

Lemma report_els_ok {S} {C : Consumer S} {A : AppendConsumer S} (os : list (list Z)) size (key : S) :
  exists key', report_els (el_of_octets <$> os) size key = (Some (size + Z.of_nat (length (concat os))), key') /\
    written key' = written key ++ concat os.
Proof.
  revert size key. induction os as [|o os IH]; intros size key.
  { exists key. cbn. by rewrite Z.add_0_r, app_nil_r. }
  cbn [fmap list_fmap report_els concat el_of_octets el_buf].
  destruct (consume_append o key) as (k1 & -> & Hk1). cbn [Z.ltb Z.compare].
  destruct (IH (size + Z.of_nat (length o)) k1) as (k2 & -> & Hk2). exists k2.
  rewrite length_app. split; [do 2 f_equal; lia|]. by rewrite Hk2, Hk1, app_assoc.
Qed.

Lemma set_of_encode_der_ok `{QL : QsortLaws} {S} {C : Consumer S} {A : AppendConsumer S} vs tag_mode tag :
  der_mode 0 -> Forall elem_dom vs -> prim_mode tag_mode -> tagging_ok tag_mode tag ->
  Z.of_nat (length (list_octets tag_mode tag vs)) <= RSSIZE_MAX ->
  SET_OF_encode_der (S := S) scratch tags elm_tag (Some <$> vs) tag_mode tag None =
    Some (Z.of_nat (length (list_octets tag_mode tag vs)), None) /\
  exists vs', vs' ≡ₚ vs /\ StronglySorted octets_le vs' /\
  forall key, exists key', SET_OF_encode_der scratch tags elm_tag (Some <$> vs) tag_mode tag (Some key) =
    Some (Z.of_nat (length (list_octets tag_mode tag vs')), Some key') /\
    written key' = written key ++ list_octets tag_mode tag vs'.
Proof using All.
  assert (Hmax : RSSIZE_MAX = 4611686018427387903) by reflexivity.
  intros Hm Hd Hp Ht Hl. pose proof (list_size vs tag_mode tag Hl) as Hsize.
  destruct (tags_to_write_ok scratch tags Hscratch Hlen Htags tag_mode tag Hp Ht) as [Hall _].
  unfold SET_OF_encode_der. rewrite (gather_size_ok false vs 0) by (done || lia). rewrite Z.add_0_l.
  cbn [mbind option_bind].
  destruct (der_write_tags_ok (S := S) scratch Hscratch tags (Z.of_nat (length (list_body vs))) tag_mode true tag)
    as [Hn Hk]; [lia|lia|done|lia|].
  destruct (sort_members vs Hm Hd ltac:(lia)) as (vs' & Hperm & Hsort & Hq).
  set (header := der_header true _ _) in *. split; [rewrite Hn|].
  - cbn [mbind option_bind]. destruct (Z.ltb_spec (Z.of_nat (length header)) 0); [lia|].
    rewrite u64_small, s64_small by lia. do 2 f_equal. lia.
  - exists vs'. split_and!; [done|done|]. intros key. destruct (Hk key) as (k1 & -> & Hk1).
    cbn [mbind option_bind]. destruct (Z.ltb_spec (Z.of_nat (length header)) 0); [lia|].
    assert (Ho : list_octets tag_mode tag vs' = header ++ list_body vs').
    { unfold list_octets. by rewrite (list_body_perm vs' vs Hperm). }
    rewrite Ho, length_app, (list_body_perm vs' vs Hperm). rewrite u64_small by lia.
    case_bool_decide as Hnil.
    { assert (vs = []) as -> by (by destruct vs). apply Permutation_nil_r in Hperm as ->.
      rewrite s64_small by (cbn in *; lia). exists k1. cbn [list_body fmap list_fmap concat] in *.
      rewrite app_nil_r. split; [do 3 f_equal; cbn; lia|done]. }
    rewrite (der_members_ok vs) by (done || lia). cbn [mbind option_bind]. rewrite Hq. cbn [mbind option_bind].
    rewrite list_fmap_compose.
    destruct (report_els_ok (elem_octets <$> vs') (Z.of_nat (length header)) k1) as (k2 & -> & Hk2).
    fold (list_body vs') in *. rewrite (list_body_perm vs' vs Hperm).
    rewrite u64_small, (Z.add_comm (Z.of_nat (length header))), Z.eqb_refl, s64_small by lia.
    exists k2. split; [do 3 f_equal; lia|]. by rewrite Hk2, Hk1, <- app_assoc.
Qed.
End Spec.

(** ** The contract *)

Definition sequence_of_ber_laws {T} `{L : BerTypeLaws T} (scratch tags : list Z) (elm_tag : Z)
    (Hscratch : length scratch = 32%nat) (Hlen : (1 <= length tags <= 3)%nat) (Htags : Forall tag_ok tags)
    (Hm : der_mode 0) : @BerTypeLaws (asn_anonymous_set_ T) (SEQUENCE_OF_ber scratch tags elm_tag).
Proof.
  refine (@Build_BerTypeLaws (asn_anonymous_set_ T) (SEQUENCE_OF_ber scratch tags elm_tag)
    (fun l : list (option T) => exists vs : list T, l = Some <$> vs /\ Forall (elem_dom elm_tag) vs) prim_mode
    (fun l : list (option T) => option_map der_norm <$> l)
    (fun tag_mode tag (l : list (option T)) => list_octets tags elm_tag tag_mode tag (omap id l)) _ _ _ _).
  - intros S C A l tag_mode tag (vs & -> & Hd) Hp Ht Hl. rewrite omap_Some in *.
    by apply sequence_of_encode_der_ok.
  - intros l tag_mode tag rest (vs & -> & Hd) Hp Ht Hl. rewrite omap_Some in *.
    destruct (list_decode_ok scratch tags elm_tag Hscratch Hlen Htags vs tag_mode tag rest) as (st & Hr & Hv); [done..|].
    exists st. cbn [ber_decoder SEQUENCE_OF_ber ber_struct]. rewrite Hr. split; [done|].
    cbn [ber_value SEQUENCE_OF_ber]. rewrite Hv, <- !list_fmap_compose. done.
  - intros l tag_mode tag (vs & -> & Hd) Hp Ht Hl. rewrite omap_Some in *.
    pose proof (list_size scratch tags elm_tag Hscratch Hlen Htags vs tag_mode tag Hl) as Hs.
    unfold list_octets. apply bytes_ok_app.
    + apply der_header_bytes; [by eapply (tags_to_write_ok scratch)|lia|lia].
    + assert (Hb : Z.of_nat (length (list_body elm_tag vs)) <= RSSIZE_MAX) by lia. clear Hs Hl.
      induction Hd as [|t vs Ht' Hd IH]; [apply bytes_ok_nil|]. rewrite list_body_cons, length_app in *.
      apply bytes_ok_app; [apply elem_bytes; (done || lia)|apply IH; lia].
  - intros l tag_mode tag (vs & -> & Hd) Hp Ht outmost. rewrite omap_Some.
    destruct (tags_to_write_ok scratch tags Hscratch Hlen Htags tag_mode tag Hp Ht) as (Hall & ts & Hts).
    unfold list_octets. fold outmost in Hts. rewrite Hts in *. apply Forall_cons in Hall as [Hout _].
    split; [done|]. cbn [der_header]. rewrite <- !app_assoc. eauto.
Defined.

(** ** Properties *)

(** C33: A SET OF has one DER encoding, and it decodes to the same elements.
    Whatever qsort the C library has, the elements in whatever order are
    encoded as the arrangement of them that is sorted by encoding; two
    orders of the same elements give the same octets; and the decoder makes
    of those octets, with anything behind them, that arrangement. *)
Theorem set_of_der_canonical {T} `{L : BerTypeLaws T} `{QL : QsortLaws} scratch tags elm_tag tag_mode tag
    {S} {C : Consumer S} {A : AppendConsumer S} (vs vs2 : list T) (key : S) (rest : list Z) :
  length scratch = 32%nat -> (1 <= length tags <= 3)%nat -> Forall tag_ok tags -> der_mode 0 ->
  prim_mode tag_mode -> tagging_ok tag_mode tag -> Forall (elem_dom elm_tag) vs -> vs2 ≡ₚ vs ->
  Z.of_nat (length (list_octets tags elm_tag tag_mode tag vs)) <= RSSIZE_MAX ->
  exists vs' octets, vs' ≡ₚ vs /\ StronglySorted (octets_le elm_tag) vs' /\
    octets = list_octets tags elm_tag tag_mode tag vs' /\
    (exists key', SET_OF_encode_der scratch tags elm_tag (Some <$> vs) tag_mode tag (Some key) =
       Some (Z.of_nat (length octets), Some key') /\ written key' = written key ++ octets) /\
    (exists key', SET_OF_encode_der scratch tags elm_tag (Some <$> vs2) tag_mode tag (Some key) =
       Some (Z.of_nat (length octets), Some key') /\ written key' = written key ++ octets) /\
    exists st, SET_OF_decode_ber tags elm_tag None (octets ++ rest) tag_mode =
      Some (RC_OK, Z.of_nat (length octets), st) /\ ber_list_value st = Some <$> (der_norm <$> vs').
Proof.
  intros Hs Hlen Htags Hm Hp Ht Hd Hperm Hl.
  destruct (set_of_encode_der_ok scratch tags elm_tag Hs Hlen Htags vs tag_mode tag Hm Hd Hp Ht Hl)
    as [_ (vs' & Hp1 & Hs1 & Hk1)].
  assert (Hsize : forall l, l ≡ₚ vs -> length (list_octets tags elm_tag tag_mode tag l) =
    length (list_octets tags elm_tag tag_mode tag vs)).
  { intros l Hpl. unfold list_octets. rewrite !length_app.
    assert (length (list_body elm_tag l) = length (list_body elm_tag vs)) as -> by (by eapply list_body_perm). done. }
  assert (Hd2 : Forall (elem_dom elm_tag) vs2) by (by rewrite Hperm).
  destruct (set_of_encode_der_ok scratch tags elm_tag Hs Hlen Htags vs2 tag_mode tag Hm Hd2 Hp Ht)
    as [_ (vs2' & Hp2 & Hs2 & Hk2)]; [rewrite Hsize by done; done|].
  assert (Hbody : list_octets tags elm_tag tag_mode tag vs2' = list_octets tags elm_tag tag_mode tag vs').
  { unfold list_octets, list_body.
    assert (elem_octets elm_tag <$> vs2' = elem_octets elm_tag <$> vs') as -> by
      (eapply sorted_body; (done || by rewrite Hp2, Hp1)). done. }
  exists vs', (list_octets tags elm_tag tag_mode tag vs'). split_and!; [done..|apply Hk1| |].
  - rewrite <- Hbody. apply Hk2.
  - apply (list_decode_ok scratch); try done; [by rewrite Hp1|by rewrite Hsize].
Qed.

Lemma set_of_der_canonical_witness :
  exists vs' octets, vs' ≡ₚ [300; 5; -1] /\
    StronglySorted (octets_le (H := integer_ber) (L := integer_ber_laws) 8) vs' /\
    octets = list_octets (H := integer_ber) (L := integer_ber_laws) [68] 8 (-1) 2002 vs' /\
    (exists key', SET_OF_encode_der (BT := integer_ber) (replicate 32 0) [68] 8 (Q := insertion_sort) (Some <$> [300; 5; -1])
         (-1) 2002 (Some {| bb_bytes := [] |}) =
       Some (Z.of_nat (length octets), Some key') /\ written key' = written {| bb_bytes := [] |} ++ octets) /\
    (exists key', SET_OF_encode_der (BT := integer_ber) (replicate 32 0) [68] 8 (Q := insertion_sort) (Some <$> [5; -1; 300])
         (-1) 2002 (Some {| bb_bytes := [] |}) =
       Some (Z.of_nat (length octets), Some key') /\ written key' = written {| bb_bytes := [] |} ++ octets) /\
    exists st, SET_OF_decode_ber (BT := integer_ber) [68] 8 None (octets ++ [7]) (-1) =
      Some (RC_OK, Z.of_nat (length octets), st) /\
      ber_list_value (BT := integer_ber) st = Some <$> (der_norm (BerTypeLaws := integer_ber_laws) <$> vs').
Proof.
  apply (set_of_der_canonical (L := integer_ber_laws) (QL := insertion_sort_laws) (replicate 32 0) [68] 8 (-1) 2002
    [300; 5; -1] [5; -1; 300] {| bb_bytes := [] |} [7]).
  - reflexivity.
  - cbn; lia.
  - repeat constructor; cbn; lia.
  - by left.
  - by right; right.
  - right. split; [by right|split; reflexivity].
  - repeat constructor; discriminate.
  - transitivity [-1; 5; 300]; [constructor|]. transitivity [-1; 300; 5]; [repeat constructor|].
    transitivity [300; -1; 5]; repeat constructor.
  - vm_compute. discriminate.
Defined.
