(* ===== verification/BerChoice.v ===== *)
(** * CHOICE in BER and DER (support/constr_CHOICE.c)

    The encoding of the alternative, behind the tags of the CHOICE where it
    has any or is tagged EXPLICIT.  The decoder finds the alternative by its
    tag; it is a state machine resumed from the context in the structure. *)
From S2P Require Import Prelude Outcome Consumer PerNatural PerCodec UperInteger BerTlv BerPrim BerType BerFrame.
From S2P Require Import Members ConstrChoice OerChoice.

#[local] Abbreviation ber_variant := (variant_struct (fun m => ber_struct (T := elm_type m))).

Section Choice.
Context (specs : asn_CHOICE_specifics_t) (tag2el : list asn_TYPE_tag2member_t) (scratch tags : list Z).

(** ** Encoding *)

(** A CHOICE without alternatives is encodable when its presence index is 0. *)
Definition CHOICE_encode_der {S} `{C : Consumer S} (st : choice_t specs) (tag_mode tag : Z) (key : option S) :
    option (Z * option S) :=
  match st with
  | None => Some (match alternatives specs with [] => 0 | _ => -1 end, key)
  | Some v =>
    on_variant (fun m f =>
      match memb_ptr m f with
      | None => Some (if negb (elm_optional m =? 0) then 0 else -1, key)
      | Some t =>
        '(computed_size, key) ← (if (tag_mode =? 1) || negb (bool_decide (tags = [])) then
            '(encoded, _) ← der_encoder S C t (elm_tag_mode m) (elm_tag m) None;
            if encoded =? -1 then Some (None, key) else
            '(ret, key) ← der_write_tags scratch tags (u64 encoded) tag_mode true tag key;
            Some (if ret =? -1 then None else Some ret, key)
          else Some (Some 0, key));
        match computed_size with
        | None => Some (-1, key)
        | Some computed_size =>
          '(encoded, key) ← der_encoder S C t (elm_tag_mode m) (elm_tag m) key;
          Some (if encoded =? -1 then -1 else s64 (encoded + computed_size), key)
        end
      end) _ v
  end.

(** The tag of the alternative, for a CHOICE without tags.  A null alternative
    has the tag of the member if that has one. *)
Definition CHOICE_outmost_tag (st : choice_t specs) : Z :=
  match st with
  | Some v =>
    on_variant (fun m f =>
      match memb_ptr m f with
      | Some t => elm_outmost_tag m t
      | None => if negb (elm_tag_mode m =? 0) then elm_tag m else any_tag
      end) _ v
  | None => any_tag
  end.

(** ** Decoding *)

Record ber_choice_struct := {
  bc_phase : Z;
  bc_step : Z;
  bc_left : Z;
  bc_present : option (ber_variant (alternatives specs))
}.

Definition fresh_ber_choice : ber_choice_struct :=
  {| bc_phase := 0; bc_step := 0; bc_left := 0; bc_present := None |}.

Definition choice_return (code : asn_dec_rval_code) (phase step : Z) (present : option (ber_variant (alternatives specs)))
    (f : frame) : option (asn_dec_rval_code * Z * ber_choice_struct) :=
  Some (code, fr_consumed f,
        {| bc_phase := phase; bc_step := step; bc_left := fr_left f; bc_present := present |}).

(** One round of the loop over the end-of-contents octets: a code to return,
    or the frame for the next round.  A zero octet with another one behind it
    changes nothing. *)
Definition close_round (f : frame) : option (asn_dec_rval_code + frame) :=
  r ← frame_tag f;
  match r with
  | inl code => Some (inl code)
  | inr _ =>
    b0 ← read (fr_buf f) 0;
    if negb (b0 =? 0) then Some (inl RC_FAIL) else
    eoc ← at_end_of_contents f;
    Some (match eoc with
          | inl code => inl code
          | inr true => inr (closed_one (ADVANCE 2 f))
          | inr false => inr f
          end)
  end.

Fixpoint choice_close (fuel : nat) (f : frame) : option (asn_dec_rval_code * frame) :=
  if negb (fr_left f <? 0) then Some (RC_OK, f) else
  match fuel with
  | O => None
  | S fuel =>
    r ← close_round f;
    match r with
    | inl code => Some (code, f)
    | inr f => choice_close fuel f
    end
  end.

(** !(tag_mode || td->tags_count) *)
Definition untagged (tag_mode : Z) : bool := (tag_mode =? 0) && bool_decide (tags = []).

(** A round closes one of the structures that are open or the loop is caught. *)
Definition choice_phase3 (tag_mode : Z) (present : option (ber_variant (alternatives specs))) (f : frame) :
    option (asn_dec_rval_code * Z * ber_choice_struct) :=
  if 0 <? fr_left f then choice_return RC_FAIL 3 0 present f
  else if (fr_left f =? -1) && untagged tag_mode then choice_return RC_OK 4 0 present f
  else
    '(code, f) ← choice_close (Z.to_nat (- fr_left f)) f;
    choice_return code (if decide (code = RC_OK) then 4 else 3) 0 present f.

Definition choice_phase2 (tag_mode step : Z) (present : option (ber_variant (alternatives specs))) (f : frame) :
    option (asn_dec_rval_code * Z * ber_choice_struct) :=
  r ← step_variant (alternatives specs) (fun m p => ber_decoder (elm_tag_mode m) p (LEFT f)) (Z.to_nat step) present;
  let '(answer, v, f) := member_answer r f in
  match answer with
  | Some code => choice_return code 2 step (Some v) f
  | None => choice_phase3 tag_mode (Some v) f
  end.

Definition choice_phase1_ber (tag_mode : Z) (present : option (ber_variant (alternatives specs))) (f : frame) :
    option (asn_dec_rval_code * Z * ber_choice_struct) :=
  r ← frame_tag f;
  match r with
  | inl code => choice_return code 1 0 present f
  | inr (tag_len, tlv_tag) =>
    match search_tag tag2el tlv_tag with
    | Some t2m => choice_phase2 tag_mode (el_no t2m) present f
    | None =>
      if ext_start specs =? -1 then choice_return RC_FAIL 1 0 present f else
      skip ← skip_element tag_len f;
      match skip with
      | inl code => choice_return code 1 0 present f
      | inr f => choice_return RC_OK 1 0 present f
      end
    end
  end.

Definition CHOICE_decode_ber (struct_ptr : option ber_choice_struct) (buf : list Z) (tag_mode : Z) :
    option (asn_dec_rval_code * Z * ber_choice_struct) :=
  let st := default fresh_ber_choice struct_ptr in
  let f := {| fr_left := bc_left st; fr_consumed := 0; fr_buf := buf |} in
  if bc_phase st =? 0 then
    if negb (untagged tag_mode) then
      '(code, consumed, step, f) ← open_frame tags tag_mode (-1) (bc_step st) (bc_left st) buf;
      if negb (bool_decide (code = RC_OK)) then
        Some (code, consumed, {| bc_phase := 0; bc_step := step; bc_left := fr_left f; bc_present := bc_present st |})
      else choice_phase1_ber tag_mode (bc_present st) f
    else choice_phase1_ber tag_mode (bc_present st) {| fr_left := -1; fr_consumed := 0; fr_buf := buf |}
  else if bc_phase st =? 1 then choice_phase1_ber tag_mode (bc_present st) f
  else if bc_phase st =? 2 then choice_phase2 tag_mode (bc_step st) (bc_present st) f
  else if bc_phase st =? 3 then choice_phase3 tag_mode (bc_present st) f
  else Some (RC_OK, 0, st).

Definition ber_choice_value (st : ber_choice_struct) : choice_t specs :=
  variant_value (fun m => ber_value) _ <$> bc_present st.

Definition CHOICE_ber : BerType (choice_t specs) := {|
  ber_struct := ber_choice_struct;
  ber_value := ber_choice_value;
  ber_outmost st := match tags with tag :: _ => tag | [] => CHOICE_outmost_tag st end;
  ber_decoder tag_mode struct_ptr buf :=
    '(code, n, st) ← CHOICE_decode_ber struct_ptr buf tag_mode; Some (code, n, Some st);
  der_encoder S C st tag_mode tag key := CHOICE_encode_der st tag_mode tag key
|}.
End Choice.

(** ** Lemmas: the alternative *)

Fixpoint alt_ber_dom (ms : list asn_TYPE_member_t) : members_ber_laws ms -> variant ms -> Prop :=
  match ms with
  | [] => fun _ v => match v with end
  | m :: ms => fun '(exist _ L _, Ls) v =>
      match v with
      | inl f => exists t, f = set_memb m (Some t) /\ @der_dom _ _ L t
      | inr v => alt_ber_dom ms Ls v
      end
  end.

Fixpoint alt_der (ms : list asn_TYPE_member_t) : members_ber_laws ms -> variant ms -> list Z :=
  match ms with
  | [] => fun _ v => match v with end
  | m :: ms => fun '(exist _ L _, Ls) v =>
      match v with
      | inl f => from_option (@der_of _ _ L (elm_tag_mode m) (elm_tag m)) [] (memb_ptr m f)
      | inr v => alt_der ms Ls v
      end
  end.

Fixpoint alt_norm (ms : list asn_TYPE_member_t) : members_ber_laws ms -> variant ms -> variant ms :=
  match ms with
  | [] => fun _ v => v
  | m :: ms => fun '(exist _ L _, Ls) v =>
      match v with
      | inl f => inl (set_memb m (@der_norm _ _ L <$> memb_ptr m f))
      | inr v => inr (alt_norm ms Ls v)
      end
  end.

(** The member that is present, its contract, and how it is put back. *)
Lemma alt_select ms (Ls : members_ber_laws ms) v : alt_ber_dom ms Ls v ->
  exists m (L : BerTypeLaws (elm_type m)) (t : elm_type m) (inj : field m -> variant ms)
    (injs : option ber_struct -> ber_variant ms),
    der_mode (elm_tag_mode m) /\ tagging_ok (elm_tag_mode m) (elm_tag m) /\ der_dom t /\
    alt_der ms Ls v = der_of (elm_tag_mode m) (elm_tag m) t /\
    alt_norm ms Ls v = inj (set_memb m (Some (der_norm t))) /\
    (forall R (k : forall m, field m -> R), on_variant k ms v = k m (set_memb m (Some t))) /\
    (forall dec, step_variant ms dec (Z.to_nat (variant_index ms v)) None =
       '(code, n, p) ← dec m None; Some (code, n, injs p)) /\
    (forall p, variant_value (fun m => ber_value) ms (injs p) = inj (set_memb m (ber_value <$> p))).
Proof.
  induction ms as [|m ms IH]; [by destruct v|]. destruct Ls as [[L [Hm Ht]] Ls], v as [f|v];
    cbn [alt_ber_dom alt_der alt_norm].
  - intros (t & -> & Hd). exists m, L, t, inl, inl. rewrite memb_ptr_set. split_and!; done.
  - intros Hd. destruct (IH Ls v Hd) as (m' & L' & t & inj & injs & Hm' & Ht' & Hd' & -> & -> & Hon & Hstep & Hval).
    exists m', L', t, (inr ∘ inj), (inr ∘ injs). split_and!; [done..|exact Hon| |].
    + intros dec. etransitivity; [apply (step_variant_next m ms dec v None)|]. rewrite Hstep.
      by destruct (dec m' None) as [[[code n] p]|].
    + intros p. cbn. by rewrite Hval.
Qed.

Section Spec.
Context (specs : asn_CHOICE_specifics_t) (tag2el : list asn_TYPE_tag2member_t) (scratch tags : list Z).
Context (Ls : members_ber_laws (alternatives specs)).
Context (Hscratch : length scratch = 32%nat) (Hlen : (length tags <= 3)%nat) (Htags : Forall tag_ok tags).
Implicit Types v : variant (alternatives specs).

(** A value whose tag the table sends to its alternative. *)
Definition choice_ber_dom v : Prop :=
  alt_ber_dom _ Ls v /\
  el_no <$> search_tag tag2el (CHOICE_outmost_tag specs (Some v)) = Some (variant_index _ v).

(** A CHOICE without tags cannot be tagged IMPLICIT. *)
Definition choice_mode (tag_mode : Z) : Prop :=
  tag_mode = 0 \/ tag_mode = 1 \/ (tag_mode = -1 /\ tags <> []).

Definition choice_der (tag_mode tag : Z) v : list Z :=
  let body := alt_der _ Ls v in
  if untagged tags tag_mode then body
  else der_header true (tags_to_write tags tag_mode tag) (Z.of_nat (length body)) ++ body.

Lemma alt_front v : choice_ber_dom v -> tag_ok (CHOICE_outmost_tag specs (Some v)) /\
  exists c rest, alt_der _ Ls v = identifier (CHOICE_outmost_tag specs (Some v)) c ++ rest.
Proof using All.
  intros [Hd _]. destruct (alt_select _ Ls v Hd) as (m & L & t & inj & injs & Hm & Ht & Hdt & -> & _ & Hon & _).
  unfold CHOICE_outmost_tag. rewrite Hon, memb_ptr_set. unfold elm_outmost_tag.
  pose proof (der_front_law t (elm_tag_mode m) (elm_tag m) Hdt Hm Ht) as Hf.
  by destruct (elm_tag_mode m =? 0).
Qed.

Lemma choice_tags tag_mode tag : choice_mode tag_mode -> tagging_ok tag_mode tag ->
  Forall tag_ok (tags_to_write tags tag_mode tag) /\
  (untagged tags tag_mode = false -> mode_ok tags tag_mode /\ (tag_mode =? 1) || negb (bool_decide (tags = [])) = true) /\
  (untagged tags tag_mode = true -> tag_mode = 0 /\ tags = []).
Proof using All.
  intros Hm Ht. unfold untagged, tags_to_write, mode_ok. split_and!.
  - destruct Ht as [->|[Hm' Ht]]; [done|]. rewrite (proj2 (Z.eqb_neq tag_mode 0)) by lia. constructor; [done|].
    by apply Forall_drop.
  - intros Hu. destruct (bool_decide_reflect (tags = [])); destruct Hm as [->|[->|[-> ?]]]; try done; auto.
  - intros [H1 H2]%andb_prop. by apply Z.eqb_eq in H1; apply bool_decide_eq_true in H2.
Qed.

Lemma choice_der_encode_ok {S} {C : Consumer S} {A : AppendConsumer S} v tag_mode tag :
  choice_ber_dom v -> choice_mode tag_mode -> tagging_ok tag_mode tag ->
  Z.of_nat (length (choice_der tag_mode tag v)) <= RSSIZE_MAX ->
  CHOICE_encode_der (S := S) specs scratch tags (Some v) tag_mode tag None =
    Some (Z.of_nat (length (choice_der tag_mode tag v)), None) /\
  forall key, exists key', CHOICE_encode_der specs scratch tags (Some v) tag_mode tag (Some key) =
    Some (Z.of_nat (length (choice_der tag_mode tag v)), Some key') /\
    written key' = written key ++ choice_der tag_mode tag v.
Proof using All.
  assert (Hmax : RSSIZE_MAX = 4611686018427387903) by reflexivity.
  intros [Hd _] Hm Ht. destruct (choice_tags tag_mode tag Hm Ht) as (Hall & Htag & Hun).
  unfold CHOICE_encode_der, choice_der.
  destruct (alt_select _ Ls v Hd) as (m & L & t & inj & injs & Hme & Hte & Hdt & -> & _ & Hon & _).
  rewrite !Hon, memb_ptr_set. set (body := der_of (elm_tag_mode m) (elm_tag m) t).
  destruct (untagged tags tag_mode); intros Hl.
  - destruct (Hun eq_refl) as [-> ->]. cbn [Z.eqb orb]. rewrite bool_decide_true by done. cbn [negb mbind option_bind].
    destruct (der_enc_law S C A t (elm_tag_mode m) (elm_tag m) Hdt Hme Hte Hl) as [-> Hk].
    split; [|intros key; rewrite Hon, memb_ptr_set; destruct (Hk key) as (key' & Hw & Hw'); exists key'; split; [|done];
      rewrite Hw];
      cbn [mbind option_bind]; fold body; rewrite (proj2 (Z.eqb_neq _ (-1))), Z.add_0_r, s64_small by lia; done.
  - destruct (Htag eq_refl) as [Hmode ->]. cbn [negb]. rewrite length_app in Hl.
    destruct (der_enc_law S C A t (elm_tag_mode m) (elm_tag m) Hdt Hme Hte) as [Hn Hk]; [fold body; lia|]. fold body in Hn, Hk.
    destruct (der_write_tags_ok (S := S) scratch Hscratch tags (Z.of_nat (length body)) tag_mode true tag)
      as [Hwn Hwk]; [lia|lia|done|lia|].
    set (header := der_header true _ _) in *. rewrite length_app. split.
    + rewrite Hn. cbn [mbind option_bind]. rewrite (proj2 (Z.eqb_neq _ (-1))), u64_small by lia. rewrite Hwn.
      cbn [mbind option_bind]. rewrite (proj2 (Z.eqb_neq (Z.of_nat (length header)) (-1))) by lia. rewrite Hn.
      cbn [mbind option_bind]. rewrite (proj2 (Z.eqb_neq _ (-1))), s64_small by lia. do 2 f_equal. lia.
    + intros key. rewrite Hon, memb_ptr_set, Hn. cbn [mbind option_bind].
      rewrite (proj2 (Z.eqb_neq _ (-1))), u64_small by lia. destruct (Hwk key) as (k1 & -> & Hk1). cbn [mbind option_bind].
      rewrite (proj2 (Z.eqb_neq (Z.of_nat (length header)) (-1))) by lia.
      destruct (Hk k1) as (k2 & -> & Hk2). exists k2. cbn [mbind option_bind].
      rewrite (proj2 (Z.eqb_neq _ (-1))), s64_small by lia. split; [do 3 f_equal; lia|].
      by rewrite Hk2, Hk1, app_assoc.
Qed.

(** From phase 1 on, where the octets of the alternative are left and the
    decoder is done behind them. *)
Lemma choice_phase1_ok v tag_mode f r : choice_ber_dom v ->
  let body := alt_der _ Ls v in
  Z.of_nat (length body) <= RSSIZE_MAX -> LEFT f = body ++ r ->
  let f' := ADVANCE (Z.of_nat (length body)) f in
  (forall p, choice_phase3 specs tags tag_mode p f' = choice_return specs RC_OK 4 0 p f') ->
  exists st, choice_phase1_ber specs tag2el tags tag_mode None f = Some (RC_OK, fr_consumed f', st) /\
    ber_choice_value specs st = Some (alt_norm _ Ls v).
Proof using All.
  intros Hdom body Hl Hleft f' Hend. destruct (alt_front v Hdom) as (Ht & c & r' & Hfront). destruct Hdom as [Hd Hs].
  unfold choice_phase1_ber. fold body in Hfront.
  rewrite (frame_tag_at f _ c (r' ++ r) Ht) by (by rewrite app_assoc, <- Hfront). cbn [mbind option_bind].
  destruct (search_tag _ _) as [e|]; [|done]. injection Hs as ->. unfold choice_phase2.
  destruct (alt_select _ Ls v Hd) as (m & L & t & inj & injs & Hm & Htg & Hdt & Hbody & -> & Hon & -> & Hval).
  fold body in Hbody. rewrite Hleft, Hbody.
  destruct (ber_dec_law t (elm_tag_mode m) (elm_tag m) r Hdt Hm Htg) as (x & -> & Hx); [by rewrite <- Hbody|].
  rewrite <- Hbody. cbn [mbind option_bind member_answer]. fold f'. rewrite Hend. eexists. split; [done|].
  unfold ber_choice_value. cbn [bc_present fmap option_fmap option_map]. rewrite Hval. cbn. by rewrite Hx.
Qed.

Lemma choice_ber_decode_ok v tag_mode tag rest : choice_ber_dom v -> choice_mode tag_mode -> tagging_ok tag_mode tag ->
  Z.of_nat (length (choice_der tag_mode tag v)) <= RSSIZE_MAX ->
  exists st, CHOICE_decode_ber specs tag2el tags None (choice_der tag_mode tag v ++ rest) tag_mode =
      Some (RC_OK, Z.of_nat (length (choice_der tag_mode tag v)), st) /\
    ber_choice_value specs st = Some (alt_norm _ Ls v).
Proof using All.
  intros Hdom Hm Ht. destruct (choice_tags tag_mode tag Hm Ht) as (Hall & Htag & Hun).
  unfold CHOICE_decode_ber, choice_der. cbn [default fresh_ber_choice bc_phase bc_left bc_step bc_present Z.eqb].
  destruct (untagged tags tag_mode) eqn:Hu; cbn [negb]; intros Hl.
  - destruct (choice_phase1_ok v tag_mode {| fr_left := -1; fr_consumed := 0; fr_buf := alt_der _ Ls v ++ rest |} rest)
      as (st & -> & Hv); [done|done|done| |].
    + intros p. unfold choice_phase3. cbn [ADVANCE fr_left Z.leb Z.ltb Z.eqb Z.compare Pos.eqb]. by rewrite Hu.
    + exists st. done.
  - destruct (Htag eq_refl) as [Hmode _].
    destruct (open_frame_der tags tag_mode (-1) tag (alt_der _ Ls v) 0 rest) as (step & f & -> & Hi & Hc);
      [by right|done|done|done|].
    cbn [mbind option_bind]. rewrite bool_decide_true by done. cbn [negb].
    set (header := der_header true _ _) in *. rewrite length_app in *.
    assert (Hi' : inside f (alt_der _ Ls v ++ []) rest) by (by rewrite app_nil_r).
    destruct (inside_advance _ _ _ _ Hi') as [[Hl0 _] Hc'].
    destruct (choice_phase1_ok v tag_mode f []) as (st & -> & Hv); [done|lia|by eapply inside_left| |].
    + intros p. unfold choice_phase3. rewrite Hl0. cbn [length]. change (Z.to_nat (- Z.of_nat 0)) with 0%nat.
      cbn [choice_close]. by rewrite Hl0.
    + exists st. rewrite Hc', Hc. split; [do 3 f_equal; lia|done].
Qed.
End Spec.

Definition choice_ber_laws (specs : asn_CHOICE_specifics_t) (tag2el : list asn_TYPE_tag2member_t) (scratch tags : list Z)
    (Ls : members_ber_laws (alternatives specs))
    (Hscratch : length scratch = 32%nat) (Hlen : (length tags <= 3)%nat) (Htags : Forall tag_ok tags) :
  @BerTypeLaws (choice_t specs) (CHOICE_ber specs tag2el scratch tags).
Proof.
  refine (@Build_BerTypeLaws (choice_t specs) (CHOICE_ber specs tag2el scratch tags)
    (fun st => exists v, st = Some v /\ choice_ber_dom specs tag2el Ls v) (choice_mode tags)
    (option_map (alt_norm _ Ls)) (fun tag_mode tag => from_option (choice_der specs tags Ls tag_mode tag) []) _ _ _ _).
  - intros S C A st tag_mode tag (v & -> & Hd) Hm Ht Hl. by eapply choice_der_encode_ok.
  - intros st tag_mode tag rest (v & -> & Hd) Hm Ht Hl. cbn [from_option] in *.
    destruct (choice_ber_decode_ok specs tag2el scratch tags Ls Hscratch Hlen Htags v tag_mode tag rest Hd Hm Ht Hl)
      as (x & Hr & Hv).
    exists x. cbn [ber_decoder CHOICE_ber ber_struct]. by rewrite Hr.
  - intros st tag_mode tag (v & -> & Hd) Hm Ht. cbn [from_option]. unfold choice_der.
    destruct (alt_select _ Ls v (proj1 Hd)) as (m & L & t & _ & _ & Hme & Hte & Hdt & -> & _).
    destruct (untagged tags tag_mode); intros Hl; [by apply der_bytes_law|]. rewrite length_app in Hl.
    apply bytes_ok_app; [|apply der_bytes_law; (done || lia)].
    apply der_header_bytes; [by eapply choice_tags|lia|lia].
  - intros st tag_mode tag (v & -> & Hd) Hm Ht outmost. cbn [from_option]. unfold choice_der.
    destruct (choice_tags specs tag2el scratch tags Ls Hscratch Hlen Htags tag_mode tag Hm Ht) as (Hall & Htag & Hun).
    destruct (alt_front specs tag2el scratch tags Ls Hscratch Hlen Htags v Hd) as (Hf & c & r & Heq).
    destruct (untagged tags tag_mode).
    + destruct (Hun eq_refl) as [-> ->]. cbn [Z.eqb CHOICE_ber ber_outmost] in outmost. eauto.
    + destruct (Htag eq_refl) as [Hmode _]. unfold tags_to_write in *.
      assert (exists ts, (if negb (tag_mode =? 0) then tag :: drop (if tag_mode =? -1 then 1 else 0) tags else tags) =
        outmost :: ts) as [ts Hts].
      { unfold outmost. cbn [CHOICE_ber ber_outmost]. destruct (Z.eqb_spec tag_mode 0) as [->|]; cbn [negb]; [|eauto].
        destruct tags; [by destruct Hmode as [?|[_ ?]]|eauto]. }
      rewrite Hts in *. apply Forall_cons in Hall as [Hout _]. split; [done|]. cbn [der_header].
      rewrite <- !app_assoc. eauto.
Defined.

(** ** Lemmas: the end of the contents *)

(** Within the structures that are still to be closed, a zero octet with
    another one behind it. *)
Definition caught (f : frame) : Prop :=
  exists (k : nat) b rest, Z.of_nat k < - fr_left f /\ b <> 0 /\ fr_buf f = replicate (2 * k) 0 ++ 0 :: b :: rest.

Lemma open_left f : fr_left f < 0 -> LEFT f = fr_buf f /\ SIZE_VIOLATION f = false.
Proof.
  intros Hl. unfold LEFT, SIZE_VIOLATION. destruct (Z.ltb_spec (fr_left f) 0); [|lia].
  destruct (Z.leb_spec 0 (fr_left f)); [lia|done].
Qed.

(** A round ends the loop, closes a structure, or changes nothing. *)
Lemma close_round_cases f : fr_left f < 0 ->
  (exists code, close_round f = Some (inl code) /\ code <> RC_OK /\ forall b l, fr_buf f <> 0 :: b :: l) \/
  (exists rest, fr_buf f = 0 :: 0 :: rest /\
    close_round f = Some (inr {| fr_left := fr_left f + 1; fr_consumed := fr_consumed f + 2; fr_buf := rest |})) \/
  (exists b rest, b <> 0 /\ fr_buf f = 0 :: b :: rest /\ close_round f = Some (inr f)).
Proof.
  intros Hl. destruct (open_left f Hl) as [HL HV]. unfold close_round, frame_tag, at_end_of_contents, missing.
  rewrite HL, HV.
  assert (Hother : forall b0 l, fr_buf f = b0 :: l -> b0 <> 0 \/ l = [] ->
    exists code, (r ← (let '(tag_len, tlv_tag) := ber_fetch_tag (fr_buf f) in
      if tag_len =? 0 then Some (inl RC_WMORE) else if tag_len =? -1 then Some (inl RC_FAIL) else
      tag ← tlv_tag; Some (inr (tag_len, tag)));
     match r with
     | inl code => Some (inl code)
     | inr _ => b0 ← read (fr_buf f) 0;
       if negb (b0 =? 0) then Some (inl RC_FAIL) else
       eoc ← (b0 ← read (fr_buf f) 0;
         if b0 =? 0 then if Z.of_nat (length (fr_buf f)) <? 2 then Some (inl RC_WMORE)
           else b1 ← read (fr_buf f) 1; Some (inr (b1 =? 0)) else Some (inr false));
       Some (match eoc with inl code => inl code | inr true => inr (closed_one (ADVANCE 2 f)) | inr false => inr f end)
     end) = Some (inl code) /\ code <> RC_OK).
  { intros b0 l -> Hb. destruct (ber_fetch_tag_any (b0 :: l)) as [(r & -> & Hr)|(n & tag & o & -> & Hn & _)].
    - destruct Hr as [-> | ->]; eexists; done.
    - rewrite (proj2 (Z.eqb_neq n 0)), (proj2 (Z.eqb_neq n (-1))) by lia. cbn [mbind option_bind]. rewrite read_0.
      cbn [mbind option_bind]. destruct (Z.eqb_spec b0 0) as [->|]; [|by eexists]. destruct Hb as [| ->]; [done|].
      by eexists. }
  destruct (fr_buf f) as [|b0 [|b1 rest]] eqn:Hb; [left; by eexists|..].
  - left. destruct (Hother b0 [] eq_refl ltac:(by right)) as (code & -> & Hc). by exists code.
  - destruct (Z.eq_dec b0 0) as [->|Hne].
    + right. change (ber_fetch_tag (0 :: b1 :: rest)) with (1, Some 0). cbn -[ADVANCE length Z.ltb Z.of_nat].
      destruct (Z.ltb_spec (Z.of_nat (length (0 :: b1 :: rest))) 2) as [Hs|_]; [cbn [length] in Hs; lia|].
      change (read (0 :: b1 :: rest) 1) with (Some b1). cbn [mbind option_bind].
      destruct (Z.eqb_spec b1 0) as [->|Hne]; [left; exists rest|right; exists b1, rest]; split_and!; try done.
      unfold closed_one, ADVANCE. cbn [fr_left fr_consumed fr_buf].
      destruct (Z.leb_spec 0 (fr_left f)); [lia|]. by rewrite Hb.
    + left. destruct (Hother b0 (b1 :: rest) eq_refl ltac:(by left)) as (code & -> & Hc). exists code.
      split_and!; [done|done|congruence].
Qed.

Lemma caught_later f rest : fr_left f < 0 -> fr_buf f = 0 :: 0 :: rest ->
  caught f <-> caught {| fr_left := fr_left f + 1; fr_consumed := fr_consumed f + 2; fr_buf := rest |}.
Proof.
  intros Hl Hf. unfold caught. cbn [fr_left fr_buf]. rewrite Hf. split.
  - intros ([|k] & b & r & Hk & Hb & Heq).
    { injection Heq as Heq _. by destruct Hb. }
    exists k, b, r. split_and!; [lia|done|].
    replace (2 * S k)%nat with (S (S (2 * k))) in Heq by lia. cbn [replicate app] in Heq. congruence.
  - intros (k & b & r & Hk & Hb & ->). exists (S k), b, r. split_and!; [lia|done|].
    replace (2 * S k)%nat with (S (S (2 * k))) by lia. done.
Qed.

Lemma caught_front f : caught f -> exists b l, fr_buf f = 0 :: b :: l.
Proof.
  intros ([|k] & b & r & _ & _ & ->); [by eexists _, _|]. replace (2 * S k)%nat with (S (S (2 * k))) by lia.
  by eexists _, _.
Qed.

(** With as many rounds as structures to close: caught, or an end. *)
Lemma choice_close_ends n : forall f fuel, fr_left f = - Z.of_nat n ->
  (caught f /\ choice_close fuel f = None) \/
  (~ caught f /\ ((n <= fuel)%nat -> exists code f', choice_close fuel f = Some (code, f') /\
     (code = RC_OK -> exists rest, fr_buf f = replicate (2 * n) 0 ++ rest /\
        f' = {| fr_left := 0; fr_consumed := fr_consumed f + 2 * Z.of_nat n; fr_buf := rest |}))).
Proof.
  induction n as [|n IH]; intros f fuel Hl.
  - right. split; [intros (k & b & r & Hk & _); lia|]. intros _. exists RC_OK, f.
    destruct fuel; cbn [choice_close]; (destruct (Z.ltb_spec (fr_left f) 0); [lia|]);
      (split; [done|]; intros _; exists (fr_buf f); split; [done|]; destruct f; cbn in *; f_equal; lia).
  - destruct (Z.ltb_spec (fr_left f) 0) as [Hneg|]; [|lia].
    assert (Hround : forall fuel, choice_close (S fuel) f =
      (r ← close_round f; match r with inl code => Some (code, f) | inr f => choice_close fuel f end)).
    { intros x. cbn [choice_close]. by destruct (Z.ltb_spec (fr_left f) 0); [|lia]. }
    assert (Hzero : choice_close 0 f = None) by (cbn [choice_close]; destruct (Z.ltb_spec (fr_left f) 0); [done|lia]).
    destruct (close_round_cases f Hneg) as [(code & Hr & Hc & Hno)|[(rest & Hb & Hr)|(b & rest & Hne & Hb & Hr)]].
    + right. split; [intros Hcg; destruct (caught_front f Hcg) as (b & l & Hf); by apply Hno in Hf|].
      intros Hfuel. destruct fuel as [|fuel]; [lia|]. rewrite Hround, Hr. by exists code, f.
    + rewrite (caught_later f rest Hneg Hb). set (f1 := {| fr_left := fr_left f + 1; fr_consumed := _; fr_buf := rest |}).
      destruct (IH f1 (pred fuel)) as [[Hcg Hn]|[Hcg Hn]]; [cbn; lia|left|right]; (split; [done|]).
      * destruct fuel as [|fuel]; [done|]. by rewrite Hround, Hr.
      * intros Hfuel. destruct fuel as [|fuel]; [lia|]. destruct (Hn ltac:(cbn; lia)) as (code & f' & Hcl & Hok).
        rewrite Hround, Hr. cbn [mbind option_bind]. exists code, f'. split; [done|]. intros Hc.
        destruct (Hok Hc) as (r & Hr' & ->). cbn [f1 fr_buf fr_consumed] in *. exists r. split.
        { rewrite Hb, Hr'. replace (2 * S n)%nat with (S (S (2 * n))) by lia. done. }
        f_equal. lia.
    + left. split; [exists 0%nat, b, rest; split_and!; [lia|done|done]|].
      induction fuel as [|fuel IHf]; [done|]. by rewrite Hround, Hr.
Qed.

(** ** Properties *)

(** C30: CHOICE in DER.  Whatever the types of its alternatives, with tags of
    its own or without, untagged or tagged from outside, a CHOICE is encoded in
    the octets of its alternative behind the tags, the estimated size is their
    number, and the BER decoder makes the same alternative of them, whatever
    follows. *)
Theorem choice_der_roundtrip specs tag2el scratch tags (Ls : members_ber_laws (alternatives specs)) v tag_mode tag
    {S} {C : Consumer S} {A : AppendConsumer S} (key : S) (rest : list Z) :
  length scratch = 32%nat -> (length tags <= 3)%nat -> Forall tag_ok tags ->
  choice_ber_dom specs tag2el Ls v -> choice_mode tags tag_mode -> tagging_ok tag_mode tag ->
  let octets := choice_der specs tags Ls tag_mode tag v in
  Z.of_nat (length octets) <= RSSIZE_MAX ->
  CHOICE_encode_der (S := S) specs scratch tags (Some v) tag_mode tag None = Some (Z.of_nat (length octets), None) /\
  (exists key', CHOICE_encode_der specs scratch tags (Some v) tag_mode tag (Some key) =
     Some (Z.of_nat (length octets), Some key') /\ written key' = written key ++ octets) /\
  exists st, CHOICE_decode_ber specs tag2el tags None (octets ++ rest) tag_mode =
      Some (RC_OK, Z.of_nat (length octets), st) /\
    ber_choice_value specs st = Some (alt_norm _ Ls v).
Proof.
  intros Hs Hl Ht Hd Hm Htg octets Hlen.
  destruct (choice_der_encode_ok specs tag2el scratch tags Ls Hs Hl Ht (S := S) v tag_mode tag Hd Hm Htg Hlen) as [H1 H2].
  split_and!; [exact H1|exact (H2 key)|].
  exact (choice_ber_decode_ok specs tag2el scratch tags Ls Hs Hl Ht v tag_mode tag rest Hd Hm Htg Hlen).
Qed.

Definition mode_ber_laws : members_ber_laws (alternatives mode_specs) :=
  (boolean_member_ber false 0 2 None ltac:(unfold tag_ok; cbn; lia),
   (boolean_member_ber false 0 402 None ltac:(unfold tag_ok; cbn; lia),
    (boolean_member_ber false 0 10 None ltac:(unfold tag_ok; cbn; lia), tt))).

(** The alternative [100], the CHOICE tagged [1] EXPLICIT. *)
Lemma choice_der_roundtrip_witness :
  let octets := choice_der mode_specs [] mode_ber_laws 1 6 mode_b in
  octets = [161; 4; 159; 100; 1; 255] /\
  CHOICE_encode_der (C := write_buffer) mode_specs (replicate 32 0) [] (Some mode_b) 1 6 None = Some (6, None) /\
  (exists key', CHOICE_encode_der mode_specs (replicate 32 0) [] (Some mode_b) 1 6 (Some {| bb_bytes := [] |}) =
     Some (6, Some key') /\ written key' = written {| bb_bytes := [] |} ++ octets) /\
  exists st, CHOICE_decode_ber mode_specs mode_tag2el [] None (octets ++ [7]) 1 = Some (RC_OK, 6, st) /\
    ber_choice_value mode_specs st = Some (alt_norm _ mode_ber_laws mode_b).
Proof.
  split; [vm_compute; reflexivity|].
  apply (choice_der_roundtrip mode_specs mode_tag2el (replicate 32 0) [] mode_ber_laws mode_b 1 6 {| bb_bytes := [] |} [7]).
  - reflexivity.
  - cbn; lia.
  - constructor.
  - split; [|reflexivity]. eexists. split; [reflexivity|exact I].
  - right; left; reflexivity.
  - right. split; [left; reflexivity|]. unfold tag_ok; cbn; lia.
  - vm_compute. discriminate.
Defined.

(** C16: The end of a CHOICE.  Once the alternative is decoded, the decoder
    comes to an end unless the octets of an end-of-contents it expects are a
    zero and another one: then no number of rounds gets it out of its loop.
    When it succeeds there were exactly the end-of-contents octets. *)
Theorem choice_end_terminates specs tags tag_mode present (f : frame) :
  let looping := fr_left f < 0 /\ ~ (fr_left f = -1 /\ untagged tags tag_mode = true) /\ caught f in
  (choice_phase3 specs tags tag_mode present f = None <-> looping) /\
  (looping -> forall rounds, choice_close rounds f = None) /\
  (forall consumed st, choice_phase3 specs tags tag_mode present f = Some (RC_OK, consumed, st) ->
     fr_left f <= 0 /\
     (consumed = fr_consumed f \/
      consumed = fr_consumed f - 2 * fr_left f /\ exists rest, fr_buf f = replicate (Z.to_nat (-2 * fr_left f)) 0 ++ rest)).
Proof.
  intros looping. unfold choice_phase3, choice_return.
  destruct (Z.ltb_spec 0 (fr_left f)) as [Hpos|Hneg].
  { split_and!; [split; [done|unfold looping; lia]|unfold looping; lia|congruence]. }
  destruct ((fr_left f =? -1) && untagged tags tag_mode) eqn:Hu.
  { apply andb_prop in Hu as [H1%Z.eqb_eq H2].
    split_and!; [split; [done|intros (_ & [] & _); done]|intros (_ & [] & _); done|].
    intros consumed st [= <- _]. split; [lia|by left]. }
  assert (Hnu : ~ (fr_left f = -1 /\ untagged tags tag_mode = true)).
  { intros [H1 H2]. rewrite H1, H2 in Hu. done. }
  set (n := Z.to_nat (- fr_left f)). assert (Hn : fr_left f = - Z.of_nat n) by lia.
  destruct (choice_close_ends n f n Hn) as [[Hcg Hcl]|[Hcg Hcl]].
  - rewrite Hcl. cbn [mbind option_bind]. destruct (Z.eq_dec (fr_left f) 0) as [H0|Hne].
    { destruct Hcg as (k & b & r & Hk & _). lia. }
    split_and!; [split; [intros _; split_and!; [lia|done|done]|done]| |done].
    intros _ rounds. destruct (choice_close_ends n f rounds Hn) as [[_ ->]|[? _]]; done.
  - destruct (Hcl (le_n n)) as (code & f' & -> & Hok). cbn [mbind option_bind].
    split_and!; [split; [done|intros (_ & _ & ?); done]|intros (_ & _ & ?); done|].
    intros consumed st [= -> <- _]. destruct (Hok eq_refl) as (rest & Hb & ->). cbn [fr_consumed]. split; [lia|right].
    split; [lia|]. exists rest. rewrite Hb. do 2 f_equal. lia.
Qed.

(** [1] CHOICE \{ [0] BOOLEAN, ... \} in a structure of indefinite length, closed
    with 00 00, and with 00 01, where the decoder does not return. *)
Lemma choice_end_terminates_witness :
  option_map fst (CHOICE_decode_ber mode_specs mode_tag2el [6] None [161; 128; 128; 1; 255; 0; 0] 0) = Some (RC_OK, 7) /\
  CHOICE_decode_ber mode_specs mode_tag2el [6] None [161; 128; 128; 1; 255; 0; 1] 0 = None /\
  forall rounds, choice_close rounds {| fr_left := -1; fr_consumed := 5; fr_buf := [0; 1] |} = None.
Proof.
  split; [reflexivity|]. split; [reflexivity|].
  apply (choice_end_terminates mode_specs [6] 0 None {| fr_left := -1; fr_consumed := 5; fr_buf := [0; 1] |}).
  split; [reflexivity|]. split; [intros [_ H]; discriminate H|]. exists 0%nat, 1, []. split_and!; [reflexivity|discriminate|reflexivity].
Defined.
