(* ===== verification/ConstrConstraint.v ===== *)
(** * Constraints of the constructed types (support/constr_SEQUENCE.c,
    constr_CHOICE.c, constr_SET_OF.c)

    The checkers walk the members that are there and run the checker of the
    member or else that of its type.  That of SEQUENCE returns with the first
    member that has none of its own. *)
From stdpp Require Import strings.
From S2P Require Import Prelude Outcome PerCodec UperInteger Constraints Members ConstrChoice SequenceOf.
#[local] Open Scope Z_scope.

Section Checkers.
Context (name FILE : string).

(** The loop over the members. *)
Fixpoint check_members (ms : list asn_TYPE_member_t) (r : reporter) : fields ms -> option (Z * reporter) :=
  match ms with
  | [] => fun _ => Some (0, r)
  | m :: ms => fun '(f, fs) =>
    match memb_ptr m f with
    | None =>
      if negb (elm_optional m =? 0) then check_members ms r fs
      else ctfail (name +:+ ": mandatory element " +:+ elm_name m +:+ " absent" +:+ at_line FILE 1053) r
    | Some v =>
      match elm_constraints m with
      | Some general_constraints =>
        '(ret, r) ← general_constraints (Some v) r;
        if negb (ret =? 0) then Some (ret, r) else check_members ms r fs
      | None => type_constraints m (Some v) r
      end
    end
  end.

Definition SEQUENCE_constraint (ms : list asn_TYPE_member_t) : asn_constr_check_f (fields ms) := fun st r =>
  match st with
  | None => ctfail (not_given name FILE 1035) r
  | Some fs => check_members ms r fs
  end.

(** The checker of the member, or else that of its type. *)
Definition member_check (m : asn_TYPE_member_t) : asn_constr_check_f (elm_type m) :=
  match elm_constraints m with Some check => check | None => type_constraints m end.

Definition CHOICE_constraint (specs : asn_CHOICE_specifics_t) : asn_constr_check_f (choice_t specs) := fun st r =>
  match st with
  | None => ctfail (not_given name FILE 496) r
  | Some None => ctfail (name +:+ ": no CHOICE element given" +:+ at_line FILE 532) r
  | Some (Some v) =>
    on_variant (fun m f =>
      match memb_ptr m f with
      | None =>
        if negb (elm_optional m =? 0) then Some (0, r)
        else ctfail (name +:+ ": mandatory CHOICE element " +:+ elm_name m +:+ " absent" +:+ at_line FILE 515) r
      | Some t => member_check m (Some t) r
      end) _ v
  end.

(** The loop over the elements, those that are null passed over. *)
Fixpoint check_elements {T} (constr : asn_constr_check_f T) (l : asn_anonymous_set_ T) (r : reporter) : option (Z * reporter) :=
  match l with
  | [] => Some (0, r)
  | None :: l => check_elements constr l r
  | Some t :: l =>
    '(ret, r) ← constr (Some t) r;
    if negb (ret =? 0) then Some (ret, r) else check_elements constr l r
  end.

(** [own] is the checker of the single member of the descriptor. *)
Definition SET_OF_constraint {T} (own : option (asn_constr_check_f T)) (type : asn_constr_check_f T) :
    asn_constr_check_f (asn_anonymous_set_ T) := fun st r =>
  match st with
  | None => ctfail (not_given name FILE 881) r
  | Some list => check_elements (match own with Some check => check | None => type end) list r
  end.
End Checkers.

(** ** The contracts *)

(** The elements that are there. *)
Definition elements {T} (l : asn_anonymous_set_ T) : list T := omap id (l : list (option T)).

(** The first element that is there and not valid. *)
Definition first_invalid {T} (check : asn_constr_check_f T) `{!Constrained check} (l : asn_anonymous_set_ T) : option T :=
  List.find (fun t => negb (valid (check := check) (Some t))) (elements l).

Lemma ctfail_stops r msg (k : reporter -> option (Z * reporter)) :
  ('(ret, r) ← ctfail msg r; if negb (ret =? 0) then Some (ret, r) else k r) = ctfail msg r.
Proof. destruct r as [arg|]; [|done]. cbn [ctfail]. by destruct (_asn_i_ctfailcb _ _). Qed.

Lemma check_elements_ok {T} (check : asn_constr_check_f T) `{K : !Constrained check} (l : asn_anonymous_set_ T) r :
  check_elements check l r =
  if forallb (fun t => valid (check := check) (Some t)) (elements l) then Some (0, r)
  else ctfail (from_option (fun t => complaint (check := check) (Some t)) ""%string (first_invalid check l)) r.
Proof.
  unfold first_invalid. induction l as [|[t|] l IH]; [done| |exact IH].
  cbn [check_elements]. change (elements (Some t :: l)) with (t :: elements l). cbn [forallb List.find].
  rewrite check_law. destruct (valid (Some t)); cbn [negb andb]; [exact IH|]. apply ctfail_stops.
Qed.

#[export] Instance list_constrained {T} name FILE own (type : asn_constr_check_f T)
    `{K : !Constrained (match own with Some check => check | None => type end)} :
  Constrained (SET_OF_constraint name FILE own type) := {|
  valid st := match st with
              | Some l => forallb (fun t => valid (check := match own with Some c => c | None => type end) (Some t)) (elements l)
              | None => false end;
  complaint st := match st with
                  | Some l => from_option (fun t => complaint (check := match own with Some c => c | None => type end) (Some t))
                                ""%string (first_invalid _ l)
                  | None => not_given name FILE 881 end;
  check_law st r := match st with Some l => check_elements_ok _ l r | None => eq_refl end
|}.

(** The members, each with the checker that is run on it. *)
Fixpoint members_constrained (ms : list asn_TYPE_member_t) : Type :=
  match ms with
  | [] => unit
  | m :: ms => Constrained (member_check m) * members_constrained ms
  end.

(** What the loop looks at: all members up to the first one that is there and
    has no checker of its own. *)
Fixpoint members_valid (ms : list asn_TYPE_member_t) : members_constrained ms -> fields ms -> bool :=
  match ms with
  | [] => fun _ _ => true
  | m :: ms => fun '(K, Ks) '(f, fs) =>
    match memb_ptr m f with
    | None => negb (elm_optional m =? 0) && members_valid ms Ks fs
    | Some v =>
      valid (check := member_check m) (Some v) &&
      match elm_constraints m with Some _ => members_valid ms Ks fs | None => true end
    end
  end.

Fixpoint members_complaint (name FILE : string) (ms : list asn_TYPE_member_t) : members_constrained ms -> fields ms -> string :=
  match ms with
  | [] => fun _ _ => ""%string
  | m :: ms => fun '(K, Ks) '(f, fs) =>
    match memb_ptr m f with
    | None =>
      if negb (elm_optional m =? 0) then members_complaint name FILE ms Ks fs
      else (name +:+ ": mandatory element " +:+ elm_name m +:+ " absent" +:+ at_line FILE 1053)%string
    | Some v =>
      if valid (check := member_check m) (Some v) then members_complaint name FILE ms Ks fs
      else complaint (check := member_check m) (Some v)
    end
  end.

Lemma check_members_ok name FILE ms (Ks : members_constrained ms) fs r :
  check_members name FILE ms r fs =
  if members_valid ms Ks fs then Some (0, r) else ctfail (members_complaint name FILE ms Ks fs) r.
Proof.
  induction ms as [|m ms IH]; [done|]. destruct Ks as [K Ks], fs as [f fs].
  cbn [check_members members_valid members_complaint]. destruct (memb_ptr m f) as [v|].
  - destruct (elm_constraints m) as [check|] eqn:Hown.
    + pose proof (check_law (check := member_check m) (Some v) r) as Hlaw. unfold member_check at 1 in Hlaw.
      rewrite Hown in Hlaw. rewrite Hlaw. destruct (valid (Some v)); cbn [andb]; [apply IH|apply ctfail_stops].
    + pose proof (check_law (check := member_check m) (Some v) r) as Hlaw. unfold member_check at 1 in Hlaw.
      rewrite Hown in Hlaw. rewrite Hlaw. by destruct (valid (Some v)).
  - destruct (negb (elm_optional m =? 0)); [apply IH|done].
Qed.

Definition sequence_constrained name FILE ms (Ks : members_constrained ms) : Constrained (SEQUENCE_constraint name FILE ms) := {|
  valid st := match st with Some fs => members_valid ms Ks fs | None => false end;
  complaint st := match st with
                  | Some fs => members_complaint name FILE ms Ks fs
                  | None => not_given name FILE 1035 end;
  check_law st r := match st with Some fs => check_members_ok name FILE ms Ks fs r | None => eq_refl end
|}.

Fixpoint alternative_valid (ms : list asn_TYPE_member_t) : members_constrained ms -> variant ms -> bool :=
  match ms with
  | [] => fun _ v => match v with end
  | m :: ms => fun '(K, Ks) v =>
    match v with
    | inl f =>
      match memb_ptr m f with
      | None => negb (elm_optional m =? 0)
      | Some t => valid (check := member_check m) (Some t)
      end
    | inr v => alternative_valid ms Ks v
    end
  end.

Fixpoint alternative_complaint (name FILE : string) (ms : list asn_TYPE_member_t) :
    members_constrained ms -> variant ms -> string :=
  match ms with
  | [] => fun _ v => match v with end
  | m :: ms => fun '(K, Ks) v =>
    match v with
    | inl f =>
      match memb_ptr m f with
      | None => (name +:+ ": mandatory CHOICE element " +:+ elm_name m +:+ " absent" +:+ at_line FILE 515)%string
      | Some t => complaint (check := member_check m) (Some t)
      end
    | inr v => alternative_complaint name FILE ms Ks v
    end
  end.

Definition choice_constrained name FILE specs (Ks : members_constrained (alternatives specs)) :
  Constrained (CHOICE_constraint name FILE specs).
Proof.
  refine {|
    valid st := match st with Some (Some v) => alternative_valid _ Ks v | _ => false end;
    complaint st := match st with
                    | Some (Some v) => alternative_complaint name FILE _ Ks v
                    | Some None => (name +:+ ": no CHOICE element given" +:+ at_line FILE 532)%string
                    | None => not_given name FILE 496 end |}.
  intros [[v|]|] r; [|done|done]. cbn [CHOICE_constraint]. induction (alternatives specs) as [|m ms IH]; [by destruct v|].
  destruct Ks as [K Ks], v as [f|v]; [|apply IH]. cbn [on_variant alternative_valid alternative_complaint].
  destruct (memb_ptr m f) as [t|]; [apply check_law|]. by destruct (negb (elm_optional m =? 0)).
Defined.

(** ** Properties *)

(** Every member is absent where it may be, or valid. *)
Fixpoint all_valid (ms : list asn_TYPE_member_t) : members_constrained ms -> fields ms -> Prop :=
  match ms with
  | [] => fun _ _ => True
  | m :: ms => fun '(K, Ks) '(f, fs) =>
    match memb_ptr m f with
    | None => elm_optional m <> 0
    | Some v => valid (check := member_check m) (Some v) = true
    end /\ all_valid ms Ks fs
  end.

(** Every member that is there has a checker of its own. *)
Fixpoint all_own (ms : list asn_TYPE_member_t) : fields ms -> Prop :=
  match ms with
  | [] => fun _ => True
  | m :: ms => fun '(f, fs) => (memb_present m f = true -> elm_constraints m <> None) /\ all_own ms fs
  end.

Lemma members_valid_own ms Ks fs : all_own ms fs -> members_valid ms Ks fs = true <-> all_valid ms Ks fs.
Proof.
  induction ms as [|m ms IH]; [done|]. destruct Ks as [K Ks], fs as [f fs]. cbn [all_own members_valid all_valid].
  unfold memb_present. intros [Hf Hown]. specialize (IH Ks fs Hown).
  destruct (memb_ptr m f) as [v|].
  - destruct (elm_constraints m); [|by destruct Hf]. rewrite andb_true_iff. by rewrite IH.
  - rewrite andb_true_iff, IH, negb_true_iff, Z.eqb_neq. done.
Qed.

(** C14: Validity of a SEQUENCE.  Where every member has a checker of its own,
    exactly the structures with valid members pass.  But behind valid members
    of that kind, the first one that has none decides alone: whatever the
    members behind it hold, or whether they are there, is not looked at. *)
Theorem sequence_check_stops name FILE ms (Ks : members_constrained ms) fs (m : asn_TYPE_member_t) ms2 :
  all_own ms fs ->
  (validate (SEQUENCE_constraint name FILE ms) (Some fs) = Some true <-> all_valid ms Ks fs) /\
  (all_valid ms Ks fs -> elm_constraints m = None ->
   forall (v : elm_type m) (fs2 : fields ms2) r,
     SEQUENCE_constraint name FILE (ms ++ m :: ms2)
       (Some (join_fields ms (m :: ms2) fs (set_memb m (Some v), fs2))) r = type_constraints m (Some v) r).
Proof.
  intros Hown. split.
  - unfold validate, asn_check_constraints. cbn [SEQUENCE_constraint].
    rewrite (check_members_ok name FILE ms Ks), <- (members_valid_own ms Ks fs Hown).
    destruct (members_valid ms Ks fs); [done|]. cbn. split; [intros [= ?]|]; done.
  - intros Hv Hm v fs2 r. cbn [SEQUENCE_constraint]. induction ms as [|m1 ms IH].
    + cbn [app join_fields check_members]. by rewrite memb_ptr_set, Hm.
    + destruct Ks as [K Ks], fs as [f fs]. cbn [all_own all_valid] in Hown, Hv. destruct Hown as [Hf Hown], Hv as [H1 Hv].
      cbn [app join_fields check_members]. unfold memb_present in Hf. destruct (memb_ptr m1 f) as [t|].
      * pose proof (check_law (check := member_check m1) (Some t) r) as Hlaw. unfold member_check at 1 in Hlaw.
        destruct (elm_constraints m1) as [check|]; [|by destruct Hf]. rewrite Hlaw, H1.
        cbn [mbind option_bind Z.eqb negb]. by apply (IH Ks).
      * rewrite (proj2 (Z.eqb_neq _ 0)) by done. cbn [negb]. by apply (IH Ks).
Qed.

(** SEQUENCE \{ a BOOLEAN, b Checked \} as asn1c generates it, with an invalid b. *)
Definition nonzero_check : asn_constr_check_f BOOLEAN_t := fun st r =>
  match st with
  | Some b => if bool_int b =? 0 then ctfail "Checked: constraint failed"%string r else Some (0, r)
  | None => ctfail (not_given "Checked" "Checked.c" 14) r
  end.

Definition checked_members : list asn_TYPE_member_t :=
  [checked_member "a" None asn_generic_no_constraint false 0 2 None; checked_member "b" None nonzero_check false 0 6 None].

Lemma sequence_check_stops_witness :
  validate (SEQUENCE_constraint "S" "constr_SEQUENCE.c" checked_members)
    (Some ({| bool_int := 1 |}, ({| bool_int := 0 |}, tt))) = Some true /\
  validate nonzero_check (Some {| bool_int := 0 |}) = Some false.
Proof.
  split; [|reflexivity]. unfold validate, asn_check_constraints.
  destruct (sequence_check_stops "S" "constr_SEQUENCE.c" [] tt tt (checked_member "a" None asn_generic_no_constraint false 0 2 None)
    [checked_member "b" None nonzero_check false 0 6 None] I) as [_ H].
  specialize (H I eq_refl {| bool_int := 1 |} ({| bool_int := 0 |}, tt)).
  cbn [join_fields app] in H. unfold checked_members. rewrite H. reflexivity.
Defined.
