(* ===== verification/BerSequence.v ===== *)
(** * SEQUENCE in BER and DER (support/constr_SEQUENCE.c)

    The members one behind the other inside the tags of the SEQUENCE, without
    those that are absent or hold their default value.  The decoder looks for
    the member of each tag among those that may come next; extensions it does
    not know are passed over.  It is resumed from the context in the structure. *)
From S2P Require Import Prelude Outcome Consumer PerNatural PerCodec UperInteger BerTlv BerPrim BerType BerFrame.
From S2P Require Import IntegerXer XerChoice Members ConstrSequence OerSequence ConstrChoice OerChoice BerChoice ConstrConstraint.

(** ** Encoding *)

Section Encode.
Context {S : Type} `{C : Consumer S}.

(** The sizes of the members: [Some None] is the return of a failure. *)
Fixpoint gather_members (ms : list asn_TYPE_member_t) (computed_size : Z) : fields ms -> option (option Z) :=
  match ms with
  | [] => fun _ => Some (Some computed_size)
  | m :: ms => fun '(f, fs) =>
    match memb_ptr m f with
    | None => if negb (elm_optional m =? 0) then gather_members ms computed_size fs else Some None
    | Some v =>
      if is_default m v then gather_members ms computed_size fs else
      '(encoded, _) ← der_encoder S C v (elm_tag_mode m) (elm_tag m) None;
      if encoded =? -1 then Some None else gather_members ms (u64 (computed_size + encoded)) fs
    end
  end.

(** Writing them: what is left of the computed size. *)
Fixpoint emit_members (ms : list asn_TYPE_member_t) (computed_size : Z) (key : S) : fields ms -> option (option Z * S) :=
  match ms with
  | [] => fun _ => Some (Some computed_size, key)
  | m :: ms => fun '(f, fs) =>
    match memb_ptr m f with
    | None => emit_members ms computed_size key fs
    | Some v =>
      if is_default m v then emit_members ms computed_size key fs else
      '(encoded, key') ← der_encoder S C v (elm_tag_mode m) (elm_tag m) (Some key);
      key ← key';
      if encoded =? -1 then Some (None, key) else emit_members ms (u64 (computed_size - encoded)) key fs
    end
  end.

Definition SEQUENCE_encode_der (ms : list asn_TYPE_member_t) (scratch tags : list Z) (st : fields ms)
    (tag_mode tag : Z) (key : option S) : option (Z * option S) :=
  computed_size ← gather_members ms 0 st;
  match computed_size with
  | None => Some (-1, key)
  | Some computed_size =>
    '(ret, key) ← der_write_tags scratch tags computed_size tag_mode true tag key;
    if ret =? -1 then Some (-1, key) else
    let encoded := s64 (u64 (computed_size + ret)) in
    match key with
    | None => Some (encoded, None)
    | Some key =>
      '(remaining, key) ← emit_members ms computed_size key st;
      Some (match remaining with
            | None => -1
            | Some remaining => if negb (remaining =? 0) then -1 else encoded
            end, Some key)
    end
  end.
End Encode.

(** ** Finding a member *)

(** _t2e_cmp of a key with an entry: by class, by value, and an entry of a
    member in front of the one looked for is too small. *)
Definition _t2e_cmp (tag el_no' : Z) (e : asn_TYPE_tag2member_t) : Z :=
  if BER_TAG_CLASS tag =? BER_TAG_CLASS (el_tag e) then
    if BER_TAG_VALUE tag =? BER_TAG_VALUE (el_tag e) then if el_no e <? el_no' then 1 else 0
    else if BER_TAG_VALUE tag <? BER_TAG_VALUE (el_tag e) then -1 else 1
  else if BER_TAG_CLASS tag <? BER_TAG_CLASS (el_tag e) then -1 else 1.

(** What the loop over the next members ends with. *)
Inductive linear := Found (n : Z) | Resort | Exhausted.

Fixpoint linear_search (ms : list asn_TYPE_member_t) (n : Z) (scope : nat) (tlv_tag : Z) : linear :=
  match ms, scope with
  | m :: ms, S scope =>
    if tlv_tag =? elm_tag m then Found n
    else if elm_any m then Found n
    else if elm_tag m =? any_tag then Resort
    else linear_search ms (n + 1) scope tlv_tag
  | _, _ => Exhausted
  end.

(** The loop over the entries of one tag, [count] of them: the last member
    from [edx] to [edx_max]. *)
Fixpoint best_member (count : nat) (es : list asn_TYPE_tag2member_t) (edx edx_max : Z) (best : option Z) : option Z :=
  match count, es with
  | S count, e :: es =>
    if edx_max <? el_no e then best
    else if el_no e <? edx then best_member count es edx edx_max best
    else best_member count es edx edx_max (Some (el_no e))
  | _, _ => best
  end.

Section Search.
Context (ms : list asn_TYPE_member_t) (tag2el : list asn_TYPE_tag2member_t).

Definition elements_count : Z := Z.of_nat (length ms).

(** The binary search may find any of the entries of the tag; the offsets lead
    from each to the first and the last. *)
Definition table_search (edx optional tlv_tag : Z) : option Z :=
  '(i, t2m) ← list_find (fun e => _t2e_cmp tlv_tag edx e = 0) tag2el;
  let t2m_f := Z.of_nat i + toff_first t2m in
  let count := toff_last t2m - toff_first t2m + 1 in
  best_member (Z.to_nat count) (drop (Z.to_nat t2m_f) tag2el) edx (edx + optional) None.

(** The member of [tlv_tag] that may come at [edx]. *)
Definition find_member (edx : Z) (m : asn_TYPE_member_t) (tlv_tag : Z) : option Z :=
  let opt_edx_end := edx + elm_optional m + 1 in
  let '(opt_edx_end, use_bsearch) :=
    if elements_count <? opt_edx_end then (elements_count, false)
    else if 8 <? opt_edx_end - edx then (edx + 8, true)
    else (opt_edx_end, false) in
  match linear_search (drop (Z.to_nat edx) ms) edx (Z.to_nat (opt_edx_end - edx)) tlv_tag with
  | Found n => Some n
  | Resort => table_search edx (elm_optional m) tlv_tag
  | Exhausted => if use_bsearch then table_search edx (elm_optional m) tlv_tag else None
  end.
End Search.

(** ** Decoding *)

Fixpoint ber_slots (ms : list asn_TYPE_member_t) : Type :=
  match ms with
  | [] => unit
  | m :: ms => option (ber_struct (T := elm_type m)) * ber_slots ms
  end.

Fixpoint fresh_ber_slots (ms : list asn_TYPE_member_t) : ber_slots ms :=
  match ms with
  | [] => tt
  | m :: ms => (None, fresh_ber_slots ms)
  end.

Fixpoint ber_slots_value (ms : list asn_TYPE_member_t) : ber_slots ms -> fields ms :=
  match ms with
  | [] => fun _ => tt
  | m :: ms => fun '(p, ss) => (set_memb m (ber_value <$> p), ber_slots_value ms ss)
  end.

(** A member's own decoder, run on its place in the structure; [None] outside
    the table. *)
Fixpoint step_slot (ms : list asn_TYPE_member_t) (buf : list Z) (i : nat) :
    ber_slots ms -> option (asn_dec_rval_code * Z * ber_slots ms) :=
  match ms, i with
  | [], _ => fun _ => None
  | m :: ms, O => fun '(p, ss) =>
    '(code, n, p) ← ber_decoder (elm_tag_mode m) p buf; Some (code, n, (p, ss))
  | m :: ms, S i => fun '(p, ss) => '(code, n, ss) ← step_slot ms buf i ss; Some (code, n, (p, ss))
  end.

Record ber_sequence_struct (ms : list asn_TYPE_member_t) := {
  bs_phase : Z;
  bs_step : Z;
  bs_left : Z;
  bs_members : ber_slots ms
}.
Arguments Build_ber_sequence_struct {ms}.
Arguments bs_phase {ms}.
Arguments bs_step {ms}.
Arguments bs_left {ms}.
Arguments bs_members {ms}.

(** What microphase 1 finds: a code to return, the end of the SEQUENCE, the
    octets of an end-of-contents, an unknown element that has been passed over
    and the member to go on with, or a member. *)
Inductive seek := Seek_stop (code : asn_dec_rval_code) | Seek_end | Seek_terminator
  | Seek_skip (edx : Z) (f : frame) | Seek_member (edx : Z).

Section Decode.
Context (ms : list asn_TYPE_member_t) (tag2el : list asn_TYPE_tag2member_t) (first_ext : Z) (tags : list Z).
Implicit Types f : frame.
Implicit Types ss : ber_slots ms.

Definition IN_EXTENSION_GROUP (memb_idx : Z) : bool := (0 <=? first_ext) && (first_ext <=? memb_idx).

(** The SEQUENCE may end in front of this member. *)
Definition may_end (edx : Z) (m : asn_TYPE_member_t) : bool :=
  (edx + elm_optional m =? elements_count ms) || IN_EXTENSION_GROUP edx.

Definition seek_member (edx : Z) f : option seek :=
  m ← ms !! Z.to_nat edx;
  if (fr_left f =? 0) && may_end edx m then Some Seek_end else
  r ← frame_tag f;
  match r with
  | inl code => Some (Seek_stop code)
  | inr (tag_len, tlv_tag) =>
    eoc ← (if fr_left f <? 0 then at_end_of_contents f else Some (inr false));
    match eoc with
    | inl code => Some (Seek_stop code)
    | inr eoc =>
      if eoc && may_end edx m then Some Seek_terminator else
      match find_member ms tag2el edx m tlv_tag with
      | Some n => Some (Seek_member n)
      | None =>
        if negb (IN_EXTENSION_GROUP (edx + elm_optional m)) then Some (Seek_stop RC_FAIL) else
        skip ← skip_element tag_len f;
        Some (match skip with inl code => Seek_stop code | inr f => Seek_skip (edx + elm_optional m) f end)
      end
    end
  end.

Definition sequence_return (code : asn_dec_rval_code) (phase step : Z) ss f :
    option (asn_dec_rval_code * Z * ber_sequence_struct ms) :=
  Some (code, fr_consumed f,
        {| bs_phase := phase; bs_step := step; bs_left := fr_left f; bs_members := ss |}).

(** Phases 3 and 4: everything up to the end; each round takes up an octet at
    least.  Code, phase and frame. *)
Fixpoint tail_loop (fuel : nat) (phase : Z) f : option (asn_dec_rval_code * Z * frame) :=
  if fr_left f =? 0 then Some (RC_OK, 10, f) else
  match fuel with
  | O => None
  | S fuel =>
    r ← frame_tag f;
    match r with
    | inl code => Some (code, phase, f)
    | inr (tl, _) =>
      eoc ← (if fr_left f <? 0 then at_end_of_contents f else Some (inr false));
      match eoc with
      | inl code => Some (code, phase, f)
      | inr true => tail_loop fuel 4 (closed_one (ADVANCE 2 f))
      | inr false =>
        if negb (IN_EXTENSION_GROUP (elements_count ms)) || (phase =? 4) then Some (RC_FAIL, phase, f) else
        skip ← skip_element tl f;
        match skip with
        | inl code => Some (code, phase, f)
        | inr f => tail_loop fuel phase f
        end
      end
    end
  end.

Definition sequence_tail (phase step : Z) ss f : option (asn_dec_rval_code * Z * ber_sequence_struct ms) :=
  '(code, phase, f) ← tail_loop (S (length (fr_buf f))) phase f;
  sequence_return code phase step ss f.

(** Phase 1.  A round goes on to a later member or takes up octets.  [step] is
    odd only in the first round, when [edx] is step >> 1. *)
Fixpoint members_loop (fuel : nat) (edx step : Z) ss f : option (asn_dec_rval_code * Z * ber_sequence_struct ms) :=
  if elements_count ms <=? edx then sequence_tail 3 step ss f else
  match fuel with
  | O => None
  | S fuel =>
    sk ← (if Z.land step 1 =? 0 then seek_member edx f else Some (Seek_member edx));
    match sk with
    | Seek_stop code => sequence_return code 1 step ss f
    | Seek_end => sequence_return RC_OK 10 step ss f
    | Seek_terminator => sequence_tail 3 step ss f
    | Seek_skip edx f => members_loop fuel edx (Z.land (step - 2) (Z.lnot 1) + 2) ss f
    | Seek_member edx =>
      let step := 1 + 2 * edx in
      r ← step_slot ms (LEFT f) (Z.to_nat edx) ss;
      let '(answer, ss, f) := member_answer r f in
      match answer with
      | Some code => sequence_return code 1 step ss f
      | None => members_loop fuel (edx + 1) (Z.land step (Z.lnot 1) + 2) ss f
      end
    end
  end.

Definition fresh_ber_sequence : ber_sequence_struct ms :=
  {| bs_phase := 0; bs_step := 0; bs_left := 0; bs_members := fresh_ber_slots ms |}.

Definition SEQUENCE_decode_ber (struct_ptr : option (ber_sequence_struct ms)) (buf : list Z) (tag_mode : Z) :
    option (asn_dec_rval_code * Z * ber_sequence_struct ms) :=
  let st := default fresh_ber_sequence struct_ptr in
  let fuel := (length ms + length buf)%nat in
  if bs_phase st =? 0 then
    '(code, consumed, step, f) ← open_frame tags tag_mode 1 (bs_step st) (bs_left st) buf;
    if negb (bool_decide (code = RC_OK)) then
      Some (code, consumed, {| bs_phase := 0; bs_step := step; bs_left := fr_left f; bs_members := bs_members st |})
    else members_loop fuel 0 0 (bs_members st) f
  else
    let f := {| fr_left := bs_left st; fr_consumed := 0; fr_buf := buf |} in
    if bs_phase st =? 1 then members_loop fuel (bs_step st ≫ 1) (bs_step st) (bs_members st) f
    else if (bs_phase st =? 3) || (bs_phase st =? 4) then sequence_tail (bs_phase st) (bs_step st) (bs_members st) f
    else Some (RC_OK, 0, st).

Definition ber_sequence_value (st : ber_sequence_struct ms) : fields ms := ber_slots_value ms (bs_members st).
End Decode.

(** ** The operations of the type *)

Definition SEQUENCE_ber (ms : list asn_TYPE_member_t) (tag2el : list asn_TYPE_tag2member_t) (first_ext : Z)
    (scratch tags : list Z) : BerType (fields ms) := {|
  ber_struct := ber_sequence_struct ms;
  ber_value := ber_sequence_value ms;
  ber_outmost _ := hd 0 tags;
  ber_decoder tag_mode struct_ptr buf :=
    '(code, n, st) ← SEQUENCE_decode_ber ms tag2el first_ext tags struct_ptr buf tag_mode; Some (code, n, Some st);
  der_encoder S C st tag_mode tag key := SEQUENCE_encode_der ms scratch tags st tag_mode tag key
|}.

Definition sequence_t_ber (specs : asn_SEQUENCE_specifics_t) (tag2el : list asn_TYPE_tag2member_t)
    (scratch tags : list Z) : BerType (sequence_t specs) :=
  shaped_ber (fun st : sequence_t specs => join_fields (roots specs) (additions specs) (fst st) (snd st))
    (split_fields (roots specs) (additions specs))
    (SEQUENCE_ber (roots specs ++ additions specs) tag2el (first_extension specs) scratch tags).

(** ** Lemmas: the encoding *)

(** What a member adds: nothing when it is absent or holds its default, or the
    tag it shows and its octets. *)
Definition item (m : asn_TYPE_member_t) (L : BerTypeLaws (elm_type m)) (f : field m) : option (Z * list Z) :=
  match memb_ptr m f with
  | Some t => if is_default m t then None else Some (elm_outmost_tag m t, der_of (elm_tag_mode m) (elm_tag m) t)
  | None => None
  end.

(** A member left out is optional. *)
Definition item_dom (m : asn_TYPE_member_t) (L : BerTypeLaws (elm_type m)) (f : field m) : Prop :=
  match memb_ptr m f with
  | Some t => if is_default m t then elm_optional m <> 0 else der_dom t
  | None => elm_optional m <> 0
  end.

(** The decoder sets no default values: a member left out is a null pointer, or
    zeroed memory. *)
Definition item_norm (m : asn_TYPE_member_t) (L : BerTypeLaws (elm_type m)) (f : field m) : field m :=
  set_memb m match memb_ptr m f with
             | Some t => if is_default m t then None else Some (der_norm t)
             | None => None
             end.

Fixpoint items (ms : list asn_TYPE_member_t) : members_ber_laws ms -> fields ms -> list (option (Z * list Z)) :=
  match ms with
  | [] => fun _ _ => []
  | m :: ms => fun '(exist _ L _, Ls) '(f, fs) => item m L f :: items ms Ls fs
  end.

Fixpoint fields_ber_dom (ms : list asn_TYPE_member_t) : members_ber_laws ms -> fields ms -> Prop :=
  match ms with
  | [] => fun _ _ => True
  | m :: ms => fun '(exist _ L _, Ls) '(f, fs) => item_dom m L f /\ fields_ber_dom ms Ls fs
  end.

Fixpoint fields_norm (ms : list asn_TYPE_member_t) : members_ber_laws ms -> fields ms -> fields ms :=
  match ms with
  | [] => fun _ _ => tt
  | m :: ms => fun '(exist _ L _, Ls) '(f, fs) => (item_norm m L f, fields_norm ms Ls fs)
  end.

Definition body (its : list (option (Z * list Z))) : list Z := concat (from_option snd [] <$> its).

Lemma length_items ms Ls fs : length (items ms Ls fs) = length ms.
Proof. induction ms as [|m ms IH]; [done|]. destruct Ls as [[L HL] Ls], fs as [f fs]. cbn. by rewrite IH. Qed.

Lemma body_nothing n its : body (replicate n None ++ its) = body its.
Proof. induction n; [done|]. cbn. by rewrite <- IHn. Qed.

Section Write.
Context {S : Type} {C : Consumer S} {A : AppendConsumer S}.

Lemma gather_members_ok ms Ls fs size : fields_ber_dom ms Ls fs -> 0 <= size ->
  size + Z.of_nat (length (body (items ms Ls fs))) <= RSSIZE_MAX ->
  gather_members (S := S) ms size fs = Some (Some (size + Z.of_nat (length (body (items ms Ls fs))))).
Proof using All.
  assert (Hmax : RSSIZE_MAX = 4611686018427387903) by reflexivity.
  revert size. induction ms as [|m ms IH]; intros size; [cbn; by rewrite Z.add_0_r|].
  destruct Ls as [[L [Hm Ht]] Ls], fs as [f fs]. cbn [fields_ber_dom items gather_members].
  unfold item_dom, item. intros [Hf Hfs] Hs.
  destruct (memb_ptr m f) as [t|]; [|rewrite (proj2 (Z.eqb_neq _ 0)) by done; by apply IH].
  destruct (is_default m t); [by apply IH|]. unfold body. cbn [fmap list_fmap from_option snd concat].
  rewrite length_app. fold (body (items ms Ls fs)). intros Hl.
  destruct (der_enc_law S C A t (elm_tag_mode m) (elm_tag m) Hf Hm Ht) as [-> _]; [lia|]. cbn [mbind option_bind].
  rewrite (proj2 (Z.eqb_neq _ (-1))), u64_small by lia. rewrite (IH Ls) by (done || lia). do 2 f_equal. lia.
Qed.

Lemma emit_members_ok ms Ls fs size (key : S) : fields_ber_dom ms Ls fs ->
  Z.of_nat (length (body (items ms Ls fs))) <= size -> size <= RSSIZE_MAX ->
  exists key', emit_members ms size key fs = Some (Some (size - Z.of_nat (length (body (items ms Ls fs)))), key') /\
    written key' = written key ++ body (items ms Ls fs).
Proof using All.
  assert (Hmax : RSSIZE_MAX = 4611686018427387903) by reflexivity.
  revert size key. induction ms as [|m ms IH]; intros size key.
  { exists key. cbn. by rewrite Z.sub_0_r, app_nil_r. }
  destruct Ls as [[L [Hm Ht]] Ls], fs as [f fs]. cbn [fields_ber_dom items emit_members].
  unfold item_dom, item. intros [Hf Hfs].
  destruct (memb_ptr m f) as [t|]; [|by apply IH].
  destruct (is_default m t); [by apply IH|]. unfold body. cbn [fmap list_fmap from_option snd concat].
  rewrite length_app. fold (body (items ms Ls fs)). intros Hl Hs.
  destruct (der_enc_law S C A t (elm_tag_mode m) (elm_tag m) Hf Hm Ht) as [_ Hk]; [lia|].
  destruct (Hk key) as (k1 & -> & Hk1). cbn [mbind option_bind].
  rewrite (proj2 (Z.eqb_neq _ (-1))), u64_small by lia.
  destruct (IH Ls fs (size - Z.of_nat (length (der_of (elm_tag_mode m) (elm_tag m) t))) k1) as (k2 & -> & Hk2); [done|lia|lia|].
  exists k2. split; [do 3 f_equal; lia|]. by rewrite Hk2, Hk1, app_assoc.
Qed.
End Write.

Definition sequence_der (ms : list asn_TYPE_member_t) (Ls : members_ber_laws ms) (tags : list Z) (tag_mode tag : Z)
    (fs : fields ms) : list Z :=
  let contents := body (items ms Ls fs) in
  der_header true (tags_to_write tags tag_mode tag) (Z.of_nat (length contents)) ++ contents.

Lemma sequence_der_encode_ok {S} {C : Consumer S} {A : AppendConsumer S} ms Ls scratch tags fs tag_mode tag :
  length scratch = 32%nat -> (1 <= length tags <= 3)%nat -> Forall tag_ok tags ->
  fields_ber_dom ms Ls fs -> prim_mode tag_mode -> tagging_ok tag_mode tag ->
  let octets := sequence_der ms Ls tags tag_mode tag fs in
  Z.of_nat (length octets) <= RSSIZE_MAX ->
  SEQUENCE_encode_der (S := S) ms scratch tags fs tag_mode tag None = Some (Z.of_nat (length octets), None) /\
  forall key, exists key', SEQUENCE_encode_der ms scratch tags fs tag_mode tag (Some key) =
    Some (Z.of_nat (length octets), Some key') /\ written key' = written key ++ octets.
Proof.
  assert (Hmax : RSSIZE_MAX = 4611686018427387903) by reflexivity.
  intros Hscratch Hlen Htags Hd Hp Ht octets. unfold octets, sequence_der. rewrite length_app. intros Hl.
  destruct (tags_to_write_ok scratch tags Hscratch Hlen Htags tag_mode tag Hp Ht) as [Hall _].
  unfold SEQUENCE_encode_der. rewrite (gather_members_ok ms Ls fs 0) by (done || lia). rewrite Z.add_0_l.
  cbn [mbind option_bind].
  destruct (der_write_tags_ok (S := S) scratch Hscratch tags (Z.of_nat (length (body (items ms Ls fs)))) tag_mode true tag)
    as [Hn Hk]; [lia|lia|done|lia|].
  set (header := der_header true _ _) in *. split; [rewrite Hn|intros key; destruct (Hk key) as (k1 & -> & Hk1)];
    cbn [mbind option_bind]; rewrite (proj2 (Z.eqb_neq _ (-1))) by lia; rewrite u64_small, s64_small by lia.
  - do 2 f_equal. lia.
  - destruct (emit_members_ok ms Ls fs (Z.of_nat (length (body (items ms Ls fs)))) k1 Hd) as (k2 & -> & Hk2); [lia|lia|].
    cbn [mbind option_bind]. rewrite Z.sub_diag. cbn [Z.eqb negb]. exists k2. split; [do 3 f_equal; lia|].
    by rewrite Hk2, Hk1, <- app_assoc.
Qed.

(** ** Lemmas: the decoder's loop *)

(** The members up to [k] are decoded and the others are not there yet. *)
Fixpoint filled (ms : list asn_TYPE_member_t) : members_ber_laws ms -> ber_slots ms -> fields ms -> nat -> Prop :=
  match ms with
  | [] => fun _ _ _ _ => True
  | m :: ms => fun '(exist _ L _, Ls) '(p, ss) '(f, fs) k =>
      match k with O => p = None | S _ => set_memb m (ber_value <$> p) = item_norm m L f end /\
      filled ms Ls ss fs (pred k)
  end.

Lemma filled_fresh ms Ls fs : filled ms Ls (fresh_ber_slots ms) fs 0.
Proof. induction ms as [|m ms IH]; [done|]. destruct Ls as [[L HL] Ls], fs as [f fs]. split; [done|apply IH]. Qed.

Lemma filled_done ms Ls ss fs : filled ms Ls ss fs (length ms) -> ber_slots_value ms ss = fields_norm ms Ls fs.
Proof.
  induction ms as [|m ms IH]; [done|]. destruct Ls as [[L HL] Ls], ss as [p ss], fs as [f fs].
  cbn [filled length ber_slots_value fields_norm pred]. intros [-> Hr]. by rewrite (IH Ls ss fs Hr).
Qed.

Lemma filled_skip ms Ls ss fs k : filled ms Ls ss fs k -> items ms Ls fs !! k = Some None -> filled ms Ls ss fs (S k).
Proof.
  revert k. induction ms as [|m ms IH]; [done|]. destruct Ls as [[L HL] Ls], ss as [p ss], fs as [f fs]. intros [|k].
  - cbn. intros [-> Hr] [= Hi]. split; [|done]. unfold item, item_norm in *.
    destruct (memb_ptr m f) as [t|]; [|done]. by destruct (is_default m t).
  - cbn. intros [Hp Hr] Hi. split; [done|]. exact (IH Ls ss fs k Hr Hi).
Qed.

Lemma filled_skips n ms Ls ss fs k : filled ms Ls ss fs k ->
  (forall i, (k <= i < k + n)%nat -> items ms Ls fs !! i = Some None) -> filled ms Ls ss fs (k + n).
Proof.
  induction n as [|n IH]; intros Hf Hi; [by rewrite Nat.add_0_r|]. rewrite Nat.add_succ_r.
  apply filled_skip; [apply IH; [done|intros i ?; apply Hi; lia]|apply Hi; lia].
Qed.

(** The octets of the next member that is there, and its decoder on them. *)
Lemma filled_step ms Ls ss fs k tag octets rest : filled ms Ls ss fs k -> fields_ber_dom ms Ls fs ->
  items ms Ls fs !! k = Some (Some (tag, octets)) -> Z.of_nat (length octets) <= RSSIZE_MAX ->
  tag_ok tag /\ (exists c r, octets = identifier tag c ++ r) /\
  exists ss', step_slot ms (octets ++ rest) k ss = Some (RC_OK, Z.of_nat (length octets), ss') /\
    filled ms Ls ss' fs (S k).
Proof.
  revert k. induction ms as [|m ms IH]; [done|].
  destruct Ls as [[L [Hm Ht]] Ls], ss as [p ss], fs as [f fs]. intros [|k]; cbn [filled fields_ber_dom items step_slot pred].
  - intros [-> Hr] [Hd _] [= Hi] Hl. unfold item, item_dom, item_norm in *.
    destruct (memb_ptr m f) as [t|] eqn:Ef; [|done]. destruct (is_default m t) eqn:Edf; [done|]. injection Hi as <- <-.
    destruct (der_front_law t (elm_tag_mode m) (elm_tag m) Hd Hm Ht) as [Hok Hfront]. unfold elm_outmost_tag.
    split_and!; [by destruct (elm_tag_mode m =? 0)|by destruct (elm_tag_mode m =? 0)|].
    destruct (ber_dec_law t (elm_tag_mode m) (elm_tag m) rest Hd Hm Ht Hl) as (x & -> & Hx). cbn [mbind option_bind].
    exists (Some x, ss). split; [done|]. cbn. by rewrite Ef, Edf, Hx.
  - intros [Hp Hr] [_ Hd] Hi Hl. destruct (IH Ls ss fs k Hr Hd Hi Hl) as (Hok & Hfront & ss' & -> & Hr').
    split_and!; [done..|]. cbn [mbind option_bind]. by exists (p, ss').
Qed.

(** What is left of the items: nothing, or a member behind some left out. *)
Lemma next_item {A} (its : list (option A)) :
  its = replicate (length its) None \/ exists n x its', its = replicate n None ++ Some x :: its'.
Proof.
  induction its as [|[x|] its IH]; [by left|right; by exists 0%nat, x, its|].
  destruct IH as [Heq|(n & x & its' & ->)]; [left; cbn; by rewrite <- Heq|right; by exists (S n), x, its'].
Qed.

Section Loop.
Context (ms : list asn_TYPE_member_t) (tag2el : list asn_TYPE_tag2member_t) (first_ext : Z) (tags : list Z).
Context (Ls : members_ber_laws ms).
Implicit Types fs : fields ms.

(** The tables lead from any place to the next member that is there, and the
    SEQUENCE may end where no more are. *)
Definition table_leads fs : Prop :=
  forall (edx n : nat) m tag octets, ms !! edx = Some m ->
    (forall i, (edx <= i < edx + n)%nat -> items ms Ls fs !! i = Some None) ->
    items ms Ls fs !! (edx + n)%nat = Some (Some (tag, octets)) ->
    find_member ms tag2el (Z.of_nat edx) m tag = Some (Z.of_nat (edx + n)).

Definition table_ends fs : Prop :=
  forall (edx : nat) m, ms !! edx = Some m -> (forall i, (edx <= i < length ms)%nat -> items ms Ls fs !! i = Some None) ->
    may_end ms first_ext (Z.of_nat edx) m = true.

Lemma tail_done ss f step : fr_left f = 0 ->
  sequence_tail ms first_ext 3 step ss f = sequence_return ms RC_OK 10 step ss f.
Proof. intros Hl. unfold sequence_tail. cbn [tail_loop]. by rewrite Hl. Qed.

Lemma members_loop_ok fs : fields_ber_dom ms Ls fs -> table_leads fs -> table_ends fs ->
  forall left_ms (k fuel : nat) ss f rest, (k + left_ms = length ms)%nat -> (left_ms <= fuel)%nat ->
  filled ms Ls ss fs k -> inside f (body (drop k (items ms Ls fs))) rest ->
  Z.of_nat (length (body (drop k (items ms Ls fs)))) <= RSSIZE_MAX ->
  exists st, members_loop ms tag2el first_ext fuel (Z.of_nat k) (2 * Z.of_nat k) ss f =
      Some (RC_OK, fr_consumed f + Z.of_nat (length (body (drop k (items ms Ls fs)))), st) /\
    ber_sequence_value ms st = fields_norm ms Ls fs.
Proof using All.
  intros Hd Hleads Hends left_ms. set (its := items ms Ls fs) in *.
  assert (Hits : length its = length ms) by apply length_items.
  induction left_ms as [left_ms IH] using lt_wf_ind. intros k fuel ss f rest Hk Hfuel Hfill Hi Hl.
  destruct fuel as [|fuel]; cbn [members_loop]; unfold elements_count.
  - destruct (Z.leb_spec (Z.of_nat (length ms)) (Z.of_nat k)) as [_|]; [|lia].
    rewrite drop_ge in Hi |- * by lia. rewrite tail_done by apply Hi. eexists. cbn. rewrite Z.add_0_r.
    split; [done|]. apply filled_done. by replace (length ms) with k by lia.
  - destruct (Z.leb_spec (Z.of_nat (length ms)) (Z.of_nat k)) as [|Hlt].
    { rewrite drop_ge in Hi |- * by lia. rewrite tail_done by apply Hi. eexists. cbn. rewrite Z.add_0_r.
      split; [done|]. apply filled_done. by replace (length ms) with k by lia. }
    destruct (even_step (Z.of_nat k) ltac:(lia)) as [-> _]. cbn [Z.eqb]. unfold seek_member.
    rewrite Nat2Z.id. destruct (lookup_lt_is_Some_2 ms k ltac:(lia)) as [m Hm]. rewrite Hm. cbn [mbind option_bind].
    destruct (next_item (drop k its)) as [Hnone|(n & [tag octets] & its' & Hsplit)].
    + assert (Hempty : forall i, (k <= i < length ms)%nat -> its !! i = Some None).
      { intros i Hik. replace i with (k + (i - k))%nat by lia. rewrite <- lookup_drop, Hnone, length_drop.
        apply lookup_replicate_2. lia. }
      rewrite (Hends k m Hm Hempty). rewrite Hnone in Hi |- *.
      rewrite <- (app_nil_r (replicate _ None)), body_nothing in Hi |- *. rewrite (proj1 Hi). cbn [length body].
      cbn. rewrite Z.add_0_r. eexists. split; [done|]. apply filled_done.
      replace (length ms) with (k + (length ms - k))%nat by lia. apply filled_skips; [done|]. intros i ?. apply Hempty. lia.
    + assert (Hskip : forall i, (k <= i < k + n)%nat -> its !! i = Some None).
      { intros i Hik. replace i with (k + (i - k))%nat by lia. rewrite <- lookup_drop, Hsplit.
        rewrite lookup_app_l by (rewrite length_replicate; lia). apply lookup_replicate_2. lia. }
      assert (Hthere : its !! (k + n)%nat = Some (Some (tag, octets))).
      { rewrite <- lookup_drop, Hsplit, lookup_app_r by (rewrite length_replicate; lia).
        by rewrite length_replicate, Nat.sub_diag. }
      assert (Hrest : its' = drop (S (k + n)) its).
      { replace (S (k + n)) with (k + S n)%nat by lia. rewrite <- drop_drop, Hsplit.
        by rewrite drop_app_ge, length_replicate, Nat.sub_succ_l, Nat.sub_diag by (rewrite ?length_replicate; lia). }
      rewrite Hsplit, body_nothing in Hi, Hl |- *.
      change (body (Some (tag, octets) :: its')) with (octets ++ body its') in *.
      rewrite length_app in Hl |- *. pose proof (lookup_lt_Some _ _ _ Hthere) as Hkn. pose proof Hi as [Hleft _].
      rewrite length_app in Hleft. 
      destruct (filled_step ms Ls ss fs (k + n) tag octets (body its') (filled_skips n ms Ls ss fs k Hfill Hskip) Hd Hthere)
        as (Htag & (c & r & Hfront) & ss' & Hstep & Hfill'); [lia|].
      assert (Hpos : (0 < length octets)%nat).
      { rewrite Hfront, length_app, length_identifier.
        assert (H1 : (1 <= length (tag_octets tag) <= 6)%nat) by (apply tag_octets_bound; unfold tag_ok in Htag; lia). lia. }
      destruct (Z.eqb_spec (fr_left f) 0); [lia|]. cbn [andb].
      rewrite (inside_tag f tag c (r ++ body its') rest Htag) by (by rewrite app_assoc, <- Hfront).
      cbn [mbind option_bind]. destruct (Z.ltb_spec (fr_left f) 0); [lia|]. cbn [mbind option_bind andb].
      rewrite (Hleads k n m tag octets Hm Hskip Hthere). cbn [mbind option_bind].
      rewrite Nat2Z.id, (inside_left _ _ _ Hi), Hstep. cbn [mbind option_bind member_answer].
      destruct (odd_step (Z.of_nat (k + n)) ltac:(lia)) as (_ & _ & Hodd & _).
      rewrite (Z.add_comm 1), Hodd. destruct (inside_advance f _ _ _ Hi) as [Hi' Hc].
      replace (2 * Z.of_nat (k + n) + 2) with (2 * Z.of_nat (S (k + n))) by lia.
      replace (Z.of_nat (k + n) + 1) with (Z.of_nat (S (k + n))) by lia. rewrite Hrest in Hi', Hl |- *.
      destruct (IH (length ms - S (k + n))%nat ltac:(lia) (S (k + n)) fuel ss' _ rest ltac:(lia) ltac:(lia) Hfill' Hi')
        as (st & -> & Hv); [lia|].
      exists st. rewrite Hc. split; [do 3 f_equal; lia|done].
Qed.
End Loop.

(** ** Lemmas: tables of members with tags of their own *)

(** The members from here on that may be absent. *)
Fixpoint optional_run (ms : list asn_TYPE_member_t) : Z :=
  match ms with
  | [] => 0
  | m :: ms => if elm_optional m =? 0 then 0 else 1 + optional_run ms
  end.

(** Members with distinct tags of their own, not more than seven optional ones
    in a row, whose number each of them holds. *)
Definition plain_table (ms : list asn_TYPE_member_t) : Prop :=
  NoDup (elm_tag <$> ms) /\
  forall (i : nat) m, ms !! i = Some m ->
    elm_any m = false /\ elm_tag m <> any_tag /\ (forall t, elm_outmost_tag m t = elm_tag m) /\
    elm_optional m = optional_run (drop i ms) /\ elm_optional m <= 7.

Lemma item_absent ms Ls fs i : fields_ber_dom ms Ls fs -> items ms Ls fs !! i = Some None ->
  exists m, ms !! i = Some m /\ elm_optional m <> 0.
Proof.
  revert i. induction ms as [|m ms IH]; [done|]. destruct Ls as [[L HL] Ls], fs as [f fs]. intros [|i] [Hf Hd] Hi.
  - exists m. split; [done|]. injection Hi as Hi. unfold item, item_dom in *. destruct (memb_ptr m f) as [t|]; [|done].
    by destruct (is_default m t).
  - exact (IH Ls fs i Hd Hi).
Qed.

Lemma item_present ms Ls fs i tag octets : items ms Ls fs !! i = Some (Some (tag, octets)) ->
  exists m t, ms !! i = Some m /\ tag = elm_outmost_tag m t.
Proof.
  revert i. induction ms as [|m ms IH]; [done|]. destruct Ls as [[L HL] Ls], fs as [f fs]. intros [|i] Hi.
  - injection Hi as Hi. unfold item in Hi. destruct (memb_ptr m f) as [t|]; [|done].
    destruct (is_default m t); [done|]. injection Hi as <- _. by exists m, t.
  - exact (IH Ls fs i Hi).
Qed.

Lemma run_bound ms n : (n <= length ms)%nat ->
  (forall i, (i < n)%nat -> exists m, ms !! i = Some m /\ elm_optional m <> 0) -> Z.of_nat n <= optional_run ms.
Proof.
  assert (Hnonneg : forall l, 0 <= optional_run l).
  { induction l as [|m l IH]; [done|]. cbn. destruct (elm_optional m =? 0); lia. }
  revert ms. induction n as [|n IH]; intros ms Hn Hopt; [apply Hnonneg|].
  destruct ms as [|m ms]; [cbn in Hn; lia|]. cbn [optional_run]. destruct (Hopt 0%nat ltac:(lia)) as (m' & [= ->] & Hm').
  rewrite (proj2 (Z.eqb_neq _ 0)) by done. cbn [length] in Hn.
  pose proof (IH ms ltac:(lia) (fun i Hi => Hopt (S i) ltac:(lia))). lia.
Qed.

Lemma run_length ms : optional_run ms <= Z.of_nat (length ms).
Proof. induction ms as [|m ms IH]; [done|]. cbn [optional_run length]. destruct (elm_optional m =? 0); lia. Qed.

Lemma linear_finds n : forall ms start scope m, ms !! n = Some m -> (n < scope)%nat ->
  (forall i m', (i < n)%nat -> ms !! i = Some m' -> elm_tag m' <> elm_tag m /\ elm_any m' = false /\ elm_tag m' <> any_tag) ->
  linear_search ms start scope (elm_tag m) = Found (start + Z.of_nat n).
Proof.
  induction n as [|n IH]; intros [|m0 ms] start [|scope] m Hm Hscope Hbefore; try done; try lia; cbn [linear_search].
  - injection Hm as ->. by rewrite Z.eqb_refl, Z.add_0_r.
  - destruct (Hbefore 0%nat m0 ltac:(lia) eq_refl) as (Hne & -> & Hany).
    rewrite (proj2 (Z.eqb_neq _ _)) by congruence. rewrite (proj2 (Z.eqb_neq _ any_tag)) by done.
    rewrite (IH ms (start + 1) scope m Hm ltac:(lia)); [f_equal; lia|].
    intros i m' Hi Hm'. apply (Hbefore (S i) m' ltac:(lia) Hm').
Qed.

Lemma plain_leads ms tag2el Ls fs : plain_table ms -> fields_ber_dom ms Ls fs -> table_leads ms tag2el Ls fs.
Proof.
  intros [Hdup Hplain] Hd edx n m tag octets Hm Hskip Hthere.
  destruct (item_present _ _ _ _ _ _ Hthere) as (mj & t & Hmj & ->).
  destruct (Hplain _ _ Hmj) as (_ & _ & -> & _). destruct (Hplain _ _ Hm) as (_ & _ & _ & Hopt & H7).
  pose proof (lookup_lt_Some _ _ _ Hmj) as Hj.
  assert (Hn : Z.of_nat n <= elm_optional m).
  { rewrite Hopt. apply run_bound; [rewrite length_drop; lia|]. intros i Hi. rewrite lookup_drop.
    apply (item_absent _ _ _ _ Hd). apply Hskip. lia. }
  assert (Hfound : forall scope, (n < scope)%nat ->
    linear_search (drop edx ms) (Z.of_nat edx) scope (elm_tag mj) = Found (Z.of_nat (edx + n))).
  { intros scope Hscope. rewrite (linear_finds n); [f_equal; lia|by rewrite lookup_drop|done|].
    intros i m' Hi Hm'. rewrite lookup_drop in Hm'. destruct (Hplain _ _ Hm') as (Hany & Htag & _).
    split_and!; [|done|done]. intros Heq.
    assert (edx + i = edx + n)%nat; [|lia]. apply (NoDup_lookup _ _ _ (elm_tag mj) Hdup); rewrite list_lookup_fmap.
    - by rewrite Hm', <- Heq.
    - by rewrite Hmj. }
  unfold find_member, elements_count. rewrite Nat2Z.id.
  destruct (Z.ltb_spec (Z.of_nat (length ms)) (Z.of_nat edx + elm_optional m + 1)); [|zcase]; by rewrite Hfound by lia.
Qed.

Lemma plain_ends ms first_ext Ls fs : plain_table ms -> fields_ber_dom ms Ls fs -> table_ends ms first_ext Ls fs.
Proof.
  intros [_ Hplain] Hd edx m Hm Hnone. unfold may_end, elements_count.
  destruct (Hplain _ _ Hm) as (_ & _ & _ & Hopt & _). pose proof (lookup_lt_Some _ _ _ Hm).
  pose proof (run_length (drop edx ms)) as Hup. rewrite length_drop in Hup.
  assert (Hlow : Z.of_nat (length ms - edx) <= optional_run (drop edx ms)).
  { apply run_bound; [by rewrite length_drop|]. intros i Hi. rewrite lookup_drop.
    apply (item_absent _ _ _ _ Hd). apply Hnone. lia. }
  rewrite (proj2 (Z.eqb_eq _ _)) by lia. done.
Qed.

(** ** The contract *)

Definition sequence_ber_dom (ms : list asn_TYPE_member_t) (tag2el : list asn_TYPE_tag2member_t) (first_ext : Z)
    (Ls : members_ber_laws ms) (fs : fields ms) : Prop :=
  fields_ber_dom ms Ls fs /\ table_leads ms tag2el Ls fs /\ table_ends ms first_ext Ls fs.

Lemma sequence_ber_decode_ok ms tag2el first_ext (tags : list Z) Ls (scratch : list Z) fs tag_mode tag rest :
  length scratch = 32%nat -> (1 <= length tags <= 3)%nat -> Forall tag_ok tags ->
  sequence_ber_dom ms tag2el first_ext Ls fs -> prim_mode tag_mode -> tagging_ok tag_mode tag ->
  let octets := sequence_der ms Ls tags tag_mode tag fs in
  Z.of_nat (length octets) <= RSSIZE_MAX ->
  exists st, SEQUENCE_decode_ber ms tag2el first_ext tags None (octets ++ rest) tag_mode =
      Some (RC_OK, Z.of_nat (length octets), st) /\
    ber_sequence_value ms st = fields_norm ms Ls fs.
Proof.
  intros Hscratch Hlen Htags (Hd & Hleads & Hends) Hp Ht octets Hl.
  destruct (tags_to_write_ok scratch tags Hscratch Hlen Htags tag_mode tag Hp Ht) as [Hall _].
  unfold SEQUENCE_decode_ber, octets, sequence_der in *.
  cbn [default fresh_ber_sequence bs_phase Z.eqb bs_step bs_left bs_members].
  destruct (open_frame_der tags tag_mode 1 tag (body (items ms Ls fs)) 0 rest) as (step & f & -> & Hi & Hc);
    [by left|by eapply prim_mode_ok|done|done|].
  cbn [mbind option_bind]. rewrite bool_decide_true by done. cbn [negb].
  set (header := der_header true _ _) in *. rewrite length_app in Hl.
  destruct (members_loop_ok ms tag2el first_ext tags Ls fs Hd Hleads Hends (length ms) 0
    (length ms + length ((header ++ body (items ms Ls fs)) ++ rest))%nat (fresh_ber_slots ms) f rest) as (st & Hr & Hv);
    [lia|lia|apply filled_fresh|by rewrite drop_0|rewrite drop_0; lia|].
  rewrite drop_0 in Hr. change (2 * Z.of_nat 0) with 0 in Hr. change (Z.of_nat 0) with 0 in Hr. exists st. rewrite Hr, length_app, Hc, Nat2Z.inj_add. done.
Qed.

Lemma items_bytes ms (Ls : members_ber_laws ms) fs : fields_ber_dom ms Ls fs ->
  Z.of_nat (length (body (items ms Ls fs))) <= RSSIZE_MAX -> bytes_ok (body (items ms Ls fs)).
Proof.
  induction ms as [|m ms IH]; [intros; apply bytes_ok_nil|]. destruct Ls as [[L [Hm Ht]] Ls], fs as [f fs].
  cbn [fields_ber_dom items]. unfold item, item_dom. intros [Hf Hd].
  destruct (memb_ptr m f) as [t|]; [|by apply IH]. destruct (is_default m t); [by apply IH|].
  change (body (Some ?x :: ?l)) with (snd x ++ body l). cbn [snd]. rewrite length_app. intros Hl.
  apply bytes_ok_app; [apply der_bytes_law; (done || lia)|apply IH; (done || lia)].
Qed.

Definition sequence_ber_laws (ms : list asn_TYPE_member_t) (tag2el : list asn_TYPE_tag2member_t) (first_ext : Z)
    (scratch tags : list Z) (Ls : members_ber_laws ms)
    (Hscratch : length scratch = 32%nat) (Hlen : (1 <= length tags <= 3)%nat) (Htags : Forall tag_ok tags) :
  @BerTypeLaws (fields ms) (SEQUENCE_ber ms tag2el first_ext scratch tags).
Proof.
  refine (@Build_BerTypeLaws (fields ms) (SEQUENCE_ber ms tag2el first_ext scratch tags)
    (sequence_ber_dom ms tag2el first_ext Ls) prim_mode (fields_norm ms Ls)
    (fun tag_mode tag fs => sequence_der ms Ls tags tag_mode tag fs) _ _ _ _).
  - intros S C A fs tag_mode tag (Hd & _) Hp Ht Hl. by apply sequence_der_encode_ok.
  - intros fs tag_mode tag rest Hd Hp Ht Hl.
    destruct (sequence_ber_decode_ok ms tag2el first_ext tags Ls scratch fs tag_mode tag rest) as (st & Hr & Hv); [done..|].
    exists st. cbn [ber_decoder SEQUENCE_ber ber_struct]. by rewrite Hr.
  - intros fs tag_mode tag (Hd & _) Hp Ht Hl. unfold sequence_der in *. rewrite length_app in Hl. apply bytes_ok_app.
    + apply der_header_bytes; [by eapply (tags_to_write_ok scratch)|lia|lia].
    + apply items_bytes; [done|lia].
  - intros fs tag_mode tag _ Hp Ht outmost.
    destruct (tags_to_write_ok scratch tags Hscratch Hlen Htags tag_mode tag Hp Ht) as (Hall & ts & Hts).
    unfold sequence_der. fold outmost in Hts. rewrite Hts in *. apply Forall_cons in Hall as [Hout _].
    split; [done|]. cbn [der_header]. rewrite <- !app_assoc. eauto.
Defined.

Definition sequence_t_ber_laws (specs : asn_SEQUENCE_specifics_t) (tag2el : list asn_TYPE_tag2member_t)
    (scratch tags : list Z) (Ls : members_ber_laws (roots specs ++ additions specs))
    (Hscratch : length scratch = 32%nat) (Hlen : (1 <= length tags <= 3)%nat) (Htags : Forall tag_ok tags) :
  @BerTypeLaws (sequence_t specs) (sequence_t_ber specs tag2el scratch tags) :=
  shaped_ber_laws _ _ (sequence_ber_laws _ tag2el (first_extension specs) scratch tags Ls Hscratch Hlen Htags).

(** ** Properties *)

(** C29: SEQUENCE in DER.  Whatever the types of its members, a SEQUENCE is
    encoded in its members' octets behind its tags, without the members that
    are absent or hold their default; the estimated size is their number, and
    the BER decoder makes of them the same members, whatever follows, but leaves
    out those with their default.  The tables of a SEQUENCE whose members have
    distinct tags of their own always lead the decoder. *)
Theorem sequence_der_roundtrip ms tag2el first_ext scratch tags (Ls : members_ber_laws ms) fs tag_mode tag
    {S} {C : Consumer S} {A : AppendConsumer S} (key : S) (rest : list Z) :
  length scratch = 32%nat -> (1 <= length tags <= 3)%nat -> Forall tag_ok tags ->
  fields_ber_dom ms Ls fs -> (plain_table ms \/ table_leads ms tag2el Ls fs /\ table_ends ms first_ext Ls fs) ->
  prim_mode tag_mode -> tagging_ok tag_mode tag ->
  let octets := sequence_der ms Ls tags tag_mode tag fs in
  Z.of_nat (length octets) <= RSSIZE_MAX ->
  SEQUENCE_encode_der (S := S) ms scratch tags fs tag_mode tag None = Some (Z.of_nat (length octets), None) /\
  (exists key', SEQUENCE_encode_der ms scratch tags fs tag_mode tag (Some key) =
     Some (Z.of_nat (length octets), Some key') /\ written key' = written key ++ octets) /\
  exists st, SEQUENCE_decode_ber ms tag2el first_ext tags None (octets ++ rest) tag_mode =
      Some (RC_OK, Z.of_nat (length octets), st) /\
    ber_sequence_value ms st = fields_norm ms Ls fs.
Proof.
  intros Hs Hl Ht Hd Htab Hm Htg octets Hlen.
  destruct (sequence_der_encode_ok (S := S) ms Ls scratch tags fs tag_mode tag Hs Hl Ht Hd Hm Htg Hlen) as [H1 H2].
  split_and!; [exact H1|exact (H2 key)|].
  apply (sequence_ber_decode_ok ms tag2el first_ext tags Ls scratch fs tag_mode tag rest Hs Hl Ht); try done.
  split; [done|]. destruct Htab as [Hp|]; [|done]. split; [by apply plain_leads|by apply plain_ends].
Qed.

(** SEQUENCE \{ flag [0] BOOLEAN DEFAULT TRUE, mode [1] CHOICE, last [2] BOOLEAN
    OPTIONAL \} with the flag at its default and without the last member. *)
Definition mode_member : asn_TYPE_member_t := {|
  elm_type := choice_t mode_specs; elm_per := CHOICE_per mode_specs None; elm_oer := CHOICE_oer mode_specs mode_tag2el;
  elm_stream := CHOICE_stream mode_specs mode_tag2el; elm_ber := CHOICE_ber mode_specs mode_tag2el (replicate 32 0) [];
  elm_xer := CHOICE_xer mode_specs (chars "Mode");
  elm_name := "mode"%string; elm_constraints := None;
  type_constraints := CHOICE_constraint "Mode"%string "Mode.c"%string mode_specs;
  elm_tag := 6; elm_tag_mode := 1; elm_any := false; elm_pointer := false; elm_optional := 0;
  default_value_cmp := None; default_value_set := None; elm_zero := None |}.

Definition report_members : list asn_TYPE_member_t :=
  [boolean_member true 1 2 (Some {| bool_int := 255 |}); mode_member; boolean_member true 1 10 None].

Lemma mode_member_ok : tag_ok (elm_tag mode_member).
Proof. split; reflexivity. Qed.

Definition report_laws : members_ber_laws report_members :=
  (boolean_member_ber true 1 2 (Some {| bool_int := 255 |}) ltac:(unfold tag_ok; cbn; lia),
   (exist _ (choice_ber_laws mode_specs mode_tag2el (replicate 32 0) [] mode_ber_laws eq_refl (Nat.le_0_l 3) (List.Forall_nil _))
      (conj (or_intror (or_introl eq_refl)) (or_intror (conj (or_introl eq_refl) mode_member_ok))),
    (boolean_member_ber true 1 10 None ltac:(unfold tag_ok; cbn; lia), tt))).

Definition report_value : fields report_members :=
  (Some {| bool_int := 255 |}, (Some mode_b, (None, tt))).

Lemma report_dom : fields_ber_dom report_members report_laws report_value.
Proof.
  split; [vm_compute; discriminate|]. split; [|split; [vm_compute; discriminate|exact I]].
  exists mode_b. split; [reflexivity|]. split; [|reflexivity]. eexists. split; [reflexivity|exact I].
Qed.

Lemma report_plain : plain_table report_members.
Proof.
  split; [apply (bool_decide_unpack (NoDup (elm_tag <$> report_members))); vm_compute; exact I|].
  intros [|[|[|i]]] m; cbn; intros [= <-]; split_and!; try discriminate; try reflexivity.
Qed.

Lemma sequence_der_roundtrip_witness :
  let octets := sequence_der report_members report_laws [64] 0 0 report_value in
  octets = [48; 6; 161; 4; 159; 100; 1; 255] /\
  fields_norm report_members report_laws report_value = (None, (Some mode_b, (None, tt))) /\
  SEQUENCE_encode_der (C := write_buffer) report_members (replicate 32 0) [64] report_value 0 0 None = Some (8, None) /\
  (exists key', SEQUENCE_encode_der report_members (replicate 32 0) [64] report_value 0 0 (Some {| bb_bytes := [] |}) =
     Some (8, Some key') /\ written key' = written {| bb_bytes := [] |} ++ octets) /\
  exists st, SEQUENCE_decode_ber report_members [] (-1) [64] None (octets ++ [7]) 0 = Some (RC_OK, 8, st) /\
    ber_sequence_value report_members st = fields_norm report_members report_laws report_value.
Proof.
  split; [vm_compute; reflexivity|]. split; [vm_compute; reflexivity|].
  apply (sequence_der_roundtrip report_members [] (-1) (replicate 32 0) [64] report_laws report_value 0 0
    {| bb_bytes := [] |} [7]).
  - reflexivity.
  - cbn; lia.
  - repeat constructor; cbn; lia.
  - exact report_dom.
  - left. exact report_plain.
  - left. reflexivity.
  - left. reflexivity.
  - vm_compute. discriminate.
Defined.
