(* ===== verification/Copying.v ===== *)
(** * What copying keeps (asn1/asn1c_wrapper.cpp, asn1/support/constr_SEQUENCE.c,
    constr_CHOICE.c, constr_SEQUENCE_OF.c)

    Structures are copied through DER.  Every type of the development keeps the
    contract [DerNormal]: a copy is encoded like the original, and is copied as
    it is.  For a SEQUENCE this takes that the test for the default value gives
    the same answer before and after, as it does where members with a default
    are pointers and their values survive the encoding. *)
From S2P Require Import Prelude Outcome Consumer PerNatural PerCodec AsnInteger UperInteger SequenceOf SetOf BerTlv BerPrim BerType.
From S2P Require Import Members BitString StringBer BerFrame BerSetOf ConstrChoice OerChoice BerChoice ConstrSequence BerSequence.

(** ** Primitive types and strings *)

Definition primitive_normal {T} scratch tags Hs Hl Ht decode encode dom norm contents Hsurvive Hbytes :
  (forall t : T, dom t -> dom (norm t) /\ contents (norm t) = contents t) ->
  @DerNormal T _ (primitive_ber_laws scratch tags Hs Hl Ht decode encode dom norm contents Hsurvive Hbytes).
Proof.
  intros Hn. refine (@Build_DerNormal T _ _ (fun _ => True) _). intros t Hd _. destruct (Hn t Hd) as [H1 H2].
  split_and!; [exact H1|done|]. intros tag_mode tag. cbn. by rewrite H2.
Defined.

Definition boolean_normal scratch tags Hs Hl Ht :
  @DerNormal BOOLEAN_t _ (boolean_ber_laws scratch tags Hs Hl Ht).
Proof. apply primitive_normal. intros [b] _. split; [done|]. unfold boolean_octet. by destruct (b =? 0) eqn:E; cbn; rewrite ?E. Defined.

Definition native_normal scratch tags Hs Hl Ht specs :
  @DerNormal Z _ (native_ber_laws scratch tags Hs Hl Ht specs).
Proof. apply primitive_normal. intros v Hv. by split. Defined.

Definition string_normal type_variant Hv scratch tags all_tags Hs Hl Ht :
  @DerNormal BIT_STRING_t _ (string_ber_laws type_variant Hv scratch tags all_tags Hs Hl Ht).
Proof.
  refine (@Build_DerNormal _ _ _ (fun _ => True) _). intros st Hd _. cbn [der_dom der_norm der_of string_ber_laws].
  destruct (written_ok type_variant st Hd) as [H1 H2].
  split_and!; [exact H1|done|]. intros tag_mode tag. by rewrite H2.
Defined.

(** A structure in another shape, where nothing of it is lost. *)
Definition shaped_normal {T U} (to : U -> T) (from : T -> U) {H : BerType T} (L : BerTypeLaws T) (N : DerNormal T) :
  (forall t, der_dom t -> to (from (der_norm t)) = der_norm t) -> @DerNormal U _ (shaped_ber_laws to from L).
Proof.
  intros Hback. refine (@Build_DerNormal U _ _ (fun u => der_kept (to u)) _). intros u Hd Hk.
  change (der_dom (to u)) in Hd. destruct (der_normal_law (to u) Hd Hk) as (H1 & H2 & H3).
  cbn [der_dom der_norm der_of ber_outmost shaped_ber_laws shaped_ber]. by rewrite Hback.
Defined.

(** ** SEQUENCE OF *)

Definition sequence_of_normal {T} `{N : DerNormal T} scratch tags elm_tag Hs Hl Ht Hm :
  @DerNormal (asn_anonymous_set_ T) _ (sequence_of_ber_laws scratch tags elm_tag Hs Hl Ht Hm).
Proof.
  refine (@Build_DerNormal (asn_anonymous_set_ T) _ _
    (fun l : list (option T) => Forall (from_option der_kept True) l) _).
  intros l (vs & -> & Hd) Hk. cbn [der_dom der_norm der_of ber_outmost sequence_of_ber_laws SEQUENCE_OF_ber].
  rewrite <- list_fmap_compose. apply Forall_fmap in Hk.
  assert (Forall (elem_dom elm_tag) (der_norm <$> vs) /\
    elem_octets elm_tag <$> (der_norm <$> vs) = elem_octets elm_tag <$> vs) as [Hdom Hoct].
  { clear Hs Hl Ht Hm. induction Hd as [|t vs [Hd Ho] _ IH]; [done|]. apply Forall_cons in Hk as [Hk Hks].
    destruct (IH Hks) as [IH1 IH2], (der_normal_law t Hd Hk) as (H1 & H2 & H3). cbn [fmap list_fmap]. split.
    - constructor; [|done]. split; [done|]. by rewrite H2.
    - rewrite IH2. unfold elem_octets at 1 3. by rewrite H3. }
  split_and!; [|done|].
  - exists (der_norm <$> vs). split; [by rewrite <- list_fmap_compose|done].
  - intros tag_mode tag. replace (option_map der_norm ∘ Some <$> vs) with (Some <$> (der_norm <$> vs))
      by (by rewrite <- list_fmap_compose).
    rewrite !omap_Some. unfold list_octets, list_body. by rewrite Hoct.
Defined.

(** ** Members *)

Fixpoint members_normal (ms : list asn_TYPE_member_t) : members_ber_laws ms -> Type :=
  match ms with
  | [] => fun _ => unit
  | m :: ms => fun '(exist _ L _, Ls) => (@DerNormal (elm_type m) _ L * members_normal ms Ls)%type
  end.

(** ** CHOICE *)

Fixpoint alt_kept (ms : list asn_TYPE_member_t) : forall Ls : members_ber_laws ms, members_normal ms Ls -> variant ms -> Prop :=
  match ms with
  | [] => fun _ _ _ => True
  | m :: ms => fun Ls =>
      match Ls return members_normal (m :: ms) Ls -> variant (m :: ms) -> Prop with
      | (exist _ L _, Ls) => fun '(N, Ns) v =>
          match v with
          | inl f => from_option der_kept True (memb_ptr m f)
          | inr v => alt_kept ms Ls Ns v
          end
      end
  end.

Definition alternative_tag (ms : list asn_TYPE_member_t) (v : variant ms) : Z :=
  on_variant (fun m f => match memb_ptr m f with
                         | Some t => elm_outmost_tag m t
                         | None => if negb (elm_tag_mode m =? 0) then elm_tag m else any_tag
                         end) ms v.

Lemma alt_normal ms Ls Ns v : alt_ber_dom ms Ls v -> alt_kept ms Ls Ns v ->
  alt_ber_dom ms Ls (alt_norm ms Ls v) /\ alt_der ms Ls (alt_norm ms Ls v) = alt_der ms Ls v /\
  alternative_tag ms (alt_norm ms Ls v) = alternative_tag ms v /\
  variant_index ms (alt_norm ms Ls v) = variant_index ms v.
Proof.
  induction ms as [|m ms IH]; [by destruct v|]. destruct Ls as [[L HL] Ls], Ns as [N Ns], v as [f|v];
    cbn [alt_ber_dom alt_kept alt_norm alt_der].
  - intros (t & -> & Hd). rewrite memb_ptr_set. cbn [from_option fmap option_fmap option_map]. intros Hk.
    destruct (der_normal_law t Hd Hk) as (H1 & H2 & H3). rewrite memb_ptr_set. cbn [from_option]. split_and!.
    + by exists (der_norm t).
    + apply H3.
    + unfold alternative_tag. cbn [on_variant]. rewrite !memb_ptr_set. unfold elm_outmost_tag. by rewrite H2.
    + done.
  - intros Hd Hk. destruct (IH Ls Ns v Hd Hk) as (H1 & H2 & H3 & H4). split_and!; [done..|]. cbn [variant_index]. by rewrite H4.
Qed.

Definition choice_normal specs tag2el scratch tags Ls Hs Hl Ht (Ns : members_normal (alternatives specs) Ls) :
  @DerNormal (choice_t specs) _ (choice_ber_laws specs tag2el scratch tags Ls Hs Hl Ht).
Proof.
  refine (@Build_DerNormal (choice_t specs) _ _ (from_option (alt_kept _ Ls Ns) True) _).
  intros st (v & -> & Hd & Htag) Hk. cbn [from_option] in Hk.
  destruct (alt_normal _ Ls Ns v Hd Hk) as (H1 & H2 & H3 & H4).
  cbn [der_dom der_norm der_of ber_outmost choice_ber_laws CHOICE_ber option_map from_option].
  assert (Hout : CHOICE_outmost_tag specs (Some (alt_norm _ Ls v)) = CHOICE_outmost_tag specs (Some v)) by exact H3.
  split_and!.
  - exists (alt_norm _ Ls v). split; [done|]. split; [exact H1|]. by rewrite Hout, H4.
  - by rewrite Hout.
  - intros tag_mode tag. unfold choice_der. by rewrite H2.
Defined.

(** ** SEQUENCE *)

(** A member left out of the encoding is not there in the copy either, or there
    with its default value; one that is encoded does not become the default. *)
Definition item_kept (m : asn_TYPE_member_t) (L : BerTypeLaws (elm_type m)) (N : DerNormal (elm_type m)) (f : field m) : Prop :=
  match memb_ptr m f with
  | Some t =>
    if is_default m t then elm_pointer m = true \/ is_default m (elm_zero m) = true
    else der_kept t /\ is_default m (der_norm t) = false
  | None => True
  end.

Lemma set_memb_null m : memb_ptr m (set_memb m None) = if elm_pointer m then None else Some (elm_zero m).
Proof. unfold memb_ptr, set_memb, field. by destruct (elm_pointer m). Qed.

Lemma memb_null_pointer m f : memb_ptr m f = None -> elm_pointer m = true.
Proof. unfold memb_ptr, field in *. by destruct (elm_pointer m). Qed.

Lemma item_normal m (L : BerTypeLaws (elm_type m)) N f : item_dom m L f -> item_kept m L N f ->
  item_dom m L (item_norm m L f) /\ item m L (item_norm m L f) = item m L f.
Proof.
  unfold item_dom, item_kept, item_norm, item. destruct (memb_ptr m f) as [t|] eqn:Hf.
  - destruct (is_default m t).
    + intros Hopt Hk. rewrite set_memb_null. destruct (elm_pointer m); [done|]. destruct Hk as [Hk|Hk]; [done|by rewrite Hk].
    + intros Hd [Hk Hn]. rewrite memb_ptr_set, Hn. destruct (der_normal_law t Hd Hk) as (H1 & H2 & H3).
      split; [done|]. unfold elm_outmost_tag. by rewrite H2, H3.
  - intros Hopt _. rewrite set_memb_null, (memb_null_pointer m f Hf). done.
Qed.

Fixpoint fields_kept (ms : list asn_TYPE_member_t) : forall Ls : members_ber_laws ms, members_normal ms Ls -> fields ms -> Prop :=
  match ms with
  | [] => fun _ _ _ => True
  | m :: ms => fun Ls =>
      match Ls return members_normal (m :: ms) Ls -> fields (m :: ms) -> Prop with
      | (exist _ L _, Ls) => fun '(N, Ns) '(f, fs) => item_kept m L N f /\ fields_kept ms Ls Ns fs
      end
  end.

Lemma fields_normal ms Ls Ns fs : fields_ber_dom ms Ls fs -> fields_kept ms Ls Ns fs ->
  fields_ber_dom ms Ls (fields_norm ms Ls fs) /\ items ms Ls (fields_norm ms Ls fs) = items ms Ls fs.
Proof.
  induction ms as [|m ms IH]; [done|]. destruct Ls as [[L HL] Ls], Ns as [N Ns], fs as [f fs].
  cbn [fields_ber_dom fields_kept fields_norm items]. intros [Hf Hfs] [Hk Hks].
  destruct (item_normal m L N f Hf Hk) as [H1 H2], (IH Ls Ns fs Hfs Hks) as [H3 H4]. split; [done|]. by rewrite H2, H4.
Qed.

Definition sequence_normal ms tag2el first_ext scratch tags Ls Hs Hl Ht (Ns : members_normal ms Ls) :
  @DerNormal (fields ms) _ (sequence_ber_laws ms tag2el first_ext scratch tags Ls Hs Hl Ht).
Proof.
  refine (@Build_DerNormal (fields ms) _ _ (fields_kept ms Ls Ns) _). intros fs (Hd & Hlead & Hend) Hk.
  destruct (fields_normal ms Ls Ns fs Hd Hk) as [H1 H2].
  cbn [der_dom der_norm der_of ber_outmost sequence_ber_laws SEQUENCE_ber]. split_and!; [|done|].
  - split_and!; [done|unfold table_leads in *; by rewrite H2|unfold table_ends in *; by rewrite H2].
  - intros tag_mode tag. unfold sequence_der. by rewrite H2.
Defined.

(** ** Properties *)

Lemma copy_answers {T} `{BerType T} (t : T) n buffer : der_encode t (Some {| bb_bytes := [] |}) = Some (n, Some buffer) ->
  n <> -1 -> forall code consumed st, ber_decode None (bb_bytes buffer) = Some (code, consumed, st) ->
  copy t = if decide (code = RC_OK) then Ret (option_map ber_value st) else Throw runtime_error.
Proof.
  intros He Hn code consumed st Hr. unfold copy. rewrite He. cbn [checked mbind outcome_bind].
  rewrite (proj2 (Z.eqb_neq _ _)) by done. cbn [checked mbind outcome_bind]. by rewrite Hr.
Qed.

(** C12: Copying.  For any type, a structure that cannot be encoded is not
    copied, nor one whose encoding its own decoder refuses or asks to continue:
    both throw; otherwise the copy is what the decoder makes of the encoding.
    For every type that keeps the contract of its codec, and every structure
    whose encoding has a length the decoders accept, that is the value the
    encoding stands for, which need not be the same C value (BOOLEAN 5 becomes
    255, a member with its default value an absent one): where such a change
    does not make or unmake a default value, the copy has the very same
    encoding, and copying the copy gives it again. *)
Theorem copy_exact {T} `{BT : BerType T} (t : T) :
  (forall key, der_encode t (Some {| bb_bytes := [] |}) = Some (-1, key) -> copy t = Throw runtime_error) /\
  (forall n buffer code consumed st, der_encode t (Some {| bb_bytes := [] |}) = Some (n, Some buffer) -> n <> -1 ->
     ber_decode None (bb_bytes buffer) = Some (code, consumed, st) ->
     (code <> RC_OK -> copy t = Throw runtime_error) /\ (code = RC_OK -> copy t = Ret (option_map ber_value st))) /\
  forall L : BerTypeLaws T, der_dom t -> der_mode 0 -> Z.of_nat (length (der_of 0 0 t)) <= RSSIZE_MAX ->
    copy t = Ret (Some (der_norm t)) /\
    forall N : DerNormal T, der_kept t -> copy (der_norm t) = Ret (Some (der_norm t)) /\
      exists n buffer, der_encode t (Some {| bb_bytes := [] |}) = Some (n, Some buffer) /\
        der_encode (der_norm t) (Some {| bb_bytes := [] |}) = Some (n, Some buffer).
Proof.
  split_and!.
  - intros key He. unfold copy. by rewrite He.
  - intros n buffer code consumed st He Hn Hr. pose proof (copy_answers t n buffer He Hn code consumed st Hr) as Hc.
    case_decide; by split.
  - intros L Hd Hm Hl. pose proof (copy_returns t Hd Hm Hl) as Hc. split; [done|]. intros N Hk. split.
    + by rewrite copy_again.
    + by apply normal_written.
Qed.

(** The SEQUENCE of BerSequence with its first member at the default, TRUE, and
    the last one true in another way. *)
Definition odd_report : fields report_members := (Some {| bool_int := 255 |}, (Some mode_b, (Some {| bool_int := 5 |}, tt))).

#[local] Instance report_ber : BerType (fields report_members) := SEQUENCE_ber report_members [] (-1) (replicate 32 0) [64].

#[local] Instance report_ber_laws : BerTypeLaws (fields report_members) :=
  sequence_ber_laws report_members [] (-1) (replicate 32 0) [64] report_laws eq_refl ltac:(cbn; lia) ltac:(repeat constructor; cbn; lia).

Definition modes_normal : members_normal (alternatives mode_specs) mode_ber_laws :=
  (boolean_normal _ _ _ _ _, (boolean_normal _ _ _ _ _, (boolean_normal _ _ _ _ _, tt))).

Definition report_normals : members_normal report_members report_laws :=
  (boolean_normal _ _ _ _ _, (choice_normal _ _ _ _ _ _ _ _ modes_normal, (boolean_normal _ _ _ _ _, tt))).

#[local] Instance report_normal : DerNormal (fields report_members) := sequence_normal _ _ _ _ _ _ _ _ _ report_normals.

Lemma odd_report_dom : der_dom odd_report.
Proof.
  assert (Hd : fields_ber_dom report_members report_laws odd_report).
  { split; [vm_compute; discriminate|]. split; [|split; [exact I|exact I]].
    exists mode_b. split; [reflexivity|]. split; [|reflexivity]. eexists. split; [reflexivity|exact I]. }
  split; [exact Hd|]. split; [by apply plain_leads, Hd; exact report_plain|by apply plain_ends, Hd; exact report_plain].
Qed.

(** TRUE as 5 is not the default, but its copy is. *)
Example copy_made_default :
  copy ((Some {| bool_int := 5 |}, (Some mode_b, (None, tt))) : fields report_members) =
    Ret (Some (Some {| bool_int := 255 |}, (Some mode_b, (None, tt)))) /\
  copy ((Some {| bool_int := 255 |}, (Some mode_b, (None, tt))) : fields report_members) =
    Ret (Some (None, (Some mode_b, (None, tt)))).
Proof. split; vm_compute; reflexivity. Qed.

(** The report is copied, one without an alternative in its CHOICE is not. *)
Lemma copy_exact_witness :
  (copy odd_report = Ret (Some (None, (Some mode_b, (Some {| bool_int := 255 |}, tt)))) /\
   copy (der_norm odd_report) = Ret (Some (der_norm odd_report)) /\
   exists n buffer, der_encode odd_report (Some {| bb_bytes := [] |}) = Some (n, Some buffer) /\
     der_encode (der_norm odd_report) (Some {| bb_bytes := [] |}) = Some (n, Some buffer)) /\
  copy ((None, (None, (None, tt))) : fields report_members) = Throw runtime_error.
Proof.
  split.
  - destruct (copy_exact odd_report) as (_ & _ & H).
    destruct (H report_ber_laws odd_report_dom) as [H1 H2]; [by left|vm_compute; discriminate|].
    split; [exact H1|]. apply (H2 report_normal). vm_compute. repeat split. all: by left.
  - apply (proj1 (copy_exact ((None, (None, (None, tt))) : fields report_members)) (Some {| bb_bytes := [] |})).
    vm_compute. reflexivity.
Defined.
