(* ===== verification/XerSequence.v ===== *)
(** * SEQUENCE in XER (support/constr_SEQUENCE.c)

    The members one behind the other as elements inside that of the SEQUENCE;
    an absent member with a default value is printed with it.  The decoder
    looks for the member of each tag among those that may come next, passes
    over what it does not know where the SEQUENCE is extensible, and is resumed
    from the context in the structure. *)
From S2P Require Import Prelude Consumer PerCodec IntegerXer Xer XerPrim XerFrame Members ConstrChoice XerChoice BerSequence.
#[local] Open Scope Z_scope.

(** ** Printing *)

(** The member as it is printed: itself, or its default value. *)
Definition shown (m : asn_TYPE_member_t) (memb : field m) : option (elm_type m) :=
  match memb_ptr m memb with Some t => Some t | None => default_value_set m end.

Section Print.
Context {S : Type} `{C : Consumer S} (ilevel : Z) (canonical : bool).

Fixpoint SEQUENCE_encode_xer (ms : list asn_TYPE_member_t) : fields ms -> emitter S :=
  match ms with
  | [] => fun _ => new_line canonical (ilevel - 1)
  | m :: ms => fun '(memb, fs) =>
    match shown m memb with
    | None => if negb (elm_optional m =? 0) then SEQUENCE_encode_xer ms fs else fail_emitter
    | Some t =>
      and_then (xer_member canonical ilevel (elm_mname m) (xer_encoder S C t (ilevel + 1) canonical)) (SEQUENCE_encode_xer ms fs)
    end
  end.
End Print.

(** ** Reading *)

Fixpoint xer_slots (ms : list asn_TYPE_member_t) : Type :=
  match ms with
  | [] => unit
  | m :: ms => option (xer_struct (T := elm_type m)) * xer_slots ms
  end.

Fixpoint fresh_xer_slots (ms : list asn_TYPE_member_t) : xer_slots ms :=
  match ms with
  | [] => tt
  | m :: ms => (None, fresh_xer_slots ms)
  end.

Fixpoint xer_slots_value (ms : list asn_TYPE_member_t) : xer_slots ms -> fields ms :=
  match ms with
  | [] => fun _ => tt
  | m :: ms => fun '(p, ss) => (set_memb m (xer_value <$> p), xer_slots_value ms ss)
  end.

(** A member's own decoder, run on its place in the structure; [None] outside
    the table. *)
Fixpoint step_xer_slot (ms : list asn_TYPE_member_t) (buf : list Z) (i : nat) :
    xer_slots ms -> option (asn_dec_rval_code * Z * xer_slots ms) :=
  match ms, i with
  | [], _ => fun _ => None
  | m :: ms, O => fun '(p, ss) => '(code, n, p) ← xer_decoder (Some (elm_mname m)) p buf; Some (code, n, (p, ss))
  | m :: ms, S i => fun '(p, ss) => '(code, n, ss) ← step_xer_slot ms buf i ss; Some (code, n, (p, ss))
  end.

Section Decode.
Context (ms : list asn_TYPE_member_t) (first_ext : Z).
Implicit Types f : xer_frame.
Implicit Types ss : xer_slots ms.

Record xer_sequence_struct := { xq_saved : xer_saved; xq_members : xer_slots ms }.

Definition sequence_leave (code : asn_dec_rval_code) f ss : option (asn_dec_rval_code * Z * xer_sequence_struct) :=
  Some (code, xf_consumed f, {| xq_saved := saved f; xq_members := ss |}).

(** Phase 4 is the end, also after an unexpected tag. *)
Definition sequence_unexpected f : on_tag := Leave RC_FAIL (phase_to 4 f).

(** The member at an index of the table. *)
Definition member_at (edx : Z) : option asn_TYPE_member_t :=
  if edx <? elements_count ms then ms !! Z.to_nat edx else None.

Definition ends_here (edx : Z) : bool :=
  match member_at edx with
  | None => true
  | Some m => (edx + elm_optional m =? elements_count ms) || IN_EXTENSION_GROUP first_ext edx
  end.

(** In phase 0, at the end or at an empty SEQUENCE. *)
Definition sequence_end (size : Z) f : on_tag :=
  if ends_here (xf_step f) then Leave RC_OK (phase_to 4 (XER_ADVANCE size f)) else Leave RC_FAIL f.

(** The member of a tag among those that may come at [edx]. *)
Definition window_names (edx : Z) (m : asn_TYPE_member_t) : list (list Z) :=
  let edx_end := edx + elm_optional m + 1 in
  let edx_end := if elements_count ms <? edx_end then elements_count ms else edx_end in
  take (Z.to_nat (edx_end - edx)) (drop (Z.to_nat edx) (elm_mname <$> ms)).

Definition sequence_search (chunk : list Z) (tcv : xer_check_tag_e) f : on_tag :=
  let edx := xf_step f in
  let '(found, tcv, optional) :=
    match member_at edx with
    | Some m => (search_names chunk (window_names edx m) edx tcv, elm_optional m)
    | None => (None, tcv, 0)
    end in
  match found with
  | Some n => Again (phase_to 2 (step_to n f))
  | None =>
    if IN_EXTENSION_GROUP first_ext (edx + optional) then
      Again (XER_ADVANCE (Z.of_nat (length chunk)) (if tcv_closes tcv then f else phase_to 3 (left_to 1 f)))
    else sequence_unexpected f
  end.

Definition sequence_on_tag (chunk : list Z) (tcv : xer_check_tag_e) f : on_tag :=
  let size := Z.of_nat (length chunk) in
  let member := if negb (xf_phase f =? 1) then sequence_unexpected f else sequence_search chunk tcv f in
  match tcv with
  | XCT true CLOSING => if xf_phase f =? 0 then sequence_unexpected f else sequence_end size (phase_to 0 f)
  | XCT true BOTH => if xf_phase f =? 0 then sequence_end size f else member
  | XCT true OPENING => if xf_phase f =? 0 then Again (phase_to 1 (XER_ADVANCE size f)) else member
  | XCT false OPENING | XCT false BOTH => member
  | XCT false CLOSING | XCT_BROKEN => sequence_unexpected f
  end.

(** Phase 3: inside an unknown element. *)
Definition sequence_skip (chunk : list Z) (tcv : xer_check_tag_e) f : option on_tag :=
  '(r, depth) ← xer_skip_unknown tcv (xf_left f);
  let f := left_to depth f in
  let size := Z.of_nat (length chunk) in
  Some (if r =? -1 then sequence_unexpected f
        else if r =? 0 then Again (XER_ADVANCE size f)
        else if r =? 1 then Again (phase_to 1 (XER_ADVANCE size f))
        else sequence_on_tag chunk tcv (phase_to 1 f)).

Definition sequence_dispatch (chunk : list Z) (tcv : xer_check_tag_e) f : option on_tag :=
  if xf_phase f =? 3 then sequence_skip chunk tcv f else Some (sequence_on_tag chunk tcv f).

(** Phase 2: the decoder of the member. *)
Definition sequence_enter f ss : option (asn_dec_rval_code * xer_frame * xer_slots ms) :=
  if negb (xf_phase f =? 2) then Some (RC_OK, f, ss) else
  '(code, n, ss) ← step_xer_slot ms (xf_buf f) (Z.to_nat (xf_step f)) ss;
  let f := XER_ADVANCE n f in
  Some (code, if bool_decide (code = RC_OK) then phase_to 1 (step_to (xf_step f + 1) f) else f, ss).

Fixpoint sequence_loop (tag : list Z) (fuel : nat) f ss : option (asn_dec_rval_code * Z * xer_sequence_struct) :=
  match fuel with
  | O => None
  | S fuel =>
    if 3 <? xf_phase f then sequence_leave RC_FAIL (phase_to 4 f) ss else
    '(code, f, ss) ← sequence_enter f ss;
    if negb (bool_decide (code = RC_OK)) then sequence_leave code f ss else
    p ← next_part f;
    match p with
    | Part_return code => sequence_leave code f ss
    | Part_skip f => sequence_loop tag fuel f ss
    | Part_tag chunk f =>
      r ← sequence_dispatch chunk (xer_check_tag chunk (Some tag)) f;
      match r with
      | Again f => sequence_loop tag fuel f ss
      | Leave code f => sequence_leave code f ss
      end
    end
  end.

(** A token takes a character at least, and so does a member. *)
Definition sequence_fuel (buf : list Z) : nat := (2 * length buf + 2)%nat.

Definition fresh_xer_sequence : xer_sequence_struct := {| xq_saved := zeroed_context; xq_members := fresh_xer_slots ms |}.

Definition SEQUENCE_decode_xer (xml_tag : list Z) (struct_ptr : option xer_sequence_struct) (buf : list Z) :
    option (asn_dec_rval_code * Z * xer_sequence_struct) :=
  let st := default fresh_xer_sequence struct_ptr in
  sequence_loop xml_tag (sequence_fuel buf) (resumed (xq_saved st) buf) (xq_members st).

Definition SEQUENCE_xer (tag : list Z) : XerType (fields ms) := {|
  xer_struct := xer_sequence_struct;
  xer_value st := xer_slots_value ms (xq_members st);
  xml_tag := tag;
  xer_encoder S C st ilevel canonical := SEQUENCE_encode_xer ilevel canonical ms st;
  xer_decoder opt_mname st buf := '(code, n, st) ← SEQUENCE_decode_xer (default tag opt_mname) st buf; Some (code, n, Some st)
|}.
End Decode.

(** ** Lemmas: the text *)

Section Texts.
Context (ilevel : Z) (canonical : bool).

(** The element of a member that is printed. *)
Definition xer_item (m : asn_TYPE_member_t) (L : XerTypeLaws (elm_type m)) (memb : field m) : option (list Z) :=
  (fun t => element (elm_mname m) (xer_text t (ilevel + 1) canonical)) <$> shown m memb.

Fixpoint xer_items (ms : list asn_TYPE_member_t) : members_xer_laws ms -> fields ms -> list (option (list Z)) :=
  match ms with
  | [] => fun _ _ => []
  | m :: ms => fun '(exist _ L _, Ls) '(memb, fs) => xer_item m L memb :: xer_items ms Ls fs
  end.

(** Each element behind a new line. *)
Definition members_text (its : list (option (list Z))) : list Z := concat (from_option (fun e => line canonical ilevel ++ e) [] <$> its).

Lemma length_xer_items ms Ls fs : length (xer_items ms Ls fs) = length ms.
Proof. induction ms as [|m ms IH]; [done|]. destruct Ls as [[L HL] Ls], fs as [memb fs]. cbn. by rewrite IH. Qed.

Lemma members_text_nothing n its : members_text (replicate n None ++ its) = members_text its.
Proof. induction n; [done|]. cbn. by rewrite <- IHn. Qed.
End Texts.

(** A member that is not printed is optional. *)
Definition xer_item_dom (m : asn_TYPE_member_t) (L : XerTypeLaws (elm_type m)) (memb : field m) : Prop :=
  match shown m memb with Some t => xer_dom t | None => elm_optional m <> 0 end.

Fixpoint fields_xer_dom (ms : list asn_TYPE_member_t) : members_xer_laws ms -> fields ms -> Prop :=
  match ms with
  | [] => fun _ _ => True
  | m :: ms => fun '(exist _ L _, Ls) '(memb, fs) => xer_item_dom m L memb /\ fields_xer_dom ms Ls fs
  end.

Fixpoint fields_xer_norm (canonical : bool) (ms : list asn_TYPE_member_t) : members_xer_laws ms -> fields ms -> fields ms :=
  match ms with
  | [] => fun _ _ => tt
  | m :: ms => fun '(exist _ L _, Ls) '(memb, fs) =>
    (set_memb m (@xer_norm _ _ L canonical <$> shown m memb), fields_xer_norm canonical ms Ls fs)
  end.

Lemma shown_set m t : shown m (set_memb m (Some t)) = Some t.
Proof. unfold shown. by rewrite memb_ptr_set. Qed.

(** A member that is not printed has no default and is a null pointer. *)
Lemma shown_none m memb : shown m memb = None -> memb = set_memb m None /\ shown m (set_memb m None) = None.
Proof. unfold shown, memb_ptr, set_memb, field in *. destruct (elm_pointer m); [|done]. by destruct memb. Qed.

Lemma fields_norm_dom canonical ms Ls fs : fields_xer_dom ms Ls fs -> fields_xer_dom ms Ls (fields_xer_norm canonical ms Ls fs) /\
  forall ilevel, xer_items ilevel canonical ms Ls (fields_xer_norm canonical ms Ls fs) = xer_items ilevel canonical ms Ls fs.
Proof.
  induction ms as [|m ms IH]; [done|]. destruct Ls as [[L HL] Ls], fs as [memb fs]. cbn [fields_xer_dom fields_xer_norm xer_items].
  intros [Hm Hfs]. destruct (IH Ls fs Hfs) as [IH1 IH2]. unfold xer_item_dom, xer_item in *. destruct (shown m memb) as [t|] eqn:E.
  - cbn [fmap option_fmap option_map]. rewrite shown_set. destruct (xer_norm_law t 0 canonical Hm) as [H1 _]. split; [done|]. intros ilevel. rewrite IH2.
    cbn [fmap option_fmap option_map]. do 3 f_equal. by apply xer_norm_law.
  - destruct (shown_none m memb E) as [-> E']. cbn [fmap option_fmap option_map]. rewrite E'. split; [done|]. intros ilevel. by rewrite IH2.
Qed.

Lemma items_canonical ms Ls fs i j : fields_xer_dom ms Ls fs -> xer_items i true ms Ls fs = xer_items j true ms Ls fs.
Proof.
  induction ms as [|m ms IH]; [done|]. destruct Ls as [[L HL] Ls], fs as [memb fs]. cbn [fields_xer_dom xer_items]. intros [Hm Hfs].
  f_equal; [|by apply IH]. unfold xer_item, xer_item_dom in *. destruct (shown m memb); [|done]. cbn [fmap option_fmap option_map]. do 2 f_equal. by apply xer_canonical_law.
Qed.

Definition sequence_text (ms : list asn_TYPE_member_t) (Ls : members_xer_laws ms) (fs : fields ms) (ilevel : Z) (canonical : bool) : list Z :=
  members_text ilevel canonical (xer_items ilevel canonical ms Ls fs) ++ line canonical (ilevel - 1).

Lemma sequence_emits {S} `{HC : Consumer S} `{HA : !AppendConsumer S} ms Ls fs ilevel canonical : fields_xer_dom ms Ls fs ->
  emits (S := S) (SEQUENCE_encode_xer ilevel canonical ms fs) (sequence_text ms Ls fs ilevel canonical).
Proof.
  unfold sequence_text. induction ms as [|m ms IH]; cbn [fields_xer_dom SEQUENCE_encode_xer xer_items]; [intros _; apply new_line_emits|].
  destruct Ls as [[L HL] Ls], fs as [memb fs]. intros [Hm Hfs]. unfold xer_item_dom, xer_item in *. destruct (shown m memb) as [t|].
  - unfold members_text. cbn [fmap list_fmap option_fmap option_map from_option concat]. rewrite <- !app_assoc.
    eapply emits_eq; [apply then_emits; [apply member_emits; by apply xer_enc_law|by apply IH]|]. unfold member_text. by rewrite <- !app_assoc.
  - rewrite (proj2 (Z.eqb_neq _ 0)) by done. by apply IH.
Qed.

(** *** The members decoded so far *)

Fixpoint xer_filled (canonical : bool) (ms : list asn_TYPE_member_t) : members_xer_laws ms -> xer_slots ms -> fields ms -> nat -> Prop :=
  match ms with
  | [] => fun _ _ _ _ => True
  | m :: ms => fun '(exist _ L _, Ls) '(p, ss) '(memb, fs) k =>
      match k with O => p = None | S _ => set_memb m (xer_value <$> p) = set_memb m (@xer_norm _ _ L canonical <$> shown m memb) end /\
      xer_filled canonical ms Ls ss fs (pred k)
  end.

Section Filled.
Context (ilevel : Z) (canonical : bool).

Lemma xer_filled_fresh ms Ls fs : xer_filled canonical ms Ls (fresh_xer_slots ms) fs 0.
Proof. induction ms as [|m ms IH]; [done|]. destruct Ls as [[L HL] Ls], fs as [memb fs]. split; [done|apply IH]. Qed.

Lemma xer_filled_done ms Ls ss fs : xer_filled canonical ms Ls ss fs (length ms) -> xer_slots_value ms ss = fields_xer_norm canonical ms Ls fs.
Proof.
  induction ms as [|m ms IH]; [done|]. destruct Ls as [[L HL] Ls], ss as [p ss], fs as [memb fs].
  cbn [xer_filled length xer_slots_value fields_xer_norm pred]. intros [-> Hr]. by rewrite (IH Ls ss fs Hr).
Qed.

Lemma xer_filled_skip ms Ls ss fs k : xer_filled canonical ms Ls ss fs k -> xer_items ilevel canonical ms Ls fs !! k = Some None ->
  xer_filled canonical ms Ls ss fs (S k).
Proof.
  revert k. induction ms as [|m ms IH]; [done|]. destruct Ls as [[L HL] Ls], ss as [p ss], fs as [memb fs]. intros [|k].
  - cbn. intros [-> Hr] [= Hi]. split; [|done]. unfold xer_item in Hi. by destruct (shown m memb).
  - cbn. intros [Hp Hr] Hi. split; [done|]. exact (IH Ls ss fs k Hr Hi).
Qed.

Lemma xer_filled_skips n ms Ls ss fs k : xer_filled canonical ms Ls ss fs k ->
  (forall i, (k <= i < k + n)%nat -> xer_items ilevel canonical ms Ls fs !! i = Some None) -> xer_filled canonical ms Ls ss fs (k + n).
Proof.
  induction n as [|n IH]; intros Hf Hi; [by rewrite Nat.add_0_r|]. rewrite Nat.add_succ_r.
  apply xer_filled_skip; [apply IH; [done|intros i ?; apply Hi; lia]|apply Hi; lia].
Qed.

(** The text of the next member that is there, and its decoder on it. *)
Lemma xer_filled_step ms Ls ss fs k e rest : xer_filled canonical ms Ls ss fs k -> fields_xer_dom ms Ls fs ->
  xer_items ilevel canonical ms Ls fs !! k = Some (Some e) ->
  (exists m text, ms !! k = Some m /\ e = element (elm_mname m) text) /\
  exists ss', step_xer_slot ms (e ++ rest) k ss = Some (RC_OK, Z.of_nat (length e), ss') /\ xer_filled canonical ms Ls ss' fs (S k).
Proof.
  revert k. induction ms as [|m ms IH]; [done|].
  destruct Ls as [[L [Hn Hx]] Ls], ss as [p ss], fs as [memb fs]. intros [|k]; cbn [xer_filled fields_xer_dom xer_items step_xer_slot pred].
  - intros [-> Hr] [Hd _] [= Hi]. unfold xer_item, xer_item_dom in *. destruct (shown m memb) as [t|] eqn:E; [|done]. injection Hi as <-.
    split; [by eexists m, _|]. destruct (xer_dec_law t (ilevel + 1) canonical (Some (elm_mname m)) rest Hd Hn Hx) as (x & Hdec & Hv).
    cbn zeta in Hdec. cbn [default from_option id] in Hdec. rewrite Hdec. cbn [mbind option_bind]. exists (Some x, ss). split; [done|]. split; [|done].
    rewrite E. cbn. by rewrite Hv.
  - intros [Hp Hr] [_ Hd] Hi. destruct (IH Ls ss fs k Hr Hd Hi) as (Hm & ss' & -> & Hr').
    split; [done|]. cbn [mbind option_bind]. by exists (p, ss').
Qed.

Lemma xer_item_absent ms Ls fs i : fields_xer_dom ms Ls fs -> xer_items ilevel canonical ms Ls fs !! i = Some None ->
  exists m, ms !! i = Some m /\ elm_optional m <> 0.
Proof.
  revert i. induction ms as [|m ms IH]; [done|]. destruct Ls as [[L HL] Ls], fs as [memb fs]. intros [|i] [Hf Hd] Hi.
  - exists m. split; [done|]. injection Hi as Hi. unfold xer_item, xer_item_dom in *. by destruct (shown m memb).
  - exact (IH Ls fs i Hd Hi).
Qed.
End Filled.

(** ** Lemmas: the decoder on a text *)

(** Members with distinct names; each holds the number of optional ones in a
    row from it on. *)
Definition named_members (ms : list asn_TYPE_member_t) : Prop :=
  NoDup (elm_mname <$> ms) /\ forall (i : nat) m, ms !! i = Some m -> elm_optional m = optional_run (drop i ms).

Section Read.
Context (ms : list asn_TYPE_member_t) (first_ext : Z) (Ls : members_xer_laws ms) (Hms : named_members ms).
Context (tag : list Z) (Htag : name_ok tag).
Implicit Types f : xer_frame.
Implicit Types ss : xer_slots ms.

#[local] Abbreviation loop := (sequence_loop ms first_ext tag).

Lemma sequence_round fuel phase buf f ss : standing phase buf f -> phase <= 3 -> phase <> 2 ->
  loop (S fuel) f ss =
    p ← next_part f;
    match p with
    | Part_return code => sequence_leave ms code f ss
    | Part_skip f => loop fuel f ss
    | Part_tag chunk f =>
      r ← sequence_dispatch ms first_ext chunk (xer_check_tag chunk (Some tag)) f;
      match r with
      | Again f => loop fuel f ss
      | Leave code f => sequence_leave ms code f ss
      end
    end.
Proof.
  intros (Hp & _) Hle Hne. cbn [sequence_loop]. rewrite Hp. rewrite (proj2 (Z.ltb_ge 3 phase)) by done.
  unfold sequence_enter. rewrite Hp, (proj2 (Z.eqb_neq phase 2)) by done. cbn [negb mbind option_bind].
  by rewrite bool_decide_true by done.
Qed.

Lemma sequence_text_round ss : forall fuel f f' buf, standing 1 buf f ->
  next_part f = Some (Part_skip f') -> loop (S fuel) f ss = loop fuel f' ss.
Proof. intros fuel f f' buf Hf E. by rewrite (sequence_round fuel 1 buf f ss Hf), E. Qed.

Lemma sequence_open_ok rest fuel f ss : standing 0 (opening tag ++ rest) f ->
  exists f', standing 1 rest f' /\ xf_step f' = xf_step f /\ xf_consumed f' = xf_consumed f + Z.of_nat (length (opening tag)) /\
    loop (S fuel) f ss = loop fuel f' ss.
Proof using Htag.
  intros Hf. pose proof Hf as (Hp & Hc & Hb). exists (phase_to 1 (XER_ADVANCE (Z.of_nat (length (opening tag))) (context_to ST_TEXT f))).
  split; [|split; [done|split; [done|]]].
  - split; [done|]. split; [done|]. cbn [phase_to XER_ADVANCE context_to xf_buf]. by rewrite Hb, drop_chunk.
  - rewrite (sequence_round fuel 0 _ f ss Hf) by done. rewrite (part_opening f Hc tag rest Htag Hb). cbn [mbind option_bind].
    rewrite check_opening, bool_decide_true by done. unfold sequence_dispatch, sequence_on_tag. cbn [context_to xf_phase]. by rewrite Hp.
Qed.

Lemma window_finds (edx n : nat) m mj : ms !! edx = Some m -> ms !! (edx + n)%nat = Some mj -> Z.of_nat n <= elm_optional m ->
  forall tcv, search_names (opening (elm_mname mj)) (window_names ms (Z.of_nat edx) m) (Z.of_nat edx) tcv = (Some (Z.of_nat (edx + n)), XCT true OPENING).
Proof using Ls Hms.
  intros Hm Hmj Hn tcv. destruct Hms as [Hdup _]. pose proof (member_names_ok _ Ls) as Hnames. unfold window_names, elements_count.
  set (size := Z.to_nat _). assert (Hsub : take size (drop (Z.to_nat (Z.of_nat edx)) (elm_mname <$> ms)) `sublist_of` (elm_mname <$> ms)).
  { etransitivity; [apply sublist_take|apply sublist_drop]. }
  pose proof (lookup_lt_Some _ _ _ Hmj) as Hlt.
  rewrite (search_finds _ n _ (elm_mname mj)).
  - do 2 f_equal. lia.
  - rewrite lookup_take_lt, lookup_drop, Nat2Z.id, list_lookup_fmap, Hmj; [done|]. unfold size. case_match; lia.
  - by apply Forall_take, Forall_drop.
  - by apply (sublist_NoDup _ (elm_mname <$> ms)).
Qed.

Lemma sequence_find_ok (edx n : nat) m mj rest fuel f ss : ms !! edx = Some m -> ms !! (edx + n)%nat = Some mj -> Z.of_nat n <= elm_optional m ->
  standing 1 (opening (elm_mname mj) ++ rest) f -> xf_step f = Z.of_nat edx ->
  exists f', standing 2 (opening (elm_mname mj) ++ rest) f' /\ xf_step f' = Z.of_nat (edx + n) /\ xf_consumed f' = xf_consumed f /\
    loop (S fuel) f ss = loop fuel f' ss.
Proof using Ls Hms Htag.
  intros Hm Hmj Hn Hf Hs. pose proof Hf as (Hp & Hc & Hb). exists (phase_to 2 (step_to (Z.of_nat (edx + n)) (context_to ST_TEXT f))).
  split; [done|]. split; [done|]. split; [done|]. rewrite (sequence_round fuel 1 _ f ss Hf) by done.
  assert (Hname : name_ok (elm_mname mj)).
  { apply (Forall_lookup_1 _ _ (edx + n)%nat _ (member_names_ok _ Ls)). by rewrite list_lookup_fmap, Hmj. }
  rewrite (part_opening f Hc (elm_mname mj) rest Hname Hb). cbn [mbind option_bind]. rewrite check_opening by done.
  unfold sequence_dispatch, sequence_on_tag, sequence_search. cbn [context_to xf_phase xf_step]. rewrite Hp, Hs.
  change (1 =? 3) with false. change (1 =? 0) with false. change (1 =? 1) with true. cbn [negb].
  assert (Hat : member_at ms (Z.of_nat edx) = Some m).
  { unfold member_at, elements_count. pose proof (lookup_lt_Some _ _ _ Hm). rewrite (proj2 (Z.ltb_lt _ _)) by lia. by rewrite Nat2Z.id. }
  rewrite Hat. rewrite (window_finds edx n m mj Hm Hmj Hn). by case_bool_decide.
Qed.

Lemma sequence_close_ok rest fuel f ss : standing 1 (closing tag ++ rest) f -> ends_here ms first_ext (xf_step f) = true ->
  exists st, loop (S fuel) f ss = Some (RC_OK, xf_consumed f + Z.of_nat (length (closing tag)), st) /\ xq_members ms st = ss.
Proof using Htag.
  intros Hf Hend. pose proof Hf as (Hp & Hc & Hb). rewrite (sequence_round fuel 1 _ f ss Hf) by done.
  rewrite (part_closing f Hc tag rest Htag Hb). cbn [mbind option_bind]. rewrite check_closing, bool_decide_true by done.
  unfold sequence_dispatch, sequence_on_tag, sequence_end. cbn [context_to xf_phase phase_to xf_step]. rewrite Hp, Hend. change (1 =? 3) with false. change (1 =? 0) with false.
  eexists. split; [reflexivity|done].
Qed.

(** A member's decoder, and what follows as if it had just been reached. *)
Lemma sequence_enter_ok f (octets rest : list Z) (k : nat) ss ss' :
  standing 2 (octets ++ rest) f -> xf_step f = Z.of_nat k -> step_xer_slot ms (octets ++ rest) k ss = Some (RC_OK, Z.of_nat (length octets), ss') ->
  exists f', standing 1 rest f' /\ xf_step f' = Z.of_nat (S k) /\ xf_consumed f' = xf_consumed f + Z.of_nat (length octets) /\
    forall fuel, loop (S fuel) f ss = loop (S fuel) f' ss'.
Proof.
  intros Hf Hs Hd. pose proof Hf as (Hp & Hc & Hb). set (n := Z.of_nat (length octets)) in *.
  set (g := phase_to 1 (step_to (xf_step f + 1) (XER_ADVANCE n f))). assert (Hg : standing 1 rest g).
  { split; [done|]. split; [done|]. cbn [g phase_to step_to XER_ADVANCE xf_buf]. unfold n. by rewrite Hb, drop_chunk. }
  exists g. split; [exact Hg|]. split; [cbn [g phase_to step_to xf_step]; lia|]. split; [done|]. intros fuel. rewrite (sequence_round fuel 1 _ g ss' Hg) by done.
  cbn [sequence_loop]. rewrite Hp. change (3 <? 2) with false. unfold sequence_enter. rewrite Hp, Hb, Hs, Nat2Z.id, Hd. change (2 =? 2) with true.
  cbn [negb mbind option_bind]. rewrite bool_decide_true by done. cbn [negb]. reflexivity.
Qed.

(** *** The whole text *)

Section Whole.
Context (fs : fields ms) (Hd : fields_xer_dom ms Ls fs) (ilevel : Z) (canonical : bool).
#[local] Abbreviation its := (xer_items ilevel canonical ms Ls fs).
#[local] Abbreviation body := (members_text ilevel canonical).

(** Members left out in a row are no more than the first of them says. *)
Lemma absent_run (edx n : nat) m : ms !! edx = Some m -> (edx + n <= length ms)%nat ->
  (forall i, (edx <= i < edx + n)%nat -> its !! i = Some None) -> Z.of_nat n <= elm_optional m.
Proof using Hms Hd.
  intros Hm Hn Hskip. destruct Hms as [_ Hopt]. rewrite (Hopt edx m Hm). apply run_bound; [rewrite length_drop; lia|].
  intros i Hi. rewrite lookup_drop. apply (xer_item_absent ilevel canonical ms Ls fs _ Hd). apply Hskip. lia.
Qed.

Lemma ends_rest (edx : nat) : (edx <= length ms)%nat -> (forall i, (edx <= i < length ms)%nat -> its !! i = Some None) ->
  ends_here ms first_ext (Z.of_nat edx) = true.
Proof using Hms Hd.
  intros Hle Hnone. unfold ends_here, member_at, elements_count. destruct (Z.ltb_spec (Z.of_nat edx) (Z.of_nat (length ms))); [|done].
  rewrite Nat2Z.id. destruct (lookup_lt_is_Some_2 ms edx ltac:(lia)) as [m Hm]. rewrite Hm.
  pose proof (absent_run edx (length ms - edx) m Hm ltac:(lia) (fun i Hi => Hnone i ltac:(lia))) as Hlow.
  destruct Hms as [_ Hopt]. pose proof (run_length (drop edx ms)) as Hup. rewrite <- (Hopt edx m Hm), length_drop in Hup.
  by rewrite (proj2 (Z.eqb_eq _ _)) by lia.
Qed.

Lemma sequence_xer_loop_ok rest : forall left_ms (k fuel : nat) ss f, (k + left_ms = length ms)%nat ->
  (length (body (drop k its)) + 2 <= fuel)%nat -> xer_filled canonical ms Ls ss fs k ->
  standing 1 (body (drop k its) ++ line canonical (ilevel - 1) ++ closing tag ++ rest) f -> xf_step f = Z.of_nat k ->
  exists st, loop fuel f ss = Some (RC_OK, xf_consumed f + Z.of_nat (length (body (drop k its) ++ line canonical (ilevel - 1) ++ closing tag)), st) /\
    xer_slots_value ms (xq_members ms st) = fields_xer_norm canonical ms Ls fs.
Proof using Hms Htag Hd.
  induction left_ms as [left_ms IH] using lt_wf_ind. intros k fuel ss f Hk Hfuel Hfill Hf Hs.
  pose proof (length_xer_items ilevel canonical ms Ls fs) as Hits. destruct (next_item (drop k its)) as [Hnone|(n & e & its' & Hsplit)].
  - assert (Hempty : forall i, (k <= i < length ms)%nat -> its !! i = Some None).
    { intros i Hik. replace i with (k + (i - k))%nat by lia. rewrite <- lookup_drop, Hnone, length_drop. apply lookup_replicate_2. lia. }
    rewrite Hnone in Hf |- *. rewrite <- (app_nil_r (replicate _ None)), members_text_nothing in Hf |- *. change (body []) with (@nil Z) in *. cbn [app] in *.
    destruct (skip_line (fun fuel f => loop fuel f ss) 1 canonical (ilevel - 1) (closing tag ++ rest) fuel f)
      as (f' & fuel' & Hf' & Hs' & Hc & Hfu & ->); [apply sequence_text_round|lia|exact Hf|done|].
    destruct fuel' as [|fuel']; [lia|]. destruct (sequence_close_ok rest fuel' f' ss Hf') as (st & -> & Hst).
    { rewrite Hs', Hs. apply ends_rest; [lia|exact Hempty]. }
    exists st. rewrite Hc, length_app, Hst. split; [do 3 f_equal; lia|]. apply xer_filled_done.
    replace (length ms) with (k + (length ms - k))%nat by lia. apply (xer_filled_skips ilevel); [done|]. intros i ?. apply Hempty. lia.
  - assert (Hskip : forall i, (k <= i < k + n)%nat -> its !! i = Some None).
    { intros i Hik. replace i with (k + (i - k))%nat by lia. rewrite <- lookup_drop, Hsplit.
      rewrite lookup_app_l by (rewrite length_replicate; lia). apply lookup_replicate_2. lia. }
    assert (Hthere : its !! (k + n)%nat = Some (Some e)).
    { rewrite <- lookup_drop, Hsplit, lookup_app_r by (rewrite length_replicate; lia). by rewrite length_replicate, Nat.sub_diag. }
    assert (Hrest : its' = drop (S (k + n)) its).
    { replace (S (k + n)) with (k + S n)%nat by lia. rewrite <- drop_drop, Hsplit.
      by rewrite drop_app_ge, length_replicate, Nat.sub_succ_l, Nat.sub_diag by (rewrite ?length_replicate; lia). }
    rewrite Hsplit, members_text_nothing in Hf, Hfuel |- *.
    assert (Hbody : body (Some e :: its') = line canonical ilevel ++ e ++ body its') by (unfold members_text; cbn; by rewrite <- app_assoc).
    rewrite Hbody in *. rewrite <- !app_assoc in Hf. pose proof (lookup_lt_Some _ _ _ Hthere) as Hkn.
    destruct (xer_filled_step ilevel canonical ms Ls ss fs (k + n) e (body its' ++ line canonical (ilevel - 1) ++ closing tag ++ rest)
      (xer_filled_skips ilevel canonical n ms Ls ss fs k Hfill Hskip) Hd Hthere) as ((mj & text & Hmj & He) & ss' & Hstep & Hfill').
    destruct (skip_line (fun fuel f => loop fuel f ss) 1 canonical ilevel (e ++ body its' ++ line canonical (ilevel - 1) ++ closing tag ++ rest) fuel f)
      as (f1 & fuel1 & Hf1 & Hs1 & Hc1 & Hfu1 & ->); [apply sequence_text_round|lia|exact Hf|by rewrite He|].
    destruct (lookup_lt_is_Some_2 ms k ltac:(lia)) as [m Hm]. rewrite !length_app in Hfuel.
    assert (Hlen : (7 <= length e)%nat).
    { rewrite He, length_element. assert (Hname : name_ok (elm_mname mj)).
      { apply (Forall_lookup_1 _ _ (k + n)%nat _ (member_names_ok _ Ls)). by rewrite list_lookup_fmap, Hmj. }
      destruct Hname as [(c & Hc & _) _]. destruct (elm_mname mj); [done|]. cbn [length]. lia. }
    destruct fuel1 as [|fuel1]; [lia|]. pose proof Hf1 as Hf1'. rewrite He in Hf1'. unfold element in Hf1'. rewrite <- !app_assoc in Hf1'.
    destruct (sequence_find_ok k n m mj _ fuel1 f1 ss Hm Hmj (absent_run k n m Hm ltac:(lia) Hskip) Hf1') as (f2 & Hf2 & Hs2 & Hc2 & ->); [by rewrite Hs1|].
    destruct (sequence_enter_ok f2 e (body its' ++ line canonical (ilevel - 1) ++ closing tag ++ rest) (k + n) ss ss')
      as (f3 & Hf3 & Hs3 & Hc3 & Henter); [|done|done|].
    { rewrite He. unfold element. by rewrite <- !app_assoc. }
    destruct fuel1 as [|fuel1]; [lia|]. rewrite Henter. rewrite Hrest in Hf3, Hfuel |- *.
    destruct (IH (length ms - S (k + n))%nat ltac:(lia) (S (k + n)) (S fuel1) ss' f3 ltac:(lia) ltac:(lia) Hfill' Hf3 Hs3) as (st & -> & Hst).
    exists st. split; [|done]. rewrite Hc3, Hc2, Hc1, !length_app. do 3 f_equal. lia.
Qed.

Lemma sequence_xer_decode_ok rest :
  let octets := element tag (sequence_text ms Ls fs ilevel canonical) in
  exists st, SEQUENCE_decode_xer ms first_ext tag None (octets ++ rest) = Some (RC_OK, Z.of_nat (length octets), st) /\
    xer_slots_value ms (xq_members ms st) = fields_xer_norm canonical ms Ls fs.
Proof using Hms Htag Hd.
  intros octets. unfold SEQUENCE_decode_xer. cbn [default fresh_xer_sequence xq_saved xq_members].
  set (text := sequence_text ms Ls fs ilevel canonical) in *.
  assert (Hfuel : exists fuel, sequence_fuel (octets ++ rest) = S fuel /\ (length (body (drop 0 its)) + 2 <= fuel)%nat).
  { exists (2 * length (octets ++ rest) + 1)%nat. unfold sequence_fuel. split; [lia|]. rewrite drop_0. unfold octets, element, text, sequence_text, opening, closing.
    rewrite !length_app. cbn [length]. rewrite !length_app. cbn [length]. lia. }
  destruct Hfuel as (fuel & -> & Hf). set (f := resumed zeroed_context _).
  destruct (sequence_open_ok (text ++ closing tag ++ rest) fuel f (fresh_xer_slots ms)) as (f1 & H1 & S1 & C1 & ->).
  { split; [done|]. split; [done|]. cbn [f resumed xf_buf]. unfold octets, element. by rewrite <- !app_assoc. }
  destruct (sequence_xer_loop_ok rest (length ms) 0 fuel (fresh_xer_slots ms) f1) as (st & -> & Hst); [done|done|apply xer_filled_fresh| |done|].
  { unfold text, sequence_text in H1. by rewrite drop_0, !app_assoc in *. }
  exists st. split; [|done]. rewrite C1, drop_0. cbn [f resumed xf_consumed]. unfold octets, element, text, sequence_text. rewrite !length_app. do 3 f_equal. lia.
Qed.
End Whole.
End Read.

(** ** The contract *)

Definition sequence_xer_laws (ms : list asn_TYPE_member_t) (first_ext : Z) (Ls : members_xer_laws ms) (Hms : named_members ms) (tag : list Z) :
  @XerTypeLaws (fields ms) (SEQUENCE_xer ms first_ext tag).
Proof.
  refine (@Build_XerTypeLaws (fields ms) (SEQUENCE_xer ms first_ext tag) (fields_xer_dom ms Ls) (fun _ => True)
    (fun canonical => fields_xer_norm canonical ms Ls) (sequence_text ms Ls) _ _ _ _).
  - intros S C A fs ilevel canonical Hd. by apply sequence_emits.
  - intros fs ilevel canonical opt_mname rest Hd name Hname _ octets.
    destruct (sequence_xer_decode_ok ms first_ext Ls Hms name Hname fs Hd ilevel canonical rest) as (st & Hr & Hv). exists st. split; [|exact Hv].
    change (('(code, n, st) ← SEQUENCE_decode_xer ms first_ext name None (octets ++ rest); Some (code, n, Some st)) = Some (RC_OK, Z.of_nat (length octets), Some st)).
    unfold octets. cbn zeta in Hr. by rewrite Hr.
  - intros fs ilevel canonical Hd. destruct (fields_norm_dom canonical ms Ls fs Hd) as [H1 H2]. split; [exact H1|].
    unfold sequence_text. by rewrite H2.
  - intros fs i j Hd. unfold sequence_text. cbn [line]. rewrite (items_canonical ms Ls fs i j Hd). by unfold members_text.
Defined.

(** ** Any octets *)

Section Total.
Context (strings : bool) (ms : list asn_TYPE_member_t) (first_ext : Z) (Ts : members_xer_total strings ms).
Implicit Types f : xer_frame.

(** The structures of the members are as their decoders left them. *)
Fixpoint slots_inv (ms : list asn_TYPE_member_t) : members_xer_total strings ms -> xer_slots ms -> Prop :=
  match ms with
  | [] => fun _ _ => True
  | m :: ms => fun '(T, Ts) '(p, ss) => from_option (@xer_inv _ _ _ T (Some (elm_mname m))) True p /\ slots_inv ms Ts ss
  end.

Lemma fresh_slots_inv ms' (Tms : members_xer_total strings ms') : slots_inv ms' Tms (fresh_xer_slots ms').
Proof. induction ms' as [|m ms' IH]; [done|]. destruct Tms as [T Tms]. split; [exact I|apply IH]. Qed.

Lemma step_slot_total ms' (Tms : members_xer_total strings ms') buf : readable strings buf -> forall (i : nat) ss, (i < length ms')%nat -> slots_inv ms' Tms ss ->
  exists code n ss', step_xer_slot ms' buf i ss = Some (code, n, ss') /\ 0 <= n <= Z.of_nat (length buf) /\ (code = RC_OK -> 0 < n) /\
    (code <> RC_FAIL -> slots_inv ms' Tms ss').
Proof.
  intros Hok. induction ms' as [|m ms' IH]; intros i ss Hi Hss; [cbn in Hi; lia|]. destruct Tms as [T Tms], ss as [p ss], Hss as [Hp Hss].
  destruct i as [|i]; cbn [step_xer_slot].
  - destruct (xer_total (Some (elm_mname m)) p buf Hp Hok) as (code & n & p' & -> & Hn & Hc & Hp'). cbn [mbind option_bind].
    exists code, n, (p', ss). split; [done|]. split; [done|]. split; [intros E; by apply Hc|]. intros Hf. split; [by apply Hp'|done].
  - cbn [length] in Hi. destruct (IH Tms i ss ltac:(lia) Hss) as (code & n & ss' & -> & Hn & Hc & Hss'). cbn [mbind option_bind].
    exists code, n, (p, ss'). split; [done|]. split; [done|]. split; [done|]. intros Hf. split; [done|by apply Hss'].
Qed.

(** The context fits: an index inside the table in phase 2, and an unknown
    element open in phase 3. *)
Definition sequence_context_inv (phase step depth : Z) : Prop :=
  0 <= step /\ (phase = 2 -> step < elements_count ms) /\ (phase = 3 -> 0 < depth).

Definition sequence_inv (st : xer_sequence_struct ms) : Prop :=
  let v := xq_saved ms st in
  sequence_context_inv (xv_phase v) (xv_step v) (xv_left v) /\ slots_inv ms Ts (xq_members ms st).
Definition sequence_frame_inv f : Prop := sequence_context_inv (xf_phase f) (xf_step f) (xf_left f).

Definition sequence_answer f (r : on_tag) : Prop :=
  progress f r /\ match r with Again g | Leave _ g => sequence_frame_inv g end.

Lemma sequence_phase_inv phase f : sequence_frame_inv f -> phase <> 2 -> phase <> 3 -> sequence_frame_inv (phase_to phase f).
Proof. intros (H1 & H2 & H3) Hp Hq. split; [exact H1|]. cbn. by split. Qed.

Lemma sequence_unexpected_answer f : sequence_frame_inv f -> sequence_answer f (sequence_unexpected f).
Proof. intros Hi. split; [split; [exact (moved_refl f)|done]|]. by apply sequence_phase_inv. Qed.

Section OnTag.
Context (chunk : list Z) f (Hsize : 0 < Z.of_nat (length chunk) <= Z.of_nat (length (xf_buf f))) (Hphase : xf_phase f <> 2).
Context (Hinv : sequence_frame_inv f).

Lemma sequence_taken g : xf_consumed g = xf_consumed f -> xf_buf g = xf_buf f -> sequence_frame_inv g ->
  sequence_answer f (Again (XER_ADVANCE (Z.of_nat (length chunk)) g)).
Proof using Hsize Hphase. intros Hc Hb Hg. split; [by apply progress_taken|exact Hg]. Qed.

Lemma sequence_search_answer tcv : xf_phase f = 1 -> sequence_answer f (sequence_search ms first_ext chunk tcv f).
Proof using Hsize Hphase Hinv.
  intros Hp. pose proof Hinv as (H1 & _ & _). unfold sequence_search.
  assert (Hmiss : forall optional tcv, sequence_answer f
    (if IN_EXTENSION_GROUP first_ext (xf_step f + optional) then
       Again (XER_ADVANCE (Z.of_nat (length chunk)) (if tcv_closes tcv then f else phase_to 3 (left_to 1 f)))
     else sequence_unexpected f)).
  { intros optional tcv'. destruct (IN_EXTENSION_GROUP _ _); [|by apply sequence_unexpected_answer].
    destruct (tcv_closes tcv'); apply sequence_taken; try done. }
  unfold member_at. destruct (Z.ltb_spec (xf_step f) (elements_count ms)) as [Hlt|]; [|apply Hmiss].
  destruct (ms !! Z.to_nat (xf_step f)) as [m|]; [|apply Hmiss].
  destruct (search_names _ _ _ _) as [[n|] tcv'] eqn:E; [|apply Hmiss]. apply search_bound in E.
  unfold window_names in E. rewrite length_take, length_drop, length_fmap in E. unfold elements_count in *. split.
  - split; [exact (moved_refl f)|]. unfold frame_measure. cbn. rewrite Hp. cbn. lia.
  - split; cbn; [lia|]. split; [unfold elements_count; lia|done].
Qed.

Lemma sequence_end_answer g : xf_consumed g = xf_consumed f -> xf_buf g = xf_buf f -> sequence_frame_inv g ->
  sequence_answer f (sequence_end ms first_ext (Z.of_nat (length chunk)) g).
Proof using Hsize.
  intros Hc Hb Hg. unfold sequence_end. destruct (ends_here _ _ _).
  - split; [|by apply sequence_phase_inv]. split; [|intros _; cbn [phase_to XER_ADVANCE xf_consumed]; lia].
    apply moved_phase, moved_taken; (done || lia).
  - split; [|exact Hg]. split; [|done]. by apply moved_same.
Qed.

Lemma sequence_on_tag_answer tcv : sequence_answer f (sequence_on_tag ms first_ext chunk tcv f).
Proof using Hsize Hphase Hinv.
  assert (Hmember : sequence_answer f (if negb (xf_phase f =? 1) then sequence_unexpected f else sequence_search ms first_ext chunk tcv f)).
  { destruct (Z.eqb_spec (xf_phase f) 1); [by apply sequence_search_answer|by apply sequence_unexpected_answer]. }
  unfold sequence_on_tag. destruct tcv as [|[] []]; try done; try by apply sequence_unexpected_answer.
  - destruct (Z.eqb_spec (xf_phase f) 0) as [Hp|]; [|exact Hmember]. apply (sequence_taken (phase_to 1 f)); [done..|]. by apply sequence_phase_inv.
  - destruct (Z.eqb_spec (xf_phase f) 0) as [Hp|]; [by apply sequence_unexpected_answer|]. apply sequence_end_answer; [done..|]. by apply sequence_phase_inv.
  - destruct (Z.eqb_spec (xf_phase f) 0) as [Hp|]; [by apply sequence_end_answer|exact Hmember].
Qed.
End OnTag.

Lemma sequence_answer_from f g r : xf_consumed f = xf_consumed g -> xf_buf f = xf_buf g -> frame_measure f = frame_measure g ->
  sequence_answer f r -> sequence_answer g r.
Proof. unfold sequence_answer, progress, moved. by intros -> -> ->. Qed.

Lemma sequence_dispatch_answer chunk tcv f : 0 < Z.of_nat (length chunk) <= Z.of_nat (length (xf_buf f)) -> xf_phase f <> 2 -> sequence_frame_inv f ->
  exists r, sequence_dispatch ms first_ext chunk tcv f = Some r /\ sequence_answer f r.
Proof.
  intros Hs Hp Hi. unfold sequence_dispatch. destruct (Z.eqb_spec (xf_phase f) 3) as [E|]; [|eexists; split; [done|by apply sequence_on_tag_answer]].
  pose proof Hi as (H1 & _ & H3). specialize (H3 E). unfold sequence_skip, xer_skip_unknown. rewrite (proj2 (Z.leb_gt (xf_left f) 0)) by done.
  assert (Hin : forall depth, 0 < depth -> sequence_frame_inv (left_to depth f)).
  { intros depth Hd. split; [exact H1|]. cbn. by rewrite E. }
  assert (Hout : forall phase depth, phase <> 2 -> phase <> 3 -> sequence_frame_inv (phase_to phase (left_to depth f))).
  { intros phase depth Hne2 Hne3. split; [exact H1|]. cbn. by split. }
  destruct tcv as [|expected []]; cbn [mbind option_bind]; (eexists; split; [reflexivity|]); cbn [Z.eqb Pos.eqb].
  - split; [split; [exact (moved_refl f)|done]|]. by apply (Hout 4).
  - apply sequence_taken; [done..|]. apply Hin. lia.
  - destruct (Z.eqb_spec (xf_left f - 1) 0) as [El|]; [|apply sequence_taken; [done..|apply Hin; lia]].
    destruct expected; cbn [Z.eqb Pos.eqb].
    + apply sequence_answer_from with (f := phase_to 1 (left_to (xf_left f - 1) f)); [done..|unfold frame_measure; cbn; by rewrite E|].
      apply sequence_on_tag_answer; [done|done|by apply Hout].
    + apply (sequence_taken chunk f Hs Hp (phase_to 1 (left_to (xf_left f - 1) f))); [done..|]. by apply Hout.
  - apply sequence_taken; [done..|]. by apply Hin.
Qed.

Lemma sequence_enter_total f ss : readable strings (xf_buf f) -> sequence_frame_inv f -> slots_inv ms Ts ss ->
  exists code g ss', sequence_enter ms f ss = Some (code, g, ss') /\ moved f g /\ sequence_frame_inv g /\ (code <> RC_FAIL -> slots_inv ms Ts ss') /\
    (code = RC_OK -> xf_phase g <> 2 /\ (frame_measure g <= frame_measure f)%nat).
Proof.
  intros Hok Hi Hss. unfold sequence_enter. destruct (Z.eqb_spec (xf_phase f) 2) as [E|E]; cbn [negb].
  2:{ exists RC_OK, f, ss. split; [done|]. split; [apply moved_refl|]. split; [done|]. split; [done|]. intros _. split; [done|lia]. }
  pose proof Hi as (H1 & H2 & H3). specialize (H2 E). unfold elements_count in H2.
  destruct (step_slot_total ms Ts (xf_buf f) Hok (Z.to_nat (xf_step f)) ss ltac:(lia) Hss) as (code & n & ss' & -> & Hn & Hc & Hss'). cbn [mbind option_bind].
  eexists code, _, ss'. split; [reflexivity|]. pose proof (moved_advance n f Hn) as Ha. case_bool_decide as Hcode.
  - split; [exact Ha|]. split; [split; cbn; [lia|by split]|]. split; [exact Hss'|]. intros _. split; [done|].
    specialize (Hc Hcode). unfold frame_measure. cbn [phase_to step_to XER_ADVANCE xf_buf xf_phase]. rewrite E, length_drop. cbn. lia.
  - split; [exact Ha|]. split; [exact Hi|]. by split.
Qed.

Lemma sequence_loop_total tag fuel : forall f ss, readable strings (xf_buf f) -> (frame_measure f < fuel)%nat -> sequence_frame_inv f -> slots_inv ms Ts ss ->
  answers sequence_inv f (sequence_loop ms first_ext tag fuel f ss).
Proof.
  induction fuel as [|fuel IH]; intros f ss Hok Hfuel Hi Hss; [lia|]. cbn [sequence_loop].
  assert (Hleave : forall code f g ss, moved f g -> sequence_frame_inv g -> (code <> RC_FAIL -> slots_inv ms Ts ss) -> (code = RC_OK -> xf_consumed f < xf_consumed g) ->
    answers sequence_inv f (sequence_leave ms code g ss)).
  { intros code f' g ss' Hg Hig Hsg Hc. apply answers_return; [done|done|]. intros Hf. split; [done|by apply Hsg]. }
  destruct (3 <? xf_phase f); [apply Hleave; [exact (moved_refl f)|by apply sequence_phase_inv|done|done]|].
  destruct (sequence_enter_total f ss Hok Hi Hss) as (code & g & ss' & -> & Hfg & Hig & Hsg & Hgood). cbn [mbind option_bind].
  case_bool_decide as Hcode; cbn [negb]; [|by apply Hleave]. destruct (Hgood Hcode) as (Hne & Hmeasure). specialize (Hsg ltac:(by rewrite Hcode)).
  apply (answers_moved _ f g _ Hfg). pose proof (moved_readable _ _ _ Hfg Hok) as Hokg.
  destruct (part_any g) as (p & -> & Hp). cbn [mbind option_bind]. destruct p as [code'|g'|chunk g'].
  - apply Hleave; [apply moved_refl|done..].
  - destruct Hp as (n & context & Hn & ->). pose proof (moved_advance n (context_to context g) ltac:(cbn; lia)) as Ha.
    apply (answers_moved _ g _ _ Ha). apply IH; [exact (moved_readable _ _ _ Ha Hokg)| |exact Hig|done].
    unfold frame_measure in *. cbn [XER_ADVANCE context_to xf_buf xf_phase]. rewrite length_drop. lia.
  - destruct Hp as (Hn & context & ->).
    destruct (sequence_dispatch_answer chunk (xer_check_tag chunk (Some tag)) (context_to context g) Hn Hne Hig) as (r & -> & Hprog & Hr).
    cbn [mbind option_bind]. apply (answers_moved _ g (context_to context g) _ (moved_context context g)).
    destruct r as [h|code' h]; destruct Hprog as [Hgh Hlt].
    + apply (answers_moved _ _ _ _ Hgh). apply IH; [exact (moved_readable _ _ _ Hgh Hokg)| |done|done].
      change (frame_measure (context_to context g)) with (frame_measure g) in Hlt. lia.
    + by apply Hleave.
Qed.

(** A SEQUENCE ends if its members do. *)
Definition sequence_xer_total (tag : list Z) : @XerTotal strings (fields ms) (SEQUENCE_xer ms first_ext tag).
Proof using Ts.
  refine (@Build_XerTotal strings _ (SEQUENCE_xer ms first_ext tag) (fun _ => sequence_inv) _).
  intros opt_mname struct_ptr buf Hinv Hok. set (name := default tag opt_mname). set (st := default (fresh_xer_sequence ms) struct_ptr).
  assert (Hst : sequence_inv st).
  { destruct struct_ptr; [exact Hinv|]. split; [split; cbn; [lia|by split]|apply fresh_slots_inv]. }
  destruct Hst as [Hst Hss].
  destruct (sequence_loop_total name (sequence_fuel buf) (resumed (xq_saved ms st) buf) (xq_members ms st)) as (code & n & st' & Hd & Hn & Hc & Hi);
    [done|unfold frame_measure, sequence_fuel; cbn [resumed xf_buf]; case_match; lia|done|done|].
  exists code, n, (Some st'). split; [|split; [exact Hn|split; [intros E; split; [exact (Hc E)|by eexists]|exact Hi]]].
  change (('(code, n, st) ← sequence_loop ms first_ext name (sequence_fuel buf) (resumed (xq_saved ms st) buf) (xq_members ms st); Some (code, n, Some st)) = Some (code, n, Some st')).
  by rewrite Hd.
Defined.
End Total.

(** ** Properties *)

(** A member that must be there is not. *)
Fixpoint fields_incomplete (ms : list asn_TYPE_member_t) : members_xer_laws ms -> fields ms -> Prop :=
  match ms with
  | [] => fun _ _ => False
  | m :: ms => fun '(exist _ L _, Ls) '(memb, fs) =>
    match shown m memb with
    | Some t => @xer_dom _ _ L t /\ fields_incomplete ms Ls fs
    | None => elm_optional m = 0 \/ fields_incomplete ms Ls fs
    end
  end.

Lemma sequence_refuses {S} `{HC : Consumer S} `{HA : !AppendConsumer S} ms Ls fs ilevel canonical : fields_incomplete ms Ls fs ->
  forall key : S, exists key', SEQUENCE_encode_xer ilevel canonical ms fs key = Some (-1, key').
Proof.
  induction ms as [|m ms IH]; cbn [fields_incomplete SEQUENCE_encode_xer]; [done|]. destruct Ls as [[L HL] Ls], fs as [memb fs].
  destruct (shown m memb) as [t|]; [intros [Ht Hfs] key|intros Hm key].
  - unfold and_then at 1. destruct (member_emits (S := S) canonical ilevel (elm_mname m) _ _ (xer_enc_law S HC HA t (ilevel + 1) canonical Ht) key) as (k1 & -> & _).
    cbn [mbind option_bind]. rewrite (proj2 (Z.ltb_ge _ 0)) by lia. destruct (IH Ls fs Hfs k1) as (k2 & ->). cbn [mbind option_bind]. by exists k2.
  - destruct (Z.eqb_spec (elm_optional m) 0) as [_|Hne]; cbn [negb]; [by exists key|]. destruct Hm as [Hm|Hm]; [done|]. by apply (IH Ls).
Qed.

(** C35: SEQUENCE in XER.  Whatever the types of its members, a SEQUENCE written
    as an element by [xer_encode] is read back by [xer_decode], which takes
    exactly the element, in front of anything.  A member left out comes back
    with its default value, if it has one, and is otherwise left out again.
    And, of a type that has such values, one in which a member is missing that
    is neither optional nor has a default is not written. *)
Theorem sequence_xer_roundtrip ms first_ext (Ls : members_xer_laws ms) (fs : fields ms) (tag : list Z) :
  named_members ms -> name_ok tag ->
  (fields_xer_dom ms Ls fs -> forall canonical,
     xer_survives_as (SEQUENCE_xer ms first_ext tag) canonical fs (fields_xer_norm canonical ms Ls fs)) /\
  (fields_incomplete ms Ls fs -> forall ilevel canonical (key : ByteBuffer),
     exists key', SEQUENCE_encode_xer ilevel canonical ms fs key = Some (-1, key')).
Proof.
  intros Hms Htag. split.
  - intros Hd. exact (lawful_survives _ (sequence_xer_laws ms first_ext Ls Hms tag) fs Htag I Hd).
  - intros Hinc ilevel canonical key. by apply (sequence_refuses ms Ls).
Qed.

(** SEQUENCE \{ flag BOOLEAN DEFAULT TRUE, range CHOICE, last BOOLEAN OPTIONAL \} *)
Definition range_member : asn_TYPE_member_t := {|
  elm_type := choice_t range_specs; elm_per := CHOICE_per range_specs None; elm_oer := OerChoice.CHOICE_oer range_specs OerChoice.mode_tag2el;
  elm_stream := OerChoice.CHOICE_stream range_specs OerChoice.mode_tag2el; elm_ber := BerChoice.CHOICE_ber range_specs OerChoice.mode_tag2el (replicate 32 0) [];
  elm_xer := CHOICE_xer range_specs (chars "Range");
  elm_name := "range"%string; elm_constraints := None;
  type_constraints := ConstrConstraint.CHOICE_constraint "Range"%string "Range.c"%string range_specs;
  elm_tag := 6; elm_tag_mode := 1; elm_any := false; elm_pointer := true; elm_optional := 0;
  default_value_cmp := None; default_value_set := None; elm_zero := None |}.

Definition sighting_members : list asn_TYPE_member_t :=
  [boolean_member true 1 2 (Some {| bool_int := 255 |}); range_member; checked_member "last" None Constraints.asn_generic_no_constraint true 1 10 None].

Definition sighting_laws : members_xer_laws sighting_members.
Proof.
  split; [|split; [|split; [|exact tt]]].
  - exists (boolean_xer_laws (chars "BOOLEAN")). split; [split; [by eexists|by repeat constructor]|split; discriminate].
  - exists (choice_xer_laws range_specs range_laws range_distinct (chars "Range")). split; [split; [by eexists|by repeat constructor]|exact I].
  - exists (boolean_xer_laws (chars "BOOLEAN")). split; [split; [by eexists|by repeat constructor]|split; discriminate].
Defined.

Definition sighting : fields sighting_members := (None, (Some (Some range_far), (None, tt))).

Lemma sequence_xer_roundtrip_witness :
  named_members sighting_members /\ fields_xer_dom sighting_members sighting_laws sighting /\
  (forall canonical, xer_survives_as (SEQUENCE_xer sighting_members (-1) (chars "Sighting")) canonical sighting
     (Some {| bool_int := 1 |}, (Some (Some range_far), (None, tt)))) /\
  forall ilevel canonical (key : ByteBuffer), exists key', SEQUENCE_encode_xer ilevel canonical sighting_members (None, (None, (None, tt))) key = Some (-1, key').
Proof.
  assert (Hms : named_members sighting_members).
  { split; [apply (bool_decide_unpack (NoDup (elm_mname <$> sighting_members))); vm_compute; exact I|].
    intros [|[|[|i]]] m; cbn; intros [= <-]; reflexivity. }
  assert (Hd : fields_xer_dom sighting_members sighting_laws sighting).
  { split; [exact I|]. split; [exists {| bool_int := 1 |}; split; [reflexivity|exact I]|]. split; [discriminate|exact I]. }
  assert (Htag : name_ok (chars "Sighting")) by (split; [by exists 83|by repeat constructor]).
  split; [exact Hms|]. split; [exact Hd|]. split.
  - exact (proj1 (sequence_xer_roundtrip sighting_members (-1) sighting_laws sighting (chars "Sighting") Hms Htag) Hd).
  - apply (proj2 (sequence_xer_roundtrip sighting_members (-1) sighting_laws (None, (None, (None, tt))) (chars "Sighting") Hms Htag)).
    split; [exact I|]. left. reflexivity.
Defined.

Example sighting_text :
  option_map (fun r => bb_bytes (snd r)) (xer_encode (H := SEQUENCE_xer sighting_members (-1) (chars "Sighting")) sighting true {| bb_bytes := [] |}) =
    Some (chars "<Sighting><flag><true/></flag><range><far><true/></far></range></Sighting>").
Proof. vm_compute. reflexivity. Qed.

(** After a SEQUENCE that ends too early the context is not at its end but back
    in phase 0: a call with another SEQUENCE starts afresh in front of the
    member that was missing. *)
Example premature_end :
  option_map (fun '(code, n, st) => (code, xv_phase (xq_saved _ st), xv_step (xq_saved _ st)))
    (SEQUENCE_decode_xer sighting_members (-1) (chars "Sighting") None (chars "<Sighting><flag><true/></flag></Sighting>")) =
    Some (RC_FAIL, 0, 1).
Proof. vm_compute. reflexivity. Qed.
