(* ===== verification/XerTypes.v ===== *)
(** * The XER decoders on any octets

    The types whose decoders come to an answer, however they are nested, on any
    octets but a reference to the character zero in a character string, and the
    structures that decoding in pieces can leave behind. *)
From S2P Require Import Prelude Consumer PerCodec AsnInteger BerPrim Enumerated SequenceOf OctetString BitString Oer IntegerXer Xer XerPrim XerString XerFrame XerSetOf Members ConstrChoice XerChoice XerSequence.
#[local] Open Scope Z_scope.

(** ** Types built from others *)

(** With [strings] the character strings are among them: UTF8String, IA5String
    and VisibleString. *)
Inductive xer_built (strings : bool) : forall T : Type, XerType T -> Type :=
| built_boolean tag : xer_built strings BOOLEAN_t (BOOLEAN_xer tag)
| built_null tag : xer_built strings unit (NULL_xer tag)
| built_integer specs tag : maps_ok specs -> xer_built strings INTEGER_t (INTEGER_xer specs tag)
| built_native_integer specs tag : maps_ok specs -> xer_built strings Z (NativeInteger_xer specs tag)
| built_enumerated specs tag : maps_ok specs -> xer_built strings Z (NativeEnumerated_xer specs tag)
| built_octet_string tag : xer_built strings OCTET_STRING_t (OCTET_STRING_xer tag)
| built_bit_string tag : xer_built strings BIT_STRING_t (BIT_STRING_xer tag)
| built_character_string tag : strings = true -> xer_built strings OCTET_STRING_t (utf8_string_xer tag)
| built_list T X as_XMLValueList element_name tag encode : xer_built strings T X ->
    xer_built strings (asn_anonymous_set_ T) (list_of_xer (XT := X) as_XMLValueList element_name tag encode)
| built_choice specs tag : built_members strings (alternatives specs) -> xer_built strings (choice_t specs) (CHOICE_xer specs tag)
| built_sequence ms first_ext tag : built_members strings ms -> xer_built strings (fields ms) (SEQUENCE_xer ms first_ext tag)
with built_members (strings : bool) : list asn_TYPE_member_t -> Type :=
| built_nil : built_members strings []
| built_cons m ms : xer_built strings (elm_type m) (elm_xer m) -> built_members strings ms -> built_members strings (m :: ms).

Definition character_string_total {strings} tag (Hs : strings = true) : @XerTotal strings OCTET_STRING_t (utf8_string_xer tag) :=
  match eq_sym Hs in _ = b return @XerTotal b OCTET_STRING_t (utf8_string_xer tag) with eq_refl => utf8_string_xer_total tag end.

Fixpoint built_total {strings T} {X : XerType T} (b : xer_built strings T X) : @XerTotal strings T X :=
  match b with
  | built_boolean _ tag => boolean_xer_total tag
  | built_null _ tag => null_xer_total tag
  | built_integer _ specs tag Hm => integer_xer_total specs tag Hm
  | built_native_integer _ specs tag Hm => native_xer_total specs tag _ Hm
  | built_enumerated _ specs tag Hm => native_xer_total specs tag _ Hm
  | built_octet_string _ tag => octet_string_xer_total tag
  | built_bit_string _ tag => bit_string_xer_total tag
  | built_character_string _ tag Hs => character_string_total tag Hs
  | built_list _ T X k name tag encode b => list_of_xer_total (HT := built_total b) k name tag encode
  | built_choice _ specs tag bs => choice_xer_total strings specs (members_total bs) tag
  | built_sequence _ ms first_ext tag bs => sequence_xer_total strings ms first_ext (members_total bs) tag
  end
with members_total {strings ms} (bs : built_members strings ms) : members_xer_total strings ms :=
  match bs with
  | built_nil _ => tt
  | built_cons _ m ms b bs => (built_total b, members_total bs)
  end.

(** What decoding an element of a given name can leave behind, whatever octets
    it is given one after the other, as long as it has not failed. *)
Inductive xer_left {T} (X : XerType T) (strings : bool) (opt_mname : option (list Z)) : option xer_struct -> Prop :=
| left_start : xer_left X strings opt_mname None
| left_more st buf code n st' : xer_left X strings opt_mname st -> readable strings buf ->
    xer_decoder opt_mname st buf = Some (code, n, st') -> code <> RC_FAIL -> xer_left X strings opt_mname st'.

Lemma left_inv {T} (X : XerType T) strings (HT : @XerTotal strings T X) opt_mname st : xer_left X strings opt_mname st ->
  from_option (xer_inv opt_mname) True st.
Proof.
  induction 1 as [|st buf code n st' _ IH Hok Hd Hf]; [exact I|].
  destruct (xer_total opt_mname st buf IH Hok) as (code' & n' & st2 & Hd' & _ & _ & Hi). rewrite Hd' in Hd. injection Hd as -> -> ->. by apply Hi.
Qed.

(** ** Properties *)

(** C18: XER decoding ends.  For every type built from primitive values, octet,
    bit and character strings by SEQUENCE OF, SET OF, CHOICE and SEQUENCE,
    however deep, with any names (and tables of value names whose entries refer
    to each other within their bounds), the decoder comes to an answer on any octets,
    also on a structure that earlier calls have left unfinished: no state of the
    context leads it outside its tables, into a failed assertion or around in
    circles.  It takes no more than it was given, and something when it
    accepts.  Two things are asked.  Where there are character [strings], the
    octets must not hold a reference to the character zero, for which an
    assertion does fail; and decoding is not continued on what a call has left
    that answered RC_FAIL, for there another assertion can fail. *)
Theorem xer_types_terminate {T} (X : XerType T) strings (b : xer_built strings T X) opt_mname st (buf : list Z) :
  xer_left X strings opt_mname st -> bytes_ok buf -> (strings = true -> has_zero_reference buf = false) ->
  exists code n st', xer_decoder opt_mname st buf = Some (code, n, st') /\ 0 <= n <= Z.of_nat (length buf) /\
    (code = RC_OK -> 0 < n /\ is_Some st') /\ (code <> RC_FAIL -> xer_left X strings opt_mname st').
Proof.
  intros Hst Hok Hz. destruct (xer_total (XerTotal := built_total b) opt_mname st buf) as (code & n & st' & Hd & Hn & Hc & _).
  - by eapply left_inv.
  - by split.
  - exists code, n, st'. split; [exact Hd|]. split; [exact Hn|]. split; [exact Hc|]. intros Hf. eapply left_more; [exact Hst| |exact Hd|exact Hf].
    by split.
Qed.

(** SEQUENCE OF SEQUENCE \{ flag BOOLEAN DEFAULT TRUE, range CHOICE, last BOOLEAN OPTIONAL \} *)
#[local] Abbreviation sightings := (SEQUENCE_OF_xer 0 (chars "Sighting") (chars "Sightings") (XT := SEQUENCE_xer sighting_members (-1) (chars "Sighting"))).

Definition sightings_built : xer_built false _ sightings.
Proof. apply built_list, built_sequence. repeat constructor. Defined.

(** SEQUENCE OF UTF8String *)
#[local] Abbreviation names := (SEQUENCE_OF_xer 0 (chars "name") (chars "Names") (XT := utf8_string_xer (chars "UTF8String"))).

Definition names_built : xer_built true _ names.
Proof. by apply built_list, built_character_string. Defined.

Lemma chars_bytes s : bytes_ok (chars s).
Proof. unfold chars, bytes_ok. apply Forall_fmap, Forall_forall. intros a _. unfold byte_ok. cbn. pose proof (Ascii.nat_ascii_bounded a). lia. Qed.

(** A text that ends inside leaves a structure. *)
Lemma left_by {T} (X : XerType T) strings text : readable strings (chars text) ->
  match xer_decoder None None (chars text) with Some (RC_WMORE, _, Some _) => true | _ => false end = true ->
  exists n st, xer_decoder None None (chars text) = Some (RC_WMORE, n, Some st) /\ xer_left X strings None (Some st).
Proof.
  intros Hok Hr. destruct (xer_decoder None None (chars text)) as [[[[] n] [st|]]|] eqn:E; try discriminate Hr. exists n, st. split; [done|].
  eapply left_more; [apply left_start|exact Hok|exact E|done].
Qed.

(** The text ends inside the CHOICE, and what follows closes the wrong element;
    or inside a reference, and another character follows. *)
Lemma xer_types_terminate_witness :
  (exists n st, xer_decoder (XerType := sightings) None None (chars "<Sightings><Sighting><range><far>") = Some (RC_WMORE, n, Some st) /\
    exists code n st', xer_decoder (XerType := sightings) None (Some st) (chars "<true/></far></Sighting>") = Some (code, n, st') /\
      0 <= n <= 24 /\ (code = RC_OK -> 0 < n /\ is_Some st') /\ (code <> RC_FAIL -> xer_left sightings false None st')) /\
  exists n st, xer_decoder (XerType := names) None None (chars "<Names><name>R&#x42") = Some (RC_WMORE, n, Some st) /\
    exists code n st', xer_decoder (XerType := names) None (Some st) (chars "&#x42;</name></Names>") = Some (code, n, st') /\
      0 <= n <= 21 /\ (code = RC_OK -> 0 < n /\ is_Some st') /\ (code <> RC_FAIL -> xer_left names true None st').
Proof.
  split.
  - destruct (left_by sightings false "<Sightings><Sighting><range><far>") as (n & st & Hd & Hst); [by split; [apply chars_bytes|]|vm_compute; reflexivity|].
    exists n, st. split; [exact Hd|].
    by apply (xer_types_terminate sightings false sightings_built None (Some st) (chars "<true/></far></Sighting>") Hst (chars_bytes _)).
  - destruct (left_by names true "<Names><name>R&#x42") as (n & st & Hd & Hst); [by split; [apply chars_bytes|]|vm_compute; reflexivity|].
    exists n, st. split; [exact Hd|].
    by apply (xer_types_terminate names true names_built None (Some st) (chars "&#x42;</name></Names>") Hst (chars_bytes _)).
Defined.

(** The list of alternatives of a CHOICE as a value list (2): the name of each
    is the alternative's own; the element's decoder looks for no name. *)
Example choice_list :
  let X := SEQUENCE_OF_xer 2 [] (chars "Ranges") (XT := CHOICE_xer range_specs (chars "Range")) in
  let l := [Some (Some range_far); Some (Some (inl (Some {| bool_int := 0 |})))] in
  let text := chars "<Ranges><far><true/></far><near><false/></near></Ranges>" in
  option_map (fun r => bb_bytes (snd r)) (xer_encode (H := X) l true {| bb_bytes := [] |}) = Some text /\
  option_map (fun r => (fst r, option_map (@xer_value _ X) (snd r))) (xer_decode (H := X) None text) = Some (RC_OK, 56, Some l).
Proof. split; vm_compute; reflexivity. Qed.
