(* ===== verification/Natural.v ===== *)
(** * DER and XER encoders do not look behind the callback

    As for the writers of PER (PerNatural) and OER: mapping the state behind
    the callback by a function that the callback commutes with, and then
    encoding, is the same as encoding and then mapping.  It holds of every
    value, whether it can be encoded or not. *)
From S2P Require Import Prelude Consumer PerNatural PerCodec AsnInteger SequenceOf SetOf OctetString Oer BerPrim BerType BerSetOf BitString StringBer IntegerXer Xer XerPrim XerString XerFrame XerSetOf.
From S2P Require Import Members ConstrSequence ConstrChoice BerChoice BerSequence XerChoice XerSequence.
#[local] Open Scope Z_scope.

(** ** Mapping the state of a result *)

Section Through.
Context {S1 S2 : Type} (f : S1 -> S2).

Definition through {A} (r : option (A * S1)) : option (A * S2) := '(a, k) ← r; Some (a, f k).

Lemma through_bind {A B} (r1 : option (A * S1)) r2 (k1 : A * S1 -> option (B * S1)) (k2 : A * S2 -> option (B * S2)) :
  r2 = through r1 -> (forall a k, k2 (a, f k) = through (k1 (a, k))) -> r2 ≫= k2 = through (r1 ≫= k1).
Proof. intros -> Hk. destruct r1 as [[a k]|]; [|done]. apply Hk. Qed.

Lemma through_read {A B} (r : option A) (k1 : A -> option (B * S1)) (k2 : A -> option (B * S2)) :
  (forall a, k2 a = through (k1 a)) -> r ≫= k2 = through (r ≫= k1).
Proof. intros Hk. destruct r; [|done]. apply Hk. Qed.

Lemma through_if {B} (b : bool) (t1 e1 : option (B * S1)) t2 e2 : t2 = through t1 -> e2 = through e1 ->
  (if b then t2 else e2) = through (if b then t1 else e1).
Proof. by destruct b. Qed.
End Through.

Create HintDb through.
Ltac through_step :=
  lazymatch goal with
  | |- Some _ = through _ (Some _) => reflexivity
  | |- None = through _ None => reflexivity
  | |- (if ?b then _ else _) = through _ (if ?b then _ else _) => apply through_if
  | |- (match ?x with None => _ | Some _ => _ end) = through _ (match ?x with None => _ | Some _ => _ end) => destruct x
  | |- _ ≫= _ = through _ (_ ≫= _) => (apply through_read; intros) || (apply through_bind; [|intros])
  | _ => solve [eauto with through]
  end.
(** Descends through an encoder's code, one construct per step. *)
Ltac go_through := repeat (cbn beta iota zeta; through_step).

(** ** Types *)

Class DerNatural (T : Type) `{BerType T} :=
  der_natural : forall S1 S2 (C1 : Consumer S1) (C2 : Consumer S2) (f : S1 -> S2), consumer_morphism f -> forall t tag_mode tag key,
    der_encoder S2 C2 t tag_mode tag (f <$> key) = through (fmap f) (der_encoder S1 C1 t tag_mode tag key).

Class XerNatural (T : Type) `{XerType T} :=
  xer_natural : forall S1 S2 (C1 : Consumer S1) (C2 : Consumer S2) (f : S1 -> S2), consumer_morphism f -> forall t ilevel canonical key,
    xer_encoder S2 C2 t ilevel canonical (f key) = through f (xer_encoder S1 C1 t ilevel canonical key).

(** Something for every member of a list. *)
Fixpoint all_members (P : asn_TYPE_member_t -> Type) (ms : list asn_TYPE_member_t) : Type :=
  match ms with
  | [] => unit
  | m :: ms => P m * all_members P ms
  end.
#[local] Abbreviation members_der_natural := (all_members (fun m => @DerNatural (elm_type m) (elm_ber m))).
#[local] Abbreviation members_xer_natural := (all_members (fun m => @XerNatural (elm_type m) (elm_xer m))).

Lemma variant_through {R1 R2} (P : asn_TYPE_member_t -> Type) (Rel : R1 -> R2 -> Prop) {ms} (Ns : all_members P ms) (v : variant ms)
    (k1 : forall m, field m -> R1) (k2 : forall m, field m -> R2) :
  (forall m (N : P m) memb, Rel (k1 m memb) (k2 m memb)) -> Rel (on_variant k1 ms v) (on_variant k2 ms v).
Proof.
  intros Hk. induction ms as [|m ms IH]; [by destruct v|]. destruct Ns as [N Ns], v as [memb|v]; cbn [on_variant]; [by apply Hk|by apply IH].
Qed.

(** ** DER *)

Section Der.
Context {S1 S2 : Type} {C1 : Consumer S1} {C2 : Consumer S2} (f : S1 -> S2) (Hf : consumer_morphism f).
Context (scratch : list Z).

Lemma consume_through d (k : S1) : consume d (f k) = let '(rc, k) := consume d k in (rc, f k).
Proof using Hf. rewrite Hf. by destruct (consume d k). Qed.

Lemma write_TL_through tag len key constructed :
  der_write_TL (S := S2) scratch tag len (f <$> key) constructed = through (fmap f) (der_write_TL scratch tag len key constructed).
Proof using Hf.
  unfold der_write_TL. destruct key as [k|]; cbn [fmap option_fmap option_map].
  - apply through_read. intros [tl buf]. apply through_if; [done|]. apply through_read. intros [ll rest]. apply through_if; [done|].
    apply through_if; [done|]. cbn zeta. apply through_read. intros buf'. rewrite consume_through. by destruct (consume _ k).
  - apply through_read. intros [tl buf]. apply through_if; [done|]. apply through_read. intros [ll rest]. apply through_if; [done|].
    by apply through_if.
Qed.

Lemma measure_through tags : forall n, measure_tags (S := S2) scratch tags n = measure_tags (S := S1) scratch tags n.
Proof using Hf.
  induction tags as [|tag tags IH]; intros n; [done|]. cbn [measure_tags]. rewrite IH.
  destruct (measure_tags (S := S1) scratch tags n) as [[[lens o]|]|]; [|done..]. cbn [mbind option_bind].
  pose proof (write_TL_through tag (s64 o) None false) as H. cbn [fmap option_fmap option_map] in H. rewrite H.
  by destruct (der_write_TL (S := S1) scratch tag (s64 o) None false) as [[m k]|].
Qed.

Lemma emit_tags_through tags : forall lens form key,
  emit_tags (S := S2) scratch tags lens form (f <$> key) = through (fmap f) (emit_tags scratch tags lens form key).
Proof using Hf.
  induction tags as [|tag tags IH]; intros [|len lens] form key; cbn [emit_tags]; try done.
  apply through_bind; [apply write_TL_through|]. intros n k. by apply through_if.
Qed.

Lemma write_tags_through tags n tag_mode form tag key :
  der_write_tags (S := S2) scratch tags n tag_mode form tag (f <$> key) = through (fmap f) (der_write_tags scratch tags n tag_mode form tag key).
Proof using Hf.
  unfold der_write_tags. apply through_if; [done|]. cbn zeta. apply through_if; [done|]. rewrite measure_through. apply through_read.
  intros [[lens o]|]; [|done]. destruct key as [k|]; [|done]. cbn [fmap option_fmap option_map].
  apply through_bind; [exact (emit_tags_through _ lens form (Some k))|]. intros rc k'. done.
Qed.

Lemma encode_contents_through tags contents tag_mode tag key :
  encode_contents (S := S2) scratch tags contents tag_mode tag (f <$> key) = through (fmap f) (encode_contents scratch tags contents tag_mode tag key).
Proof using Hf.
  unfold encode_contents. apply through_bind; [apply write_tags_through|]. intros n [k|]; cbn [fmap option_fmap option_map]; [|by apply through_if].
  apply through_if; [done|]. rewrite consume_through. by destruct (consume contents k).
Qed.

Lemma der_primitive_through tags st tag_mode tag key :
  der_encode_primitive (S := S2) scratch tags st tag_mode tag (f <$> key) = through (fmap f) (der_encode_primitive scratch tags st tag_mode tag key).
Proof using Hf. unfold der_encode_primitive. destruct (i_buf st); [apply encode_contents_through|apply write_tags_through]. Qed.

Lemma string_der_through type_variant tags st tag_mode tag key :
  OCTET_STRING_encode_der (S := S2) type_variant scratch tags st tag_mode tag (f <$> key) =
    through (fmap f) (OCTET_STRING_encode_der type_variant scratch tags st tag_mode tag key).
Proof using Hf.
  assert (Hsend : forall d e k, send (S := S2) d e (f k) = let '(n, k) := send d e k in (n, f k)).
  { intros d e k. unfold send. rewrite consume_through. by destruct (consume d k). }
  unfold OCTET_STRING_encode_der. cbn zeta. apply through_bind.
  - apply through_if; [apply write_tags_through|by apply through_if].
  - intros encoded [k|]; cbn [fmap option_fmap option_map]; [|by apply through_if]. apply through_if; [done|].
    assert (He : emit_string (S := S2) type_variant st encoded (f k) = through f (emit_string type_variant st encoded k)).
    { unfold emit_string. cbn zeta. rewrite Hsend.
      destruct (is_bit type_variant); [destruct (send [_] encoded k) as [e1 k1]|set (e1 := encoded); set (k1 := k)];
        (apply through_if; [done|]); rewrite Hsend; destruct (send (take _ _) e1 k1) as [e2 k2]; (apply through_if; [done|]);
        (apply through_if; [|done]); (apply through_if; [done|]); apply through_read; intros octet; rewrite Hsend; by destruct (send [_] e2 k2). }
    rewrite He. by destruct (emit_string type_variant st encoded k) as [[rc k']|].
Qed.
End Der.

(** *** Constructed types *)

Section DerTypes.
Context {T : Type} `{BT : BerType T} `{HN : !DerNatural T}.
Context {S1 S2 : Type} {C1 : Consumer S1} {C2 : Consumer S2} (f : S1 -> S2) (Hf : consumer_morphism f).
Context (scratch tags : list Z) (elm_tag : Z).

Lemma der_some t tag_mode tag (k : S1) : der_encoder S2 C2 t tag_mode tag (Some (f k)) = through (fmap f) (der_encoder S1 C1 t tag_mode tag (Some k)).
Proof using Hf HN. exact (der_natural S1 S2 C1 C2 f Hf t tag_mode tag (Some k)). Qed.

Lemma der_none t tag_mode tag : der_encoder S2 C2 t tag_mode tag None = through (fmap f) (der_encoder S1 C1 t tag_mode tag None).
Proof using Hf HN. exact (der_natural S1 S2 C1 C2 f Hf t tag_mode tag None). Qed.

Lemma gather_size_through skip (l : asn_anonymous_set_ T) : forall n, gather_size (S := S2) elm_tag skip l n = gather_size (S := S1) elm_tag skip l n.
Proof using Hf HN.
  induction l as [|[t|] l IH]; intros n; cbn [gather_size]; [done| |by rewrite IH].
  rewrite der_none. destruct (der_encoder S1 C1 t 0 elm_tag None) as [[e k]|]; [|done]. cbn. by rewrite IH.
Qed.

Lemma emit_elems_through (l : asn_anonymous_set_ T) : forall n k, emit_elems (S := S2) elm_tag l n (f k) = through f (emit_elems elm_tag l n k).
Proof using Hf HN.
  induction l as [|[t|] l IH]; intros n k; cbn [emit_elems]; [done| |apply IH].
  rewrite der_some. destruct (der_encoder S1 C1 t 0 elm_tag (Some k)) as [[e [k'|]]|]; [|done..]. cbn. by apply through_if.
Qed.

Lemma report_els_through els : forall n k, report_els (S := S2) els n (f k) = let '(r, k) := report_els els n k in (r, f k).
Proof using Hf.
  induction els as [|el els IH]; intros n k; cbn [report_els]; [done|]. rewrite (consume_through f Hf).
  destruct (consume (el_buf el) k) as [rc k']. destruct (rc <? 0); [done|apply IH].
Qed.

Lemma sequence_of_der_through (l : asn_anonymous_set_ T) tag_mode tag key :
  SEQUENCE_OF_encode_der (S := S2) scratch tags elm_tag l tag_mode tag (f <$> key) =
    through (fmap f) (SEQUENCE_OF_encode_der scratch tags elm_tag l tag_mode tag key).
Proof using Hf HN.
  unfold SEQUENCE_OF_encode_der. rewrite gather_size_through. apply through_read. intros [n|]; [|done].
  apply through_bind; [by apply write_tags_through|]. intros e k. apply through_if; [done|]. cbn zeta.
  destruct k as [k|]; [|done]. cbn [fmap option_fmap option_map]. rewrite emit_elems_through. by destruct (emit_elems elm_tag l e k) as [[r k']|].
Qed.

Lemma set_of_der_through `{Q : Qsort} (l : asn_anonymous_set_ T) tag_mode tag key :
  SET_OF_encode_der (S := S2) scratch tags elm_tag l tag_mode tag (f <$> key) =
    through (fmap f) (SET_OF_encode_der scratch tags elm_tag l tag_mode tag key).
Proof using Hf HN.
  unfold SET_OF_encode_der. rewrite gather_size_through. apply through_read. intros [n|]; [|done].
  apply through_bind; [by apply write_tags_through|]. intros e k. apply through_if; [done|]. cbn zeta.
  destruct k as [k|]; [|done]. cbn [fmap option_fmap option_map]. apply through_if; [done|].
  apply through_read. intros els1. apply through_read. intros els2. apply through_read. intros els3. rewrite report_els_through.
  destruct (report_els els3 e k) as [[r|] k']; [by apply through_if|done].
Qed.
End DerTypes.

Section DerMembers.
Context {S1 S2 : Type} {C1 : Consumer S1} {C2 : Consumer S2} (f : S1 -> S2) (Hf : consumer_morphism f).

Lemma choice_der_through specs (Ns : members_der_natural (alternatives specs)) scratch tags st tag_mode tag key :
  CHOICE_encode_der (S := S2) specs scratch tags st tag_mode tag (f <$> key) =
    through (fmap f) (CHOICE_encode_der specs scratch tags st tag_mode tag key).
Proof using Hf.
  destruct st as [v|]; [|reflexivity]. unfold CHOICE_encode_der.
  apply (variant_through _ (fun r1 r2 => r2 = through (fmap f) r1) Ns). intros m N memb.
  destruct (memb_ptr m memb) as [t|]; [|done]. apply through_bind.
  - apply through_if; [|done]. rewrite (der_none (HN := N) f Hf).
    destruct (der_encoder S1 C1 t (elm_tag_mode m) (elm_tag m) None) as [[e k]|]; [|done]. cbn [through mbind option_bind].
    apply through_if; [done|]. apply through_bind; [by apply write_tags_through|]. by intros ret k'.
  - intros [n|] k; [|done]. apply through_bind; [exact (N S1 S2 C1 C2 f Hf t _ _ k)|]. by intros e k'.
Qed.

Lemma gather_members_through ms (Ns : members_der_natural ms) fs : forall n, gather_members (S := S2) ms n fs = gather_members (S := S1) ms n fs.
Proof using Hf.
  induction ms as [|m ms IH]; intros n; [done|]. destruct Ns as [N Ns], fs as [memb fs]. cbn [gather_members].
  destruct (memb_ptr m memb) as [t|]; [|by destruct (negb _); [apply IH|]]. destruct (is_default m t); [by apply IH|].
  rewrite (der_none (HN := N) f Hf). destruct (der_encoder S1 C1 t _ _ None) as [[e k]|]; [|done]. cbn [through mbind option_bind].
  destruct (e =? -1); [done|]. by apply IH.
Qed.

Lemma emit_members_through ms (Ns : members_der_natural ms) fs : forall n k, emit_members (S := S2) ms n (f k) fs = through f (emit_members ms n k fs).
Proof using Hf.
  induction ms as [|m ms IH]; intros n k; [done|]. destruct Ns as [N Ns], fs as [memb fs]. cbn [emit_members].
  destruct (memb_ptr m memb) as [t|]; [|by apply IH]. destruct (is_default m t); [by apply IH|].
  rewrite (der_some (HN := N) f Hf). destruct (der_encoder S1 C1 t _ _ (Some k)) as [[e [k'|]]|]; [|done..]. cbn [through mbind option_bind fmap option_fmap option_map].
  apply through_if; [done|]. by apply IH.
Qed.

Lemma sequence_der_through ms (Ns : members_der_natural ms) scratch tags fs tag_mode tag key :
  SEQUENCE_encode_der (S := S2) ms scratch tags fs tag_mode tag (f <$> key) =
    through (fmap f) (SEQUENCE_encode_der ms scratch tags fs tag_mode tag key).
Proof using Hf.
  unfold SEQUENCE_encode_der. rewrite (gather_members_through ms Ns). apply through_read. intros [n|]; [|done].
  apply through_bind; [by apply write_tags_through|]. intros ret k. apply through_if; [done|]. cbn zeta.
  destruct k as [k|]; [|done]. cbn [fmap option_fmap option_map]. rewrite (emit_members_through ms Ns).
  by destruct (emit_members ms n k fs) as [[r k']|].
Qed.
End DerMembers.

(** *** The types *)

Section DerInstances.
Context (scratch tags : list Z).

#[export] Instance boolean_der_natural : @DerNatural BOOLEAN_t (BOOLEAN_ber scratch tags).
Proof. intros S1 S2 C1 C2 f Hf t tag_mode tag key. by apply encode_contents_through. Qed.

#[export] Instance native_der_natural specs : @DerNatural Z (NativeInteger_ber scratch tags specs).
Proof. intros S1 S2 C1 C2 f Hf t tag_mode tag key. by apply encode_contents_through. Qed.

#[export] Instance string_der_natural type_variant all_tags : @DerNatural BIT_STRING_t (string_ber type_variant scratch tags all_tags).
Proof. intros S1 S2 C1 C2 f Hf t tag_mode tag key. by apply string_der_through. Qed.

#[export] Instance shaped_der_natural {T U} (to : U -> T) (from : T -> U) (H : BerType T) (N : DerNatural T) : @DerNatural U (shaped_ber to from H).
Proof. intros S1 S2 C1 C2 f Hf t tag_mode tag key. exact (N S1 S2 C1 C2 f Hf (to t) tag_mode tag key). Qed.

#[export] Instance sequence_of_der_natural {T} `{BT : BerType T} `{HN : !DerNatural T} tag : @DerNatural (asn_anonymous_set_ T) (SEQUENCE_OF_ber scratch tags tag).
Proof. intros S1 S2 C1 C2 f Hf t tag_mode tag' key. by apply sequence_of_der_through. Qed.

#[export] Instance set_of_der_natural {T} `{BT : BerType T} `{HN : !DerNatural T} `{Q : Qsort} tag : @DerNatural (asn_anonymous_set_ T) (SET_OF_ber scratch tags tag).
Proof. intros S1 S2 C1 C2 f Hf t tag_mode tag' key. by apply set_of_der_through. Qed.

Definition choice_der_natural specs tag2el (Ns : members_der_natural (alternatives specs)) : @DerNatural (choice_t specs) (CHOICE_ber specs tag2el scratch tags).
Proof. intros S1 S2 C1 C2 f Hf t tag_mode tag key. by apply choice_der_through. Qed.

Definition sequence_der_natural ms tag2el first_ext (Ns : members_der_natural ms) : @DerNatural (fields ms) (SEQUENCE_ber ms tag2el first_ext scratch tags).
Proof. intros S1 S2 C1 C2 f Hf t tag_mode tag key. by apply sequence_der_through. Qed.
End DerInstances.

(** ** XER *)

Section Emitters.
Context {S1 S2 : Type} {C1 : Consumer S1} {C2 : Consumer S2} (f : S1 -> S2) (Hf : consumer_morphism f).

Definition alike (e1 : emitter S1) (e2 : emitter S2) : Prop := forall key, e2 (f key) = through f (e1 key).

Lemma callback_alike pieces : alike (callback pieces) (callback pieces).
Proof using Hf.
  intros key. unfold callback. assert (Hc : forall k, call_each (S := S2) pieces (f k) = let '(ok, k) := call_each pieces k in (ok, f k)).
  { induction pieces as [|p pieces IH]; intros k; cbn [call_each]; [done|]. rewrite (consume_through f Hf). destruct (consume p k) as [rc k'].
    destruct (rc <? 0); [done|apply IH]. }
  rewrite Hc. by destruct (call_each pieces key).
Qed.

Lemma then_alike a1 a2 b1 b2 : alike a1 a2 -> alike b1 b2 -> alike (and_then a1 b1) (and_then a2 b2).
Proof.
  intros Ha Hb key. unfold and_then. apply through_bind; [apply Ha|]. intros n k. apply through_if; [done|].
  apply through_bind; [apply Hb|]. done.
Qed.

Lemma nothing_alike : alike emit_nothing emit_nothing.
Proof. done. Qed.

Lemma fail_alike : alike fail_emitter fail_emitter.
Proof. done. Qed.

Lemma if_alike (b : bool) a1 a2 b1 b2 : alike a1 a2 -> alike b1 b2 -> alike (if b then a1 else b1) (if b then a2 else b2).
Proof. by destruct b. Qed.

Lemma indent_alike nl level : alike (TEXT_INDENT nl level) (TEXT_INDENT nl level).
Proof using Hf.
  apply then_alike; [apply if_alike; [apply callback_alike|apply nothing_alike]|].
  induction (Z.to_nat level) as [|n IH]; [apply nothing_alike|]. by apply then_alike; [apply callback_alike|].
Qed.

Lemma new_line_alike canonical level : alike (new_line canonical level) (new_line canonical level).
Proof using Hf. destruct canonical; [apply nothing_alike|apply indent_alike]. Qed.

Lemma member_alike canonical ilevel name a1 a2 : alike a1 a2 -> alike (xer_member canonical ilevel name a1) (xer_member canonical ilevel name a2).
Proof using Hf.
  intros Ha. apply then_alike; [apply new_line_alike|]. apply then_alike; [apply callback_alike|]. by apply then_alike; [|apply callback_alike].
Qed.

Lemma or_else_alike a1 a2 b1 b2 : alike a1 a2 -> alike b1 b2 -> alike (or_else a1 b1) (or_else a2 b2).
Proof. intros Ha Hb key. unfold or_else. apply through_bind; [apply Ha|]. intros n k. apply through_if; [done|]. apply through_if; [apply Hb|done]. Qed.

Lemma xer_encode_alike {T} `{XT : XerType T} `{HN : !XerNatural T} (t : T) canonical : alike (xer_encode t canonical) (xer_encode t canonical).
Proof using Hf.
  apply then_alike; [apply callback_alike|]. apply then_alike; [|apply callback_alike]. intros key. by apply (xer_natural S1 S2 C1 C2 f).
Qed.

(** *** Primitive types and strings *)

Lemma format_alike text key : asn__format_to_callback (K := S2) text (f key) = let '(n, k) := asn__format_to_callback text key in (n, f k).
Proof using Hf. unfold asn__format_to_callback. rewrite (consume_through f Hf). by destruct (consume text key). Qed.

Lemma hex_alike buf : forall scratch wrote key, dump_hex (K := S2) buf scratch wrote (f key) = let '(n, k) := dump_hex buf scratch wrote key in (n, f k).
Proof using Hf.
  induction buf as [|b buf IH]; intros scratch wrote key; cbn [dump_hex].
  - rewrite (consume_through f Hf). by destruct (consume _ key).
  - destruct (28 <=? _); [|apply IH]. rewrite (consume_through f Hf). destruct (consume scratch key) as [rc k]. destruct (rc <? 0); [done|apply IH].
Qed.

Lemma integer_dump_alike specs st plainOrXER : alike (fun key => INTEGER__dump specs st plainOrXER key) (fun key => INTEGER__dump specs st plainOrXER key).
Proof using Hf.
  intros key. unfold INTEGER__dump. apply through_read. intros r. destruct r as [v| |].
  - cbn zeta. apply through_read. intros [el|].
    + destruct plainOrXER; rewrite format_alike; by destruct (asn__format_to_callback _ key).
    + destruct (plainOrXER && _); [done|]. rewrite format_alike. by destruct (asn__format_to_callback _ key).
  - apply through_if; [done|]. rewrite hex_alike. by destruct (dump_hex _ _ _ key).
  - apply through_if; [done|]. rewrite hex_alike. by destruct (dump_hex _ _ _ key).
Qed.

Lemma integer_alike specs st : alike (fun key => INTEGER_encode_xer specs st key) (fun key => INTEGER_encode_xer specs st key).
Proof using Hf.
  intros key. unfold INTEGER_encode_xer. destruct st as [[[l|]]|]; try done. apply through_bind; [apply integer_dump_alike|]. done.
Qed.

Lemma octets_alike st ilevel canonical : alike (OCTET_STRING_encode_xer st ilevel canonical) (OCTET_STRING_encode_xer st ilevel canonical).
Proof using Hf.
  unfold OCTET_STRING_encode_xer. generalize (Z.of_nat (length (os_buf st))) as size. intros size. apply if_alike.
  - generalize (@nil Z) as scratch. induction (os_buf st) as [|b buf IH]; intros scratch; cbn [hex_canonical]; [apply callback_alike|].
    apply if_alike; [apply then_alike; [apply callback_alike|apply IH]|apply IH].
  - generalize (@nil Z) as scratch, 0 as i. induction (os_buf st) as [|b buf IH]; intros scratch i; cbn [hex_basic].
    + apply if_alike; [apply nothing_alike|]. apply then_alike; [apply callback_alike|]. apply if_alike; [apply indent_alike|apply nothing_alike].
    + apply if_alike; [|apply IH]. apply then_alike; [apply callback_alike|]. apply then_alike; [apply indent_alike|apply IH].
Qed.

Lemma characters_alike st : alike (OCTET_STRING_encode_xer_utf8 st) (OCTET_STRING_encode_xer_utf8 st).
Proof using Hf.
  unfold OCTET_STRING_encode_xer_utf8. generalize (@nil Z) as ss. induction (os_buf st) as [|ch buf IH]; intros ss; cbn [escape_loop].
  - apply if_alike; [apply nothing_alike|apply callback_alike].
  - apply if_alike; [apply IH|]. apply then_alike; [apply callback_alike|apply IH].
Qed.

Lemma bits_alike st ilevel canonical : alike (BIT_STRING_encode_xer st ilevel canonical) (BIT_STRING_encode_xer st ilevel canonical).
Proof using Hf.
  unfold BIT_STRING_encode_xer.
  assert (Hloop : forall r1 r2, alike r1 r2 -> forall buf scratch i, alike (binary_loop ilevel canonical r1 buf scratch i) (binary_loop ilevel canonical r2 buf scratch i)).
  { intros r1 r2 Hr. assert (Hl : forall b : bool, alike (if b then TEXT_INDENT true ilevel else emit_nothing) (if b then TEXT_INDENT true ilevel else emit_nothing)).
    { intros b. apply if_alike; [apply indent_alike|apply nothing_alike]. }
    induction buf as [|v buf IH]; intros scratch i; cbn [binary_loop]; cbv zeta.
    - apply then_alike; [apply Hl|]. by apply then_alike; [apply callback_alike|].
    - apply if_alike; [|apply IH]. apply then_alike; [apply callback_alike|]. apply then_alike; [apply Hl|apply IH]. }
  apply Hloop. apply then_alike; [destruct (last (bs_buf st)); [apply callback_alike|apply nothing_alike]|].
  apply if_alike; [apply nothing_alike|apply indent_alike].
Qed.
End Emitters.

Section XerInstances.
Context (tag : list Z).

#[export] Instance boolean_xer_natural : @XerNatural BOOLEAN_t (BOOLEAN_xer tag).
Proof. intros S1 S2 C1 C2 f Hf t ilevel canonical key. by apply (callback_alike f Hf). Qed.

#[export] Instance null_xer_natural : @XerNatural unit (NULL_xer tag).
Proof. by intros S1 S2 C1 C2 f Hf t ilevel canonical key. Qed.

#[export] Instance integer_xer_natural specs : @XerNatural INTEGER_t (INTEGER_xer specs tag).
Proof. intros S1 S2 C1 C2 f Hf t ilevel canonical key. by apply (integer_alike f Hf). Qed.

#[export] Instance native_xer_natural specs : @XerNatural Z (NativeInteger_xer specs tag).
Proof. intros S1 S2 C1 C2 f Hf t ilevel canonical key. by apply (callback_alike f Hf). Qed.

#[export] Instance enumerated_xer_natural specs : @XerNatural Z (NativeEnumerated_xer specs tag).
Proof.
  intros S1 S2 C1 C2 f Hf t ilevel canonical key.
  change (NativeEnumerated_encode_xer specs t (f key) = through f (NativeEnumerated_encode_xer specs t key)). unfold NativeEnumerated_encode_xer.
  apply through_read. intros [el|]; [|done]. rewrite (format_alike f Hf). by destruct (asn__format_to_callback _ key).
Qed.

#[export] Instance octet_string_xer_natural : @XerNatural OCTET_STRING_t (OCTET_STRING_xer tag).
Proof. intros S1 S2 C1 C2 f Hf t ilevel canonical key. by apply (octets_alike f Hf). Qed.

#[export] Instance utf8_string_xer_natural : @XerNatural OCTET_STRING_t (utf8_string_xer tag).
Proof. intros S1 S2 C1 C2 f Hf t ilevel canonical key. by apply (characters_alike f Hf). Qed.

#[export] Instance bit_string_xer_natural : @XerNatural BIT_STRING_t (BIT_STRING_xer tag).
Proof. intros S1 S2 C1 C2 f Hf t ilevel canonical key. by apply (bits_alike f Hf). Qed.
End XerInstances.

(** *** Constructed types *)

Section XerTypes.
Context {T : Type} `{XT : XerType T} `{HN : !XerNatural T} (as_XMLValueList : Z) (element_name tag : list Z).
Context {S1 S2 : Type} {C1 : Consumer S1} {C2 : Consumer S2} (f : S1 -> S2) (Hf : consumer_morphism f).

Lemma own_alike t ilevel canonical : alike f (xer_encoder S1 C1 t ilevel canonical) (xer_encoder S2 C2 t ilevel canonical).
Proof using Hf HN. intros key. by apply (xer_natural S1 S2 C1 C2 f). Qed.

Lemma in_mname_alike canonical ilevel a1 a2 : alike f a1 a2 ->
  alike f (in_mname as_XMLValueList element_name canonical ilevel a1) (in_mname as_XMLValueList element_name canonical ilevel a2).
Proof using Hf. intros Ha. unfold in_mname. destruct (list_mname _ _); [by apply member_alike|done]. Qed.

Lemma or_name_alike a1 a2 b1 b2 : alike f a1 a2 -> alike f b1 b2 ->
  alike f (or_name as_XMLValueList a1 b1) (or_name as_XMLValueList a2 b2).
Proof using Hf.
  intros Ha Hb. apply if_alike; [done|]. apply or_else_alike; [done|]. apply then_alike; [done|]. by apply callback_alike.
Qed.

Lemma sequence_of_element_alike canonical ilevel t :
  alike f (sequence_of_element as_XMLValueList element_name canonical ilevel t) (sequence_of_element as_XMLValueList element_name canonical ilevel t).
Proof using Hf HN. apply in_mname_alike, or_name_alike; [by apply own_alike|by apply new_line_alike]. Qed.

Lemma set_of_element_alike canonical ilevel t :
  alike f (set_of_element as_XMLValueList element_name canonical ilevel t) (set_of_element as_XMLValueList element_name canonical ilevel t).
Proof using Hf HN.
  apply in_mname_alike, then_alike; [apply if_alike; [by apply new_line_alike|apply nothing_alike]|].
  apply or_name_alike; [by apply own_alike|apply nothing_alike].
Qed.

Lemma each_element_alike e1 e2 r1 r2 (l : asn_anonymous_set_ T) : (forall t, alike f (e1 t) (e2 t)) -> alike f r1 r2 ->
  alike f (each_element e1 l r1) (each_element e2 l r2).
Proof. intros He Hr. induction l as [|[t|] l IH]; cbn [each_element]; [done|by apply then_alike|done]. Qed.

Lemma sequence_of_alike (l : asn_anonymous_set_ T) ilevel canonical :
  alike f (SEQUENCE_OF_encode_xer as_XMLValueList element_name l ilevel canonical) (SEQUENCE_OF_encode_xer as_XMLValueList element_name l ilevel canonical).
Proof using Hf HN. apply each_element_alike; [intros t; by apply sequence_of_element_alike|by apply new_line_alike]. Qed.

Lemma report_encs_alike encs : alike f (report_encs encs) (report_encs encs).
Proof using Hf. induction encs as [|enc encs IH]; [apply nothing_alike|]. by apply then_alike; [apply callback_alike|]. Qed.

Lemma set_of_alike `{Q : Qsort} (l : asn_anonymous_set_ T) ilevel canonical :
  alike f (SET_OF_encode_xer as_XMLValueList element_name l ilevel canonical) (SET_OF_encode_xer as_XMLValueList element_name l ilevel canonical).
Proof using Hf HN.
  unfold SET_OF_encode_xer. apply if_alike; [|apply each_element_alike; [intros t; by apply set_of_element_alike|by apply new_line_alike]].
  intros key. apply through_read. intros [encs|]; [|done]. apply through_read. intros encs'. apply report_encs_alike.
Qed.
End XerTypes.

Section XerMembers.
Context {S1 S2 : Type} {C1 : Consumer S1} {C2 : Consumer S2} (f : S1 -> S2) (Hf : consumer_morphism f).

Lemma choice_xer_alike specs (Ns : members_xer_natural (alternatives specs)) st ilevel canonical :
  alike f (CHOICE_encode_xer specs st ilevel canonical) (CHOICE_encode_xer specs st ilevel canonical).
Proof using Hf.
  destruct st as [v|]; [|apply fail_alike]. unfold CHOICE_encode_xer. apply (variant_through _ (fun r1 r2 => alike f r1 r2) Ns). intros m N memb.
  destruct (memb_ptr m memb) as [t|]; [|apply fail_alike]. apply then_alike; [|by apply new_line_alike]. apply member_alike; [done|].
  exact (N S1 S2 C1 C2 f Hf t _ _).
Qed.

Lemma sequence_xer_alike ms (Ns : members_xer_natural ms) ilevel canonical fs :
  alike f (SEQUENCE_encode_xer ilevel canonical ms fs) (SEQUENCE_encode_xer ilevel canonical ms fs).
Proof using Hf.
  induction ms as [|m ms IH]; [by apply new_line_alike|]. destruct Ns as [N Ns], fs as [memb fs]. cbn [SEQUENCE_encode_xer].
  destruct (shown m memb) as [t|]; [|destruct (negb _); [by apply IH|apply fail_alike]]. apply then_alike; [|by apply IH].
  apply member_alike; [done|]. exact (N S1 S2 C1 C2 f Hf t _ _).
Qed.
End XerMembers.

Section XerConstructed.
Context (tag : list Z).

#[export] Instance sequence_of_xer_natural {T} `{XT : XerType T} `{HN : !XerNatural T} as_XMLValueList element_name :
  @XerNatural (asn_anonymous_set_ T) (SEQUENCE_OF_xer as_XMLValueList element_name tag).
Proof. intros S1 S2 C1 C2 f Hf t ilevel canonical key. by apply (sequence_of_alike as_XMLValueList element_name f Hf). Qed.

#[export] Instance set_of_xer_natural {T} `{XT : XerType T} `{HN : !XerNatural T} `{Q : Qsort} as_XMLValueList element_name :
  @XerNatural (asn_anonymous_set_ T) (SET_OF_xer as_XMLValueList element_name tag).
Proof. intros S1 S2 C1 C2 f Hf t ilevel canonical key. by apply (set_of_alike as_XMLValueList element_name f Hf). Qed.

Definition choice_xer_natural specs (Ns : members_xer_natural (alternatives specs)) : @XerNatural (choice_t specs) (CHOICE_xer specs tag).
Proof. intros S1 S2 C1 C2 f Hf t ilevel canonical key. by apply (choice_xer_alike f Hf specs Ns). Qed.

Definition sequence_xer_natural ms t2e (Ns : members_xer_natural ms) : @XerNatural (fields ms) (SEQUENCE_xer ms t2e tag).
Proof. intros S1 S2 C1 C2 f Hf t ilevel canonical key. by apply (sequence_xer_alike f Hf ms Ns). Qed.
End XerConstructed.
