(* ===== verification/Application.v ===== *)
(** * The application interface: any syntax of any type
    (support/asn_application.c, asn_random_fill.c)

    [asn_encode], [asn_encode_to_buffer] and [asn_encode_to_new_buffer] write a
    value in the transfer syntax the caller names, to the caller's callback,
    to a buffer of a given size or to one that grows; [asn_decode] reads it.
    The type is a table of operations, each of which may be missing. *)
From S2P Require Import Prelude Consumer BitData PerSupport PerNatural PerCodec Oer BerTlv BerPrim BerType IntegerXer Xer XerPrim Natural.
#[local] Open Scope Z_scope.

(** ** The types *)

Inductive asn_transfer_syntax :=
| ATS_INVALID | ATS_NONSTANDARD_PLAINTEXT | ATS_RANDOM | ATS_BER | ATS_DER | ATS_CER | ATS_BASIC_OER | ATS_CANONICAL_OER
| ATS_UNALIGNED_BASIC_PER | ATS_UNALIGNED_CANONICAL_PER | ATS_BASIC_XER | ATS_CANONICAL_XER.

Inductive asn_random_fill_result_code := ARFILL_FAILED | ARFILL_OK | ARFILL_SKIPPED.

(** asn_TYPE_operation_t as far as it is used here; [None] is a null pointer. *)
Record asn_TYPE_operation (T : Type) := {
  print_struct : option (forall S, Consumer S -> T -> Z -> S -> option (Z * S));
  op_ber : option (BerType T);
  op_oer : option (OerType T);
  op_per : PerType T;
  op_xer : option (XerType T);
  random_fill : option (Z -> asn_random_fill_result_code * option T)
}.
Arguments print_struct {T}. Arguments op_ber {T}. Arguments op_oer {T}. Arguments op_per {T}. Arguments op_xer {T}. Arguments random_fill {T}.

(** ** Callbacks *)

Record callback_count_bytes_key (S : Type) := { cc_callback_key : S; cc_computed_size : Z }.
Arguments cc_callback_key {S}. Arguments cc_computed_size {S}.

Definition callback_count_bytes_cb {S} `{Consumer S} (data : list Z) (key : callback_count_bytes_key S) : Z * callback_count_bytes_key S :=
  let '(ret, k) := consume data (cc_callback_key key) in
  (ret, {| cc_callback_key := k;
           cc_computed_size := if 0 <=? ret then cc_computed_size key + Z.of_nat (length data) else cc_computed_size key |}).
#[export] Instance count_bytes_cb_consumer {S} `{Consumer S} : Consumer (callback_count_bytes_key S) := callback_count_bytes_cb.

(** [oe_memory] is the memory from [buffer] on, also what lies behind the
    [buffer_size] octets. *)
Record overrun_encoder_key := { oe_memory : list Z; oe_buffer_size : Z; oe_computed_size : Z }.

Definition memcpy (memory : list Z) (offset : Z) (data : list Z) : list Z :=
  take (Z.to_nat offset) memory ++ data ++ drop (Z.to_nat offset + length data) memory.

Definition overrun_encoder_cb (data : list Z) (key : overrun_encoder_key) : Z * overrun_encoder_key :=
  let computed_size := oe_computed_size key + Z.of_nat (length data) in
  (0, if oe_buffer_size key <? computed_size
      then {| oe_memory := oe_memory key; oe_buffer_size := 0; oe_computed_size := computed_size |}
      else {| oe_memory := memcpy (oe_memory key) (oe_computed_size key) data; oe_buffer_size := oe_buffer_size key;
              oe_computed_size := computed_size |}).
#[export] Instance overrun_consumer : Consumer overrun_encoder_key := overrun_encoder_cb.

(** The octets that were copied to the buffer, [None] when there is no buffer;
    [de_reallocs] tells which of the reallocations to come succeed, all of
    them once it is empty. *)
Record dynamic_encoder_key := {
  de_buffer : option (list Z); de_buffer_size : Z; de_computed_size : Z; de_reallocs : list bool
}.

(** do new_size *= 2 while(new_size <= needed) *)
Fixpoint double (fuel : nat) (new_size needed : Z) : Z :=
  match fuel with
  | O => new_size
  | S fuel => let new_size := new_size * 2 in if new_size <=? needed then double fuel new_size needed else new_size
  end.

Definition dynamic_encoder_cb (data : list Z) (key : dynamic_encoder_key) : Z * dynamic_encoder_key :=
  let computed_size := de_computed_size key + Z.of_nat (length data) in
  let copied octets buffer_size reallocs :=
    {| de_buffer := Some (octets ++ data); de_buffer_size := buffer_size; de_computed_size := computed_size; de_reallocs := reallocs |} in
  (0, match de_buffer key with
      | None => {| de_buffer := None; de_buffer_size := de_buffer_size key; de_computed_size := computed_size; de_reallocs := de_reallocs key |}
      | Some octets =>
        if de_buffer_size key <=? computed_size then
          let new_size := double 64 (de_buffer_size key) computed_size in
          if default true (head (de_reallocs key)) then copied octets new_size (tail (de_reallocs key))
          else {| de_buffer := None; de_buffer_size := 0; de_computed_size := computed_size; de_reallocs := tail (de_reallocs key) |}
        else copied octets (de_buffer_size key) (de_reallocs key)
      end).
#[export] Instance dynamic_consumer : Consumer dynamic_encoder_key := dynamic_encoder_cb.

Record callback_failure_catch_key (S : Type) := { cf_callback_key : S; callback_failed : bool }.
Arguments cf_callback_key {S}. Arguments callback_failed {S}.

Definition callback_failure_catch_cb {S} `{Consumer S} (data : list Z) (key : callback_failure_catch_key S) : Z * callback_failure_catch_key S :=
  let '(ret, k) := consume data (cf_callback_key key) in
  (ret, {| cf_callback_key := k; callback_failed := callback_failed key || (ret <? 0) |}).
#[export] Instance failure_catch_consumer {S} `{Consumer S} : Consumer (callback_failure_catch_key S) := callback_failure_catch_cb.

(** ** Encoding *)

Section Encode.
Context {T : Type} (op : asn_TYPE_operation T).

(** er.encoded and the state behind the callback; a null structure is [None]. *)
Definition asn_encode_internal {S} `{C : Consumer S} (syntax : asn_transfer_syntax) (sptr : option T) (key : S) : option (Z * S) :=
  match sptr with
  | None => Some (-1, key)
  | Some t =>
    match syntax with
    | ATS_NONSTANDARD_PLAINTEXT =>
      match print_struct op with
      | None => Some (-1, key)
      | Some print =>
        '(ret, cb_key) ← print _ _ t 1 {| cc_callback_key := key; cc_computed_size := 0 |};
        if ret <? 0 then Some (-1, cc_callback_key cb_key) else
        let '(ret, cb_key) := callback_count_bytes_cb [10] cb_key in
        Some (if ret <? 0 then -1 else cc_computed_size cb_key, cc_callback_key cb_key)
      end
    | ATS_BER | ATS_DER =>
      match op_ber op with
      | None => Some (-1, key)
      | Some B => '(encoded, key) ← der_encode t (Some key); key ← key; Some (encoded, key)
      end
    | ATS_BASIC_OER | ATS_CANONICAL_OER =>
      match op_oer op with None => Some (-1, key) | Some codec => oer_encode t key end
    | ATS_UNALIGNED_BASIC_PER | ATS_UNALIGNED_CANONICAL_PER =>
      '(encoded, key) ← uper_encode (H := op_per op) t key;
      if encoded =? -1 then Some (-1, key) else
      if encoded =? 0 then
        let '(ret, key) := consume [0] key in
        Some (if ret <? 0 then -1 else (8 + 7) ≫ 3, key)
      else Some ((encoded + 7) ≫ 3, key)
    | ATS_BASIC_XER | ATS_CANONICAL_XER =>
      match op_xer op with
      | None => Some (-1, key)
      | Some X => xer_encode t (match syntax with ATS_BASIC_XER => false | _ => true end) key
      end
    | ATS_RANDOM | ATS_CER | ATS_INVALID => Some (-1, key)
    end
  end.

(** A null callback is [None]; [None] is a failed assertion. *)
Definition asn_encode {S} (syntax : asn_transfer_syntax) (sptr : option T) (callback : option (Consumer S)) (callback_key : S) : option (Z * S) :=
  match callback with
  | None => Some (-1, callback_key)
  | Some C =>
    '(encoded, cb_key) ← asn_encode_internal syntax sptr {| cf_callback_key := callback_key; callback_failed := false |};
    if callback_failed cb_key && negb (encoded =? -1) then None else Some (encoded, cf_callback_key cb_key)
  end.

(** The memory from [buffer] on, [None] for a null pointer. *)
Definition asn_encode_to_buffer (syntax : asn_transfer_syntax) (sptr : option T) (buffer : option (list Z)) (buffer_size : Z) :
    option (Z * list Z) :=
  if (0 <? buffer_size) && bool_decide (buffer = None) then Some (-1, []) else
  '(encoded, buf_key) ← asn_encode_internal syntax sptr
     {| oe_memory := default [] buffer; oe_buffer_size := buffer_size; oe_computed_size := 0 |};
  if (0 <=? encoded) && negb (encoded =? oe_computed_size buf_key) then None else Some (encoded, oe_memory buf_key).

(** res.result.encoded and res.buffer; [malloc] and [reallocs] tell which
    allocations succeed. *)
Definition asn_encode_to_new_buffer (malloc : bool) (reallocs : list bool) (syntax : asn_transfer_syntax) (sptr : option T) :
    option (Z * option (list Z)) :=
  '(encoded, buf_key) ← asn_encode_internal syntax sptr
     {| de_buffer := if malloc then Some [] else None; de_buffer_size := 16; de_computed_size := 0; de_reallocs := reallocs |};
  if (0 <=? encoded) && negb (encoded =? de_computed_size buf_key) then None else
  match de_buffer buf_key with
  | None => Some (encoded, None)
  | Some octets =>
    if de_computed_size buf_key <? de_buffer_size buf_key
    then Some (encoded, Some (take (Z.to_nat (de_computed_size buf_key)) octets ++ [0])) else None
  end.

(** ** Decoding *)

(** asn_random_fill: the code and the structure. *)
Definition asn_random_fill (length : Z) : Z * option T :=
  match random_fill op with
  | None => (-1, None)
  | Some fill =>
    let '(code, st) := fill length in
    (match code with ARFILL_OK => 0 | _ => -1 end, st)
  end.

Definition with_value {A} (value : A -> T) (r : option (asn_dec_rval_code * Z * option A)) : option (asn_dec_rval_code * Z * option T) :=
  '(code, consumed, st) ← r; Some (code, consumed, option_map value st).

(** Code, consumed and the value of the structure, [*sptr] being null.  A type
    without the decoder is called all the same: [None]. *)
Definition asn_decode (syntax : asn_transfer_syntax) (buffer : list Z) : option (asn_dec_rval_code * Z * option T) :=
  match syntax with
  | ATS_CER | ATS_NONSTANDARD_PLAINTEXT | ATS_INVALID => Some (RC_FAIL, 0, None)
  | ATS_RANDOM =>
    match random_fill op with
    | None => Some (RC_FAIL, 0, None)
    | Some _ => let '(ret, st) := asn_random_fill 16000 in Some (if ret =? 0 then RC_OK else RC_FAIL, 0, st)
    end
  | ATS_BER | ATS_DER =>
    match op_ber op with
    | None => None
    | Some B => with_value (@ber_value T B) (ber_decode None buffer)
    end
  | ATS_BASIC_OER | ATS_CANONICAL_OER => match op_oer op with None => None | Some codec => oer_decode (T := T) buffer end
  | ATS_UNALIGNED_BASIC_PER | ATS_UNALIGNED_CANONICAL_PER => uper_decode_complete (H := op_per op) buffer
  | ATS_BASIC_XER | ATS_CANONICAL_XER =>
    match op_xer op with
    | None => None
    | Some X => with_value (@xer_value T X) (xer_decode None buffer)
    end
  end.
End Encode.

(** ** Random numbers *)

Definition INTMAX_MAX : Z := 2 ^ 63 - 1.

Definition asn__intmax_range (lb ub : Z) : option Z :=
  if negb (lb <=? ub) then None else
  if Bool.eqb (ub <? 0) (lb <? 0) then Some (u64 (ub - lb))
  else if lb <? 0 then Some (u64 (1 + u64 (u64 ub + u64 (- (lb + 1))))) else None.

(** [rand] gives the successive results of rand(). *)
Fixpoint gather_entropy (fuel : nat) (rand : nat -> Z) (range got_entropy value : Z) : option Z :=
  match fuel with
  | O => None
  | S fuel =>
    if got_entropy <? range
    then gather_entropy fuel (fun i => rand (S i)) range (Z.lor (u64 (got_entropy ≪ 24)) 16777215)
           (Z.lor (u64 (value ≪ 24)) (rand O mod 16777215))
    else Some value
  end.

Definition asn_random_between (rand : nat -> Z) (lb rb : Z) : option Z :=
  if lb =? rb then Some lb else
  range ← asn__intmax_range lb rb;
  if negb (range <? INTMAX_MAX) then None else
  value ← gather_entropy 4 rand range 0 0;
  Some (s64 (lb + value mod u64 (range + 1))).

(** ** Lemmas: what is handed over *)

(** Whoever takes every chunk gets the same ones, which make up the octets. *)
Definition delivers (encode : forall S, Consumer S -> S -> option (Z * S)) (octets : list Z) : Prop :=
  exists cs, concat cs = octets /\ forall S (C : Consumer S) (key : S), patient S -> encode S C key = Some (Z.of_nat (length octets), hand_over cs key).

Definition natural_encoder (encode : forall S, Consumer S -> S -> option (Z * S)) : Prop :=
  forall S1 S2 (C1 : Consumer S1) (C2 : Consumer S2) (f : S1 -> S2), consumer_morphism f -> forall key, encode S2 C2 (f key) = through f (encode S1 C1 key).

Lemma natural_delivers encode octets log : natural_encoder encode ->
  encode chunk_log _ {| chunks := [] |} = Some (Z.of_nat (length octets), log) -> written log = octets -> delivers encode octets.
Proof.
  intros Hn He Hw. exists (chunks log). split; [exact Hw|]. intros S C key Hp.
  etransitivity; [exact (Hn _ _ _ _ _ (replay_morphism key Hp) {| chunks := [] |})|]. by rewrite He.
Qed.

(** *** The callbacks *)

Lemma catch_patient {S} `{Consumer S} : patient S -> patient (callback_failure_catch_key S).
Proof.
  intros Hp d k. change (consume d k) with (callback_failure_catch_cb d k). unfold callback_failure_catch_cb.
  specialize (Hp d (cf_callback_key k)). by destruct (consume d (cf_callback_key k)).
Qed.

Lemma hand_over_catch {S} `{Consumer S} cs (key : S) : patient S ->
  hand_over cs {| cf_callback_key := key; callback_failed := false |} = {| cf_callback_key := hand_over cs key; callback_failed := false |}.
Proof.
  intros Hp. revert key. induction cs as [|d cs IH]; intros key; [done|]. rewrite !hand_over_cons, <- IH. f_equal.
  change (consume d {| cf_callback_key := key; callback_failed := false |}) with (callback_failure_catch_cb d {| cf_callback_key := key; callback_failed := false |}).
  unfold callback_failure_catch_cb. cbn [cf_callback_key callback_failed].
  specialize (Hp d key). destruct (consume d key) as [ret k]. cbn in Hp. by subst ret.
Qed.

(** What was stored of a message in a buffer of [size] octets. *)
Definition stored_in (memory : list Z) (size : Z) (octets memory' : list Z) : Prop :=
  exists stored, stored `prefix_of` octets /\ Z.of_nat (length stored) <= size /\
    (Z.of_nat (length octets) <= size -> stored = octets) /\ memory' = stored ++ drop (length stored) memory.

Definition overrun_at (memory : list Z) (size : Z) (octets : list Z) (key : overrun_encoder_key) : Prop :=
  oe_computed_size key = Z.of_nat (length octets) /\
  if decide (Z.of_nat (length octets) <= size)
  then oe_buffer_size key = size /\ oe_memory key = octets ++ drop (length octets) memory
  else oe_buffer_size key = 0 /\ stored_in memory size octets (oe_memory key).

Lemma memcpy_behind octets memory data : (length octets + length data <= length memory)%nat ->
  memcpy (octets ++ drop (length octets) memory) (Z.of_nat (length octets)) data = (octets ++ data) ++ drop (length (octets ++ data)) memory.
Proof.
  intros Hl. unfold memcpy. rewrite Nat2Z.id, take_app_length. rewrite drop_app_ge by lia.
  rewrite drop_drop, length_app, <- app_assoc. do 2 f_equal. f_equal. lia.
Qed.

Lemma overrun_step memory size octets key data : 0 <= size <= Z.of_nat (length memory) -> overrun_at memory size octets key ->
  overrun_at memory size (octets ++ data) (overrun_encoder_cb data key).2.
Proof.
  intros Hs [Hc Hk]. unfold overrun_at, overrun_encoder_cb. rewrite Hc, length_app.
  destruct (decide (Z.of_nat (length octets) <= size)) as [Hfit|Hover].
  - destruct Hk as [-> Hm]. rewrite Hm. zcase; cbn [snd oe_computed_size oe_buffer_size oe_memory]; (split; [lia|]).
    + rewrite decide_False by lia. split; [done|]. exists octets. split; [by apply prefix_app_r|]. split; [done|].
      split; [|done]. rewrite length_app. lia.
    + rewrite decide_True by lia. split; [done|]. rewrite memcpy_behind by lia. by rewrite <- length_app.
  - destruct Hk as [-> Hm]. rewrite decide_False by lia. rewrite (proj2 (Z.ltb_lt _ _)) by lia. cbn. split; [lia|]. split; [done|].
    destruct Hm as (stored & Hpre & Hl & _ & ->). exists stored. split; [by apply prefix_app_r|]. split; [done|]. split; [|done].
    rewrite length_app. lia.
Qed.

Lemma hand_over_overrun memory size cs : 0 <= size <= Z.of_nat (length memory) ->
  forall octets key, overrun_at memory size octets key -> overrun_at memory size (octets ++ concat cs) (hand_over cs key).
Proof.
  intros Hs. induction cs as [|d cs IH]; intros octets key Hk; [by rewrite app_nil_r|].
  cbn [concat]. rewrite app_assoc. apply (IH (octets ++ d)). by apply overrun_step.
Qed.

Lemma double_enough needed : 0 <= needed -> forall fuel size, 1 <= size -> needed < size * 2 ^ Z.of_nat fuel -> size <= needed \/ fuel <> O ->
  needed < double fuel size needed <= Z.max (2 * needed) (2 * size).
Proof.
  intros Hn. induction fuel as [|fuel IH]; intros size Hs Hp Hf.
  - change (2 ^ Z.of_nat 0) with 1 in Hp. lia.
  - cbn [double]. rewrite Nat2Z.inj_succ, Z.pow_succ_r in Hp by lia. cbv zeta. destruct (Z.leb_spec (size * 2) needed); [|lia].
    destruct fuel as [|fuel]; [change (2 ^ Z.of_nat 0) with 1 in Hp; lia|].
    specialize (IH (size * 2) ltac:(lia) ltac:(lia) ltac:(by right)). lia.
Qed.

Definition dynamic_at (octets : list Z) (key : dynamic_encoder_key) : Prop :=
  de_computed_size key = Z.of_nat (length octets) /\
  from_option (fun stored => stored = octets /\ 16 <= de_buffer_size key /\ Z.of_nat (length octets) < de_buffer_size key) True (de_buffer key).

Lemma dynamic_step octets key data : Z.of_nat (length (octets ++ data)) < 2 ^ 62 -> dynamic_at octets key ->
  let key' := (dynamic_encoder_cb data key).2 in
  dynamic_at (octets ++ data) key' /\ (de_buffer key = None -> de_buffer key' = None) /\
  (is_Some (de_buffer key) -> Forall (eq true) (de_reallocs key) -> is_Some (de_buffer key') /\ Forall (eq true) (de_reallocs key')).
Proof.
  intros Hlen [Hc Hk]. unfold dynamic_encoder_cb, dynamic_at. cbn zeta. rewrite Hc, length_app. rewrite length_app in Hlen. change (2 ^ 62) with 4611686018427387904 in Hlen.
  destruct (de_buffer key) as [stored|]; cbn [from_option] in Hk.
  2: { cbn. split; [split; [lia|done]|]. split; [done|]. by intros [? ?]. }
  destruct Hk as (-> & H16 & Hroom). zcase.
  - pose proof (double_enough (Z.of_nat (length octets) + Z.of_nat (length data)) ltac:(lia) 64 (de_buffer_size key) ltac:(lia)) as Hd.
    change (2 ^ Z.of_nat 64) with 18446744073709551616 in Hd. specialize (Hd ltac:(lia) ltac:(by right)).
    revert Hd. generalize (double 64 (de_buffer_size key) (Z.of_nat (length octets) + Z.of_nat (length data))) as new_size. intros new_size Hd.
    destruct (de_reallocs key) as [|[] rs]; cbn; (split; [split; [lia|]|split; [done|]]); try done.
    + rewrite ?length_app. split_and!; [done|lia|lia].
    + rewrite ?length_app. split_and!; [done|lia|lia].
    + intros _ [_ Hrs]%Forall_cons. done.
    + intros _ [? _]%Forall_cons. done.
  - cbn. split; [split; [lia|]|split; [done|by intros]]. split_and!; [done|lia|lia].
Qed.

Lemma hand_over_dynamic cs : forall octets key, Z.of_nat (length (octets ++ concat cs)) < 2 ^ 62 -> dynamic_at octets key ->
  let key' := hand_over cs key in
  dynamic_at (octets ++ concat cs) key' /\ (de_buffer key = None -> de_buffer key' = None) /\
  (is_Some (de_buffer key) -> Forall (eq true) (de_reallocs key) -> is_Some (de_buffer key')).
Proof.
  induction cs as [|d cs IH]; intros octets key Hlen Hk; [by rewrite app_nil_r|]. cbn [concat] in *. rewrite app_assoc in *.
  destruct (dynamic_step octets key d) as (Hk' & Hnone & Hsome); [rewrite length_app in Hlen; lia|done|].
  destruct (IH _ _ Hlen Hk') as (Hk'' & Hnone' & Hsome'). cbn zeta. split; [exact Hk''|]. split.
  - intros H. by apply Hnone', Hnone.
  - intros H1 H2. destruct (Hsome H1 H2). by apply Hsome'.
Qed.

(** *** The syntaxes *)

Lemma encode_per_natural {T} `{HT : PerTypeLaws T} (t : T) : natural_encoder (fun S C key => uper_encode t key).
Proof.
  intros S1 S2 C1 C2 f Hf key. unfold uper_encode. destruct per_enc_law as (enc & -> & _ & Hn).
  change (po_of_key (f key)) with (po_map f (po_of_key key)). rewrite (Hn _ _ _ _ f Hf). unfold res_map.
  destruct (enc S1 C1 t (po_of_key key)) as [[e po]|]; [|done]. cbn [mbind option_bind]. apply through_if; [done|].
  rewrite po_map_buffer. apply through_read. intros b. cbv zeta. apply through_bind; [|by intros rc k].
  unfold uper_encode_flush_outp. rewrite po_map_buffer. apply through_read. intros b'. rewrite po_map_nboff, po_map_tmpspace.
  apply through_if; [done|]. cbv zeta. apply through_read. intros [tmp buf]. change (po_key (po_map f po)) with (f (po_key po)).
  rewrite (consume_through f Hf). by destruct (consume _ (po_key po)).
Qed.

Lemma der_encode_natural {T} `{HN : DerNatural T} (t : T) :
  natural_encoder (fun S C key => '(encoded, key) ← der_encode t (Some key); key ← key; Some (encoded, key)).
Proof.
  intros S1 S2 C1 C2 f Hf key. unfold der_encode. rewrite (der_some f Hf). destruct (der_encoder S1 C1 t 0 0 (Some key)) as [[n [k|]]|]; done.
Qed.

Section Lawful.
Context {T : Type} `{BT : BerType T} `{BL : !BerTypeLaws T} `{BN : !DerNatural T} `{OT : OerType T} `{OL : !OerTypeLaws T}.
Context `{PT : PerType T} `{PL : !PerTypeLaws T} `{XT : XerType T} `{XL : !XerTypeLaws T} `{XN : !XerNatural T}.
Context (print : option (forall S, Consumer S -> T -> Z -> S -> option (Z * S))) (fill : option (Z -> asn_random_fill_result_code * option T)).

(** A type all of whose codecs keep their contracts. *)
Definition lawful_ops : asn_TYPE_operation T :=
  {| print_struct := print; op_ber := Some BT; op_oer := Some OT; op_per := PT; op_xer := Some XT; random_fill := fill |}.

Definition app_dom (syntax : asn_transfer_syntax) (t : T) : Prop :=
  match syntax with
  | ATS_BER | ATS_DER => der_dom t /\ der_mode 0 /\ Z.of_nat (length (der_of 0 0 t)) <= RSSIZE_MAX
  | ATS_BASIC_OER | ATS_CANONICAL_OER => oer_dom t
  | ATS_UNALIGNED_BASIC_PER | ATS_UNALIGNED_CANONICAL_PER => per_dom t
  | ATS_BASIC_XER | ATS_CANONICAL_XER => xer_dom t /\ name_ok xml_tag /\ xer_name xml_tag
  | _ => False
  end.

(** The encoding and how much of it a decoder takes. *)
Definition app_octets (syntax : asn_transfer_syntax) (t : T) (octets : list Z) (consumed : Z) : Prop :=
  match syntax with
  | ATS_BER | ATS_DER => octets = der_of 0 0 t /\ consumed = Z.of_nat (length octets)
  | ATS_BASIC_OER | ATS_CANONICAL_OER => octets = oer_octets t /\ consumed = Z.of_nat (length octets)
  | ATS_UNALIGNED_BASIC_PER | ATS_UNALIGNED_CANONICAL_PER =>
    bytes_ok octets /\ consumed = Z.of_nat (length octets) /\
    bytes_bits octets = if bool_decide (per_bits t = []) then bytes_bits [0] else pad8 (per_bits t)
  | ATS_BASIC_XER => octets = element xml_tag (xer_text t 1 false) ++ [10] /\ consumed = Z.of_nat (length octets) - 1
  | ATS_CANONICAL_XER => octets = element xml_tag (xer_text t 1 true) /\ consumed = Z.of_nat (length octets)
  | _ => False
  end.

Definition app_norm (syntax : asn_transfer_syntax) (t : T) : T :=
  match syntax with
  | ATS_BER | ATS_DER => der_norm t
  | ATS_BASIC_XER => xer_norm false t
  | ATS_CANONICAL_XER => xer_norm true t
  | _ => t
  end.

(** The same octets whoever takes them, and the decoder's answer to them. *)
Definition app_codec (syntax : asn_transfer_syntax) (t : T) (octets : list Z) (consumed : Z) : Prop :=
  delivers (fun S C key => asn_encode_internal lawful_ops syntax (Some t) key) octets /\
  asn_decode lawful_ops syntax octets = Some (RC_OK, consumed, Some (app_norm syntax t)).

Lemma ber_delivers t : app_dom ATS_DER t ->
  delivers (fun S C key => '(encoded, key) ← der_encode t (Some key); key ← key; Some (encoded, key)) (der_of 0 0 t) /\
  with_value (@ber_value T BT) (ber_decode None (der_of 0 0 t)) = Some (RC_OK, Z.of_nat (length (der_of 0 0 t)), Some (der_norm t)).
Proof using BL BN.
  intros (Hd & Hm & Hl). split.
  - destruct (der_enc_law chunk_log _ _ t 0 0 Hd Hm ltac:(by left) Hl) as [_ He]. destruct (He {| chunks := [] |}) as (log & Hr & Hw).
    eapply natural_delivers; [apply der_encode_natural| |exact Hw]. unfold der_encode. by rewrite Hr.
  - destruct (ber_dec_law t 0 0 [] Hd Hm ltac:(by left) Hl) as (st & Hr & Hv). rewrite app_nil_r in Hr.
    unfold ber_decode. rewrite Hr. cbn. by rewrite Hv.
Qed.

Lemma oer_delivers t : oer_dom t -> delivers (fun S C key => oer_encode t key) (oer_octets t) /\
  oer_decode (T := T) (oer_octets t) = Some (RC_OK, Z.of_nat (length (oer_octets t)), Some t).
Proof using OL.
  intros Hd. split.
  - destruct (oer_enc_law chunk_log _ _ t {| chunks := [] |} Hd) as (log & Hr & Hw).
    eapply natural_delivers; [|exact Hr|exact Hw]. intros S1 S2 C1 C2 f Hf key. by apply oer_enc_nat.
  - pose proof (oer_dec_law t [] Hd) as H. by rewrite app_nil_r in H.
Qed.

(** A complete encoding is one octet at least. *)
Definition complete_per {S} `{Consumer S} (t : T) (key : S) : option (Z * S) :=
  '(encoded, key) ← uper_encode t key;
  if encoded =? -1 then Some (-1, key) else
  if encoded =? 0 then let '(ret, key) := consume [0] key in Some (if ret <? 0 then -1 else (8 + 7) ≫ 3, key)
  else Some ((encoded + 7) ≫ 3, key).

Lemma complete_natural t : natural_encoder (fun S C key => complete_per t key).
Proof using PL.
  intros S1 S2 C1 C2 f Hf key. unfold complete_per. apply through_bind; [by apply encode_per_natural|]. intros n k.
  apply through_if; [done|]. apply through_if; [|done]. rewrite (consume_through f Hf). by destruct (consume [0] k).
Qed.

Lemma per_delivers t : per_dom t -> exists octets, app_octets ATS_UNALIGNED_BASIC_PER t octets (Z.of_nat (length octets)) /\
  delivers (fun S C key => complete_per t key) octets /\
  uper_decode_complete octets = Some (RC_OK, Z.of_nat (length octets), Some t).
Proof using PL.
  intros Hd. destruct (uper_encode_ok (S := chunk_log) t {| chunks := [] |} Hd) as (log & Hr & Hok & Hbits); [done|].
  pose proof (octets_of_pad8 _ _ Hbits) as Hlen. unfold octets_of in Hlen. cbn [app_octets].
  destruct (per_bits t) as [|b bs] eqn:Eb.
  - assert (Hw : written log = []).
    { apply nil_length_inv. change (Z.of_nat (length (written log)) = 0) in Hlen. lia. }
    destruct (consume_append [0] log) as (log' & Hc & Hw'). exists [0].
    split; [split; [repeat constructor; lia|done]|]. split.
    + eapply natural_delivers; [apply complete_natural| |rewrite Hw', Hw; reflexivity]. unfold complete_per. rewrite Hr. cbn [length Z.of_nat mbind option_bind Z.eqb].
      rewrite Hc. done.
    + unfold uper_decode_complete. rewrite (uper_decode_front t [0] (bytes_bits [0])); [by rewrite Eb|done|repeat constructor; lia|by rewrite Eb].
  - exists (written log). split; [done|]. split.
    + eapply natural_delivers; [apply complete_natural| |reflexivity]. unfold complete_per. rewrite Hr. cbn [mbind option_bind].
      rewrite !(proj2 (Z.eqb_neq _ _)) by (cbn; lia). rewrite shiftr_div, Hlen by lia. done.
    + unfold uper_decode_complete. rewrite (uper_decode_ok t) by (done || by rewrite Eb). rewrite Eb. cbn [mbind option_bind].
      rewrite (proj2 (Z.eqb_neq _ _)) by (cbn; lia). cbn [negb]. rewrite shiftr_div, Hlen by lia. done.
Qed.

Lemma xer_delivers t canonical : app_dom ATS_BASIC_XER t ->
  let text := element xml_tag (xer_text t 1 canonical) in let octets := text ++ if canonical then [] else [10] in
  delivers (fun S C key => xer_encode t canonical key) octets /\
  with_value (@xer_value T XT) (xer_decode None octets) = Some (RC_OK, Z.of_nat (length text), Some (xer_norm canonical t)).
Proof using XL XN.
  intros (Hd & Htag & Hname) text octets. split.
  - destruct (xer_encode_emits (S := chunk_log) t canonical Hd {| chunks := [] |}) as (log & Hr & Hw).
    eapply natural_delivers; [|exact Hr|exact Hw]. intros S1 S2 C1 C2 f Hf key. by apply (xer_encode_alike f Hf t canonical).
  - destruct (xer_decode_ok Htag Hname t 1 canonical (if canonical then [] else [10]) Hd) as (st & Hr & Hv).
    unfold octets, text. rewrite Hr. cbn. by rewrite Hv.
Qed.

Lemma app_codec_ok syntax t : app_dom syntax t -> exists octets consumed, app_octets syntax t octets consumed /\ app_codec syntax t octets consumed.
Proof using All.
  intros Hd. destruct syntax; try done.
  1,2: exists (der_of 0 0 t), (Z.of_nat (length (der_of 0 0 t))); split; [done|]; by apply ber_delivers.
  1,2: exists (oer_octets t), (Z.of_nat (length (oer_octets t))); split; [done|]; by apply oer_delivers.
  1,2: destruct (per_delivers t Hd) as (octets & Ho & Hc); exists octets, (Z.of_nat (length octets)); split; [exact Ho|exact Hc].
  - exists (element xml_tag (xer_text t 1 false) ++ [10]), (Z.of_nat (length (element xml_tag (xer_text t 1 false)))).
    split; [|exact (xer_delivers t false Hd)]. split; [done|]. rewrite length_app. cbn [length]. lia.
  - exists (element xml_tag (xer_text t 1 true)), (Z.of_nat (length (element xml_tag (xer_text t 1 true)))). split; [done|].
    pose proof (xer_delivers t true Hd) as H. cbv zeta in H. by rewrite app_nil_r in H.
Qed.
End Lawful.

(** *** The buffers *)

Section Buffers.
Context {T : Type} (op : asn_TYPE_operation T) (syntax : asn_transfer_syntax) (t : T) (octets : list Z).
Context (Hdel : delivers (fun S C key => asn_encode_internal op syntax (Some t) key) octets).

Lemma encode_ok {S} `{A : AppendConsumer S} (key : S) : exists key',
  asn_encode op syntax (Some t) (Some H) key = Some (Z.of_nat (length octets), key') /\ written key' = written key ++ octets.
Proof using Hdel.
  destruct Hdel as (cs & <- & He). exists (hand_over cs key). split; [|apply hand_over_written].
  unfold asn_encode. rewrite He by apply catch_patient, append_patient. by rewrite hand_over_catch by apply append_patient.
Qed.

Lemma to_buffer_ok buffer size : (buffer = None -> size = 0) -> 0 <= size <= Z.of_nat (length (default [] buffer)) ->
  exists memory', asn_encode_to_buffer op syntax (Some t) buffer size = Some (Z.of_nat (length octets), memory') /\
    stored_in (default [] buffer) size octets memory'.
Proof using Hdel.
  intros Hnull Hs. destruct Hdel as (cs & <- & He). unfold asn_encode_to_buffer.
  replace ((0 <? size) && bool_decide (buffer = None)) with false.
  2: { destruct buffer as [m|]; [by rewrite bool_decide_false, andb_false_r|]. by rewrite Hnull. }
  rewrite He by done. cbn [mbind option_bind]. revert Hs. generalize (default [] buffer) as memory. intros memory Hs'.
  destruct (hand_over_overrun memory size cs Hs' [] {| oe_memory := memory; oe_buffer_size := size; oe_computed_size := 0 |}) as [Hc Hk].
  { split; [done|]. rewrite decide_True by (cbn; lia). done. }
  cbn [app] in Hc, Hk. rewrite Hc, Z.eqb_refl, andb_false_r. eexists. split; [reflexivity|].
  destruct (decide _) as [Hfit|Hover]; destruct Hk as [_ Hk]; [|exact Hk]. rewrite Hk. by exists (concat cs).
Qed.

Lemma to_new_buffer_ok malloc reallocs : Z.of_nat (length octets) < 2 ^ 62 -> exists kept : bool,
  asn_encode_to_new_buffer op malloc reallocs syntax (Some t) = Some (Z.of_nat (length octets), if kept then Some (octets ++ [0]) else None) /\
  (malloc = false -> kept = false) /\ (malloc = true -> Forall (eq true) reallocs -> kept = true).
Proof using Hdel.
  intros Hlen. destruct Hdel as (cs & <- & He). unfold asn_encode_to_new_buffer. rewrite He by done. cbn [mbind option_bind].
  set (key := {| de_buffer := _; de_buffer_size := _; de_computed_size := _; de_reallocs := _ |}).
  destruct (hand_over_dynamic cs [] key) as ([Hc Hk] & Hnone & Hsome); [done| |].
  { split; [done|]. cbn. by destruct malloc. }
  cbn [app] in Hc, Hk. rewrite Hc, Z.eqb_refl, andb_false_r. exists (bool_decide (is_Some (de_buffer (hand_over cs key)))).
  destruct (de_buffer (hand_over cs key)) as [stored|] eqn:E.
  - destruct Hk as (-> & _ & Hroom). rewrite (proj2 (Z.ltb_lt _ _) Hroom), Nat2Z.id, firstn_all, bool_decide_true by eauto.
    split; [done|]. split; [|done]. intros ->. by specialize (Hnone eq_refl).
  - rewrite bool_decide_false by by intros [? ?]. split; [done|]. split; [done|]. intros -> Hr. by destruct (Hsome (mk_is_Some _ _ eq_refl) Hr).
Qed.
End Buffers.

Lemma stored_in_bounds memory size octets memory' : 0 <= size <= Z.of_nat (length memory) -> stored_in memory size octets memory' ->
  length memory' = length memory /\ drop (Z.to_nat size) memory' = drop (Z.to_nat size) memory.
Proof.
  intros Hs (stored & _ & Hl & _ & ->). split; [rewrite length_app, length_drop; lia|].
  rewrite drop_app_ge, drop_drop by lia. f_equal. lia.
Qed.

(** *** Random numbers *)

Lemma intmax_range_ok lb ub : - 2 ^ 63 <= lb -> lb <= ub -> ub < 2 ^ 63 -> asn__intmax_range lb ub = Some (ub - lb).
Proof.
  intros Hl Hlu Hu. change (2 ^ 63) with 9223372036854775808 in *. unfold asn__intmax_range. rewrite (proj2 (Z.leb_le _ _) Hlu). cbn [negb].
  destruct (Z.ltb_spec ub 0), (Z.ltb_spec lb 0); cbn [Bool.eqb]; try lia.
  1,3: by rewrite u64_small by (change (2 ^ 64) with 18446744073709551616; lia).
  rewrite (u64_small ub), (u64_small (- (lb + 1))), (u64_small (ub + - (lb + 1))), u64_small; try (change (2 ^ 64) with 18446744073709551616; lia).
  f_equal. lia.
Qed.

Lemma gather_nonneg : forall fuel rand range got value v, 0 <= value -> gather_entropy fuel rand range got value = Some v -> 0 <= v.
Proof.
  induction fuel as [|fuel IH]; intros rand range got value v Hv; [done|]. cbn [gather_entropy].
  destruct (got <? range); [|by intros [= <-]]. apply IH. apply Z.lor_nonneg.
  split; [unfold u64; apply Z.mod_pos_bound; lia|apply Z.mod_pos_bound; lia].
Qed.

(** Three rounds give 64 bits. *)
Lemma gather_ends rand range value : range < INTMAX_MAX -> is_Some (gather_entropy 4 rand range 0 value).
Proof.
  intros Hr. unfold INTMAX_MAX in Hr. change (2 ^ 63) with 9223372036854775808 in Hr. cbn [gather_entropy].
  change (Z.lor (u64 (0 ≪ 24)) 16777215) with 16777215. change (Z.lor (u64 (16777215 ≪ 24)) 16777215) with 281474976710655.
  change (Z.lor (u64 (281474976710655 ≪ 24)) 16777215) with 18446744073709551615.
  destruct (0 <? range); [|by eexists]. destruct (16777215 <? range); [|by eexists]. destruct (281474976710655 <? range); [|by eexists].
  rewrite (proj2 (Z.ltb_ge _ _)) by lia. by eexists.
Qed.

(** ** Properties *)

(** C20: Every syntax through the application interface.  For a type whose codecs
    keep their contracts and a value in the domain of a transfer syntax (BER,
    DER, basic and canonical OER, unaligned PER and XER), [asn_encode] hands a
    caller's callback exactly the octets of the encoding (of PER a complete
    one, one octet at least), counts them, and no assertion of it fails;
    [asn_decode] in the same syntax succeeds on these octets with the value as
    the syntax keeps it, and takes all of them but the line feed behind basic
    XER. *)
Theorem application_roundtrip {T} `{BL : BerTypeLaws T} `{BN : !DerNatural T} `{OL : OerTypeLaws T} `{PL : PerTypeLaws T}
    `{XL : XerTypeLaws T} `{XN : !XerNatural T} print fill syntax (t : T) : app_dom syntax t ->
  exists octets consumed, app_octets syntax t octets consumed /\
    (forall S (C : Consumer S) (A : AppendConsumer S) (key : S), exists key',
      asn_encode (lawful_ops print fill) syntax (Some t) (Some C) key = Some (Z.of_nat (length octets), key') /\
      written key' = written key ++ octets) /\
    asn_decode (lawful_ops print fill) syntax octets = Some (RC_OK, consumed, Some (app_norm syntax t)).
Proof.
  intros Hd. destruct (app_codec_ok print fill syntax t Hd) as (octets & consumed & Ho & Hdel & Hdec).
  exists octets, consumed. split; [exact Ho|]. split; [|exact Hdec]. intros S C A key. by apply encode_ok.
Qed.

(** C21: [asn_encode_to_buffer] is to a value what snprintf is to a text.  Whatever
    the size of the buffer, it returns the size of the whole encoding, no
    octet behind the buffer changes, and the buffer holds a front of the
    encoding (whole chunks of it), all of it when it fits; a null buffer of
    size 0 measures the value. *)
Theorem encode_to_buffer_bounded {T} `{BL : BerTypeLaws T} `{BN : !DerNatural T} `{OL : OerTypeLaws T} `{PL : PerTypeLaws T}
    `{XL : XerTypeLaws T} `{XN : !XerNatural T} print fill syntax (t : T) : app_dom syntax t ->
  exists octets consumed, app_octets syntax t octets consumed /\
    (forall memory size, 0 <= size <= Z.of_nat (length memory) -> exists memory',
      asn_encode_to_buffer (lawful_ops print fill) syntax (Some t) (Some memory) size = Some (Z.of_nat (length octets), memory') /\
      stored_in memory size octets memory' /\ length memory' = length memory /\
      drop (Z.to_nat size) memory' = drop (Z.to_nat size) memory) /\
    asn_encode_to_buffer (lawful_ops print fill) syntax (Some t) None 0 = Some (Z.of_nat (length octets), []).
Proof.
  intros Hd. destruct (app_codec_ok print fill syntax t Hd) as (octets & consumed & Ho & Hdel & _).
  exists octets, consumed. split; [exact Ho|]. split.
  - intros memory size Hs. destruct (to_buffer_ok _ _ _ _ Hdel (Some memory) size ltac:(done) Hs) as (memory' & Hr & Hst).
    exists memory'. split; [exact Hr|]. split; [exact Hst|]. by apply (stored_in_bounds _ _ octets).
  - destruct (to_buffer_ok _ _ _ _ Hdel None 0 ltac:(done) ltac:(cbn; lia)) as (memory' & Hr & Hst). rewrite Hr.
    destruct (stored_in_bounds [] 0 octets memory' ltac:(cbn; lia) Hst) as [Hl _]. by destruct memory'.
Qed.

(** C22: [asn_encode_to_new_buffer] when memory runs out.  Whichever of its
    allocations fail, it returns the size of the whole encoding; with it the
    encoding and a terminating zero when none fails, and no buffer when the
    first one does; never a part of the encoding.  None of its assertions
    fails and its growing always ends.  (When a value cannot be encoded the
    buffer is returned all the same.) *)
Theorem encode_to_new_buffer_whole {T} `{BL : BerTypeLaws T} `{BN : !DerNatural T} `{OL : OerTypeLaws T} `{PL : PerTypeLaws T}
    `{XL : XerTypeLaws T} `{XN : !XerNatural T} print fill syntax (t : T) : app_dom syntax t ->
  exists octets consumed, app_octets syntax t octets consumed /\
    (Z.of_nat (length octets) < 2 ^ 62 -> forall malloc reallocs, exists kept : bool,
      asn_encode_to_new_buffer (lawful_ops print fill) malloc reallocs syntax (Some t) =
        Some (Z.of_nat (length octets), if kept then Some (octets ++ [0]) else None) /\
      (malloc = false -> kept = false) /\ (malloc = true -> Forall (eq true) reallocs -> kept = true)) /\
    asn_encode_to_new_buffer (lawful_ops print fill) true [] ATS_CER (Some t) = Some (-1, Some [0]).
Proof.
  intros Hd. destruct (app_codec_ok print fill syntax t Hd) as (octets & consumed & Ho & Hdel & _).
  exists octets, consumed. split; [exact Ho|]. split; [|reflexivity]. intros Hlen malloc reallocs. by apply to_new_buffer_ok.
Qed.

(** [asn_random_between] stays between its bounds.  Whatever rand() gives,
    for bounds of an intmax_t less than INTMAX_MAX apart, it ends within three
    rounds, no assertion of it fails, nothing overflows in the range, and its result is
    one of the numbers from the lower to the upper bound. *)
Theorem random_between_bounds rand lb rb : - 2 ^ 63 <= lb -> lb <= rb -> rb < 2 ^ 63 -> rb - lb < INTMAX_MAX ->
  exists v, asn_random_between rand lb rb = Some v /\ lb <= v <= rb.
Proof.
  intros Hl Hlr Hr Hd. unfold asn_random_between. destruct (Z.eqb_spec lb rb) as [<-|Hne]; [exists lb; split; [done|lia]|].
  rewrite intmax_range_ok by done. cbn [mbind option_bind]. rewrite (proj2 (Z.ltb_lt _ _) Hd). cbn [negb].
  destruct (gather_ends rand (rb - lb) 0 Hd) as [value Hg]. rewrite Hg. cbn [mbind option_bind].
  pose proof (gather_nonneg 4 rand (rb - lb) 0 0 value ltac:(lia) Hg) as Hv. unfold INTMAX_MAX in Hd. change (2 ^ 63) with 9223372036854775808 in *.
  rewrite u64_small by (change (2 ^ 64) with 18446744073709551616; lia). pose proof (Z.mod_pos_bound value (rb - lb + 1) ltac:(lia)) as Hm.
  exists (lb + value mod (rb - lb + 1)). rewrite s64_small by (change (2 ^ 63) with 9223372036854775808; lia). split; [done|lia].
Qed.

(** *** At concrete inputs *)

Section Sample.
Definition flag_tag : list Z := [102; 108; 97; 103].
#[local] Instance flag_ber : BerType BOOLEAN_t := BOOLEAN_ber (replicate 32 0) [4].
#[local] Instance flag_xer : XerType BOOLEAN_t := BOOLEAN_xer flag_tag.
#[local] Instance flag_ber_laws : BerTypeLaws BOOLEAN_t := boolean_ber_laws (replicate 32 0) [4] eq_refl ltac:(cbn; lia) ltac:(repeat constructor; done).
#[local] Instance flag_oer_laws : OerTypeLaws BOOLEAN_t := boolean_oer_laws.
#[local] Instance flag_xer_laws : XerTypeLaws BOOLEAN_t := boolean_xer_laws flag_tag.
#[local] Instance flag_der_natural : DerNatural BOOLEAN_t := boolean_der_natural _ _.
#[local] Instance flag_xer_natural : XerNatural BOOLEAN_t := boolean_xer_natural _.

Definition off : BOOLEAN_t := {| bool_int := 0 |}.

Lemma application_roundtrip_witness :
  app_dom ATS_BASIC_XER off /\
  exists octets consumed, app_octets ATS_BASIC_XER off octets consumed /\
    (forall S (C : Consumer S) (A : AppendConsumer S) (key : S), exists key',
      asn_encode (lawful_ops None None) ATS_BASIC_XER (Some off) (Some C) key = Some (Z.of_nat (length octets), key') /\
      written key' = written key ++ octets) /\
    asn_decode (lawful_ops None None) ATS_BASIC_XER octets = Some (RC_OK, consumed, Some (app_norm ATS_BASIC_XER off)).
Proof.
  assert (Hd : app_dom ATS_BASIC_XER off).
  { split; [exact I|]. split; [split; [eexists; split; reflexivity|repeat constructor]|split; discriminate]. }
  split; [exact Hd|]. exact (application_roundtrip None None ATS_BASIC_XER off Hd).
Defined.

Lemma encode_to_buffer_bounded_witness :
  exists octets consumed, app_octets ATS_UNALIGNED_BASIC_PER off octets consumed /\
    (forall memory size, 0 <= size <= Z.of_nat (length memory) -> exists memory',
      asn_encode_to_buffer (lawful_ops None None) ATS_UNALIGNED_BASIC_PER (Some off) (Some memory) size = Some (Z.of_nat (length octets), memory') /\
      stored_in memory size octets memory' /\ length memory' = length memory /\
      drop (Z.to_nat size) memory' = drop (Z.to_nat size) memory) /\
    asn_encode_to_buffer (lawful_ops None None) ATS_UNALIGNED_BASIC_PER (Some off) None 0 = Some (Z.of_nat (length octets), []).
Proof. apply (encode_to_buffer_bounded None None ATS_UNALIGNED_BASIC_PER off). by left. Defined.

Lemma encode_to_new_buffer_whole_witness :
  exists octets consumed, app_octets ATS_CANONICAL_OER off octets consumed /\
    (Z.of_nat (length octets) < 2 ^ 62 -> forall malloc reallocs, exists kept : bool,
      asn_encode_to_new_buffer (lawful_ops None None) malloc reallocs ATS_CANONICAL_OER (Some off) =
        Some (Z.of_nat (length octets), if kept then Some (octets ++ [0]) else None) /\
      (malloc = false -> kept = false) /\ (malloc = true -> Forall (eq true) reallocs -> kept = true)) /\
    asn_encode_to_new_buffer (lawful_ops None None) true [] ATS_CER (Some off) = Some (-1, Some [0]).
Proof. apply (encode_to_new_buffer_whole None None ATS_CANONICAL_OER off). by left. Defined.
End Sample.

Lemma random_between_bounds_witness :
  exists v, asn_random_between (fun i => Z.of_nat i) (-5) 100000000000 = Some v /\ -5 <= v <= 100000000000.
Proof. apply (random_between_bounds (fun i => Z.of_nat i) (-5) 100000000000); [lia|lia|lia|]. unfold INTMAX_MAX. lia. Defined.

(** A chunk is stored as a whole or not at all:
    once the second of four does not fit nothing more is stored. *)
Example overrun_stops :
  let key := hand_over [[60]; chars "boundaries"; [62]; [10]] {| oe_memory := replicate 8 255; oe_buffer_size := 4; oe_computed_size := 0 |} in
  oe_computed_size key = 13 /\ oe_memory key = 60 :: replicate 7 255.
Proof. done. Qed.
